(* ===== verification/_CoqProject ===== *)
-Q . S2P
Prelude.v
LibC.v
RegexToken.v
RegexCompile.v
RegexClass.v
RegexMatch.v
RegexSem.v
RegexParse.v
RegexBuild.v
RegexSim.v
RegexCorrect.v
RegexTheorems.v
RegexPrint.v
RegexCount.v
Wildcard.v
Rfc1459.v
Inet.v
Match.v
LogModes.v
FlagDefs.v
FlagSanity.v
FlagText.v
UserRec.v
Strings.v
Ratelimit.v
Base64.v
MsgQueue.v
MsgQueueSpec.v
MsgQueueProps.v
Deque.v
Vec.v
Htab.v
HtabRing.v
HtabMap.v
HtabProps.v
CidrTbl.v
CidrProps.v
MaskLists.v
MaskProps.v
MaskTrie.v
ModeQueue.v
ModeQueueProps.v
Botnet.v
Botcmd.v
BotnetTree.v
BotnetSpec.v
BotnetUnlink.v
BotnetSafe.v
BotnetHandlers.v
BotnetLine.v
BotnetProps.v
BotnetTell.v
Ignores.v
IgnoreProps.v
MaskFile.v
MaskFileProps.v
UserSort.v
UserHosts.v
UserIndex.v
UserIndexProps.v
UserEntry.v
UserEntryProps.v
UserFile.v
UserEntryTypes.v
UserFileProps.v
Linebuf.v
Mbuf.v
Sockets.v
SocketsIn.v
SocketsProps.v
SocketsOut.v
SocketsReaders.v
Binds.v
BindsCmds.v
BindsMap.v
BindsSpec.v
BindsRun.v
BindsLive.v
BindsRuns.v
