(* ===== verification/Prelude.v ===== *)
(** * Eggdrop: a verification library

    Eggdrop is an IRC bot.  This library models the parts of it that decide {e who} and
    {e what}: the matching of text, masks, addresses and times, the flags that give
    users and bots their rights, the queues through which the bot speaks to the server
    and changes the modes of channels, the network of linked bots, the commands that scripts
    bind to what happens, the files and sockets
    that carry all this, and the buffers and containers below them.  The C sources are under src/src (the bot) and src/libop (its support library).

    {b Parts and files.}  The files build on each other in the order of _CoqProject.

    - [Prelude] (this file): bytes and C strings, machine integers, bit tests, the
      [result] type, automation.  [LibC]: the C library functions the sources call
      (character classes in the C locale, which are those of UTF-8 locales for single
      bytes; [strchr], [strstr], [strtol], [sscanf] with %d).
    - The regex engine, libop/src/regex.c.  [RegexToken]: class bitmaps, bracket
      expressions, [tokenise].  [RegexCompile]: [cat_inject], [shunt], [build_nfa],
      [compute_metadata], [op_regex_compile].  [RegexMatch]: [addstate],
      [op_regex_match], [op_regex_search].  [RegexSem] is its abstract specification:
      regular expressions [re_ast] with their denotation [den], a relation between
      positions of the text.  The proofs go from the source to it in steps:
      [RegexClass] (bitmaps are sets of bytes), [RegexParse] (infix to postfix to
      [re_ast]), [RegexBuild] (the automaton of [build_nfa] is wired as the
      expression), [RegexSim] ([addstate] explores the zero-width
      edges), [RegexCorrect] (an active list holds the states from which the rest of
      the text is accepted).  [RegexTheorems]: the engine decides the denotation and
      the search is leftmost-longest.  [RegexPrint]: printing an expression and
      compiling it.  [RegexCount]: counted repetition.
    - [Wildcard], src/match.c: IRC masks are translated to regular expressions by
      [irc_to_ere]; with the regex theorems, the two matchers are glob matching.
    - [Rfc1459], src/rfc1459.c: case mapping and comparison of names.
    - [Inet], [op_inet_pton] of libop/src/commio.c and [comp_with_mask] of
      src/match.c: text to binary addresses.  [Match], the rest of src/match.c:
      [cidr_match], [addr_match], [mask_match], [collapse], [cron_match].
    - [LogModes], src/flags.c: log levels and their letters.
    - [FlagDefs], src/flags.h and src/flags.c: the flags and the sanity checks that
      remove conflicting ones; [FlagSanity]: what they establish.
    - [FlagText], src/flags.c: [break_down_flags], [build_flags], [flagrec_ok] and
      [flagrec_eq].
    - [UserRec], src/userent.c and src/flags.c: the entries of a user record and the
      functions that store and read flags.

    - [Strings], src/misc.c: bounded copies, [splitc] and its relatives, [maskaddr],
      [dumplots], [str_escape] and [strchr_unescape].
    - [Ratelimit], libop/include/op_ratelimit.h: the token bucket.
    - [Deque], libop/src/deque.c: the circular buffer.  [Vec], libop/src/vec.c: dynamic
      arrays.  [Mbuf], src/compat/mbuf.c: the ring of bytes that wait to be sent.
    - The hash table, libop/src/htab.c.  [Htab]: the Robin Hood table, generic in a class
      of keys ([HtabKey], the function pointers) with the three kinds of the code as
      instances.  [HtabRing]: the slots as a ring and the invariant of the probe
      distances.  [HtabMap]: the contract of keys ([HtabKeyLaws]), the invariant [wf], the
      finite map [abs] and each operation on it.  [HtabProps]: sequences of operations,
      iteration with deletion, merging.
    - The table of networks, libop/src/cidr_tbl.c.  [CidrTbl]: the two binary tries, their
      enumeration, the reading of prefixes.  [CidrProps]: the trie as a function from bit
      strings, sequences of operations, what enumeration visits.
    - The lists of bans, exempts and invites, src/mod/channels.mod/userchan.c, on the two
      containers.  [MaskLists]: a list with its hash table and its table of prefixes, the
      operations, and what the reader of the user file (src/users.c) does to a list.
      [MaskProps]: the hash table as an index of the list.  [MaskTrie]: the table of
      prefixes and the matching of masks ([Match]).
    - The message queues, src/mod/server.mod/server.c.  [MsgQueue]: the three queues as
      linked lists in a store of nodes, in a monad with state and faults;
      [queue_server], [deq_msg] and what they call, with [Ratelimit] as the second
      guard of sending.  [MsgQueueSpec] is their contract: the queues as lists of lines
      and the operations on them ([spec_op]), the heap predicate [rep] that relates the
      two, and the simulation of every operation.  [MsgQueueProps]: the refinement and
      what follows from it for order, bounds, progress and the flood limit, and what
      the optimisations (merging kicks, stacking commands) that are switched on for some networks
      do to the store.
    - The mode queue, src/mod/irc.mod/mode.c.  [ModeQueue]: [real_add_mode] and
      [flush_mode]; the lines are for [MsgQueue]'s [DP_MODE] and [DP_SERVER].
      [ModeQueueProps]: a decoder of MODE lines, as a server reads them, and what
      requests and lines mean under it.
    - The network of bots.  [Base64]: the numbers of its protocol (src/botmsg.c,
      src/botcmd.c).  [Botnet]: the list of linked bots with its hash table ([Htab]), the
      people on them and the connections, in a monad with state and faults; the operations
      on them (src/botnet.c, [lostdcc] of src/dccutil.c) and the messages that are sent
      (src/botmsg.c).  A node has an address, and reading one that is not in the list is a
      fault.  [Botcmd]: the commands of a linked bot (src/botcmd.c), [bot_version] and the
      ends of a connection (src/dcc.c), unlinking and the pings (src/botnet.c).
      [BotnetLine]: the table of commands and what happens to the network, one step after
      the other.  [BotnetTree]: a list with uplinks as a tree, and what is behind a bot.
      [BotnetSpec]: the invariant of the tables ([net_ok]) and weakest preconditions.
      [BotnetUnlink]: the people, what an unlink removes, the
      sizes of subtrees.  [BotnetSafe], [BotnetHandlers]: the invariant of all tables
      ([net_inv]), kept by every operation and every handler.  [BotnetProps]: the
      properties.  [BotnetTell]: the tree that a new neighbour is told, and
      concrete runs, among them those that fail.
    - Ignores, users and the user file (src/users.c, src/userrec.c, src/userent.c).
      [Base64]: the numbers of the file.  [Ignores]: the list of ignores, its expiry as a
      walk along links, what other bots are told and do (src/mod/share.mod/share.c), its
      lines in the file; [IgnoreProps].  [MaskFile]: the sections of masks and ignores
      ([write_bans] and its relatives of channels.mod/userchan.c, [readuserfile]), on the
      lists of [MaskLists]; [MaskFileProps].  [UserSort]: [sort_userlist].  [UserHosts]:
      the masks of a user and the search of a user by address.  [UserIndex]: the list of
      users with its table of names ([Htab]) and the shortcuts of [get_user_by_handle],
      [adduser], [deluser], [change_handle]; [UserIndexProps]: they answer what the list
      answers.  [UserEntry]: the entries of a user by their types (src/userent.c), how each
      is set, told to other bots, written and unpacked, and [u_pass_match];
      [UserEntryProps]: lists of entries as maps from types, and passwords;
      [UserEntryTypes]: every entry has a value of its type.  [UserFile]: all of
      [write_userfile] and of [readuserfile], with the users, on [MaskFile] for the rest;
      [UserFileProps]: the file as a whole is read back.
    - Sockets.  [Linebuf], libop/src/linebuf.c: lines out of the chunks that arrive,
      which are the lines that were sent.  [Sockets], src/net.c, src/async_recv.c and the buffers of
      src/dccutil.c, generic in [LineBuffer], the interface to the line buffers: the table of
      sockets, the callbacks of the event loop, the jobs of the reading threads, [sockread],
      [sockgets], [tputs] and [dequeue_sockets].  [SocketsIn]: what is asked of two kinds of
      line buffers for the code to behave the same on both ([Simulates]); [SocketsProps]: the
      real ones against streams of bytes.  [SocketsOut]: what reaches the system of what is
      written.  [SocketsReaders]: how many threads read a socket.
    - Binds, src/tclhash.c.  [Binds]: the tables, their masks and the commands at them, with
      the hash tables; [bind] and [unbind], the collection of garbage, and the walk that calls
      procedures ([check_tcl_bind]).  [BindsCmds]: the commands of a mask.  [BindsMap]: the
      invariant of the tables.  [BindsSpec]: tables as a map, and the refinement.
      [BindsRun]: which procedures are called.  [BindsLive]: procedures that bind and unbind
      while they are called.  [BindsRuns]: concrete runs, the events of the bot,
      its start and its end.

    {b How code becomes definitions.}  A definition has the name of the C function.  A
    [char] is a [Z] from 0 to 255 and a string the list of its bytes before the NUL; a
    pointer into a string is the suffix that starts there, and what a function does
    through a pointer argument is part of its result.  An [int] is a [Z]; where the
    code wraps or narrows, [u8], [u32], [u64] and [i32] are written out, and where C
    leaves signed overflow undefined the model takes it not to happen.  Fixed buffers
    keep their sizes as tests in the code do.  A loop over a string is structural
    recursion or has fuel; a failure is a value of [result] or [option].

    {b Fuel.}  [class_loop], [tok_loop], [ere_loop] and [cron_loop] get the length of
    their string, and every turn consumes a byte.  [collect_first_states] and
    [addstate] recurse through unvisited states and get one more than there are
    states.  None of them is a limit of the code: [tokenise_terminates] and the
    correctness theorems of the matchers hold for every input.

    {b What the theorems show.}  The regex engine decides the language of the pattern
    and searches leftmost-longest, a printed expression (with character classes, for flags 0) compiles
    to itself, its state pool is large enough ([RegexTheorems], [RegexPrint]); wildcard matching is glob matching, up
    to the size of the translation buffer ([Wildcard]); comparison of names, which texts
    are addresses, network masks, hostmasks, collapsing and cron masks ([Rfc1459],
    [Inet], [Match]); log levels read back; the sanity checks leave sane flags; flag
    strings read back and more flags never take a bind away ([FlagSanity], [FlagText]);
    the entries and flags of user records ([UserRec]).  [maskaddr] makes masks that match
    their address, [dumplots] cuts a text into lines and loses nothing, escaping reads
    back ([Strings]); the token bucket never lets through more than its capacity and its
    rate ([Ratelimit]); the deque and the arrays refine lists ([Deque], [Vec]), the hash table finite maps
    ([HtabProps]) and the table of networks maps from bit strings ([CidrProps]).  The
    tables beside a list of masks answer what the list answers ([MaskProps], [MaskTrie]), the
    hash table until a mask is added again, which is a fault; the other exceptions are theorems
    too.  The message queues refine
    queues of lines, without a memory fault but the one of stacked commands and the one of merged kicks; sending respects the priority of the
    queues, every line queued is sent, the queues stay within their limit and the lines
    sent within the flood limit ([MsgQueueProps]).  A line of the mode queue means the
    changes that were pending; requests keep the invariant that the queue fits one line,
    and lose and double nothing ([ModeQueueProps]).  Whatever lines linked bots send
    (but [ul] and what is said at the theorem), the
    tables of the network stay right and nothing faults; the loss of a link takes away
    what was behind it, as announced, and routes lead to the link that matters; a bot
    that is told the tree has a copy of it ([BotnetProps], [BotnetTell]).  Ignores that are
    over go and two bots that share them have the same list ([IgnoreProps]); the
    entries of a user stay well typed whatever is done to them through [set_user], and a plain password that has been
    set is accepted ([UserEntryTypes], [UserEntryProps]); users, masks and ignores survive
    the user file, within the limits of its lines ([UserFileProps], with [MaskFileProps]); sorting users is a stable sort
    ([UserSort]); a user is found by the first of the masks with the best score ([UserHosts]) and by name as in
    the list, whatever the shortcut ([UserIndexProps]).  A line buffer gives the lines of the
    stream of bytes that arrived, however it was cut ([Linebuf]), and [sockgets] on real
    buffers what it gives on streams, until nothing is left ([SocketsProps]); what is written
    to a socket leaves in order ([SocketsOut]), and as long as no number of a socket is used
    again each has one reader ([SocketsReaders]).  Bind tables are a map from tables, masks and
    procedures to flags, whatever is bound, unbound and collected ([BindsSpec]); what runs at
    an event is what matches and fits, in order ([BindsRun]), and the walk over a table is
    safe while procedures change it, but for one null pointer and for a read behind a short name ([BindsLive]).

    Theorems named after a surprise state behaviour that the comments of the code or its
    intent do not have: [open_count_is_literal], [anchored_alternative],
    [long_mask_truncated], [inet_pton6_skips_junk], [huge_prefix_matches_all],
    [cron_range_step_unbounded], [cron_day_ignored], [cron_seven_first], [cron_sunday_lost], [sanity_exceptions],
    [default_flags_overflow], [find_user_entry_null], [dangling_escape],
    [dumplots_stuck], [ratelimit_starves], [big_penalty_forgiven], [kick_merge_dangles],
    [fast_deq_frees_slab], [rename_garbles], [reserve_overflow], [request_order_lost],
    [letters_overflow], [mixing_after_flush], [returned_twice],
    [trie_ignores_user], [loaded_mask_unindexed], [cleared_list_dangles],
    [delete_number_zero], [update_frees_key], [ghost_freed], [leaf_freed],
    [traced_overflow], [party_ghost], [unaway_kept], [base64_limit],
    [numeric_ignore_endless], [numeric_ignore_takes_others], [numeric_ignore_frees],
    [ends_now], [delhost_wipes_when_missing], [get_user_by_host_first], [first_user_lost],
    [renamed_key_freed], [brackets_differ], [corrected_name_cut], [pass2_change],
    [xtra_change], [plus_keeps_old], [plus_frees_pass], [freed_password_read],
    [minus_matches], [long_bot_password], [laston_wraps], [long_comment_makes_user],
    [corrupt_line_adds], [tab_name_faults], [key_with_space], [address_cut],
    [bsearch_not_first], [move_adds_missing], [reserve_wraps], [long_line_dropped],
    [long_line_continues], [line_of_nuls], [safe_write_interrupted], [safe_write_twice],
    [growth_fails], [recycled_gets_old_line], [recycled_two_readers],
    [single_mode_bind_faults], [single_cron_bind_faults], [two_crons], [mode_masks_merge],
    [unbind_takes_other], [collecting_reorders], [short_name_read], [bind_while_called].

    {b Bounds.}  Texts are shorter than 2^32 - 2 bytes where a generation counter of the
    simulation could wrap.  The operator and fragment stacks have 512 entries, as in the
    code.  Allocation succeeds.  A walk along a message queue has the number of nodes
    in the store as fuel, and the loop on the mode queue the turns that [burst] allows;
    the refinement theorem shows that neither runs out.  A probe, an insertion and a shift
    in the hash table have a full turn of the table as fuel, which a table with an empty
    slot never uses up; the bounds of 2^50 on its size keep 2 * cap from wrapping.
    [unvia] recurses as deep as the list of bots is long, and its loop is as long as the
    list: the square of the length is enough.  A network sees at most 2^29 events, so that
    the size of the list of people does not wrap.  The loops of the line buffers have
    the length of what they read, arrays have at most 2^59 elements, a ring less than 2^62
    bytes, and doubling to a size takes at most 64 steps.  Bind tables see at most 2^50
    allocations; the walk over a table has the longest of its arrays as fuel, and with
    procedures that bind while they are called no fuel is enough in general.

    {b Parameters.}  [inet_pton] of the C library, with what is relied on of it in a class
    ([InetPton]) that its IPv4 part is shown to keep.  What a script does with a line
    ([tcl_out]), the members of channels ([on_chan]), the clocks, and the choice of the
    compiler in [last_time += calc_penalty(...)] ([lhs_first]) are parameters of the
    message queues.  The user records that the network of bots reads (the bot flags of a
    name, who is an owner), the texts of the language file and the settings are parameters
    of it ([netconf]).  The encryption modules are parameters of the passwords; a class
    ([Encryption2]) says of the second that it verifies what it has hashed, and a concrete
    one keeps it ([tag_hash]).  What the system reports of sockets and gives to [select],
    [read], [recv] and [write], and the order in which threads end, are a parameter of the
    sockets ([os_env]).  What a Tcl procedure does ([Tcl_VarEval]) is a parameter of the binds:
    its effect on the interpreter, the binds it makes, and its result.  The slab allocator of libop is an allocator of fresh addresses that knows
    which of them are in use.

    {b Not modelled.}  Files, TLS, web sockets, DNS, connecting and proxies; Tcl sockets,
    hooks and what [outdone] does, of the sockets; the rest of scripting (trampolines
    of builtins, the listing of binds, the build without Tcl, Python) and the modules around it; the storage backends; cryptography.  The refinement of
    the message queues covers all settings, but with [optimize_kicks] only queues and lines without
    kicks, and with [use_fastdeq] it ends where two commands are stacked, with a node given to the wrong allocator;
    theorems show both faults.  Of the network of bots: notes ([bot_priv]),
    [bot_infoq], [bot_link], [bot_motd], [bot_starttls], relays, and what scripts bound to
    its events do to its tables; the safety theorem leaves out [bot_unlink], whose fault is
    shown.  Of users: the table of accounts, [clear_userlist], what scripts and the party line
    see of an entry, and the packing of entries for types that come and go with modules; of
    share.c all but the two handlers for ignores; the expiry of masks, which asks the
    channels for their members.  The party line and the handlers of server messages are for
    the most part output around the operations above.  The manifest lists every part with the reason. *)

From Stdlib Require Export ZArith Lia Bool.
From Stdlib Require Import String Ascii.
Export Ascii.AsciiSyntax String.StringSyntax.
From stdpp Require Export base numbers list relations.

#[global] Open Scope Z_scope.

(** ** Bytes and C strings

    A [char] is a [Z] in [0, 256); a C string is the list of its bytes before
    the terminating NUL, so it contains no 0.  A pointer into a string is the
    suffix that starts there. *)

Definition byte_of_ascii (a : ascii) : Z := Z.of_nat (nat_of_ascii a).

(** The bytes of a Rocq string literal. *)
Fixpoint bs (s : string) : list Z :=
  match s with
  | EmptyString => []
  | String a s' => byte_of_ascii a :: bs s'
  end.
Arguments bs _%_string_scope.

Declare Scope egg_scope.
Delimit Scope egg_scope with egg.
#[global] Open Scope egg_scope.

(** [bs "abc"] stands for the byte list of a literal; [ch "a"] is the code of one
    character, as a numeral. *)
Notation "'ch' a" :=
  (ltac:(let v := eval compute in (byte_of_ascii a%char) in exact v))
  (at level 9, a at level 0, only parsing) : egg_scope.

(** A well-formed C string: every byte is in range and none is NUL. *)
Definition cstr (s : list Z) : Prop := Forall (fun c => 0 < c < 256) s.

Lemma cstr_cons c s : cstr (c :: s) <-> 0 < c < 256 /\ cstr s.
Proof. unfold cstr. by rewrite Forall_cons. Qed.

Lemma cstr_app s1 s2 : cstr (s1 ++ s2) <-> cstr s1 /\ cstr s2.
Proof. unfold cstr. by rewrite Forall_app. Qed.

(** ** Machine integers *)

Definition u8 (x : Z) : Z := x mod 2 ^ 8.
Definition u32 (x : Z) : Z := x mod 2 ^ 32.
Definition u64 (x : Z) : Z := x mod 2 ^ 64.
(** Conversion of an integer to [int]: the two's complement of its low 32 bits. *)
Definition i32 (x : Z) : Z := (x + 2 ^ 31) mod 2 ^ 32 - 2 ^ 31.

Lemma i32_small x : - 2 ^ 31 <= x < 2 ^ 31 -> i32 x = x.
Proof. intros H. unfold i32. rewrite Z.mod_small; lia. Qed.

Lemma i32_range x : - 2 ^ 31 <= i32 x < 2 ^ 31.
Proof. unfold i32. pose proof (Z.mod_pos_bound (x + 2 ^ 31) (2 ^ 32)). lia. Qed.

Lemma u32_small x : 0 <= x < 2 ^ 32 -> u32 x = x.
Proof. apply Z.mod_small. Qed.

(** ** C truth values and bit tests *)

(** An [int] used as a condition. *)
Definition truthy (x : Z) : bool := negb (x =? 0).

(** [x &? m]: the condition [x & m]. *)
Notation "x &? m" := (truthy (Z.land x m)) (at level 40) : egg_scope.
(** [x &~ m]: the expression [x & ~m]. *)
Notation "x &~ m" := (Z.land x (Z.lnot m)) (at level 40) : egg_scope.
Notation "x '|||' m" := (Z.lor x m) (at level 50, left associativity) : egg_scope.

Lemma truthy_true x : truthy x = true <-> x <> 0.
Proof. unfold truthy. destruct (Z.eqb_spec x 0); simpl; split; congruence. Qed.

Lemma truthy_false x : truthy x = false <-> x = 0.
Proof. unfold truthy. destruct (Z.eqb_spec x 0); simpl; split; congruence. Qed.

(** A test of a single-bit flag is a test of that bit. *)
Lemma land_pow2_testbit x k : 0 <= k -> (x &? 2 ^ k) = Z.testbit x k.
Proof.
  intros Hk. destruct (Z.testbit x k) eqn:E.
  - apply truthy_true. intros H.
    assert (Z.testbit (Z.land x (2 ^ k)) k = false) by (rewrite H; apply Z.bits_0).
    rewrite Z.land_spec, E, Z.pow2_bits_true in *; simpl in *; congruence.
  - apply truthy_false. apply Z.bits_inj'. intros n Hn.
    rewrite Z.land_spec, Z.bits_0.
    destruct (Z.eq_dec k n) as [<-|Hne]; [rewrite E; done|].
    rewrite Z.pow2_bits_false by done. apply andb_false_r.
Qed.

(** ** Automation *)

(** Case analysis on the condition of the innermost [if]/[match] of the goal. *)
Ltac case_if :=
  match goal with
  | |- context [if ?b then _ else _] => let E := fresh "E" in destruct b eqn:E
  end.

(** Boolean hypotheses to arithmetic ones. *)
Ltac bool_lia :=
  repeat match goal with
  | H : (_ && _)%bool = true |- _ => apply andb_prop in H; destruct H
  | H : (_ || _)%bool = false |- _ => apply orb_false_elim in H; destruct H
  | H : (_ || _)%bool = true |- _ => apply orb_true_iff in H; destruct H
  | H : (_ && _)%bool = false |- _ => apply andb_false_iff in H; destruct H
  | H : negb _ = true |- _ => apply negb_true_iff in H
  | H : negb _ = false |- _ => apply negb_false_iff in H
  end;
  rewrite ?Z.eqb_eq, ?Z.eqb_neq, ?Z.leb_le, ?Z.leb_gt, ?Z.ltb_lt, ?Z.ltb_ge in *;
  try lia.

(** ** Results of fallible operations *)

Inductive result (E A : Type) : Type :=
| Ok (a : A)
| Err (e : E).
Arguments Ok {E A} a.
Arguments Err {E A} e.

Definition rbind {E A B} (r : result E A) (f : A -> result E B) : result E B :=
  match r with Ok a => f a | Err e => Err e end.

Notation "'let!' x := r 'in' k" := (rbind r (fun x => k))
  (at level 10, x pattern, r at level 100, k at level 200) : egg_scope.

Lemma rbind_Ok_inv {E A B} (r : result E A) (f : A -> result E B) b :
  rbind r f = Ok b -> exists a, r = Ok a /\ f a = Ok b.
Proof. destruct r as [a|e]; simpl; intros; [eauto|discriminate]. Qed.

(** ** Hint database of the library *)

Create HintDb egg.
Create Rewrite HintDb egg_bits.
#[export] Hint Resolve i32_range : egg.
#[export] Hint Rewrite land_pow2_testbit Z.land_spec Z.lor_spec Z.bits_0 using lia : egg_bits.
