(* ===== verification/LibC.v ===== *)
(** * The C standard library functions the code calls

    Character classification and case conversion in the C locale (bytes above
    127 are in no class and map to themselves), the string search functions, and
    [strtol]/[sscanf] number parsing.  Nothing here is part of the program: these
    are the library functions of the language, with their documented behaviour. *)

From S2P Require Import Prelude.

(** ** <ctype.h> *)

Definition in_range (lo hi c : Z) : bool := (lo <=? c) && (c <=? hi).

Definition isdigit (c : Z) : bool := in_range 48 57 c.
Definition islower (c : Z) : bool := in_range 97 122 c.
Definition isupper (c : Z) : bool := in_range 65 90 c.
Definition isalpha (c : Z) : bool := islower c || isupper c.
Definition isalnum (c : Z) : bool := isalpha c || isdigit c.
Definition isspace (c : Z) : bool := (c =? 32) || in_range 9 13 c.
Definition isgraph (c : Z) : bool := in_range 33 126 c.
Definition isprint (c : Z) : bool := in_range 32 126 c.
Definition ispunct (c : Z) : bool := isgraph c && negb (isalnum c).
Definition iscntrl (c : Z) : bool := in_range 0 31 c || (c =? 127).

Definition tolower (c : Z) : Z := if isupper c then c + 32 else c.
Definition toupper (c : Z) : Z := if islower c then c - 32 else c.

Lemma tolower_byte c : 0 <= c < 256 -> 0 <= tolower c < 256.
Proof. unfold tolower, isupper, in_range. case_if; bool_lia. Qed.

Lemma tolower_pos c : 0 < c < 256 -> 0 < tolower c < 256.
Proof. unfold tolower, isupper, in_range. case_if; bool_lia. Qed.

Lemma tolower_idem c : tolower (tolower c) = tolower c.
Proof.
  unfold tolower, isupper, in_range.
  destruct (65 <=? c) eqn:E1, (c <=? 90) eqn:E2; simpl; rewrite ?E1, ?E2; simpl; try done.
  case_if; bool_lia.
Qed.

(** Lower-casing fixes every byte that is not an upper-case letter, and hits
    none of them. *)
Lemma tolower_eq_nonalpha c d :
  isalpha d = false -> tolower c = d <-> c = d.
Proof.
  unfold isalpha, tolower, isupper, islower, in_range. intros H.
  case_if; bool_lia.
Qed.

(** ** <string.h> *)

(** [strchr s c] for a non-NUL [c]: the suffix at the first occurrence. *)
Fixpoint strchr (s : list Z) (c : Z) : option (list Z) :=
  match s with
  | [] => None
  | d :: s' => if d =? c then Some s else strchr s' c
  end.

(** [strrchr s c], as the offset of the last occurrence. *)
Fixpoint strrchr (s : list Z) (c : Z) : option nat :=
  match s with
  | [] => None
  | d :: s' =>
      match strrchr s' c with
      | Some i => Some (S i)
      | None => if d =? c then Some O else None
      end
  end.

Definition mem (c : Z) (s : list Z) : bool := existsb (Z.eqb c) s.

Fixpoint streq (a b : list Z) : bool :=
  match a, b with
  | [], [] => true
  | x :: a', y :: b' => (x =? y) && streq a' b'
  | _, _ => false
  end.

(** [strncmp pre s (strlen pre) == 0] *)
Fixpoint prefix_of (pre s : list Z) : bool :=
  match pre, s with
  | [], _ => true
  | x :: pre', y :: s' => (x =? y) && prefix_of pre' s'
  | _ :: _, [] => false
  end.

(** [strstr s pat], as the offset of the first occurrence. *)
Fixpoint strstr (s pat : list Z) : option nat :=
  if prefix_of pat s then Some O
  else match s with
       | [] => None
       | _ :: s' => S <$> strstr s' pat
       end.

Lemma streq_eq a b : streq a b = true <-> a = b.
Proof.
  revert b; induction a as [|x a IH]; intros [|y b]; simpl; split; try done.
  - rewrite andb_true_iff, Z.eqb_eq, IH. intros [-> ->]. done.
  - intros [= -> ->]. rewrite Z.eqb_refl. simpl. by apply IH.
Qed.

Lemma strchr_None s c : strchr s c = None <-> ~ In c s.
Proof.
  induction s as [|d s IH]; simpl; [tauto|].
  destruct (Z.eqb_spec d c); [split; [done|tauto]|]. rewrite IH. tauto.
Qed.

Lemma mem_In c s : mem c s = true <-> In c s.
Proof.
  unfold mem. rewrite existsb_exists. split.
  - intros [x [Hx He]]. apply Z.eqb_eq in He as ->. done.
  - intros H. exists c. by rewrite Z.eqb_refl.
Qed.

Lemma strrchr_Some s c i :
  strrchr s c = Some i -> s !! i = Some c /\ ~ In c (drop (S i) s).
Proof.
  revert i; induction s as [|d s IH]; intros i; simpl; [done|].
  destruct (strrchr s c) as [j|] eqn:E.
  - intros [= <-]. by apply IH.
  - destruct (Z.eqb_spec d c) as [->|]; [|done]. intros [= <-]. simpl.
    split; [done|]. clear IH. rewrite drop_0. induction s as [|e s IH]; simpl in *; [tauto|].
    destruct (strrchr s c); [done|]. destruct (Z.eqb_spec e c); [done|].
    intros [?|?]; [done|]. by apply IH.
Qed.

(** [strcasecmp(a, b) == 0], of POSIX. *)
Definition same_name (a b : list Z) : bool := streq (map tolower a) (map tolower b).

Lemma same_name_eq a b : same_name a b = true <-> map tolower a = map tolower b.
Proof. apply streq_eq. Qed.

(** [strncasecmp(s, pre, strlen(pre)) == 0]. *)
Definition prefix_nocase (pre s : list Z) : bool := prefix_of (map tolower pre) (map tolower s).

(** ** Number parsing *)

(** The digits at the front of [s], and the rest. *)
Fixpoint span_digits (s : list Z) : list Z * list Z :=
  match s with
  | c :: s' => if isdigit c then let (d, r) := span_digits s' in (c :: d, r) else ([], s)
  | [] => ([], [])
  end.

Fixpoint skip_space (s : list Z) : list Z :=
  match s with
  | c :: s' => if isspace c then skip_space s' else s
  | [] => []
  end.

Definition dec_value (ds : list Z) : Z := fold_left (fun a d => a * 10 + (d - 48)) ds 0.

Definition LONG_MAX : Z := 2 ^ 63 - 1.
Definition LONG_MIN : Z := - 2 ^ 63.

(** [strtol(s, &end, 10)] on a 64-bit [long]: the value (saturating) and the
    suffix at [end], which is [s] itself when no digit was read. *)
Definition strtol (s : list Z) : Z * list Z :=
  let s1 := skip_space s in
  let '(neg, s2) :=
    match s1 with
    | 45 :: r => (true, r)
    | 43 :: r => (false, r)
    | _ => (false, s1)
    end in
  match span_digits s2 with
  | ([], _) => (0, s)
  | (ds, rest) =>
      let v := dec_value ds in
      ((if neg then Z.max LONG_MIN (- v) else Z.min LONG_MAX v), rest)
  end.

(** One [%d] conversion of [sscanf], which stores the low 32 bits of what
    [strtol] reads; [None] when no number is there. *)
Definition scan_d (s : list Z) : option (Z * list Z) :=
  let '(v, rest) := strtol s in
  if bool_decide (rest = s) then None else Some (i32 v, rest).
