(* ===== verification/RegexToken.v ===== *)
(** * The regex engine: character classes, tokens and the tokeniser

    Models phase 1 of libop/src/regex.c: the 256-bit class bitmaps, the parser of
    bracket expressions and [tokenise], which turns a pattern into the infix token
    buffer (expanding counted repetitions in place).  Allocation is taken to
    succeed: [tbuf_push] is appending to the buffer. *)

From S2P Require Import Prelude LibC.

(** ** Character-class bitmaps: [uint8_t cls[32]] *)

Definition cls_zero : list Z := replicate 32 0.

Definition cls_byte (c : Z) : nat := Z.to_nat (Z.shiftr c 3).
Definition cls_bit (c : Z) : Z := u8 (Z.shiftl 1 (Z.land c 7)).

Definition cls_set (cls : list Z) (c : Z) : list Z :=
  alter (fun b => Z.lor b (cls_bit c)) (cls_byte c) cls.

Definition cls_clr (cls : list Z) (c : Z) : list Z :=
  alter (fun b => Z.land b (u8 (Z.lnot (cls_bit c)))) (cls_byte c) cls.

Definition cls_tst (cls : list Z) (c : Z) : bool :=
  truthy (Z.land (Z.shiftr (nth (cls_byte c) cls 0) (Z.land c 7)) 1).

Definition cls_invert (cls : list Z) : list Z := map (fun b => Z.lxor b 255) cls.

(** [for (c = lo; c <= hi; c++) a = f(c, a)] *)
Definition for_up {A} (lo hi : Z) (f : Z -> A -> A) (a : A) : A :=
  fold_left (fun a c => f c a) (seqZ lo (hi - lo + 1)) a.

(** Add a literal, and its other case under the [icase] flag. *)
Definition cls_set_ic (icase : bool) (cls : list Z) (c : Z) : list Z :=
  let cls := cls_set cls c in
  if icase then
    if (ch "a" <=? c) && (c <=? ch "z") then cls_set cls (c - 32)
    else if (ch "A" <=? c) && (c <=? ch "Z") then cls_set cls (c + 32)
    else cls
  else cls.

Definition cls_add_range (cls : list Z) (lo hi : Z) (icase : bool) : list Z :=
  let '(lo, hi) := if hi <? lo then (hi, lo) else (lo, hi) in
  for_up lo hi (fun c cls => cls_set_ic icase cls c) cls.

(** [for (c = 0; c < 256; c++) if (test(c)) cls_set(cls, c)] *)
Definition cls_add_if (test : Z -> bool) (cls : list Z) : list Z :=
  for_up 0 255 (fun c cls => if test c then cls_set cls c else cls) cls.

Definition isword_c (c : Z) : bool :=
  ((ch "a" <=? c) && (c <=? ch "z")) || ((ch "A" <=? c) && (c <=? ch "Z"))
  || ((ch "0" <=? c) && (c <=? ch "9")) || (c =? ch "_").

Definition cls_add_shorthand (cls : list Z) (code : Z) (icase : bool) : list Z :=
  if code =? ch "d" then cls_add_range cls (ch "0") (ch "9") false
  else if code =? ch "D" then
    cls_add_if (fun c => (c <? ch "0") || (ch "9" <? c)) cls
  else if code =? ch "w" then
    let cls := cls_add_range cls (ch "a") (ch "z") icase in
    let cls := cls_add_range cls (ch "A") (ch "Z") icase in
    let cls := cls_add_range cls (ch "0") (ch "9") false in
    cls_set cls (ch "_")
  else if code =? ch "W" then cls_add_if (fun c => negb (isword_c c)) cls
  else if code =? ch "s" then cls_add_if isspace cls
  else if code =? ch "S" then cls_add_if (fun c => negb (isspace c)) cls
  else cls.

(** [None] for an unknown class name. *)
Definition cls_add_posix_bracket (cls : list Z) (name : list Z) (icase : bool)
    : option (list Z) :=
  if streq name (bs "alpha") then Some (cls_add_if isalpha cls)
  else if streq name (bs "digit") then Some (cls_add_range cls (ch "0") (ch "9") false)
  else if streq name (bs "alnum") then Some (cls_add_if isalnum cls)
  else if streq name (bs "space") then Some (cls_add_if isspace cls)
  else if streq name (bs "blank") then Some (cls_set (cls_set cls 32) 9)
  else if streq name (bs "upper") then Some (cls_add_range cls (ch "A") (ch "Z") icase)
  else if streq name (bs "lower") then Some (cls_add_range cls (ch "a") (ch "z") icase)
  else if streq name (bs "punct") then Some (cls_add_if ispunct cls)
  else if streq name (bs "print") then Some (cls_add_if isprint cls)
  else if streq name (bs "graph") then Some (cls_add_if isgraph cls)
  else if streq name (bs "cntrl") then Some (cls_add_if iscntrl cls)
  else if streq name (bs "xdigit") then
    let cls := cls_add_range cls (ch "0") (ch "9") false in
    let cls := cls_add_range cls (ch "a") (ch "f") icase in
    Some (cls_add_range cls (ch "A") (ch "F") icase)
  else None.

(** ** Tokens *)

Inductive Token : Type :=
| TOK_LIT (c : Z)
| TOK_CLASS (cls : list Z)
| TOK_ANY
| TOK_BOL
| TOK_EOL
| TOK_STAR
| TOK_PLUS
| TOK_QUEST
| TOK_CAT
| TOK_PIPE
| TOK_LPAREN
| TOK_RPAREN
| TOK_WB
| TOK_NWB.

#[export] Instance Token_eq_dec : EqDecision Token.
Proof. solve_decision. Defined.

(** What [errbuf] can say, plus the silent failure of the 512-entry operator
    stack.  [EFuel] is not an outcome of the code: [tokenise_no_fuel] shows that the
    fuel given is never exhausted. *)
Inductive regex_error : Type :=
| ENullPattern
| EUnmatchedClose      (* "unmatched ')'" *)
| EUnmatchedOpen       (* "unmatched '('" *)
| EUnterminatedClass   (* "unterminated character class" *)
| EStackOverflow       (* shunt: return false with no message *)
| EMalformed           (* "NFA construction failed (malformed pattern)" *)
| EFuel.

(** ** [parse_class] *)

(** The literal named by [\c] inside or outside a class, when it is a control
    escape. *)
Definition escape_ctl (c : Z) : option Z :=
  if c =? ch "n" then Some 10
  else if c =? ch "t" then Some 9
  else if c =? ch "r" then Some 13
  else None.

Definition is_shorthand (c : Z) : bool :=
  mem c (bs "dDwWsS").

(** The POSIX bracket at [p], if there is one: the new bitmap and what follows
    the closing [:]]. *)
Definition posix_at (icase : bool) (cls p : list Z) : option (list Z * list Z) :=
  match p with
  | 91 :: 58 :: q =>                        (* "[:" *)
      match strstr q (bs ":]") with
      | Some n =>
          if ((0 <? n) && (n <=? 12))%nat then
            match cls_add_posix_bracket cls (take n q) icase with
            | Some cls' => Some (cls', drop (n + 2) q)
            | None => None
            end
          else None
      | None => None
      end
  | _ => None
  end.

(** The literal-or-range element whose first byte [lo] is at the head of [p]. *)
Definition class_range (icase : bool) (cls : list Z) (lo : Z) (p : list Z)
    : list Z * list Z :=
  match p with
  | _ :: 45 :: hi :: q =>                   (* "-" *)
      if hi =? ch "]" then (cls_set_ic icase cls lo, tail p)
      else (cls_add_range cls lo hi icase, q)
  | _ => (cls_set_ic icase cls lo, tail p)
  end.

(** One turn of the loop of [parse_class]; [p] is not empty. *)
Definition class_step (icase : bool) (cls p : list Z) : list Z * list Z :=
  match posix_at icase cls p with
  | Some r => r
  | None =>
      match p with
      | 92 :: (c :: q) as p' =>             (* backslash *)
          if is_shorthand c then (cls_add_shorthand cls c icase, q)
          else class_range icase cls (default c (escape_ctl c)) (c :: q)
      | c :: _ => class_range icase cls c p
      | [] => (cls, [])
      end
  end.

(** The loop: returns the bitmap and the suffix where it stopped. *)
Fixpoint class_loop (fuel : nat) (icase first : bool) (cls p : list Z)
    : list Z * list Z :=
  match fuel, p with
  | S fuel', c :: _ =>
      if negb (c =? ch "]") || first then
        let '(cls', p') := class_step icase cls p in
        class_loop fuel' icase false cls' p'
      else (cls, p)
  | _, _ => (cls, p)
  end.

(** [p] points just after the opening bracket; [Some (bitmap, rest)] with [rest]
    just after the closing one, [None] when the class is not terminated. *)
Definition parse_class (p : list Z) (icase : bool) : option (list Z * list Z) :=
  let '(neg, p) := match p with 94 :: q => (true, q) | _ => (false, p) end in
  let '(cls, q) := class_loop (length p) icase true cls_zero p in
  match q with
  | 93 :: q' => Some ((if neg : bool then cls_invert cls else cls), q')
  | _ => None
  end.

(** ** [tokenise] *)

(** The locals of the function: the output buffer, [prev_atom] (-1 is [None]), the
    nesting depth and the stack of opening-parenthesis indices. *)
Record tk_state := mk_tk {
  tk_out : list Token;
  tk_prev : option nat;
  tk_depth : nat;
  tk_stk : list nat;      (* int lparen_stk[64] *)
  tk_sp : nat
}.

Definition tk_init : tk_state := mk_tk [] None 0 (replicate 64 O) 0.

(** Push an operator token: [prev_atom] is unchanged. *)
Definition tk_push_op (st : tk_state) (t : Token) : tk_state :=
  mk_tk (tk_out st ++ [t]) (tk_prev st) (tk_depth st) (tk_stk st) (tk_sp st).

(** Push an atom: [prev_atom = out->n] before the push. *)
Definition tk_push_atom (st : tk_state) (t : Token) : tk_state :=
  mk_tk (tk_out st ++ [t]) (Some (length (tk_out st))) (tk_depth st) (tk_stk st) (tk_sp st).

Definition tk_set_out (st : tk_state) (out : list Token) (prev : option nat) : tk_state :=
  mk_tk out prev (tk_depth st) (tk_stk st) (tk_sp st).

Definition tok_lit (icase : bool) (c : Z) : Token :=
  TOK_LIT (if icase then tolower c else c).

(** The token of the escape [\c]. *)
Definition escape_token (icase : bool) (c : Z) : Token :=
  if is_shorthand c then TOK_CLASS (cls_add_shorthand cls_zero c icase)
  else if c =? ch "b" then TOK_WB
  else if c =? ch "B" then TOK_NWB
  else match escape_ctl c with
       | Some x => TOK_LIT x
       | None => tok_lit icase c
       end.

(** The scan of a counted repetition: [p] is at the opening brace; the bounds
    ([hi = -1] for none) and the suffix [q] where the scan stopped. *)
Definition scan_count (p : list Z) : Z * Z * list Z :=
  let '(d1, q) := span_digits (tail p) in
  let lo := dec_value d1 in
  match q with
  | 44 :: q2 =>                             (* "," *)
      let '(d2, q3) := span_digits q2 in
      let hi := if (length q3 + 2 =? length p)%nat then -1 else dec_value d2 in
      (lo, hi, q3)
  | _ => (lo, lo, q)
  end.

Definition count_valid (lo hi : Z) (q : list Z) : bool :=
  match q with
  | 125 :: _ =>                             (* closing brace *)
      negb ((lo <? 0) || (255 <? lo) || ((0 <=? hi) && ((255 <? hi) || (hi <? lo))))
  | _ => false
  end.

Fixpoint repeat_app {A} (n : nat) (l : list A) : list A :=
  match n with O => [] | S n' => l ++ repeat_app n' l end.

(** The expansion of the atom at index [a] of the buffer. *)
Definition expand_count (out : list Token) (a : nat) (lo hi : Z) : list Token :=
  let snap := drop a out in
  if lo =? 0 then
    out ++ [TOK_QUEST] ++ repeat_app (Z.to_nat (hi - 1)) (snap ++ [TOK_QUEST])
  else
    out ++ repeat_app (Z.to_nat (lo - 1)) snap ++
    (if hi =? -1 then [TOK_PLUS]
     else repeat_app (Z.to_nat (hi - lo)) (snap ++ [TOK_QUEST])).

Definition tok_count (st : tk_state) (p : list Z) : tk_state * list Z :=
  let '(lo, hi, q) := scan_count p in
  if count_valid lo hi q then
    (match tk_prev st with
     | None => st
     | Some a =>
         if (lo =? 0) && (hi =? 0) then tk_set_out st (take a (tk_out st)) None
         else tk_set_out st (expand_count (tk_out st) a lo hi) (Some a)
     end, tail q)
  else (tk_push_atom st (TOK_LIT (ch "{")), tail p).

Definition tok_open (st : tk_state) : tk_state :=
  mk_tk (tk_out st ++ [TOK_LPAREN]) None (S (tk_depth st))
        (if (tk_sp st <? 64)%nat then <[tk_sp st := length (tk_out st)]> (tk_stk st)
         else tk_stk st)
        (S (tk_sp st)).

Definition tok_close (st : tk_state) : result regex_error tk_state :=
  if (tk_depth st =? 0)%nat then Err EUnmatchedClose
  else
    let sp := pred (tk_sp st) in
    Ok (mk_tk (tk_out st ++ [TOK_RPAREN])
              (if (sp <? 64)%nat then tk_stk st !! sp else None)
              (pred (tk_depth st)) (tk_stk st) sp).

(** The token of an unescaped dot. *)
Definition dot_token (dotall : bool) : Token :=
  if dotall then TOK_ANY else TOK_CLASS (cls_clr (replicate 32 255) 10).

(** One turn of the loop at the byte [c] followed by [q]. *)
Definition tok_step (icase dotall : bool) (st : tk_state) (c : Z) (q : list Z)
    : result regex_error (tk_state * list Z) :=
  match (if c =? ch "\" then head q else None) with
  | Some e => Ok (tk_push_atom st (escape_token icase e), tail q)
  | None =>
      if c =? ch "*" then Ok (tk_push_op st TOK_STAR, q)
      else if c =? ch "+" then Ok (tk_push_op st TOK_PLUS, q)
      else if c =? ch "?" then Ok (tk_push_op st TOK_QUEST, q)
      else if c =? ch "{" then Ok (tok_count st (c :: q))
      else if c =? ch "|" then
        Ok (tk_set_out st (tk_out st ++ [TOK_PIPE]) None, q)
      else if c =? ch "(" then Ok (tok_open st, q)
      else if c =? ch ")" then let! st' := tok_close st in Ok (st', q)
      else if c =? ch "[" then
        match parse_class q icase with
        | None => Err EUnterminatedClass
        | Some (cls, q') => Ok (tk_push_atom st (TOK_CLASS cls), q')
        end
      else if c =? ch "^" then Ok (tk_push_atom st TOK_BOL, q)
      else if c =? ch "$" then Ok (tk_push_atom st TOK_EOL, q)
      else if c =? ch "." then Ok (tk_push_atom st (dot_token dotall), q)
      else Ok (tk_push_atom st (tok_lit icase c), q)
  end.

Fixpoint tok_loop (fuel : nat) (icase dotall : bool) (st : tk_state) (p : list Z)
    : result regex_error tk_state :=
  match p with
  | [] => Ok st
  | c :: q =>
      match fuel with
      | O => Err EFuel
      | S fuel' =>
          let! (st', p') := tok_step icase dotall st c q in
          tok_loop fuel' icase dotall st' p'
      end
  end.

Definition tokenise (pat : list Z) (icase dotall : bool)
    : result regex_error (list Token) :=
  let! st := tok_loop (length pat) icase dotall tk_init pat in
  if (tk_depth st =? 0)%nat then Ok (tk_out st) else Err EUnmatchedOpen.
