(* ===== verification/RegexCompile.v ===== *)
(** * The regex engine: from infix tokens to a compiled NFA

    Models phases 2 to 4 of libop/src/regex.c ([cat_inject], [shunt],
    [build_nfa]), the start-set metadata and [op_regex_compile].  The state pool is
    a list indexed by state id; a pointer to a state is its id, [NULL] is [None]; a
    [Ptrlist] is the list of the dangling [out]/[out1] fields it links. *)

From S2P Require Import Prelude LibC RegexToken.

(** ** Phase 2: explicit concatenation *)

Definition tok_ends_atom (t : Token) : bool :=
  match t with
  | TOK_LIT _ | TOK_CLASS _ | TOK_ANY | TOK_BOL | TOK_EOL | TOK_WB | TOK_NWB
  | TOK_RPAREN | TOK_STAR | TOK_PLUS | TOK_QUEST => true
  | TOK_CAT | TOK_PIPE | TOK_LPAREN => false
  end.

Definition tok_starts_atom (t : Token) : bool :=
  match t with
  | TOK_LIT _ | TOK_CLASS _ | TOK_ANY | TOK_BOL | TOK_EOL | TOK_WB | TOK_NWB
  | TOK_LPAREN => true
  | _ => false
  end.

(** The loop of [cat_inject]; [prev] is [in->t[i-1]]. *)
Fixpoint cat_from (prev : option Token) (ts : list Token) : list Token :=
  match ts with
  | [] => []
  | t :: ts' =>
      let sep := match prev with
                 | Some u => if tok_ends_atom u && tok_starts_atom t then [TOK_CAT] else []
                 | None => []
                 end in
      sep ++ t :: cat_from (Some t) ts'
  end.

Definition cat_inject (ts : list Token) : list Token := cat_from None ts.

(** ** Phase 3: the shunting-yard *)

Definition tok_prec (t : Token) : Z :=
  match t with
  | TOK_STAR | TOK_PLUS | TOK_QUEST => 3
  | TOK_CAT => 2
  | TOK_PIPE => 1
  | _ => 0
  end.

Definition SHUNT_STACK : nat := 512.

(** [while (stk_n > 0 && test(top)) push(out, pop())] *)
Fixpoint pop_while (test : Token -> bool) (stk out : list Token) : list Token * list Token :=
  match stk with
  | t :: stk' => if test t then pop_while test stk' (out ++ [t]) else (stk, out)
  | [] => (stk, out)
  end.

Definition stk_push (t : Token) (stk : list Token) : result regex_error (list Token) :=
  if (SHUNT_STACK <=? length stk)%nat then Err EStackOverflow else Ok (t :: stk).

Definition is_lparen (t : Token) : bool :=
  match t with TOK_LPAREN => true | _ => false end.

(** One turn of the loop of [shunt]; the top of the stack is the head. *)
Definition shunt_step (st : list Token * list Token) (t : Token)
    : result regex_error (list Token * list Token) :=
  let '(stk, out) := st in
  match t with
  | TOK_LIT _ | TOK_CLASS _ | TOK_ANY | TOK_BOL | TOK_EOL | TOK_WB | TOK_NWB =>
      Ok (stk, out ++ [t])
  | TOK_STAR | TOK_PLUS | TOK_QUEST =>
      let '(stk, out) := pop_while (fun u => tok_prec t <? tok_prec u) stk out in
      let! stk' := stk_push t stk in Ok (stk', out)
  | TOK_CAT | TOK_PIPE =>
      let '(stk, out) :=
        pop_while (fun u => negb (is_lparen u) && (tok_prec t <=? tok_prec u)) stk out in
      let! stk' := stk_push t stk in Ok (stk', out)
  | TOK_LPAREN => let! stk' := stk_push t stk in Ok (stk', out)
  | TOK_RPAREN =>
      match pop_while (fun u => negb (is_lparen u)) stk out with
      | ([], _) => Err EUnmatchedClose
      | (_ :: stk', out') => Ok (stk', out')
      end
  end.

Fixpoint shunt_loop (st : list Token * list Token) (ts : list Token)
    : result regex_error (list Token * list Token) :=
  match ts with
  | [] => Ok st
  | t :: ts' => let! st' := shunt_step st t in shunt_loop st' ts'
  end.

(** The final loop, which empties the stack. *)
Fixpoint shunt_flush (stk out : list Token) : result regex_error (list Token) :=
  match stk with
  | [] => Ok out
  | t :: stk' => if is_lparen t then Err EUnmatchedOpen else shunt_flush stk' (out ++ [t])
  end.

Definition shunt (ts : list Token) : result regex_error (list Token) :=
  let! (stk, out) := shunt_loop ([], []) ts in shunt_flush stk out.

(** ** NFA states *)

Inductive NKind : Type :=
| ST_MATCH
| ST_CHAR (c : Z)
| ST_CLASS (cls : list Z)
| ST_ANY
| ST_SPLIT
| ST_BOL
| ST_EOL
| ST_WB
| ST_NWB.

Record NState := mk_state {
  st_kind : NKind;
  st_out : option nat;
  st_out1 : option nat
}.

(** A field of a state: [(id, false)] is [&pool[id].out], [(id, true)] is
    [&pool[id].out1]. *)
Abbreviation field := (nat * bool)%type.

Definition set_field (s : nat) (f : field) (pool : list NState) : list NState :=
  alter (fun x =>
           if snd f then mk_state (st_kind x) (st_out x) (Some s)
           else mk_state (st_kind x) (Some s) (st_out1 x)) (fst f) pool.

(** [pl1], [pl_append] and [pl_patch] *)
Definition pl1 (f : field) : list field := [f].
Definition pl_append (a b : list field) : list field := a ++ b.
Fixpoint pl_patch (l : list field) (s : nat) (pool : list NState) : list NState :=
  match l with
  | [] => pool
  | f :: l' => pl_patch l' s (set_field s f pool)
  end.

Record Frag := mkfrag { f_start : nat; f_outs : list field }.

(** [st_alloc]: the new state's id is [nstates], the length of the pool. *)
Definition st_alloc (k : NKind) (out out1 : option nat) (pool : list NState)
    : nat * list NState :=
  (length pool, pool ++ [mk_state k out out1]).

(** ** Phase 4: the Thompson construction *)

Definition FRAG_STACK : nat := 512.

(** The state of [build_nfa]: the pool and the fragment stack (top first). *)
Definition nfa_st : Type := list NState * list Frag.

Definition frag_push (f : Frag) (st : nfa_st) : option nfa_st :=
  if (FRAG_STACK <=? length (snd st))%nat then None else Some (fst st, f :: snd st).

(** The kind of state an operand token allocates. *)
Definition tok_kind (t : Token) : option NKind :=
  match t with
  | TOK_LIT c => Some (ST_CHAR c)
  | TOK_CLASS cls => Some (ST_CLASS cls)
  | TOK_ANY => Some ST_ANY
  | TOK_BOL => Some ST_BOL
  | TOK_EOL => Some ST_EOL
  | TOK_WB => Some ST_WB
  | TOK_NWB => Some ST_NWB
  | _ => None
  end.

Definition build_step (st : nfa_st) (t : Token) : option nfa_st :=
  let '(pool, fstack) := st in
  match tok_kind t with
  | Some k =>
      let '(s, pool) := st_alloc k None None pool in
      frag_push (mkfrag s (pl1 (s, false))) (pool, fstack)
  | None =>
      match t with
      | TOK_CAT =>
          match fstack with
          | e2 :: e1 :: fstack =>
              frag_push (mkfrag (f_start e1) (f_outs e2))
                        (pl_patch (f_outs e1) (f_start e2) pool, fstack)
          | _ => None
          end
      | TOK_PIPE =>
          match fstack with
          | e2 :: e1 :: fstack =>
              let '(s, pool) := st_alloc ST_SPLIT (Some (f_start e1)) (Some (f_start e2)) pool in
              frag_push (mkfrag s (pl_append (f_outs e1) (f_outs e2))) (pool, fstack)
          | _ => None
          end
      | TOK_STAR =>
          match fstack with
          | e :: fstack =>
              let '(s, pool) := st_alloc ST_SPLIT (Some (f_start e)) None pool in
              frag_push (mkfrag s (pl1 (s, true))) (pl_patch (f_outs e) s pool, fstack)
          | _ => None
          end
      | TOK_PLUS =>
          match fstack with
          | e :: fstack =>
              let '(s, pool) := st_alloc ST_SPLIT (Some (f_start e)) None pool in
              frag_push (mkfrag (f_start e) (pl1 (s, true)))
                        (pl_patch (f_outs e) s pool, fstack)
          | _ => None
          end
      | TOK_QUEST =>
          match fstack with
          | e :: fstack =>
              let '(s, pool) := st_alloc ST_SPLIT (Some (f_start e)) None pool in
              frag_push (mkfrag s (pl_append (pl1 (s, true)) (f_outs e))) (pool, fstack)
          | _ => None
          end
      | _ => Some st
      end
  end.

Fixpoint build_loop (st : nfa_st) (pf : list Token) : option nfa_st :=
  match pf with
  | [] => Some st
  | t :: pf' => match build_step st t with
                | Some st' => build_loop st' pf'
                | None => None
                end
  end.

(** The pool and the start state, or [EMalformed]. *)
Definition build_nfa (pf : list Token) : result regex_error (list NState * nat) :=
  match build_loop ([], []) pf with
  | Some (pool, [e]) =>
      let '(ms, pool) := st_alloc ST_MATCH None None pool in
      Ok (pl_patch (f_outs e) ms pool, f_start e)
  | _ => Err EMalformed
  end.

(** ** Metadata *)

Record op_regex := mk_regex {
  re_pool : list NState;
  re_start : nat;
  re_icase : bool;
  re_anchored : bool;
  re_can_empty : bool;
  re_first_any : bool;
  re_first_chars : list Z
}.

(** [collect_first_states]: a depth-first search through every zero-width state;
    [vis] is the visited array and [lst] the consuming and match states found.
    The recursion is at most as deep as there are unvisited states. *)
Fixpoint collect_first_states (fuel : nat) (pool : list NState) (s : option nat)
    (acc : list bool * list nat) : list bool * list nat :=
  match fuel, s with
  | S fuel', Some i =>
      let '(vis, lst) := acc in
      if default true (vis !! i) then acc
      else
        let vis := <[i := true]> vis in
        match pool !! i with
        | None => acc
        | Some x =>
            match st_kind x with
            | ST_SPLIT =>
                collect_first_states fuel' pool (st_out1 x)
                  (collect_first_states fuel' pool (st_out x) (vis, lst))
            | ST_BOL | ST_EOL | ST_WB | ST_NWB =>
                collect_first_states fuel' pool (st_out x) (vis, lst)
            | _ => (vis, lst ++ [i])
            end
        end
  | _, _ => acc
  end.

(** [for (j = 0; j < 32; j++) a[j] |= b[j]] *)
Definition cls_or (a b : list Z) : list Z :=
  map (fun j => Z.lor (nth j a 0) (nth j b 0)) (seq 0 32).

(** The loop over the collected states: (can_empty, first_any, first_chars). *)
Fixpoint first_set (icase : bool) (pool : list NState) (lst : list nat)
    (can_empty : bool) (first : list Z) : bool * bool * list Z :=
  match lst with
  | [] => (can_empty, false, first)
  | i :: lst' =>
      match st_kind <$> pool !! i with
      | Some ST_MATCH => first_set icase pool lst' true first
      | Some ST_ANY => (can_empty, true, first)
      | Some (ST_CHAR c) => first_set icase pool lst' can_empty (cls_set_ic icase first c)
      | Some (ST_CLASS cls) => first_set icase pool lst' can_empty (cls_or first cls)
      | _ => first_set icase pool lst' can_empty first
      end
  end.

Definition compute_metadata (icase anchored : bool) (pool : list NState) (start : nat)
    : op_regex :=
  let n := length pool in
  let '(_, lst) :=
    collect_first_states (S n) pool (Some start) (replicate n false, []) in
  let '(can_empty, first_any, first) := first_set icase pool lst false cls_zero in
  mk_regex pool start icase anchored can_empty first_any first.

(** ** [op_regex_compile] *)

Definition OP_REGEX_ICASE : Z := 1.
Definition OP_REGEX_NEWLINE : Z := 2.

(** The pattern is not [NULL]; the [errbuf] message is the error value. *)
Definition op_regex_compile (pattern : list Z) (flags : Z) : result regex_error op_regex :=
  let icase := flags &? OP_REGEX_ICASE in
  let dotall := negb (flags &? OP_REGEX_NEWLINE) in
  let '(icase, pattern) :=
    if prefix_of (bs "(?i)") pattern then (true, drop 4 pattern) else (icase, pattern) in
  let anchored := match pattern with c :: _ => c =? ch "^" | [] => false end in
  let! infix := tokenise pattern icase dotall in
  let! pf := shunt (cat_inject infix) in
  let! (pool, start) := build_nfa pf in
  Ok (compute_metadata icase anchored pool start).
