(* ===== verification/RegexClass.v ===== *)
(** * The regex engine: lemmas on class bitmaps

    A bitmap of 32 bytes is a set of bytes: [cls_tst] after [cls_set], [cls_or] and
    [cls_clr], and a decision lemma for closed bitmaps by evaluation over the 256
    bytes. *)

From S2P Require Import Prelude LibC RegexToken RegexCompile.

Lemma byte_forall (P : Z -> bool) :
  forallb P (seqZ 0 256) = true -> forall c, 0 <= c < 256 -> P c = true.
Proof.
  intros H c Hc. rewrite forallb_forall in H. apply H.
  apply list_elem_of_In, elem_of_seqZ. lia.
Qed.

Lemma nth_lookup_default {A} (l : list A) i d : nth i l d = default d (l !! i).
Proof. revert i; induction l as [|x l IH]; intros [|i]; simpl; auto. Qed.

Lemma cls_tst_testbit cls c :
  cls_tst cls c = Z.testbit (nth (cls_byte c) cls 0) (Z.land c 7).
Proof.
  unfold cls_tst. change 1 with (2 ^ 0). rewrite land_pow2_testbit by lia.
  rewrite Z.shiftr_spec by lia. f_equal.
Qed.

Lemma land7_mod c : Z.land c 7 = c mod 8.
Proof. change 7 with (Z.ones 3). by rewrite Z.land_ones by lia. Qed.

Lemma cls_bit_pow c : cls_bit c = 2 ^ (c mod 8).
Proof.
  unfold cls_bit. rewrite land7_mod, Z.shiftl_1_l.
  pose proof (Z.mod_pos_bound c 8). unfold u8. apply Z.mod_small.
  split; [apply Z.pow_nonneg; lia|]. apply Z.pow_lt_mono_r; lia.
Qed.

Lemma cls_byte_eq c d :
  0 <= c -> 0 <= d -> cls_byte c = cls_byte d -> c mod 8 = d mod 8 -> c = d.
Proof.
  unfold cls_byte. intros Hc Hd. rewrite !Z.shiftr_div_pow2 by lia. change (2 ^ 3) with 8.
  intros H1 H2. assert (c / 8 = d / 8) by (apply Z2Nat.inj; try apply Z.div_pos; lia).
  rewrite (Z.div_mod c 8), (Z.div_mod d 8) by lia. congruence.
Qed.

Lemma cls_byte_lt c : 0 <= c < 256 -> (cls_byte c < 32)%nat.
Proof.
  unfold cls_byte. intros H. rewrite Z.shiftr_div_pow2 by lia. change (2 ^ 3) with 8.
  assert (c / 8 < 32) by (apply Z.div_lt_upper_bound; lia).
  assert (0 <= c / 8) by (apply Z.div_pos; lia). lia.
Qed.

Lemma length_cls_set cls c : length (cls_set cls c) = length cls.
Proof. apply length_alter. Qed.

(** [cls_set] adds exactly one byte. *)
Lemma cls_tst_set cls c d :
  length cls = 32%nat -> 0 <= c < 256 -> 0 <= d ->
  cls_tst (cls_set cls c) d = (c =? d) || cls_tst cls d.
Proof.
  intros Hl Hc Hd. rewrite !cls_tst_testbit, !nth_lookup_default, land7_mod.
  unfold cls_set. rewrite list_lookup_alter.
  destruct (decide (cls_byte c = cls_byte d)) as [He|Hne].
  - pose proof (cls_byte_lt c Hc) as Hlt. rewrite <- Hl in Hlt.
    apply lookup_lt_is_Some in Hlt as [b Hb]. rewrite <- He, Hb. simpl.
    rewrite Z.lor_spec, cls_bit_pow, orb_comm. f_equal.
    rewrite Z.pow2_bits_eqb by (apply Z.mod_pos_bound; lia).
    destruct (Z.eqb_spec c d) as [->|Hne]; [by rewrite Z.eqb_refl|].
    destruct (Z.eqb_spec (c mod 8) (d mod 8)) as [Hm|]; [|done].
    destruct Hne. apply cls_byte_eq; lia.
  - destruct (Z.eqb_spec c d) as [->|]; done.
Qed.

Lemma cls_tst_set_mono cls c d : cls_tst cls d = true -> cls_tst (cls_set cls c) d = true.
Proof.
  rewrite !cls_tst_testbit, !nth_lookup_default. unfold cls_set. rewrite list_lookup_alter.
  case_decide as H; [|done]. rewrite <- H. destruct (cls !! cls_byte c) as [b|]; simpl.
  - rewrite Z.lor_spec. by intros ->.
  - done.
Qed.

Lemma length_cls_set_ic ic cls c : length (cls_set_ic ic cls c) = length cls.
Proof.
  unfold cls_set_ic. destruct ic; rewrite ?length_cls_set; [|done].
  repeat case_if; by rewrite ?length_cls_set.
Qed.

Lemma cls_tst_set_ic_mono ic cls c d :
  cls_tst cls d = true -> cls_tst (cls_set_ic ic cls c) d = true.
Proof. unfold cls_set_ic. intros. destruct ic; repeat case_if; auto using cls_tst_set_mono. Qed.

Lemma cls_tst_set_ic_self ic cls c :
  length cls = 32%nat -> 0 <= c < 256 -> cls_tst (cls_set_ic ic cls c) c = true.
Proof.
  intros Hl Hc. assert (cls_tst (cls_set cls c) c = true).
  { rewrite cls_tst_set by (done || lia). by rewrite Z.eqb_refl. }
  unfold cls_set_ic. destruct ic; repeat case_if; auto using cls_tst_set_mono.
Qed.

Lemma cls_tst_or a b d :
  0 <= d < 256 -> cls_tst (cls_or a b) d = cls_tst a d || cls_tst b d.
Proof.
  intros Hd. rewrite !cls_tst_testbit. unfold cls_or.
  pose proof (cls_byte_lt d Hd) as Hlt.
  rewrite (nth_indep _ 0 (Z.lor (nth 0 a 0) (nth 0 b 0))) by (by rewrite length_map, length_seq).
  rewrite (map_nth (fun j => Z.lor (nth j a 0) (nth j b 0))), seq_nth by done.
  by rewrite Z.lor_spec.
Qed.

Lemma length_cls_or a b : length (cls_or a b) = 32%nat.
Proof. unfold cls_or. by rewrite length_map, length_seq. Qed.

(** ** A bitmap is determined by its members *)

Definition bitmap (cls : list Z) : Prop :=
  length cls = 32%nat /\ Forall (fun b => 0 <= b < 256) cls.

Lemma cls_tst_nth cls i k :
  (i < 32)%nat -> 0 <= k < 8 -> cls_tst cls (8 * Z.of_nat i + k) = Z.testbit (nth i cls 0) k.
Proof.
  intros Hi Hk. rewrite cls_tst_testbit, land7_mod. unfold cls_byte.
  rewrite Z.shiftr_div_pow2 by lia. change (2 ^ 3) with 8.
  replace (8 * Z.of_nat i + k) with (k + Z.of_nat i * 8) by lia.
  rewrite Z.div_add, Z.mod_add, (Z.div_small k), (Z.mod_small k) by lia.
  by rewrite Z.add_0_l, Nat2Z.id.
Qed.

Lemma byte_high_bit b k : 0 <= b < 256 -> 8 <= k -> Z.testbit b k = false.
Proof.
  intros Hb Hk. destruct (decide (b = 0)) as [->|]; [apply Z.bits_0|].
  apply Z.bits_above_log2; [lia|]. apply Z.lt_le_trans with 8; [|done].
  apply Z.log2_lt_pow2; lia.
Qed.

Lemma bitmap_ext a b :
  bitmap a -> bitmap b -> (forall c, 0 <= c < 256 -> cls_tst a c = cls_tst b c) -> a = b.
Proof.
  intros [La Fa] [Lb Fb] H. apply nth_ext with (d := 0) (d' := 0); [congruence|].
  intros i Hi. rewrite La in Hi. apply Z.bits_inj'. intros k Hk.
  destruct (decide (k < 8)) as [Hlt|Hge].
  - rewrite <- !cls_tst_nth by lia. apply H. lia.
  - assert (Hn : forall l, length l = 32%nat -> Forall (fun b => 0 <= b < 256) l ->
                   0 <= nth i l 0 < 256).
    { intros l Hl Hf. rewrite Forall_forall in Hf. apply Hf, list_elem_of_In, nth_In. lia. }
    rewrite !byte_high_bit; auto; lia.
Qed.

Lemma bitmap_zero : bitmap cls_zero.
Proof. split; [done|]. by apply Forall_replicate. Qed.

Lemma bitmap_set cls c : bitmap cls -> bitmap (cls_set cls c).
Proof.
  intros [Hl Hf]. split; [by rewrite length_cls_set|].
  unfold cls_set. apply Forall_alter; [done|]. intros b _ Hb.
  rewrite cls_bit_pow. pose proof (Z.mod_pos_bound c 8).
  assert (0 <= 2 ^ (c mod 8) < 2 ^ 8) by (split; [apply Z.pow_nonneg; lia|apply Z.pow_lt_mono_r; lia]).
  assert (0 <= Z.lor b (2 ^ (c mod 8))) by (apply Z.lor_nonneg; lia). split; [done|].
  destruct (decide (Z.lor b (2 ^ (c mod 8)) = 0)); [lia|].
  apply (Z.log2_lt_pow2 _ 8); [lia|]. rewrite Z.log2_lor by lia.
  apply Z.max_lub_lt.
  - destruct (decide (b = 0)) as [->|]; [done|]. apply (Z.log2_lt_pow2 b 8); lia.
  - rewrite Z.log2_pow2; lia.
Qed.

Lemma bitmap_invert cls : bitmap cls -> bitmap (cls_invert cls).
Proof.
  intros [Hl Hf]. split; [unfold cls_invert; by rewrite length_map|].
  unfold cls_invert. apply Forall_map. eapply Forall_impl; [exact Hf|]. intros b Hb. simpl in *.
  assert (H0 : 0 <= Z.lxor b 255) by (apply Z.lxor_nonneg; split; intros; lia). split; [done|].
  apply Z.log2_lt_cancel. destruct (decide (b = 0)) as [->|]; [done|].
  change (Z.log2 256) with 8. apply Z.le_lt_trans with (Z.max (Z.log2 b) (Z.log2 255)).
  - apply Z.log2_lxor; lia.
  - apply Z.max_lub_lt; [apply (Z.log2_lt_pow2 b 8); lia|done].
Qed.

Lemma cls_tst_invert cls c :
  length cls = 32%nat -> 0 <= c < 256 -> cls_tst (cls_invert cls) c = negb (cls_tst cls c).
Proof.
  intros Hl Hc. rewrite !cls_tst_testbit, land7_mod. unfold cls_invert.
  pose proof (cls_byte_lt c Hc) as Hlt.
  rewrite (nth_indep _ 0 (Z.lxor 0 255)) by (rewrite length_map; lia).
  rewrite (map_nth (fun b => Z.lxor b 255)), Z.lxor_spec.
  pose proof (Z.mod_pos_bound c 8). change 255 with (Z.ones 8).
  rewrite Z.ones_spec_low by lia. apply xorb_true_r.
Qed.

(** The bitmap of a list of members. *)
Lemma cls_set_list l : forall cls,
  bitmap cls -> Forall (fun c => 0 <= c < 256) l ->
  bitmap (fold_left cls_set l cls) /\
  forall d, 0 <= d -> cls_tst (fold_left cls_set l cls) d = mem d l || cls_tst cls d.
Proof.
  induction l as [|c l IH]; intros cls Hb Hl; [done|]. simpl.
  apply Forall_cons_1 in Hl as [Hc Hl].
  destruct (IH (cls_set cls c) (bitmap_set _ _ Hb) Hl) as [Hb' Ht]. split; [done|].
  intros d Hd. rewrite Ht, cls_tst_set by (done || apply Hb). unfold mem. simpl.
  rewrite (Z.eqb_sym c d). by rewrite !orb_assoc, (orb_comm (existsb _ _)).
Qed.
