(* ===== verification/RegexMatch.v ===== *)
(** * The regex engine: NFA simulation

    Models [addstate], [op_regex_match], [match_at] and [op_regex_search] of
    libop/src/regex.c.  The visited arrays hold 32-bit generation numbers: a state
    is visited when its entry equals the list's current generation, and a list is
    cleared by incrementing its generation (modulo 2^32). *)

From S2P Require Import Prelude LibC RegexToken RegexCompile.

(** An active list: its generation array, its generation and its states. *)
Record alist := mk_alist {
  al_vg : list Z;
  al_gen : Z;
  al_list : list nat
}.

(** Where the simulation stands: the previous (folded) byte, 0 at the start of the
    string, and the text from the current position on. *)
Definition at_bol (prev_c : Z) : bool := (prev_c =? 0) || (prev_c =? 10).
Definition at_eol (cur : list Z) : bool :=
  match cur with [] => true | c :: _ => c =? 10 end.
Definition at_wb (prev_c : Z) (cur : list Z) : bool :=
  let pw := isword_c prev_c in
  let cw := match cur with [] => false | c :: _ => isword_c c end in
  xorb pw cw.

(** [addstate]; the recursion is at most as deep as there are unvisited states. *)
Fixpoint addstate (fuel : nat) (pool : list NState) (cur : list Z) (prev_c : Z)
    (s : option nat) (a : alist) : alist :=
  match fuel, s with
  | S fuel', Some i =>
      match pool !! i, al_vg a !! i with
      | Some x, Some v =>
          if v =? al_gen a then a
          else
            let a := mk_alist (<[i := al_gen a]> (al_vg a)) (al_gen a) (al_list a) in
            match st_kind x with
            | ST_SPLIT =>
                addstate fuel' pool cur prev_c (st_out1 x)
                  (addstate fuel' pool cur prev_c (st_out x) a)
            | ST_BOL => if at_bol prev_c then addstate fuel' pool cur prev_c (st_out x) a else a
            | ST_EOL => if at_eol cur then addstate fuel' pool cur prev_c (st_out x) a else a
            | ST_WB =>
                if at_wb prev_c cur then addstate fuel' pool cur prev_c (st_out x) a else a
            | ST_NWB =>
                if at_wb prev_c cur then a else addstate fuel' pool cur prev_c (st_out x) a
            | _ => mk_alist (al_vg a) (al_gen a) (al_list a ++ [i])
            end
      | _, _ => a
      end
  | _, _ => a
  end.

(** Whether a state consumes the (folded) byte [c]. *)
Definition consumes (k : NKind) (c : Z) : bool :=
  match k with
  | ST_CHAR d => d =? u8 c
  | ST_CLASS cls => cls_tst cls c
  | ST_ANY => true
  | _ => false
  end.

Definition fold_c (icase : bool) (c : Z) : Z := if icase then tolower c else c.

Definition has_match (pool : list NState) (l : list nat) : bool :=
  existsb (fun i => match st_kind <$> pool !! i with Some ST_MATCH => true | _ => false end) l.

(** "Clear" a list: [g[ni]++; nl[ni] = 0]. *)
Definition al_clear (a : alist) : alist := mk_alist (al_vg a) (u32 (al_gen a + 1)) [].

(** The loop over the current list: every state that consumes [c] adds its
    successor to the next list. *)
Definition advance (fuel : nat) (pool : list NState) (c : Z) (np : list Z)
    (cur : list nat) (nxt : alist) : alist :=
  fold_left
    (fun a i =>
       match pool !! i with
       | Some x => if consumes (st_kind x) c
                   then addstate fuel pool np c (st_out x) a else a
       | None => a
       end) cur nxt.

(** The first-byte test that decides whether the start state is seeded at [np]. *)
Definition do_seed (re : op_regex) (np : list Z) : bool :=
  match np with
  | nc :: _ =>
      if negb (re_first_any re) && negb (re_can_empty re)
      then cls_tst (re_first_chars re) (fold_c (re_icase re) nc)
      else true
  | [] => true
  end.

Definition reseed (fuel : nat) (re : op_regex) (c : Z) (np : list Z) (nxt : alist) : alist :=
  if negb (re_anchored re) then
    if do_seed re np && negb (bool_decide (al_vg nxt !! re_start re = Some (al_gen nxt)))
    then addstate fuel (re_pool re) np c (Some (re_start re)) nxt
    else nxt
  else nxt.

(** The main loop: [cur] and [nxt] are the two lists, swapped at every byte. *)
Fixpoint match_loop (fuel : nat) (re : op_regex) (cur nxt : alist) (p : list Z) : bool :=
  if has_match (re_pool re) (al_list cur) then true
  else match p with
       | [] => has_match (re_pool re) (al_list cur)
       | c0 :: np =>
           let c := fold_c (re_icase re) c0 in
           let nxt := advance fuel (re_pool re) c np (al_list cur) (al_clear nxt) in
           let nxt := reseed fuel re c np nxt in
           match_loop fuel re nxt cur np
       end.

Definition al_init (n : nat) (g : Z) : alist := mk_alist (replicate n 0) g [].

Definition op_regex_match (re : op_regex) (text : list Z) : bool :=
  let n := length (re_pool re) in
  let fuel := S n in
  let cur := addstate fuel (re_pool re) text 0 (Some (re_start re)) (al_init n 1) in
  match_loop fuel re cur (al_init n 2) text.

(** ** Leftmost-longest search *)

(** The loop of [match_at]: [len] bytes consumed so far, [best] the longest match. *)
Fixpoint match_at_loop (fuel : nat) (re : op_regex) (cur nxt : alist) (p : list Z)
    (len : Z) (best : Z) : Z :=
  let best := if has_match (re_pool re) (al_list cur) then len else best in
  match p with
  | [] => best
  | c0 :: np =>
      let c := fold_c (re_icase re) c0 in
      let nxt := advance fuel (re_pool re) c np (al_list cur) (al_clear nxt) in
      match_at_loop fuel re nxt cur np (len + 1) best
  end.

(** The length of the longest match from [start], or -1. *)
Definition match_at (re : op_regex) (start : list Z) (prev_c : Z) : Z :=
  let n := length (re_pool re) in
  let fuel := S n in
  let cur := addstate fuel (re_pool re) start prev_c (Some (re_start re)) (al_init n 1) in
  match_at_loop fuel re cur (al_init n 2) start 0 (-1).

(** The loop of [op_regex_search] at offset [i] with suffix [p]; [prev] is the raw
    byte before [p], 0 at the start. *)
Fixpoint search_loop (re : op_regex) (i : Z) (prev : Z) (p : list Z) : option (Z * Z) :=
  let skip :=
    match p with
    | c :: _ =>
        if negb (re_first_any re) && negb (re_can_empty re)
        then negb (cls_tst (re_first_chars re) (fold_c (re_icase re) c)) else false
    | [] => false
    end in
  let mlen := if skip then -1 else match_at re p (fold_c (re_icase re) prev) in
  if 0 <=? mlen then Some (i, mlen)
  else if re_anchored re then None
  else match p with
       | [] => None
       | c :: p' => search_loop re (i + 1) c p'
       end.

(** [Some (match_start, match_len)] of the leftmost match. *)
Definition op_regex_search (re : op_regex) (text : list Z) : option (Z * Z) :=
  search_loop re 0 0 text.
