(* ===== verification/RegexSem.v ===== *)
(** * The regex engine: what a pattern denotes, and correctness of the construction

    A regular expression denotes a relation between positions in the text.  This
    file gives that relation, the evaluation of a postfix token list as an
    expression, and the proof that the NFA [build_nfa] makes from the list accepts
    exactly the denotation of the expression. *)

From S2P Require Import Prelude LibC RegexToken RegexCompile RegexMatch.

(** ** Positions and the denotation of expressions *)

(** A position: the previous (folded) byte, 0 at the start, and the rest of the text. *)
Definition pos : Type := Z * list Z.

Inductive re_ast : Type :=
| RLeaf (k : NKind)
| RCat (a b : re_ast)
| RAlt (a b : re_ast)
| RStar (a : re_ast)
| RPlus (a : re_ast)
| RQuest (a : re_ast).

(** Whether a zero-width assertion holds at a position. *)
Definition holds_at (k : NKind) (c : pos) : bool :=
  match k with
  | ST_BOL => at_bol (fst c)
  | ST_EOL => at_eol (snd c)
  | ST_WB => at_wb (fst c) (snd c)
  | ST_NWB => negb (at_wb (fst c) (snd c))
  | _ => false
  end.

Section Denotation.
Context (icase : bool).

(** One operand: a byte consumed, or an assertion checked. *)
Inductive leaf (k : NKind) : pos -> pos -> Prop :=
| leaf_byte pv c r :
    consumes k (fold_c icase c) = true ->
    leaf k (pv, c :: r) (fold_c icase c, r)
| leaf_assert c : holds_at k c = true -> leaf k c c.

Inductive den : re_ast -> pos -> pos -> Prop :=
| den_leaf k c c' : leaf k c c' -> den (RLeaf k) c c'
| den_cat a b c c1 c' : den a c c1 -> den b c1 c' -> den (RCat a b) c c'
| den_alt_l a b c c' : den a c c' -> den (RAlt a b) c c'
| den_alt_r a b c c' : den b c c' -> den (RAlt a b) c c'
| den_star_nil a c : den (RStar a) c c
| den_star_cons a c c1 c' : den a c c1 -> den (RStar a) c1 c' -> den (RStar a) c c'
| den_plus a c c1 c' : den a c c1 -> den (RStar a) c1 c' -> den (RPlus a) c c'
| den_quest_nil a c : den (RQuest a) c c
| den_quest_one a c c' : den a c c' -> den (RQuest a) c c'.

End Denotation.

(** ** Postfix token lists as expressions *)

Definition ast_step (stk : list re_ast) (t : Token) : option (list re_ast) :=
  match tok_kind t with
  | Some k => Some (RLeaf k :: stk)
  | None =>
      match t, stk with
      | TOK_CAT, b :: a :: stk => Some (RCat a b :: stk)
      | TOK_PIPE, b :: a :: stk => Some (RAlt a b :: stk)
      | TOK_STAR, a :: stk => Some (RStar a :: stk)
      | TOK_PLUS, a :: stk => Some (RPlus a :: stk)
      | TOK_QUEST, a :: stk => Some (RQuest a :: stk)
      | (TOK_CAT | TOK_PIPE | TOK_STAR | TOK_PLUS | TOK_QUEST), _ => None
      | _, _ => Some stk
      end
  end.

Fixpoint ast_loop (stk : list re_ast) (pf : list Token) : option (list re_ast) :=
  match pf with
  | [] => Some stk
  | t :: pf' => match ast_step stk t with
                | Some stk' => ast_loop stk' pf'
                | None => None
                end
  end.

Definition postfix_ast (pf : list Token) : option re_ast :=
  match ast_loop [] pf with Some [r] => Some r | _ => None end.

(** ** Accepting paths of an NFA *)

Section Accept.
Context (icase : bool) (pool : list NState) (e : pos).

(** [acc n i c]: a path of [n] edges from state [i] at position [c] to a match state
    at position [e]. *)
Inductive acc : nat -> nat -> pos -> Prop :=
| acc_match i x : pool !! i = Some x -> st_kind x = ST_MATCH -> acc 0 i e
| acc_split n i x j c :
    pool !! i = Some x -> st_kind x = ST_SPLIT ->
    st_out x = Some j \/ st_out1 x = Some j ->
    acc n j c -> acc (S n) i c
| acc_leaf n i x j c c' :
    pool !! i = Some x -> st_out x = Some j -> leaf icase (st_kind x) c c' ->
    acc n j c' -> acc (S n) i c.

Definition accepts (i : nat) (c : pos) : Prop := exists n, acc n i c.

(** [wired r s n]: the pool holds the automaton of [r] from state [s], with its
    exits leading to [n]. *)
Fixpoint wired (r : re_ast) (s n : nat) : Prop :=
  match r with
  | RLeaf k => exists o1, pool !! s = Some (mk_state k (Some n) o1)
                          /\ k <> ST_MATCH /\ k <> ST_SPLIT
  | RCat a b => exists m, wired a s m /\ wired b m n
  | RAlt a b => exists s1 s2, pool !! s = Some (mk_state ST_SPLIT (Some s1) (Some s2))
                              /\ wired a s1 n /\ wired b s2 n
  | RStar a => exists s1, pool !! s = Some (mk_state ST_SPLIT (Some s1) (Some n))
                          /\ wired a s1 s
  | RPlus a => exists m, pool !! m = Some (mk_state ST_SPLIT (Some s) (Some n))
                         /\ wired a s m
  | RQuest a => exists s1, pool !! s = Some (mk_state ST_SPLIT (Some s1) (Some n))
                           /\ wired a s1 n
  end.

Lemma accepts_split i o o1 j c :
  pool !! i = Some (mk_state ST_SPLIT o o1) -> o = Some j \/ o1 = Some j ->
  accepts j c -> accepts i c.
Proof. intros Hi Ho [n Ha]. exists (S n). by eapply acc_split. Qed.

Lemma accepts_leaf i k o1 j c c' :
  pool !! i = Some (mk_state k (Some j) o1) -> leaf icase k c c' ->
  accepts j c' -> accepts i c.
Proof. intros Hi Hl [n Ha]. exists (S n). by eapply acc_leaf. Qed.

(** Every word the expression denotes is a path through its automaton. *)
Lemma wired_complete r c c' :
  den icase r c c' -> forall s n, wired r s n -> accepts n c' -> accepts s c.
Proof.
  induction 1; simpl; intros s n Hw Ha.
  - destruct Hw as (o1 & Hs & _). by eapply accepts_leaf.
  - destruct Hw as (m & Hw1 & Hw2). by eapply IHden1, IHden2.
  - destruct Hw as (s1 & s2 & Hs & Hw1 & Hw2).
    eapply accepts_split; [done|by left|eauto].
  - destruct Hw as (s1 & s2 & Hs & Hw1 & Hw2).
    eapply accepts_split; [done|by right|eauto].
  - destruct Hw as (s1 & Hs & Hw1). eapply accepts_split; [done|by right|done].
  - destruct Hw as (s1 & Hs & Hw1). eapply accepts_split; [done|by left|].
    eapply IHden1; [done|]. eapply IHden2; [|done]. simpl; eauto.
  - destruct Hw as (m & Hs & Hw1).
    eapply IHden1; [done|]. eapply IHden2; [|done]. simpl; eauto.
  - destruct Hw as (s1 & Hs & Hw1). eapply accepts_split; [done|by right|done].
  - destruct Hw as (s1 & Hs & Hw1). eapply accepts_split; [done|by left|eauto].
Qed.

(** Inversion of a path at a state whose record is known. *)
Lemma acc_at_split m i o o1 c :
  pool !! i = Some (mk_state ST_SPLIT o o1) -> acc m i c ->
  exists m' j, (m' < m)%nat /\ (o = Some j \/ o1 = Some j) /\ acc m' j c.
Proof.
  intros Hi Ha. inversion Ha; subst; simplify_eq/=; try done.
  - eexists _, _; eauto.
  - match goal with H : leaf _ _ _ _ |- _ => inversion H; simplify_eq/= end.
Qed.

Lemma acc_at_leaf m i k o o1 c :
  pool !! i = Some (mk_state k o o1) -> k <> ST_MATCH -> k <> ST_SPLIT -> acc m i c ->
  exists m' j c', (m' < m)%nat /\ o = Some j /\ leaf icase k c c' /\ acc m' j c'.
Proof.
  intros Hi Hm Hs Ha. inversion Ha; subst; simplify_eq/=; try done.
  eexists _, _, _; eauto.
Qed.

(** Conversely an accepting path through the automaton of [r] first follows a word
    [r] denotes. *)
Lemma wired_sound r : forall m s n c,
  wired r s n -> acc m s c ->
  exists m' c', (m' < m)%nat /\ den icase r c c' /\ acc m' n c'.
Proof.
  induction r as [k|a IHa b IHb|a IHa b IHb|a IHa|a IHa|a IHa]; simpl.
  - intros m s n c (o1 & Hs & Hm & Hsp) Ha.
    destruct (acc_at_leaf _ _ _ _ _ _ Hs Hm Hsp Ha) as (m' & j & c' & ? & [= <-] & ? & ?).
    eexists m', c'. eauto using den_leaf.
  - intros m s n c (q & Hw1 & Hw2) Ha.
    edestruct IHa as (m1 & c1 & ? & ? & Ha1); eauto.
    edestruct IHb as (m2 & c2 & ? & ? & ?); eauto.
    exists m2, c2. split; [lia|]. eauto using den_cat.
  - intros m s n c (s1 & s2 & Hs & Hw1 & Hw2) Ha.
    destruct (acc_at_split _ _ _ _ _ Hs Ha) as (m1 & j & ? & [[= <-]|[= <-]] & Ha1).
    + edestruct IHa as (m2 & c2 & ? & ? & ?); eauto.
      exists m2, c2. split; [lia|]. eauto using den_alt_l.
    + edestruct IHb as (m2 & c2 & ? & ? & ?); eauto.
      exists m2, c2. split; [lia|]. eauto using den_alt_r.
  - intros m. induction m as [m IHm] using lt_wf_ind.
    intros s n c (s1 & Hs & Hw) Ha.
    destruct (acc_at_split _ _ _ _ _ Hs Ha) as (m1 & j & ? & [[= <-]|[= <-]] & Ha1);
      [|by eauto using den_star_nil].
    edestruct IHa as (m2 & c2 & ? & ? & Ha2); eauto.
    edestruct (IHm m2) as (m3 & c3 & ? & ? & ?); eauto; [lia|].
    exists m3, c3. split; [lia|]. eauto using den_star_cons.
  - assert (Hloop : forall m s q n c,
      pool !! q = Some (mk_state ST_SPLIT (Some s) (Some n)) -> wired a s q -> acc m q c ->
      exists m' c', (m' < m)%nat /\ den icase (RStar a) c c' /\ acc m' n c').
    { intros m. induction m as [m IHm] using lt_wf_ind. intros s q n c Hq Hw Ha.
      destruct (acc_at_split _ _ _ _ _ Hq Ha) as (m1 & j & ? & [[= <-]|[= <-]] & Ha1);
        [|by eauto using den_star_nil].
      edestruct IHa as (m2 & c2 & ? & ? & Ha2); eauto.
      edestruct (IHm m2) as (m3 & c3 & ? & ? & ?); eauto; [lia|].
      exists m3, c3. split; [lia|]. eauto using den_star_cons. }
    intros m s n c (q & Hq & Hw) Ha.
    edestruct IHa as (m1 & c1 & ? & ? & Ha1); eauto.
    edestruct Hloop as (m2 & c2 & ? & ? & ?); eauto.
    exists m2, c2. split; [lia|]. eauto using den_plus.
  - intros m s n c (s1 & Hs & Hw) Ha.
    destruct (acc_at_split _ _ _ _ _ Hs Ha) as (m1 & j & ? & [[= <-]|[= <-]] & Ha1);
      [|by eauto using den_quest_nil].
    edestruct IHa as (m2 & c2 & ? & ? & ?); eauto.
    exists m2, c2. split; [lia|]. eauto using den_quest_one.
Qed.

(** The automaton of [r] in front of a match state accepts what [r] denotes. *)
Lemma wired_accepts r s n x c :
  wired r s n -> pool !! n = Some x -> st_kind x = ST_MATCH ->
  accepts s c <-> den icase r c e.
Proof.
  intros Hw Hn Hx. split.
  - intros [m Ha]. destruct (wired_sound r _ _ _ _ Hw Ha) as (m' & c' & _ & Hd & Ha').
    inversion Ha'; simplify_eq; try congruence.
    match goal with H : leaf _ _ _ _ |- _ => rewrite Hx in H; inversion H; done end.
  - intros Hd. eapply wired_complete; eauto. exists 0%nat. by eapply acc_match.
Qed.

End Accept.
