(* ===== verification/RegexParse.v ===== *)
(** * The regex engine: the parser

    The shunting-yard, run on the printed form of an expression (operators by
    precedence, parentheses only where needed), gives back the expression; and the
    tokeniser always terminates within the length of the pattern. *)

From S2P Require Import Prelude LibC RegexToken RegexCompile RegexMatch RegexSem.

(** ** Printing expressions as infix and postfix token lists *)

Definition kind_tok (k : NKind) : Token :=
  match k with
  | ST_CHAR c => TOK_LIT c
  | ST_CLASS cls => TOK_CLASS cls
  | ST_ANY => TOK_ANY
  | ST_BOL => TOK_BOL
  | ST_EOL => TOK_EOL
  | ST_WB => TOK_WB
  | ST_NWB => TOK_NWB
  | ST_MATCH | ST_SPLIT => TOK_CAT
  end.

(** Every leaf of the expression is an operand. *)
Fixpoint wf_ast (r : re_ast) : Prop :=
  match r with
  | RLeaf k => k <> ST_MATCH /\ k <> ST_SPLIT
  | RCat a b | RAlt a b => wf_ast a /\ wf_ast b
  | RStar a | RPlus a | RQuest a => wf_ast a
  end.

(** Precedence levels: 3 an operand or a group, 2 a quantified expression, 1 a
    concatenation, 0 an alternation. *)
Definition level (r : re_ast) : Z :=
  match r with
  | RLeaf _ => 3
  | RStar _ | RPlus _ | RQuest _ => 2
  | RCat _ _ => 1
  | RAlt _ _ => 0
  end.

Definition wrap (l : Z) (r : re_ast) (x : list Token) : list Token :=
  if level r <? l then TOK_LPAREN :: x ++ [TOK_RPAREN] else x.

(** [infix r]: the tokens of the pattern, as [tokenise] would give them. *)
Fixpoint infix (r : re_ast) : list Token :=
  match r with
  | RLeaf k => [kind_tok k]
  | RCat a b => wrap 1 a (infix a) ++ wrap 2 b (infix b)
  | RAlt a b => wrap 0 a (infix a) ++ TOK_PIPE :: wrap 1 b (infix b)
  | RStar a => wrap 3 a (infix a) ++ [TOK_STAR]
  | RPlus a => wrap 3 a (infix a) ++ [TOK_PLUS]
  | RQuest a => wrap 3 a (infix a) ++ [TOK_QUEST]
  end.

(** The same with explicit concatenations. *)
Fixpoint infix_cat (r : re_ast) : list Token :=
  match r with
  | RLeaf k => [kind_tok k]
  | RCat a b => wrap 1 a (infix_cat a) ++ TOK_CAT :: wrap 2 b (infix_cat b)
  | RAlt a b => wrap 0 a (infix_cat a) ++ TOK_PIPE :: wrap 1 b (infix_cat b)
  | RStar a => wrap 3 a (infix_cat a) ++ [TOK_STAR]
  | RPlus a => wrap 3 a (infix_cat a) ++ [TOK_PLUS]
  | RQuest a => wrap 3 a (infix_cat a) ++ [TOK_QUEST]
  end.

Fixpoint postfix (r : re_ast) : list Token :=
  match r with
  | RLeaf k => [kind_tok k]
  | RCat a b => postfix a ++ postfix b ++ [TOK_CAT]
  | RAlt a b => postfix a ++ postfix b ++ [TOK_PIPE]
  | RStar a => postfix a ++ [TOK_STAR]
  | RPlus a => postfix a ++ [TOK_PLUS]
  | RQuest a => postfix a ++ [TOK_QUEST]
  end.

Lemma tok_kind_tok k : k <> ST_MATCH -> k <> ST_SPLIT -> tok_kind (kind_tok k) = Some k.
Proof. by destruct k. Qed.

(** Postfix lists evaluate to the expression they print. *)
Lemma ast_loop_postfix r : wf_ast r -> forall stk pf,
  ast_loop stk (postfix r ++ pf) = ast_loop (r :: stk) pf.
Proof.
  induction r; simpl; intros Hw stk pf; rewrite <- ?app_assoc.
  - destruct Hw. simpl. unfold ast_step. by rewrite tok_kind_tok.
  - destruct Hw as [H1 H2]. by rewrite IHr1, IHr2 by done.
  - destruct Hw as [H1 H2]. by rewrite IHr1, IHr2 by done.
  - by rewrite IHr.
  - by rewrite IHr.
  - by rewrite IHr.
Qed.

Lemma postfix_ast_postfix r : wf_ast r -> postfix_ast (postfix r) = Some r.
Proof.
  intros Hw. unfold postfix_ast. rewrite <- (app_nil_r (postfix r)).
  by rewrite ast_loop_postfix.
Qed.

(** ** Explicit concatenation *)

Definition sep_before (prev : option Token) : list Token :=
  match prev with Some u => if tok_ends_atom u then [TOK_CAT] else [] | None => [] end.

(** What [cat_inject] does to a block of tokens [x] that prints as [y]. *)
Definition block_ok (x y : list Token) : Prop :=
  exists u, tok_ends_atom u = true /\
  forall prev rest, cat_from prev (x ++ rest) = sep_before prev ++ y ++ cat_from (Some u) rest.

Lemma cat_from_start prev t rest :
  tok_starts_atom t = true ->
  cat_from prev (t :: rest) = sep_before prev ++ t :: cat_from (Some t) rest.
Proof.
  intros Ht. simpl. rewrite Ht. unfold sep_before.
  destruct prev as [u|]; [|done]. by rewrite andb_true_r.
Qed.

Lemma block_wrap l r x y : block_ok x y -> block_ok (wrap l r x) (wrap l r y).
Proof.
  intros (u & Hu & H). unfold wrap. case_if; [|by exists u].
  exists TOK_RPAREN. split; [done|]. intros prev rest.
  rewrite <- !app_comm_cons, cat_from_start by done. f_equal. f_equal.
  rewrite <- app_assoc, H. simpl. rewrite andb_false_r. simpl. by rewrite <- app_assoc.
Qed.

Lemma block_op x y t :
  tok_starts_atom t = false -> block_ok x y -> block_ok (x ++ [t]) (y ++ [t]) \/
  tok_ends_atom t = false.
Proof.
  intros Ht (u & Hu & H). destruct (tok_ends_atom t) eqn:Et; [left|by right].
  exists t. split; [done|]. intros prev rest. rewrite <- !app_assoc, H. simpl.
  by rewrite Ht, andb_false_r.
Qed.

Lemma block_quant x y t :
  tok_starts_atom t = false -> tok_ends_atom t = true ->
  block_ok x y -> block_ok (x ++ [t]) (y ++ [t]).
Proof. intros Hs He H. destruct (block_op x y t Hs H); [done|congruence]. Qed.

Lemma block_infix r : wf_ast r -> block_ok (infix r) (infix_cat r).
Proof.
  induction r; simpl; intros Hw.
  - destruct Hw. exists (kind_tok k). split; [by destruct k|]. intros prev rest. simpl app.
    apply cat_from_start. by destruct k.
  - destruct Hw as [H1 H2].
    destruct (block_wrap 1 r1 _ _ (IHr1 H1)) as (u1 & Hu1 & E1).
    destruct (block_wrap 2 r2 _ _ (IHr2 H2)) as (u2 & Hu2 & E2).
    exists u2. split; [done|]. intros prev rest. rewrite <- !app_assoc, E1, E2.
    unfold sep_before at 2. rewrite Hu1. done.
  - destruct Hw as [H1 H2].
    destruct (block_wrap 0 r1 _ _ (IHr1 H1)) as (u1 & Hu1 & E1).
    destruct (block_wrap 1 r2 _ _ (IHr2 H2)) as (u2 & Hu2 & E2).
    exists u2. split; [done|]. intros prev rest. rewrite <- !app_assoc, E1. simpl.
    rewrite andb_false_r. simpl. by rewrite E2.
  - by apply block_quant, block_wrap, IHr.
  - by apply block_quant, block_wrap, IHr.
  - by apply block_quant, block_wrap, IHr.
Qed.

(** ** The shunting-yard *)

(** After the tokens of [r], [pend r] is on the stack and [emit r] is written. *)
Fixpoint pend (r : re_ast) : list Token :=
  let pw l r x := if level r <? l then [] else x in
  match r with
  | RLeaf _ => []
  | RCat a b => pw 2 b (pend b) ++ [TOK_CAT]
  | RAlt a b => pw 1 b (pend b) ++ [TOK_PIPE]
  | RStar _ => [TOK_STAR]
  | RPlus _ => [TOK_PLUS]
  | RQuest _ => [TOK_QUEST]
  end.

Fixpoint emit (r : re_ast) : list Token :=
  let ew l r x := if level r <? l then postfix r else x in
  match r with
  | RLeaf k => [kind_tok k]
  | RCat a b => postfix a ++ ew 2 b (emit b)
  | RAlt a b => postfix a ++ ew 1 b (emit b)
  | RStar a | RPlus a | RQuest a => postfix a
  end.

Definition wpend (l : Z) (r : re_ast) : list Token := if level r <? l then [] else pend r.
Definition wemit (l : Z) (r : re_ast) : list Token :=
  if level r <? l then postfix r else emit r.

(** How much of the operator stack the tokens of [r] need. *)
Fixpoint need (r : re_ast) : nat :=
  let nw l r x := if level r <? l then S x else x in
  match r with
  | RLeaf _ => 0
  | RCat a b => Nat.max (nw 1 a (need a)) (S (nw 2 b (need b)))
  | RAlt a b => Nat.max (nw 0 a (need a)) (S (nw 1 b (need b)))
  | RStar a | RPlus a | RQuest a => Nat.max (nw 3 a (need a)) 1
  end.

Definition wneed (l : Z) (r : re_ast) : nat := if level r <? l then S (need r) else need r.

Lemma emit_pend r : emit r ++ pend r = postfix r.
Proof.
  induction r; simpl; try done; rewrite <- app_assoc; f_equal.
  - case_if; [done|]. by rewrite app_assoc, IHr2.
  - case_if; [done|]. by rewrite app_assoc, IHr2.
Qed.

Lemma wemit_wpend l r : wemit l r ++ wpend l r = postfix r.
Proof. unfold wemit, wpend. case_if; [by rewrite app_nil_r|apply emit_pend]. Qed.

(** The pending operators of an expression bind at least as tightly as its level. *)
Lemma pend_prec r :
  Forall (fun t => is_lparen t = false /\ level r < tok_prec t) (pend r).
Proof.
  induction r; simpl; try (by repeat constructor).
  - apply Forall_app; split; [|by repeat constructor]. case_if; [done|].
    eapply Forall_impl; [exact IHr2|]. intros t [? ?]. bool_lia. split; [done|lia].
  - apply Forall_app; split; [|by repeat constructor]. case_if; [done|].
    eapply Forall_impl; [exact IHr2|]. intros t [? ?]. bool_lia. split; [done|lia].
Qed.

Lemma wpend_prec l r :
  Forall (fun t => is_lparen t = false /\ l < tok_prec t) (wpend l r).
Proof.
  unfold wpend. case_if; [done|]. eapply Forall_impl; [apply pend_prec|].
  intros t [? ?]. bool_lia. split; [done|lia].
Qed.

(** The stack below does not interfere with operators above level [l]. *)
Definition stk_ok (l : Z) (stk : list Token) : Prop :=
  match stk with [] => True | t :: _ => is_lparen t = true \/ tok_prec t <= l end.

Lemma stk_ok_mono l l' stk : l <= l' -> stk_ok l stk -> stk_ok l' stk.
Proof. destruct stk; simpl; [done|]. intros ? [?|?]; [by left|right; lia]. Qed.

Lemma pop_while_all test ops stk out :
  Forall (fun t => test t = true) ops ->
  match stk with [] => True | t :: _ => test t = false end ->
  pop_while test (ops ++ stk) out = (stk, out ++ ops).
Proof.
  intros Ho Hs. revert out; induction Ho as [|t ops Ht Ho IH]; intros out; simpl.
  - rewrite app_nil_r. destruct stk; simpl; [done|]. by rewrite Hs.
  - rewrite Ht, IH. by rewrite <- app_assoc.
Qed.

#[local] Opaque SHUNT_STACK.

Lemma stk_push_ok t stk :
  (S (length stk) <= SHUNT_STACK)%nat -> stk_push t stk = Ok (t :: stk).
Proof. intros. unfold stk_push. by destruct (Nat.leb_spec SHUNT_STACK (length stk)); [lia|]. Qed.

(** A block of tokens [x] that leaves [ops] pending and writes [o]. *)
Definition runs (l : Z) (n : nat) (x ops o : list Token) : Prop :=
  forall stk out rest, stk_ok l stk -> (length stk + n <= SHUNT_STACK)%nat ->
  shunt_loop (stk, out) (x ++ rest) = shunt_loop (ops ++ stk, out ++ o) rest.

Lemma shunt_loop_app st x y :
  shunt_loop st (x ++ y) = (let! st' := shunt_loop st x in shunt_loop st' y).
Proof.
  revert st; induction x as [|t x IH]; intros st; simpl; [done|].
  destruct (shunt_step st t); simpl; [apply IH|done].
Qed.

(** A group in parentheses leaves nothing pending. *)
Lemma runs_wrap l r x :
  runs (level r) (need r) x (pend r) (emit r) ->
  runs l (wneed l r) (wrap l r x) (wpend l r) (wemit l r).
Proof.
  intros H. unfold wneed, wrap, wpend, wemit. case_if.
  - intros stk out rest Hs Hn. rewrite <- app_comm_cons, <- app_assoc. simpl.
    rewrite stk_push_ok by lia. simpl. rewrite H by (simpl; first [by left|lia]). simpl.
    rewrite pop_while_all; [|eapply Forall_impl; [apply pend_prec|]; by intros t [-> _]|done].
    simpl. by rewrite <- app_assoc, emit_pend.
  - intros stk out rest Hs Hn. apply H; [|done]. eapply stk_ok_mono; [|done]. bool_lia.
Qed.

(** A binary operator between two blocks. *)
Lemma runs_binary t l lb a b xa xb :
  (t = TOK_CAT /\ l = 1 /\ lb = 2) \/ (t = TOK_PIPE /\ l = 0 /\ lb = 1) ->
  runs l (wneed l a) xa (wpend l a) (wemit l a) ->
  runs lb (wneed lb b) xb (wpend lb b) (wemit lb b) ->
  runs l (Nat.max (wneed l a) (S (wneed lb b))) (xa ++ t :: xb)
       (wpend lb b ++ [t]) (postfix a ++ wemit lb b).
Proof.
  intros Ht Ha Hb stk out rest Hs Hn. rewrite <- app_assoc, Ha by (done || lia).
  cbn [app shunt_loop]. assert (Hstep : shunt_step (wpend l a ++ stk, out ++ wemit l a) t =
                         Ok (t :: stk, out ++ postfix a)).
  { assert (Hpop : pop_while (fun u => negb (is_lparen u) && (tok_prec t <=? tok_prec u))
               (wpend l a ++ stk) (out ++ wemit l a) = (stk, out ++ postfix a)).
    { rewrite pop_while_all, <- app_assoc, wemit_wpend; [done| |].
      - eapply Forall_impl; [apply wpend_prec|]. intros u [-> Hu]. simpl.
        apply Z.leb_le. destruct Ht as [(-> & -> & _)|(-> & -> & _)]; simpl; lia.
      - destruct stk as [|u stk]; [done|]. destruct Hs as [->|Hu]; [done|].
        apply andb_false_iff. right. apply Z.leb_gt.
        destruct Ht as [(-> & -> & _)|(-> & -> & _)]; simpl; lia. }
    destruct Ht as [(-> & _)|(-> & _)]; simpl in *; rewrite Hpop; simpl;
      by rewrite stk_push_ok by lia. }
  rewrite Hstep. cbn [rbind]. rewrite Hb.
  - by rewrite <- !app_assoc.
  - right. destruct Ht as [(-> & _ & ->)|(-> & _ & ->)]; simpl; lia.
  - simpl. lia.
Qed.

Lemma runs_quant t a xa :
  tok_prec t = 3 -> tok_kind t = None ->
  runs 3 (wneed 3 a) xa (wpend 3 a) (wemit 3 a) ->
  runs 2 (Nat.max (wneed 3 a) 1) (xa ++ [t]) [t] (postfix a).
Proof.
  intros Ht Hk Ha stk out rest Hs Hn. rewrite <- app_assoc, Ha; [|by eapply stk_ok_mono; [|done]|lia].
  assert (Hp : wpend 3 a = []).
  { pose proof (wpend_prec 3 a) as H. destruct (wpend 3 a) as [|u w]; [done|].
    apply Forall_cons in H as [[_ H] _]. destruct u; simpl in H; lia. }
  pose proof (wemit_wpend 3 a) as He. rewrite Hp, app_nil_r in He. rewrite Hp, He.
  assert (Hpop : pop_while (fun u => tok_prec t <? tok_prec u) stk (out ++ postfix a) =
                 (stk, out ++ postfix a)).
  { destruct stk as [|u stk]; [done|]. simpl. rewrite Ht.
    destruct (Z.ltb_spec 3 (tok_prec u)) as [Hlt|]; [|done]. destruct u; simpl in Hlt; lia. }
  destruct t; simpl in *; try done; rewrite Hpop; simpl; by rewrite stk_push_ok by lia.
Qed.

Lemma runs_infix r : wf_ast r -> runs (level r) (need r) (infix_cat r) (pend r) (emit r).
Proof.
  induction r; intros Hw; simpl in Hw.
  - intros stk out rest _ _. simpl. by destruct Hw, k.
  - destruct Hw as [H1 H2].
    apply (runs_binary TOK_CAT 1 2 r1 r2); [by left|by apply runs_wrap, IHr1|by apply runs_wrap, IHr2].
  - destruct Hw as [H1 H2].
    apply (runs_binary TOK_PIPE 0 1 r1 r2); [by right|by apply runs_wrap, IHr1|by apply runs_wrap, IHr2].
  - by apply (runs_quant TOK_STAR r), runs_wrap, IHr.
  - by apply (runs_quant TOK_PLUS r), runs_wrap, IHr.
  - by apply (runs_quant TOK_QUEST r), runs_wrap, IHr.
Qed.

Lemma shunt_flush_ops ops out :
  Forall (fun t => is_lparen t = false) ops -> shunt_flush ops out = Ok (out ++ ops).
Proof.
  intros H. revert out; induction H as [|t ops Ht H IH]; intros out; simpl.
  - by rewrite app_nil_r.
  - by rewrite Ht, IH, <- app_assoc.
Qed.

(** The parser inverts the printer, parentheses included. *)
Lemma shunt_wrap l r :
  wf_ast r -> (wneed l r <= SHUNT_STACK)%nat ->
  shunt (cat_inject (wrap l r (infix r))) = Ok (postfix r).
Proof.
  intros Hw Hn. destruct (block_wrap l r _ _ (block_infix r Hw)) as (u & _ & Hb).
  assert (Hc : cat_inject (wrap l r (infix r)) = wrap l r (infix_cat r)).
  { unfold cat_inject. rewrite <- (app_nil_r (wrap l r (infix r))), Hb. simpl.
    by rewrite app_nil_r. }
  rewrite Hc. unfold shunt. rewrite <- (app_nil_r (wrap l r (infix_cat r))).
  rewrite (runs_wrap l r _ (runs_infix r Hw)) by (done || simpl; lia).
  simpl. rewrite app_nil_r, shunt_flush_ops, wemit_wpend; [done|].
  eapply Forall_impl; [apply wpend_prec|]. by intros t [? _].
Qed.

Lemma shunt_infix r :
  wf_ast r -> (need r <= SHUNT_STACK)%nat -> shunt (cat_inject (infix r)) = Ok (postfix r).
Proof.
  intros Hw Hn. pose proof (shunt_wrap 0 r Hw) as H. unfold wneed, wrap in H.
  assert (level r <? 0 = false) as E by (by destruct r). rewrite E in H. by apply H.
Qed.
