(* ===== verification/RegexBuild.v ===== *)
(** * The regex engine: correctness of [build_nfa]

    Every fragment on the stack of [build_nfa] occupies an interval of state ids,
    and is the automaton of the expression evaluated so far once its dangling fields
    are patched.  At the end the whole pool is [wired] for the expression of the
    postfix list. *)

From S2P Require Import Prelude LibC RegexToken RegexCompile RegexMatch RegexSem.

(** ** Fields of a pool *)

Definition get_field (pool : list NState) (f : field) : option nat :=
  match pool !! fst f with
  | Some x => if snd f then st_out1 x else st_out x
  | None => None
  end.

Definition get_kind (pool : list NState) (i : nat) : option NKind := st_kind <$> pool !! i.

Lemma length_set_field s f pool : length (set_field s f pool) = length pool.
Proof. apply length_alter. Qed.

Lemma length_pl_patch l s pool : length (pl_patch l s pool) = length pool.
Proof.
  revert pool; induction l as [|f l IH]; intros; simpl; [done|].
  by rewrite IH, length_set_field.
Qed.

Lemma get_kind_set_field s f pool i : get_kind (set_field s f pool) i = get_kind pool i.
Proof.
  unfold get_kind, set_field. rewrite list_lookup_alter.
  case_decide; [subst|done]. destruct (pool !! fst f) as [x|]; simpl; [|done].
  by destruct (snd f).
Qed.

Lemma get_kind_pl_patch l s pool i : get_kind (pl_patch l s pool) i = get_kind pool i.
Proof.
  revert pool; induction l as [|f l IH]; intros; simpl; [done|].
  by rewrite IH, get_kind_set_field.
Qed.

Lemma get_field_set_field s f g pool :
  (fst f < length pool)%nat ->
  get_field (set_field s f pool) g = if decide (f = g) then Some s else get_field pool g.
Proof.
  intros Hlt. destruct f as [i b], g as [j b']. unfold get_field, set_field; simpl in *.
  apply lookup_lt_is_Some in Hlt as [x Hx].
  rewrite list_lookup_alter. destruct (decide (i = j)) as [->|Hne].
  - rewrite Hx; simpl. destruct b, b'; simpl; case_decide; simplify_eq/=; done.
  - case_decide; simplify_eq/=; done.
Qed.

Lemma get_field_pl_patch l s pool g :
  Forall (fun f => (fst f < length pool)%nat) l ->
  get_field (pl_patch l s pool) g = if decide (g ∈ l) then Some s else get_field pool g.
Proof.
  revert pool; induction l as [|f l IH]; intros pool Hl; simpl.
  - done.
  - apply Forall_cons in Hl as [Hf Hl]. rewrite IH by (by rewrite length_set_field).
    rewrite get_field_set_field by done.
    destruct (decide (g ∈ l)) as [Hin|Hnin].
    + rewrite decide_True; [done|]. by apply list_elem_of_further.
    + destruct (decide (f = g)) as [->|Hne].
      * rewrite decide_True; [done|]. by apply list_elem_of_here.
      * rewrite decide_False; [done|]. rewrite elem_of_cons. intros [->|?]; done.
Qed.

Lemma get_kind_app_old pool x i :
  (i < length pool)%nat -> get_kind (pool ++ [x]) i = get_kind pool i.
Proof. intros. unfold get_kind. by rewrite lookup_app_l. Qed.

Lemma get_field_app_old pool x f :
  (fst f < length pool)%nat -> get_field (pool ++ [x]) f = get_field pool f.
Proof. intros. unfold get_field. by rewrite lookup_app_l. Qed.

Lemma lookup_of_fields pool i k o o1 :
  get_kind pool i = Some k -> get_field pool (i, false) = o -> get_field pool (i, true) = o1 ->
  pool !! i = Some (mk_state k o o1).
Proof.
  unfold get_kind, get_field; simpl. destruct (pool !! i) as [[k' o' o1']|]; simpl; [|done].
  intros [= ->] -> ->. done.
Qed.

(** ** The fragment invariant *)

(** [pool'] is [pool] on the ids of [lo, hi), with the fields [outs] patched to [n]. *)
Definition patched (pool pool' : list NState) (lo hi : nat) (outs : list field) (n : nat)
    : Prop :=
  forall i, (lo <= i < hi)%nat ->
    get_kind pool' i = get_kind pool i /\
    forall b, get_field pool' (i, b) =
              if decide ((i, b) ∈ outs) then Some n else get_field pool (i, b).

(** The fragment [f] occupies [lo, hi) and is the automaton of [r] up to its outs. *)
Definition frag_ok (pool : list NState) (r : re_ast) (f : Frag) (lo hi : nat) : Prop :=
  (lo < hi <= length pool)%nat /\
  (lo <= f_start f < hi)%nat /\
  Forall (fun g => (lo <= fst g < hi)%nat) (f_outs f) /\
  forall pool' n, patched pool pool' lo hi (f_outs f) n -> wired pool' r (f_start f) n.

(** The stacks of expressions and fragments match, on adjacent intervals below [hi]. *)
Fixpoint stack_ok (pool : list NState) (rs : list re_ast) (fs : list Frag) (hi : nat)
    : Prop :=
  match rs, fs with
  | [], [] => True
  | r :: rs, f :: fs => exists lo, frag_ok pool r f lo hi /\ stack_ok pool rs fs lo
  | _, _ => False
  end.

(** A fragment only depends on its own interval. *)
Lemma frag_ok_ext pool pool1 r f lo hi :
  frag_ok pool r f lo hi ->
  (length pool <= length pool1)%nat ->
  (forall i, (lo <= i < hi)%nat -> get_kind pool1 i = get_kind pool i) ->
  (forall i b, (lo <= i < hi)%nat -> get_field pool1 (i, b) = get_field pool (i, b)) ->
  frag_ok pool1 r f lo hi.
Proof.
  intros (Hb & Hs & Ho & Hw) Hlen Hk Hf. split_and!; try lia; [done|].
  intros pool' n Hp. apply Hw. intros i Hi. destruct (Hp i Hi) as [Hki Hfi].
  rewrite <- Hk by done. split; [done|]. intros b. rewrite <- Hf by done. apply Hfi.
Qed.

Lemma stack_ok_ext pool pool1 rs fs hi :
  stack_ok pool rs fs hi ->
  (length pool <= length pool1)%nat ->
  (forall i, (i < hi)%nat -> get_kind pool1 i = get_kind pool i) ->
  (forall i b, (i < hi)%nat -> get_field pool1 (i, b) = get_field pool (i, b)) ->
  stack_ok pool1 rs fs hi.
Proof.
  revert fs hi; induction rs as [|r rs IH]; intros [|f fs] hi; simpl; try done.
  intros (lo & Hf & Hst) Hlen Hk Hg. pose proof Hf as (Hb & _). exists lo. split.
  - eapply frag_ok_ext; eauto; intros; [apply Hk|apply Hg]; lia.
  - eapply IH; eauto; intros; [apply Hk|apply Hg]; lia.
Qed.

(** ** The operators *)

Lemma frag_leaf pool k :
  k <> ST_MATCH -> k <> ST_SPLIT ->
  frag_ok (pool ++ [mk_state k None None]) (RLeaf k)
          (mkfrag (length pool) [(length pool, false)]) (length pool) (S (length pool)).
Proof.
  intros Hm Hs. split_and!; simpl; rewrite ?length_app; simpl; try lia.
  - apply Forall_singleton; simpl; lia.
  - intros pool' n Hp. destruct (Hp (length pool)) as [Hk Hf]; [lia|].
    exists (get_field pool' (length pool, true)). split_and!; [|done|done].
    apply lookup_of_fields; [|by rewrite Hf, decide_True by apply list_elem_of_here|done].
    rewrite Hk. unfold get_kind. by rewrite lookup_app_r, Nat.sub_diag by lia.
Qed.

Lemma frag_cat pool r1 r2 e1 e2 l m h :
  frag_ok pool r1 e1 l m -> frag_ok pool r2 e2 m h ->
  frag_ok (pl_patch (f_outs e1) (f_start e2) pool) (RCat r1 r2)
          (mkfrag (f_start e1) (f_outs e2)) l h.
Proof.
  intros (Hb1 & Hs1 & Ho1 & Hw1) (Hb2 & Hs2 & Ho2 & Hw2).
  rewrite Forall_forall in Ho1, Ho2.
  assert (Hin : Forall (fun f => (fst f < length pool)%nat) (f_outs e1)).
  { apply Forall_forall. intros f Hf. specialize (Ho1 f Hf). lia. }
  split_and!; simpl; rewrite ?length_pl_patch; try lia.
  - apply Forall_forall. intros f Hf. specialize (Ho2 f Hf). lia.
  - intros pool' n Hp. exists (f_start e2). split.
    + apply Hw1. intros i Hi. destruct (Hp i) as [Hk Hf]; [lia|].
      rewrite get_kind_pl_patch in Hk. split; [done|]. intros b.
      rewrite Hf, get_field_pl_patch by done.
      destruct (decide ((i, b) ∈ f_outs e2)) as [H2|]; [|done].
      specialize (Ho2 _ H2); simpl in Ho2; lia.
    + apply Hw2. intros i Hi. destruct (Hp i) as [Hk Hf]; [lia|].
      rewrite get_kind_pl_patch in Hk. split; [done|]. intros b.
      rewrite Hf, get_field_pl_patch by done.
      destruct (decide ((i, b) ∈ f_outs e1)) as [H1|]; [|done].
      specialize (Ho1 _ H1); simpl in Ho1; lia.
Qed.

(** A new split state on top of the pool: the lookups it changes. *)
Lemma new_split pool h o o1 :
  h = length pool ->
  (pool ++ [mk_state ST_SPLIT o o1]) !! h = Some (mk_state ST_SPLIT o o1).
Proof. intros ->. by rewrite lookup_app_r, Nat.sub_diag by lia. Qed.

Lemma patched_split pool pool' l outs n k o o1 :
  patched pool pool' l (S k) outs n -> (l <= k)%nat ->
  pool !! k = Some (mk_state ST_SPLIT o o1) ->
  pool' !! k = Some (mk_state ST_SPLIT
                       (if decide ((k, false) ∈ outs) then Some n else o)
                       (if decide ((k, true) ∈ outs) then Some n else o1)).
Proof.
  intros Hp Hl Hx. destruct (Hp k) as [Hk Hf]; [lia|].
  apply lookup_of_fields.
  - rewrite Hk. unfold get_kind. by rewrite Hx.
  - rewrite Hf. unfold get_field; simpl. by rewrite Hx.
  - rewrite Hf. unfold get_field; simpl. by rewrite Hx.
Qed.

Section NewSplit.
Context (pool : list NState) (h : nat) (Hh : h = length pool).

Lemma fields_below (l m : nat) (outs : list field) b :
  Forall (fun g => (l <= fst g < m)%nat) outs -> (m <= h)%nat -> (h, b) ∉ outs.
Proof.
  intros Ho Hm Hin. rewrite Forall_forall in Ho. specialize (Ho _ Hin). simpl in Ho. lia.
Qed.

Lemma frag_alt r1 r2 e1 e2 l m :
  frag_ok pool r1 e1 l m -> frag_ok pool r2 e2 m h ->
  frag_ok (pool ++ [mk_state ST_SPLIT (Some (f_start e1)) (Some (f_start e2))])
          (RAlt r1 r2) (mkfrag h (f_outs e1 ++ f_outs e2)) l (S h).
Proof.
  intros (Hb1 & Hs1 & Ho1 & Hw1) (Hb2 & Hs2 & Ho2 & Hw2).
  split_and!; simpl; rewrite ?length_app; simpl; try lia.
  - apply Forall_app; split; eapply Forall_impl; eauto; simpl; lia.
  - intros pool' n Hp. exists (f_start e1), (f_start e2). split_and!.
    + erewrite patched_split; [|exact Hp|lia|by apply new_split].
      rewrite !decide_False; [done| |]; rewrite elem_of_app; intros [H|H];
        (eapply fields_below in H; [done|eassumption|lia]).
    + apply Hw1. intros i Hi. destruct (Hp i) as [Hk Hf]; [lia|].
      rewrite get_kind_app_old in Hk by (lia). split; [done|]. intros b.
      rewrite Hf, get_field_app_old by (simpl; lia).
      rewrite Forall_forall in Ho2. repeat case_decide; try done; exfalso.
      * rewrite elem_of_app in *. destruct H as [?|H]; [done|].
        specialize (Ho2 _ H); simpl in Ho2; lia.
      * rewrite elem_of_app in *. tauto.
    + apply Hw2. intros i Hi. destruct (Hp i) as [Hk Hf]; [lia|].
      rewrite get_kind_app_old in Hk by (lia). split; [done|]. intros b.
      rewrite Hf, get_field_app_old by (simpl; lia).
      rewrite Forall_forall in Ho1. repeat case_decide; try done; exfalso.
      * rewrite elem_of_app in *. destruct H as [H|?]; [|done].
        specialize (Ho1 _ H); simpl in Ho1; lia.
      * rewrite elem_of_app in *. tauto.
Qed.

(** The inner automaton of a loop: its outs were patched to the new split. *)
Lemma loop_inner r e l outs pool' n o1 :
  frag_ok pool r e l h -> Forall (fun g => fst g = h) outs ->
  patched (pl_patch (f_outs e) h (pool ++ [mk_state ST_SPLIT (Some (f_start e)) o1]))
          pool' l (S h) outs n ->
  wired pool' r (f_start e) h /\
  pool' !! h = Some (mk_state ST_SPLIT
                       (if decide ((h, false) ∈ outs) then Some n else Some (f_start e))
                       (if decide ((h, true) ∈ outs) then Some n else o1)).
Proof.
  intros (Hb & Hs & Ho & Hw) Houts Hp.
  assert (Hin : Forall (fun f => (fst f < length (pool ++
                  [mk_state ST_SPLIT (Some (f_start e)) o1]))%nat) (f_outs e)).
  { eapply Forall_impl; [exact Ho|]. simpl. intros f. rewrite length_app. simpl. lia. }
  split.
  - apply Hw. intros i Hi. destruct (Hp i) as [Hk Hf]; [lia|].
    rewrite get_kind_pl_patch, get_kind_app_old in Hk by (lia).
    split; [done|]. intros b. rewrite Hf, get_field_pl_patch by done.
    rewrite get_field_app_old by (simpl; lia).
    destruct (decide ((i, b) ∈ outs)) as [Hi'|]; [|done].
    rewrite Forall_forall in Houts. specialize (Houts _ Hi'). simpl in Houts. lia.
  - eapply patched_split; [exact Hp|lia|].
    apply lookup_of_fields.
    + rewrite get_kind_pl_patch. unfold get_kind. by rewrite new_split.
    + rewrite get_field_pl_patch by done. rewrite decide_False by (eapply fields_below; eauto).
      unfold get_field; simpl. by rewrite new_split.
    + rewrite get_field_pl_patch by done. rewrite decide_False by (eapply fields_below; eauto).
      unfold get_field; simpl. by rewrite new_split.
Qed.

Lemma frag_loop r e l o1 (plus : bool) :
  frag_ok pool r e l h ->
  frag_ok (pl_patch (f_outs e) h (pool ++ [mk_state ST_SPLIT (Some (f_start e)) o1]))
          (if plus then RPlus r else RStar r)
          (mkfrag (if plus then f_start e else h) [(h, true)]) l (S h).
Proof.
  intros Hfr. pose proof Hfr as (Hb & Hs & Ho & _).
  split_and!; simpl; rewrite ?length_pl_patch, ?length_app; simpl; try lia.
  - destruct plus; lia.
  - destruct plus; lia.
  - apply Forall_singleton; simpl; lia.
  - intros pool' n Hp.
    destruct (loop_inner r e l [(h, true)] pool' n o1) as [Hw Hx];
      [done|by apply Forall_singleton|done|].
    rewrite decide_False in Hx by (by rewrite list_elem_of_singleton).
    rewrite decide_True in Hx by apply list_elem_of_here.
    destruct plus; simpl; eauto.
Qed.

Lemma frag_quest r e l :
  frag_ok pool r e l h ->
  frag_ok (pool ++ [mk_state ST_SPLIT (Some (f_start e)) None]) (RQuest r)
          (mkfrag h ((h, true) :: f_outs e)) l (S h).
Proof.
  intros (Hb & Hs & Ho & Hw). split_and!; simpl; rewrite ?length_app; simpl; try lia.
  - apply Forall_cons. split; [simpl; lia|]. eapply Forall_impl; eauto; simpl; lia.
  - intros pool' n Hp. exists (f_start e). split.
    + erewrite patched_split; [|exact Hp|lia|by apply new_split].
      rewrite decide_False, decide_True; [done|apply list_elem_of_here|].
      rewrite elem_of_cons. intros [?|H]; [done|].
      eapply fields_below in H; [done|eassumption|lia].
    + apply Hw. intros i Hi. destruct (Hp i) as [Hk Hf]; [lia|].
      rewrite get_kind_app_old in Hk by (lia). split; [done|]. intros b.
      rewrite Hf, get_field_app_old by (simpl; lia).
      repeat case_decide; try done; exfalso; rewrite elem_of_cons in *.
      * destruct H as [H|?]; [|done]. simplify_eq. lia.
      * tauto.
Qed.
End NewSplit.

(** ** The construction *)

#[local] Opaque FRAG_STACK.
Arguments build_step : simpl never.
Arguments ast_step : simpl never.

Lemma stack_ok_length pool rs fs hi : stack_ok pool rs fs hi -> length rs = length fs.
Proof.
  revert fs hi; induction rs as [|r rs IH]; intros [|f fs] hi; simpl; try done.
  intros (lo & _ & H). by rewrite (IH _ _ H).
Qed.

(** The stack below an interval does not see a new state, nor patches above it. *)
Lemma stack_ok_grow pool rs fs lo x l s :
  stack_ok pool rs fs lo -> (lo <= length pool)%nat ->
  Forall (fun g : field => (lo <= fst g < length (pool ++ x))%nat) l ->
  stack_ok (pl_patch l s (pool ++ x)) rs fs lo.
Proof.
  intros Hst Hlo Hl. rewrite Forall_forall in Hl.
  eapply stack_ok_ext; [exact Hst|rewrite length_pl_patch, length_app; lia| |].
  - intros i Hi. rewrite get_kind_pl_patch. unfold get_kind. by rewrite lookup_app_l by lia.
  - intros i b Hi. rewrite get_field_pl_patch.
    + rewrite decide_False.
      * unfold get_field; simpl. by rewrite lookup_app_l by lia.
      * intros Hin. specialize (Hl _ Hin). simpl in Hl. lia.
    + apply Forall_forall. intros g Hg. specialize (Hl _ Hg). lia.
Qed.

Lemma stack_ok_app pool rs fs lo x :
  stack_ok pool rs fs lo -> (lo <= length pool)%nat -> stack_ok (pool ++ x) rs fs lo.
Proof. intros. by apply (stack_ok_grow pool rs fs lo x [] 0). Qed.

Lemma stack_ok_patch pool rs fs lo l s :
  stack_ok pool rs fs lo -> (lo <= length pool)%nat ->
  Forall (fun g : field => (lo <= fst g < length pool)%nat) l ->
  stack_ok (pl_patch l s pool) rs fs lo.
Proof.
  intros Hst Hlo Hl. rewrite <- (app_nil_r pool) at 1.
  apply stack_ok_grow; rewrite ?app_nil_r; done.
Qed.

Lemma frag_push_Some f st st' :
  frag_push f st = Some st' ->
  st' = (fst st, f :: snd st) /\ (length (snd st) < FRAG_STACK)%nat.
Proof.
  unfold frag_push. destruct (Nat.leb_spec FRAG_STACK (length (snd st))); [done|].
  intros [= <-]. done.
Qed.

Ltac push_inv H := apply frag_push_Some in H as [H _]; simpl in H; injection H as -> ->.

(** One token: the invariant is kept, in step with the expression stack. *)
Lemma build_step_ok pool rs fs t pool' fs' :
  stack_ok pool rs fs (length pool) ->
  build_step (pool, fs) t = Some (pool', fs') ->
  exists rs', ast_step rs t = Some rs' /\ stack_ok pool' rs' fs' (length pool') /\
              (length pool' <= S (length pool))%nat.
Proof.
  intros Hst Hb. unfold ast_step, build_step in *.
  destruct (tok_kind t) as [k|] eqn:Hk.
  - simpl in Hb. push_inv Hb. eexists. split; [done|]. rewrite length_app; simpl.
    split; [|lia]. exists (length pool). rewrite Nat.add_1_r. split.
    + apply frag_leaf; destruct t; simpl in Hk; simplify_eq; done.
    + by apply stack_ok_app.
  - destruct t; simpl in Hk; try done; try (injection Hb as <- <-; eauto).
    + destruct fs as [|e fs], rs as [|r rs]; try done.
      destruct Hst as (lo & Hf & Hst). pose proof Hf as (Hlo & _ & Ho & _).
      simpl in Hb. push_inv Hb. eexists. split; [done|].
      rewrite length_pl_patch, length_app; simpl. split; [|lia].
      exists lo. rewrite Nat.add_1_r. split; [by apply (frag_loop pool _ eq_refl r e lo None false)|].
      apply stack_ok_grow; [done|lia|]. eapply Forall_impl; [exact Ho|]; simpl; intros;
        rewrite length_app; lia.
    + destruct fs as [|e fs], rs as [|r rs]; try done.
      destruct Hst as (lo & Hf & Hst). pose proof Hf as (Hlo & _ & Ho & _).
      simpl in Hb. push_inv Hb. eexists. split; [done|].
      rewrite length_pl_patch, length_app; simpl. split; [|lia].
      exists lo. rewrite Nat.add_1_r. split; [by apply (frag_loop pool _ eq_refl r e lo None true)|].
      apply stack_ok_grow; [done|lia|]. eapply Forall_impl; [exact Ho|]; simpl; intros;
        rewrite length_app; lia.
    + destruct fs as [|e fs], rs as [|r rs]; try done.
      destruct Hst as (lo & Hf & Hst). pose proof Hf as (Hlo & _).
      simpl in Hb. push_inv Hb. eexists. split; [done|].
      rewrite length_app; simpl. split; [|lia].
      exists lo. rewrite Nat.add_1_r. split; [by apply frag_quest|]. apply stack_ok_app; [done|lia].
    + destruct fs as [|e2 [|e1 fs]], rs as [|r2 [|r1 rs]]; try done; [by destruct Hst as (? & ? & ?)|].
      destruct Hst as (m & Hf2 & lo & Hf1 & Hst).
      pose proof Hf1 as (Hlo & _ & Ho & _). pose proof Hf2 as (Hm & _).
      push_inv Hb. eexists. split; [done|]. rewrite length_pl_patch. split; [|lia].
      exists lo. split; [by eapply frag_cat|].
      apply stack_ok_patch; [done|lia|]. eapply Forall_impl; [exact Ho|]; simpl; lia.
    + destruct fs as [|e2 [|e1 fs]], rs as [|r2 [|r1 rs]]; try done; [by destruct Hst as (? & ? & ?)|].
      destruct Hst as (m & Hf2 & lo & Hf1 & Hst). pose proof Hf1 as (Hlo & _).
      pose proof Hf2 as (Hm & _). simpl in Hb. push_inv Hb. eexists. split; [done|].
      rewrite length_app; simpl. split; [|lia]. exists lo. rewrite Nat.add_1_r.
      split; [by eapply frag_alt|]. apply stack_ok_app; [done|lia].
Qed.

Lemma build_loop_ok pf : forall pool rs fs pool' fs',
  stack_ok pool rs fs (length pool) ->
  build_loop (pool, fs) pf = Some (pool', fs') ->
  exists rs', ast_loop rs pf = Some rs' /\ stack_ok pool' rs' fs' (length pool') /\
              (length pool' <= length pool + length pf)%nat.
Proof.
  induction pf as [|t pf IH]; simpl; intros pool rs fs pool' fs' Hst Hb.
  - injection Hb as <- <-. exists rs. split_and!; [done|done|lia].
  - destruct (build_step (pool, fs) t) as [[pool1 fs1]|] eqn:E; rewrite ?E in Hb; [|done].
    destruct (build_step_ok _ _ _ _ _ _ Hst E) as (rs1 & -> & Hst1 & Hlen).
    destruct (IH _ _ _ _ _ Hst1 Hb) as (rs' & ? & ? & ?). exists rs'.
    split_and!; [done|done|lia].
Qed.

(** The NFA of a postfix list is wired for its expression, in front of a match
    state, within the pool [op_regex_compile] allocates. *)
Lemma build_nfa_wired pf pool start :
  build_nfa pf = Ok (pool, start) ->
  exists r ms x, postfix_ast pf = Some r /\ wired pool r start ms /\
    pool !! ms = Some x /\ st_kind x = ST_MATCH /\
    (length pool <= length pf + 1)%nat.
Proof.
  unfold build_nfa, postfix_ast.
  destruct (build_loop ([], []) pf) as [[pool0 [|e [|]]]|] eqn:E; try done. simpl.
  intros [= <- <-]. destruct (build_loop_ok pf [] [] [] _ _ I E) as (rs & -> & Hst & Hlen).
  destruct rs as [|r [|]]; simpl in Hst; [done| |by destruct Hst as (? & ? & ?)].
  destruct Hst as (lo & (Hb & Hs & Ho & Hw) & _).
  assert (Hin : Forall (fun f : field => (fst f < length (pool0 ++ [mk_state ST_MATCH None None]))%nat)
                  (f_outs e)).
  { eapply Forall_impl; [exact Ho|]. simpl. intros f. rewrite length_app; simpl. lia. }
  eexists r, (length pool0), _. split_and!; [done| | | |].
  - apply Hw. intros i Hi. rewrite get_kind_pl_patch, get_kind_app_old by lia.
    split; [done|]. intros b. by rewrite get_field_pl_patch, get_field_app_old by (simpl; done || lia).
  - eapply (lookup_of_fields _ _ ST_MATCH); [|reflexivity|reflexivity].
    rewrite get_kind_pl_patch. unfold get_kind. by rewrite lookup_app_r, Nat.sub_diag by lia.
  - done.
  - rewrite length_pl_patch, length_app. simpl in *. lia.
Qed.

(** ** When the construction succeeds *)

(** The tallest the operand stack gets. *)
Fixpoint stk_max (stk : list re_ast) (pf : list Token) : nat :=
  match pf with
  | [] => length stk
  | t :: pf' => match ast_step stk t with
                | Some stk' => Nat.max (length stk) (stk_max stk' pf')
                | None => length stk
                end
  end.

Lemma build_step_total pool rs fs t rs' :
  length rs = length fs -> ast_step rs t = Some rs' -> (length rs' <= FRAG_STACK)%nat ->
  exists st', build_step (pool, fs) t = Some st'.
Proof.
  intros Hl Ha Hb. unfold ast_step, build_step in *.
  assert (Hpush : forall f p g, (length g < FRAG_STACK)%nat -> exists st', frag_push f (p, g) = Some st').
  { intros f p g Hg. unfold frag_push; cbn [snd fst].
    destruct (Nat.leb_spec FRAG_STACK (length g)); [lia|eauto]. }
  destruct (tok_kind t) as [k|]; simplify_eq/=; [apply Hpush; simpl in *; lia|].
  destruct t; try (destruct rs as [|? [|? ?]], fs as [|? [|? ?]]); simplify_eq/=;
    eauto; apply Hpush; simpl in *; lia.
Qed.

Lemma stk_max_ge stk pf : (length stk <= stk_max stk pf)%nat.
Proof. destruct pf; simpl; [lia|]. destruct (ast_step stk t); lia. Qed.

Lemma build_nfa_total pf r :
  postfix_ast pf = Some r -> (stk_max [] pf <= FRAG_STACK)%nat ->
  exists pool start, build_nfa pf = Ok (pool, start).
Proof.
  intros Ha Hm.
  assert (H : forall pf pool rs fs rs', stack_ok pool rs fs (length pool) ->
    ast_loop rs pf = Some rs' -> (stk_max rs pf <= FRAG_STACK)%nat ->
    exists pool' fs', build_loop (pool, fs) pf = Some (pool', fs') /\ length fs' = length rs').
  { clear. induction pf as [|t pf IH]; simpl; intros pool rs fs rs' Hst Ha Hm.
    - injection Ha as <-. eexists _, _. split; [done|]. symmetry. by eapply stack_ok_length.
    - destruct (ast_step rs t) as [rs1|] eqn:E; rewrite ?E in Ha, Hm; [|done].
      pose proof (stk_max_ge rs1 pf).
      destruct (build_step_total pool rs fs t rs1) as [[pool1 fs1] Hb];
        [by eapply stack_ok_length|done|lia|].
      rewrite Hb. destruct (build_step_ok _ _ _ _ _ _ Hst Hb) as (rs2 & ? & Hst1 & _).
      simplify_eq. eapply IH; eauto. lia. }
  unfold postfix_ast in Ha. destruct (ast_loop [] pf) as [rs|] eqn:E; [|done].
  destruct (H pf [] [] [] rs) as (pool' & fs' & Hb & Hlen); [done|done|done|].
  destruct rs as [|r1 [|]]; simplify_eq. destruct fs' as [|f [|]]; try done.
  unfold build_nfa. rewrite Hb. simpl. eauto.
Qed.
