(* ===== verification/RegexSim.v ===== *)
(** * The simulation

    First what [addstate] does: it explores the zero-width edges of the automaton, and every
    state once; then the lists of active states that it builds. *)

From S2P Require Import Prelude LibC RegexToken RegexCompile RegexMatch RegexSem.

(** ** Depth-first closure *)

Section Dfs.
Context (succ : nat -> option (list (option nat))).

(** [succ i = None] when [i] is a state to collect, [Some l] when [l] are the
    pointers to follow. *)
Fixpoint dfs (fuel : nat) (s : option nat) (a : list bool * list nat)
    : list bool * list nat :=
  match fuel, s with
  | S fuel', Some i =>
      match a.1 !! i with
      | Some false =>
          match succ i with
          | None => (<[i := true]> a.1, a.2 ++ [i])
          | Some l => fold_left (fun a s => dfs fuel' s a) l (<[i := true]> a.1, a.2)
          end
      | _ => a
      end
  | _, _ => a
  end.

Definition seen (a : list bool * list nat) (i : nat) : Prop := a.1 !! i = Some true.
Definition edge (i j : nat) : Prop := exists l, succ i = Some l /\ Some j ∈ l.

Fixpoint unseen (vis : list bool) : nat :=
  match vis with [] => 0 | b :: vis => (if b then 0 else 1) + unseen vis end.

Lemma unseen_mark vis i :
  vis !! i = Some false -> unseen vis = S (unseen (<[i := true]> vis)).
Proof.
  revert i; induction vis as [|b vis IH]; intros [|i]; simpl; try done.
  - intros [= ->]. done.
  - intros H. rewrite (IH _ H). destruct b; simpl; lia.
Qed.

Lemma unseen_le vis : (unseen vis <= length vis)%nat.
Proof. induction vis as [|[] vis IH]; simpl; lia. Qed.

(** What one call from the roots [R] does to the state of the search. *)
Record explored (R : nat -> Prop) (a a' : list bool * list nat) : Prop := {
  ex_len : length a'.1 = length a.1;
  ex_unseen : (unseen a'.1 <= unseen a.1)%nat;
  ex_mono i : seen a i -> seen a' i;
  ex_root i : R i -> (i < length a.1)%nat -> seen a' i;
  ex_closed i j : seen a' i -> ~ seen a i -> edge i j -> (j < length a.1)%nat -> seen a' j;
  ex_sound i : seen a' i -> seen a i \/ exists s, R s /\ rtc edge s i;
  ex_list i : i ∈ a'.2 <-> i ∈ a.2 \/ (seen a' i /\ ~ seen a i /\ succ i = None)
}.

Lemma explored_refl (R : nat -> Prop) a :
  (forall i, R i -> (i < length a.1)%nat -> seen a i) -> explored R a a.
Proof. intros H. split; intros; try tauto; auto. Qed.

Lemma explored_trans (R1 R2 : nat -> Prop) a a1 a2 :
  explored R1 a a1 -> explored R2 a1 a2 -> explored (fun i => R1 i \/ R2 i) a a2.
Proof.
  intros H1 H2. pose proof (ex_len _ _ _ H1) as Hl. split.
  - rewrite (ex_len _ _ _ H2). done.
  - pose proof (ex_unseen _ _ _ H1). pose proof (ex_unseen _ _ _ H2). lia.
  - intros i Hi. by apply (ex_mono _ _ _ H2), (ex_mono _ _ _ H1).
  - intros i [Hi|Hi] Hlt.
    + by apply (ex_mono _ _ _ H2), (ex_root _ _ _ H1).
    + apply (ex_root _ _ _ H2); [done|lia].
  - intros i j Hi Hn He Hlt. destruct (decide (a1.1 !! i = Some true)) as [Hi1|Hi1].
    + apply (ex_mono _ _ _ H2). by apply (ex_closed _ _ _ H1 i j).
    + apply (ex_closed _ _ _ H2 i j); [done|done|done|lia].
  - intros i Hi. destruct (ex_sound _ _ _ H2 i Hi) as [Hi1|(s & ? & ?)]; [|eauto].
    destruct (ex_sound _ _ _ H1 i Hi1) as [?|(s & ? & ?)]; eauto.
  - intros i. rewrite (ex_list _ _ _ H2), (ex_list _ _ _ H1).
    pose proof (ex_mono _ _ _ H2 i). pose proof (ex_mono _ _ _ H1 i).
    destruct (decide (a1.1 !! i = Some true)) as [Hi1|Hi1];
      fold (seen a1 i) in Hi1; tauto.
Qed.

Lemma explored_impl (R R' : nat -> Prop) a a' :
  (forall i, R i <-> R' i) -> explored R a a' -> explored R' a a'.
Proof.
  intros HR H. split; try apply H.
  - intros i Hi. apply (ex_root _ _ _ H). by apply HR.
  - intros i Hi. destruct (ex_sound _ _ _ H i Hi) as [?|(s & Hs & ?)]; [eauto|].
    right. exists s. split; [by apply HR|done].
Qed.

Lemma seen_mark vis lst lst' i j :
  vis !! i = Some false -> seen (<[i := true]> vis, lst') j <-> j = i \/ seen (vis, lst) j.
Proof.
  intros Hi. unfold seen; simpl.
  destruct (decide (i = j)) as [->|Hne].
  - rewrite list_lookup_insert_eq by (by eapply lookup_lt_Some). tauto.
  - rewrite list_lookup_insert_ne by done. split; [tauto|]. intros [->|?]; done.
Qed.

(** Visiting one after the other. *)
Lemma fold_explored n (f : list bool * list nat -> option nat -> list bool * list nat) l : forall a,
  (forall s a, (unseen a.1 < n)%nat -> explored (fun i => s = Some i) a (f a s)) ->
  (unseen a.1 < n)%nat -> explored (fun j => Some j ∈ l) a (fold_left f l a).
Proof.
  induction l as [|s l IHl]; simpl; intros a Hf Ha.
  - apply explored_refl. intros ? Hn. by apply not_elem_of_nil in Hn.
  - pose proof (Hf s a Ha) as H1.
    eapply explored_impl; [|eapply explored_trans; [exact H1|apply IHl]]; [|done|].
    + intros j. simpl. rewrite elem_of_cons. split; (intros [?|?]; [left; congruence|by right]).
    + pose proof (ex_unseen _ _ _ H1). lia.
Qed.

(** A state with successors is marked, and they are visited. *)
Lemma explored_node vis lst i l a' :
  vis !! i = Some false -> succ i = Some l ->
  explored (fun j => Some j ∈ l) (<[i := true]> vis, lst) a' ->
  explored (fun j => Some i = Some j) (vis, lst) a'.
Proof.
  intros Ei Es Hx.
  assert (Hmark : forall j, seen (<[i := true]> vis, lst) j <-> j = i \/ seen (vis, lst) j)
    by (intros; by apply seen_mark).
  pose proof (unseen_mark _ _ Ei) as Hun.
  pose proof (ex_len _ _ _ Hx) as Hlen. simpl in Hlen. rewrite length_insert in Hlen.
  assert (Hi' : seen a' i) by (apply (ex_mono _ _ _ Hx), Hmark; by left).
  split; simpl.
  - done.
  - pose proof (ex_unseen _ _ _ Hx). simpl in *. lia.
  - intros j Hj. apply (ex_mono _ _ _ Hx), Hmark. by right.
  - intros j [= <-] _. done.
  - intros j k Hj Hn He Hlt. destruct (decide (j = i)) as [->|Hne].
    + destruct He as (l' & Hl' & Hin). simplify_eq.
      apply (ex_root _ _ _ Hx); simpl; [done|by rewrite length_insert].
    + apply (ex_closed _ _ _ Hx j k); simpl; try rewrite Hmark; try rewrite length_insert;
        try tauto; done.
  - intros j Hj. destruct (ex_sound _ _ _ Hx j Hj) as [Hj'|(s & Hs & Hr)].
    + apply Hmark in Hj' as [->|?]; [right|by left]. exists i. split; [done|apply rtc_refl].
    + right. exists i. split; [done|]. eapply rtc_l; [|exact Hr]. by exists l.
  - intros j. rewrite (ex_list _ _ _ Hx). rewrite Hmark. simpl.
    destruct (decide (j = i)) as [->|Hne]; [|tauto].
    assert (~ seen (vis, lst) i) by (unfold seen; simpl; congruence).
    rewrite Es. split; [tauto|]. intros [?|(_ & _ & [=])]. by left.
Qed.

(** A state without is marked and goes on the list. *)
Lemma explored_leaf vis lst i :
  vis !! i = Some false -> succ i = None ->
  explored (fun j => Some i = Some j) (vis, lst) (<[i := true]> vis, lst ++ [i]).
Proof.
  intros Ei Es. pose proof (unseen_mark _ _ Ei) as Hun.
  assert (Hmark' : forall j, seen (<[i := true]> vis, lst ++ [i]) j <-> j = i \/ seen (vis, lst) j)
    by (intros; by apply seen_mark).
  split; simpl.
  - by rewrite length_insert.
  - lia.
  - intros j Hj. apply Hmark'. by right.
  - intros j [= <-] _. apply Hmark'. by left.
  - intros j k Hj Hn (l' & Hl' & _) _. apply Hmark' in Hj as [->|?]; [congruence|done].
  - intros j Hj. apply Hmark' in Hj as [->|?]; [right|by left].
    exists i. split; [done|apply rtc_refl].
  - intros j. rewrite elem_of_app, list_elem_of_singleton, Hmark'.
    assert (~ seen (vis, lst) i) by (unfold seen; simpl; congruence).
    split; [intros [?| ->]; tauto|]. intros [?|([?|?] & ? & ?)]; tauto.
Qed.

Lemma dfs_explored fuel : forall s a,
  (unseen a.1 < fuel)%nat ->
  explored (fun i => s = Some i) a (dfs fuel s a).
Proof.
  induction fuel as [|fuel IH]; intros s a Hf; [lia|].
  destruct s as [i|]; simpl; [|apply explored_refl; intros ? [=]].
  destruct (a.1 !! i) as [[]|] eqn:Ei.
  - apply explored_refl. intros j [= <-] _. done.
  - destruct a as [vis lst]; simpl in *. pose proof (unseen_mark _ _ Ei) as Hun.
    destruct (succ i) as [l|] eqn:Es; [|by apply explored_leaf].
    apply (explored_node _ _ _ l); [done|done|]. apply (fold_explored fuel); [by intros; apply IH|simpl; lia].
  - apply explored_refl. intros j [= <-] Hlt. apply lookup_ge_None in Ei. lia.
Qed.

End Dfs.

(** ** The regex engine: simulation lists and the start-set metadata *)

Section Lists.
Context (icase : bool) (pool : list NState) (e : pos).
Abbreviation NS := (length pool).

(** ** Zero-width successors at a position, and unconditionally *)

Definition succ_of (k : NKind) (pass : bool) (o o1 : option nat)
    : option (list (option nat)) :=
  match k with
  | ST_SPLIT => Some [o; o1]
  | ST_BOL | ST_EOL | ST_WB | ST_NWB => Some (if pass then [o] else [])
  | _ => None
  end.

Definition succ_at (c : pos) (i : nat) : option (list (option nat)) :=
  match pool !! i with
  | Some x => succ_of (st_kind x) (holds_at (st_kind x) c) (st_out x) (st_out1 x)
  | None => Some []
  end.

Definition succ_any (i : nat) : option (list (option nat)) :=
  match pool !! i with
  | Some x => succ_of (st_kind x) true (st_out x) (st_out1 x)
  | None => Some []
  end.

(** ** [addstate] computes the closure *)

Definition marks (a : alist) : list bool := (fun v => v =? al_gen a) <$> al_vg a.
Definition view (a : alist) : list bool * list nat := (marks a, al_list a).

Lemma marks_mark a i :
  marks (mk_alist (<[i := al_gen a]> (al_vg a)) (al_gen a) (al_list a)) = <[i := true]> (marks a).
Proof. unfold marks; simpl. by rewrite list_fmap_insert, Z.eqb_refl. Qed.

(** The generation array never holds a value above the generation. *)
Definition gen_ok (a : alist) : Prop :=
  length (al_vg a) = NS /\ Forall (fun v => 0 <= v <= al_gen a) (al_vg a) /\ 0 <= al_gen a.

Lemma gen_ok_mark a i : gen_ok a ->
  gen_ok (mk_alist (<[i := al_gen a]> (al_vg a)) (al_gen a) (al_list a)).
Proof.
  intros (Hl & Hf & Hg). split_and!; simpl; [by rewrite length_insert| |done].
  apply Forall_insert; [done|lia].
Qed.

Lemma addstate_dfs fuel cur pv : forall s a, gen_ok a ->
  let a' := addstate fuel pool cur pv s a in
  gen_ok a' /\ al_gen a' = al_gen a /\
  view a' = dfs (succ_at (pv, cur)) fuel s (view a).
Proof.
  induction fuel as [|fuel IH]; intros s a Hok; [done|].
  destruct s as [i|]; [|done]. simpl.
  destruct Hok as (Hlen & Hall & Hg).
  assert (Hok : gen_ok a) by (split_and!; done).
  unfold marks. rewrite list_lookup_fmap.
  destruct (pool !! i) as [x|] eqn:Ex.
  2:{ apply lookup_ge_None in Ex. rewrite (lookup_ge_None_2 (al_vg a)) by lia. done. }
  destruct (al_vg a !! i) as [v|] eqn:Ev; simpl; [|done].
  destruct (v =? al_gen a) eqn:Eg; [done|].
  pose proof (marks_mark a i) as Hm. pose proof (gen_ok_mark a i Hok) as Hok1.
  set (a1 := mk_alist _ _ _) in *. fold (marks a). rewrite <- Hm. clear Hm.
  assert (Hg1 : al_gen a1 = al_gen a) by done.
  assert (Hl1 : al_list a1 = al_list a) by done.
  assert (Hv1 : al_vg a1 = <[i := al_gen a]> (al_vg a)) by done.
  rewrite <- Hv1, <- Hg1, <- Hl1. fold (view a1).
  unfold succ_at. rewrite Ex. clearbody a1. clear -IH Hok1.
  destruct (st_kind x); simpl.
  all: try (split; [exact Hok1|split; done]).
  - destruct (IH (st_out x) a1 Hok1) as (H1 & H2 & H3).
    destruct (IH (st_out1 x) _ H1) as (H4 & H5 & H6).
    rewrite H6, H5, H3, H2. done.
  - destruct (at_bol pv); [apply IH|]; done.
  - destruct (at_eol cur); [apply IH|]; done.
  - destruct (at_wb pv cur); [apply IH|]; done.
  - destruct (at_wb pv cur); [|apply IH]; done.
Qed.

(** ** Good lists *)

Definition visited (a : alist) (i : nat) : Prop := seen (view a) i.

(** [a] is the closure of the seeds [S] at position [c]. *)
Record good (c : pos) (S : nat -> Prop) (a : alist) : Prop := {
  gd_gen : gen_ok a;
  gd_root i : S i -> (i < NS)%nat -> visited a i;
  gd_closed i j : visited a i -> edge (succ_at c) i j -> (j < NS)%nat -> visited a j;
  gd_sound i : visited a i -> exists s, S s /\ rtc (edge (succ_at c)) s i;
  gd_list i : i ∈ al_list a <-> visited a i /\ succ_at c i = None
}.

Lemma good_clear c a :
  gen_ok a -> al_gen a + 1 < 2 ^ 32 -> good c (fun _ => False) (al_clear a).
Proof.
  intros (Hl & Hf & Hg) Hb. unfold al_clear. rewrite u32_small by lia.
  assert (Hnv : forall i, ~ visited (mk_alist (al_vg a) (al_gen a + 1) []) i).
  { intros i. unfold visited, seen, view, marks; simpl. rewrite list_lookup_fmap.
    destruct (al_vg a !! i) as [v|] eqn:E; simpl; [|done]. intros [= H].
    apply Z.eqb_eq in H. rewrite Forall_lookup in Hf. specialize (Hf _ _ E). simpl in Hf. lia. }
  split.
  - split_and!; simpl; [done| |lia]. eapply Forall_impl; [exact Hf|]. intros v. simpl. lia.
  - tauto.
  - intros i j Hi. by apply Hnv in Hi.
  - intros i Hi. by apply Hnv in Hi.
  - simpl. intros i. split; [intros H; by apply not_elem_of_nil in H|].
    intros [H _]. by apply Hnv in H.
Qed.

Lemma good_init c g : 0 < g -> gen_ok (al_init NS g) /\ good c (fun _ => False) (al_init NS g).
Proof.
  intros Hg. assert (Hok : gen_ok (al_init NS g)).
  { split_and!; simpl; [apply length_replicate| |lia].
    apply Forall_replicate. lia. }
  assert (Hnv : forall i, ~ visited (al_init NS g) i).
  { intros i. unfold visited, seen, view, marks; simpl. rewrite list_lookup_fmap.
    destruct (replicate NS 0 !! i) as [v|] eqn:E; simpl; [|done].
    apply lookup_replicate in E as [-> _]. destruct (Z.eqb_spec 0 g); [lia|done]. }
  split; [done|]. split; [done|tauto| | |].
  - intros i j Hi. by apply Hnv in Hi.
  - intros i Hi. by apply Hnv in Hi.
  - simpl. intros i. split; [intros H; by apply not_elem_of_nil in H|].
    intros [H _]. by apply Hnv in H.
Qed.

(** Adding a state to a good list adds it to the seeds. *)
Lemma good_add c S a s :
  good c S a ->
  good c (fun i => S i \/ s = Some i) (addstate (Datatypes.S NS) pool (snd c) (fst c) s a).
Proof.
  intros [Hg Hr Hc Hs Hl]. destruct c as [pv cur].
  destruct (addstate_dfs (Datatypes.S NS) cur pv s a Hg) as (Hg' & Hgen & Hv).
  assert (Hlen : length (view a).1 = NS) by (unfold view, marks; simpl; rewrite length_fmap; apply Hg).
  pose proof (dfs_explored (succ_at (pv, cur)) (Datatypes.S NS) s (view a)) as Hx.
  rewrite <- Hv in Hx. simpl fst in *. simpl snd in *.
  set (a' := addstate _ _ _ _ _ _) in *. clearbody a'.
  assert (Hex := Hx ltac:(pose proof (unseen_le (marks a)); lia)). clear Hx.
  split.
  - done.
  - intros i [Hi|Hi] Hlt; [by apply (ex_mono _ _ _ _ Hex), Hr|].
    apply (ex_root _ _ _ _ Hex); [done|simpl; lia].
  - intros i j Hi He Hlt. destruct (decide (marks a !! i = Some true)) as [Ha|Ha].
    + apply (ex_mono _ _ _ _ Hex). by apply (Hc i j).
    + apply (ex_closed _ _ _ _ Hex i j); [done|done|done|simpl; lia].
  - intros i Hi. destruct (ex_sound _ _ _ _ Hex i Hi) as [Ha|(q & Hq & Hr')].
    + destruct (Hs i Ha) as (q & ? & ?). eauto.
    + eauto.
  - intros i. pose proof (ex_list _ _ _ _ Hex i) as H1. simpl in H1.
    rewrite H1, Hl. pose proof (ex_mono _ _ _ _ Hex i) as H2. unfold visited.
    destruct (decide (marks a !! i = Some true)) as [Ha|Ha];
      fold (seen (view a) i) in Ha; tauto.
Qed.

(** ** A good list accepts what its seeds accept *)

Lemma edge_accepts c i j : edge (succ_at c) i j -> accepts icase pool e j c -> accepts icase pool e i c.
Proof.
  intros (l & Hl & Hin) Ha. unfold succ_at in Hl.
  destruct (pool !! i) as [[k o o1]|] eqn:E; [|simplify_eq; by apply not_elem_of_nil in Hin].
  simpl in Hl. destruct (holds_at k c) eqn:Eh.
  - destruct k; simpl in Hl; simplify_eq; try by apply not_elem_of_nil in Hin.
    all: apply list_elem_of_singleton in Hin as <-.
    all: eapply accepts_leaf; [exact E|by apply leaf_assert|done].
  - destruct k; simpl in Hl; simplify_eq; try by apply not_elem_of_nil in Hin.
    rewrite !elem_of_cons in Hin. eapply accepts_split; [exact E| |exact Ha].
    destruct Hin as [<-|[<-|Hin]]; [by left|by right|by apply not_elem_of_nil in Hin].
Qed.

Lemma rtc_accepts c i j :
  rtc (edge (succ_at c)) i j -> accepts icase pool e j c -> accepts icase pool e i c.
Proof. induction 1; eauto using edge_accepts. Qed.

(** An accepting path starts with zero-width edges to a state that is collected. *)
Lemma accepts_collected n i c :
  acc icase pool e n i c ->
  (i < NS)%nat /\
  exists j, rtc (edge (succ_at c)) i j /\ (j < NS)%nat /\ succ_at c j = None /\
            accepts icase pool e j c.
Proof.
  induction 1 as [i x Hi Hk|n i x j c Hi Hk Ho Ha [Hlt (j' & Hr & ?)]
                 |n i x j c c' Hi Ho Hl Ha IH]; (split; [by eapply lookup_lt_Some|]).
  - exists i. split_and!; [apply rtc_refl|by eapply lookup_lt_Some| |exists 0%nat; by eapply acc_match].
    unfold succ_at. by rewrite Hi, Hk.
  - exists j'. split; [|done]. eapply rtc_l; [|exact Hr]. unfold edge, succ_at.
    rewrite Hi, Hk. eexists. split; [done|]. rewrite !elem_of_cons. destruct Ho as [->| ->]; tauto.
  - inversion Hl as [pv c0 r Hc|c1 Hh]; subst.
    + exists i. split_and!; [apply rtc_refl|by eapply lookup_lt_Some| |].
      * unfold succ_at. rewrite Hi. by destruct (st_kind x).
      * exists (S n). by eapply acc_leaf.
    + destruct IH as (Hlt & j' & Hr & Hj'). exists j'. split; [|done].
      eapply rtc_l; [|exact Hr]. unfold edge, succ_at. rewrite Hi, Hh.
      destruct (st_kind x); simpl in *; try done; eexists; (split; [done|]); rewrite Ho;
        apply list_elem_of_here.
Qed.

(** A state on a zero-width path to a state of the pool is in the pool. *)
Lemma rtc_source_lt c i j :
  rtc (edge (succ_at c)) i j -> (j < NS)%nat -> (i < NS)%nat.
Proof.
  intros [x|x y z (l & Hl & Hin) _]; [done|]. intros _. unfold succ_at in Hl.
  destruct (pool !! x) eqn:E; [by eapply lookup_lt_Some|].
  simplify_eq. by apply not_elem_of_nil in Hin.
Qed.

(** A set closed under edges within the pool is closed under paths. *)
Lemma rtc_closed c (P : nat -> Prop) i j :
  (forall q y, P q -> edge (succ_at c) q y -> (y < NS)%nat -> P y) ->
  rtc (edge (succ_at c)) i j -> P i -> (j < NS)%nat -> P j.
Proof.
  intros HP Hr. induction Hr as [x|x y z He Hr IH]; [done|].
  intros Hi Hz. apply IH; [|done]. eapply HP; eauto using rtc_source_lt.
Qed.

Lemma closed_rtc c S a i j :
  good c S a -> rtc (edge (succ_at c)) i j -> visited a i -> (j < NS)%nat -> visited a j.
Proof. intros Hgd. apply rtc_closed. intros. eapply gd_closed; eauto. Qed.

Definition list_accepts (l : list nat) (c : pos) : Prop :=
  exists i, i ∈ l /\ accepts icase pool e i c.

Lemma good_accepts c S a :
  good c S a -> list_accepts (al_list a) c <-> exists s, S s /\ accepts icase pool e s c.
Proof.
  intros Hgd. split.
  - intros (i & Hi & Ha). apply (gd_list _ _ _ Hgd) in Hi as [Hv _].
    destruct (gd_sound _ _ _ Hgd _ Hv) as (s & Hs & Hr). eauto using rtc_accepts.
  - intros (s & Hs & [n Ha]). apply accepts_collected in Ha as (Hlt & j & Hr & Hj & Hst & Ha).
    exists j. split; [|done]. apply (gd_list _ _ _ Hgd). split; [|done].
    eapply closed_rtc; eauto. by eapply gd_root.
Qed.

(** Everything in a good list is a consuming state or a match state. *)
Lemma good_list_step c S a i x :
  good c S a -> i ∈ al_list a -> pool !! i = Some x ->
  accepts icase pool e i c <->
    (st_kind x = ST_MATCH /\ c = e) \/
    exists c0 r j, snd c = c0 :: r /\ consumes (st_kind x) (fold_c icase c0) = true /\
                   st_out x = Some j /\ accepts icase pool e j (fold_c icase c0, r).
Proof.
  intros Hgd Hi Hx. apply (gd_list _ _ _ Hgd) in Hi as [_ Hst].
  unfold succ_at in Hst. rewrite Hx in Hst. split.
  - intros [n Ha]. inversion Ha as [? y Hy Hk|? ? y ? ? Hy Hk|? ? y j ? c' Hy Ho Hl]; simplify_eq.
    + by left.
    + by rewrite Hk in Hst.
    + inversion Hl as [pv c0 r Hc|? Hh]; subst.
      * right. exists c0, r, j. split_and!; [done|done|done|]. by eexists.
      * by destruct (st_kind x).
  - intros [[Hk ->]|(c0 & r & j & Hc & Hcons & Ho & n & Ha)].
    + exists 0%nat. by eapply acc_match.
    + exists (Datatypes.S n). destruct c as [pv ?]; simpl in *; subst.
      eapply acc_leaf; eauto. by apply leaf_byte.
Qed.

(** ** The start-set metadata *)

Lemma collect_dfs fuel : forall s (a : list bool * list nat), length a.1 = NS ->
  length (collect_first_states fuel pool s a).1 = NS /\
  collect_first_states fuel pool s a = dfs succ_any fuel s a.
Proof.
  induction fuel as [|fuel IH]; intros s [vis lst] Hl; [done|].
  destruct s as [i|]; [|done]. simpl in *.
  destruct (vis !! i) as [[]|] eqn:Ev; simpl; try done.
  assert (Hlt : (i < length pool)%nat) by (rewrite <- Hl; by eapply lookup_lt_Some).
  apply lookup_lt_is_Some in Hlt as [x Hx]. rewrite Hx. unfold succ_any. rewrite Hx.
  assert (Hl1 : length (<[i:=true]> vis) = NS) by by rewrite length_insert.
  destruct (st_kind x); simpl; try (split; [done|done]); try (by apply IH).
  destruct (IH (st_out x) (<[i:=true]> vis, lst) Hl1) as [H1 H2].
  destruct (IH (st_out1 x) _ H1) as [H3 H4]. split; [done|]. by rewrite H4, H2.
Qed.

Lemma edge_any c i j : edge (succ_at c) i j -> edge succ_any i j.
Proof.
  unfold edge, succ_at, succ_any. intros (l & Hl & Hin).
  destruct (pool !! i) as [x|]; [|eauto].
  destruct (st_kind x); simpl in *; simplify_eq; eauto.
  all: eexists; (split; [done|]); destruct (_ : bool); [done|by apply not_elem_of_nil in Hin].
Qed.

Lemma succ_any_stop c i : succ_at c i = None <-> succ_any i = None.
Proof.
  unfold succ_at, succ_any. destruct (pool !! i) as [x|]; [|done].
  by destruct (st_kind x).
Qed.

End Lists.
