(* ===== verification/RegexCorrect.v ===== *)
(** * The regex engine: correctness of matching

    The theorems of the engine: the generation-counter simulation of
    [op_regex_match], with its first-byte shortcut, decides whether the pattern's
    expression denotes a span of the text from an admissible start. *)

From S2P Require Import Prelude LibC RegexToken RegexCompile RegexClass RegexMatch RegexSem.
From S2P Require Import RegexBuild RegexSim.

Arguments addstate : simpl never.

(** ** The first-byte shortcut is sound *)

Lemma first_set_sound ic pool lst : forall ce f ce' f',
  first_set ic pool lst ce f = (ce', false, f') -> length f = 32%nat ->
  (ce = true -> ce' = true) /\
  (forall d, 0 <= d < 256 -> cls_tst f d = true -> cls_tst f' d = true) /\
  (forall i x, i ∈ lst -> pool !! i = Some x ->
     (st_kind x = ST_MATCH -> ce' = true) /\
     (forall d, 0 <= d < 256 -> consumes (st_kind x) d = true -> cls_tst f' d = true)).
Proof.
  induction lst as [|i lst IH]; simpl; intros ce f ce' f' H Hl.
  - injection H as <- <-. split_and!; [done|done|]. intros i x Hi. by apply not_elem_of_nil in Hi.
  - destruct (pool !! i) as [x|] eqn:Ex; simpl in H.
    2:{ destruct (IH _ _ _ _ H Hl) as (H1 & H2 & H3). split_and!; [done|done|].
        intros j y [->|Hj]%elem_of_cons Hy; [congruence|eauto]. }
    assert (Hcase : forall ce1 f1, first_set ic pool lst ce1 f1 = (ce', false, f') ->
      length f1 = 32%nat -> (ce = true -> ce1 = true) ->
      (forall d, 0 <= d < 256 -> cls_tst f d = true -> cls_tst f1 d = true) ->
      (st_kind x = ST_MATCH -> ce1 = true) ->
      (forall d, 0 <= d < 256 -> consumes (st_kind x) d = true -> cls_tst f1 d = true) ->
      (ce = true -> ce' = true) /\
      (forall d, 0 <= d < 256 -> cls_tst f d = true -> cls_tst f' d = true) /\
      (forall i0 x0, i0 ∈ i :: lst -> pool !! i0 = Some x0 ->
         (st_kind x0 = ST_MATCH -> ce' = true) /\
         (forall d, 0 <= d < 256 -> consumes (st_kind x0) d = true -> cls_tst f' d = true))).
    { intros ce1 f1 H1 Hl1 Hce Hf Hm Hc. destruct (IH _ _ _ _ H1 Hl1) as (I1 & I2 & I3).
      split_and!; [auto|auto|]. intros j y [->|Hj]%elem_of_cons Hy; [|eauto].
      simplify_eq. auto. }
    destruct (st_kind x) as [|c|cls| | | | | |] eqn:Ek; simpl in *; try done;
      try (apply (Hcase _ _ H); done).
    + apply (Hcase _ _ H); [by rewrite length_cls_set_ic|done| |done|].
      * intros. by apply cls_tst_set_ic_mono.
      * intros d Hd Hc. unfold u8 in Hc. rewrite Z.mod_small in Hc by lia.
        apply Z.eqb_eq in Hc as ->. by apply cls_tst_set_ic_self.
    + apply (Hcase _ _ H); [apply length_cls_or|done| |done|].
      * intros d Hd Hf. by rewrite cls_tst_or, Hf by done.
      * intros d Hd Hf. by rewrite cls_tst_or, Hf, orb_true_r by done.
Qed.

Lemma fold_c_byte ic c : 0 <= c < 256 -> 0 <= fold_c ic c < 256.
Proof. intros H. unfold fold_c. destruct ic; [by apply tolower_byte|done]. Qed.

(** When the shortcut skips a position, no match starts there. *)
Lemma do_seed_sound ic anch pool start c nc r :
  0 <= nc < 256 ->
  do_seed (compute_metadata ic anch pool start) (nc :: r) = false ->
  forall e, ~ accepts ic pool e start (c, nc :: r).
Proof.
  intros Hnc Hseed e [n Ha]. unfold do_seed, compute_metadata in Hseed.
  destruct (collect_dfs pool (S (length pool)) (Some start)
              (replicate (length pool) false, [])) as [_ Hdfs]; [apply length_replicate|].
  pose proof (dfs_explored (succ_any pool) (S (length pool)) (Some start)
                (replicate (length pool) false, [])) as Hx.
  rewrite <- Hdfs in Hx.
  pose proof (unseen_le (replicate (length pool) false)) as Hu. rewrite length_replicate in Hu.
  specialize (Hx ltac:(simpl; lia)). clear Hdfs Hu.
  destruct (collect_first_states _ _ _ _) as [vis lst].
  destruct (first_set ic pool lst false cls_zero) as [[ce fa] fc] eqn:Ef.
  simpl in Hseed. destruct fa; simpl in Hseed; [done|].
  destruct ce; simpl in Hseed; [done|].
  destruct (first_set_sound _ _ _ _ _ _ _ Ef eq_refl) as (_ & _ & Hfs).
  apply accepts_collected in Ha as (Hlt & j & Hr & Hj & Hst & [m Ha]).
  assert (Hnone : forall i, ~ seen (replicate (length pool) false, []) i).
  { intros i. unfold seen; simpl. intros H. by apply lookup_replicate in H as [? _]. }
  assert (Hjl : j ∈ lst).
  { apply (ex_list _ _ _ _ Hx). right. split_and!; [|apply Hnone|by eapply succ_any_stop].
    assert (Hs : seen (vis, lst) start)
      by (apply (ex_root _ _ _ _ Hx); [done|by simpl; rewrite length_replicate]).
    eapply (rtc_closed pool _ (seen (vis, lst))); [|exact Hr|done|done].
    intros q y Hq He Hy. eapply (ex_closed _ _ _ _ Hx q); [done|apply Hnone|by eapply edge_any|].
    simpl. by rewrite length_replicate. }
  apply lookup_lt_is_Some in Hj as [x Hx'].
  destruct (Hfs j x Hjl Hx') as [Hm Hc].
  unfold succ_at in Hst. rewrite Hx' in Hst.
  inversion Ha as [? y Hy Hk|? ? y ? ? Hy Hk|? ? y k ? c' Hy Ho Hl]; simplify_eq.
  - by specialize (Hm Hk).
  - by rewrite Hk in Hst.
  - inversion Hl as [pv c0 r' Hcons|? Hh]; subst; [|by destruct (st_kind x)].
    specialize (Hc _ (fold_c_byte ic nc Hnc) Hcons). congruence.
Qed.

(** ** The main loop *)

Section Loop.
Context (re : op_regex).
Let ic := re_icase re.
Let pool := re_pool re.
Let start := re_start re.
Hypothesis Hmeta : re = compute_metadata ic (re_anchored re) pool start.

Lemma good_impl c (S S' : nat -> Prop) a :
  (forall i, S i <-> S' i) -> good pool c S a -> good pool c S' a.
Proof.
  intros HS [Hg Hr Hc Hs Hl]. split; try done.
  - intros i Hi. apply Hr. by apply HS.
  - intros i Hi. destruct (Hs i Hi) as (q & Hq & ?). exists q. split; [by apply HS|done].
Qed.

Lemma addstate_gen fuel cur pv s a :
  gen_ok pool a ->
  al_gen (addstate fuel pool cur pv s a) = al_gen a.
Proof. intros H. by destruct (addstate_dfs pool fuel cur pv s a H) as (_ & ? & _). Qed.

(** The seeds [advance] adds: successors of the states that consume [c]. *)
Definition moved (l : list nat) (c : Z) (j : nat) : Prop :=
  exists i x, i ∈ l /\ pool !! i = Some x /\ consumes (st_kind x) c = true /\ st_out x = Some j.

Lemma moved_cons i l c j :
  moved (i :: l) c j <->
  (exists x, pool !! i = Some x /\ consumes (st_kind x) c = true /\ st_out x = Some j) \/
  moved l c j.
Proof.
  unfold moved. split.
  - intros (q & x & Hq & ?). apply elem_of_cons in Hq as [->|?]; [left|right]; eauto.
  - intros [(x & ?)|(q & x & ? & ?)]; eexists _, x; (split; [|done]); apply elem_of_cons; eauto.
Qed.

Lemma advance_good l c np : forall S a,
  good pool (c, np) S a ->
  let a' := advance (Datatypes.S (length pool)) pool c np l a in
  good pool (c, np) (fun j => S j \/ moved l c j) a' /\ al_gen a' = al_gen a.
Proof.
  induction l as [|i l IH]; simpl; intros S a Hg.
  - split; [|done]. eapply good_impl; [|exact Hg]. intros j. split; [tauto|].
    intros [?|(? & ? & H & _)]; [done|by apply not_elem_of_nil in H].
  - destruct (pool !! i) as [x|] eqn:Ex; [destruct (consumes (st_kind x) c) eqn:Ec|].
    + pose proof (good_add pool (c, np) S a (st_out x) Hg) as Hg1. simpl in Hg1.
      destruct (IH _ _ Hg1) as [H1 H2]. split.
      * eapply good_impl; [|exact H1]. intros j. rewrite moved_cons, Ex.
        split; [intros [[?|?]|?]; eauto 6|].
        intros [?|[(y & ? & ? & ?)|?]]; simplify_eq; tauto.
      * rewrite H2. by apply addstate_gen, Hg.
    + destruct (IH S a Hg) as [H1 H2]. split; [|done]. eapply good_impl; [|exact H1].
      intros j. rewrite moved_cons, Ex. split; [tauto|].
      intros [?|[(y & ? & ? & ?)|?]]; simplify_eq; [tauto|congruence|tauto].
    + destruct (IH S a Hg) as [H1 H2]. split; [|done]. eapply good_impl; [|exact H1].
      intros j. rewrite moved_cons, Ex. split; [tauto|].
      intros [?|[(y & ? & ? & ?)|?]]; [tauto|done|tauto].
Qed.

Definition cbytes (p : list Z) : Prop := Forall (fun c => 0 <= c < 256) p.

Lemma has_match_spec c S a :
  good pool c S a -> has_match pool (al_list a) = true <->
  exists i x, i ∈ al_list a /\ pool !! i = Some x /\ st_kind x = ST_MATCH.
Proof.
  intros _. unfold has_match. rewrite existsb_exists. split.
  - intros (i & Hi & Hk). destruct (pool !! i) as [x|] eqn:E; [|done].
    exists i, x. split_and!; [by apply list_elem_of_In|done|]. simpl in Hk. by destruct (st_kind x).
  - intros (i & x & Hi & Hx & Hk). exists i. split; [by apply list_elem_of_In|].
    rewrite Hx. simpl. by rewrite Hk.
Qed.

(** ** One byte, for a fixed end position [e] *)

Section EndPos.
Context (e : pos).

(** Re-seeding adds the start state, unless the pattern is anchored or the
    shortcut shows that it is useless. *)
Lemma reseed_good c np S a :
  cbytes np -> good pool (c, np) S a ->
  let a' := reseed (Datatypes.S (length pool)) re c np a in
  al_gen a' = al_gen a /\
  exists S', good pool (c, np) S' a' /\
    ((exists s, S' s /\ accepts ic pool e s (c, np)) <->
     (exists s, S s /\ accepts ic pool e s (c, np)) \/
     (re_anchored re = false /\ accepts ic pool e start (c, np))).
Proof.
  intros Hb Hg. unfold reseed. destruct (re_anchored re) eqn:Ea; simpl.
  { split; [done|]. exists S. split; [done|]. split; [tauto|]. intros [?|[? ?]]; done. }
  destruct (do_seed re np) eqn:Ed; simpl.
  - case_bool_decide as Hv; simpl.
    + split; [done|]. exists (fun i => S i \/ start = i). split.
      * split; try apply Hg.
        -- intros i [Hi| <-] Hlt; [by apply Hg|]. unfold visited, seen, view, marks; simpl.
           rewrite list_lookup_fmap. fold start in Hv. rewrite Hv. simpl. by rewrite Z.eqb_refl.
        -- intros i Hi. destruct (gd_sound _ _ _ _ Hg i Hi) as (s & ? & ?). eauto.
      * split; [intros (s & [?| <-] & ?); eauto|intros [(s & ? & ?)|[_ ?]]; eauto].
    + split; [apply addstate_gen, Hg|].
      exists (fun i => S i \/ Some start = Some i). split; [by apply good_add|].
      split; [intros (s & [?|[= <-]] & ?); eauto|intros [(s & ? & ?)|[_ ?]]; eauto].
  - split; [done|]. exists S. split; [done|]. split; [tauto|]. intros [?|[_ Hs]]; [done|].
    exfalso. rewrite Hmeta in Ed. destruct np as [|nc r]; [done|].
    apply Forall_cons in Hb as [Hnc _].
    by apply (do_seed_sound _ _ _ _ c _ _ Hnc Ed e).
Qed.

(** What the successors of a list accept after the byte [c]. *)
Definition succ_accepts (l : list nat) (c : Z) (np : list Z) : Prop :=
  exists j, moved l c j /\ accepts ic pool e j (c, np).

(** A list accepts here if it has a match state, and later what its successors do. *)
Lemma list_accepts_step pv c0 np S a :
  good pool (pv, c0 :: np) S a ->
  list_accepts ic pool e (al_list a) (pv, c0 :: np) <->
  (has_match pool (al_list a) = true /\ e = (pv, c0 :: np)) \/
  succ_accepts (al_list a) (fold_c ic c0) np.
Proof.
  intros Hg. split.
  - intros (i & Hi & Ha). assert (Hlt : (i < length pool)%nat)
      by (destruct Ha as [n Ha]; by apply accepts_collected in Ha as [? _]).
    apply lookup_lt_is_Some in Hlt as [x Hx].
    destruct (proj1 (good_list_step ic pool e _ _ _ _ _ Hg Hi Hx) Ha)
      as [[Hk <-]|(c1 & r & j & Hp & Hc & Ho & Ha')].
    + left. split; [|done]. eapply has_match_spec; eauto.
    + right. simplify_eq/=. exists j. split; [|done]. exists i, x. done.
  - intros [[Hm ->]|(j & (i & x & Hi & Hx & Hc & Ho) & Ha)].
    + eapply has_match_spec in Hm as (i & x & Hi & Hx & Hk); [|done].
      exists i. split; [done|]. exists 0%nat. by eapply acc_match.
    + exists i. split; [done|].
      apply (good_list_step _ _ _ _ _ _ _ _ Hg Hi Hx). right. eauto 10.
Qed.

Lemma list_accepts_end pv S a :
  good pool (pv, []) S a ->
  list_accepts ic pool e (al_list a) (pv, []) <->
  has_match pool (al_list a) = true /\ e = (pv, []).
Proof.
  intros Hg. split.
  - intros (i & Hi & Ha). assert (Hlt : (i < length pool)%nat)
      by (destruct Ha as [n Ha]; by apply accepts_collected in Ha as [? _]).
    apply lookup_lt_is_Some in Hlt as [x Hx].
    destruct (proj1 (good_list_step ic pool e _ _ _ _ _ Hg Hi Hx) Ha)
      as [[Hk <-]|(c1 & r & j & Hp & _)]; [|done].
    split; [|done]. eapply has_match_spec; eauto.
  - intros [Hm ->]. eapply has_match_spec in Hm as (i & x & Hi & Hx & Hk); [|done].
    exists i. split; [done|]. exists 0%nat. by eapply acc_match.
Qed.

(** One byte: the next list after [advance], and after [advance] and [reseed]. *)
Lemma next_list pv c0 np S cur nxt :
  cbytes np -> good pool (pv, c0 :: np) S cur -> gen_ok pool nxt -> al_gen nxt + 1 < 2 ^ 32 ->
  let c := fold_c ic c0 in
  let nxt' := advance (Datatypes.S (length pool)) pool c np (al_list cur) (al_clear nxt) in
  let nxt'' := reseed (Datatypes.S (length pool)) re c np nxt' in
  (exists S', good pool (c, np) S' nxt' /\ al_gen nxt' = al_gen nxt + 1 /\
    (list_accepts ic pool e (al_list nxt') (c, np) <-> succ_accepts (al_list cur) c np)) /\
  exists S', good pool (c, np) S' nxt'' /\ al_gen nxt'' = al_gen nxt + 1 /\
    (list_accepts ic pool e (al_list nxt'') (c, np) <->
       succ_accepts (al_list cur) c np \/
       (re_anchored re = false /\ accepts ic pool e start (c, np))).
Proof.
  intros Hb Hg Hok Hgen c nxt' nxt''.
  pose proof (good_clear pool (c, np) nxt Hok Hgen) as Hcl.
  destruct (advance_good (al_list cur) c np _ _ Hcl) as [Hadv Hag].
  fold nxt' in Hadv, Hag.
  assert (Hgc : al_gen (al_clear nxt) = al_gen nxt + 1).
  { destruct Hok as (_ & _ & ?). unfold al_clear; simpl. by rewrite u32_small by lia. }
  rewrite Hgc in Hag.
  assert (Hstep : (exists s, (False \/ moved (al_list cur) c s) /\ accepts ic pool e s (c, np)) <->
                  succ_accepts (al_list cur) c np).
  { split; [intros (s & [[]|?] & ?); by exists s|intros (s & ? & ?); eauto]. }
  split.
  - eexists. split_and!; [exact Hadv|done|]. by rewrite (good_accepts _ _ _ _ _ _ Hadv).
  - destruct (reseed_good c np _ _ Hb Hadv) as (Hrg & S' & HS' & Hiff).
    fold nxt'' in Hrg, HS'. exists S'. split_and!; [done|lia|].
    by rewrite (good_accepts _ _ _ _ _ _ HS'), Hiff, Hstep.
Qed.

(** A match that starts strictly after the current position. *)
Definition later (p : list Z) : Prop :=
  exists pre c0 suf, p = pre ++ c0 :: suf /\ accepts ic pool e start (fold_c ic c0, suf).

Lemma later_cons c0 np :
  later (c0 :: np) <-> accepts ic pool e start (fold_c ic c0, np) \/ later np.
Proof.
  split.
  - intros (pre & c1 & suf & Hp & Ha). destruct pre as [|d pre]; simplify_eq/=; [by left|].
    right. exists pre, c1, suf. done.
  - intros [Ha|(pre & c1 & suf & -> & Ha)]; [by exists [], c0, np|by exists (c0 :: pre), c1, suf].
Qed.

End EndPos.

(** A list with a match state accepts here and now. *)
Lemma list_accepts_match c S a :
  good pool c S a -> has_match pool (al_list a) = true ->
  list_accepts ic pool c (al_list a) c.
Proof.
  intros Hg Hm. eapply has_match_spec in Hm as (i & x & Hi & Hx & Hk); [|done].
  exists i. split; [done|]. exists 0%nat. by eapply acc_match.
Qed.

Lemma match_loop_spec p : forall pv S cur nxt,
  cbytes p -> good pool (pv, p) S cur -> gen_ok pool nxt ->
  al_gen cur + Z.of_nat (length p) < 2 ^ 32 -> al_gen nxt + Z.of_nat (length p) < 2 ^ 32 ->
  match_loop (Datatypes.S (length pool)) re cur nxt p = true <->
  exists e, list_accepts ic pool e (al_list cur) (pv, p) \/
            (re_anchored re = false /\ later e p).
Proof.
  induction p as [|c0 np IH]; intros pv S cur nxt Hb Hg Hok Hc Hn; simpl; fold pool;
    (destruct (has_match pool (al_list cur)) eqn:Em;
     [split; [intros _; eexists; left; by eapply list_accepts_match|done]|]).
  - split; [done|]. intros (e & [Ha|[_ (pre & c1 & suf & H & _)]]); [|by destruct pre].
    apply (list_accepts_end e _ _ _ Hg) in Ha as [? _]. congruence.
  - apply Forall_cons in Hb as [Hc0 Hb]. simpl length in *.
    destruct (next_list (0, []) pv c0 np S cur nxt Hb Hg Hok ltac:(lia))
      as [_ (S' & HS' & Hgen & _)].
    fold ic. rewrite (IH _ _ _ _ Hb HS'); [|apply Hg|lia|lia].
    f_equiv. intros e.
    destruct (next_list e pv c0 np S cur nxt Hb Hg Hok ltac:(lia))
      as [_ (_ & _ & _ & Hiff)].
    rewrite Hiff, later_cons, (list_accepts_step e _ _ _ _ _ Hg), Em.
    split; [tauto|]. intros [[[? _]|?]|?]; [done|tauto|tauto].
Qed.

(** The byte before a position, folded; 0 at the start. *)
Definition prev_of (pre : list Z) : Z :=
  match last pre with Some c => fold_c ic c | None => 0 end.

Lemma op_regex_match_accepts text :
  cbytes text -> Z.of_nat (length text) < 2 ^ 32 - 2 ->
  op_regex_match re text = true <->
  exists pre suf e, text = pre ++ suf /\ (re_anchored re = true -> pre = []) /\
                    accepts ic pool e start (prev_of pre, suf).
Proof.
  intros Hb Hlen. unfold op_regex_match. fold pool start.
  destruct (good_init pool (0, text) 1) as [Hok1 Hg1]; [lia|].
  destruct (good_init pool (0, text) 2) as [Hok2 _]; [lia|].
  pose proof (good_add pool (0, text) _ _ (Some start) Hg1) as Hg. simpl in Hg.
  pose proof (addstate_gen (Datatypes.S (length pool)) text 0 (Some start) _ Hok1) as Hgen.
  simpl al_gen in Hgen.
  rewrite (match_loop_spec text 0 _ _ _ Hb Hg Hok2); [|rewrite Hgen; lia|simpl; lia].
  setoid_rewrite (good_accepts _ _ _ _ _ _ Hg). split.
  - intros (e & [(s & [[]|[= <-]] & Ha)|[Hanc (pre & c0 & suf & -> & Ha)]]).
    + exists [], text, e. done.
    + exists (pre ++ [c0]), suf, e. rewrite <- app_assoc. split_and!; [done|congruence|].
      unfold prev_of. by rewrite last_snoc.
  - intros (pre & suf & e & -> & Hanc & Ha). exists e. destruct pre as [|c pre] using rev_ind.
    + left. exists start. split; [by right|done].
    + right. unfold prev_of in Ha. rewrite last_snoc in Ha. split.
      * destruct (re_anchored re); [|done]. specialize (Hanc eq_refl). by destruct pre.
      * exists pre, c, suf. by rewrite <- app_assoc.
Qed.

(** ** [match_at]: the longest match from a position *)

(** The length of the match that ends at [e], for one that starts before [p]. *)
Definition span (p : list Z) (e : pos) : Z := Z.of_nat (length p) - Z.of_nat (length (snd e)).

Lemma match_at_loop_spec p : forall pv S cur nxt len best,
  cbytes p -> good pool (pv, p) S cur -> gen_ok pool nxt ->
  al_gen cur + Z.of_nat (length p) < 2 ^ 32 -> al_gen nxt + Z.of_nat (length p) < 2 ^ 32 ->
  best <= len ->
  let r := match_at_loop (Datatypes.S (length pool)) re cur nxt p len best in
  (forall e, list_accepts ic pool e (al_list cur) (pv, p) -> len + span p e <= r) /\
  best <= r /\
  (r = best \/ exists e, list_accepts ic pool e (al_list cur) (pv, p) /\ r = len + span p e).
Proof.
  induction p as [|c0 np IH]; intros pv S cur nxt len best Hb Hg Hok Hc Hn Hbest; simpl; fold pool.
  - split_and!.
    + intros e Ha. apply (list_accepts_end e _ _ _ Hg) in Ha as [-> ->]. unfold span; simpl. lia.
    + destruct (has_match pool (al_list cur)); lia.
    + destruct (has_match pool (al_list cur)) eqn:Em; [right|by left].
      exists (pv, []). split; [by apply (list_accepts_end _ _ _ _ Hg)|unfold span; simpl; lia].
  - apply Forall_cons in Hb as [Hc0 Hb]. simpl length in *.
    destruct (next_list (0, []) pv c0 np S cur nxt Hb Hg Hok ltac:(lia))
      as [(S' & HS' & Hgen & _) _]. fold ic.
    set (best' := if has_match pool (al_list cur) then len else best).
    assert (Hb' : best <= best' <= len) by (subst best'; case_if; lia).
    destruct (IH _ _ _ cur (len + 1) best' Hb HS') as (H1 & H2 & H3);
      [apply Hg|lia|lia|lia|]. set (r := match_at_loop _ _ _ _ _ _ _) in *. clearbody r.
    assert (Hsp : forall e, len + 1 + span np e = len + span (c0 :: np) e)
      by (intros; unfold span; simpl length; lia).
    assert (Hstep : forall e, list_accepts ic pool e (al_list cur) (pv, c0 :: np) <->
      (has_match pool (al_list cur) = true /\ e = (pv, c0 :: np)) \/
      list_accepts ic pool e (al_list (advance (Datatypes.S (length pool)) pool
        (fold_c ic c0) np (al_list cur) (al_clear nxt))) (fold_c ic c0, np)).
    { intros e. rewrite (list_accepts_step e _ _ _ _ _ Hg).
      destruct (next_list e pv c0 np S cur nxt Hb Hg Hok ltac:(lia)) as [(_ & _ & _ & Hiff) _].
      by rewrite Hiff. }
    clear IH HS' Hgen. split_and!; [| lia |].
    + intros e He. rewrite <- Hsp. apply Hstep in He as [[Hm ->]|He]; [|by apply H1].
      subst best'. rewrite Hm in H2. unfold span; simpl length. lia.
    + destruct H3 as [->|(e & He & ->)].
      * subst best'. destruct (has_match pool (al_list cur)) eqn:Em; [right|by left].
        exists (pv, c0 :: np). split; [apply Hstep; by left|unfold span; simpl length; lia].
      * right. exists e. split; [apply Hstep; by right|apply Hsp].
Qed.

Lemma match_at_spec p pv :
  cbytes p -> Z.of_nat (length p) < 2 ^ 32 - 2 ->
  let r := match_at re p pv in
  (forall e, accepts ic pool e start (pv, p) -> span p e <= r) /\
  (r = -1 \/ exists e, accepts ic pool e start (pv, p) /\ r = span p e).
Proof.
  intros Hb Hlen. unfold match_at. fold pool start.
  destruct (good_init pool (pv, p) 1) as [Hok1 Hg1]; [lia|].
  destruct (good_init pool (pv, p) 2) as [Hok2 _]; [lia|].
  pose proof (good_add pool (pv, p) _ _ (Some start) Hg1) as Hg. simpl in Hg.
  pose proof (addstate_gen (Datatypes.S (length pool)) p pv (Some start) _ Hok1) as Hgen.
  simpl al_gen in Hgen.
  destruct (match_at_loop_spec p pv _ _ _ 0 (-1) Hb Hg Hok2) as (H1 & _ & H3);
    [rewrite Hgen; lia|simpl; lia|lia|].
  set (r := match_at_loop _ _ _ _ _ _ _) in *. clearbody r. simpl.
  assert (Hacc : forall e, list_accepts ic pool e (al_list (addstate (Datatypes.S (length pool))
      pool p pv (Some start) (al_init (length pool) 1))) (pv, p) <->
      accepts ic pool e start (pv, p)).
  { intros e. rewrite (good_accepts _ _ _ _ _ _ Hg). split.
    - intros (s & [[]|[= <-]] & ?). done.
    - intros. exists start. split; [by right|done]. }
  split.
  - intros e He. apply Hacc, H1 in He. lia.
  - destruct H3 as [->|(e & He & ->)]; [by left|right]. exists e. split; [by apply Hacc|lia].
Qed.

End Loop.
