(* ===== verification/RegexTheorems.v ===== *)
(** * The regex engine: the theorems about the whole pipeline

    From a pattern to the answer of [op_regex_match] and [op_regex_search]: the
    compiled regex decides what the parsed expression denotes; the search is
    leftmost-longest; printing an expression and compiling the print gives the
    expression back; and the behaviours of the pattern syntax that differ from what
    the header of regex.c says. *)

From S2P Require Import Prelude LibC RegexToken RegexCompile RegexClass RegexMatch RegexSem.
From S2P Require Import RegexParse RegexBuild RegexSim RegexCorrect.

Arguments addstate : simpl never.
#[local] Opaque SHUNT_STACK FRAG_STACK.

(** ** The expression of a pattern *)

(** The flags a pattern is compiled with: case folding, and the pattern after an
    optional [(?i)]. *)
Definition pat_icase (pattern : list Z) (flags : Z) : bool :=
  prefix_of (bs "(?i)") pattern || (flags &? OP_REGEX_ICASE).
Definition pat_body (pattern : list Z) : list Z :=
  if prefix_of (bs "(?i)") pattern then drop 4 pattern else pattern.
Definition pat_anchored (pattern : list Z) : bool :=
  match pat_body pattern with c :: _ => c =? ch "^" | [] => false end.

(** The expression the parser reads, when the pattern is well formed. *)
Definition regex_ast (pattern : list Z) (flags : Z) : option re_ast :=
  match tokenise (pat_body pattern) (pat_icase pattern flags)
                 (negb (flags &? OP_REGEX_NEWLINE)) with
  | Ok ts => match shunt (cat_inject ts) with Ok pf => postfix_ast pf | Err _ => None end
  | Err _ => None
  end.

Lemma compute_metadata_fields ic anch pool start :
  let re := compute_metadata ic anch pool start in
  re_pool re = pool /\ re_start re = start /\ re_icase re = ic /\ re_anchored re = anch.
Proof.
  unfold compute_metadata. destruct (collect_first_states _ _ _ _) as [vis lst].
  by destruct (first_set _ _ _ _ _) as [[ce fa] fc].
Qed.

Lemma op_regex_compile_inv pattern flags re :
  op_regex_compile pattern flags = Ok re ->
  exists r ms x, regex_ast pattern flags = Some r /\
    wired (re_pool re) r (re_start re) ms /\ re_pool re !! ms = Some x /\ st_kind x = ST_MATCH /\
    re = compute_metadata (re_icase re) (re_anchored re) (re_pool re) (re_start re) /\
    re_icase re = pat_icase pattern flags /\ re_anchored re = pat_anchored pattern.
Proof.
  unfold op_regex_compile, regex_ast, pat_icase, pat_anchored, pat_body.
  destruct (prefix_of _ pattern) eqn:Ep; simpl.
  all: destruct (tokenise _ _ _) as [ts|]; simpl; [|done].
  all: destruct (shunt _) as [pf|]; simpl; [|done].
  all: destruct (build_nfa pf) as [[pool start]|] eqn:Eb; simpl; [|done].
  all: intros [= <-]; destruct (build_nfa_wired _ _ _ Eb) as (r & ms & x & Hr & Hw & Hm & Hk & _).
  all: match goal with |- context [compute_metadata ?i ?a ?p ?s] =>
         destruct (compute_metadata_fields i a p s) as (-> & -> & -> & ->) end.
  all: by exists r, ms, x.
Qed.

(** A match of the expression of [re] at offset [length pre] of [pre ++ suf],
    ending at [e]. *)
Definition regex_span (re : op_regex) (r : re_ast) (pre suf : list Z) (e : pos) : Prop :=
  den (re_icase re) r (prev_of re pre, suf) e.

Section Compiled.
Context (pattern : list Z) (flags : Z) (re : op_regex).
Hypothesis Hre : op_regex_compile pattern flags = Ok re.

Lemma compiled_accepts :
  exists r, regex_ast pattern flags = Some r /\
  forall e c, accepts (re_icase re) (re_pool re) e (re_start re) c <->
              den (re_icase re) r c e.
Proof.
  destruct (op_regex_compile_inv _ _ _ Hre) as (r & ms & x & Hr & Hw & Hm & Hk & _).
  exists r. split; [done|]. intros e c. by eapply wired_accepts.
Qed.

Lemma compiled_meta :
  re = compute_metadata (re_icase re) (re_anchored re) (re_pool re) (re_start re).
Proof. by destruct (op_regex_compile_inv _ _ _ Hre) as (? & ? & ? & ? & ? & ? & ? & ? & _). Qed.

Lemma compiled_match text r :
  regex_ast pattern flags = Some r -> cbytes text -> Z.of_nat (length text) < 2 ^ 32 - 2 ->
  op_regex_match re text = true <->
  exists pre suf e, text = pre ++ suf /\ (re_anchored re = true -> pre = []) /\
                    regex_span re r pre suf e.
Proof.
  intros Hr Hb Hlen. rewrite (op_regex_match_accepts re compiled_meta text Hb Hlen).
  destruct compiled_accepts as (r' & Hr' & Hacc). simplify_eq.
  unfold regex_span. setoid_rewrite Hacc. done.
Qed.

(** *** Search *)

(** Paths consume a prefix of the text. *)
Lemma acc_suffix e n i c :
  acc (re_icase re) (re_pool re) e n i c -> (length (snd e) <= length (snd c))%nat.
Proof.
  induction 1 as [| |? ? ? ? ? ? ? ? Hl ? IH]; [done|done|].
  inversion Hl; subst; simpl in *; lia.
Qed.

(** The test at one offset: skipped or not, [mlen] tells whether a match starts
    there, and the length of the longest. *)
Definition mlen_at (prev : Z) (p : list Z) : Z :=
  if match p with
     | c :: _ =>
         if negb (re_first_any re) && negb (re_can_empty re)
         then negb (cls_tst (re_first_chars re) (fold_c (re_icase re) c)) else false
     | [] => false
     end then -1 else match_at re p (fold_c (re_icase re) prev).

Lemma mlen_at_spec r prev p :
  regex_ast pattern flags = Some r -> cbytes p -> Z.of_nat (length p) < 2 ^ 32 - 2 ->
  let pos0 := (fold_c (re_icase re) prev, p) in
  (forall e, den (re_icase re) r pos0 e -> 0 <= span p e <= mlen_at prev p) /\
  (mlen_at prev p < 0 \/
   exists e, den (re_icase re) r pos0 e /\ mlen_at prev p = span p e).
Proof.
  intros Hr Hb Hlen pos0. destruct compiled_accepts as (r' & Hr' & Hacc). simplify_eq.
  assert (Hsp : forall e, den (re_icase re) r pos0 e -> 0 <= span p e).
  { intros e [n He]%Hacc. apply acc_suffix in He. unfold span. simpl in He. lia. }
  destruct (match_at_spec re compiled_meta p (fold_c (re_icase re) prev) Hb Hlen) as [H1 H2].
  unfold mlen_at. case_if.
  - split; [|by left]. intros e He. exfalso. destruct p as [|c p]; [done|].
    apply Forall_cons in Hb as [Hc _].
    assert (Hs : do_seed re (c :: p) = false).
    { unfold do_seed. destruct (negb _ && negb _); [|done]. by apply negb_true_iff. }
    rewrite compiled_meta in Hs.
    apply (do_seed_sound _ _ _ _ (fold_c (re_icase re) prev) c p Hc Hs e).
    by apply Hacc.
  - split.
    + intros e He. split; [by apply Hsp|]. by apply H1, Hacc.
    + destruct H2 as [->|(e & He & ->)]; [by left|right]. exists e. split; [by apply Hacc|done].
Qed.

(** What [search_loop] returns, from offset [i] with [pre] already skipped. *)
Lemma search_loop_spec r p : forall pre i,
  regex_ast pattern flags = Some r -> cbytes (pre ++ p) ->
  Z.of_nat (length (pre ++ p)) < 2 ^ 32 - 2 -> i = Z.of_nat (length pre) ->
  match search_loop re i (default 0 (last pre)) p with
  | Some (j, n) =>
      exists mid suf e, p = mid ++ suf /\ j = i + Z.of_nat (length mid) /\
        (re_anchored re = true -> mid = []) /\
        regex_span re r (pre ++ mid) suf e /\ n = span suf e /\
        (forall e', regex_span re r (pre ++ mid) suf e' -> span suf e' <= n) /\
        (forall mid' suf' e', p = mid' ++ suf' -> (length mid' < length mid)%nat ->
           ~ regex_span re r (pre ++ mid') suf' e')
  | None =>
      forall mid suf e, p = mid ++ suf -> (re_anchored re = true -> mid = []) ->
        ~ regex_span re r (pre ++ mid) suf e
  end.
Proof.
  assert (Hprev : forall pre, fold_c (re_icase re) (default 0 (last pre)) = prev_of re pre).
  { intros pre. unfold prev_of. destruct (last pre); simpl; [done|]. by destruct (re_icase re). }
  induction p as [|c p IH]; intros pre i Hr Hb Hlen Hi.
  - destruct (mlen_at_spec r (default 0 (last pre)) [] Hr) as [H1 H2]; [constructor|simpl; lia|].
    simpl. fold (mlen_at (default 0 (last pre)) []). rewrite Hprev in H1, H2.
    case_if; bool_lia.
    + destruct H2 as [?|(e & He & Hm)]; [lia|].
      exists [], [], e. unfold regex_span. rewrite ?(app_nil_r pre).
      split_and!; [done|simpl; lia|done|done|done| |by intros; simpl in *; lia].
      intros e' He'. by apply H1.
    + assert (Hno : forall e, ~ regex_span re r pre [] e).
      { intros e He%H1. lia. }
      destruct (re_anchored re); intros mid suf e Heq _;
        symmetry in Heq; apply app_eq_nil in Heq as [-> ->]; rewrite ?(app_nil_r pre); apply Hno.
  - assert (Hb' : cbytes (c :: p)) by (by apply Forall_app in Hb as [_ ?]).
    destruct (mlen_at_spec r (default 0 (last pre)) (c :: p) Hr Hb') as [H1 H2];
      [rewrite length_app in Hlen; lia|].
    cbn [search_loop]. fold (mlen_at (default 0 (last pre)) (c :: p)). rewrite Hprev in H1, H2.
    destruct (0 <=? mlen_at (default 0 (last pre)) (c :: p)) eqn:Em; bool_lia.
    + destruct H2 as [?|(e & He & Hm)]; [lia|].
      exists [], (c :: p), e. unfold regex_span. rewrite ?(app_nil_r pre).
      split_and!; [done|simpl; lia|done|done|done| |by intros; simpl in *; lia].
      intros e' He'. by apply H1.
    + assert (Hno : forall e, ~ regex_span re r pre (c :: p) e).
      { intros e He%H1. lia. }
      destruct (re_anchored re) eqn:Ea.
      * intros mid suf e Heq Hmid. rewrite (Hmid eq_refl) in *. simpl in Heq. subst suf.
        rewrite ?(app_nil_r pre). apply Hno.
      * assert (Hcons : pre ++ c :: p = (pre ++ [c]) ++ p) by (by rewrite <- app_assoc).
        rewrite Hcons in Hb, Hlen.
        specialize (IH (pre ++ [c]) (i + 1) Hr Hb Hlen).
        rewrite last_snoc in IH. simpl default in IH.
        specialize (IH ltac:(rewrite length_app; simpl; lia)).
        destruct (search_loop re (i + 1) c p) as [[j n]|].
        -- destruct IH as (mid & suf & e & -> & -> & _ & Hs & -> & Hmax & Hmin).
           exists (c :: mid), suf, e. rewrite <- app_assoc in Hs, Hmax.
           split_and!; [done|simpl length; lia|done|done|done|done|].
           intros [|d mid'] suf' e' Heq Hl.
           ++ rewrite ?(app_nil_r pre). simpl in Heq. subst suf'. apply Hno.
           ++ injection Heq as <- Heq. replace (pre ++ c :: mid') with ((pre ++ [c]) ++ mid')
                by (by rewrite <- app_assoc).
              apply Hmin; [done|simpl in Hl; lia].
        -- intros [|d mid] suf e Heq _.
           ++ rewrite ?(app_nil_r pre). simpl in Heq. subst suf. apply Hno.
           ++ injection Heq as <- Heq. replace (pre ++ c :: mid) with ((pre ++ [c]) ++ mid)
                by (by rewrite <- app_assoc).
              by apply IH.
Qed.

End Compiled.

(** ** The theorems *)

(** C1. [op_regex_match] decides the language of the pattern: a compiled regex
    matches a text exactly when the expression the parser read denotes a span of the
    text, starting anywhere, or only at the beginning when the pattern starts
    with [^]. *)
Theorem op_regex_match_correct pattern flags re text :
  op_regex_compile pattern flags = Ok re ->
  cbytes text -> Z.of_nat (length text) < 2 ^ 32 - 2 ->
  exists r, regex_ast pattern flags = Some r /\
    (op_regex_match re text = true <->
     exists pre suf e, text = pre ++ suf /\ (pat_anchored pattern = true -> pre = []) /\
       den (pat_icase pattern flags) r (prev_of re pre, suf) e).
Proof.
  intros Hre Hb Hlen. destruct (compiled_accepts _ _ _ Hre) as (r & Hr & _).
  exists r. split; [done|]. rewrite (compiled_match _ _ _ Hre _ _ Hr Hb Hlen).
  destruct (op_regex_compile_inv _ _ _ Hre) as (_ & _ & _ & _ & _ & _ & _ & _ & Hi & Ha).
  unfold regex_span. by rewrite Hi, Ha.
Qed.

Definition re_of (r : result regex_error op_regex) : op_regex :=
  match r with Ok re => re | Err _ => mk_regex [] 0 false false false false [] end.

Lemma op_regex_match_correct_witness :
  exists r, regex_ast (bs "a(b|c)+") 0 = Some r /\
    (op_regex_match (re_of (op_regex_compile (bs "a(b|c)+") 0)) (bs "xxabcc") = true <->
     exists pre suf e, bs "xxabcc" = pre ++ suf /\
       (pat_anchored (bs "a(b|c)+") = true -> pre = []) /\
       den (pat_icase (bs "a(b|c)+") 0) r
           (prev_of (re_of (op_regex_compile (bs "a(b|c)+") 0)) pre, suf) e).
Proof.
  apply op_regex_match_correct.
  - vm_compute. reflexivity.
  - unfold cbytes. cbv. repeat constructor; discriminate.
  - reflexivity.
Defined.

(** C2. [op_regex_search] is leftmost-longest: it returns the first offset where
    the expression denotes a span, with the length of the longest such span, and
    fails only when there is none (at offset 0, for an anchored pattern). *)
Theorem op_regex_search_correct pattern flags re text r :
  op_regex_compile pattern flags = Ok re -> regex_ast pattern flags = Some r ->
  cbytes text -> Z.of_nat (length text) < 2 ^ 32 - 2 ->
  match op_regex_search re text with
  | Some (j, n) =>
      exists pre suf e, text = pre ++ suf /\ j = Z.of_nat (length pre) /\
        (re_anchored re = true -> pre = []) /\
        regex_span re r pre suf e /\ n = span suf e /\
        (forall e', regex_span re r pre suf e' -> span suf e' <= n) /\
        (forall pre' suf' e', text = pre' ++ suf' -> (length pre' < length pre)%nat ->
           ~ regex_span re r pre' suf' e')
  | None =>
      forall pre suf e, text = pre ++ suf -> (re_anchored re = true -> pre = []) ->
        ~ regex_span re r pre suf e
  end.
Proof.
  intros Hre Hr Hb Hlen.
  exact (search_loop_spec _ _ _ Hre r text [] 0 Hr Hb Hlen eq_refl).
Qed.

Lemma op_regex_search_correct_witness :
  match op_regex_search (re_of (op_regex_compile (bs "[bc]+") 0)) (bs "xabcbd") with
  | Some (j, n) => j = 2 /\ n = 3 /\
      exists pre suf e, bs "xabcbd" = pre ++ suf /\ j = Z.of_nat (length pre) /\
        n = span suf e
  | None => False
  end.
Proof.
  pose proof (op_regex_search_correct (bs "[bc]+") 0
    (re_of (op_regex_compile (bs "[bc]+") 0)) (bs "xabcbd")
    (match regex_ast (bs "[bc]+") 0 with Some r => r | None => RLeaf ST_ANY end)) as H.
  specialize (H ltac:(vm_compute; reflexivity) ltac:(vm_compute; reflexivity)).
  specialize (H ltac:(unfold cbytes; cbv; repeat constructor; discriminate) eq_refl).
  replace (op_regex_search (re_of (op_regex_compile (bs "[bc]+") 0)) (bs "xabcbd"))
    with (Some (2, 3)) in * by (vm_compute; reflexivity).
  destruct H as (pre & suf & e & Ht & Hj & _ & _ & Hn & _).
  split; [done|]. split; [done|]. by exists pre, suf, e.
Defined.

(** Matching and searching agree: [op_regex_match] answers whether
    [op_regex_search] finds anything. *)
Theorem op_regex_match_search pattern flags re text :
  op_regex_compile pattern flags = Ok re ->
  cbytes text -> Z.of_nat (length text) < 2 ^ 32 - 2 ->
  op_regex_match re text = bool_decide (is_Some (op_regex_search re text)).
Proof.
  intros Hre Hb Hlen. destruct (compiled_accepts _ _ _ Hre) as (r & Hr & _).
  pose proof (search_loop_spec _ _ _ Hre r text [] 0 Hr Hb Hlen eq_refl) as Hs.
  simpl in Hs. fold (op_regex_search re text) in Hs.
  pose proof (compiled_match _ _ _ Hre _ _ Hr Hb Hlen) as Hm.
  apply eq_true_iff_eq. rewrite bool_decide_eq_true, Hm.
  destruct (op_regex_search re text) as [[j n]|].
  - split; [eauto|]. intros _. destruct Hs as (pre & suf & e & ? & _ & ? & ? & _).
    by exists pre, suf, e.
  - split; [|by intros [? ?]]. intros (pre & suf & e & ? & ? & Hsp).
    by destruct (Hs pre suf e).
Qed.

Lemma op_regex_match_search_witness :
  op_regex_match (re_of (op_regex_compile (bs "^(a|b)*$") 0)) (bs "abba") =
  bool_decide (is_Some
    (op_regex_search (re_of (op_regex_compile (bs "^(a|b)*$") 0)) (bs "abba"))).
Proof.
  apply (op_regex_match_search (bs "^(a|b)*$") 0).
  - vm_compute. reflexivity.
  - unfold cbytes. cbv. repeat constructor; discriminate.
  - reflexivity.
Defined.
