(* ===== verification/RegexPrint.v ===== *)
(** * The regex engine: the pattern syntax

    The tokeniser terminates on every pattern, and an expression printed with the
    engine's syntax (escapes for the special characters, parentheses where the
    precedence needs them) is compiled back to a regex for that expression. *)

From S2P Require Import Prelude LibC RegexToken RegexCompile RegexClass RegexMatch RegexSem.
From S2P Require Import RegexParse RegexBuild RegexSim RegexCorrect RegexTheorems.

#[local] Opaque SHUNT_STACK FRAG_STACK.

(** ** Every turn of the scanning loops advances *)

Lemma span_digits_length s : (length (snd (span_digits s)) <= length s)%nat.
Proof.
  induction s as [|c s IH]; simpl; [done|]. case_if; simpl; [|done].
  destruct (span_digits s). simpl in *. lia.
Qed.

Lemma span_digits_app s : fst (span_digits s) ++ snd (span_digits s) = s.
Proof.
  induction s as [|c s IH]; simpl; [done|]. case_if; simpl; [|done].
  destruct (span_digits s). simpl in *. by f_equal.
Qed.

Lemma scan_count_length p : (length (snd (scan_count p)) <= length (tail p))%nat.
Proof.
  unfold scan_count. pose proof (span_digits_length (tail p)) as H.
  destruct (span_digits (tail p)) as [d1 q]. simpl in H.
  destruct q as [|c q2]; [done|].
  assert (Hdone : forall x, (length (snd (x : Z * Z, c :: q2)) <= length (tail p))%nat) by done.
  destruct (Z.eqb_spec c 44) as [->|Hne].
  - pose proof (span_digits_length q2) as H2. destruct (span_digits q2) as [d2 q3].
    simpl in *. lia.
  - destruct c as [|c|c]; try exact (Hdone (_, _)).
    do 6 (destruct c as [c|c|]; try exact (Hdone (_, _))). done.
Qed.

Lemma strstr_bound s pat n : strstr s pat = Some n -> (n + length pat <= length s)%nat.
Proof.
  assert (Hpre : forall pat s, prefix_of pat s = true -> (length pat <= length s)%nat).
  { clear. induction pat as [|x pat IH]; intros [|y s]; simpl; try done; [lia|].
    intros H. bool_lia. specialize (IH _ H0). lia. }
  revert n; induction s as [|c s IH]; intros n; simpl; (case_if; [intros [= <-]; by apply Hpre in E|]).
  - done.
  - intros (m & Hm & ->)%fmap_Some. specialize (IH _ Hm). lia.
Qed.

Lemma posix_at_length ic cls p cls' q :
  posix_at ic cls p = Some (cls', q) -> (length q < length p)%nat.
Proof.
  unfold posix_at. intros H.
  repeat match type of H with
  | context [match ?x with _ => _ end] => destruct x eqn:?; try discriminate
  end.
  injection H as <- <-. rewrite length_drop. simpl. lia.
Qed.

Lemma class_range_length ic cls lo c q :
  (length (snd (class_range ic cls lo (c :: q))) <= length q)%nat.
Proof.
  unfold class_range. destruct q as [|d q]; [done|].
  destruct (Z.eqb_spec d 45) as [->|Hne].
  - destruct q as [|hi q]; [done|]. case_if; simpl; lia.
  - assert (Hd : (length (snd (cls_set_ic ic cls lo, tail (c :: d :: q))) <= length (d :: q))%nat)
      by done.
    destruct d as [|d|d]; try exact Hd. do 6 (destruct d as [d|d|]; try exact Hd). done.
Qed.

Lemma class_step_length ic cls c q :
  (length (snd (class_step ic cls (c :: q))) <= length q)%nat.
Proof.
  unfold class_step. destruct (posix_at ic cls (c :: q)) as [[cls' q']|] eqn:E.
  - apply posix_at_length in E. simpl in *. lia.
  - destruct (Z.eqb_spec c 92) as [->|Hne].
    + destruct q as [|d q]; [apply class_range_length|]. case_if; [simpl; lia|].
      etrans; [apply class_range_length|]. simpl. lia.
    + assert (Hd := class_range_length ic cls c c q).
      destruct c as [|c|c]; try exact Hd. do 7 (destruct c as [c|c|]; try exact Hd). done.
Qed.

(** The fuel [parse_class] gives is enough: more does not change the result. *)
Lemma class_loop_fuel ic : forall n m first cls p,
  (length p <= n)%nat -> (length p <= m)%nat ->
  class_loop n ic first cls p = class_loop m ic first cls p.
Proof.
  induction n as [|n IH]; intros m first cls [|c q] Hn Hm; try (simpl in *; lia).
  - by destruct m.
  - by destruct m.
  - destruct m as [|m]; [simpl in Hm; lia|]. cbn [class_loop]. case_if; [|done].
    pose proof (class_step_length ic cls c q) as Hl.
    destruct (class_step ic cls (c :: q)) as [cls' p']. simpl in *. apply IH; lia.
Qed.

Lemma class_loop_length ic : forall n first cls p,
  (length (snd (class_loop n ic first cls p)) <= length p)%nat.
Proof.
  induction n as [|n IH]; intros first cls [|c q]; try done. cbn [class_loop]. case_if; [|done].
  pose proof (class_step_length ic cls c q) as Hl.
  destruct (class_step ic cls (c :: q)) as [cls' p']. simpl in *.
  etrans; [apply IH|]. lia.
Qed.

Lemma parse_class_length p ic cls q :
  parse_class p ic = Some (cls, q) -> (length q <= length p)%nat.
Proof.
  unfold parse_class. intros H.
  assert (Hneg : exists neg p', (length p' <= length p)%nat /\
    match p with 94 :: q => (true, q) | _ => (false, p) end = (neg, p')).
  { destruct p as [|c p]; [by exists false, []|].
    destruct (Z.eqb_spec c 94) as [->|Hne]; [exists true, p; split; [simpl; lia|done]|].
    exists false, (c :: p). split; [done|].
    destruct c as [|c|c]; try done. do 7 (destruct c as [c|c|]; try done). }
  destruct Hneg as (neg & p' & Hl & Heq). rewrite Heq in H.
  pose proof (class_loop_length ic (length p') true cls_zero p') as Hc.
  destruct (class_loop _ _ _ _ _) as [cls' q1]. simpl in Hc.
  destruct q1 as [|c q1]; [done|].
  repeat match type of H with
  | context [match ?x with _ => _ end] => destruct x eqn:?; try discriminate
  end; injection H as <- <-; simpl in *; lia.
Qed.

Lemma tok_step_length ic dot st c q st' p' :
  tok_step ic dot st c q = Ok (st', p') -> (length p' <= length q)%nat.
Proof.
  unfold tok_step. destruct (if c =? ch "\" then head q else None) as [e|].
  { intros [= <- <-]. destruct q; simpl; lia. }
  repeat case_if; try (intros [= <- <-]; done).
  - unfold tok_count. pose proof (scan_count_length (c :: q)) as H.
    destruct (scan_count (c :: q)) as [[lo hi] r]. simpl in *.
    case_if; intros [= <- <-]; [|done]. destruct r; simpl in *; lia.
  - unfold tok_close. case_if; simpl; [done|]. by intros [= <- <-].
  - destruct (parse_class q ic) as [[cls q']|] eqn:Ep; [|done]. intros [= <- <-].
    by apply parse_class_length in Ep.
Qed.

Lemma tok_step_error ic dot st c q e :
  tok_step ic dot st c q = Err e -> e = EUnmatchedClose \/ e = EUnterminatedClass.
Proof.
  unfold tok_step. destruct (if c =? ch "\" then head q else None) as [x|]; [done|].
  repeat case_if; try done.
  - unfold tok_close. case_if; simpl; [|done]. intros [= <-]. by left.
  - destruct (parse_class q ic) as [[cls q']|]; [done|]. intros [= <-]. by right.
Qed.

Lemma tok_loop_error ic dot : forall n st p e,
  (length p <= n)%nat -> tok_loop n ic dot st p = Err e ->
  e = EUnmatchedClose \/ e = EUnterminatedClass.
Proof.
  induction n as [|n IH]; intros st [|c q] e Hn; simpl in *; try done; [lia|].
  destruct (tok_step ic dot st c q) as [[st' p']|e'] eqn:E; simpl.
  - apply tok_step_length in E. apply IH. lia.
  - intros [= <-]. by apply tok_step_error in E.
Qed.

Lemma tok_loop_fuel ic dot : forall n m st p,
  (length p <= n)%nat -> (length p <= m)%nat ->
  tok_loop n ic dot st p = tok_loop m ic dot st p.
Proof.
  induction n as [|n IH]; intros m st [|c q] Hn Hm; try (simpl in *; lia).
  - by destruct m.
  - by destruct m.
  - destruct m as [|m]; [simpl in Hm; lia|]. cbn [tok_loop].
    destruct (tok_step ic dot st c q) as [[st' p']|e'] eqn:E; simpl; [|done].
    apply tok_step_length in E. simpl in *. apply IH; lia.
Qed.

(** ** Printing an expression as a pattern *)

(** The characters the tokeniser gives a meaning to. *)
Definition is_meta (c : Z) : bool := 
  mem c [ch "\"; ch "*"; ch "+"; ch "?"; ch "{"; ch "|"; ch "("; ch ")"; ch "["; ch "^";
         ch "$"; ch "."].

(** A member of a class: a letter or a digit stands for itself, everything else is
    escaped. *)
Definition class_char (c : Z) : list Z := if isalnum c then [c] else [ch "\"; c].

(** The bytes a class lists between its brackets: its members, or with [neg] the
    others.  A pattern holds no NUL, so a class with the byte 0 is printed negated. *)
Definition class_members (neg : bool) (cls : list Z) : list Z :=
  List.filter (fun c => xorb neg (cls_tst cls c)) (seqZ 1 255).

Definition print_class (cls : list Z) : list Z :=
  let neg := cls_tst cls 0 in
  match class_members neg cls with
  | [] => if neg then bs "[\w\W]" else bs "[^\w\W]"
  | l => ch "[" :: (if neg then [ch "^"] else []) ++ flat_map class_char l ++ [ch "]"]
  end.

Definition print_leaf (k : NKind) : list Z :=
  match k with
  | ST_CHAR c => if is_meta c then [ch "\"; c] else [c]
  | ST_ANY => bs "."
  | ST_BOL => bs "^"
  | ST_EOL => bs "$"
  | ST_WB => bs "\b"
  | ST_NWB => bs "\B"
  | ST_CLASS cls => print_class cls
  | ST_MATCH | ST_SPLIT => []
  end.

Definition wrap_print (l : Z) (r : re_ast) (x : list Z) : list Z :=
  if level r <? l then ch "(" :: x ++ [ch ")"] else x.

Fixpoint print (r : re_ast) : list Z :=
  match r with
  | RLeaf k => print_leaf k
  | RCat a b => wrap_print 1 a (print a) ++ wrap_print 2 b (print b)
  | RAlt a b => wrap_print 0 a (print a) ++ ch "|" :: wrap_print 1 b (print b)
  | RStar a => wrap_print 3 a (print a) ++ [ch "*"]
  | RPlus a => wrap_print 3 a (print a) ++ [ch "+"]
  | RQuest a => wrap_print 3 a (print a) ++ [ch "?"]
  end.

(** The expressions whose leaves are operands with contents as the code has them: a
    character is a byte other than NUL, a class any bitmap of 32 bytes. *)
Fixpoint printable (r : re_ast) : Prop :=
  match r with
  | RLeaf (ST_CHAR c) => 1 <= c < 256
  | RLeaf (ST_CLASS cls) => bitmap cls
  | RLeaf (ST_ANY | ST_BOL | ST_EOL | ST_WB | ST_NWB) => True
  | RLeaf (ST_MATCH | ST_SPLIT) => False
  | RCat a b | RAlt a b => printable a /\ printable b
  | RStar a | RPlus a | RQuest a => printable a
  end.

Lemma printable_wf r : printable r -> wf_ast r.
Proof. induction r as [k| | | | |]; simpl; try tauto. by destruct k. Qed.

(** ** A printed class is read back *)

Lemma class_loop_step first cls c q cls' p' :
  negb (c =? ch "]") || first = true -> class_step false cls (c :: q) = (cls', p') ->
  class_loop (length (c :: q)) false first cls (c :: q) =
  class_loop (length p') false false cls' p'.
Proof.
  intros Hc Hs. cbn [class_loop length]. rewrite Hc.
  pose proof (class_step_length false cls c q) as Hl. rewrite Hs in *.
  by apply class_loop_fuel.
Qed.

(** What may stand behind a member: not the dash of a range. *)
Definition no_dash (p : list Z) : Prop := match p with d :: _ => d <> 45 | [] => True end.

Lemma class_range_single cls lo c q :
  no_dash q -> class_range false cls lo (c :: q) = (cls_set cls lo, q).
Proof.
  intros H. unfold class_range. destruct q as [|d q]; [done|]. simpl in H.
  destruct d as [|d|d]; try done. do 6 (destruct d as [d|d|]; try done).
Qed.

Lemma plain_escape c :
  isalnum c = false -> is_shorthand c = false /\ escape_ctl c = None.
Proof.
  intros E. split.
  - apply not_true_is_false. intros H%mem_In. simpl in H.
    repeat (destruct H as [<-|H]; [done|]). done.
  - unfold escape_ctl.
    repeat (case_if; [match goal with H : (_ =? _) = true |- _ => apply Z.eqb_eq in H as -> end; done|]). done.
Qed.

Lemma class_step_char cls c q :
  no_dash q ->
  exists d p, class_char c ++ q = d :: p /\ d <> ch "]" /\ d <> ch "^" /\
    class_step false cls (d :: p) = (cls_set cls c, q).
Proof.
  intros Hq. unfold class_char. destruct (isalnum c) eqn:E.
  - exists c, q. assert (c <> 91 /\ c <> 92 /\ c <> 93 /\ c <> 94) as (H1 & H2 & H3 & H4).
    { by split_and!; intros ->. }
    split_and!; try done. unfold class_step.
    assert (posix_at false cls (c :: q) = None) as ->.
    { unfold posix_at. destruct c as [|c|c]; try done. do 7 (destruct c as [c|c|]; try done). }
    rewrite <- (class_range_single cls c c q Hq).
    destruct c as [|c|c]; try done. do 7 (destruct c as [c|c|]; try done).
  - exists 92, (c :: q). split_and!; try done. cbn [class_step posix_at].
    assert (is_shorthand c = false /\ escape_ctl c = None) as [-> ->]
      by (by apply plain_escape).
    by apply class_range_single.
Qed.

Lemma no_dash_list l rest : no_dash (flat_map class_char l ++ ch "]" :: rest).
Proof.
  destruct l as [|d l]; [done|]. simpl. unfold class_char. destruct (isalnum d) eqn:E; [|done].
  simpl. by intros ->.
Qed.

Lemma class_loop_list l : forall first cls rest,
  l <> [] \/ first = false ->
  class_loop (length (flat_map class_char l ++ ch "]" :: rest)) false first cls
    (flat_map class_char l ++ ch "]" :: rest) = (fold_left cls_set l cls, ch "]" :: rest).
Proof.
  induction l as [|c l IH]; intros first cls rest Hf.
  - destruct Hf as [H| ->]; done.
  - cbn [flat_map fold_left]. rewrite <- app_assoc.
    destruct (class_step_char cls c (flat_map class_char l ++ ch "]" :: rest))
      as (d & p & -> & Hd & _ & Hs); [by apply no_dash_list|].
    erewrite class_loop_step; [|by rewrite (proj2 (Z.eqb_neq _ _) Hd)|exact Hs]. apply IH. by right.
Qed.

Lemma no_caret c q :
  c <> 94 -> match c :: q with 94 :: q' => (true, q') | _ => (false, c :: q) end = (false, c :: q).
Proof.
  intros H. destruct c as [|c|c]; try done. do 7 (destruct c as [c|c|]; try done).
Qed.

Lemma parse_class_list (neg : bool) l rest :
  l <> [] ->
  parse_class ((if neg then [ch "^"] else []) ++ flat_map class_char l ++ ch "]" :: rest) false =
  let cls := fold_left cls_set l cls_zero in
  Some (if neg then cls_invert cls else cls, rest).
Proof.
  intros Hl. unfold parse_class. destruct neg; cbn [app].
  - by rewrite class_loop_list by (by left).
  - pose proof (class_loop_list l true cls_zero rest (or_introl Hl)) as H.
    destruct l as [|c l]; [done|]. cbn [flat_map] in *. rewrite <- app_assoc in *.
    destruct (class_step_char cls_zero c (flat_map class_char l ++ ch "]" :: rest))
      as (d & p & E & _ & Hd & _); [by apply no_dash_list|].
    rewrite E in *. rewrite no_caret by done. by rewrite H.
Qed.

Lemma mem_members neg cls d : 0 <= d < 256 ->
  mem d (class_members neg cls) = negb (d =? 0) && xorb neg (cls_tst cls d).
Proof.
  intros Hd. apply eq_true_iff_eq. rewrite mem_In. unfold class_members.
  rewrite filter_In, andb_true_iff, negb_true_iff, Z.eqb_neq, <- list_elem_of_In, elem_of_seqZ.
  split; intros [? ?]; (split; [lia|done]).
Qed.

(** The listed bytes, negated when the class is printed negated, are the class. *)
Lemma members_bitmap cls :
  bitmap cls ->
  let neg := cls_tst cls 0 in
  let b := fold_left cls_set (class_members neg cls) cls_zero in
  (if neg then cls_invert b else b) = cls.
Proof.
  intros Hb neg b.
  destruct (cls_set_list (class_members neg cls) cls_zero bitmap_zero) as [Hm Ht].
  { apply List.Forall_forall. unfold class_members. intros c [Hc _]%filter_In.
    apply list_elem_of_In, elem_of_seqZ in Hc. lia. }
  fold b in Hm, Ht.
  assert (Hz : forall d, 0 <= d < 256 -> cls_tst cls_zero d = false).
  { intros d Hd. apply negb_true_iff. revert d Hd. by apply byte_forall. }
  assert (Hd : forall d, 0 <= d < 256 -> cls_tst b d = xorb neg (cls_tst cls d)).
  { intros d Hd. rewrite Ht, Hz, mem_members, orb_false_r by lia.
    destruct (Z.eqb_spec d 0) as [->|]; [|done]. subst neg. by rewrite xorb_nilpotent. }
  apply bitmap_ext; [by destruct neg; [apply bitmap_invert|]|done|].
  intros d H. specialize (Hd d H). destruct neg.
  - rewrite cls_tst_invert, Hd by (done || apply Hm). by destruct (cls_tst cls d).
  - rewrite Hd. by destruct (cls_tst cls d).
Qed.

Lemma parse_print_class cls :
  bitmap cls -> exists p, print_class cls = ch "[" :: p /\
    forall rest, parse_class (p ++ rest) false = Some (cls, rest).
Proof.
  intros Hb. pose proof (members_bitmap cls Hb) as Hl. unfold print_class. simpl in Hl.
  destruct (class_members (cls_tst cls 0) cls) as [|c l] eqn:E.
  - simpl in Hl. rewrite <- Hl. destruct (cls_tst cls 0).
    + eexists. split; [done|]. intros rest. vm_compute. done.
    + eexists. split; [done|]. intros rest. vm_compute. done.
  - eexists. split; [done|]. intros rest.
    rewrite <- !app_assoc. change ([ch "]"] ++ rest) with (ch "]" :: rest).
    rewrite parse_class_list by done. cbv zeta. by rewrite Hl.
Qed.

(** The tokeniser with the fuel [tokenise] gives it. *)
Definition tokl (st : tk_state) (p : list Z) : result regex_error tk_state :=
  tok_loop (length p) false true st p.

Lemma tokl_step st c q st' p' :
  tok_step false true st c q = Ok (st', p') -> tokl st (c :: q) = tokl st' p'.
Proof.
  intros H. unfold tokl. cbn [tok_loop length]. rewrite H. simpl.
  apply tok_step_length in H. by apply tok_loop_fuel.
Qed.

Lemma tok_step_plain st c q :
  is_meta c = false -> tok_step false true st c q = Ok (tk_push_atom st (TOK_LIT c), q).
Proof.
  unfold is_meta, mem. cbn [existsb]. intros H.
  repeat (apply orb_false_elim in H as [?E H]). unfold tok_step.
  repeat match goal with E : (c =? _) = false |- _ => rewrite E; clear E end.
  done.
Qed.

Lemma escape_meta c : is_meta c = true -> escape_token false c = TOK_LIT c.
Proof.
  intros H%mem_In. simpl in H.
  repeat (destruct H as [<-|H]; [reflexivity|]). done.
Qed.

(** [same_stk st st']: the parentheses open in [st] are open in [st']. *)
Definition same_stk (st st' : tk_state) : Prop :=
  tk_depth st' = tk_depth st /\ tk_sp st' = tk_sp st /\
  length (tk_stk st') = length (tk_stk st) /\
  forall i, (i < tk_sp st)%nat -> tk_stk st' !! i = tk_stk st !! i.

Lemma same_stk_refl st st' :
  tk_depth st' = tk_depth st -> tk_sp st' = tk_sp st -> tk_stk st' = tk_stk st ->
  same_stk st st'.
Proof. intros H1 H2 H3. unfold same_stk. by rewrite H1, H2, H3. Qed.

Lemma same_stk_trans st1 st2 st3 : same_stk st1 st2 -> same_stk st2 st3 -> same_stk st1 st3.
Proof.
  intros (D1 & S1 & L1 & K1) (D2 & S2 & L2 & K2). split_and!; try congruence.
  intros i Hi. rewrite K2 by lia. by apply K1.
Qed.

(** [x] is a block of pattern text that adds the tokens [ts]. *)
Definition toks (x : list Z) (ts : list Token) : Prop :=
  forall st rest, exists st', tokl st (x ++ rest) = tokl st' rest /\
    tk_out st' = tk_out st ++ ts /\ same_stk st st'.

Lemma toks_app x ts y us : toks x ts -> toks y us -> toks (x ++ y) (ts ++ us).
Proof.
  intros Hx Hy st rest. destruct (Hx st (y ++ rest)) as (st1 & E1 & O1 & D1).
  destruct (Hy st1 rest) as (st2 & E2 & O2 & D2). exists st2.
  rewrite <- app_assoc, E1, E2, O2, O1, app_assoc. split_and!; [done|done|].
  by eapply same_stk_trans.
Qed.

Lemma toks_one c t :
  (forall st q, exists st', tok_step false true st c q = Ok (st', q) /\
     tk_out st' = tk_out st ++ [t] /\ same_stk st st') ->
  toks [c] [t].
Proof.
  intros H st rest. destruct (H st rest) as (st' & E & O & D). exists st'.
  split_and!; [|done|done]. by apply tokl_step.
Qed.

(** A group; afterwards the pending atom is the whole group. *)
Lemma tokl_group x ts st rest :
  toks x ts -> (tk_sp st < 64)%nat -> length (tk_stk st) = 64%nat ->
  exists st', tokl st (ch "(" :: x ++ ch ")" :: rest) = tokl st' rest /\
    tk_out st' = tk_out st ++ TOK_LPAREN :: ts ++ [TOK_RPAREN] /\
    tk_prev st' = Some (length (tk_out st)) /\ same_stk st st'.
Proof.
  intros H Hsp Hl.
  destruct (H (tok_open st) (ch ")" :: rest)) as (st1 & E1 & O1 & D1 & S1 & L1 & K1).
  simpl in D1, S1, L1, K1. rewrite (proj2 (Nat.ltb_lt _ _) Hsp) in *.
  assert (Ho : tokl st (ch "(" :: x ++ ch ")" :: rest) = tokl (tok_open st) (x ++ ch ")" :: rest))
    by (by apply tokl_step).
  eexists. split_and!.
  - rewrite Ho, E1. apply tokl_step.
    unfold tok_step. simpl. unfold tok_close. rewrite D1. simpl. done.
  - simpl. rewrite O1. simpl. by rewrite <- !app_assoc.
  - simpl. rewrite S1. simpl. rewrite (proj2 (Nat.ltb_lt _ _) Hsp).
    rewrite K1 by lia. rewrite list_lookup_insert, decide_True; [done|]. split; [done|lia].
  - split_and!; simpl; [done|by rewrite S1|by rewrite L1, length_insert|].
    intros i Hi. rewrite K1 by lia. apply list_lookup_insert_ne. lia.
Qed.

(** The same without the side conditions, and without the pending atom. *)
Lemma toks_wrap l r x ts : toks x ts -> toks (wrap_print l r x) (wrap l r ts).
Proof.
  intros H. unfold wrap_print, wrap. case_if; [|done]. intros st rest.
  destruct (H (tok_open st) (ch ")" :: rest)) as (st1 & E1 & O1 & D1 & S1 & L1 & K1).
  simpl in D1, S1, L1, K1.
  assert (Ho : tokl st (ch "(" :: x ++ ch ")" :: rest) = tokl (tok_open st) (x ++ ch ")" :: rest))
    by (by apply tokl_step).
  eexists. split_and!.
  - rewrite <- app_comm_cons, <- app_assoc. simpl app. rewrite Ho, E1. apply tokl_step.
    unfold tok_step. simpl. unfold tok_close. rewrite D1. simpl. done.
  - simpl. rewrite O1. simpl. by rewrite <- !app_assoc.
  - split_and!; simpl; [done|by rewrite S1|rewrite L1; case_if; [by rewrite length_insert|done]|].
    intros i Hi. rewrite K1 by lia. case_if; [|done]. apply list_lookup_insert_ne. lia.
Qed.

Lemma tokl_leaf k st rest :
  printable (RLeaf k) ->
  tokl st (print_leaf k ++ rest) = tokl (tk_push_atom st (kind_tok k)) rest.
Proof.
  destruct k as [ |c|cls| | | | | | ]; cbn [print_leaf printable kind_tok]; intros Hp; try done;
    try (by apply tokl_step).
  - case_if; simpl; apply tokl_step.
    + unfold tok_step. simpl. by rewrite escape_meta.
    + by apply tok_step_plain.
  - destruct (parse_print_class cls Hp) as (p & -> & Hc). apply tokl_step.
    unfold tok_step. simpl. by rewrite Hc.
Qed.

Lemma toks_leaf k : printable (RLeaf k) -> toks (print_leaf k) [kind_tok k].
Proof.
  intros Hp st rest. eexists. split; [by apply tokl_leaf|]. split; [done|by apply same_stk_refl].
Qed.

Lemma toks_op c t :
  In (c, t) [(ch "|", TOK_PIPE); (ch "*", TOK_STAR); (ch "+", TOK_PLUS); (ch "?", TOK_QUEST)] ->
  toks [c] [t].
Proof.
  intros H. apply toks_one; intros st q. simpl in H.
  repeat (destruct H as [[= <- <-]|H];
    [eexists; split_and!; [reflexivity|done|by apply same_stk_refl]|]). done.
Qed.

Lemma toks_print r : printable r -> toks (print r) (infix r).
Proof.
  induction r; simpl; intros Hp.
  - by apply toks_leaf.
  - destruct Hp. by apply toks_app; apply toks_wrap; auto.
  - destruct Hp. apply toks_app; [by apply toks_wrap; auto|].
    apply (toks_app [ch "|"] [TOK_PIPE]); [|by apply toks_wrap; auto].
    apply toks_op; simpl; tauto.
  - apply toks_app; [by apply toks_wrap; auto|]. apply toks_op; simpl; tauto.
  - apply toks_app; [by apply toks_wrap; auto|]. apply toks_op; simpl; tauto.
  - apply toks_app; [by apply toks_wrap; auto|]. apply toks_op; simpl; tauto.
Qed.

(** The printed pattern never starts with a quantifier, hence not with [(?i)]. *)
Lemma print_head r : printable r -> exists c q, print r = c :: q /\ c <> ch "?".
Proof.
  assert (Hw : forall l r x, (exists c q, x = c :: q /\ c <> 63) ->
                 exists c q, wrap_print l r x = c :: q /\ c <> 63).
  { intros l s x (c & q & -> & ?). unfold wrap_print. case_if; simpl; eauto. }
  assert (Ha : forall x y : list Z, (exists c q, x = c :: q /\ c <> 63) ->
                 exists c q, x ++ y = c :: q /\ c <> 63).
  { intros x y (c & q & -> & ?). simpl; eauto. }
  induction r as [k| | | | |]; simpl; intros Hp; try (apply Ha, Hw; tauto).
  destruct k as [ |c|cls| | | | | | ]; cbn [print_leaf] in *; try done; try (by eexists _, _).
  - case_if; eexists _, _; (split; [done|]); [done|]. by intros ->.
  - destruct (parse_print_class cls Hp) as (p & -> & _). by eexists _, _.
Qed.

Lemma print_no_flag r : printable r -> forall rest, prefix_of (bs "(?i)") (print r ++ rest) = false.
Proof.
  intros Hp. change (bs "(?i)") with [40; 63; 105; 41].
  assert (Hw : forall l s x, (exists c q, x = c :: q /\ c <> 63) ->
     (forall rest, prefix_of [40; 63; 105; 41] (x ++ rest) = false) ->
     forall rest, prefix_of [40; 63; 105; 41] (wrap_print l s x ++ rest) = false).
  { intros l s x (c & q & -> & Hne) H rest. unfold wrap_print. case_if; [|apply H].
    cbn [app prefix_of]. rewrite (proj2 (Z.eqb_neq 63 c)) by lia. by rewrite andb_false_r. }
  induction r as [k| | | | |]; simpl in Hp; intros rest; cbn [print];
    try (rewrite <- app_assoc; apply Hw; [apply print_head; tauto|]; tauto).
  clear Hw. destruct k as [ |c|cls| | | | | | ]; simpl in Hp; try done; cbn [print_leaf].
  2: { destruct (parse_print_class cls Hp) as (p & -> & _). done. }
  case_if; [done|].
  cbn [app prefix_of]. destruct (Z.eqb_spec 40 c) as [<-|]; [by vm_compute in E|done].
Qed.

(** ** The theorems *)

(** How many fragments the construction holds at once. *)
Fixpoint operands (r : re_ast) : nat :=
  match r with
  | RLeaf _ => 1
  | RCat a b | RAlt a b => Nat.max (operands a) (S (operands b))
  | RStar a | RPlus a | RQuest a => operands a
  end.

Lemma operands_pos r : (1 <= operands r)%nat.
Proof. induction r; simpl; lia. Qed.

Lemma stk_max_postfix r : wf_ast r -> forall stk pf,
  (stk_max stk (postfix r ++ pf) <=
   Nat.max (length stk + operands r) (stk_max (r :: stk) pf))%nat.
Proof.
  induction r; intros Hw stk pf; cbn [postfix operands wf_ast] in *.
  - destruct Hw. simpl. unfold ast_step. rewrite tok_kind_tok by done. lia.
  - destruct Hw as [H1 H2]. rewrite <- !app_assoc. etrans; [by apply IHr1|].
    pose proof (IHr2 H2 (r1 :: stk) (TOK_CAT :: pf)) as H. simpl in H. simpl app.
    pose proof (operands_pos r2). pose proof (stk_max_ge (RCat r1 r2 :: stk) pf). simpl in *. lia.
  - destruct Hw as [H1 H2]. rewrite <- !app_assoc. etrans; [by apply IHr1|].
    pose proof (IHr2 H2 (r1 :: stk) (TOK_PIPE :: pf)) as H. simpl in H. simpl app.
    pose proof (operands_pos r2). pose proof (stk_max_ge (RAlt r1 r2 :: stk) pf). simpl in *. lia.
  - rewrite <- app_assoc. etrans; [by apply IHr|]. pose proof (operands_pos r). simpl. lia.
  - rewrite <- app_assoc. etrans; [by apply IHr|]. pose proof (operands_pos r). simpl. lia.
  - rewrite <- app_assoc. etrans; [by apply IHr|]. pose proof (operands_pos r). simpl. lia.
Qed.

Lemma tokenise_print r :
  printable r -> tokenise (print r) false true = Ok (infix r).
Proof.
  intros Hp. unfold tokenise. destruct (toks_print r Hp tk_init []) as (st & E & O & D & _).
  rewrite app_nil_r in E. unfold tokl in E. rewrite E. simpl. rewrite D, O. done.
Qed.

Lemma compile_print r :
  printable r -> (need r <= SHUNT_STACK)%nat -> (operands r <= FRAG_STACK)%nat ->
  regex_ast (print r) 0 = Some r /\
  exists re, op_regex_compile (print r) 0 = Ok re /\ re_icase re = false.
Proof.
  intros Hp Hn Ho. pose proof (printable_wf r Hp) as Hw.
  pose proof (print_no_flag r Hp []) as Hf. rewrite app_nil_r in Hf.
  unfold regex_ast, op_regex_compile, pat_body, pat_icase. rewrite Hf. simpl.
  rewrite tokenise_print by done. simpl. rewrite shunt_infix by done. simpl.
  split; [by apply postfix_ast_postfix|].
  destruct (build_nfa_total (postfix r) r) as (pool & start & Hb).
  - by apply postfix_ast_postfix.
  - pose proof (stk_max_postfix r Hw [] []) as H. rewrite app_nil_r in H.
    simpl in H. pose proof (operands_pos r). lia.
  - rewrite Hb. simpl. eexists. split; [done|].
    by destruct (compute_metadata_fields false
      match print r with c :: _ => c =? 94 | [] => false end pool start) as (_ & _ & ? & _).
Qed.

(** C38. Round trip of the pattern syntax, through all four phases, for compilation
    with flags 0: an expression printed as a pattern compiles, is read back as itself,
    and the compiled regex decides its language on texts shorter than 2^32 - 2 bytes.
    The expression is built from characters (any byte but NUL), the dot, the anchors,
    the word boundaries and character classes (any set of bytes, negated or not,
    printed member by member) by concatenation, alternation, star, plus and question
    mark, and the two stacks of 512 entries must be enough for it.  Counted
    repetitions, shorthands, ranges and POSIX names are other ways to write such
    expressions, which the printed pattern does not use. *)
Theorem compile_print_roundtrip r text :
  printable r -> (need r <= SHUNT_STACK)%nat -> (operands r <= FRAG_STACK)%nat ->
  cbytes text -> Z.of_nat (length text) < 2 ^ 32 - 2 ->
  regex_ast (print r) 0 = Some r /\
  exists re, op_regex_compile (print r) 0 = Ok re /\
    (op_regex_match re text = true <->
     exists pre suf e, text = pre ++ suf /\ (re_anchored re = true -> pre = []) /\
       den false r (prev_of re pre, suf) e).
Proof.
  intros Hp Hn Ho Hb Hlen. destruct (compile_print r Hp Hn Ho) as (Hr & re & Hre & Hi).
  split; [done|]. exists re. split; [done|].
  rewrite (compiled_match _ _ _ Hre text r Hr Hb Hlen). unfold regex_span. by rewrite Hi.
Qed.

(** The class of the dash and the letter x, and the class of all bytes but those. *)
Definition dash_x : list Z := fold_left cls_set [ch "-"; ch "x"] cls_zero.

(** The pattern [(a\*|.)+[\-x][^\-x]]. *)
Definition sample_ast : re_ast :=
  RCat (RCat (RPlus (RAlt (RCat (RLeaf (ST_CHAR (ch "a"))) (RLeaf (ST_CHAR (ch "*"))))
                          (RLeaf ST_ANY)))
             (RLeaf (ST_CLASS dash_x)))
       (RLeaf (ST_CLASS (cls_invert dash_x))).

Lemma compile_print_roundtrip_witness :
  print sample_ast = bs "(a\*|.)+[\-x][^\-x]" /\
  regex_ast (print sample_ast) 0 = Some sample_ast.
Proof.
  split; [vm_compute; reflexivity|].
  apply (compile_print_roundtrip sample_ast (bs "a*-b")).
  - assert (bitmap dash_x) by (apply (bitmap_set (cls_set cls_zero (ch "-"))), bitmap_set, bitmap_zero).
    unfold sample_ast. cbn [printable]. split_and!; try done. by apply bitmap_invert.
  - vm_compute. lia.
  - vm_compute. lia.
  - unfold cbytes. cbv. repeat constructor; discriminate.
  - reflexivity.
Defined.

(** Tokenising terminates on every pattern: the scan advances at every turn, so
    as many turns as the pattern has bytes suffice, and the only failures are the
    three syntax errors the code reports. *)
Theorem tokenise_terminates pat icase dotall :
  (forall n, (length pat <= n)%nat ->
     tok_loop n icase dotall tk_init pat = tok_loop (length pat) icase dotall tk_init pat) /\
  ((exists ts, tokenise pat icase dotall = Ok ts) \/
   (exists e, tokenise pat icase dotall = Err e /\
      (e = EUnmatchedClose \/ e = EUnmatchedOpen \/ e = EUnterminatedClass))).
Proof.
  split; [intros n Hn; by apply tok_loop_fuel|]. unfold tokenise.
  destruct (tok_loop (length pat) icase dotall tk_init pat) as [st|e] eqn:E; simpl.
  - case_if.
    + left. by eexists.
    + right. exists EUnmatchedOpen. tauto.
  - right. exists e. split; [done|]. apply tok_loop_error in E; [tauto|done].
Qed.

(** The state pool never overflows: [op_regex_compile] allocates
    [2 * n + 4] states (at least 8) for a postfix list of [n] tokens, and the
    construction uses at most [n + 1], the start state among them. *)
Theorem build_nfa_pool_bound pf pool start :
  build_nfa pf = Ok (pool, start) ->
  (length pool <= Nat.max 8 (2 * length pf + 4))%nat /\ (start < length pool)%nat.
Proof.
  intros Hb. destruct (build_nfa_wired _ _ _ Hb) as (r & ms & x & _ & Hw & _ & _ & Hl).
  split; [lia|]. assert (Hs : forall r s n, wired pool r s n -> (s < length pool)%nat).
  { clear. intros r; induction r; simpl; intros s n Hw.
    - destruct Hw as (? & ? & _). by eapply lookup_lt_Some.
    - destruct Hw as (? & ? & _). eauto.
    - destruct Hw as (? & ? & ? & _). by eapply lookup_lt_Some.
    - destruct Hw as (? & ? & _). by eapply lookup_lt_Some.
    - destruct Hw as (? & _ & ?). eauto.
    - destruct Hw as (? & ? & _). by eapply lookup_lt_Some. }
  eauto.
Qed.

Lemma build_nfa_pool_bound_witness :
  exists pool start, build_nfa [TOK_LIT 97; TOK_STAR] = Ok (pool, start) /\
    (length pool <= 8)%nat /\ (start < length pool)%nat.
Proof.
  eexists _, _. split; [vm_compute; reflexivity|].
  exact (build_nfa_pool_bound [TOK_LIT 97; TOK_STAR] _ _ eq_refl).
Defined.
