(* ===== verification/RegexCount.v ===== *)
(** * The regex engine: counted repetition

    [x{n,m}] is expanded by the tokeniser into copies of the tokens of [x].  This
    file shows what the expansion denotes, and what happens to the form with an
    open upper bound. *)

From S2P Require Import Prelude LibC RegexToken RegexCompile RegexMatch RegexSem RegexParse.
From S2P Require Import RegexBuild RegexSim RegexCorrect RegexTheorems RegexPrint.

#[local] Opaque SHUNT_STACK FRAG_STACK.

(** ** Scanning the bounds *)

Definition digits (ds : list Z) : Prop := Forall (fun c => isdigit c = true) ds.

Lemma span_digits_run ds c rest :
  digits ds -> isdigit c = false -> span_digits (ds ++ c :: rest) = (ds, c :: rest).
Proof.
  intros Hd Hc. induction Hd as [|d ds H Hd IH]; simpl; [by rewrite Hc|].
  by rewrite H, IH.
Qed.

Lemma dec_value_nonneg ds : digits ds -> 0 <= dec_value ds.
Proof.
  intros Hd. assert (H : forall a, 0 <= a -> 0 <= fold_left (fun a d => a * 10 + (d - 48)) ds a).
  { induction Hd as [|d ds Hc Hd IH]; simpl; intros a Ha; [done|].
    apply IH. unfold isdigit, in_range in Hc. bool_lia. }
  by apply H.
Qed.

Lemma scan_count_between d1 d2 rest :
  digits d1 -> digits d2 -> d1 ++ d2 <> [] ->
  scan_count (ch "{" :: d1 ++ ch "," :: d2 ++ ch "}" :: rest) =
  (dec_value d1, dec_value d2, ch "}" :: rest).
Proof.
  intros H1 H2 Hne. unfold scan_count. simpl tail. rewrite span_digits_run by done.
  rewrite span_digits_run by done. case_if; [|done]. exfalso.
  apply Nat.eqb_eq in E. simpl length in E. rewrite !length_app in E. simpl length in E.
  rewrite length_app in E. simpl length in E.
  destruct d1; [|simpl in E; lia]. destruct d2; [done|simpl in E; lia].
Qed.

Lemma scan_count_open d rest :
  digits d -> d <> [] ->
  scan_count (ch "{" :: d ++ ch "," :: ch "}" :: rest) = (dec_value d, 0, ch "}" :: rest).
Proof.
  intros H1 Hne. apply (scan_count_between d [] rest); [done|by constructor|].
  by rewrite app_nil_r.
Qed.

(** ** The expansion as an expression *)

Definition chain (b : re_ast) (l : list re_ast) : re_ast := fold_left RCat l b.

(** The expression of [r{lo,hi}]. *)
Definition rep_ast (r : re_ast) (lo hi : Z) : re_ast :=
  if lo =? 0 then chain (RQuest r) (replicate (Z.to_nat (hi - 1)) (RQuest r))
  else chain r (replicate (Z.to_nat (lo - 1)) r ++
                replicate (Z.to_nat (hi - lo)) (RQuest r)).

Lemma den_chain ic l : forall b c c',
  den ic (chain b l) c c' <-> exists c1, den ic b c c1 /\ foldr (fun r (P : pos -> Prop) c =>
    exists c1, den ic r c c1 /\ P c1) (fun x => x = c') l c1.
Proof.
  induction l as [|r l IH]; intros b c c'; simpl.
  - split; [by eauto|]. by intros (c1 & ? & ->).
  - rewrite IH. split.
    + intros (c2 & Hd & Hf). inversion Hd; subst. eauto.
    + intros (c1 & ? & c2 & ? & ?). exists c2. split; [by eapply den_cat|done].
Qed.

(** The rest of a chain of [n] copies of [r] and [m] of [r?]. *)
Lemma foldr_copies ic r m c' n : forall c,
  foldr (fun r (P : pos -> Prop) c => exists c1, den ic r c c1 /\ P c1) (fun x => x = c')
    (replicate n r ++ replicate m (RQuest r)) c <->
  exists k, (n <= k <= n + m)%nat /\ nsteps (den ic r) k c c'.
Proof.
  induction n as [|n IHn]; simpl.
  - induction m as [|m IHm]; intros c; simpl.
    + split; [intros ->; exists 0%nat; split; [lia|constructor]|].
      intros (k & ? & Hk). replace k with 0%nat in Hk by lia. by inversion Hk.
    + split.
      * intros (c1 & Hd & (k & ? & Hk)%IHm). inversion Hd; subst.
        -- exists k. split; [lia|done].
        -- exists (S k). split; [lia|by econstructor].
      * intros (k & Hl & Hk). destruct Hk as [c|k c c1 c2 Hd Hk].
        -- exists c. split; [apply den_quest_nil|]. apply IHm. exists 0%nat.
           split; [lia|constructor].
        -- exists c1. split; [by apply den_quest_one|]. apply IHm. exists k. split; [lia|done].
  - intros c. split.
    + intros (c1 & Hd & (k & ? & Hk)%IHn). exists (S k). split; [lia|by econstructor].
    + intros (k & Hl & Hk). destruct Hk as [c|k c c1 c2 Hd Hk]; [lia|].
      exists c1. split; [done|]. apply IHn. exists k. split; [lia|done].
Qed.

Lemma den_rep ic r lo hi c c' :
  0 <= lo <= hi -> 1 <= hi ->
  den ic (rep_ast r lo hi) c c' <->
  exists k : nat, lo <= Z.of_nat k <= hi /\ nsteps (den ic r) k c c'.
Proof.
  intros Hlo Hhi. unfold rep_ast. case_if; bool_lia; rewrite den_chain.
  - pose proof (foldr_copies ic r (Z.to_nat hi) c' 0 c) as H. simpl in H.
    replace (Z.to_nat hi) with (S (Z.to_nat (hi - 1))) in H at 1 by lia. simpl in H.
    rewrite H. f_equiv. intros k. split; intros [? ?]; (split; [lia|done]).
  - pose proof (foldr_copies ic r (Z.to_nat (hi - lo)) c' (S (Z.to_nat (lo - 1))) c) as H.
    simpl in H. rewrite H. f_equiv. intros k. split; intros [? ?]; (split; [lia|done]).
Qed.

(** ** The expansion made by the tokeniser *)

(** The expressions whose printed form is one atom of the tokeniser: an operand, or
    an alternation in parentheses. *)
Definition is_atom (r : re_ast) : Prop := level r = 0 \/ level r = 3.

Lemma wrap_atom l r x : is_atom r -> 1 <= l <= 3 -> wrap l r x = wrap 3 r x.
Proof.
  unfold is_atom, wrap. intros [-> | ->] Hl; [|by case_if; bool_lia; case_if; bool_lia].
  rewrite (proj2 (Z.ltb_lt 0 l)) by lia. done.
Qed.

Lemma infix_chain l : forall b,
  wrap 1 (chain b l) (infix (chain b l)) =
  wrap 1 b (infix b) ++ concat (map (fun r => wrap 2 r (infix r)) l).
Proof.
  induction l as [|r l IH]; intros b; simpl; [by rewrite app_nil_r|].
  change (chain b (r :: l)) with (chain (RCat b r) l). rewrite IH.
  change (wrap 1 (RCat b r) (infix (RCat b r))) with (wrap 1 b (infix b) ++ wrap 2 r (infix r)).
  by rewrite <- app_assoc.
Qed.

Lemma wneed_chain N l : forall b,
  (wneed 1 b <= N)%nat -> Forall (fun r => (S (wneed 2 r) <= N)%nat) l ->
  (wneed 1 (chain b l) <= N)%nat.
Proof.
  induction l as [|r l IH]; intros b Hb Hl; [done|]. apply Forall_cons in Hl as [Hr Hl].
  change (chain b (r :: l)) with (chain (RCat b r) l). apply IH; [|done].
  unfold wneed in *. simpl in *. lia.
Qed.

Lemma wf_chain l : forall b, wf_ast b -> Forall wf_ast l -> wf_ast (chain b l).
Proof.
  induction l as [|r l IH]; intros b Hb Hl; [done|]. apply Forall_cons in Hl as [Hr Hl].
  by apply (IH (RCat b r)).
Qed.

Lemma repeat_app_concat {A} n (x : list A) : repeat_app n x = concat (replicate n x).
Proof. induction n; simpl; by f_equal. Qed.

Lemma map_replicate {A B} (f : A -> B) n x : map f (replicate n x) = replicate n (f x).
Proof. induction n; simpl; by f_equal. Qed.

Lemma wneed_rep r lo hi : (wneed 1 (rep_ast r lo hi) <= need r + 2)%nat.
Proof.
  assert (Hq : forall l, (wneed l (RQuest r) <= S (S (need r)))%nat /\
                         (wneed 2 (RQuest r) <= S (need r))%nat).
  { intros l. unfold wneed. simpl. split; repeat case_if; try (simpl in *; bool_lia). }
  assert (Hr : forall l, (wneed l r <= S (need r))%nat)
    by (intros l; unfold wneed; case_if; lia).
  unfold rep_ast. case_if; apply wneed_chain.
  - destruct (Hq 1). lia.
  - apply Forall_replicate. destruct (Hq 2). lia.
  - specialize (Hr 1). lia.
  - apply Forall_app; split; apply Forall_replicate; [specialize (Hr 2)|destruct (Hq 2)]; lia.
Qed.

Lemma wf_rep r lo hi : wf_ast r -> wf_ast (rep_ast r lo hi).
Proof.
  intros Hr. unfold rep_ast. case_if; apply wf_chain; try done.
  - by apply Forall_replicate.
  - by apply Forall_app; split; apply Forall_replicate.
Qed.

Lemma expand_count_infix r lo hi :
  is_atom r -> 0 <= lo <= hi -> 1 <= hi ->
  expand_count (wrap 3 r (infix r)) 0 lo hi =
  wrap 1 (rep_ast r lo hi) (infix (rep_ast r lo hi)).
Proof.
  intros Ha Hlo Hhi. unfold expand_count, rep_ast. rewrite drop_0, !repeat_app_concat.
  rewrite (proj2 (Z.eqb_neq hi (-1))) by lia.
  assert (Hq : forall l, wrap (Z.min l 2) (RQuest r) (infix (RQuest r)) =
                         wrap 3 r (infix r) ++ [TOK_QUEST]).
  { intros l. unfold wrap at 1. simpl. case_if; [bool_lia|done]. }
  pose proof (Hq 1) as Hq1. specialize (Hq 2).
  change (Z.min 1 2) with 1 in Hq1. change (Z.min 2 2) with 2 in Hq.
  case_if; rewrite infix_chain.
  - rewrite map_replicate, Hq, Hq1. by rewrite <- app_assoc.
  - rewrite map_app, !map_replicate, concat_app, Hq, (wrap_atom 1 r), (wrap_atom 2 r) by (done || lia).
    done.
Qed.

(** The atom at the start of a pattern. *)
Lemma tokl_atom r rest :
  printable r -> is_atom r ->
  exists st, tokl tk_init (wrap_print 3 r (print r) ++ rest) = tokl st rest /\
    tk_out st = wrap 3 r (infix r) /\ tk_prev st = Some 0%nat /\ tk_depth st = 0%nat.
Proof.
  intros Hp [Hl|Hl]; unfold wrap_print, wrap; rewrite Hl; simpl.
  - destruct (tokl_group (print r) (infix r) tk_init rest (toks_print r Hp))
      as (st & E & O & P & D & _); [simpl; lia|done|].
    exists st. rewrite <- app_assoc. done.
  - destruct r; simpl in Hl; try lia. eexists. split; [by apply tokl_leaf|]. done.
Qed.

Lemma print_atom_no_flag r rest :
  printable r -> prefix_of (bs "(?i)") (wrap_print 3 r (print r) ++ rest) = false.
Proof.
  intros Hp. unfold wrap_print. case_if; [|by apply print_no_flag].
  destruct (print_head r Hp) as (c & q & -> & Hc). change (bs "(?i)") with [40; 63; 105; 41].
  cbn [app prefix_of]. rewrite (proj2 (Z.eqb_neq 63 c)) by lia. by rewrite andb_false_r.
Qed.

Lemma tokenise_rep r d1 d2 :
  printable r -> is_atom r -> digits d1 -> digits d2 -> d1 ++ d2 <> [] ->
  dec_value d1 <= dec_value d2 -> 1 <= dec_value d2 <= 255 ->
  let rr := rep_ast r (dec_value d1) (dec_value d2) in
  tokenise (wrap_print 3 r (print r) ++ ch "{" :: d1 ++ ch "," :: d2 ++ [ch "}"]) false true =
  Ok (wrap 1 rr (infix rr)).
Proof.
  intros Hp Ha H1 H2 Hne Hle Hhi rr. unfold tokenise.
  pose proof (dec_value_nonneg d1 H1) as Hpos.
  destruct (tokl_atom r (ch "{" :: d1 ++ ch "," :: d2 ++ [ch "}"]) Hp Ha)
    as (st & E & O & P & D).
  assert (Hv : count_valid (dec_value d1) (dec_value d2) [ch "}"] = true).
  { unfold count_valid. apply negb_true_iff.
    rewrite !orb_false_iff, andb_false_iff, orb_false_iff, !Z.ltb_ge, Z.leb_gt. lia. }
  assert (Hc : tok_count st (ch "{" :: d1 ++ ch "," :: d2 ++ [ch "}"]) =
               (tk_set_out st (wrap 1 rr (infix rr)) (Some 0%nat), [])).
  { unfold tok_count. rewrite scan_count_between, Hv, P by done.
    rewrite (proj2 (Z.eqb_neq (dec_value d2) 0)), andb_false_r by lia.
    by rewrite O, expand_count_infix by (done || lia). }
  unfold tokl at 1 in E. rewrite E. clear E.
  erewrite tokl_step; [|unfold tok_step; cbn - [tok_count]; by rewrite Hc].
  unfold tokl. simpl. by rewrite D.
Qed.

(** ** The theorems *)

(** Counted repetition: the pattern [x{lo,hi}] of an atom [x] parses, and
    denotes between [lo] and [hi] repetitions of [x], for every pair of decimal
    bounds with [lo <= hi] and [1 <= hi <= 255]. *)
Theorem counted_repetition r d1 d2 :
  printable r -> is_atom r -> (need r + 2 <= SHUNT_STACK)%nat ->
  digits d1 -> digits d2 -> d1 ++ d2 <> [] ->
  dec_value d1 <= dec_value d2 -> 1 <= dec_value d2 <= 255 ->
  exists rr,
    regex_ast (wrap_print 3 r (print r) ++ ch "{" :: d1 ++ ch "," :: d2 ++ [ch "}"]) 0 = Some rr /\
    forall ic c c', den ic rr c c' <->
      exists k : nat, dec_value d1 <= Z.of_nat k <= dec_value d2 /\
                      nsteps (den ic r) k c c'.
Proof.
  intros Hp Ha Hn H1 H2 Hne Hle Hhi. eexists. split.
  - pose proof (printable_wf r Hp) as Hw. unfold regex_ast, pat_body, pat_icase.
    rewrite print_atom_no_flag by done. simpl.
    rewrite tokenise_rep by done. rewrite shunt_wrap.
    + apply postfix_ast_postfix. by apply wf_rep.
    + by apply wf_rep.
    + pose proof (wneed_rep r (dec_value d1) (dec_value d2)). lia.
  - intros ic c c'. apply den_rep; [|lia]. pose proof (dec_value_nonneg d1 H1). lia.
Qed.

Lemma counted_repetition_witness :
  exists rr, regex_ast (bs "(a|b){2,13}") 0 = Some rr /\
    forall ic c c', den ic rr c c' <->
      exists k : nat, 2 <= Z.of_nat k <= 13 /\
        nsteps (den ic (RAlt (RLeaf (ST_CHAR 97)) (RLeaf (ST_CHAR 98)))) k c c'.
Proof.
  apply (counted_repetition (RAlt (RLeaf (ST_CHAR 97)) (RLeaf (ST_CHAR 98)))
           (bs "2") (bs "13")).
  - done.
  - by left.
  - vm_compute. lia.
  - repeat constructor.
  - repeat constructor.
  - done.
  - vm_compute. discriminate.
  - vm_compute. split; discriminate.
Defined.

(** The open form [x{n,}] is not a repetition: for every [n] from 1 up, the
    brace is taken as a literal character (the bound after the comma is 0, not
    "none", because the test compares with the wrong position). *)
Theorem open_count_is_literal d rest st :
  digits d -> 1 <= dec_value d ->
  tok_count st (ch "{" :: d ++ ch "," :: ch "}" :: rest) =
  (tk_push_atom st (TOK_LIT (ch "{")), d ++ ch "," :: ch "}" :: rest).
Proof.
  intros H1 Hn. unfold tok_count. rewrite scan_count_open; [|done|by intros ->].
  simpl count_valid. rewrite (proj2 (Z.ltb_lt 0 (dec_value d))) by lia.
  by rewrite !orb_true_r.
Qed.

Lemma open_count_is_literal_witness :
  tok_count tk_init (bs "{2,}x") = (tk_push_atom tk_init (TOK_LIT (ch "{")), bs "2,}x") /\
  op_regex_match (re_of (op_regex_compile (bs "^a{2,}$") 0)) (bs "aaa") = false /\
  op_regex_match (re_of (op_regex_compile (bs "^a{2,}$") 0)) (bs "a{2,}") = true.
Proof.
  split; [|split; vm_compute; reflexivity].
  apply (open_count_is_literal (bs "2") (bs "x")).
  - repeat constructor.
  - vm_compute. discriminate.
Defined.

(** The [^] shortcut looks at the first byte of the pattern only, so a pattern
    whose first alternative is anchored anchors all of them: [^a|b] does not
    match a text that contains, but does not start with, a [b]. *)
Theorem anchored_alternative :
  exists re r, op_regex_compile (bs "^a|b") 0 = Ok re /\
    regex_ast (bs "^a|b") 0 = Some r /\
    den false r (ch "x", bs "b") (ch "b", []) /\
    op_regex_match re (bs "xb") = false.
Proof.
  eexists _, _. split; [vm_compute; reflexivity|]. split; [vm_compute; reflexivity|].
  split; [|vm_compute; reflexivity].
  apply den_alt_r, den_leaf. by apply (leaf_byte false (ST_CHAR 98) 120 98 []).
Qed.
