(* ===== verification/Wildcard.v ===== *)
(** * Wildcard matching (src/match.c)

    [_wild_match] and [_wild_match_per] translate an IRC mask to a regular
    expression in a buffer of 1024 bytes ([irc_to_ere]) and run the regex engine of
    libop on it.  This file models the translation and the two entry points, and
    shows that together they implement glob matching. *)

From S2P Require Import Prelude LibC RegexToken RegexCompile RegexClass RegexMatch RegexSem.
From S2P Require Import RegexParse RegexBuild RegexSim RegexCorrect RegexTheorems RegexPrint.
From S2P Require Import RegexCount.

(** ** The translation *)

(** The characters the translation escapes. *)
Definition regex_meta : list Z :=
  [ch "\"; ch "."; ch "^"; ch "$"; ch "|"; ch "{"; ch "}"; ch "["; ch "]"; ch "(";
   ch ")"; ch "+"; ch "-"; ch "?"; ch "*"].

(** The inner loops that collapse a run of wildcards. *)
Fixpoint skip_while (test : Z -> bool) (m : list Z) : list Z :=
  match m with
  | c :: m' => if test c then skip_while test m' else m
  | [] => []
  end.

(** The copy of one literal character; [None] is the [break] when it does not fit.
    [e] is [end - out]. *)
Definition ere_lit (e : Z) (out : list Z) (c : Z) : option (list Z) :=
  if mem c regex_meta then
    if e <=? Z.of_nat (length out) + 1 then None else Some (out ++ [ch "\"; c])
  else Some (out ++ [c]).

(** The loop of [irc_to_ere]; [out] is what has been written, [p - out] its length. *)
Fixpoint ere_loop (fuel : nat) (e : Z) (per_mode : bool) (m out : list Z) : list Z :=
  match fuel, m with
  | S fuel', c :: m1 =>
      if Z.of_nat (length out) <? e then
        if per_mode && (c =? ch "\") then
          match m1 with
          | [] => out
          | d :: m2 => match ere_lit e out d with
                       | None => out
                       | Some out => ere_loop fuel' e per_mode m2 out
                       end
          end
        else if c =? ch "*" then
          if e <? Z.of_nat (length out) + 2 then out
          else ere_loop fuel' e per_mode (skip_while (Z.eqb (ch "*")) m) (out ++ bs ".*")
        else if c =? ch "?" then ere_loop fuel' e per_mode m1 (out ++ bs ".")
        else if per_mode && (c =? ch "%") then
          if e <? Z.of_nat (length out) + 5 then out
          else ere_loop fuel' e per_mode (skip_while (Z.eqb (ch "%")) m) (out ++ bs "[^ ]*")
        else if per_mode && (c =? ch "~") then
          if e <? Z.of_nat (length out) + 4 then out
          else ere_loop fuel' e per_mode
                 (skip_while (fun d => (d =? ch "~") || (d =? ch " ")) m) (out ++ bs "[ ]+")
        else match ere_lit e out c with
             | None => out
             | Some out => ere_loop fuel' e per_mode m1 out
             end
      else out
  | _, _ => out
  end.

(** [None] is the return value -1; otherwise the NUL-terminated contents of [out]. *)
Definition irc_to_ere (m : list Z) (outsz : Z) (per_mode : bool) : option (list Z) :=
  if outsz <? 4 then None
  else Some (ere_loop (length m) (outsz - 2) per_mode m [ch "^"] ++ [ch "$"]).

(** ** The entry points *)

Definition ere_match (m n : list Z) (per_mode : bool) : Z :=
  match irc_to_ere m 1024 per_mode with
  | None => 0
  | Some ere =>
      match op_regex_compile ere OP_REGEX_ICASE with
      | Err _ => 0
      | Ok re => if op_regex_match re n then 1 else 0
      end
  end.

Definition _wild_match (m n : list Z) : Z :=
  match m, n with
  | [], _ | _, [] => 0
  | _, _ => ere_match m n false
  end.

(** [cmp1] is [casecharcmp] in the macros [wild_match_per] and
    [wild_match_partial_case]; [None] is a null pointer.  [cmp2] and [chgpoint] are
    not used by the function. *)
Definition _wild_match_per (m n : list Z) (cmp1 : option (Z -> Z -> Z)) : Z :=
  match n, cmp1 with
  | [], _ | _, None => 0
  | _, Some _ => ere_match m n true
  end.

(** ** The mask as a list of items *)

Inductive gitem : Type :=
| GStar                (* any bytes *)
| GOne                 (* one byte *)
| GNoSp                (* bytes that are not spaces *)
| GSpaces              (* one or more spaces *)
| GLit (c : Z).        (* the byte [c], in either case *)

(** The items of a mask; [%], [~] and quoting only in [per_mode]. *)
Fixpoint mask_items (fuel : nat) (per_mode : bool) (m : list Z) : list gitem :=
  match fuel, m with
  | S fuel', c :: m1 =>
      if per_mode && (c =? ch "\") then
        match m1 with
        | [] => []
        | d :: m2 => GLit d :: mask_items fuel' per_mode m2
        end
      else if c =? ch "*" then
        GStar :: mask_items fuel' per_mode (skip_while (Z.eqb (ch "*")) m)
      else if c =? ch "?" then GOne :: mask_items fuel' per_mode m1
      else if per_mode && (c =? ch "%") then
        GNoSp :: mask_items fuel' per_mode (skip_while (Z.eqb (ch "%")) m)
      else if per_mode && (c =? ch "~") then
        GSpaces :: mask_items fuel' per_mode
                     (skip_while (fun d => (d =? ch "~") || (d =? ch " ")) m)
      else GLit c :: mask_items fuel' per_mode m1
  | _, _ => []
  end.

Definition items (per_mode : bool) (m : list Z) : list gitem :=
  mask_items (length m) per_mode m.

(** What glob matching means. *)
Inductive glob : list gitem -> list Z -> Prop :=
| glob_nil : glob [] []
| glob_star g w n : glob g n -> glob (GStar :: g) (w ++ n)
| glob_one g c n : glob g n -> glob (GOne :: g) (c :: n)
| glob_nosp g w n : ~ In 32 w -> glob g n -> glob (GNoSp :: g) (w ++ n)
| glob_spaces g w n :
    w <> [] -> Forall (eq 32) w -> glob g n -> glob (GSpaces :: g) (w ++ n)
| glob_lit g d c n : tolower c = tolower d -> glob g n -> glob (GLit d :: g) (c :: n).

(** ** The translation writes the items that fit *)

Definition ere_of (it : gitem) : list Z :=
  match it with
  | GStar => bs ".*"
  | GOne => bs "."
  | GNoSp => bs "[^ ]*"
  | GSpaces => bs "[ ]+"
  | GLit c => if mem c regex_meta then [ch "\"; c] else [c]
  end.

(** The space test the code makes before writing an item at offset [len]. *)
Definition item_fits (e len : Z) (it : gitem) : bool :=
  (len <? e) &&
  match it with
  | GStar => len + 2 <=? e
  | GOne => true
  | GNoSp => len + 5 <=? e
  | GSpaces => len + 4 <=? e
  | GLit c => if mem c regex_meta then len + 1 <? e else true
  end.

(** The items before the first that does not fit. *)
Fixpoint fit (e len : Z) (its : list gitem) : list gitem :=
  match its with
  | [] => []
  | it :: its =>
      if item_fits e len it then it :: fit e (len + Z.of_nat (length (ere_of it))) its else []
  end.

Lemma item_fits_width e len it :
  item_fits e len it = true -> len + Z.of_nat (length (ere_of it)) <= e.
Proof.
  unfold item_fits. destruct it as [| | | |c]; cbn [ere_of];
    try (destruct (mem c regex_meta)); intros H; simpl length; bool_lia.
Qed.

Lemma fit_width its : forall e len,
  len <= e -> len + Z.of_nat (length (concat (map ere_of (fit e len its)))) <= e.
Proof.
  induction its as [|it its IH]; intros e len Hl; cbn [fit]; [simpl; lia|].
  case_if; [|simpl; lia]. simpl. rewrite length_app. apply item_fits_width in E.
  specialize (IH e _ E). lia.
Qed.

Lemma skip_while_length test m : (length (skip_while test m) <= length m)%nat.
Proof. induction m as [|c m IH]; simpl; [done|]. case_if; simpl; lia. Qed.

Lemma ere_lit_item e out c :
  Z.of_nat (length out) < e ->
  ere_lit e out c =
  if item_fits e (Z.of_nat (length out)) (GLit c) then Some (out ++ ere_of (GLit c)) else None.
Proof.
  intros Hl. unfold ere_lit, item_fits. cbn [ere_of]. rewrite (proj2 (Z.ltb_lt _ _) Hl).
  destruct (mem c regex_meta); [|done].
  rewrite Z.leb_antisym. by destruct (Z.of_nat (length out) + 1 <? e).
Qed.

Lemma ere_loop_items per n : forall m out e,
  ere_loop n e per m out =
  out ++ concat (map ere_of (fit e (Z.of_nat (length out)) (mask_items n per m))).
Proof.
  assert (Hfull : forall e out its, (Z.of_nat (length out) <? e) = false ->
            out = out ++ concat (map ere_of (fit e (Z.of_nat (length out)) its))).
  { intros e out its H. destruct its; cbn [fit]; [by rewrite app_nil_r|].
    unfold item_fits. rewrite H. simpl. by rewrite app_nil_r. }
  induction n as [|n IH]; intros m out e; cbn [ere_loop mask_items].
  { simpl. by rewrite app_nil_r. }
  destruct m as [|c m1]; [simpl; by rewrite app_nil_r|].
  assert (Hput : forall it its, (Z.of_nat (length out) <? e) = true ->
    (if item_fits e (Z.of_nat (length out)) it
     then ere_loop n e per its (out ++ ere_of it) else out) =
    out ++ concat (map ere_of (fit e (Z.of_nat (length out)) (it :: mask_items n per its)))).
  { intros it its _. cbn [fit]. case_if; [|simpl; by rewrite app_nil_r].
    rewrite IH. simpl. by rewrite length_app, Nat2Z.inj_add, app_assoc. }
  destruct (Z.of_nat (length out) <? e) eqn:El; [|by apply Hfull].
  assert (Hlit : forall d its,
    match ere_lit e out d with Some out => ere_loop n e per its out | None => out end =
    out ++ concat (map ere_of (fit e (Z.of_nat (length out)) (GLit d :: mask_items n per its)))).
  { intros d its. rewrite ere_lit_item by bool_lia. rewrite <- Hput by done. by case_if. }
  assert (Hw : forall it w its, item_fits e (Z.of_nat (length out)) it =
                 negb (e <? Z.of_nat (length out) + w) ->
    (if e <? Z.of_nat (length out) + w then out else ere_loop n e per its (out ++ ere_of it)) =
    out ++ concat (map ere_of (fit e (Z.of_nat (length out)) (it :: mask_items n per its)))).
  { intros it w its H. rewrite <- Hput, H by done. by case_if. }
  destruct (per && (c =? ch "\")); [destruct m1; [simpl; by rewrite app_nil_r|apply Hlit]|].
  destruct (c =? ch "*"); [apply (Hw GStar)|].
  { unfold item_fits. rewrite El. apply Z.leb_antisym. }
  destruct (c =? ch "?").
  { rewrite <- Hput by done. unfold item_fits. by rewrite El. }
  destruct (per && (c =? ch "%")); [apply (Hw GNoSp)|].
  { unfold item_fits. rewrite El. apply Z.leb_antisym. }
  destruct (per && (c =? ch "~")); [apply (Hw GSpaces)|apply Hlit].
  unfold item_fits. rewrite El. apply Z.leb_antisym.
Qed.

(** The items a mask keeps in the 1024-byte buffer. *)
Definition kept (per_mode : bool) (m : list Z) : list gitem := fit 1022 1 (items per_mode m).

Lemma irc_to_ere_items per m :
  irc_to_ere m 1024 per =
  Some (ch "^" :: concat (map ere_of (kept per m)) ++ [ch "$"]).
Proof.
  unfold irc_to_ere, kept, items. simpl. f_equal. by rewrite ere_loop_items.
Qed.

(** ** The expression of a translated mask *)

(** The bitmaps of [[^ ]] and [[ ]]. *)
Definition nosp_cls : list Z :=
  Eval vm_compute in match parse_class (bs "^ ]") true with Some (c, _) => c | None => [] end.
Definition space_cls : list Z :=
  Eval vm_compute in match parse_class (bs " ]") true with Some (c, _) => c | None => [] end.

Definition item_ast (it : gitem) : re_ast :=
  match it with
  | GStar => RStar (RLeaf ST_ANY)
  | GOne => RLeaf ST_ANY
  | GNoSp => RStar (RLeaf (ST_CLASS nosp_cls))
  | GSpaces => RPlus (RLeaf (ST_CLASS space_cls))
  | GLit c => RLeaf (ST_CHAR (tolower c))
  end.

Definition mask_ast (its : list gitem) : re_ast :=
  chain (RLeaf ST_BOL) (map item_ast its ++ [RLeaf ST_EOL]).

(** The tokeniser under [OP_REGEX_ICASE], with the fuel [tokenise] gives it. *)
Definition tokw (st : tk_state) (p : list Z) : result regex_error tk_state :=
  tok_loop (length p) true true st p.

Lemma tokw_step st c q st' p' :
  tok_step true true st c q = Ok (st', p') -> tokw st (c :: q) = tokw st' p'.
Proof.
  intros H. unfold tokw. cbn [tok_loop length]. rewrite H. simpl.
  apply tok_step_length in H. by apply tok_loop_fuel.
Qed.

Lemma tok_step_plain_ic st c q :
  mem c regex_meta = false ->
  tok_step true true st c q = Ok (tk_push_atom st (TOK_LIT (tolower c)), q).
Proof.
  unfold mem, regex_meta. cbn [existsb]. intros H.
  repeat (apply orb_false_elim in H as [?E H]). unfold tok_step.
  repeat match goal with E : (c =? _) = false |- _ => rewrite E; clear E end.
  done.
Qed.

Lemma escape_meta_ic c :
  mem c regex_meta = true -> escape_token true c = TOK_LIT (tolower c).
Proof.
  intros H%mem_In. simpl in H.
  repeat (destruct H as [<-|H]; [reflexivity|]). done.
Qed.

Lemma parse_class_nosp rest : parse_class (bs "^ ]" ++ rest) true = Some (nosp_cls, rest).
Proof.
  change (bs "^ ]" ++ rest) with (94 :: 32 :: 93 :: rest). reflexivity.
Qed.

Lemma parse_class_space rest : parse_class (bs " ]" ++ rest) true = Some (space_cls, rest).
Proof.
  change (bs " ]" ++ rest) with (32 :: 93 :: rest). reflexivity.
Qed.

Lemma tokw_class st pat cls rest :
  parse_class (pat ++ rest) true = Some (cls, rest) ->
  tokw st (ch "[" :: pat ++ rest) = tokw (tk_push_atom st (TOK_CLASS cls)) rest.
Proof. intros H. apply tokw_step. unfold tok_step. cbn - [parse_class app]. by rewrite H. Qed.

Lemma tokw_item it st rest : exists st',
  tokw st (ere_of it ++ rest) = tokw st' rest /\
  tk_out st' = tk_out st ++ wrap 2 (item_ast it) (infix (item_ast it)) /\
  tk_depth st' = tk_depth st.
Proof.
  destruct it as [| | | |c].
  - eexists. split; [etrans; [by apply tokw_step|by apply tokw_step]|].
    simpl. by rewrite <- app_assoc.
  - eexists. split; [by apply tokw_step|done].
  - eexists. split.
    + etrans; [apply (tokw_class _ (bs "^ ]")), parse_class_nosp|by apply tokw_step].
    + simpl. by rewrite <- app_assoc.
  - eexists. split.
    + etrans; [apply (tokw_class _ (bs " ]")), parse_class_space|by apply tokw_step].
    + simpl. by rewrite <- app_assoc.
  - unfold ere_of. case_if; eexists.
    + split; [apply tokw_step; unfold tok_step; cbn - [escape_token]; by rewrite escape_meta_ic|].
      done.
    + split; [apply tokw_step; by apply tok_step_plain_ic|]. done.
Qed.

Lemma tokw_items its : forall st rest, exists st',
  tokw st (concat (map ere_of its) ++ rest) = tokw st' rest /\
  tk_out st' = tk_out st ++ concat (map (fun r => wrap 2 r (infix r)) (map item_ast its)) /\
  tk_depth st' = tk_depth st.
Proof.
  induction its as [|it its IH]; intros st rest; cbn [map concat].
  - exists st. by rewrite app_nil_r.
  - destruct (tokw_item it st (concat (map ere_of its) ++ rest)) as (st1 & E1 & O1 & D1).
    destruct (IH st1 rest) as (st2 & E2 & O2 & D2). exists st2.
    rewrite <- app_assoc, E1, E2, O2, O1, D2, D1, app_assoc. done.
Qed.

Lemma tokenise_mask its :
  tokenise (ch "^" :: concat (map ere_of its) ++ [ch "$"]) true true =
  Ok (wrap 1 (mask_ast its) (infix (mask_ast its))).
Proof.
  unfold tokenise. fold (tokw tk_init (ch "^" :: concat (map ere_of its) ++ [ch "$"])).
  erewrite tokw_step by reflexivity.
  destruct (tokw_items its (tk_push_atom tk_init TOK_BOL) [ch "$"]) as (st & E & O & D).
  rewrite E. erewrite tokw_step by reflexivity. unfold tokw. simpl. rewrite D. simpl. f_equal.
  unfold mask_ast. rewrite infix_chain, map_app, concat_app, O. done.
Qed.

Lemma operands_chain l : forall b,
  (operands b <= 2)%nat -> Forall (fun r => (operands r <= 1)%nat) l ->
  (operands (chain b l) <= 2)%nat.
Proof.
  induction l as [|r l IH]; intros b Hb Hl; [done|]. apply Forall_cons in Hl as [Hr Hl].
  change (chain b (r :: l)) with (chain (RCat b r) l). apply IH; [simpl; lia|done].
Qed.

#[local] Opaque SHUNT_STACK FRAG_STACK.

(** The translated mask always compiles, to a regex for its expression. *)
Lemma mask_compiles its :
  let ere := ch "^" :: concat (map ere_of its) ++ [ch "$"] in
  regex_ast ere OP_REGEX_ICASE = Some (mask_ast its) /\
  exists re, op_regex_compile ere OP_REGEX_ICASE = Ok re /\ re_anchored re = true /\
             re_icase re = true.
Proof.
  intros ere.
  assert (Hits : Forall (fun r => wf_ast r /\ (S (wneed 2 r) <= 2)%nat /\ (operands r <= 1)%nat)
                   (map item_ast its ++ [RLeaf ST_EOL])).
  { apply Forall_app. split; [|repeat constructor; done].
    apply Forall_map, Forall_forall. intros [] _; simpl; split_and!; try done; unfold wneed; simpl; lia. }
  assert (Hw : wf_ast (mask_ast its)).
  { apply wf_chain; [done|]. eapply Forall_impl; [exact Hits|]. by intros r [? _]. }
  assert (Hs : shunt (cat_inject (wrap 1 (mask_ast its) (infix (mask_ast its)))) =
               Ok (postfix (mask_ast its))).
  { apply shunt_wrap; [done|].
    assert (Hn : (wneed 1 (mask_ast its) <= 2)%nat).
    { apply wneed_chain; [unfold wneed; simpl; lia|]. eapply Forall_impl; [exact Hits|].
      by intros r (_ & ? & _). }
    with_strategy transparent [SHUNT_STACK] unfold SHUNT_STACK. lia. }
  unfold regex_ast, op_regex_compile, pat_body, pat_icase.
  change (prefix_of (bs "(?i)") ere) with false. simpl.
  subst ere. rewrite tokenise_mask. simpl. rewrite Hs. simpl.
  split; [by apply postfix_ast_postfix|].
  destruct (build_nfa_total (postfix (mask_ast its)) (mask_ast its)) as (pool & start & Hb).
  - by apply postfix_ast_postfix.
  - pose proof (stk_max_postfix (mask_ast its) Hw [] []) as H. rewrite app_nil_r in H.
    assert (Ho : (operands (mask_ast its) <= 2)%nat).
    { apply operands_chain; [simpl; lia|]. eapply Forall_impl; [exact Hits|].
      by intros r (_ & _ & ?). }
    simpl in H. with_strategy transparent [FRAG_STACK] unfold FRAG_STACK. lia.
  - rewrite Hb. simpl. eexists. split; [done|].
    by destruct (compute_metadata_fields true true pool start) as (_ & _ & ? & ?).
Qed.

(** ** What the expression denotes *)

(** The texts one item matches. *)
Definition item_den (it : gitem) (w : list Z) : Prop :=
  match it with
  | GStar => True
  | GOne => exists c, w = [c]
  | GNoSp => ~ In 32 w
  | GSpaces => w <> [] /\ Forall (eq 32) w
  | GLit d => exists c, w = [c] /\ tolower c = tolower d
  end.

Lemma glob_cons it g n :
  glob (it :: g) n <-> exists w n', n = w ++ n' /\ item_den it w /\ glob g n'.
Proof.
  split.
  - inversion 1; subst.
    + by eexists _, _.
    + exists [c], n0. split_and!; [done|by eexists|done].
    + by eexists _, _.
    + by eexists _, _.
    + exists [c], n0. split_and!; [done|by eexists|done].
  - intros (w & n' & -> & Hi & Hg). destruct it; simpl in Hi.
    + by apply glob_star.
    + destruct Hi as [c ->]. by apply glob_one.
    + by apply glob_nosp.
    + destruct Hi. by apply glob_spaces.
    + destruct Hi as (d & -> & ?). by apply glob_lit.
Qed.

(** A leaf that consumes one byte. *)
Lemma den_byte k pv n c1 :
  (forall c, holds_at k c = false) ->
  den true (RLeaf k) (pv, n) c1 <->
  exists c r, n = c :: r /\ c1 = (tolower c, r) /\ consumes k (tolower c) = true.
Proof.
  intros Hk. split.
  - inversion 1 as [? ? ? Hl| | | | | | | |]; subst. inversion Hl; subst; [by eexists _, _|].
    by rewrite Hk in *.
  - intros (c & r & -> & -> & Hc). by apply den_leaf, (leaf_byte true).
Qed.

(** A starred leaf consumes a run of bytes. *)
Lemma den_byte_star k pv n c1 :
  (forall c, holds_at k c = false) -> den true (RStar (RLeaf k)) (pv, n) c1 ->
  exists w suf, n = w ++ suf /\ snd c1 = suf /\
    Forall (fun c => consumes k (tolower c) = true) w.
Proof.
  intros Hk H. remember (RStar (RLeaf k)) as r eqn:Hr. remember (pv, n) as c0 eqn:Hc.
  revert pv n Hc. induction H; simplify_eq; intros pv n ->.
  - exists [], n. done.
  - apply den_byte in H as (c & r & -> & -> & Hcons); [|done].
    destruct (IHden2 eq_refl _ _ eq_refl) as (w & suf & -> & <- & Hw).
    exists (c :: w), (snd c'). split_and!; [done|done|by constructor].
Qed.

Lemma den_byte_star_intro k w : forall pv suf,
  (forall c, holds_at k c = false) -> Forall (fun c => consumes k (tolower c) = true) w ->
  exists pv', den true (RStar (RLeaf k)) (pv, w ++ suf) (pv', suf).
Proof.
  induction w as [|c w IH]; intros pv suf Hk Hw.
  - exists pv. apply den_star_nil.
  - apply Forall_cons in Hw as [Hc Hw]. destruct (IH (tolower c) suf Hk Hw) as [pv' Hd].
    exists pv'. eapply den_star_cons; [|exact Hd]. apply den_byte; [done|]. by eexists _, _.
Qed.

Lemma consumes_nosp c : 0 <= c < 256 -> consumes (ST_CLASS nosp_cls) (tolower c) = true <-> c <> 32.
Proof.
  intros Hc. simpl.
  pose proof (byte_forall (fun c => eqb (cls_tst nosp_cls (tolower c)) (negb (c =? 32)))
                ltac:(vm_compute; reflexivity) c Hc) as H.
  apply eqb_prop in H. rewrite H, negb_true_iff. apply Z.eqb_neq.
Qed.

Lemma consumes_space c : 0 <= c < 256 -> consumes (ST_CLASS space_cls) (tolower c) = true <-> 32 = c.
Proof.
  intros Hc. simpl.
  pose proof (byte_forall (fun c => eqb (cls_tst space_cls (tolower c)) (c =? 32))
                ltac:(vm_compute; reflexivity) c Hc) as H.
  apply eqb_prop in H. rewrite H, Z.eqb_eq. split; congruence.
Qed.

(** The bytes of a run that the class of an item consumes. *)
Lemma run_nosp w : cbytes w ->
  Forall (fun c => consumes (ST_CLASS nosp_cls) (tolower c) = true) w <-> ~ In 32 w.
Proof.
  induction 1 as [|c w Hc Hw IH]; [split; [by intros _ []|constructor]|].
  cbn [In]. rewrite Forall_cons, IH, consumes_nosp by done. intuition congruence.
Qed.

Lemma run_space w : cbytes w ->
  Forall (fun c => consumes (ST_CLASS space_cls) (tolower c) = true) w <-> Forall (eq 32) w.
Proof.
  induction 1 as [|c w Hc Hw IH]; [split; constructor|].
  by rewrite !Forall_cons, IH, consumes_space by done.
Qed.

Lemma run_any w : Forall (fun c => consumes ST_ANY (tolower c) = true) w.
Proof. by apply Forall_forall. Qed.

Lemma den_item_sound it pv n c1 :
  cbytes n -> den true (item_ast it) (pv, n) c1 ->
  exists w, n = w ++ snd c1 /\ item_den it w.
Proof.
  intros Hb H. destruct it as [| | | |d]; cbn [item_ast] in H.
  - apply den_byte_star in H as (w & suf & -> & <- & _); [|done]. by exists w.
  - apply den_byte in H as (c & r & -> & -> & _); [|done]. exists [c]. split; [done|by exists c].
  - apply den_byte_star in H as (w & suf & -> & <- & Hw); [|done].
    apply Forall_app in Hb as [Hb _]. exists w. split; [done|]. by apply run_nosp.
  - inversion H as [| | | | | |? ? c2 ? Hd1 Hd2| |]; subst.
    apply den_byte in Hd1 as (c & r & -> & -> & Hc); [|done].
    apply den_byte_star in Hd2 as (w & suf & -> & <- & Hw); [|done].
    exists (c :: w). split; [done|]. split; [done|].
    apply (run_space (c :: w)); [|by constructor].
    change (c :: w ++ snd c1) with ((c :: w) ++ snd c1) in Hb. by apply Forall_app in Hb as [Hb _].
  - apply den_byte in H as (c & r & -> & -> & Hc); [|done]. exists [c]. split; [done|].
    exists c. split; [done|]. apply Forall_cons in Hb as [Hb _]. simpl in Hc.
    apply tolower_byte in Hb. unfold u8 in Hc. rewrite Z.mod_small in Hc by lia. bool_lia.
Qed.

Lemma den_item_complete it pv w suf :
  cbytes w -> item_den it w -> exists pv', den true (item_ast it) (pv, w ++ suf) (pv', suf).
Proof.
  intros Hb Hi. destruct it as [| | | |d]; cbn [item_ast item_den] in *.
  - apply den_byte_star_intro; [done|]. apply run_any.
  - destruct Hi as [c ->]. eexists. apply den_byte; [done|]. by eexists _, _.
  - apply den_byte_star_intro; [done|]. by apply run_nosp.
  - destruct Hi as [Hne Hs]. destruct w as [|c w]; [done|].
    apply run_space in Hs; [|done]. apply Forall_cons in Hs as [Hc Hs].
    destruct (den_byte_star_intro (ST_CLASS space_cls) w (tolower c) suf) as [pv' Hd]; [done|done|].
    exists pv'. eapply den_plus; [|exact Hd]. apply den_byte; [done|]. by eexists _, _.
  - destruct Hi as (c & -> & Hc). eexists. apply den_byte; [done|].
    exists c, suf. split_and!; [done|done|]. simpl. apply Forall_cons in Hb as [Hb _].
    apply tolower_byte in Hb. unfold u8. rewrite Z.mod_small by lia. by apply Z.eqb_eq.
Qed.

(** The rest of the expression after [^]. *)
Lemma den_items its : forall pv n, cbytes n ->
  (exists e, foldr (fun r (P : pos -> Prop) c => exists c1, den true r c c1 /\ P c1)
               (fun x => x = e) (map item_ast its ++ [RLeaf ST_EOL]) (pv, n)) <->
  exists w suf, n = w ++ suf /\ at_eol suf = true /\ glob its w.
Proof.
  induction its as [|it its IH]; intros pv n Hb; simpl.
  - split.
    + intros (e & c1 & Hd & _). inversion Hd as [? ? ? Hl| | | | | | | |]; subst.
      inversion Hl; subst; [done|]. exists [], n. split_and!; [done|done|constructor].
    + intros (w & suf & -> & He & Hg). inversion Hg; subst.
      eexists _, _. split; [|done]. by apply den_leaf, leaf_assert.
  - split.
    + intros (e & [pv1 n1] & Hd & Hf). destruct (den_item_sound _ _ _ _ Hb Hd) as (w & -> & Hi).
      simpl in *. apply Forall_app in Hb as [_ Hb].
      destruct (proj1 (IH pv1 n1 Hb)) as (w' & suf & -> & He & Hg); [by exists e|].
      exists (w ++ w'), suf. rewrite <- app_assoc. split_and!; [done|done|].
      apply glob_cons. by eexists _, _.
    + intros (w & suf & -> & He & Hg). apply glob_cons in Hg as (w1 & w2 & -> & Hi & Hg).
      rewrite <- app_assoc in *. pose proof Hb as [Hb1 Hb2]%Forall_app.
      destruct (den_item_complete it pv w1 (w2 ++ suf) Hb1 Hi) as [pv' Hd].
      destruct (proj2 (IH pv' (w2 ++ suf) Hb2)) as [e Hf]; [by eexists _, _|].
      exists e, (pv', w2 ++ suf). done.
Qed.

Lemma mask_ast_den its n :
  cbytes n ->
  (exists e, den true (mask_ast its) (0, n) e) <->
  exists w suf, n = w ++ suf /\ at_eol suf = true /\ glob its w.
Proof.
  intros Hb. rewrite <- (den_items its 0 n Hb). f_equiv. intros e.
  unfold mask_ast. rewrite den_chain. split.
  - intros (c1 & Hd & Hf). inversion Hd as [? ? ? Hl| | | | | | | |]; subst.
    by inversion Hl; subst.
  - intros Hf. exists (0, n). split; [|done]. by apply den_leaf, leaf_assert.
Qed.

(** ** The theorems *)

Lemma ere_match_correct m n per :
  cstr n -> Z.of_nat (length n) < 2 ^ 32 - 2 ->
  ere_match m n per = 1 <->
  exists w suf, n = w ++ suf /\ at_eol suf = true /\ glob (kept per m) w.
Proof.
  intros Hn Hlen. unfold ere_match. rewrite irc_to_ere_items.
  destruct (mask_compiles (kept per m)) as (Hr & re & Hre & Ha & Hi). rewrite Hre.
  assert (Hb : cbytes n) by (eapply Forall_impl; [exact Hn|]; intros c; simpl; lia).
  rewrite <- (mask_ast_den _ _ Hb).
  pose proof (compiled_match _ _ _ Hre n _ Hr Hb Hlen) as Hm. unfold regex_span in Hm.
  rewrite Hi in Hm. transitivity (op_regex_match re n = true).
  { by destruct (op_regex_match re n). }
  rewrite Hm. split.
  - intros (pre & suf & e & -> & Hp & Hd). rewrite (Hp Ha) in *. by exists e.
  - intros [e Hd]. by exists [], n, e.
Qed.

(** Without a newline in the text and with room for every item, the match is of the
    whole text. *)
Lemma ere_match_whole m n per :
  cstr n -> Z.of_nat (length n) < 2 ^ 32 - 2 -> ~ In 10 n -> kept per m = items per m ->
  ere_match m n per = 1 <-> glob (items per m) n.
Proof.
  intros Hn Hlen Hnl Hk. rewrite ere_match_correct, Hk by done. split.
  - intros (w & suf & -> & He & Hg). destruct suf as [|c suf]; [by rewrite app_nil_r|].
    simpl in He. bool_lia. exfalso. apply Hnl, in_app_iff. right. by left.
  - intros Hg. exists n, []. rewrite app_nil_r. done.
Qed.

(** Short masks keep all their items: an item takes at most 5 bytes of the buffer,
    and at most 2 without the extended wildcards. *)
Lemma fit_all its : forall e len,
  len + Z.of_nat (length (concat (map ere_of its))) <= e -> fit e len its = its.
Proof.
  induction its as [|it its IH]; intros e len H; cbn [fit]; [done|].
  cbn [map concat] in H. rewrite length_app, Nat2Z.inj_add in H.
  assert (Hf : item_fits e len it = true).
  { clear IH. unfold item_fits. revert H. destruct it as [| | | |c]; cbn [ere_of];
      try (destruct (mem c regex_meta)); simpl length; intros H; apply andb_true_iff;
      rewrite ?Z.ltb_lt, ?Z.leb_le; (split; [lia|done || lia]). }
  rewrite Hf, IH; [done|lia].
Qed.

Lemma items_width (per : bool) n : forall m,
  Z.of_nat (length (concat (map ere_of (mask_items n per m)))) <=
  (if per then 5 else 2) * Z.of_nat (length m).
Proof.
  induction n as [|n IH]; intros m; cbn [mask_items]; [simpl; case_if; lia|].
  destruct m as [|c m1]; [simpl; destruct per; lia|].
  assert (Hit : forall it m', (length m' <= length m1)%nat ->
    Z.of_nat (length (ere_of it)) <= (if per then 5 else 2) ->
    Z.of_nat (length (concat (map ere_of (it :: mask_items n per m')))) <=
    (if per then 5 else 2) * Z.of_nat (length (c :: m1))).
  { intros it m' Hl Hw. cbn [map concat]. rewrite length_app, Nat2Z.inj_add.
    specialize (IH m'). simpl length. destruct per; lia. }
  assert (Hlit : forall d, Z.of_nat (length (ere_of (GLit d))) <= (if per then 5 else 2)).
  { intros d. cbn [ere_of]. destruct (mem d regex_meta), per; simpl; lia. }
  assert (Hskip : forall test, test c = true ->
    (length (skip_while test (c :: m1)) <= length m1)%nat).
  { intros test Ht. simpl. rewrite Ht. apply skip_while_length. }
  destruct (per && (c =? ch "\")).
  { destruct m1 as [|d m2]; [simpl; destruct per; lia|]. apply Hit; [simpl; lia|apply Hlit]. }
  destruct (c =? ch "*") eqn:E1.
  { apply Hit; [|simpl; destruct per; lia]. apply Hskip. by rewrite Z.eqb_sym. }
  destruct (c =? ch "?"); [apply Hit; [done|simpl; destruct per; lia]|].
  destruct per; simpl andb; cbv iota; [|apply Hit; [done|apply Hlit]].
  destruct (c =? ch "%") eqn:E2.
  { apply Hit; [|simpl; lia]. apply Hskip. by rewrite Z.eqb_sym. }
  destruct (c =? ch "~") eqn:E3; apply Hit; try done; try apply Hlit.
  apply Hskip. by rewrite E3.
Qed.

Lemma kept_short (per : bool) m :
  (if per then 5 else 2) * Z.of_nat (length m) <= 1021 -> kept per m = items per m.
Proof.
  intros H. apply fit_all. unfold items. pose proof (items_width per (length m) m). lia.
Qed.

Lemma wild_match_nonempty m n : m <> [] -> n <> [] -> _wild_match m n = ere_match m n false.
Proof. by destruct m, n. Qed.

(** C16. [_wild_match] is glob matching, on every mask and every text: it succeeds
    exactly when both strings are non-empty and the items of the mask that fit the
    buffer match the text, or a prefix of it that ends at a newline, regardless of
    case. *)
Theorem wild_match_correct m n :
  cstr n -> Z.of_nat (length n) < 2 ^ 32 - 2 ->
  _wild_match m n = 1 <->
  m <> [] /\ n <> [] /\
  exists w suf, n = w ++ suf /\ at_eol suf = true /\ glob (kept false m) w.
Proof.
  intros Hn Hlen. unfold _wild_match. destruct m as [|a m]; [by split; [|intros [? _]]|].
  destruct n as [|b n]; [by split; [|intros (_ & ? & _)]|].
  rewrite ere_match_correct by done. split; [|tauto]. intros H. split_and!; done.
Qed.

Lemma wild_match_correct_witness :
  _wild_match (bs "*!*@*.Example.com") (bs "nick!user@host.example.COM") = 1 <->
  bs "*!*@*.Example.com" <> [] /\ bs "nick!user@host.example.COM" <> [] /\
  exists w suf, bs "nick!user@host.example.COM" = w ++ suf /\ at_eol suf = true /\
    glob (kept false (bs "*!*@*.Example.com")) w.
Proof.
  apply wild_match_correct.
  - unfold cstr. cbv. repeat constructor.
  - reflexivity.
Defined.

(** [wild_match_per] with the extended wildcards: for masks of up to 204 bytes
    and texts without a newline, it is glob matching of the whole text, where [%]
    stands for any run of non-spaces, [~] for one or more spaces and a backslash
    quotes the next character. *)
Theorem wild_match_per_correct m n cmp1 :
  cstr n -> Z.of_nat (length n) < 2 ^ 32 - 2 -> n <> [] -> ~ In 10 n ->
  5 * Z.of_nat (length m) <= 1021 ->
  _wild_match_per m n (Some cmp1) = 1 <-> glob (items true m) n.
Proof.
  intros Hn Hlen Hne Hnl Hm. unfold _wild_match_per. destruct n as [|b n]; [done|].
  rewrite ere_match_whole; [done|done|done|done|]. by apply (kept_short true).
Qed.

Lemma wild_match_per_correct_witness :
  (_wild_match_per (bs "!op~%\*") (bs "!op  #chan*") (Some Z.sub) = 1 <->
   glob (items true (bs "!op~%\*")) (bs "!op  #chan*")) /\
  _wild_match_per (bs "!op~%\*") (bs "!op  #chan*") (Some Z.sub) = 1.
Proof.
  split; [|vm_compute; reflexivity]. apply wild_match_per_correct.
  - unfold cstr. cbv. repeat constructor.
  - reflexivity.
  - discriminate.
  - vm_compute. intuition discriminate.
  - vm_compute. discriminate.
Defined.

(** The translation never writes past its buffer, for any mask, mode and buffer
    size: what it stores, with the terminating NUL, fits [outsz] bytes. *)
Theorem irc_to_ere_bound m outsz per ere :
  irc_to_ere m outsz per = Some ere -> Z.of_nat (length ere) + 1 <= outsz.
Proof.
  unfold irc_to_ere. case_if; [done|]. intros [= <-]. bool_lia.
  rewrite ere_loop_items. change (Z.of_nat (length [94])) with 1.
  pose proof (fit_width (mask_items (length m) per m) (outsz - 2) 1 ltac:(lia)) as H.
  rewrite !length_app. simpl length. lia.
Qed.

Lemma irc_to_ere_bound_witness :
  exists ere, irc_to_ere (replicate 600 (ch ".")) 1024 false = Some ere /\
    length ere = 1022%nat /\ Z.of_nat (length ere) + 1 <= 1024.
Proof.
  eexists. split; [vm_compute; reflexivity|]. split; [reflexivity|].
  apply (irc_to_ere_bound (replicate 600 (ch ".")) 1024 false). vm_compute. reflexivity.
Defined.

(** A mask that does not fit the buffer is not refused: the rest of it is
    silently ignored, so a mask of 511 dots and more matches a text its items do
    not match. *)
Theorem long_mask_truncated t :
  let m := replicate 511 (ch ".") ++ t in
  _wild_match m (replicate 510 (ch ".")) = 1 /\ ~ glob (items false m) (replicate 510 (ch ".")).
Proof.
  intros m.
  assert (Hcs : forall k, cstr (replicate k (ch "."))).
  { induction k; simpl; [constructor|]. by apply cstr_cons. }
  assert (Hlit : forall k rest n, (k <= n)%nat ->
    mask_items n false (replicate k (ch ".") ++ rest) =
    replicate k (GLit (ch ".")) ++ mask_items (n - k) false rest).
  { induction k as [|k IH]; intros rest n Hn; simpl; [by rewrite Nat.sub_0_r|].
    destruct n as [|n]; [lia|]. simpl. by rewrite IH by lia. }
  assert (Hitems : items false m = replicate 511 (GLit (ch ".")) ++ items false t).
  { unfold items, m. rewrite length_app, length_replicate, Hlit by lia.
    do 3 f_equal. lia. }
  assert (Hkept : kept false m = replicate 510 (GLit (ch "."))).
  { unfold kept. rewrite Hitems. vm_compute. reflexivity. }
  assert (Hglob : forall k, glob (replicate k (GLit (ch "."))) (replicate k (ch "."))).
  { induction k; simpl; [constructor|by apply glob_lit]. }
  split.
  - rewrite wild_match_nonempty by done.
    apply ere_match_correct; [|by rewrite length_replicate|].
    + apply Hcs.
    + exists (replicate 510 (ch ".")), []. rewrite Hkept. split_and!; [|done|apply Hglob].
      symmetry. apply app_nil_r.
  - rewrite Hitems. intros Hg.
    assert (Hlen : forall k g n, glob (replicate k (GLit (ch ".")) ++ g) n -> (k <= length n)%nat).
    { clear. induction k as [|k IH]; intros g n H; [lia|].
      inversion H; subst. simpl. apply le_n_S. by eapply IH. }
    apply Hlen in Hg. rewrite length_replicate in Hg. lia.
Qed.
