(* ===== verification/Rfc1459.v ===== *)
(** * RFC 1459 case mapping (src/rfc1459.c)

    The branch-free upper and lower-casing, the two comparison functions, and the
    fact that they compare the strings folded to upper case. *)

From S2P Require Import Prelude LibC RegexClass.

(** [(unsigned char)((v <= 0x1Du) << 5)] *)
Definition rfc_step (v : Z) : Z := u8 (Z.shiftl (if v <=? 29 then 1 else 0) 5).

Definition rfc_toupper_fast (c : Z) : Z := u8 (c - rfc_step (u32 (c - 97))).

Definition _rfc_toupper (c : Z) : Z := rfc_toupper_fast (u8 c).
Definition _rfc_tolower (c : Z) : Z := u8 c + rfc_step (u32 (u8 c - 65)).

(** The byte at a pointer: the NUL that ends the string when it is exhausted. *)
Definition byte_at (s : list Z) : Z := match s with c :: _ => c | [] => 0 end.

(** The loop of [_rfc_casecmp]. *)
Fixpoint _rfc_casecmp (a b : list Z) : Z :=
  let ua := rfc_toupper_fast (byte_at a) in
  let ub := rfc_toupper_fast (byte_at b) in
  if negb (ua =? ub) then ua - ub
  else match a with
       | [] => 0
       | _ :: a' => _rfc_casecmp a' (tail b)
       end.

(** [n] is the third argument; a negative one compares nothing. *)
Fixpoint rfc_ncasecmp_loop (n : nat) (a b : list Z) : Z :=
  match n with
  | O => 0
  | S n' =>
      let ua := rfc_toupper_fast (byte_at a) in
      let ub := rfc_toupper_fast (byte_at b) in
      if negb (ua =? ub) then ua - ub
      else match a with
           | [] => 0
           | _ :: a' => rfc_ncasecmp_loop n' a' (tail b)
           end
  end.
Definition _rfc_ncasecmp (a b : list Z) (n : Z) : Z := rfc_ncasecmp_loop (Z.to_nat n) a b.

(** The tables kept for the external callers. *)
Definition rfc_tolowertab : list Z :=
  seqZ 0 65 ++ seqZ 97 30 ++ [95; 96] ++ seqZ 97 30 ++ seqZ 127 129.
Definition rfc_touppertab : list Z :=
  seqZ 0 65 ++ seqZ 65 30 ++ [95; 96] ++ seqZ 65 30 ++ seqZ 127 129.

(** ** Lemmas *)

(** The branch-free code is the range test it encodes. *)
Lemma rfc_toupper_fast_spec c :
  0 <= c < 256 ->
  rfc_toupper_fast c = if (97 <=? c) && (c <=? 126) then c - 32 else c.
Proof.
  intros Hc.
  pose proof (byte_forall (fun c => rfc_toupper_fast c =?
    if (97 <=? c) && (c <=? 126) then c - 32 else c) ltac:(vm_compute; reflexivity) c Hc) as H.
  by apply Z.eqb_eq in H.
Qed.

Lemma rfc_toupper_fast_zero c : 0 <= c < 256 -> rfc_toupper_fast c = 0 <-> c = 0.
Proof. intros Hc. rewrite rfc_toupper_fast_spec by done. case_if; bool_lia. Qed.

Lemma rfc_toupper_fast_byte c : 0 <= c < 256 -> 0 <= rfc_toupper_fast c < 256.
Proof. intros Hc. rewrite rfc_toupper_fast_spec by done. case_if; bool_lia. Qed.

Definition rfc_fold (s : list Z) : list Z := map rfc_toupper_fast s.

Lemma byte_at_range s : cstr s -> 0 <= byte_at s < 256.
Proof. destruct s; simpl; [lia|]. intros H%cstr_cons. lia. Qed.

Lemma byte_at_zero s : cstr s -> byte_at s = 0 <-> s = [].
Proof. destruct s; simpl; [done|]. intros H%cstr_cons. split; [lia|done]. Qed.

Lemma casecmp_zero a : forall b, cstr a -> cstr b ->
  _rfc_casecmp a b = 0 <-> rfc_fold a = rfc_fold b.
Proof.
  induction a as [|x a IH]; intros b Ha Hb; cbn [_rfc_casecmp].
  - change (rfc_toupper_fast (byte_at [])) with 0. destruct b as [|y b]; [done|].
    apply cstr_cons in Hb as [Hy Hb]. pose proof (rfc_toupper_fast_zero y ltac:(lia)).
    cbn [byte_at]. case_if; bool_lia. simpl. split; [lia|done].
  - apply cstr_cons in Ha as [Hx Ha]. cbn [byte_at].
    destruct b as [|y b]; cbn [byte_at tail].
    + pose proof (rfc_toupper_fast_zero x ltac:(lia)). change (rfc_toupper_fast 0) with 0.
      case_if; bool_lia; simpl; split; try done; lia.
    + apply cstr_cons in Hb as [Hy Hb]. simpl.
      destruct (Z.eqb_spec (rfc_toupper_fast x) (rfc_toupper_fast y)) as [E|E]; simpl.
      * rewrite IH by done. rewrite E. split; [congruence|by intros [= ->]].
      * split; [lia|]. intros [= ? ?]. done.
Qed.

Lemma ncasecmp_prefix n : forall a b, cstr a -> cstr b ->
  rfc_ncasecmp_loop n a b = 0 <-> take n (rfc_fold a) = take n (rfc_fold b).
Proof.
  induction n as [|n IH]; intros a b Ha Hb; cbn [rfc_ncasecmp_loop]; [by rewrite !take_0|].
  destruct a as [|x a]; cbn [byte_at].
  - change (rfc_toupper_fast 0) with 0. destruct b as [|y b]; [done|].
    apply cstr_cons in Hb as [Hy Hb]. pose proof (rfc_toupper_fast_zero y ltac:(lia)).
    cbn [byte_at]. case_if; bool_lia. simpl. split; [lia|done].
  - apply cstr_cons in Ha as [Hx Ha].
    destruct b as [|y b]; cbn [byte_at tail].
    + pose proof (rfc_toupper_fast_zero x ltac:(lia)). change (rfc_toupper_fast 0) with 0.
      case_if; bool_lia; simpl; split; try done; lia.
    + apply cstr_cons in Hb as [Hy Hb]. simpl.
      destruct (Z.eqb_spec (rfc_toupper_fast x) (rfc_toupper_fast y)) as [E|E]; simpl.
      * rewrite IH by done. rewrite E. split; [congruence|by intros [= ->]].
      * split; [lia|]. intros [= ? ?]. done.
Qed.

(** ** The theorems *)

(** [_rfc_casecmp] is equality of the strings folded to upper case, and
    [_rfc_ncasecmp] equality of their first [n] bytes: both are equivalences on
    names, whatever bytes the names hold. *)
Theorem rfc_casecmp_correct a b n :
  cstr a -> cstr b ->
  (_rfc_casecmp a b = 0 <-> rfc_fold a = rfc_fold b) /\
  (_rfc_ncasecmp a b n = 0 <-> take (Z.to_nat n) (rfc_fold a) = take (Z.to_nat n) (rfc_fold b)).
Proof. intros Ha Hb. split; [by apply casecmp_zero|by apply ncasecmp_prefix]. Qed.

Lemma rfc_casecmp_correct_witness :
  (_rfc_casecmp (bs "Nick[a]") (bs "nICK{A}") = 0 <->
     rfc_fold (bs "Nick[a]") = rfc_fold (bs "nICK{A}")) /\
  (_rfc_ncasecmp (bs "Nick[a]") (bs "nICK{A}") 5 = 0 <->
     take 5 (rfc_fold (bs "Nick[a]")) = take 5 (rfc_fold (bs "nICK{A}"))).
Proof.
  apply (rfc_casecmp_correct (bs "Nick[a]") (bs "nICK{A}") 5);
    unfold cstr; cbv; repeat constructor.
Defined.

(** The branch-free case mappings are the tables they replace, on all 256
    bytes, and each undoes the other on its own range. *)
Theorem rfc_case_tables c :
  0 <= c < 256 ->
  nth (Z.to_nat c) rfc_touppertab 0 = _rfc_toupper c /\
  nth (Z.to_nat c) rfc_tolowertab 0 = _rfc_tolower c /\
  _rfc_toupper (_rfc_tolower c) = _rfc_toupper c /\
  _rfc_tolower (_rfc_toupper c) = _rfc_tolower c.
Proof.
  intros Hc.
  pose proof (byte_forall (fun c =>
    (nth (Z.to_nat c) rfc_touppertab 0 =? _rfc_toupper c) &&
    (nth (Z.to_nat c) rfc_tolowertab 0 =? _rfc_tolower c) &&
    (_rfc_toupper (_rfc_tolower c) =? _rfc_toupper c) &&
    (_rfc_tolower (_rfc_toupper c) =? _rfc_tolower c))
    ltac:(vm_compute; reflexivity) c Hc) as H.
  apply andb_prop in H as [H H4]. apply andb_prop in H as [H H3]. apply andb_prop in H as [H1 H2].
  by rewrite !Z.eqb_eq in *.
Qed.

Lemma rfc_case_tables_witness :
  nth 123 rfc_touppertab 0 = _rfc_toupper 123 /\ nth 123 rfc_tolowertab 0 = _rfc_tolower 123 /\
  _rfc_toupper (_rfc_tolower 123) = _rfc_toupper 123 /\
  _rfc_tolower (_rfc_toupper 123) = _rfc_tolower 123.
Proof. apply (rfc_case_tables 123). lia. Defined.
