(* ===== verification/Inet.v ===== *)
(** * Textual IP addresses (libop/src/commio.c, src/match.c)

    [inet_pton4], [inet_pton6] and [op_inet_pton], with their 4- and 16-byte
    buffers, and the bitwise prefix comparison [comp_with_mask]. *)

From S2P Require Import Prelude LibC RegexPrint RegexCount.

Definition INADDRSZ : nat := 4.
Definition IN6ADDRSZ : nat := 16.
Definition INT16SZ : nat := 2.
Definition HOSTIPLEN : Z := 53.
Definition AF_INET : Z := 2.
Definition AF_INET6 : Z := 10.

(** ** [inet_pton4] *)

(** The locals of the loop: [tmp] with [*tp], [tp - tmp], [saw_digit], [octets]. *)
Record p4_state := mk_p4 {
  p4_tmp : list Z;
  p4_tp : nat;
  p4_saw : bool;
  p4_octets : nat
}.

Definition p4_step (st : p4_state) (c : Z) : option p4_state :=
  if isdigit c then
    let new := u32 (nth (p4_tp st) (p4_tmp st) 0 * 10 + (c - 48)) in
    if 255 <? new then None
    else
      let tmp := <[p4_tp st := new]> (p4_tmp st) in
      if p4_saw st then Some (mk_p4 tmp (p4_tp st) true (p4_octets st))
      else if (4 <? S (p4_octets st))%nat then None
      else Some (mk_p4 tmp (p4_tp st) true (S (p4_octets st)))
  else if (c =? ch ".") && p4_saw st then
    if (p4_octets st =? 4)%nat then None
    else Some (mk_p4 (<[S (p4_tp st) := 0]> (p4_tmp st)) (S (p4_tp st)) false (p4_octets st))
  else None.

Fixpoint p4_loop (st : p4_state) (src : list Z) : option p4_state :=
  match src with
  | [] => Some st
  | c :: src' => match p4_step st c with Some st' => p4_loop st' src' | None => None end
  end.

(** [Some dst] is the return value 1; only [tmp[0]] is initialised, and every byte
    is set before it is read. *)
Definition inet_pton4 (src : list Z) : option (list Z) :=
  match p4_loop (mk_p4 (replicate INADDRSZ 0) 0 false 0) src with
  | Some st => if (p4_octets st <? 4)%nat then None else Some (p4_tmp st)
  | None => None
  end.

(** ** [inet_pton6] *)

Definition xdigits : list Z := bs "0123456789abcdef".

(** [strchr(xdigits, ch) - xdigits] *)
Definition xdigit_val (c : Z) : option Z :=
  let fix find (i : Z) (l : list Z) :=
    match l with
    | [] => None
    | d :: l' => if d =? c then Some i else find (i + 1) l'
    end in
  find 0 xdigits.

Record p6_state := mk_p6 {
  p6_tmp : list Z;
  p6_tp : nat;
  p6_colonp : option nat;
  p6_curtok : list Z;
  p6_saw : bool;
  p6_val : Z
}.

(** [*tp++ = val >> 8; *tp++ = val], after the test that there is room. *)
Definition p6_put (st : p6_state) : option p6_state :=
  if (IN6ADDRSZ <? p6_tp st + INT16SZ)%nat then None
  else Some (mk_p6
    (<[S (p6_tp st) := Z.land (u8 (p6_val st)) 255]>
       (<[p6_tp st := Z.land (u8 (Z.shiftr (p6_val st) 8)) 255]> (p6_tmp st)))
    (p6_tp st + 2) (p6_colonp st) (p6_curtok st) (p6_saw st) (p6_val st)).

(** Four bytes stored from index [i]. *)
Fixpoint store (i : nat) (bytes tmp : list Z) : list Z :=
  match bytes with
  | [] => tmp
  | b :: bytes' => store (S i) bytes' (<[i := b]> tmp)
  end.

(** The loop; [src] is the pointer before the read. *)
Fixpoint p6_loop (st : p6_state) (src : list Z) : option p6_state :=
  match src with
  | [] => Some st
  | c0 :: src' =>
      let c := tolower c0 in
      match xdigit_val c with
      | Some x =>
          let val := u32 (Z.lor (u32 (Z.shiftl (p6_val st) 4)) x) in
          if 65535 <? val then None
          else p6_loop (mk_p6 (p6_tmp st) (p6_tp st) (p6_colonp st) (p6_curtok st) true val) src'
      | None =>
          if c =? ch ":" then
            if negb (p6_saw st) then
              match p6_colonp st with
              | Some _ => None
              | None => p6_loop (mk_p6 (p6_tmp st) (p6_tp st) (Some (p6_tp st)) src'
                                       false (p6_val st)) src'
              end
            else match src' with
                 | [] => None
                 | _ =>
                     match p6_put st with
                     | None => None
                     | Some st => p6_loop (mk_p6 (p6_tmp st) (p6_tp st) (p6_colonp st) src'
                                                 false 0) src'
                     end
                 end
          else if negb (bool_decide (src' = [])) && (c =? ch ".") then
            if (p6_tp st + INADDRSZ <=? IN6ADDRSZ)%nat then
              match inet_pton4 (p6_curtok st) with
              | Some q => Some (mk_p6 (store (p6_tp st) q (p6_tmp st)) (p6_tp st + 4)
                                      (p6_colonp st) (p6_curtok st) false (p6_val st))
              | None => None
              end
            else None
          else p6_loop st src'                      (* any other byte is skipped *)
      end
  end.

(** The shift by hand: [endp[-i] = colonp[n - i]; colonp[n - i] = 0], for i = 1..n. *)
Fixpoint p6_shift (i n colonp : nat) (k : nat) (tmp : list Z) : list Z :=
  match k with
  | O => tmp
  | S k' =>
      let tmp := <[(IN6ADDRSZ - i)%nat := nth (colonp + (n - i))%nat tmp 0]> tmp in
      let tmp := <[(colonp + (n - i))%nat := 0]> tmp in
      p6_shift (S i) n colonp k' tmp
  end.

Definition p6_finish (st : p6_state) : option (list Z) :=
  match (if p6_saw st then p6_put st else Some st) with
  | None => None
  | Some st =>
      match p6_colonp st with
      | Some cp =>
          if (p6_tp st =? IN6ADDRSZ)%nat then None
          else let n := (p6_tp st - cp)%nat in Some (p6_shift 1 n cp n (p6_tmp st))
      | None => if (p6_tp st =? IN6ADDRSZ)%nat then Some (p6_tmp st) else None
      end
  end.

(** A leading colon must be doubled, and the first one is dropped. *)
Definition inet_pton6 (src : list Z) : option (list Z) :=
  let start :=
    match src with
    | 58 :: src' => match src' with 58 :: _ => Some src' | _ => None end
    | _ => Some src
    end in
  match start with
  | None => None
  | Some src =>
      match p6_loop (mk_p6 (replicate IN6ADDRSZ 0) 0 None src false 0) src with
      | None => None
      | Some st => p6_finish st
      end
  end.

(** [op_inet_pton]: the return value and the stored bytes; -1 for another family. *)
Definition op_inet_pton (af : Z) (src : list Z) : Z * list Z :=
  let ret r := match r with Some d => (1, d) | None => (0, []) end in
  if af =? AF_INET then ret (inet_pton4 src)
  else if af =? AF_INET6 then
    match inet_pton4 src with
    | Some _ =>
        (* snprintf into char tmp[HOSTIPLEN] *)
        ret (inet_pton6 (take (Z.to_nat (HOSTIPLEN - 1)) (bs "::ffff:" ++ src)))
    | None => ret (inet_pton6 src)
    end
  else (-1, []).

(** ** [comp_with_mask] *)

Definition comp_with_mask (addr dest : list Z) (mask : Z) : bool :=
  let k := Z.to_nat (mask / 8) in
  if negb (bool_decide (take k addr = take k dest)) then false
  else if mask mod 8 =? 0 then true
  else
    let m := u8 (Z.shiftl 255 (8 - mask mod 8)) in
    Z.land (nth k addr 0) m =? Z.land (nth k dest 0) m.

Example pton6_ex1 : inet_pton6 (bs "fe80::1:2") =
  Some [254; 128; 0; 0; 0; 0; 0; 0; 0; 0; 0; 0; 0; 1; 0; 2].
Proof. vm_compute. reflexivity. Qed.
Example pton6_ex2 : inet_pton6 (bs "::ffff:192.168.1.2") =
  Some [0; 0; 0; 0; 0; 0; 0; 0; 0; 0; 255; 255; 192; 168; 1; 2].
Proof. vm_compute. reflexivity. Qed.

(** ** Dotted quads *)

(** [quad k s vs]: [s] is [k] decimal numbers from 0 to 255 separated by dots, [vs]
    their values. *)
Inductive quad : nat -> list Z -> list Z -> Prop :=
| quad_last ds : digits ds -> ds <> [] -> dec_value ds <= 255 -> quad 1 ds [dec_value ds]
| quad_cons k ds s vs :
    digits ds -> ds <> [] -> dec_value ds <= 255 -> quad k s vs ->
    quad (S k) (ds ++ ch "." :: s) (dec_value ds :: vs).

Definition dec_from (v : Z) (ds : list Z) : Z := fold_left (fun a d => a * 10 + (d - 48)) ds v.

Lemma dec_from_ge ds : forall v, digits ds -> 0 <= v -> v <= dec_from v ds.
Proof.
  induction ds as [|d ds IH]; intros v Hd Hv; [simpl; lia|].
  change (dec_from v (d :: ds)) with (dec_from (v * 10 + (d - 48)) ds).
  apply Forall_cons in Hd as [Hc Hd]. unfold isdigit, in_range in Hc. bool_lia.
  specialize (IH (v * 10 + (d - 48)) Hd ltac:(lia)). lia.
Qed.

(** A run of digits inside an octet. *)
Lemma p4_run ds : forall tmp tp o v rest,
  digits ds -> tmp !! tp = Some v -> 0 <= v <= 255 ->
  p4_loop (mk_p4 tmp tp true o) (ds ++ rest) =
  if 255 <? dec_from v ds then None
  else p4_loop (mk_p4 (<[tp := dec_from v ds]> tmp) tp true o) rest.
Proof.
  induction ds as [|d ds IH]; intros tmp tp o v rest Hd Hv Hr.
  - simpl. rewrite (proj2 (Z.ltb_ge 255 v)) by lia. by rewrite list_insert_id.
  - apply Forall_cons in Hd as [Hc Hd]. cbn [app p4_loop].
    unfold p4_step. cbn [p4_tmp p4_tp p4_saw p4_octets]. rewrite Hc.
    rewrite (nth_lookup_Some _ _ _ _ Hv).
    unfold isdigit, in_range in Hc. bool_lia.
    rewrite u32_small by lia. change (dec_from v (d :: ds)) with (dec_from (v * 10 + (d - 48)) ds).
    pose proof (dec_from_ge ds (v * 10 + (d - 48)) Hd ltac:(lia)) as Hge.
    destruct (Z.ltb_spec 255 (v * 10 + (d - 48))) as [Hlt|Hle].
    + by rewrite (proj2 (Z.ltb_lt 255 _)) by lia.
    + rewrite (IH _ _ _ (v * 10 + (d - 48))); [|done| |lia].
      * by rewrite list_insert_insert_eq.
      * apply list_lookup_insert_eq. by eapply lookup_lt_Some.
Qed.

(** One octet from its first digit, and what must follow it. *)
Definition p4_fresh (tmp : list Z) (tp : nat) : p4_state := mk_p4 tmp tp false tp.

Lemma p4_octet ds tmp tp rest :
  digits ds -> ds <> [] -> (tp < 4)%nat -> tmp !! tp = Some 0 ->
  p4_loop (p4_fresh tmp tp) (ds ++ rest) =
  if 255 <? dec_value ds then None
  else p4_loop (mk_p4 (<[tp := dec_value ds]> tmp) tp true (S tp)) rest.
Proof.
  intros Hd Hne Htp H0. destruct ds as [|d ds]; [done|]. apply Forall_cons in Hd as [Hc Hd].
  assert (Hlen : (tp < length tmp)%nat) by (by eapply lookup_lt_Some).
  cbn [app p4_loop]. unfold p4_step, p4_fresh. cbn [p4_tmp p4_tp p4_saw p4_octets]. rewrite Hc.
  rewrite (nth_lookup_Some _ _ _ _ H0). unfold isdigit, in_range in Hc. bool_lia.
  rewrite u32_small by lia. simpl (0 * 10).
  rewrite (proj2 (Z.ltb_ge 255 _)) by lia. rewrite (proj2 (Nat.ltb_ge 4 _)) by lia.
  rewrite (p4_run ds _ _ _ (0 + (d - 48))); [|done|by apply list_lookup_insert_eq|lia].
  rewrite list_insert_insert_eq. change (dec_from (0 + (d - 48)) ds) with (dec_value (d :: ds)). done.
Qed.

(** The reference: split the string at its digits. *)
Fixpoint inet4_ref (k : nat) (s : list Z) : option (list Z) :=
  let '(ds, rest) := span_digits s in
  if bool_decide (ds = []) then None
  else if 255 <? dec_value ds then None
  else match k, rest with
       | 1%nat, [] => Some [dec_value ds]
       | S (S _ as k'), 46 :: rest' => cons (dec_value ds) <$> inet4_ref k' rest'
       | _, _ => None
       end.

Lemma span_digits_spec s :
  digits (fst (span_digits s)) /\
  match snd (span_digits s) with c :: _ => isdigit c = false | [] => True end.
Proof.
  induction s as [|c s [IH1 IH2]]; simpl; [by repeat constructor|].
  case_if; simpl; [|by split; [constructor|]].
  destruct (span_digits s) as [d r]. simpl in *. split; [by constructor|done].
Qed.

Lemma inet4_ref_quad k : forall s vs, inet4_ref k s = Some vs <-> quad k s vs.
Proof.
  assert (Hsp : forall ds rest, digits ds ->
    match rest with c :: _ => isdigit c = false | [] => True end ->
    span_digits (ds ++ rest) = (ds, rest)).
  { intros ds [|c rest] Hd Hc; [|by apply span_digits_run]. rewrite app_nil_r. clear Hc.
    induction Hd as [|d ds H Hd IH]; simpl; [done|]. by rewrite H, IH. }
  induction k as [|k IH]; intros s vs.
  - split; [|inversion 1]. simpl. destruct (span_digits s). by repeat case_if.
  - split.
    + cbn [inet4_ref]. pose proof (span_digits_app s) as Happ.
      destruct (span_digits_spec s) as [Hd _]. destruct (span_digits s) as [ds rest].
      simpl in Happ, Hd. subst s. case_bool_decide as Hne; [done|].
      case_if; [done|]. bool_lia. destruct k as [|k'].
      * destruct rest; [|done]. intros [= <-]. rewrite app_nil_r. by apply quad_last.
      * destruct rest as [|c rest]; [done|].
        destruct (Z.eqb_spec c 46) as [->|Hc].
        -- intros (vs' & Hq%IH & ->)%fmap_Some. by apply quad_cons.
        -- intros H. exfalso. destruct c as [|c|c]; try done.
           do 6 (destruct c as [c|c|]; try done).
    + intros Hq. inversion Hq as [ds Hd Hne Hv|? ds s' vs' Hd Hne Hv Hq']; subst; cbn [inet4_ref].
      * pose proof (Hsp s [] Hd I) as Hs. rewrite app_nil_r in Hs. rewrite Hs.
        rewrite bool_decide_false by done.
        by rewrite (proj2 (Z.ltb_ge 255 _)) by done.
      * rewrite Hsp by done. rewrite bool_decide_false by done.
        rewrite (proj2 (Z.ltb_ge 255 _)) by done.
        assert (exists k', k = S k') as [k' ->] by (inversion Hq'; eauto).
        apply IH in Hq'. by rewrite Hq'.
Qed.

(** The state machine computes the reference: from the start of octet [tp], with the
    earlier octets stored. *)
Lemma p4_loop_ref k : forall pre s,
  (length pre + k = 4)%nat -> (1 <= k)%nat ->
  match p4_loop (p4_fresh (pre ++ replicate k 0) (length pre)) s with
  | Some st => if (p4_octets st <? 4)%nat then None else Some (p4_tmp st)
  | None => None
  end = (pre ++.) <$> inet4_ref k s.
Proof.
  induction k as [|k IH]; intros pre s Hk Hk1; [lia|]. cbn [inet4_ref].
  pose proof (span_digits_app s) as Happ. destruct (span_digits_spec s) as [Hd Hc].
  destruct (span_digits s) as [ds rest]. simpl in Happ, Hd, Hc. subst s.
  assert (H0 : (pre ++ replicate (S k) 0) !! length pre = Some 0)
    by (by rewrite lookup_app_r, Nat.sub_diag by lia).
  case_bool_decide as Hne.
  - subst ds. simpl app. destruct rest as [|c rest]; simpl p4_loop.
    + simpl. rewrite (proj2 (Nat.ltb_lt _ 4)) by lia. done.
    + unfold p4_step. simpl. rewrite Hc, andb_false_r. done.
  - rewrite p4_octet by (done || lia). destruct (255 <? dec_value ds) eqn:Ev; [done|].
    assert (Hins : <[length pre := dec_value ds]> (pre ++ replicate (S k) 0) =
                   (pre ++ [dec_value ds]) ++ replicate k 0).
    { rewrite insert_app_r_alt, Nat.sub_diag by lia. simpl. by rewrite <- app_assoc. }
    rewrite Hins. destruct rest as [|c rest].
    + simpl p4_loop. cbv iota. simpl p4_octets. destruct k as [|[|k]].
      * rewrite (proj2 (Nat.ltb_ge _ 4)) by lia. simpl. by rewrite app_nil_r.
      * by rewrite (proj2 (Nat.ltb_lt _ 4)) by lia.
      * by rewrite (proj2 (Nat.ltb_lt _ 4)) by lia.
    + cbn [p4_loop]. unfold p4_step. cbn [p4_tmp p4_tp p4_saw p4_octets]. rewrite Hc.
      destruct (Z.eqb_spec c (ch ".")) as [->|Hdot]; simpl andb; cbv iota.
      * destruct k as [|k'].
        -- rewrite (proj2 (Nat.eqb_eq _ 4)) by lia. done.
        -- rewrite (proj2 (Nat.eqb_neq _ 4)) by lia.
           assert (Hz : <[S (length pre) := 0]> ((pre ++ [dec_value ds]) ++ replicate (S k') 0) =
                        (pre ++ [dec_value ds]) ++ replicate (S k') 0).
           { apply list_insert_id. rewrite lookup_app_r by (rewrite length_app; simpl; lia).
             rewrite length_app. simpl. by replace (_ - _)%nat with 0%nat by lia. }
           rewrite Hz. specialize (IH (pre ++ [dec_value ds]) rest).
           rewrite length_app in IH. simpl length in IH.
           replace (length pre + 1)%nat with (S (length pre)) in IH by lia.
           unfold p4_fresh in IH. rewrite IH by lia.
           destruct (inet4_ref (S k') rest); simpl; [|done]. by rewrite <- app_assoc.
      * assert (Hno : forall A (x y : option A), match c with 46 => x | _ => y end = y).
        { intros A x y. destruct c as [|c|c]; try done. do 6 (destruct c as [c|c|]; try done). }
        destruct k as [|k']; [done|]. by rewrite Hno.
Qed.

Lemma inet_pton4_ref s : inet_pton4 s = inet4_ref 4 s.
Proof.
  etrans; [exact (p4_loop_ref 4 [] s eq_refl ltac:(lia))|].
  by destruct (inet4_ref 4 s).
Qed.

(** ** Prefix comparison *)

Definition byte_bits (b : Z) : list bool := map (fun i => Z.testbit b (7 - Z.of_nat i)) (seq 0 8).
(** An address as bits, most significant first. *)
Definition addr_bits (a : list Z) : list bool := concat (map byte_bits a).

Lemma mask_bits r i :
  1 <= r <= 7 -> 0 <= i ->
  Z.testbit (u8 (Z.shiftl 255 (8 - r))) i = (8 - r <=? i) && (i <? 8).
Proof.
  intros Hr Hi. unfold u8. destruct (Z.ltb_spec i 8) as [Hlt|Hge].
  - rewrite Z.mod_pow2_bits_low by lia. rewrite Z.shiftl_spec by lia. change 255 with (Z.ones 8).
    rewrite andb_true_r. destruct (Z.leb_spec (8 - r) i).
    + apply Z.ones_spec_low. lia.
    + apply Z.testbit_neg_r. lia.
  - rewrite Z.mod_pow2_bits_high by lia. by rewrite andb_false_r.
Qed.

(** Comparing under the mask is comparing the top [r] bits. *)
Lemma land_mask_bits x y r :
  1 <= r <= 7 ->
  Z.land x (u8 (Z.shiftl 255 (8 - r))) = Z.land y (u8 (Z.shiftl 255 (8 - r))) <->
  take (Z.to_nat r) (byte_bits x) = take (Z.to_nat r) (byte_bits y).
Proof.
  intros Hr. split.
  - intros H. apply list_eq. intros i.
    destruct (decide (i < Z.to_nat r)%nat) as [Hi|Hi]; [|by rewrite !lookup_take_ge by lia].
    rewrite !lookup_take_lt by done. unfold byte_bits. rewrite !list_lookup_fmap.
    rewrite lookup_seq_lt by lia. simpl. f_equal.
    assert (Hb := f_equal (fun z => Z.testbit z (7 - Z.of_nat i)) H). simpl in Hb.
    rewrite !Z.land_spec, !mask_bits in Hb by lia.
    rewrite (proj2 (Z.leb_le (8 - r) _)), (proj2 (Z.ltb_lt _ 8)) in Hb by lia.
    by rewrite !andb_true_r in Hb.
  - intros H. apply Z.bits_inj'. intros n Hn. rewrite !Z.land_spec, !mask_bits by lia.
    destruct (Z.leb_spec (8 - r) n), (Z.ltb_spec n 8); simpl; rewrite ?andb_false_r; try done.
    rewrite !andb_true_r.
    assert (Hl := f_equal (fun l => l !! Z.to_nat (7 - n)) H). simpl in Hl.
    rewrite !lookup_take_lt in Hl by lia. unfold byte_bits in Hl.
    rewrite !list_lookup_fmap, lookup_seq_lt in Hl by lia. simpl in Hl.
    injection Hl as Hl. by replace (7 - Z.of_nat (Z.to_nat (7 - n))) with n in Hl by lia.
Qed.

Lemma byte_bits_inj x y : 0 <= x < 256 -> 0 <= y < 256 -> byte_bits x = byte_bits y -> x = y.
Proof.
  intros Hx Hy H. apply Z.bits_inj'. intros n Hn.
  destruct (Z.ltb_spec n 8) as [Hlt|Hge].
  - assert (Hl := f_equal (fun l => l !! Z.to_nat (7 - n)) H). simpl in Hl.
    unfold byte_bits in Hl. rewrite !list_lookup_fmap, lookup_seq_lt in Hl by lia. simpl in Hl.
    injection Hl as Hl. by replace (7 - Z.of_nat (Z.to_nat (7 - n))) with n in Hl by lia.
  - assert (Hz : forall z, 0 <= z < 256 -> Z.testbit z n = false).
    { intros z Hz. destruct (Z.eq_dec z 0) as [->|]; [apply Z.bits_0|].
      apply Z.bits_above_log2; [lia|]. assert (Z.log2 z < 8) by (apply Z.log2_lt_pow2; lia). lia. }
    by rewrite !Hz.
Qed.

Lemma addr_bits_inj a : forall b,
  Forall (fun c => 0 <= c < 256) a -> Forall (fun c => 0 <= c < 256) b ->
  length a = length b -> addr_bits a = addr_bits b -> a = b.
Proof.
  induction a as [|x a IH]; intros [|y b] Ha Hb Hl H; try done.
  apply Forall_cons in Ha as [Hx Ha]. apply Forall_cons in Hb as [Hy Hb].
  apply app_inj_1 in H as [H1 H2]; [|done]. f_equal; [by apply byte_bits_inj|].
  apply IH; [done|done|by injection Hl|done].
Qed.

(** The first [8 k + r] bits of an address. *)
Lemma take_addr_bits a k r :
  (k < length a)%nat -> (r < 8)%nat ->
  take (8 * k + r) (addr_bits a) = addr_bits (take k a) ++ take r (byte_bits (nth k a 0)).
Proof.
  revert k; induction a as [|x a IH]; intros k Hk Hr; [simpl in Hk; lia|].
  destruct k as [|k].
  - unfold addr_bits. cbn [map concat take nth]. rewrite take_app_le; [done|]. simpl. lia.
  - unfold addr_bits. cbn [map concat take nth]. rewrite <- app_assoc.
    replace (8 * S k + r)%nat with (length (byte_bits x) + (8 * k + r))%nat by (simpl; lia).
    rewrite take_app_add. f_equal. apply IH; [simpl in Hk; lia|done].
Qed.

Lemma take_addr_bits_whole a k :
  take (8 * k) (addr_bits a) = addr_bits (take k a).
Proof.
  revert k; induction a as [|x a IH]; intros [|k]; try done.
  unfold addr_bits. cbn [map concat take].
  replace (8 * S k)%nat with (length (byte_bits x) + (8 * k))%nat by (simpl; lia).
  rewrite take_app_add. f_equal. apply IH.
Qed.

Lemma comp_with_mask_bits a b mask :
  Forall (fun c => 0 <= c < 256) a -> Forall (fun c => 0 <= c < 256) b ->
  length a = length b -> 0 <= mask <= 8 * Z.of_nat (length a) ->
  comp_with_mask a b mask = true <->
  take (Z.to_nat mask) (addr_bits a) = take (Z.to_nat mask) (addr_bits b).
Proof.
  intros Ha Hb Hl Hm. unfold comp_with_mask. set (k := Z.to_nat (mask / 8)).
  pose proof (Z.mod_pos_bound mask 8 ltac:(lia)) as Hr.
  pose proof (Z.div_mod mask 8 ltac:(lia)) as Hdm.
  assert (Hdiv : 0 <= mask / 8) by (apply Z.div_pos; lia).
  assert (Hmask : Z.to_nat mask = (8 * k + Z.to_nat (mask mod 8))%nat) by lia.
  assert (Hka : Forall (fun c => 0 <= c < 256) (take k a)) by (by apply Forall_take).
  assert (Hkb : Forall (fun c => 0 <= c < 256) (take k b)) by (by apply Forall_take).
  assert (Hkl : length (take k a) = length (take k b)) by (by rewrite !length_take, Hl).
  rewrite Hmask. destruct (Z.eqb_spec (mask mod 8) 0) as [E|E].
  - rewrite E. simpl Z.to_nat. rewrite Nat.add_0_r, !take_addr_bits_whole.
    case_bool_decide as Hk; simpl.
    + split; [|done]. intros _. by rewrite Hk.
    + split; [done|]. intros H. exfalso. by apply Hk, addr_bits_inj.
  - assert (Hk : (k < length a)%nat) by lia.
    rewrite !take_addr_bits by lia. case_bool_decide as Hk'; simpl.
    + rewrite Hk', Z.eqb_eq, land_mask_bits by lia. split; [by intros ->|].
      by intros H%app_inv_head.
    + split; [done|]. intros H. exfalso. apply Hk'.
      apply app_inj_1 in H as [H _]; [by apply addr_bits_inj|].
      assert (Hlen : forall l : list Z, length (addr_bits l) = (8 * length l)%nat).
      { induction l as [|z l IH]; [done|]. unfold addr_bits in *. cbn [map concat].
        rewrite length_app, IH. simpl. lia. }
      by rewrite !Hlen, Hkl.
Qed.

(** ** Hexadecimal groups *)

Definition hexdigits (g : list Z) : Prop := Forall (fun c => is_Some (xdigit_val (tolower c))) g.

Definition hex_from (v : Z) (g : list Z) : Z :=
  fold_left (fun a c => a * 16 + default 0 (xdigit_val (tolower c))) g v.
Definition hex_value (g : list Z) : Z := hex_from 0 g.

(** A group of an IPv6 address: at least one digit, any number of leading zeros. *)
Definition group (g : list Z) : Prop := g <> [] /\ hexdigits g /\ hex_value g <= 65535.

Definition group_bytes (g : list Z) : list Z := [hex_value g / 256; hex_value g mod 256].
Definition groups_bytes (gs : list (list Z)) : list Z := concat (map group_bytes gs).

Fixpoint join (gs : list (list Z)) : list Z :=
  match gs with
  | [] => []
  | [g] => g
  | g :: gs => g ++ ch ":" :: join gs
  end.

Lemma xdigit_val_range c x : xdigit_val c = Some x -> 0 <= x < 16.
Proof.
  unfold xdigit_val, xdigits. simpl. intros H.
  repeat (case_match; [injection H as <-; lia|]). done.
Qed.

Lemma hex_from_ge g : forall v, hexdigits g -> 0 <= v -> v <= hex_from v g.
Proof.
  induction g as [|c g IH]; intros v Hd Hv; [simpl; lia|]. apply Forall_cons in Hd as [[x Hx] Hd].
  change (hex_from v (c :: g)) with
    (hex_from (v * 16 + default 0 (xdigit_val (tolower c))) g). rewrite Hx. simpl.
  apply xdigit_val_range in Hx. specialize (IH (v * 16 + x) Hd ltac:(lia)). lia.
Qed.

Lemma hex_shift v x : 0 <= v <= 65535 -> 0 <= x < 16 ->
  u32 (Z.lor (u32 (Z.shiftl v 4)) x) = v * 16 + x.
Proof.
  intros Hv Hx. rewrite Z.shiftl_mul_pow2 by lia. change (2 ^ 4) with 16.
  rewrite (u32_small (v * 16)) by lia.
  assert (Hadd : Z.lor (v * 16) x = v * 16 + x).
  { symmetry. rewrite <- Z.lxor_lor.
    - apply Z.add_nocarry_lxor, Z.bits_inj'. intros n Hn. rewrite Z.land_spec, Z.bits_0.
      destruct (Z.ltb_spec n 4).
      + change 16 with (2 ^ 4). rewrite Z.mul_pow2_bits_low by done. done.
      + rewrite andb_comm. destruct (Z.eq_dec x 0) as [->|]; [by rewrite Z.bits_0|].
        rewrite Z.bits_above_log2; [done|lia|].
        assert (Z.log2 x < 4) by (apply Z.log2_lt_pow2; lia). lia.
    - apply Z.bits_inj'. intros n Hn. rewrite Z.land_spec, Z.bits_0.
      destruct (Z.ltb_spec n 4).
      + change 16 with (2 ^ 4). rewrite Z.mul_pow2_bits_low by done. done.
      + rewrite andb_comm. destruct (Z.eq_dec x 0) as [->|]; [by rewrite Z.bits_0|].
        rewrite Z.bits_above_log2; [done|lia|].
        assert (Z.log2 x < 4) by (apply Z.log2_lt_pow2; lia). lia. }
  rewrite Hadd. apply u32_small. lia.
Qed.

Lemma p6_run g : forall tmp tp cp cur saw v rest,
  hexdigits g -> 0 <= v <= 65535 -> hex_from v g <= 65535 ->
  p6_loop (mk_p6 tmp tp cp cur saw v) (g ++ rest) =
  p6_loop (mk_p6 tmp tp cp cur (saw || negb (bool_decide (g = []))) (hex_from v g)) rest.
Proof.
  induction g as [|c g IH]; intros tmp tp cp cur saw v rest Hd Hv Hle.
  - simpl. by rewrite orb_false_r.
  - apply Forall_cons in Hd as [[x Hx] Hd].
    change (hex_from v (c :: g)) with
      (hex_from (v * 16 + default 0 (xdigit_val (tolower c))) g) in *.
    rewrite Hx in *. simpl default in *. pose proof (xdigit_val_range _ _ Hx) as Hr.
    pose proof (hex_from_ge g (v * 16 + x) Hd ltac:(lia)).
    cbn [app p6_loop]. rewrite Hx. cbn [p6_val p6_tmp p6_tp p6_colonp p6_curtok].
    rewrite hex_shift by lia. rewrite (proj2 (Z.ltb_ge 65535 _)) by lia.
    rewrite IH by (done || lia). rewrite orb_true_r. done.
Qed.

(** ** The state of the parser: bytes stored so far, then zeros *)

Definition p6 (d : list Z) (cp : option nat) (cur : list Z) (saw : bool) (v : Z) : p6_state :=
  mk_p6 (d ++ replicate (16 - length d) 0) (length d) cp cur saw v.

Lemma p6_put_app d cp cur saw v :
  (length d + 2 <= 16)%nat -> 0 <= v <= 65535 ->
  p6_put (p6 d cp cur saw v) = Some (p6 (d ++ [v / 256; v mod 256]) cp cur saw v).
Proof.
  intros Hl Hv. unfold p6_put, p6. cbn [p6_tp p6_tmp p6_val p6_colonp p6_curtok p6_saw].
  rewrite (proj2 (Nat.ltb_ge _ _)) by (unfold IN6ADDRSZ, INT16SZ; lia). f_equal.
  assert (Hlo : Z.land (u8 v) 255 = v mod 256).
  { change 255 with (Z.ones 8). rewrite Z.land_ones by lia. unfold u8. by rewrite Zmod_mod. }
  assert (Hhi : Z.land (u8 (Z.shiftr v 8)) 255 = v / 256).
  { change 255 with (Z.ones 8). rewrite Z.land_ones by lia. unfold u8. rewrite Zmod_mod.
    rewrite Z.shiftr_div_pow2 by lia. change (2 ^ 8) with 256. apply Z.mod_small.
    split; [apply Z.div_pos; lia|apply Z.div_lt_upper_bound; lia]. }
  rewrite Hlo, Hhi. f_equal; [|rewrite length_app; simpl; lia].
  replace (16 - length d)%nat with (S (S (16 - length (d ++ [v / 256; v mod 256]))))
    by (rewrite length_app; simpl; lia).
  rewrite (insert_app_r_alt d) by lia. rewrite Nat.sub_diag. simpl.
  rewrite insert_app_r_alt by lia. replace (S (length d) - length d)%nat with 1%nat by lia.
  simpl. by rewrite <- app_assoc.
Qed.

Lemma colon_not_hex : xdigit_val (tolower (ch ":")) = None.
Proof. reflexivity. Qed.

(** A group and the colon after it. *)
Lemma p6_group_colon g d cp cur rest :
  group g -> rest <> [] -> (length d + 2 <= 16)%nat ->
  p6_loop (p6 d cp cur false 0) (g ++ ch ":" :: rest) =
  p6_loop (p6 (d ++ group_bytes g) cp rest false 0) rest.
Proof.
  intros (Hne & Hd & Hv) Hr Hl. pose proof (hex_from_ge g 0 Hd ltac:(lia)) as Hpos.
  unfold p6 at 1. rewrite p6_run by (done || lia). fold (hex_value g) in *.
  rewrite bool_decide_false by done. cbn [orb negb p6_loop]. rewrite colon_not_hex.
  change (tolower (ch ":") =? ch ":") with true. cbn [p6_saw negb]. cbv iota.
  destruct rest as [|c rest]; [done|].
  pose proof (p6_put_app d cp cur true (hex_value g) Hl (conj Hpos Hv)) as Hput.
  unfold p6 in Hput at 1. rewrite Hput. done.
Qed.

Lemma join_cons g g' gs : join (g :: g' :: gs) = g ++ ch ":" :: join (g' :: gs).
Proof. done. Qed.

Lemma join_nonempty g gs : group g -> join (g :: gs) <> [].
Proof. intros (Hne & _). destruct gs; simpl; [done|]. by destruct g. Qed.

Lemma groups_bytes_length gs : length (groups_bytes gs) = (2 * length gs)%nat.
Proof. unfold groups_bytes. induction gs; simpl; [done|]. rewrite IHgs. lia. Qed.

(** The groups up to the end of the text. *)
Lemma p6_join_end gs : forall d cp cur,
  gs <> [] -> Forall group gs -> (length d + 2 * length gs <= 16)%nat ->
  exists st cur' v, p6_loop (p6 d cp cur false 0) (join gs) = Some st /\ p6_saw st = true /\
    p6_put st = Some (p6 (d ++ groups_bytes gs) cp cur' true v).
Proof.
  induction gs as [|g gs IH]; intros d cp cur Hne Hg Hl; [done|].
  apply Forall_cons in Hg as [Hg Hgs]. destruct gs as [|g' gs].
  - pose proof Hg as (Hne' & Hd & Hv). pose proof (hex_from_ge g 0 Hd ltac:(lia)) as Hpos.
    simpl join. unfold p6 at 1. rewrite <- (app_nil_r g), p6_run by (done || lia).
    rewrite bool_decide_false by done. cbn [orb negb p6_loop].
    eexists _, _, _. split; [done|]. split; [done|]. rewrite app_nil_r.
    unfold groups_bytes. cbn [map concat]. rewrite app_nil_r. simpl length in Hl.
    apply p6_put_app; [lia|exact (conj Hpos Hv)].
  - rewrite join_cons, p6_group_colon; [|done|by apply join_nonempty, (Forall_inv Hgs)|simpl in Hl; lia].
    destruct (IH (d ++ group_bytes g) cp (join (g' :: gs))) as (st & cur' & v & E & Hs & Hp);
      [done|done|rewrite length_app; simpl in *; lia|].
    exists st, cur', v. split_and!; [done|done|]. rewrite Hp.
    unfold groups_bytes. cbn [map concat]. by rewrite <- app_assoc.
Qed.

(** The groups before the double colon. *)
Lemma p6_join_colons gs : forall d cur rest,
  gs <> [] -> Forall group gs -> (length d + 2 * length gs <= 16)%nat ->
  p6_loop (p6 d None cur false 0) (join gs ++ ch ":" :: ch ":" :: rest) =
  p6_loop (p6 (d ++ groups_bytes gs) (Some (length (d ++ groups_bytes gs))) rest false 0) rest.
Proof.
  induction gs as [|g gs IH]; intros d cur rest Hne Hg Hl; [done|].
  apply Forall_cons in Hg as [Hg Hgs]. destruct gs as [|g' gs].
  - simpl join. rewrite p6_group_colon by (done || simpl in Hl; lia).
    unfold groups_bytes. cbn [map concat]. rewrite app_nil_r. done.
  - rewrite join_cons, <- app_assoc, <- app_comm_cons.
    rewrite p6_group_colon; [| done | by destruct (join (g' :: gs))|simpl in Hl; lia].
    rewrite IH; [|done|done|rewrite length_app; simpl in *; lia].
    unfold groups_bytes. cbn [map concat]. by rewrite <- !app_assoc.
Qed.

(** The shift that opens the gap. *)
Lemma p6_shift_spec P : forall Q pre z,
  (1 <= z)%nat -> (length pre + length P + z + length Q = 16)%nat ->
  p6_shift (S (length Q)) (length P + length Q) (length pre) (length P)
    (pre ++ P ++ replicate z 0 ++ Q) = pre ++ replicate z 0 ++ P ++ Q.
Proof.
  induction P as [|x P IH] using rev_ind; intros Q pre z Hz Hl; [done|].
  rewrite length_app in *. simpl length in *.
  replace (length P + 1)%nat with (S (length P)) in * by lia. cbn [p6_shift].
  replace (length pre + (S (length P) + length Q - S (length Q)))%nat
    with (length pre + length P)%nat by lia.
  unfold IN6ADDRSZ. replace (16 - S (length Q))%nat with (length pre + length P + z)%nat by lia.
  destruct z as [|z]; [lia|]. rewrite <- app_assoc.
  assert (Hx : (pre ++ P ++ [x] ++ replicate (S z) 0 ++ Q) !! (length pre + length P)%nat = Some x).
  { rewrite app_assoc, lookup_app_r by (rewrite length_app; lia).
    rewrite length_app, Nat.sub_diag. done. }
  rewrite (nth_lookup_Some _ _ _ _ Hx).
  assert (H1 : <[(length pre + length P + S z)%nat := x]>
                 (pre ++ P ++ [x] ++ replicate (S z) 0 ++ Q) =
               pre ++ P ++ [x] ++ replicate z 0 ++ x :: Q).
  { rewrite replicate_S_end, <- app_assoc.
    replace (pre ++ P ++ [x] ++ replicate z 0 ++ [0] ++ Q) with
      ((pre ++ P ++ [x] ++ replicate z 0) ++ 0 :: Q) by (by rewrite <- !app_assoc).
    rewrite insert_app_r_alt by (rewrite !length_app, length_replicate; simpl; lia).
    rewrite !length_app, length_replicate. simpl.
    replace (_ - _)%nat with 0%nat by lia. simpl. by rewrite <- !app_assoc. }
  rewrite H1.
  assert (H2 : <[(length pre + length P)%nat := 0]> (pre ++ P ++ [x] ++ replicate z 0 ++ x :: Q) =
               pre ++ P ++ replicate (S z) 0 ++ (x :: Q)).
  { rewrite app_assoc. rewrite insert_app_r_alt by (rewrite length_app; lia).
    rewrite length_app, Nat.sub_diag. simpl. by rewrite <- app_assoc. }
  rewrite H2. replace (S (length P) + length Q)%nat with (length P + length (x :: Q))%nat
    by (simpl; lia).
  change (S (S (length Q))) with (S (length (x :: Q))).
  rewrite IH by (simpl; lia). by rewrite <- app_assoc.
Qed.

(** The double colon: what is stored when the text ends. *)
Lemma p6_finish_colon dA dB cur saw :
  (length dA + length dB < 16)%nat ->
  p6_finish (p6 (dA ++ dB) (Some (length dA)) cur false saw) =
  Some (dA ++ replicate (16 - length dA - length dB) 0 ++ dB).
Proof.
  intros Hl. unfold p6_finish, p6. cbn [p6_saw p6_colonp p6_tp p6_tmp].
  rewrite (proj2 (Nat.eqb_neq _ _)) by (rewrite length_app; unfold IN6ADDRSZ; lia).
  rewrite length_app. replace (length dA + length dB - length dA)%nat with (length dB) by lia.
  pose proof (p6_shift_spec dB [] dA (16 - (length dA + length dB))) as H.
  rewrite !app_nil_r in H. simpl length in H. rewrite !Nat.add_0_r in H.
  rewrite <- app_assoc, H by lia. do 4 f_equal. lia.
Qed.

Lemma join_head gs : gs <> [] -> Forall group gs -> exists c s, join gs = c :: s /\ c <> ch ":".
Proof.
  intros Hne Hg. destruct gs as [|g gs]; [done|]. apply Forall_inv in Hg as (Hg & Hd & _).
  destruct g as [|c g]; [done|]. exists c. apply Forall_inv in Hd as [x Hx].
  destruct gs; eexists; (split; [done|]); by intros ->.
Qed.

(** Without a leading colon, parsing starts at the first byte. *)
Lemma inet_pton6_start src c s :
  src = c :: s -> c <> ch ":" ->
  inet_pton6 src = match p6_loop (p6 [] None src false 0) src with
                   | None => None
                   | Some st => p6_finish st
                   end.
Proof.
  intros -> Hc. unfold inet_pton6, p6. change (16 - length (@nil Z))%nat with 16%nat. simpl app. simpl length.
  change IN6ADDRSZ with 16%nat.
  destruct c as [|c|c]; try done. do 6 (destruct c as [c|c|]; try done).
Qed.

(** The tail of the text, after the double colon. *)
Lemma p6_after_colons B : forall dA cur,
  Forall group B -> (length dA + 2 * length B < 16)%nat ->
  match p6_loop (p6 dA (Some (length dA)) cur false 0) (join B) with
  | None => None
  | Some st => p6_finish st
  end = Some (dA ++ replicate (16 - length dA - 2 * length B) 0 ++ groups_bytes B).
Proof.
  intros dA cur Hg Hl. destruct B as [|g B].
  - simpl join. cbn [p6_loop]. rewrite <- (app_nil_r dA) at 1.
    rewrite (p6_finish_colon dA [] cur 0) by (simpl; lia). simpl. by rewrite Nat.sub_0_r.
  - destruct (p6_join_end (g :: B) dA (Some (length dA)) cur) as (st & cur' & v & E & Hs & Hp);
      [done|done|lia|].
    rewrite E. unfold p6_finish at 1. rewrite Hs, Hp.
    assert (Hf : forall s, p6_finish (p6 (dA ++ groups_bytes (g :: B)) (Some (length dA)) cur' s v) =
      match (if s then p6_put (p6 (dA ++ groups_bytes (g :: B)) (Some (length dA)) cur' s v)
             else Some (p6 (dA ++ groups_bytes (g :: B)) (Some (length dA)) cur' s v)) with
      | None => None
      | Some st =>
          match p6_colonp st with
          | Some cp => if (p6_tp st =? IN6ADDRSZ)%nat then None
                       else Some (p6_shift 1 (p6_tp st - cp) cp (p6_tp st - cp) (p6_tmp st))
          | None => if (p6_tp st =? IN6ADDRSZ)%nat then Some (p6_tmp st) else None
          end
      end) by done.
    specialize (Hf false). cbn [p6_saw p6_colonp p6_tp p6_tmp p6] in Hf |- *.
    rewrite <- groups_bytes_length. rewrite p6_finish_colon in Hf
      by (rewrite groups_bytes_length; lia).
    rewrite Hf. done.
Qed.

Lemma p6_state_saw st :
  p6_finish st = match (if p6_saw st then p6_put st else Some st) with
                 | None => None
                 | Some st' => p6_finish (mk_p6 (p6_tmp st') (p6_tp st') (p6_colonp st')
                                                (p6_curtok st') false (p6_val st'))
                 end.
Proof. unfold p6_finish. destruct (p6_saw st), (p6_put st); done. Qed.

(** ** The theorems *)

(** [inet_pton4] accepts exactly the dotted quads: four decimal numbers up to
    255 (leading zeros allowed) separated by single dots, and stores their values. *)
Theorem inet_pton4_correct s q : inet_pton4 s = Some q <-> quad 4 s q.
Proof. rewrite inet_pton4_ref. apply inet4_ref_quad. Qed.

(** [inet_pton6] reads every address written in groups: eight groups of
    hexadecimal digits, or fewer around one double colon that stands for the zeros
    in between. *)
Theorem inet_pton6_groups A B :
  Forall group A -> Forall group B ->
  (length A = 8%nat -> inet_pton6 (join A) = Some (groups_bytes A)) /\
  ((length A + length B <= 7)%nat ->
   inet_pton6 (join A ++ bs "::" ++ join B) =
   Some (groups_bytes A ++ replicate (16 - 2 * (length A + length B)) 0 ++ groups_bytes B)).
Proof.
  intros HA HB. change (bs "::" ++ join B) with (ch ":" :: ch ":" :: join B).
  assert (Hinit : forall cur, mk_p6 (replicate IN6ADDRSZ 0) 0 None cur false 0 = p6 [] None cur false 0)
    by done.
  split.
  - intros Hl. assert (Hne : A <> []) by (by intros ->).
    destruct (join_head A Hne HA) as (c & s & Hj & Hc).
    rewrite (inet_pton6_start _ c s Hj Hc).
    destruct (p6_join_end A [] None (join A)) as (st & cur' & v & E & Hs & Hp);
      [done|done|simpl; lia|].
    rewrite E, p6_state_saw, Hs, Hp. unfold p6_finish. cbn [p6_saw p6_colonp p6_tp p6_tmp p6].
    simpl app. rewrite groups_bytes_length, Hl. simpl. by rewrite app_nil_r.
  - intros Hl. destruct A as [|g A].
    + simpl app. unfold inet_pton6. rewrite Hinit.
      change (p6_loop (p6 [] None (ch ":" :: join B) false 0) (ch ":" :: join B)) with
        (p6_loop (p6 [] (Some 0%nat) (join B) false 0) (join B)).
      rewrite (p6_after_colons B []) by (done || simpl in *; lia).
      simpl. do 3 f_equal.
    + destruct (join_head (g :: A) ltac:(done) HA) as (c & s & Hj & Hc).
      rewrite (inet_pton6_start _ c (s ++ ch ":" :: ch ":" :: join B)) by (done || by rewrite Hj).
      rewrite p6_join_colons by (done || simpl in *; lia). simpl app at 1 2.
      rewrite p6_after_colons; [|done|rewrite groups_bytes_length; simpl in *; lia].
      rewrite groups_bytes_length. do 4 f_equal. simpl in *. lia.
Qed.

Lemma inet_pton6_groups_witness :
  inet_pton6 (bs "2001:db8::ff00:42:8329") =
  Some [32; 1; 13; 184; 0; 0; 0; 0; 0; 0; 255; 0; 0; 66; 131; 41].
Proof.
  apply (inet_pton6_groups [bs "2001"; bs "db8"] [bs "ff00"; bs "42"; bs "8329"]).
  - unfold group, hexdigits. repeat constructor; try discriminate;
      vm_compute; first [discriminate | eexists; reflexivity].
  - unfold group, hexdigits. repeat constructor; try discriminate;
      vm_compute; first [discriminate | eexists; reflexivity].
  - vm_compute. lia.
Defined.

(** The invariant of the parser: 16 bytes, the indices inside them. *)
Record p6_ok (st : p6_state) : Prop := {
  p6_ok_len : length (p6_tmp st) = 16%nat;
  p6_ok_bytes : Forall (fun b => 0 <= b < 256) (p6_tmp st);
  p6_ok_tp : (p6_tp st <= 16)%nat;
  p6_ok_colonp : forall cp, p6_colonp st = Some cp -> (cp <= p6_tp st)%nat
}.

Definition in_bytes (l : list Z) : Prop := Forall (fun b => 0 <= b < 256) l.

Lemma insert_bytes l i b : in_bytes l -> 0 <= b < 256 -> in_bytes (<[i := b]> l).
Proof. intros. by apply Forall_insert. Qed.

Lemma low_byte x : 0 <= Z.land (u8 x) 255 < 256.
Proof. change 255 with (Z.ones 8). rewrite Z.land_ones by lia. apply Z.mod_pos_bound. lia. Qed.

Lemma p6_put_ok st st' : p6_ok st -> p6_put st = Some st' -> p6_ok st'.
Proof.
  intros [Hl Hb Ht Hc]. unfold p6_put. case_if; [done|]. intros [= <-].
  apply Nat.ltb_ge in E. unfold IN6ADDRSZ, INT16SZ in E. split; simpl.
  - by rewrite !length_insert.
  - apply insert_bytes; [apply insert_bytes; [done|]|]; apply low_byte.
  - lia.
  - intros cp Hcp. specialize (Hc cp Hcp). lia.
Qed.

Lemma store_ok bytes : forall i tmp,
  in_bytes bytes -> in_bytes tmp -> in_bytes (store i bytes tmp) /\
  length (store i bytes tmp) = length tmp.
Proof.
  induction bytes as [|b bytes IH]; intros i tmp Hb Ht; simpl; [done|].
  apply Forall_cons in Hb as [H1 H2]. destruct (IH (S i) (<[i := b]> tmp) H2) as [I1 I2];
    [by apply insert_bytes|]. by rewrite I2, length_insert.
Qed.

Lemma quad_bytes k s q : quad k s q -> in_bytes q /\ length q = k.
Proof.
  induction 1 as [ds Hd Hne Hv|k ds s vs Hd Hne Hv Hq [IH1 IH2]].
  - split; [|done]. constructor; [|constructor]. pose proof (dec_value_nonneg ds Hd). lia.
  - split; [|simpl; by f_equal]. constructor; [|done]. pose proof (dec_value_nonneg ds Hd). lia.
Qed.

Lemma p6_loop_ok src : forall st st', p6_ok st -> p6_loop st src = Some st' -> p6_ok st'.
Proof.
  induction src as [|c0 src IH]; intros st st' Hok; cbn [p6_loop]; [by intros [= <-]|].
  destruct (xdigit_val (tolower c0)) as [x|].
  { case_if; [done|]. apply IH. by destruct Hok. }
  destruct (tolower c0 =? ch ":").
  { destruct (negb (p6_saw st)).
    - destruct (p6_colonp st) eqn:Ec; [done|]. apply IH. destruct Hok. split; simpl; try done.
      intros cp [= <-]. done.
    - destruct src; [done|]. destruct (p6_put st) as [st1|] eqn:Ep; [|done].
      apply IH. apply p6_put_ok in Ep; [|done]. by destruct Ep. }
  destruct (negb _ && _); [|by apply IH].
  case_if; [|done]. destruct (inet_pton4 (p6_curtok st)) as [q|] eqn:Eq; [|done].
  intros [= <-]. rewrite inet_pton4_ref in Eq. apply inet4_ref_quad, quad_bytes in Eq as [Hq _].
  destruct Hok as [Hl Hb Ht Hc]. apply Nat.leb_le in E. unfold INADDRSZ, IN6ADDRSZ in E.
  destruct (store_ok q (p6_tp st) (p6_tmp st) Hq Hb) as [H1 H2]. split; simpl.
  - by rewrite H2.
  - done.
  - lia.
  - intros cp Hcp. specialize (Hc cp Hcp). lia.
Qed.

Lemma p6_shift_ok k : forall i n cp tmp, in_bytes tmp ->
  in_bytes (p6_shift i n cp k tmp) /\ length (p6_shift i n cp k tmp) = length tmp.
Proof.
  induction k as [|k IH]; intros i n cp tmp Hb; cbn [p6_shift]; [done|].
  set (v := nth _ tmp 0). assert (Hv : 0 <= v < 256).
  { subst v. destruct (nth_in_or_default (cp + (n - i)) tmp 0) as [Hin | ->]; [|lia].
    apply (proj1 (List.Forall_forall _ _) Hb _ Hin). }
  match goal with |- in_bytes (p6_shift _ _ _ _ ?t) /\ _ =>
    destruct (IH (S i) n cp t) as [H1 H2] end.
  - apply insert_bytes; [by apply insert_bytes|lia].
  - split; [done|]. by rewrite H2, !length_insert.
Qed.

Lemma op_inet_pton_ok af s d :
  op_inet_pton af s = (1, d) ->
  in_bytes d /\ (af = AF_INET /\ length d = 4%nat \/ af = AF_INET6 /\ length d = 16%nat).
Proof.
  assert (H6 : forall s d, inet_pton6 s = Some d -> in_bytes d /\ length d = 16%nat).
  { clear. intros s d. unfold inet_pton6; cbv zeta.
    match goal with |- context [match ?x with Some _ => _ | None => None end] =>
      destruct x as [src|]; [|done] end.
    assert (Hinit : p6_ok (mk_p6 (replicate IN6ADDRSZ 0) 0 None src false 0)).
    { split; simpl; [done|by repeat constructor|lia|done]. }
    destruct (p6_loop _ src) as [st|] eqn:E; [|done]. apply (p6_loop_ok _ _ _ Hinit) in E.
    unfold p6_finish. intros H. destruct (if p6_saw st then p6_put st else Some st) as [st1|] eqn:E1;
      [|done].
    assert (Hok : p6_ok st1).
    { destruct (p6_saw st); [by eapply p6_put_ok|by injection E1 as <-]. }
    destruct Hok as [Hl Hb Ht Hc]. revert H. destruct (p6_colonp st1); case_if; try done; intros [= <-].
    - destruct (p6_shift_ok (p6_tp st1 - n) 1 (p6_tp st1 - n) n (p6_tmp st1) Hb) as [H1 H2].
      by rewrite H2.
    - done. }
  unfold op_inet_pton. destruct (Z.eqb_spec af AF_INET) as [->|_].
  - destruct (inet_pton4 s) as [q|] eqn:E; intros [= <-].
    rewrite inet_pton4_ref in E. apply inet4_ref_quad, quad_bytes in E as [H1 H2]. tauto.
  - destruct (Z.eqb_spec af AF_INET6) as [->|_]; [|done].
    destruct (inet_pton4 s).
    + destruct (inet_pton6 _) eqn:E; intros [= <-]. apply H6 in E. tauto.
    + destruct (inet_pton6 _) eqn:E; intros [= <-]. apply H6 in E. tauto.
Qed.

(** What [op_inet_pton] stores is an address of the family: for every input, on
    success exactly 4 or 16 bytes, each in range; no index of the parsers leaves
    its buffer. *)
Theorem op_inet_pton_bound af s d :
  op_inet_pton af s = (1, d) ->
  in_bytes d /\ (af = AF_INET /\ length d = 4%nat \/ af = AF_INET6 /\ length d = 16%nat).
Proof. apply op_inet_pton_ok. Qed.

Lemma op_inet_pton_bound_witness :
  in_bytes [0; 0; 0; 0; 0; 0; 0; 0; 0; 0; 255; 255; 10; 0; 0; 1] /\
  (AF_INET6 = AF_INET /\ 16%nat = 4%nat \/ AF_INET6 = AF_INET6 /\ 16%nat = 16%nat).
Proof.
  exact (op_inet_pton_bound AF_INET6 (bs "10.0.0.1")
           [0; 0; 0; 0; 0; 0; 0; 0; 0; 0; 255; 255; 10; 0; 0; 1] eq_refl).
Defined.

(** A byte that cannot occur in an address is skipped, not refused: removing it
    does not change what the loop of [inet_pton6] does, so [2001:db8::g1] and
    [zz1::1] are accepted. *)
Theorem inet_pton6_skips_junk st c src :
  xdigit_val (tolower c) = None -> tolower c <> ch ":" -> tolower c <> ch "." ->
  p6_loop st (c :: src) = p6_loop st src.
Proof.
  intros H1 H2 H3. cbn [p6_loop]. rewrite H1.
  by rewrite (proj2 (Z.eqb_neq _ _) H2), (proj2 (Z.eqb_neq _ _) H3), andb_false_r.
Qed.

Lemma inet_pton6_skips_junk_witness :
  p6_loop (p6 [] None [] false 0) (bs "zz1::1") = p6_loop (p6 [] None [] false 0) (bs "z1::1") /\
  op_inet_pton AF_INET6 (bs "zz1::1") = (1, [0; 1] ++ replicate 13 0 ++ [1]).
Proof.
  split; [|vm_compute; reflexivity].
  apply (inet_pton6_skips_junk _ (ch "z") (bs "z1::1")); vm_compute; congruence.
Defined.
