(* ===== verification/Match.v ===== *)
(** * Host masks, wildcards collapsing and cron masks (src/match.c)

    [addr_match], [mask_match], [cidr_match], [collapse], [collapse_esc],
    [cron_matchfld] and [cron_match], with [str_isdigit] and [newsplit] of misc.c and
    [egg_atoi] of eggdrop.h. *)

From S2P Require Import Prelude LibC RegexCompile RegexMatch RegexPrint RegexCount RegexCorrect.
From S2P Require Import Wildcard Rfc1459 Inet.

Definition NOMATCH : Z := 0.
Definition UHOSTLEN : Z := 324.

(** [str_isdigit] *)
Definition str_isdigit (s : list Z) : bool :=
  match s with [] => false | _ => forallb isdigit s end.

Definition egg_atoi (s : list Z) : Z := i32 (fst (strtol s)).

(** [newsplit]: the first word and what is left in [rest]. *)
Fixpoint find_delim (c : Z) (s : list Z) : list Z * list Z :=
  match s with
  | d :: s' => if d =? c then ([], s) else let '(w, r) := find_delim c s' in (d :: w, r)
  | [] => ([], [])
  end.
Definition newsplit (rest : list Z) : list Z * list Z :=
  let '(w, o) := find_delim (ch " ") (skip_while (Z.eqb (ch " ")) rest) in
  (w, match o with _ :: o' => o' | [] => [] end).

(** ** Hosts *)

(** [cidr_match]: the count of equal bits asked for, or 0; 1 for a count below 1. *)
Definition cidr_match (m n : list Z) (count : Z) : Z :=
  let '(af, maxbits) :=
    if mem (ch ":") m || mem (ch ":") n then (AF_INET6, 128) else (AF_INET, 32) in
  if maxbits <? count then NOMATCH
  else
    let '(r1, block) := op_inet_pton af m in
    if negb (r1 =? 1) then NOMATCH
    else
      let '(r2, addr) := op_inet_pton af n in
      if negb (r2 =? 1) then NOMATCH
      else if count <? 1 then 1
      else if comp_with_mask addr block count then count else 0.

Section Hosts.

(** The function pointer [rfc_toupper], which a hook may change to [toupper]. *)
Context (rfc_toupper : Z -> Z).

Definition casecharcmp (a b : Z) : Z := rfc_toupper a - rfc_toupper b.
Definition charcmp (a b : Z) : Z := a - b.

(** The copy into the local buffer, in upper case, and the offset of its last at
    sign. *)
Definition mask_copy (m : list Z) : list Z * option nat :=
  let m := take (Z.to_nat (UHOSTLEN - 1)) m in
  (map rfc_toupper m, strrchr m (ch "@")).

(** The offset of the last slash when digits follow it. *)
Definition cidr_slash (s : list Z) : option nat :=
  match strrchr s (ch "/") with
  | Some p => if str_isdigit (drop (S p) s) then Some p else None
  | None => None
  end.

(** The global [cidr_support] is a parameter of both functions. *)
Definition addr_match (cidr_support : bool) (m n : list Z) (user cmp : bool) : Z :=
  let '(mu, r) := mask_copy m in
  let '(nu, s) := mask_copy n in
  match r, s with
  | Some r, Some s =>
      if negb user && negb cidr_support then _wild_match mu nu
      else
        let score := _wild_match (take r mu) (take s nu) in
        if score =? 0 then NOMATCH
        else
          let r := drop (S r) mu in
          let s := drop (S s) nu in
          if bool_decide (r = []) && bool_decide (s = []) then score
          else
            match cidr_slash r with
            | None =>
                let tmpscore := _wild_match r s in
                if tmpscore =? 0 then NOMATCH else score + tmpscore
            | Some p =>
                let pfx := egg_atoi (drop (S p) r) in
                let finish s :=
                  let tmpscore := cidr_match (take p r) s pfx in
                  if tmpscore =? 0 then NOMATCH else score + tmpscore in
                match (if cmp then cidr_slash s else None) with
                | Some q => if egg_atoi (drop (S q) s) <? pfx then NOMATCH else finish (take q s)
                | None => finish s
                end
            end
  | _, _ => _wild_match mu nu
  end.

Definition mask_match (cidr_support : bool) (m n : list Z) : Z :=
  let '(mu, r) := mask_copy m in
  let '(nu, s) := mask_copy n in
  let either a b : Z := if truthy (_wild_match a b) || truthy (_wild_match b a) then 1 else 0 in
  match r, s with
  | Some r, Some s =>
      if negb cidr_support then either mu nu
      else if either (take r mu) (take s nu) =? 0 then 0
      else
        let r := drop (S r) mu in
        let s := drop (S s) nu in
        if bool_decide (r = []) && bool_decide (s = []) then 1
        else
          match cidr_slash r, cidr_slash s with
          | None, None => either r s
          | _, _ =>
              let '(r', prefix) :=
                match strrchr r (ch "/") with
                | Some p => (take p r, egg_atoi (drop (S p) r))
                | None => (r, if mem (ch ":") r then 128 else 32)
                end in
              let '(s', prefix) :=
                match strrchr s (ch "/") with
                | Some q => (take q s, let k := egg_atoi (drop (S q) s) in
                                       if k <? prefix then k else prefix)
                | None => (s, prefix)
                end in
              cidr_match r' s' prefix
          end
  | _, _ => either mu nu
  end.

End Hosts.

(** ** Collapsing *)

Fixpoint collapse_from (star : bool) (p : list Z) : list Z :=
  match p with
  | [] => []
  | c :: p' =>
      if c =? ch "*" then
        if star then collapse_from true p' else ch "*" :: collapse_from true p'
      else c :: collapse_from false p'
  end.
Definition collapse (pattern : list Z) : list Z := collapse_from false pattern.

Fixpoint collapse_esc_from (star esc : bool) (p : list Z) : list Z :=
  match p with
  | [] => []
  | c :: p' =>
      if negb esc && (c =? ch "*") then
        if star then collapse_esc_from true esc p' else ch "*" :: collapse_esc_from true esc p'
      else if negb esc && (c =? ch "\") then ch "\" :: collapse_esc_from star true p'
      else c :: collapse_esc_from false false p'
  end.
Definition collapse_esc (pattern : list Z) : list Z := collapse_esc_from false false pattern.

(** ** Cron masks *)

(** The part of a string before the first [c], and the part after it. *)
Definition split_at (c : Z) (s : list Z) : list Z * option (list Z) :=
  let '(w, r) := find_delim c s in
  (w, match r with _ :: r' => Some r' | [] => None end).

(** [sscanf(mask, "%d-%d", &f, &t) == 2] *)
Definition scan_range (mask : list Z) : option (Z * Z) :=
  match scan_d mask with
  | Some (f, 45 :: r) => match scan_d r with Some (t, _) => Some (f, t) | None => None end
  | _ => None
  end.

(** The loop of [cron_matchfld]; [skip] and [match] keep their values from one
    element of the list to the next.  [int] arithmetic is taken not to overflow, as
    the language requires. *)
Fixpoint cron_loop (fuel : nat) (mask : list Z) (m skip : Z) : bool :=
  match fuel, mask with
  | S fuel', _ :: _ =>
      let '(elem, p) := split_at (ch ",") mask in
      let next m skip :=
        match p with Some p => cron_loop fuel' p m skip | None => false end in
      let '(elem, q) := split_at (ch "/") elem in
      if bool_decide (elem = []) && bool_decide (is_Some q) then next m skip
      else
        let skip := match q with Some q => egg_atoi q | None => skip end in
        let stepped d := negb (truthy skip) || negb (truthy (Z.rem d skip)) in
        if bool_decide (elem = [ch "*"]) && stepped m then true
        else
          let exact m :=
            match scan_d elem with
            | Some (f, _) =>
                if (if truthy skip then negb (truthy (Z.rem (m - f) skip)) else m =? f)
                then true else next m skip
            | None => next m skip
            end in
          if mem (ch "-") elem then
            match scan_range elem with
            | None => next m skip
            | Some (f, t) =>
                let '(m, t) := if t <? f then ((if m <=? t then m + 60 else m), t + 60)
                               else (m, t) in
                if ((f <=? m) && (m <=? t)) && stepped (m - f) then true else exact m
            end
          else exact m
  | _, _ => false
  end.

Definition cron_matchfld (mask : list Z) (m : Z) : bool := cron_loop (length mask) mask m 0.

(** What is left of the field in the buffer after a call: the first turn of the loop ends it
    at a comma and its first element at a slash that is not its first byte; later turns write
    behind that. *)
Definition cron_cut (mask : list Z) : list Z :=
  let elem := fst (split_at (ch ",") mask) in
  match split_at (ch "/") elem with
  | ((_ :: _) as elem', Some _) => elem'
  | _ => elem
  end.

(** [sscanf(match, "%d %d %d %d %d", ...) == 5] *)
Fixpoint scan_ints (k : nat) (s : list Z) : option (list Z) :=
  match k with
  | O => Some []
  | S k' => match scan_d s with
            | Some (v, r) => cons v <$> scan_ints k' r
            | None => None
            end
  end.

(** The loop of [cron_match] over the fields of [p]; [i] counts them, [t] are the
    time values still to come.  The second call for a Sunday gets the buffer as the first
    one has left it. *)
Fixpoint cron_fields (i : Z) (t : list Z) (p : list Z) (m d : bool) : bool :=
  match t, p with
  | ti :: t', _ :: _ =>
      let '(q, p') := newsplit p in
      if bool_decide (q = [ch "*"]) then cron_fields (i + 1) t' p' m d
      else
        let m := cron_matchfld q ti || ((i =? 4) && (ti =? 0) && cron_matchfld (cron_cut q) 7) in
        if i =? 2 then cron_fields (i + 1) t' p' m m
        else if negb m || ((i =? 3) && d) then m
        else cron_fields (i + 1) t' p' m d
  | _, _ => m
  end.

Definition cron_match (mask mtch : list Z) : bool :=
  match mask with
  | [] => false
  | _ => match scan_ints 5 mtch with
         | None => false
         | Some t => cron_fields 0 t mask true false
         end
  end.

Example cron_ex1 : cron_match (bs "*/5 1-3,7 * * 0-4") (bs "10 02 03 04 03") = true.
Proof. vm_compute. reflexivity. Qed.

(** ** Lemmas on the string functions *)

Lemma wild_match_01 m n : _wild_match m n = 0 \/ _wild_match m n = 1.
Proof.
  unfold _wild_match, ere_match. destruct m, n; try by left.
  destruct (irc_to_ere _ _ _); [|by left]. destruct (op_regex_compile _ _); [|by left].
  destruct (op_regex_match _ _); [by right|by left].
Qed.

Lemma strrchr_app u c h : strrchr h c = None -> strrchr (u ++ c :: h) c = Some (length u).
Proof.
  intros Hh. induction u as [|d u IH]; simpl.
  - by rewrite Hh, Z.eqb_refl.
  - by rewrite IH.
Qed.

Lemma strrchr_None s c : ~ In c s -> strrchr s c = None.
Proof.
  induction s as [|d s IH]; simpl; [done|]. intros H. rewrite IH by tauto.
  destruct (Z.eqb_spec d c); [tauto|done].
Qed.

Lemma digits_forallb ds : digits ds <-> forallb isdigit ds = true.
Proof.
  unfold digits. induction ds as [|d ds IH]; simpl; [split; [done|constructor]|].
  by rewrite Forall_cons, andb_true_iff, IH.
Qed.

Lemma str_isdigit_digits ds : digits ds -> ds <> [] -> str_isdigit ds = true.
Proof. intros H%digits_forallb. by destruct ds. Qed.

Lemma digit_range c : isdigit c = true -> 48 <= c <= 57.
Proof. unfold isdigit, in_range. intros. bool_lia. Qed.

Lemma digits_not_in ds c : digits ds -> isdigit c = false -> ~ In c ds.
Proof. intros Hd Hc Hin. rewrite (proj1 (List.Forall_forall _ _) Hd _ Hin) in Hc. done. Qed.

(** Upper-casing leaves digits and separators alone. *)
Lemma toupper_digits ds : digits ds -> map _rfc_toupper ds = ds.
Proof.
  induction 1 as [|d ds Hd Hds IH]; simpl; [done|]. f_equal; [|done].
  apply digit_range in Hd. unfold _rfc_toupper. rewrite rfc_toupper_fast_spec.
  - unfold u8. rewrite Z.mod_small by lia. by rewrite (proj2 (Z.leb_gt 97 d)) by lia.
  - unfold u8. apply Z.mod_pos_bound. lia.
Qed.

(** [strtol] reads back a run of digits. *)
Lemma strtol_digits ds c rest :
  digits ds -> ds <> [] -> isdigit c = false ->
  strtol (ds ++ c :: rest) = (Z.min LONG_MAX (dec_value ds), c :: rest).
Proof.
  intros Hd Hne Hc. unfold strtol.
  assert (Hs : skip_space (ds ++ c :: rest) = ds ++ c :: rest).
  { destruct ds as [|d ds]; [done|]. apply Forall_inv, digit_range in Hd. simpl.
    assert (isspace d = false) as ->; [|done].
    unfold isspace, in_range. rewrite (proj2 (Z.eqb_neq d 32)), (proj2 (Z.leb_gt d 13)) by lia.
    by rewrite andb_false_r. }
  assert (Hsign : match ds ++ c :: rest with
                  | 45 :: r => (true, r) | 43 :: r => (false, r) | _ => (false, ds ++ c :: rest)
                  end = (false, ds ++ c :: rest)).
  { destruct ds as [|d ds]; [done|]. apply Forall_inv, digit_range in Hd. simpl.
    destruct d as [|d|d]; try done. do 6 (destruct d as [d|d|]; try done; try lia). }
  rewrite Hs, Hsign, span_digits_run by done. by destruct ds.
Qed.

Lemma span_digits_all ds : digits ds -> span_digits ds = (ds, []).
Proof. induction 1 as [|d ds H Hd IH]; simpl; [done|]. by rewrite H, IH. Qed.

Lemma strtol_digits_end ds :
  digits ds -> ds <> [] -> strtol ds = (Z.min LONG_MAX (dec_value ds), []).
Proof.
  intros Hd Hne. unfold strtol.
  assert (Hs : skip_space ds = ds).
  { destruct ds as [|d ds]; [done|]. apply Forall_inv, digit_range in Hd. simpl.
    assert (isspace d = false) as ->; [|done].
    unfold isspace, in_range. rewrite (proj2 (Z.eqb_neq d 32)), (proj2 (Z.leb_gt d 13)) by lia.
    by rewrite andb_false_r. }
  assert (Hsign : match ds with
                  | 45 :: r => (true, r) | 43 :: r => (false, r) | _ => (false, ds)
                  end = (false, ds)).
  { destruct ds as [|d ds]; [done|]. apply Forall_inv, digit_range in Hd. simpl.
    destruct d as [|d|d]; try done. do 6 (destruct d as [d|d|]; try done; try lia). }
  rewrite Hs, Hsign, span_digits_all by done. by destruct ds.
Qed.

(** ** Hosts *)

(** The family [cidr_match] chooses, and its width. *)
Definition cidr_family (m n : list Z) : Z * Z :=
  if mem (ch ":") m || mem (ch ":") n then (AF_INET6, 128) else (AF_INET, 32).

Lemma cidr_match_spec m n count :
  1 <= count ->
  let '(af, maxbits) := cidr_family m n in
  (cidr_match m n count = 0 \/ cidr_match m n count = count) /\
  (cidr_match m n count = count <->
   count <= maxbits /\
   exists block addr, op_inet_pton af m = (1, block) /\ op_inet_pton af n = (1, addr) /\
     take (Z.to_nat count) (addr_bits block) = take (Z.to_nat count) (addr_bits addr)).
Proof.
  intros Hc. unfold cidr_match. fold (cidr_family m n).
  assert (Hfam : forall af maxbits, cidr_family m n = (af, maxbits) ->
    forall s d, op_inet_pton af s = (1, d) -> in_bytes d /\ 8 * Z.of_nat (length d) = maxbits).
  { intros af maxbits. unfold cidr_family. intros Hf s d H%op_inet_pton_ok.
    revert Hf. destruct (mem _ m || mem _ n); intros [= <- <-];
      destruct H as [Hb [[? ->]|[? ->]]]; split; try done; lia. }
  destruct (cidr_family m n) as [af maxbits]. specialize (Hfam _ _ eq_refl).
  destruct (Z.ltb_spec maxbits count) as [Hlt|Hge].
  { split; [by left|]. unfold NOMATCH. split; [lia|]. intros [? _]. lia. }
  destruct (op_inet_pton af m) as [r1 block] eqn:E1. destruct (Z.eqb_spec r1 1) as [->|H1]; simpl.
  2:{ split; [by left|]. unfold NOMATCH. split; [lia|]. intros (_ & ? & ? & [= ?] & _). done. }
  destruct (op_inet_pton af n) as [r2 addr] eqn:E2. destruct (Z.eqb_spec r2 1) as [->|H2]; simpl.
  2:{ split; [by left|]. unfold NOMATCH. split; [lia|]. intros (_ & ? & ? & _ & [= ?] & _). done. }
  destruct (Hfam _ _ E1) as [Hb1 Hl1]. destruct (Hfam _ _ E2) as [Hb2 Hl2].
  rewrite (proj2 (Z.ltb_ge count 1)) by lia.
  pose proof (comp_with_mask_bits addr block count Hb2 Hb1 ltac:(lia) ltac:(lia)) as Hcomp.
  destruct (comp_with_mask addr block count).
  - split; [by right|]. split; [|done]. intros _. split; [lia|]. exists block, addr.
    split_and!; [done|done|]. symmetry. by apply Hcomp.
  - split; [by left|]. split; [lia|]. intros (_ & b & a & [= <-] & [= <-] & Ht).
    symmetry in Ht. by apply Hcomp in Ht.
Qed.

Lemma cidr_match_nonneg m n count : 0 <= cidr_match m n count.
Proof.
  destruct (Z.ltb_spec count 1) as [Hlt|Hge].
  - unfold cidr_match. rewrite (proj2 (Z.ltb_lt _ 1) Hlt).
    destruct (if _ || _ then _ else _) as [af mb]. unfold NOMATCH.
    case_if; [done|]. destruct (op_inet_pton af m). case_if; [done|].
    destruct (op_inet_pton af n). by case_if.
  - pose proof (cidr_match_spec m n count Hge) as H.
    destruct (cidr_family _ _). destruct H as [[-> | ->] _]; lia.
Qed.

(** A hostmask with a CIDR suffix. *)
Lemma addr_match_cidr_eq cs user u h ds u' h' : user || cs = true ->
  ~ In (ch "@") h -> ~ In (ch "@") h' -> digits ds -> ds <> [] ->
  (length (u ++ ch "@" :: h ++ ch "/" :: ds) <= 323)%nat -> (length (u' ++ ch "@" :: h') <= 323)%nat ->
  let up := map _rfc_toupper in
  addr_match _rfc_toupper cs (u ++ ch "@" :: h ++ ch "/" :: ds) (u' ++ ch "@" :: h') user false =
  if _wild_match (up u) (up u') =? 0 then 0
  else let c := cidr_match (up h) (up h') (egg_atoi ds) in
       if c =? 0 then 0 else _wild_match (up u) (up u') + c.
Proof.
  intros Huc Hh Hh' Hd Hne Hl Hl' up. unfold addr_match, mask_copy.
  change (Z.to_nat (UHOSTLEN - 1)) with 323%nat. rewrite !take_ge by lia.
  rewrite strrchr_app.
  2:{ apply strrchr_None. rewrite in_app_iff. intros [?|[?|Hin]]; [done|done|].
      exact (digits_not_in ds 64 Hd eq_refl Hin). }
  rewrite strrchr_app by (by apply strrchr_None).
  replace (negb user && negb cs) with false by (by destruct user, cs). cbv iota.
  rewrite !map_app, !map_cons, !map_app, !map_cons. rewrite !take_app_length' by (by rewrite length_map).
  rewrite (toupper_digits ds Hd).
  change (_rfc_toupper (ch "@")) with (ch "@"). change (_rfc_toupper (ch "/")) with (ch "/").
  fold up. destruct (_wild_match (up u) (up u') =? 0); [done|].
  assert (Hdrop : forall x y, drop (S (length x)) (up x ++ ch "@" :: y) = y).
  { intros x y. change (ch "@" :: y) with ([ch "@"] ++ y). rewrite app_assoc.
    apply drop_app_length'. unfold up. rewrite length_app, length_map. simpl. lia. }
  rewrite !Hdrop.
  rewrite (bool_decide_false (up h ++ ch "/" :: ds = [])) by (by destruct (up h)). cbn [andb]. cbv iota.
  unfold cidr_slash. rewrite strrchr_app by (by apply strrchr_None, digits_not_in).
  assert (Hds : drop (S (length (up h))) (up h ++ ch "/" :: ds) = ds).
  { change (ch "/" :: ds) with ([ch "/"] ++ ds). rewrite app_assoc.
    apply drop_app_length'. rewrite length_app. simpl. lia. }
  rewrite Hds, str_isdigit_digits by done. rewrite take_app_length. by rewrite Hds.
Qed.

(** ** Collapsing keeps the items of the mask *)

Lemma mask_items_fuel per n : forall k m, (length m <= n)%nat -> (length m <= k)%nat ->
  mask_items n per m = mask_items k per m.
Proof.
  induction n as [|n IH]; intros [|k] [|c m] Hn Hk; try done; simpl in Hn, Hk; try lia.
  cbn [mask_items].
  assert (Hsk : forall test, test c = true ->
    mask_items n per (skip_while test (c :: m)) = mask_items k per (skip_while test (c :: m))).
  { intros test Ht. cbn [skip_while]. rewrite Ht.
    pose proof (skip_while_length test m). apply IH; lia. }
  destruct (per && (c =? ch "\")).
  { destruct m as [|d m]; [done|]. f_equal. simpl in *. apply IH; lia. }
  destruct (c =? ch "*") eqn:E1; [f_equal; apply Hsk; by rewrite Z.eqb_sym|].
  destruct (c =? ch "?"); [f_equal; apply IH; lia|].
  destruct (per && (c =? ch "%")) eqn:E2.
  { f_equal. apply Hsk. apply andb_prop in E2 as [_ E2]. by rewrite Z.eqb_sym. }
  destruct (per && (c =? ch "~")) eqn:E3.
  { f_equal. apply Hsk. apply andb_prop in E3 as [_ ->]. done. }
  f_equal. apply IH; lia.
Qed.

Definition is_star : Z -> bool := Z.eqb (ch "*").

Lemma collapse_star m : collapse_from true m = collapse (skip_while is_star m).
Proof.
  unfold collapse, is_star. induction m as [|c m IH]; [done|]. cbn [skip_while collapse_from].
  rewrite (Z.eqb_sym (ch "*") c). destruct (c =? ch "*") eqn:E; [done|].
  cbn [collapse_from]. by rewrite E.
Qed.

Lemma collapse_length star m : (length (collapse_from star m) <= length m)%nat.
Proof.
  revert star; induction m as [|c m IH]; intros star; simpl; [done|].
  repeat case_if; simpl; specialize (IH true) as H1; specialize (IH false) as H2; lia.
Qed.

Lemma skip_star_head test m : match skip_while test m with c :: _ => test c = false | [] => True end.
Proof. induction m as [|c m IH]; simpl; [done|]. by case_if. Qed.

Lemma skip_star_collapse m :
  skip_while is_star (collapse (skip_while is_star m)) = collapse (skip_while is_star m).
Proof.
  pose proof (skip_star_head is_star m) as H. destruct (skip_while is_star m) as [|c s]; [done|].
  unfold collapse. cbn [collapse_from]. unfold is_star in *. rewrite Z.eqb_sym in H. rewrite H.
  cbn [skip_while]. by rewrite Z.eqb_sym, H.
Qed.

Lemma collapse_items_fuel n : forall m, (length m <= n)%nat ->
  mask_items n false (collapse m) = mask_items n false m.
Proof.
  induction n as [|n IH]; intros m Hl; [done|]. destruct m as [|c m]; [done|].
  simpl in Hl. unfold collapse. cbn [collapse_from].
  destruct (c =? ch "*") eqn:E.
  - cbn [mask_items andb]. rewrite E. change (ch "*" =? ch "*") with true. cbv iota. f_equal.
    change (Z.eqb (ch "*")) with is_star.
    assert (Hs : forall s, skip_while is_star (ch "*" :: s) = skip_while is_star s) by done.
    apply Z.eqb_eq in E as ->. rewrite !Hs, collapse_star, skip_star_collapse.
    pose proof (skip_while_length is_star m). apply IH. lia.
  - cbn [mask_items andb]. rewrite E. destruct (c =? ch "?"); f_equal; apply IH; lia.
Qed.

Lemma collapse_items m : items false (collapse m) = items false m.
Proof.
  unfold items. rewrite (mask_items_fuel _ _ (length m)); [by apply collapse_items_fuel|done|].
  apply collapse_length.
Qed.

Lemma collapse_nonempty m : collapse m = [] <-> m = [].
Proof. destruct m as [|c m]; [done|]. unfold collapse. simpl. by case_if. Qed.

Lemma collapse_idem_star m : forall star,
  collapse_from star (collapse_from star m) = collapse_from star m.
Proof.
  induction m as [|c m IH]; intros star; [done|]. cbn [collapse_from].
  destruct (c =? ch "*") eqn:E.
  - destruct star; [apply IH|]. cbn [collapse_from]. change (ch "*" =? ch "*") with true. cbv iota.
    by rewrite IH.
  - cbn [collapse_from]. by rewrite E, IH.
Qed.

(** *** With quoting *)

Lemma cesc_quoted star d m : collapse_esc_from star true (d :: m) = d :: collapse_esc m.
Proof. done. Qed.

Lemma cesc_star m : collapse_esc_from true false m = collapse_esc (skip_while is_star m).
Proof.
  unfold collapse_esc, is_star. induction m as [|c m IH]; [done|].
  cbn [skip_while collapse_esc_from negb andb].
  rewrite (Z.eqb_sym (ch "*") c). destruct (c =? ch "*") eqn:E; [done|].
  cbn [collapse_esc_from negb andb]. rewrite E.
  destruct (c =? ch "\"); [|done]. f_equal. by destruct m.
Qed.

Lemma cesc_skip test m :
  test (ch "*") = false -> test (ch "\") = false ->
  skip_while test (collapse_esc m) = collapse_esc (skip_while test m).
Proof.
  intros H1 H2. unfold collapse_esc. induction m as [|c m IH]; [done|].
  cbn [skip_while collapse_esc_from negb andb]. destruct (test c) eqn:Et.
  - destruct (Z.eqb_spec c (ch "*")) as [->|]; [congruence|].
    destruct (Z.eqb_spec c (ch "\")) as [->|]; [congruence|].
    cbn [skip_while]. by rewrite Et.
  - cbn [collapse_esc_from negb andb]. destruct (c =? ch "*"); [cbn [skip_while]; by rewrite H1|].
    destruct (c =? ch "\"); [cbn [skip_while]; by rewrite H2|]. cbn [skip_while]. by rewrite Et.
Qed.

Lemma skip_star_cesc m :
  skip_while is_star (collapse_esc (skip_while is_star m)) = collapse_esc (skip_while is_star m).
Proof.
  pose proof (skip_star_head is_star m) as H. destruct (skip_while is_star m) as [|c s]; [done|].
  unfold collapse_esc. cbn [collapse_esc_from negb andb]. unfold is_star in *.
  rewrite Z.eqb_sym in H. rewrite H.
  destruct (c =? ch "\"); [done|]. cbn [skip_while]. by rewrite Z.eqb_sym, H.
Qed.

Lemma cesc_length m : forall star esc, (length (collapse_esc_from star esc m) <= length m)%nat.
Proof.
  induction m as [|c m IH]; intros star esc; simpl; [done|].
  repeat case_if; simpl; [etrans; [apply IH|lia]| | |]; apply le_n_S, IH.
Qed.

Lemma cesc_items_fuel n : forall m, (length m <= n)%nat ->
  mask_items n true (collapse_esc m) = mask_items n true m.
Proof.
  induction n as [|n IH]; intros m Hl; [done|]. destruct m as [|c m]; [done|].
  simpl in Hl. unfold collapse_esc. cbn [collapse_esc_from negb andb].
  destruct (c =? ch "*") eqn:E.
  - apply Z.eqb_eq in E as ->.
    change (GStar :: mask_items n true (skip_while is_star (collapse_esc_from true false m)) =
            GStar :: mask_items n true (skip_while is_star m)).
    rewrite cesc_star, skip_star_cesc. f_equal. pose proof (skip_while_length is_star m).
    apply IH. lia.
  - destruct (c =? ch "\") eqn:E'.
    + apply Z.eqb_eq in E' as ->. destruct m as [|d m]; [done|]. rewrite cesc_quoted.
      change (GLit d :: mask_items n true (collapse_esc m) = GLit d :: mask_items n true m).
      f_equal. simpl in Hl. apply IH. lia.
    + fold (collapse_esc m). cbn [mask_items andb]. rewrite E, E'.
      assert (Hsk : forall test, test c = true -> test (ch "*") = false -> test (ch "\") = false ->
        mask_items n true (skip_while test (c :: collapse_esc m)) =
        mask_items n true (skip_while test (c :: m))).
      { intros test Hc H1 H2. cbn [skip_while]. rewrite Hc, cesc_skip by done.
        pose proof (skip_while_length test m). apply IH. lia. }
      destruct (c =? ch "?"); [f_equal; apply IH; lia|].
      destruct (c =? ch "%") eqn:E2; [f_equal; apply Hsk; [by rewrite Z.eqb_sym|done|done]|].
      destruct (c =? ch "~") eqn:E3; [f_equal; apply Hsk; [by rewrite E3|done|done]|].
      f_equal. apply IH. lia.
Qed.

Lemma cesc_items m : items true (collapse_esc m) = items true m.
Proof.
  unfold items. rewrite (mask_items_fuel _ _ (length m)); [by apply cesc_items_fuel|done|].
  apply cesc_length.
Qed.

(** ** Cron fields *)

(** An element of a field without step: any value, one number, or a range. *)
Inductive celem : Type :=
| CStar
| CNum (ds : list Z)
| CRange (d1 d2 : list Z).

Definition print_celem (e : celem) : list Z :=
  match e with
  | CStar => [ch "*"]
  | CNum ds => ds
  | CRange d1 d2 => d1 ++ ch "-" :: d2
  end.

Fixpoint print_celems (es : list celem) : list Z :=
  match es with
  | [] => []
  | [e] => print_celem e
  | e :: es => print_celem e ++ ch "," :: print_celems es
  end.

(** A decimal number that an [int] holds. *)
Definition number (ds : list Z) : Prop := digits ds /\ ds <> [] /\ dec_value ds < 2 ^ 31.

Definition celem_ok (e : celem) : Prop :=
  match e with
  | CStar => True
  | CNum ds => number ds
  | CRange d1 d2 => number d1 /\ number d2 /\ dec_value d1 <= dec_value d2
  end.

Definition celem_sat (v : Z) (e : celem) : bool :=
  match e with
  | CStar => true
  | CNum ds => v =? dec_value ds
  | CRange d1 d2 => (dec_value d1 <=? v) && (v <=? dec_value d2)
  end.

Lemma find_delim_app c w r : ~ In c w -> find_delim c (w ++ c :: r) = (w, c :: r).
Proof.
  induction w as [|d w IH]; simpl; intros H; [by rewrite Z.eqb_refl|].
  destruct (Z.eqb_spec d c); [tauto|]. by rewrite IH by tauto.
Qed.

Lemma find_delim_end c w : ~ In c w -> find_delim c w = (w, []).
Proof.
  induction w as [|d w IH]; simpl; intros H; [done|].
  destruct (Z.eqb_spec d c); [tauto|]. by rewrite IH by tauto.
Qed.

Lemma split_at_app c w r : ~ In c w -> split_at c (w ++ c :: r) = (w, Some r).
Proof. intros H. unfold split_at. by rewrite find_delim_app. Qed.

Lemma split_at_end c w : ~ In c w -> split_at c w = (w, None).
Proof. intros H. unfold split_at. by rewrite find_delim_end. Qed.

Lemma number_i32 ds : number ds -> i32 (Z.min LONG_MAX (dec_value ds)) = dec_value ds.
Proof.
  intros (Hd & _ & Hv). pose proof (dec_value_nonneg ds Hd).
  rewrite Z.min_r by (unfold LONG_MAX; lia). apply i32_small. lia.
Qed.

Lemma scan_d_number ds : number ds -> scan_d ds = Some (dec_value ds, []).
Proof.
  intros Hn. pose proof Hn as (Hd & Hne & _). unfold scan_d. rewrite strtol_digits_end by done.
  rewrite bool_decide_false by (by destruct ds). by rewrite number_i32.
Qed.

Lemma scan_d_number_app ds c rest :
  number ds -> isdigit c = false -> scan_d (ds ++ c :: rest) = Some (dec_value ds, c :: rest).
Proof.
  intros Hn Hc. pose proof Hn as (Hd & Hne & _). unfold scan_d. rewrite strtol_digits by done.
  rewrite bool_decide_false; [by rewrite number_i32|].
  intros H. apply (f_equal length) in H. rewrite length_app in H. destruct ds; [done|]. simpl in H. lia.
Qed.

Lemma number_not_in ds c : number ds -> isdigit c = false -> ~ In c ds.
Proof. intros (Hd & _) Hc. by apply digits_not_in. Qed.

Lemma mem_false c s : mem c s = false <-> ~ In c s.
Proof. rewrite <- mem_In. by destruct (mem c s). Qed.

Lemma scan_range_number d1 d2 :
  number d1 -> number d2 -> scan_range (d1 ++ ch "-" :: d2) = Some (dec_value d1, dec_value d2).
Proof.
  intros H1 H2. unfold scan_range. rewrite scan_d_number_app by done. by rewrite scan_d_number.
Qed.

(** The characters of an element. *)
Lemma print_celem_not_in e c :
  celem_ok e -> isdigit c = false -> c <> ch "*" -> c <> ch "-" -> ~ In c (print_celem e).
Proof.
  intros He Hc H1 H2. destruct e; simpl in *.
  - intuition.
  - by apply number_not_in.
  - destruct He as (Hn1 & Hn2 & _). rewrite in_app_iff. intros [H|[H|H]]; [|congruence|].
    + by eapply number_not_in in H.
    + by eapply (number_not_in d2) in H.
Qed.

Lemma print_celem_nonempty e : celem_ok e -> print_celem e <> [].
Proof.
  destruct e; simpl; intros H; [done|by destruct H as (_ & ? & _)|].
  destruct H as ((_ & Hne & _) & _). by destruct d1.
Qed.

(** What one element does to the loop, without a step. *)
Definition celem_turn (e : celem) (m : Z) (next : bool) : bool :=
  if celem_sat m e then true else next.

Lemma cron_loop_elem fuel e mask p m :
  celem_ok e -> mask <> [] -> split_at (ch ",") mask = (print_celem e, p) ->
  cron_loop (S fuel) mask m 0 =
  celem_turn e m (match p with Some p => cron_loop fuel p m 0 | None => false end).
Proof.
  intros He Hne Hs. destruct mask as [|c0 mask]; [done|]. cbn [cron_loop]. rewrite Hs.
  rewrite split_at_end by (by apply print_celem_not_in).
  rewrite (bool_decide_false (print_celem e = [])) by (by apply print_celem_nonempty).
  cbn [andb]. cbv iota. set (next := match p with Some p => _ | None => false end).
  unfold celem_turn. destruct e as [|ds|d1 d2]; cbn [print_celem celem_sat] in *.
  - done.
  - assert (Hst : ds <> [ch "*"]) by (intros ->; by destruct He as (Hd & _); apply Forall_inv in Hd).
    rewrite (bool_decide_false _ Hst). cbn [andb]. cbv iota.
    rewrite (proj2 (mem_false (ch "-") ds)) by (by apply number_not_in).
    rewrite scan_d_number by done. done.
  - destruct He as (H1 & H2 & Hle).
    assert (Hst : d1 ++ ch "-" :: d2 <> [ch "*"]).
    { destruct H1 as (_ & Hd & _). destruct d1 as [|? [|]]; done. }
    rewrite (bool_decide_false _ Hst). cbn [andb]. cbv iota.
    rewrite (proj2 (mem_In (ch "-") (d1 ++ ch "-" :: d2))) by (apply in_app_iff; right; by left).
    rewrite scan_range_number by done. rewrite (proj2 (Z.ltb_ge _ _) Hle).
    change (truthy 0) with false. cbn [negb orb]. rewrite andb_true_r.
    destruct ((dec_value d1 <=? m) && (m <=? dec_value d2)) eqn:E; [done|].
    rewrite scan_d_number_app by done. rewrite (proj2 (Z.eqb_neq _ _)); [done|]. bool_lia.
Qed.

Lemma print_celems_cons e e' es :
  print_celems (e :: e' :: es) = print_celem e ++ ch "," :: print_celems (e' :: es).
Proof. done. Qed.

Lemma cron_loop_list es : forall fuel m,
  Forall celem_ok es -> (length (print_celems es) <= fuel)%nat ->
  cron_loop fuel (print_celems es) m 0 = existsb (celem_sat m) es.
Proof.
  induction es as [|e es IH]; intros fuel m Hes Hf; [by destruct fuel|].
  apply Forall_cons in Hes as [He Hes]. pose proof (print_celem_nonempty e He) as Hne.
  destruct es as [|e' es].
  - simpl print_celems in *. destruct fuel as [|fuel]; [destruct (print_celem e); simpl in Hf; [done|lia]|].
    rewrite (cron_loop_elem _ e _ None); [|done|done|by apply split_at_end, print_celem_not_in].
    unfold celem_turn. cbn [existsb]. by destruct (celem_sat m e).
  - rewrite print_celems_cons in *. rewrite length_app in Hf. cbn [length] in Hf.
    destruct fuel as [|fuel]; [lia|].
    rewrite (cron_loop_elem _ e _ (Some (print_celems (e' :: es))));
      [|done|by destruct (print_celem e)|by apply split_at_app, print_celem_not_in].
    rewrite IH by (done || lia). unfold celem_turn. cbn [existsb]. by destruct (celem_sat m e).
Qed.

(** *** A range with a step *)

Lemma cron_range_step d1 d2 dk v :
  number d1 -> number d2 -> number dk -> dec_value d1 <= dec_value d2 -> 1 <= dec_value dk ->
  cron_matchfld (d1 ++ ch "-" :: d2 ++ ch "/" :: dk) v =
  (Z.rem (v - dec_value d1) (dec_value dk) =? 0).
Proof.
  intros H1 H2 Hk Hle Hpos. unfold cron_matchfld.
  set (mask := d1 ++ ch "-" :: d2 ++ ch "/" :: dk).
  assert (Hm : exists c0 m0, mask = c0 :: m0).
  { subst mask. destruct H1 as (_ & Hne & _). destruct d1 as [|c d1]; [done|]. by eexists _, _. }
  assert (Hcomma : ~ In (ch ",") mask).
  { subst mask. rewrite in_app_iff. cbn [In]. rewrite in_app_iff. cbn [In].
    intros [H|[H|[H|[H|H]]]]; try done; (eapply number_not_in; [| |exact H]); done. }
  assert (Hslash : split_at (ch "/") mask = (d1 ++ ch "-" :: d2, Some dk)).
  { subst mask. rewrite app_comm_cons, app_assoc. apply split_at_app.
    rewrite in_app_iff. cbn [In]. intros [H|[H|H]]; try done; (eapply number_not_in; [| |exact H]); done. }
  destruct Hm as (c0 & m0 & Hm). rewrite Hm in *. cbn [length cron_loop].
  rewrite (split_at_end _ _ Hcomma), Hslash.
  assert (Hne : d1 ++ ch "-" :: d2 <> []) by (by destruct d1).
  assert (Hst : d1 ++ ch "-" :: d2 <> [ch "*"]).
  { destruct H1 as (_ & Hd & _). destruct d1 as [|? [|]]; done. }
  rewrite (bool_decide_false _ Hne), (bool_decide_false _ Hst). cbn [andb]. cbv iota.
  assert (Hskip : egg_atoi dk = dec_value dk).
  { unfold egg_atoi. pose proof Hk as (Hd & Hn & _). rewrite strtol_digits_end by done.
    by apply number_i32. }
  rewrite Hskip, (proj2 (mem_In (ch "-") (d1 ++ ch "-" :: d2)))
    by (apply in_app_iff; right; by left).
  rewrite scan_range_number by done. rewrite (proj2 (Z.ltb_ge _ _) Hle).
  rewrite scan_d_number_app by done.
  assert (Ht : truthy (dec_value dk) = true) by (apply truthy_true; lia). rewrite Ht.
  cbn [negb orb]. unfold truthy. rewrite !negb_involutive.
  destruct (Z.rem (v - dec_value d1) (dec_value dk) =? 0); [by case_if|].
  by rewrite andb_false_r.
Qed.

(** *** The five fields *)

Definition word (q : list Z) : Prop := q <> [] /\ ~ In (ch " ") q.

Lemma newsplit_word q rest : word q -> newsplit (q ++ ch " " :: rest) = (q, rest).
Proof.
  intros [Hne Hs]. unfold newsplit. destruct q as [|c q]; [done|].
  assert (Hc : Z.eqb (ch " ") c = false) by (apply Z.eqb_neq; intros <-; apply Hs; by left).
  cbn [app skip_while]. rewrite Hc. change (c :: q ++ ch " " :: rest) with ((c :: q) ++ ch " " :: rest).
  by rewrite find_delim_app.
Qed.

Lemma newsplit_last q : word q -> newsplit q = (q, []).
Proof.
  intros [Hne Hs]. unfold newsplit. destruct q as [|c q]; [done|].
  assert (Hc : Z.eqb (ch " ") c = false) by (apply Z.eqb_neq; intros <-; apply Hs; by left).
  cbn [skip_while]. rewrite Hc. by rewrite find_delim_end.
Qed.

(** Whether a field is the bare asterisk, and whether it matches. *)
Definition fstar (q : list Z) : bool := bool_decide (q = [ch "*"]).
Definition fok (i : Z) (q : list Z) (t : Z) : bool :=
  cron_matchfld q t || ((i =? 4) && (t =? 0) && cron_matchfld (cron_cut q) 7).
(** The weekday: 7 is tried for a Sunday, in what is left of the field. *)
Definition weekday_ok (q : list Z) (t : Z) : bool := cron_matchfld q t || ((t =? 0) && cron_matchfld (cron_cut q) 7).

Lemma fok_weekday q t : fok 4 q t = weekday_ok q t.
Proof. done. Qed.
Lemma fok_plain i q t : i <> 4 -> fok i q t = cron_matchfld q t.
Proof. intros H. unfold fok. rewrite (proj2 (Z.eqb_neq i 4) H). by rewrite orb_false_r. Qed.

Lemma cron_fields_turn i t ts q rest p' m d :
  word q -> newsplit rest = (q, p') -> rest <> [] ->
  cron_fields i (t :: ts) rest m d =
  if fstar q then cron_fields (i + 1) ts p' m d
  else if i =? 2 then cron_fields (i + 1) ts p' (fok i q t) (fok i q t)
  else if negb (fok i q t) || ((i =? 3) && d) then fok i q t
  else cron_fields (i + 1) ts p' (fok i q t) d.
Proof.
  intros Hq Hs Hne. destruct rest as [|c rest]; [done|]. cbn [cron_fields]. rewrite Hs.
  unfold fstar. by case_bool_decide.
Qed.

Definition five (q0 q1 q2 q3 q4 : list Z) : list Z :=
  q0 ++ ch " " :: q1 ++ ch " " :: q2 ++ ch " " :: q3 ++ ch " " :: q4.

(** One turn of the field loop, with its index computed. *)
Ltac cron_turn i q H Hs Hn :=
  repeat rewrite (cron_fields_turn i _ _ q _ _ _ _ H Hs Hn);
  repeat match goal with |- context [?a + 1] => let v := eval compute in (a + 1) in
                           change (a + 1) with v end;
  repeat match goal with |- context [(i =? ?b)] => let v := eval compute in (i =? b) in
                           change (i =? b) with v end;
  cbn [andb]; cbv iota.

Lemma cron_match_formula q0 q1 q2 q3 q4 mtch t0 t1 t2 t3 t4 :
  word q0 -> word q1 -> word q2 -> word q3 -> word q4 ->
  scan_ints 5 mtch = Some [t0; t1; t2; t3; t4] ->
  cron_match (five q0 q1 q2 q3 q4) mtch =
  (fstar q0 || fok 0 q0 t0) && (fstar q1 || fok 1 q1 t1) &&
  (if fstar q3 then (if fstar q4 then fstar q2 || fok 2 q2 t2 else fok 4 q4 t4)
   else fok 3 q3 t3 && ((negb (fstar q2) && fok 2 q2 t2) || fstar q4 || fok 4 q4 t4)).
Proof.
  intros H0 H1 H2 H3 H4 Hscan.
  assert (Hne : forall q r : list Z, q ++ ch " " :: r <> []) by (intros q r; by destruct q).
  unfold cron_match, five.
  destruct (q0 ++ ch " " :: q1 ++ ch " " :: q2 ++ ch " " :: q3 ++ ch " " :: q4) eqn:E.
  { by apply Hne in E. }
  rewrite <- E. clear E. rewrite Hscan.
  cron_turn 0 q0 H0 (newsplit_word q0 (q1 ++ ch " " :: q2 ++ ch " " :: q3 ++ ch " " :: q4) H0)
    (Hne q0 (q1 ++ ch " " :: q2 ++ ch " " :: q3 ++ ch " " :: q4)).
  cron_turn 1 q1 H1 (newsplit_word q1 (q2 ++ ch " " :: q3 ++ ch " " :: q4) H1)
    (Hne q1 (q2 ++ ch " " :: q3 ++ ch " " :: q4)).
  cron_turn 2 q2 H2 (newsplit_word q2 (q3 ++ ch " " :: q4) H2) (Hne q2 (q3 ++ ch " " :: q4)).
  cron_turn 3 q3 H3 (newsplit_word q3 q4 H3) (Hne q3 q4).
  cron_turn 4 q4 H4 (newsplit_last q4 H4) (proj1 H4).
  cbn [cron_fields].
  destruct (fstar q0), (fok 0 q0 t0), (fstar q1), (fok 1 q1 t1), (fstar q2), (fok 2 q2 t2),
    (fstar q3), (fok 3 q3 t3), (fstar q4), (fok 4 q4 t4); reflexivity.
Qed.

(** ** The theorems *)

(** C21. [cidr_match] compares prefixes of addresses: for a count of at least 1 it
    returns the count exactly when both strings are addresses of the family (IPv6 as
    soon as one contains a colon), the count does not exceed the width of the
    family, and the first [count] bits agree; otherwise it returns 0. *)
Theorem cidr_match_correct m n count :
  1 <= count ->
  let '(af, maxbits) := cidr_family m n in
  (cidr_match m n count = 0 \/ cidr_match m n count = count) /\
  (cidr_match m n count = count <->
   count <= maxbits /\
   exists block addr, op_inet_pton af m = (1, block) /\ op_inet_pton af n = (1, addr) /\
     take (Z.to_nat count) (addr_bits block) = take (Z.to_nat count) (addr_bits addr)).
Proof. apply cidr_match_spec. Qed.

Lemma cidr_match_correct_witness :
  (cidr_match (bs "10.1.255.0") (bs "10.1.128.9") 17 = 0 \/
   cidr_match (bs "10.1.255.0") (bs "10.1.128.9") 17 = 17) /\
  (cidr_match (bs "10.1.255.0") (bs "10.1.128.9") 17 = 17 <->
   17 <= 32 /\
   exists block addr, op_inet_pton AF_INET (bs "10.1.255.0") = (1, block) /\
     op_inet_pton AF_INET (bs "10.1.128.9") = (1, addr) /\
     take 17 (addr_bits block) = take 17 (addr_bits addr)).
Proof. apply (cidr_match_correct (bs "10.1.255.0") (bs "10.1.128.9") 17). lia. Defined.

(** A user hostmask [u@net/len] matches an address [u'@host] exactly when the
    nick!ident part matches as a wildcard mask and the host is in the network,
    whatever the server supports ([user] set). *)
Theorem addr_match_cidr cs u h ds u' h' :
  ~ In (ch "@") h -> ~ In (ch "@") h' -> digits ds -> ds <> [] ->
  (length (u ++ ch "@" :: h ++ ch "/" :: ds) <= 323)%nat -> (length (u' ++ ch "@" :: h') <= 323)%nat ->
  let up := map _rfc_toupper in
  addr_match _rfc_toupper cs (u ++ ch "@" :: h ++ ch "/" :: ds) (u' ++ ch "@" :: h') true false <> 0 <->
  _wild_match (up u) (up u') = 1 /\ cidr_match (up h) (up h') (egg_atoi ds) <> 0.
Proof.
  intros Hh Hh' Hd Hne Hl Hl' up. rewrite addr_match_cidr_eq by done. fold up.
  pose proof (cidr_match_nonneg (up h) (up h') (egg_atoi ds)) as Hc.
  destruct (wild_match_01 (up u) (up u')) as [-> | ->]; simpl.
  - split; [done|]. by intros [? _].
  - destruct (Z.eqb_spec (cidr_match (up h) (up h') (egg_atoi ds)) 0) as [->|Hn].
    + split; [done|]. by intros [_ ?].
    + split; [done|]. intros _. destruct (cidr_match _ _ _); lia.
Qed.

Lemma addr_match_cidr_witness :
  addr_match _rfc_toupper false (bs "*!*@10.1.0.0/16") (bs "nick!u@10.1.2.3") true false <> 0 <->
  _wild_match (bs "*!*") (bs "NICK!U") = 1 /\
  cidr_match (bs "10.1.0.0") (bs "10.1.2.3") 16 <> 0.
Proof.
  apply (addr_match_cidr false (bs "*!*") (bs "10.1.0.0") (bs "16") (bs "nick!u") (bs "10.1.2.3")).
  - vm_compute. intuition discriminate.
  - vm_compute. intuition discriminate.
  - repeat constructor.
  - discriminate.
  - vm_compute. lia.
  - vm_compute. lia.
Defined.

Lemma quad_no_colon k s q : quad k s q -> ~ In (ch ":") s.
Proof.
  induction 1 as [ds Hd _ _|k ds s q Hd _ _ Hq IH].
  - by apply digits_not_in.
  - rewrite in_app_iff. cbn [In]. intros [H|[H|H]]; try done. by eapply digits_not_in in H.
Qed.

(** The prefix length is stored in an [int] without a range check: a length of
    2^32 is read as 0, and the mask then matches every IPv4 address, where a length
    of 33 matches none. *)
Theorem huge_prefix_matches_all d q :
  quad 4 d q ->
  cidr_match (bs "10.0.0.0") d (egg_atoi (bs "4294967296")) = 1 /\
  cidr_match (bs "10.0.0.0") d (egg_atoi (bs "33")) = 0.
Proof.
  intros Hq. pose proof (quad_no_colon _ _ _ Hq) as Hc%mem_false.
  apply inet4_ref_quad in Hq. rewrite <- inet_pton4_ref in Hq.
  unfold cidr_match. rewrite Hc. unfold op_inet_pton. cbn - [inet_pton4 egg_atoi].
  by rewrite Hq.
Qed.

Lemma huge_prefix_matches_all_witness :
  cidr_match (bs "10.0.0.0") (bs "192.0.2.1") (egg_atoi (bs "4294967296")) = 1 /\
  cidr_match (bs "10.0.0.0") (bs "192.0.2.1") (egg_atoi (bs "33")) = 0.
Proof.
  apply (huge_prefix_matches_all (bs "192.0.2.1") [192; 0; 2; 1]).
  apply inet4_ref_quad. reflexivity.
Defined.

(** [collapse] and [collapse_esc] do not change what a mask matches: the first
    under [_wild_match], the second, which leaves quoted asterisks alone, under
    [_wild_match_per]; and [collapse] is idempotent. *)
Theorem collapse_preserves m n cmp1 :
  _wild_match (collapse m) n = _wild_match m n /\
  _wild_match_per (collapse_esc m) n cmp1 = _wild_match_per m n cmp1 /\
  collapse (collapse m) = collapse m.
Proof.
  assert (Hk : forall per a b, items per a = items per b -> forall n, ere_match a n per = ere_match b n per).
  { intros per a b H x. unfold ere_match. rewrite !irc_to_ere_items. unfold kept. by rewrite H. }
  split_and!.
  - unfold _wild_match. destruct m as [|c m]; [done|].
    destruct (collapse (c :: m)) as [|c' m'] eqn:E; [by apply (proj1 (collapse_nonempty _)) in E|].
    destruct n; [done|]. apply Hk. rewrite <- E. apply collapse_items.
  - unfold _wild_match_per. destruct n, cmp1; try done. apply Hk, cesc_items.
  - apply collapse_idem_star.
Qed.

(** A cron field without steps matches a value exactly when one of the elements
    of its comma-separated list does: an asterisk, an equal number, or a range that
    contains it. *)
Theorem cron_field_list es v :
  Forall celem_ok es -> cron_matchfld (print_celems es) v = existsb (celem_sat v) es.
Proof. intros H. by apply cron_loop_list. Qed.

Lemma cron_field_list_witness :
  cron_matchfld (bs "1-5,17,30-59") 42 =
  existsb (celem_sat 42)
    [CRange (bs "1") (bs "5"); CNum (bs "17"); CRange (bs "30") (bs "59")].
Proof.
  apply (cron_field_list [CRange (bs "1") (bs "5"); CNum (bs "17"); CRange (bs "30") (bs "59")]).
  unfold celem_ok, number, digits.
  repeat constructor; first [discriminate | vm_compute; discriminate | vm_compute; reflexivity].
Defined.

(** A range with a step ignores its upper bound: [a-b/k] matches every value
    that differs from [a] by a multiple of [k], inside the range or not. *)
Theorem cron_range_step_unbounded d1 d2 dk v :
  number d1 -> number d2 -> number dk -> dec_value d1 <= dec_value d2 -> 1 <= dec_value dk ->
  cron_matchfld (d1 ++ ch "-" :: d2 ++ ch "/" :: dk) v =
  (Z.rem (v - dec_value d1) (dec_value dk) =? 0).
Proof. apply cron_range_step. Qed.

Lemma cron_range_step_unbounded_witness :
  cron_matchfld (bs "10-20/5") 35 = true.
Proof.
  apply (cron_range_step_unbounded (bs "10") (bs "20") (bs "5") 35); unfold number, digits;
    repeat constructor; first [discriminate | vm_compute; discriminate | vm_compute; reflexivity].
Defined.

(** C40. [cron_match] on the five fields of a mask that has all of them, as a formula of the fields
    and of what [cron_matchfld] says about each: the minute and the hour must match; with a
    restricted month, the month and the day of the month {e or} the weekday, where a weekday
    that is open counts as a match; with an open month, the weekday alone decides when it is given,
    and the day of the month when it is not.  A Sunday matches as 0, or as 7 in what the search
    for 0 has left of the field: its first element, without the step.  This is what the code
    does, and not what is documented for cron binds (see the findings). *)
Theorem cron_match_correct q0 q1 q2 q3 q4 mtch t0 t1 t2 t3 t4 :
  word q0 -> word q1 -> word q2 -> word q3 -> word q4 ->
  scan_ints 5 mtch = Some [t0; t1; t2; t3; t4] ->
  cron_match (five q0 q1 q2 q3 q4) mtch =
  (fstar q0 || cron_matchfld q0 t0) && (fstar q1 || cron_matchfld q1 t1) &&
  (if fstar q3 then (if fstar q4 then fstar q2 || cron_matchfld q2 t2 else weekday_ok q4 t4)
   else cron_matchfld q3 t3 && ((negb (fstar q2) && cron_matchfld q2 t2) || fstar q4 || weekday_ok q4 t4)).
Proof.
  intros H0 H1 H2 H3 H4 Hs. rewrite (cron_match_formula q0 q1 q2 q3 q4 mtch t0 t1 t2 t3 t4) by done.
  by rewrite (fok_plain 0), (fok_plain 1), (fok_plain 2), (fok_plain 3), fok_weekday by done.
Qed.

Lemma cron_match_correct_witness :
  cron_match (five (bs "30") (bs "*/2") (bs "13") (bs "1,7") (bs "7,5")) (bs "30 04 14 07 00") = true.
Proof.
  etrans; [apply (cron_match_correct (bs "30") (bs "*/2") (bs "13") (bs "1,7") (bs "7,5")
                    (bs "30 04 14 07 00") 30 4 14 7 0)|vm_compute; reflexivity];
    try (split; [discriminate|vm_compute; intuition discriminate]).
  vm_compute. reflexivity.
Defined.

(** Of a list of weekdays without steps only the first element is tried with 7 for a Sunday. *)
Theorem cron_seven_first e es :
  Forall celem_ok (e :: es) -> weekday_ok (print_celems (e :: es)) 0 = existsb (celem_sat 0) (e :: es) || celem_sat 7 e.
Proof.
  intros H. unfold weekday_ok. change (0 =? 0) with true. cbn [andb]. unfold cron_matchfld at 1. rewrite cron_loop_list by done. f_equal.
  assert (Ec : cron_cut (print_celems (e :: es)) = print_celem e).
  { apply Forall_cons in H as [He _]. unfold cron_cut.
    assert (Hf : fst (split_at (ch ",") (print_celems (e :: es))) = print_celem e).
    { destruct es as [|e' es]; [cbn [print_celems]; by rewrite split_at_end by (by apply print_celem_not_in)|].
      by rewrite print_celems_cons, split_at_app by (by apply print_celem_not_in). }
    rewrite Hf, split_at_end by (by apply print_celem_not_in). by destruct (print_celem e). }
  rewrite Ec. apply Forall_cons in H as [He _]. unfold cron_matchfld.
  pose proof (cron_loop_list [e] (length (print_celem e)) 7) as Hl. cbn [print_celems existsb] in Hl.
  rewrite Hl by (by repeat constructor). by rewrite orb_false_r.
Qed.

Lemma cron_seven_first_witness :
  weekday_ok (bs "1,7") 0 = existsb (celem_sat 0) [CNum (bs "1"); CNum (bs "7")] || celem_sat 7 (CNum (bs "1")).
Proof.
  apply (cron_seven_first (CNum (bs "1")) [CNum (bs "7")]). unfold celem_ok, number, digits.
  repeat constructor; first [discriminate | vm_compute; discriminate | vm_compute; reflexivity].
Defined.

(** A Sunday is not found as the second of two weekdays; a step is forgotten. *)
Example cron_sunday_lost :
  cron_match (bs "0 0 * * 1,7") (bs "00 00 01 02 00") = false /\ cron_match (bs "0 0 * * 7,1") (bs "00 00 01 02 00") = true /\
  cron_match (bs "0 0 * * 5-7/3") (bs "00 00 01 02 00") = true.
Proof. vm_compute. by repeat split. Qed.

(** With a restricted month and an open weekday, the day of the month has no
    effect: [0 0 13 1 *] matches every midnight of January. *)
Theorem cron_day_ignored q0 q1 q2 q2' q3 mtch t0 t1 t2 t3 t4 :
  word q0 -> word q1 -> word q2 -> word q2' -> word q3 -> q3 <> [ch "*"] ->
  scan_ints 5 mtch = Some [t0; t1; t2; t3; t4] ->
  cron_match (five q0 q1 q2 q3 (bs "*")) mtch = cron_match (five q0 q1 q2' q3 (bs "*")) mtch.
Proof.
  intros H0 H1 H2 H2' H3 Hne Hscan.
  assert (Hs : word (bs "*")) by (split; [discriminate|vm_compute; intuition discriminate]).
  rewrite (cron_match_formula _ _ _ _ _ _ _ _ _ _ _ H0 H1 H2 H3 Hs Hscan).
  rewrite (cron_match_formula _ _ _ _ _ _ _ _ _ _ _ H0 H1 H2' H3 Hs Hscan).
  assert (Hq : fstar q3 = false) by (by apply bool_decide_false). rewrite Hq.
  change (fstar (bs "*")) with true. by rewrite !orb_true_r.
Qed.

Lemma cron_day_ignored_witness :
  cron_match (five (bs "0") (bs "0") (bs "13") (bs "1") (bs "*")) (bs "00 00 05 01 02") =
  cron_match (five (bs "0") (bs "0") (bs "5") (bs "1") (bs "*")) (bs "00 00 05 01 02") /\
  cron_match (bs "0 0 13 1 *") (bs "00 00 05 01 02") = true.
Proof.
  split; [|vm_compute; reflexivity].
  apply (cron_day_ignored (bs "0") (bs "0") (bs "13") (bs "5") (bs "1") (bs "00 00 05 01 02") 0 0 5 1 2);
    try (split; [discriminate|vm_compute; intuition discriminate]).
  - discriminate.
  - vm_compute. reflexivity.
Defined.
