(* ===== verification/LogModes.v ===== *)
(** * Log levels (src/flags.c: [logmodes], [masktype], [maskname])

    A log mask is a set of 26 levels; the three functions read it from letters, write
    it as letters, and write it as a list of names.  The levels of the raw traffic
    exist only when the setting [raw_log] is on. *)

From S2P Require Import Prelude LibC.

Definition LOG_MSGS : Z := 0x000001.
Definition LOG_PUBLIC : Z := 0x000002.
Definition LOG_JOIN : Z := 0x000004.
Definition LOG_MODES : Z := 0x000008.
Definition LOG_CMDS : Z := 0x000010.
Definition LOG_MISC : Z := 0x000020.
Definition LOG_BOTS : Z := 0x000040.
Definition LOG_RAW : Z := 0x000080.
Definition LOG_FILES : Z := 0x000100.
Definition LOG_LEV1 : Z := 0x000200.
Definition LOG_LEV2 : Z := 0x000400.
Definition LOG_LEV3 : Z := 0x000800.
Definition LOG_LEV4 : Z := 0x001000.
Definition LOG_LEV5 : Z := 0x002000.
Definition LOG_LEV6 : Z := 0x004000.
Definition LOG_LEV7 : Z := 0x008000.
Definition LOG_LEV8 : Z := 0x010000.
Definition LOG_SERV : Z := 0x020000.
Definition LOG_DEBUG : Z := 0x040000.
Definition LOG_WALL : Z := 0x080000.
Definition LOG_SRVOUT : Z := 0x100000.
Definition LOG_BOTNETIN : Z := 0x200000.
Definition LOG_BOTSHRIN : Z := 0x400000.
Definition LOG_BOTNETOUT : Z := 0x800000.
Definition LOG_BOTSHROUT : Z := 0x1000000.
Definition LOG_BOTMSG : Z := 0x2000000.
Definition LOG_ALL : Z := 0x3ffffff.

(** The switch of [logmodes]: the bits one character adds. *)
Definition log_bit (raw_log : bool) (c : Z) : Z :=
  let one_of l u : bool := (c =? l) || (c =? u) in
  let raw b : Z := if raw_log then b else 0 in
  if one_of (ch "m") (ch "M") then LOG_MSGS
  else if one_of (ch "p") (ch "P") then LOG_PUBLIC
  else if one_of (ch "j") (ch "J") then LOG_JOIN
  else if one_of (ch "k") (ch "K") then LOG_MODES
  else if one_of (ch "c") (ch "C") then LOG_CMDS
  else if one_of (ch "o") (ch "O") then LOG_MISC
  else if one_of (ch "b") (ch "B") then LOG_BOTS
  else if one_of (ch "l") (ch "L") then LOG_BOTMSG
  else if one_of (ch "r") (ch "R") then raw LOG_RAW
  else if one_of (ch "w") (ch "W") then LOG_WALL
  else if one_of (ch "x") (ch "X") then LOG_FILES
  else if one_of (ch "s") (ch "S") then LOG_SERV
  else if one_of (ch "d") (ch "D") then LOG_DEBUG
  else if one_of (ch "v") (ch "V") then raw LOG_SRVOUT
  else if one_of (ch "t") (ch "T") then raw LOG_BOTNETIN
  else if one_of (ch "u") (ch "U") then raw LOG_BOTNETOUT
  else if one_of (ch "h") (ch "H") then raw LOG_BOTSHRIN
  else if one_of (ch "g") (ch "G") then raw LOG_BOTSHROUT
  else if c =? ch "1" then LOG_LEV1
  else if c =? ch "2" then LOG_LEV2
  else if c =? ch "3" then LOG_LEV3
  else if c =? ch "4" then LOG_LEV4
  else if c =? ch "5" then LOG_LEV5
  else if c =? ch "6" then LOG_LEV6
  else if c =? ch "7" then LOG_LEV7
  else if c =? ch "8" then LOG_LEV8
  else if c =? ch "*" then LOG_ALL
  else 0.

Definition logmodes (raw_log : bool) (s : list Z) : Z :=
  fold_left (fun res c => res ||| log_bit raw_log c) s 0.

(** The tests of [masktype] and [maskname], in their order: the level, whether it
    also needs [raw_log], its letter and its name. *)
Definition log_levels : list (Z * bool * Z * list Z) :=
  [ (LOG_MSGS, false, ch "m", bs "msgs");
    (LOG_PUBLIC, false, ch "p", bs "public");
    (LOG_JOIN, false, ch "j", bs "joins");
    (LOG_MODES, false, ch "k", bs "kicks/modes");
    (LOG_CMDS, false, ch "c", bs "cmds");
    (LOG_MISC, false, ch "o", bs "misc");
    (LOG_BOTS, false, ch "b", bs "bots");
    (LOG_BOTMSG, false, ch "l", bs "linked bot msgs");
    (LOG_RAW, true, ch "r", bs "raw");
    (LOG_FILES, false, ch "x", bs "files");
    (LOG_SERV, false, ch "s", bs "server input");
    (LOG_DEBUG, false, ch "d", bs "debug");
    (LOG_WALL, false, ch "w", bs "wallops");
    (LOG_SRVOUT, true, ch "v", bs "server output");
    (LOG_BOTNETIN, true, ch "t", bs "botnet incoming");
    (LOG_BOTNETOUT, true, ch "u", bs "botnet outgoing");
    (LOG_BOTSHRIN, true, ch "h", bs "incoming share traffic");
    (LOG_BOTSHROUT, true, ch "g", bs "outgoing share traffic");
    (LOG_LEV1, false, ch "1", bs "level 1");
    (LOG_LEV2, false, ch "2", bs "level 2");
    (LOG_LEV3, false, ch "3", bs "level 3");
    (LOG_LEV4, false, ch "4", bs "level 4");
    (LOG_LEV5, false, ch "5", bs "level 5");
    (LOG_LEV6, false, ch "6", bs "level 6");
    (LOG_LEV7, false, ch "7", bs "level 7");
    (LOG_LEV8, false, ch "8", bs "level 8") ].

(** [if ((x & LEVEL) && raw_log) ...], for each level in turn. *)
Definition log_tests (raw_log : bool) (x : Z) (write : Z -> list Z -> list Z) : list Z :=
  concat (map (fun '(bit, raw, letter, name) =>
                 if (x &? bit) && (negb raw || raw_log) then write letter name else [])
              log_levels).

Definition masktype (raw_log : bool) (x : Z) : list Z :=
  match log_tests raw_log x (fun letter _ => [letter]) with
  | [] => bs "-"
  | s => s
  end.

(** The last separator is cut off. *)
Definition maskname (raw_log : bool) (x : Z) : list Z :=
  match log_tests raw_log x (fun _ name => name ++ bs ", ") with
  | [] => bs "none"
  | s => take (length s - 2) s
  end.

(** ** Lemmas *)

(** The levels one can see under a setting of [raw_log]. *)
Definition visible (raw_log : bool) : Z :=
  fold_right (fun '(bit, raw, _, _) m => if negb raw || raw_log then bit ||| m else m) 0 log_levels.

Lemma visible_all : visible true = LOG_ALL.
Proof. reflexivity. Qed.

Lemma land_pow2 x k : 0 <= k -> Z.land x (2 ^ k) = if x &? 2 ^ k then 2 ^ k else 0.
Proof.
  intros Hk. rewrite land_pow2_testbit by done. apply Z.bits_inj'. intros n Hn.
  rewrite Z.land_spec. destruct (Z.eq_dec k n) as [<-|Hne].
  - rewrite Z.pow2_bits_true by done. destruct (Z.testbit x k); simpl.
    + by rewrite Z.pow2_bits_true.
    + by rewrite Z.bits_0.
  - rewrite Z.pow2_bits_false by done. rewrite andb_false_r.
    destruct (Z.testbit x k); [by rewrite Z.pow2_bits_false|by rewrite Z.bits_0].
Qed.

Lemma logmodes_from raw_log s : forall r,
  fold_left (fun res c => res ||| log_bit raw_log c) s r = r ||| logmodes raw_log s.
Proof.
  unfold logmodes. induction s as [|c s IH]; intros r; cbn [fold_left]; [by rewrite Z.lor_0_r|].
  rewrite (IH (r ||| log_bit raw_log c)), (IH (0 ||| log_bit raw_log c)), Z.lor_0_l.
  by rewrite Z.lor_assoc.
Qed.

(** Reading the letters written for a list of levels gives the levels back. *)
Lemma logmodes_letters raw_log x (levels : list (Z * bool * Z * list Z)) :
  Forall (fun '(bit, raw, letter, _) => bit = 2 ^ Z.log2 bit /\ 0 < bit /\
            (negb raw || raw_log = true -> log_bit raw_log letter = bit)) levels ->
  logmodes raw_log (concat (map (fun '(bit, raw, letter, _) =>
      if (x &? bit) && (negb raw || raw_log) then [letter] else []) levels)) =
  Z.land x (fold_right (fun '(bit, raw, _, _) m =>
      if negb raw || raw_log then bit ||| m else m) 0 levels).
Proof.
  induction 1 as [|[[[bit raw] letter] name] levels (Hp & Hpos & Hb) Hl IH];
    cbn [map concat fold_right]; [by rewrite Z.land_0_r|].
  destruct (negb raw || raw_log) eqn:E; [|by rewrite andb_false_r].
  rewrite andb_true_r, Z.land_lor_distr_r. rewrite Hp at 2.
  rewrite land_pow2 by apply Z.log2_nonneg. rewrite <- Hp.
  destruct (x &? bit); [|rewrite Z.lor_0_l; exact IH].
  etrans; [|exact (f_equal (Z.lor bit) IH)]. unfold logmodes at 1. cbn [app fold_left]. rewrite logmodes_from.
  by rewrite Hb, Z.lor_0_l.
Qed.

Lemma log_levels_ok raw_log :
  Forall (fun '(bit, raw, letter, _) => bit = 2 ^ Z.log2 bit /\ 0 < bit /\
            (negb raw || raw_log = true -> log_bit raw_log letter = bit)) log_levels.
Proof.
  unfold log_levels. repeat (constructor; [split; [reflexivity|split; [reflexivity|]];
    destruct raw_log; (reflexivity || discriminate)|]). constructor.
Qed.

(** ** The theorems *)

(** Round trip of the log levels: reading the letters [masktype] writes gives
    the mask back, restricted to the levels the setting allows (all 26 with
    [raw_log]); and the letters fit the buffer of 27 bytes. *)
Theorem logmodes_masktype raw_log x :
  logmodes raw_log (masktype raw_log x) = Z.land x (visible raw_log) /\
  (length (masktype raw_log x) <= 26)%nat.
Proof.
  unfold masktype. assert (Hlog : logmodes raw_log (log_tests raw_log x (fun letter _ => [letter])) =
                                  Z.land x (visible raw_log))
    by apply logmodes_letters, log_levels_ok.
  assert (Hlen : forall levels : list (Z * bool * Z * list Z),
    (length (concat (map (fun '(bit, raw, letter, name) =>
       if (x &? bit) && (negb raw || raw_log) then [letter] else []) levels)) <= length levels)%nat).
  { induction levels as [|[[[bit raw] letter] name] levels IH]; simpl; [done|].
    rewrite length_app. case_if; simpl; lia. }
  specialize (Hlen log_levels). fold (log_tests raw_log x (fun letter _ => [letter])) in Hlen.
  destruct (log_tests raw_log x (fun letter _ => [letter])) as [|c s] eqn:E.
  - split; [|simpl; lia]. rewrite <- Hlog. reflexivity.
  - split; [done|]. exact Hlen.
Qed.
