(* ===== verification/FlagDefs.v ===== *)
(** * User, channel and bot flags (src/flags.h, src/flags.c)

    The flag constants, the record that carries flags between the functions, the
    sanity checks that root out mutually exclusive flags, the text form of flags, and
    the tests of a user's flags against required ones.  An [int] of flags is a [Z]
    and its bits are tested and changed with the bit operations of the code. *)

From S2P Require Import Prelude LibC.

(** ** Constants *)

Definition FR_GLOBAL : Z := 0x00000001.
Definition FR_BOT : Z := 0x00000002.
Definition FR_CHAN : Z := 0x00000004.
Definition FR_OR : Z := 0x40000000.
Definition FR_AND : Z := 0x20000000.
Definition FR_ANYWH : Z := 0x10000000.
Definition FR_ALL : Z := 0x0fffffff.
Definition USER_VALID : Z := 0x003fbfeff.
Definition CHAN_VALID : Z := 0x003677c79.
Definition BOT_VALID : Z := 0x07ff6abdf.
Definition USER_AUTOOP : Z := 0x00000001.
Definition USER_BOT : Z := 0x00000002.
Definition USER_COMMON : Z := 0x00000004.
Definition USER_DEOP : Z := 0x00000008.
Definition USER_EXEMPT : Z := 0x00000010.
Definition USER_FRIEND : Z := 0x00000020.
Definition USER_GVOICE : Z := 0x00000040.
Definition USER_HIGHLITE : Z := 0x00000080.
Definition USER_I : Z := 0x00000100.
Definition USER_JANITOR : Z := 0x00000200.
Definition USER_KICK : Z := 0x00000400.
Definition USER_HALFOP : Z := 0x00000800.
Definition USER_MASTER : Z := 0x00001000.
Definition USER_OWNER : Z := 0x00002000.
Definition USER_OP : Z := 0x00004000.
Definition USER_PARTY : Z := 0x00008000.
Definition USER_QUIET : Z := 0x00010000.
Definition USER_DEHALFOP : Z := 0x00020000.
Definition USER_S : Z := 0x00040000.
Definition USER_BOTMAST : Z := 0x00080000.
Definition USER_UNSHARED : Z := 0x00100000.
Definition USER_VOICE : Z := 0x00200000.
Definition USER_WASOPTEST : Z := 0x00400000.
Definition USER_XFER : Z := 0x00800000.
Definition USER_AUTOHALFOP : Z := 0x01000000.
Definition USER_WASHALFOPTEST : Z := 0x02000000.
Definition USER_DEFAULT : Z := 0x40000000.
Definition BOT_ALT : Z := 0x00000001.
Definition BOT_SHBAN : Z := 0x00000002.
Definition BOT_SHCHAN : Z := 0x00000004.
Definition BOT_SHLIMITED : Z := 0x00000008.
Definition BOT_SHEXEMPT : Z := 0x00000010.
Definition BOT_F : Z := 0x00000020.
Definition BOT_GLOBAL : Z := 0x00000040.
Definition BOT_HUB : Z := 0x00000080.
Definition BOT_ISOLATE : Z := 0x00000100.
Definition BOT_SHINV : Z := 0x00000200.
Definition BOT_K : Z := 0x00000400.
Definition BOT_LEAF : Z := 0x00000800.
Definition BOT_M : Z := 0x00001000.
Definition BOT_SHIGN : Z := 0x00002000.
Definition BOT_O : Z := 0x00004000.
Definition BOT_PASSIVE : Z := 0x00008000.
Definition BOT_Q : Z := 0x00010000.
Definition BOT_REJECT : Z := 0x00020000.
Definition BOT_AGGRESSIVE : Z := 0x00040000.
Definition BOT_T : Z := 0x00080000.
Definition BOT_SHUSER : Z := 0x00100000.
Definition BOT_FLAG0 : Z := 0x00200000.
Definition BOT_FLAG1 : Z := 0x00400000.
Definition BOT_FLAG2 : Z := 0x00800000.
Definition BOT_FLAG3 : Z := 0x01000000.
Definition BOT_FLAG4 : Z := 0x02000000.
Definition BOT_FLAG5 : Z := 0x04000000.
Definition BOT_FLAG6 : Z := 0x08000000.
Definition BOT_FLAG7 : Z := 0x10000000.
Definition BOT_FLAG8 : Z := 0x20000000.
Definition BOT_FLAG9 : Z := 0x40000000.
Definition BOT_SHPERMS : Z :=
  BOT_SHBAN ||| BOT_SHCHAN ||| BOT_SHEXEMPT ||| BOT_SHIGN ||| BOT_SHINV ||| BOT_SHUSER ||| BOT_SHLIMITED.
Definition BOT_SHARE : Z :=
  BOT_AGGRESSIVE ||| BOT_PASSIVE ||| BOT_SHPERMS.
Definition BOT_SANE_ALTOWNSHUB : Z := 0x00000001.
Definition BOT_SANE_HUBOWNSALT : Z := 0x00000002.
Definition BOT_SANE_OWNSALTHUB : Z := 0x00000004.
Definition BOT_SANE_SHPOWNSAGGR : Z := 0x00000008.
Definition BOT_SANE_AGGROWNSSHP : Z := 0x00000010.
Definition BOT_SANE_OWNSSHPAGGR : Z := 0x00000020.
Definition BOT_SANE_SHPOWNSPASS : Z := 0x00000040.
Definition BOT_SANE_PASSOWNSSHP : Z := 0x00000080.
Definition BOT_SANE_OWNSSHPPASS : Z := 0x00000100.
Definition BOT_SANE_SHAREOWNSREJ : Z := 0x00000200.
Definition BOT_SANE_REJOWNSSHARE : Z := 0x00000400.
Definition BOT_SANE_OWNSSHAREREJ : Z := 0x00000800.
Definition BOT_SANE_HUBOWNSREJ : Z := 0x00001000.
Definition BOT_SANE_REJOWNSHUB : Z := 0x00002000.
Definition BOT_SANE_OWNSHUBREJ : Z := 0x00004000.
Definition BOT_SANE_ALTOWNSREJ : Z := 0x00008000.
Definition BOT_SANE_REJOWNSALT : Z := 0x00010000.
Definition BOT_SANE_OWNSALTREJ : Z := 0x00020000.
Definition BOT_SANE_AGGROWNSPASS : Z := 0x00040000.
Definition BOT_SANE_PASSOWNSAGGR : Z := 0x00080000.
Definition BOT_SANE_OWNSAGGRPASS : Z := 0x00100000.
Definition BOT_SANE_NOSHAREOWNSGLOB : Z := 0x00200000.
Definition BOT_SANE_OWNSGLOB : Z := 0x00400000.
Definition UC_SANE_DEOPOWNSOP : Z := 0x00000001.
Definition UC_SANE_OPOWNSDEOP : Z := 0x00000002.
Definition UC_SANE_OWNSDEOPOP : Z := 0x00000004.
Definition UC_SANE_DEHALFOPOWNSHALFOP : Z := 0x00000008.
Definition UC_SANE_HALFOPOWNSDEHALFOP : Z := 0x00000010.
Definition UC_SANE_OWNSDEHALFOPHALFOP : Z := 0x00000020.
Definition UC_SANE_DEOPOWNSAUTOOP : Z := 0x00000040.
Definition UC_SANE_AUTOOPOWNSDEOP : Z := 0x00000080.
Definition UC_SANE_OWNSDEOPAUTOOP : Z := 0x00000100.
Definition UC_SANE_DEHALFOPOWNSAHALFOP : Z := 0x00000200.
Definition UC_SANE_AHALFOPOWNSDEHALFOP : Z := 0x00000400.
Definition UC_SANE_OWNSDEHALFOPAHALFOP : Z := 0x00000800.
Definition UC_SANE_QUIETOWNSVOICE : Z := 0x00001000.
Definition UC_SANE_VOICEOWNSQUIET : Z := 0x00002000.
Definition UC_SANE_OWNSQUIETVOICE : Z := 0x00004000.
Definition UC_SANE_QUIETOWNSGVOICE : Z := 0x00008000.
Definition UC_SANE_GVOICEOWNSQUIET : Z := 0x00010000.
Definition UC_SANE_OWNSQUIETGVOICE : Z := 0x00020000.
Definition UC_SANE_OWNERADDSMASTER : Z := 0x00040000.
Definition UC_SANE_MASTERADDSOP : Z := 0x00080000.
Definition UC_SANE_OPADDSHALFOP : Z := 0x00100000.
Definition UC_SANE_NOBOTOWNSAGGR : Z := 0x00200000.
Definition UC_SANE_BOTOWNSPARTY : Z := 0x00400000.
Definition UC_SANE_BOTOWNSMASTER : Z := 0x00800000.
Definition UC_SANE_BOTOWNSCOMMON : Z := 0x01000000.
Definition UC_SANE_BOTOWNSOWNER : Z := 0x02000000.
Definition UC_SANE_MASTERADDSBOTMOPJAN : Z := 0x04000000.
Definition UC_SANE_BOTMASTADDSPARTY : Z := 0x08000000.
Definition UC_SANE_JANADDSXFER : Z := 0x10000000.
Definition UC_SANE_AUTOOPADDSOP : Z := 0x20000000.
Definition UC_SANE_AUTOHALFOPADDSHALFOP : Z := 0x40000000.
Definition UC_SANE_GVOICEADDSVOICE : Z := 0x80000000.
(** ** [struct flag_record] *)

Record flag_record := mk_fr {
  fr_match : Z;
  fr_global : Z;
  fr_udef_global : Z;
  fr_bot : Z;
  fr_chan : Z;
  fr_udef_chan : Z
}.

(** ** [sanity_check] *)

(** [if (atr & c) atr |= m] *)
Definition implies (c m atr : Z) : Z := if atr &? c then atr ||| m else atr.
(** [if ((atr & a) && (atr & b)) atr &= ~(m)] *)
Definition clash (a b m atr : Z) : Z := if (atr &? a) && (atr &? b) then atr &~ m else atr.

Definition sanity_check (atr : Z) : Z :=
  let atr := clash USER_BOT (USER_PARTY ||| USER_MASTER ||| USER_COMMON ||| USER_OWNER)
                   (USER_PARTY ||| USER_MASTER ||| USER_COMMON ||| USER_OWNER) atr in
  let atr := clash USER_OP USER_DEOP (USER_OP ||| USER_DEOP) atr in
  let atr := clash USER_HALFOP USER_DEHALFOP (USER_HALFOP ||| USER_DEHALFOP) atr in
  let atr := clash USER_AUTOOP USER_DEOP (USER_AUTOOP ||| USER_DEOP) atr in
  let atr := clash USER_AUTOHALFOP USER_DEHALFOP (USER_AUTOHALFOP ||| USER_DEHALFOP) atr in
  let atr := clash USER_VOICE USER_QUIET (USER_VOICE ||| USER_QUIET) atr in
  let atr := clash USER_GVOICE USER_QUIET (USER_GVOICE ||| USER_QUIET) atr in
  let atr := implies USER_OWNER USER_MASTER atr in
  let atr := implies USER_MASTER (USER_BOTMAST ||| USER_OP ||| USER_JANITOR) atr in
  let atr := implies USER_BOTMAST USER_PARTY atr in
  let atr := implies USER_JANITOR USER_XFER atr in
  implies USER_OP USER_HALFOP atr.

(** ** The sanity checks with messages *)

(** The state of a check: [*atr] and [msgids]; the parameters [old_atr] and [chg] do
    not change. *)
Abbreviation sane := (Z * Z)%type.

(** [msgids |= id], on an [int]. *)
Definition msg_add (msgids id : Z) : Z := i32 (msgids ||| id).

Section Sanity.
Context (old_atr chg : Z).

(** The body of a conflict between [a] and [b].  When both were asked for, both are
    dropped and the one of [r1], [r2] that was there before is restored; otherwise
    the one that was there before gives way to the one asked for. *)
Definition resolve (r1 r2 a b m_both m_a m_b : Z) (st : sane) : sane :=
  let '(atr, msgids) := st in
  if (chg &? a) && (chg &? b) then
    let atr := atr &~ (a ||| b) in
    let atr := if old_atr &? r1 then atr ||| r1
               else if old_atr &? r2 then atr ||| r2 else atr in
    (atr, msg_add msgids m_both)
  else if old_atr &? a then (atr &~ a, msg_add msgids m_a)
  else if old_atr &? b then (atr &~ b, msg_add msgids m_b)
  else (atr &~ (a ||| b), msg_add msgids m_both).

(** A conflict between two flags [a] (which gives way first) and [b]. *)
Definition exclusive (a b m_both m_a m_b : Z) (st : sane) : sane :=
  if (fst st &? a) && (fst st &? b) then resolve b a a b m_both m_a m_b st else st.

(** A flag that is dropped, with its message. *)
Definition drop_flag (a m : Z) (st : sane) : sane :=
  if fst st &? a then (fst st &~ a, msg_add (snd st) m) else st.

(** The automatic flag [a] adds [o] when it is newly asked for. *)
Definition auto_adds (a o m : Z) (st : sane) : sane :=
  if (fst st &? a) && (chg &? a) && negb (old_atr &? o)
  then (fst st ||| o, msg_add (snd st) m) else st.

(** A flag [c] without [t] adds the flags [add]. *)
Definition adds (c t add m : Z) (st : sane) : sane :=
  if (fst st &? c) && negb (fst st &? t) then (fst st ||| add, msg_add (snd st) m) else st.

(** The six conflicts that the user and the channel checks share. *)
Definition uc_conflicts (st : sane) : sane :=
  let st := exclusive USER_OP USER_DEOP
              UC_SANE_OWNSDEOPOP UC_SANE_DEOPOWNSOP UC_SANE_OPOWNSDEOP st in
  let st := exclusive USER_HALFOP USER_DEHALFOP
              UC_SANE_OWNSDEHALFOPHALFOP UC_SANE_DEHALFOPOWNSHALFOP
              UC_SANE_HALFOPOWNSDEHALFOP st in
  let st := exclusive USER_AUTOOP USER_DEOP
              UC_SANE_OWNSDEOPAUTOOP UC_SANE_DEOPOWNSAUTOOP UC_SANE_AUTOOPOWNSDEOP st in
  let st := exclusive USER_AUTOHALFOP USER_DEHALFOP
              UC_SANE_OWNSDEHALFOPAHALFOP UC_SANE_DEHALFOPOWNSAHALFOP
              UC_SANE_AHALFOPOWNSDEHALFOP st in
  let st := exclusive USER_VOICE USER_QUIET
              UC_SANE_OWNSQUIETVOICE UC_SANE_QUIETOWNSVOICE UC_SANE_VOICEOWNSQUIET st in
  exclusive USER_GVOICE USER_QUIET
    UC_SANE_OWNSQUIETGVOICE UC_SANE_QUIETOWNSGVOICE UC_SANE_GVOICEOWNSQUIET st.

(** The three automatic flags. *)
Definition uc_auto (st : sane) : sane :=
  let st := auto_adds USER_AUTOOP USER_OP UC_SANE_AUTOOPADDSOP st in
  let st := auto_adds USER_AUTOHALFOP USER_HALFOP UC_SANE_AUTOHALFOPADDSHALFOP st in
  auto_adds USER_GVOICE USER_VOICE UC_SANE_GVOICEADDSVOICE st.

(** What a bot cannot be. *)
Definition bot_drops (st : sane) : sane :=
  let st := drop_flag USER_PARTY UC_SANE_BOTOWNSPARTY st in
  let st := drop_flag USER_MASTER UC_SANE_BOTOWNSMASTER st in
  let st := drop_flag USER_COMMON UC_SANE_BOTOWNSCOMMON st in
  drop_flag USER_OWNER UC_SANE_BOTOWNSOWNER st.

(** Owner, master, botmaster, janitor and op, in this order. *)
Definition user_adds (st : sane) : sane :=
  let st := adds USER_OWNER USER_MASTER USER_MASTER UC_SANE_OWNERADDSMASTER st in
  let st := adds USER_MASTER (USER_BOTMAST ||| USER_OP ||| USER_JANITOR)
              (USER_BOTMAST ||| USER_OP ||| USER_JANITOR) UC_SANE_MASTERADDSBOTMOPJAN st in
  let st := adds USER_BOTMAST USER_PARTY USER_PARTY UC_SANE_BOTMASTADDSPARTY st in
  let st := adds USER_JANITOR USER_XFER USER_XFER UC_SANE_JANADDSXFER st in
  adds USER_OP USER_HALFOP USER_HALFOP UC_SANE_OPADDSHALFOP st.

Definition user_body (st : sane) : sane :=
  user_adds (uc_auto (uc_conflicts (if fst st &? USER_BOT then bot_drops st else st))).

(** Owner, master and op. *)
Definition chan_adds (st : sane) : sane :=
  let st := adds USER_OWNER USER_MASTER USER_MASTER UC_SANE_OWNERADDSMASTER st in
  let st := adds USER_MASTER USER_OP USER_OP UC_SANE_MASTERADDSOP st in
  adds USER_OP USER_HALFOP USER_HALFOP UC_SANE_OPADDSHALFOP st.

(** Only a bot shares aggressively. *)
Definition chan_body (usr_atr : Z) (st : sane) : sane :=
  let st := chan_adds (uc_auto (uc_conflicts st)) in
  if negb (usr_atr &? USER_BOT) && (fst st &? BOT_AGGRESSIVE)
  then (fst st &~ BOT_AGGRESSIVE, msg_add (snd st) UC_SANE_NOBOTOWNSAGGR) else st.

(** Granular sharing against aggressive and passive sharing.  The outer test is made
    once, before the inner ones. *)
Definition bot_shperms (st : sane) : sane :=
  if fst st &? BOT_SHPERMS then
    let st := if fst st &? BOT_AGGRESSIVE then
                resolve BOT_AGGRESSIVE BOT_SHPERMS BOT_AGGRESSIVE BOT_SHPERMS
                  BOT_SANE_OWNSSHPAGGR BOT_SANE_SHPOWNSAGGR BOT_SANE_AGGROWNSSHP st
              else st in
    if fst st &? BOT_PASSIVE then
      resolve BOT_PASSIVE BOT_SHPERMS BOT_PASSIVE BOT_SHPERMS
        BOT_SANE_OWNSSHPPASS BOT_SANE_SHPOWNSPASS BOT_SANE_PASSOWNSSHP st
    else st
  else st.

(** Reject against sharing, hub and alternate hub; again one outer test. *)
Definition reject_sanity (st : sane) : sane :=
  if fst st &? BOT_REJECT then
    let st := if fst st &? BOT_SHARE then
                resolve BOT_SHARE BOT_REJECT BOT_REJECT BOT_SHARE
                  BOT_SANE_OWNSSHAREREJ BOT_SANE_SHAREOWNSREJ BOT_SANE_REJOWNSSHARE st
              else st in
    let st := if fst st &? BOT_HUB then
                resolve BOT_HUB BOT_REJECT BOT_REJECT BOT_HUB
                  BOT_SANE_OWNSHUBREJ BOT_SANE_HUBOWNSREJ BOT_SANE_REJOWNSHUB st
              else st in
    if fst st &? BOT_ALT then
      resolve BOT_ALT BOT_REJECT BOT_REJECT BOT_ALT
        BOT_SANE_OWNSALTREJ BOT_SANE_ALTOWNSREJ BOT_SANE_REJOWNSALT st
    else st
  else st.

(** All channels shared, without sharing. *)
Definition bot_global_check (st : sane) : sane :=
  if negb (fst st &? BOT_SHARE) && (fst st &? BOT_GLOBAL) then
    if old_atr &? BOT_GLOBAL then
      (fst st &~ BOT_GLOBAL, msg_add (snd st) BOT_SANE_NOSHAREOWNSGLOB)
    else if negb (old_atr &? BOT_SHARE) then
      (fst st &~ BOT_GLOBAL, msg_add (snd st) BOT_SANE_OWNSGLOB)
    else st
  else st.

Definition bot_body (st : sane) : sane :=
  let st := exclusive BOT_HUB BOT_ALT
              BOT_SANE_OWNSALTHUB BOT_SANE_ALTOWNSHUB BOT_SANE_HUBOWNSALT st in
  let st := reject_sanity (bot_shperms st) in
  let st := exclusive BOT_PASSIVE BOT_AGGRESSIVE
              BOT_SANE_OWNSAGGRPASS BOT_SANE_AGGROWNSPASS BOT_SANE_PASSOWNSAGGR st in
  bot_global_check st.

End Sanity.

(** [chg = pls & ~min] and [*atr = ( *atr | pls) & ~min], then the checks; the new
    value of [*atr] and the returned message ids. *)
Definition user_sanity_check (atr pls min : Z) : Z * Z :=
  user_body atr (pls &~ min) ((atr ||| pls) &~ min, 0).
Definition chan_sanity_check (atr pls min usr_atr : Z) : Z * Z :=
  chan_body atr (pls &~ min) usr_atr ((atr ||| pls) &~ min, 0).
Definition bot_sanity_check (atr pls min : Z) : Z * Z :=
  bot_body atr (pls &~ min) ((atr ||| pls) &~ min, 0).
