(* ===== verification/FlagSanity.v ===== *)
(** * What the flag sanity checks guarantee

    The user, channel and bot checks leave no mutually exclusive pair behind and add
    what a flag implies; and the combinations for which they do not. *)

From S2P Require Import Prelude LibC FlagDefs.

(** ** Flags as bits *)

Lemma on_bit f k x : f = 2 ^ k -> 0 <= k -> (x &? f) = Z.testbit x k.
Proof. intros -> Hk. by apply land_pow2_testbit. Qed.

(** The bit of each flag, as rewriting rules. *)
Lemma on_autoop x : (x &? USER_AUTOOP) = Z.testbit x 0. Proof. by apply on_bit. Qed.
Lemma on_bot x : (x &? USER_BOT) = Z.testbit x 1. Proof. by apply on_bit. Qed.
Lemma on_common x : (x &? USER_COMMON) = Z.testbit x 2. Proof. by apply on_bit. Qed.
Lemma on_deop x : (x &? USER_DEOP) = Z.testbit x 3. Proof. by apply on_bit. Qed.
Lemma on_gvoice x : (x &? USER_GVOICE) = Z.testbit x 6. Proof. by apply on_bit. Qed.
Lemma on_janitor x : (x &? USER_JANITOR) = Z.testbit x 9. Proof. by apply on_bit. Qed.
Lemma on_halfop x : (x &? USER_HALFOP) = Z.testbit x 11. Proof. by apply on_bit. Qed.
Lemma on_master x : (x &? USER_MASTER) = Z.testbit x 12. Proof. by apply on_bit. Qed.
Lemma on_owner x : (x &? USER_OWNER) = Z.testbit x 13. Proof. by apply on_bit. Qed.
Lemma on_op x : (x &? USER_OP) = Z.testbit x 14. Proof. by apply on_bit. Qed.
Lemma on_party x : (x &? USER_PARTY) = Z.testbit x 15. Proof. by apply on_bit. Qed.
Lemma on_quiet x : (x &? USER_QUIET) = Z.testbit x 16. Proof. by apply on_bit. Qed.
Lemma on_dehalfop x : (x &? USER_DEHALFOP) = Z.testbit x 17. Proof. by apply on_bit. Qed.
Lemma on_aggressive x : (x &? BOT_AGGRESSIVE) = Z.testbit x 18. Proof. by apply on_bit. Qed.
Lemma on_botmast x : (x &? USER_BOTMAST) = Z.testbit x 19. Proof. by apply on_bit. Qed.
Lemma on_voice x : (x &? USER_VOICE) = Z.testbit x 21. Proof. by apply on_bit. Qed.
Lemma on_xfer x : (x &? USER_XFER) = Z.testbit x 23. Proof. by apply on_bit. Qed.
Lemma on_autohalfop x : (x &? USER_AUTOHALFOP) = Z.testbit x 24. Proof. by apply on_bit. Qed.
Lemma on_alt x : (x &? BOT_ALT) = Z.testbit x 0. Proof. by apply on_bit. Qed.
Lemma on_hub x : (x &? BOT_HUB) = Z.testbit x 7. Proof. by apply on_bit. Qed.
Lemma on_passive x : (x &? BOT_PASSIVE) = Z.testbit x 15. Proof. by apply on_bit. Qed.

Create Rewrite HintDb flag_bits.
#[export] Hint Rewrite on_autoop on_bot on_common on_deop on_gvoice on_janitor on_halfop on_master
  on_owner on_op on_party on_quiet on_dehalfop on_aggressive on_botmast on_voice on_xfer
  on_autohalfop on_alt on_hub on_passive : flag_bits.

Lemma on_lor x f g : (x &? (f ||| g)) = (x &? f) || (x &? g).
Proof.
  rewrite Z.land_lor_distr_r. unfold truthy.
  destruct (Z.eqb_spec (Z.land x f) 0) as [E|E], (Z.eqb_spec (Z.land x g) 0) as [E'|E'];
    rewrite ?E, ?E'; simpl; try done;
    (apply negb_true_iff, Z.eqb_neq; rewrite Z.lor_eq_0_iff; tauto).
Qed.
#[export] Hint Rewrite on_lor : flag_bits.

(** Replace the test of a bit of a constant by its value. *)
Ltac closed_bits :=
  repeat match goal with
  | |- context [Z.testbit ?m ?k] =>
      let v := eval vm_compute in (Z.testbit m k) in
      match v with
      | true => change (Z.testbit m k) with true
      | false => change (Z.testbit m k) with false
      end
  end.

(** The same for equality tests of numerals. *)
Ltac closed_eqb :=
  repeat match goal with
  | |- context [?a =? ?b] =>
      let v := eval vm_compute in (a =? b) in
      match v with
      | true => change (a =? b) with true
      | false => change (a =? b) with false
      end
  end.

(** Name the bits of [t] that occur in the goal or the hypotheses. *)
Ltac bits_of t :=
  repeat match goal with
  | H : context [Z.testbit t ?k] |- _ =>
      let b := fresh "b" in set (b := Z.testbit t k) in *; clearbody b
  | |- context [Z.testbit t ?k] =>
      let b := fresh "b" in set (b := Z.testbit t k) in *; clearbody b
  end.

(** Decide a goal on booleans, from the hypotheses on booleans, by evaluating it in
    every case. *)
Lemma bool_assume (a b c : bool) : implb (eqb a b) c = true -> a = b -> c = true.
Proof. intros H ->. by rewrite eqb_reflx in H. Qed.

Ltac bool_cases :=
  intros; apply eqb_prop;
  repeat match goal with H : @eq bool _ _ |- _ => revert H; apply bool_assume end;
  repeat match goal with b : bool |- _ => revert b end;
  repeat match goal with |- forall b : bool, _ => intros [] end; reflexivity.

(** ** Adding flags *)

Lemma testbit_orif (c : bool) x m k :
  Z.testbit (if c then x ||| m else x) k = Z.testbit x k || (c && Z.testbit m k).
Proof. destruct c; [by rewrite Z.lor_spec|by rewrite orb_false_r]. Qed.

Lemma fst_auto_adds old chg a o m st k :
  Z.testbit (fst (auto_adds old chg a o m st)) k =
  Z.testbit (fst st) k || ((fst st &? a) && (chg &? a) && negb (old &? o) && Z.testbit o k).
Proof. unfold auto_adds. rewrite <- testbit_orif. by case_if. Qed.

Lemma fst_adds c t add m st k :
  Z.testbit (fst (adds c t add m st)) k =
  Z.testbit (fst st) k || ((fst st &? c) && negb (fst st &? t) && Z.testbit add k).
Proof. unfold adds. rewrite <- testbit_orif. by case_if. Qed.

(** ** Conflicts *)

Definition subset (x y : Z) : Prop :=
  forall k, 0 <= k -> Z.testbit x k = true -> Z.testbit y k = true.

Lemma subset_refl x : subset x x. Proof. by intros k. Qed.
Lemma subset_trans x y z : subset x y -> subset y z -> subset x z.
Proof. intros H1 H2 k Hk H. apply H2, H1; done. Qed.
Lemma subset_ldiff x m : subset (x &~ m) x.
Proof. intros k Hk. rewrite Z.land_spec. intros H. by apply andb_prop in H as [? _]. Qed.

Lemma testbit_ldiff x m k : 0 <= k -> Z.testbit (x &~ m) k = Z.testbit x k && negb (Z.testbit m k).
Proof. intros Hk. by rewrite Z.land_spec, Z.lnot_spec. Qed.

(** The flags [2^i] and [2^j] do not both remain, and nothing is added. *)
Lemma exclusive_spec old chg i j m1 m2 m3 st :
  0 <= i -> 0 <= j -> i <> j ->
  let st' := exclusive old chg (2 ^ i) (2 ^ j) m1 m2 m3 st in
  Z.testbit (fst st') i && Z.testbit (fst st') j = false /\ subset (fst st') (fst st).
Proof.
  intros Hi Hj Hne st'. subst st'. unfold exclusive. rewrite !land_pow2_testbit by done.
  destruct (Z.testbit (fst st) i && Z.testbit (fst st) j) eqn:E; [|by split; [|apply subset_refl]].
  apply andb_prop in E as [E1 E2]. unfold resolve. rewrite !land_pow2_testbit by done.
  destruct st as [atr msgids]. simpl in E1, E2.
  assert (Hi' : forall k, 0 <= k -> Z.testbit (2 ^ i) k = (i =? k)).
  { intros k Hk. destruct (Z.eqb_spec i k) as [->|]; [by apply Z.pow2_bits_true|by apply Z.pow2_bits_false]. }
  assert (Hj' : forall k, 0 <= k -> Z.testbit (2 ^ j) k = (j =? k)).
  { intros k Hk. destruct (Z.eqb_spec j k) as [->|]; [by apply Z.pow2_bits_true|by apply Z.pow2_bits_false]. }
  assert (Hij : (i =? j) = false) by (by apply Z.eqb_neq).
  assert (Hji : (j =? i) = false) by (apply Z.eqb_neq; congruence).
  assert (Hsub : forall x k, 0 <= k -> (Z.testbit x k = true -> Z.testbit atr k = true) ->
     (Z.testbit (x ||| 2 ^ i) k = true -> Z.testbit atr k = true) /\
     (Z.testbit (x ||| 2 ^ j) k = true -> Z.testbit atr k = true)).
  { intros x k Hk Hx. rewrite !Z.lor_spec, Hi', Hj' by done. split.
    - destruct (Z.eqb_spec i k) as [<-|]; [done|]. by rewrite orb_false_r.
    - destruct (Z.eqb_spec j k) as [<-|]; [done|]. by rewrite orb_false_r. }
  repeat case_if; simpl; (split; [|intros k Hk; try (apply Hsub; [done|]); by apply subset_ldiff]);
    rewrite ?Z.lor_spec, ?testbit_ldiff, ?Z.lor_spec, ?Hi', ?Hj', ?Z.eqb_refl, ?Hij, ?Hji,
      ?andb_false_r by done; simpl; by rewrite ?andb_false_r.
Qed.

Lemma not_both_subset x y i j :
  0 <= i -> 0 <= j -> subset x y -> Z.testbit y i && Z.testbit y j = false ->
  Z.testbit x i && Z.testbit x j = false.
Proof.
  intros Hi Hj Hs H. destruct (Z.testbit x i) eqn:E1, (Z.testbit x j) eqn:E2; try done.
  by rewrite (Hs i), (Hs j) in H.
Qed.

(** After the six conflicts. *)
Record conflict_free (x : Z) : Prop := {
  cf_op : Z.testbit x 14 && Z.testbit x 3 = false;
  cf_halfop : Z.testbit x 11 && Z.testbit x 17 = false;
  cf_autoop : Z.testbit x 0 && Z.testbit x 3 = false;
  cf_autohalfop : Z.testbit x 24 && Z.testbit x 17 = false;
  cf_voice : Z.testbit x 21 && Z.testbit x 16 = false;
  cf_gvoice : Z.testbit x 6 && Z.testbit x 16 = false
}.

(** One conflict of the chain: [X] says the pair is gone, [S] that nothing was added. *)
Ltac conflict_turn i j a b st X S st' :=
  match goal with |- context [exclusive ?old ?chg a b ?x ?y ?z st] =>
    destruct (exclusive_spec old chg i j x y z st) as [X S]; [done..|];
    change (2 ^ i) with a in *; change (2 ^ j) with b in *;
    set (st' := exclusive old chg a b x y z st) in *
  end.

Lemma uc_conflicts_spec old chg st :
  conflict_free (fst (uc_conflicts old chg st)) /\ subset (fst (uc_conflicts old chg st)) (fst st).
Proof.
  unfold uc_conflicts.
  conflict_turn 14 3 USER_OP USER_DEOP st X1 S1 st1.
  conflict_turn 11 17 USER_HALFOP USER_DEHALFOP st1 X2 S2 st2.
  conflict_turn 0 3 USER_AUTOOP USER_DEOP st2 X3 S3 st3.
  conflict_turn 24 17 USER_AUTOHALFOP USER_DEHALFOP st3 X4 S4 st4.
  conflict_turn 21 16 USER_VOICE USER_QUIET st4 X5 S5 st5.
  conflict_turn 6 16 USER_GVOICE USER_QUIET st5 X6 S6 st6.
  assert (T4 : subset (fst st6) (fst st4)) by (by eapply subset_trans).
  assert (T3 : subset (fst st6) (fst st3)) by (by eapply subset_trans).
  assert (T2 : subset (fst st6) (fst st2)) by (by eapply subset_trans).
  assert (T1 : subset (fst st6) (fst st1)) by (by eapply subset_trans).
  split; [|by eapply subset_trans].
  split; [eapply (not_both_subset _ (fst st1))|eapply (not_both_subset _ (fst st2))
         |eapply (not_both_subset _ (fst st3))|eapply (not_both_subset _ (fst st4))
         |eapply (not_both_subset _ (fst st5))|]; done.
Qed.

(** ** What implied flags add *)

(** The flags after the automatic ones: their bits in terms of those before. *)
Lemma uc_auto_bit old chg st k :
  0 <= k ->
  Z.testbit (fst (uc_auto old chg st)) k =
  Z.testbit (fst st) k
  || (Z.testbit (fst st) 0 && Z.testbit chg 0 && negb (Z.testbit old 14) && Z.testbit USER_OP k)
  || (Z.testbit (fst st) 24 && Z.testbit chg 24 && negb (Z.testbit old 11) && Z.testbit USER_HALFOP k)
  || (Z.testbit (fst st) 6 && Z.testbit chg 6 && negb (Z.testbit old 21) && Z.testbit USER_VOICE k).
Proof.
  intros Hk. unfold uc_auto. rewrite !fst_auto_adds. autorewrite with flag_bits.
  rewrite !fst_auto_adds. closed_bits. by rewrite !andb_false_r, !orb_false_r.
Qed.

Lemma drop_flag_subset a m st : subset (fst (drop_flag a m st)) (fst st).
Proof. unfold drop_flag. case_if; [apply subset_ldiff|apply subset_refl]. Qed.

Lemma drop_flag_bit k m st :
  0 <= k -> Z.testbit (fst (drop_flag (2 ^ k) m st)) k = false.
Proof.
  intros Hk. unfold drop_flag. rewrite land_pow2_testbit by done. case_if; [|done]. simpl.
  rewrite testbit_ldiff, Z.pow2_bits_true by done. by rewrite andb_false_r.
Qed.

Lemma subset_false x y k : 0 <= k -> subset x y -> Z.testbit y k = false -> Z.testbit x k = false.
Proof. intros Hk Hs H. destruct (Z.testbit x k) eqn:E; [|done]. by rewrite (Hs k) in H. Qed.

Lemma bot_drops_spec st :
  let x := fst (bot_drops st) in
  subset x (fst st) /\ Z.testbit x 2 = false /\ Z.testbit x 12 = false /\ Z.testbit x 13 = false.
Proof.
  unfold bot_drops. set (s1 := drop_flag USER_PARTY _ st). set (s2 := drop_flag USER_MASTER _ s1).
  set (s3 := drop_flag USER_COMMON _ s2). set (s4 := drop_flag USER_OWNER _ s3).
  assert (H1 : subset (fst s1) (fst st)) by apply drop_flag_subset.
  assert (H2 : subset (fst s2) (fst s1)) by apply drop_flag_subset.
  assert (H3 : subset (fst s3) (fst s2)) by apply drop_flag_subset.
  assert (H4 : subset (fst s4) (fst s3)) by apply drop_flag_subset.
  split_and!.
  - eapply subset_trans; [done|]. eapply subset_trans; [done|]. by eapply subset_trans.
  - eapply subset_false; [done|exact H4|]. by apply (drop_flag_bit 2).
  - eapply subset_false; [done|eapply subset_trans; [exact H4|exact H3]|]. by apply (drop_flag_bit 12).
  - by apply (drop_flag_bit 13).
Qed.

(** ** The user check *)

(** The flags of a user after the check. *)
Record user_sane (x : Z) : Prop := {
  us_voice : (x &? USER_VOICE) && (x &? USER_QUIET) = false;
  us_gvoice : (x &? USER_GVOICE) && (x &? USER_QUIET) = false;
  us_autoop : (x &? USER_AUTOOP) && (x &? USER_DEOP) = false;
  us_autohalfop : (x &? USER_AUTOHALFOP) && (x &? USER_DEHALFOP) = false;
  us_op : (x &? USER_MASTER) = false -> (x &? USER_OP) && (x &? USER_DEOP) = false;
  us_halfop : (x &? USER_OP) = false -> (x &? USER_HALFOP) && (x &? USER_DEHALFOP) = false;
  us_bot : (x &? USER_BOT) = true ->
           (x &? USER_COMMON) = false /\ (x &? USER_MASTER) = false /\ (x &? USER_OWNER) = false;
  us_owner : (x &? USER_OWNER) = true -> (x &? USER_MASTER) = true;
  us_botmast : (x &? USER_BOTMAST) = true -> (x &? USER_PARTY) = true;
  us_janitor : (x &? USER_JANITOR) = true -> (x &? USER_XFER) = true;
  us_implied : (x &? USER_OP) = true -> (x &? USER_HALFOP) = true
}.

(** Whether the master's flags are added. *)
Definition master_adds (x : Z) : bool :=
  (Z.testbit x 12 || Z.testbit x 13) && negb (Z.testbit x 19 || Z.testbit x 14 || Z.testbit x 9).

Lemma adds_one c j m st k :
  0 <= j -> 0 <= k ->
  Z.testbit (fst (adds c (2 ^ j) (2 ^ j) m st)) k =
  Z.testbit (fst st) k || ((fst st &? c) && (j =? k)).
Proof.
  intros Hj Hk. rewrite fst_adds, land_pow2_testbit by done.
  destruct (Z.eqb_spec j k) as [->|Hne].
  - rewrite Z.pow2_bits_true by done. by destruct (fst st &? c), (Z.testbit (fst st) k).
  - rewrite Z.pow2_bits_false by done. by rewrite !andb_false_r.
Qed.

Lemma user_adds_bit st k :
  0 <= k ->
  let x := fst st in
  Z.testbit (fst (user_adds st)) k =
  Z.testbit x k || (Z.testbit x 13 && (12 =? k))
  || (master_adds x && Z.testbit (USER_BOTMAST ||| USER_OP ||| USER_JANITOR) k)
  || ((Z.testbit x 19 || master_adds x) && (15 =? k))
  || ((Z.testbit x 9 || master_adds x) && (23 =? k))
  || ((Z.testbit x 14 || master_adds x) && (11 =? k)).
Proof.
  intros Hk x. unfold user_adds, master_adds.
  change USER_HALFOP with (2 ^ 11). rewrite adds_one by done. autorewrite with flag_bits.
  change USER_XFER with (2 ^ 23). rewrite !adds_one by done. autorewrite with flag_bits.
  change USER_PARTY with (2 ^ 15). rewrite !adds_one by done. autorewrite with flag_bits.
  rewrite !(fst_adds USER_MASTER). autorewrite with flag_bits.
  change USER_MASTER with (2 ^ 12). rewrite !adds_one by done. autorewrite with flag_bits.
  fold x. closed_bits. rewrite ?andb_false_r, ?andb_true_r, ?orb_false_r.
  destruct (Z.testbit x 19), (Z.testbit x 14), (Z.testbit x 9), (Z.testbit x 12), (Z.testbit x 13),
    (Z.testbit x k), (Z.testbit (USER_BOTMAST ||| USER_OP ||| USER_JANITOR) k),
    (12 =? k), (15 =? k), (23 =? k), (11 =? k); reflexivity.
Qed.

(** A bot has lost its flags before the conflicts, and they add nothing. *)
Lemma bot_conflicts old chg st :
  let st0 := if fst st &? USER_BOT then bot_drops st else st in
  let t := fst (uc_conflicts old chg st0) in
  Z.testbit t 1 && (Z.testbit t 2 || Z.testbit t 12 || Z.testbit t 13) = false.
Proof.
  intros st0 t. destruct (uc_conflicts_spec old chg st0) as [_ Hs]. fold t in Hs.
  destruct (Z.testbit t 1) eqn:Hb; [|done].
  assert (H0 : subset (fst st0) (fst st)).
  { subst st0. case_if; [apply bot_drops_spec|apply subset_refl]. }
  assert (Hb' : (fst st &? USER_BOT) = true).
  { rewrite on_bot. apply H0; [done|]. by apply Hs. }
  clear Hb. subst st0. rewrite Hb' in *. destruct (bot_drops_spec st) as (_ & D2 & D12 & D13).
  by rewrite (subset_false _ _ 2 ltac:(done) Hs D2), (subset_false _ _ 12 ltac:(done) Hs D12),
    (subset_false _ _ 13 ltac:(done) Hs D13).
Qed.

(** The flags of [t] after the additions, with [c1], [c2], [c3] the conditions of the
    automatic ones. *)
Definition added (t : Z) (c1 c2 c3 : bool) (k : Z) : bool :=
  Z.testbit t k || (Z.testbit t 0 && c1 && Z.testbit USER_OP k)
  || (Z.testbit t 24 && c2 && Z.testbit USER_HALFOP k)
  || (Z.testbit t 6 && c3 && Z.testbit USER_VOICE k).

Lemma user_sane_adds t c1 c2 c3 st1 :
  Z.testbit t 1 && (Z.testbit t 2 || Z.testbit t 12 || Z.testbit t 13) = false ->
  conflict_free t -> (forall k, 0 <= k -> Z.testbit (fst st1) k = added t c1 c2 c3 k) ->
  user_sane (fst (user_adds st1)).
Proof.
  intros Hbot [C1 C2 C3 C4 C5 C6] Hauto. unfold added in Hauto.
  split; autorewrite with flag_bits; rewrite !user_adds_bit by done; unfold master_adds;
    rewrite !Hauto by done; closed_bits; closed_eqb;
    rewrite ?andb_false_r, ?andb_true_r, ?orb_false_r.
  - clear - C5 C6. bits_of t. bool_cases.
  - clear - C6. bits_of t. bool_cases.
  - clear - C3. bits_of t. bool_cases.
  - clear - C4. bits_of t. bool_cases.
  - clear - C1 C3. bits_of t. bool_cases.
  - clear - C2 C4. bits_of t. bool_cases.
  - clear - Hbot. bits_of t. intros Hb. split_and!; revert Hb; bool_cases.
  - clear. bits_of t. bool_cases.
  - clear. bits_of t. bool_cases.
  - clear. bits_of t. bool_cases.
  - clear. bits_of t. bool_cases.
Qed.

Lemma user_sane_body old chg st : user_sane (fst (user_body old chg st)).
Proof.
  apply (user_sane_adds (fst (uc_conflicts old chg (if fst st &? USER_BOT then bot_drops st else st)))
    (Z.testbit chg 0 && negb (Z.testbit old 14)) (Z.testbit chg 24 && negb (Z.testbit old 11))
    (Z.testbit chg 6 && negb (Z.testbit old 21))).
  - apply bot_conflicts.
  - apply uc_conflicts_spec.
  - intros k Hk. unfold added. rewrite !andb_assoc. by apply uc_auto_bit.
Qed.

(** ** The channel check *)

Record chan_sane (usr_atr x : Z) : Prop := {
  cs_voice : (x &? USER_VOICE) && (x &? USER_QUIET) = false;
  cs_gvoice : (x &? USER_GVOICE) && (x &? USER_QUIET) = false;
  cs_autoop : (x &? USER_AUTOOP) && (x &? USER_DEOP) = false;
  cs_autohalfop : (x &? USER_AUTOHALFOP) && (x &? USER_DEHALFOP) = false;
  cs_op : (x &? USER_MASTER) = false -> (x &? USER_OP) && (x &? USER_DEOP) = false;
  cs_halfop : (x &? USER_OP) = false -> (x &? USER_HALFOP) && (x &? USER_DEHALFOP) = false;
  cs_owner : (x &? USER_OWNER) = true -> (x &? USER_MASTER) = true;
  cs_master : (x &? USER_MASTER) = true -> (x &? USER_OP) = true;
  cs_implied : (x &? USER_OP) = true -> (x &? USER_HALFOP) = true;
  cs_bot : (x &? BOT_AGGRESSIVE) = true -> (usr_atr &? USER_BOT) = true
}.

Lemma chan_adds_bit st k :
  0 <= k ->
  let x := fst st in
  Z.testbit (fst (chan_adds st)) k =
  Z.testbit x k || (Z.testbit x 13 && (12 =? k))
  || ((Z.testbit x 12 || Z.testbit x 13) && (14 =? k))
  || ((Z.testbit x 14 || Z.testbit x 12 || Z.testbit x 13) && (11 =? k)).
Proof.
  intros Hk x. unfold chan_adds.
  change USER_HALFOP with (2 ^ 11). rewrite adds_one by done. autorewrite with flag_bits.
  change USER_OP with (2 ^ 14). rewrite !adds_one by done. autorewrite with flag_bits.
  change USER_MASTER with (2 ^ 12). rewrite !adds_one by done. autorewrite with flag_bits.
  fold x. closed_eqb. rewrite ?andb_false_r, ?andb_true_r, ?orb_false_r.
  destruct (Z.testbit x 14), (Z.testbit x 12), (Z.testbit x 13), (Z.testbit x k),
    (12 =? k), (14 =? k), (11 =? k); reflexivity.
Qed.

Lemma chan_sane_adds t c1 c2 c3 st1 usr_atr x :
  conflict_free t -> (forall k, 0 <= k -> Z.testbit (fst st1) k = added t c1 c2 c3 k) ->
  (forall k, 0 <= k -> k <> 18 -> Z.testbit x k = Z.testbit (fst (chan_adds st1)) k) ->
  (Z.testbit x 18 = true -> (usr_atr &? USER_BOT) = true) ->
  chan_sane usr_atr x.
Proof.
  intros [C1 C2 C3 C4 C5 C6] Hauto Hx Hbot. unfold added in Hauto.
  split; autorewrite with flag_bits in *; [..|exact Hbot];
    rewrite !Hx by done; rewrite !chan_adds_bit by done; rewrite !Hauto by done;
    closed_bits; closed_eqb; rewrite ?andb_false_r, ?andb_true_r, ?orb_false_r.
  - clear - C5 C6. bits_of t. bool_cases.
  - clear - C6. bits_of t. bool_cases.
  - clear - C3. bits_of t. bool_cases.
  - clear - C4. bits_of t. bool_cases.
  - clear - C1 C3. bits_of t. bool_cases.
  - clear - C2 C4. bits_of t. bool_cases.
  - clear. bits_of t. bool_cases.
  - clear. bits_of t. bool_cases.
  - clear. bits_of t. bool_cases.
Qed.

Lemma chan_sane_body old chg usr_atr st : chan_sane usr_atr (fst (chan_body old chg usr_atr st)).
Proof.
  unfold chan_body.
  apply (chan_sane_adds (fst (uc_conflicts old chg st))
    (Z.testbit chg 0 && negb (Z.testbit old 14)) (Z.testbit chg 24 && negb (Z.testbit old 11))
    (Z.testbit chg 6 && negb (Z.testbit old 21)) (uc_auto old chg (uc_conflicts old chg st))).
  - apply uc_conflicts_spec.
  - intros k Hk. unfold added. rewrite !andb_assoc. by apply uc_auto_bit.
  - generalize (chan_adds (uc_auto old chg (uc_conflicts old chg st))).
    intros y k Hk Hne. rewrite on_aggressive. case_if; [|done]. cbn [fst]. rewrite testbit_ldiff by done.
    change BOT_AGGRESSIVE with (2 ^ 18). rewrite Z.pow2_bits_false by congruence.
    by rewrite andb_true_r.
  - rewrite on_aggressive.
    generalize (chan_adds (uc_auto old chg (uc_conflicts old chg st))). intros y. case_if.
    + cbn [fst]. rewrite testbit_ldiff by done. by rewrite andb_false_r.
    + intros H. rewrite H, andb_true_r in E. by apply negb_false_iff in E.
Qed.

(** ** The bot check *)

(** A conflict adds nothing to the bit [k], when [k] is not among what it restores. *)
Lemma resolve_bit old chg r1 r2 a b m1 m2 m3 st k :
  0 <= k -> Z.testbit r1 k = false -> Z.testbit r2 k = false ->
  Z.testbit (fst (resolve old chg r1 r2 a b m1 m2 m3 st)) k = true -> Z.testbit (fst st) k = true.
Proof.
  intros Hk H1 H2. unfold resolve. destruct st as [atr msgids]. cbn [fst].
  repeat case_if; cbn [fst]; rewrite ?Z.lor_spec, ?H1, ?H2, ?orb_false_r; by apply subset_ldiff.
Qed.

(** The hub bits only disappear between the first conflict and the last. *)
Lemma bot_shperms_hub old chg st k :
  k = 0 \/ k = 7 ->
  Z.testbit (fst (bot_shperms old chg st)) k = true -> Z.testbit (fst st) k = true.
Proof.
  intros Hk. unfold bot_shperms. case_if; [|done].
  assert (H1 : forall st', Z.testbit (fst (if fst st' &? BOT_PASSIVE then
      resolve old chg BOT_PASSIVE BOT_SHPERMS BOT_PASSIVE BOT_SHPERMS
        BOT_SANE_OWNSSHPPASS BOT_SANE_SHPOWNSPASS BOT_SANE_PASSOWNSSHP st' else st')) k = true ->
      Z.testbit (fst st') k = true).
  { intros st'. case_if; [|done]. destruct Hk as [-> | ->]; by apply resolve_bit. }
  intros H%H1. revert H. case_if; [|done]. destruct Hk as [-> | ->]; by apply resolve_bit.
Qed.

Lemma bot_reject_hub old chg st k :
  k = 0 \/ k = 7 ->
  Z.testbit (fst (reject_sanity old chg st)) k = true -> Z.testbit (fst st) k = true.
Proof.
  intros Hk. unfold reject_sanity. case_if; [|done].
  assert (H3 : forall st', Z.testbit (fst (if fst st' &? BOT_ALT then
      resolve old chg BOT_ALT BOT_REJECT BOT_REJECT BOT_ALT
        BOT_SANE_OWNSALTREJ BOT_SANE_ALTOWNSREJ BOT_SANE_REJOWNSALT st' else st')) k = true ->
      Z.testbit (fst st') k = true).
  { intros st'. rewrite on_alt. case_if; [|done].
    destruct Hk as [-> | ->]; [done|by apply resolve_bit]. }
  assert (H2 : forall st', Z.testbit (fst (if fst st' &? BOT_HUB then
      resolve old chg BOT_HUB BOT_REJECT BOT_REJECT BOT_HUB
        BOT_SANE_OWNSHUBREJ BOT_SANE_HUBOWNSREJ BOT_SANE_REJOWNSHUB st' else st')) k = true ->
      Z.testbit (fst st') k = true).
  { intros st'. rewrite on_hub. case_if; [|done].
    destruct Hk as [-> | ->]; [by apply resolve_bit|done]. }
  intros H%H3%H2. revert H. case_if; [|done]. destruct Hk as [-> | ->]; by apply resolve_bit.
Qed.

Lemma bot_global_subset old st : subset (fst (bot_global_check old st)) (fst st).
Proof. unfold bot_global_check. repeat case_if; try apply subset_refl; apply subset_ldiff. Qed.

Lemma bot_body_spec old chg st :
  let x := fst (bot_body old chg st) in
  (x &? BOT_HUB) && (x &? BOT_ALT) = false /\ (x &? BOT_PASSIVE) && (x &? BOT_AGGRESSIVE) = false.
Proof.
  unfold bot_body.
  conflict_turn 7 0 BOT_HUB BOT_ALT st X1 S1 st1.
  set (st2 := reject_sanity old chg (bot_shperms old chg st1)).
  conflict_turn 15 18 BOT_PASSIVE BOT_AGGRESSIVE st2 X3 S3 st3.
  pose proof (bot_global_subset old st3) as S4. cbv zeta. autorewrite with flag_bits. split.
  - destruct (Z.testbit (fst (bot_global_check old st3)) 7) eqn:E7; [|done].
    destruct (Z.testbit (fst (bot_global_check old st3)) 0) eqn:E0; [|done]. exfalso.
    apply S4, S3 in E7, E0; try done.
    apply bot_reject_hub, bot_shperms_hub in E7; [|by right|by right].
    apply bot_reject_hub, bot_shperms_hub in E0; [|by left|by left].
    by rewrite E7, E0 in X1.
  - by apply (not_both_subset _ (fst st3)).
Qed.

(** ** The theorems *)

(** C28. The user check leaves a sane set of flags, whatever the old flags, the
    wanted and the unwanted ones: no voice with quiet, no auto-op with deop, no
    auto-halfop with dehalfop; op excludes deop except for a master, halfop excludes
    dehalfop except for an op; a bot is not common, master or owner; and owner
    implies master, botmaster the party line, janitor the file area, op halfop. *)
Theorem user_sanity_check_sane atr pls min : user_sane (fst (user_sanity_check atr pls min)).
Proof. apply user_sane_body. Qed.

(** The channel check leaves a sane set of flags: the same exclusions; owner
    implies master, master op, op halfop; and only a bot shares aggressively. *)
Theorem chan_sanity_check_sane atr pls min usr_atr :
  chan_sane usr_atr (fst (chan_sanity_check atr pls min usr_atr)).
Proof. apply chan_sane_body. Qed.

(** The bot check leaves neither hub with alternate hub nor passive with
    aggressive sharing. *)
Theorem bot_sanity_check_sane atr pls min :
  let x := fst (bot_sanity_check atr pls min) in
  (x &? BOT_HUB) && (x &? BOT_ALT) = false /\ (x &? BOT_PASSIVE) && (x &? BOT_AGGRESSIVE) = false.
Proof. apply bot_body_spec. Qed.

(** The exceptions are real: [+m] gives a deopped user op on top of deop; [+m]
    adds none of botmaster, op and janitor when one of them is there; a bot made
    botmaster gets the party line that bots may not have; a bot that loses sharing
    while gaining [+g] keeps it; and asking for one share flag and reject together
    turns one old share flag into all the granular ones. *)
Theorem sanity_exceptions :
  (let x := fst (user_sanity_check USER_DEOP USER_MASTER 0) in
   (x &? USER_OP) && (x &? USER_DEOP) = true) /\
  (let x := fst (user_sanity_check USER_OP USER_MASTER 0) in
   (x &? USER_MASTER) && negb (x &? USER_BOTMAST) && negb (x &? USER_JANITOR) = true) /\
  (let x := fst (user_sanity_check USER_BOT USER_BOTMAST 0) in
   (x &? USER_BOT) && (x &? USER_PARTY) = true) /\
  (let x := fst (bot_sanity_check BOT_SHBAN BOT_GLOBAL BOT_SHBAN) in
   (x &? BOT_GLOBAL) && negb (x &? BOT_SHARE) = true) /\
  fst (bot_sanity_check BOT_SHBAN (BOT_SHCHAN ||| BOT_REJECT) 0) = BOT_SHPERMS.
Proof. vm_compute. repeat split. Qed.
