(* ===== verification/FlagText.v ===== *)
(** * The text form of flags (src/flags.c)

    [break_down_flags] reads "globalflags|chanflags" (or "botflags|chanflags") into
    two [flag_record]s, the flags wanted and, after a minus, the flags not wanted;
    [build_flags] writes them; [flagrec_ok] and [flagrec_eq] compare the flags a bind
    requires with the flags a user has. *)

From S2P Require Import Prelude LibC FlagDefs.

(** ** [break_down_flags] *)

(** Updates of one field of a [flag_record]. *)
Definition with_match (m : Z) (r : flag_record) : flag_record :=
  mk_fr m (fr_global r) (fr_udef_global r) (fr_bot r) (fr_chan r) (fr_udef_chan r).
Definition or_global (x : Z) (r : flag_record) : flag_record :=
  mk_fr (fr_match r) (fr_global r ||| x) (fr_udef_global r) (fr_bot r) (fr_chan r) (fr_udef_chan r).
Definition or_udef_global (x : Z) (r : flag_record) : flag_record :=
  mk_fr (fr_match r) (fr_global r) (fr_udef_global r ||| x) (fr_bot r) (fr_chan r) (fr_udef_chan r).
Definition or_bot (x : Z) (r : flag_record) : flag_record :=
  mk_fr (fr_match r) (fr_global r) (fr_udef_global r) (fr_bot r ||| x) (fr_chan r) (fr_udef_chan r).
Definition or_chan (x : Z) (r : flag_record) : flag_record :=
  mk_fr (fr_match r) (fr_global r) (fr_udef_global r) (fr_bot r) (fr_chan r ||| x) (fr_udef_chan r).
Definition or_udef_chan (x : Z) (r : flag_record) : flag_record :=
  mk_fr (fr_match r) (fr_global r) (fr_udef_global r) (fr_bot r) (fr_chan r) (fr_udef_chan r ||| x).

(** A zeroed record. *)
Definition fr_zero : flag_record := mk_fr 0 0 0 0 0 0.

(** The [default] case of the switch: a letter or a digit sets a flag of the field
    that [mode] selects (0 global, 1 channel, 2 bot); anything else is ignored. *)
Definition set_letter (mode c : Z) (r : flag_record) : flag_record :=
  if in_range 97 122 c then
    if mode =? 0 then or_global (Z.shiftl 1 (c - 97)) r
    else if mode =? 1 then or_chan (Z.shiftl 1 (c - 97)) r
    else if (mode =? 2) && (c <=? ch "u") then or_bot (Z.shiftl 1 (c - 97)) r
    else r
  else if in_range 65 90 c then
    if mode =? 0 then or_udef_global (Z.shiftl 1 (c - 65)) r
    else if mode =? 1 then or_udef_chan (Z.shiftl 1 (c - 65)) r
    else r
  else if in_range 48 57 c then
    if mode =? 0 then or_udef_global (Z.shiftl 1 (c - 48)) r
    else if mode =? 1 then or_udef_chan (Z.shiftl 1 (c - 48)) r
    else if mode =? 2 then or_bot (Z.shiftl BOT_FLAG0 (c - 48)) r
    else r
  else r.

(** The two records ([minus] may be a null pointer), [which == minus] and [mode]. *)
Record brk := mk_brk {
  b_plus : flag_record;
  b_minus : option flag_record;
  b_neg : bool;
  b_mode : Z
}.

(** Apply a change to the record that [which] points to. *)
Definition on_which (f : flag_record -> flag_record) (st : brk) : brk :=
  match b_minus st with
  | Some m => if b_neg st then mk_brk (b_plus st) (Some (f m)) true (b_mode st)
              else mk_brk (f (b_plus st)) (Some m) false (b_mode st)
  | None => mk_brk (f (b_plus st)) None false (b_mode st)
  end.

(** The case of the separators: the kind of match (at the first one only), back to
    [plus], the next mode; true when the loop is left through [breakout]. *)
Definition separator (flags c : Z) (st : brk) : bool * brk :=
  let plus := if b_mode st =? 0
              then with_match (if c =? ch "|" then FR_OR else FR_AND) (b_plus st)
              else b_plus st in
  let mode := b_mode st + 1 in
  if (mode =? 2) && negb (flags &? (FR_CHAN ||| FR_BOT))
  then (true, mk_brk plus (b_minus st) false mode)
  else (false, mk_brk plus (b_minus st) false (if mode =? 3 then 1 else mode)).

Definition brk_step (flags c : Z) (st : brk) : bool * brk :=
  if c =? ch "+" then (false, mk_brk (b_plus st) (b_minus st) false (b_mode st))
  else if c =? ch "-" then
    (false, mk_brk (b_plus st) (b_minus st) (bool_decide (is_Some (b_minus st))) (b_mode st))
  else if (c =? ch "|") || (c =? ch "&") then separator flags c st
  else (false, on_which (set_letter (b_mode st) c) st).

Fixpoint brk_loop (flags : Z) (string : list Z) (st : brk) : brk :=
  match string with
  | [] => st
  | c :: string' =>
      let '(stop, st') := brk_step flags c st in
      if stop then st' else brk_loop flags string' st'
  end.

(** The loop after [breakout]: only valid flags stay. *)
Definition keep_valid (r : flag_record) : flag_record :=
  mk_fr (fr_match r) (Z.land (fr_global r) USER_VALID) (Z.land (fr_udef_global r) 0x03ffffff)
    (Z.land (fr_bot r) BOT_VALID) (Z.land (fr_chan r) CHAN_VALID)
    (Z.land (fr_udef_chan r) 0x03ffffff).

(** From [breakout] on: the valid flags, and the kinds asked for back in [match]. *)
Definition brk_finish (flags : Z) (st : brk) : flag_record * option flag_record :=
  let p := keep_valid (b_plus st) in
  let p := with_match (fr_match p ||| flags) p in
  match keep_valid <$> b_minus st with
  | Some m =>
      let m := with_match (fr_match m ||| flags) m in
      ((if fr_match p &? (FR_AND ||| FR_OR) then p else with_match (fr_match p ||| FR_OR) p),
       Some m)
  | None => (p, None)
  end.

(** [plus] and [minus] as they are left by [break_down_flags]. *)
Definition break_down_flags (string : list Z) (plus : flag_record) (minus : option flag_record)
  : flag_record * option flag_record :=
  let flags := fr_match plus in
  let start mode :=
    brk_finish flags
      (brk_loop flags string
         (mk_brk (with_match FR_OR fr_zero) ((fun _ => fr_zero) <$> minus) false mode)) in
  if flags &? FR_GLOBAL then start 0
  else if flags &? FR_BOT then start 2
  else if flags &? FR_CHAN then start 1
  else (plus, minus).

(** ** [build_flags] *)

(** [while (v && x <= last) { if (v & 1) *string++ = x; x++; v >>= 1; }], with [n]
    characters left up to [last]. *)
Fixpoint bits_while (n : nat) (x v : Z) : list Z :=
  match n with
  | O => []
  | S n' =>
      if truthy v then
        (if v &? 1 then [x] else []) ++ bits_while n' (x + 1) (Z.shiftr v 1)
      else []
  end.

(** The same loop without the test of [v]; returns what is left of [v] too. *)
Fixpoint bits_for (n : nat) (x v : Z) : list Z * Z :=
  match n with
  | O => ([], v)
  | S n' =>
      let '(s, v') := bits_for n' (x + 1) (Z.shiftr v 1) in
      ((if v &? 1 then [x] else []) ++ s, v')
  end.

(** [if (string == old) *string++ = '-'] *)
Definition or_dash (s : list Z) : list Z := match s with [] => [ch "-"] | _ => s end.

Definition flag2str (bot udef : Z) : list Z :=
  or_dash (bits_while 26 (ch "a") bot ++ bits_while 26 (ch "A") udef).

(** The parameter [bot] is an [int]. *)
Definition bot2str (bot : Z) : list Z :=
  let '(s, bot) := bits_for 21 (ch "a") (i32 bot) in
  or_dash (s ++ fst (bits_for 10 (ch "0") bot)).

(** One field: a plus when the field is set and there is a [minus] record, the flags,
    and the flags of [minus] after a minus. *)
Definition signed_flags (minus : option flag_record) (plus : flag_record)
    (isset : flag_record -> bool) (str : flag_record -> list Z) : list Z :=
  match minus with
  | None => str plus
  | Some m =>
      (if isset plus then [ch "+"] else []) ++ str plus ++
      (if isset m then ch "-" :: str m else [])
  end.

Definition global_part : option flag_record -> flag_record -> list Z := fun minus plus =>
  signed_flags minus plus (fun r => truthy (fr_global r) || truthy (fr_udef_global r))
    (fun r => flag2str (fr_global r) (fr_udef_global r)).
Definition bot_flags_part : option flag_record -> flag_record -> list Z := fun minus plus =>
  signed_flags minus plus (fun r => truthy (fr_bot r)) (fun r => bot2str (fr_bot r)).
Definition chan_part : option flag_record -> flag_record -> list Z := fun minus plus =>
  signed_flags minus plus (fun r => truthy (fr_chan r) || truthy (fr_udef_chan r))
    (fun r => flag2str (fr_chan r) (fr_udef_chan r)).

(** The string written and the length returned: 0 for the lone dash of a record of no
    kind. *)
Definition build_flags (plus : flag_record) (minus : option flag_record) : list Z * Z :=
  let m := fr_match plus in
  let s := if m &? FR_GLOBAL then global_part minus plus
           else if m &? FR_BOT then bot_flags_part minus plus
           else [] in
  let s := s ++
    (if m &? FR_CHAN then
       (if m &? (FR_GLOBAL ||| FR_BOT) then [if m &? FR_AND then ch "&" else ch "|"] else []) ++
       chan_part minus plus
     else []) in
  match s with
  | [] => ([ch "-"], 0)
  | _ => (s, Z.of_nat (length s))
  end.

(** The Tcl variable default-flags ([tcl_eggstr] and [tcl_eggint] of src/tcl.c): the
    pair of [default_flags] and [default_uflags] that a write leaves, and the text
    that a read puts into a buffer of 40 bytes. *)
Definition write_default_flags (s : list Z) : Z * Z :=
  let fr := fst (break_down_flags s (mk_fr FR_GLOBAL 0 0 0 0 0) None) in
  (sanity_check (fr_global fr), fr_udef_global fr).
Definition read_default_flags (f : Z * Z) : list Z :=
  fst (build_flags (mk_fr FR_GLOBAL (fst f) (snd f) 0 0 0) None).

(** ** [flagrec_eq] and [flagrec_ok] *)

(** [(a & b) != a], negated. *)
Definition covers (a b : Z) : bool := Z.land a b =? a.

Definition flagrec_eq (req have : flag_record) : bool :=
  let m := fr_match req in
  if m &? FR_AND then
    (if m &? FR_GLOBAL then
       covers (fr_global req) (fr_global have) && covers (fr_udef_global req) (fr_udef_global have)
     else true) &&
    (if m &? FR_BOT then covers (fr_bot req) (fr_bot have) else true) &&
    (if m &? FR_CHAN then
       covers (fr_chan req) (fr_chan have) && covers (fr_udef_chan req) (fr_udef_chan have)
     else true)
  else if m &? FR_OR then
    if negb (truthy (fr_chan req)) && negb (truthy (fr_global req)) &&
       negb (truthy (fr_udef_chan req)) && negb (truthy (fr_udef_global req)) &&
       negb (truthy (fr_bot req))
    then true
    else
      (if m &? FR_GLOBAL then
         (fr_global have &? fr_global req) || (fr_udef_global have &? fr_udef_global req)
       else false) ||
      (if m &? FR_BOT then fr_bot have &? fr_bot req else false) ||
      (if m &? FR_CHAN then
         (fr_chan have &? fr_chan req) || (fr_udef_chan have &? fr_udef_chan req)
       else false)
  else false.

Section FlagrecOk.
(** The settings [require-p] and [allow-dk-cmds]. *)
Context (require_p allow_dk_cmds : bool).

(** [!require_p && ((have->global & USER_OP) || (have->chan & USER_OWNER))] *)
Definition implied_party (have : flag_record) : bool :=
  negb require_p && ((fr_global have &? USER_OP) || (fr_chan have &? USER_OWNER)).

(** A bind that asks for nothing. *)
Definition dk_ok (have : flag_record) : bool :=
  if negb allow_dk_cmds then
    if fr_global have &? USER_PARTY then true
    else if (fr_global have &? USER_KICK) || (fr_chan have &? USER_KICK) then false
    else if (fr_global have &? USER_DEOP) || (fr_chan have &? USER_DEOP) then false
    else true
  else true.

Definition flagrec_ok (req have : flag_record) : bool :=
  if fr_match req &? FR_AND then
    if implied_party have then flagrec_eq req (or_global USER_PARTY have)
    else flagrec_eq req have
  else if fr_match req &? FR_OR then
    if negb (truthy (fr_chan req)) && negb (truthy (fr_global req)) &&
       negb (truthy (fr_udef_global req)) && negb (truthy (fr_udef_chan req))
    then dk_ok have
    else
      let hav := if implied_party have then fr_global have ||| USER_PARTY else fr_global have in
      (hav &? fr_global req) || (fr_chan have &? fr_chan req) ||
      (fr_udef_global have &? fr_udef_global req) || (fr_udef_chan have &? fr_udef_chan req)
  else false.

End FlagrecOk.

(** ** Reading back what was written *)

(** A character that is neither a sign nor a separator. *)
Definition plain (c : Z) : Prop := c <> ch "+" /\ c <> ch "-" /\ c <> ch "|" /\ c <> ch "&".

Lemma brk_step_plain flags c st :
  plain c -> brk_step flags c st = (false, on_which (set_letter (b_mode st) c) st).
Proof.
  intros (H1 & H2 & H3 & H4). unfold brk_step.
  by rewrite !(proj2 (Z.eqb_neq _ _)) by done.
Qed.

(** The same update on the records after the minus. *)
Definition upd_minus (upd : flag_record -> flag_record -> flag_record)
    (minus m : option flag_record) : option flag_record :=
  match minus, m with Some y, Some q => Some (upd y q) | _, _ => m end.

(** The flags of a run of plain characters. *)
Definition letters (md : Z) (s : list Z) (r : flag_record) : flag_record :=
  fold_left (fun r c => set_letter md c r) s r.

Lemma letters_app md s1 s2 r : letters md (s1 ++ s2) r = letters md s2 (letters md s1 r).
Proof. apply fold_left_app. Qed.

Lemma letters_bit md v c r :
  letters md (if v &? 1 then [c] else []) r = if v &? 1 then set_letter md c r else r.
Proof. by destruct (v &? 1). Qed.

Lemma brk_loop_plus flags s rest p m md :
  Forall plain s ->
  brk_loop flags (s ++ rest) (mk_brk p m false md) =
  brk_loop flags rest (mk_brk (letters md s p) m false md).
Proof.
  intros H. revert p. induction H as [|c s Hc _ IH]; intros p; [done|].
  simpl app. cbn [brk_loop]. rewrite brk_step_plain by done.
  destruct m; cbn [on_which b_minus b_plus b_mode b_neg]; apply IH.
Qed.

Lemma brk_loop_minus flags s rest p m md :
  Forall plain s ->
  brk_loop flags (s ++ rest) (mk_brk p (Some m) true md) =
  brk_loop flags rest (mk_brk p (Some (letters md s m)) true md).
Proof.
  intros H. revert m. induction H as [|c s Hc _ IH]; intros m; [done|].
  simpl app. cbn [brk_loop]. rewrite brk_step_plain by done.
  cbn [on_which b_minus b_plus b_mode b_neg]. apply IH.
Qed.

Lemma brk_loop_plus_sign flags rest p m neg md :
  brk_loop flags (ch "+" :: rest) (mk_brk p m neg md) = brk_loop flags rest (mk_brk p m false md).
Proof. done. Qed.

Lemma brk_loop_minus_sign flags rest p m neg md :
  brk_loop flags (ch "-" :: rest) (mk_brk p m neg md) =
  brk_loop flags rest (mk_brk p m (bool_decide (is_Some m)) md).
Proof. done. Qed.

(** *** The text of one field *)

(** [str y] is a dash or a run of plain characters whose flags are [upd y]. *)
Definition part_text (md : Z) (isset : flag_record -> bool) (str : flag_record -> list Z)
    (upd : flag_record -> flag_record -> flag_record) (y : flag_record) : Prop :=
  exists s, str y = or_dash s /\ Forall plain s /\ (forall r, letters md s r = upd y r) /\
            (isset y = false -> s = []).

Section Part.
Context (flags md : Z) (isset : flag_record -> bool) (str : flag_record -> list Z)
        (upd : flag_record -> flag_record -> flag_record).

Lemma read_str_plus y rest p m :
  part_text md isset str upd y ->
  exists neg, brk_loop flags (str y ++ rest) (mk_brk p m false md) =
              brk_loop flags rest (mk_brk (upd y p) m neg md).
Proof.
  intros (s & Hs & Hp & Hf & _). rewrite Hs, <- Hf. destruct s as [|c s].
  - eexists. simpl app. by rewrite brk_loop_minus_sign.
  - exists false. by apply (brk_loop_plus flags (c :: s)).
Qed.

Lemma read_str_minus y rest p m :
  part_text md isset str upd y ->
  brk_loop flags (str y ++ rest) (mk_brk p (Some m) true md) =
  brk_loop flags rest (mk_brk p (Some (upd y m)) true md).
Proof.
  intros (s & Hs & Hp & Hf & _). rewrite Hs, <- Hf. destruct s as [|c s]; [done|].
  by apply (brk_loop_minus flags (c :: s)).
Qed.

Lemma read_signed minus plus rest p m :
  part_text md isset str upd plus ->
  (forall y, minus = Some y -> part_text md isset str upd y) ->
  (minus = None <-> m = None) ->
  exists neg, brk_loop flags (signed_flags minus plus isset str ++ rest) (mk_brk p m false md) =
    brk_loop flags rest (mk_brk (upd plus p) (upd_minus upd minus m) neg md).
Proof.
  intros Hp Hm Hsame. destruct minus as [y|], m as [q|];
    try (destruct Hsame as [Ha Hb]; first [discriminate (Ha eq_refl)|discriminate (Hb eq_refl)]).
  2: { by apply read_str_plus. }
  pose proof (Hm y eq_refl) as Hy. unfold signed_flags. cbn [upd_minus].
  rewrite <- !app_assoc.
  assert (Hplus : brk_loop flags
      ((if isset plus then [ch "+"] else []) ++ str plus ++ (if isset y then ch "-" :: str y else []) ++ rest)
      (mk_brk p (Some q) false md) =
    brk_loop flags (str plus ++ (if isset y then ch "-" :: str y else []) ++ rest)
      (mk_brk p (Some q) false md)) by (destruct (isset plus); done).
  rewrite Hplus. destruct (read_str_plus plus ((if isset y then ch "-" :: str y else []) ++ rest)
    p (Some q) Hp) as [neg ->].
  destruct (isset y) eqn:Ey.
  - exists true. simpl app. rewrite brk_loop_minus_sign. by apply read_str_minus.
  - exists neg. destruct Hy as (s & _ & _ & Hf & Hs). rewrite Hs in Hf by done.
    specialize (Hf q). cbn in Hf. by rewrite <- Hf.
Qed.

End Part.

(** *** The characters of a bit mask *)

(** [shiftl v k] is its lowest bit and the rest. *)
Lemma shiftl_split v k :
  0 <= k ->
  Z.shiftl v k = (if v &? 1 then Z.shiftl 1 k else 0) ||| Z.shiftl (Z.shiftr v 1) (k + 1).
Proof.
  intros Hk. change 1 with (2 ^ 0) at 1. rewrite land_pow2_testbit by done.
  apply Z.bits_inj'. intros n Hn. rewrite Z.lor_spec, !Z.shiftl_spec by done.
  destruct (Z.eq_dec n k) as [->|Hne].
  - replace (k - k) with 0 by lia. replace (k - (k + 1)) with (-1) by lia.
    rewrite Z.testbit_neg_r with (n := -1) by lia. rewrite orb_false_r.
    destruct (Z.testbit v 0); [|by rewrite Z.bits_0].
    rewrite Z.shiftl_spec by done. by replace (k - k) with 0 by lia.
  - replace (Z.testbit (if Z.testbit v 0 then Z.shiftl 1 k else 0) n) with false.
    + destruct (Z.le_gt_cases k n) as [Hle|Hlt].
      * rewrite Z.shiftr_spec by lia. cbn [orb]. f_equal. lia.
      * by rewrite !Z.testbit_neg_r by lia.
    + destruct (Z.testbit v 0); [|by rewrite Z.bits_0].
      rewrite Z.shiftl_1_l, Z.pow2_bits_false by done. done.
Qed.

Lemma shiftr_1_bound v n : 0 <= v < 2 ^ Z.of_nat (S n) -> 0 <= Z.shiftr v 1 < 2 ^ Z.of_nat n.
Proof.
  intros Hv. rewrite Nat2Z.inj_succ, Z.pow_succ_r in Hv by lia.
  rewrite Z.shiftr_div_pow2 by lia. change (2 ^ 1) with 2.
  split; [apply Z.div_pos; lia|apply Z.div_lt_upper_bound; lia].
Qed.

Section Bits.
(** A field [f] that the characters from [base] on set, in mode [md]. *)
Context (md base : Z) (f : Z -> flag_record -> flag_record).
Hypothesis f_0 : forall r, f 0 r = r.
Hypothesis f_lor : forall a b r, f b (f a r) = f (a ||| b) r.

Lemma letters_bits_while n x v r :
  (forall c r, x <= c < x + Z.of_nat n -> set_letter md c r = f (Z.shiftl 1 (c - base)) r) ->
  base <= x -> 0 <= v < 2 ^ Z.of_nat n ->
  letters md (bits_while n x v) r = f (Z.shiftl v (x - base)) r.
Proof.
  revert x v r. induction n as [|n IH]; intros x v r Hc Hx Hv.
  - replace v with 0 by lia. by rewrite Z.shiftl_0_l, f_0.
  - cbn [bits_while]. destruct (truthy v) eqn:E.
    2: { apply truthy_false in E as ->. by rewrite Z.shiftl_0_l, f_0. }
    rewrite letters_app, letters_bit.
    rewrite IH; [|intros; apply Hc; lia|lia|by apply shiftr_1_bound].
    rewrite (shiftl_split v (x - base)) by lia. replace (x + 1 - base) with (x - base + 1) by lia.
    destruct (v &? 1); [|done]. by rewrite Hc, f_lor by lia.
Qed.

Lemma letters_bits_for n x v r :
  (forall c r, x <= c < x + Z.of_nat n -> set_letter md c r = f (Z.shiftl 1 (c - base)) r) ->
  base <= x ->
  letters md (fst (bits_for n x v)) r = f (Z.shiftl (v mod 2 ^ Z.of_nat n) (x - base)) r /\
  snd (bits_for n x v) = Z.shiftr v (Z.of_nat n).
Proof.
  revert x v r. induction n as [|n IH]; intros x v r Hc Hx.
  - cbn [bits_for fst snd]. change (2 ^ Z.of_nat 0) with 1. rewrite Z.mod_1_r.
    by rewrite Z.shiftl_0_l, f_0.
  - cbn [bits_for]. specialize (fun r => IH (x + 1) (Z.shiftr v 1) r).
    destruct (bits_for n (x + 1) (Z.shiftr v 1)) as [s v']. cbn [fst snd] in *. split.
    + rewrite letters_app, letters_bit.
      rewrite (proj1 (IH _ ltac:(intros; apply Hc; lia) ltac:(lia))).
      rewrite (shiftl_split (v mod _) (x - base)) by lia.
      replace (x + 1 - base) with (x - base + 1) by lia.
      replace (v mod 2 ^ Z.of_nat (S n) &? 1) with (v &? 1).
      2: { change 1 with (2 ^ 0). rewrite !land_pow2_testbit by done.
           by rewrite Z.mod_pow2_bits_low by lia. }
      replace (Z.shiftr (v mod 2 ^ Z.of_nat (S n)) 1) with (Z.shiftr v 1 mod 2 ^ Z.of_nat n).
      2: { apply Z.bits_inj'. intros k Hk. rewrite Z.shiftr_spec by done.
           destruct (Z.lt_ge_cases k (Z.of_nat n)).
           - rewrite !Z.mod_pow2_bits_low, Z.shiftr_spec by lia. done.
           - by rewrite !Z.mod_pow2_bits_high by lia. }
      destruct (v &? 1); [|done]. by rewrite Hc, f_lor by lia.
    + rewrite (proj2 (IH r ltac:(intros; apply Hc; lia) ltac:(lia))).
      rewrite Z.shiftr_shiftr by lia. f_equal. lia.
Qed.

End Bits.

Lemma bits_while_plain n x v :
  (forall c, x <= c < x + Z.of_nat n -> plain c) -> Forall plain (bits_while n x v).
Proof.
  revert x v. induction n as [|n IH]; intros x v H; [constructor|]. cbn [bits_while].
  destruct (truthy v); [|constructor]. apply Forall_app. split.
  - destruct (v &? 1); [|constructor]. constructor; [apply H; lia|constructor].
  - apply IH. intros. apply H. lia.
Qed.

Lemma bits_for_plain n x v :
  (forall c, x <= c < x + Z.of_nat n -> plain c) -> Forall plain (fst (bits_for n x v)).
Proof.
  revert x v. induction n as [|n IH]; intros x v H; [constructor|]. cbn [bits_for].
  specialize (IH (x + 1) (Z.shiftr v 1) ltac:(intros; apply H; lia)).
  destruct (bits_for n (x + 1) (Z.shiftr v 1)). apply Forall_app. split; [|done].
  destruct (v &? 1); [|constructor]. constructor; [apply H; lia|constructor].
Qed.

(** *** The three fields *)

(** The flags of one field of [y], added to [r]. *)
Definition upd_global (y r : flag_record) : flag_record :=
  or_udef_global (fr_udef_global y) (or_global (fr_global y) r).
Definition upd_bot (y r : flag_record) : flag_record := or_bot (fr_bot y) r.
Definition upd_chan (y r : flag_record) : flag_record :=
  or_udef_chan (fr_udef_chan y) (or_chan (fr_chan y) r).

(** Only valid flags are set. *)
Definition valid_flags (r : flag_record) : Prop := keep_valid r = r.

Lemma land_bound m n x : 0 <= n -> 0 <= m < 2 ^ n -> Z.land x m = x -> 0 <= x < 2 ^ n.
Proof.
  intros Hn Hm Hx. assert (E : x mod 2 ^ n = x).
  { rewrite <- Z.land_ones by done. rewrite <- Hx at 1.
    by rewrite <- Z.land_assoc, Z.land_ones, Z.mod_small by lia. }
  rewrite <- E. apply Z.mod_pos_bound. lia.
Qed.

Lemma valid_flags_bounds r :
  valid_flags r ->
  0 <= fr_global r < 2 ^ 26 /\ 0 <= fr_udef_global r < 2 ^ 26 /\ 0 <= fr_bot r < 2 ^ 31 /\
  0 <= fr_chan r < 2 ^ 26 /\ 0 <= fr_udef_chan r < 2 ^ 26.
Proof.
  unfold valid_flags, keep_valid. destruct r as [m g ug b c uc]. cbn. intros [= Hg Hug Hb Hc Huc].
  refine (conj _ (conj _ (conj _ (conj _ _)))); [eapply (land_bound USER_VALID 26)|eapply (land_bound 0x3ffffff 26)|
    eapply (land_bound BOT_VALID 31)|eapply (land_bound CHAN_VALID 26)|
    eapply (land_bound 0x3ffffff 26)]; try eassumption; unfold USER_VALID, CHAN_VALID, BOT_VALID; lia.
Qed.

Ltac letter_cases :=
  unfold set_letter, in_range;
  repeat match goal with
  | |- context [?a <=? ?b] =>
      first [rewrite (proj2 (Z.leb_le a b)) by lia | rewrite (proj2 (Z.leb_gt a b)) by lia]
  end; try done.

Lemma letter_global c r : 97 <= c < 123 -> set_letter 0 c r = or_global (Z.shiftl 1 (c - 97)) r.
Proof. intros. letter_cases. Qed.
Lemma letter_udef_global c r :
  65 <= c < 91 -> set_letter 0 c r = or_udef_global (Z.shiftl 1 (c - 65)) r.
Proof. intros. letter_cases. Qed.
Lemma letter_chan c r : 97 <= c < 123 -> set_letter 1 c r = or_chan (Z.shiftl 1 (c - 97)) r.
Proof. intros. letter_cases. Qed.
Lemma letter_udef_chan c r :
  65 <= c < 91 -> set_letter 1 c r = or_udef_chan (Z.shiftl 1 (c - 65)) r.
Proof. intros. letter_cases. Qed.
Lemma letter_bot c r : 97 <= c < 118 -> set_letter 2 c r = or_bot (Z.shiftl 1 (c - 97)) r.
Proof. intros. letter_cases. Qed.
Lemma digit_bot c r : 48 <= c < 58 -> set_letter 2 c r = or_bot (Z.shiftl 1 (c - 27)) r.
Proof.
  intros. letter_cases. change BOT_FLAG0 with (Z.shiftl 1 21). cbn [andb].
  rewrite Z.shiftl_shiftl by lia. cbn. do 2 f_equal. lia.
Qed.

Ltac or_field := intros; repeat match goal with r : flag_record |- _ => destruct r end;
  unfold or_global, or_udef_global, or_bot, or_chan, or_udef_chan; cbn;
  rewrite ?Z.lor_0_r, ?Z.lor_assoc; reflexivity.

Lemma or_global_0 r : or_global 0 r = r. Proof. or_field. Qed.
Lemma or_global_lor a b r : or_global b (or_global a r) = or_global (a ||| b) r.
Proof. or_field. Qed.
Lemma or_udef_global_0 r : or_udef_global 0 r = r. Proof. or_field. Qed.
Lemma or_udef_global_lor a b r : or_udef_global b (or_udef_global a r) = or_udef_global (a ||| b) r.
Proof. or_field. Qed.
Lemma or_chan_0 r : or_chan 0 r = r. Proof. or_field. Qed.
Lemma or_chan_lor a b r : or_chan b (or_chan a r) = or_chan (a ||| b) r. Proof. or_field. Qed.
Lemma or_udef_chan_0 r : or_udef_chan 0 r = r. Proof. or_field. Qed.
Lemma or_udef_chan_lor a b r : or_udef_chan b (or_udef_chan a r) = or_udef_chan (a ||| b) r.
Proof. or_field. Qed.
Lemma or_bot_0 r : or_bot 0 r = r. Proof. or_field. Qed.
Lemma or_bot_lor a b r : or_bot b (or_bot a r) = or_bot (a ||| b) r. Proof. or_field. Qed.

(** A field of letters and user-defined letters. *)
Lemma letters_flag2str md f g a u r :
  (forall r, f 0 r = r) -> (forall a b r, f b (f a r) = f (a ||| b) r) ->
  (forall r, g 0 r = r) -> (forall a b r, g b (g a r) = g (a ||| b) r) ->
  (forall c r, 97 <= c < 123 -> set_letter md c r = f (Z.shiftl 1 (c - 97)) r) ->
  (forall c r, 65 <= c < 91 -> set_letter md c r = g (Z.shiftl 1 (c - 65)) r) ->
  0 <= a < 2 ^ 26 -> 0 <= u < 2 ^ 26 ->
  letters md (bits_while 26 97 a ++ bits_while 26 65 u) r = g u (f a r).
Proof.
  intros Hf0 Hf Hg0 Hg Hlf Hlg Ha Hu. rewrite letters_app.
  rewrite (letters_bits_while md 97 f Hf0 Hf 26 97 a) by (try lia; intros; apply Hlf; lia).
  rewrite (letters_bits_while md 65 g Hg0 Hg 26 65 u) by (try lia; intros; apply Hlg; lia).
  by rewrite !Z.shiftl_0_r.
Qed.

Lemma bits_while_isset n x m : truthy m = false -> bits_while n x m = [].
Proof. destruct n; [done|]. cbn [bits_while]. by intros ->. Qed.

Lemma plain_letters x : x = 97 \/ x = 65 -> forall c, x <= c < x + Z.of_nat 26 -> plain c.
Proof. intros [-> | ->] c H; unfold plain; lia. Qed.

Lemma global_text y :
  valid_flags y ->
  part_text 0 (fun r => truthy (fr_global r) || truthy (fr_udef_global r))
    (fun r => flag2str (fr_global r) (fr_udef_global r))
    upd_global y.
Proof.
  intros (Hg & Hu & _)%valid_flags_bounds. eexists. split_and!; [done|..].
  - apply Forall_app. split; apply bits_while_plain, plain_letters; auto.
  - intros r. apply letters_flag2str; auto using or_global_0, or_global_lor,
      or_udef_global_0, or_udef_global_lor, letter_global, letter_udef_global.
  - intros [E1 E2]%orb_false_elim. by rewrite !bits_while_isset.
Qed.

Lemma chan_text y :
  valid_flags y ->
  part_text 1 (fun r => truthy (fr_chan r) || truthy (fr_udef_chan r))
    (fun r => flag2str (fr_chan r) (fr_udef_chan r))
    upd_chan y.
Proof.
  intros (_ & _ & _ & Hg & Hu)%valid_flags_bounds. eexists. split_and!; [done|..].
  - apply Forall_app. split; apply bits_while_plain, plain_letters; auto.
  - intros r. apply letters_flag2str; auto using or_chan_0, or_chan_lor,
      or_udef_chan_0, or_udef_chan_lor, letter_chan, letter_udef_chan.
  - intros [E1 E2]%orb_false_elim. by rewrite !bits_while_isset.
Qed.

(** The letters and the digits of a bot field together. *)
Definition bot_chars (v : Z) : list Z :=
  fst (bits_for 21 97 v) ++ fst (bits_for 10 48 (snd (bits_for 21 97 v))).

Lemma letters_bot v r : 0 <= v < 2 ^ 31 -> letters 2 (bot_chars v) r = or_bot v r.
Proof.
  intros Hv. unfold bot_chars. rewrite letters_app.
  destruct (letters_bits_for 2 97 or_bot or_bot_0 or_bot_lor 21 97 v r) as [-> ->];
    [intros; apply letter_bot; lia|lia|].
  destruct (letters_bits_for 2 27 or_bot or_bot_0 or_bot_lor 10 48 (Z.shiftr v (Z.of_nat 21))
    (or_bot (Z.shiftl (v mod 2 ^ Z.of_nat 21) (97 - 97)) r)) as [-> _];
    [intros; apply digit_bot; lia|lia|].
  rewrite or_bot_lor. f_equal. rewrite Z.shiftl_0_r. rewrite (Z.mod_small (Z.shiftr v _)).
  2: { rewrite Z.shiftr_div_pow2 by lia. split; [apply Z.div_pos; lia|].
       apply Z.div_lt_upper_bound; lia. }
  apply Z.bits_inj'. intros k Hk. rewrite Z.lor_spec, Z.shiftl_spec by done.
  destruct (Z.lt_ge_cases k 21).
  - rewrite Z.mod_pow2_bits_low, (Z.testbit_neg_r _ (k - _)) by lia. apply orb_false_r.
  - rewrite Z.mod_pow2_bits_high, Z.shiftr_spec by lia. cbn [orb]. f_equal. lia.
Qed.

Lemma bits_for_0 n x : bits_for n x 0 = ([], 0).
Proof. revert x. induction n as [|n IH]; intros x; [done|]. cbn [bits_for]. by rewrite IH. Qed.

Lemma bot_text y :
  valid_flags y ->
  part_text 2 (fun r => truthy (fr_bot r)) (fun r => bot2str (fr_bot r))
    upd_bot y.
Proof.
  intros (_ & _ & Hb & _)%valid_flags_bounds. exists (bot_chars (fr_bot y)). split_and!.
  - unfold bot2str, bot_chars. rewrite i32_small by lia. by destruct (bits_for 21 _ _).
  - apply Forall_app. split; apply bits_for_plain; intros; unfold plain; lia.
  - intros r. by apply letters_bot.
  - intros ->%truthy_false. unfold bot_chars. by rewrite !bits_for_0.
Qed.

(** *** The round trip *)

Lemma truthy_land_lor x a b : (x &? (a ||| b)) = (x &? a) || (x &? b).
Proof.
  rewrite Z.land_lor_distr_r. unfold truthy.
  destruct (Z.eqb_spec (Z.land x a ||| Z.land x b) 0) as [E|E],
    (Z.eqb_spec (Z.land x a) 0) as [Ea|Ea], (Z.eqb_spec (Z.land x b) 0) as [Eb|Eb]; try done;
    exfalso; rewrite ?Z.lor_eq_0_iff in E; tauto.
Qed.

(** What a text of the kinds [k] carries of a record. *)
Definition carried (k m : Z) (r : flag_record) : flag_record :=
  let G := k &? FR_GLOBAL in
  let B := negb G && (k &? FR_BOT) in
  let C := k &? FR_CHAN in
  mk_fr m (if G then fr_global r else 0) (if G then fr_udef_global r else 0)
    (if B then fr_bot r else 0) (if C then fr_chan r else 0) (if C then fr_udef_chan r else 0).

Section RoundTrip.
Context (k sep : Z) (plus : flag_record) (minus : option flag_record).
Hypothesis (Hk : Z.land k (FR_AND ||| FR_OR) = 0) (Hsep : sep = FR_OR \/ sep = FR_AND).
Hypothesis (Hmatch : fr_match plus = k ||| sep).
Hypothesis (Hplus : valid_flags plus) (Hminus : forall y, minus = Some y -> valid_flags y).

Let zero_minus : option flag_record := (fun _ => fr_zero) <$> minus.

Lemma same_shape (m : option flag_record) upd :
  (minus = None <-> m = None) -> (minus = None <-> upd_minus upd minus m = None).
Proof. intros [H1 H2]. destruct minus, m; naive_solver. Qed.

Lemma kind_test f :
  Z.land (FR_AND ||| FR_OR) f = 0 -> (fr_match plus &? f) = (k &? f).
Proof.
  intros H. rewrite Hmatch, Z.land_comm, Z.land_lor_distr_r.
  replace (Z.land f sep) with 0; [by rewrite Z.lor_0_r, Z.land_comm|].
  rewrite Z.land_comm, Z.land_lor_distr_r in H. apply Z.lor_eq_0_iff in H as [H1 H2].
  destruct Hsep as [-> | ->]; done.
Qed.

Lemma and_test : (fr_match plus &? FR_AND) = (sep =? FR_AND).
Proof.
  rewrite Hmatch, Z.land_comm, Z.land_lor_distr_r, Z.land_comm.
  rewrite Z.land_lor_distr_r in Hk. apply Z.lor_eq_0_iff in Hk as [-> _].
  by destruct Hsep as [-> | ->].
Qed.

(** The text: a first field, then the separator and the channel field. *)
Lemma build_flags_text :
  (k &? (FR_GLOBAL ||| FR_BOT ||| FR_CHAN)) = true ->
  fst (build_flags plus minus) =
  (if k &? FR_GLOBAL then global_part minus plus
   else if k &? FR_BOT then bot_flags_part minus plus else []) ++
  (if k &? FR_CHAN then
     (if (k &? FR_GLOBAL) || (k &? FR_BOT)
      then [if sep =? FR_AND then ch "&" else ch "|"] else []) ++ chan_part minus plus
   else []).
Proof.
  intros H. unfold build_flags. rewrite !kind_test by done. rewrite and_test.
  rewrite truthy_land_lor.
  match goal with |- fst (match ?s with [] => _ | _ => _ end) = _ => destruct s eqn:E end;
    [|done]. exfalso. rewrite !truthy_land_lor in H.
  assert (Hne : forall isset str upd md, part_text md isset str upd plus ->
    signed_flags minus plus isset str <> []).
  { intros isset str upd md (s & Hs & _) H0. unfold signed_flags in H0. rewrite Hs in H0.
    destruct minus; [|by destruct s]. apply app_nil in H0 as [_ H0].
    by apply app_nil in H0 as [H0 _]; destruct s. }
  apply app_nil in E as [E1 E2].
  destruct (k &? FR_GLOBAL); [exact (Hne _ _ _ _ (global_text _ Hplus) E1)|].
  destruct (k &? FR_BOT); [exact (Hne _ _ _ _ (bot_text _ Hplus) E1)|].
  destruct (k &? FR_CHAN); [|done]. exact (Hne _ _ _ _ (chan_text _ Hplus) E2).
Qed.

(** The first field and what follows it. *)
Lemma read_global rest p m :
  (minus = None <-> m = None) ->
  exists neg, brk_loop k (global_part minus plus ++ rest) (mk_brk p m false 0) =
    brk_loop k rest (mk_brk
      (upd_global plus p)
      (upd_minus upd_global minus m)
      neg 0).
Proof. apply (read_signed k 0 _ _ upd_global); auto using global_text. Qed.

Lemma read_bot rest p m :
  (minus = None <-> m = None) ->
  exists neg, brk_loop k (bot_flags_part minus plus ++ rest) (mk_brk p m false 2) =
    brk_loop k rest (mk_brk (upd_bot plus p)
      (upd_minus upd_bot minus m) neg 2).
Proof. apply (read_signed k 2 _ _ upd_bot); auto using bot_text. Qed.

Lemma read_chan p m :
  (minus = None <-> m = None) ->
  exists neg, brk_loop k (chan_part minus plus) (mk_brk p m false 1) =
    mk_brk (upd_chan plus p)
      (upd_minus upd_chan minus m) neg 1.
Proof.
  rewrite <- (app_nil_r (chan_part _ _)).
  apply (read_signed k 1 _ _ upd_chan minus plus []); auto using chan_text.
Qed.

Lemma read_sep rest p m neg :
  brk_loop k ((if sep =? FR_AND then ch "&" else ch "|") :: rest) (mk_brk p m neg 0) =
  brk_loop k rest (mk_brk (with_match sep p) m false 1).
Proof using Hsep. clear -Hsep. by destruct Hsep as [-> | ->]. Qed.

Lemma read_sep_bot rest p m neg :
  brk_loop k ((if sep =? FR_AND then ch "&" else ch "|") :: rest) (mk_brk p m neg 2) =
  brk_loop k rest (mk_brk p m false 1).
Proof using Hsep. clear -Hsep. by destruct Hsep as [-> | ->]. Qed.

(** The valid flags stay, the kinds come back. *)
Lemma finish_carried m P M neg md :
  fr_match P = m -> m = FR_OR \/ m = FR_AND ->
  keep_valid P = carried k m plus -> keep_valid <$> M = carried k 0 <$> minus ->
  brk_finish k (mk_brk P M neg md) = (carried k (k ||| m) plus, carried k k <$> minus).
Proof using Hk.
  clear Hminus Hplus Hmatch Hsep.
  intros Hm Hor HP HM. unfold brk_finish. cbn [b_plus b_minus]. rewrite HM, HP.
  change (fr_match (carried k m plus)) with m. rewrite (Z.lor_comm m k).
  destruct minus as [y|]; cbn [fmap option_fmap option_map]; [|done].
  change (fr_match (with_match (k ||| m) (carried k m plus))) with (k ||| m).
  replace ((k ||| m) &? (FR_AND ||| FR_OR)) with true; [done|].
  rewrite Z.land_comm, Z.land_lor_distr_r, (Z.land_comm _ k), Hk. by destruct Hor as [-> | ->].
Qed.

(** The same, with the updates of [minus] from a zeroed record. *)
Lemma finish_upd m P u neg md :
  fr_match P = m -> m = FR_OR \/ m = FR_AND ->
  keep_valid P = carried k m plus ->
  (forall y, minus = Some y -> keep_valid (u y fr_zero) = carried k 0 y) ->
  brk_finish k (mk_brk P (upd_minus u minus zero_minus) neg md) =
  (carried k (k ||| m) plus, carried k k <$> minus).
Proof using Hk.
  clear Hminus Hplus Hmatch Hsep.
  intros Hm Hor HP HM. apply finish_carried; [done..|]. unfold zero_minus.
  destruct minus as [y|]; [|done]. cbn. f_equal. by apply HM.
Qed.

Lemma zero_minus_shape : minus = None <-> zero_minus = None.
Proof using. clear. unfold zero_minus. by destruct minus. Qed.

Lemma upd_minus_twice u v z :
  upd_minus v minus (upd_minus u minus z) = upd_minus (fun y r => v y (u y r)) minus z.
Proof using. clear. by destruct minus, z. Qed.

End RoundTrip.

Lemma valid_flags_eq r :
  valid_flags r ->
  Z.land (fr_global r) USER_VALID = fr_global r /\
  Z.land (fr_udef_global r) 0x03ffffff = fr_udef_global r /\
  Z.land (fr_bot r) BOT_VALID = fr_bot r /\ Z.land (fr_chan r) CHAN_VALID = fr_chan r /\
  Z.land (fr_udef_chan r) 0x03ffffff = fr_udef_chan r.
Proof.
  unfold valid_flags, keep_valid. destruct r as [m g ug b c uc].
  cbn [fr_match fr_global fr_udef_global fr_bot fr_chan fr_udef_chan]. intros H.
  by injection H.
Qed.

(** Closes [keep_valid (updates) = carried ...]. *)
Ltac carried_eq H :=
  destruct (valid_flags_eq _ H) as (?Hg & ?Hug & ?Hb & ?Hc & ?Huc);
  unfold carried, keep_valid;
  repeat match goal with E : (_ &? _) = _ |- _ => rewrite E; clear E end;
  cbn [upd_global upd_bot upd_chan or_global or_udef_global or_bot or_chan or_udef_chan with_match
       fr_zero fr_match fr_global fr_udef_global fr_bot fr_chan fr_udef_chan negb andb];
  rewrite ?Z.lor_0_l, ?Z.land_0_l; congruence.

(** Closes a case of the round trip once the text is read. *)
Ltac finish_case Hplus Hminus :=
  rewrite ?upd_minus_twice;
  apply finish_upd; [done|done|auto|carried_eq Hplus|];
  let y := fresh "y" in let Hy := fresh "Hy" in
  intros y Hy; carried_eq (Hminus y Hy).

(** Read the first field of the text by [L]. *)
Ltac read_with L Hz :=
  match goal with
  | |- context [brk_loop _ (_ ++ ?rest) (mk_brk ?p ?m false _)] => destruct (L rest p m Hz) as [? ->]
  end.

Lemma read_back k sep plus minus q q' :
  Z.land k (FR_AND ||| FR_OR) = 0 -> sep = FR_OR \/ sep = FR_AND ->
  (k &? (FR_GLOBAL ||| FR_BOT ||| FR_CHAN)) = true ->
  fr_match plus = k ||| sep -> valid_flags plus ->
  (forall y, minus = Some y -> valid_flags y) ->
  fr_match q = k -> (minus = None <-> q' = None) ->
  break_down_flags (fst (build_flags plus minus)) q q' =
  (carried k (k ||| (if (k &? FR_GLOBAL) && (k &? FR_CHAN) then sep else FR_OR)) plus,
   carried k k <$> minus).
Proof.
  intros Hk Hsep Hany Hmatch Hplus Hminus Hq Hq'.
  rewrite (build_flags_text k sep) by done. unfold break_down_flags. rewrite Hq.
  replace ((fun _ : flag_record => fr_zero) <$> q') with ((fun _ : flag_record => fr_zero) <$> minus)
    by (clear -Hq'; destruct Hq', minus, q'; naive_solver).
  rewrite !truthy_land_lor in Hany. pose proof (zero_minus_shape minus) as Hz.
  destruct (k &? FR_GLOBAL) eqn:EG; [|destruct (k &? FR_BOT) eqn:EB];
    [| |destruct (k &? FR_CHAN) eqn:EC; [|done]]; cbn [orb andb].
  - read_with (read_global k plus minus Hplus Hminus) Hz.
    destruct (k &? FR_CHAN) eqn:EC; [|finish_case Hplus Hminus].
    cbn [app]. rewrite read_sep by done.
    edestruct (read_chan k plus minus Hplus Hminus) as [neg' ->]; [by apply same_shape|].
    finish_case Hplus Hminus.
  - read_with (read_bot k plus minus Hplus Hminus) Hz.
    destruct (k &? FR_CHAN) eqn:EC; [|finish_case Hplus Hminus].
    cbn [app]. rewrite read_sep_bot by done.
    edestruct (read_chan k plus minus Hplus Hminus) as [neg' ->]; [by apply same_shape|].
    finish_case Hplus Hminus.
  - cbn [app]. match goal with
    | |- context [brk_loop _ _ (mk_brk ?p ?m false _)] =>
        destruct (read_chan k plus minus Hplus Hminus p m Hz) as [neg ->]
    end.
    finish_case Hplus Hminus.
Qed.

(** ** Sizes *)

(** A mask has at least the characters of what it keeps. *)
Lemma bits_while_le n x v m :
  Z.land v m = v -> (length (bits_while n x v) <= length (bits_while n x m))%nat.
Proof.
  revert x v m. induction n as [|n IH]; intros x v m Hv; [done|]. cbn [bits_while].
  destruct (truthy v) eqn:Ev; [|simpl; lia]. destruct (truthy m) eqn:Em.
  2: { apply truthy_false in Em as ->. rewrite Z.land_0_r in Hv. by subst v. }
  rewrite !length_app. specialize (IH (x + 1) (Z.shiftr v 1) (Z.shiftr m 1)).
  rewrite <- Z.shiftr_land, Hv in IH. specialize (IH eq_refl).
  assert (Hb : (v &? 1) = true -> (m &? 1) = true).
  { change 1 with (2 ^ 0). rewrite !land_pow2_testbit by done. rewrite <- Hv at 1.
    rewrite Z.land_spec. by intros [_ H]%andb_prop. }
  destruct (v &? 1); [rewrite Hb by done|destruct (m &? 1)]; simpl; lia.
Qed.

Lemma bits_for_le n x v m :
  Z.land v m = v ->
  (length (fst (bits_for n x v)) <= length (fst (bits_for n x m)))%nat /\
  Z.land (snd (bits_for n x v)) (snd (bits_for n x m)) = snd (bits_for n x v).
Proof.
  revert x v m. induction n as [|n IH]; intros x v m Hv; [done|]. cbn [bits_for].
  specialize (IH (x + 1) (Z.shiftr v 1) (Z.shiftr m 1)).
  rewrite <- Z.shiftr_land, Hv in IH. specialize (IH eq_refl).
  destruct (bits_for n (x + 1) (Z.shiftr v 1)) as [s v'].
  destruct (bits_for n (x + 1) (Z.shiftr m 1)) as [t m']. cbn [fst snd] in *.
  rewrite !length_app.
  assert (Hb : (v &? 1) = true -> (m &? 1) = true).
  { change 1 with (2 ^ 0). rewrite !land_pow2_testbit by done. rewrite <- Hv at 1.
    rewrite Z.land_spec. by intros [_ H]%andb_prop. }
  destruct IH as [IH1 IH2]. split; [|done].
  destruct (v &? 1); [rewrite Hb by done|destruct (m &? 1)]; simpl; lia.
Qed.

Lemma or_dash_length s n : (length s <= n)%nat -> (1 <= n)%nat -> (length (or_dash s) <= n)%nat.
Proof. destruct s; simpl; lia. Qed.

Lemma flag2str_length a u m :
  Z.land a m = a -> Z.land u 0x03ffffff = u ->
  (length (flag2str a u) <= length (bits_while 26 97 m) + 26)%nat.
Proof.
  intros Ha Hu. apply or_dash_length; [|lia]. rewrite length_app.
  pose proof (bits_while_le 26 97 a m Ha). pose proof (bits_while_le 26 65 u _ Hu) as H2.
  assert (E : length (bits_while 26 65 0x03ffffff) = 26%nat) by done. lia.
Qed.

Lemma bot2str_length b : Z.land b BOT_VALID = b -> (length (bot2str b) <= 25)%nat.
Proof.
  intros Hb. pose proof (land_bound BOT_VALID 31 b) as Hr.
  unfold bot2str. rewrite i32_small by (unfold BOT_VALID in *; lia).
  pose proof (bits_for_le 21 97 b BOT_VALID Hb) as [H1 H2].
  destruct (bits_for 21 97 b) as [s v]. destruct (bits_for 21 97 BOT_VALID) as [t w] eqn:E.
  cbn [fst snd] in *. pose proof (bits_for_le 10 48 v w H2) as [H3 _].
  vm_compute in E. injection E as <- <-. apply or_dash_length; [|lia]. rewrite length_app.
  change (length (fst (bits_for 10 48 1023))) with 10%nat in H3. simpl in H1. lia.
Qed.

Lemma build_flags_length r :
  valid_flags r ->
  (length (fst (build_flags r None)) <=
   if fr_match r &? FR_CHAN then 94 else if fr_match r &? FR_GLOBAL then 50 else 25)%nat.
Proof.
  intros (Hg & Hug & Hb & Hc & Huc)%valid_flags_eq.
  pose proof (flag2str_length _ _ USER_VALID Hg Hug) as Lg.
  pose proof (flag2str_length _ _ CHAN_VALID Hc Huc) as Lc.
  pose proof (bot2str_length _ Hb) as Lb.
  change (length (bits_while 26 97 USER_VALID)) with 24%nat in Lg.
  change (length (bits_while 26 97 CHAN_VALID)) with 17%nat in Lc.
  unfold build_flags.
  match goal with |- (length (fst (match ?s with [] => _ | _ => _ end)) <= _)%nat =>
    assert (H : (length s <=
      if fr_match r &? FR_CHAN then 94 else if fr_match r &? FR_GLOBAL then 50 else 25)%nat) end.
  - unfold global_part, bot_flags_part, chan_part, signed_flags. rewrite length_app.
    destruct (fr_match r &? FR_GLOBAL), (fr_match r &? FR_BOT), (fr_match r &? FR_CHAN);
      rewrite ?length_app; destruct (fr_match r &? (FR_GLOBAL ||| FR_BOT)); simpl length; lia.
  - revert H. match goal with |- context [match ?s with [] => _ | _ => _ end] => destruct s end;
      [|done]. intros _. repeat case_if; simpl; lia.
Qed.

(** ** More flags *)

(** Every flag of [a] is one of [b]. *)
Definition fr_le (a b : flag_record) : Prop :=
  covers (fr_global a) (fr_global b) = true /\ covers (fr_udef_global a) (fr_udef_global b) = true /\
  covers (fr_bot a) (fr_bot b) = true /\ covers (fr_chan a) (fr_chan b) = true /\
  covers (fr_udef_chan a) (fr_udef_chan b) = true.

Lemma covers_bits a b :
  covers a b = true <-> forall k, Z.testbit a k = true -> Z.testbit b k = true.
Proof.
  unfold covers. rewrite Z.eqb_eq. split.
  - intros E k Hk. rewrite <- E, Z.land_spec in Hk. by apply andb_prop in Hk as [_ ?].
  - intros H. apply Z.bits_inj. intros k. rewrite Z.land_spec.
    destruct (Z.testbit a k) eqn:E; [|done]. by rewrite H.
Qed.

Lemma covers_trans a b c : covers a b = true -> covers b c = true -> covers a c = true.
Proof. rewrite !covers_bits. auto. Qed.

Lemma covers_lor a b m : covers a b = true -> covers (a ||| m) (b ||| m) = true.
Proof.
  rewrite !covers_bits. intros H k. rewrite !Z.lor_spec. intros [?%H| ->]%orb_true_iff.
  - apply orb_true_iff; by left.
  - apply orb_true_r.
Qed.

Lemma covers_lor_r a b m : covers a b = true -> covers a (b ||| m) = true.
Proof. rewrite !covers_bits. intros H k ?%H. rewrite Z.lor_spec. apply orb_true_iff; by left. Qed.

(** A test that succeeds still succeeds with more flags. *)
Lemma test_more a b m : covers a b = true -> (a &? m) = true -> (b &? m) = true.
Proof.
  rewrite covers_bits, !truthy_true. intros H Hne E. apply Hne.
  apply Z.bits_inj. intros k. rewrite Z.bits_0, Z.land_spec.
  destruct (Z.testbit a k) eqn:Ea; [|done]. apply H in Ea.
  assert (Hk : Z.testbit (Z.land b m) k = false) by (rewrite E; apply Z.bits_0).
  by rewrite Z.land_spec, Ea in Hk.
Qed.

Lemma orb_more (a b c d : bool) : (a = true -> b = true) -> (c = true -> d = true) ->
  a || c = true -> b || d = true.
Proof. destruct a, b, c, d; simpl; auto. Qed.

Lemma andb_more (a b c d : bool) : (a = true -> b = true) -> (c = true -> d = true) ->
  a && c = true -> b && d = true.
Proof. destruct a, b, c, d; simpl; auto. Qed.

Create HintDb more.
#[export] Hint Resolve orb_more andb_more test_more covers_trans covers_lor covers_lor_r : more.

Lemma flagrec_eq_more req a b :
  fr_le a b -> flagrec_eq req a = true -> flagrec_eq req b = true.
Proof.
  intros (Hg & Hug & Hb & Hc & Huc). unfold flagrec_eq.
  destruct (fr_match req &? FR_AND).
  - repeat apply andb_more; intros H; revert H; case_if; try done;
      try (apply andb_more); intros; eapply covers_trans; eassumption.
  - destruct (fr_match req &? FR_OR); [|done]. case_if; [done|].
    repeat apply orb_more; intros H; revert H; case_if; try done;
      try (apply orb_more); intros; eapply test_more; eassumption.
Qed.

Lemma implied_party_more rp a b :
  fr_le a b -> implied_party rp a = true -> implied_party rp b = true.
Proof.
  intros (Hg & Hug & Hb & Hc & Huc). unfold implied_party. apply andb_more; [done|].
  apply orb_more; eapply test_more; eassumption.
Qed.

Lemma fr_le_party a b :
  fr_le a b -> fr_le (or_global USER_PARTY a) (or_global USER_PARTY b) /\
               fr_le a (or_global USER_PARTY b).
Proof.
  intros (Hg & Hug & Hb & Hc & Huc). split; (split; [|done]); cbn;
    [by apply covers_lor|by apply covers_lor_r].
Qed.

Lemma flagrec_ok_more rp dk req a b :
  fr_le a b ->
  (fr_match req &? FR_AND) ||
    (truthy (fr_chan req) || truthy (fr_global req) || truthy (fr_udef_global req) ||
     truthy (fr_udef_chan req)) = true ->
  flagrec_ok rp dk req a = true -> flagrec_ok rp dk req b = true.
Proof.
  intros Hle Hreq. pose proof (implied_party_more rp a b Hle) as Hp.
  destruct (fr_le_party a b Hle) as [H1 H2]. unfold flagrec_ok.
  destruct (fr_match req &? FR_AND).
  - destruct (implied_party rp a); [rewrite Hp by done; by apply flagrec_eq_more|].
    destruct (implied_party rp b); by apply flagrec_eq_more.
  - destruct (fr_match req &? FR_OR); [|done].
    rewrite <- !negb_orb. cbn [orb] in Hreq. rewrite Hreq. cbn [negb].
    destruct Hle as (Hg & Hug & Hb & Hc & Huc).
    repeat apply orb_more; try (eapply test_more; eassumption).
    apply test_more. destruct (implied_party rp a); [rewrite Hp by done; by apply covers_lor|].
    destruct (implied_party rp b); [by apply covers_lor_r|done].
Qed.

(** ** The theorems *)

(** C27. What [build_flags] writes of valid flags, with or without flags after a minus,
    [break_down_flags] reads back: the fields of the kinds asked for (the bot field
    only without the global one), and the kind of match when the text has a global
    and a channel field. *)
Theorem flags_text_roundtrip k sep plus minus q q' :
  Z.land k (FR_AND ||| FR_OR) = 0 -> sep = FR_OR \/ sep = FR_AND ->
  (k &? (FR_GLOBAL ||| FR_BOT ||| FR_CHAN)) = true ->
  fr_match plus = k ||| sep -> valid_flags plus ->
  (forall y, minus = Some y -> valid_flags y) ->
  fr_match q = k -> (minus = None <-> q' = None) ->
  break_down_flags (fst (build_flags plus minus)) q q' =
  (carried k (k ||| (if (k &? FR_GLOBAL) && (k &? FR_CHAN) then sep else FR_OR)) plus,
   carried k k <$> minus).
Proof. apply read_back. Qed.

Lemma flags_text_roundtrip_witness :
  break_down_flags (bs "+acAB-b&+ad-C") (mk_fr 5 0 0 0 0 0) (Some fr_zero) =
  (mk_fr (5 ||| FR_AND) 5 3 0 9 0, Some (mk_fr 5 2 0 0 0 4)).
Proof.
  refine (flags_text_roundtrip 5 FR_AND (mk_fr (5 ||| FR_AND) 5 3 0 9 0)
            (Some (mk_fr 5 2 0 0 0 4)) (mk_fr 5 0 0 0 0 0) (Some fr_zero) _ _ _ _ _ _ _ _);
    try reflexivity; [by right|by intros y [= <-]|by split].
Defined.

(** The text of valid flags without a minus record is at most 94 characters, so it
    fits the buffers of 100 bytes; 50 without channel flags and 25 for bot flags. *)
Theorem build_flags_bound r :
  valid_flags r ->
  (length (fst (build_flags r None)) <=
   if fr_match r &? FR_CHAN then 94 else if fr_match r &? FR_GLOBAL then 50 else 25)%nat.
Proof. apply build_flags_length. Qed.

Lemma build_flags_bound_witness :
  (length (fst (build_flags (mk_fr (FR_GLOBAL ||| FR_CHAN ||| FR_AND) USER_VALID 0x3ffffff 0
                               CHAN_VALID 0x3ffffff) None)) = 94 /\ 94 <= 94)%nat.
Proof.
  split; [reflexivity|].
  refine (build_flags_bound (mk_fr (FR_GLOBAL ||| FR_CHAN ||| FR_AND) USER_VALID 0x3ffffff 0
                               CHAN_VALID 0x3ffffff) _). reflexivity.
Defined.

(** Not every buffer is that long: the default flags that a script can set have a
    text of 46 characters, and reading the variable writes it into 40 bytes. *)
Theorem default_flags_overflow :
  let s := bs "acefghjklmnoptuvwxyzABCDEFGHIJKLMNOPQRSTUVWXYZ" in
  let text := read_default_flags (write_default_flags s) in
  cstr s /\ length text = 46%nat /\ (40 < length text + 1)%nat.
Proof. cbv zeta. split; [repeat constructor; lia|]. split; vm_compute; [done|lia]. Qed.

(** Flags never take a bind away: when the bind asks for something (or is an "and"
    bind), a user that may use it still may with more flags, whatever the settings. *)
Theorem flagrec_ok_monotone rp dk req a b :
  fr_le a b ->
  (fr_match req &? FR_AND) ||
    (truthy (fr_chan req) || truthy (fr_global req) || truthy (fr_udef_global req) ||
     truthy (fr_udef_chan req)) = true ->
  flagrec_ok rp dk req a = true -> flagrec_ok rp dk req b = true.
Proof. apply flagrec_ok_more. Qed.

(** The condition is needed: +k takes the bind [-|-] away. *)
Lemma flagrec_ok_monotone_witness :
  let p := mk_fr (FR_GLOBAL ||| FR_AND) (USER_PARTY ||| USER_OP) 0 0 0 0 in
  let o := mk_fr FR_GLOBAL USER_OP 0 0 0 0 in
  let ok := mk_fr FR_GLOBAL (USER_OP ||| USER_KICK) 0 0 0 0 in
  flagrec_ok false false p ok = true /\
  flagrec_ok false false (mk_fr FR_OR 0 0 0 0 0) o = true /\
  flagrec_ok false false (mk_fr FR_OR 0 0 0 0 0) ok = false.
Proof.
  cbv zeta. split; [|done].
  refine (flagrec_ok_monotone false false _ (mk_fr FR_GLOBAL USER_OP 0 0 0 0) _ _ _ _); done.
Defined.
