(* ===== verification/UserRec.v ===== *)
(** * User records: entries and flags (src/userent.c, src/flags.c, src/chanprog.c)

    The list of entries of a user ([find_user_entry], [get_user], [set_user]), the bot
    flags kept in one of them, and the functions that move flags between a user record
    and a [flag_record]. *)

From S2P Require Import Prelude LibC Rfc1459 FlagDefs FlagText.

(** ** Channels *)

(** The fields of [struct chanset_t] that are used here. *)
Record chanset_t := mk_chan { ch_dname : list Z; ch_status : Z }.

Definition CHAN_SHARED : Z := 0x8000.
Definition channel_shared (c : chanset_t) : bool := ch_status c &? CHAN_SHARED.

(** [!rfc_casecmp(a, b)] *)
Definition same_chan (a b : list Z) : bool := _rfc_casecmp a b =? 0.

(** The channel list and the hash table of display names (when there is one), as the
    entries it holds; its keys ignore the case of letters. *)
Record chans := mk_chans { chanset : list chanset_t; chan_by_dname : option (list chanset_t) }.

Definition findchan_by_dname (cs : chans) (name : list Z) : option chanset_t :=
  let in_list := find (fun c => same_chan (ch_dname c) name) (chanset cs) in
  match chan_by_dname cs with
  | Some tab =>
      match find (fun c => same_name (ch_dname c) name) tab with
      | Some c => Some c
      | None => in_list
      end
  | None => in_list
  end.

(** ** User records *)

Record chanuserrec := mk_cr {
  cr_channel : list Z;
  cr_laston : Z;
  cr_flags : Z;
  cr_flags_udef : Z;
  cr_info : option (list Z)
}.

(** [struct user_entry]: the type, by its name (a null pointer for an entry whose type is
    not loaded; then [ue_name] holds the name), and the union as a machine word. *)
Record user_entry := mk_ue {
  ue_type : option (list Z);
  ue_name : option (list Z);
  ue_u : Z
}.

Record userrec := mk_user {
  u_handle : list Z;
  u_flags : Z;
  u_flags_udef : Z;
  u_chanrec : list chanuserrec;
  u_entries : list user_entry;
  u_dirty : bool
}.

Definition with_entries (es : list user_entry) (u : userrec) : userrec :=
  mk_user (u_handle u) (u_flags u) (u_flags_udef u) (u_chanrec u) es (u_dirty u).
Definition with_chanrec (crs : list chanuserrec) (u : userrec) : userrec :=
  mk_user (u_handle u) (u_flags u) (u_flags_udef u) crs (u_entries u) (u_dirty u).
Definition mark_dirty (u : userrec) : userrec :=
  mk_user (u_handle u) (u_flags u) (u_flags_udef u) (u_chanrec u) (u_entries u) true.

(** ** Entries *)

(** The error of reading a field through a null pointer. *)
Inductive fault : Type := NullDeref.

(** The loop of [find_user_entry]: the entry found and the others. *)
Fixpoint find_entry (et : list Z) (es : list user_entry)
  : result fault (option (user_entry * list user_entry)) :=
  match es with
  | [] => Ok None
  | e :: es' =>
      match ue_type e with
      | None => Err NullDeref
      | Some t =>
          if same_name t et then Ok (Some (e, es'))
          else let! r := find_entry et es' in
               Ok match r with
                  | Some (x, rest) => Some (x, e :: rest)
                  | None => None
                  end
      end
  end.

(** The entry found moves to the front of the list. *)
Definition find_user_entry (et : list Z) (u : userrec)
  : result fault (option user_entry * userrec) :=
  let! r := find_entry et (u_entries u) in
  Ok match r with
     | Some (e, rest) => (Some e, with_entries (e :: rest) u)
     | None => (None, u)
     end.

(** [get_user] for the types whose [get] is [def_get]. *)
Definition get_user (et : list Z) (u : userrec) : result fault (Z * userrec) :=
  let! (e, u) := find_user_entry et u in
  Ok match e with Some e => (ue_u e, u) | None => (0, u) end.

(** The entry of a user, made when there is none: it is at the front of the list. *)
Definition entry_or_new (et : list Z) (u : userrec) : result fault (user_entry * userrec) :=
  let! (e, u) := find_user_entry et u in
  Ok match e with
     | Some e => (e, u)
     | None => let e := mk_ue (Some et) None 0 in (e, with_entries (e :: u_entries u) u)
     end.

(** [et_set] is the type's [set]: its result and the new word.  An entry left null is
    taken off the list. *)
Definition set_user (et : list Z) (et_set : userrec -> Z -> Z -> Z * Z) (u : userrec) (d : Z)
  : result fault (userrec * Z) :=
  let! (e, u) := entry_or_new et u in
  let '(r, w) := et_set u (ue_u e) d in
  let u := with_entries
             (if w =? 0 then tail (u_entries u)
              else mk_ue (ue_type e) (ue_name e) w :: tail (u_entries u)) u in
  Ok (if truthy r then mark_dirty u else u, r).

(** *** Bot flags *)

Definition USERENTRY_BOTFL : list Z := bs "BOTFL".

Definition botfl_set (u : userrec) (w buf : Z) : Z * Z :=
  let atr := Z.land buf BOT_VALID in
  if negb (u_flags u &? USER_BOT) then (1, w) else (1, atr).

(** The text of the entry in the user file, and back. *)
Definition botfl_pack (w : Z) : list Z := fst (build_flags (mk_fr FR_BOT 0 0 w 0 0) None).
Definition botfl_unpack (extra : list Z) : Z :=
  fr_bot (fst (break_down_flags extra (mk_fr FR_BOT 0 0 0 0 0) None)).

(** ** Flags *)

(** What [shareout] sends to the bots that share the channel (all sharing bots without
    one). *)
Record share_msg := mk_share { sh_chan : option chanset_t; sh_text : list Z }.

Section Flags.
Context (noshare : bool) (cs : chans).

Definition CHANNELLEN : Z := 200.

(** The first record of the channel. *)
Definition find_chanrec (chname : list Z) (crs : list chanuserrec) : option chanuserrec :=
  find (fun cr => same_chan chname (cr_channel cr)) crs.

(** Store [flags] in the first record of the channel. *)
Fixpoint store_chanrec (chname : list Z) (flags udef : Z) (crs : list chanuserrec)
  : list chanuserrec :=
  match crs with
  | [] => []
  | cr :: crs' =>
      if same_chan chname (cr_channel cr)
      then mk_cr (cr_channel cr) (cr_laston cr) flags udef (cr_info cr) :: crs'
      else cr :: store_chanrec chname flags udef crs'
  end.

(** The [FR_GLOBAL] part of [set_user_flagrec]. *)
Definition set_global (u : userrec) (fr : flag_record) : userrec * list share_msg :=
  let u := mk_user (u_handle u) (u64 (fr_global fr)) (u64 (fr_udef_global fr))
             (u_chanrec u) (u_entries u) true in
  if negb noshare && negb (u_flags u &? USER_UNSHARED) then
    (u, [mk_share None (bs "a " ++ u_handle u ++ bs " " ++
                        fst (build_flags (with_match FR_GLOBAL fr) None) ++ [10])])
  else (u, []).

(** The [FR_CHAN] part, for a channel name. *)
Definition set_chan (u : userrec) (fr : flag_record) (chname : list Z)
  : userrec * list share_msg :=
  match findchan_by_dname cs chname with
  | None => (u, [])
  | Some chan =>
      let flags := u64 (fr_chan fr) in
      let udef := u64 (fr_udef_chan fr) in
      let crs := match find_chanrec chname (u_chanrec u) with
                 | Some _ => store_chanrec chname flags udef (u_chanrec u)
                 | None => mk_cr (take (Z.to_nat CHANNELLEN) chname) 0 flags udef None
                           :: u_chanrec u
                 end in
      let u := mark_dirty (with_chanrec crs u) in
      if negb noshare && negb (u_flags u &? USER_UNSHARED) && channel_shared chan then
        (u, [mk_share (Some chan)
               (bs "a " ++ u_handle u ++ bs " " ++
                fst (build_flags (with_match FR_CHAN fr) None) ++ bs " " ++ chname ++ [10])])
      else (u, [])
  end.

(** The [FR_BOT] part. *)
Definition set_bot (u : userrec) (fr : flag_record) : result fault userrec :=
  if (fr_match fr &? FR_BOT) && (u_flags u &? USER_BOT)
  then let! (u, _) := set_user USERENTRY_BOTFL botfl_set u (fr_bot fr) in Ok u
  else Ok u.

(** [set_user_flagrec] on a user; [fr->match] is restored at the end. *)
Definition set_user_flagrec (u : userrec) (fr : flag_record) (chname : option (list Z))
  : result fault (userrec * list share_msg) :=
  let oldflags := fr_match fr in
  let '(u, out) := if oldflags &? FR_GLOBAL then set_global u fr else (u, []) in
  let! u := set_bot u fr in
  let '(u, out') := match chname with
                    | Some c => if oldflags &? FR_CHAN then set_chan u fr c else (u, [])
                    | None => (u, [])
                    end in
  Ok (u, out ++ out').

(** The loop of the [FR_ANYWH] case. *)
Definition chan_anywhere (u : userrec) : Z * Z :=
  fold_left (fun '(f, ud) cr =>
      match findchan_by_dname cs (cr_channel cr) with
      | Some _ => (i32 (u64 f ||| cr_flags cr), i32 (u64 ud ||| cr_flags_udef cr))
      | None => (f, ud)
      end)
    (u_chanrec u) (i32 (u_flags u), i32 (u_flags_udef u)).

(** [get_user_flagrec]; a null user has no flags.  Without [FR_CHAN] the channel fields
    of [fr] are not touched.  Reading the bot flags reorders the entries. *)
Definition get_user_flagrec (u : option userrec) (fr : flag_record) (chname : option (list Z))
  : result fault (flag_record * option userrec) :=
  match u with
  | None => Ok (mk_fr (fr_match fr) 0 0 0 0 0, None)
  | Some u =>
      let m := fr_match fr in
      let '(g, ug) := if m &? FR_GLOBAL then (i32 (u_flags u), i32 (u_flags_udef u)) else (0, 0) in
      let! (b, u) := if m &? FR_BOT then get_user USERENTRY_BOTFL u else Ok (0, u) in
      let '(c, uc) :=
        if m &? FR_CHAN then
          if m &? FR_ANYWH then chan_anywhere u
          else match (chname ← chname; find_chanrec chname (u_chanrec u)) with
               | Some cr => (i32 (cr_flags cr), i32 (cr_flags_udef cr))
               | None => (0, 0)
               end
        else (fr_chan fr, fr_udef_chan fr) in
      Ok (mk_fr m g ug b c uc, Some u)
  end.

(** The icon of a user on the party line: [dcc[idx].user] may be null. *)
Definition geticon (user : option userrec) : result fault Z :=
  match user with
  | None => Ok (ch "-")
  | Some _ =>
      let! (fr, _) := get_user_flagrec user
                         (mk_fr (FR_GLOBAL ||| FR_CHAN ||| FR_ANYWH) 0 0 0 0 0) None in
      Ok (if (fr_global fr &? USER_OWNER) || (fr_chan fr &? USER_OWNER) then ch "*"
          else if (fr_global fr &? USER_MASTER) || (fr_chan fr &? USER_MASTER) then ch "+"
          else if fr_global fr &? USER_BOTMAST then ch "%"
          else if (fr_global fr &? USER_OP) || (fr_chan fr &? USER_OP) then ch "@"
          else if (fr_global fr &? USER_HALFOP) || (fr_chan fr &? USER_HALFOP) then ch "^"
          else ch "-")
  end.

End Flags.

(** ** Lemmas: the entries *)

(** The entry is of type [et]. *)
Definition matches (et : list Z) (e : user_entry) : bool :=
  match ue_type e with Some t => same_name t et | None => false end.

(** The word that the user's entry of type [et] holds: 0 without one. *)
Definition entry_word (et : list Z) (es : list user_entry) : Z :=
  match find (matches et) es with Some e => ue_u e | None => 0 end.

(** Every type is loaded. *)
Definition loaded (es : list user_entry) : Prop := Forall (fun e => ue_type e <> None) es.

(** The type of an entry, up to case. *)
Definition type_key (e : user_entry) : option (list Z) := map tolower <$> ue_type e.

(** Well-formed entries: loaded, and one of each type. *)
Definition wf_entries (es : list user_entry) : Prop := loaded es /\ NoDup (map type_key es).

Lemma matches_key et e : matches et e = true <-> type_key e = Some (map tolower et).
Proof.
  unfold matches, type_key. destruct (ue_type e); simpl; [|done].
  rewrite same_name_eq. split; [by intros ->|by intros [= ->]].
Qed.

Lemma find_entry_loaded et es :
  loaded es ->
  exists r, find_entry et es = Ok r /\
    match r with
    | None => find (matches et) es = None
    | Some (e, rest) => matches et e = true /\ find (matches et) es = Some e /\
        exists l1 l2, es = l1 ++ e :: l2 /\ rest = l1 ++ l2 /\ Forall (fun x => matches et x = false) l1
    end.
Proof.
  induction 1 as [|e es He _ (r & E & IH)]; cbn [find_entry find]; [by exists None|].
  destruct (ue_type e) as [t|] eqn:Et; [|done].
  assert (Hm : matches et e = same_name t et) by (unfold matches; by rewrite Et).
  destruct (same_name t et).
  - exists (Some (e, es)). rewrite Hm. split_and!; [done..|]. exists [], es. by split_and!.
  - rewrite E. cbn [rbind]. eexists. split; [done|].
    destruct r as [[x rest]|]; rewrite Hm; [|done].
    destruct IH as (Hx & Hf & l1 & l2 & -> & -> & Hl). split_and!; [done..|].
    exists (e :: l1), l2. split_and!; [done..|]. by constructor.
Qed.

Lemma find_app {A} (f : A -> bool) l1 l2 :
  find f (l1 ++ l2) = match find f l1 with Some x => Some x | None => find f l2 end.
Proof. induction l1 as [|a l1 IH]; simpl; [done|]. by destruct (f a). Qed.

Lemma find_none_Forall {A} (f : A -> bool) l : find f l = None <-> Forall (fun x => f x = false) l.
Proof.
  induction l as [|a l IH]; simpl; [by split|]. rewrite Forall_cons.
  destruct (f a); [|by rewrite IH; naive_solver]. split; [done|by intros []].
Qed.

(** Moving the entry found to the front changes no lookup. *)
Lemma find_move et et' e l1 l2 :
  matches et e = true -> Forall (fun x => matches et x = false) l1 ->
  find (matches et') (e :: l1 ++ l2) = find (matches et') (l1 ++ e :: l2).
Proof.
  intros He Hl. cbn [find]. rewrite !find_app. cbn [find]. destruct (matches et' e) eqn:E.
  - assert (Hs : map tolower et = map tolower et').
    { apply matches_key in He, E. congruence. }
    replace (find (matches et') l1) with (@None user_entry); [done|].
    symmetry. apply find_none_Forall. eapply Forall_impl; [exact Hl|]. intros x Hx.
    apply not_true_iff_false. intros Hx'%matches_key. apply not_true_iff_false in Hx. apply Hx.
    apply matches_key. congruence.
  - done.
Qed.

Lemma wf_move e l1 l2 : wf_entries (l1 ++ e :: l2) -> wf_entries (e :: l1 ++ l2).
Proof.
  intros [Hl Hn]. split.
  - unfold loaded in *. by rewrite Permutation_middle.
  - by rewrite Permutation_middle.
Qed.

Lemma find_user_entry_ok et u :
  loaded (u_entries u) ->
  exists r u', find_user_entry et u = Ok (r, u') /\
    r = find (matches et) (u_entries u) /\
    u' = with_entries (u_entries u') u /\ u_entries u' ≡ₚ u_entries u /\
    (forall e, r = Some e -> head (u_entries u') = Some e) /\
    (forall et', find (matches et') (u_entries u') = find (matches et') (u_entries u)).
Proof.
  intros Hl. unfold find_user_entry.
  destruct (find_entry_loaded et _ Hl) as ([[e rest]|] & -> & H); cbn [rbind].
  - destruct H as (He & -> & l1 & l2 & E & -> & Hl1). do 2 eexists. split; [done|]. cbn.
    split_and!; [done|done| |by intros ? [= ->]|].
    + by rewrite E, Permutation_middle.
    + intros et'. rewrite E. by apply (find_move et).
  - do 2 eexists. split; [done|]. rewrite H. split_and!; try done. by destruct u.
Qed.

Lemma find_user_entry_wf et u r u' :
  find_user_entry et u = Ok (r, u') -> wf_entries (u_entries u) -> wf_entries (u_entries u').
Proof.
  intros E [Hl Hn]. destruct (find_user_entry_ok et u Hl) as (r' & v & E' & _ & _ & HP & _).
  rewrite E' in E. injection E as <- <-. split; [unfold loaded in *|]; by rewrite HP.
Qed.

(** *** [set_user] *)

Lemma matches_both et et' e :
  matches et e = true -> same_name et et' = false -> matches et' e = false.
Proof.
  intros He%matches_key Hne. apply not_true_iff_false. intros H%matches_key.
  apply not_true_iff_false in Hne. apply Hne, same_name_eq. congruence.
Qed.

Lemma entry_word_cons et e es :
  entry_word et (e :: es) = if matches et e then ue_u e else entry_word et es.
Proof. unfold entry_word. cbn [find]. by destruct (matches et e). Qed.

(** The other entries of a well-formed list are of other types. *)
Lemma wf_rest et e es : wf_entries (e :: es) -> matches et e = true -> find (matches et) es = None.
Proof.
  intros [_ Hn] He%matches_key. cbn in Hn. apply NoDup_cons in Hn as [Hnot _].
  apply find_none_Forall, Forall_forall. intros x Hx. apply not_true_iff_false.
  intros H%matches_key. apply Hnot. rewrite He, <- H. by apply list_elem_of_fmap_2.
Qed.

Lemma wf_cons e es :
  wf_entries es -> ue_type e <> None ->
  (forall et, ue_type e = Some et -> find (matches et) es = None) -> wf_entries (e :: es).
Proof.
  intros [Hl Hn] He Hf. split; [by constructor|]. cbn. apply NoDup_cons. split; [|done].
  destruct (ue_type e) as [et|] eqn:Et; [|done]. specialize (Hf et eq_refl).
  apply find_none_Forall in Hf. intros (x & Hx & Hin)%list_elem_of_fmap_1.
  rewrite Forall_forall in Hf. specialize (Hf x Hin). apply not_true_iff_false in Hf. apply Hf.
  apply matches_key. rewrite <- Hx. unfold type_key. by rewrite Et.
Qed.

Lemma wf_tail e es : wf_entries (e :: es) -> wf_entries es.
Proof. intros [Hl Hn]. apply Forall_cons in Hl as [_ Hl]. by apply NoDup_cons in Hn as [_ Hn]. Qed.

Lemma entry_or_new_ok et u :
  wf_entries (u_entries u) ->
  exists e rest, entry_or_new et u = Ok (e, with_entries (e :: rest) u) /\
    wf_entries (e :: rest) /\ matches et e = true /\ ue_u e = entry_word et (u_entries u) /\
    forall et', same_name et et' = false -> entry_word et' rest = entry_word et' (u_entries u).
Proof.
  intros Hwf. unfold entry_or_new, find_user_entry.
  destruct (find_entry_loaded et _ (proj1 Hwf)) as ([[e rest]|] & -> & H); cbn [rbind].
  - destruct H as (He & Hf & l1 & l2 & E & -> & Hl1). exists e, (l1 ++ l2).
    split_and!; [done|rewrite E in Hwf; by apply wf_move|done|by unfold entry_word; rewrite Hf|].
    intros et' Hne. unfold entry_word. rewrite E, <- (find_move et et' e) by done. cbn [find].
    by rewrite (matches_both et et' e).
  - exists (mk_ue (Some et) None 0), (u_entries u).
    split_and!; [done| | |by unfold entry_word; rewrite H|done].
    + apply wf_cons; [done..|]. by intros ? [= <-].
    + by apply matches_key.
Qed.

Lemma set_user_ok et et_set u d :
  wf_entries (u_entries u) -> (forall es, et_set (with_entries es u) = et_set u) ->
  let '(r, w) := et_set u (entry_word et (u_entries u)) d in
  exists es, set_user et et_set u d =
      Ok (if truthy r then mark_dirty (with_entries es u) else with_entries es u, r) /\
    wf_entries es /\ entry_word et es = w /\
    forall et', same_name et et' = false -> entry_word et' es = entry_word et' (u_entries u).
Proof.
  intros Hwf Hset. unfold set_user.
  destruct (entry_or_new_ok et u Hwf) as (e & rest & -> & Hwf' & He & Hw & Hother).
  cbn [rbind]. rewrite Hset, Hw. destruct (et_set u (entry_word et (u_entries u)) d) as [r w].
  eexists. split; [done|]. change (tail (u_entries (with_entries (e :: rest) u))) with rest.
  destruct (Z.eqb_spec w 0) as [->|Hw0].
  - split_and!; [by eapply wf_tail| |done]. unfold entry_word. by rewrite (wf_rest et e).
  - assert (Hm : forall et', matches et' (mk_ue (ue_type e) (ue_name e) w) = matches et' e) by done.
    split_and!.
    + apply wf_cons; [by eapply wf_tail|by destruct Hwf' as [[? _]%Forall_cons _]|].
      cbn. intros t Ht. apply (wf_rest t e); [done|]. apply matches_key. unfold type_key. by rewrite Ht.
    + by rewrite entry_word_cons, Hm, He.
    + intros et' Hne. rewrite entry_word_cons, Hm, (matches_both et et' e) by done. auto.
Qed.

(** ** Lemmas: the channel records *)

Lemma same_chan_eq a b : cstr a -> cstr b -> same_chan a b = true <-> rfc_fold a = rfc_fold b.
Proof. intros Ha Hb. unfold same_chan. rewrite Z.eqb_eq. by apply casecmp_zero. Qed.

(** The flags of the record of a channel: none without a record. *)
Definition chanrec_flags (chname : list Z) (crs : list chanuserrec) : Z * Z :=
  match find_chanrec chname crs with
  | Some cr => (cr_flags cr, cr_flags_udef cr)
  | None => (0, 0)
  end.

Definition crs_ok (crs : list chanuserrec) : Prop := Forall (fun cr => cstr (cr_channel cr)) crs.

(** What [set_chan] leaves of the records. *)
Definition put_chanrec (chname : list Z) (flags udef : Z) (crs : list chanuserrec)
  : list chanuserrec :=
  match find_chanrec chname crs with
  | Some _ => store_chanrec chname flags udef crs
  | None => mk_cr (take (Z.to_nat CHANNELLEN) chname) 0 flags udef None :: crs
  end.

Lemma store_chanrec_same c f ud crs :
  find_chanrec c crs <> None -> chanrec_flags c (store_chanrec c f ud crs) = (f, ud).
Proof.
  unfold chanrec_flags, find_chanrec. induction crs as [|cr crs IH]; [done|].
  cbn [find store_chanrec]. destruct (same_chan c (cr_channel cr)) eqn:E; cbn [find cr_channel];
    rewrite E; [done|apply IH].
Qed.

Lemma store_chanrec_other c c' f ud crs :
  crs_ok crs -> cstr c -> cstr c' -> same_chan c c' = false ->
  chanrec_flags c' (store_chanrec c f ud crs) = chanrec_flags c' crs.
Proof.
  intros Hok Hc Hc' Hne. unfold chanrec_flags, find_chanrec.
  induction Hok as [|cr crs Hcr _ IH]; [done|]. cbn [store_chanrec].
  destruct (same_chan c (cr_channel cr)) eqn:E; cbn [find cr_channel].
  - replace (same_chan c' (cr_channel cr)) with false; [done|]. symmetry.
    apply not_true_iff_false. rewrite same_chan_eq in * by done. intros E'.
    apply not_true_iff_false in Hne. apply Hne. apply same_chan_eq; congruence.
  - destruct (same_chan c' (cr_channel cr)); [done|apply IH].
Qed.

Lemma put_chanrec_same c f ud crs :
  cstr c -> Z.of_nat (length c) <= CHANNELLEN -> chanrec_flags c (put_chanrec c f ud crs) = (f, ud).
Proof.
  intros Hc Hlen. unfold put_chanrec. destruct (find_chanrec c crs) eqn:E.
  - apply store_chanrec_same. by rewrite E.
  - rewrite take_ge by (unfold CHANNELLEN in *; lia). unfold chanrec_flags, find_chanrec.
    cbn [find cr_channel]. by rewrite (proj2 (same_chan_eq c c Hc Hc)).
Qed.

Lemma put_chanrec_other c c' f ud crs :
  crs_ok crs -> cstr c -> cstr c' -> Z.of_nat (length c) <= CHANNELLEN ->
  same_chan c c' = false -> chanrec_flags c' (put_chanrec c f ud crs) = chanrec_flags c' crs.
Proof.
  intros Hok Hc Hc' Hlen Hne. unfold put_chanrec. destruct (find_chanrec c crs) eqn:E.
  - by apply store_chanrec_other.
  - rewrite take_ge by (unfold CHANNELLEN in *; lia). unfold chanrec_flags, find_chanrec.
    cbn [find cr_channel]. replace (same_chan c' c) with false; [done|]. symmetry.
    apply not_true_iff_false. intros Hs. apply same_chan_eq in Hs; [|done..].
    apply not_true_iff_false in Hne. by apply Hne, same_chan_eq.
Qed.

(** ** Lemmas: setting and getting flags *)

Section SetGet.
Context (noshare : bool) (cs : chans).

(** The records after [set_user_flagrec]. *)
Definition chanrecs_after (fr : flag_record) (chname : option (list Z)) (crs : list chanuserrec)
  : list chanuserrec :=
  match chname with
  | Some c =>
      if fr_match fr &? FR_CHAN then
        match findchan_by_dname cs c with
        | Some _ => put_chanrec c (u64 (fr_chan fr)) (u64 (fr_udef_chan fr)) crs
        | None => crs
        end
      else crs
  | None => crs
  end.

(** The global flags after it. *)
Definition flags_after (fr : flag_record) (u : userrec) : Z :=
  if fr_match fr &? FR_GLOBAL then u64 (fr_global fr) else u_flags u.
Definition udef_after (fr : flag_record) (u : userrec) : Z :=
  if fr_match fr &? FR_GLOBAL then u64 (fr_udef_global fr) else u_flags_udef u.

Lemma set_chan_ok u fr c :
  fst (set_chan noshare cs u fr c) =
  match findchan_by_dname cs c with
  | Some _ => mark_dirty (with_chanrec
                (put_chanrec c (u64 (fr_chan fr)) (u64 (fr_udef_chan fr)) (u_chanrec u)) u)
  | None => u
  end.
Proof. unfold set_chan. destruct (findchan_by_dname cs c); [|done]. by case_if. Qed.

Lemma set_global_ok u fr :
  fst (set_global noshare u fr) =
  mk_user (u_handle u) (u64 (fr_global fr)) (u64 (fr_udef_global fr)) (u_chanrec u) (u_entries u) true.
Proof. unfold set_global. by case_if. Qed.

Lemma set_bot_ok u fr :
  wf_entries (u_entries u) ->
  exists u', set_bot u fr = Ok u' /\ u_handle u' = u_handle u /\ u_flags u' = u_flags u /\
    u_flags_udef u' = u_flags_udef u /\ u_chanrec u' = u_chanrec u /\
    wf_entries (u_entries u') /\
    entry_word USERENTRY_BOTFL (u_entries u') =
      (if (fr_match fr &? FR_BOT) && (u_flags u &? USER_BOT)
       then Z.land (fr_bot fr) BOT_VALID else entry_word USERENTRY_BOTFL (u_entries u)) /\
    forall et, same_name USERENTRY_BOTFL et = false ->
      entry_word et (u_entries u') = entry_word et (u_entries u).
Proof.
  intros Hwf. unfold set_bot.
  destruct ((fr_match fr &? FR_BOT) && (u_flags u &? USER_BOT)) eqn:EB; [|by exists u].
  apply andb_prop in EB as [_ EB].
  pose proof (set_user_ok USERENTRY_BOTFL botfl_set u (fr_bot fr) Hwf ltac:(done)) as H.
  unfold botfl_set at 1 in H. rewrite EB in H. cbn [negb] in H.
  destruct H as (es & -> & Hwf' & Hw & Ho). cbn [rbind]. eexists. split; [done|].
  by destruct (truthy 1).
Qed.

Lemma set_user_flagrec_ok u fr chname :
  wf_entries (u_entries u) ->
  exists u' out, set_user_flagrec noshare cs u fr chname = Ok (u', out) /\
    u_handle u' = u_handle u /\
    u_flags u' = flags_after fr u /\ u_flags_udef u' = udef_after fr u /\
    u_chanrec u' = chanrecs_after fr chname (u_chanrec u) /\
    wf_entries (u_entries u') /\
    entry_word USERENTRY_BOTFL (u_entries u') =
      (if (fr_match fr &? FR_BOT) && (flags_after fr u &? USER_BOT)
       then Z.land (fr_bot fr) BOT_VALID else entry_word USERENTRY_BOTFL (u_entries u)) /\
    forall et, same_name USERENTRY_BOTFL et = false ->
      entry_word et (u_entries u') = entry_word et (u_entries u).
Proof.
  intros Hwf. unfold set_user_flagrec, chanrecs_after.
  set (p := if fr_match fr &? FR_GLOBAL then set_global noshare u fr else (u, [])).
  assert (Hp : u_handle (fst p) = u_handle u /\ u_flags (fst p) = flags_after fr u /\
    u_flags_udef (fst p) = udef_after fr u /\ u_chanrec (fst p) = u_chanrec u /\
    u_entries (fst p) = u_entries u).
  { subst p. unfold flags_after, udef_after. destruct (fr_match fr &? FR_GLOBAL); [|done].
    by rewrite set_global_ok. }
  destruct p as [u1 out1]. cbn [fst] in Hp. destruct Hp as (Hh & Hf & Hud & Hcr & Hes).
  rewrite <- Hes, <- Hcr, <- Hf in *.
  destruct (set_bot_ok u1 fr Hwf) as (u2 & -> & Hh2 & Hf2 & Hud2 & Hcr2 & Hwf2 & Hw2 & Ho2).
  cbn [rbind]. rewrite <- Hcr2.
  destruct chname as [c|]; [|do 2 eexists; split; [done|]; by split_and!; try congruence].
  destruct (fr_match fr &? FR_CHAN); [|do 2 eexists; split; [done|]; by split_and!; try congruence].
  pose proof (set_chan_ok u2 fr c) as Hc. destruct (set_chan noshare cs u2 fr c) as [u3 out3].
  cbn [fst] in Hc. subst u3. do 2 eexists. split; [done|].
  destruct (findchan_by_dname cs c); cbn; split_and!; by try congruence.
Qed.

Lemma get_user_ok et u :
  loaded (u_entries u) ->
  exists u', get_user et u = Ok (entry_word et (u_entries u), u') /\
    u' = with_entries (u_entries u') u /\ u_entries u' ≡ₚ u_entries u.
Proof.
  intros Hl. unfold get_user. destruct (find_user_entry_ok et u Hl) as (r & u' & -> & -> & Hu & HP & _).
  cbn [rbind]. exists u'. split; [|done]. unfold entry_word. by destruct (find _ _).
Qed.

(** What [get_user_flagrec] reads. *)
Lemma get_user_flagrec_ok u fr chname :
  loaded (u_entries u) -> (fr_match fr &? FR_ANYWH) = false ->
  let m := fr_match fr in
  let chan := match chname with Some c => chanrec_flags c (u_chanrec u) | None => (0, 0) end in
  exists u', get_user_flagrec cs (Some u) fr chname =
    Ok (mk_fr m (if m &? FR_GLOBAL then i32 (u_flags u) else 0)
          (if m &? FR_GLOBAL then i32 (u_flags_udef u) else 0)
          (if m &? FR_BOT then entry_word USERENTRY_BOTFL (u_entries u) else 0)
          (if m &? FR_CHAN then i32 (fst chan) else fr_chan fr)
          (if m &? FR_CHAN then i32 (snd chan) else fr_udef_chan fr), Some u') /\
    u_entries u' ≡ₚ u_entries u.
Proof.
  intros Hl Hany. cbv zeta. unfold get_user_flagrec. rewrite Hany.
  assert (Hb : exists u', (if fr_match fr &? FR_BOT then get_user USERENTRY_BOTFL u else Ok (0, u)) =
      Ok (if fr_match fr &? FR_BOT then entry_word USERENTRY_BOTFL (u_entries u) else 0, u') /\
      u_chanrec u' = u_chanrec u /\ u_entries u' ≡ₚ u_entries u).
  { destruct (fr_match fr &? FR_BOT); [|by exists u].
    destruct (get_user_ok USERENTRY_BOTFL u Hl) as (u' & -> & Hu & HP). exists u'.
    split_and!; [done| |done]. by rewrite Hu. }
  destruct Hb as (u' & Hb & Hc & HP). exists u'. split; [|done].
  destruct (fr_match fr &? FR_GLOBAL); rewrite Hb; cbn [rbind]; rewrite Hc;
    (destruct (fr_match fr &? FR_CHAN); [|done]); unfold chanrec_flags;
    (destruct chname as [c|]; [|done]); cbn; by destruct (find_chanrec c (u_chanrec u)).
Qed.

End SetGet.

Lemma i32_u64 x : - 2 ^ 31 <= x < 2 ^ 31 -> i32 (u64 x) = x.
Proof.
  intros H. unfold i32, u64.
  destruct (Z.lt_ge_cases x 0).
  - replace (x mod 2 ^ 64) with (x + 2 ^ 64); [|apply Z.mod_unique with (q := -1); lia].
    rewrite <- (Z.mod_unique (x + 2 ^ 64 + 2 ^ 31) (2 ^ 32) (2 ^ 32) (x + 2 ^ 31)) by lia. lia.
  - rewrite (Z.mod_small x) by lia. rewrite Z.mod_small by lia. lia.
Qed.

Lemma find_entry_null et es :
  find_entry et es = Err NullDeref <->
  exists l1 e l2, es = l1 ++ e :: l2 /\ ue_type e = None /\
    Forall (fun x => ue_type x <> None /\ matches et x = false) l1.
Proof.
  induction es as [|e es IH]; cbn [find_entry]; [split; [done|by intros ([] & ? & ? & ? & _)]|].
  destruct (ue_type e) as [t|] eqn:Et.
  2: { split; [intros _; by exists [], e, es|done]. }
  assert (Hm : matches et e = same_name t et) by (unfold matches; by rewrite Et).
  destruct (same_name t et).
  - split; [done|]. intros ([|x l1] & y & l2 & [= -> ?] & Hy & Hl); [congruence|].
    apply Forall_cons in Hl as [[_ Hx] _]. congruence.
  - assert (E : rbind (find_entry et es) (fun r => Ok
      match r with Some (x, rest) => Some (x, e :: rest) | None => None end) = Err NullDeref <->
      find_entry et es = Err NullDeref) by (destruct (find_entry et es) as [r|[]]; cbn; split; done || congruence).
    rewrite E, IH. split.
    + intros (l1 & y & l2 & -> & Hy & Hl). exists (e :: l1), y, l2. split_and!; [done..|].
      constructor; [by rewrite Et|done].
    + intros ([|x l1] & y & l2 & [= -> ->] & Hy & Hl); [congruence|].
      apply Forall_cons in Hl as [_ Hl]. by exists l1, y, l2.
Qed.

Lemma find_user_entry_null_aux et u :
  find_user_entry et u = Err NullDeref <->
  exists l1 e l2, u_entries u = l1 ++ e :: l2 /\ ue_type e = None /\
    Forall (fun x => ue_type x <> None /\ matches et x = false) l1.
Proof.
  rewrite <- find_entry_null. unfold find_user_entry.
  destruct (find_entry et (u_entries u)) as [[[e es]|]|[]]; cbn; split; done || congruence.
Qed.

Lemma set_get_aux noshare cs u fr chname q :
  wf_entries (u_entries u) -> fr_match q = fr_match fr ->
  (fr_match fr &? FR_ANYWH) = false ->
  Forall (fun x => - 2 ^ 31 <= x < 2 ^ 31)
    [fr_global fr; fr_udef_global fr; fr_chan fr; fr_udef_chan fr] ->
  (forall c, chname = Some c -> cstr c /\ Z.of_nat (length c) <= CHANNELLEN) ->
  (fr_match fr &? FR_CHAN) = true ->
  let m := fr_match fr in
  let old c := chanrec_flags c (u_chanrec u) in
  let chan := match chname with
              | Some c => match findchan_by_dname cs c with
                          | Some _ => (fr_chan fr, fr_udef_chan fr)
                          | None => (i32 (fst (old c)), i32 (snd (old c)))
                          end
              | None => (0, 0)
              end in
  exists u' out u'', set_user_flagrec noshare cs u fr chname = Ok (u', out) /\
    get_user_flagrec cs (Some u') q chname =
    Ok (mk_fr m (if m &? FR_GLOBAL then fr_global fr else 0)
          (if m &? FR_GLOBAL then fr_udef_global fr else 0)
          (if m &? FR_BOT then
             if u_flags u' &? USER_BOT then Z.land (fr_bot fr) BOT_VALID
             else entry_word USERENTRY_BOTFL (u_entries u)
           else 0)
          (fst chan) (snd chan), Some u'').
Proof.
  intros Hwf Hq Hany Hr Hc HC. cbv zeta.
  destruct (set_user_flagrec_ok noshare cs u fr chname Hwf)
    as (u' & out & -> & _ & Hf & Hud & Hcr & [Hl _] & Hw & _).
  rewrite <- Hq in Hany.
  destruct (get_user_flagrec_ok cs u' q chname Hl Hany) as (u'' & E & _).
  exists u', out, u''. split; [done|]. rewrite E. clear E. rewrite Hq, HC, Hf, Hud, Hw, Hcr.
  unfold flags_after, udef_after, chanrecs_after. rewrite HC.
  repeat match goal with H : Forall _ (_ :: _) |- _ => apply Forall_cons in H as [? H] end.
  do 2 f_equal. f_equal.
  - destruct (fr_match fr &? FR_GLOBAL); [by apply i32_u64|done].
  - destruct (fr_match fr &? FR_GLOBAL); [by apply i32_u64|done].
  - by destruct (fr_match fr &? FR_BOT).
  - destruct chname as [c|]; [|done]. destruct (findchan_by_dname cs c); [|done].
    destruct (Hc c eq_refl). rewrite put_chanrec_same by done. by apply i32_u64.
  - destruct chname as [c|]; [|done]. destruct (findchan_by_dname cs c); [|done].
    destruct (Hc c eq_refl). rewrite put_chanrec_same by done. by apply i32_u64.
Qed.

Lemma frame_aux noshare cs u fr c :
  wf_entries (u_entries u) -> crs_ok (u_chanrec u) -> cstr c -> Z.of_nat (length c) <= CHANNELLEN ->
  exists u' out, set_user_flagrec noshare cs u fr (Some c) = Ok (u', out) /\
    u_handle u' = u_handle u /\ wf_entries (u_entries u') /\
    (forall et, same_name USERENTRY_BOTFL et = false ->
       entry_word et (u_entries u') = entry_word et (u_entries u)) /\
    (forall c', cstr c' -> same_chan c c' = false ->
       chanrec_flags c' (u_chanrec u') = chanrec_flags c' (u_chanrec u)) /\
    ((fr_match fr &? FR_GLOBAL) = false -> u_flags u' = u_flags u).
Proof.
  intros Hwf Hok Hc Hlen.
  destruct (set_user_flagrec_ok noshare cs u fr (Some c) Hwf)
    as (u' & out & -> & Hh & Hf & _ & Hcr & Hwf' & _ & Ho).
  exists u', out. split_and!; try done.
  - intros c' Hc' Hne. rewrite Hcr. unfold chanrecs_after.
    repeat case_match; try done. by apply put_chanrec_other.
  - intros HG. rewrite Hf. unfold flags_after. by rewrite HG.
Qed.

(** ** The theorems *)

(** [find_user_entry] finds the first entry of a type, up to the case of its name,
    and moves it to the front: no entry is lost, and no other lookup changes. *)
Theorem find_user_entry_correct et u :
  loaded (u_entries u) ->
  exists r u', find_user_entry et u = Ok (r, u') /\
    r = find (matches et) (u_entries u) /\
    u' = with_entries (u_entries u') u /\ u_entries u' ≡ₚ u_entries u /\
    (forall e, r = Some e -> head (u_entries u') = Some e) /\
    (forall et', find (matches et') (u_entries u') = find (matches et') (u_entries u)).
Proof. apply find_user_entry_ok. Qed.

Definition sample_user : userrec :=
  mk_user (bs "hub") USER_BOT 0 [mk_cr (bs "#Egg[drop]") 7 USER_VOICE 0 None]
    [mk_ue (Some (bs "INFO")) None 5; mk_ue (Some (bs "BOTFL")) None BOT_HUB] false.

Lemma find_user_entry_correct_witness :
  find_user_entry (bs "botfl") sample_user =
    Ok (Some (mk_ue (Some (bs "BOTFL")) None BOT_HUB),
        with_entries [mk_ue (Some (bs "BOTFL")) None BOT_HUB; mk_ue (Some (bs "INFO")) None 5]
          sample_user) /\
  exists r u', find_user_entry (bs "botfl") sample_user = Ok (r, u') /\
    u_entries u' ≡ₚ u_entries sample_user.
Proof.
  split; [reflexivity|].
  destruct (find_user_entry_correct (bs "botfl") sample_user) as (r & u' & H & _ & _ & HP & _).
  - unfold loaded. repeat constructor; discriminate.
  - by exists r, u'.
Defined.

(** An entry whose type is not loaded is read through a null pointer by every lookup
    that gets as far as it, and by no other: the loop tests the name of the type before
    it knows that there is one. *)
Theorem find_user_entry_null et u :
  find_user_entry et u = Err NullDeref <->
  exists l1 e l2, u_entries u = l1 ++ e :: l2 /\ ue_type e = None /\
    Forall (fun x => ue_type x <> None /\ matches et x = false) l1.
Proof. apply find_user_entry_null_aux. Qed.

(** Flags that are set are the flags read back: the global flags, the bot flags of a
    bot (their valid part; those of another user stay), and the flags on a channel the
    bot knows (those on an unknown one stay); setting and reading never fail. *)
Theorem set_get_user_flagrec noshare cs u fr chname q :
  wf_entries (u_entries u) -> fr_match q = fr_match fr ->
  (fr_match fr &? FR_ANYWH) = false ->
  Forall (fun x => - 2 ^ 31 <= x < 2 ^ 31)
    [fr_global fr; fr_udef_global fr; fr_chan fr; fr_udef_chan fr] ->
  (forall c, chname = Some c -> cstr c /\ Z.of_nat (length c) <= CHANNELLEN) ->
  (fr_match fr &? FR_CHAN) = true ->
  let m := fr_match fr in
  let old c := chanrec_flags c (u_chanrec u) in
  let chan := match chname with
              | Some c => match findchan_by_dname cs c with
                          | Some _ => (fr_chan fr, fr_udef_chan fr)
                          | None => (i32 (fst (old c)), i32 (snd (old c)))
                          end
              | None => (0, 0)
              end in
  exists u' out u'', set_user_flagrec noshare cs u fr chname = Ok (u', out) /\
    get_user_flagrec cs (Some u') q chname =
    Ok (mk_fr m (if m &? FR_GLOBAL then fr_global fr else 0)
          (if m &? FR_GLOBAL then fr_udef_global fr else 0)
          (if m &? FR_BOT then
             if u_flags u' &? USER_BOT then Z.land (fr_bot fr) BOT_VALID
             else entry_word USERENTRY_BOTFL (u_entries u)
           else 0)
          (fst chan) (snd chan), Some u'').
Proof. apply set_get_aux. Qed.

Definition sample_chans : chans := mk_chans [mk_chan (bs "#egg{drop}") CHAN_SHARED] None.

Lemma sample_wf : wf_entries (u_entries sample_user).
Proof.
  split; [unfold loaded; repeat constructor; discriminate|].
  apply (bool_decide_unpack _). vm_compute. exact I.
Qed.

Lemma set_get_user_flagrec_witness :
  let fr := mk_fr (FR_GLOBAL ||| FR_BOT ||| FR_CHAN) (USER_BOT ||| USER_OP) 1 BOT_ALT USER_OP 2 in
  exists u' out u'',
    set_user_flagrec false sample_chans sample_user fr (Some (bs "#EGG{DROP}")) = Ok (u', out) /\
    get_user_flagrec sample_chans (Some u') (mk_fr 7 0 0 0 0 0) (Some (bs "#EGG{DROP}")) =
    Ok (mk_fr 7 (USER_BOT ||| USER_OP) 1
          (if u_flags u' &? USER_BOT then BOT_ALT else BOT_HUB) USER_OP 2, Some u'').
Proof.
  refine (set_get_user_flagrec false sample_chans sample_user
    (mk_fr (FR_GLOBAL ||| FR_BOT ||| FR_CHAN) (USER_BOT ||| USER_OP) 1 BOT_ALT USER_OP 2)
    (Some (bs "#EGG{DROP}")) (mk_fr 7 0 0 0 0 0) sample_wf _ _ _ _ _); try reflexivity.
  - repeat constructor; vm_compute; congruence.
  - intros c [= <-]. split; [unfold cstr; repeat constructor|vm_compute; congruence].
Defined.

(** Setting flags touches nothing else: neither the handle nor the other entries nor
    the flags on other channels, and without [FR_GLOBAL] not the global flags. *)
Theorem set_user_flagrec_frame noshare cs u fr c :
  wf_entries (u_entries u) -> crs_ok (u_chanrec u) -> cstr c -> Z.of_nat (length c) <= CHANNELLEN ->
  exists u' out, set_user_flagrec noshare cs u fr (Some c) = Ok (u', out) /\
    u_handle u' = u_handle u /\ wf_entries (u_entries u') /\
    (forall et, same_name USERENTRY_BOTFL et = false ->
       entry_word et (u_entries u') = entry_word et (u_entries u)) /\
    (forall c', cstr c' -> same_chan c c' = false ->
       chanrec_flags c' (u_chanrec u') = chanrec_flags c' (u_chanrec u)) /\
    ((fr_match fr &? FR_GLOBAL) = false -> u_flags u' = u_flags u).
Proof. apply frame_aux. Qed.

Lemma set_user_flagrec_frame_witness :
  exists u' out,
    set_user_flagrec false sample_chans sample_user (mk_fr FR_CHAN 0 0 0 USER_OP 0)
      (Some (bs "#egg{drop}")) = Ok (u', out) /\
    entry_word (bs "INFO") (u_entries u') = 5 /\
    chanrec_flags (bs "#other") (u_chanrec u') = (0, 0).
Proof.
  destruct (set_user_flagrec_frame false sample_chans sample_user (mk_fr FR_CHAN 0 0 0 USER_OP 0)
    (bs "#egg{drop}")) as (u' & out & H & _ & _ & He & Hc & _).
  - apply sample_wf.
  - unfold crs_ok, cstr. repeat constructor.
  - unfold cstr. repeat constructor.
  - vm_compute. congruence.
  - exists u', out. split; [exact H|]. split.
    + rewrite He by reflexivity. reflexivity.
    + rewrite Hc; [reflexivity|unfold cstr; repeat constructor|reflexivity].
Defined.
