(* ===== verification/Strings.v ===== *)
(** * String utilities (src/misc.c)

    Appending and splitting with bounded buffers, host masks of addresses
    ([maskaddr]), long text cut into lines ([dumplots]), and escaping. *)

From S2P Require Import Prelude LibC RegexMatch Wildcard Match.

(** ** Bounded copies *)

(** [op_strlcpy]: at most [size - 1] bytes are kept. *)
Definition op_strlcpy (src : list Z) (size : Z) : list Z := take (Z.to_nat (size - 1)) src.

(** The new string at [dst], and the number of characters appended. *)
Definition egg_strcatn (dst src : list Z) (max : Z) : list Z * Z :=
  let k := Z.min (Z.of_nat (length dst)) max in
  let tmpmax := max - k in
  let n := Z.min (Z.of_nat (length src)) (Z.max 0 (tmpmax - 1)) in
  (take (Z.to_nat k) dst ++ take (Z.to_nat n) src, n).

(** [first] and [rest] as they are left, for two different buffers. *)
Definition splitc (rest : list Z) (divider : Z) : list Z * list Z :=
  match split_at divider rest with
  | (w, Some r) => (w, r)
  | (_, None) => ([], rest)
  end.
Definition splitcn (rest : list Z) (divider max : Z) : list Z * list Z :=
  match split_at divider rest with
  | (w, Some r) => (op_strlcpy w max, r)
  | (_, None) => ([], rest)
  end.

(** The nick and what follows; no nick without an exclamation mark. *)
Definition splitnick (blah : list Z) : list Z * list Z :=
  match split_at (ch "!") blah with
  | (q, Some p) => (q, p)
  | (_, None) => ([], blah)
  end.

(** ** [maskaddr] *)

(** The digits of a host name replaced: each by a question mark ([type < 20]), or each
    run by an asterisk; [num] is the flag of the loop. *)
Fixpoint mask_digits (type : Z) (num : bool) (h : list Z) : list Z :=
  match h with
  | [] => []
  | c :: h' =>
      if negb (isdigit c) then c :: mask_digits type false h'
      else if type <? 20 then ch "?" :: mask_digits type num h'
      else if negb num then ch "*" :: mask_digits type true h'
      else mask_digits type num h'
  end.

(** The number of dots of a string. *)
Definition dots (s : list Z) : nat := length (filter (fun c => c = ch ".") s).

(** [u = strchr(++u, '.')], twice from the start of [h] for [second]: the suffix. *)
Definition dot_suffix (second : bool) (h : list Z) : list Z :=
  match strchr h (ch ".") with
  | None => []
  | Some u => if second then default [] (strchr (tail u) (ch ".")) else u
  end.

(** The last two cases: a host that is neither IPv6 nor to have its digits masked; [num]
    for an IPv4 address. *)
Definition mask_domain (num : bool) (d : Z) (h : list Z) : list Z :=
  match (if 2 <? d then strrchr h (ch ".") else None) with
  | Some p =>
      if num then take p h ++ [ch "."; ch "*"]
      else
        let n := Z.of_nat (dots (tail h)) in
        if n <? 2 then op_strlcpy h UHOSTLEN
        else
          let second := (3 <? n) || ((n =? 3) && (3 <? Z.of_nat (length (drop p h)))) in
          op_strlcpy (ch "*" :: dot_suffix second h) UHOSTLEN
  | None => if bool_decide (h = []) then bs "*" else op_strlcpy h UHOSTLEN
  end.

(** The host part, for [type < 30]; [d] is [type % 5]. *)
Definition mask_host (type d : Z) (h : list Z) : list Z :=
  let num := forallb (fun c => isdigit c || (c =? ch ".")) h in
  match strrchr h (ch ":"), 2 <? d with
  | Some p, true =>
      let p := match strrchr (drop p h) (ch ".") with Some i => (p + i)%nat | None => p end in
      take (S p) h ++ [ch "*"]
  | colon, _ =>
      if bool_decide (colon = None) && negb num && (10 <=? type) then mask_digits type false h
      else mask_domain num d h
  end.

(** Where the parts of [s] are: nick (when there are an exclamation mark and an at sign
    after it), user (when there is an at sign) and host. *)
Definition addr_parts (s : list Z) : option (list Z) * option (list Z) * list Z :=
  let whole :=
    match split_at (ch "@") s with
    | (u, Some h) => (None, Some u, h)
    | (_, None) => (None, None, s)
    end in
  match split_at (ch "!") s with
  | (n, Some r) =>
      match split_at (ch "@") r with
      | (u, Some h) => (Some n, Some u, h)
      | (_, None) => whole
      end
  | (_, None) => whole
  end.

Definition maskaddr (s : list Z) (type : Z) : list Z :=
  let d := Z.rem type 5 in
  let '(n, u, h) := addr_parts s in
  let nick := match n with
              | Some n => if Z.rem type 10 <? 5 then [ch "*"] else n
              | None => [ch "*"]
              end in
  let user :=
    match u with
    | None => [ch "*"]
    | Some u =>
        if (d =? 2) || (d =? 4) then [ch "*"]
        else if truthy d then
          ch "*" :: match u with
                    | c :: u' => if mem c (bs "~+-^=") then u' else u
                    | [] => u
                    end
        else u
    end in
  nick ++ ch "!" :: user ++ ch "@" ::
  (if 30 <=? type then bs "*" else mask_host type d h).

(** ** [dumplots] *)

(** [while (test q && q != p) q--], from offset [q]. *)
Fixpoint back_to_space (p : list Z) (q : nat) : nat :=
  match q with
  | O => O
  | S q' => if bool_decide (nth q p 0 = ch " ") then q else back_to_space p q'
  end.

(** The last part: what is left, cut at its line feeds. *)
Fixpoint split_lines (cur p : list Z) : list (list Z) :=
  match p with
  | [] => match cur with [] => [] | _ => [cur] end
  | c :: p' => if c =? 10 then cur :: split_lines [] p' else split_lines (cur ++ [c]) p'
  end.

(** One turn of the first loop: the line printed and the rest. *)
Definition dump_turn (max : nat) (p : list Z) : list Z * list Z :=
  let '(w, r) := find_delim 10 p in
  match r with
  | _ :: r' =>
      if (length w <? max)%nat then (w, r')
      else
        let q := back_to_space p max in
        let q := if (q =? 0)%nat then max else q in
        (take q p, match drop q p with c :: p' => if c =? ch " " then p' else c :: p' | [] => [] end)
  | [] =>
      let q := back_to_space p max in
      let q := if (q =? 0)%nat then max else q in
      (take q p, match drop q p with c :: p' => if c =? ch " " then p' else c :: p' | [] => [] end)
  end.

(** [None] when the fuel runs out. *)
Fixpoint dump_loop (fuel : nat) (max : nat) (p : list Z) : option (list (list Z)) :=
  if (max <? length p)%nat then
    match fuel with
    | O => None
    | S fuel' => let '(l, p') := dump_turn max p in cons l <$> dump_loop fuel' max p'
    end
  else Some (split_lines [] p).

(** The lines sent after the prefix; [500 - strlen(prefix)] is an [int], and a negative
    one is a huge limit in the comparison with [strlen]. *)
Definition dumplots (prefix data : list Z) : option (list (list Z)) :=
  match data with
  | [] => Some [[]]
  | _ =>
      let max := 500 - Z.of_nat (length prefix) in
      if max <? 0 then Some (split_lines [] data)
      else dump_loop (length data) (Z.to_nat max) data
  end.

(** ** Escaping *)

(** [%02x] of a byte. *)
Definition hex_digit (v : Z) : Z := if v <? 10 then 48 + v else 87 + v.
Definition hex2 (c : Z) : list Z := [hex_digit (c / 16); hex_digit (c mod 16)].

(** The loop of [str_escape]: the buffer size and what is written; the block has one
    byte more than the size. *)
Fixpoint escape_loop (div mask : Z) (s : list Z) (buflen : Z) (b : list Z) : Z * list Z :=
  match s with
  | [] => (buflen, b)
  | c :: s' =>
      let buflen := if buflen - Z.of_nat (length b) <=? 3 then buflen * 2 else buflen in
      let e := if (c =? div) || (c =? mask) then mask :: hex2 c else [c] in
      escape_loop div mask s' buflen (b ++ e)
  end.

Definition str_escape (str : list Z) (div mask : Z) : list Z :=
  snd (escape_loop div mask str (2 * Z.of_nat (length str)) []).

(** The value of a hexadecimal digit. *)
Definition hex_digit_val (c : Z) : option Z :=
  if in_range 48 57 c then Some (c - 48)
  else if in_range 97 102 c then Some (c - 87)
  else if in_range 65 70 c then Some (c - 55)
  else None.

(** [strtol] in base 16 of a string of digits, stopping at the first other byte. *)
Fixpoint hex_run (v : Z) (s : list Z) : Z :=
  match s with
  | c :: s' => match hex_digit_val c with Some x => hex_run (v * 16 + x) s' | None => v end
  | [] => v
  end.

(** [strtol(buf, NULL, 16)] of the two bytes of an escape: spaces and a sign may come
    first, and a prefix [0x] has no digits after it here. *)
Definition strtol16 (buf : list Z) : Z :=
  match skip_space buf with
  | 45 :: r => - hex_run 0 r
  | 43 :: r => hex_run 0 r
  | r => hex_run 0 r
  end.

(** A read past the end of a string. *)
Inductive overrun : Type := OverRead.

(** What is written over [str] (up to a NUL that an escape may have produced), and what
    follows [div]. *)
Fixpoint strchr_unescape (str : list Z) (div esc_char : Z) (p : list Z)
  : result overrun (list Z * option (list Z)) :=
  match str with
  | [] => Ok (p, None)
  | c :: s =>
      if c =? esc_char then
        match s with
        | a :: b :: s' => strchr_unescape s' div esc_char (p ++ [u8 (strtol16 [a; b])])
        | _ => Err OverRead
        end
      else if c =? div then Ok (p, Some s)
      else strchr_unescape s div esc_char (p ++ [c])
  end.

Definition str_unescape (str : list Z) (esc_char : Z) : result overrun (list Z) :=
  let! (p, _) := strchr_unescape str 0 esc_char [] in Ok p.

Example unescape1 :
  strchr_unescape (bs "\3a\5c i am funny \3a):further text\5c):oink") (ch ":") (ch "\") [] =
  Ok (bs ":\ i am funny :)", Some (bs "further text\5c):oink")).
Proof. vm_compute. reflexivity. Qed.
Example maskaddr1 : maskaddr (bs "nick!~user@is.the.lamest.bg") 3 = bs "*!*user@*.the.lamest.bg".
Proof. vm_compute. reflexivity. Qed.
Example maskaddr2 : maskaddr (bs "nick!user@is.the.lamest.com") 3 = bs "*!*user@*.lamest.com".
Proof. vm_compute. reflexivity. Qed.
Example maskaddr3 :
  map (fun s => maskaddr s 3)
    [bs "lamest.example"; bs "whatever@lamest.example"; bs "com.example@user!nick"; bs "!"; bs "@"; bs "";
     bs "abc!user@2001:db8:618:5c0:263:15:dead:babe"; bs "abc!user@0:0:0:0:0:ffff:1.2.3.4"] =
    [bs "*!*@lamest.example"; bs "*!*whatever@lamest.example"; bs "*!*com.example@user!nick";
     bs "*!*@!"; bs "*!*@*"; bs "*!*@*";
     bs "*!*user@2001:db8:618:5c0:263:15:dead:*"; bs "*!*user@0:0:0:0:0:ffff:1.2.3.*"].
Proof. vm_compute. reflexivity. Qed.
Example maskaddr4 : maskaddr (bs "a!b@x12.isp34.net") 10 = bs "*!b@x??.isp??.net".
Proof. vm_compute. reflexivity. Qed.
Example maskaddr5 : maskaddr (bs "a!b@x12.isp34.net") 25 = bs "a!b@x*.isp*.net".
Proof. vm_compute. reflexivity. Qed.

(** *** A mask read letter by letter *)

(** The relation on the letters of a mask: an asterisk stands for a run, a question
    mark for one byte, and every letter also for itself. *)
Inductive letters_match : list Z -> list Z -> Prop :=
| lm_nil : letters_match [] []
| lm_star m w n : letters_match m n -> letters_match (ch "*" :: m) (w ++ n)
| lm_self c m n : letters_match m n -> letters_match (c :: m) (c :: n)
| lm_one c m n : letters_match m n -> letters_match (ch "?" :: m) (c :: n).

Lemma lm_refl s : letters_match s s.
Proof. induction s; by constructor. Qed.

Lemma lm_app m1 n1 m2 n2 :
  letters_match m1 n1 -> letters_match m2 n2 -> letters_match (m1 ++ m2) (n1 ++ n2).
Proof.
  induction 1; intros H2; simpl; [done| | |]; [rewrite <- app_assoc|..]; constructor; auto.
Qed.

Lemma lm_run w : letters_match [ch "*"] w.
Proof. rewrite <- (app_nil_r w). apply lm_star, lm_nil. Qed.

Lemma lm_suffix w n : letters_match (ch "*" :: n) (w ++ n).
Proof. apply lm_star, lm_refl. Qed.

Lemma items_cons c m :
  items false (c :: m) =
  if c =? ch "*" then GStar :: items false (skip_while (Z.eqb (ch "*")) m)
  else (if c =? ch "?" then GOne else GLit c) :: items false m.
Proof.
  unfold items. cbn [length mask_items andb]. destruct (c =? ch "*") eqn:E.
  - apply Z.eqb_eq in E as ->. cbn [skip_while]. rewrite Z.eqb_refl. f_equal.
    apply mask_items_fuel; [apply skip_while_length|done].
  - by destruct (c =? ch "?").
Qed.

Lemma glob_more_star m w n :
  glob (items false m) n -> glob (items false (ch "*" :: m)) (w ++ n).
Proof.
  intros H. rewrite items_cons, Z.eqb_refl. destruct m as [|c m]; [by apply glob_star|].
  cbn [skip_while]. rewrite Z.eqb_sym. destruct (c =? ch "*") eqn:E; [|by apply glob_star].
  rewrite items_cons, E in H. inversion H; subst. rewrite app_assoc. by apply glob_star.
Qed.

Lemma lm_glob m n : letters_match m n -> glob (items false m) n.
Proof.
  induction 1 as [|m w n _ IH|c m n _ IH|c m n _ IH]; [constructor| | |].
  - by apply glob_more_star.
  - destruct (c =? ch "*") eqn:E.
    + apply Z.eqb_eq in E as ->. by apply (glob_more_star m [ch "*"]).
    + rewrite items_cons, E. destruct (c =? ch "?"); by constructor.
  - rewrite items_cons. by constructor.
Qed.

(** *** The parts of a mask *)

Lemma strrchr_split s c i : strrchr s c = Some i -> s = take i s ++ c :: drop (S i) s.
Proof.
  intros H%strrchr_Some. destruct H as [H _]. by rewrite <- (take_drop_middle _ _ _ H) at 1.
Qed.

Lemma lm_take_star k h : letters_match (take k h ++ [ch "*"]) h.
Proof. rewrite <- (take_drop k h) at 2. apply lm_app; [apply lm_refl|apply lm_run]. Qed.

Lemma lm_star_longer m c n : letters_match (ch "*" :: m) n -> letters_match (ch "*" :: m) (c :: n).
Proof.
  inversion 1; subst.
  - by apply (lm_star _ (c :: w)).
  - by apply (lm_star _ [c; ch "*"]).
Qed.

Lemma lm_digits type h :
  letters_match (mask_digits type false h) h /\
  (20 <= type -> letters_match (ch "*" :: mask_digits type true h) h).
Proof.
  induction h as [|c h [IH1 IH2]]; cbn [mask_digits]; [split; [constructor|intros; apply lm_run]|].
  destruct (isdigit c); cbn [negb].
  - destruct (Z.ltb_spec type 20) as [Ht|Ht].
    + split; [by constructor|lia].
    + split; intros; by apply lm_star_longer, IH2.
  - split; [by constructor|]. intros _. by apply (lm_star _ []), lm_self.
Qed.

Lemma strchr_suffix s c u : strchr s c = Some u -> exists w, s = w ++ u.
Proof.
  induction s as [|d s IH]; simpl; [done|]. destruct (d =? c).
  - intros [= <-]. by exists [].
  - intros [w ->]%IH. by exists (d :: w).
Qed.

Lemma dots_suffix second h :
  (2 <= dots (tail h))%nat -> exists w, h = w ++ dot_suffix second h.
Proof.
  intros Hd.
  assert (Hsome : forall s, (0 < dots s)%nat -> exists u, strchr s (ch ".") = Some (ch "." :: u) /\
                    dots s = S (dots u)).
  { intros s. unfold dots. induction s as [|c s IH]; simpl; [lia|].
    rewrite filter_cons. destruct (decide (c = ch ".")) as [->|Hne].
    - intros _. by exists s.
    - rewrite (proj2 (Z.eqb_neq _ _) Hne). apply IH. }
  assert (Hh : (2 <= dots h)%nat).
  { revert Hd. unfold dots. destruct h as [|c h]; simpl; [lia|]. rewrite filter_cons. case_decide; simpl; lia. }
  destruct (Hsome h ltac:(lia)) as (u & Eu & Hu). unfold dot_suffix. rewrite Eu.
  pose proof (strchr_suffix _ _ _ Eu) as [w ->]. destruct second; [|by exists w].
  cbn [tail]. destruct (Hsome u ltac:(lia)) as (v & Ev & _). rewrite Ev. cbn [default].
  pose proof (strchr_suffix _ _ _ Ev) as [w' ->]. exists (w ++ ch "." :: w').
  by rewrite <- app_assoc.
Qed.

Lemma op_strlcpy_fits x : Z.of_nat (length x) < UHOSTLEN -> op_strlcpy x UHOSTLEN = x.
Proof. intros Hx. unfold op_strlcpy. apply take_ge. lia. Qed.

Lemma lm_mask_domain num d h :
  Z.of_nat (length h) < UHOSTLEN - 1 -> letters_match (mask_domain num d h) h.
Proof.
  intros Hlen. unfold mask_domain.
  destruct (if 2 <? d then strrchr h (ch ".") else None) as [p|] eqn:Ep.
  2: { case_bool_decide; [subst; apply lm_run|]. rewrite op_strlcpy_fits by lia. apply lm_refl. }
  destruct (2 <? d); [|done]. destruct num.
  - rewrite (strrchr_split _ _ _ Ep) at 2. apply lm_app; [apply lm_refl|]. constructor. apply lm_run.
  - cbv zeta. case_if; [rewrite op_strlcpy_fits by lia; apply lm_refl|]. apply Z.ltb_ge in E.
    match goal with |- context [dot_suffix ?b h] =>
      destruct (dots_suffix b h ltac:(lia)) as [w Hw]; revert Hw; generalize (dot_suffix b h) end.
    intros sfx Hw. rewrite op_strlcpy_fits; [rewrite Hw; apply lm_suffix|].
    apply (f_equal length) in Hw. rewrite length_app in Hw. simpl length. lia.
Qed.

Lemma lm_mask_host type d h :
  Z.of_nat (length h) < UHOSTLEN - 1 -> letters_match (mask_host type d h) h.
Proof.
  intros Hlen. unfold mask_host. destruct (strrchr h (ch ":")) as [p|] eqn:Ep.
  - destruct (2 <? d); [apply lm_take_star|]. rewrite bool_decide_false by done.
    by apply lm_mask_domain.
  - destruct (bool_decide _ && _ && _); [apply lm_digits|by apply lm_mask_domain].
Qed.

Lemma find_delim_first c w r : ~ In c w -> split_at c (w ++ c :: r) = (w, Some r).
Proof. apply split_at_app. Qed.

Lemma lm_maskaddr nick user host type :
  ~ In (ch "!") nick -> ~ In (ch "@") user -> Z.of_nat (length host) < UHOSTLEN - 1 ->
  let s := nick ++ ch "!" :: user ++ ch "@" :: host in
  letters_match (maskaddr s type) s.
Proof.
  intros Hn Hu Hh. cbv zeta. unfold maskaddr, addr_parts.
  rewrite (find_delim_first (ch "!")), (find_delim_first (ch "@")) by done.
  apply lm_app; [case_if; [apply lm_run|apply lm_refl]|]. constructor.
  apply lm_app.
  - case_if; [apply lm_run|]. destruct (truthy _); [|apply lm_refl].
    destruct user as [|c u]; [apply lm_run|]. destruct (mem c _); [apply (lm_suffix [c])|].
    apply (lm_suffix []).
  - constructor. case_if; [apply lm_run|by apply lm_mask_host].
Qed.

Lemma length_mask_digits type num h : (length (mask_digits type num h) <= length h)%nat.
Proof.
  revert num. induction h as [|c h IH]; intros num; cbn [mask_digits]; [done|].
  pose proof (IH false). pose proof (IH true). pose proof (IH num).
  repeat case_if; cbn [length]; lia.
Qed.

Lemma strrchr_lt h c p : strrchr h c = Some p -> (p < length h)%nat.
Proof.
  intros Ep%strrchr_split. apply (f_equal length) in Ep. rewrite length_app in Ep.
  simpl in Ep. rewrite length_take in Ep. lia.
Qed.

Lemma length_strlcpy x : Z.of_nat (length (op_strlcpy x UHOSTLEN)) <= UHOSTLEN - 1.
Proof. unfold op_strlcpy. rewrite length_take. unfold UHOSTLEN. lia. Qed.

Lemma length_mask_domain num d h :
  Z.of_nat (length h) < UHOSTLEN - 1 -> Z.of_nat (length (mask_domain num d h)) < UHOSTLEN.
Proof.
  intros Hh. unfold mask_domain.
  destruct (if 2 <? d then strrchr h (ch ".") else None) as [p|] eqn:Ep.
  - destruct (2 <? d); [|done]. apply strrchr_lt in Ep. destruct num.
    + rewrite length_app, length_take. cbn [length]. lia.
    + cbv zeta. case_if; match goal with |- context [op_strlcpy ?x _] =>
        pose proof (length_strlcpy x) end; lia.
  - case_bool_decide; [done|]. pose proof (length_strlcpy h). lia.
Qed.

Lemma length_mask_host type d h :
  Z.of_nat (length h) < UHOSTLEN - 1 -> Z.of_nat (length (mask_host type d h)) < UHOSTLEN.
Proof.
  intros Hh. unfold mask_host. pose proof (length_mask_digits type false h).
  destruct (strrchr h (ch ":")) as [p|] eqn:Ep.
  - destruct (2 <? d); [rewrite length_app, length_take; cbn [length]; lia|].
    rewrite bool_decide_false by done. by apply length_mask_domain.
  - destruct (bool_decide _ && _ && _); [lia|by apply length_mask_domain].
Qed.

Lemma length_maskaddr nick user host type :
  ~ In (ch "!") nick -> ~ In (ch "@") user -> Z.of_nat (length host) < UHOSTLEN - 1 ->
  Z.of_nat (length (maskaddr (nick ++ ch "!" :: user ++ ch "@" :: host) type)) <
  Z.of_nat (length nick) + Z.of_nat (length user) + 4 + UHOSTLEN.
Proof.
  intros Hn Hu Hh. unfold maskaddr, addr_parts.
  rewrite (find_delim_first (ch "!")), (find_delim_first (ch "@")) by done.
  rewrite length_app. cbn [length]. rewrite length_app. cbn [length].
  assert (H1 : Z.of_nat (length (if Z.rem type 10 <? 5 then [ch "*"] else nick)) <=
               Z.of_nat (length nick) + 1)
    by (case_if; simpl; lia).
  assert (H2 : Z.of_nat (length (if (Z.rem type 5 =? 2) || (Z.rem type 5 =? 4) then [ch "*"]
    else if truthy (Z.rem type 5) then ch "*" :: match user with
        | [] => user | c :: u' => if mem c (bs "~+-^=") then u' else user end
    else user)) <= Z.of_nat (length user) + 1) by (repeat case_if; destruct user; try case_if; simpl; lia).
  pose proof (length_mask_host type (Z.rem type 5) host Hh).
  assert (H3 : Z.of_nat (length (if 30 <=? type then bs "*" else mask_host type (Z.rem type 5) host)) < UHOSTLEN)
    by (case_if; [done|lia]).
  lia.
Qed.

(** *** Lines *)

Lemma back_to_space_le p q : (back_to_space p q <= q)%nat.
Proof. induction q; cbn [back_to_space]; [lia|]. case_if; lia. Qed.

Lemma find_delim_parts c s w r :
  find_delim c s = (w, r) -> s = w ++ r /\ ~ In c w /\ (r = [] \/ exists r', r = c :: r').
Proof.
  revert w r. induction s as [|d s IH]; intros w r; cbn [find_delim].
  - intros [= <- <-]. simpl. tauto.
  - destruct (Z.eqb_spec d c) as [->|Hne]; [intros [= <- <-]; simpl; split_and!; [done|tauto|eauto]|].
    destruct (find_delim c s) as [w' r'] eqn:E. intros H; injection H as <- <-.
    destruct (IH w' r' eq_refl) as (-> & Hn & Hr). simpl. split_and!; [done|tauto|done].
Qed.

(** The lines [ls] are the text [p] with, after each line, at most one space or line
    feed dropped. *)
Inductive cut_into : list (list Z) -> list Z -> Prop :=
| cut_nil : cut_into [] []
| cut_cons l sep ls p :
    In sep [[]; [ch " "]; [10]] -> cut_into ls p -> cut_into (l :: ls) (l ++ sep ++ p).

Lemma split_lines_cut cur p : ~ In 10 cur ->
  cut_into (split_lines cur p) (cur ++ p) /\
  Forall (fun l => ~ In 10 l /\ (length l <= length cur + length p)%nat) (split_lines cur p).
Proof.
  revert cur. induction p as [|c p IH]; intros cur Hc; cbn [split_lines].
  - rewrite app_nil_r. destruct cur as [|c cur]; [split; constructor|]. split.
    + rewrite <- (app_nil_r (c :: cur)) at 2. apply (cut_cons _ []); [simpl; tauto|constructor].
    + constructor; [|constructor]. split; [done|lia].
  - destruct (Z.eqb_spec c 10) as [->|Hne].
    + destruct (IH [] ltac:(simpl; tauto)) as [H1 H2]. split.
      * by apply (cut_cons _ [10]); [simpl; tauto|].
      * constructor; [split; [done|simpl; lia]|].
        eapply Forall_impl; [exact H2|]. simpl. intros l [??]. split; [done|lia].
    + destruct (IH (cur ++ [c])) as [H1 H2]; [rewrite in_app_iff; simpl; intuition congruence|].
      rewrite <- app_assoc in H1. split; [exact H1|].
      eapply Forall_impl; [exact H2|]. cbn. intros l. rewrite length_app. cbn. intros [??].
      split; [done|lia].
Qed.

(** One turn of the loop prints a line within the limit and makes progress. *)
Lemma dump_turn_spec max p l p' : (0 < max < length p)%nat -> dump_turn max p = (l, p') ->
  (length l <= max)%nat /\ ~ In 10 l /\ (length p' < length p)%nat /\
  exists sep, In sep [[]; [ch " "]; [10]] /\ p = l ++ sep ++ p'.
Proof.
  intros Hmax. unfold dump_turn. destruct (find_delim 10 p) as [w r] eqn:E.
  apply find_delim_parts in E. destruct E as (-> & Hw & Hr).
  set (q := if (back_to_space (w ++ r) max =? 0)%nat then max else back_to_space (w ++ r) max).
  assert (Hq : (0 < q <= max)%nat).
  { unfold q. pose proof (back_to_space_le (w ++ r) max).
    destruct (Nat.eqb_spec (back_to_space (w ++ r) max) 0); lia. }
  assert (Hcut : (max <= length w)%nat ->
    (take q (w ++ r), match drop q (w ++ r) with
       | c :: p' => if c =? ch " " then p' else c :: p' | [] => [] end) = (l, p') ->
    (length l <= max)%nat /\ ~ In 10 l /\ (length p' < length (w ++ r))%nat /\
    exists sep, In sep [[]; [ch " "]; [10]] /\ w ++ r = l ++ sep ++ p').
  { intros Hle [= <- <-]. rewrite length_take. split_and!.
    - lia.
    - rewrite take_app_le by lia. intros Hin. apply Hw. rewrite <- (take_drop q w).
      apply in_or_app. by left.
    - pose proof (length_drop (w ++ r) q) as Hd. destruct (drop q (w ++ r)); simpl in *; [lia|].
      case_if; simpl; lia.
    - destruct (drop q (w ++ r)) as [|c d] eqn:Ed.
      + exists []. split; [simpl; tauto|]. cbn [app]. by rewrite <- Ed, take_drop.
      + destruct (Z.eqb_spec c (ch " ")) as [->|_].
        * exists [ch " "]. split; [simpl; tauto|]. cbn [app]. by rewrite <- Ed, take_drop.
        * exists []. split; [simpl; tauto|]. cbn [app]. by rewrite <- Ed, take_drop. }
  destruct Hr as [->|[r' ->]].
  - apply Hcut. rewrite app_nil_r in Hmax. lia.
  - destruct (length w <? max)%nat eqn:Elt.
    + apply Nat.ltb_lt in Elt. intros [= <- <-]. rewrite length_app. simpl.
      split_and!; [lia|done|lia|]. exists [10]. simpl. tauto.
    + apply Nat.ltb_ge in Elt. apply Hcut, Elt.
Qed.

Lemma dump_loop_spec max : (0 < max)%nat -> forall fuel p, (length p <= fuel)%nat ->
  exists ls, dump_loop fuel max p = Some ls /\ cut_into ls p /\
             Forall (fun l => (length l <= max)%nat /\ ~ In 10 l) ls.
Proof.
  intros Hmax. induction fuel as [|fuel IH]; intros p Hp; cbn [dump_loop];
    (destruct (max <? length p)%nat eqn:E;
     [apply Nat.ltb_lt in E; try lia|apply Nat.ltb_ge in E; eexists; split; [done|];
      destruct (split_lines_cut [] p ltac:(simpl; tauto)) as [H1 H2]; split; [done|];
      eapply Forall_impl; [exact H2|]; simpl; intros l [??]; split; [lia|done]]).
  destruct (dump_turn max p) as [l p'] eqn:Et.
  apply dump_turn_spec in Et as (Hl & Hn & Hlt & sep & Hs & ->); [|lia].
  destruct (IH p' ltac:(lia)) as (ls & -> & Hc & Hf). exists (l :: ls).
  split_and!; [done|by constructor|by constructor].
Qed.

(** *** Escapes *)

Lemma hex2_value c : 0 < c < 256 -> u8 (strtol16 (hex2 c)) = c.
Proof.
  intros Hc.
  assert (H : forallb (fun n => u8 (strtol16 (hex2 (Z.of_nat n))) =? Z.of_nat n) (seq 0 256) = true)
    by (vm_compute; done).
  rewrite forallb_forall in H. specialize (H (Z.to_nat c)). rewrite Z2Nat.id in H by lia.
  apply Z.eqb_eq, H, in_seq. lia.
Qed.

(** The escape of one byte. *)
Definition escape_byte (div mask c : Z) : list Z :=
  if (c =? div) || (c =? mask) then mask :: hex2 c else [c].

Lemma escape_loop_app div mask s : forall buflen b,
  snd (escape_loop div mask s buflen b) = b ++ flat_map (escape_byte div mask) s.
Proof.
  induction s as [|c s IH]; intros buflen b; cbn [escape_loop flat_map].
  - by rewrite app_nil_r.
  - cbv zeta. rewrite IH. by rewrite <- app_assoc.
Qed.

Lemma str_escape_bytes str div mask :
  str_escape str div mask = flat_map (escape_byte div mask) str.
Proof. apply (escape_loop_app _ _ _ _ []). Qed.

(** The block is large enough for what is written. *)
Lemma escape_loop_fits div mask s : forall buflen b,
  2 <= buflen -> Z.of_nat (length b) <= buflen -> (buflen < 4 -> b = []) ->
  let '(n, out) := escape_loop div mask s buflen b in Z.of_nat (length out) <= n.
Proof.
  induction s as [|c s IH]; intros buflen b H2 Hb H4; cbn [escape_loop]; [done|].
  set (n := if buflen - Z.of_nat (length b) <=? 3 then buflen * 2 else buflen).
  set (e := if (c =? div) || (c =? mask) then mask :: hex2 c else [c]).
  assert (He : Z.of_nat (length e) <= 3) by (unfold e; case_if; simpl; lia).
  assert (Hn : 4 <= n /\ Z.of_nat (length b) + 3 <= n).
  { unfold n. case_if; bool_lia. destruct (Z.ltb_spec buflen 4) as [Hlt|Hge]; [|lia].
    rewrite (H4 Hlt). simpl. lia. }
  apply IH; [lia|rewrite length_app; lia|lia].
Qed.

(** Reading an escaped text up to the delimiter gives the text back. *)
Lemma unescape_escape div mask str : cstr str -> div <> mask -> forall p t,
  strchr_unescape (flat_map (escape_byte div mask) str ++ t) div mask p =
  strchr_unescape t div mask (p ++ str).
Proof.
  intros Hc Hdm. induction Hc as [|c str Hc _ IH]; intros p t; cbn [flat_map].
  - by rewrite app_nil_r.
  - rewrite <- app_assoc. unfold escape_byte at 1.
    replace (p ++ c :: str) with ((p ++ [c]) ++ str) by by rewrite <- app_assoc.
    destruct ((c =? div) || (c =? mask)) eqn:E.
    + cbn [app strchr_unescape hex2]. rewrite Z.eqb_refl. fold (hex2 c).
      rewrite hex2_value by done. apply IH.
    + bool_lia. cbn [app strchr_unescape].
      rewrite (proj2 (Z.eqb_neq _ _)), (proj2 (Z.eqb_neq c div)) by lia. apply IH.
Qed.

(** ** The theorems *)

(** Appending keeps the string within [max - 1] bytes, and the count is what was added. *)
Lemma egg_strcatn_take dst src max : Z.of_nat (length dst) < max ->
  egg_strcatn dst src max =
  (take (Z.to_nat (max - 1)) (dst ++ src),
   Z.min (Z.of_nat (length src)) (max - 1 - Z.of_nat (length dst))).
Proof.
  intros H. unfold egg_strcatn. rewrite Z.min_l, Z.max_r by lia. cbv zeta. f_equal; [|lia].
  rewrite take_app. rewrite !(take_ge dst) by lia. f_equal.
  destruct (Z.leb_spec (Z.of_nat (length src)) (max - Z.of_nat (length dst) - 1)).
  - rewrite Z.min_l by lia. rewrite !take_ge; [done|lia|lia].
  - rewrite Z.min_r by lia. f_equal. lia.
Qed.

(** The first part that [splitcn] keeps has at most [max - 1] bytes: its buffer needs
    [max] bytes, the terminator included. *)
Lemma splitcn_keeps w t divider max : ~ In divider w ->
  splitcn (w ++ divider :: t) divider max = (take (Z.to_nat (max - 1)) w, t).
Proof. intros H. unfold splitcn. by rewrite find_delim_first. Qed.

(** [maskaddr] makes a mask of the address it is given: for every type, the mask of
    nick!user@host matches that address in [_wild_match]. *)
Theorem maskaddr_matches nick user host type :
  cstr (nick ++ ch "!" :: user ++ ch "@" :: host) ->
  ~ In (ch "!") nick -> ~ In (ch "@") user ->
  Z.of_nat (length nick) + Z.of_nat (length user) <= 180 ->
  Z.of_nat (length host) < UHOSTLEN - 1 ->
  _wild_match (maskaddr (nick ++ ch "!" :: user ++ ch "@" :: host) type)
    (nick ++ ch "!" :: user ++ ch "@" :: host) = 1.
Proof.
  intros Hc Hn Hu Hlen Hh.
  pose proof (length_maskaddr nick user host type Hn Hu Hh) as Hm.
  pose proof (lm_glob _ _ (lm_maskaddr nick user host type Hn Hu Hh)) as Hg. cbv zeta in Hg.
  set (s := nick ++ ch "!" :: user ++ ch "@" :: host) in *.
  assert (Hs : Z.of_nat (length s) < 2 ^ 32 - 2).
  { unfold s, UHOSTLEN in *. rewrite length_app. cbn [length]. rewrite length_app. cbn [length]. lia. }
  rewrite wild_match_nonempty.
  - apply ere_match_correct; [done|done|]. exists s, []. split_and!; [by rewrite app_nil_r|done|].
    rewrite kept_short; [done|]. unfold UHOSTLEN in *. lia.
  - unfold maskaddr. destruct (addr_parts s) as [[??]?]. cbv zeta.
    intros E. apply (f_equal length) in E. rewrite length_app in E. cbn [length] in E. lia.
  - unfold s. by destruct nick.
Qed.

Lemma maskaddr_matches_witness :
  _wild_match (maskaddr (bs "nick" ++ ch "!" :: bs "~user" ++ ch "@" :: bs "a1.is.lamest.bg") 3)
    (bs "nick" ++ ch "!" :: bs "~user" ++ ch "@" :: bs "a1.is.lamest.bg") = 1.
Proof.
  apply maskaddr_matches; [repeat constructor|..]; vm_compute; intuition discriminate.
Defined.

(** [dumplots] always ends, and what it prints is the text: its lines have no line
    feed, fit in 500 bytes together with the prefix, and put back together (a dropped
    space or line feed, or nothing, after each) they are the text. *)
Theorem dumplots_lines prefix data :
  Z.of_nat (length prefix) < 500 -> data <> [] ->
  exists ls, dumplots prefix data = Some ls /\ cut_into ls data /\
    Forall (fun l => Z.of_nat (length prefix) + Z.of_nat (length l) <= 500 /\ ~ In 10 l) ls.
Proof.
  intros Hp Hd. unfold dumplots. destruct data as [|c data]; [done|]. cbv zeta.
  rewrite (proj2 (Z.ltb_ge _ _)) by lia.
  destruct (dump_loop_spec (Z.to_nat (500 - Z.of_nat (length prefix))) ltac:(lia) _ (c :: data) (le_n _))
    as (ls & -> & Hc & Hf).
  exists ls. split_and!; [done|done|]. eapply Forall_impl; [exact Hf|]. simpl. intros l [??]. split; [lia|done].
Qed.

Lemma dumplots_lines_witness :
  exists ls, dumplots (bs "NOTICE x :") (bs "hello world") = Some ls /\ cut_into ls (bs "hello world") /\
    Forall (fun l => Z.of_nat (length (bs "NOTICE x :")) + Z.of_nat (length l) <= 500 /\ ~ In 10 l) ls.
Proof. apply dumplots_lines; [vm_compute; done|done]. Defined.

(** With a prefix of exactly 500 bytes the loop makes no progress. *)
Lemma dumplots_stuck fuel c p : c <> ch " " -> ~ In 10 (c :: p) -> dump_loop fuel 0 (c :: p) = None.
Proof.
  intros Hc Hn. assert (E : dump_turn 0 (c :: p) = ([], c :: p)).
  { unfold dump_turn. destruct (find_delim 10 (c :: p)) as [w r] eqn:E.
    apply find_delim_parts in E. destruct E as (E & Hw & [->|[r' ->]]).
    - simpl. by rewrite (proj2 (Z.eqb_neq _ _) Hc).
    - destruct Hn. rewrite E. apply in_or_app. right. by left. }
  induction fuel as [|fuel IH]; cbn [dump_loop length Nat.ltb Nat.leb]; [done|]. by rewrite E, IH.
Qed.

(** Escaping and unescaping: the text that [str_escape] makes of any string is read
    back by [strchr_unescape], up to the first delimiter after it; and the block
    [str_escape] allocates is large enough. *)
Theorem escape_roundtrip str div mask t :
  cstr str -> div <> mask ->
  strchr_unescape (str_escape str div mask ++ div :: t) div mask [] = Ok (str, Some t) /\
  strchr_unescape (str_escape str div mask) div mask [] = Ok (str, None) /\
  (let '(buflen, out) := escape_loop div mask str (2 * Z.of_nat (length str)) [] in
   str_escape str div mask = out /\ Z.of_nat (length out) <= buflen).
Proof.
  intros Hc Hdm. rewrite str_escape_bytes. split_and!.
  - rewrite unescape_escape by done. cbn [strchr_unescape app].
    by rewrite (proj2 (Z.eqb_neq _ _) Hdm), Z.eqb_refl.
  - rewrite <- (app_nil_r (flat_map _ _)). by rewrite unescape_escape.
  - destruct (escape_loop div mask str _ []) as [n out] eqn:E.
    pose proof (escape_loop_app div mask str (2 * Z.of_nat (length str)) []) as H.
    rewrite E in H. cbn in H. split; [by rewrite H|].
    destruct str as [|c str]; [by injection E as <- <-|].
    pose proof (escape_loop_fits div mask (c :: str) (2 * Z.of_nat (length (c :: str))) []) as Hf.
    rewrite E in Hf. apply Hf; simpl; lia || done.
Qed.

Lemma escape_roundtrip_witness :
  strchr_unescape (str_escape (bs "a:b\c") (ch ":") (ch "\") ++ ch ":" :: bs "rest") (ch ":") (ch "\") [] =
    Ok (bs "a:b\c", Some (bs "rest")) /\
  strchr_unescape (str_escape (bs "a:b\c") (ch ":") (ch "\")) (ch ":") (ch "\") [] = Ok (bs "a:b\c", None) /\
  (let '(buflen, out) := escape_loop (ch ":") (ch "\") (bs "a:b\c") (2 * Z.of_nat (length (bs "a:b\c"))) [] in
   str_escape (bs "a:b\c") (ch ":") (ch "\") = out /\ Z.of_nat (length out) <= buflen).
Proof. apply escape_roundtrip; [repeat constructor|done]. Defined.

(** An escape that the end of the string cuts off makes [strchr_unescape] read past it. *)
Lemma dangling_escape str div mask :
  cstr str -> div <> mask ->
  strchr_unescape (str_escape str div mask ++ [mask]) div mask [] = Err OverRead.
Proof.
  intros Hc Hdm. rewrite str_escape_bytes, unescape_escape by done. cbn [strchr_unescape].
  by rewrite Z.eqb_refl.
Qed.
