(* ===== verification/Ratelimit.v ===== *)
(** * The token bucket (libop/include/op_ratelimit.h)

    The limiter that guards the send path of server.mod, the flood checks of irc.mod and
    incoming connections.  Its fields have their width; time is in microseconds. *)

From S2P Require Import Prelude.

Definition OP_RATELIMIT_SCALE : Z := 1000.
Definition UINT64_MAX : Z := 2 ^ 64 - 1.

Record op_ratelimit_t := {
  last_refill : Z;  (* uint64_t *)
  rate_usec : Z;    (* uint64_t *)
  tokens : Z;       (* uint32_t *)
  capacity : Z      (* uint32_t *)
}.

Definition op_ratelimit_init (cap rate_per_sec now_usec : Z) : op_ratelimit_t :=
  let c := u32 (cap * OP_RATELIMIT_SCALE) in
  {| rate_usec := if 0 <? rate_per_sec then 1000000 / rate_per_sec else UINT64_MAX;
     capacity := c; tokens := c; last_refill := now_usec |}.

(** A division by a rate of zero traps. *)
Inductive trap : Type := DivByZero.

(** The refill that both checks start with. *)
Definition refill (rl : op_ratelimit_t) (now_usec : Z) : result trap op_ratelimit_t :=
  let elapsed := if last_refill rl <? now_usec then now_usec - last_refill rl else 0 in
  if (rate_usec rl <? UINT64_MAX) && (0 <? elapsed) then
    if rate_usec rl =? 0 then Err DivByZero
    else
      let new_tokens := u64 (elapsed / rate_usec rl * OP_RATELIMIT_SCALE) in
      let total := u64 (tokens rl + new_tokens) in
      Ok {| last_refill := now_usec; rate_usec := rate_usec rl; capacity := capacity rl;
            tokens := if capacity rl <? total then capacity rl else u32 total |}
  else
    Ok {| last_refill := now_usec; rate_usec := rate_usec rl; capacity := capacity rl;
          tokens := tokens rl |}.

Definition set_tokens (rl : op_ratelimit_t) (t : Z) : op_ratelimit_t :=
  {| last_refill := last_refill rl; rate_usec := rate_usec rl; capacity := capacity rl; tokens := t |}.

Definition op_ratelimit_check (rl : op_ratelimit_t) (now_usec : Z)
  : result trap (bool * op_ratelimit_t) :=
  let! rl := refill rl now_usec in
  if tokens rl <? OP_RATELIMIT_SCALE then Ok (false, rl)
  else Ok (true, set_tokens rl (tokens rl - OP_RATELIMIT_SCALE)).

Definition op_ratelimit_check_n (rl : op_ratelimit_t) (now_usec n : Z)
  : result trap (bool * op_ratelimit_t) :=
  let! rl := refill rl now_usec in
  let cost := u32 (n * OP_RATELIMIT_SCALE) in
  if tokens rl <? cost then Ok (false, rl) else Ok (true, set_tokens rl (tokens rl - cost)).

Definition op_ratelimit_tokens (rl : op_ratelimit_t) : Z := tokens rl / OP_RATELIMIT_SCALE.

Definition op_ratelimit_reset (rl : op_ratelimit_t) (now_usec : Z) : op_ratelimit_t :=
  {| last_refill := now_usec; rate_usec := rate_usec rl; capacity := capacity rl; tokens := capacity rl |}.

Definition op_ratelimit_drain (rl : op_ratelimit_t) : op_ratelimit_t := set_tokens rl 0.

(** A run of checks at the given times, and how many of them were allowed. *)
Fixpoint checks (rl : op_ratelimit_t) (ts : list Z) : result trap (list bool * op_ratelimit_t) :=
  match ts with
  | [] => Ok ([], rl)
  | t :: ts' =>
      let! (b, rl1) := op_ratelimit_check rl t in
      let! (bs, rl2) := checks rl1 ts' in
      Ok (b :: bs, rl2)
  end.

Definition allowed (bs : list bool) : nat := length (filter Is_true bs).

(** ** The invariant *)

(** The bucket holds at most its capacity, and the rate is not zero. *)
Definition bucket_ok (rl : op_ratelimit_t) : Prop :=
  0 < rate_usec rl < 2 ^ 64 /\ 0 <= tokens rl <= capacity rl /\ capacity rl < 2 ^ 32 /\
  0 <= last_refill rl.

(** What a refill adds, in whole tokens: the fraction of a period is dropped. *)
Definition periods (rl : op_ratelimit_t) (now_usec : Z) : Z :=
  if rate_usec rl <? UINT64_MAX then Z.max 0 (now_usec - last_refill rl) / rate_usec rl else 0.

Lemma refill_spec rl t : bucket_ok rl -> 0 <= t < 2 ^ 54 ->
  refill rl t =
  Ok {| last_refill := t; rate_usec := rate_usec rl; capacity := capacity rl;
        tokens := Z.min (capacity rl) (tokens rl + periods rl t * OP_RATELIMIT_SCALE) |}.
Proof.
  intros (Hr & Ht & Hc & Hl) Hn. unfold refill, periods. cbv zeta.
  assert (Hmax : (if last_refill rl <? t then t - last_refill rl else 0) = Z.max 0 (t - last_refill rl))
    by (case_if; bool_lia).
  rewrite Hmax. set (el := Z.max 0 (t - last_refill rl)) in *.
  destruct (Z.ltb_spec (rate_usec rl) UINT64_MAX) as [H1|H1]; cbn [andb].
  2: { do 2 f_equal. lia. }
  destruct (Z.ltb_spec 0 el) as [H2|H2].
  - rewrite (proj2 (Z.eqb_neq _ _)) by lia.
    assert (Hd : 0 <= el / rate_usec rl <= el).
    { split; [apply Z.div_pos; lia|]. apply Z.div_le_upper_bound; nia. }
    unfold u64, u32, OP_RATELIMIT_SCALE.
    rewrite (Z.mod_small (el / _ * 1000)) by lia.
    rewrite (Z.mod_small (tokens rl + _) (2 ^ 64)) by lia.
    do 2 f_equal. case_if; bool_lia. rewrite Z.mod_small; lia.
  - replace el with 0 by lia. rewrite Z.div_0_l by lia. do 2 f_equal. lia.
Qed.

Lemma periods_nonneg rl t : bucket_ok rl -> 0 <= periods rl t.
Proof. intros (Hr & _). unfold periods. case_if; [apply Z.div_pos; lia|done]. Qed.

(** The check, on the specification's side: refill, then take one token. *)
Definition bucket_take (rl : op_ratelimit_t) (t : Z) : bool * op_ratelimit_t :=
  let full := Z.min (capacity rl) (tokens rl + periods rl t * OP_RATELIMIT_SCALE) in
  let b := OP_RATELIMIT_SCALE <=? full in
  (b, {| last_refill := t; rate_usec := rate_usec rl; capacity := capacity rl;
         tokens := full - (if b then OP_RATELIMIT_SCALE else 0) |}).

Lemma check_take rl t : bucket_ok rl -> 0 <= t < 2 ^ 54 -> op_ratelimit_check rl t = Ok (bucket_take rl t).
Proof.
  intros Hok Ht. unfold op_ratelimit_check, bucket_take. rewrite refill_spec by done. cbn [rbind tokens].
  rewrite (Z.leb_antisym _ OP_RATELIMIT_SCALE). unfold set_tokens. cbn.
  destruct (_ <? _); cbn [negb]; [|done]. do 3 f_equal. lia.
Qed.

Lemma bucket_take_ok rl t : bucket_ok rl -> 0 <= t < 2 ^ 54 -> bucket_ok (snd (bucket_take rl t)).
Proof.
  intros Hok Ht. pose proof (periods_nonneg rl t Hok). destruct Hok as (Hr & Htk & Hc & Hl).
  unfold bucket_take, bucket_ok, OP_RATELIMIT_SCALE in *.
  cbn [snd last_refill rate_usec tokens capacity].
  destruct (Z.leb_spec 1000 (Z.min (capacity rl) (tokens rl + periods rl t * 1000))); split_and!; lia.
Qed.

Lemma check_spec rl t : bucket_ok rl -> 0 <= t < 2 ^ 54 ->
  let full := Z.min (capacity rl) (tokens rl + periods rl t * OP_RATELIMIT_SCALE) in
  let b := OP_RATELIMIT_SCALE <=? full in
  exists rl', op_ratelimit_check rl t = Ok (b, rl') /\ bucket_ok rl' /\
    last_refill rl' = t /\ rate_usec rl' = rate_usec rl /\ capacity rl' = capacity rl /\
    tokens rl' = full - (if b then OP_RATELIMIT_SCALE else 0).
Proof.
  intros Hok Ht. exists (snd (bucket_take rl t)).
  split_and!; [by rewrite check_take|by apply bucket_take_ok|done..].
Qed.

(** ** How many events pass *)

(** Times that do not go back, from [t0]. *)
Fixpoint ascending (t0 : Z) (ts : list Z) : Prop :=
  match ts with [] => True | t :: ts' => t0 <= t < 2 ^ 54 /\ ascending t ts' end.

Lemma allowed_cons b bs : Z.of_nat (allowed (b :: bs)) = (if b then 1 else 0) + Z.of_nat (allowed bs).
Proof. unfold allowed. rewrite filter_cons. destruct b; case_decide; simpl in *; try done; lia. Qed.

Lemma checks_bound ts : forall rl, bucket_ok rl -> ascending (last_refill rl) ts ->
  exists bs rl', checks rl ts = Ok (bs, rl') /\ bucket_ok rl' /\
    rate_usec rl' = rate_usec rl /\ capacity rl' = capacity rl /\
    last_refill rl' = List.last ts (last_refill rl) /\
    Z.of_nat (allowed bs) * OP_RATELIMIT_SCALE + tokens rl' <=
      tokens rl + (List.last ts (last_refill rl) - last_refill rl) / rate_usec rl * OP_RATELIMIT_SCALE.
Proof.
  induction ts as [|t ts IH]; intros rl Hok Hts; cbn [checks ascending] in *.
  - exists [], rl. split_and!; try done. simpl List.last. rewrite Z.sub_diag, Z.div_0_l; [|destruct Hok; lia].
    change (allowed []) with 0%nat. lia.
  - destruct Hts as [Ht Hts]. pose proof Hok as (Hr & _ & _ & Hl).
    destruct (check_spec rl t Hok) as (rl1 & -> & Hok1 & E1 & E2 & E3 & E4); [lia|].
    cbn [rbind]. rewrite <- E1 in Hts.
    destruct (IH rl1 Hok1 Hts) as (bs & rl2 & -> & Hok2 & F1 & F2 & F3 & F4). cbn [rbind].
    eexists _, rl2. split; [done|]. split; [done|]. split; [congruence|]. split; [congruence|].
    assert (Hlast : List.last (t :: ts) (last_refill rl) = List.last ts (last_refill rl1)).
    { rewrite E1. destruct ts as [|t' ts]; [done|]. simpl.
      clear. revert t'. induction ts; simpl; [done|]. intros; apply IHts. }
    rewrite Hlast. split; [done|]. rewrite allowed_cons.
    assert (Hmono : last_refill rl1 <= List.last ts (last_refill rl1)).
    { clear -Hts. revert Hts. generalize (last_refill rl1) as x.
      induction ts as [|y ts IH]; intros x; cbn; [lia|]. intros [Hy Hts]. specialize (IH y Hts).
      destruct ts as [|z ts]; [lia|]. enough (List.last (z :: ts) x = List.last (z :: ts) y) by lia.
      clear. revert z. induction ts; simpl; [done|]. intros; apply IHts. }
    set (T := List.last ts (last_refill rl1)) in *.
    assert (Hp : periods rl t <= (t - last_refill rl) / rate_usec rl).
    { unfold periods. case_if; [rewrite Z.max_r by lia; lia|]. apply Z.div_pos; lia. }
    assert (Hsum : (t - last_refill rl) / rate_usec rl + (T - t) / rate_usec rl <=
                   (T - last_refill rl) / rate_usec rl).
    { apply Z.div_le_lower_bound; [lia|].
      pose proof (Z.mul_div_le (t - last_refill rl) (rate_usec rl) ltac:(lia)).
      pose proof (Z.mul_div_le (T - t) (rate_usec rl) ltac:(lia)). nia. }
    rewrite E1, E2 in F4. unfold OP_RATELIMIT_SCALE in *. rewrite E4 in F4.
    destruct (_ <=? _); lia.
Qed.

(** The token bucket limits the rate: in any run of checks at ascending times, all of
    them answer, and the number of events allowed is at most the tokens held at the start
    plus one for each full period elapsed; so at most capacity plus elapsed over rate. *)
Theorem ratelimit_bound rl ts :
  bucket_ok rl -> ascending (last_refill rl) ts ->
  exists bs rl', checks rl ts = Ok (bs, rl') /\ bucket_ok rl' /\ length bs = length ts /\
    Z.of_nat (allowed bs) <=
      op_ratelimit_tokens rl + (List.last ts (last_refill rl) - last_refill rl) / rate_usec rl.
Proof.
  intros Hok Hts. destruct (checks_bound ts rl Hok Hts) as (bs & rl' & E & Hok' & _ & _ & _ & H).
  exists bs, rl'. split_and!; [done|done| |].
  - clear -E. revert rl bs rl' E. induction ts as [|t ts IH]; intros rl bs rl'; cbn [checks].
    + by intros [= <- <-].
    + intros E. apply rbind_Ok_inv in E as ([b r1] & _ & E). apply rbind_Ok_inv in E as ([bs' r2] & E' & [= <- <-]).
      cbn. f_equal. by eapply IH.
  - unfold op_ratelimit_tokens, OP_RATELIMIT_SCALE in *. destruct Hok' as (_ & Ht' & _ & _).
    set (k := (_ - _) / rate_usec rl) in *.
    assert (Z.of_nat (allowed bs) - k <= tokens rl / 1000); [|lia].
    apply Z.div_le_lower_bound; lia.
Qed.

Lemma ratelimit_bound_witness :
  exists bs rl', checks (op_ratelimit_init 10 5 1000) [2000; 2000; 300000] = Ok (bs, rl') /\ bucket_ok rl' /\
    length bs = length [2000; 2000; 300000] /\
    Z.of_nat (allowed bs) <=
      op_ratelimit_tokens (op_ratelimit_init 10 5 1000) +
      (List.last [2000; 2000; 300000] (last_refill (op_ratelimit_init 10 5 1000)) -
       last_refill (op_ratelimit_init 10 5 1000)) / rate_usec (op_ratelimit_init 10 5 1000).
Proof. apply ratelimit_bound; vm_compute; intuition discriminate. Defined.

(** Times with less than a period between any two neighbours. *)
Fixpoint within (rate t0 : Z) (ts : list Z) : Prop :=
  match ts with [] => True | t :: ts' => t < t0 + rate /\ within rate t ts' end.

(** A bucket that is polled faster than its rate is never refilled: each check drops
    the fraction of the period elapsed so far, so with less than a period between checks
    no more events pass than there were tokens, however long the run. *)
Theorem ratelimit_starves rl ts :
  bucket_ok rl -> ascending (last_refill rl) ts -> within (rate_usec rl) (last_refill rl) ts ->
  exists bs rl', checks rl ts = Ok (bs, rl') /\
    Z.of_nat (allowed bs) <= op_ratelimit_tokens rl.
Proof.
  intros Hok Hts Hw.
  assert (H : exists bs rl', checks rl ts = Ok (bs, rl') /\ 0 <= tokens rl' /\
              Z.of_nat (allowed bs) * 1000 + tokens rl' <= tokens rl).
  { revert rl Hok Hts Hw. induction ts as [|t ts IH]; intros rl Hok Hts Hw; cbn [checks ascending within] in *.
    - exists [], rl. destruct Hok as (_ & ? & _). split_and!; simpl; done || lia.
    - destruct Hts as [Ht Hts], Hw as [Hw Hws]. pose proof Hok as (Hr & _ & _ & Hl).
      destruct (check_spec rl t Hok) as (rl1 & -> & Hok1 & E1 & E2 & E3 & E4); [lia|].
      cbn [rbind]. rewrite <- E1 in Hts, Hws. rewrite <- E2 in Hws.
      destruct (IH rl1 Hok1 Hts Hws) as (bs & rl2 & -> & Hp & Hle). cbn [rbind].
      eexists _, rl2. split; [done|]. split; [done|]. rewrite allowed_cons.
      assert (Hz : periods rl t = 0).
      { unfold periods. case_if; [|done]. apply Z.div_small. lia. }
      rewrite Hz in *. unfold OP_RATELIMIT_SCALE in *. destruct (1000 <=? _); lia. }
  destruct H as (bs & rl' & E & Hp & Hle). exists bs, rl'. split; [done|].
  unfold op_ratelimit_tokens, OP_RATELIMIT_SCALE. apply Z.div_le_lower_bound; lia.
Qed.

Lemma ratelimit_starves_witness :
  exists bs rl', checks (op_ratelimit_init 1 1 0) [900000; 1800000; 2700000; 3600000] = Ok (bs, rl') /\
    Z.of_nat (allowed bs) <= op_ratelimit_tokens (op_ratelimit_init 1 1 0).
Proof. apply ratelimit_starves; vm_compute; intuition discriminate. Defined.
