(* ===== verification/Base64.v ===== *)
(** * Numbers

    The numbers of the network of bots, in a base of 64, and those of the files, in decimal. *)

From S2P Require Import Prelude LibC RegexCount Wildcard Inet Match.
#[local] Open Scope Z_scope.

(** [tobase64array] *)
Definition tobase64array : list Z :=
  bs "ABCDEFGHIJKLMNOPQRSTUVWXYZabcdefghijklmnopqrstuvwxyz0123456789[]".

(** [base64to]: 0 for a byte that is no digit. *)
Definition base64to (c : Z) : Z :=
  if isupper c then c - ch "A"
  else if islower c then c - ch "a" + 26
  else if isdigit c then c - ch "0" + 52
  else if c =? ch "[" then 62
  else if c =? ch "]" then 63
  else 0.

Definition INT_MAX : Z := 2 ^ 31 - 1.

Fixpoint b64_loop (buf : list Z) (i : Z) : Z :=
  match buf with
  | [] => i
  | c :: buf =>
      let j := base64to c in
      if Z.shiftr INT_MAX 6 - j <? i then -1 else b64_loop buf (i32 (Z.shiftl i 6 + j))
  end.
Definition base64_to_int (buf : list Z) : Z := b64_loop buf 0.

(** The buffer has room for eleven digits; a number of 32 bits has at most six. *)
Fixpoint to64 (fuel : nat) (val : Z) (out : list Z) : list Z :=
  match fuel with
  | O => out
  | S fuel => if val =? 0 then out
              else to64 fuel (Z.shiftr val 6) (nth (Z.to_nat (Z.land val 0x3f)) tobase64array 0 :: out)
  end.
Definition int_to_base64 (val : Z) : list Z :=
  let val := u32 val in if val =? 0 then [ch "A"] else to64 11 val [].

(** [int_to_base10], for the numbers that are not the least integer. *)
Fixpoint dec_loop (fuel : nat) (v : Z) (out : list Z) : list Z :=
  match fuel with
  | O => out
  | S fuel => let out := (48 + v mod 10) :: out in if v / 10 =? 0 then out else dec_loop fuel (v / 10) out
  end.
Definition int_to_base10 (v : Z) : list Z :=
  if v <? 0 then ch "-" :: dec_loop 20 (- v) [] else dec_loop 20 v [].

(** ** What is read back *)

Lemma base64to_digit d : 0 <= d < 64 -> base64to (nth (Z.to_nat d) tobase64array 0) = d.
Proof.
  intros Hd.
  assert (H : forallb (fun d => base64to (nth (Z.to_nat d) tobase64array 0) =? d) (seqZ 0 64) = true) by (vm_compute; reflexivity).
  rewrite forallb_forall in H. specialize (H d ltac:(apply list_elem_of_In, elem_of_seqZ; lia)). lia.
Qed.

Lemma digits_of v : Z.shiftr v 6 = v / 64 /\ Z.land v 0x3f = v mod 64.
Proof.
  split; [by rewrite Z.shiftr_div_pow2|]. change 0x3f with (Z.ones 6). by rewrite Z.land_ones.
Qed.

(** The numbers that [base64_to_int] takes for no overflow. *)
Definition fits (v : Z) : bool := v / 64 + v mod 64 <=? 2 ^ 25 - 1.

Lemma fits_small v : 0 <= v < 2 ^ 26 -> fits v = true.
Proof. intros Hv. unfold fits. pose proof (Z.mod_pos_bound v 64). pose proof (Z.div_mod v 64). apply Z.leb_le. lia. Qed.

Lemma b64_loop_digit v out : 0 <= v < 2 ^ 32 ->
  b64_loop (nth (Z.to_nat (v mod 64)) tobase64array 0 :: out) (v / 64) = if fits v then b64_loop out v else -1.
Proof.
  intros Hv. pose proof (Z.mod_pos_bound v 64 ltac:(lia)) as Hm. pose proof (Z.div_mod v 64 ltac:(lia)) as Hd.
  cbn [b64_loop]. rewrite base64to_digit by done. change (Z.shiftr INT_MAX 6) with (2 ^ 25 - 1). unfold fits.
  destruct (Z.ltb_spec (2 ^ 25 - 1 - v mod 64) (v / 64)), (Z.leb_spec (v / 64 + v mod 64) (2 ^ 25 - 1)); try lia.
  rewrite Z.shiftl_mul_pow2 by lia. change (2 ^ 6) with 64. rewrite i32_small by lia. f_equal. lia.
Qed.

Lemma b64_loop_to64 fuel : forall v out, 0 <= v < 2 ^ 32 -> v < 64 ^ Z.of_nat fuel ->
  b64_loop (to64 fuel v out) 0 = if fits v then b64_loop out v else -1.
Proof.
  induction fuel as [|fuel IH]; intros v out Hv Hf.
  { replace v with 0 by (cbn in Hf; lia). done. }
  cbn [to64]. destruct (Z.eqb_spec v 0) as [->|Hnz]; [done|]. destruct (digits_of v) as [-> ->].
  assert (Hdiv : 0 <= v / 64 < 2 ^ 26) by (split; [apply Z.div_pos|apply Z.div_lt_upper_bound]; lia).
  rewrite IH; [|lia|].
  - rewrite (fits_small (v / 64)) by lia. by apply b64_loop_digit.
  - apply Z.div_lt_upper_bound; [lia|]. rewrite Nat2Z.inj_succ, Z.pow_succ_r in Hf; lia.
Qed.

(** A number that was written is read back when no overflow is suspected, and as -1
    otherwise.  Negative numbers and the largest ones come back as -1. *)
Theorem base64_roundtrip v : base64_to_int (int_to_base64 v) = if fits (u32 v) then u32 v else -1.
Proof.
  unfold base64_to_int, int_to_base64. pose proof (Z.mod_pos_bound v (2 ^ 32) ltac:(lia)) as Hv. fold (u32 v) in Hv.
  destruct (Z.eqb_spec (u32 v) 0) as [->|Hnz]; [done|].
  by rewrite b64_loop_to64 by (cbn; lia).
Qed.

(** The limit is below the largest integer. *)
Example base64_limit : base64_to_int (int_to_base64 (2 ^ 31 - 64)) = 2 ^ 31 - 64 /\
  base64_to_int (int_to_base64 (2 ^ 31 - 63)) = -1 /\ fits (2 ^ 31 - 63) = false.
Proof. by vm_compute. Qed.

Lemma base64_read_back v : 0 <= v < 2 ^ 31 - 4096 -> base64_to_int (int_to_base64 v) = v.
Proof.
  intros Hv. unfold base64_to_int, int_to_base64. rewrite u32_small by lia.
  destruct (Z.eqb_spec v 0) as [->|Hnz]; [done|]. rewrite b64_loop_to64 by (cbn; lia). unfold fits.
  rewrite (proj2 (Z.leb_le _ _)); [done|]. pose proof (Z.mod_pos_bound v 64). pose proof (Z.div_mod v 64). lia.
Qed.

(** ** Numbers in the text of the program *)

(** [%li] (and [%d]) and [%lu] of [printf]. *)
Definition li (v : Z) : list Z := int_to_base10 v.
Definition lu (v : Z) : list Z := int_to_base10 (u64 v).

Lemma dec_value_snoc ds d : dec_value (ds ++ [d]) = dec_value ds * 10 + (d - 48).
Proof. unfold dec_value. by rewrite fold_left_app. Qed.

Lemma dec_loop_reads_back fuel : forall v out, 0 <= v < 10 ^ Z.of_nat fuel -> (0 < fuel)%nat ->
  exists ds, dec_loop fuel v out = ds ++ out /\ digits ds /\ ds <> [] /\ dec_value ds = v.
Proof.
  induction fuel as [|fuel IH]; intros v out Hv Hf; [lia|]. cbn [dec_loop].
  pose proof (Z.mod_pos_bound v 10 ltac:(lia)) as Hm. pose proof (Z.div_mod v 10 ltac:(lia)) as Hd.
  assert (Hdig : isdigit (48 + v mod 10) = true) by (unfold isdigit, in_range; rewrite !(proj2 (Z.leb_le _ _)) by lia; done).
  destruct (Z.eqb_spec (v / 10) 0) as [E|E].
  - exists [48 + v mod 10]. split_and!; [done|by constructor|done|]. unfold dec_value. cbn. lia.
  - rewrite Nat2Z.inj_succ, Z.pow_succ_r in Hv by lia.
    assert (Hq : 0 < v / 10 < 10 ^ Z.of_nat fuel) by (pose proof (Z.div_pos v 10); split; [lia|apply Z.div_lt_upper_bound; lia]).
    destruct fuel as [|fuel]; [cbn in Hq; lia|].
    destruct (IH (v / 10) ((48 + v mod 10) :: out)) as (ds & -> & Hds & Hne & Hval); [lia|lia|].
    exists (ds ++ [48 + v mod 10]). rewrite <- app_assoc. split_and!; [done| |by destruct ds|].
    + apply Forall_app. by split; [|constructor].
    + rewrite dec_value_snoc, Hval. lia.
Qed.

Lemma base10_digits v : 0 <= v < 10 ^ 20 ->
  digits (int_to_base10 v) /\ int_to_base10 v <> [] /\ dec_value (int_to_base10 v) = v.
Proof.
  intros Hv. unfold int_to_base10. rewrite (proj2 (Z.ltb_ge _ _)) by lia.
  destruct (dec_loop_reads_back 20 v []) as (ds & -> & H); [done|lia|]. by rewrite app_nil_r.
Qed.

Lemma base10_neg v : - 10 ^ 20 < v < 0 -> exists ds, int_to_base10 v = ch "-" :: ds /\ digits ds /\ ds <> [] /\ dec_value ds = - v.
Proof.
  intros Hv. unfold int_to_base10. rewrite (proj2 (Z.ltb_lt _ _)) by lia.
  destruct (dec_loop_reads_back 20 (- v) []) as (ds & -> & H); [lia|lia|]. exists ds. by rewrite app_nil_r.
Qed.

Lemma egg_atoi_base10 v : - 2 ^ 31 <= v < 2 ^ 31 -> egg_atoi (int_to_base10 v) = v.
Proof.
  intros Hv. unfold egg_atoi. destruct (Z.ltb_spec v 0).
  - destruct (base10_neg v) as (ds & -> & Hds & Hne & Hval); [lia|].
    unfold strtol. cbn [skip_space]. change (isspace (ch "-")) with false. cbn match.
    rewrite span_digits_all by done. destruct ds as [|d ds]; [done|]. cbn [fst]. rewrite Hval.
    rewrite Z.opp_involutive, Z.max_r by (unfold LONG_MIN; lia). by rewrite i32_small.
  - destruct (base10_digits v) as (Hds & Hne & Hval); [lia|]. rewrite strtol_digits_end by done. cbn [fst].
    rewrite Hval, Z.min_r by (unfold LONG_MAX; lia). by rewrite i32_small.
Qed.

(** A text of digits (and a sign) has no other byte. *)
Lemma base10_not_in v c : - 10 ^ 20 < v < 10 ^ 20 -> isdigit c = false -> c <> ch "-" -> ~ In c (int_to_base10 v).
Proof.
  intros Hv Hc Hm. destruct (Z.ltb_spec v 0).
  - destruct (base10_neg v) as (ds & -> & Hds & _); [lia|]. intros [E|Hin]; [congruence|]. by eapply digits_not_in in Hin.
  - destruct (base10_digits v) as (Hds & _); [lia|]. by apply digits_not_in.
Qed.

Lemma base10_nonempty v : - 10 ^ 20 < v < 10 ^ 20 -> int_to_base10 v <> [].
Proof.
  intros Hv. destruct (Z.ltb_spec v 0); [|apply base10_digits; lia].
  destruct (base10_neg v) as (ds & -> & _); [lia|done].
Qed.

Lemma base10_word v : - 10 ^ 20 < v < 10 ^ 20 -> word (int_to_base10 v).
Proof. intros Hv. split; [by apply base10_nonempty|by apply base10_not_in]. Qed.

Lemma u64_bound v : - 10 ^ 20 < u64 v < 10 ^ 20.
Proof. pose proof (Z.mod_pos_bound v (2 ^ 64) ltac:(lia)). unfold u64. lia. Qed.

Lemma lu_small v : 0 <= v < 2 ^ 64 -> lu v = int_to_base10 v.
Proof. intros Hv. unfold lu, u64. by rewrite Z.mod_small. Qed.
