(* ===== verification/MsgQueue.v ===== *)
(** * The message queues of the server module (src/mod/server.mod/server.c)

    The three queues of lines for the IRC server, as the linked lists they are: nodes in
    a store, [head] and [last] pointers and a counter, over an allocator of nodes.
    [queue_server] adds a line, [deq_msg] sends some, with the merging of kicks
    ([deq_kick], [purge_kicks], [parse_q]) and of equal commands ([fast_deq]), and the
    penalties of [calc_penalty].  A use of a freed node is an error, as is [free()] on a
    node of the slab allocator. *)

From S2P Require Import Prelude LibC RegexMatch Wildcard Match Ratelimit.
From stdpp Require Import gmap.
#[local] Open Scope Z_scope.

(** ** Data *)

Definition loc := positive.

Record msgq := { m_next : option loc; m_len : Z; m_msg : list Z }.
Record msgq_head := { q_head : option loc; q_last : option loc; q_tot : Z; q_warned : bool }.

(** The queue that [which] names: [modeq], [mq], [hq]. *)
Inductive qsel : Type := QMode | QServer | QHelp.
#[export] Instance qsel_eq_dec : EqDecision qsel.
Proof. solve_decision. Defined.

Definition DP_SERVER : Z := 0x7FF3.
Definition DP_HELP : Z := 0x7FF4.
Definition DP_MODE : Z := 0x7FF6.
Definition DP_MODE_NEXT : Z := 0x7FF7.
Definition DP_SERVER_NEXT : Z := 0x7FF8.
Definition DP_HELP_NEXT : Z := 0x7FF9.

Definition CLITAGMAX : Z := 4096.
Definition MSGMAX : Z := 511.
Definition SENDLINEMAX : Z := CLITAGMAX + MSGMAX.
Definition MAXPENALTY : Z := 10.

Inductive nettype : Type :=
| NETT_DALNET | NETT_EFNET | NETT_FREENODE | NETT_HYBRID_EFNET | NETT_IRCNET | NETT_LIBERA
| NETT_QUAKENET | NETT_RIZON | NETT_UNDERNET | NETT_TWITCH | NETT_OPHION | NETT_OTHER.
#[export] Instance nettype_eq_dec : EqDecision nettype.
Proof. solve_decision. Defined.

(** The settings, and what is outside this file: [tcl_out] says whether a script stops a
    line from being queued ([check_tcl_out]; the scripts themselves do not queue anything
    here), [on_chan] is [findchan] and [ismember].  [lhs_first] is a choice of the
    compiler: in [last_time += calc_penalty(msg)] the left side may be read before or
    after the call, which changes it. *)
Record conf := {
  maxqmsg : Z; msgrate : Z;
  double_mode : bool; double_server : bool; double_help : bool;
  use_penalties : bool; net_type_int : nettype;
  use_fastdeq : Z; stackablecmds : list Z; stackable2cmds : list Z; stack_limit : Z;
  optimize_kicks : Z; kick_method : Z;
  tcl_out : Z -> list Z -> bool;
  on_chan : list Z -> list Z -> bool;
  lhs_first : bool
}.

(** The variables of the module that are not the queues; [sent] is what was written to
    the server, a line each; [now] and [usec] are the clocks. *)
Record regs := {
  serv : Z; now : Z; usec : Z; last_time : Z; burst : Z;
  outgoing_rl : op_ratelimit_t; lastpingtime : Z; double_warned : bool;
  sent : list (list Z)
}.

Record srv := {
  rg : regs;
  modeq : msgq_head; mq : msgq_head; hq : msgq_head;
  nodes : gmap loc msgq;   (* the nodes allocated now *)
  fresh_loc : loc          (* the next address of the allocator *)
}.

Inductive fault : Type :=
| NullDeref | UseAfterFree
| BadFree      (* free() on a node of the slab allocator *)
| OverRead     (* a read past the end of a string *)
| Trap (t : trap)
| OutOfFuel.

Definition queue (h : qsel) (s : srv) : msgq_head :=
  match h with QMode => modeq s | QServer => mq s | QHelp => hq s end.

Definition set_queue (h : qsel) (q : msgq_head) (s : srv) : srv :=
  {| rg := rg s; nodes := nodes s; fresh_loc := fresh_loc s;
     modeq := if decide (h = QMode) then q else modeq s;
     mq := if decide (h = QServer) then q else mq s;
     hq := if decide (h = QHelp) then q else hq s |}.

Definition set_nodes (m : gmap loc msgq) (s : srv) : srv :=
  {| rg := rg s; nodes := m; fresh_loc := fresh_loc s; modeq := modeq s; mq := mq s; hq := hq s |}.
Definition set_rg (r : regs) (s : srv) : srv :=
  {| rg := r; nodes := nodes s; fresh_loc := fresh_loc s; modeq := modeq s; mq := mq s; hq := hq s |}.

Definition set_last_time (t : Z) (r : regs) : regs :=
  {| serv := serv r; now := now r; usec := usec r; last_time := t; burst := burst r;
     outgoing_rl := outgoing_rl r; lastpingtime := lastpingtime r;
     double_warned := double_warned r; sent := sent r |}.
Definition set_burst (b : Z) (r : regs) : regs :=
  {| serv := serv r; now := now r; usec := usec r; last_time := last_time r; burst := b;
     outgoing_rl := outgoing_rl r; lastpingtime := lastpingtime r;
     double_warned := double_warned r; sent := sent r |}.
Definition set_rl (l : op_ratelimit_t) (r : regs) : regs :=
  {| serv := serv r; now := now r; usec := usec r; last_time := last_time r; burst := burst r;
     outgoing_rl := l; lastpingtime := lastpingtime r;
     double_warned := double_warned r; sent := sent r |}.
Definition set_lastping (t : Z) (r : regs) : regs :=
  {| serv := serv r; now := now r; usec := usec r; last_time := last_time r; burst := burst r;
     outgoing_rl := outgoing_rl r; lastpingtime := t;
     double_warned := double_warned r; sent := sent r |}.
Definition set_double_warned (b : bool) (r : regs) : regs :=
  {| serv := serv r; now := now r; usec := usec r; last_time := last_time r; burst := burst r;
     outgoing_rl := outgoing_rl r; lastpingtime := lastpingtime r;
     double_warned := b; sent := sent r |}.
Definition add_sent (l : list Z) (r : regs) : regs :=
  {| serv := serv r; now := now r; usec := usec r; last_time := last_time r; burst := burst r;
     outgoing_rl := outgoing_rl r; lastpingtime := lastpingtime r;
     double_warned := double_warned r; sent := sent r ++ [l] |}.
(** The clocks move between calls. *)
Definition set_clock (t u : Z) (r : regs) : regs :=
  {| serv := serv r; now := t; usec := u; last_time := last_time r; burst := burst r;
     outgoing_rl := outgoing_rl r; lastpingtime := lastpingtime r;
     double_warned := double_warned r; sent := sent r |}.

(** ** The monad: state and faults *)

Definition M (A : Type) : Type := srv -> result fault (A * srv).
#[export] Instance M_ret : MRet M := fun A a s => Ok (a, s).
#[export] Instance M_bind : MBind M := fun A B f m s => let! (a, s') := m s in f a s'.

Definition fail {A} (e : fault) : M A := fun _ => Err e.
Definition get : M srv := fun s => Ok (s, s).
Definition modify (f : srv -> srv) : M unit := fun s => Ok (tt, f s).
Definition upd (f : regs -> regs) : M unit := modify (fun s => set_rg (f (rg s)) s).
Definition regs_of : M regs := s ← get; mret (rg s).
Definition queue_of (h : qsel) : M msgq_head := s ← get; mret (queue h s).
Definition put_queue (h : qsel) (q : msgq_head) : M unit := modify (set_queue h q).

(** [*p]; an address that is not allocated was freed. *)
Definition load (p : loc) : M msgq :=
  s ← get; match nodes s !! p with Some n => mret n | None => fail UseAfterFree end.
Definition load_opt (p : option loc) : M msgq :=
  match p with Some p => load p | None => fail NullDeref end.
Definition store (p : loc) (n : msgq) : M unit :=
  load p ≫= fun _ => modify (fun s => set_nodes (<[p := n]> (nodes s)) s).

Definition op_bh_alloc : M loc := fun s =>
  Ok (fresh_loc s,
      {| rg := rg s; modeq := modeq s; mq := mq s; hq := hq s;
         nodes := <[fresh_loc s := {| m_next := None; m_len := 0; m_msg := [] |}]> (nodes s);
         fresh_loc := Pos.succ (fresh_loc s) |}).
Definition op_bh_free (p : loc) : M unit :=
  load p ≫= fun _ => modify (fun s => set_nodes (delete p (nodes s)) s).
(** [op_free] is [free]; every node here is from [op_bh_alloc]. *)
Definition op_free_node (p : loc) : M unit := fail BadFree.

Definition set_next (n : msgq) (p : option loc) : msgq :=
  {| m_next := p; m_len := m_len n; m_msg := m_msg n |}.
Definition set_msg (n : msgq) (m : list Z) : msgq :=
  {| m_next := m_next n; m_len := Z.of_nat (length m); m_msg := m |}.
Definition set_head (q : msgq_head) (p : option loc) : msgq_head :=
  {| q_head := p; q_last := q_last q; q_tot := q_tot q; q_warned := q_warned q |}.
Definition set_last (q : msgq_head) (p : option loc) : msgq_head :=
  {| q_head := q_head q; q_last := p; q_tot := q_tot q; q_warned := q_warned q |}.
Definition set_tot (q : msgq_head) (n : Z) : msgq_head :=
  {| q_head := q_head q; q_last := q_last q; q_tot := n; q_warned := q_warned q |}.
Definition set_warned (q : msgq_head) (b : bool) : msgq_head :=
  {| q_head := q_head q; q_last := q_last q; q_tot := q_tot q; q_warned := b |}.

(** [if (!h->head) h->last = 0] *)
Definition fix_last (h : qsel) : M unit :=
  q ← queue_of h;
  match q_head q with None => put_queue h (set_last q None) | Some _ => mret tt end.

Definition write_to_server (l : list Z) : M unit := upd (add_sent l).

(** ** Words and nicks of a line *)

Definition remove_crlf (line : list Z) : list Z :=
  fst (find_delim 10 (fst (find_delim 13 line))).

Definition splitnicks (rest : list Z) : list Z * list Z :=
  let '(w, o) := find_delim (ch ",") (skip_while (Z.eqb (ch " ")) rest) in
  (w, match o with _ :: o' => o' | [] => [] end).

(** [while (strlen(rest) > 0) split(&rest)]: what the calls return. *)
Fixpoint split_all (split : list Z -> list Z * list Z) (fuel : nat) (rest : list Z) : list (list Z) :=
  match fuel, rest with
  | S fuel', _ :: _ => let '(w, rest') := split rest in w :: split_all split fuel' rest'
  | _, _ => []
  end.
Definition nicks_of (rest : list Z) : list (list Z) := split_all splitnicks (length rest) rest.
Definition words_of (rest : list Z) : list (list Z) := split_all newsplit (length rest) rest.

(** ** [calc_penalty] *)

Definition slen (s : list Z) : Z := Z.of_nat (length s).
Definition turns (ls : list (list Z)) : Z := Z.of_nat (length ls).

(** The calls of [splitnicks] up to the first that returns an empty string. *)
Fixpoint victim_turns (fuel : nat) (par2 : list Z) : Z :=
  match fuel with
  | O => 0
  | S fuel' =>
      let '(par3, par2) := splitnicks par2 in
      1 + (if bool_decide (par3 = []) then 0 else victim_turns fuel' par2)
  end.

Definition mode_points (par2 : list Z) : Z :=
  fold_left (fun i c => if mem c (bs "ntimps") then i + 3
                        else if negb (mem c (bs "+-")) then i + 1 else i) par2 0.

(** The commands of the last branches, and their points. *)
Definition command_points : list (list Z * Z) :=
  [(bs "INVITE", 3); (bs "JOIN", 2); (bs "PART", 4); (bs "VERSION", 2); (bs "TIME", 2);
   (bs "TRACE", 2); (bs "NICK", 3); (bs "ISON", 1); (bs "WHOIS", 2); (bs "DNS", 2)].

Definition raw_penalty (cmd msg : list Z) : Z :=
  let penalty := 1 + slen msg / 100 in
  if same_name cmd (bs "KICK") then
    let '(par1, msg) := newsplit msg in
    let '(par2, _) := newsplit msg in
    let penalty := penalty + victim_turns (S (length par2)) par2 in
    penalty + penalty * turns (nicks_of (snd (splitnicks par1)))
  else if same_name cmd (bs "MODE") then
    let '(par1, msg) := newsplit msg in
    let '(par2, msg) := newsplit msg in
    let i := (if bool_decide (par2 = []) then 1 else 0) + mode_points par2 + 2 * turns (words_of msg) in
    penalty + turns (nicks_of par1) * i
  else if same_name cmd (bs "TOPIC") then
    let '(par1, msg) := newsplit msg in
    let '(par2, _) := newsplit msg in
    penalty + 1 + (if bool_decide (par2 = []) then 0
                   else 2 + 2 * turns (nicks_of (snd (splitnicks par1))))
  else if same_name cmd (bs "PRIVMSG") || same_name cmd (bs "NOTICE") then
    penalty + turns (nicks_of (fst (newsplit msg)))
  else if same_name cmd (bs "WHO") then
    fold_left (fun p m => if 4 <? slen m then p + 3 else p + 5) (nicks_of (fst (newsplit msg))) penalty
  else if same_name cmd (bs "AWAY") then penalty + (if 0 <? slen msg then 2 else 1)
  else
    match find (fun e => same_name cmd (fst e)) command_points with
    | Some (_, n) => penalty + n
    | None => penalty + 1
    end.

Definition odd_net (t : nettype) : bool :=
  bool_decide (t = NETT_UNDERNET) || bool_decide (t = NETT_QUAKENET) || bool_decide (t = NETT_HYBRID_EFNET).

(** The value returned and what is added to [last_time] on the way. *)
Definition calc_penalty (cf : conf) (msg : list Z) : Z * Z :=
  if negb (use_penalties cf) && negb (odd_net (net_type_int cf)) then (0, 0)
  else
    let '(cmd, msg) := newsplit msg in
    if odd_net (net_type_int cf) then (0, - 2 + (2 + slen msg / 120))
    else
      let penalty := raw_penalty cmd msg in
      let penalty := if 99 <? penalty then 99 else penalty in
      (if penalty <? 2 then 2 else penalty, - 2).

(** [last_time += calc_penalty(msg)] *)
Definition charge_rg (cf : conf) (msg : list Z) (r : regs) : regs :=
  let '(p, d) := calc_penalty cf msg in
  set_last_time (if lhs_first cf then last_time r + p else last_time r + d + p) r.
Definition charge (cf : conf) (msg : list Z) : M unit := upd (charge_rg cf msg).

(** ** Merging equal commands *)

Section Server.
Context (cf : conf).

(** Whether the command may be stacked; [stack_method] is 2 in the second list. *)
Definition in_list (l cmd : list Z) : bool := existsb (fun w => same_name w cmd) (words_of l).
Definition may_stack (cmd : list Z) : bool :=
  if 1 <? use_fastdeq cf then
    let found := in_list (stackablecmds cf) cmd in
    negb ((use_fastdeq cf =? 2) && negb found) && negb ((use_fastdeq cf =? 3) && found)
  else true.
Definition stack_sep (cmd : list Z) : Z :=
  if (1 <? use_fastdeq cf) && in_list (stackable2cmds cf) cmd then ch " " else ch ",".

(** [while (m) ...]: the recipients collected, and whether there are any. *)
Fixpoint fast_loop (fuel : nat) (h : qsel) (cmd to msg : list Z) (m : loc)
    (victims : list Z) (cmd_count : Z) (doit : bool) : M (list Z * bool) :=
  match fuel with
  | O => fail OutOfFuel
  | S fuel =>
      mn ← load m;
      match m_next mn with
      | None => mret (victims, doit)
      | Some nm =>
          n ← load nm;
          let '(nextcmd, r) := newsplit (m_msg n) in
          let '(nextto, nextmsg) := newsplit r in
          if negb (streq to nextto) && streq cmd nextcmd && streq msg nextmsg &&
             (slen cmd + slen victims + slen nextto + slen msg + 2 <? SENDLINEMAX - 2) &&
             ((stack_limit cf =? 0) || (cmd_count <? stack_limit cf - 1))
          then
            store m (set_next mn (m_next n)) ≫= fun _ =>
            q ← queue_of h;
            (match m_next n with None => put_queue h (set_last q (Some m)) | Some _ => mret tt end) ≫= fun _ =>
            op_free_node nm ≫= fun _ =>
            q ← queue_of h;
            put_queue h (set_tot q (q_tot q - 1)) ≫= fun _ =>
            fast_loop fuel h cmd to msg m (victims ++ stack_sep cmd :: nextto) (cmd_count + 1) true
          else fast_loop fuel h cmd to msg nm victims cmd_count doit
      end
  end.

(** The number of nodes bounds every walk along a queue. *)
Definition walk_fuel : M nat := s ← get; mret (S (size (nodes s))).

Definition fast_deq (h : qsel) : M bool :=
  if use_fastdeq cf =? 0 then mret false
  else
    q ← queue_of h;
    m ← load_opt (q_head q);
    let '(cmd, msg) := newsplit (m_msg m) in
    if negb (may_stack cmd) then mret false
    else
      let '(to, msg) := newsplit msg in
      fuel ← walk_fuel;
      '(victims, doit) ← match q_head q with
                         | Some p => fast_loop fuel h cmd to msg p to 0 false
                         | None => fail NullDeref
                         end;
      if negb doit then mret false
      else
        let tosend := cmd ++ ch " " :: victims ++ ch " " :: msg in
        write_to_server tosend ≫= fun _ =>
        q ← queue_of h;
        hd ← load_opt (q_head q);
        (match q_head q with Some p => op_free_node p | None => fail NullDeref end) ≫= fun _ =>
        put_queue h (set_head q (m_next hd)) ≫= fun _ =>
        fix_last h ≫= fun _ =>
        q ← queue_of h;
        put_queue h (set_tot q (q_tot q - 1)) ≫= fun _ =>
        charge cf tosend ≫= fun _ =>
        mret true.

(** ** Kicks *)

(** [op_strbuf_str(&b) + 1] *)
Definition skip1 (b : list Z) : M (list Z) :=
  match b with [] => fail OverRead | _ :: r => mret r end.

Definition kick_line (chan nicks reason : list Z) : list Z :=
  bs "KICK " ++ chan ++ ch " " :: nicks ++ ch " " :: reason.

(** The node [p] taken out of the queue after [lm]. *)
Definition unlink (h : qsel) (lm : option loc) (p : loc) (n : msgq) : M unit :=
  q ← queue_of h;
  (match lm with
   | None => put_queue h (set_head q (m_next n))
   | Some l => ln ← load l; store l (set_next ln (m_next n))
   end) ≫= fun _ =>
  op_bh_free p ≫= fun _ =>
  q ← queue_of h;
  put_queue h (set_tot q (q_tot q - 1)) ≫= fun _ =>
  fix_last h.

(** The tail of a turn: [lm = m], then the node after [m], or the first one. *)
Definition step_from (h : qsel) (m : option loc) : M (option loc) :=
  match m with
  | Some p => n ← load p; mret (m_next n)
  | None => q ← queue_of h; mret (q_head q)
  end.

(** [parse_q], the names that a new nick gives to the victims. *)
Fixpoint rename_nicks (oldnick newnick chan msg : list Z) (fuel : nat) (nicks newnicks : list Z)
    (changed : bool) : list Z * bool :=
  match fuel, nicks with
  | S fuel', _ :: _ =>
      let '(nick, nicks) := splitnicks nicks in
      if same_name nick oldnick &&
         (9 + slen chan + slen newnicks + slen newnick + slen nicks + slen msg <? SENDLINEMAX - 1)
      then rename_nicks oldnick newnick chan msg fuel' nicks (newnicks ++ ch "," :: newnick ++ nick) true
      else rename_nicks oldnick newnick chan msg fuel' nicks (ch "," :: nick) changed
  | _, _ => (newnicks, changed)
  end.

Definition parse_node (h : qsel) (oldnick newnick : list Z) (lm : option loc) (p : loc) (n : msgq)
  : M (option loc) :=
  if (optimize_kicks cf =? 2) && prefix_nocase (bs "KICK ") (m_msg n) then
    let '(_, msg) := newsplit (m_msg n) in
    let '(chan, msg) := newsplit msg in
    let '(nicks, msg) := newsplit msg in
    let '(newnicks, changed) := rename_nicks oldnick newnick chan msg (length nicks) nicks [] false in
    if negb changed then mret (Some p)
    else match newnicks with
         | [] => unlink h lm p n ≫= fun _ => mret lm
         | _ => r ← skip1 newnicks; store p (set_msg n (kick_line chan r msg)) ≫= fun _ => mret (Some p)
         end
  else mret (Some p).

Fixpoint walk (visit : option loc -> loc -> msgq -> M (option loc)) (h : qsel) (fuel : nat)
    (lm m : option loc) : M unit :=
  match m with
  | None => mret tt
  | Some p =>
      match fuel with
      | O => fail OutOfFuel
      | S fuel =>
          n ← load p;
          m1 ← visit lm p n;
          m2 ← step_from h m1;
          walk visit h fuel m1 m2
      end
  end.

Definition parse_q (h : qsel) (oldnick newnick : list Z) : M unit :=
  fuel ← walk_fuel; q ← queue_of h;
  walk (parse_node h oldnick newnick) h fuel None (q_head q).

Definition check_queues (oldnick newnick : list Z) : M unit :=
  if negb (optimize_kicks cf =? 2) then mret tt
  else
    let go h := q ← queue_of h;
                match q_head q with Some _ => parse_q h oldnick newnick | None => mret tt end in
    go QMode ≫= fun _ => go QServer ≫= fun _ => go QHelp.

(** A victim is kept if it is on some channel of the list. *)
Definition purge_node (h : qsel) (lm : option loc) (p : loc) (n : msgq) : M (option loc) :=
  if prefix_nocase (bs "KICK") (m_msg n) then
    let '(_, reason) := newsplit (m_msg n) in
    let '(chan, reason) := newsplit reason in
    let '(nicks, reason) := newsplit reason in
    let there nick := existsb (fun c => on_chan cf c nick) (words_of chan) in
    let newnicks := flat_map (fun nick => if there nick then ch "," :: nick else []) (nicks_of nicks) in
    if forallb there (nicks_of nicks) then mret (Some p)
    else match newnicks with
         | [] => unlink h lm p n ≫= fun _ => mret lm
         | _ => r ← skip1 newnicks; store p (set_msg n (kick_line chan r reason)) ≫= fun _ => mret (Some p)
         end
  else mret (Some p).

Definition purge_kicks (h : qsel) : M unit :=
  fuel ← walk_fuel; q ← queue_of h; walk (purge_node h) h fuel None (q_head q).

(** The victims of a later kick that fit in this one, and the others. *)
Fixpoint take_victims (chan reason : list Z) (fuel : nat) (nicks newnicks newnicks2 : list Z) (nr : Z)
    (changed : bool) : list Z * list Z * Z * bool :=
  match fuel, nicks with
  | S fuel', _ :: _ =>
      let '(nick, nicks) := splitnicks nicks in
      if (nr <? kick_method cf) && (9 + slen chan + slen newnicks + slen nick + slen reason <? 510)
      then take_victims chan reason fuel' nicks (newnicks ++ ch "," :: nick) newnicks2 (nr + 1) true
      else take_victims chan reason fuel' nicks newnicks (newnicks2 ++ ch "," :: nick) nr changed
  | _, _ => (newnicks, newnicks2, nr, changed)
  end.

(** [unlink] of [deq_kick]: the first node stays, so [h->head] is not touched. *)
Definition unlink_after (h : qsel) (lm : option loc) (p : loc) (n : msgq) : M unit :=
  q ← queue_of h;
  (match lm, q_head q with
   | Some l, _ | None, Some l => ln ← load l; store l (set_next ln (m_next n))
   | None, None => fail NullDeref
   end) ≫= fun _ =>
  op_bh_free p ≫= fun _ =>
  q ← queue_of h;
  put_queue h (set_tot q (q_tot q - 1)) ≫= fun _ =>
  fix_last h.

Fixpoint kick_loop (h : qsel) (chan reason : list Z) (fuel : nat) (lm m : option loc)
    (newnicks : list Z) (nr : Z) : M (list Z) :=
  match m with
  | None => mret newnicks
  | Some p =>
      if negb (nr <? kick_method cf) then mret newnicks
      else
        match fuel with
        | O => fail OutOfFuel
        | S fuel =>
            n ← load p;
            '(m1, newnicks, nr) ←
              (if prefix_nocase (bs "KICK") (m_msg n) then
                 let '(_, reason2) := newsplit (m_msg n) in
                 let '(chan2, reason2) := newsplit reason2 in
                 let '(nicks, reason2) := newsplit reason2 in
                 let '(newnicks, newnicks2, nr, changed) :=
                   if same_name chan chan2 && same_name reason reason2
                   then take_victims chan reason (length nicks) nicks newnicks [] nr false
                   else (newnicks, [], nr, false) in
                 if negb changed then mret (Some p, newnicks, nr)
                 else match newnicks2 with
                      | [] => unlink_after h lm p n ≫= fun _ => mret (lm, newnicks, nr)
                      | _ => r ← skip1 newnicks2;
                             store p (set_msg n (kick_line chan2 r reason)) ≫= fun _ =>
                             mret (Some p, newnicks, nr)
                      end
               else mret (Some p, newnicks, nr));
            m2 ← match m1 with
                 | Some p => n ← load p; mret (m_next n)
                 | None => q ← queue_of h; hd ← load_opt (q_head q); mret (m_next hd)
                 end;
            kick_loop h chan reason fuel m1 m2 newnicks nr
        end
  end.

(** The first node of the queue is freed and the next one becomes the first. *)
Definition drop_head (h : qsel) : M unit :=
  q ← queue_of h;
  hd ← load_opt (q_head q);
  (match q_head q with Some p => op_bh_free p | None => fail NullDeref end) ≫= fun _ =>
  put_queue h (set_head q (m_next hd)).

Definition dec_tot (h : qsel) : M unit := q ← queue_of h; put_queue h (set_tot q (q_tot q - 1)).

Definition deq_kick (h : qsel) : M bool :=
  if optimize_kicks cf =? 0 then mret false
  else
    q ← queue_of h;
    hd ← load_opt (q_head q);
    if negb (prefix_nocase (bs "KICK") (m_msg hd)) then mret false
    else
      (if optimize_kicks cf =? 2 then purge_kicks h else mret tt) ≫= fun _ =>
      q ← queue_of h;
      if (optimize_kicks cf =? 2) && bool_decide (q_head q = None) then mret true
      else
        hd ← load_opt (q_head q);
        if negb (prefix_nocase (bs "KICK") (m_msg hd)) then mret false
        else
          let '(_, reason) := newsplit (m_msg hd) in
          let '(chan, reason) := newsplit reason in
          let '(nicks, reason) := newsplit reason in
          let ws := words_of nicks in
          fuel ← walk_fuel;
          newnicks ← kick_loop h chan reason (fuel + fuel) None (m_next hd)
                       (flat_map (cons (ch ",")) ws) (turns ws);
          r ← skip1 newnicks;
          let newmsg := kick_line chan r reason in
          write_to_server newmsg ≫= fun _ =>
          dec_tot h ≫= fun _ =>
          charge cf newmsg ≫= fun _ =>
          drop_head h ≫= fun _ =>
          fix_last h ≫= fun _ =>
          mret true.

(** ** Sending *)

(** The first message of the queue is sent as it is. *)
Definition send_head (h : qsel) : M unit :=
  q ← queue_of h;
  hd ← load_opt (q_head q);
  write_to_server (m_msg hd) ≫= fun _ =>
  dec_tot h ≫= fun _ =>
  charge cf (m_msg hd) ≫= fun _ =>
  drop_head h.

Definition incr_burst : M unit := upd (fun r => set_burst (burst r + 1) r).

(** The loop on the mode queue: every turn makes [burst] larger, up to 4. *)
Fixpoint mode_loop (fuel : nat) : M unit :=
  match fuel with
  | O => mret tt
  | S fuel =>
      q ← queue_of QMode;
      r ← regs_of;
      if bool_decide (q_head q ≠ None) && (burst r <? 4) && (last_time r - now r <? MAXPENALTY) then
        k ← deq_kick QMode;
        if k : bool then incr_burst ≫= fun _ => mode_loop fuel
        else
          q ← queue_of QMode;
          if bool_decide (q_head q = None) then mret tt
          else
            f ← fast_deq QMode;
            if f : bool then incr_burst ≫= fun _ => mode_loop fuel
            else send_head QMode ≫= fun _ => incr_burst ≫= fun _ => mode_loop fuel
      else mret tt
  end.

(** A message of the normal or the help queue. *)
Definition send_one (h : qsel) : M unit :=
  k ← deq_kick h;
  if k : bool then mret tt
  else
    f ← fast_deq h;
    if f : bool then mret tt
    else send_head h ≫= fun _ => fix_last h.

Definition rate_check : M bool := fun s =>
  match op_ratelimit_check (outgoing_rl (rg s)) (usec (rg s)) with
  | Ok (b, rl) => Ok (b, set_rg (set_rl rl (rg s)) s)
  | Err t => Err (Trap t)
  end.

(** Whether the time for the next line has come. *)
Definition is_due (r : regs) : bool := (msgrate cf <=? now r - last_time r) || (now r <? last_time r - 90).
Definition tick (r : regs) : regs :=
  if is_due r then set_burst (if 0 <? burst r then burst r - 1 else burst r) (set_last_time (now r) r) else r.

Definition deq_msg : M unit :=
  r ← regs_of;
  let ok := is_due r in
  upd tick ≫= fun _ =>
  if serv r <? 0 then mret tt
  else
    pass ← rate_check;
    if negb pass then mret tt
    else
      q ← queue_of QMode;
      match q_head q with
      | Some _ =>
          r ← regs_of;
          mode_loop (Z.to_nat (4 - burst r)) ≫= fun _ => fix_last QMode
      | None =>
          r ← regs_of;
          if 1 <? burst r then mret tt
          else
            q ← queue_of QServer;
            match q_head q with
            | Some _ => incr_burst ≫= fun _ => send_one QServer
            | None =>
                q ← queue_of QHelp;
                if bool_decide (q_head q = None) || negb (burst r =? 0) || negb ok then mret tt
                else send_one QHelp
            end
      end.

(** ** Queuing *)

(** The queue, whether the line goes to its front, and whether it may be there twice. *)
Definition which_queue (which : Z) : option (qsel * bool * bool) :=
  if which =? DP_MODE_NEXT then Some (QMode, true, double_mode cf)
  else if which =? DP_MODE then Some (QMode, false, double_mode cf)
  else if which =? DP_SERVER_NEXT then Some (QServer, true, double_server cf)
  else if which =? DP_SERVER then Some (QServer, false, double_server cf)
  else if which =? DP_HELP_NEXT then Some (QHelp, true, double_help cf)
  else if which =? DP_HELP then Some (QHelp, false, double_help cf)
  else None.

Fixpoint queued (fuel : nat) (tq : option loc) (buf : list Z) : M bool :=
  match tq with
  | None => mret false
  | Some p =>
      match fuel with
      | O => fail OutOfFuel
      | S fuel =>
          n ← load p;
          if same_name (m_msg n) buf then mret true else queued fuel (m_next n) buf
      end
  end.

(** A new node with the text, linked in at the front or at the end. *)
Definition insert_msg (h : qsel) (qnext : bool) (buf : list Z) : M unit :=
  q ← op_bh_alloc;
  hd ← queue_of h;
  n ← load q;
  (if qnext then
     store q (set_next n (q_head hd)) ≫= fun _ =>
     put_queue h (set_last (set_head hd (Some q))
                    (match q_last hd with None => Some q | l => l end))
   else
     store q (set_next n None) ≫= fun _ =>
     match q_last hd with
     | Some l => ln ← load l; store l (set_next ln (Some q)) ≫= fun _ =>
                 put_queue h (set_last hd (Some q))
     | None => put_queue h (set_last (set_head hd (Some q)) (Some q))
     end) ≫= fun _ =>
  n ← load q;
  store q (set_msg n buf) ≫= fun _ =>
  hd ← queue_of h;
  put_queue h (set_warned (set_tot hd (q_tot hd + 1)) false) ≫= fun _ =>
  upd (set_double_warned false).

Definition unqueued (buf : list Z) : bool :=
  prefix_nocase (bs "PING") buf || prefix_nocase (bs "PONG") buf || prefix_nocase (bs "AUTHENTICATE") buf.

Definition queue_server (which : Z) (msg : list Z) : M unit :=
  r ← regs_of;
  if serv r <? 0 then mret tt
  else
    let buf := remove_crlf msg in
    if unqueued buf then
      (if mem (nth 1 buf 0) (bs "Ii") then upd (set_lastping (now r)) else mret tt) ≫= fun _ =>
      write_to_server buf
    else
      match which_queue which with
      | None => mret tt
      | Some (h, qnext, doublemsg) =>
          q ← queue_of h;
          let after := if (which =? DP_MODE) || (which =? DP_MODE_NEXT) then deq_msg else mret tt in
          if q_tot q <? maxqmsg cf then
            fuel ← walk_fuel;
            dup ← (if doublemsg then mret false else queued fuel (q_head q) buf);
            if dup : bool then upd (set_double_warned true)
            else if tcl_out cf which buf then mret tt
            else insert_msg h qnext buf ≫= fun _ => after
          else put_queue h (set_warned q true) ≫= fun _ => after
      end.

(** ** Emptying *)

Fixpoint free_all (fuel : nat) (q : option loc) : M unit :=
  match q with
  | None => mret tt
  | Some p =>
      match fuel with
      | O => fail OutOfFuel
      | S fuel => n ← load p; op_bh_free p ≫= fun _ => free_all fuel (m_next n)
      end
  end.

Definition msgq_clear (h : qsel) : M unit :=
  q ← queue_of h;
  fuel ← walk_fuel;
  free_all fuel (q_head q) ≫= fun _ =>
  put_queue h {| q_head := None; q_last := None; q_tot := 0; q_warned := false |}.

Definition empty_msgq : M unit :=
  msgq_clear QMode ≫= fun _ => msgq_clear QServer ≫= fun _ => msgq_clear QHelp ≫= fun _ =>
  upd (set_burst 0).

End Server.
