(* ===== verification/MsgQueueSpec.v ===== *)
(** * The message queues as lists, and the refinement

    The specification has three lists of lines in the place of the linked lists.  The
    representation relation [rep] ties the nodes of a state to lists of addresses and
    texts; each operation of [MsgQueue] is shown to keep it and to act on the lists as
    the specification does, where no kicks are merged ([quiet]), or else to stop with
    one of the faults that are allowed: the stacking of commands has one. *)

From S2P Require Import Prelude LibC RegexMatch Wildcard Match Ratelimit MsgQueue.
From stdpp Require Import list gmap functions.
#[local] Open Scope Z_scope.

(** ** The specification *)

Record aspec := { a_rg : regs; a_q : qsel -> list (list Z) }.

Definition set_a_rg (r : regs) (a : aspec) : aspec := {| a_rg := r; a_q := a_q a |}.
Definition set_a_q (h : qsel) (ts : list (list Z)) (a : aspec) : aspec :=
  {| a_rg := a_rg a; a_q := <[h := ts]> (a_q a) |}.

(** What happens to the queues, as operations of a client: [OpServ] is the connection
    made or lost, [OpClock] the clocks. *)
Inductive op : Type :=
| OpQueue (which : Z) (msg : list Z)
| OpDeq
| OpClear (h : qsel)
| OpEmpty
| OpServ (sock : Z)
| OpClock (t u : Z).

Definition set_serv (z : Z) (r : regs) : regs :=
  {| serv := z; now := now r; usec := usec r; last_time := last_time r; burst := burst r;
     outgoing_rl := outgoing_rl r; lastpingtime := lastpingtime r;
     double_warned := double_warned r; sent := sent r |}.

Section Spec.
Context (cf : conf).

Definition incr (r : regs) : regs := set_burst (burst r + 1) r.

(** The first line of a queue is sent and its penalty is charged. *)
Definition spec_send (h : qsel) (a : aspec) : aspec :=
  match a_q a h with
  | [] => a
  | t :: ts => {| a_rg := charge_rg cf t (add_sent t (a_rg a)); a_q := <[h := ts]> (a_q a) |}
  end.

Fixpoint spec_mode (fuel : nat) (a : aspec) : aspec :=
  match fuel with
  | O => a
  | S fuel =>
      if bool_decide (a_q a QMode ≠ []) && (burst (a_rg a) <? 4) &&
         (last_time (a_rg a) - now (a_rg a) <? MAXPENALTY)
      then let a := spec_send QMode a in spec_mode fuel (set_a_rg (incr (a_rg a)) a)
      else a
  end.

Definition spec_deq (a : aspec) : aspec :=
  let ok := is_due cf (a_rg a) in
  let a := set_a_rg (tick cf (a_rg a)) a in
  if serv (a_rg a) <? 0 then a
  else
    let '(pass, rl) := bucket_take (outgoing_rl (a_rg a)) (usec (a_rg a)) in
    let a := set_a_rg (set_rl rl (a_rg a)) a in
    if negb pass then a
    else if bool_decide (a_q a QMode ≠ []) then spec_mode (Z.to_nat (4 - burst (a_rg a))) a
    else if 1 <? burst (a_rg a) then a
    else if bool_decide (a_q a QServer ≠ []) then spec_send QServer (set_a_rg (incr (a_rg a)) a)
    else if (burst (a_rg a) =? 0) && ok then spec_send QHelp a
    else a.

Definition spec_queue (which : Z) (msg : list Z) (a : aspec) : aspec :=
  if serv (a_rg a) <? 0 then a
  else
    let buf := remove_crlf msg in
    if unqueued buf then
      let r := if mem (nth 1 buf 0) (bs "Ii") then set_lastping (now (a_rg a)) (a_rg a) else a_rg a in
      set_a_rg (add_sent buf r) a
    else
      match which_queue cf which with
      | None => a
      | Some (h, qnext, double) =>
          let after := if (which =? DP_MODE) || (which =? DP_MODE_NEXT) then spec_deq else id in
          if Z.of_nat (length (a_q a h)) <? maxqmsg cf then
            if negb double && existsb (fun t => same_name t buf) (a_q a h)
            then set_a_rg (set_double_warned true (a_rg a)) a
            else if tcl_out cf which buf then a
            else after (set_a_q h (if qnext then buf :: a_q a h else a_q a h ++ [buf])
                          (set_a_rg (set_double_warned false (a_rg a)) a))
          else after a
      end.

Definition spec_clear (h : qsel) (a : aspec) : aspec := set_a_q h [] a.

Definition spec_op (o : op) (a : aspec) : aspec :=
  match o with
  | OpQueue which msg => spec_queue which msg a
  | OpDeq => spec_deq a
  | OpClear h => spec_clear h a
  | OpEmpty =>
      let a := spec_clear QHelp (spec_clear QServer (spec_clear QMode a)) in
      set_a_rg (set_burst 0 (a_rg a)) a
  | OpServ z => set_a_rg (set_serv z (a_rg a)) a
  | OpClock t u => set_a_rg (set_clock t u (a_rg a)) a
  end.

(** The same on the program. *)
Definition do_op (o : op) : M unit :=
  match o with
  | OpQueue which msg => queue_server cf which msg
  | OpDeq => deq_msg cf
  | OpClear h => msgq_clear h
  | OpEmpty => empty_msgq
  | OpServ z => upd (set_serv z)
  | OpClock t u => upd (set_clock t u)
  end.

Fixpoint run (os : list op) : M unit :=
  match os with
  | [] => mret tt
  | o :: os => do_op o ≫= fun _ => run os
  end.
Definition spec_run (os : list op) (a : aspec) : aspec := fold_left (fun a o => spec_op o a) os a.

End Spec.

(** ** Programs that end well *)

(** The faults that a statement allows. *)
Class Allowed := allowed : fault -> Prop.

Definition wp {bad : Allowed} {A} (m : M A) (s : srv) (Q : A -> srv -> Prop) : Prop :=
  match m s with Ok (x, s') => Q x s' | Err e => allowed e end.

Section Rules.
Context {bad : Allowed}.

Lemma wp_ret {A} (x : A) s (Q : A -> srv -> Prop) : Q x s -> wp (mret x) s Q.
Proof. done. Qed.

Lemma wp_bind {A B} (m : M A) (f : A -> M B) s Q :
  wp m s (fun x s' => wp (f x) s' Q) -> wp (m ≫= f) s Q.
Proof. unfold wp, mbind, M_bind. by destruct (m s) as [[x s']|e]. Qed.

Lemma wp_mono {A} (m : M A) s (Q Q' : A -> srv -> Prop) :
  wp m s Q -> (forall x s', Q x s' -> Q' x s') -> wp m s Q'.
Proof. unfold wp. destruct (m s) as [[x s']|e]; auto. Qed.

Lemma wp_upd f s (Q : unit -> srv -> Prop) : Q tt (set_rg (f (rg s)) s) -> wp (upd f) s Q.
Proof. done. Qed.

Lemma wp_regs s (Q : regs -> srv -> Prop) : Q (rg s) s -> wp regs_of s Q.
Proof. done. Qed.

Lemma wp_queue_of h s (Q : msgq_head -> srv -> Prop) : Q (queue h s) s -> wp (queue_of h) s Q.
Proof. done. Qed.

Lemma wp_put_queue h q s (Q : unit -> srv -> Prop) : Q tt (set_queue h q s) -> wp (put_queue h q) s Q.
Proof. done. Qed.

Lemma wp_load p n s (Q : msgq -> srv -> Prop) : nodes s !! p = Some n -> Q n s -> wp (load p) s Q.
Proof. intros H HQ. unfold wp, load, mbind, M_bind, get. simpl. by rewrite H. Qed.

Lemma wp_store p n0 n s (Q : unit -> srv -> Prop) :
  nodes s !! p = Some n0 -> Q tt (set_nodes (<[p := n]> (nodes s)) s) -> wp (store p n) s Q.
Proof. intros H HQ. unfold store. apply wp_bind. by eapply wp_load. Qed.

Lemma wp_free p n0 s (Q : unit -> srv -> Prop) :
  nodes s !! p = Some n0 -> Q tt (set_nodes (delete p (nodes s)) s) -> wp (op_bh_free p) s Q.
Proof. intros H HQ. unfold op_bh_free. apply wp_bind. by eapply wp_load. Qed.

Lemma wp_fuel s (Q : nat -> srv -> Prop) : Q (S (size (nodes s))) s -> wp walk_fuel s Q.
Proof. done. Qed.

Lemma wp_fail {A} e s (Q : A -> srv -> Prop) : allowed e -> wp (fail e) s Q.
Proof. done. Qed.
End Rules.

(** One step of a program: the rule for its first action. *)
Ltac wp_step :=
  lazymatch goal with
  | |- wp (_ ≫= _) _ _ => apply wp_bind
  | |- wp (mret _) _ _ => apply wp_ret
  | |- wp (upd _) _ _ => apply wp_upd
  | |- wp regs_of _ _ => apply wp_regs
  | |- wp (queue_of _) _ _ => apply wp_queue_of
  | |- wp (put_queue _ _) _ _ => apply wp_put_queue
  | |- wp walk_fuel _ _ => apply wp_fuel
  end; cbv beta.
(** All of them that apply. *)
Ltac wp_steps := repeat wp_step.

(** ** Linked lists *)

Fixpoint lseg (m : gmap loc msgq) (p : option loc) (ls : list (loc * list Z)) : Prop :=
  match ls with
  | [] => p = None
  | (l, t) :: ls =>
      p = Some l /\
      exists nx, m !! l = Some {| m_next := nx; m_len := slen t; m_msg := t |} /\ lseg m nx ls
  end.

Lemma lseg_insert m p ls l n : l ∉ ls.*1 -> lseg m p ls -> lseg (<[l := n]> m) p ls.
Proof.
  revert p. induction ls as [|[l' t] ls IH]; intros p; cbn; [done|].
  rewrite not_elem_of_cons. intros [Hne Hnin] [-> (nx & Hl & Hs)]. split; [done|].
  exists nx. rewrite lookup_insert_ne by done. auto.
Qed.

Lemma lseg_delete m p ls l : l ∉ ls.*1 -> lseg m p ls -> lseg (delete l m) p ls.
Proof.
  revert p. induction ls as [|[l' t] ls IH]; intros p; cbn; [done|].
  rewrite not_elem_of_cons. intros [Hne Hnin] [-> (nx & Hl & Hs)]. split; [done|].
  exists nx. rewrite lookup_delete_ne by done. auto.
Qed.

Lemma lseg_dom m p ls l : lseg m p ls -> l ∈ ls.*1 -> is_Some (m !! l).
Proof.
  revert p. induction ls as [|[l' t] ls IH]; intros p; cbn; [by intros _ ?%elem_of_nil|].
  intros [-> (nx & Hl & Hs)] [->|Hin]%elem_of_cons; [eauto|]. by eapply IH.
Qed.

Lemma lseg_size ls : forall m p, NoDup ls.*1 -> lseg m p ls -> (length ls <= size m)%nat.
Proof.
  induction ls as [|[l t] ls IH]; intros m p; cbn; [lia|].
  intros [Hnin Hnd]%list.NoDup_cons [-> (nx & Hl & Hs)].
  pose proof (IH (delete l m) nx Hnd (lseg_delete _ _ _ _ Hnin Hs)) as Hle.
  rewrite map_size_delete_Some in Hle by eauto.
  assert (size m ≠ 0)%nat; [|lia]. intros E%map_size_empty_iff. by rewrite E in Hl.
Qed.

(** A new node at the end: the last node is linked to it. *)
Lemma lseg_snoc m ls : forall p l0 t0 q t n0,
  NoDup (ls.*1 ++ [l0]) -> q ∉ ls.*1 ++ [l0] ->
  lseg m p (ls ++ [(l0, t0)]) -> m !! l0 = Some n0 ->
  lseg (<[q := {| m_next := None; m_len := slen t; m_msg := t |}]> (<[l0 := set_next n0 (Some q)]> m)) p
    (ls ++ [(l0, t0); (q, t)]).
Proof.
  induction ls as [|[l t'] ls IH]; intros p l0 t0 q t n0; cbn.
  - intros _ Hq [-> (nx & Hl & ->)] Hn0. split; [done|]. exists (Some q).
    apply not_elem_of_cons in Hq as [Hq _]. rewrite lookup_insert_ne, lookup_insert_eq by done.
    rewrite Hl in Hn0. injection Hn0 as <-. split; [done|]. split; [done|]. exists None. by rewrite lookup_insert_eq.
  - intros [Hl Hnd]%list.NoDup_cons [Hq Hqs]%not_elem_of_cons [-> (nx & Hlk & Hs)] Hn0. split; [done|].
    exists nx. rewrite lookup_insert_ne, lookup_insert_ne; [|intros ->; apply Hl|done].
    + split; [done|]. by apply IH.
    + apply elem_of_app. right. by apply list_elem_of_singleton.
Qed.

(** ** The representation *)

(** [L h] lists the addresses and texts of queue [h].  The [last] pointer of the queue
    [o] may be stale while that queue is empty. *)
Record rep (o : option qsel) (s : srv) (L : qsel -> list (loc * list Z)) : Prop := {
  rep_seg h : lseg (nodes s) (q_head (queue h s)) (L h);
  rep_last h : (o = Some h /\ L h = []) \/ q_last (queue h s) = fst <$> list.last (L h);
  rep_tot h : q_tot (queue h s) = Z.of_nat (length (L h));
  rep_nodup h : NoDup (L h).*1;
  rep_disj h h' l : l ∈ (L h).*1 -> l ∈ (L h').*1 -> h = h';
  rep_fresh l : is_Some (nodes s !! l) -> (l < fresh_loc s)%positive
}.

Lemma queue_set_same h q s : queue h (set_queue h q s) = q.
Proof. by destruct h. Qed.
Lemma queue_set_other h h' q s : h' ≠ h -> queue h' (set_queue h q s) = queue h' s.
Proof. destruct h, h'; done. Qed.
Lemma nodes_set_queue h q s : nodes (set_queue h q s) = nodes s.
Proof. done. Qed.
Lemma queue_set_nodes h m s : queue h (set_nodes m s) = queue h s.
Proof. by destruct h. Qed.
Lemma queue_set_rg h r s : queue h (set_rg r s) = queue h s.
Proof. by destruct h. Qed.
Lemma rg_set_queue h q s : rg (set_queue h q s) = rg s.
Proof. done. Qed.

Create Rewrite HintDb srv.
#[export] Hint Rewrite queue_set_same queue_set_nodes queue_set_rg nodes_set_queue rg_set_queue : srv.
#[export] Hint Rewrite queue_set_other using done : srv.

(** One queue changes: its new list, and what the others need of the nodes. *)
Lemma rep_update o o' s s' L h ls :
  rep o s L -> (o = None \/ o = Some h) ->
  (forall h', h' ≠ h -> queue h' s' = queue h' s) ->
  (forall h', h' ≠ h -> lseg (nodes s) (q_head (queue h' s)) (L h') ->
     lseg (nodes s') (q_head (queue h' s)) (L h')) ->
  lseg (nodes s') (q_head (queue h s')) ls ->
  ((o' = Some h /\ ls = []) \/ q_last (queue h s') = fst <$> list.last ls) ->
  q_tot (queue h s') = Z.of_nat (length ls) ->
  NoDup ls.*1 ->
  (forall l, l ∈ ls.*1 -> l ∈ (L h).*1 \/ nodes s !! l = None) ->
  (forall l, is_Some (nodes s' !! l) -> (l < fresh_loc s')%positive) ->
  rep o' s' (<[h := ls]> L).
Proof.
  intros R Ho Hq Hseg Hs Hl Ht Hnd Hin Hfr.
  assert (Hx : forall h' l, h' ≠ h -> l ∈ ls.*1 -> l ∈ (L h').*1 -> False).
  { intros h' l Hne H1 H2. destruct (Hin l H1) as [H3|H3].
    - apply Hne. by apply (rep_disj _ _ _ R h' h l).
    - apply (lseg_dom _ _ _ _ (rep_seg _ _ _ R h')) in H2. rewrite H3 in H2. by destruct H2. }
  split; [| | | | |exact Hfr].
  - intros h'. destruct (decide (h = h')) as [<-|Hne]; [by rewrite fn_lookup_insert|].
    rewrite fn_lookup_insert_ne, Hq by done. apply Hseg, R. congruence.
  - intros h'. destruct (decide (h = h')) as [<-|Hne]; [by rewrite fn_lookup_insert|].
    rewrite fn_lookup_insert_ne, Hq by done. right.
    destruct (rep_last _ _ _ R h') as [[-> _]|E]; [|done]. destruct Ho; congruence.
  - intros h'. destruct (decide (h = h')) as [<-|Hne]; [by rewrite fn_lookup_insert|].
    rewrite fn_lookup_insert_ne, Hq by done. apply R.
  - intros h'. destruct (decide (h = h')) as [<-|Hne]; [by rewrite fn_lookup_insert|].
    rewrite fn_lookup_insert_ne by done. apply R.
  - intros h1 h2 l. destruct (decide (h = h1)) as [<-|H1], (decide (h = h2)) as [<-|H2];
      rewrite ?fn_lookup_insert, ?fn_lookup_insert_ne by done; [done| | |apply R].
    + intros Ha Hb. destruct (Hx h2 l); congruence.
    + intros Ha Hb. destruct (Hx h1 l); congruence.
Qed.

(** The abstract state of a represented one. *)
Definition texts (L : qsel -> list (loc * list Z)) (h : qsel) : list (list Z) := (L h).*2.
Definition abs_of (s : srv) (L : qsel -> list (loc * list Z)) : aspec :=
  {| a_rg := rg s; a_q := texts L |}.

Lemma texts_insert L h ls : forall h', texts (<[h := ls]> L) h' = <[h := ls.*2]> (texts L) h'.
Proof.
  intros h'. unfold texts. destruct (decide (h = h')) as [<-|Hne].
  - by rewrite !fn_lookup_insert.
  - by rewrite !fn_lookup_insert_ne.
Qed.

Lemma rep_rg o s L r : rep o s L -> rep o (set_rg r s) L.
Proof. intros [A B C D E F]. split; try done; intros h; rewrite queue_set_rg; auto. Qed.

(** The head pointer is null exactly when the list is empty. *)
Lemma rep_head o s L h : rep o s L -> q_head (queue h s) = fst <$> hd_error (L h).
Proof.
  intros R. pose proof (rep_seg _ _ _ R h) as H. destruct (L h) as [|[l t] ls]; [done|]. by destruct H as [-> _].
Qed.

Lemma rep_size o s L h : rep o s L -> (length (L h) <= size (nodes s))%nat.
Proof. intros R. eapply lseg_size; apply R. Qed.

Lemma rep_other o s L h h' l : rep o s L -> h' ≠ h -> l ∈ (L h).*1 -> l ∉ (L h').*1.
Proof. intros R Hne H1 H2. apply Hne. by apply (rep_disj _ _ _ R h' h l). Qed.

(** *** The operations on a represented queue *)

Section Heap.
Context {bad : Allowed}.

Lemma wp_fix_last h s L (Q : unit -> srv -> Prop) :
  rep (Some h) s L -> (forall s', rep None s' L -> rg s' = rg s -> Q tt s') -> wp (fix_last h) s Q.
Proof.
  intros R HQ. unfold fix_last. wp_steps. pose proof (rep_head _ _ _ h R) as Hh.
  destruct (q_head (queue h s)) eqn:E.
  - apply wp_ret, HQ; [|done]. split; try apply R. intros h'.
    destruct (rep_last _ _ _ R h') as [[[= <-] E']|E']; [|by right]. by rewrite E' in Hh.
  - wp_step. apply HQ; [|done]. destruct (L h) as [|[??] ?] eqn:EL; [|done].
    split; try apply R; intros h'; destruct (decide (h' = h)) as [->|Hne]; autorewrite with srv; try apply R.
    + right. by rewrite EL.
    + right. destruct (rep_last _ _ _ R h') as [[[= <-] E']|E']; done.
Qed.

Lemma wp_queued s fuel buf ls p (Q : bool -> srv -> Prop) :
  lseg (nodes s) p ls -> (length ls < fuel)%nat ->
  Q (existsb (fun t => same_name t buf) ls.*2) s -> wp (queued fuel p buf) s Q.
Proof.
  intros Hs Hf HQ. revert fuel p Hs Hf. induction ls as [|[l t] ls IH]; intros [|fuel] p; cbn [length]; try lia.
  - intros -> _. by apply wp_ret.
  - intros [-> (nx & Hl & Hs)] Hf. cbn [queued]. apply wp_bind. eapply wp_load; [exact Hl|]. cbn [m_msg m_next].
    cbn [fmap list_fmap existsb snd] in HQ. destruct (same_name t buf); [by apply wp_ret|]. apply IH; [done|done|lia].
Qed.

(** The first node goes away, after the counter was decremented. *)
Lemma wp_drop_head h s L o l t ls r (Q : unit -> srv -> Prop) :
  rep o s L -> (o = None \/ o = Some h) -> L h = (l, t) :: ls ->
  (forall s', rep (Some h) s' (<[h := ls]> L) -> rg s' = r -> Q tt s') ->
  wp (drop_head h) (set_rg r (set_queue h (set_tot (queue h s) (q_tot (queue h s) - 1)) s)) Q.
Proof.
  intros R Ho EL HQ. pose proof (rep_seg _ _ _ R h) as Hseg. rewrite EL in Hseg.
  destruct Hseg as [Eh (nx & Hl & Hs)]. unfold drop_head.
  wp_steps. autorewrite with srv. cbn [set_tot q_head]. rewrite Eh.
  eapply wp_load; [exact Hl|]. wp_step. eapply wp_free; [exact Hl|]. wp_steps.
  pose proof (rep_nodup _ _ _ R h) as Hnd. rewrite EL in Hnd. apply list.NoDup_cons in Hnd as [Hnin Hnd].
  apply HQ; [|done]. eapply rep_update; [exact R|exact Ho|..]; autorewrite with srv.
  - intros h' Hne. by autorewrite with srv.
  - intros h' Hne Hs'. apply lseg_delete; [|exact Hs'].
    apply (rep_other _ _ _ h h' l R Hne). rewrite EL. by left.
  - by apply lseg_delete.
  - cbn. destruct ls as [|x ls]; [by left|]. right.
    destruct (rep_last _ _ _ R h) as [[_ E]|E]; [by rewrite E in EL|]. by rewrite E, EL.
  - cbn. rewrite (rep_tot _ _ _ R h), EL. cbn. lia.
  - done.
  - intros l' Hl'. left. rewrite EL. by right.
  - cbn. intros l' [n Hn]. apply (rep_fresh _ _ _ R). destruct (decide (l' = l)) as [->|].
    + by rewrite lookup_delete_eq in Hn.
    + rewrite lookup_delete_ne in Hn by done. eauto.
Qed.

Lemma wp_send_head cf h s L o l t ls (Q : unit -> srv -> Prop) :
  rep o s L -> (o = None \/ o = Some h) -> L h = (l, t) :: ls ->
  (forall s', rep (Some h) s' (<[h := ls]> L) -> rg s' = charge_rg cf t (add_sent t (rg s)) -> Q tt s') ->
  wp (send_head cf h) s Q.
Proof.
  intros R Ho EL HQ. pose proof (rep_seg _ _ _ R h) as Hseg. rewrite EL in Hseg.
  destruct Hseg as [Eh (nx & Hl & Hs)]. unfold send_head, write_to_server, dec_tot, charge.
  wp_steps. rewrite Eh. eapply wp_load; [exact Hl|]. wp_steps. cbn [m_msg].
  rewrite queue_set_rg.
  by eapply (wp_drop_head h s L o l t ls (charge_rg cf t (add_sent t (rg s)))).
Qed.

(** Allocation gives a new address. *)
Lemma rep_fresh_None o s L : rep o s L -> nodes s !! fresh_loc s = None.
Proof.
  intros R. destruct (nodes s !! fresh_loc s) eqn:E; [|done].
  pose proof (rep_fresh _ _ _ R (fresh_loc s) ltac:(eauto)). lia.
Qed.

Lemma rep_fresh_nin o s L h : rep o s L -> fresh_loc s ∉ (L h).*1.
Proof.
  intros R Hin. apply (lseg_dom _ _ _ _ (rep_seg _ _ _ R h)) in Hin.
  rewrite (rep_fresh_None _ _ _ R) in Hin. by destruct Hin.
Qed.

Lemma wp_alloc s (Q : loc -> srv -> Prop) :
  Q (fresh_loc s) {| rg := rg s; modeq := modeq s; mq := mq s; hq := hq s;
       nodes := <[fresh_loc s := {| m_next := None; m_len := 0; m_msg := [] |}]> (nodes s);
       fresh_loc := Pos.succ (fresh_loc s) |} -> wp op_bh_alloc s Q.
Proof. done. Qed.

(** The nodes of a state before and after an insertion: the common part of both ways in. *)
Lemma rep_insert s s' L h ls q :
  rep None s L -> q = fresh_loc s -> fresh_loc s' = Pos.succ q ->
  (forall h', h' ≠ h -> queue h' s' = queue h' s) ->
  (forall h', h' ≠ h -> lseg (nodes s) (q_head (queue h' s)) (L h') ->
     lseg (nodes s') (q_head (queue h' s)) (L h')) ->
  lseg (nodes s') (q_head (queue h s')) ls ->
  q_last (queue h s') = fst <$> list.last ls ->
  q_tot (queue h s') = Z.of_nat (length ls) ->
  ls.*1 ≡ₚ q :: (L h).*1 ->
  (forall l, is_Some (nodes s' !! l) -> l = q \/ is_Some (nodes s !! l)) ->
  rep None s' (<[h := ls]> L).
Proof.
  intros R -> Hf Hq Hseg Hs Hl Ht Hp Hd.
  eapply rep_update; [exact R|by left|exact Hq|exact Hseg|exact Hs|by right|exact Ht|..].
  - rewrite Hp. apply list.NoDup_cons. split; [eapply rep_fresh_nin, R|apply R].
  - intros l. rewrite Hp. intros [->|]%elem_of_cons; [|by left]. right. by eapply rep_fresh_None.
  - intros l [->|H]%Hd; rewrite Hf; [lia|]. apply (rep_fresh _ _ _ R) in H. lia.
Qed.

Lemma perm_snoc {A} (q : A) (ls : list A) : ls ++ [q] ≡ₚ q :: ls.
Proof. symmetry. apply Permutation_cons_append. Qed.

(** The list of the queue after a line was put in. *)
Definition put_in (qnext : bool) (q : loc) (buf : list Z) (ls : list (loc * list Z)) :=
  if qnext then (q, buf) :: ls else ls ++ [(q, buf)].

Lemma put_in_perm qnext q buf ls : (put_in qnext q buf ls).*1 ≡ₚ q :: ls.*1.
Proof. destruct qnext; cbn; [done|]. rewrite fmap_app. apply perm_snoc. Qed.

Lemma insert3 (m : gmap loc msgq) q a b c : <[q := c]> (<[q := b]> (<[q := a]> m)) = <[q := c]> m.
Proof. by rewrite !insert_insert_eq. Qed.

(** A new node, up to where it is linked. *)
Ltac insert_start R h s L :=
  unfold insert_msg; wp_steps; apply wp_alloc; set (q := fresh_loc s);
  wp_steps; eapply wp_load; [apply lookup_insert_eq|]; wp_steps;
  pose proof (rep_seg _ _ _ R h) as Hseg; pose proof (rep_fresh_nin _ _ _ h R) as Hnin;
  assert (Hfr : forall h', q ∉ (L h').*1) by (intros h'; by eapply rep_fresh_nin);
  assert (Hqh : forall s1 : srv, modeq s1 = modeq s -> mq s1 = mq s -> hq s1 = hq s ->
            forall h', queue h' s1 = queue h' s) by (intros s1 ??? []; done);
  match goal with |- context [queue h ?s1] => rewrite (Hqh s1 eq_refl eq_refl eq_refl h) end.

Lemma wp_insert_front h s L buf (Q : unit -> srv -> Prop) :
  rep None s L ->
  (forall s' q, rep None s' (<[h := put_in true q buf (L h)]> L) ->
     rg s' = set_double_warned false (rg s) -> Q tt s') ->
  wp (insert_msg h true buf) s Q.
Proof.
  intros R HQ. insert_start R h s L.
  wp_steps. eapply wp_store; [apply lookup_insert_eq|]. wp_steps.
  eapply wp_load; [apply lookup_insert_eq|]. wp_steps.
  eapply wp_store; [apply lookup_insert_eq|]. wp_steps. autorewrite with srv.
  eapply (HQ _ q); [|done].
  eapply rep_insert; [exact R|reflexivity|..].
  - done.
  - intros h' Hne. autorewrite with srv. by apply Hqh.
  - intros h' Hne Hs'. cbn. rewrite insert3. apply lseg_insert; [apply Hfr|exact Hs'].
  - autorewrite with srv. cbn. rewrite insert3. split; [done|]. eexists. rewrite lookup_insert_eq.
    split; [done|]. by apply lseg_insert.
  - autorewrite with srv. cbn [set_warned set_tot set_last set_head q_last put_in].
    destruct (rep_last _ _ _ R h) as [[? _]|E]; [done|]. rewrite E.
    destruct (L h) as [|x ls]; [done|]. rewrite last_cons_cons.
    destruct (list.last (x :: ls)) eqn:E1; [done|by apply last_None in E1].
  - autorewrite with srv. cbn. rewrite (rep_tot _ _ _ R h). lia.
  - apply (put_in_perm true).
  - cbn. intros l. rewrite insert3. destruct (decide (l = q)); [by left|].
    rewrite lookup_insert_ne by done. by right.
Qed.

Lemma wp_insert_empty h s L buf (Q : unit -> srv -> Prop) :
  rep None s L -> L h = [] ->
  (forall s' q, rep None s' (<[h := put_in false q buf (L h)]> L) ->
     rg s' = set_double_warned false (rg s) -> Q tt s') ->
  wp (insert_msg h false buf) s Q.
Proof.
  intros R EL HQ. insert_start R h s L.
  wp_steps. eapply wp_store; [apply lookup_insert_eq|].
  destruct (rep_last _ _ _ R h) as [[? _]|El]; [done|]. rewrite El. rewrite EL in *.
  cbn [list.last fmap option_fmap option_map].
  wp_steps. eapply wp_load; [apply lookup_insert_eq|]. wp_steps.
  eapply wp_store; [apply lookup_insert_eq|]. wp_steps. autorewrite with srv.
  eapply (HQ _ q); [|done].
  eapply rep_insert; [exact R|reflexivity|..].
  - done.
  - intros h' Hne. autorewrite with srv. by apply Hqh.
  - intros h' Hne Hs'. cbn. rewrite insert3. apply lseg_insert; [apply Hfr|exact Hs'].
  - autorewrite with srv. cbn. rewrite insert3. split; [done|]. eexists. by rewrite lookup_insert_eq.
  - by autorewrite with srv.
  - autorewrite with srv. cbn. rewrite (rep_tot _ _ _ R h), EL. done.
  - rewrite EL. done.
  - cbn. intros l. rewrite insert3. destruct (decide (l = q)); [by left|].
    rewrite lookup_insert_ne by done. by right.
Qed.

Lemma wp_insert_after h s L buf ls0 l0 t0 (Q : unit -> srv -> Prop) :
  rep None s L -> L h = ls0 ++ [(l0, t0)] ->
  (forall s' q, rep None s' (<[h := put_in false q buf (L h)]> L) ->
     rg s' = set_double_warned false (rg s) -> Q tt s') ->
  wp (insert_msg h false buf) s Q.
Proof.
  intros R EL HQ. insert_start R h s L.
  wp_steps. eapply wp_store; [apply lookup_insert_eq|].
  destruct (rep_last _ _ _ R h) as [[? _]|El]; [done|]. rewrite El. rewrite EL in *.
  rewrite last_snoc. cbn [fmap option_fmap option_map fst].
  assert (Hl0 : l0 ∈ (ls0 ++ [(l0, t0)]).*1).
  { rewrite fmap_app. apply elem_of_app. right. by left. }
  assert (Hne0 : l0 ≠ q) by (intros ->; done).
  destruct (lseg_dom _ _ _ _ Hseg Hl0) as [n0 Hn0].
  wp_steps. eapply wp_load; [cbn; rewrite !lookup_insert_ne by done; exact Hn0|]. wp_steps.
  eapply wp_store; [cbn; rewrite !lookup_insert_ne by done; exact Hn0|]. wp_steps.
  eapply wp_load; [cbn; rewrite lookup_insert_ne by done; apply lookup_insert_eq|]. wp_steps.
  eapply wp_store; [cbn; rewrite lookup_insert_ne by done; apply lookup_insert_eq|]. wp_steps.
  autorewrite with srv. eapply (HQ _ q); [|done].
  assert (Hm : forall a b c, <[q := c]> (<[l0 := set_next n0 (Some q)]> (<[q := b]> (<[q := a]> (nodes s)))) =
               <[q := c]> (<[l0 := set_next n0 (Some q)]> (nodes s))).
  { intros a b c. rewrite insert_insert_eq. rewrite (insert_insert_ne _ l0 q) by done.
    by rewrite insert_insert_eq. }
  eapply rep_insert; [exact R|reflexivity|..].
  - done.
  - intros h' Hne. autorewrite with srv. by apply Hqh.
  - intros h' Hne Hs'. cbn. rewrite Hm. apply lseg_insert; [apply Hfr|].
    apply lseg_insert; [|exact Hs']. eapply (rep_other _ _ _ h h'); [exact R|done|]. by rewrite EL.
  - autorewrite with srv. cbn [set_warned set_tot set_last q_head put_in nodes set_nodes]. cbn. rewrite Hm, <- app_assoc.
    pose proof (rep_nodup _ _ _ R h) as Hnd. rewrite EL, fmap_app in Hnd. rewrite fmap_app in Hnin.
    by apply lseg_snoc.
  - autorewrite with srv. cbn [set_warned set_tot set_last q_last put_in]. by rewrite last_snoc.
  - autorewrite with srv. cbn. rewrite (rep_tot _ _ _ R h), EL, !length_app. cbn. lia.
  - rewrite EL. apply (put_in_perm false).
  - cbn. intros l. rewrite Hm. destruct (decide (l = q)); [by left|].
    rewrite lookup_insert_ne by done. right. destruct (decide (l = l0)) as [->|]; [eauto|].
    by rewrite lookup_insert_ne in * by done.
Qed.

Lemma wp_insert_msg h qnext s L buf (Q : unit -> srv -> Prop) :
  rep None s L ->
  (forall s' q, rep None s' (<[h := put_in qnext q buf (L h)]> L) ->
     rg s' = set_double_warned false (rg s) -> Q tt s') ->
  wp (insert_msg h qnext buf) s Q.
Proof.
  intros R HQ. destruct qnext; [by apply (wp_insert_front h s L)|].
  destruct (L h) as [|[l0 t0] ls0 _] eqn:EL using rev_ind.
  - apply (wp_insert_empty h s L); [done|done|]. by rewrite EL.
  - apply (wp_insert_after h s L buf ls0 l0 t0); [done|done|]. by rewrite EL.
Qed.

(** *** Emptying a queue *)

Lemma lseg_ext m m' p ls :
  (forall l, l ∈ ls.*1 -> m' !! l = m !! l) -> lseg m p ls -> lseg m' p ls.
Proof.
  revert p. induction ls as [|[l t] ls IH]; intros p; cbn; [done|].
  intros H [-> (nx & Hl & Hs)]. split; [done|]. exists nx. rewrite H by by left. split; [done|].
  apply IH; [|done]. intros l' ?. apply H. by right.
Qed.

Lemma wp_free_all ls : forall s fuel p (Q : unit -> srv -> Prop),
  lseg (nodes s) p ls -> NoDup ls.*1 -> (length ls < fuel)%nat ->
  (forall m, (forall l, l ∈ ls.*1 -> m !! l = None) -> (forall l, l ∉ ls.*1 -> m !! l = nodes s !! l) ->
     Q tt (set_nodes m s)) ->
  wp (free_all fuel p) s Q.
Proof.
  induction ls as [|[l t] ls IH]; intros s [|fuel] p Q; cbn [length]; try lia.
  - intros -> _ _ HQ. apply wp_ret. specialize (HQ (nodes s)).
    destruct s; apply HQ; [by intros ? ?%elem_of_nil|done].
  - intros [-> (nx & Hl & Hs)] [Hnin Hnd]%list.NoDup_cons Hf HQ. cbn [free_all].
    wp_step. eapply wp_load; [exact Hl|]. wp_step. eapply wp_free; [exact Hl|]. cbn [m_next].
    apply IH; [by apply lseg_delete|done|lia|]. intros m Hin Hout. apply HQ.
    + intros l' [->|H]%elem_of_cons; [|by apply Hin]. rewrite Hout by done. apply lookup_delete_eq.
    + intros l' [Hne H]%not_elem_of_cons. rewrite Hout by done. by apply lookup_delete_ne.
Qed.

Lemma wp_msgq_clear h s L (Q : unit -> srv -> Prop) :
  rep None s L -> (forall s', rep None s' (<[h := []]> L) -> rg s' = rg s -> Q tt s') ->
  wp (msgq_clear h) s Q.
Proof.
  intros R HQ. unfold msgq_clear. wp_steps.
  eapply wp_free_all; [apply (rep_seg _ _ _ R)|apply R|apply Nat.lt_succ_r; by eapply rep_size|].
  intros m Hin Hout. wp_step. apply HQ; [|done].
  eapply rep_update; [exact R|by left|..]; autorewrite with srv.
  - intros h' Hne. by autorewrite with srv.
  - intros h' Hne. apply lseg_ext. intros l Hl. apply Hout. by eapply rep_other.
  - done.
  - by right.
  - done.
  - constructor.
  - by intros l ?%elem_of_nil.
  - cbn. intros l [n Hn]. apply (rep_fresh _ _ _ R).
    destruct (decide (l ∈ (L h).*1)) as [H|H]; [by rewrite Hin in Hn|]. rewrite Hout in Hn by done. eauto.
Qed.

(** ** The refinement *)

Definition sim (o : option qsel) (s : srv) (a : aspec) : Prop :=
  exists L, rep o s L /\ rg s = a_rg a /\ forall h, a_q a h = texts L h.

Lemma sim_weaken h s a : sim None s a -> sim (Some h) s a.
Proof.
  intros (L & R & E). exists L. split; [|exact E]. split; try apply R.
  intros h'. destruct (rep_last _ _ _ R h') as [[? _]|?]; [done|by right].
Qed.

Lemma sim_upd o s a f (Q : unit -> srv -> Prop) :
  sim o s a -> (forall s', sim o s' (set_a_rg (f (a_rg a)) a) -> Q tt s') -> wp (upd f) s Q.
Proof.
  intros (L & R & E & Hq) HQ. apply wp_upd, HQ. exists L. split; [by apply rep_rg|].
  split; [by rewrite <- E|exact Hq].
Qed.

Lemma sim_set_rg o s a r : sim o s a -> sim o (set_rg r s) (set_a_rg r a).
Proof. intros (L & R & E & Hq). exists L. split; [by apply rep_rg|done]. Qed.

Lemma sim_head o s a h : sim o s a -> (q_head (queue h s) = None <-> a_q a h = []).
Proof.
  intros (L & R & _ & Hq). rewrite Hq, (rep_head _ _ _ h R). unfold texts. by destruct (L h).
Qed.

Lemma sim_rg o s a : sim o s a -> rg s = a_rg a.
Proof. by intros (L & _ & E & _). Qed.

(** A change of one queue on both sides. *)
Lemma sim_intro o s a L h ls r :
  rep o s (<[h := ls]> L) -> rg s = r -> (forall h, a_q a h = texts L h) ->
  sim o s {| a_rg := r; a_q := <[h := ls.*2]> (a_q a) |}.
Proof.
  intros R E Hq. exists (<[h := ls]> L). split_and!; [done|done|]. intros h'. rewrite texts_insert. cbn.
  destruct (decide (h = h')) as [<-|Hne]; [by rewrite !fn_lookup_insert|].
  rewrite !fn_lookup_insert_ne by done. apply Hq.
Qed.

End Heap.

(** No kicks are merged: the setting is off, or there are no kicks in the queues. *)
Definition no_kick (t : list Z) : Prop := prefix_nocase (bs "KICK") t = false.
Definition quiet (cf : conf) (a : aspec) : Prop := optimize_kicks cf = 0 \/ forall h, Forall no_kick (a_q a h).

Section Refine.
Context {bad : Allowed} (cf : conf).
(** Where commands are stacked, a node is given to the wrong allocator. *)
Hypothesis stacking : use_fastdeq cf ≠ 0 -> allowed BadFree.

Lemma sim_first o s a h : sim o s a -> a_q a h ≠ [] ->
  exists l t ls, a_q a h = t :: ls.*2 /\ q_head (queue h s) = Some l /\ lseg (nodes s) (Some l) ((l, t) :: ls) /\
    (length ls < size (nodes s))%nat.
Proof.
  intros (L & R & _ & Hq) Hne. rewrite Hq in *. unfold texts in *. pose proof (rep_seg _ _ _ R h) as Hs. pose proof (rep_size _ _ _ h R) as Hl.
  destruct (L h) as [|[l t] ls]; [done|]. exists l, t, ls. split; [done|]. split; [by destruct Hs|].
  cbn in Hl. split; [|lia]. destruct Hs as [E Hs]. by split.
Qed.

Lemma sim_deq_kick o s a h (Q : bool -> srv -> Prop) : sim o s a -> a_q a h ≠ [] -> quiet cf a -> Q false s -> wp (deq_kick cf h) s Q.
Proof.
  intros Hs Hne Hk HQ. unfold deq_kick. destruct (Z.eqb_spec (optimize_kicks cf) 0) as [E|E]; [done|]. destruct Hk as [?|Hk]; [done|].
  destruct (sim_first o s a h Hs Hne) as (l & t & ls & Eq & Eh & [_ (nx & El & _)] & _). wp_steps. rewrite Eh. eapply wp_load; [exact El|].
  cbn [m_msg]. specialize (Hk h). rewrite Eq in Hk. apply Forall_cons_1 in Hk as [Ht _]. unfold no_kick in Ht. rewrite Ht. done.
Qed.

(** The walk of [fast_deq] changes nothing, or finds a line to stack and frees its node. *)
Lemma wp_fast_loop h cmd to msg victims n s (Q : list Z * bool -> srv -> Prop) : use_fastdeq cf ≠ 0 -> Q (victims, false) s ->
  forall ls fuel l t, lseg (nodes s) (Some l) ((l, t) :: ls) -> (length ls < fuel)%nat ->
  wp (fast_loop cf fuel h cmd to msg l victims n false) s Q.
Proof using stacking.
  intros Hf HQ. induction ls as [|[l2 t2] ls IH]; intros fuel l t [_ (nx & El & Hs)] Hl; destruct fuel as [|fuel]; try (cbn in Hl; lia); cbn [fast_loop].
  - wp_step. eapply wp_load; [exact El|]. cbn [m_next]. cbn in Hs. subst nx. by wp_step.
  - destruct Hs as [-> (nx2 & El2 & Hs)]. wp_step. eapply wp_load; [exact El|]. cbn [m_next]. wp_step. eapply wp_load; [exact El2|]. cbn [m_msg m_next].
    destruct (newsplit t2) as [nextcmd r]. destruct (newsplit r) as [nextto nextmsg]. destruct (_ && _).
    + wp_step. eapply wp_store; [exact El|]. wp_steps. destruct nx2; wp_steps; apply wp_fail; by apply stacking.
    + apply (IH fuel l2 t2); [|cbn in Hl; lia]. split; [done|]. by exists nx2.
Qed.

Lemma sim_fast_deq o s a h (Q : bool -> srv -> Prop) : sim o s a -> a_q a h ≠ [] -> Q false s -> wp (fast_deq cf h) s Q.
Proof using stacking.
  intros Hs Hne HQ. unfold fast_deq. destruct (Z.eqb_spec (use_fastdeq cf) 0) as [E|E]; [done|].
  destruct (sim_first o s a h Hs Hne) as (l & t & ls & Eq & Eh & Hseg & Hl). pose proof Hseg as [_ (nx & El & _)].
  wp_steps. rewrite Eh. eapply wp_load; [exact El|]. cbn [m_msg]. destruct (newsplit t) as [cmd r].
  destruct (may_stack cf cmd); cbn [negb]; [|by wp_step]. destruct (newsplit r) as [to msg]. wp_steps.
  apply wp_fast_loop with (ls := ls) (t := t); [done| |done|lia]. by wp_steps.
Qed.

Lemma quiet_send h a : quiet cf a -> quiet cf (spec_send cf h a).
Proof.
  unfold quiet, spec_send. intros [?|Hk]; [by left|right]. destruct (a_q a h) as [|t ts] eqn:E; [done|]. intros h'. cbn [a_q].
  destruct (decide (h = h')) as [<-|Hne]; [|by rewrite fn_lookup_insert_ne]. rewrite fn_lookup_insert. specialize (Hk h). rewrite E in Hk. by apply Forall_cons_1 in Hk as [_ ?].
Qed.

Lemma sim_send o h s a (Q : unit -> srv -> Prop) :
  sim o s a -> (o = None \/ o = Some h) -> a_q a h ≠ [] ->
  (forall s', sim (Some h) s' (spec_send cf h a) -> Q tt s') -> wp (send_head cf h) s Q.
Proof.
  intros (L & R & E & Hq) Ho Hne HQ. unfold spec_send in HQ. rewrite (Hq h) in *. unfold texts in *.
  destruct (L h) as [|[l t] ls] eqn:EL; [done|]. cbn [fmap list_fmap snd] in HQ.
  eapply wp_send_head; [exact R|exact Ho|exact EL|]. intros s' R' E'. apply HQ.
  eapply sim_intro; [exact R'|by rewrite E', E|exact Hq].
Qed.

Lemma sim_fix_last h s a (Q : unit -> srv -> Prop) :
  sim (Some h) s a -> (forall s', sim None s' a -> Q tt s') -> wp (fix_last h) s Q.
Proof.
  intros (L & R & E & Hq) HQ. eapply wp_fix_last; [exact R|]. intros s' R' E'. apply HQ. exists L.
  split_and!; [done|by rewrite E'|done].
Qed.

Lemma sim_head_bool o s a h : sim o s a ->
  bool_decide (q_head (queue h s) ≠ None) = bool_decide (a_q a h ≠ []).
Proof. intros H. apply bool_decide_ext. by rewrite (sim_head _ _ _ h H). Qed.

Lemma sim_mode_loop fuel : forall s a (Q : unit -> srv -> Prop),
  sim (Some QMode) s a -> quiet cf a -> (forall s', sim (Some QMode) s' (spec_mode cf fuel a) -> Q tt s') ->
  wp (mode_loop cf fuel) s Q.
Proof using stacking.
  induction fuel as [|fuel IH]; intros s a Q Hs Hk HQ; cbn [mode_loop spec_mode] in *; [by apply HQ|].
  wp_steps. rewrite (sim_head_bool _ _ _ _ Hs), (sim_rg _ _ _ Hs) in *.
  destruct (bool_decide (a_q a QMode ≠ [])) eqn:Eq; cbn [andb] in *; [|by apply HQ].
  apply bool_decide_eq_true in Eq. destruct (_ && _); [|by apply HQ].
  wp_step. eapply sim_deq_kick; [exact Hs|done|done|]. wp_steps.
  rewrite bool_decide_false by by rewrite (sim_head _ _ _ _ Hs).
  wp_step. eapply sim_fast_deq; [exact Hs|done|]. wp_steps. eapply sim_send; [exact Hs|by right|done|]. intros s1 H1. cbn beta zeta in HQ.
  wp_steps. eapply (sim_upd _ _ _ _ _ H1). intros s2 H2. eapply IH; [exact H2|by apply quiet_send|done].
Qed.

Lemma sim_send_one h s a (Q : unit -> srv -> Prop) :
  sim None s a -> quiet cf a -> a_q a h ≠ [] -> (forall s', sim None s' (spec_send cf h a) -> Q tt s') ->
  wp (send_one cf h) s Q.
Proof using stacking.
  intros Hs Hk Hne HQ. unfold send_one. wp_step. eapply sim_deq_kick; [exact Hs|done|done|]. wp_step. eapply sim_fast_deq; [exact Hs|done|].
  wp_step. eapply sim_send; [exact Hs|by left|done|]. intros s1 H1. by eapply sim_fix_last.
Qed.

(** The clock and the bucket are what the limiter needs. *)
Definition regs_ok (r : regs) : Prop := bucket_ok (outgoing_rl r) /\ 0 <= usec r < 2 ^ 54.

Lemma sim_rate_check s a (Q : bool -> srv -> Prop) :
  sim None s a -> regs_ok (a_rg a) ->
  (let '(b, rl) := bucket_take (outgoing_rl (a_rg a)) (usec (a_rg a)) in
   forall s', sim None s' (set_a_rg (set_rl rl (a_rg a)) a) -> Q b s') ->
  wp rate_check s Q.
Proof.
  intros Hs [Hb Hu] HQ. unfold wp, rate_check. rewrite (sim_rg _ _ _ Hs), check_take by done.
  destruct (bucket_take _ _) as [b rl]. apply HQ. destruct Hs as (L & R & E & Hq). exists L.
  split_and!; [by apply rep_rg|done|done].
Qed.

Lemma sim_deq s a (Q : unit -> srv -> Prop) :
  sim None s a -> quiet cf a -> regs_ok (a_rg a) -> (forall s', sim None s' (spec_deq cf a) -> Q tt s') ->
  wp (deq_msg cf) s Q.
Proof using stacking.
  intros Hs Hk Hok HQ. unfold deq_msg, spec_deq in *. wp_steps. cbv zeta in HQ.
  rewrite (sim_rg _ _ _ Hs).
  pose proof (sim_set_rg _ _ _ (tick cf (a_rg a)) Hs) as H1.
  revert H1. generalize (set_rg (tick cf (a_rg a)) s). intros s1 H1.
  assert (Hserv : serv (tick cf (a_rg a)) = serv (a_rg a)) by (unfold tick; by destruct (is_due cf (a_rg a))).
  assert (Hok1 : regs_ok (a_rg (set_a_rg (tick cf (a_rg a)) a))).
  { unfold tick, regs_ok in *. by destruct (is_due cf (a_rg a)). }
  rewrite <- Hserv. cbn [set_a_rg a_rg] in HQ. destruct (serv _ <? 0); [by apply HQ|].
  wp_step. eapply (sim_rate_check _ _ _ H1 Hok1). cbn [set_a_rg a_rg] in *.
  destruct (bucket_take _ _) as [pass rl]. intros s2 H2. destruct pass; cbn [negb] in *; [|by apply HQ].
  wp_steps. pose proof (sim_head _ _ _ QMode H2) as Hh. cbn [set_a_rg a_q] in *.
  destruct (q_head (queue QMode s2)) eqn:Eh.
  - rewrite bool_decide_true in HQ by (intros E%Hh; done). wp_steps. rewrite (sim_rg _ _ _ H2).
    eapply sim_mode_loop; [apply sim_weaken, H2|exact Hk|]. intros s3 H3. by eapply sim_fix_last.
  - rewrite bool_decide_false in HQ by (intros Hn; by apply Hn, Hh). wp_steps. rewrite (sim_rg _ _ _ H2).
    destruct (1 <? _); [by apply HQ|]. wp_steps.
    pose proof (sim_head _ _ _ QServer H2) as Hh2. pose proof (sim_head _ _ _ QHelp H2) as Hh3.
    cbn [set_a_rg a_q a_rg] in *. destruct (q_head (queue QServer s2)) eqn:Eh2.
    + rewrite bool_decide_true in HQ by (intros E%Hh2; done). wp_step.
      eapply (sim_upd _ _ _ incr _ H2). intros s3 H3. eapply sim_send_one; [exact H3|exact Hk|by intros E%Hh2|exact HQ].
    + rewrite bool_decide_false in HQ by (intros Hn; by apply Hn, Hh2). wp_steps.
      destruct (burst _ =? 0); cbn [negb orb andb] in *; [|rewrite orb_true_r; by apply HQ].
      destruct (is_due cf (a_rg a)); cbn [negb] in *; [|rewrite !orb_true_r; by apply HQ].
      rewrite !orb_false_r. destruct (bool_decide (q_head (queue QHelp s2) = None)) eqn:E3.
      * apply bool_decide_eq_true, Hh3 in E3. apply HQ. unfold spec_send. cbn [a_q set_a_rg]. by rewrite E3.
      * apply bool_decide_eq_false in E3. eapply sim_send_one; [exact H2|exact Hk|by rewrite <- Hh3|exact HQ].
Qed.
End Refine.

(** *** What the sends leave alone *)

(** The connection, the clocks and the bucket. *)
Definition same_env (r r' : regs) : Prop :=
  serv r' = serv r /\ now r' = now r /\ usec r' = usec r /\ outgoing_rl r' = outgoing_rl r.

Lemma same_env_trans r1 r2 r3 : same_env r1 r2 -> same_env r2 r3 -> same_env r1 r3.
Proof. unfold same_env. intuition congruence. Qed.

Lemma charge_env cf t r : same_env r (charge_rg cf t r) /\ burst (charge_rg cf t r) = burst r /\
  sent (charge_rg cf t r) = sent r.
Proof. unfold charge_rg. by destruct (calc_penalty cf t). Qed.

Lemma spec_send_env cf h a : same_env (a_rg a) (a_rg (spec_send cf h a)) /\
  burst (a_rg (spec_send cf h a)) = burst (a_rg a).
Proof.
  unfold spec_send. destruct (a_q a h); [done|]. cbn [a_rg].
  destruct (charge_env cf l (add_sent l (a_rg a))) as (? & -> & _). done.
Qed.

Lemma spec_mode_env cf fuel a : same_env (a_rg a) (a_rg (spec_mode cf fuel a)).
Proof.
  revert a. induction fuel as [|fuel IH]; intros a; cbn [spec_mode]; [done|].
  case_if; [|done]. eapply same_env_trans; [apply (spec_send_env cf QMode a)|].
  eapply same_env_trans; [|apply IH]. done.
Qed.

Lemma regs_ok_env r r' : same_env r r' -> regs_ok r -> regs_ok r'.
Proof. unfold same_env, regs_ok. intros (_ & _ & -> & ->). done. Qed.

Lemma tick_env cf r : same_env r (tick cf r).
Proof. unfold tick. by case_if. Qed.

Lemma spec_deq_ok cf a : regs_ok (a_rg a) -> regs_ok (a_rg (spec_deq cf a)).
Proof.
  intros Hok. unfold spec_deq. cbv zeta. cbn [set_a_rg a_rg].
  pose proof (regs_ok_env _ _ (tick_env cf (a_rg a)) Hok) as H1. revert H1.
  generalize (tick cf (a_rg a)). intros r H1. case_if; [done|].
  destruct (bucket_take (outgoing_rl r) (usec r)) as [pass rl] eqn:Eb.
  assert (H2 : regs_ok (set_rl rl r)).
  { destruct H1 as [H1 H2]. split; [|done]. replace rl with (bucket_take (outgoing_rl r) (usec r)).2 by by rewrite Eb.
    by apply bucket_take_ok. }
  repeat case_if; try done; cbn [set_a_rg a_rg].
  - eapply regs_ok_env; [apply spec_mode_env|done].
  - eapply regs_ok_env; [apply spec_send_env|done].
  - eapply regs_ok_env; [apply spec_send_env|done].
Qed.

Lemma spec_queue_ok cf which msg a : regs_ok (a_rg a) -> regs_ok (a_rg (spec_queue cf which msg a)).
Proof.
  intros Hok. unfold spec_queue. cbv zeta. case_if; [done|]. case_if; [by destruct (mem _ _)|].
  destruct (which_queue cf which) as [[[h qnext] double]|]; [|done].
  repeat case_if; try done; unfold id; try apply spec_deq_ok; done.
Qed.

(** What a client may do: the clock is a clock. *)
Definition op_ok (o : op) : Prop := match o with OpClock _ u => 0 <= u < 2 ^ 54 | _ => True end.

Lemma spec_op_ok cf o a : op_ok o -> regs_ok (a_rg a) -> regs_ok (a_rg (spec_op cf o a)).
Proof.
  destruct o; cbn [spec_op op_ok]; intros Ho Hok; try done.
  - by apply spec_queue_ok.
  - by apply spec_deq_ok.
  - destruct Hok. by split.
Qed.

(** *** Every operation refines its specification *)

Lemma quiet_mode cf fuel a : quiet cf a -> quiet cf (spec_mode cf fuel a).
Proof.
  revert a. induction fuel as [|fuel IH]; intros a Hk; cbn [spec_mode]; [done|]. destruct (_ && _); [|done].
  apply IH. by apply (quiet_send cf QMode).
Qed.

Lemma quiet_deq cf a : quiet cf a -> quiet cf (spec_deq cf a).
Proof.
  intros Hk. unfold spec_deq. cbv zeta. destruct (serv _ <? 0); [done|]. destruct (bucket_take _ _) as [pass rl].
  destruct pass; cbn [negb]; [|done]. repeat case_match; try done; by first [apply quiet_mode|apply (quiet_send cf)].
Qed.

(** The lines that are queued are no kicks, if kicks are merged. *)
Definition op_quiet (cf : conf) (o : op) : Prop :=
  match o with OpQueue _ msg => optimize_kicks cf = 0 \/ no_kick (remove_crlf msg) | _ => True end.

Lemma quiet_insert cf (qnext : bool) h buf a r : quiet cf a -> optimize_kicks cf = 0 \/ no_kick buf ->
  quiet cf (set_a_q h (if qnext then buf :: a_q a h else a_q a h ++ [buf]) (set_a_rg r a)).
Proof.
  intros [?|Hk] Hb; [by left|]. destruct Hb as [?|Hb]; [by left|]. right. intros h'. cbn [set_a_q set_a_rg a_q].
  destruct (decide (h = h')) as [<-|Hne]; [|by rewrite fn_lookup_insert_ne]. rewrite fn_lookup_insert.
  destruct qnext; [by constructor|]. apply Forall_app. split; [done|by constructor].
Qed.

Lemma quiet_queue cf which msg a : quiet cf a -> optimize_kicks cf = 0 \/ no_kick (remove_crlf msg) -> quiet cf (spec_queue cf which msg a).
Proof.
  intros Hk Hb. unfold spec_queue. cbv zeta. assert (Hd : forall b a', quiet cf a' -> quiet cf ((if b : bool then spec_deq cf else id) a')).
  { intros [] a' H; [by apply quiet_deq|done]. }
  destruct (serv _ <? 0); [done|]. destruct (unqueued _); [done|]. destruct (which_queue cf which) as [[[h qnext] double]|]; [|done].
  destruct (_ <? maxqmsg cf); [|by apply Hd]. destruct (negb double && _); [done|]. destruct (tcl_out _ _ _); [done|]. by apply Hd, quiet_insert.
Qed.

Lemma quiet_op cf o a : quiet cf a -> op_quiet cf o -> quiet cf (spec_op cf o a).
Proof.
  intros Hk Ho. destruct o; cbn [spec_op op_quiet] in *; try done.
  - by apply quiet_queue.
  - by apply quiet_deq.
  - destruct Hk as [?|Hk]; [by left|right]. intros h'. unfold spec_clear. cbn [set_a_q a_q].
    destruct (decide (h = h')) as [<-|Hne]; [by rewrite fn_lookup_insert|by rewrite fn_lookup_insert_ne].
  - destruct Hk as [?|Hk]; [by left|right]. intros h'. by destruct h'.
Qed.

Section Refine2.
Context {bad : Allowed} (cf : conf).
Hypothesis stacking : use_fastdeq cf ≠ 0 -> allowed BadFree.

Lemma sim_insert h (qnext : bool) buf s a (Q : unit -> srv -> Prop) :
  sim None s a ->
  (forall s', sim None s' (set_a_q h (if qnext then buf :: a_q a h else a_q a h ++ [buf])
                             (set_a_rg (set_double_warned false (a_rg a)) a)) -> Q tt s') ->
  wp (insert_msg h qnext buf) s Q.
Proof.
  intros (L & R & E & Hq) HQ. eapply wp_insert_msg; [exact R|]. intros s' q R' E'. apply HQ.
  unfold set_a_q, set_a_rg. cbn [a_rg a_q].
  replace (if qnext then buf :: a_q a h else a_q a h ++ [buf]) with ((put_in qnext q buf (L h)).*2).
  - eapply sim_intro; [exact R'|by rewrite E', E|exact Hq].
  - rewrite (Hq h). unfold texts. destruct qnext; cbn [put_in]; [done|]. by rewrite fmap_app.
Qed.

Lemma sim_queued h s a buf (Q : bool -> srv -> Prop) :
  sim None s a -> Q (existsb (fun t => same_name t buf) (a_q a h)) s ->
  wp (queued (S (size (nodes s))) (q_head (queue h s)) buf) s Q.
Proof.
  intros (L & R & E & Hq) HQ. eapply wp_queued; [apply (rep_seg _ _ _ R)| |].
  - apply Nat.lt_succ_r. by eapply rep_size.
  - by rewrite (Hq h) in HQ.
Qed.

Lemma sim_warned h s a b (Q : unit -> srv -> Prop) :
  sim None s a -> (forall s', sim None s' a -> Q tt s') -> wp (put_queue h (set_warned (queue h s) b)) s Q.
Proof.
  intros (L & R & E & Hq) HQ. wp_step. apply HQ. exists L. split; [|done].
  split; try apply R; intros h'; destruct (decide (h' = h)) as [->|Hne]; autorewrite with srv; apply R.
Qed.

Lemma sim_queue which msg s a (Q : unit -> srv -> Prop) :
  sim None s a -> quiet cf a -> optimize_kicks cf = 0 \/ no_kick (remove_crlf msg) -> regs_ok (a_rg a) ->
  (forall s', sim None s' (spec_queue cf which msg a) -> Q tt s') ->
  wp (queue_server cf which msg) s Q.
Proof using stacking.
  intros Hs Hk Hb Hok HQ. unfold queue_server, spec_queue in *. wp_steps. cbv zeta in *.
  rewrite (sim_rg _ _ _ Hs). destruct (serv _ <? 0); [by apply HQ|].
  destruct (unqueued _).
  - wp_step. destruct (mem _ _).
    + eapply (sim_upd _ _ _ (set_lastping (now (a_rg a))) _ Hs). intros s1 H1.
      by eapply (sim_upd _ _ _ (add_sent (remove_crlf msg)) _ H1).
    + wp_steps. eapply (sim_upd _ _ _ (add_sent (remove_crlf msg)) _ Hs). done.
  - destruct (which_queue cf which) as [[[h qnext] double]|]; [|by apply HQ]. wp_steps.
    assert (Htot : q_tot (queue h s) = Z.of_nat (length (a_q a h))).
    { destruct Hs as (L & R & _ & Hq). rewrite (Hq h), (rep_tot _ _ _ R h). unfold texts. by rewrite length_fmap. }
    rewrite Htot.
    assert (Hafter : forall s' a' (Q' : unit -> srv -> Prop), sim None s' a' -> quiet cf a' -> regs_ok (a_rg a') ->
      (forall s'', sim None s'' ((if (which =? DP_MODE) || (which =? DP_MODE_NEXT) then spec_deq cf else id) a') ->
         Q' tt s'') ->
      wp (if (which =? DP_MODE) || (which =? DP_MODE_NEXT) then deq_msg cf else mret tt) s' Q').
    { intros s' a' Q' Hs' Hk' Ha' HQ'. destruct (_ || _); [by eapply sim_deq|]. wp_step. by apply HQ'. }
    destruct (_ <? maxqmsg cf).
    + wp_steps. destruct double; cbn [negb andb] in *.
      * wp_step. destruct (tcl_out _ _ _); [by apply HQ|]. wp_step.
        eapply sim_insert; [exact Hs|]. intros s1 H1. eapply Hafter; [exact H1|by apply quiet_insert|done|done].
      * eapply sim_queued; [exact Hs|]. destruct (existsb _ _).
        { eapply (sim_upd _ _ _ (set_double_warned true) _ Hs). done. }
        destruct (tcl_out _ _ _); [by apply HQ|]. wp_step.
        eapply sim_insert; [exact Hs|]. intros s1 H1. eapply Hafter; [exact H1|by apply quiet_insert|done|done].
    + wp_step. eapply sim_warned; [exact Hs|]. intros s1 H1. by eapply Hafter.
Qed.

Lemma sim_clear h s a (Q : unit -> srv -> Prop) :
  sim None s a -> (forall s', sim None s' (spec_clear h a) -> Q tt s') -> wp (msgq_clear h) s Q.
Proof.
  intros (L & R & E & Hq) HQ. eapply wp_msgq_clear; [exact R|]. intros s' R' E'. apply HQ.
  eapply (sim_intro _ _ _ _ _ []); [exact R'|by rewrite E', E|exact Hq].
Qed.

Lemma sim_op o s a (Q : unit -> srv -> Prop) :
  sim None s a -> quiet cf a -> op_quiet cf o -> regs_ok (a_rg a) -> (forall s', sim None s' (spec_op cf o a) -> Q tt s') ->
  wp (do_op cf o) s Q.
Proof using stacking.
  intros Hs Hk Ho Hok HQ. destruct o; cbn [do_op spec_op] in *.
  - by eapply sim_queue.
  - by eapply sim_deq.
  - by eapply sim_clear.
  - unfold empty_msgq. wp_step. eapply sim_clear; [exact Hs|]. intros s1 H1. wp_step.
    eapply sim_clear; [exact H1|]. intros s2 H2. wp_step. eapply sim_clear; [exact H2|]. intros s3 H3.
    by eapply (sim_upd _ _ _ (set_burst 0) _ H3).
  - by eapply (sim_upd _ _ _ (set_serv sock) _ Hs).
  - by eapply (sim_upd _ _ _ (set_clock t u) _ Hs).
Qed.

Lemma sim_run os : forall s a, sim None s a -> quiet cf a -> Forall (op_quiet cf) os -> regs_ok (a_rg a) -> Forall op_ok os ->
  wp (run cf os) s (fun _ s' => sim None s' (spec_run cf os a) /\ regs_ok (a_rg (spec_run cf os a))).
Proof using stacking.
  induction os as [|o os IH]; intros s a Hs Hk Hqs Hok Hos; cbn [run]; [done|].
  inversion Hos; subst. inversion Hqs; subst. wp_step. eapply sim_op; [exact Hs|exact Hk|done|exact Hok|]. intros s1 Hs1.
  apply IH; [done|by apply quiet_op|done|by apply spec_op_ok|done].
Qed.

End Refine2.
