(* ===== verification/MsgQueueProps.v ===== *)
(** * What the message queues promise

    Theorems on [queue_server] and [deq_msg]: the refinement of the lists of
    [MsgQueueSpec], the order in which lines are sent, the length of the queues, the
    number of lines sent in a time, that every line is sent in the end; and what goes
    wrong when kicks are merged or commands are stacked. *)

From S2P Require Import Prelude LibC RegexMatch Wildcard Match Ratelimit MsgQueue MsgQueueSpec.
From stdpp Require Import list gmap functions.
#[local] Open Scope Z_scope.

(** ** The lines of a queue, read from the nodes *)

Fixpoint chain (fuel : nat) (m : gmap loc msgq) (p : option loc) : list (list Z) :=
  match fuel, p with
  | S fuel, Some l => match m !! l with Some n => m_msg n :: chain fuel m (m_next n) | None => [] end
  | _, _ => []
  end.
Definition contents (s : srv) (h : qsel) : list (list Z) :=
  chain (size (nodes s)) (nodes s) (q_head (queue h s)).
Definition view (s : srv) : aspec := {| a_rg := rg s; a_q := contents s |}.

(** Three disjoint lists with their [last] pointers and counters. *)
Definition wf (s : srv) : Prop := exists L, rep None s L.

Lemma chain_lseg m ls : forall fuel p, lseg m p ls -> (length ls <= fuel)%nat -> chain fuel m p = ls.*2.
Proof.
  induction ls as [|[l t] ls IH]; intros [|fuel] p; cbn [length]; try lia.
  - done.
  - by intros -> _.
  - intros [-> (nx & Hl & Hs)] Hf. cbn. rewrite Hl. cbn. f_equal. apply IH; [done|lia].
Qed.

Lemma contents_texts s L h : rep None s L -> contents s h = texts L h.
Proof.
  intros R. apply chain_lseg; [apply (rep_seg _ _ _ R)|by eapply rep_size].
Qed.

Lemma sim_view s : wf s -> sim None s (view s).
Proof. intros [L R]. exists L. split_and!; [done|done|]. intros h. by apply contents_texts. Qed.

Lemma sim_wf s a : sim None s a -> wf s /\ rg s = a_rg a /\ forall h, contents s h = a_q a h.
Proof.
  intros (L & R & E & Hq). split_and!; [by exists L|done|]. intros h. by rewrite Hq, (contents_texts s L h R).
Qed.

(** The module before its first line. *)
Definition no_msgs : msgq_head := {| q_head := None; q_last := None; q_tot := 0; q_warned := false |}.
Definition start (r : regs) : srv :=
  {| rg := r; modeq := no_msgs; mq := no_msgs; hq := no_msgs; nodes := ∅; fresh_loc := 1%positive |}.

Lemma start_wf r : wf (start r).
Proof.
  exists (fun _ => []).
  split; [by intros []|intros []; by right|by intros []|intros h; constructor| |].
  - intros h h' l H. by apply elem_of_nil in H.
  - intros l [n H]. cbn [nodes start] in H. by rewrite lookup_empty in H.
Qed.

(** A run refines the lists, or stacking has given a node to the wrong allocator. *)
Lemma run_spec cf os s : quiet cf (view s) -> Forall (op_quiet cf) os -> wf s -> regs_ok (rg s) -> Forall op_ok os ->
  (use_fastdeq cf ≠ 0 /\ run cf os s = Err BadFree) \/
  exists s', run cf os s = Ok (tt, s') /\ wf s' /\ regs_ok (rg s') /\
    rg s' = a_rg (spec_run cf os (view s)) /\ forall h, contents s' h = a_q (spec_run cf os (view s)) h.
Proof.
  intros Hk Hqs Hwf Hok Hos. set (bad := (fun e => e = BadFree /\ use_fastdeq cf ≠ 0) : Allowed).
  pose proof (sim_run (bad := bad) cf (fun H => conj eq_refl H) os s (view s) (sim_view s Hwf) Hk Hqs Hok Hos) as H. unfold wp in H.
  destruct (run cf os s) as [[[] s']|e]; [|left; by destruct H as [-> ?]]. right. destruct H as [H Hok']. exists s'. split; [done|].
  apply sim_wf in H as (Hw & E & Hc). split_and!; [done| |done|done]. by rewrite E.
Qed.

(** Kicks are not merged and commands are not stacked. *)
Definition plain (cf : conf) : Prop := optimize_kicks cf = 0 /\ use_fastdeq cf = 0.

Lemma plain_quiet cf a os : plain cf -> quiet cf a /\ Forall (op_quiet cf) os.
Proof. intros [H _]. split; [by left|]. apply List.Forall_forall. intros [which msg| | | | |] _; cbn; auto. Qed.

Lemma run_plain cf os s : plain cf -> wf s -> regs_ok (rg s) -> Forall op_ok os ->
  exists s', run cf os s = Ok (tt, s') /\ wf s' /\ regs_ok (rg s') /\
    rg s' = a_rg (spec_run cf os (view s)) /\ forall h, contents s' h = a_q (spec_run cf os (view s)) h.
Proof.
  intros Hp Hwf Hok Hos. destruct (plain_quiet cf (view s) os Hp) as [Hk Hqs]. destruct (run_spec cf os s Hk Hqs Hwf Hok Hos) as [[H _]|H]; [|done].
  by destruct Hp.
Qed.

(** ** Sending on the lists *)

Section Sending.
Context (cf : conf).

(** Sending [k] lines of one queue. *)
Definition takes (h : qsel) (k : nat) (a a' : aspec) : Prop :=
  sent (a_rg a') = sent (a_rg a) ++ take k (a_q a h) /\
  a_q a' h = drop k (a_q a h) /\ (forall h', h' ≠ h -> a_q a' h' = a_q a h').

Lemma takes_0 h a a' :
  sent (a_rg a') = sent (a_rg a) -> (forall h, a_q a' h = a_q a h) -> takes h 0 a a'.
Proof. intros E Hq. split_and!; [by rewrite E, take_0, app_nil_r|by rewrite drop_0|auto]. Qed.

Lemma takes_trans h j k a b c : (j <= length (a_q a h))%nat ->
  takes h j a b -> takes h k b c -> takes h (j + k) a c.
Proof.
  intros Hj (E1 & Q1 & O1) (E2 & Q2 & O2). split_and!.
  - rewrite E2, E1, Q1, <- app_assoc. f_equal. apply take_take_drop.
  - by rewrite Q2, Q1, drop_drop.
  - intros h' Hne. by rewrite O2, O1.
Qed.

Lemma spec_send_takes h a : a_q a h ≠ [] -> takes h 1 a (spec_send cf h a).
Proof.
  unfold spec_send. destruct (a_q a h) as [|t ts] eqn:E; [done|]. intros _. unfold takes. rewrite E. cbn [a_rg a_q].
  split_and!.
  - destruct (charge_env cf t (add_sent t (a_rg a))) as (_ & _ & ->). done.
  - by rewrite fn_lookup_insert.
  - intros h' Hne. by apply fn_lookup_insert_ne.
Qed.

Lemma spec_mode_takes fuel : forall a, exists k,
  takes QMode k a (spec_mode cf fuel a) /\ (k <= fuel)%nat /\ (k <= length (a_q a QMode))%nat /\
  burst (a_rg (spec_mode cf fuel a)) = burst (a_rg a) + Z.of_nat k /\
  (fuel = 0%nat \/ 4 <= burst (a_rg a) \/ MAXPENALTY <= last_time (a_rg a) - now (a_rg a) \/
   a_q a QMode = [] \/ (0 < k)%nat).
Proof.
  induction fuel as [|fuel IH]; intros a; cbn [spec_mode].
  { exists 0%nat. split_and!; [by apply takes_0|lia|lia|lia|by left]. }
  destruct (bool_decide (a_q a QMode ≠ [])) eqn:Eq; cbn [andb].
  2: { exists 0%nat. apply bool_decide_eq_false in Eq. split_and!; [by apply takes_0|lia|lia|lia|].
       right; right; right; left. destruct (a_q a QMode); [done|]. exfalso. by apply Eq. }
  apply bool_decide_eq_true in Eq.
  destruct (Z.ltb_spec (burst (a_rg a)) 4); cbn [andb].
  2: { exists 0%nat. split_and!; [by apply takes_0|lia|lia|lia|]. right; left. lia. }
  destruct (Z.ltb_spec (last_time (a_rg a) - now (a_rg a)) MAXPENALTY).
  2: { exists 0%nat. split_and!; [by apply takes_0|lia|lia|lia|]. right; right; left. lia. }
  cbn zeta. set (a1 := spec_send cf QMode a).
  destruct (IH (set_a_rg (incr (a_rg a1)) a1)) as (k & Ht & Hk & Hl & Hb & _).
  pose proof (spec_send_takes QMode a Eq) as H1.
  assert (Hlen : (0 < length (a_q a QMode))%nat) by (destruct (a_q a QMode); [done|simpl; lia]).
  exists (S k). split_and!.
  - apply (takes_trans QMode 1 k a a1); [lia|done|exact Ht].
  - lia.
  - destruct H1 as (_ & E & _). cbn in Hl. unfold a1 in Hl. rewrite E, length_drop in Hl. lia.
  - rewrite Hb. unfold a1, incr. cbn. rewrite (proj2 (spec_send_env cf QMode a)). lia.
  - right; right; right; right. lia.
Qed.

(** The queue that is served. *)
Definition first_queue (a : aspec) : qsel :=
  if bool_decide (a_q a QMode ≠ []) then QMode
  else if bool_decide (a_q a QServer ≠ []) then QServer else QHelp.

(** [burst] after the time of the last line was looked at. *)
Definition burst1 (r : regs) : Z := burst (tick cf r).

Lemma spec_deq_takes a : 0 <= burst (a_rg a) -> exists k,
  takes (first_queue a) k a (spec_deq cf a) /\
  (Z.of_nat k <= if decide (first_queue a = QMode) then Z.max 0 (4 - burst1 (a_rg a)) else 1) /\
  burst (a_rg (spec_deq cf a)) =
    burst1 (a_rg a) + (if decide (first_queue a = QHelp) then 0 else Z.of_nat k) /\
  (k = 0%nat \/ first_queue a ≠ QHelp \/ is_due cf (a_rg a) = true) /\ (k <= length (a_q a (first_queue a)))%nat /\
  (k = 0%nat \/ first_queue a = QMode \/ burst1 (a_rg a) <= 1).
Proof.
  intros Hb. unfold spec_deq. cbv zeta. cbn [set_a_rg a_rg a_q].
  assert (Hsent : sent (tick cf (a_rg a)) = sent (a_rg a)) by (unfold tick; by case_if).
  assert (H0 : forall r, sent r = sent (a_rg a) -> burst r = burst1 (a_rg a) -> exists k,
    takes (first_queue a) k a (set_a_rg r a) /\
    (Z.of_nat k <= if decide (first_queue a = QMode) then Z.max 0 (4 - burst1 (a_rg a)) else 1) /\
    burst r = burst1 (a_rg a) + (if decide (first_queue a = QHelp) then 0 else Z.of_nat k) /\
    (k = 0%nat \/ first_queue a ≠ QHelp \/ is_due cf (a_rg a) = true) /\
    (k <= length (a_q a (first_queue a)))%nat /\
    (k = 0%nat \/ first_queue a = QMode \/ burst1 (a_rg a) <= 1)).
  { intros r E1 E2. exists 0%nat. split_and!; [by apply takes_0| | |by left|lia|by left]; case_decide; lia. }
  case_if; [by apply H0|]. destruct (bucket_take _ _) as [pass rl]. cbn [set_a_rg a_rg].
  set (r := set_rl rl (tick cf (a_rg a))). change (set_a_rg r (set_a_rg _ a)) with (set_a_rg r a).
  assert (Er : burst r = burst1 (a_rg a)) by done. assert (Es : sent r = sent (a_rg a)) by done.
  clearbody r. destruct pass; cbn [negb]; [|by apply H0]. unfold first_queue in *.
  destruct (bool_decide (a_q a QMode ≠ [])) eqn:EM.
  { destruct (spec_mode_takes (Z.to_nat (4 - burst r)) (set_a_rg r a)) as (k & Ht & Hk & Hl & Hbk & _).
    exists k. rewrite decide_True, decide_False by done.
    destruct Ht as (T1 & T2 & T3). cbn [a_rg a_q set_a_rg] in *.
    unfold takes. split_and!; [by rewrite <- Es|done|done|lia|lia|by right; left|done|by right; left]. }
  destruct (Z.ltb_spec 1 (burst r)); [by apply H0|]. destruct (bool_decide (a_q a QServer ≠ [])) eqn:ES.
  { exists 1%nat. rewrite !decide_False by done. apply bool_decide_eq_true in ES.
    change (set_a_rg (incr r) (set_a_rg r a)) with (set_a_rg (incr r) a).
    pose proof (spec_send_takes QServer (set_a_rg (incr r) a) ES) as (T1 & T2 & T3).
    rewrite (proj2 (spec_send_env cf QServer _)). unfold takes. cbn [a_rg a_q set_a_rg] in *.
    split_and!; [by rewrite T1; cbn; rewrite Es|done|done|lia|cbn; lia|by right; left| |right; right; lia].
    destruct (a_q a QServer); [done|simpl; lia]. }
  destruct ((burst r =? 0) && is_due cf (a_rg a)) eqn:E2; [|by apply H0].
  apply andb_prop in E2 as [E2 E3]. destruct (decide (a_q a QHelp = [])) as [EH|EH].
  { replace (spec_send cf QHelp (set_a_rg r a)) with (set_a_rg r a) by (unfold spec_send; cbn; by rewrite EH).
    by apply H0. }
  exists 1%nat. rewrite decide_False, decide_True by done.
  pose proof (spec_send_takes QHelp (set_a_rg r a) EH) as (T1 & T2 & T3).
  rewrite (proj2 (spec_send_env cf QHelp _)). unfold takes. cbn [a_rg a_q set_a_rg] in *.
  split_and!; [by rewrite T1; cbn; rewrite Es|done|done|lia|cbn; lia|by right; right| |right; right; lia].
  destruct (a_q a QHelp); [done|simpl; lia].
Qed.
End Sending.

(** ** The theorems *)

(** C3. The pointer queues refine three lists.  Whatever sequence of lines queued, ticks,
    clears, clock changes and (dis)connections a client makes, the program never touches a
    freed node, never runs out of its bound on walks, keeps its [last] pointers and
    counters right, and does to the variables and the lines of the queues exactly what the
    list specification does.  Two optimisations are apart.  When kicks are merged
    ([optimize-kicks] is not 0) this is for queues and lines without kicks, since merging leaves a [last]
    pointer to a freed node ([kick_merge_dangles]).  When commands are stacked ([use-fastdeq] is
    not 0, as it is on several networks) the run either is as said or stops with a node
    given to the wrong allocator, when two lines are stacked ([fast_deq_frees_slab]).  The clocks are below 2^54. *)
Theorem msgq_refinement cf os s :
  quiet cf (view s) -> Forall (op_quiet cf) os -> wf s -> regs_ok (rg s) -> Forall op_ok os ->
  (use_fastdeq cf ≠ 0 /\ run cf os s = Err BadFree) \/
  exists s', run cf os s = Ok (tt, s') /\ wf s' /\
    rg s' = a_rg (spec_run cf os (view s)) /\ forall h, contents s' h = a_q (spec_run cf os (view s)) h.
Proof.
  intros Hk Hqs Hw Hok Hos. destruct (run_spec cf os s Hk Hqs Hw Hok Hos) as [?|(s' & E & Hw' & _ & Er & Ec)]; [by left|right]. by exists s'.
Qed.

(** Sample settings: the defaults of the module. *)
Definition default_conf : conf := {|
  maxqmsg := 300; msgrate := 2; double_mode := false; double_server := false; double_help := false;
  use_penalties := false; net_type_int := NETT_EFNET; use_fastdeq := 0; stackablecmds := [];
  stackable2cmds := bs "USERHOST ISON"; stack_limit := 4; optimize_kicks := 0; kick_method := 1;
  tcl_out := fun _ _ => false; on_chan := fun _ _ => true; lhs_first := false |}.
Definition online : regs := {|
  serv := 3; now := 100; usec := 5000000; last_time := 0; burst := 0;
  outgoing_rl := op_ratelimit_init 10 5 4000000; lastpingtime := 0; double_warned := false; sent := [] |}.

Lemma online_ok : regs_ok online.
Proof. split; vm_compute; intuition discriminate. Qed.

(** Kicks are merged and commands are stacked. *)
Definition busy_conf : conf := {|
  maxqmsg := 300; msgrate := 2; double_mode := false; double_server := false; double_help := false;
  use_penalties := false; net_type_int := NETT_DALNET; use_fastdeq := 2; stackablecmds := bs "PRIVMSG NOTICE";
  stackable2cmds := bs "USERHOST ISON"; stack_limit := 4; optimize_kicks := 1; kick_method := 4;
  tcl_out := fun _ _ => false; on_chan := fun _ _ => true; lhs_first := false |}.
Definition some_lines : list op :=
  [OpQueue DP_SERVER (bs "PRIVMSG a :x"); OpQueue DP_SERVER (bs "JOIN #a"); OpQueue DP_MODE (bs "MODE #a +o b"); OpClock 101 6000000; OpDeq;
   OpClock 103 9000000; OpDeq].

Lemma msgq_refinement_witness :
  exists s', run busy_conf some_lines (start online) = Ok (tt, s') /\ wf s' /\
    rg s' = a_rg (spec_run busy_conf some_lines (view (start online))) /\
    forall h, contents s' h = a_q (spec_run busy_conf some_lines (view (start online))) h.
Proof.
  destruct (msgq_refinement busy_conf some_lines (start online)) as [[_ E]|H]; [right; intros []; constructor| | | | |vm_compute in E; discriminate E|exact H].
  - repeat constructor; right; vm_compute; reflexivity.
  - apply start_wf.
  - apply online_ok.
  - by repeat constructor.
Defined.

Lemma deq_view cf s : plain cf -> wf s -> regs_ok (rg s) ->
  exists s', deq_msg cf s = Ok (tt, s') /\ wf s' /\ rg s' = a_rg (spec_deq cf (view s)) /\
    forall h, contents s' h = a_q (spec_deq cf (view s)) h.
Proof.
  intros Hp Hw Hok. destruct (run_plain cf [OpDeq] s Hp Hw Hok) as (s' & E & Hw' & _ & Er & Ec); [by repeat constructor|].
  exists s'. split; [|done]. revert E. cbn [run do_op]. unfold mbind, M_bind.
  destruct (deq_msg cf s) as [[[] s1]|e]; [|done]. intros [= ->]. done.
Qed.

(** What one tick sends: a run of lines from the front of one queue, in their order,
    and that queue is the mode queue as long as it has lines, then the server queue, and
    the help queue only when both are empty; at most four lines of the mode queue and one
    of the others; all that is not sent stays as it was. *)
Theorem deq_msg_order cf s :
  plain cf -> wf s -> regs_ok (rg s) -> 0 <= burst (rg s) ->
  exists s' k, deq_msg cf s = Ok (tt, s') /\ wf s' /\
    let h := first_queue (view s) in
    sent (rg s') = sent (rg s) ++ take k (contents s h) /\
    contents s' h = drop k (contents s h) /\
    (forall h', h' ≠ h -> contents s' h' = contents s h') /\
    (k <= if decide (h = QMode) then 4 else 1)%nat.
Proof.
  intros Hp Hw Hok Hb. destruct (deq_view cf s Hp Hw Hok) as (s' & E & Hw' & Er & Ec).
  destruct (spec_deq_takes cf (view s) Hb) as (k & (T1 & T2 & T3) & Hk & _).
  exists s', k. cbv zeta. split_and!; [done|done|by rewrite Er|by rewrite Ec|by intros h' Hne; rewrite Ec; apply T3|].
  assert (0 <= burst1 cf (a_rg (view s))); [|case_decide; lia].
  change (a_rg (view s)) with (rg s). unfold burst1, tick. case_if; [|done]. cbn. case_if; bool_lia.
Qed.

Lemma deq_msg_order_witness :
  exists s' k, deq_msg default_conf (start online) = Ok (tt, s') /\ wf s' /\
    let h := first_queue (view (start online)) in
    sent (rg s') = sent (rg (start online)) ++ take k (contents (start online) h) /\
    contents s' h = drop k (contents (start online) h) /\
    (forall h', h' ≠ h -> contents s' h' = contents (start online) h') /\
    (k <= if decide (h = QMode) then 4 else 1)%nat.
Proof. apply deq_msg_order; [by split|apply start_wf|apply online_ok|done]. Defined.

(** *** The length of the queues *)

Definition short (n : Z) (a : aspec) : Prop :=
  0 <= burst (a_rg a) /\ forall h, Z.of_nat (length (a_q a h)) <= n.

Lemma burst1_nonneg cf r : 0 <= burst r -> 0 <= burst1 cf r.
Proof. unfold burst1, tick. case_if; [|done]. cbn. case_if; bool_lia. Qed.

Lemma short_deq cf n a : short n a -> short n (spec_deq cf a).
Proof.
  intros [Hb Hl]. destruct (spec_deq_takes cf a Hb) as (k & (_ & T2 & T3) & _ & Hb' & _). split.
  - pose proof (burst1_nonneg cf _ Hb). rewrite Hb'. case_decide; lia.
  - intros h. destruct (decide (h = first_queue a)) as [->|Hne]; [rewrite T2, length_drop|rewrite T3 by done];
      [specialize (Hl (first_queue a)); lia|apply Hl].
Qed.

Lemma short_set_q n a h ts r : short n a -> burst r = burst (a_rg a) -> Z.of_nat (length ts) <= n ->
  short n (set_a_q h ts (set_a_rg r a)).
Proof.
  intros [Hb Hl] Hr Hts. split; [cbn; lia|]. intros h'. cbn.
  destruct (decide (h = h')) as [<-|Hne]; [by rewrite fn_lookup_insert|]. by rewrite fn_lookup_insert_ne.
Qed.

Lemma short_op cf n o a : 0 <= n -> maxqmsg cf <= n -> short n a -> short n (spec_op cf o a).
Proof.
  intros Hn Hm Ha. destruct o; cbn [spec_op].
  - unfold spec_queue. cbv zeta. case_if; [done|]. case_if; [destruct (mem _ _); exact Ha|].
    destruct (which_queue cf which) as [[[h qnext] double]|]; [|done].
    assert (Hafter : forall a', short n a' -> short n
      ((if (which =? DP_MODE) || (which =? DP_MODE_NEXT) then spec_deq cf else id) a')).
    { intros a' Ha'. destruct (_ || _); [by apply short_deq|done]. }
    destruct (Z.ltb_spec (Z.of_nat (length (a_q a h))) (maxqmsg cf)); [|by apply Hafter].
    destruct (negb double && _); [exact Ha|]. destruct (tcl_out _ _ _); [done|].
    apply Hafter, short_set_q; [done|done|]. destruct qnext; rewrite ?length_app; cbn; lia.
  - by apply short_deq.
  - by apply (short_set_q _ a h [] (a_rg a)).
  - split; [done|]. intros h. destruct Ha as [_ Ha]. cbn. by destruct h.
  - exact Ha.
  - exact Ha.
Qed.

(** The queues stay bounded: after any sequence of operations from the start, each
    queue holds at most [max-queue-msg] lines, and its counter is the number of lines it
    holds. *)
Theorem queue_length_bound cf os r :
  plain cf -> regs_ok r -> 0 <= burst r -> 0 <= maxqmsg cf -> Forall op_ok os ->
  exists s', run cf os (start r) = Ok (tt, s') /\
    forall h, q_tot (queue h s') = Z.of_nat (length (contents s' h)) /\ q_tot (queue h s') <= maxqmsg cf.
Proof.
  intros Hp Hok Hb Hm Hos.
  destruct (run_plain cf os (start r) Hp (start_wf r) Hok Hos) as (s' & E & [L R] & _ & _ & Ec).
  exists s'. split; [done|]. intros h.
  assert (Ht : q_tot (queue h s') = Z.of_nat (length (contents s' h))).
  { rewrite (rep_tot _ _ _ R h), (contents_texts s' L h R). unfold texts. by rewrite length_fmap. }
  split; [done|]. rewrite Ht, Ec. clear -Hm Hb.
  assert (Hs : short (maxqmsg cf) (view (start r))) by (split; [done|by intros []]).
  revert Hs. generalize (view (start r)) as a. induction os as [|o os IH]; intros a Hs; [apply Hs|].
  apply (IH (spec_op cf o a)). by apply short_op.
Qed.

Lemma queue_length_bound_witness :
  exists s', run default_conf [OpQueue DP_HELP (bs "WHO #a"); OpQueue DP_HELP (bs "WHO #b")] (start online) = Ok (tt, s') /\
    forall h, q_tot (queue h s') = Z.of_nat (length (contents s' h)) /\ q_tot (queue h s') <= maxqmsg default_conf.
Proof. apply queue_length_bound; [by split|apply online_ok|done|done|by repeat constructor]. Defined.

(** *** Every line is sent *)

(** No penalties are charged. *)
Definition calm (cf : conf) : Prop := use_penalties cf = false /\ odd_net (net_type_int cf) = false.

Lemma charge_calm cf t r : calm cf -> charge_rg cf t r = r.
Proof.
  intros [H1 H2]. unfold charge_rg, calc_penalty. rewrite H1, H2. cbn [negb andb].
  destruct r. unfold set_last_time. cbn. f_equal. destruct (lhs_first cf); lia.
Qed.

Lemma spec_send_calm cf h a : calm cf -> last_time (a_rg (spec_send cf h a)) = last_time (a_rg a).
Proof. intros Hc. unfold spec_send. destruct (a_q a h); [done|]. cbn. by rewrite charge_calm. Qed.

Lemma spec_mode_calm cf fuel a : calm cf -> last_time (a_rg (spec_mode cf fuel a)) = last_time (a_rg a).
Proof.
  intros Hc. revert a. induction fuel as [|fuel IH]; intros a; cbn [spec_mode]; [done|]. case_if; [|done].
  rewrite IH. cbn. by apply spec_send_calm.
Qed.

Lemma spec_deq_calm cf a : calm cf ->
  last_time (a_rg (spec_deq cf a)) = last_time (tick cf (a_rg a)).
Proof.
  intros Hc. unfold spec_deq. cbv zeta. cbn [set_a_rg a_rg a_q].
  destruct (serv _ <? 0); [done|]. destruct (bucket_take _ _) as [pass rl].
  destruct pass; [|done]. cbn [negb]. destruct (bool_decide _); [by apply spec_mode_calm|].
  destruct (1 <? _); [done|]. destruct (bool_decide _); [by apply spec_send_calm|].
  destruct (_ && _); [by apply spec_send_calm|done].
Qed.

Lemma spec_deq_env cf a : 
  same_env (set_rl (if serv (a_rg a) <? 0 then outgoing_rl (a_rg a)
                    else (bucket_take (outgoing_rl (a_rg a)) (usec (a_rg a))).2) (a_rg a))
    (a_rg (spec_deq cf a)).
Proof.
  unfold spec_deq. cbv zeta. cbn [set_a_rg a_rg a_q].
  destruct (tick_env cf (a_rg a)) as (E1 & E2 & E3 & E4). rewrite E1, E3, E4.
  destruct (serv (a_rg a) <? 0).
  { by split_and!. }
  destruct (bucket_take _ _) as [pass rl]. cbn [snd].
  assert (Hr : same_env (set_rl rl (a_rg a)) (set_rl rl (tick cf (a_rg a)))) by by split_and!.
  destruct pass; cbn [negb]; [|exact Hr]. destruct (bool_decide _).
  { eapply same_env_trans; [exact Hr|]. apply (spec_mode_env cf _ (set_a_rg (set_rl rl (tick cf (a_rg a))) a)). }
  destruct (1 <? _); [exact Hr|]. destruct (bool_decide _).
  { eapply same_env_trans; [exact Hr|]. eapply same_env_trans; [|apply spec_send_env]. done. }
  destruct (_ && _); [|exact Hr]. eapply same_env_trans; [exact Hr|]. eapply same_env_trans; [|apply spec_send_env]. done.
Qed.

(** A tick that is due, passes the limiter and finds [burst] at 0 or 1 sends something,
    if there is something. *)
Lemma spec_deq_progress cf a : calm cf ->
  0 <= serv (a_rg a) -> is_due cf (a_rg a) = true -> burst1 cf (a_rg a) = 0 ->
  fst (bucket_take (outgoing_rl (a_rg a)) (usec (a_rg a))) = true ->
  a_q a (first_queue a) ≠ [] -> sent (a_rg (spec_deq cf a)) ≠ sent (a_rg a).
Proof.
  intros Hc Hs Hd Hb Hp Hne. unfold spec_deq. cbv zeta. cbn [set_a_rg a_rg a_q].
  destruct (tick_env cf (a_rg a)) as (E1 & E2 & E3 & E4). rewrite E1, E3, E4.
  rewrite (proj2 (Z.ltb_ge _ _)) by lia. destruct (bucket_take _ _) as [pass rl]. cbn in Hp. subst pass. cbn [negb].
  assert (Hlt : last_time (tick cf (a_rg a)) = now (tick cf (a_rg a))) by (unfold tick; rewrite Hd; done).
  set (r := set_rl rl (tick cf (a_rg a))). change (set_a_rg r (set_a_rg _ a)) with (set_a_rg r a).
  assert (Er : burst r = 0) by done. assert (Es : sent r = sent (a_rg a)) by (cbn; unfold tick; by case_if).
  assert (Et : last_time r = now r) by done.
  clearbody r. rewrite Er. rewrite Hd. unfold first_queue in Hne.
  assert (Hlen : forall h k a', takes h k (set_a_rg r a) a' -> a_q a h ≠ [] -> (0 < k)%nat ->
            sent (a_rg a') ≠ sent (a_rg a)).
  { intros h k a' (T & _) Hh Hk E. rewrite E in T. cbn in T. rewrite Es in T.
    apply (f_equal length) in T. rewrite length_app, length_take in T. cbn in T.
    destruct (a_q a h); [done|]. simpl in T. lia. }
  destruct (bool_decide (a_q a QMode ≠ [])) eqn:EM.
  { destruct (spec_mode_takes cf (Z.to_nat (4 - 0)) (set_a_rg r a)) as (k & Ht & _ & _ & _ & Hk).
    eapply (Hlen QMode k); [exact Ht|exact Hne|]. cbn in Hk. unfold MAXPENALTY in *.
    destruct Hk as [|[|[|[|]]]]; [done|lia|lia|done|done]. }
  change (1 <? 0) with false. change (0 =? 0) with true. cbn [andb].
  destruct (bool_decide (a_q a QServer ≠ [])) eqn:ES.
  - eapply (Hlen QServer 1%nat); [|exact Hne|lia].
    apply (spec_send_takes cf QServer (set_a_rg (incr r) a)). by apply bool_decide_eq_true in ES.
  - eapply (Hlen QHelp 1%nat); [|exact Hne|lia]. by apply (spec_send_takes cf QHelp (set_a_rg r a)).
Qed.

(** The lines sent and to be sent, in the order of the queues. *)
Definition all_lines (a : aspec) : list (list Z) :=
  sent (a_rg a) ++ a_q a QMode ++ a_q a QServer ++ a_q a QHelp.
Definition waiting (a : aspec) : Z :=
  Z.of_nat (length (a_q a QMode) + length (a_q a QServer) + length (a_q a QHelp)).

Lemma takes_lines a a' k : (k <= length (a_q a (first_queue a)))%nat ->
  takes (first_queue a) k a a' -> all_lines a' = all_lines a /\ waiting a' = waiting a - Z.of_nat k.
Proof.
  intros Hk. unfold takes, all_lines, waiting. intros (T1 & T2 & T3).
  assert (Hd : length (a_q a' (first_queue a)) = (length (a_q a (first_queue a)) - k)%nat)
    by by rewrite T2, length_drop.
  unfold first_queue in *. destruct (bool_decide (a_q a QMode ≠ [])) eqn:EM.
  { rewrite T1, T2, (T3 QServer), (T3 QHelp) by done.
    split; [rewrite <- app_assoc; f_equal; by rewrite (app_assoc (take _ _)), take_drop|rewrite length_drop; lia]. }
  assert (EM' : a_q a QMode = []) by (apply bool_decide_eq_false in EM; destruct (a_q a QMode); [done|exfalso; by apply EM]).
  destruct (bool_decide (a_q a QServer ≠ [])) eqn:ES.
  { rewrite T1, T2, (T3 QMode), (T3 QHelp), EM' by done. cbn [app length].
    split; [rewrite <- app_assoc; f_equal; by rewrite (app_assoc (take _ _)), take_drop|rewrite length_drop; lia]. }
  assert (ES' : a_q a QServer = []) by (apply bool_decide_eq_false in ES; destruct (a_q a QServer); [done|exfalso; by apply ES]).
  rewrite T1, T2, (T3 QMode), (T3 QServer), EM', ES' by done. cbn [app length].
  split; [rewrite <- app_assoc; f_equal; by rewrite take_drop|rewrite length_drop; lia].
Qed.

(** What the argument needs of a state: a connection, a bucket that can hold a token, and
    that nothing is in the future. *)
Record ready (t u rate : Z) (a : aspec) : Prop := {
  ready_serv : 0 <= serv (a_rg a);
  ready_burst : 0 <= burst (a_rg a);
  ready_ok : regs_ok (a_rg a);
  ready_cap : OP_RATELIMIT_SCALE <= capacity (outgoing_rl (a_rg a));
  ready_rate : rate_usec (outgoing_rl (a_rg a)) = rate /\ rate < UINT64_MAX;
  ready_time : last_time (a_rg a) <= t /\ last_refill (outgoing_rl (a_rg a)) <= u
}.

Definition beat (t u : Z) (a : aspec) : aspec := set_a_rg (set_clock t u (a_rg a)) a.

Lemma bucket_take_full rl t : bucket_ok rl -> rate_usec rl < UINT64_MAX ->
  OP_RATELIMIT_SCALE <= capacity rl -> last_refill rl + rate_usec rl <= t ->
  fst (bucket_take rl t) = true.
Proof.
  intros (Hr & Ht & _) Hm Hc Hl. unfold bucket_take, periods. cbn. apply Z.leb_le.
  rewrite (proj2 (Z.ltb_lt _ _) Hm).
  assert (1 <= Z.max 0 (t - last_refill rl) / rate_usec rl) by (apply Z.div_le_lower_bound; lia).
  unfold OP_RATELIMIT_SCALE in *. lia.
Qed.

Lemma beat_step cf t0 u0 rate t u a : calm cf -> 0 <= msgrate cf ->
  ready t0 u0 rate a -> t0 + msgrate cf <= t -> u0 + rate <= u < 2 ^ 54 ->
  let a' := spec_deq cf (beat t u a) in
  ready t u rate a' /\ all_lines a' = all_lines a /\
  burst (a_rg a') + 2 * waiting a' <= Z.max 0 (burst (a_rg a) + 2 * waiting a - 1).
Proof.
  intros Hc Hm [Hs Hb [Hbk Hu] Hcap [Hrt Hmax] [Hlt Hlr]] Ht Htu. cbv zeta.
  set (b := beat t u a).
  assert (Hok : regs_ok (a_rg b)).
  { split; [exact Hbk|]. cbn. destruct Hbk as (? & _ & _ & ?). lia. }
  assert (Hdue : is_due cf (a_rg b) = true).
  { unfold is_due. cbn. apply orb_true_iff. left. apply Z.leb_le. lia. }
  destruct (spec_deq_env cf b) as (V1 & V2 & V3 & V4). cbn in V1, V2, V3, V4.
  rewrite (proj2 (Z.ltb_ge _ _)) in V4 by lia.
  destruct (spec_deq_takes cf b Hb) as (k & Htk & _ & Hburst & _ & Hkl & _).
  destruct (takes_lines b (spec_deq cf b) k Hkl Htk) as [Hall Hw].
  pose proof (burst1_nonneg cf (a_rg b) Hb) as Hb1.
  assert (Hbd : burst1 cf (a_rg b) = Z.max 0 (burst (a_rg a) - 1)).
  { unfold burst1, tick. rewrite Hdue. cbn. case_if; bool_lia. }
  split_and!; [| |].
  - split.
    + lia.
    + rewrite Hburst. case_decide; lia.
    + by apply spec_deq_ok.
    + rewrite V4. done.
    + rewrite V4. done.
    + rewrite V4. cbn. split; [|lia]. rewrite spec_deq_calm by done. unfold tick. rewrite Hdue. cbn. lia.
  - exact Hall.
  - change (waiting a) with (waiting b). rewrite Hw, Hburst, Hbd.
    assert (Hwk : Z.of_nat k <= waiting b) by (unfold waiting; destruct (first_queue b); lia).
    destruct (Z.ltb_spec 0 (burst (a_rg a))) as [Hpos|Hz]; [case_decide; lia|].
    destruct (decide (a_q b (first_queue b) = [])) as [He|Hne].
    + assert (Hzero : waiting b = 0).
      { unfold first_queue in He. unfold waiting.
        destruct (bool_decide (a_q b QMode ≠ [])) eqn:EM; [apply bool_decide_eq_true in EM; done|].
        destruct (bool_decide (a_q b QServer ≠ [])) eqn:ES; [apply bool_decide_eq_true in ES; done|].
        apply bool_decide_eq_false in EM, ES. rewrite He.
        destruct (a_q b QMode); [|exfalso; by apply EM]. destruct (a_q b QServer); [done|exfalso; by apply ES]. }
      case_decide; lia.
    + assert (0 < k)%nat.
      { destruct k; [|lia]. exfalso. eapply (spec_deq_progress cf b); try done; [lia| |].
        - cbn. apply bucket_take_full; [done|lia|done|lia].
        - destruct Htk as (T1 & _). by rewrite take_0, app_nil_r in T1. }
      case_decide; lia.
Qed.

(** The clocks at the ticks: each at least [msgrate] seconds and a token's time after the
    one before. *)
Fixpoint spaced (d rate t0 u0 : Z) (ts : list (Z * Z)) : Prop :=
  match ts with
  | [] => True
  | (t, u) :: ts => t0 + d <= t /\ u0 + rate <= u < 2 ^ 54 /\ spaced d rate t u ts
  end.
Definition beats (ts : list (Z * Z)) : list op := flat_map (fun x => [OpClock x.1 x.2; OpDeq]) ts.

Lemma beats_drain cf rate ts : calm cf -> 0 <= msgrate cf -> forall t0 u0 a,
  ready t0 u0 rate a -> spaced (msgrate cf) rate t0 u0 ts ->
  all_lines (spec_run cf (beats ts) a) = all_lines a /\
  burst (a_rg (spec_run cf (beats ts) a)) + 2 * waiting (spec_run cf (beats ts) a) <=
    Z.max 0 (burst (a_rg a) + 2 * waiting a - Z.of_nat (length ts)) /\
  0 <= burst (a_rg (spec_run cf (beats ts) a)).
Proof.
  intros Hc Hm. induction ts as [|[t u] ts IH]; intros t0 u0 a Ha Hts.
  - cbn. split_and!; [done|lia|apply Ha].
  - destruct Hts as (Ht & Hu & Hts).
    destruct (beat_step cf t0 u0 rate t u a Hc Hm Ha Ht Hu) as (Ha' & Hall & Hmu).
    specialize (IH t u (spec_deq cf (beat t u a)) Ha' Hts) as (I1 & I2 & I3).
    change (spec_run cf (beats ((t, u) :: ts)) a) with (spec_run cf (beats ts) (spec_deq cf (beat t u a))).
    split_and!; [by rewrite I1|cbn [length]; lia|done].
Qed.

(** C33. Every line is sent.  With a connection and without penalties, after [burst] ticks
    plus two for each waiting line, spaced by [msgrate] seconds and a token's time, all
    queues are empty, and what was sent is the lines of the mode queue, then of the server
    queue, then of the help queue, each in their order.  [burst] and [msgrate] are not negative, and the bucket of the
    rate limit holds at least one line.  If kicks are merged there are none in the queues; if
    commands are stacked it may end before, with the node that [fast_deq] gives to the wrong allocator. *)
Theorem queues_drain cf s ts :
  quiet cf (view s) -> calm cf -> 0 <= msgrate cf -> wf s -> regs_ok (rg s) ->
  let rl := outgoing_rl (rg s) in
  0 <= serv (rg s) -> 0 <= burst (rg s) -> OP_RATELIMIT_SCALE <= capacity rl -> rate_usec rl < UINT64_MAX ->
  spaced (msgrate cf) (rate_usec rl) (last_time (rg s)) (last_refill rl) ts ->
  burst (rg s) + 2 * waiting (view s) <= Z.of_nat (length ts) ->
  (use_fastdeq cf ≠ 0 /\ run cf (beats ts) s = Err BadFree) \/
  exists s', run cf (beats ts) s = Ok (tt, s') /\ wf s' /\ (forall h, contents s' h = []) /\
    sent (rg s') = sent (rg s) ++ contents s QMode ++ contents s QServer ++ contents s QHelp.
Proof.
  intros Hk Hc Hm Hw Hok rl Hs Hb Hcap Hmax Hts Hlen.
  assert (Hqs : Forall (op_quiet cf) (beats ts)) by (clear; induction ts as [|[t u] ts IH]; [constructor|by repeat constructor]).
  assert (Hops : Forall op_ok (beats ts)).
  { assert (Hu0 : 0 <= last_refill rl) by apply Hok. assert (Hr0 : 0 < rate_usec rl) by apply Hok.
    clear -Hts Hu0 Hr0. revert Hts Hu0. generalize (last_time (rg s)) (last_refill rl).
    induction ts as [|[t u] ts IH]; intros t0 u0; cbn; [done|]. intros (H1 & H2 & H3) Hu0.
    constructor; [cbn; lia|]. constructor; [done|]. apply (IH _ _ H3). lia. }
  destruct (run_spec cf (beats ts) s Hk Hqs Hw Hok Hops) as [?|(s' & E & Hw' & _ & Er & Ec)]; [by left|right].
  assert (Hr : ready (last_time (rg s)) (last_refill rl) (rate_usec rl) (view s)) by by split.
  destruct (beats_drain cf (rate_usec rl) ts Hc Hm _ _ _ Hr Hts) as (Hall & Hmu & Hb').
  change (burst (a_rg (view s))) with (burst (rg s)) in Hmu.
  set (a' := spec_run cf (beats ts) (view s)) in *.
  assert (Hz : waiting a' = 0) by (assert (0 <= waiting a') by (unfold waiting; lia); lia).
  assert (Hnil : forall h, a_q a' h = []).
  { intros h. unfold waiting in Hz. apply length_zero_iff_nil. destruct h; lia. }
  exists s'. split_and!; [done|done|intros h; by rewrite Ec|].
  unfold all_lines in Hall. rewrite !Hnil in Hall. cbn in Hall. rewrite !app_nil_r in Hall. by rewrite Er, Hall.
Qed.

(** Two lines queued, and the state then. *)
Definition two_lines : srv :=
  match run default_conf [OpQueue DP_SERVER (bs "JOIN #a"); OpQueue DP_HELP (bs "WHO #a")] (start online) with
  | Ok (_, s) => s
  | Err _ => start online
  end.
Lemma two_lines_wf : wf two_lines /\ rg two_lines = online.
Proof.
  destruct (run_plain default_conf [OpQueue DP_SERVER (bs "JOIN #a"); OpQueue DP_HELP (bs "WHO #a")] (start online))
    as (s' & E & Hw & _); [by split|apply start_wf|apply online_ok|by repeat constructor|].
  unfold two_lines. rewrite E. split; [done|]. revert E. vm_compute. by intros [= <-].
Qed.

Definition four_beats : list (Z * Z) := [(101, 6000000); (103, 8000000); (105, 10000000); (107, 12000000)].
Lemma queues_drain_witness :
  exists s', run busy_conf (beats four_beats) two_lines = Ok (tt, s') /\ wf s' /\ (forall h, contents s' h = []) /\
    sent (rg s') = sent (rg two_lines) ++ contents two_lines QMode ++ contents two_lines QServer ++
      contents two_lines QHelp.
Proof.
  destruct (queues_drain busy_conf two_lines four_beats) as [[_ E]|H];
    [right; intros []; vm_compute; repeat constructor|by split|done|apply two_lines_wf| |..|vm_compute in E; discriminate E|exact H];
    try (rewrite (proj2 two_lines_wf); vm_compute; intuition discriminate).
Defined.

(** *** How much is sent *)

(** The operations without the lines that are not queued (PING, PONG, AUTHENTICATE) and
    without the resets: lines, ticks, and clocks that do not go back. *)
Fixpoint paced (t : Z) (os : list op) : Prop :=
  match os with
  | [] => True
  | OpQueue _ msg :: os => unqueued (remove_crlf msg) = false /\ paced t os
  | OpClock t' u :: os => t <= t' /\ 0 <= u < 2 ^ 54 /\ paced t' os
  | OpDeq :: os | OpClear _ :: os => paced t os
  | _ => False
  end.

(** The clock after them. *)
Definition end_time (t : Z) (os : list op) : Z :=
  fold_left (fun t o => match o with OpClock t' _ => t' | _ => t end) os t.

(** What one operation may add to the lines sent: [burst] is spent, and a due tick gives
    back one and lets one more line of the help queue through. *)
Definition spends (cf : conf) (a a' : aspec) : Prop :=
  exists k, 0 <= k /\
    Z.of_nat (length (sent (a_rg a'))) - Z.of_nat (length (sent (a_rg a))) <=
      burst (a_rg a') - burst (a_rg a) + 2 * k /\
    k * msgrate cf <= last_time (a_rg a') - last_time (a_rg a).

Definition steady (a : aspec) : Prop :=
  0 <= burst (a_rg a) <= 4 /\ last_time (a_rg a) <= now (a_rg a).

Lemma spends_refl cf a : spends cf a a.
Proof. exists 0. lia. Qed.
Lemma spends_trans cf a b c : spends cf a b -> spends cf b c -> spends cf a c.
Proof. intros (k & ? & ? & ?) (j & ? & ? & ?). exists (k + j). lia. Qed.

Lemma spends_deq cf a : calm cf -> steady a -> spends cf a (spec_deq cf a) /\ steady (spec_deq cf a).
Proof.
  intros Hc [Hb Hl]. destruct (spec_deq_takes cf a) as (k & (T1 & _) & Hk & Hbr & Hdue & Hkl & Hone); [lia|].
  destruct (spec_deq_env cf a) as (_ & V2 & _). cbn in V2.
  pose proof (spec_deq_calm cf a Hc) as Hlt.
  assert (Hlen : Z.of_nat (length (sent (a_rg (spec_deq cf a)))) - Z.of_nat (length (sent (a_rg a))) = Z.of_nat k).
  { rewrite T1, length_app, length_take. lia. }
  unfold spends, steady. rewrite Hlen, Hbr, Hlt, V2. unfold burst1, tick in *.
  destruct (is_due cf (a_rg a)) eqn:Ed.
  - cbn [burst set_burst last_time set_last_time] in *. unfold is_due in Ed.
    apply orb_true_iff in Ed as [Ed%Z.leb_le|Ed%Z.ltb_lt]; [|lia].
    destruct (Z.ltb_spec 0 (burst (a_rg a)));
      (split; [exists 1|]; repeat case_decide; first [lia|congruence|destruct Hone as [|[|]]; first [lia|done]]).
  - destruct Hdue as [->|[Hne|?]]; [| |done].
    + split; [exists 0|]; repeat case_decide; lia.
    + split; [exists 0|]; repeat case_decide; first [lia|congruence|destruct Hone as [|[|]]; first [lia|done]].
Qed.

Lemma spends_op cf o os a : calm cf -> paced (now (a_rg a)) (o :: os) -> steady a ->
  spends cf a (spec_op cf o a) /\ steady (spec_op cf o a) /\
  now (a_rg (spec_op cf o a)) = match o with OpClock t _ => t | _ => now (a_rg a) end.
Proof.
  intros Hc Hp Ha. destruct o; cbn [spec_op paced] in *; try done.
  - destruct Hp as [Hu _]. unfold spec_queue. cbv zeta. rewrite Hu.
    assert (H0 : forall r q, sent r = sent (a_rg a) -> burst r = burst (a_rg a) -> last_time r = last_time (a_rg a) ->
      now r = now (a_rg a) -> spends cf a {| a_rg := r; a_q := q |} /\ steady {| a_rg := r; a_q := q |} /\
      now (a_rg {| a_rg := r; a_q := q |}) = now (a_rg a)).
    { intros r q E1 E2 E3 E4. unfold spends, steady. cbn. rewrite E1, E2, E3, E4. split_and!; [exists 0; lia|apply Ha|apply Ha|apply Ha|done]. }
    assert (H1 : forall q, a_rg q = set_double_warned false (a_rg a) \/ a_rg q = a_rg a ->
      let q' := (if (which =? DP_MODE) || (which =? DP_MODE_NEXT) then spec_deq cf else id) q in
      spends cf a q' /\ steady q' /\ now (a_rg q') = now (a_rg a)).
    { intros [r q] Hr. cbn in Hr. destruct (H0 r q) as (S1 & S2 & S3); [by destruct Hr; subst..|].
      destruct (_ || _); [|done]. destruct (spends_deq cf _ Hc S2) as [S4 S5]. cbv zeta.
      split_and!; [by eapply spends_trans|apply S5..|].
      destruct (spec_deq_env cf {| a_rg := r; a_q := q |}) as (_ & V & _). rewrite V. exact S3. }
    destruct a as [r q]. cbn [a_rg a_q] in *.
    destruct (serv r <? 0); [by apply H0|]. destruct (which_queue cf which) as [[[h qnext] double]|]; [|by apply H0].
    destruct (_ <? maxqmsg cf); [|by apply (H1 {| a_rg := r; a_q := q |}); right].
    destruct (negb double && _); [by apply H0|]. destruct (tcl_out _ _ _); [by apply H0|].
    apply H1. by left.
  - destruct (spends_deq cf a Hc Ha) as [H1 H2]. split_and!; [done|apply H2..|].
    by destruct (spec_deq_env cf a) as (_ & V & _).
  - unfold spends, steady. cbn. split_and!; [exists 0; lia|apply Ha..|done].
  - destruct Hp as (Ht & _), Ha as [Hb Hl]. unfold spends, steady. cbn. split_and!; [exists 0; lia|lia..].
Qed.

Lemma spends_run cf os : calm cf -> forall a, steady a -> paced (now (a_rg a)) os ->
  spends cf a (spec_run cf os a) /\ steady (spec_run cf os a) /\
  now (a_rg (spec_run cf os a)) = end_time (now (a_rg a)) os.
Proof.
  intros Hc. induction os as [|o os IH]; intros a Ha Hp; [split_and!; [apply spends_refl|apply Ha..|done]|].
  destruct (spends_op cf o os a Hc Hp Ha) as (H1 & H2 & H3).
  assert (Hp' : paced (now (a_rg (spec_op cf o a))) os).
  { rewrite H3. destruct o; cbn [paced] in Hp; tauto. }
  destruct (IH _ H2 Hp') as (H4 & H5 & H6). split_and!; [by eapply spends_trans|apply H5..|].
  unfold spec_run in *. cbn [fold_left]. rewrite H6, H3. by destruct o.
Qed.

(** C39. The flood bound.  Without penalties, however many lines are queued, however
    often the queues are ticked and queues are cleared, the lines sent are at most 4 less the [burst] there was, plus two for
    each [msgrate] seconds from the time of the last line to the end.  Not counted in it are lines that are sent
    without a queue (PING, PONG, AUTHENTICATE), and the clock does not go back and the connection is
    not lost meanwhile ([paced]).  [burst] is from 0 to 4 at the start, [msgrate] is positive and the last line was not sent in
    the future.  If kicks are merged there are none among the lines; if commands
    are stacked it may end before, with the node that [fast_deq] gives to the wrong allocator. *)
Theorem flood_bound cf os s :
  quiet cf (view s) -> Forall (op_quiet cf) os -> calm cf -> 0 < msgrate cf -> wf s -> regs_ok (rg s) ->
  0 <= burst (rg s) <= 4 -> last_time (rg s) <= now (rg s) -> paced (now (rg s)) os ->
  (use_fastdeq cf ≠ 0 /\ run cf os s = Err BadFree) \/
  exists s', run cf os s = Ok (tt, s') /\
    Z.of_nat (length (sent (rg s'))) <= Z.of_nat (length (sent (rg s))) + (4 - burst (rg s)) +
      2 * ((end_time (now (rg s)) os - last_time (rg s)) / msgrate cf).
Proof.
  intros Hkq Hqs Hc Hm Hw Hok Hb Hl Hpc.
  assert (Hops : Forall op_ok os).
  { clear -Hpc. revert Hpc. generalize (now (rg s)). induction os as [|o os IH]; intros t; [done|].
    destruct o; cbn [paced]; intros H; try done; constructor; try done; try (by eapply IH).
    - destruct H. by eapply IH.
    - by destruct H as (_ & ? & _).
    - destruct H as (_ & _ & H). by eapply IH. }
  destruct (run_spec cf os s Hkq Hqs Hw Hok Hops) as [?|(s' & E & _ & _ & Er & _)]; [by left|right]. exists s'. split; [done|].
  destruct (spends_run cf os Hc (view s)) as ((k & Hk & H1 & H2) & [H3 H4] & H5); [done|done|].
  cbn [view a_rg] in *. rewrite Er. rewrite H5 in H4.
  assert (k <= (end_time (now (rg s)) os - last_time (rg s)) / msgrate cf).
  { apply Z.div_le_lower_bound; lia. }
  lia.
Qed.

Definition flooding : list op := [OpQueue DP_SERVER (bs "PRIVMSG a :x"); OpDeq; OpClock 109 9000000; OpDeq].
Lemma flood_bound_witness :
  exists s', run busy_conf flooding two_lines = Ok (tt, s') /\
    Z.of_nat (length (sent (rg s'))) <= Z.of_nat (length (sent (rg two_lines))) + (4 - burst (rg two_lines)) +
      2 * ((end_time (now (rg two_lines)) flooding - last_time (rg two_lines)) / msgrate busy_conf).
Proof.
  destruct (flood_bound busy_conf flooding two_lines) as [[_ E]|H];
    [right; intros []; vm_compute; repeat constructor|by repeat constructor; right; vm_compute|by split|done|apply two_lines_wf|..|vm_compute in E; discriminate E|exact H];
    rewrite (proj2 two_lines_wf); [apply online_ok|vm_compute; intuition discriminate..].
Defined.

(** *** Penalties *)

Lemma calc_penalty_cases cf msg :
  let '(p, d) := calc_penalty cf msg in
  (p = 0 /\ d = 0) \/ (p = 0 /\ d = slen (snd (newsplit msg)) / 120) \/ (2 <= p <= 99 /\ d = -2).
Proof.
  unfold calc_penalty. destruct (newsplit msg) as [cmd rest]. cbn [snd].
  destruct (_ && _); [by left|]. destruct (odd_net _); [right; left; split; [done|lia]|right; right].
  repeat case_if; bool_lia.
Qed.

(** What a line costs: without penalties nothing; on the three networks with their own
    rule, the length over 120; elsewhere 2 to 99 seconds.  So a line never moves the time
    of the last line back; but [last_time += calc_penalty(msg)] leaves open whether what
    [calc_penalty] itself adds to [last_time] counts, and the two readings differ. *)
Theorem charge_bounds cf msg r :
  let '(p, d) := calc_penalty cf msg in
  ((p = 0 /\ d = 0) \/ (p = 0 /\ d = slen (snd (newsplit msg)) / 120) \/ (2 <= p <= 99 /\ d = -2)) /\
  last_time r <= last_time (charge_rg cf msg r) /\
  last_time (charge_rg cf msg r) = last_time r + p + (if lhs_first cf then 0 else d).
Proof.
  pose proof (calc_penalty_cases cf msg) as Hc. unfold charge_rg. destruct (calc_penalty cf msg) as [p d]. cbn.
  assert (0 <= slen (snd (newsplit msg)) / 120) by (apply Z.div_pos; unfold slen; lia).
  split; [exact Hc|]. destruct Hc as [[-> ->]|[[-> ->]|[? ->]]]; destruct (lhs_first cf); lia.
Qed.

(** A penalty of more than 93 seconds is no penalty: one second after such a line the
    time of the last line is so far ahead that the test for a changed clock takes it back,
    and the next line is due. *)
Theorem big_penalty_forgiven cf msg r u :
  last_time r = now r -> 93 < fst (calc_penalty cf msg) ->
  let r' := set_clock (now r + 1) u (charge_rg cf msg r) in
  is_due cf r' = true /\ last_time (tick cf r') = now r + 1.
Proof.
  intros Ht Hp. cbv zeta. pose proof (calc_penalty_cases cf msg) as Hc.
  assert (Hd : is_due cf (set_clock (now r + 1) u (charge_rg cf msg r)) = true).
  { unfold is_due, charge_rg. destruct (calc_penalty cf msg) as [p d]. cbn in *. apply orb_true_iff. right.
    apply Z.ltb_lt. destruct Hc as [[-> ->]|[[-> _]|[? ->]]]; destruct (lhs_first cf); lia. }
  split; [done|]. unfold tick. by rewrite Hd.
Qed.

(** A kick of 50 victims, where penalties are on. *)
Definition penalty_conf : conf := {|
  maxqmsg := 300; msgrate := 2; double_mode := false; double_server := false; double_help := false;
  use_penalties := true; net_type_int := NETT_IRCNET; use_fastdeq := 3;
  stackablecmds := bs "INVITE AWAY VERSION NICK"; stackable2cmds := bs "USERHOST ISON"; stack_limit := 4;
  optimize_kicks := 1; kick_method := 4; tcl_out := fun _ _ => false; on_chan := fun _ _ => true;
  lhs_first := false |}.
Definition kick_many : list Z :=
  bs "KICK #a,#b,#c,#d,#e,#f,#g,#h,#i,#j,#k,#l a,b,c,d,e,f,g,h :x".

Lemma big_penalty_forgiven_witness :
  let r' := set_clock (now (set_last_time 100 online) + 1) 0 (charge_rg penalty_conf kick_many (set_last_time 100 online)) in
  is_due penalty_conf r' = true /\ last_time (tick penalty_conf r') = now (set_last_time 100 online) + 1.
Proof. apply big_penalty_forgiven; [done|vm_compute; done]. Defined.

(** *** Merging of kicks and stacking of commands *)

(** The merging of kicks leaves the [last] pointer of its queue on a node that it has
    freed, when the last line of the queue is merged and another line stays: the next line
    queued then writes to freed memory. *)
Theorem kick_merge_dangles :
  exists s' p,
    run penalty_conf [OpQueue DP_SERVER (bs "KICK #c a :r"); OpQueue DP_SERVER (bs "MODE #c +t");
                      OpQueue DP_SERVER (bs "KICK #c b :r"); OpDeq] (start online) = Ok (tt, s') /\
    sent (rg s') = [bs "KICK #c a,b :r"] /\ contents s' QServer = [bs "MODE #c +t"] /\
    q_last (mq s') = Some p /\ nodes s' !! p = None /\
    queue_server penalty_conf DP_SERVER (bs "JOIN #d") s' = Err UseAfterFree.
Proof.
  destruct (run penalty_conf [OpQueue DP_SERVER (bs "KICK #c a :r"); OpQueue DP_SERVER (bs "MODE #c +t");
                      OpQueue DP_SERVER (bs "KICK #c b :r"); OpDeq] (start online)) as [[[] s']|e] eqn:E;
    [|vm_compute in E; discriminate].
  exists s', 3%positive. vm_compute in E. injection E as <-. split_and!; vm_compute; reflexivity.
Qed.

Lemma rep_two s L h t1 t2 rest : rep None s L -> contents s h = t1 :: t2 :: rest ->
  exists l1 l2 nx, q_head (queue h s) = Some l1 /\
    nodes s !! l1 = Some {| m_next := Some l2; m_len := slen t1; m_msg := t1 |} /\
    nodes s !! l2 = Some {| m_next := nx; m_len := slen t2; m_msg := t2 |}.
Proof.
  intros R Hc. rewrite (contents_texts s L h R) in Hc. unfold texts in Hc. pose proof (rep_seg _ _ _ R h) as Hs.
  destruct (L h) as [|[l1 u1] [|[l2 u2] ls]]; try done. injection Hc as -> -> _.
  destruct Hs as (E & nx & E1 & E2 & nx2 & E3 & _). subst nx. by exists l1, l2, nx2.
Qed.

Lemma bind_err {A B} (m : M A) (f : A -> M B) s e : m s = Err e -> (m ≫= f) s = Err e.
Proof. unfold mbind, M_bind. by intros ->. Qed.
Lemma bind_ok {A B} (m : M A) (f : A -> M B) s x s1 r :
  m s = Ok (x, s1) -> f x s1 = r -> (m ≫= f) s = r.
Proof. unfold mbind, M_bind. intros ->. done. Qed.
Lemma load_ok p n s : nodes s !! p = Some n -> load p s = Ok (n, s).
Proof. intros H. unfold load, mbind, M_bind, get. simpl. by rewrite H. Qed.
Lemma store_node_ok p n0 n s : nodes s !! p = Some n0 -> store p n s = Ok (tt, set_nodes (<[p := n]> (nodes s)) s).
Proof. intros H. unfold store. by eapply bind_ok; [apply load_ok|]. Qed.

(** Stacking is broken: when the first two lines of a queue can be stacked, [fast_deq]
    gives the node of the second, which is from the slab allocator, to [free]. *)
Theorem fast_deq_frees_slab cf h s t1 t2 rest :
  use_fastdeq cf ≠ 0 -> wf s -> contents s h = t1 :: t2 :: rest ->
  let '(cmd, r1) := newsplit t1 in let '(to, msg) := newsplit r1 in
  let '(nextcmd, r2) := newsplit t2 in let '(nextto, nextmsg) := newsplit r2 in
  may_stack cf cmd = true -> nextcmd = cmd -> nextmsg = msg -> nextto ≠ to ->
  slen cmd + slen to + slen nextto + slen msg + 2 < SENDLINEMAX - 2 -> stack_limit cf = 0 \/ 1 < stack_limit cf ->
  fast_deq cf h s = Err BadFree.
Proof.
  intros Hf [L R] Hc. destruct (rep_two s L h t1 t2 rest R Hc) as (l1 & l2 & nx & Eh & E1 & E2).
  destruct (newsplit t1) as [cmd r1] eqn:S1. destruct (newsplit r1) as [to msg] eqn:S2.
  destruct (newsplit t2) as [nextcmd r2] eqn:S3. destruct (newsplit r2) as [nextto nextmsg] eqn:S4.
  intros Hm -> -> Hne Hlen Hlim. unfold fast_deq. rewrite (proj2 (Z.eqb_neq _ _) Hf).
  eapply bind_ok; [done|]. rewrite Eh. eapply bind_ok; [by apply load_ok|]. cbn [m_msg].
  rewrite S1, Hm. cbn [negb]. rewrite S2. eapply bind_ok; [done|]. apply bind_err. cbn [fast_loop].
  eapply bind_ok; [by apply load_ok|]. cbn [m_next]. eapply bind_ok; [by apply load_ok|]. cbn [m_msg m_next].
  rewrite S3, S4. assert (Hto : streq to nextto = false) by (apply not_true_iff_false; rewrite streq_eq; congruence).
  rewrite Hto, !(proj2 (streq_eq _ _) eq_refl), (proj2 (Z.ltb_lt _ _) Hlen). cbn [negb andb].
  replace ((stack_limit cf =? 0) || (0 <? stack_limit cf - 1)) with true
    by (symmetry; apply orb_true_iff; rewrite Z.eqb_eq, Z.ltb_lt; lia).
  eapply bind_ok; [by eapply store_node_ok|]. eapply bind_ok; [done|].
  by destruct nx; (eapply bind_ok; [done|]); apply bind_err.
Qed.

Definition stack_conf : conf := {|
  maxqmsg := 300; msgrate := 2; double_mode := false; double_server := false; double_help := false;
  use_penalties := false; net_type_int := NETT_DALNET; use_fastdeq := 2;
  stackablecmds := bs "PRIVMSG NOTICE PART WHOIS WHOWAS USERHOST ISON WATCH DCCALLOW";
  stackable2cmds := bs "USERHOST ISON WATCH"; stack_limit := 20;
  optimize_kicks := 0; kick_method := 4; tcl_out := fun _ _ => false; on_chan := fun _ _ => true;
  lhs_first := false |}.
Definition two_privmsgs : srv :=
  match run default_conf [OpQueue DP_SERVER (bs "PRIVMSG a :hi"); OpQueue DP_SERVER (bs "PRIVMSG b :hi")]
          (start online) with
  | Ok (_, s) => s
  | Err _ => start online
  end.
Lemma two_privmsgs_wf : wf two_privmsgs.
Proof.
  destruct (run_plain default_conf [OpQueue DP_SERVER (bs "PRIVMSG a :hi"); OpQueue DP_SERVER (bs "PRIVMSG b :hi")]
    (start online)) as (s' & E & Hw & _); [by split|apply start_wf|apply online_ok|by repeat constructor|].
  unfold two_privmsgs. by rewrite E.
Qed.

Lemma fast_deq_frees_slab_witness : fast_deq stack_conf QServer two_privmsgs = Err BadFree.
Proof.
  pose proof (fast_deq_frees_slab stack_conf QServer two_privmsgs (bs "PRIVMSG a :hi") (bs "PRIVMSG b :hi") []) as H.
  apply H; [done|apply two_privmsgs_wf|vm_compute; reflexivity|vm_compute; reflexivity| | |vm_compute; discriminate| |];
    vm_compute; try reflexivity. by right.
Defined.

(** *** A new nick *)

(** The victims of a kick, as they are written. *)
Fixpoint join_nicks (vs : list (list Z)) : list Z :=
  match vs with
  | [] => []
  | [v] => v
  | v :: vs => v ++ ch "," :: join_nicks vs
  end.
Definition is_nick (v : list Z) : Prop := v ≠ [] /\ ~ In (ch ",") v /\ hd 0 v ≠ ch " ".

Lemma splitnicks_first v rest : is_nick v -> splitnicks (v ++ ch "," :: rest) = (v, rest).
Proof.
  intros (Hne & Hc & Hs). unfold splitnicks. destruct v as [|c v]; [done|].
  cbn [app skip_while]. cbn in Hs. rewrite (proj2 (Z.eqb_neq (ch " ") c)) by congruence.
  rewrite app_comm_cons. by rewrite (find_delim_app (ch ",") (c :: v)).
Qed.

Lemma splitnicks_last v : is_nick v -> splitnicks v = (v, []).
Proof.
  intros (Hne & Hc & Hs). unfold splitnicks. destruct v as [|c v]; [done|].
  cbn [skip_while]. cbn in Hs. rewrite (proj2 (Z.eqb_neq (ch " ") c)) by congruence.
  by rewrite find_delim_end.
Qed.

Lemma rename_nicks_turn oldnick newnick chan msg fuel nicks acc changed : nicks ≠ [] ->
  rename_nicks oldnick newnick chan msg (S fuel) nicks acc changed =
  let '(nick, rest) := splitnicks nicks in
  if same_name nick oldnick &&
     (9 + slen chan + slen acc + slen newnick + slen rest + slen msg <? SENDLINEMAX - 1)
  then rename_nicks oldnick newnick chan msg fuel rest (acc ++ ch "," :: newnick ++ nick) true
  else rename_nicks oldnick newnick chan msg fuel rest (ch "," :: nick) changed.
Proof. by destruct nicks. Qed.

(** What a new nick does to a queued kick: the victim is not renamed but gets the new
    nick and the old one run together, and of the victims before it only the last stays. *)
Theorem rename_garbles oldnick newnick chan msg vs fuel acc :
  is_nick oldnick -> Forall is_nick vs -> Forall (fun v => same_name v oldnick = false) vs ->
  (length (join_nicks (vs ++ [oldnick])) <= fuel)%nat ->
  9 + slen chan + slen acc + slen (join_nicks (vs ++ [oldnick])) + slen newnick + slen msg < SENDLINEMAX - 2 ->
  rename_nicks oldnick newnick chan msg fuel (join_nicks (vs ++ [oldnick])) acc false =
  ((match list.last vs with Some v => ch "," :: v | None => acc end) ++ ch "," :: newnick ++ oldnick, true).
Proof.
  intros Ho Hvs Hne. revert fuel acc. induction Hvs as [|v vs Hv Hvs IH]; intros fuel acc Hf Hlen.
  - cbn [app join_nicks list.last] in *. pose proof Ho as (Hno & _ & _).
    destruct fuel as [|fuel]; [destruct oldnick; [done|simpl in Hf; lia]|].
    rewrite rename_nicks_turn, splitnicks_last, (proj2 (same_name_eq oldnick oldnick) eq_refl) by done.
    unfold slen in *. cbn [length andb]. rewrite (proj2 (Z.ltb_lt _ _)) by lia. by destruct fuel.
  - inversion Hne as [|? ? Hn1 Hn2]; subst.
    assert (Ej : join_nicks ((v :: vs) ++ [oldnick]) = v ++ ch "," :: join_nicks (vs ++ [oldnick])) by (by destruct vs).
    rewrite Ej in *. destruct fuel as [|fuel]; [rewrite length_app in Hf; simpl in Hf; lia|].
    rewrite rename_nicks_turn by (by destruct v). rewrite splitnicks_first, Hn1 by done. cbn [andb].
    unfold slen in *. rewrite length_app in Hf, Hlen. cbn [length] in Hf, Hlen.
    rewrite (IH Hn2 fuel (ch "," :: v)); [|lia|cbn [length]; lia].
    destruct vs as [|v' vs]; [done|]. rewrite last_cons_cons. destruct (list.last (v' :: vs)) eqn:El; [done|].
    by apply last_None in El.
Qed.

Lemma rename_garbles_witness :
  rename_nicks (bs "joe") (bs "bob") (bs "#c") (bs ":r") 20 (join_nicks ([bs "ann"; bs "eve"] ++ [bs "joe"])) [] false =
  ((match list.last [bs "ann"; bs "eve"] with Some v => ch "," :: v | None => [] end) ++
   ch "," :: bs "bob" ++ bs "joe", true).
Proof.
  apply rename_garbles; [..|vm_compute; lia|vm_compute; reflexivity];
    repeat constructor; vm_compute; intuition discriminate.
Defined.
