(* ===== verification/Deque.v ===== *)
(** * The double-ended queue (libop/src/deque.c)

    A ring of pointers whose capacity is a power of two.  The operations, with [size_t]
    arithmetic and the buffer as a list of cells, and the proof that they implement a
    list. *)

From S2P Require Import Prelude.
From stdpp Require Import list.
#[local] Open Scope Z_scope.

Definition SIZE_MAX : Z := 2 ^ 64 - 1.
Definition DEFAULT_CAP : Z := 8.

(** [slots] holds [cap] pointers; 0 is NULL. *)
Record op_deque_t := { slots : list Z; head : Z; size : Z; cap : Z }.

(** [abort()], or an access outside the buffer. *)
Inductive failure : Type := Aborted | OutOfBounds.

Definition or_shift (n k : Z) : Z := Z.lor n (Z.shiftr n k).

Definition next_pow2 (n : Z) : result failure Z :=
  if n <? DEFAULT_CAP then Ok DEFAULT_CAP
  else if SIZE_MAX / 2 <? n then Err Aborted
  else
    let n := n - 1 in
    let n := or_shift n 1 in
    let n := or_shift n 2 in
    let n := or_shift n 4 in
    let n := or_shift n 8 in
    let n := or_shift n 16 in
    let n := or_shift n 32 in
    Ok (u64 (n + 1)).

Definition slot (d : op_deque_t) (i : Z) : Z := Z.land (u64 (head d + i)) (cap d - 1).

Definition read (s : list Z) (i : Z) : result failure Z :=
  match s !! Z.to_nat i with Some x => Ok x | None => Err OutOfBounds end.
Definition write (s : list Z) (i x : Z) : result failure (list Z) :=
  if (0 <=? i) && (i <? Z.of_nat (length s)) then Ok (<[Z.to_nat i := x]> s) else Err OutOfBounds.

(** The cells of an allocation of [n] pointers, cleared; the number of bytes is a [size_t]. *)
Definition new_slots (n : Z) : list Z := replicate (Z.to_nat (u64 (n * 8) / 8)) 0.

(** [for (i = 0; i < size; i++) new_slots[i] = slots[slot(d, i)];] *)
Fixpoint copy_out (d : op_deque_t) (n : nat) (i : Z) (new : list Z) : result failure (list Z) :=
  match n with
  | O => Ok new
  | S n =>
      let! x := read (slots d) (slot d i) in
      let! new := write new i x in
      copy_out d n (i + 1) new
  end.

Definition deque_grow (d : op_deque_t) : result failure op_deque_t :=
  let new_cap := u64 (cap d * 2) in
  if (new_cap <? cap d) || (SIZE_MAX / 8 <? new_cap) then Err Aborted
  else
    let! new := copy_out d (Z.to_nat (size d)) 0 (new_slots new_cap) in
    Ok {| slots := new; head := 0; size := size d; cap := new_cap |}.

Definition op_deque_init (hint : Z) : result failure op_deque_t :=
  let! c := next_pow2 hint in
  Ok {| cap := c; slots := new_slots c; head := 0; size := 0 |}.
Definition op_deque_create (hint : Z) : result failure op_deque_t := op_deque_init hint.
Definition op_deque_fini (d : op_deque_t) : op_deque_t := {| slots := []; head := 0; size := 0; cap := 0 |}.

Definition op_deque_push_back (d : op_deque_t) (item : Z) : result failure op_deque_t :=
  let! d := if size d =? cap d then deque_grow d else Ok d in
  let! s := write (slots d) (slot d (size d)) item in
  Ok {| slots := s; head := head d; size := size d + 1; cap := cap d |}.

Definition op_deque_push_front (d : op_deque_t) (item : Z) : result failure op_deque_t :=
  let! d := if size d =? cap d then deque_grow d else Ok d in
  let h := Z.land (u64 (head d - 1)) (cap d - 1) in
  let! s := write (slots d) h item in
  Ok {| slots := s; head := h; size := size d + 1; cap := cap d |}.

Definition set_size (d : op_deque_t) (h n : Z) : op_deque_t :=
  {| slots := slots d; head := h; size := n; cap := cap d |}.

Definition op_deque_pop_back (d : op_deque_t) : result failure (Z * op_deque_t) :=
  if size d =? 0 then Ok (0, d)
  else
    let d := set_size d (head d) (size d - 1) in
    let! x := read (slots d) (slot d (size d)) in
    Ok (x, d).

Definition op_deque_pop_front (d : op_deque_t) : result failure (Z * op_deque_t) :=
  if size d =? 0 then Ok (0, d)
  else
    let! item := read (slots d) (head d) in
    Ok (item, set_size d (Z.land (u64 (head d + 1)) (cap d - 1)) (size d - 1)).

Definition op_deque_front (d : op_deque_t) : result failure Z :=
  if size d =? 0 then Ok 0 else read (slots d) (head d).
Definition op_deque_back (d : op_deque_t) : result failure Z :=
  if size d =? 0 then Ok 0 else read (slots d) (slot d (size d - 1)).

Definition op_deque_at (d : op_deque_t) (i : Z) : result failure Z :=
  if size d <=? i then Ok 0 else read (slots d) (slot d i).
Definition op_deque_set (d : op_deque_t) (i item : Z) : result failure op_deque_t :=
  if size d <=? i then Ok d
  else
    let! s := write (slots d) (slot d i) item in
    Ok {| slots := s; head := head d; size := size d; cap := cap d |}.

Definition op_deque_clear (d : op_deque_t) : op_deque_t := set_size d 0 0.

Definition op_deque_reserve (d : op_deque_t) (n : Z) : result failure op_deque_t :=
  if n <=? cap d then Ok d
  else
    let! new_cap := next_pow2 n in
    let! new := copy_out d (Z.to_nat (size d)) 0 (new_slots new_cap) in
    Ok {| slots := new; head := 0; size := size d; cap := new_cap |}.

(** The items that the callback is given, which stops the loop when it answers false. *)
Fixpoint foreach_from (fn : Z -> bool) (d : op_deque_t) (n : nat) (i : Z) : result failure (list Z) :=
  match n with
  | O => Ok []
  | S n =>
      let! x := read (slots d) (slot d i) in
      if fn x then let! xs := foreach_from fn d n (i + 1) in Ok (x :: xs) else Ok [x]
  end.
Definition op_deque_foreach (d : op_deque_t) (fn : Z -> bool) : result failure (list Z) :=
  foreach_from fn d (Z.to_nat (size d)) 0.

(** ** The next power of two *)

(** [smear w n]: a bit is set when one of the [w] bits from it up is set in [n]. *)
Definition smeared (n : Z) (w : Z) (x : Z) : Prop :=
  0 <= x /\ forall i, 0 <= i -> Z.testbit x i = true <-> exists j, 0 <= j < w /\ Z.testbit n (i + j) = true.

Lemma smeared_start n : 0 <= n -> smeared n 1 n.
Proof.
  intros Hn. split; [done|]. intros i Hi. split.
  - intros H. exists 0. rewrite Z.add_0_r. split; [lia|done].
  - intros (j & Hj & H). replace (i + j) with i in H by lia. done.
Qed.

Lemma smeared_double n w x : 0 < w -> smeared n w x -> smeared n (w + w) (or_shift x w).
Proof.
  intros Hw [Hx Hs]. unfold or_shift. split.
  - apply Z.lor_nonneg. split; [done|]. by apply Z.shiftr_nonneg.
  - intros i Hi. rewrite Z.lor_spec, orb_true_iff, Z.shiftr_spec by done. rewrite (Hs i), (Hs (i + w)) by lia. split.
    + intros [(j & Hj & H)|(j & Hj & H)]; [exists j|exists (w + j)]; (split; [lia|]); [done|].
      by rewrite Z.add_assoc.
    + intros (j & Hj & H). destruct (Z.ltb_spec j w); [left; exists j|right; exists (j - w)]; (split; [lia|]); [done|].
      by replace (i + w + (j - w)) with (i + j) by lia.
Qed.

Lemma smeared_ones n w x : 0 < n < 2 ^ w -> 0 < w -> smeared n w x -> x = Z.ones (Z.log2 n + 1).
Proof.
  intros Hn Hw [Hx Hs]. apply Z.bits_inj'. intros i Hi. apply eq_true_iff_eq.
  pose proof (Z.log2_nonneg n) as Hl.
  assert (Hlw : Z.log2 n < w) by (apply Z.log2_lt_pow2; lia).
  rewrite Z.testbit_ones_nonneg by lia. rewrite Hs, Z.ltb_lt by done. split.
  - intros (j & Hj & H). destruct (Z.ltb_spec (Z.log2 n) (i + j)) as [Hlt|]; [|lia].
    rewrite Z.bits_above_log2 in H by lia. done.
  - intros Hlt. exists (Z.log2 n - i). split; [lia|]. replace (i + (Z.log2 n - i)) with (Z.log2 n) by lia.
    apply Z.bit_log2. lia.
Qed.

(** The result is the least power of two that is at least 8 and the number asked for. *)
Lemma next_pow2_spec n : 0 <= n <= SIZE_MAX / 2 -> exists k, 3 <= k <= 63 /\ next_pow2 n = Ok (2 ^ k) /\
  n <= 2 ^ k /\ (k = 3 \/ 2 ^ (k - 1) < n).
Proof.
  intros Hn. unfold next_pow2, DEFAULT_CAP, SIZE_MAX in *.
  destruct (Z.ltb_spec n 8); [exists 3; split_and!; try lia; done|].
  rewrite (proj2 (Z.ltb_ge _ _)) by lia. cbv zeta.
  assert (Hm : 7 <= n - 1 < 2 ^ 64).
  { change ((2 ^ 64 - 1) / 2) with (2 ^ 63 - 1) in Hn. lia. }
  assert (Hs : smeared (n - 1) 64 (or_shift (or_shift (or_shift (or_shift (or_shift (or_shift (n - 1) 1) 2) 4) 8) 16) 32)).
  { apply (smeared_double _ 32), (smeared_double _ 16), (smeared_double _ 8), (smeared_double _ 4),
      (smeared_double _ 2), (smeared_double _ 1), smeared_start; lia. }
  apply smeared_ones in Hs; [|lia|lia]. rewrite Hs. set (k := Z.log2 (n - 1) + 1).
  assert (Hk : 2 ^ (k - 1) <= n - 1 < 2 ^ k).
  { unfold k. replace (Z.log2 (n - 1) + 1 - 1) with (Z.log2 (n - 1)) by lia. apply Z.log2_spec. lia. }
  assert (Hk1 : 3 <= k).
  { unfold k. assert (Z.log2 7 <= Z.log2 (n - 1)) by (apply Z.log2_le_mono; lia). change (Z.log2 7) with 2 in *. lia. }
  assert (Hk2 : k <= 63).
  { unfold k. assert (Z.log2 (n - 1) < 63); [|lia]. apply Z.log2_lt_pow2; [lia|].
    change ((2 ^ 64 - 1) / 2) with (2 ^ 63 - 1) in Hn. lia. }
  exists k. split; [done|]. rewrite Z.ones_equiv. split; [|lia]. f_equal. unfold u64.
  rewrite Z.mod_small; [lia|]. split; [pose proof (Z.pow_nonneg 2 k); lia|].
  assert (2 ^ k <= 2 ^ 63) by (apply Z.pow_le_mono_r; lia). lia.
Qed.

(** ** The ring as a list *)

(** The cell of the [i]th element. *)
Definition idx (h c i : nat) : nat := if (h + i <? c)%nat then (h + i)%nat else (h + i - c)%nat.

Lemma idx_lt h c i : (h < c)%nat -> (i < c)%nat -> (idx h c i < c)%nat.
Proof. unfold idx. destruct (Nat.ltb_spec (h + i) c); lia. Qed.
Lemma idx_inj h c i j : (h < c)%nat -> (i < c)%nat -> (j < c)%nat -> idx h c i = idx h c j -> i = j.
Proof. unfold idx. destruct (Nat.ltb_spec (h + i) c), (Nat.ltb_spec (h + j) c); lia. Qed.

Definition abs (d : op_deque_t) : list Z :=
  (fun i => nth (idx (Z.to_nat (head d)) (Z.to_nat (cap d)) i) (slots d) 0) <$> seq 0 (Z.to_nat (size d)).

(** The capacity is a power of two, and the head and the size are within it. *)
Definition wf (d : op_deque_t) : Prop :=
  (exists k, 3 <= k <= 60 /\ cap d = 2 ^ k) /\ Z.of_nat (length (slots d)) = cap d /\
  0 <= head d < cap d /\ 0 <= size d <= cap d.

Lemma wf_cap d : wf d -> 8 <= cap d <= 2 ^ 60.
Proof.
  intros [(k & Hk & ->) _].
  assert (2 ^ 3 <= 2 ^ k <= 2 ^ 60) by (split; apply Z.pow_le_mono_r; lia). lia.
Qed.

Lemma land_cap d x : wf d -> 0 <= x -> Z.land (u64 x) (cap d - 1) = x mod cap d.
Proof.
  intros [(k & Hk & Ec) _] Hx. rewrite Ec. replace (2 ^ k - 1) with (Z.ones k) by (rewrite Z.ones_equiv; lia).
  rewrite Z.land_ones by lia. unfold u64. apply Z.mod_mod_divide.
  exists (2 ^ (64 - k)). rewrite <- Z.pow_add_r by lia. f_equal. lia.
Qed.

Lemma slot_idx d i : wf d -> 0 <= i <= cap d ->
  slot d i = (head d + i) mod cap d /\
  (i < cap d -> Z.to_nat (slot d i) = idx (Z.to_nat (head d)) (Z.to_nat (cap d)) (Z.to_nat i)).
Proof.
  intros Hwf Hi. pose proof Hwf as (_ & _ & Hh & _). unfold slot. rewrite land_cap by (done || lia).
  split; [done|]. intros Hlt. unfold idx. destruct (Nat.ltb_spec (Z.to_nat (head d) + Z.to_nat i) (Z.to_nat (cap d))).
  - rewrite Z.mod_small by lia. lia.
  - rewrite (Z.mod_eq (head d + i)) by lia.
    replace ((head d + i) / cap d) with 1; [lia|]. apply (Z.div_unique _ _ _ (head d + i - cap d)); lia.
Qed.

Lemma slot_bounds d i : wf d -> 0 <= i < cap d -> 0 <= slot d i < cap d.
Proof. intros Hwf Hi. destruct (slot_idx d i Hwf) as [-> _]; [lia|]. apply Z.mod_pos_bound. lia. Qed.

Lemma abs_length d : length (abs d) = Z.to_nat (size d).
Proof. unfold abs. by rewrite length_fmap, length_seq. Qed.

Lemma abs_lookup d i : (i < Z.to_nat (size d))%nat ->
  abs d !! i = Some (nth (idx (Z.to_nat (head d)) (Z.to_nat (cap d)) i) (slots d) 0).
Proof. intros Hi. unfold abs. by rewrite list_lookup_fmap, lookup_seq_lt. Qed.

Lemma read_nth s i : 0 <= i < Z.of_nat (length s) -> read s i = Ok (nth (Z.to_nat i) s 0).
Proof.
  intros Hi. unfold read. destruct (lookup_lt_is_Some_2 s (Z.to_nat i)) as [x E]; [lia|].
  rewrite E. f_equal. symmetry. by apply nth_lookup_Some.
Qed.

Lemma write_ok s i x : 0 <= i < Z.of_nat (length s) -> write s i x = Ok (<[Z.to_nat i := x]> s).
Proof. intros Hi. unfold write. by rewrite (proj2 (Z.leb_le _ _)), (proj2 (Z.ltb_lt _ _)) by lia. Qed.

(** The [i]th element is in its cell. *)
Lemma read_slot d i : wf d -> 0 <= i < size d ->
  exists x, read (slots d) (slot d i) = Ok x /\ abs d !! Z.to_nat i = Some x.
Proof.
  intros Hwf Hi. pose proof Hwf as (_ & Hl & Hh & Hs). pose proof (slot_bounds d i Hwf ltac:(lia)).
  eexists. rewrite read_nth by lia. split; [done|]. rewrite abs_lookup by lia.
  destruct (slot_idx d i Hwf) as [_ ->]; [lia|done|lia].
Qed.

(** A list with the given elements. *)
Lemma abs_eq d l : (length l = Z.to_nat (size d)) ->
  (forall i x, l !! i = Some x -> nth (idx (Z.to_nat (head d)) (Z.to_nat (cap d)) i) (slots d) 0 = x) ->
  abs d = l.
Proof.
  intros Hl H. apply list_eq_same_length with (Z.to_nat (size d)); [done|apply abs_length|].
  intros i x y Hi Hx Hy. rewrite abs_lookup in Hx by done. injection Hx as <-. by apply H.
Qed.

Lemma nth_insert (s : list Z) i j x : (i < length s)%nat -> nth j (<[i := x]> s) 0 = if decide (i = j) then x else nth j s 0.
Proof.
  intros Hi. rewrite !nth_lookup. case_decide; [subst; by rewrite list_lookup_insert_eq|].
  by rewrite list_lookup_insert_ne.
Qed.

(** ** Each operation on the list *)

Lemma copy_out_spec d n : forall i new, wf d -> 0 <= i -> i + Z.of_nat n = size d -> size d <= Z.of_nat (length new) ->
  exists new', copy_out d n i new = Ok new' /\ length new' = length new /\
    forall j, (j < length new)%nat -> nth j new' 0 =
      if decide (Z.to_nat i <= j < Z.to_nat (size d))%nat then nth j (abs d) 0 else nth j new 0.
Proof.
  induction n as [|n IH]; intros i new Hwf Hi Hn Hl; cbn [copy_out].
  - exists new. split_and!; [done|done|]. intros j Hj. rewrite decide_False by lia. done.
  - destruct (read_slot d i Hwf ltac:(lia)) as (x & -> & Hx). cbn [rbind].
    rewrite write_ok by lia. cbn [rbind].
    destruct (IH (i + 1) (<[Z.to_nat i := x]> new) Hwf) as (new' & E & Hlen & Hnth);
      [lia|lia|rewrite length_insert; lia|].
    exists new'. rewrite length_insert in *. split_and!; [done|done|]. intros j Hj.
    rewrite Hnth, nth_insert by lia.
    destruct (decide (Z.to_nat i = j)) as [<-|Hne].
    + rewrite decide_False, decide_True by lia. symmetry. by apply nth_lookup_Some.
    + repeat case_decide; done || lia.
Qed.

(** A new buffer with the elements at its start. *)
Lemma copied d c : wf d -> (exists k, 3 <= k <= 60 /\ c = 2 ^ k) -> size d <= c -> exists new,
  copy_out d (Z.to_nat (size d)) 0 (new_slots c) = Ok new /\
  wf {| slots := new; head := 0; size := size d; cap := c |} /\
  abs {| slots := new; head := 0; size := size d; cap := c |} = abs d.
Proof.
  intros Hwf Hc Hle. pose proof Hwf as (_ & _ & _ & Hs).
  assert (Hc60 : 8 <= c <= 2 ^ 60).
  { destruct Hc as (k & Hk & ->). assert (2 ^ 3 <= 2 ^ k <= 2 ^ 60) by (split; apply Z.pow_le_mono_r; lia). lia. }
  assert (Hlen : Z.of_nat (length (new_slots c)) = c).
  { unfold new_slots, u64. rewrite length_replicate, Z.mod_small by lia. rewrite Z.div_mul by lia. lia. }
  destruct (copy_out_spec d (Z.to_nat (size d)) 0 (new_slots c) Hwf) as (new & E & Hl & Hnth); [lia..|].
  exists new. split; [done|]. split; [split_and!; cbn; lia || done|].
  apply abs_eq; cbn [size head cap slots]; [apply abs_length|].
  intros i x Hx. pose proof (lookup_lt_Some _ _ _ Hx) as Hi. rewrite abs_length in Hi.
  unfold idx. change (Z.to_nat 0) with 0%nat. cbn [Nat.add]. rewrite (proj2 (Nat.ltb_lt _ _)) by lia.
  rewrite Hnth by lia. rewrite decide_True by lia. by apply nth_lookup_Some.
Qed.

(** The capacity a push needs is there, or made. *)
Definition room (d : op_deque_t) : result failure op_deque_t :=
  if size d =? cap d then deque_grow d else Ok d.

Lemma room_spec d : wf d -> size d < 2 ^ 60 -> exists d1,
  room d = Ok d1 /\ wf d1 /\ abs d1 = abs d /\ size d1 = size d /\ size d1 < cap d1.
Proof.
  intros Hwf Hs. unfold room. pose proof Hwf as ((k & Hk & Ec) & Hl & Hh & Hsz).
  pose proof (wf_cap d Hwf). destruct (Z.eqb_spec (size d) (cap d)) as [E|]; [|exists d; split_and!; done || lia].
  assert (Hk59 : k <= 59).
  { destruct (Z.leb_spec k 59); [done|]. replace k with 60 in Ec by lia. lia. }
  unfold deque_grow. cbv zeta. unfold u64. rewrite Z.mod_small by lia.
  assert (H2 : cap d * 2 = 2 ^ (k + 1)) by (rewrite Z.pow_add_r, Ec by lia; lia).
  assert (2 ^ (k + 1) <= 2 ^ 60) by (apply Z.pow_le_mono_r; lia).
  rewrite (proj2 (Z.ltb_ge _ _)) by lia. cbn [orb].
  rewrite (proj2 (Z.ltb_ge _ _)) by (change (SIZE_MAX / 8) with (2 ^ 61 - 1); lia).
  destruct (copied d (cap d * 2) Hwf) as (new & -> & Hw & Ha); [exists (k + 1); split; [lia|done]|lia|].
  cbn [rbind]. eexists. split; [done|]. split; [done|]. split; [done|]. cbn. lia.
Qed.

(** At the largest capacity a push that needs more aborts. *)
Lemma room_aborts d : wf d -> size d = 2 ^ 60 -> room d = Err Aborted.
Proof.
  intros Hwf Hs. pose proof (wf_cap d Hwf). pose proof Hwf as (_ & _ & _ & Hsz).
  unfold room. rewrite (proj2 (Z.eqb_eq _ _)) by lia. unfold deque_grow, u64. replace (cap d) with (2 ^ 60) by lia. done.
Qed.

Lemma push_back_spec d x : wf d -> size d < 2 ^ 60 ->
  exists d', op_deque_push_back d x = Ok d' /\ wf d' /\ abs d' = abs d ++ [x].
Proof.
  intros Hwf Hs. unfold op_deque_push_back. fold (room d).
  destruct (room_spec d Hwf Hs) as (d1 & -> & Hw1 & Ha & Es & Hlt). cbn [rbind].
  pose proof Hw1 as (Hc & Hl & Hh & Hsz). pose proof (slot_bounds d1 (size d1) Hw1 ltac:(lia)) as Hb.
  rewrite write_ok by lia. cbn [rbind]. eexists. split; [done|]. split.
  { split_and!; cbn; rewrite ?length_insert; done || lia. }
  rewrite <- Ha. apply abs_eq; cbn [size head cap slots]; [rewrite length_app, abs_length; cbn; lia|].
  intros i y Hy. destruct (slot_idx d1 (size d1) Hw1) as [_ Ei]; [lia|]. rewrite Ei by lia.
  rewrite nth_insert by (apply idx_lt || idtac; rewrite <- Ei by lia; lia).
  apply lookup_app_Some in Hy as [Hy|[Hge Hy]].
  - pose proof (lookup_lt_Some _ _ _ Hy) as Hi. rewrite abs_length in Hi.
    rewrite decide_False.
    + rewrite abs_lookup in Hy by done. by injection Hy as <-.
    + intros H%idx_inj; lia.
  - rewrite abs_length in *. destruct (i - Z.to_nat (size d1))%nat eqn:E; [|done]. injection Hy as <-.
    replace i with (Z.to_nat (size d1)) by lia. by rewrite decide_True.
Qed.

Lemma push_front_spec d x : wf d -> size d < 2 ^ 60 ->
  exists d', op_deque_push_front d x = Ok d' /\ wf d' /\ abs d' = x :: abs d.
Proof.
  intros Hwf Hs. unfold op_deque_push_front. fold (room d).
  destruct (room_spec d Hwf Hs) as (d1 & -> & Hw1 & Ha & Es & Hlt). cbn [rbind].
  pose proof Hw1 as (Hc & Hl & Hh & Hsz). pose proof (wf_cap d1 Hw1) as Hcap.
  set (h := Z.land (u64 (head d1 - 1)) (cap d1 - 1)).
  assert (Eh : h = if head d1 =? 0 then cap d1 - 1 else head d1 - 1).
  { unfold h. destruct (Z.eqb_spec (head d1) 0) as [E|E].
    - rewrite E. replace (u64 (0 - 1)) with (u64 (2 ^ 64 - 1)) by done. rewrite land_cap by (done || lia).
      destruct Hc as (k & Hk & Ek). rewrite Ek. symmetry. apply (Z.mod_unique _ _ (2 ^ (64 - k) - 1)); [lia|].
      assert (2 ^ 64 = 2 ^ k * 2 ^ (64 - k)) by (rewrite <- Z.pow_add_r by lia; f_equal; lia). lia.
    - rewrite land_cap by (done || lia). apply Z.mod_small. lia. }
  assert (Hhb : 0 <= h < cap d1) by (rewrite Eh; destruct (Z.eqb_spec (head d1) 0); lia).
  rewrite write_ok by lia. cbn [rbind]. eexists. split; [done|]. split.
  { split_and!; cbn; rewrite ?length_insert; done || lia. }
  rewrite <- Ha. apply abs_eq; cbn [size head cap slots]; [cbn; rewrite abs_length; lia|].
  intros i y Hy. rewrite nth_insert by lia. destruct i as [|i].
  - injection Hy as <-. rewrite decide_True; [done|]. unfold idx. rewrite Nat.add_0_r, (proj2 (Nat.ltb_lt _ _)); lia.
  - cbn in Hy. pose proof (lookup_lt_Some _ _ _ Hy) as Hi. rewrite abs_length in Hi.
    assert (Ei : idx (Z.to_nat h) (Z.to_nat (cap d1)) (S i) = idx (Z.to_nat (head d1)) (Z.to_nat (cap d1)) i).
    { rewrite Eh. unfold idx. destruct (Z.eqb_spec (head d1) 0);
        repeat match goal with |- context [(?a <? ?b)%nat] => destruct (Nat.ltb_spec a b) end; lia. }
    rewrite decide_False; [|rewrite <- (Nat.add_0_r (Z.to_nat h)) at 1].
    + rewrite Ei. rewrite abs_lookup in Hy by done. by injection Hy as <-.
    + assert (E0 : (Z.to_nat h + 0)%nat = idx (Z.to_nat h) (Z.to_nat (cap d1)) 0).
      { unfold idx. rewrite (proj2 (Nat.ltb_lt _ _)); lia. }
      rewrite E0. intros H%idx_inj; lia.
Qed.

Lemma pop_back_spec d : wf d -> exists d',
  op_deque_pop_back d = Ok (List.last (abs d) 0, d') /\ wf d' /\ abs d' = removelast (abs d).
Proof.
  intros Hwf. unfold op_deque_pop_back. pose proof Hwf as (Hc & Hl & Hh & Hs). pose proof (abs_length d) as La.
  destruct (Z.eqb_spec (size d) 0) as [E|E].
  - exists d. rewrite E in La. by destruct (abs d).
  - cbv zeta. cbn [size set_size head slots].
    assert (Hw' : wf (set_size d (head d) (size d - 1))) by (split_and!; cbn; done || lia).
    destruct (read_slot d (size d - 1) Hwf) as (x & Er & Hx); [lia|].
    change (slot (set_size d (head d) (size d - 1)) (size d - 1)) with (slot d (size d - 1)).
    rewrite Er. cbn [rbind]. exists (set_size d (head d) (size d - 1)).
    assert (Ea : abs d = abs (set_size d (head d) (size d - 1)) ++ [x]).
    { apply abs_eq; [rewrite length_app, abs_length; cbn; lia|]. intros i y Hy.
      apply lookup_app_Some in Hy as [Hy|[Hge Hy]].
      - pose proof (lookup_lt_Some _ _ _ Hy) as Hi. rewrite abs_length in Hi. rewrite abs_lookup in Hy by done.
        by injection Hy as <-.
      - rewrite abs_length in *. cbn [size set_size] in *. destruct (i - _)%nat eqn:Ei; [|done]. injection Hy as <-.
        replace i with (Z.to_nat (size d - 1)) by lia. rewrite abs_lookup in Hx by lia. by injection Hx as <-. }
    rewrite Ea, List.last_last, removelast_last. done.
Qed.

Lemma pop_front_spec d : wf d -> exists d',
  op_deque_pop_front d = Ok (hd 0 (abs d), d') /\ wf d' /\ abs d' = tl (abs d).
Proof.
  intros Hwf. unfold op_deque_pop_front. pose proof Hwf as (Hc & Hl & Hh & Hs). pose proof (abs_length d) as La.
  pose proof (wf_cap d Hwf) as Hcap. destruct (Z.eqb_spec (size d) 0) as [E|E].
  - exists d. rewrite E in La. by destruct (abs d).
  - rewrite read_nth by lia. cbn [rbind]. set (d' := set_size d (Z.land (u64 (head d + 1)) (cap d - 1)) (size d - 1)).
    assert (Eh : head d' = if head d + 1 =? cap d then 0 else head d + 1).
    { unfold d'. cbn. rewrite land_cap by (done || lia). destruct (Z.eqb_spec (head d + 1) (cap d)) as [->|].
      - apply Z.mod_same. lia.
      - apply Z.mod_small. lia. }
    assert (Hw' : wf d').
    { split_and!; [done|done|..]; rewrite ?Eh; cbn; destruct (Z.eqb_spec (head d + 1) (cap d)); lia. }
    assert (Es' : slots d' = slots d) by done. assert (Ec' : cap d' = cap d) by done.
    assert (Ez : size d' = size d - 1) by done. clearbody d'.
    assert (Ea : abs d = nth (Z.to_nat (head d)) (slots d) 0 :: abs d').
    { apply abs_eq; [cbn; rewrite abs_length; lia|]. intros [|i] y Hy.
      - injection Hy as <-. f_equal. unfold idx. rewrite Nat.add_0_r, (proj2 (Nat.ltb_lt _ _)); lia.
      - cbn in Hy. pose proof (lookup_lt_Some _ _ _ Hy) as Hi. rewrite abs_length in Hi. rewrite abs_lookup in Hy by done.
        injection Hy as <-. rewrite Es', Ec', Eh. f_equal. unfold idx. destruct (Z.eqb_spec (head d + 1) (cap d));
          repeat match goal with |- context [(?a <? ?b)%nat] => destruct (Nat.ltb_spec a b) end; lia. }
    exists d'. by rewrite Ea.
Qed.

Lemma at_spec d i : wf d -> 0 <= i -> op_deque_at d i = Ok (default 0 (abs d !! Z.to_nat i)).
Proof.
  intros Hwf Hi. unfold op_deque_at. destruct (Z.leb_spec (size d) i).
  - rewrite lookup_ge_None_2; [done|]. rewrite abs_length. lia.
  - destruct (read_slot d i Hwf) as (x & -> & ->); [lia|done].
Qed.

Lemma set_spec d i x : wf d -> 0 <= i ->
  exists d', op_deque_set d i x = Ok d' /\ wf d' /\ abs d' = <[Z.to_nat i := x]> (abs d).
Proof.
  intros Hwf Hi. unfold op_deque_set. pose proof Hwf as (Hc & Hl & Hh & Hs). destruct (Z.leb_spec (size d) i) as [Hge|Hlt].
  - exists d. split_and!; [done|done|]. rewrite list_insert_ge; [done|]. rewrite abs_length. lia.
  - pose proof (slot_bounds d i Hwf ltac:(lia)). rewrite write_ok by lia. cbn [rbind]. eexists. split; [done|].
    split; [split_and!; cbn; rewrite ?length_insert; done || lia|].
    apply abs_eq; cbn [size head cap slots]; [by rewrite length_insert, abs_length|]. intros j y Hy.
    destruct (slot_idx d i Hwf) as [_ Ei]; [lia|]. rewrite nth_insert by lia. rewrite Ei by lia.
    pose proof (lookup_lt_Some _ _ _ Hy) as Hj. rewrite length_insert, abs_length in Hj.
    destruct (decide (Z.to_nat i = j)) as [<-|Hne].
    + rewrite list_lookup_insert_eq in Hy by (rewrite abs_length; lia). injection Hy as <-. by rewrite decide_True.
    + rewrite list_lookup_insert_ne in Hy by done. rewrite decide_False by (intros H1%idx_inj; lia).
      rewrite abs_lookup in Hy by done. by injection Hy as <-.
Qed.

Lemma front_spec d : wf d -> op_deque_front d = Ok (hd 0 (abs d)).
Proof.
  intros Hwf. destruct (pop_front_spec d Hwf) as (d' & E & _ & _). revert E.
  unfold op_deque_pop_front, op_deque_front. pose proof (abs_length d) as La.
  destruct (Z.eqb_spec (size d) 0) as [E|E]; [rewrite E in La; by destruct (abs d)|].
  destruct (read _ _); [|done]. cbn. by intros [= -> _].
Qed.

Lemma back_spec d : wf d -> op_deque_back d = Ok (List.last (abs d) 0).
Proof.
  intros Hwf. destruct (pop_back_spec d Hwf) as (d' & E & _ & _). revert E.
  unfold op_deque_pop_back, op_deque_back. pose proof (abs_length d) as La.
  destruct (Z.eqb_spec (size d) 0) as [E|E]; [rewrite E in La; by destruct (abs d)|].
  cbv zeta. cbn [size set_size slots]. change (slot (set_size d (head d) (size d - 1)) (size d - 1)) with (slot d (size d - 1)).
  destruct (read _ _); [|done]. cbn. by intros [= -> _].
Qed.

Lemma clear_spec d : wf d -> wf (op_deque_clear d) /\ abs (op_deque_clear d) = [].
Proof. intros Hwf. pose proof (wf_cap d Hwf). destruct Hwf as (Hc & Hl & Hh & Hs). split; [|done]. split_and!; cbn; done || lia. Qed.

(** [next_pow2] of a capacity that can be allocated. *)
Lemma next_pow2_60 n : 0 <= n <= 2 ^ 60 -> exists k, 3 <= k <= 60 /\ next_pow2 n = Ok (2 ^ k) /\ n <= 2 ^ k.
Proof.
  intros Hn. destruct (next_pow2_spec n) as (k & Hk & E & Hle & Hmin); [change (SIZE_MAX / 2) with (2 ^ 63 - 1); lia|].
  exists k. split_and!; try done; [lia|]. destruct Hmin as [->|Hlt]; [lia|].
  destruct (Z.leb_spec k 60); [done|]. assert (2 ^ 60 <= 2 ^ (k - 1)) by (apply Z.pow_le_mono_r; lia). lia.
Qed.

Lemma reserve_spec d n : wf d -> 0 <= n <= 2 ^ 60 ->
  exists d', op_deque_reserve d n = Ok d' /\ wf d' /\ abs d' = abs d /\ n <= cap d'.
Proof.
  intros Hwf Hn. unfold op_deque_reserve. destruct (Z.leb_spec n (cap d)); [by exists d|].
  pose proof Hwf as (_ & _ & _ & Hs). destruct (next_pow2_60 n Hn) as (k & Hk & -> & Hle). cbn [rbind].
  destruct (copied d (2 ^ k) Hwf) as (new & -> & Hw & Ha); [by exists k|lia|]. cbn [rbind]. by eexists.
Qed.

Lemma init_spec hint : 0 <= hint <= 2 ^ 60 ->
  exists d, op_deque_init hint = Ok d /\ wf d /\ abs d = [] /\ hint <= cap d.
Proof.
  intros Hn. unfold op_deque_init. destruct (next_pow2_60 hint Hn) as (k & Hk & -> & Hle). cbn [rbind].
  eexists. split; [done|]. split; [|by split]. assert (2 ^ 3 <= 2 ^ k <= 2 ^ 60) by (split; apply Z.pow_le_mono_r; lia).
  split_and!; cbn; try lia; [by exists k|]. unfold new_slots, u64.
  rewrite length_replicate, Z.mod_small by lia. rewrite Z.div_mul by lia. lia.
Qed.

(** The callback sees the items up to and including the first it refuses. *)
Fixpoint visited (fn : Z -> bool) (l : list Z) : list Z :=
  match l with [] => [] | x :: l => x :: (if fn x then visited fn l else []) end.

Lemma foreach_spec d fn : wf d -> op_deque_foreach d fn = Ok (visited fn (abs d)).
Proof.
  intros Hwf. unfold op_deque_foreach.
  assert (H : forall n i, 0 <= i -> i + Z.of_nat n = size d ->
            foreach_from fn d n i = Ok (visited fn (drop (Z.to_nat i) (abs d)))).
  { induction n as [|n IH]; intros i Hi Hn; cbn [foreach_from].
    - rewrite drop_ge by (rewrite abs_length; lia). done.
    - destruct (read_slot d i Hwf) as (x & -> & Hx); [lia|]. cbn [rbind].
      rewrite (drop_S _ _ _ Hx). cbn [visited]. destruct (fn x); [|done].
      rewrite IH by lia. cbn [rbind]. by replace (Z.to_nat (i + 1)) with (S (Z.to_nat i)) by lia. }
  destruct Hwf as (_ & _ & _ & Hs). rewrite H by lia. done.
Qed.

(** ** Any sequence of operations *)

Inductive dop : Type :=
| PushBack (x : Z) | PushFront (x : Z) | PopBack | PopFront | Front | Back
| At (i : Z) | Set_ (i x : Z) | Clear | Reserve (n : Z) | Foreach (fn : Z -> bool).

(** What a call returns (nothing, a pointer, or the pointers a callback saw), and the deque. *)
Definition do_dop (o : dop) (d : op_deque_t) : result failure (list Z * op_deque_t) :=
  match o with
  | PushBack x => let! d := op_deque_push_back d x in Ok ([], d)
  | PushFront x => let! d := op_deque_push_front d x in Ok ([], d)
  | PopBack => let! (x, d) := op_deque_pop_back d in Ok ([x], d)
  | PopFront => let! (x, d) := op_deque_pop_front d in Ok ([x], d)
  | Front => let! x := op_deque_front d in Ok ([x], d)
  | Back => let! x := op_deque_back d in Ok ([x], d)
  | At i => let! x := op_deque_at d i in Ok ([x], d)
  | Set_ i x => let! d := op_deque_set d i x in Ok ([], d)
  | Clear => Ok ([], op_deque_clear d)
  | Reserve n => let! d := op_deque_reserve d n in Ok ([], d)
  | Foreach fn => let! xs := op_deque_foreach d fn in Ok (xs, d)
  end.

(** The same on a list. *)
Definition list_dop (o : dop) (l : list Z) : list Z * list Z :=
  match o with
  | PushBack x => ([], l ++ [x])
  | PushFront x => ([], x :: l)
  | PopBack => ([List.last l 0], removelast l)
  | PopFront => ([hd 0 l], tl l)
  | Front => ([hd 0 l], l)
  | Back => ([List.last l 0], l)
  | At i => ([default 0 (l !! Z.to_nat i)], l)
  | Set_ i x => ([], <[Z.to_nat i := x]> l)
  | Clear => ([], [])
  | Reserve _ => ([], l)
  | Foreach fn => (visited fn l, l)
  end.

Fixpoint do_dops (os : list dop) (d : op_deque_t) : result failure (list (list Z) * op_deque_t) :=
  match os with
  | [] => Ok ([], d)
  | o :: os =>
      let! (r, d) := do_dop o d in
      let! (rs, d) := do_dops os d in
      Ok (r :: rs, d)
  end.
Fixpoint list_dops (os : list dop) (l : list Z) : list (list Z) * list Z :=
  match os with
  | [] => ([], l)
  | o :: os => let '(r, l) := list_dop o l in let '(rs, l) := list_dops os l in (r :: rs, l)
  end.

(** Indices are not negative, and a reservation can be allocated. *)
Definition dop_ok (o : dop) : Prop :=
  match o with At i | Set_ i _ => 0 <= i | Reserve n => 0 <= n <= 2 ^ 60 | _ => True end.

Lemma do_dop_spec o d : wf d -> dop_ok o -> Z.of_nat (length (abs d)) < 2 ^ 60 -> exists d',
  do_dop o d = Ok (fst (list_dop o (abs d)), d') /\ wf d' /\ abs d' = snd (list_dop o (abs d)).
Proof.
  intros Hwf Ho Hl. assert (Hs : size d < 2 ^ 60) by (rewrite abs_length in Hl; destruct Hwf as (_ & _ & _ & ?); lia).
  destruct o; cbn [do_dop list_dop dop_ok fst snd] in *.
  - destruct (push_back_spec d x Hwf Hs) as (d' & -> & Hw & Ha). by exists d'.
  - destruct (push_front_spec d x Hwf Hs) as (d' & -> & Hw & Ha). by exists d'.
  - destruct (pop_back_spec d Hwf) as (d' & -> & Hw & Ha). by exists d'.
  - destruct (pop_front_spec d Hwf) as (d' & -> & Hw & Ha). by exists d'.
  - rewrite front_spec by done. by exists d.
  - rewrite back_spec by done. by exists d.
  - rewrite at_spec by done. by exists d.
  - destruct (set_spec d i x Hwf Ho) as (d' & -> & Hw & Ha). by exists d'.
  - exists (op_deque_clear d). destruct (clear_spec d Hwf). by split_and!.
  - destruct (reserve_spec d n Hwf Ho) as (d' & -> & Hw & Ha & _). by exists d'.
  - rewrite foreach_spec by done. by exists d.
Qed.

Lemma list_dop_length o l : (length (snd (list_dop o l)) <= S (length l))%nat.
Proof.
  destruct o; cbn [list_dop snd]; rewrite ?length_app, ?length_insert; cbn; try lia.
  - induction l as [|x [|y l] IH]; cbn in *; lia.
  - destruct l; cbn; lia.
Qed.

(** C32. The ring buffer implements a list.  Any sequence of pushes and pops at both ends,
    peeks, reads and writes by index (out of range too), clears, reservations and walks
    answers as the same sequence on a list, without a write outside the buffer, and leaves
    the list's elements; as long as fewer than 2^60 elements can be there. *)
Theorem deque_refines_list os d :
  wf d -> Forall dop_ok os -> Z.of_nat (length (abs d)) + Z.of_nat (length os) <= 2 ^ 60 ->
  exists d', do_dops os d = Ok (fst (list_dops os (abs d)), d') /\ wf d' /\ abs d' = snd (list_dops os (abs d)).
Proof.
  intros Hwf Hos. revert d Hwf. induction Hos as [|o os Ho _ IH]; intros d Hwf Hl; cbn [do_dops list_dops]; [by exists d|].
  cbn [length] in Hl. destruct (do_dop_spec o d Hwf Ho) as (d1 & -> & Hw1 & Ha1); [lia|]. cbn [rbind].
  pose proof (list_dop_length o (abs d)) as Hlen. destruct (IH d1 Hw1) as (d2 & -> & Hw2 & Ha2); [rewrite Ha1; lia|].
  cbn [rbind]. exists d2. rewrite Ha1 in *. destruct (list_dop o (abs d)) as [r l]. cbn [fst snd] in *.
  by destruct (list_dops os l) as [rs l'].
Qed.

Definition empty_deque : op_deque_t :=
  match op_deque_create 0 with Ok d => d | Err _ => op_deque_fini {| slots := []; head := 0; size := 0; cap := 0 |} end.

Lemma deque_refines_list_witness :
  exists d', do_dops [PushBack 5; PushFront 4; At 7; PopBack; Front] empty_deque =
      Ok (fst (list_dops [PushBack 5; PushFront 4; At 7; PopBack; Front] (abs empty_deque)), d') /\
    wf d' /\ abs d' = snd (list_dops [PushBack 5; PushFront 4; At 7; PopBack; Front] (abs empty_deque)).
Proof.
  apply deque_refines_list.
  - split; [exists 3; split; [lia|reflexivity]|]. split_and!; vm_compute; intuition discriminate.
  - repeat constructor; cbn; lia.
  - vm_compute. discriminate.
Defined.

(** A reservation of more than 2^60 elements is not refused, as the growth is: the
    number of bytes wraps to nothing, the deque has a capacity without a buffer, and the
    first push writes outside it. *)
Theorem reserve_overflow n x :
  2 ^ 60 < n <= 2 ^ 61 ->
  exists d, op_deque_init n = Ok d /\ cap d = 2 ^ 61 /\ slots d = [] /\ op_deque_push_back d x = Err OutOfBounds.
Proof.
  intros Hn. destruct (next_pow2_spec n) as (k & Hk & E & Hle & Hmin); [change (SIZE_MAX / 2) with (2 ^ 63 - 1); lia|].
  assert (k = 61) as ->.
  { destruct Hmin as [->|Hlt]; [lia|]. destruct (Z.lt_trichotomy k 61) as [H|[H|H]]; [|done|].
    - assert (2 ^ k <= 2 ^ 60) by (apply Z.pow_le_mono_r; lia). lia.
    - assert (2 ^ 61 <= 2 ^ (k - 1)) by (apply Z.pow_le_mono_r; lia). lia. }
  unfold op_deque_init. rewrite E. cbn [rbind]. eexists. split; [done|]. split_and!; vm_compute; reflexivity.
Qed.

Lemma reserve_overflow_witness :
  exists d, op_deque_init (2 ^ 60 + 1) = Ok d /\ cap d = 2 ^ 61 /\ slots d = [] /\
    op_deque_push_back d 7 = Err OutOfBounds.
Proof. apply reserve_overflow. split; vm_compute; [reflexivity|discriminate]. Defined.
