(* ===== verification/Vec.v ===== *)
(** * Dynamic arrays (libop/src/vec.c)

    The arrays that hold, among other things, the masks and accounts of users.  The buffer is
    a list of cells, those that were never written being apart, and the operations are proved
    to implement a list, without an access outside the buffer or to such a cell. *)

From S2P Require Import Prelude.
From stdpp Require Import list.
#[local] Open Scope Z_scope.

Definition VEC_DEFAULT_CAP : Z := 8.
(** Pointers are numbers, and 0 is NULL. *)
Record op_vec_t := { data : list (option Z); size : Z; cap : Z }.

(** [abort()], an access outside the buffer, a cell that was never written. *)
Inductive vfault := VAborted | VOutside | VUnset.

(** [(size_t) -1] *)
Definition NOT_FOUND : Z := 2 ^ 64 - 1.

(** [op_realloc], which ends the program when it gets no memory, as for no bytes. *)
Definition op_realloc (d : list (option Z)) (bytes : Z) : result vfault (list (option Z)) :=
  let n := Z.to_nat (bytes / 8) in
  match d with
  | _ :: _ => if bytes =? 0 then Err VAborted else Ok (take n d ++ replicate (n - length d) None)
  | [] => Ok (replicate n None)
  end.
Definition rd (d : list (option Z)) (i : Z) : result vfault Z :=
  match d !! Z.to_nat i with Some (Some x) => Ok x | Some None => Err VUnset | None => Err VOutside end.
Definition wr (d : list (option Z)) (i x : Z) : result vfault (list (option Z)) :=
  if (0 <=? i) && (i <? Z.of_nat (length d)) then Ok (<[Z.to_nat i := Some x]> d) else Err VOutside.
(** [memmove] of [n] cells. *)
Definition memmove (d : list (option Z)) (dst src n : Z) : result vfault (list (option Z)) :=
  let '(dst, src, n) := (Z.to_nat dst, Z.to_nat src, Z.to_nat n) in
  if Nat.leb (src + n) (length d) && Nat.leb (dst + n) (length d)
  then Ok (take dst d ++ take n (drop src d) ++ drop (dst + n) d) else Err VOutside.

(** ** Capacity *)

Definition vec_resize (v : op_vec_t) (new_cap : Z) : result vfault op_vec_t :=
  let! d := op_realloc (data v) (u64 (new_cap * 8)) in Ok {| data := d; size := size v; cap := new_cap |}.
Definition vec_maybe_grow (v : op_vec_t) : result vfault op_vec_t :=
  if size v <? cap v then Ok v
  else
    let new_cap := if cap v =? 0 then VEC_DEFAULT_CAP else u64 (cap v * 2) in
    if (new_cap <? cap v) || ((2 ^ 64 - 1) / 8 <? new_cap) then Err VAborted else vec_resize v new_cap.
Definition vec_maybe_shrink (v : op_vec_t) : result vfault op_vec_t :=
  if cap v <=? VEC_DEFAULT_CAP then Ok v
  else if cap v / 4 <? size v then Ok v
  else vec_resize v (Z.max (cap v / 2) VEC_DEFAULT_CAP).
Definition op_vec_reserve (v : op_vec_t) (new_cap : Z) : result vfault op_vec_t :=
  if cap v <? new_cap then vec_resize v new_cap else Ok v.
Definition op_vec_shrink (v : op_vec_t) : result vfault op_vec_t :=
  if size v =? 0 then Ok {| data := replicate (Z.to_nat VEC_DEFAULT_CAP) (Some 0); size := size v; cap := VEC_DEFAULT_CAP |}
  else if size v <? cap v then vec_resize v (size v) else Ok v.

(** ** Operations *)

(** [op_malloc] clears. *)
Definition op_vec_init (initial_cap : Z) : op_vec_t :=
  let cap := if 0 <? initial_cap then initial_cap else VEC_DEFAULT_CAP in
  {| data := replicate (Z.to_nat (u64 (cap * 8) / 8)) (Some 0); size := 0; cap := cap |}.
(** What [op_vec_fini] leaves, and what the block heap gives: no buffer. *)
Definition no_vec : op_vec_t := {| data := []; size := 0; cap := 0 |}.
(** The elements a callback gets. *)
Fixpoint elements_from (v : op_vec_t) (n : nat) (i : Z) : result vfault (list Z) :=
  match n with O => Ok [] | S n => let! x := rd (data v) i in let! xs := elements_from v n (i + 1) in Ok (x :: xs) end.
Definition elements (v : op_vec_t) : result vfault (list Z) := elements_from v (Z.to_nat (size v)) 0.
Definition op_vec_fini (free_cb : bool) (v : op_vec_t) : result vfault (list Z * op_vec_t) :=
  let! xs := if free_cb then elements v else Ok [] in Ok (xs, no_vec).
Definition op_vec_clear (free_cb : bool) (v : op_vec_t) : result vfault (list Z * op_vec_t) :=
  let! xs := if free_cb then elements v else Ok [] in Ok (xs, {| data := data v; size := 0; cap := cap v |}).

Definition put (v : op_vec_t) (d : list (option Z)) (n : Z) : op_vec_t := {| data := d; size := n; cap := cap v |}.
Definition op_vec_push (v : op_vec_t) (elem : Z) : result vfault op_vec_t :=
  let! v := vec_maybe_grow v in
  let! d := wr (data v) (size v) elem in Ok (put v d (size v + 1)).
Definition op_vec_pop (v : op_vec_t) : result vfault (Z * op_vec_t) :=
  if size v =? 0 then Ok (0, v)
  else
    let! elem := rd (data v) (size v - 1) in
    let! v := vec_maybe_shrink (put v (data v) (size v - 1)) in Ok (elem, v).
Definition op_vec_insert (v : op_vec_t) (idx elem : Z) : result vfault op_vec_t :=
  let idx := if size v <? idx then size v else idx in
  let! v := vec_maybe_grow v in
  let! d := if idx <? size v then memmove (data v) (idx + 1) idx (size v - idx) else Ok (data v) in
  let! d := wr d idx elem in Ok (put v d (size v + 1)).
Definition op_vec_remove (v : op_vec_t) (idx : Z) : result vfault (Z * op_vec_t) :=
  if size v <=? idx then Ok (0, v)
  else
    let! elem := rd (data v) idx in
    let! d := if idx <? size v - 1 then memmove (data v) idx (idx + 1) (size v - idx - 1) else Ok (data v) in
    let! v := vec_maybe_shrink (put v d (size v - 1)) in Ok (elem, v).
Definition op_vec_remove_fast (v : op_vec_t) (idx : Z) : result vfault (Z * op_vec_t) :=
  if size v <=? idx then Ok (0, v)
  else
    let! elem := rd (data v) idx in
    let! last := rd (data v) (size v - 1) in
    let! d := wr (data v) idx last in
    let! v := vec_maybe_shrink (put v d (size v - 1)) in Ok (elem, v).
Definition op_vec_get (v : op_vec_t) (idx : Z) : result vfault Z := rd (data v) idx.
Definition op_vec_set (v : op_vec_t) (idx elem : Z) : result vfault op_vec_t :=
  let! d := wr (data v) idx elem in Ok (put v d (size v)).

(** ** Searching *)

(** The first index from [i] on with an element that [f] takes. *)
Fixpoint find_from (f : Z -> bool) (v : op_vec_t) (n : nat) (i : Z) : result vfault Z :=
  match n with
  | O => Ok NOT_FOUND
  | S n => let! x := rd (data v) i in if f x then Ok i else find_from f v n (i + 1)
  end.
Definition op_vec_find (cmp : Z -> Z) (v : op_vec_t) : result vfault Z := find_from (fun x => cmp x =? 0) v (Z.to_nat (size v)) 0.
Definition op_vec_remove_ptr (v : op_vec_t) (ptr : Z) : result vfault op_vec_t :=
  let! i := find_from (Z.eqb ptr) v (Z.to_nat (size v)) 0 in
  if i =? NOT_FOUND then Ok v else let! r := op_vec_remove_fast v i in Ok (snd r).
Definition op_vec_contains (v : op_vec_t) (ptr : Z) : result vfault bool :=
  let! i := find_from (Z.eqb ptr) v (Z.to_nat (size v)) 0 in Ok (negb (i =? NOT_FOUND)).
Definition op_vec_move_ptr (src dst : op_vec_t) (ptr : Z) : result vfault (op_vec_t * op_vec_t) :=
  let! src := op_vec_remove_ptr src ptr in let! dst := op_vec_push dst ptr in Ok (src, dst).

(** [cmp x] compares the element with the key.  A turn halves the range, so that it is done
    after as many turns as there are elements. *)
Fixpoint bsearch_loop (cmp : Z -> Z) (v : op_vec_t) (fuel : nat) (lo hi : Z) : result vfault Z :=
  match fuel with
  | O => Ok NOT_FOUND
  | S fuel =>
      if lo <? hi then
        let mid := lo + (hi - lo) / 2 in
        let! x := rd (data v) mid in
        let c := cmp x in
        if c =? 0 then Ok mid else if c <? 0 then bsearch_loop cmp v fuel (mid + 1) hi else bsearch_loop cmp v fuel lo mid
      else Ok NOT_FOUND
  end.
Definition op_vec_bsearch (cmp : Z -> Z) (v : op_vec_t) : result vfault Z := bsearch_loop cmp v (S (Z.to_nat (size v))) 0 (size v).

(** The elements that the callback gets, which goes on while it answers 0. *)
Fixpoint each_from (cb : Z -> bool) (v : op_vec_t) (n : nat) (i : Z) : result vfault (list Z) :=
  match n with
  | O => Ok []
  | S n => let! x := rd (data v) i in if cb x then Ok [x] else let! xs := each_from cb v n (i + 1) in Ok (x :: xs)
  end.
Definition op_vec_foreach (cb : Z -> bool) (v : op_vec_t) : result vfault (list Z) := each_from cb v (Z.to_nat (size v)) 0.

(** ** The buffer holds a list *)

Record vec_ok (v : op_vec_t) (l : list Z) : Prop := {
  vo_size : size v = Z.of_nat (length l);
  vo_cap : size v <= cap v <= 2 ^ 60;
  vo_len : Z.of_nat (length (data v)) = cap v;
  vo_data : exists rest, data v = (Some <$> l) ++ rest
}.

Lemma vec_ok_intro d n l rest c : d = (Some <$> l) ++ rest -> n = Z.of_nat (length l) -> Z.of_nat (length d) = c -> c <= 2 ^ 60 ->
  vec_ok {| data := d; size := n; cap := c |} l.
Proof.
  intros Hd Hn Hc Hb. split; cbn [data size cap]; [done| |done|by exists rest].
  rewrite <- Hc, Hd, length_app, length_fmap in *. lia.
Qed.

Lemma rd_list l rest i x : l !! Z.to_nat i = Some x -> rd ((Some <$> l) ++ rest) i = Ok x.
Proof.
  intros H. unfold rd. rewrite lookup_app_l by (rewrite length_fmap; by apply lookup_lt_Some in H). by rewrite list_lookup_fmap, H.
Qed.
Lemma rd_ok v l i x : vec_ok v l -> l !! Z.to_nat i = Some x -> rd (data v) i = Ok x.
Proof. intros Hv H. destruct (vo_data _ _ Hv) as [rest ->]. by apply rd_list. Qed.

Lemma wr_at l x rest : forall d, d = (Some <$> l) ++ rest -> forall i y, 0 <= i -> l !! Z.to_nat i = Some y ->
  wr d i x = Ok ((Some <$> <[Z.to_nat i := x]> l) ++ rest).
Proof.
  intros d -> i y Hi Hl. unfold wr. apply lookup_lt_Some in Hl as Hlt. rewrite length_app, length_fmap.
  rewrite (proj2 (Z.leb_le 0 i)), (proj2 (Z.ltb_lt i _)) by lia. cbn [andb].
  rewrite insert_app_l by by rewrite length_fmap. by rewrite list_fmap_insert.
Qed.
Lemma wr_end l x r rest i : i = Z.of_nat (length l) -> wr ((Some <$> l) ++ r :: rest) i x = Ok ((Some <$> (l ++ [x])) ++ rest).
Proof.
  intros ->. unfold wr. rewrite length_app, length_fmap. cbn [length].
  rewrite (proj2 (Z.leb_le 0 _)), (proj2 (Z.ltb_lt (Z.of_nat (length l)) _)) by lia. cbn [andb].
  rewrite Nat2Z.id, insert_app_r_alt by by rewrite length_fmap. rewrite length_fmap, Nat.sub_diag. cbn.
  by rewrite fmap_app, <- app_assoc.
Qed.

(** ** Capacity *)

Lemma resize_ok v l n : vec_ok v l -> Z.of_nat (length l) <= n <= 2 ^ 60 -> 0 < n ->
  exists v', vec_resize v n = Ok v' /\ vec_ok v' l /\ cap v' = n.
Proof.
  intros [Hs Hc Hl [rest Hd]] Hn Hp. unfold vec_resize, op_realloc. assert (E : u64 (n * 8) = n * 8) by (apply Z.mod_small; lia). rewrite E, Z.div_mul by lia.
  assert (H : forall d, (exists r, d = (Some <$> l) ++ r) -> Z.of_nat (length d) = n -> vec_ok {| data := d; size := size v; cap := n |} l)
    by (intros d [r Hr] Hln; by eapply vec_ok_intro; [exact Hr| | |lia]).
  destruct (data v) as [|c d] eqn:Ed.
  - eexists. split; [reflexivity|]. split; [|done]. apply H; [|by rewrite length_replicate, Z2Nat.id by lia].
    destruct l; [by eexists|discriminate].
  - rewrite (proj2 (Z.eqb_neq (n * 8) 0)) by lia. eexists. split; [reflexivity|]. split; [|done]. apply H.
    + rewrite Hd. rewrite take_app_ge by (rewrite length_fmap; lia). rewrite <- app_assoc. by eexists.
    + rewrite length_app, length_take, length_replicate. lia.
Qed.

Lemma vec_grow_ok v l : vec_ok v l -> Z.of_nat (length l) < 2 ^ 59 -> exists v', vec_maybe_grow v = Ok v' /\ vec_ok v' l /\ size v' < cap v'.
Proof.
  intros Hv Hl. unfold vec_maybe_grow. destruct (Z.ltb_spec (size v) (cap v)) as [|Hge]; [by exists v|].
  pose proof (vo_size _ _ Hv) as Hs. pose proof (vo_cap _ _ Hv) as Hc.
  assert (exists n, (if cap v =? 0 then VEC_DEFAULT_CAP else u64 (cap v * 2)) = n /\ cap v < n <= 2 ^ 60) as (n & -> & Hn).
  { eexists. split; [reflexivity|]. unfold VEC_DEFAULT_CAP, u64. destruct (Z.eqb_spec (cap v) 0); [lia|]. rewrite Z.mod_small by lia. lia. }
  rewrite (proj2 (Z.ltb_ge n (cap v))) by lia. rewrite (proj2 (Z.ltb_ge _ n)) by (change ((2 ^ 64 - 1) / 8) with (2 ^ 61 - 1); lia). cbn [orb].
  destruct (resize_ok v l n Hv) as (v' & E & Hv' & Hc'); [lia..|]. exists v'. split; [done|]. split; [done|].
  rewrite Hc', (vo_size _ _ Hv'). lia.
Qed.

Lemma shrink_ok v l : vec_ok v l -> exists v', vec_maybe_shrink v = Ok v' /\ vec_ok v' l.
Proof.
  intros Hv. unfold vec_maybe_shrink. destruct (Z.leb_spec (cap v) VEC_DEFAULT_CAP); [by exists v|].
  destruct (Z.ltb_spec (cap v / 4) (size v)) as [|Hs]; [by exists v|]. pose proof (vo_size _ _ Hv). pose proof (vo_cap _ _ Hv).
  destruct (resize_ok v l (Z.max (cap v / 2) VEC_DEFAULT_CAP) Hv) as (v' & E & Hv' & _); [|unfold VEC_DEFAULT_CAP; lia|by exists v'].
  unfold VEC_DEFAULT_CAP in *. assert (cap v / 4 <= cap v / 2) by (apply Z.div_le_compat_l; lia).
  assert (cap v / 2 <= cap v) by (apply Z.div_le_upper_bound; lia). lia.
Qed.

(** ** Operations *)

(** The three lists that a position in the array makes. *)
Lemma split_list {A} (l : list A) i : (i <= length l)%nat -> exists a b, l = a ++ b /\ length a = i.
Proof. intros Hi. exists (take i l), (drop i l). split; [by rewrite take_drop|]. rewrite length_take. lia. Qed.

Lemma memmove_up (a b : list (option Z)) c rest i n : i = Z.of_nat (length a) -> n = Z.of_nat (length b) ->
  exists y, memmove (a ++ b ++ c :: rest) (i + 1) i n = Ok (a ++ y :: b ++ rest).
Proof.
  intros -> ->. unfold memmove. rewrite !Nat2Z.id. replace (Z.to_nat (Z.of_nat (length a) + 1)) with (S (length a)) by lia.
  rewrite !length_app. cbn [length]. rewrite (proj2 (Nat.leb_le _ _)) by lia. rewrite (proj2 (Nat.leb_le _ _)) by lia. cbn [andb].
  replace (S (length a)) with (length a + 1)%nat by lia. rewrite take_app_add. rewrite drop_app_length, take_app_length.
  replace (length a + 1 + length b)%nat with (length a + (length b + 1))%nat by lia. rewrite drop_app_add, drop_app_add.
  destruct b as [|y b]; cbn; eexists; by rewrite <- app_assoc.
Qed.

Lemma memmove_down (a b : list (option Z)) x rest i n : i = Z.of_nat (length a) -> n = Z.of_nat (length b) ->
  exists y, memmove (a ++ x :: b ++ rest) i (i + 1) n = Ok (a ++ b ++ y :: rest).
Proof.
  intros -> ->. unfold memmove. rewrite !Nat2Z.id. replace (Z.to_nat (Z.of_nat (length a) + 1)) with (length a + 1)%nat by lia.
  rewrite !length_app. cbn [length]. rewrite !length_app. rewrite (proj2 (Nat.leb_le _ _)) by lia. rewrite (proj2 (Nat.leb_le _ _)) by lia. cbn [andb].
  rewrite take_app_length, !drop_app_add. cbn [skipn]. rewrite drop_0, take_app_length.
  destruct b as [|z b] using rev_ind; [by exists x|]. rewrite length_app, Nat.add_1_r. cbn [length skipn]. rewrite <- !app_assoc, drop_app_length.
  exists z. by rewrite <- app_assoc.
Qed.

Lemma push_ok v l x : vec_ok v l -> Z.of_nat (length l) < 2 ^ 59 -> exists v', op_vec_push v x = Ok v' /\ vec_ok v' (l ++ [x]).
Proof.
  intros Hv Hl. unfold op_vec_push. destruct (vec_grow_ok v l Hv Hl) as (v1 & -> & Hv1 & Hc). cbn [rbind].
  destruct Hv1 as [Hs Hb Hlen [rest Hd]]. destruct rest as [|r rest]; [rewrite Hd, app_nil_r, length_fmap in Hlen; lia|].
  rewrite Hd, (wr_end l x) by done. cbn [rbind]. eexists. split; [reflexivity|]. eapply vec_ok_intro; [reflexivity| | |lia].
  - rewrite length_app. cbn. lia.
  - rewrite Hd in Hlen. rewrite <- Hlen. rewrite !length_app, !length_fmap, length_app. cbn. lia.
Qed.

Lemma insert_ok v l i x : vec_ok v l -> 0 <= i -> Z.of_nat (length l) < 2 ^ 59 ->
  exists v', op_vec_insert v i x = Ok v' /\ vec_ok v' (take (Z.to_nat i) l ++ x :: drop (Z.to_nat i) l).
Proof.
  intros Hv Hi Hl. unfold op_vec_insert. set (idx := if size v <? i then size v else i).
  assert (Hidx : exists n, idx = Z.of_nat n /\ (n <= length l)%nat /\ take (Z.to_nat i) l = take n l /\ drop (Z.to_nat i) l = drop n l).
  { pose proof (vo_size _ _ Hv) as Hs. unfold idx. destruct (Z.ltb_spec (size v) i).
    - exists (length l). rewrite !firstn_all2, !skipn_all2 by lia. by split_and!.
    - exists (Z.to_nat i). split_and!; [lia|lia|done..]. }
  destruct Hidx as (n & -> & Hn & -> & ->). destruct (vec_grow_ok v l Hv Hl) as (v1 & -> & Hv1 & Hc). cbn [rbind].
  destruct Hv1 as [Hs Hb Hlen [rest Hd]]. destruct rest as [|r rest]; [rewrite Hd, app_nil_r, length_fmap in Hlen; lia|].
  destruct (split_list l n Hn) as (a & b & -> & Ha). subst n. rewrite take_app_length, drop_app_length, length_app in *.
  assert (exists y, (if Z.of_nat (length a) <? size v1 then memmove (data v1) (Z.of_nat (length a) + 1) (Z.of_nat (length a)) (size v1 - Z.of_nat (length a)) else Ok (data v1)) =
            Ok ((Some <$> a) ++ y :: (Some <$> b) ++ rest)) as (y & ->).
  { rewrite Hd, fmap_app, <- app_assoc. destruct (Z.ltb_spec (Z.of_nat (length a)) (size v1)).
    - apply memmove_up; rewrite length_fmap; lia.
    - destruct b; [by eexists|cbn in *; lia]. }
  cbn [rbind]. rewrite (wr_end a x) by done. cbn [rbind]. eexists. split; [reflexivity|].
  apply vec_ok_intro with (rest := rest).
  - by rewrite !fmap_app, <- !app_assoc.
  - rewrite length_app. cbn. lia.
  - rewrite Hd in Hlen. rewrite <- Hlen, !fmap_app, !length_app, !length_fmap. cbn. lia.
  - lia.
Qed.

Lemma put_shrunk v d n l rest : d = (Some <$> l) ++ rest -> n = Z.of_nat (length l) -> Z.of_nat (length d) = cap v -> cap v <= 2 ^ 60 ->
  exists v', vec_maybe_shrink (put v d n) = Ok v' /\ vec_ok v' l.
Proof. intros Hd Hn Hl Hc. apply shrink_ok. by eapply vec_ok_intro. Qed.

Lemma remove_ok v l i : vec_ok v l -> 0 <= i -> exists v', op_vec_remove v i = Ok (default 0 (l !! Z.to_nat i), v') /\
  vec_ok v' (take (Z.to_nat i) l ++ drop (S (Z.to_nat i)) l).
Proof.
  intros Hv Hi. unfold op_vec_remove. pose proof (vo_size _ _ Hv) as Hs. destruct (Z.leb_spec (size v) i).
  - exists v. rewrite lookup_ge_None_2 by lia. split; [done|]. rewrite firstn_all2, skipn_all2 by lia. by rewrite app_nil_r.
  - destruct (lookup_lt_is_Some_2 l (Z.to_nat i)) as [x Hx]; [lia|]. rewrite (rd_ok v l i x) by done. cbn [rbind]. rewrite Hx.
    apply list_elem_of_split_length in Hx as (a & b & -> & Ha). destruct Hv as [_ Hb Hlen [rest Hd]]. rewrite length_app in *. cbn [length] in *.
    assert (exists d rest', (if i <? size v - 1 then memmove (data v) i (i + 1) (size v - i - 1) else Ok (data v)) = Ok d /\
              d = (Some <$> a ++ b) ++ rest' /\ length d = length (data v)) as (d & rest' & -> & Hd' & Hld).
    { rewrite Hd, fmap_app, fmap_cons, <- app_assoc. cbn [app]. destruct (Z.ltb_spec i (size v - 1)).
      - destruct (memmove_down (Some <$> a) (Some <$> b) (Some x) rest i (size v - i - 1)) as (y & ->); [rewrite length_fmap; lia..|].
        exists ((Some <$> a) ++ (Some <$> b) ++ y :: rest), (y :: rest). split; [done|]. split; [by rewrite fmap_app, <- app_assoc|].
        rewrite !length_app. cbn. rewrite !length_app. cbn. lia.
      - destruct b; [|cbn in *; lia]. exists ((Some <$> a) ++ Some x :: rest), (Some x :: rest). rewrite app_nil_r. by split_and!. }
    cbn [rbind]. destruct (put_shrunk v d (size v - 1) (a ++ b) rest' Hd') as (v' & -> & Hv'); [rewrite length_app; lia|lia|lia|].
    exists v'. split; [done|]. rewrite Ha, take_app_length. replace (S (length a)) with (length a + 1)%nat by lia. by rewrite drop_app_add.
Qed.

Lemma pop_ok v l : vec_ok v l -> exists v', op_vec_pop v = Ok (List.last l 0, v') /\ vec_ok v' (removelast l).
Proof.
  intros Hv. unfold op_vec_pop. pose proof (vo_size _ _ Hv) as Hs. destruct l as [|x l] using rev_ind.
  - rewrite Hs. cbn. by exists v.
  - clear IHl. rewrite length_app in Hs. cbn in Hs. rewrite (proj2 (Z.eqb_neq (size v) 0)) by lia.
    rewrite (rd_ok v _ _ x Hv) by (rewrite lookup_app_r by lia; by replace (Z.to_nat (size v - 1) - length l)%nat with 0%nat by lia).
    cbn [rbind]. rewrite last_last, removelast_last. destruct Hv as [_ Hb Hlen [rest Hd]].
    destruct (put_shrunk v (data v) (size v - 1) l (Some x :: rest)) as (v' & -> & Hv'); try lia; [|by exists v'].
    by rewrite Hd, fmap_app, <- app_assoc.
Qed.

(** The last element takes the place of the one that goes. *)
Definition fast_out (i : nat) (l : list Z) : list Z := removelast (<[i := List.last l 0]> l).
Lemma remove_fast_ok v l i : vec_ok v l -> 0 <= i -> exists v', op_vec_remove_fast v i = Ok (default 0 (l !! Z.to_nat i), v') /\
  vec_ok v' (if decide (Z.to_nat i < length l)%nat then fast_out (Z.to_nat i) l else l).
Proof.
  intros Hv Hi. unfold op_vec_remove_fast. pose proof (vo_size _ _ Hv) as Hs. destruct (Z.leb_spec (size v) i).
  - exists v. rewrite lookup_ge_None_2 by lia. by rewrite decide_False by lia.
  - rewrite decide_True by lia. destruct (lookup_lt_is_Some_2 l (Z.to_nat i)) as [x Hx]; [lia|]. rewrite (rd_ok v l i x) by done. cbn [rbind].
    destruct l as [|y l] using rev_ind; [done|]. clear IHl. rewrite length_app in Hs. cbn in Hs.
    rewrite (rd_ok v _ (size v - 1) y Hv) by (rewrite lookup_app_r by lia; by replace (Z.to_nat (size v - 1) - length l)%nat with 0%nat by lia).
    cbn [rbind]. destruct Hv as [_ Hb Hlen [rest Hd]]. rewrite (wr_at (l ++ [y]) y rest _ Hd i x Hi Hx). cbn [rbind].
    unfold fast_out. rewrite last_last, Hx.
    assert (E : exists z, <[Z.to_nat i := y]> (l ++ [y]) = removelast (<[Z.to_nat i := y]> (l ++ [y])) ++ [z]).
    { exists (List.last (<[Z.to_nat i := y]> (l ++ [y])) 0). apply app_removelast_last. intros E. apply (f_equal length) in E.
      rewrite length_insert, length_app in E. cbn in E. lia. }
    destruct E as [z E]. set (l' := removelast _) in *. apply (f_equal length) in E as El. rewrite length_insert, !length_app in El. cbn in El.
    destruct (put_shrunk v ((Some <$> <[Z.to_nat i := y]> (l ++ [y])) ++ rest) (size v - 1) l' (Some z :: rest)) as (v' & -> & Hv'); try lia.
    + by rewrite E, fmap_app, <- app_assoc.
    + rewrite <- Hlen, Hd, !length_app, !length_fmap, length_insert. lia.
    + by exists v'.
Qed.

Lemma set_ok v l i x y : vec_ok v l -> 0 <= i -> l !! Z.to_nat i = Some y -> exists v', op_vec_set v i x = Ok v' /\ vec_ok v' (<[Z.to_nat i := x]> l).
Proof.
  intros [Hs Hb Hlen [rest Hd]] Hi Hl. unfold op_vec_set. rewrite (wr_at l x rest _ Hd i y Hi Hl). cbn [rbind]. eexists. split; [reflexivity|].
  eapply vec_ok_intro; [reflexivity| | |lia].
  - by rewrite length_insert.
  - by rewrite <- Hlen, Hd, !length_app, !length_fmap, length_insert.
Qed.

Lemma reserve_ok v l n : vec_ok v l -> n <= 2 ^ 60 -> exists v', op_vec_reserve v n = Ok v' /\ vec_ok v' l /\ n <= cap v'.
Proof.
  intros Hv Hn. unfold op_vec_reserve. pose proof (vo_cap _ _ Hv). pose proof (vo_size _ _ Hv).
  destruct (Z.ltb_spec (cap v) n); [|by exists v]. destruct (resize_ok v l n Hv) as (v' & E & Hv' & Hc); [lia..|]. exists v'. split_and!; [done|done|lia].
Qed.

Lemma shrink_to_ok v l : vec_ok v l -> exists v', op_vec_shrink v = Ok v' /\ vec_ok v' l.
Proof.
  intros Hv. unfold op_vec_shrink. pose proof (vo_cap _ _ Hv). pose proof (vo_size _ _ Hv) as Hs. destruct (Z.eqb_spec (size v) 0) as [E|E].
  - eexists. split; [reflexivity|]. destruct l; [|cbn in Hs; lia]. by apply vec_ok_intro with (rest := replicate (Z.to_nat VEC_DEFAULT_CAP) (Some 0)).
  - destruct (Z.ltb_spec (size v) (cap v)); [|by exists v]. destruct (resize_ok v l (size v) Hv) as (v' & -> & Hv' & _); [lia..|]. by exists v'.
Qed.

(** ** Walks *)

(** A walk from [i] on sees the elements from there on. *)
Lemma walk_step v l (n : nat) i : vec_ok v l -> 0 <= i -> Z.of_nat n + i = size v -> (0 < n)%nat ->
  exists x, l !! Z.to_nat i = Some x /\ rd (data v) i = Ok x /\ drop (Z.to_nat i) l = x :: drop (Z.to_nat (i + 1)) l.
Proof.
  intros Hv Hi Hn Hp. pose proof (vo_size _ _ Hv). destruct (lookup_lt_is_Some_2 l (Z.to_nat i)) as [x Hx]; [lia|]. exists x.
  split; [done|]. split; [by apply (rd_ok v l)|]. rewrite (drop_S l x) by done. by replace (Z.to_nat (i + 1)) with (S (Z.to_nat i)) by lia.
Qed.

Lemma elements_ok v l : vec_ok v l -> elements v = Ok l.
Proof.
  intros Hv. unfold elements. assert (H : forall n i, 0 <= i -> Z.of_nat n + i = size v -> elements_from v n i = Ok (drop (Z.to_nat i) l)).
  { induction n as [|n IH]; intros i Hi Hn; cbn [elements_from].
    - pose proof (vo_size _ _ Hv). by rewrite skipn_all2 by lia.
    - destruct (walk_step v l (S n) i) as (x & _ & -> & Hd); [done|lia..|]. cbn [rbind]. rewrite IH, Hd by lia. done. }
  pose proof (vo_size _ _ Hv). rewrite H by lia. done.
Qed.

Fixpoint visited_until (cb : Z -> bool) (l : list Z) : list Z := match l with [] => [] | x :: l => if cb x then [x] else x :: visited_until cb l end.
Lemma foreach_ok v l cb : vec_ok v l -> op_vec_foreach cb v = Ok (visited_until cb l).
Proof.
  intros Hv. unfold op_vec_foreach. assert (H : forall n i, 0 <= i -> Z.of_nat n + i = size v -> each_from cb v n i = Ok (visited_until cb (drop (Z.to_nat i) l))).
  { induction n as [|n IH]; intros i Hi Hn; cbn [each_from].
    - pose proof (vo_size _ _ Hv). by rewrite skipn_all2 by lia.
    - destruct (walk_step v l (S n) i) as (x & _ & -> & Hd); [done|lia..|]. cbn [rbind]. rewrite Hd. cbn [visited_until]. destruct (cb x); [done|]. by rewrite IH by lia. }
  pose proof (vo_size _ _ Hv). rewrite H by lia. done.
Qed.

Fixpoint position (f : Z -> bool) (l : list Z) : option nat := match l with [] => None | x :: l => if f x then Some O else S <$> position f l end.
Definition index_of_position (p : option nat) : Z := match p with Some i => Z.of_nat i | None => NOT_FOUND end.
Lemma position_lt f l i : position f l = Some i -> (i < length l)%nat.
Proof.
  revert i. induction l as [|x l IH]; intros i H; [done|]. cbn in H. destruct (f x); [injection H as <-; cbn; lia|].
  destruct (position f l) as [j|]; [|done]. injection H as <-. specialize (IH j eq_refl). cbn. lia.
Qed.
Lemma find_ok v l f : vec_ok v l -> find_from f v (Z.to_nat (size v)) 0 = Ok (index_of_position (position f l)).
Proof.
  intros Hv. assert (H : forall n i, 0 <= i -> Z.of_nat n + i = size v ->
    find_from f v n i = Ok (match position f (drop (Z.to_nat i) l) with Some j => i + Z.of_nat j | None => NOT_FOUND end)).
  { induction n as [|n IH]; intros i Hi Hn; cbn [find_from].
    - pose proof (vo_size _ _ Hv). by rewrite skipn_all2 by lia.
    - destruct (walk_step v l (S n) i) as (x & _ & -> & Hd); [done|lia..|]. cbn [rbind]. rewrite Hd. cbn [position]. destruct (f x); [by rewrite Z.add_0_r|].
      rewrite IH by lia. destruct (position f _); [|done]. cbn. f_equal. lia. }
  pose proof (vo_size _ _ Hv). rewrite H by lia. done.
Qed.

(** ** Binary search *)

(** The elements before the key, then those that equal it, then those after it. *)
Definition ordered (cmp : Z -> Z) (l : list Z) : Prop :=
  forall i j x y, (i <= j)%nat -> l !! i = Some x -> l !! j = Some y -> Z.sgn (cmp x) <= Z.sgn (cmp y).

Lemma bsearch_loop_ok cmp v l : vec_ok v l -> ordered cmp l -> forall fuel lo hi, 0 <= lo <= hi -> hi <= size v -> (Z.to_nat (hi - lo) < fuel)%nat ->
  (forall i x, l !! i = Some x -> Z.of_nat i < lo -> cmp x < 0) -> (forall i x, l !! i = Some x -> hi <= Z.of_nat i -> 0 < cmp x) ->
  exists r, bsearch_loop cmp v fuel lo hi = Ok r /\
    (r = NOT_FOUND /\ (forall x, In x l -> cmp x <> 0) \/ exists i x, r = Z.of_nat i /\ l !! i = Some x /\ cmp x = 0).
Proof.
  intros Hv Ho. induction fuel as [|fuel IH]; intros lo hi Hlo Hhi Hf Hl Hr; [lia|]. cbn [bsearch_loop].
  pose proof (vo_size _ _ Hv) as Hs. destruct (Z.ltb_spec lo hi) as [Hlt|Hge].
  - cbn zeta. set (mid := lo + (hi - lo) / 2). assert (Hm : lo <= mid < hi).
    { unfold mid. pose proof (Z.div_pos (hi - lo) 2 ltac:(lia) ltac:(lia)). pose proof (Z.div_lt (hi - lo) 2 ltac:(lia) ltac:(lia)). lia. }
    destruct (lookup_lt_is_Some_2 l (Z.to_nat mid)) as [x Hx]; [lia|]. rewrite (rd_ok v l mid x) by done. cbn [rbind].
    destruct (Z.eqb_spec (cmp x) 0) as [E|E].
    + exists mid. split; [done|]. right. exists (Z.to_nat mid), x. split_and!; [lia|done|done].
    + destruct (Z.ltb_spec (cmp x) 0).
      * apply IH; try lia; [|done]. intros i y Hy Hi. destruct (Nat.le_gt_cases i (Z.to_nat mid)); [|lia].
        specialize (Ho i (Z.to_nat mid) y x ltac:(lia) Hy Hx). apply Z.sgn_neg_iff. rewrite (Z.sgn_neg (cmp x)) in Ho by lia. destruct (Z.sgn_spec (cmp y)); lia.
      * apply IH; try lia; [done|]. intros i y Hy Hi.
        specialize (Ho (Z.to_nat mid) i x y ltac:(lia) Hx Hy). rewrite (Z.sgn_pos (cmp x)) in Ho by lia. destruct (Z.sgn_spec (cmp y)); lia.
  - exists NOT_FOUND. split; [done|]. left. split; [done|]. intros x Hin E. apply list_elem_of_In, list_elem_of_lookup in Hin as [i Hi].
    destruct (Z.lt_ge_cases (Z.of_nat i) lo) as [H|H]; [specialize (Hl i x Hi H); lia|specialize (Hr i x Hi ltac:(lia)); lia].
Qed.

(** Binary search ends, with the place of an element that equals the key when there is one in
    the ordered array, and with (size_t) -1 when there is none. *)
Theorem bsearch_correct cmp v l : vec_ok v l -> ordered cmp l -> exists r, op_vec_bsearch cmp v = Ok r /\
  (r = NOT_FOUND /\ (forall x, In x l -> cmp x <> 0) \/ exists i x, r = Z.of_nat i /\ l !! i = Some x /\ cmp x = 0).
Proof.
  intros Hv Ho. pose proof (vo_size _ _ Hv). unfold op_vec_bsearch. apply (bsearch_loop_ok cmp v l Hv Ho); try lia.
  intros i x Hi. apply lookup_lt_Some in Hi. lia.
Qed.

(** ** Sequences of operations *)

Inductive vop := Push (x : Z) | Pop | Insert (i x : Z) | Remove (i : Z) | RemoveFast (i : Z) | Get (i : Z) | SetAt (i x : Z) | Clear (free_cb : bool)
  | Reserve (n : Z) | Shrink | Find (cmp : Z -> Z) | RemovePtr (p : Z) | Contains (p : Z) | Foreach (cb : Z -> bool).
Definition answers (o : vop) (v : op_vec_t) : result vfault (list Z * op_vec_t) :=
  match o with
  | Push x => let! v := op_vec_push v x in Ok ([], v)
  | Pop => let! (x, v) := op_vec_pop v in Ok ([x], v)
  | Insert i x => let! v := op_vec_insert v i x in Ok ([], v)
  | Remove i => let! (x, v) := op_vec_remove v i in Ok ([x], v)
  | RemoveFast i => let! (x, v) := op_vec_remove_fast v i in Ok ([x], v)
  | Get i => let! x := op_vec_get v i in Ok ([x], v)
  | SetAt i x => let! v := op_vec_set v i x in Ok ([], v)
  | Clear b => op_vec_clear b v
  | Reserve n => let! v := op_vec_reserve v n in Ok ([], v)
  | Shrink => let! v := op_vec_shrink v in Ok ([], v)
  | Find cmp => let! i := op_vec_find cmp v in Ok ([i], v)
  | RemovePtr p => let! v := op_vec_remove_ptr v p in Ok ([], v)
  | Contains p => let! b := op_vec_contains v p in Ok ([if b then 1 else 0], v)
  | Foreach cb => let! xs := op_vec_foreach cb v in Ok (xs, v)
  end.
Definition on_list (o : vop) (l : list Z) : list Z * list Z :=
  match o with
  | Push x => ([], l ++ [x])
  | Pop => ([List.last l 0], removelast l)
  | Insert i x => ([], take (Z.to_nat i) l ++ x :: drop (Z.to_nat i) l)
  | Remove i => ([default 0 (l !! Z.to_nat i)], take (Z.to_nat i) l ++ drop (S (Z.to_nat i)) l)
  | RemoveFast i => ([default 0 (l !! Z.to_nat i)], if decide (Z.to_nat i < length l)%nat then fast_out (Z.to_nat i) l else l)
  | Get i => ([default 0 (l !! Z.to_nat i)], l)
  | SetAt i x => ([], <[Z.to_nat i := x]> l)
  | Clear b => (if b then l else [], [])
  | Reserve _ | Shrink => ([], l)
  | Find cmp => ([index_of_position (position (fun x => cmp x =? 0) l)], l)
  | RemovePtr p => ([], match position (Z.eqb p) l with Some i => fast_out i l | None => l end)
  | Contains p => ([if decide (p ∈ l) then 1 else 0], l)
  | Foreach cb => (visited_until cb l, l)
  end.
(** Reads and writes by index are in range, and a reservation can be allocated. *)
Definition vop_ok (o : vop) (l : list Z) : Prop :=
  match o with
  | Get i | SetAt i _ => 0 <= i < Z.of_nat (length l)
  | Insert i _ | Remove i | RemoveFast i => 0 <= i
  | Reserve n => n <= 2 ^ 60
  | _ => True
  end.

Lemma position_in p l : match position (Z.eqb p) l with Some _ => p ∈ l | None => p ∉ l end.
Proof.
  induction l as [|x l IH]; cbn [position]; [by apply not_elem_of_nil|]. destruct (Z.eqb_spec p x) as [-> |H]; [by left|].
  destruct (position (Z.eqb p) l); cbn; [by right|]. rewrite not_elem_of_cons. by split.
Qed.

Lemma found_in_range p v l : vec_ok v l -> match position (Z.eqb p) l with
  | Some i => (i < length l)%nat /\ (Z.of_nat i =? NOT_FOUND) = false | None => True end.
Proof.
  intros Hv. destruct (position (Z.eqb p) l) as [i|] eqn:E; [|done]. apply position_lt in E. split; [done|].
  pose proof (vo_size _ _ Hv). pose proof (vo_cap _ _ Hv). apply Z.eqb_neq. unfold NOT_FOUND. lia.
Qed.

Lemma answers_ok o v l : vec_ok v l -> vop_ok o l -> Z.of_nat (length l) < 2 ^ 59 ->
  exists v', answers o v = Ok (fst (on_list o l), v') /\ vec_ok v' (snd (on_list o l)).
Proof.
  intros Hv Ho Hl. destruct o; cbn [answers on_list vop_ok fst snd] in *.
  - destruct (push_ok v l x Hv Hl) as (v' & -> & Hv'). by exists v'.
  - destruct (pop_ok v l Hv) as (v' & -> & Hv'). by exists v'.
  - destruct (insert_ok v l i x Hv Ho Hl) as (v' & -> & Hv'). by exists v'.
  - destruct (remove_ok v l i Hv Ho) as (v' & -> & Hv'). by exists v'.
  - destruct (remove_fast_ok v l i Hv Ho) as (v' & -> & Hv'). by exists v'.
  - destruct (lookup_lt_is_Some_2 l (Z.to_nat i)) as [x Hx]; [lia|]. unfold op_vec_get. rewrite (rd_ok v l i x) by done. rewrite Hx. by exists v.
  - destruct (lookup_lt_is_Some_2 l (Z.to_nat i)) as [y Hy]; [lia|]. destruct (set_ok v l i x y Hv) as (v' & -> & Hv'); [lia|done|]. by exists v'.
  - unfold op_vec_clear. rewrite elements_ok with (l := l) by done. destruct Hv as [Hs Hc Hlen [rest Hd]].
    exists {| data := data v; size := 0; cap := cap v |}. split; [by destruct free_cb|]. apply vec_ok_intro with (rest := data v); try done. lia.
  - destruct (reserve_ok v l n Hv Ho) as (v' & -> & Hv' & _). by exists v'.
  - destruct (shrink_to_ok v l Hv) as (v' & -> & Hv'). by exists v'.
  - unfold op_vec_find. rewrite (find_ok v l) by done. by exists v.
  - unfold op_vec_remove_ptr. rewrite (find_ok v l) by done. cbn [rbind]. pose proof (found_in_range p v l Hv) as Hr.
    destruct (position (Z.eqb p) l) as [i|]; cbn [index_of_position]; [|by exists v]. destruct Hr as [Hi ->].
    destruct (remove_fast_ok v l (Z.of_nat i) Hv) as (v' & -> & Hv'); [lia|]. cbn [rbind snd]. rewrite Nat2Z.id, decide_True in Hv' by done. by exists v'.
  - unfold op_vec_contains. rewrite (find_ok v l) by done. cbn [rbind]. exists v. split; [|done]. pose proof (found_in_range p v l Hv) as Hr. pose proof (position_in p l) as Hp.
    destruct (position (Z.eqb p) l) as [i|]; cbn [index_of_position]; [destruct Hr as [_ ->]; by rewrite decide_True|by rewrite decide_False].
  - rewrite (foreach_ok v l) by done. by exists v.
Qed.

Fixpoint do_vops (os : list vop) (v : op_vec_t) : result vfault (list (list Z) * op_vec_t) :=
  match os with
  | [] => Ok ([], v)
  | o :: os => let! (r, v) := answers o v in let! (rs, v) := do_vops os v in Ok (r :: rs, v)
  end.
Fixpoint on_list_all (os : list vop) (l : list Z) : list (list Z) * list Z :=
  match os with
  | [] => ([], l)
  | o :: os => let '(r, l) := on_list o l in let '(rs, l) := on_list_all os l in (r :: rs, l)
  end.
Fixpoint vops_ok (os : list vop) (l : list Z) : Prop :=
  match os with [] => True | o :: os => vop_ok o l /\ vops_ok os (snd (on_list o l)) end.

Lemma removelast_length (l : list Z) : (length (removelast l) <= length l)%nat.
Proof. induction l as [|x [|y l] IH]; cbn in *; lia. Qed.
Lemma on_list_length o l : (length (snd (on_list o l)) <= S (length l))%nat.
Proof.
  assert (Hf : forall i, (length (fast_out i l) <= length l)%nat) by (intros i; unfold fast_out; etransitivity; [apply removelast_length|by rewrite length_insert]).
  destruct o; cbn [on_list snd]; rewrite ?length_app, ?length_insert, ?length_take, ?length_drop; cbn; try lia.
  - pose proof (removelast_length l). lia.
  - rewrite length_drop. lia.
  - destruct (decide _); [specialize (Hf (Z.to_nat i)); lia|lia].
  - destruct (position _ l) as [i|]; [specialize (Hf i); lia|lia].
Qed.

(** Dynamic arrays implement lists: any sequence of pushes, pops, insertions and removals at
    any place, removals by swapping, searches, walks, reads and writes in range, clears, and
    changes of the capacity answers as on a list and leaves the list's elements, without an
    access outside the buffer, a read of a cell that was never written, or an abort, as long
    as there can be no more than 2^59 elements. *)
Theorem vec_refines_list os v l : vec_ok v l -> vops_ok os l -> Z.of_nat (length l) + Z.of_nat (length os) <= 2 ^ 59 ->
  exists v', do_vops os v = Ok (fst (on_list_all os l), v') /\ vec_ok v' (snd (on_list_all os l)).
Proof.
  revert v l. induction os as [|o os IH]; intros v l Hv Ho Hl; cbn [do_vops on_list_all vops_ok length] in *; [by exists v|].
  destruct Ho as [Ho Hos]. destruct (answers_ok o v l Hv Ho) as (v1 & -> & Hv1); [lia|]. cbn [rbind]. pose proof (on_list_length o l).
  destruct (on_list o l) as [r l1]. cbn [fst snd] in *. destruct (IH v1 l1 Hv1 Hos) as (v2 & -> & Hv2); [lia|]. cbn [rbind].
  destruct (on_list_all os l1) as [rs l2]. by exists v2.
Qed.

Lemma init_ok n : n <= 2 ^ 60 -> vec_ok (op_vec_init n) [].
Proof.
  intros Hn. unfold op_vec_init. set (c := if 0 <? n then n else VEC_DEFAULT_CAP).
  assert (Hc : 0 < c <= 2 ^ 60) by (unfold c, VEC_DEFAULT_CAP; destruct (Z.ltb_spec 0 n); lia).
  apply vec_ok_intro with (rest := replicate (Z.to_nat (u64 (c * 8) / 8)) (Some 0)); [done|done| |lia].
  rewrite length_replicate. unfold u64. rewrite Z.mod_small, Z.div_mul by lia. lia.
Qed.
(** The array that the entries of users start with has no buffer. *)
Lemma no_vec_ok : vec_ok no_vec [].
Proof. by apply vec_ok_intro with (rest := []). Qed.

Lemma bsearch_correct_witness :
  let v := match do_vops (map Push [2; 4; 4; 9]) no_vec with Ok (_, v) => v | Err _ => no_vec end in
  exists r, op_vec_bsearch (fun x => x - 4) v = Ok r /\
    (r = NOT_FOUND /\ (forall x, In x [2; 4; 4; 9] -> x - 4 <> 0) \/ exists i x, r = Z.of_nat i /\ [2; 4; 4; 9] !! i = Some x /\ x - 4 = 0).
Proof.
  apply (bsearch_correct (fun x => x - 4)).
  - apply vec_ok_intro with (rest := replicate 4 None); reflexivity || (vm_compute; discriminate).
  - intros i j x y Hij Hi Hj. assert (i < 4)%nat by (by apply lookup_lt_Some in Hi). assert (j < 4)%nat by (by apply lookup_lt_Some in Hj).
    do 4 (destruct i as [|i]; [do 4 (destruct j as [|j]; [injection Hi as <-; injection Hj as <-; vm_compute; discriminate || lia|]); lia|]). lia.
Defined.

Lemma vec_refines_list_witness :
  let os := [Push 5; Push 6; Insert 1 7; RemoveFast 0; Get 1; Remove 0; Reserve 100; Pop; Pop] in
  exists v', do_vops os no_vec = Ok ([[]; []; []; [5]; [7]; [6]; []; [7]; [0]], v') /\ vec_ok v' [].
Proof.
  apply (vec_refines_list [Push 5; Push 6; Insert 1 7; RemoveFast 0; Get 1; Remove 0; Reserve 100; Pop; Pop] no_vec []).
  - exact no_vec_ok.
  - vm_compute. intuition discriminate.
  - vm_compute. discriminate.
Defined.

(** ** Edges *)

(** Any of the equal elements is found, not the first one. *)
Example bsearch_not_first :
  (let! (_, v) := do_vops (map Push [4; 4; 4]) no_vec in op_vec_bsearch (fun x => x - 4) v) = Ok 1.
Proof. by vm_compute. Qed.

(** Moving what is not in the first array adds it to the second all the same. *)
Example move_adds_missing :
  (let! (_, dst) := op_vec_move_ptr no_vec no_vec 7 in elements dst) = Ok [7].
Proof. by vm_compute. Qed.

(** A reservation of more than 2^61 elements is not refused, as growth is: the number of bytes
    wraps, here to those of one cell, and the array has a capacity it has no room for. *)
Example reserve_wraps :
  (let! v := op_vec_reserve no_vec (2 ^ 61 + 1) in let! v := op_vec_push v 5 in op_vec_push v 6) = Err VOutside.
Proof. by vm_compute. Qed.
