(* ===== verification/Htab.v ===== *)
(** * The hash table (libop/src/htab.c)

    Open addressing with Robin Hood probing and deletion by backward shift.  The table is
    generic in the hash and the equality of its keys, which the code passes as function
    pointers: here a class, with the three key types of the code as instances. *)

From S2P Require Import Prelude LibC Deque.
From stdpp Require Import gmap list.
#[local] Open Scope Z_scope.

(** ** Keys *)

Definition fix_hash (h : Z) : Z := if h =? 0 then 1 else h.

(** The function pointers of a table, as a type of keys has them. *)
Class HtabKey (K : Type) := { hash_fn : K -> Z; eq_fn : K -> K -> bool }.

Definition FNV_OFFSET : Z := 14695981039346656037.
Definition FNV_PRIME : Z := 1099511628211.

Definition fnv_step (h c : Z) : Z := u64 (Z.lxor h c * FNV_PRIME).
Definition op_htab_hash_str (key : list Z) : Z := fix_hash (fold_left fnv_step key FNV_OFFSET).
Definition htab_eq_str (a b : list Z) : bool := streq a b.

(** The folding of letters of the tables whose keys are IRC names. *)
Definition istr_fold (c : Z) : Z :=
  if (ch "A" <=? c) && (c <=? ch "Z") then Z.lor c 0x20
  else if (ch "[" <=? c) && (c <=? ch "^") then u8 (c + 0x20) else c.
Definition op_htab_hash_istr (key : list Z) : Z :=
  fix_hash (fold_left (fun h c => fnv_step h (istr_fold c)) key FNV_OFFSET).
Definition htab_eq_istr (a b : list Z) : bool := streq (map istr_fold a) (map istr_fold b).

Definition op_htab_hash_ptr (key : Z) : Z :=
  let v := key in
  let v := Z.lxor v (Z.shiftr v 30) in
  let v := u64 (v * 0xbf58476d1ce4e5b9) in
  let v := Z.lxor v (Z.shiftr v 27) in
  let v := u64 (v * 0x94d049bb133111eb) in
  let v := Z.lxor v (Z.shiftr v 31) in
  fix_hash v.
Definition htab_eq_ptr (a b : Z) : bool := a =? b.

(** Case-sensitive strings, IRC names, and pointers. *)
Record str_key := StrKey { str_of : list Z }.
Record istr_key := IstrKey { istr_of : list Z }.
Record ptr_key := PtrKey { ptr_of : Z }.

#[export] Instance str_htab_key : HtabKey str_key :=
  {| hash_fn k := op_htab_hash_str (str_of k); eq_fn a b := htab_eq_str (str_of a) (str_of b) |}.
#[export] Instance istr_htab_key : HtabKey istr_key :=
  {| hash_fn k := op_htab_hash_istr (istr_of k); eq_fn a b := htab_eq_istr (istr_of a) (istr_of b) |}.
#[export] Instance ptr_htab_key : HtabKey ptr_key :=
  {| hash_fn k := op_htab_hash_ptr (ptr_of k); eq_fn a b := htab_eq_ptr (ptr_of a) (ptr_of b) |}.

(** ** The table *)

Section Htab.
Context {K : Type} `{HtabKey K}.

(** An entry; values are pointers, 0 is NULL.  A slot whose cached hash is 0 is empty:
    [None]. *)
Record entry := { e_key : K; e_val : Z; e_hash : Z }.
Definition op_htab_slot_t : Type := option entry.

Record op_htab := { slots : list op_htab_slot_t; mask : Z; count : Z }.

(** A loop that does not end. *)
Inductive diverged : Type := Diverged.

(** [slots[i]]; the code only uses indices up to [mask]. *)
Definition at_slot (s : list op_htab_slot_t) (i : Z) : op_htab_slot_t := nth (Z.to_nat i) s None.
Definition set_slot (s : list op_htab_slot_t) (i : Z) (c : op_htab_slot_t) : list op_htab_slot_t :=
  <[Z.to_nat i := c]> s.

Definition dib (mask i h : Z) : Z := Z.land (u64 (i - Z.land h mask)) mask.

(** Smallest power of two, minimum 16; [or_shift] is [n |= n >> k]. *)
Definition next_pow2 (n : Z) : Z :=
  if n <? 16 then 16
  else
    let n := u64 (n - 1) in
    let n := or_shift n 1 in
    let n := or_shift n 2 in
    let n := or_shift n 4 in
    let n := or_shift n 8 in
    let n := or_shift n 16 in
    let n := or_shift n 32 in
    u64 (n + 1).

(** The loop of [htab_lookup] and [htab_find_idx]; [None] for SIZE_MAX.  A full turn of the
    table is enough fuel. *)
Fixpoint probe (fuel : nat) (ht : op_htab) (key : K) (hash i dist : Z) : result diverged (option Z) :=
  match fuel with
  | O => Err Diverged
  | S fuel =>
      match at_slot (slots ht) i with
      | None => Ok None
      | Some s =>
          if dib (mask ht) i (e_hash s) <? dist then Ok None
          else if (e_hash s =? hash) && eq_fn (e_key s) key then Ok (Some i)
          else probe fuel ht key hash (Z.land (i + 1) (mask ht)) (dist + 1)
      end
  end.
Definition turn (s : list op_htab_slot_t) : nat := S (length s).

Definition htab_find_idx (ht : op_htab) (key : K) (hash : Z) : result diverged (option Z) :=
  probe (turn (slots ht)) ht key hash (Z.land hash (mask ht)) 0.
Definition htab_lookup (ht : op_htab) (key : K) (hash : Z) : result diverged op_htab_slot_t :=
  let! i := probe (turn (slots ht)) ht key hash (Z.land hash (mask ht)) 0 in
  Ok (match i with Some i => at_slot (slots ht) i | None => None end).

(** The keys that such a loop hands to [eq_fn], in order: those of the entries with the hash, up
    to the first that is equal. *)
Fixpoint probed (fuel : nat) (ht : op_htab) (key : K) (hash i dist : Z) : list K :=
  match fuel with
  | O => []
  | S fuel =>
      match at_slot (slots ht) i with
      | None => []
      | Some s =>
          if dib (mask ht) i (e_hash s) <? dist then []
          else
            let rest := probed fuel ht key hash (Z.land (i + 1) (mask ht)) (dist + 1) in
            if e_hash s =? hash then e_key s :: if eq_fn (e_key s) key then [] else rest else rest
      end
  end.
Definition htab_compared (ht : op_htab) (key : K) : list K :=
  let hash := fix_hash (hash_fn key) in probed (turn (slots ht)) ht key hash (Z.land hash (mask ht)) 0.

(** [htab_insert_slot]: the entry that is carried is put down in an empty slot, or in the
    slot of a richer one, which is then carried on. *)
Fixpoint insert_loop (fuel : nat) (s : list op_htab_slot_t) (mask : Z) (e : entry) (i dist : Z)
  : result diverged (list op_htab_slot_t) :=
  match fuel with
  | O => Err Diverged
  | S fuel =>
      match at_slot s i with
      | None => Ok (set_slot s i (Some e))
      | Some t =>
          let sitting_dist := dib mask i (e_hash t) in
          if sitting_dist <? dist
          then insert_loop fuel (set_slot s i (Some e)) mask t (Z.land (i + 1) mask) (sitting_dist + 1)
          else insert_loop fuel s mask e (Z.land (i + 1) mask) (dist + 1)
      end
  end.
Definition htab_insert_slot (s : list op_htab_slot_t) (mask : Z) (e : entry) : result diverged (list op_htab_slot_t) :=
  insert_loop (turn s) s mask e (Z.land (e_hash e) mask) 0.

Fixpoint shift_loop (fuel : nat) (s : list op_htab_slot_t) (mask : Z) (i : Z) : result diverged (list op_htab_slot_t) :=
  match fuel with
  | O => Err Diverged
  | S fuel =>
      let j := Z.land (i + 1) mask in
      match at_slot s j with
      | None => Ok (set_slot s i None)
      | Some next =>
          if dib mask j (e_hash next) =? 0 then Ok (set_slot s i None)
          else shift_loop fuel (set_slot s i (Some next)) mask j
      end
  end.
Definition htab_del_at (ht : op_htab) (i : Z) : result diverged op_htab :=
  let! s := shift_loop (turn (slots ht)) (slots ht) (mask ht) i in
  Ok {| slots := s; mask := mask ht; count := u64 (count ht - 1) |}.

(** The entries of the old array go one by one into the new one. *)
Fixpoint insert_all (old new : list op_htab_slot_t) (new_mask : Z) : result diverged (list op_htab_slot_t) :=
  match old with
  | [] => Ok new
  | None :: old => insert_all old new new_mask
  | Some e :: old => let! new := htab_insert_slot new new_mask e in insert_all old new new_mask
  end.
Definition op_calloc (n : Z) : list op_htab_slot_t := replicate (Z.to_nat n) None.
Definition htab_resize (ht : op_htab) (new_cap : Z) : result diverged op_htab :=
  let new_mask := new_cap - 1 in
  let! new := insert_all (slots ht) (op_calloc new_cap) new_mask in
  Ok {| slots := new; mask := new_mask; count := count ht |}.
Definition htab_maybe_grow (ht : op_htab) : result diverged op_htab :=
  let cap := mask ht + 1 in
  if u64 (cap * 3) <=? u64 (count ht * 4) then htab_resize ht (u64 (cap * 2)) else Ok ht.

Definition op_htab_create (initial_cap : Z) : op_htab :=
  let cap := next_pow2 initial_cap in
  {| slots := op_calloc cap; mask := cap - 1; count := 0 |}.

(** The keys and values given to [destroy_cb], in order. *)
Definition op_htab_destroy (ht : op_htab) : list (K * Z) :=
  flat_map (fun c : op_htab_slot_t => match c with Some e => [(e_key e, e_val e)] | None => [] end) (slots ht).

(** A new entry. *)
Definition htab_add (ht : op_htab) (key : K) (val hash : Z) : result diverged op_htab :=
  let! ht := htab_maybe_grow ht in
  let! s := htab_insert_slot (slots ht) (mask ht) {| e_key := key; e_val := val; e_hash := hash |} in
  Ok {| slots := s; mask := mask ht; count := u64 (count ht + 1) |}.

(** 1 or 0, and [*old_val]. *)
Definition op_htab_set (ht : op_htab) (key : K) (val : Z) : result diverged (Z * Z * op_htab) :=
  let hash := fix_hash (hash_fn key) in
  let! i := htab_find_idx ht key hash in
  match i with
  | Some i =>
      match at_slot (slots ht) i with
      | Some s =>
          Ok (0, e_val s, {| slots := set_slot (slots ht) i (Some {| e_key := e_key s; e_val := val; e_hash := e_hash s |});
                             mask := mask ht; count := count ht |})
      | None => Ok (0, 0, ht)
      end
  | None => let! ht := htab_add ht key val hash in Ok (1, 0, ht)
  end.

Definition slot_val (c : op_htab_slot_t) : Z := match c with Some e => e_val e | None => 0 end.

Definition op_htab_del (ht : op_htab) (key : K) : result diverged (Z * op_htab) :=
  let hash := fix_hash (hash_fn key) in
  let! i := htab_find_idx ht key hash in
  match i with
  | None => Ok (0, ht)
  | Some i =>
      let val := slot_val (at_slot (slots ht) i) in
      let! ht := htab_del_at ht i in Ok (val, ht)
  end.

(** The value and [*created]. *)
Definition op_htab_get_or_set (ht : op_htab) (key : K) (val : Z) : result diverged (Z * bool * op_htab) :=
  let hash := fix_hash (hash_fn key) in
  let! i := htab_find_idx ht key hash in
  match i with
  | Some i => Ok (slot_val (at_slot (slots ht) i), false, ht)
  | None => let! ht := htab_add ht key val hash in Ok (val, true, ht)
  end.

Definition op_htab_get (ht : op_htab) (key : K) : result diverged Z :=
  let! s := htab_lookup ht key (fix_hash (hash_fn key)) in Ok (slot_val s).
Definition op_htab_has (ht : op_htab) (key : K) : result diverged bool :=
  let! s := htab_lookup ht key (fix_hash (hash_fn key)) in
  Ok (match s with Some _ => true | None => false end).

Definition op_htab_size (ht : op_htab) : Z := count ht.
Definition op_htab_cap (ht : op_htab) : Z := mask ht + 1.

Definition op_htab_compact (ht : op_htab) : result diverged op_htab :=
  let new_cap := next_pow2 (u64 (count ht * 2 + 1)) in
  if new_cap <? mask ht + 1 then htab_resize ht new_cap else Ok ht.

(** *** Iteration *)

(** [cur] is [None] for SIZE_MAX. *)
Record op_htab_iter_t := { it_idx : Z; it_cur : option Z }.
Definition op_htab_iter_init : op_htab_iter_t := {| it_idx := 0; it_cur := None |}.

Fixpoint next_loop (n : nat) (s : list op_htab_slot_t) (idx : Z) : option (Z * entry) :=
  match n with
  | O => None
  | S n => match at_slot s idx with Some e => Some (idx, e) | None => next_loop n s (idx + 1) end
  end.
Definition op_htab_iter_next (ht : op_htab) (it : op_htab_iter_t) : option (K * Z) * op_htab_iter_t :=
  let cap := mask ht + 1 in
  match next_loop (Z.to_nat (cap - it_idx it)) (slots ht) (it_idx it) with
  | Some (i, e) => (Some (e_key e, e_val e), {| it_idx := i + 1; it_cur := Some i |})
  | None => (None, {| it_idx := Z.max (it_idx it) cap; it_cur := None |})
  end.

Definition op_htab_iter_del (ht : op_htab) (it : op_htab_iter_t) : result diverged (Z * op_htab * op_htab_iter_t) :=
  match it_cur it with
  | None => Ok (0, ht, it)
  | Some i =>
      if mask ht + 1 <=? i then Ok (0, ht, it)
      else
        match at_slot (slots ht) i with
        | None => Ok (0, ht, it)
        | Some e =>
            let! ht := htab_del_at ht i in
            Ok (e_val e, ht, {| it_idx := i; it_cur := None |})
        end
  end.

(** What the callback is given, which stops the loop when it answers true. *)
Fixpoint foreach_slots (cb : K -> Z -> bool) (s : list op_htab_slot_t) : list (K * Z) :=
  match s with
  | [] => []
  | None :: s => foreach_slots cb s
  | Some e :: s => (e_key e, e_val e) :: if cb (e_key e) (e_val e) then [] else foreach_slots cb s
  end.
Definition op_htab_foreach (ht : op_htab) (cb : K -> Z -> bool) : list (K * Z) := foreach_slots cb (slots ht).

(** The destination, and what [conflict_cb] is given if there is one. *)
Fixpoint merge_slots (conflict_cb : bool) (dst : op_htab) (s : list op_htab_slot_t)
  : result diverged (op_htab * list (K * Z * K * Z)) :=
  match s with
  | [] => Ok (dst, [])
  | None :: s => merge_slots conflict_cb dst s
  | Some e :: s =>
      let! r := op_htab_set dst (e_key e) (e_val e) in
      let '(rc, old_val, dst) := r in
      if (rc =? 0) && conflict_cb then
        let! r := op_htab_set dst (e_key e) old_val in
        let '(_, _, dst) := r in
        let! r := merge_slots conflict_cb dst s in
        let '(dst, cs) := r in Ok (dst, (e_key e, old_val, e_key e, e_val e) :: cs)
      else merge_slots conflict_cb dst s
  end.
Definition op_htab_merge (dst src : op_htab) (conflict_cb : bool) : result diverged (op_htab * list (K * Z * K * Z)) :=
  merge_slots conflict_cb dst (slots src).

End Htab.

#[global] Arguments entry : clear implicits.
#[global] Arguments op_htab_slot_t : clear implicits.
#[global] Arguments op_htab : clear implicits.

Example htab_ex :
  (let! r := op_htab_set (op_htab_create 4) (IstrKey (bs "#Egg[1]")) 7 in
   let! r' := op_htab_set (snd r) (IstrKey (bs "#egg{1}")) 8 in
   let! v := op_htab_get (snd r') (IstrKey (bs "#EGG[1]")) in
   Ok (fst (fst r'), v, op_htab_size (snd r'))) = Ok (0, 8, 1).
Proof. vm_compute. reflexivity. Qed.
