(* ===== verification/HtabRing.v ===== *)
(** * The slots of the hash table as a ring

    The invariant of Robin Hood probing, local to neighbouring slots: the probe distance
    grows by at most one from a slot to the next ([RH]).  The loops of lookup, insertion and
    deletion end, keep it, and do to the entries what they should. *)

From stdpp Require Import gmap list.
From S2P Require Import Prelude LibC Deque Htab.
#[local] Open Scope Z_scope.

Section Array.
Context {K : Type}.
Implicit Types (s : list (op_htab_slot_t K)) (e : entry K).

(** ** The array as a ring *)

Definition len s : Z := Z.of_nat (length s).
Definition cell s (i : Z) : op_htab_slot_t K := at_slot s (i mod len s).

(** The capacity is a power of two, and [mask] one less. *)
Definition pow_len s (mask : Z) : Prop := exists k, 1 <= k <= 60 /\ len s = 2 ^ k /\ mask = len s - 1.

Lemma pow_len_pos s mask : pow_len s mask -> 2 <= len s <= 2 ^ 60.
Proof.
  intros (k & Hk & E & _). rewrite E. split; [|apply Z.pow_le_mono_r; lia].
  change 2 with (2 ^ 1) at 1. apply Z.pow_le_mono_r; lia.
Qed.

Lemma land_mask s mask x : pow_len s mask -> Z.land x mask = x mod len s.
Proof. intros (k & Hk & E & ->). rewrite E, <- Z.land_ones by lia. f_equal. rewrite Z.ones_equiv. lia. Qed.

Lemma dib_spec s mask i h : pow_len s mask -> dib mask i h = (i - h) mod len s.
Proof.
  intros Hp. unfold dib. rewrite !(land_mask s) by done. destruct Hp as (k & Hk & E & _). unfold u64.
  rewrite Z.mod_mod_divide.
  - by rewrite Zminus_mod_idemp_r.
  - rewrite E. exists (2 ^ (64 - k)). rewrite <- Z.pow_add_r by lia. f_equal. lia.
Qed.

Lemma cell_eq s i j : i mod len s = j mod len s -> cell s i = cell s j.
Proof. intros E. unfold cell. by rewrite E. Qed.

Lemma cell_at s i : 0 <= i < len s -> cell s i = at_slot s i.
Proof. intros Hi. unfold cell. by rewrite Z.mod_small. Qed.

Lemma len_set s i c : len (set_slot s i c) = len s.
Proof. unfold len, set_slot. by rewrite length_insert. Qed.

Lemma pow_len_set s mask i c : pow_len s mask -> pow_len (set_slot s i c) mask.
Proof. unfold pow_len. by rewrite len_set. Qed.

Lemma cell_set s i c j : 0 <= i < len s ->
  cell (set_slot s i c) j = if j mod len s =? i then c else cell s j.
Proof.
  intros Hi. unfold cell, at_slot. rewrite len_set. unfold set_slot.
  assert (0 <= j mod len s < len s) by (apply Z.mod_pos_bound; lia).
  rewrite !nth_lookup. destruct (Z.eqb_spec (j mod len s) i) as [->|Hne].
  - rewrite list_lookup_insert_eq; [done|]. unfold len in *. lia.
  - rewrite list_lookup_insert_ne; [done|]. lia.
Qed.

(** *** Probe distances *)

(** One more than the probe distance of an entry; 0 for an empty slot. *)
Definition dist_of n (i : Z) (c : op_htab_slot_t K) : Z :=
  match c with Some e => 1 + (i - e_hash e) mod n | None => 0 end.
Definition D s i : Z := dist_of (len s) i (cell s i).
Definition RH s : Prop := forall i, D s (i + 1) <= D s i + 1.

Lemma dist_of_bounds n i (c : op_htab_slot_t K) : 0 < n -> 0 <= dist_of n i c <= n.
Proof. intros Hn. destruct c as [e|]; cbn; [|lia]. pose proof (Z.mod_pos_bound (i - e_hash e) n). lia. Qed.

Lemma dist_of_mod n i j (c : op_htab_slot_t K) : i mod n = j mod n -> dist_of n i c = dist_of n j c.
Proof.
  intros E. destruct c as [e|]; [|done]. cbn. f_equal.
  by rewrite <- Zminus_mod_idemp_l, E, Zminus_mod_idemp_l.
Qed.

Lemma D_mod s i j : i mod len s = j mod len s -> D s i = D s j.
Proof. intros E. unfold D. rewrite (cell_eq s i j E). by apply dist_of_mod. Qed.

Lemma D_back s i t : RH s -> 0 <= t -> D s i <= D s (i - t) + t.
Proof.
  intros HR Ht. revert t Ht. apply natlike_ind; [rewrite Z.sub_0_r; lia|].
  intros t Ht IH. specialize (HR (i - Z.succ t)). replace (i - Z.succ t + 1) with (i - t) in HR by lia. lia.
Qed.

Definition has_room s : Prop := exists j, cell s j = None.

Lemma D_lt s i : 0 < len s -> RH s -> has_room s -> D s i <= len s - 1.
Proof.
  intros Hn HR (j & Hj). pose proof (Z.mod_pos_bound (i - j) (len s) Hn) as Ht.
  pose proof (D_back s i ((i - j) mod len s) HR ltac:(lia)) as H.
  assert (E : D s (i - (i - j) mod len s) = 0).
  { rewrite (D_mod s _ j).
    - unfold D. by rewrite Hj.
    - rewrite Zminus_mod_idemp_r. f_equal. lia. }
  lia.
Qed.

Lemma RH_set s i c : 2 <= len s -> 0 <= i < len s -> RH s ->
  dist_of (len s) i c <= D s (i - 1) + 1 -> D s (i + 1) <= dist_of (len s) i c + 1 ->
  RH (set_slot s i c).
Proof.
  intros Hn Hi HR H1 H2 j. unfold D. rewrite len_set, !cell_set by done.
  assert (Hne : j mod len s = i -> (j + 1) mod len s <> i).
  { intros E1 E2. rewrite <- Zplus_mod_idemp_l, E1 in E2. destruct (Z.eq_dec i (len s - 1)) as [->|].
    - replace (len s - 1 + 1) with (1 * len s) in E2 by lia. rewrite Z_mod_mult in E2. lia.
    - rewrite Z.mod_small in E2; lia. }
  assert (Hs : i mod len s = i) by (by apply Z.mod_small).
  destruct (Z.eqb_spec (j mod len s) i) as [E|E], (Z.eqb_spec ((j + 1) mod len s) i) as [E'|E'].
  - by destruct (Hne E).
  - rewrite (dist_of_mod _ j i c) by congruence. change (D s (j + 1) <= dist_of (len s) i c + 1).
    rewrite (D_mod s (j + 1) (i + 1)); [done|].
    rewrite <- Zplus_mod_idemp_l, E. done.
  - rewrite (dist_of_mod _ (j + 1) i c) by congruence. change (dist_of (len s) i c <= D s j + 1).
    rewrite (D_mod s j (i - 1)); [done|]. rewrite <- E', Zminus_mod_idemp_l. f_equal. lia.
  - apply HR.
Qed.

(** *** The entries *)

Definition slot_list (c : op_htab_slot_t K) : list (entry K) := match c with Some e => [e] | None => [] end.
Definition elems s : list (entry K) := flat_map slot_list s.

Lemma elems_app s1 s2 : elems (s1 ++ s2) = elems s1 ++ elems s2.
Proof. apply flat_map_app. Qed.

Lemma elems_set s i c : 0 <= i < len s ->
  slot_list (at_slot s i) ++ elems (set_slot s i c) ≡ₚ slot_list c ++ elems s.
Proof.
  intros Hi. unfold set_slot, at_slot. set (n := Z.to_nat i).
  assert (Hn : (n < length s)%nat) by (unfold n, len in *; lia).
  assert (E : s !! n = Some (nth n s None)).
  { destruct (lookup_lt_is_Some_2 s n Hn) as [x Ex]. by rewrite (nth_lookup_Some s n None x Ex). }
  rewrite <- (take_drop_middle s n _ E) at 3.
  rewrite insert_take_drop by done. rewrite !elems_app. unfold elems. cbn [flat_map].
  solve_Permutation.
Qed.

Lemma elems_cell s i e : 0 <= i < len s -> at_slot s i = Some e -> In e (elems s).
Proof.
  intros Hi E. unfold elems. apply in_flat_map. exists (Some e). split; [|by left].
  unfold at_slot in E. rewrite <- E. apply nth_In. unfold len in Hi. lia.
Qed.

Lemma elems_in s e : In e (elems s) -> exists i, 0 <= i < len s /\ at_slot s i = Some e.
Proof.
  intros (c & Hc & He)%in_flat_map. destruct c as [e'|]; [|done]. destruct He as [->|[]].
  apply (In_nth s _ None) in Hc as (n & Hn & E). exists (Z.of_nat n). unfold len, at_slot. rewrite Nat2Z.id. split; [lia|done].
Qed.

Lemma elems_room s : (length (elems s) < length s)%nat -> has_room s.
Proof.
  intros Hl. assert (exists n, (n < length s)%nat /\ nth n s None = None) as (n & Hn & E).
  { unfold elems in Hl. induction s as [|[e|] s IH]; cbn in *; [lia| |by exists 0%nat; split; [lia|]].
    destruct IH as (n & Hn & E); [lia|]. exists (S n). split; [lia|done]. }
  exists (Z.of_nat n). rewrite cell_at by (unfold len; lia). unfold at_slot. by rewrite Nat2Z.id.
Qed.

End Array.

(** ** The loops *)

Section Loops.
Context {K : Type} `{HtabKey K}.
Implicit Types (s : list (op_htab_slot_t K)) (e : entry K).

Lemma next_index s mask i x : pow_len s mask -> i = x mod len s -> Z.land (i + 1) mask = (x + 1) mod len s.
Proof. intros Hp ->. rewrite (land_mask s) by done. by rewrite Zplus_mod_idemp_l. Qed.

Lemma mod_offset n i h d : 0 < n -> 0 <= d < n -> i mod n = (h + d) mod n -> (i - h) mod n = d.
Proof.
  intros Hn Hd E. rewrite <- Zminus_mod_idemp_l, E, Zminus_mod_idemp_l.
  replace (h + d - h) with d by lia. by apply Z.mod_small.
Qed.

Lemma mod_pred n x : 0 < n -> 0 < x mod n -> (x - 1) mod n = x mod n - 1.
Proof.
  intros Hn Hx. rewrite <- Zminus_mod_idemp_l. apply Z.mod_small.
  pose proof (Z.mod_pos_bound x n Hn). lia.
Qed.

(** Which entry a lookup is for. *)
Definition hits (key : K) (hash : Z) (e : entry K) : Prop := e_hash e = hash /\ eq_fn (e_key e) key = true.

Lemma probe_spec (ht : op_htab K) (key : K) hash : pow_len (slots ht) (mask ht) -> RH (slots ht) -> has_room (slots ht) ->
  forall fuel i dist, 0 <= dist <= D (slots ht) (i - 1) -> i = (hash + dist) mod len (slots ht) ->
  len (slots ht) <= Z.of_nat fuel + dist ->
  (forall t e, 0 <= t < dist -> cell (slots ht) (hash + t) = Some e -> ~ hits key hash e) ->
  exists r, probe fuel ht key hash i dist = Ok r /\
    match r with
    | Some j => 0 <= j < len (slots ht) /\ exists e, at_slot (slots ht) j = Some e /\ hits key hash e
    | None => forall e, In e (elems (slots ht)) -> ~ hits key hash e
    end.
Proof.
  set (s := slots ht). intros Hp HR Hroom. pose proof (pow_len_pos _ _ Hp) as Hn.
  induction fuel as [|fuel IH]; intros i dist Hd Hi Hf Hno.
  { pose proof (D_lt s (i - 1) ltac:(lia) HR Hroom). lia. }
  assert (Hir : 0 <= i < len s) by (rewrite Hi; apply Z.mod_pos_bound; lia).
  assert (Himod : i mod len s = (hash + dist) mod len s) by (rewrite Hi at 1; apply Z.mod_mod; lia).
  (* nothing further along the chain when the entry here is richer *)
  assert (Hend : D s i <= dist -> forall e, In e (elems s) -> ~ hits key hash e).
  { intros HD e He Hh. destruct (elems_in _ _ He) as (j & Hj & Ej). pose proof Hh as [Hhash _].
    pose proof (Z.mod_pos_bound (j - hash) (len s) ltac:(lia)) as Hm. set (d := (j - hash) mod len s) in *.
    assert (Ejd : (hash + d) mod len s = j mod len s).
    { unfold d. rewrite Zplus_mod_idemp_r. f_equal. lia. }
    destruct (Z.ltb_spec d dist).
    - apply (Hno d e); [lia| |done]. fold s. rewrite (cell_eq s _ j Ejd). by rewrite cell_at.
    - pose proof (D_back s j (d - dist) HR ltac:(lia)) as Hb.
      assert (Ej' : D s j = 1 + d) by (unfold D; rewrite cell_at, Ej by done; cbn; by rewrite Hhash).
      rewrite (D_mod s (j - (d - dist)) i) in Hb; [lia|].
      rewrite Himod, <- Zminus_mod_idemp_l, <- Ejd, Zminus_mod_idemp_l. f_equal. lia. }
  cbn [probe]. fold s. destruct (at_slot s i) as [e|] eqn:Ei.
  - rewrite (dib_spec s) by done.
    assert (ED : D s i = 1 + (i - e_hash e) mod len s) by (unfold D; rewrite cell_at, Ei by done; done).
    destruct (Z.ltb_spec ((i - e_hash e) mod len s) dist).
    { exists None. split; [done|]. apply Hend. lia. }
    destruct ((e_hash e =? hash) && eq_fn (e_key e) key) eqn:Em.
    { exists (Some i). split; [done|]. split; [done|]. exists e. split; [done|].
      apply andb_true_iff in Em as [E1%Z.eqb_eq E2]. by split. }
    apply IH.
    + rewrite (next_index s _ i (hash + dist)) by done.
      rewrite (D_mod s _ i); [lia|]. rewrite Zminus_mod_idemp_l, Himod. f_equal. lia.
    + rewrite (next_index s _ i (hash + dist)) by done. f_equal. lia.
    + fold s. lia.
    + intros t e' Ht Ec. destruct (Z.eq_dec t dist) as [->|]; [|apply (Hno t e'); [lia|done]].
      fold s in Ec. rewrite (cell_eq s _ i) in Ec by done. rewrite cell_at, Ei in Ec by done. injection Ec as <-.
      intros [E1 E2]. rewrite E1, E2, Z.eqb_refl in Em. done.
  - exists None. split; [done|]. apply Hend. unfold D. rewrite cell_at, Ei by done. cbn. lia.
Qed.

Lemma off_room s i t : 2 <= len s -> 0 <= i < len s -> 0 < t < len s -> (i + t) mod len s <> i.
Proof.
  intros Hn Hi Ht E. destruct (Z.ltb_spec (i + t) (len s)).
  - rewrite Z.mod_small in E; lia.
  - replace (i + t) with (i + t - len s + 1 * len s) in E by lia. rewrite Z_mod_plus_full, Z.mod_small in E; lia.
Qed.

Lemma insert_loop_spec mask : forall fuel s e i dist,
  pow_len s mask -> RH s -> 0 <= dist <= D s (i - 1) -> i = (e_hash e + dist) mod len s ->
  (exists t, 0 <= t < Z.of_nat fuel /\ t < len s /\ cell s (i + t) = None) ->
  exists s', insert_loop fuel s mask e i dist = Ok s' /\ RH s' /\ length s' = length s /\
             elems s' ≡ₚ e :: elems s.
Proof.
  induction fuel as [|fuel IH]; intros s e i dist Hp HR Hd Hi (t & Ht & Htn & Hc); [lia|].
  pose proof (pow_len_pos _ _ Hp) as Hn.
  assert (Hir : 0 <= i < len s) by (rewrite Hi; apply Z.mod_pos_bound; lia).
  assert (Hroom : has_room s) by (by exists (i + t)).
  pose proof (D_lt s (i - 1) ltac:(lia) HR Hroom) as Hdn.
  assert (Ed : (i - e_hash e) mod len s = dist).
  { apply mod_offset; [lia|lia|]. rewrite Hi. apply Z.mod_mod. lia. }
  assert (Edo : dist_of (len s) i (Some e) = 1 + dist) by (cbn; by rewrite Ed).
  pose proof (elems_set s i (Some e) Hir) as Hel.
  cbn [insert_loop]. destruct (at_slot s i) as [u|] eqn:Ei.
  - assert (ED : D s i = 1 + (i - e_hash u) mod len s) by (unfold D; rewrite cell_at, Ei by done; done).
    rewrite (dib_spec s) by done.
    assert (Ht0 : t <> 0).
    { intros ->. rewrite Z.add_0_r, cell_at, Ei in Hc by done. done. }
    destruct (Z.ltb_spec ((i - e_hash u) mod len s) dist) as [Hlt|Hge].
    + set (sd := (i - e_hash u) mod len s) in *. set (s1 := set_slot s i (Some e)) in *.
      assert (Hl1 : len s1 = len s) by apply len_set.
      assert (Eu : i mod len s = (e_hash u + sd) mod len s).
      { unfold sd. rewrite Zplus_mod_idemp_r. f_equal. lia. }
      destruct (IH s1 u (Z.land (i + 1) mask) (sd + 1)) as (s' & E & HR' & Hl' & Hel').
      * by apply pow_len_set.
      * apply RH_set; [lia|done|done|rewrite Edo; lia|]. rewrite Edo. pose proof (HR i). lia.
      * split; [unfold sd; pose proof (Z.mod_pos_bound (i - e_hash u) (len s)); lia|].
        rewrite (land_mask s) by done.
        rewrite (D_mod s1 _ i) by (rewrite Hl1, Zminus_mod_idemp_l; f_equal; lia).
        unfold D, s1. rewrite cell_set, len_set by done. rewrite Z.mod_small, Z.eqb_refl by done. rewrite Edo. lia.
      * rewrite (land_mask s) by done. rewrite Hl1, <- Zplus_mod_idemp_l, Eu, Zplus_mod_idemp_l. f_equal. lia.
      * exists (t - 1). split; [lia|]. split; [lia|]. rewrite (land_mask s) by done.
        rewrite (cell_eq s1 _ (i + t)).
        -- unfold s1. rewrite cell_set by done. rewrite (proj2 (Z.eqb_neq _ _)); [done|]. apply off_room; lia.
        -- rewrite Hl1, Zplus_mod_idemp_l. f_equal. lia.
      * exists s'. split; [done|]. split; [done|]. split; [|by rewrite Hel'].
        unfold s1, set_slot in Hl'. by rewrite length_insert in Hl'.
    + apply IH; [done|done| | |].
      * rewrite (next_index s _ i i) by (done || by rewrite Z.mod_small).
        rewrite (D_mod s _ i); [lia|]. rewrite Zminus_mod_idemp_l. f_equal. lia.
      * rewrite (next_index s _ i (e_hash e + dist)) by done. f_equal. lia.
      * exists (t - 1). split; [lia|]. split; [lia|]. rewrite <- Hc. apply cell_eq.
        rewrite (land_mask s) by done. rewrite Zplus_mod_idemp_l. f_equal. lia.
  - exists (set_slot s i (Some e)). split; [done|]. split; [|split; [|exact Hel]].
    + apply RH_set; [lia|done|done|rewrite Edo; lia|]. rewrite Edo. pose proof (HR i) as Hr.
      unfold D at 2 in Hr. rewrite cell_at, Ei in Hr by done. cbn in Hr. lia.
    + unfold set_slot. by rewrite length_insert.
Qed.

(** Deletion: the entry in slot [i] goes.  Up to the next empty slot, [t] further on, a slot
    may take what was in the one after it; the others stay as they are. *)
Definition shifted s s' (i t : Z) : Prop :=
  (forall j, cell s j = None -> cell s' j = None) /\
  (forall u, t <= u < len s -> cell s' (i + u) = cell s (i + u)) /\
  (forall u, 0 <= u < t -> cell s' (i + u) = cell s (i + u) \/ cell s' (i + u) = None \/
                           cell s' (i + u) = cell s (i + u + 1)).

Lemma shifted_stop s i e0 t : 0 <= i < len s -> at_slot s i = Some e0 -> 2 <= len s -> 1 <= t < len s ->
  shifted s (set_slot s i None) i t.
Proof.
  intros Hi E0 Hn Ht. split; [|split].
  - intros j Hj. rewrite cell_set by done. by destruct (_ =? _).
  - intros u Hu. rewrite cell_set by done. rewrite (proj2 (Z.eqb_neq _ _)); [done|]. apply off_room; lia.
  - intros u Hu. rewrite cell_set by done. destruct (_ =? _); auto.
Qed.

Lemma shifted_step s s' i j e0 e1 t : 2 <= len s -> 0 <= i < len s -> at_slot s i = Some e0 ->
  cell s (i + 1) = Some e1 -> j mod len s = (i + 1) mod len s -> 1 < t < len s ->
  shifted (set_slot s i (Some e1)) s' j (t - 1) -> len s' = len s -> shifted s s' i t.
Proof.
  intros Hn Hi E0 E1 Hj Ht (F1 & F2 & F3) Hl. set (s1 := set_slot s i (Some e1)) in *.
  assert (Hl1 : len s1 = len s) by apply len_set.
  assert (Hset : forall x, x mod len s <> i -> cell s1 x = cell s x).
  { intros x Hx. unfold s1. rewrite cell_set by done. by rewrite (proj2 (Z.eqb_neq _ _)). }
  assert (Hoff : forall u, 0 < u < len s -> cell s1 (i + u) = cell s (i + u)).
  { intros u Hu. apply Hset. apply off_room; lia. }
  assert (Hju : forall x u, len x = len s -> cell (K := K) x (i + u) = cell x (j + (u - 1))).
  { intros x u Hx. apply cell_eq. rewrite Hx, <- (Zplus_mod_idemp_l j), Hj, Zplus_mod_idemp_l. f_equal. lia. }
  assert (Hsi : cell s1 i = cell s (i + 1)).
  { unfold s1. rewrite cell_set, Z.mod_small, Z.eqb_refl by done. done. }
  split; [|split].
  - intros x Hx. apply F1. rewrite Hset; [done|]. intros Exi. rewrite <- Exi in E0.
    change (cell s x = Some e0) in E0. congruence.
  - intros u Hu. rewrite (Hju s' u Hl), F2 by lia. rewrite <- (Hju s1 u Hl1). apply Hoff. lia.
  - intros u Hu. destruct (Z.eq_dec u 0) as [->|].
    + right. right. rewrite !Z.add_0_r, <- Hsi.
      assert (Hw : (j + (len s - 1)) mod len s = i mod len s).
      { rewrite <- Zplus_mod_idemp_l, Hj, Zplus_mod_idemp_l.
        replace (i + 1 + (len s - 1)) with (i + 1 * len s) by lia. apply Z_mod_plus_full. }
      rewrite <- (cell_eq s' _ i) by (rewrite Hl; exact Hw). rewrite F2 by lia.
      apply cell_eq. by rewrite Hl1.
    + rewrite (Hju s' u Hl). destruct (F3 (u - 1)) as [E|[E|E]]; [lia|left|by auto|right; right]; rewrite E.
      * rewrite <- (Hju s1 u Hl1). apply Hoff. lia.
      * replace (j + (u - 1) + 1) with (j + (u + 1 - 1)) by lia. rewrite <- (Hju s1 (u + 1) Hl1), Hoff by lia.
        f_equal. lia.
Qed.

Lemma shift_loop_spec mask : forall fuel s i e0 t,
  pow_len s mask -> RH s -> 0 <= i < len s -> at_slot s i = Some e0 ->
  1 <= t <= Z.of_nat fuel -> t < len s -> cell s (i + t) = None ->
  exists s', shift_loop fuel s mask i = Ok s' /\ RH s' /\ length s' = length s /\
             e0 :: elems s' ≡ₚ elems s /\ shifted s s' i t.
Proof.
  induction fuel as [|fuel IH]; intros s i e0 t Hp HR Hi E0 Ht Htn Hc; [lia|].
  pose proof (pow_len_pos _ _ Hp) as Hn.
  assert (Hj : Z.land (i + 1) mask = (i + 1) mod len s) by (by rewrite (land_mask s)).
  assert (Hjr : 0 <= Z.land (i + 1) mask < len s) by (rewrite Hj; apply Z.mod_pos_bound; lia).
  assert (Ecj : cell s (i + 1) = at_slot s (Z.land (i + 1) mask)) by (unfold cell; by rewrite Hj).
  assert (Hstop : D s (i + 1) <= 1 -> exists s', Ok (E := diverged) (set_slot s i None) = Ok s' /\ RH s' /\
             length s' = length s /\ e0 :: elems s' ≡ₚ elems s /\ shifted s s' i t).
  { intros HD. exists (set_slot s i None). split; [done|]. split.
    - apply RH_set; [lia|done|done|cbn|cbn; lia].
      unfold D. pose proof (dist_of_bounds (len s) (i - 1) (cell s (i - 1))). lia.
    - split; [unfold set_slot; by rewrite length_insert|]. split; [|apply (shifted_stop s i e0); (done || lia)].
      pose proof (elems_set s i None Hi) as Hel. by rewrite E0 in Hel. }
  cbn [shift_loop]. destruct (at_slot s (Z.land (i + 1) mask)) as [e1|] eqn:E1; [|apply Hstop; unfold D; by rewrite Ecj].
  rewrite (dib_spec s) by done.
  assert (Ed : (Z.land (i + 1) mask - e_hash e1) mod len s = (i + 1 - e_hash e1) mod len s).
  { by rewrite Hj, Zminus_mod_idemp_l. }
  rewrite Ed. set (d := (i + 1 - e_hash e1) mod len s).
  assert (ED : D s (i + 1) = 1 + d) by (unfold D; rewrite Ecj; done).
  destruct (Z.eqb_spec d 0) as [E|Hd]; [apply Hstop; lia|].
  assert (Hdp : 0 < d) by (pose proof (Z.mod_pos_bound (i + 1 - e_hash e1) (len s)); unfold d in *; lia).
  assert (Edo : dist_of (len s) i (Some e1) = d).
  { cbn. replace (i - e_hash e1) with (i + 1 - e_hash e1 - 1) by lia. rewrite mod_pred by (fold d; lia). fold d. lia. }
  set (s1 := set_slot s i (Some e1)). assert (Hl1 : len s1 = len s) by apply len_set.
  assert (Ht1 : t <> 1) by (intros ->; by rewrite Ecj in Hc).
  assert (Hother : forall x, x mod len s <> i -> cell s1 x = cell s x).
  { intros x Hx. unfold s1. rewrite cell_set by done. by rewrite (proj2 (Z.eqb_neq _ _)). }
  destruct (IH s1 (Z.land (i + 1) mask) e1 (t - 1)) as (s' & E & HR' & Hl' & Hel' & Hf').
  - by apply pow_len_set.
  - apply RH_set; [lia|done|done|rewrite Edo|rewrite Edo; lia].
    pose proof (HR i). pose proof (HR (i - 1)) as Hr. replace (i - 1 + 1) with i in Hr by lia. lia.
  - by rewrite Hl1.
  - rewrite <- cell_at by (by rewrite Hl1). rewrite Hother; [by rewrite cell_at|].
    rewrite Z.mod_small by done. rewrite Hj. apply off_room; lia.
  - lia.
  - lia.
  - rewrite (cell_eq s1 _ (i + t)) by (rewrite Hl1, Hj, Zplus_mod_idemp_l; f_equal; lia).
    rewrite Hother; [done|]. apply off_room; lia.
  - exists s'. split; [done|]. split; [done|].
    assert (Hls : length s' = length s) by (unfold s1, set_slot in Hl'; by rewrite length_insert in Hl').
    split; [done|]. split.
    + pose proof (elems_set s i (Some e1) Hi) as Hel. rewrite E0 in Hel. cbn in Hel. fold s1 in Hel.
      rewrite <- Hel' in Hel. apply (Permutation_cons_inv (a := e1)). rewrite <- Hel. by constructor.
    + apply (shifted_step s s' i (Z.land (i + 1) mask) e0 e1); [lia|done|done|done| |lia|done|].
      * rewrite Hj. apply Z.mod_mod. lia.
      * unfold len. by rewrite Hls.
Qed.

(** ** Rebuilding *)

Lemma has_room_off s i : 0 < len s -> has_room s -> exists t, 0 <= t < len s /\ cell s (i + t) = None.
Proof.
  intros Hn (j & Hj). exists ((j - i) mod len s). split; [apply Z.mod_pos_bound; lia|].
  rewrite <- Hj. apply cell_eq. rewrite Zplus_mod_idemp_r. f_equal. lia.
Qed.

Lemma D_nonneg s i : 0 < len s -> 0 <= D s i.
Proof. intros Hn. unfold D. pose proof (dist_of_bounds (len s) i (cell s i) Hn). lia. Qed.

Lemma insert_slot_spec s mask e : pow_len s mask -> RH s -> (length (elems s) < length s)%nat ->
  exists s', htab_insert_slot s mask e = Ok s' /\ RH s' /\ length s' = length s /\ elems s' ≡ₚ e :: elems s.
Proof.
  intros Hp HR Hroom. pose proof (pow_len_pos _ _ Hp) as Hn. apply insert_loop_spec; [done|done| | |].
  - split; [done|]. apply D_nonneg. lia.
  - rewrite (land_mask s) by done. by rewrite Z.add_0_r.
  - destruct (has_room_off s (Z.land (e_hash e) mask) ltac:(lia) (elems_room s Hroom)) as (t & Ht & Hc).
    exists t. split; [unfold turn, len in *; lia|]. split; [lia|done].
Qed.

Lemma insert_all_spec mask old : forall new, pow_len new mask -> RH new ->
  (length (elems old) + length (elems new) < length new)%nat ->
  exists s', insert_all old new mask = Ok s' /\ RH s' /\ length s' = length new /\ elems s' ≡ₚ elems old ++ elems new.
Proof.
  induction old as [|[e|] old IH]; intros new Hp HR Hroom.
  - exists new. done.
  - cbn in Hroom. fold (elems old) in Hroom.
    destruct (insert_slot_spec new mask e Hp HR ltac:(lia)) as (s1 & E1 & HR1 & Hl1 & Hel1).
    assert (Hp1 : pow_len s1 mask) by (unfold pow_len, len in *; by rewrite Hl1).
    pose proof (Permutation_length Hel1) as Hpl. cbn in Hpl.
    destruct (IH s1 Hp1 HR1 ltac:(lia)) as (s2 & E2 & HR2 & Hl2 & Hel2).
    exists s2. cbn [insert_all]. rewrite E1. cbn [rbind]. split; [done|]. split; [done|]. split; [congruence|].
    rewrite Hel2, Hel1. cbn. by rewrite Permutation_middle.
  - destruct (IH new Hp HR Hroom) as (s2 & E2). by exists s2.
Qed.

Lemma elems_calloc n : elems (op_calloc (K := K) n) = [].
Proof. unfold op_calloc. induction (Z.to_nat n) as [|m IH]; [done|]. exact IH. Qed.

Lemma calloc_RH n : RH (op_calloc (K := K) n).
Proof.
  assert (E : forall i, cell (op_calloc (K := K) n) i = None).
  { intros i. unfold cell, at_slot. generalize (i mod len (op_calloc (K := K) n)) as x. intros x.
    unfold op_calloc. rewrite nth_lookup. destruct (replicate _ _ !! _) as [c|] eqn:Ec; [|done].
    by apply lookup_replicate in Ec as [-> _]. }
  intros i. unfold D. by rewrite !E.
Qed.

Lemma resize_spec (ht : op_htab K) k : 1 <= k <= 60 -> Z.of_nat (length (elems (slots ht))) < 2 ^ k ->
  exists s', htab_resize ht (2 ^ k) = Ok {| slots := s'; mask := 2 ^ k - 1; count := count ht |} /\
    RH s' /\ len s' = 2 ^ k /\ elems s' ≡ₚ elems (slots ht).
Proof.
  intros Hk Hc. assert (Hpos : 0 < 2 ^ k) by (apply Z.pow_pos_nonneg; lia).
  assert (Hl : len (op_calloc (K := K) (2 ^ k)) = 2 ^ k) by (unfold len, op_calloc; rewrite length_replicate; lia).
  destruct (insert_all_spec (2 ^ k - 1) (slots ht) (op_calloc (2 ^ k))) as (s' & E & HR & Hl' & Hel).
  - exists k. rewrite Hl. done.
  - apply calloc_RH.
  - rewrite elems_calloc. cbn. unfold len in Hl. lia.
  - exists s'. unfold htab_resize. rewrite E. split; [done|]. split; [done|].
    rewrite elems_calloc, app_nil_r in Hel. split; [|done]. unfold len in *. by rewrite Hl'.
Qed.

End Loops.
