(* ===== verification/HtabMap.v ===== *)
(** * The hash table as a finite map

    The contract of a key type, the invariant of a table ([wf]) and the finite map it stands
    for ([abs]), from the keys up to their equality; what each operation does to the map. *)

From stdpp Require Import gmap list.
From S2P Require Import Prelude LibC Rfc1459 Deque Htab HtabRing.
#[local] Open Scope Z_scope.

(** ** The contract of a key type *)

(** What the table asks of its keys: [norm] is a canonical form, so that [eq_fn] is an
    equivalence, and equal keys have equal hashes. *)
Class HtabKeyLaws (K : Type) `{HtabKey K} (N : Type) `{Countable N} := {
  norm : K -> N;
  eq_norm a b : eq_fn a b = true <-> norm a = norm b;
  hash_norm a b : norm a = norm b -> hash_fn a = hash_fn b;
  hash_range a : 0 <= hash_fn a < 2 ^ 64
}.

Lemma fix_hash_range h : 0 <= h < 2 ^ 64 -> 0 < fix_hash h < 2 ^ 64.
Proof. intros Hh. unfold fix_hash. destruct (Z.eqb_spec h 0); lia. Qed.

Lemma u64_range x : 0 <= u64 x < 2 ^ 64.
Proof. unfold u64. apply Z.mod_pos_bound. lia. Qed.

Lemma fnv_range s h (f : Z -> Z) : 0 <= h < 2 ^ 64 -> 0 <= fold_left (fun h c => fnv_step h (f c)) s h < 2 ^ 64.
Proof. revert h. induction s as [|c s IH]; intros h Hh; [done|]. cbn [fold_left]. apply IH, u64_range. Qed.

Lemma fix_hash_bounds h : 0 <= h < 2 ^ 64 -> 0 <= fix_hash h < 2 ^ 64.
Proof. intros Hh%fix_hash_range. lia. Qed.

(** The three key types keep the contract. *)
#[export] Program Instance str_laws : HtabKeyLaws str_key (list Z) := {| norm k := str_of k |}.
Next Obligation. intros [a] [b]. apply streq_eq. Qed.
Next Obligation. intros [a] [b]. cbn. by intros ->. Qed.
Next Obligation. intros [a]. cbn. apply fix_hash_bounds. apply (fnv_range a FNV_OFFSET (fun c => c)). done. Qed.

Lemma fold_left_map {A B C} (f : A -> B -> A) (g : C -> B) l a :
  fold_left (fun a x => f a (g x)) l a = fold_left f (map g l) a.
Proof. revert a. induction l as [|x l IH]; intros a; [done|]. cbn. by rewrite IH. Qed.

#[export] Program Instance istr_laws : HtabKeyLaws istr_key (list Z) := {| norm k := map istr_fold (istr_of k) |}.
Next Obligation. intros [a] [b]. apply streq_eq. Qed.
Next Obligation.
  intros [a] [b]. cbn. unfold op_htab_hash_istr. rewrite !(fold_left_map fnv_step istr_fold). by intros ->.
Qed.
Next Obligation. intros [a]. cbn. apply fix_hash_bounds, fnv_range. done. Qed.

Lemma istr_fold_eq x y : 0 <= x < 256 -> 0 <= y < 256 ->
  istr_fold x = istr_fold y <-> rfc_toupper_fast x = rfc_toupper_fast y.
Proof.
  intros Hx Hy.
  assert (H : forallb (fun x => forallb (fun y =>
      Bool.eqb (istr_fold x =? istr_fold y) (rfc_toupper_fast x =? rfc_toupper_fast y))
      (seqZ 0 256)) (seqZ 0 256) = true) by (vm_compute; reflexivity).
  rewrite forallb_forall in H. specialize (H x ltac:(apply list_elem_of_In, elem_of_seqZ; lia)).
  rewrite forallb_forall in H. specialize (H y ltac:(apply list_elem_of_In, elem_of_seqZ; lia)).
  apply Bool.eqb_prop in H. rewrite <- !Z.eqb_eq. by rewrite H.
Qed.

(** The keys that are equal IRC names for [rfc_casecmp] are equal for the tables. *)
Lemma casecmp_istr a b : cstr a -> cstr b -> _rfc_casecmp a b = 0 <-> map istr_fold a = map istr_fold b.
Proof.
  intros Ha Hb. rewrite casecmp_zero by done. unfold rfc_fold.
  revert b Hb. induction a as [|x a IH]; intros [|y b] Hb; [done..|]. cbn [map].
  apply cstr_cons in Ha as [Hx Ha]. apply cstr_cons in Hb as [Hy Hb].
  specialize (IH Ha b Hb). pose proof (istr_fold_eq x y ltac:(lia) ltac:(lia)).
  split; intros [= E1 E2]; f_equal; tauto.
Qed.

Lemma lxor_range a b : 0 <= a < 2 ^ 64 -> 0 <= b < 2 ^ 64 -> 0 <= Z.lxor a b < 2 ^ 64.
Proof.
  intros Ha Hb. split; [by apply Z.lxor_nonneg; lia|].
  assert (E : Z.lxor a b = Z.lxor a b mod 2 ^ 64).
  { apply Z.bits_inj'. intros i Hi. rewrite Z.lxor_spec. destruct (Z.ltb_spec i 64).
    - by rewrite Z.mod_pow2_bits_low, Z.lxor_spec by lia.
    - rewrite Z.mod_pow2_bits_high by lia.
      rewrite <- (Z.mod_small a (2 ^ 64)), <- (Z.mod_small b (2 ^ 64)) by lia.
      by rewrite !Z.mod_pow2_bits_high by lia. }
  rewrite E. apply Z.mod_pos_bound. lia.
Qed.

Lemma shiftr_range a k : 0 <= a < 2 ^ 64 -> 0 <= k -> 0 <= Z.shiftr a k < 2 ^ 64.
Proof.
  intros Ha Hk. rewrite Z.shiftr_div_pow2 by done.
  assert (0 < 2 ^ k) by (apply Z.pow_pos_nonneg; lia).
  split; [apply Z.div_pos; lia|]. apply Z.div_lt_upper_bound; [done|]. nia.
Qed.

#[export] Program Instance ptr_laws : HtabKeyLaws ptr_key Z := {| norm k := ptr_of k |}.
Next Obligation. intros [a] [b]. apply Z.eqb_eq. Qed.
Next Obligation. intros [a] [b]. cbn. by intros ->. Qed.
Next Obligation.
  intros [a]. cbn. unfold op_htab_hash_ptr. apply fix_hash_bounds. cbv zeta.
  apply lxor_range; [apply u64_range|]. apply shiftr_range; [apply u64_range|lia].
Qed.

(** ** The table as a finite map *)

Section Map.
Context {K : Type} `{HtabKey K} {N : Type} `{Countable N} `{!HtabKeyLaws K N}.
Implicit Types (ht : op_htab K) (e : entry K) (l : list (entry K)).

Definition entry_ok e : Prop := e_hash e = fix_hash (hash_fn (e_key e)).
Definition key_of e : N := norm (e_key e).
Definition pair_of e : N * (K * Z) := (key_of e, (e_key e, e_val e)).

(** The entries of a table: cached hashes are right and no key is there twice. *)
Definition entries_ok l : Prop := Forall entry_ok l /\ NoDup (map key_of l).
Definition map_of l : gmap N (K * Z) := list_to_map (map pair_of l).

Record wf ht : Prop := {
  wf_cap : exists k, 4 <= k <= 58 /\ len (slots ht) = 2 ^ k /\ mask ht = 2 ^ k - 1;
  wf_RH : RH (slots ht);
  wf_count : count ht = Z.of_nat (length (elems (slots ht)));
  wf_room : count ht < len (slots ht);
  wf_entries : entries_ok (elems (slots ht))
}.

(** What the table says: the canonical form of a key leads to the key and the value. *)
Definition abs ht : gmap N (K * Z) := map_of (elems (slots ht)).

Lemma keys_pairs l : (map pair_of l).*1 = map key_of l.
Proof. induction l as [|e l IH]; [done|]. cbn. by rewrite <- IH. Qed.

Lemma map_of_perm l1 l2 : NoDup (map key_of l1) -> l1 ≡ₚ l2 -> map_of l1 = map_of l2.
Proof.
  intros Hn HP. unfold map_of. apply list_to_map_proper; [by rewrite keys_pairs|]. by apply Permutation_map.
Qed.

Lemma entries_ok_perm l1 l2 : l1 ≡ₚ l2 -> entries_ok l1 -> entries_ok l2.
Proof. intros HP [H1 H2]. split; [by rewrite <- HP|]. by rewrite <- (Permutation_map key_of HP). Qed.

Lemma map_of_cons e l : map_of (e :: l) = <[key_of e := (e_key e, e_val e)]> (map_of l).
Proof. done. Qed.

Lemma map_of_None l x : map_of l !! x = None <-> ~ In x (map key_of l).
Proof.
  rewrite <- list_elem_of_In, <- keys_pairs. split; [apply not_elem_of_list_to_map_2|apply not_elem_of_list_to_map_1].
Qed.

Lemma map_of_in l e : NoDup (map key_of l) -> In e l -> map_of l !! key_of e = Some (e_key e, e_val e).
Proof.
  intros Hn Hi. apply elem_of_list_to_map; [by rewrite keys_pairs|].
  apply list_elem_of_In. apply (in_map pair_of _ _ Hi).
Qed.

Lemma wf_pow ht : wf ht -> pow_len (slots ht) (mask ht).
Proof. intros [(k & Hk & E & ->) _ _ _ _]. exists k. split; [lia|]. split; [done|lia]. Qed.

Lemma wf_has_room ht : wf ht -> has_room (slots ht).
Proof. intros W. apply elems_room. pose proof (wf_count _ W). pose proof (wf_room _ W). unfold len in *. lia. Qed.

(** A table that holds the entries [l]. *)
Lemma wf_intro s m c l k : 4 <= k <= 58 -> len s = 2 ^ k -> m = 2 ^ k - 1 -> RH s -> elems s ≡ₚ l ->
  entries_ok l -> c = Z.of_nat (length l) -> c < 2 ^ k ->
  wf {| slots := s; mask := m; count := c |} /\ abs {| slots := s; mask := m; count := c |} = map_of l.
Proof.
  intros Hk El Em HR HP He Ec Hc. assert (He' : entries_ok (elems s)) by (by apply (entries_ok_perm l)).
  split; [split; cbn [slots mask count]|].
  - exists k. done.
  - done.
  - by rewrite HP.
  - lia.
  - done.
  - unfold abs. cbn [slots]. apply map_of_perm; [apply He'|done].
Qed.

Lemma hits_norm ht key e : wf ht -> In e (elems (slots ht)) ->
  hits key (fix_hash (hash_fn key)) e <-> key_of e = norm key.
Proof.
  intros W Hi. destruct (wf_entries _ W) as [Hok _]. rewrite List.Forall_forall in Hok. specialize (Hok e Hi).
  unfold hits. rewrite eq_norm. unfold key_of. split; [tauto|]. intros E. split; [|done].
  rewrite Hok. by rewrite (hash_norm _ _ E).
Qed.

(** A lookup ends, with the slot of the key or the knowledge that there is none. *)
Lemma find_idx_spec ht key : wf ht -> exists r, htab_find_idx ht key (fix_hash (hash_fn key)) = Ok r /\
  match r with
  | Some j => 0 <= j < len (slots ht) /\ exists e, at_slot (slots ht) j = Some e /\ key_of e = norm key
  | None => abs ht !! norm key = None
  end.
Proof.
  intros W. pose proof (wf_pow _ W) as Hp. pose proof (pow_len_pos _ _ Hp) as Hn. set (hash := fix_hash (hash_fn key)).
  destruct (probe_spec ht key hash Hp (wf_RH _ W) (wf_has_room _ W) (turn (slots ht)) (Z.land hash (mask ht)) 0)
    as (r & E & Hr).
  - split; [done|]. apply D_nonneg. lia.
  - rewrite (land_mask (slots ht)) by done. by rewrite Z.add_0_r.
  - unfold turn, len. lia.
  - intros t e Ht. lia.
  - exists r. split; [exact E|]. destruct r as [j|].
    + destruct Hr as (Hj & e & Ee & Hh). split; [done|]. exists e. split; [done|].
      apply (hits_norm ht); [done|by apply (elems_cell _ j)|done].
    + apply map_of_None. intros (e & Ee & Hi)%in_map_iff. apply (Hr e Hi). by apply (hits_norm ht key e W Hi).
Qed.

Lemma abs_at ht j e : wf ht -> 0 <= j < len (slots ht) -> at_slot (slots ht) j = Some e ->
  abs ht !! key_of e = Some (e_key e, e_val e).
Proof. intros W Hj E. apply map_of_in; [apply (wf_entries _ W)|by apply (elems_cell _ j)]. Qed.

(** *** The keys that are compared *)

Lemma probed_in ht key hash k : forall fuel i dist, In k (probed fuel ht key hash i dist) ->
  exists e, In e (elems (slots ht)) /\ e_key e = k.
Proof.
  induction fuel as [|fuel IH]; intros i dist; [done|]. cbn [probed]. destruct (at_slot (slots ht) i) as [e|] eqn:E; [|done].
  assert (He : In e (elems (slots ht))).
  { apply in_flat_map. exists (Some e). split; [|by left]. rewrite <- E. unfold at_slot in *. apply nth_In.
    destruct (Nat.lt_ge_cases (Z.to_nat i) (length (slots ht))); [done|]. by rewrite nth_overflow in E. }
  destruct (_ <? dist); [done|]. destruct (e_hash e =? hash); [|by apply IH]. intros [<-|Hin]; [by exists e|].
  destruct (eq_fn (e_key e) key); [done|by eapply IH].
Qed.

Lemma probed_found ht key hash j e : at_slot (slots ht) j = Some e -> forall fuel i dist,
  probe fuel ht key hash i dist = Ok (Some j) -> In (e_key e) (probed fuel ht key hash i dist).
Proof.
  intros Ee. induction fuel as [|fuel IH]; intros i dist; [done|]. cbn [probe probed].
  destruct (at_slot (slots ht) i) as [s|] eqn:E; [|done]. destruct (_ <? dist); [done|].
  destruct (e_hash s =? hash); cbn [andb]; [|by apply IH]. destruct (eq_fn (e_key s) key); [|intros Hp; right; by apply IH].
  intros [= ->]. left. congruence.
Qed.

Lemma compared_abs ht key k : wf ht -> In k (htab_compared ht key) -> exists v, abs ht !! norm k = Some (k, v).
Proof.
  intros W (e & He & <-)%probed_in. exists (e_val e). apply map_of_in; [apply (wf_entries _ W)|done].
Qed.

Lemma compared_found ht key k v : wf ht -> abs ht !! norm key = Some (k, v) -> In k (htab_compared ht key).
Proof.
  intros W Ha. destruct (find_idx_spec ht key W) as (r & E & Hr). destruct r as [j|]; [|congruence].
  destruct Hr as (Hj & e & Ee & Ek). pose proof (abs_at ht j e W Hj Ee) as Hat. rewrite Ek, Ha in Hat. injection Hat as -> _.
  by apply (probed_found ht key _ j).
Qed.

Definition value_at ht (key : K) : Z := match abs ht !! norm key with Some (_, v) => v | None => 0 end.

Lemma htab_get_spec ht key : wf ht -> op_htab_get ht key = Ok (value_at ht key).
Proof.
  intros W. destruct (find_idx_spec ht key W) as (r & E & Hr). unfold op_htab_get, htab_lookup, value_at.
  unfold htab_find_idx in E. rewrite E. cbn [rbind]. destruct r as [j|].
  - destruct Hr as (Hj & e & Ee & Ek). rewrite Ee. rewrite <- Ek, (abs_at ht j e) by done. done.
  - by rewrite Hr.
Qed.

Lemma htab_has_spec ht key : wf ht -> op_htab_has ht key = Ok (bool_decide (is_Some (abs ht !! norm key))).
Proof.
  intros W. destruct (find_idx_spec ht key W) as (r & E & Hr). unfold op_htab_has, htab_lookup.
  unfold htab_find_idx in E. rewrite E. cbn [rbind]. destruct r as [j|].
  - destruct Hr as (Hj & e & Ee & Ek). rewrite Ee. rewrite <- Ek, (abs_at ht j e) by done.
    by rewrite bool_decide_eq_true_2 by eauto.
  - rewrite Hr. by rewrite bool_decide_eq_false_2 by by intros [? ?].
Qed.

Lemma elems_focus s i : 0 <= i < len s -> exists rest, elems s ≡ₚ slot_list (at_slot s i) ++ rest /\
  forall c, elems (set_slot s i c) ≡ₚ slot_list (K := K) c ++ rest.
Proof.
  intros Hi. exists (elems (set_slot s i None)). pose proof (elems_set s i None Hi) as E0. cbn in E0.
  split; [by rewrite E0|]. intros c. pose proof (elems_set s i c Hi) as Ec. rewrite <- E0 in Ec.
  rewrite (app_assoc (slot_list c)), (Permutation_app_comm (slot_list c)), <- app_assoc in Ec.
  by apply Permutation_app_inv_l in Ec.
Qed.

(** *** Growing *)

Lemma wf_bounds ht : wf ht -> 16 <= len (slots ht) <= 2 ^ 58 /\ mask ht = len (slots ht) - 1 /\ 0 <= count ht < len (slots ht).
Proof.
  intros W. destruct (wf_cap _ W) as (k & Hk & El & Em). pose proof (wf_count _ W). pose proof (wf_room _ W).
  split; [|split; [lia|lia]]. rewrite El. change 16 with (2 ^ 4). split; apply Z.pow_le_mono_r; lia.
Qed.

Lemma u64_small x : 0 <= x < 2 ^ 64 -> u64 x = x.
Proof. apply Z.mod_small. Qed.

Lemma resize_wf ht k : wf ht -> 4 <= k <= 58 -> count ht < 2 ^ k ->
  exists ht', htab_resize ht (2 ^ k) = Ok ht' /\ wf ht' /\ abs ht' = abs ht /\ len (slots ht') = 2 ^ k /\ count ht' = count ht.
Proof.
  intros W Hk Hc. destruct (resize_spec ht k) as (s' & E & HR & Hl & Hel); [lia|rewrite <- (wf_count _ W); lia|].
  eexists. split; [exact E|].
  destruct (wf_intro s' (2 ^ k - 1) (count ht) (elems (slots ht)) k) as [W' A]; try done.
  - apply (wf_entries _ W).
  - apply (wf_count _ W).
Qed.

Lemma maybe_grow_spec ht : wf ht -> len (slots ht) <= 2 ^ 57 ->
  exists ht', htab_maybe_grow ht = Ok ht' /\ wf ht' /\ abs ht' = abs ht /\ count ht' = count ht /\
    count ht + 1 < len (slots ht') /\
    (len (slots ht') = len (slots ht) \/ (len (slots ht') = 2 * len (slots ht) /\ 3 * len (slots ht) <= 4 * count ht)).
Proof.
  intros W Hb. destruct (wf_bounds _ W) as (Hl & Em & Hc). unfold htab_maybe_grow. rewrite Em.
  replace (len (slots ht) - 1 + 1) with (len (slots ht)) by lia.
  rewrite !u64_small by lia. destruct (Z.leb_spec (len (slots ht) * 3) (count ht * 4)) as [H1|H1].
  - destruct (wf_cap _ W) as (k & Hk & El & _).
    assert (k < 58) by (apply (Z.pow_lt_mono_r_iff 2); lia).
    assert (E2 : len (slots ht) * 2 = 2 ^ (k + 1)) by (rewrite El, Z.pow_add_r by lia; lia).
    destruct (resize_wf ht (k + 1) W ltac:(lia) ltac:(lia)) as (ht' & E & W' & A & Hl' & Hc').
    rewrite <- E2 in E, Hl'. exists ht'. split; [done|]. split; [done|]. split; [done|]. split; [done|].
    split; [lia|]. right. lia.
  - exists ht. split; [done|]. split; [done|]. split; [done|]. split; [done|]. split; [lia|]. by left.
Qed.

Lemma htab_add_spec ht key val : wf ht -> len (slots ht) <= 2 ^ 57 -> abs ht !! norm key = None ->
  exists ht', htab_add ht key val (fix_hash (hash_fn key)) = Ok ht' /\ wf ht' /\
    abs ht' = <[norm key := (key, val)]> (abs ht) /\ count ht' = count ht + 1 /\
    (len (slots ht') = len (slots ht) \/ (len (slots ht') = 2 * len (slots ht) /\ 3 * len (slots ht) <= 4 * count ht)).
Proof.
  intros W Hb Hnone. destruct (maybe_grow_spec ht W Hb) as (h1 & E1 & W1 & A1 & C1 & R1 & G1).
  unfold htab_add. rewrite E1. cbn [rbind].
  set (e := {| e_key := key; e_val := val; e_hash := fix_hash (hash_fn key) |}).
  destruct (insert_slot_spec (slots h1) (mask h1) e (wf_pow _ W1) (wf_RH _ W1)) as (s' & E2 & HR & Hl & Hel).
  { pose proof (wf_count _ W1). unfold len in R1. lia. }
  rewrite E2. cbn [rbind]. destruct (wf_bounds _ W1) as (Hl1 & Em1 & Hc1). rewrite u64_small by lia.
  destruct (wf_cap _ W1) as (k & Hk & El & Em).
  assert (El' : len s' = 2 ^ k) by (unfold len in *; by rewrite Hl).
  destruct (wf_entries _ W1) as [Hf Hnd]. rewrite <- A1 in Hnone.
  destruct (wf_intro s' (mask h1) (count h1 + 1) (e :: elems (slots h1)) k) as [W' A']; try done.
  - split; [by constructor|]. cbn [map]. apply NoDup_cons_2; [|done].
    rewrite list_elem_of_In. by apply map_of_None in Hnone.
  - rewrite (wf_count _ W1). cbn [length]. lia.
  - lia.
  - eexists. split; [done|]. split; [exact W'|]. split; [|split; cbn [count slots]; [lia|]].
    + rewrite A'. rewrite map_of_cons. by rewrite <- A1.
    + unfold len in *. by rewrite Hl.
Qed.

(** *** The operations *)

(** How the capacity may change when a key is added. *)
Definition grown ht ht' : Prop :=
  len (slots ht') <= len (slots ht) \/ 3 * len (slots ht') <= 8 * count ht'.

(** The slot of a key that is there: the entry and the others. *)
Lemma at_entry ht j e : wf ht -> 0 <= j < len (slots ht) -> at_slot (slots ht) j = Some e ->
  exists rest, elems (slots ht) ≡ₚ e :: rest /\ entries_ok rest /\ ~ In (key_of e) (map key_of rest) /\
    abs ht = <[key_of e := (e_key e, e_val e)]> (map_of rest) /\
    forall c, elems (set_slot (slots ht) j c) ≡ₚ slot_list c ++ rest.
Proof.
  intros W Hj E. destruct (elems_focus (slots ht) j Hj) as (rest & HP & HS). rewrite E in HP. cbn in HP.
  exists rest. split; [done|].
  pose proof (entries_ok_perm _ _ HP (wf_entries _ W)) as [Hf Hnd]. cbn in Hnd.
  inversion Hf; subst. apply NoDup_cons in Hnd as [Hni Hnd]. rewrite list_elem_of_In in Hni.
  split; [by split|]. split; [done|]. split; [|done].
  unfold abs. rewrite (map_of_perm _ _ (proj2 (wf_entries _ W)) HP). by rewrite map_of_cons.
Qed.

Lemma update_spec ht j e val : wf ht -> 0 <= j < len (slots ht) -> at_slot (slots ht) j = Some e ->
  let ht' := {| slots := set_slot (slots ht) j (Some {| e_key := e_key e; e_val := val; e_hash := e_hash e |});
                mask := mask ht; count := count ht |} in
  wf ht' /\ abs ht' = <[key_of e := (e_key e, val)]> (abs ht).
Proof.
  intros W Hj E ht'. destruct (at_entry ht j e W Hj E) as (rest & HP & Hok & Hni & Ha & HS).
  destruct (wf_cap _ W) as (k & Hk & El & Em).
  set (e' := {| e_key := e_key e; e_val := val; e_hash := e_hash e |}) in *.
  pose proof (wf_bounds _ W) as (Hl16 & _ & _).
  assert (He' : entry_ok e').
  { pose proof (entries_ok_perm _ _ HP (wf_entries _ W)) as [Hf _]. by inversion Hf. }
  destruct (wf_intro (set_slot (slots ht) j (Some e')) (mask ht) (count ht) (e' :: rest) k) as [W' A']; try done.
  - by rewrite len_set.
  - assert (ED : dist_of (len (slots ht)) j (Some e') = D (slots ht) j).
    { unfold D. rewrite cell_at, E by done. done. }
    apply RH_set; [lia|done|apply (wf_RH _ W)|rewrite ED|rewrite ED; apply (wf_RH _ W)].
    pose proof (wf_RH _ W (j - 1)) as Hr. by replace (j - 1 + 1) with j in Hr by lia.
  - destruct Hok as [Hf Hnd]. split; [by constructor|]. cbn [map]. apply NoDup_cons_2; [|done]. by rewrite list_elem_of_In.
  - rewrite (wf_count _ W), HP. done.
  - rewrite <- El. apply (wf_room _ W).
  - split; [exact W'|]. unfold ht'. rewrite A', map_of_cons, Ha. change (key_of e') with (key_of e). by rewrite insert_insert_eq.
Qed.

Lemma htab_set_spec ht key val : wf ht -> len (slots ht) <= 2 ^ 57 ->
  exists ht', op_htab_set ht key val =
      Ok (match abs ht !! norm key with Some (_, v) => (0, v, ht') | None => (1, 0, ht') end) /\
    wf ht' /\
    abs ht' = <[norm key := (match abs ht !! norm key with Some (k0, _) => k0 | None => key end, val)]> (abs ht) /\
    count ht' <= count ht + 1 /\ grown ht ht'.
Proof.
  intros W Hb. destruct (find_idx_spec ht key W) as (r & E & Hr). unfold op_htab_set. rewrite E. cbn [rbind].
  destruct r as [j|].
  - destruct Hr as (Hj & e & Ee & Ek). rewrite Ee. destruct (update_spec ht j e val W Hj Ee) as [W' A'].
    pose proof (abs_at ht j e W Hj Ee) as Ha. rewrite Ek in Ha, A'. rewrite Ha.
    eexists. split; [done|]. split; [exact W'|]. split; [exact A'|]. split; [cbn; lia|].
    left. cbn [slots]. rewrite len_set. lia.
  - destruct (htab_add_spec ht key val W Hb Hr) as (ht' & E2 & W' & A' & C' & G). rewrite E2, Hr. cbn [rbind].
    exists ht'. split; [done|]. split; [done|]. split; [done|]. split; [lia|].
    destruct G as [G|[G1 G2]]; [left; lia|right; lia].
Qed.

Lemma htab_get_or_set_spec ht key val : wf ht -> len (slots ht) <= 2 ^ 57 ->
  exists ht', op_htab_get_or_set ht key val =
      Ok (match abs ht !! norm key with Some (_, v) => (v, false, ht') | None => (val, true, ht') end) /\
    wf ht' /\
    abs ht' = match abs ht !! norm key with Some _ => abs ht | None => <[norm key := (key, val)]> (abs ht) end /\
    count ht' <= count ht + 1 /\ grown ht ht'.
Proof.
  intros W Hb. destruct (find_idx_spec ht key W) as (r & E & Hr). unfold op_htab_get_or_set. rewrite E. cbn [rbind].
  destruct r as [j|].
  - destruct Hr as (Hj & e & Ee & Ek). rewrite Ee. pose proof (abs_at ht j e W Hj Ee) as Ha. rewrite Ek in Ha. rewrite Ha.
    exists ht. split; [done|]. split; [done|]. split; [done|]. split; [lia|]. left. lia.
  - destruct (htab_add_spec ht key val W Hb Hr) as (ht' & E2 & W' & A' & C' & G). rewrite E2, Hr. cbn [rbind].
    exists ht'. split; [done|]. split; [done|]. split; [done|]. split; [lia|].
    destruct G as [G|[G1 G2]]; [left; lia|right; lia].
Qed.

(** An entry is removed. *)
Lemma del_at_spec ht j e : wf ht -> 0 <= j < len (slots ht) -> at_slot (slots ht) j = Some e ->
  exists ht' t, htab_del_at ht j = Ok ht' /\ wf ht' /\ abs ht' = delete (key_of e) (abs ht) /\
    count ht' = count ht - 1 /\ len (slots ht') = len (slots ht) /\ 1 <= t < len (slots ht) /\
    shifted (slots ht) (slots ht') j t /\ e :: elems (slots ht') ≡ₚ elems (slots ht).
Proof.
  intros W Hj E. pose proof (wf_pow _ W) as Hp. pose proof (wf_bounds _ W) as (Hl & Em & Hc).
  destruct (has_room_off (slots ht) j ltac:(lia) (wf_has_room _ W)) as (t & Ht & Ect).
  assert (Ht0 : t <> 0) by (intros ->; rewrite Z.add_0_r, cell_at, E in Ect by done; done).
  destruct (shift_loop_spec (mask ht) (turn (slots ht)) _ _ _ t Hp (wf_RH _ W) Hj E) as (s' & Es & HR & Hl' & Hel & Hf);
    [unfold turn, len in *; lia|lia|done|].
  unfold htab_del_at. rewrite Es. cbn [rbind].
  pose proof (entries_ok_perm _ _ (Permutation_sym Hel) (wf_entries _ W)) as [Hok Hnd].
  inversion Hok; subst. apply NoDup_cons in Hnd as [Hni Hnd]. rewrite list_elem_of_In in Hni.
  pose proof (Permutation_length Hel) as Hlen. cbn in Hlen. pose proof (wf_count _ W) as Hcn.
  rewrite u64_small by lia. destruct (wf_cap _ W) as (k & Hk & El & Emk).
  assert (El' : len s' = 2 ^ k) by (unfold len in *; by rewrite Hl').
  destruct (wf_intro s' (mask ht) (count ht - 1) (elems s') k) as [W' A']; try done; [lia|lia|].
  eexists _, t. split; [done|]. split; [exact W'|]. split; [|split; [done|]].
  - rewrite A'. unfold abs. rewrite <- (map_of_perm _ _ (proj2 (entries_ok_perm _ _ (Permutation_sym Hel) (wf_entries _ W))) Hel).
    rewrite map_of_cons, delete_insert_eq, delete_id; [done|]. by apply map_of_None.
  - cbn [slots]. split; [unfold len; by rewrite Hl'|]. split; [lia|]. split; [exact Hf|exact Hel].
Qed.

Lemma htab_del_spec ht key : wf ht ->
  exists ht', op_htab_del ht key = Ok (value_at ht key, ht') /\ wf ht' /\ abs ht' = delete (norm key) (abs ht) /\
    count ht' <= count ht /\ len (slots ht') = len (slots ht).
Proof.
  intros W. destruct (find_idx_spec ht key W) as (r & E & Hr). unfold op_htab_del, value_at. rewrite E. cbn [rbind].
  destruct r as [j|].
  - destruct Hr as (Hj & e & Ee & Ek). destruct (del_at_spec ht j e W Hj Ee) as (ht' & t & E2 & W' & A' & C' & L' & _).
    pose proof (abs_at ht j e W Hj Ee) as Ha. rewrite Ek in Ha, A'. rewrite Ha, E2, Ee. cbn [rbind slot_val].
    exists ht'. split; [done|]. split; [done|]. split; [done|]. split; [lia|done].
  - rewrite Hr. exists ht. split; [done|]. split; [done|]. rewrite delete_id by done. split; [done|]. split; [lia|done].
Qed.

(** *** Capacities *)

Lemma next_pow2_htab n b : 4 <= b <= 60 -> 0 <= n <= 2 ^ b ->
  exists k, 4 <= k <= b /\ Htab.next_pow2 n = 2 ^ k /\ n <= 2 ^ k.
Proof.
  intros Hb Hn. assert (2 ^ b <= 2 ^ 60) by (apply Z.pow_le_mono_r; lia).
  destruct (Z.ltb_spec n 16) as [Hs|Hs].
  - exists 4. unfold Htab.next_pow2. rewrite (proj2 (Z.ltb_lt _ _)) by lia. split; [lia|]. split; [done|lia].
  - destruct (Deque.next_pow2_spec n) as (k & Hk & E & Hle & Hmin); [change (SIZE_MAX / 2) with (2 ^ 63 - 1); lia|].
    assert (Ek : Htab.next_pow2 n = 2 ^ k).
    { unfold Deque.next_pow2, DEFAULT_CAP in E. unfold Htab.next_pow2.
      rewrite (proj2 (Z.ltb_ge _ _)) in E by lia.
      rewrite (proj2 (Z.ltb_ge _ _)) in E by (change (SIZE_MAX / 2) with (2 ^ 63 - 1); lia).
      rewrite (proj2 (Z.ltb_ge _ _)) by lia. rewrite (u64_small (n - 1)) by lia. cbv zeta in E |- *. by injection E as ->. }
    exists k. split; [|done]. split.
    + destruct (Z.leb_spec 4 k); [done|]. assert (2 ^ k <= 2 ^ 3) by (apply Z.pow_le_mono_r; lia). lia.
    + destruct Hmin as [->|Hlt]; [lia|]. destruct (Z.leb_spec k b); [done|].
      assert (2 ^ b <= 2 ^ (k - 1)) by (apply Z.pow_le_mono_r; lia). lia.
Qed.

Lemma create_spec n : 0 <= n <= 2 ^ 50 ->
  wf (op_htab_create n) /\ abs (op_htab_create n) = ∅ /\ count (op_htab_create (K := K) n) = 0 /\
  len (slots (op_htab_create (K := K) n)) <= 2 ^ 50.
Proof.
  intros Hn. destruct (next_pow2_htab n 50) as (k & Hk & E & Hle); [lia|done|].
  assert (Hpos : 0 < 2 ^ k) by (apply Z.pow_pos_nonneg; lia).
  assert (Hl : len (op_calloc (K := K) (2 ^ k)) = 2 ^ k) by (unfold len, op_calloc; rewrite length_replicate; lia).
  unfold op_htab_create. rewrite E. cbv zeta.
  destruct (wf_intro (op_calloc (2 ^ k)) (2 ^ k - 1) 0 [] k) as [W A]; try done; [lia|apply calloc_RH| |split; constructor|].
  - by rewrite elems_calloc.
  - split; [exact W|]. split; [by rewrite A|]. split; [done|]. cbn [slots]. rewrite Hl.
    apply Z.pow_le_mono_r; lia.
Qed.

Lemma htab_compact_spec ht : wf ht ->
  exists ht', op_htab_compact ht = Ok ht' /\ wf ht' /\ abs ht' = abs ht /\ count ht' = count ht /\
    len (slots ht') <= len (slots ht).
Proof.
  intros W. pose proof (wf_bounds _ W) as (Hl & Em & Hc). unfold op_htab_compact. rewrite u64_small by lia.
  destruct (next_pow2_htab (count ht * 2 + 1) 60) as (k & Hk & -> & Hle); [lia|lia|].
  destruct (Z.ltb_spec (2 ^ k) (mask ht + 1)) as [Hs|Hs].
  - assert (k <= 58).
    { destruct (Z.leb_spec k 58); [done|]. assert (2 ^ 58 <= 2 ^ k) by (apply Z.pow_le_mono_r; lia). lia. }
    destruct (resize_wf ht k W ltac:(lia) ltac:(lia)) as (ht' & E & W' & A & Hl' & Hc').
    exists ht'. split; [done|]. split; [done|]. split; [done|]. split; [done|]. lia.
  - exists ht. split; [done|]. split; [done|]. split; [done|]. split; [done|lia].
Qed.

(** *** Sequences of operations *)

Inductive hop : Type :=
| HSet (key : K) (val : Z) | HGetOrSet (key : K) (val : Z) | HDel (key : K)
| HGet (key : K) | HHas (key : K) | HSize | HCompact.

(** What an operation answers, and the table afterwards. *)
Definition do_hop (o : hop) ht : result diverged (list Z * op_htab K) :=
  match o with
  | HSet key val => let! r := op_htab_set ht key val in let '(rc, old, ht) := r in Ok ([rc; old], ht)
  | HGetOrSet key val =>
      let! r := op_htab_get_or_set ht key val in let '(v, created, ht) := r in Ok ([v; if created then 1 else 0], ht)
  | HDel key => let! r := op_htab_del ht key in let '(v, ht) := r in Ok ([v], ht)
  | HGet key => let! v := op_htab_get ht key in Ok ([v], ht)
  | HHas key => let! b := op_htab_has ht key in Ok ([if b : bool then 1 else 0], ht)
  | HSize => Ok ([op_htab_size ht], ht)
  | HCompact => let! ht := op_htab_compact ht in Ok ([], ht)
  end.

(** The same on a finite map. *)
Definition map_hop (o : hop) (m : gmap N (K * Z)) : list Z * gmap N (K * Z) :=
  match o with
  | HSet key val =>
      match m !! norm key with
      | Some (k0, v) => ([0; v], <[norm key := (k0, val)]> m)
      | None => ([1; 0], <[norm key := (key, val)]> m)
      end
  | HGetOrSet key val =>
      match m !! norm key with Some (_, v) => ([v; 0], m) | None => ([val; 1], <[norm key := (key, val)]> m) end
  | HDel key => ([match m !! norm key with Some (_, v) => v | None => 0 end], delete (norm key) m)
  | HGet key => ([match m !! norm key with Some (_, v) => v | None => 0 end], m)
  | HHas key => ([if bool_decide (is_Some (m !! norm key)) then 1 else 0], m)
  | HSize => ([Z.of_nat (base.size m)], m)
  | HCompact => ([], m)
  end.

Fixpoint do_hops (os : list hop) ht : result diverged (list (list Z) * op_htab K) :=
  match os with
  | [] => Ok ([], ht)
  | o :: os =>
      let! r := do_hop o ht in
      let '(a, ht) := r in
      let! r := do_hops os ht in
      let '(rest, ht) := r in Ok (a :: rest, ht)
  end.
Fixpoint map_hops (os : list hop) (m : gmap N (K * Z)) : list (list Z) * gmap N (K * Z) :=
  match os with
  | [] => ([], m)
  | o :: os => let '(a, m) := map_hop o m in let '(rest, m) := map_hops os m in (a :: rest, m)
  end.

Lemma size_abs ht : wf ht -> count ht = Z.of_nat (base.size (abs ht)).
Proof.
  intros W. rewrite (wf_count _ W). f_equal. destruct (wf_entries _ W) as [_ Hnd]. unfold abs.
  generalize dependent (elems (slots ht)). intros l Hnd. induction l as [|e l IH]; [done|].
  apply NoDup_cons in Hnd as [Hni Hnd]. rewrite list_elem_of_In in Hni. rewrite map_of_cons.
  rewrite map_size_insert_None by (by apply map_of_None). cbn [length]. by rewrite <- IH.
Qed.

(** Bounds on the table after [m] operations. *)
Definition small (m : Z) ht : Prop := count ht <= m /\ 3 * len (slots ht) <= 8 * m + 3 * 2 ^ 50.

Lemma small_grown m ht ht' : small m ht -> count ht' <= count ht + 1 -> grown ht ht' -> small (m + 1) ht'.
Proof. intros [S1 S2] Hc [Hg|Hg]; split; lia. Qed.

Lemma do_hop_spec o ht m : wf ht -> small m ht -> 0 <= m <= 2 ^ 50 ->
  exists ht', do_hop o ht = Ok (fst (map_hop o (abs ht)), ht') /\ wf ht' /\ abs ht' = snd (map_hop o (abs ht)) /\
              small (m + 1) ht'.
Proof.
  intros W S Hm. pose proof (fun ht' => small_grown m ht ht' S) as Hgr. destruct S as [S1 S2].
  assert (Hb : len (slots ht) <= 2 ^ 57) by lia.
  assert (Hsame : small (m + 1) ht) by (split; lia).
  destruct o as [key val|key val|key|key|key| |]; cbn [do_hop map_hop].
  - destruct (htab_set_spec ht key val W Hb) as (ht' & E & W' & A' & C' & G'). rewrite E.
    exists ht'. destruct (abs ht !! norm key) as [[k0 v]|]; cbn; auto.
  - destruct (htab_get_or_set_spec ht key val W Hb) as (ht' & E & W' & A' & C' & G'). rewrite E.
    exists ht'. destruct (abs ht !! norm key) as [[k0 v]|]; cbn; auto.
  - destruct (htab_del_spec ht key W) as (ht' & E & W' & A' & C' & L'). rewrite E. exists ht'.
    split; [done|]. split; [done|]. split; [done|]. split; lia.
  - rewrite htab_get_spec by done. exists ht. auto.
  - rewrite htab_has_spec by done. exists ht. auto.
  - exists ht. unfold op_htab_size. rewrite <- size_abs by done. auto.
  - destruct (htab_compact_spec ht W) as (ht' & E & W' & A' & C' & L'). rewrite E. exists ht'.
    split; [done|]. split; [done|]. split; [done|]. split; lia.
Qed.

Lemma do_hops_spec os : forall ht m, wf ht -> small m ht -> 0 <= m -> m + Z.of_nat (length os) <= 2 ^ 50 ->
  exists ht', do_hops os ht = Ok (fst (map_hops os (abs ht)), ht') /\ wf ht' /\ abs ht' = snd (map_hops os (abs ht)).
Proof.
  induction os as [|o os IH]; intros ht m W S Hm Hl; [by exists ht|]. cbn [length] in Hl.
  destruct (do_hop_spec o ht m W S) as (h1 & E1 & W1 & A1 & S1); [lia|].
  destruct (IH h1 (m + 1) W1 S1) as (h2 & E2 & W2 & A2); [lia|lia|].
  cbn [do_hops map_hops]. rewrite E1. cbn [rbind]. rewrite E2. cbn [rbind].
  rewrite A1 in E2 |- *. rewrite A1 in A2. destruct (map_hop o (abs ht)) as [a m1]. cbn [fst snd] in *.
  destruct (map_hops os m1) as [rest m2]. by exists h2.
Qed.

End Map.
