(* ===== verification/HtabProps.v ===== *)
(** * What the hash table promises

    Refinement of finite maps, iteration with deletion, merging. *)

From stdpp Require Import gmap list.
From S2P Require Import Prelude LibC Deque Htab HtabRing HtabMap.
#[local] Open Scope Z_scope.


Section Props.
Context {K : Type} `{HtabKey K} {N : Type} `{Countable N} `{!HtabKeyLaws K N}.
Implicit Types (ht : op_htab K) (e : entry K).

(** C12. Starting from a new table, any sequence of insertions, get-or-sets, deletions, lookups,
    size queries and compactions ends (no probe goes round for ever) and answers what a
    finite map from the keys, up to the equality of the table, answers; the table keeps its
    invariant and stands for that map, through growing and backward shifts.  An update keeps
    the key that was stored first. *)
Theorem htab_refines_map (n : Z) (os : list (hop (K := K))) :
  0 <= n <= 2 ^ 50 -> Z.of_nat (length os) <= 2 ^ 50 ->
  exists ht, do_hops os (op_htab_create n) = Ok (fst (map_hops os ∅), ht) /\
             wf ht /\ abs ht = snd (map_hops os ∅).
Proof.
  intros Hn Hos. destruct (create_spec n Hn) as (W & A & C & L).
  destruct (do_hops_spec os (op_htab_create n) 0 W) as (ht & E & W' & A'); [split; [lia|lia]|done|lia|].
  rewrite A in E, A'. by exists ht.
Qed.

(** *** Iteration *)

(** The loop of the clients that go through a table and delete from it. *)
Fixpoint htab_purge (fuel : nat) (p : K -> Z -> bool) ht (it : op_htab_iter_t)
  : result diverged (list (K * Z) * op_htab K) :=
  match fuel with
  | O => Err Diverged
  | S fuel =>
      match op_htab_iter_next ht it with
      | (None, _) => Ok ([], ht)
      | (Some (k, v), it) =>
          let! r := if p k v then op_htab_iter_del ht it else Ok (0, ht, it) in
          let '(_, ht, it) := r in
          let! r := htab_purge fuel p ht it in
          let '(seen, ht) := r in Ok ((k, v) :: seen, ht)
      end
  end.

Lemma next_loop_spec s m : forall idx, 0 <= idx -> idx + Z.of_nat m = len s ->
  match next_loop m s idx with
  | Some (i, e) => idx <= i < len s /\ at_slot s i = Some e /\ (forall j, idx <= j < i -> at_slot (K := K) s j = None)
  | None => forall j, idx <= j < len s -> at_slot s j = None
  end.
Proof.
  induction m as [|m IH]; intros idx Hi Hm; cbn [next_loop]; [lia|].
  destruct (at_slot s idx) as [e|] eqn:E.
  - split; [lia|]. split; [done|]. lia.
  - specialize (IH (idx + 1) ltac:(lia) ltac:(lia)). destruct (next_loop m s (idx + 1)) as [[i e]|].
    + destruct IH as (H1 & H2 & H3). split; [lia|]. split; [done|]. intros j Hj.
      destruct (Z.eq_dec j idx) as [->|]; [done|]. apply H3. lia.
    + intros j Hj. destruct (Z.eq_dec j idx) as [->|]; [done|]. apply IH. lia.
Qed.

(** After the deletion in slot [i], what is in the slots before it was in slots before it. *)
Lemma shifted_before s s' i t j e : 0 <= i < len s -> len s' = len s -> 1 <= t < len s -> shifted s s' i t ->
  0 <= j < i -> at_slot s' j = Some e ->
  exists j', 0 <= j' <= i /\ at_slot (K := K) s j' = Some e.
Proof.
  intros Hi Hl Ht (_ & F2 & F3) Hj E.
  assert (Ew : forall (x : list (op_htab_slot_t K)) u, len x = len s -> 0 <= u <= i ->
                 cell x (i + (u - i + len s)) = at_slot x u).
  { intros x u Hx Hu. rewrite <- (cell_at x u) by lia. apply cell_eq. rewrite Hx.
    replace (i + (u - i + len s)) with (u + 1 * len s) by lia. apply Z_mod_plus_full. }
  set (u := j - i + len s). destruct (Z.ltb_spec u t) as [Hu|Hu].
  - destruct (F3 u) as [F|[F|F]]; [lia| | |]; unfold u in F; rewrite Ew in F by lia; rewrite E in F.
    + rewrite Ew in F by lia. exists j. split; [lia|done].
    + done.
    + replace (i + (j - i + len s) + 1) with (i + (j + 1 - i + len s)) in F by lia. rewrite Ew in F by lia.
      exists (j + 1). split; [lia|done].
  - specialize (F2 u ltac:(lia)). unfold u in F2. rewrite !Ew, E in F2 by lia. exists j. split; [lia|done].
Qed.

Definition keeps (p : K -> Z -> bool) (x : N * (K * Z)) : Prop := p (fst (snd x)) (snd (snd x)) = false.
#[global] Instance keeps_dec p x : Decision (keeps p x).
Proof. unfold keeps. apply _. Defined.

(** What has been looked at is kept and seen. *)
Definition swept (p : K -> Z -> bool) (seen : K * Z -> Prop) s (idx : Z) : Prop :=
  forall j e, 0 <= j < idx -> at_slot s j = Some e -> p (e_key e) (e_val e) = false /\ seen (e_key e, e_val e).

Lemma filter_all p ht : wf ht -> (forall e, In e (elems (slots ht)) -> p (e_key e) (e_val e) = false) ->
  filter (keeps p) (abs ht) = abs ht.
Proof.
  intros W Hp. apply map_filter_id. intros x [k v] Hx. unfold abs, map_of in Hx.
  apply elem_of_list_to_map_2, list_elem_of_In, in_map_iff in Hx as (e & [= <- <- <-] & He). by apply Hp.
Qed.

Lemma iter_del_spec ht i e : wf ht -> 0 <= i < len (slots ht) -> at_slot (slots ht) i = Some e ->
  exists ht', op_htab_iter_del ht {| it_idx := i + 1; it_cur := Some i |} = Ok (e_val e, ht', {| it_idx := i; it_cur := None |}) /\
    wf ht' /\ abs ht' = delete (key_of e) (abs ht) /\ count ht' = count ht - 1 /\ len (slots ht') = len (slots ht) /\
    e :: elems (slots ht') ≡ₚ elems (slots ht) /\
    forall j e', 0 <= j < i -> at_slot (slots ht') j = Some e' -> exists j', 0 <= j' < i /\ at_slot (slots ht) j' = Some e'.
Proof.
  intros W Hi E. destruct (del_at_spec ht i e W Hi E) as (ht' & t & E' & W' & A' & C' & L' & Ht & Hs & Hel).
  pose proof (wf_bounds _ W) as (Hl & Em & Hc).
  exists ht'. unfold op_htab_iter_del. cbn [it_cur]. rewrite (proj2 (Z.leb_gt _ _)) by lia. rewrite E, E'. cbn [rbind].
  do 6 (split; [done|]). intros j e' Hj Ej.
  destruct (shifted_before _ _ _ _ _ _ Hi L' Ht Hs Hj Ej) as (j' & Hj' & Ej').
  exists j'. split; [|done]. destruct (Z.eq_dec j' i) as [->|]; [|lia]. rewrite E in Ej'. injection Ej' as <-.
  assert (He' : In e (elems (slots ht'))) by (apply (elems_cell _ j); [lia|done]).
  pose proof (entries_ok_perm _ _ (Permutation_sym Hel) (wf_entries _ W)) as [_ Hnd]. cbn in Hnd.
  apply NoDup_cons in Hnd as [Hni _]. rewrite list_elem_of_In in Hni. destruct Hni. by apply (in_map key_of).
Qed.

Lemma purge_spec p fuel : forall (seen : K * Z -> Prop) ht it,
  wf ht -> 0 <= it_idx it <= len (slots ht) -> len (slots ht) - it_idx it + 2 * count ht < Z.of_nat fuel ->
  swept p seen (slots ht) (it_idx it) ->
  exists vis ht', htab_purge fuel p ht it = Ok (vis, ht') /\ wf ht' /\ abs ht' = filter (keeps p) (abs ht) /\
    forall e, In e (elems (slots ht)) -> seen (e_key e, e_val e) \/ In (e_key e, e_val e) vis.
Proof.
  induction fuel as [|fuel IH]; intros seen ht it W Hidx Hf Hsw; pose proof (wf_bounds _ W) as (Hl & Em & Hc); [lia|].
  cbn [htab_purge]. unfold op_htab_iter_next. replace (mask ht + 1) with (len (slots ht)) by lia.
  pose proof (next_loop_spec (slots ht) (Z.to_nat (len (slots ht) - it_idx it)) (it_idx it) ltac:(lia) ltac:(lia)) as Hn.
  destruct (next_loop _ (slots ht) (it_idx it)) as [[i e]|].
  - destruct Hn as (Hi & E & Hbefore). set (seen' := fun x => seen x \/ x = (e_key e, e_val e)).
    assert (Hsw' : swept p seen' (slots ht) i).
    { intros j e' Hj Ej. destruct (Z.ltb_spec j (it_idx it)) as [Hlt|Hge].
      - destruct (Hsw j e' ltac:(lia) Ej). split; [done|by left].
      - by rewrite (Hbefore j) in Ej by lia. }
    destruct (p (e_key e) (e_val e)) eqn:Ep.
    + destruct (iter_del_spec ht i e W ltac:(lia) E) as (h1 & E1 & W1 & A1 & C1 & L1 & P1 & B1).
      rewrite E1. cbn [rbind].
      destruct (IH seen' h1 {| it_idx := i; it_cur := None |} W1) as (vis & h2 & E2 & W2 & A2 & V2); cbn [it_idx]; [lia|lia| |].
      { intros j e' Hj Ej. destruct (B1 j e' Hj Ej) as (j' & Hj' & Ej'). by apply (Hsw' j'). }
      rewrite E2. cbn [rbind]. eexists _, h2. split; [done|]. split; [done|]. split.
      * rewrite A2, A1. apply map_filter_delete_not. rewrite (abs_at ht i e) by (done || lia).
        intros [k v] [= <- <-]. unfold keeps. cbn. by rewrite Ep.
      * intros e' He'. rewrite <- P1 in He'. destruct He' as [<-|He']; [right; by left|].
        destruct (V2 e' He') as [[?|Ee]|?]; [by left|right; left; by rewrite Ee|right; by right].
    + cbn [rbind].
      destruct (IH seen' ht {| it_idx := i + 1; it_cur := Some i |} W) as (vis & h2 & E2 & W2 & A2 & V2);
        cbn [it_idx]; [lia|lia| |].
      { intros j e' Hj Ej. destruct (Z.eq_dec j i) as [->|]; [|apply (Hsw' j); [lia|done]].
        rewrite E in Ej. injection Ej as <-. split; [done|by right]. }
      rewrite E2. cbn [rbind]. eexists _, h2. split; [done|]. split; [done|]. split; [done|].
      intros e' He'. destruct (V2 e' He') as [[?|Ee]|?]; [by left|right; left; by rewrite Ee|right; by right].
  - assert (Hall : forall e, In e (elems (slots ht)) -> p (e_key e) (e_val e) = false /\ seen (e_key e, e_val e)).
    { intros e (j & Hj & Ej)%elems_in. destruct (Z.ltb_spec j (it_idx it)) as [Hlt|Hge].
      - apply (Hsw j e); [lia|done].
      - by rewrite Hn in Ej by lia. }
    exists [], ht. split; [done|]. split; [done|]. split; [rewrite (filter_all p ht W); [done|]|]; intros e He; [by apply Hall|].
    left. by apply Hall.
Qed.

(** C35. A loop that goes through a table with [op_htab_iter_next] and deletes with
    [op_htab_iter_del] ends, after at most one turn for each slot and two for each entry;
    every entry of the table is returned to it, also those that deletions shift, and the
    table keeps exactly the entries that were not to be deleted. *)
Theorem htab_purge_filters (p : K -> Z -> bool) ht (fuel : nat) :
  wf ht -> len (slots ht) + 2 * count ht < Z.of_nat fuel ->
  exists vis ht', htab_purge fuel p ht op_htab_iter_init = Ok (vis, ht') /\
    wf ht' /\ abs ht' = filter (keeps p) (abs ht) /\
    forall x k v, abs ht !! x = Some (k, v) -> In (k, v) vis.
Proof.
  intros W Hf. pose proof (wf_bounds _ W) as (Hl & _).
  destruct (purge_spec p fuel (fun _ => False) ht op_htab_iter_init W) as (vis & ht' & E & W' & A & V);
    cbn [it_idx op_htab_iter_init]; [lia|lia|intros j e Hj; lia|].
  exists vis, ht'. split; [done|]. split; [done|]. split; [done|]. intros x k v Hx. unfold abs, map_of in Hx.
  apply elem_of_list_to_map_2, list_elem_of_In, in_map_iff in Hx as (e & [= <- <- <-] & He).
  by destruct (V e He).
Qed.

(** *** Merging *)

(** The key of the destination stays; its value too, if there is a callback. *)
Definition merge_value (conflict_cb : bool) (a b : K * Z) : option (K * Z) :=
  Some (fst a, if conflict_cb then snd a else snd b).

(** What the callback is given. *)
Definition conflicts (m : gmap N (K * Z)) (l : list (entry K)) : list (K * Z * K * Z) :=
  flat_map (fun e => match m !! key_of e with Some (_, v) => [(e_key e, v, e_key e, e_val e)] | None => [] end) l.

Definition merge_one (conflict_cb : bool) (m : gmap N (K * Z)) e : gmap N (K * Z) :=
  <[key_of e := match m !! key_of e with
                | Some (k0, v0) => (k0, if conflict_cb then v0 else e_val e)
                | None => (e_key e, e_val e)
                end]> m.

Lemma merge_one_union cb m e (m' : gmap N (K * Z)) : m' !! key_of e = None ->
  union_with (merge_value cb) (merge_one cb m e) m' =
  union_with (merge_value cb) m (<[key_of e := (e_key e, e_val e)]> m').
Proof.
  intros Hn. apply map_eq. intros x. rewrite !lookup_union_with. unfold merge_one.
  destruct (decide (key_of e = x)) as [<-|Hne].
  - rewrite !lookup_insert_eq, Hn. destruct (m !! key_of e) as [[k0 v0]|]; cbn; [|done].
    unfold merge_value. cbn. done.
  - by rewrite !lookup_insert_ne by done.
Qed.

Lemma conflicts_one cb m e l : ~ In (key_of e) (map key_of l) -> conflicts (merge_one cb m e) l = conflicts m l.
Proof.
  intros Hn. unfold conflicts, merge_one. induction l as [|e' l IH]; [done|]. cbn in Hn. cbn [flat_map].
  rewrite lookup_insert_ne by (intros E; apply Hn; by left). f_equal. apply IH. tauto.
Qed.

(** One entry of the source. *)
Lemma merge_entry_spec cb dst m e : wf dst -> small m dst -> 0 <= m <= 2 ^ 50 - 2 ->
  exists rc old h1 h2, op_htab_set dst (e_key e) (e_val e) = Ok (rc, old, h1) /\
    (if (rc =? 0) && cb then exists x y, op_htab_set h1 (e_key e) old = Ok (x, y, h2) else h2 = h1) /\
    wf h2 /\ small (m + 2) h2 /\ abs h2 = merge_one cb (abs dst) e /\
    (if (rc =? 0) && cb then [(e_key e, old, e_key e, e_val e)] else []) = (if cb then conflicts (abs dst) [e] else []).
Proof.
  intros W S Hm. destruct (htab_set_spec dst (e_key e) (e_val e) W) as (h1 & E1 & W1 & A1 & C1 & G1); [destruct S; lia|].
  pose proof (small_grown m dst h1 S C1 G1) as S1.
  assert (S2 : small (m + 2) h1) by (destruct S1; split; lia).
  assert (Ec : conflicts (abs dst) [e] = match abs dst !! key_of e with
                 Some (_, v) => [(e_key e, v, e_key e, e_val e)] | None => [] end).
  { unfold conflicts. cbn [flat_map]. by rewrite app_nil_r. }
  rewrite Ec. unfold merge_one. change (norm (e_key e)) with (key_of e) in *.
  destruct (abs dst !! key_of e) as [[k0 v0]|] eqn:Ek.
  - destruct cb.
    + destruct (htab_set_spec h1 (e_key e) v0 W1) as (h2 & E2 & W2 & A2 & C2 & G2); [destruct S1; lia|].
      change (norm (e_key e)) with (key_of e) in *. rewrite A1, lookup_insert_eq in E2, A2.
      rewrite insert_insert_eq in A2.
      exists 0, v0, h1, h2. split; [exact E1|]. split; [by eexists _, _|]. split; [done|].
      split; [|by split]. replace (m + 2) with (m + 1 + 1) by lia. by apply (small_grown _ h1).
    + by exists 0, v0, h1, h1.
  - exists 1, 0, h1, h1. split; [exact E1|]. split; [done|]. split; [done|]. split; [done|]. split; [done|]. by destruct cb.
Qed.

Lemma merge_slots_spec cb s : forall dst m, wf dst -> small m dst -> 0 <= m ->
  m + 2 * Z.of_nat (length (elems s)) <= 2 ^ 50 -> entries_ok (elems s) ->
  exists dst', merge_slots cb dst s = Ok (dst', if cb then conflicts (abs dst) (elems s) else []) /\ wf dst' /\
    abs dst' = union_with (merge_value cb) (abs dst) (map_of (elems s)).
Proof.
  induction s as [|[e|] s IH]; intros dst m W S Hm Hl Hok.
  - exists dst. split; [by destruct cb|]. split; [done|]. apply map_eq. intros x. rewrite lookup_union_with.
    unfold map_of. cbn. rewrite lookup_empty. by destruct (abs dst !! x).
  - change (elems (Some e :: s)) with (e :: elems s) in *. cbn [length] in Hl. destruct Hok as [Hf Hnd].
    inversion Hf as [|? ? He Hf']; subst. apply NoDup_cons in Hnd as [Hni Hnd]. rewrite list_elem_of_In in Hni.
    destruct (merge_entry_spec cb dst m e W S) as (rc & old & h1 & h2 & E1 & E2 & W2 & S2 & A2 & Ec); [lia|].
    destruct (IH h2 (m + 2) W2 S2) as (h3 & E3 & W3 & A3); [lia|lia|by split|].
    rewrite A2, (conflicts_one cb) in E3 by done. rewrite A2 in A3. rewrite merge_one_union in A3 by (by apply map_of_None).
    exists h3. split; [|by split]. cbn [merge_slots]. rewrite E1. cbn [rbind].
    change (conflicts (abs dst) (e :: elems s)) with
      (match abs dst !! key_of e with Some (_, v) => [(e_key e, v, e_key e, e_val e)] | None => [] end ++ conflicts (abs dst) (elems s)).
    unfold conflicts at 1 in Ec. cbn [flat_map] in Ec. rewrite app_nil_r in Ec.
    destruct ((rc =? 0) && cb) eqn:Eb.
    + destruct E2 as (x & y & E2). rewrite E2. cbn [rbind]. rewrite E3. cbn [rbind].
      apply andb_true_iff in Eb as [_ ->]. by rewrite <- Ec.
    + rewrite <- E2, E3. destruct cb; [by rewrite <- Ec|done].
  - by apply (IH dst m).
Qed.

(** Merging adds the entries of the source whose key the destination does not have.  Of a
    key that both have, the key of the destination stays; its value stays when there is a
    [conflict_cb], which is given each such pair once, and is replaced by the value of the
    source when there is none. *)
Theorem htab_merge_union (conflict_cb : bool) (dst src : op_htab K) :
  wf dst -> wf src -> len (slots dst) <= 2 ^ 50 -> count dst + 2 * count src <= 2 ^ 50 ->
  exists dst', op_htab_merge dst src conflict_cb =
      Ok (dst', if conflict_cb then conflicts (abs dst) (elems (slots src)) else []) /\
    wf dst' /\ abs dst' = union_with (merge_value conflict_cb) (abs dst) (abs src).
Proof.
  intros Wd Ws Hl Hc. pose proof (wf_bounds _ Wd) as (_ & _ & Hcd). pose proof (wf_count _ Ws).
  apply (merge_slots_spec conflict_cb (slots src) dst (count dst)); [done|split; lia|lia|lia|apply (wf_entries _ Ws)].
Qed.

End Props.

(** ** Witnesses *)

Lemma wf_hops {K} `{HtabKey K} {N} `{Countable N} `{!HtabKeyLaws K N} (os : list (hop (K := K))) n a ht :
  0 <= n <= 2 ^ 50 -> Z.of_nat (length os) <= 2 ^ 50 -> do_hops os (op_htab_create n) = Ok (a, ht) -> wf ht.
Proof.
  intros Hn Hos E. destruct (create_spec n Hn) as (W & A & C & L).
  destruct (do_hops_spec os (op_htab_create n) 0 W) as (ht' & E' & W' & A'); [split; [lia|lia]|done|lia|].
  rewrite E in E'. by injection E' as _ ->.
Qed.

Definition table_of {K} `{HtabKey K} (os : list (hop (K := K))) : op_htab K :=
  match do_hops os (op_htab_create 16) with Ok (_, ht) => ht | Err _ => op_htab_create 16 end.

Definition ops_demo : list (hop (K := istr_key)) :=
  [HSet (IstrKey (bs "#Egg[1]")) 7; HSet (IstrKey (bs "#egg{1}")) 8; HGetOrSet (IstrKey (bs "x")) 3;
   HDel (IstrKey (bs "#EGG[1]")); HHas (IstrKey (bs "X")); HSize; HCompact].

Lemma htab_refines_map_witness :
  0 <= 4 <= 2 ^ 50 /\
  exists ht, do_hops ops_demo (op_htab_create 4) = Ok ([[1; 0]; [0; 7]; [3; 1]; [8]; [1]; [1]; []], ht) /\
             wf ht /\ abs ht = snd (map_hops ops_demo ∅).
Proof.
  split; [lia|].
  assert (E : fst (map_hops ops_demo ∅) = [[1; 0]; [0; 7]; [3; 1]; [8]; [1]; [1]; []]) by (vm_compute; reflexivity).
  rewrite <- E. apply (htab_refines_map 4 ops_demo); [lia|vm_compute; discriminate].
Defined.

(** Keys whose chain wraps around the end of the array. *)
Definition wrap_demo : op_htab ptr_key :=
  table_of [HSet (PtrKey 4112) 1; HSet (PtrKey 4336) 2; HSet (PtrKey 4528) 3; HSet (PtrKey 8) 4].

Lemma wrap_demo_wf : wf wrap_demo.
Proof.
  eapply (wf_hops [HSet (PtrKey 4112) 1; HSet (PtrKey 4336) 2; HSet (PtrKey 4528) 3; HSet (PtrKey 8) 4] 16);
    [lia|cbn; lia|vm_compute; reflexivity].
Qed.

Definition odd_value (k : ptr_key) (v : Z) : bool := Z.odd v.

Lemma htab_purge_filters_witness :
  len (slots wrap_demo) + 2 * count wrap_demo < 40 /\
  exists vis ht', htab_purge 40 odd_value wrap_demo op_htab_iter_init = Ok (vis, ht') /\
    wf ht' /\ abs ht' = filter (keeps odd_value) (abs wrap_demo) /\
    forall x k v, abs wrap_demo !! x = Some (k, v) -> In (k, v) vis.
Proof.
  split; [vm_compute; reflexivity|].
  apply (htab_purge_filters odd_value wrap_demo 40); [apply wrap_demo_wf|vm_compute; reflexivity].
Defined.

(** An entry that stays is returned a second time when a deletion shifts it from the first
    slot to the last. *)
Example returned_twice :
  (let! r := htab_purge 40 odd_value wrap_demo op_htab_iter_init in Ok (map (fun x => (ptr_of (fst x), snd x)) (fst r)))
  = Ok [(4336, 2); (4528, 3); (8, 4); (4112, 1); (4336, 2)].
Proof. vm_compute. reflexivity. Qed.

Lemma htab_merge_union_witness :
  wf wrap_demo /\
  exists dst', op_htab_merge wrap_demo (table_of [HSet (PtrKey 8) 5; HSet (PtrKey 16) 6]) true =
      Ok (dst', [(PtrKey 8, 4, PtrKey 8, 5)]) /\ wf dst' /\
    abs dst' = union_with (merge_value true) (abs wrap_demo) (abs (table_of [HSet (PtrKey 8) 5; HSet (PtrKey 16) 6])).
Proof.
  split; [apply wrap_demo_wf|].
  assert (E : conflicts (abs wrap_demo) (elems (slots (table_of [HSet (PtrKey 8) 5; HSet (PtrKey 16) 6]))) =
              [(PtrKey 8, 4, PtrKey 8, 5)]) by (vm_compute; reflexivity).
  rewrite <- E. apply (htab_merge_union true wrap_demo (table_of [HSet (PtrKey 8) 5; HSet (PtrKey 16) 6]));
    [apply wrap_demo_wf| |vm_compute; discriminate|vm_compute; discriminate].
  eapply (wf_hops [HSet (PtrKey 8) 5; HSet (PtrKey 16) 6] 16); [lia|cbn; lia|vm_compute; reflexivity].
Defined.
