(* ===== verification/CidrTbl.v ===== *)
(** * The table of network prefixes (libop/src/cidr_tbl.c)

    Two binary tries, for IPv4 and IPv6 prefixes, whose nodes carry a pointer where a stored
    prefix ends.  The table refines a finite map from bit strings: matching gives the value
    of the shortest or of the longest stored prefix of an address, and enumeration visits
    every stored prefix once. *)

From stdpp Require Import gmap list.
From S2P Require Import Prelude LibC Inet.
#[local] Open Scope Z_scope.

(** ** Nodes and bits *)

(** A pointer to a node; a [data] of 0 is NULL. *)
Inductive cidr_node : Type :=
| NoNode
| Node (data : Z) (ch0 ch1 : cidr_node).

Record op_cidr_tbl := { root4 : cidr_node; root6 : cidr_node; count4 : Z; count6 : Z }.

(** Addresses are bytes in network order; [ntohl] and [htonl] of four of them. *)
Definition ntohl (a : list Z) : Z :=
  Z.lor (Z.shiftl (nth 0 a 0) 24) (Z.lor (Z.shiftl (nth 1 a 0) 16) (Z.lor (Z.shiftl (nth 2 a 0) 8) (nth 3 a 0))).
Definition htonl (h : Z) : list Z := [u8 (Z.shiftr h 24); u8 (Z.shiftr h 16); u8 (Z.shiftr h 8); u8 h].

Definition bit4 (addr : list Z) (depth : Z) : Z := Z.land (Z.shiftr (ntohl addr) (31 - depth)) 1.
Definition bit6 (addr : list Z) (depth : Z) : Z :=
  Z.land (Z.shiftr (nth (Z.to_nat (depth / 8)) addr 0) (7 - depth mod 8)) 1.
Definition addr_bit (addr : list Z) (af depth : Z) : Z :=
  if af =? AF_INET then bit4 addr depth else bit6 addr depth.

(** ** The trie *)

(** What is at a node, which [node_alloc] makes when there is none. *)
Definition node_alloc (n : cidr_node) : Z * cidr_node * cidr_node :=
  match n with NoNode => (0, NoNode, NoNode) | Node d c0 c1 => (d, c0, c1) end.

(** [n] turns of the loop are left, from depth [i]; the node afterwards, and the data that
    was there. *)
Fixpoint set_loop (n : nat) (i : Z) (cur : cidr_node) (addr : list Z) (af val : Z) : cidr_node * Z :=
  let '(data, c0, c1) := node_alloc cur in
  match n with
  | O => (Node val c0 c1, data)
  | S n =>
      if addr_bit addr af i =? 0
      then let '(c0, old) := set_loop n (i + 1) c0 addr af val in (Node data c0 c1, old)
      else let '(c1, old) := set_loop n (i + 1) c1 addr af val in (Node data c0 c1, old)
  end.
(** 1 or 0, [*old_val], and the root. *)
Definition trie_set (root : cidr_node) (addr : list Z) (af plen val : Z) : Z * Z * cidr_node :=
  let '(root, old) := set_loop (Z.to_nat plen) 0 root addr af val in
  (if old =? 0 then 1 else 0, old, root).

Fixpoint del_loop (n : nat) (i : Z) (cur : cidr_node) (addr : list Z) (af : Z) : Z * cidr_node :=
  match cur with
  | NoNode => (0, NoNode)
  | Node data c0 c1 =>
      match n with
      | O => (data, Node 0 c0 c1)
      | S n =>
          if addr_bit addr af i =? 0
          then let '(old, c0) := del_loop n (i + 1) c0 addr af in (old, Node data c0 c1)
          else let '(old, c1) := del_loop n (i + 1) c1 addr af in (old, Node data c0 c1)
      end
  end.
Definition trie_del (root : cidr_node) (addr : list Z) (af plen : Z) : Z * cidr_node :=
  del_loop (Z.to_nat plen) 0 root addr af.

Fixpoint any_loop (n : nat) (i : Z) (cur : cidr_node) (addr : list Z) (af : Z) : Z :=
  match cur with
  | NoNode => 0
  | Node data c0 c1 =>
      if negb (data =? 0) then data
      else match n with
           | O => 0
           | S n => any_loop n (i + 1) (if addr_bit addr af i =? 0 then c0 else c1) addr af
           end
  end.
Definition trie_match_any (root : cidr_node) (addr : list Z) (af maxdepth : Z) : Z :=
  any_loop (Z.to_nat maxdepth) 0 root addr af.

Fixpoint lpm_loop (n : nat) (i best : Z) (cur : cidr_node) (addr : list Z) (af : Z) : Z :=
  match cur with
  | NoNode => best
  | Node data c0 c1 =>
      let best := if data =? 0 then best else data in
      match n with
      | O => best
      | S n => lpm_loop n (i + 1) best (if addr_bit addr af i =? 0 then c0 else c1) addr af
      end
  end.
Definition trie_lpm (root : cidr_node) (addr : list Z) (af maxdepth : Z) : Z :=
  lpm_loop (Z.to_nat maxdepth) 0 0 root addr af.

(** *** Enumeration *)

(** [~(1u << k)] under [&=]. *)
Definition clear_bit (h k : Z) : Z := Z.ldiff h (Z.shiftl 1 k).

Definition set_addr_bit (af : Z) (ss : list Z) (depth : Z) (bit : bool) : list Z :=
  if af =? AF_INET then
    let host := ntohl ss in
    htonl (if bit then Z.lor host (Z.shiftl 1 (31 - depth)) else clear_bit host (31 - depth))
  else
    let byte := Z.to_nat (depth / 8) in
    let shift := 7 - depth mod 8 in
    <[byte := if bit then Z.lor (nth byte ss 0) (Z.shiftl 1 shift) else clear_bit (nth byte ss 0) shift]> ss.
Definition clr_addr_bit (af : Z) (ss : list Z) (depth : Z) : list Z :=
  if af =? AF_INET then htonl (clear_bit (ntohl ss) (31 - depth))
  else
    let byte := Z.to_nat (depth / 8) in
    <[byte := clear_bit (nth byte ss 0) (7 - depth mod 8)]> ss.

(** The calls of [fn], with the address, the depth and the data; [ctx->ss] and
    [ctx->stop] afterwards. *)
Section Foreach.
Context (fn : list Z -> Z -> Z -> bool) (af : Z).

Fixpoint trie_foreach (node : cidr_node) (ss : list Z) (stop : bool) (depth : Z)
  : list (list Z * Z * Z) * list Z * bool :=
  match node with
  | NoNode => ([], ss, stop)
  | Node data c0 c1 =>
      if stop then ([], ss, stop)
      else
        let called := negb (data =? 0) in
        if called && negb (fn ss depth data) then ([(ss, depth, data)], ss, true)
        else
          let calls := if called then [(ss, depth, data)] else [] in
          let child (c : cidr_node) (bit : bool) (ss : list Z) (stop : bool) :=
            if stop then ([], ss, stop)
            else match c with
                 | NoNode => ([], ss, stop)
                 | Node _ _ _ =>
                     let '(cs, ss, stop) := trie_foreach c (set_addr_bit af ss depth bit) stop (depth + 1) in
                     (cs, clr_addr_bit af ss depth, stop)
                 end in
          let '(cs0, ss, stop) := child c0 false ss stop in
          let '(cs1, ss, stop) := child c1 true ss stop in
          (calls ++ cs0 ++ cs1, ss, stop)
  end.
End Foreach.

Fixpoint walk_vals (h : cidr_node) : list Z :=
  match h with
  | NoNode => []
  | Node data c0 c1 => (if data =? 0 then [] else [data]) ++ walk_vals c0 ++ walk_vals c1
  end.

(** ** The table *)

Definition op_cidr_create : op_cidr_tbl := {| root4 := NoNode; root6 := NoNode; count4 := 0; count6 := 0 |}.
(** What [free_fn] is called for. *)
Definition op_cidr_destroy (t : op_cidr_tbl) : list Z := walk_vals (root4 t) ++ walk_vals (root6 t).

(** The result, [*old_val] where it is stored, and the table. *)
Definition op_cidr_set4 (t : op_cidr_tbl) (addr : list Z) (plen val : Z) : Z * Z * op_cidr_tbl :=
  if (plen <? 0) || (32 <? plen) then (-1, 0, t)
  else
    let '(r, old, root) := trie_set (root4 t) addr AF_INET plen val in
    (r, old, {| root4 := root; root6 := root6 t; count4 := if r =? 0 then count4 t else u64 (count4 t + 1); count6 := count6 t |}).
Definition op_cidr_set6 (t : op_cidr_tbl) (addr : list Z) (plen val : Z) : Z * Z * op_cidr_tbl :=
  if (plen <? 0) || (128 <? plen) then (-1, 0, t)
  else
    let '(r, old, root) := trie_set (root6 t) addr AF_INET6 plen val in
    (r, old, {| root4 := root4 t; root6 := root; count4 := count4 t; count6 := if r =? 0 then count6 t else u64 (count6 t + 1) |}).

Definition op_cidr_del4 (t : op_cidr_tbl) (addr : list Z) (plen : Z) : Z * op_cidr_tbl :=
  let '(old, root) := trie_del (root4 t) addr AF_INET plen in
  (old, {| root4 := root; root6 := root6 t; count4 := if old =? 0 then count4 t else u64 (count4 t - 1); count6 := count6 t |}).
Definition op_cidr_del6 (t : op_cidr_tbl) (addr : list Z) (plen : Z) : Z * op_cidr_tbl :=
  let '(old, root) := trie_del (root6 t) addr AF_INET6 plen in
  (old, {| root4 := root4 t; root6 := root; count4 := count4 t; count6 := if old =? 0 then count6 t else u64 (count6 t - 1) |}).

Definition op_cidr_match_any4 (t : op_cidr_tbl) (addr : list Z) : Z := trie_match_any (root4 t) addr AF_INET 32.
Definition op_cidr_match_any6 (t : op_cidr_tbl) (addr : list Z) : Z := trie_match_any (root6 t) addr AF_INET6 128.

(** [struct sockaddr_storage]: the family and the address. *)
Definition sockaddr : Type := Z * list Z.
Definition op_cidr_match_any_ss (t : op_cidr_tbl) (ss : sockaddr) : Z :=
  if fst ss =? AF_INET then op_cidr_match_any4 t (snd ss)
  else if fst ss =? AF_INET6 then op_cidr_match_any6 t (snd ss) else 0.

Definition op_cidr_lpm4 (t : op_cidr_tbl) (addr : list Z) : Z := trie_lpm (root4 t) addr AF_INET 32.
Definition op_cidr_lpm6 (t : op_cidr_tbl) (addr : list Z) : Z := trie_lpm (root6 t) addr AF_INET6 128.
Definition op_cidr_lpm_ss (t : op_cidr_tbl) (ss : sockaddr) : Z :=
  if fst ss =? AF_INET then op_cidr_lpm4 t (snd ss)
  else if fst ss =? AF_INET6 then op_cidr_lpm6 t (snd ss) else 0.

Definition op_cidr_count4 (t : op_cidr_tbl) : Z := count4 t.
Definition op_cidr_count6 (t : op_cidr_tbl) : Z := count6 t.

Definition op_cidr_foreach4 (t : op_cidr_tbl) (fn : list Z -> Z -> Z -> bool) : list (list Z * Z * Z) :=
  fst (fst (trie_foreach fn AF_INET (root4 t) (replicate 4 0) false 0)).
Definition op_cidr_foreach6 (t : op_cidr_tbl) (fn : list Z -> Z -> Z -> bool) : list (list Z * Z * Z) :=
  fst (fst (trie_foreach fn AF_INET6 (root6 t) (replicate 16 0) false 0)).

(** *** Reading addresses *)

Section Parse.
(** [inet_pton] of the C library: the address when it returns 1. *)
Context (inet_pton : Z -> list Z -> option (list Z)).

Definition op_cidr_parse_addr (s : list Z) : option sockaddr :=
  match inet_pton AF_INET s with
  | Some a => Some (AF_INET, a)
  | None => match inet_pton AF_INET6 s with Some a => Some (AF_INET6, a) | None => None end
  end.

Definition INET6_ADDRSTRLEN : Z := 46.

(** A number that [strtol] clamps, with [errno] set, is out of range below as well. *)
Definition op_cidr_parse_str (s : list Z) : option (sockaddr * Z) :=
  let finish s (parsed : option Z) :=
    match op_cidr_parse_addr s with
    | None => None
    | Some ss =>
        let width := if fst ss =? AF_INET then 32 else 128 in
        let plen := match parsed with Some p => p | None => width end in
        if (plen <? 0) || (width <? plen) then None else Some (ss, plen)
    end in
  match strchr s (ch "/") with
  | None => finish s None
  | Some slash =>
      let addrlen := (length s - length slash)%nat in
      if (addrlen =? 0)%nat || (INET6_ADDRSTRLEN + 1 <=? Z.of_nat addrlen) then None
      else
        let digits := tail slash in
        let '(p, rest) := strtol digits in
        if bool_decide (rest = digits) || negb (bool_decide (rest = [])) then None
        else finish (take addrlen s) (Some p)
  end.
End Parse.
