(* ===== verification/CidrProps.v ===== *)
(** * What the table of prefixes promises

    The trie as a function from bit strings ([get]), the table as two finite maps, and
    matching as the first and the last of the values stored along an address ([cover]). *)

From stdpp Require Import gmap list.
From S2P Require Import Prelude LibC Inet CidrTbl.
#[local] Open Scope Z_scope.

(** ** Bits of addresses *)

(** The widths of the two families, and an address of a family. *)
Definition width (af : Z) : nat := if af =? AF_INET then 32 else 128.
Definition address (af : Z) (a : list Z) : Prop :=
  (af = AF_INET \/ af = AF_INET6) /\ in_bytes a /\ (8 * length a = width af)%nat.

Lemma length_addr_bits a : length (addr_bits a) = (8 * length a)%nat.
Proof. unfold addr_bits. induction a as [|x a IH]; [done|]. cbn [map concat]. rewrite length_app, IH. cbn. lia. Qed.

Lemma addr_bits_lookup a : forall i, (i < 8 * length a)%nat ->
  addr_bits a !! i = Some (Z.testbit (nth (i / 8) a 0) (7 - Z.of_nat (i mod 8))).
Proof.
  induction a as [|x a IH]; intros i Hi; [cbn in Hi; lia|]. unfold addr_bits. cbn [map concat].
  destruct (decide (i < 8)%nat) as [Hlt|Hge].
  - rewrite lookup_app_l by (cbn; lia). rewrite Nat.div_small, Nat.mod_small by done. unfold byte_bits.
    rewrite list_lookup_fmap, lookup_seq_lt by done. done.
  - rewrite lookup_app_r by (cbn; lia). change (length (byte_bits x)) with 8%nat. fold (addr_bits a).
    cbn [length] in Hi. rewrite IH by lia. replace i with (i - 8 + 1 * 8)%nat at 3 4 by lia.
    rewrite Nat.div_add, Nat.Div0.mod_add by lia. replace ((i - 8) / 8 + 1)%nat with (S ((i - 8) / 8)) by lia. done.
Qed.

Lemma land_1 x k : 0 <= k -> Z.land (Z.shiftr x k) 1 = Z.b2z (Z.testbit x k).
Proof.
  intros Hk. change 1 with (Z.ones 1) at 1. rewrite Z.land_ones by lia. change (2 ^ 1) with 2.
  rewrite <- Z.bit0_mod, Z.shiftr_spec, Z.add_0_l by lia. done.
Qed.

Lemma byte_testbit b k : 0 <= b < 256 -> 8 <= k -> Z.testbit b k = false.
Proof.
  intros Hb Hk. rewrite <- (Z.mod_small b (2 ^ 8)) by (change (2 ^ 8) with 256; lia). apply Z.mod_pow2_bits_high. lia.
Qed.

(** *** Host order *)

Lemma ntohl_testbit a k : in_bytes a -> length a = 4%nat -> 0 <= k < 32 ->
  Z.testbit (ntohl a) (31 - k) = Z.testbit (nth (Z.to_nat (k / 8)) a 0) (7 - k mod 8).
Proof.
  intros Ha Hl Hk. destruct a as [|b0 [|b1 [|b2 [|b3 [|]]]]]; try done.
  repeat (apply Forall_cons in Ha as [? Ha]). unfold ntohl. cbn [nth].
  rewrite !Z.lor_spec, !Z.shiftl_spec by lia.
  assert (Hd : k = 8 * (k / 8) + k mod 8) by (apply Z.div_mod; lia).
  pose proof (Z.mod_pos_bound k 8 ltac:(lia)) as Hm.
  assert (Hq : k / 8 = 0 \/ k / 8 = 1 \/ k / 8 = 2 \/ k / 8 = 3) by lia.
  assert (Hneg : forall b j, j < 0 -> Z.testbit b j = false) by (intros; by apply Z.testbit_neg_r).
  destruct Hq as [E|[E|[E|E]]]; rewrite E in *; cbn [Z.to_nat Pos.to_nat Pos.iter_op nth].
  - rewrite (byte_testbit b1), (byte_testbit b2), (byte_testbit b3) by lia. rewrite !orb_false_r. f_equal. lia.
  - rewrite (Hneg b0), (byte_testbit b2), (byte_testbit b3) by lia. rewrite !orb_false_r. cbn [orb]. f_equal. lia.
  - rewrite (Hneg b0), (Hneg b1), (byte_testbit b3) by lia. rewrite !orb_false_r. cbn [orb]. f_equal. lia.
  - rewrite (Hneg b0), (Hneg b1), (Hneg b2) by lia. cbn [orb]. f_equal. lia.
Qed.

Lemma addr_bit_spec af a i b : address af a -> addr_bits a !! i = Some b ->
  addr_bit a af (Z.of_nat i) = Z.b2z b.
Proof.
  intros (Haf & Hb & Hl) Hi. pose proof (lookup_lt_Some _ _ _ Hi) as Hlt. rewrite length_addr_bits in Hlt.
  rewrite addr_bits_lookup in Hi by done.
  assert (Eb : b = Z.testbit (nth (i / 8) a 0) (7 - Z.of_nat (i mod 8))) by congruence.
  rewrite Eb. clear Hi Eb. unfold addr_bit, width in *.
  assert (E8 : Z.of_nat (i / 8) = Z.of_nat i / 8) by (by rewrite Nat2Z.inj_div).
  assert (Em : Z.of_nat (i mod 8) = Z.of_nat i mod 8) by (by rewrite Nat2Z.inj_mod).
  pose proof (Z.mod_pos_bound (Z.of_nat i) 8 ltac:(lia)). rewrite Em.
  destruct (Z.eqb_spec af AF_INET) as [->|Hne].
  - unfold bit4. rewrite land_1 by lia. rewrite ntohl_testbit by (done || lia). rewrite <- E8, Nat2Z.id. done.
  - unfold bit6. rewrite land_1 by lia. rewrite <- E8, Nat2Z.id. done.
Qed.

(** ** The trie as a function *)

Fixpoint get (t : cidr_node) (p : list bool) : Z :=
  match t, p with
  | NoNode, _ => 0
  | Node d _ _, [] => d
  | Node _ c0 c1, b :: p => get (if b then c1 else c0) p
  end.

(** The [n] bits a loop looks at from depth [i]. *)
Fixpoint path (n : nat) (i : Z) (addr : list Z) (af : Z) : list bool :=
  match n with O => [] | S n => negb (addr_bit addr af i =? 0) :: path n (i + 1) addr af end.

Lemma path_spec af a n : address af a -> forall i, (i + n <= width af)%nat ->
  path n (Z.of_nat i) a af = take n (drop i (addr_bits a)).
Proof.
  intros Ha. induction n as [|n IH]; intros i Hi; [done|]. pose proof Ha as (_ & _ & Hl).
  destruct (lookup_lt_is_Some_2 (addr_bits a) i) as [b Eb]; [rewrite length_addr_bits; lia|].
  rewrite (drop_S _ b) by done. cbn [path take]. rewrite (addr_bit_spec af a i b) by done.
  f_equal; [by destruct b|]. replace (Z.of_nat i + 1) with (Z.of_nat (S i)) by lia. apply IH. lia.
Qed.

Lemma path_take af a n : address af a -> (n <= width af)%nat -> path n 0 a af = take n (addr_bits a).
Proof. intros Ha Hn. apply (path_spec af a n Ha 0). lia. Qed.

(** A change below one child. *)
Lemma child_update (b : bool) d c0 c1 c' q v :
  (forall p, get c' p = if decide (p = q) then v else get (if b then c1 else c0) p) ->
  forall p, get (if b then Node d c0 c' else Node d c' c1) p =
            if decide (p = b :: q) then v else get (Node d c0 c1) p.
Proof.
  intros Hc [|x p]; [by destruct b|]. destruct b, x; cbn [get]; try (by rewrite decide_False by congruence);
    rewrite Hc; destruct (decide (p = q)) as [->|Hne]; by rewrite ?decide_True, ?decide_False by congruence.
Qed.

Lemma set_loop_spec addr af val n : forall i cur t' old, set_loop n i cur addr af val = (t', old) ->
  old = get cur (path n i addr af) /\
  forall p, get t' p = if decide (p = path n i addr af) then val else get cur p.
Proof.
  induction n as [|n IH]; intros i cur t' old E; cbn [set_loop path] in E |- *.
  - destruct cur as [|d c0 c1]; cbn in E; injection E as <- <-; (split; [done|]); intros [|[|] p]; done.
  - destruct (node_alloc cur) as [[d c0] c1] eqn:En.
    assert (Hg : forall p, get cur p = get (Node d c0 c1) p).
    { destruct cur; cbn in En; injection En as <- <- <-; [|done]. by intros [|[|] p]. }
    rewrite (Hg (_ :: _)). destruct (addr_bit addr af i =? 0); cbn [negb get];
      destruct (set_loop n (i + 1) _ addr af val) as [c' o] eqn:E'; injection E as <- <-;
      destruct (IH _ _ _ _ E') as [Ho Hs]; (split; [done|]); intros p; rewrite Hg.
    + by apply (child_update false d c0 c1 c').
    + by apply (child_update true d c0 c1 c').
Qed.

Lemma del_loop_spec addr af n : forall i cur t' old, del_loop n i cur addr af = (old, t') ->
  old = get cur (path n i addr af) /\
  forall p, get t' p = if decide (p = path n i addr af) then 0 else get cur p.
Proof.
  induction n as [|n IH]; intros i [|d c0 c1] t' old E; cbn [del_loop path] in E |- *.
  1,3: injection E as <- <-; (split; [done|]); intros p; by destruct (decide _).
  - injection E as <- <-. split; [done|]. by intros [|[|] p].
  - destruct (addr_bit addr af i =? 0); cbn [negb get];
      destruct (del_loop n (i + 1) _ addr af) as [o c'] eqn:E'; injection E as <- <-;
      destruct (IH _ _ _ _ E') as [Ho Hs]; (split; [done|]).
    + by apply (child_update false d c0 c1 c').
    + by apply (child_update true d c0 c1 c').
Qed.

(** *** Matching *)

(** The prefixes of a bit string, shortest first. *)
Fixpoint prefixes (bits : list bool) : list (list bool) :=
  [] :: match bits with [] => [] | b :: bits => map (cons b) (prefixes bits) end.

Definition values (t : cidr_node) (ps : list (list bool)) : list Z :=
  List.filter (fun v => negb (v =? 0)) (map (get t) ps).

Lemma values_node d c0 c1 b bits :
  values (Node d c0 c1) (prefixes (b :: bits)) =
  (if d =? 0 then [] else [d]) ++ values (if b then c1 else c0) (prefixes bits).
Proof. unfold values. cbn. rewrite map_map. cbn. by destruct (d =? 0). Qed.

Lemma values_NoNode ps : values NoNode ps = [].
Proof. unfold values. induction ps as [|p ps IH]; [done|]. cbn. by destruct p. Qed.

Lemma any_loop_spec addr af n : forall i cur,
  any_loop n i cur addr af = hd 0 (values cur (prefixes (path n i addr af))).
Proof.
  induction n as [|n IH]; intros i [|d c0 c1]; [by rewrite values_NoNode| |by rewrite values_NoNode|].
  - cbn. unfold values. cbn. by destruct (d =? 0).
  - cbn [any_loop path]. rewrite values_node. destruct (d =? 0); cbn [negb app hd]; [|done].
    rewrite IH. by destruct (addr_bit addr af i =? 0).
Qed.

Lemma lpm_loop_spec addr af n : forall i best cur,
  lpm_loop n i best cur addr af = List.last (values cur (prefixes (path n i addr af))) best.
Proof.
  assert (Hlast : forall (l : list Z) d best, List.last (d :: l) best = List.last l d).
  { intros l. induction l as [|x l IHl]; intros d best; [done|]. change (List.last (d :: x :: l) best) with (List.last (x :: l) best).
    rewrite !IHl. done. }
  induction n as [|n IH]; intros i best [|d c0 c1]; [by rewrite values_NoNode| |by rewrite values_NoNode|].
  - cbn. unfold values. cbn. by destruct (d =? 0).
  - cbn [lpm_loop path]. rewrite values_node, IH.
    destruct (addr_bit addr af i =? 0); cbn [negb]; destruct (d =? 0); cbn [app]; by rewrite ?Hlast.
Qed.

(** *** Finite maps *)

(** The trie holds the entries of [m], none of which is NULL. *)
Definition models (t : cidr_node) (m : gmap (list bool) Z) : Prop :=
  (forall p, get t p = default 0 (m !! p)) /\ (forall p v, m !! p = Some v -> v <> 0).

Lemma models_NoNode : models NoNode ∅.
Proof. split; [intros p; by rewrite lookup_empty|]. intros p v. by rewrite lookup_empty. Qed.

Lemma models_insert t m t' q v : models t m -> v <> 0 ->
  (forall p, get t' p = if decide (p = q) then v else get t p) -> models t' (<[q := v]> m).
Proof.
  intros [Hg Hn] Hv Ht. split; intros p; [rewrite Ht|]; destruct (decide (p = q)) as [->|Hne].
  - by rewrite lookup_insert_eq.
  - by rewrite lookup_insert_ne by done.
  - rewrite lookup_insert_eq. by intros ? [= <-].
  - rewrite lookup_insert_ne by done. apply Hn.
Qed.

Lemma models_delete t m t' q : models t m ->
  (forall p, get t' p = if decide (p = q) then 0 else get t p) -> models t' (delete q m).
Proof.
  intros [Hg Hn] Ht. split; intros p; [rewrite Ht|]; destruct (decide (p = q)) as [->|Hne].
  - by rewrite lookup_delete_eq.
  - by rewrite lookup_delete_ne by done.
  - by rewrite lookup_delete_eq.
  - rewrite lookup_delete_ne by done. apply Hn.
Qed.

Lemma models_get t m p : models t m -> get t p = 0 <-> m !! p = None.
Proof.
  intros [Hg Hn]. rewrite Hg. destruct (m !! p) as [v|] eqn:E; cbn; [|done].
  split; [|done]. intros ->. by destruct (Hn p 0).
Qed.

(** The values of the prefixes of [bits], shortest prefix first. *)
Definition cover (m : gmap (list bool) Z) (bits : list bool) : list Z := omap (fun p => m !! p) (prefixes bits).

Lemma values_cover t m bits : models t m -> values t (prefixes bits) = cover m bits.
Proof.
  intros [Hg Hn]. unfold values, cover. induction (prefixes bits) as [|p ps IH]; [done|]. cbn.
  rewrite Hg. destruct (m !! p) as [v|] eqn:E; cbn; [|done].
  rewrite (proj2 (Z.eqb_neq v 0)) by (by apply (Hn p)). cbn. by rewrite IH.
Qed.

(** *** Depth *)

Fixpoint fits (n : nat) (t : cidr_node) {struct t} : Prop :=
  match t with
  | NoNode => True
  | Node _ c0 c1 => match n with O => c0 = NoNode /\ c1 = NoNode | S n => fits n c0 /\ fits n c1 end
  end.

Lemma fits_set addr af val n : forall w i cur, (n <= w)%nat -> fits w cur -> fits w (fst (set_loop n i cur addr af val)).
Proof.
  induction n as [|n IH]; intros w i cur Hw Hf; cbn [set_loop].
  - destruct cur as [|d c0 c1]; destruct w; cbn in *; intuition.
  - destruct w as [|w]; [lia|].
    assert (Hc : fits w (snd (fst (node_alloc cur))) /\ fits w (snd (node_alloc cur))) by (destruct cur; cbn in *; tauto).
    destruct (node_alloc cur) as [[d c0] c1]. cbn [fst snd] in Hc.
    destruct (addr_bit addr af i =? 0).
    + pose proof (IH w (i + 1) c0 ltac:(lia) ltac:(tauto)) as H1. destruct (set_loop n _ c0 _ _ _). cbn in *. tauto.
    + pose proof (IH w (i + 1) c1 ltac:(lia) ltac:(tauto)) as H1. destruct (set_loop n _ c1 _ _ _). cbn in *. tauto.
Qed.

Lemma fits_del addr af n : forall w i cur, fits w cur -> fits w (snd (del_loop n i cur addr af)).
Proof.
  induction n as [|n IH]; intros w i [|d c0 c1] Hf; try done. cbn [del_loop].
  assert (Hc : forall w, fits w NoNode) by done.
  destruct (addr_bit addr af i =? 0); destruct w as [|w]; cbn [fits] in Hf; destruct Hf as [H0 H1].
  - subst. destruct n; done.
  - pose proof (IH w (i + 1) c0 H0). destruct (del_loop n _ c0 _ _). cbn in *. tauto.
  - subst. destruct n; done.
  - pose proof (IH w (i + 1) c1 H1). destruct (del_loop n _ c1 _ _). cbn in *. tauto.
Qed.

(** ** One family of a table *)

Record holds (af : Z) (root : cidr_node) (count : Z) (m : gmap (list bool) Z) : Prop := {
  holds_models : models root m;
  holds_fits : fits (width af) root;
  holds_count : count = Z.of_nat (base.size m)
}.

Lemma u64_id x : 0 <= x < 2 ^ 64 -> u64 x = x.
Proof. apply Z.mod_small. Qed.

Definition net_prefix (addr : list Z) (plen : Z) : list bool := take (Z.to_nat plen) (addr_bits addr).

Lemma trie_set_spec af root c m addr plen val : holds af root c m -> address af addr ->
  0 <= plen <= Z.of_nat (width af) -> val <> 0 -> Z.of_nat (base.size m) + 1 < 2 ^ 64 ->
  exists root', let old := default 0 (m !! net_prefix addr plen) in
    let r := if old =? 0 then 1 else 0 in
    trie_set root addr af plen val = (r, old, root') /\
    holds af root' (if r =? 0 then c else u64 (c + 1)) (<[net_prefix addr plen := val]> m).
Proof.
  intros [Hm Hf Hc] Ha Hp Hv Hs. unfold trie_set.
  pose proof (fits_set addr af val (Z.to_nat plen) (width af) 0 root ltac:(lia) Hf) as Hf'.
  destruct (set_loop (Z.to_nat plen) 0 root addr af val) as [t' o] eqn:E.
  destruct (set_loop_spec _ _ _ _ _ _ _ _ E) as [Ho Hg]. rewrite path_take in Ho, Hg by (done || lia).
  change (take (Z.to_nat plen) (addr_bits addr)) with (net_prefix addr plen) in *.
  rewrite (proj1 Hm) in Ho. subst o. exists t'. cbv zeta. split; [done|].
  split; [by apply (models_insert root m)|done|].
  destruct (m !! net_prefix addr plen) as [v|] eqn:Ev; cbn [default from_option id].
  - rewrite (proj2 (Z.eqb_neq v 0)) by (by apply (proj2 Hm (net_prefix addr plen))). cbn.
    rewrite Hc, map_size_insert_Some by eauto. done.
  - cbn. rewrite map_size_insert_None by done. rewrite u64_id; lia.
Qed.

Lemma trie_del_spec af root c m addr plen : holds af root c m -> address af addr ->
  0 <= plen <= Z.of_nat (width af) -> Z.of_nat (base.size m) < 2 ^ 64 ->
  exists root', let old := default 0 (m !! net_prefix addr plen) in
    trie_del root addr af plen = (old, root') /\
    holds af root' (if old =? 0 then c else u64 (c - 1)) (delete (net_prefix addr plen) m).
Proof.
  intros [Hm Hf Hc] Ha Hp Hs. unfold trie_del.
  pose proof (fits_del addr af (Z.to_nat plen) (width af) 0 root Hf) as Hf'.
  destruct (del_loop (Z.to_nat plen) 0 root addr af) as [o t'] eqn:E.
  destruct (del_loop_spec _ _ _ _ _ _ _ E) as [Ho Hg]. rewrite path_take in Ho, Hg by (done || lia).
  change (take (Z.to_nat plen) (addr_bits addr)) with (net_prefix addr plen) in *.
  rewrite (proj1 Hm) in Ho. subst o. exists t'. cbv zeta. split; [done|].
  split; [by apply (models_delete root m)|done|].
  destruct (m !! net_prefix addr plen) as [v|] eqn:Ev; cbn [default from_option id].
  - rewrite (proj2 (Z.eqb_neq v 0)) by (by apply (proj2 Hm (net_prefix addr plen))). cbn.
    pose proof (map_size_delete (net_prefix addr plen) m) as Hsz. rewrite Ev in Hsz.
    assert (base.size m <> 0%nat) by (intros E0; apply map_size_empty_iff in E0; by rewrite E0 in Ev).
    rewrite u64_id; lia.
  - cbn. rewrite delete_id by done. done.
Qed.

Lemma trie_any_spec af root c m addr : holds af root c m -> address af addr ->
  trie_match_any root addr af (Z.of_nat (width af)) = hd 0 (cover m (addr_bits addr)).
Proof.
  intros [Hm _ _] Ha. unfold trie_match_any. rewrite any_loop_spec, Nat2Z.id, path_take, (values_cover _ m) by done.
  rewrite take_ge; [done|]. rewrite length_addr_bits. destruct Ha as (_ & _ & ->). done.
Qed.

Lemma trie_lpm_spec af root c m addr : holds af root c m -> address af addr ->
  trie_lpm root addr af (Z.of_nat (width af)) = List.last (cover m (addr_bits addr)) 0.
Proof.
  intros [Hm _ _] Ha. unfold trie_lpm. rewrite lpm_loop_spec, Nat2Z.id, path_take, (values_cover _ m) by done.
  rewrite take_ge; [done|]. rewrite length_addr_bits. destruct Ha as (_ & _ & ->). done.
Qed.

(** ** Sequences of operations *)

Inductive cop : Type :=
| CSet (af : Z) (addr : list Z) (plen val : Z)
| CDel (af : Z) (addr : list Z) (plen : Z)
| CAny (af : Z) (addr : list Z)
| CLpm (af : Z) (addr : list Z)
| CCount (af : Z).

Definition do_cop (o : cop) (t : op_cidr_tbl) : list Z * op_cidr_tbl :=
  match o with
  | CSet af addr plen val =>
      let '(r, old, t) := (if af =? AF_INET then op_cidr_set4 else op_cidr_set6) t addr plen val in ([r; old], t)
  | CDel af addr plen =>
      let '(old, t) := (if af =? AF_INET then op_cidr_del4 else op_cidr_del6) t addr plen in ([old], t)
  | CAny af addr => ([op_cidr_match_any_ss t (af, addr)], t)
  | CLpm af addr => ([op_cidr_lpm_ss t (af, addr)], t)
  | CCount af => ([(if af =? AF_INET then op_cidr_count4 else op_cidr_count6) t], t)
  end.

(** What may be asked for. *)
Definition cop_ok (o : cop) : Prop :=
  match o with
  | CSet af addr plen val => address af addr /\ val <> 0
  | CDel af addr plen => address af addr /\ 0 <= plen <= Z.of_nat (width af)
  | CAny af addr | CLpm af addr => address af addr
  | CCount af => True
  end.

(** The maps of the two families. *)
Definition maps : Type := gmap (list bool) Z * gmap (list bool) Z.
Definition sel (af : Z) (ms : maps) : gmap (list bool) Z := if af =? AF_INET then fst ms else snd ms.
Definition upd (af : Z) (m : gmap (list bool) Z) (ms : maps) : maps :=
  if af =? AF_INET then (m, snd ms) else (fst ms, m).

Definition map_cop (o : cop) (ms : maps) : list Z * maps :=
  match o with
  | CSet af addr plen val =>
      if (plen <? 0) || (Z.of_nat (width af) <? plen) then ([-1; 0], ms)
      else
        let m := sel af ms in
        ([if bool_decide (is_Some (m !! net_prefix addr plen)) then 0 else 1; default 0 (m !! net_prefix addr plen)],
         upd af (<[net_prefix addr plen := val]> m) ms)
  | CDel af addr plen =>
      let m := sel af ms in ([default 0 (m !! net_prefix addr plen)], upd af (delete (net_prefix addr plen) m) ms)
  | CAny af addr => ([hd 0 (cover (sel af ms) (addr_bits addr))], ms)
  | CLpm af addr => ([List.last (cover (sel af ms) (addr_bits addr)) 0], ms)
  | CCount af => ([Z.of_nat (base.size (sel af ms))], ms)
  end.

Fixpoint do_cops (os : list cop) (t : op_cidr_tbl) : list (list Z) * op_cidr_tbl :=
  match os with
  | [] => ([], t)
  | o :: os => let '(a, t) := do_cop o t in let '(rest, t) := do_cops os t in (a :: rest, t)
  end.
Fixpoint map_cops (os : list cop) (ms : maps) : list (list Z) * maps :=
  match os with
  | [] => ([], ms)
  | o :: os => let '(a, ms) := map_cop o ms in let '(rest, ms) := map_cops os ms in (a :: rest, ms)
  end.

Definition tbl_holds (t : op_cidr_tbl) (ms : maps) : Prop :=
  holds AF_INET (root4 t) (count4 t) (fst ms) /\ holds AF_INET6 (root6 t) (count6 t) (snd ms).

Lemma create_holds : tbl_holds op_cidr_create (∅, ∅).
Proof. split; (split; [apply models_NoNode|done|done]). Qed.

Definition tbl_small (n : Z) (ms : maps) : Prop :=
  Z.of_nat (base.size (fst ms)) <= n /\ Z.of_nat (base.size (snd ms)) <= n.

Lemma size_insert_le (m : gmap (list bool) Z) p v : (base.size (<[p := v]> m) <= S (base.size m))%nat.
Proof. rewrite map_size_insert. destruct (m !! p); unfold id; lia. Qed.

Lemma size_delete_le (m : gmap (list bool) Z) p : (base.size (delete p m) <= base.size m)%nat.
Proof. rewrite map_size_delete. destruct (m !! p); unfold id; lia. Qed.

Lemma map_cop_small o ms n : tbl_small n ms -> tbl_small (n + 1) (snd (map_cop o ms)).
Proof.
  intros [H1 H2]. destruct o as [af addr plen val|af addr plen|af addr|af addr|af]; cbn [map_cop snd]; try (split; lia).
  - destruct (_ || _); [split; cbn; lia|]. unfold upd, sel.
    destruct (af =? AF_INET); split; cbn [fst snd]; try lia.
    + pose proof (size_insert_le (fst ms) (net_prefix addr plen) val). lia.
    + pose proof (size_insert_le (snd ms) (net_prefix addr plen) val). lia.
  - unfold upd, sel. destruct (af =? AF_INET); split; cbn [fst snd]; try lia.
    + pose proof (size_delete_le (fst ms) (net_prefix addr plen)). lia.
    + pose proof (size_delete_le (snd ms) (net_prefix addr plen)). lia.
Qed.

Lemma old_is_new (o : option Z) : (forall v, o = Some v -> v <> 0) ->
  (if default 0 o =? 0 then 1 else 0) = if bool_decide (is_Some o) then 0 else 1.
Proof.
  intros Ho. destruct o as [v|]; cbn.
  - by rewrite (proj2 (Z.eqb_neq v 0)) by (by apply Ho).
  - done.
Qed.

Lemma do_cop_spec o t ms n : tbl_holds t ms -> tbl_small n ms -> n + 1 < 2 ^ 64 -> cop_ok o ->
  fst (do_cop o t) = fst (map_cop o ms) /\ tbl_holds (snd (do_cop o t)) (snd (map_cop o ms)).
Proof.
  intros [H4 H6] [S4 S6] Hn Ho. destruct o as [af addr plen val|af addr plen|af addr|af addr|af]; cbn [do_cop map_cop].
  - destruct Ho as [Ha Hv]. pose proof Ha as ([->| ->] & _ & _); cbn [Z.eqb AF_INET AF_INET6 Pos.eqb].
    + unfold op_cidr_set4. change (Z.of_nat (width AF_INET)) with 32. destruct ((plen <? 0) || (32 <? plen)) eqn:Ep; [done|].
      bool_lia. destruct (trie_set_spec AF_INET _ _ _ addr plen val H4 Ha) as (r' & E & Hh);
        [change (Z.of_nat (width AF_INET)) with 32; lia|done|lia|].
      cbv zeta in E, Hh. rewrite E. rewrite old_is_new in Hh |- * by (apply (proj2 (holds_models _ _ _ _ H4))). by split.
    + unfold op_cidr_set6. change (Z.of_nat (width AF_INET6)) with 128. destruct ((plen <? 0) || (128 <? plen)) eqn:Ep; [done|].
      bool_lia. destruct (trie_set_spec AF_INET6 _ _ _ addr plen val H6 Ha) as (r' & E & Hh);
        [change (Z.of_nat (width AF_INET6)) with 128; lia|done|lia|].
      cbv zeta in E, Hh. rewrite E. rewrite old_is_new in Hh |- * by (apply (proj2 (holds_models _ _ _ _ H6))). by split.
  - destruct Ho as [Ha Hp]. pose proof Ha as ([->| ->] & _ & _); cbn [Z.eqb AF_INET AF_INET6 Pos.eqb].
    + destruct (trie_del_spec AF_INET _ _ _ addr plen H4 Ha Hp) as (r' & E & Hh); [lia|].
      unfold op_cidr_del4. cbv zeta in E, Hh. rewrite E. by split.
    + destruct (trie_del_spec AF_INET6 _ _ _ addr plen H6 Ha Hp) as (r' & E & Hh); [lia|].
      unfold op_cidr_del6. cbv zeta in E, Hh. rewrite E. by split.
  - unfold op_cidr_match_any_ss. pose proof Ho as ([->| ->] & _ & _); cbn [fst snd Z.eqb AF_INET AF_INET6 Pos.eqb].
    + split; [|by split]. f_equal. by apply (trie_any_spec AF_INET _ (count4 t)).
    + split; [|by split]. f_equal. by apply (trie_any_spec AF_INET6 _ (count6 t)).
  - unfold op_cidr_lpm_ss. pose proof Ho as ([->| ->] & _ & _); cbn [fst snd Z.eqb AF_INET AF_INET6 Pos.eqb].
    + split; [|by split]. f_equal. by apply (trie_lpm_spec AF_INET _ (count4 t)).
    + split; [|by split]. f_equal. by apply (trie_lpm_spec AF_INET6 _ (count6 t)).
  - split; [|by split]. cbn [fst]. f_equal. unfold sel. destruct (af =? AF_INET).
    + apply (holds_count _ _ _ _ H4).
    + apply (holds_count _ _ _ _ H6).
Qed.

Lemma do_cops_spec os : forall t ms n, tbl_holds t ms -> tbl_small n ms -> n + Z.of_nat (length os) < 2 ^ 64 ->
  Forall cop_ok os ->
  fst (do_cops os t) = fst (map_cops os ms) /\ tbl_holds (snd (do_cops os t)) (snd (map_cops os ms)).
Proof.
  induction os as [|o os IH]; intros t ms n Ht Hs Hl Hok; [done|]. cbn [length] in Hl.
  apply Forall_cons in Hok as [Ho Hok]. destruct (do_cop_spec o t ms n Ht Hs ltac:(lia) Ho) as [E1 H1].
  pose proof (map_cop_small o ms n Hs) as Hs1. cbn [do_cops map_cops].
  destruct (do_cop o t) as [a t1], (map_cop o ms) as [a' ms1]. cbn [fst snd] in *. subst a'.
  destruct (IH t1 ms1 (n + 1) H1 Hs1 ltac:(lia) Hok) as [E2 H2].
  destruct (do_cops os t1), (map_cops os ms1). cbn [fst snd] in *. by subst.
Qed.

(** ** Enumeration *)

Lemma byte_of_bits x : 0 <= x -> (forall k, 8 <= k -> Z.testbit x k = false) -> 0 <= x < 256.
Proof.
  intros Hx Hk. assert (E : x = x mod 2 ^ 8).
  { apply Z.bits_inj'. intros k Hk0. destruct (Z.ltb_spec k 8).
    - by rewrite Z.mod_pow2_bits_low.
    - by rewrite Z.mod_pow2_bits_high, Hk by lia. }
  rewrite E. apply (Z.mod_pos_bound x (2 ^ 8)). lia.
Qed.

Lemma htonl_testbit h q r : 0 <= q <= 3 -> 0 <= r < 8 ->
  Z.testbit (nth (Z.to_nat q) (htonl h) 0) (7 - r) = Z.testbit h (31 - (8 * q + r)).
Proof.
  intros Hq Hr. assert (H8 : forall k, Z.testbit (u8 (Z.shiftr h k)) (7 - r) = Z.testbit h (7 - r + k)).
  { intros k. unfold u8. rewrite Z.mod_pow2_bits_low, Z.shiftr_spec by lia. done. }
  assert (Hc : q = 0 \/ q = 1 \/ q = 2 \/ q = 3) by lia.
  destruct Hc as [->|[->|[->| ->]]].
  - change (nth _ (htonl h) 0) with (u8 (Z.shiftr h 24)). rewrite H8. f_equal. lia.
  - change (nth _ (htonl h) 0) with (u8 (Z.shiftr h 16)). rewrite H8. f_equal. lia.
  - change (nth _ (htonl h) 0) with (u8 (Z.shiftr h 8)). rewrite H8. f_equal. lia.
  - change (nth _ (htonl h) 0) with (u8 h). unfold u8. rewrite Z.mod_pow2_bits_low by lia. f_equal. lia.
Qed.

(** One bit set or cleared. *)
Definition with_bit (h k : Z) (b : bool) : Z := if b then Z.lor h (Z.shiftl 1 k) else clear_bit h k.

Lemma with_bit_spec h k b j : 0 <= k -> 0 <= j -> Z.testbit (with_bit h k b) j = if j =? k then b else Z.testbit h j.
Proof.
  intros Hk Hj. assert (E1 : Z.testbit (Z.shiftl 1 k) j = (j =? k)).
  { rewrite Z.shiftl_1_l. rewrite Z.pow2_bits_eqb by done. apply Z.eqb_sym. }
  unfold with_bit, clear_bit. destruct b; rewrite ?Z.lor_spec, ?Z.ldiff_spec, E1; destruct (j =? k), (Z.testbit h j); done.
Qed.

Lemma with_bit_byte h k b : 0 <= h < 256 -> 0 <= k < 8 -> 0 <= with_bit h k b < 256.
Proof.
  intros Hh Hk. apply byte_of_bits.
  - unfold with_bit, clear_bit. rewrite Z.shiftl_1_l. destruct b; [apply Z.lor_nonneg|apply Z.ldiff_nonneg]; [|lia].
    split; [lia|]. apply Z.pow_nonneg. lia.
  - intros j Hj. rewrite with_bit_spec by lia. rewrite (proj2 (Z.eqb_neq j k)) by lia. by apply byte_testbit.
Qed.

Lemma split8 (i : nat) : Z.of_nat i = 8 * Z.of_nat (i / 8) + Z.of_nat (i mod 8) /\ (i mod 8 < 8)%nat.
Proof. pose proof (Nat.div_mod i 8 ltac:(lia)). pose proof (Nat.mod_upper_bound i 8 ltac:(lia)). lia. Qed.

Lemma set_addr_bit_spec af ss d b : address af ss -> (d < width af)%nat ->
  address af (set_addr_bit af ss (Z.of_nat d) b) /\
  addr_bits (set_addr_bit af ss (Z.of_nat d) b) = <[d := b]> (addr_bits ss).
Proof.
  intros (Haf & Hb & Hl) Hd. unfold set_addr_bit.
  fold (with_bit (ntohl ss) (31 - Z.of_nat d) b).
  set (byte := Z.to_nat (Z.of_nat d / 8)). fold (with_bit (nth byte ss 0) (7 - Z.of_nat d mod 8) b).
  destruct (split8 d) as [Ed Hmd].
  assert (Eq : forall l' : list Z, length l' = length ss ->
    (forall i, (i < 8 * length ss)%nat -> Z.testbit (nth (i / 8) l' 0) (7 - Z.of_nat (i mod 8)) =
       if decide (i = d) then b else Z.testbit (nth (i / 8) ss 0) (7 - Z.of_nat (i mod 8))) ->
    addr_bits l' = <[d := b]> (addr_bits ss)).
  { intros l' Hl' Hi. apply list_eq. intros i. destruct (decide (i < 8 * length ss)%nat) as [Hlt|Hge].
    - rewrite addr_bits_lookup, Hi by lia. destruct (decide (i = d)) as [->|Hne].
      + rewrite list_lookup_insert_eq; [done|]. by rewrite length_addr_bits.
      + rewrite list_lookup_insert_ne by done. by rewrite addr_bits_lookup.
    - rewrite !lookup_ge_None_2; [done| |]; rewrite ?length_insert, length_addr_bits; lia. }
  assert (Ediv : forall i, Z.of_nat i / 8 = Z.of_nat (i / 8)) by (intros i; by rewrite Nat2Z.inj_div).
  assert (Emod : forall i, Z.of_nat i mod 8 = Z.of_nat (i mod 8)) by (intros i; by rewrite Nat2Z.inj_mod).
  assert (Ebyte : byte = (d / 8)%nat) by (unfold byte; by rewrite Ediv, Nat2Z.id).
  unfold width in Hd, Hl. destruct (Z.eqb_spec af AF_INET) as [->|Hne].
  - split; [split; [by left|split; [|done]]|apply Eq; [cbn; lia|]].
    { unfold htonl. repeat constructor; apply Z.mod_pos_bound; lia. }
    intros i Hi. destruct (split8 i) as [Ei Hmi].
    replace (i / 8)%nat with (Z.to_nat (Z.of_nat (i / 8))) at 1 by lia. rewrite htonl_testbit by lia.
    rewrite with_bit_spec by lia. rewrite <- Ei.
    destruct (Z.eqb_spec (31 - Z.of_nat i) (31 - Z.of_nat d)), (decide (i = d)); try lia; [done|].
    rewrite ntohl_testbit by (done || lia).
    by rewrite Ediv, Emod, Nat2Z.id.
  - rewrite Emod, Ebyte. assert (Hlt : (d / 8 < length ss)%nat) by lia.
    destruct (lookup_lt_is_Some_2 ss (d / 8) Hlt) as [x Ex].
    assert (Hx : 0 <= x < 256) by (apply (proj1 (Forall_lookup _ _) Hb _ _ Ex)).
    rewrite (nth_lookup_Some _ _ _ _ Ex).
    split; [split; [done|split]|apply Eq; [by rewrite length_insert|]].
    + apply Forall_insert; [done|]. apply with_bit_byte; [done|lia].
    + rewrite length_insert. unfold width. rewrite (proj2 (Z.eqb_neq _ _)) by done. done.
    + intros i Hi. destruct (split8 i) as [Ei Hmi]. destruct (decide (i / 8 = d / 8)%nat) as [E|E].
      * rewrite E. rewrite (nth_lookup_Some _ _ _ (with_bit x (7 - Z.of_nat (d mod 8)) b))
          by (by apply list_lookup_insert_eq).
        rewrite (nth_lookup_Some _ _ _ _ Ex), with_bit_spec by lia.
        destruct (Z.eqb_spec (7 - Z.of_nat (i mod 8)) (7 - Z.of_nat (d mod 8))), (decide (i = d)); (done || lia).
      * rewrite nth_lookup, list_lookup_insert_ne, <- nth_lookup by done.
        rewrite decide_False; [done|]. by intros ->.
Qed.

(** The stored prefixes below [q], in the order of the walk. *)
Fixpoint entries (t : cidr_node) (q : list bool) : list (list bool * Z) :=
  match t with
  | NoNode => []
  | Node d c0 c1 => (if d =? 0 then [] else [(q, d)]) ++ entries c0 (q ++ [false]) ++ entries c1 (q ++ [true])
  end.

Lemma entries_spec t : forall q p v, In (p, v) (entries t q) <-> exists r, p = q ++ r /\ get t r = v /\ v <> 0.
Proof.
  induction t as [|d c0 IH0 c1 IH1]; intros q p v; cbn [entries].
  - split; [done|]. intros (r & _ & E & Hv). by destruct r.
  - rewrite !in_app_iff, IH0, IH1. split.
    + intros [H|[(r & -> & E)|(r & -> & E)]].
      * destruct (Z.eqb_spec d 0); [done|]. destruct H as [[= <- <-]|[]]. exists []. by rewrite app_nil_r.
      * exists (false :: r). by rewrite <- app_assoc.
      * exists (true :: r). by rewrite <- app_assoc.
    + intros ([|[|] r] & -> & E & Hv).
      * left. cbn in E. subst d. rewrite (proj2 (Z.eqb_neq v 0)) by done. rewrite app_nil_r. by left.
      * right. right. exists r. by rewrite <- app_assoc.
      * right. left. exists r. by rewrite <- app_assoc.
Qed.

Lemma entries_NoDup t : forall q, NoDup (entries t q).
Proof.
  induction t as [|d c0 IH0 c1 IH1]; intros q; cbn [entries]; [constructor|].
  assert (Hin : forall b c p v, In (p, v) (entries c (q ++ [b])) -> exists r, p = q ++ b :: r).
  { intros b c p v (r & -> & _)%entries_spec. exists r. by rewrite <- app_assoc. }
  apply NoDup_app. split; [destruct (d =? 0); [constructor|apply NoDup_singleton]|]. split.
  - intros [p v] Hp. destruct (d =? 0); [by apply elem_of_nil in Hp|]. apply list_elem_of_singleton in Hp as [= -> ->].
    rewrite list_elem_of_In, in_app_iff. intros [(r & E)%Hin|(r & E)%Hin];
      apply (f_equal length) in E; rewrite length_app in E; cbn in E; lia.
  - apply NoDup_app. split; [done|]. split; [|done]. intros [p v] Hp%list_elem_of_In Hp'%list_elem_of_In.
    apply Hin in Hp as (r & ->). apply Hin in Hp' as (r' & E). by apply app_inv_head in E.
Qed.

Lemma entries_map t m : models t m -> entries t [] ≡ₚ map_to_list m.
Proof.
  intros Hm. apply NoDup_Permutation; [apply entries_NoDup|apply NoDup_map_to_list|]. intros [p v].
  rewrite elem_of_map_to_list, list_elem_of_In, entries_spec. split.
  - intros (r & -> & E & Hv). rewrite (proj1 Hm) in E. cbn. destruct (m !! r); cbn in E; congruence.
  - intros E. exists p. split; [done|]. rewrite (proj1 Hm), E. split; [done|]. by apply (proj2 Hm p).
Qed.

(** A call of [fn] for a stored prefix: its address has zeros after the prefix. *)
Definition call_for (w : nat) (c : list Z * Z * Z) (e : list bool * Z) : Prop :=
  let '(ss, depth, data) := c in
  data = snd e /\ depth = Z.of_nat (length (fst e)) /\
  addr_bits ss = fst e ++ replicate (w - length (fst e)) false.

(** The calls up to the first that is answered false. *)
Definition goes_on (fn : list Z -> Z -> Z -> bool) (c : list Z * Z * Z) : bool :=
  let '(ss, depth, data) := c in fn ss depth data.
Fixpoint take_until (fn : list Z -> Z -> Z -> bool) (l : list (list Z * Z * Z)) : list (list Z * Z * Z) :=
  match l with [] => [] | c :: l => c :: if goes_on fn c then take_until fn l else [] end.

Lemma take_until_app fn l1 l2 :
  take_until fn (l1 ++ l2) = take_until fn l1 ++ if forallb (goes_on fn) l1 then take_until fn l2 else [].
Proof. induction l1 as [|c l1 IH]; [done|]. cbn. destruct (goes_on fn c); cbn; [by rewrite IH|done]. Qed.

Lemma replicate_set p n b : <[length p := b]> (p ++ replicate (S n) false) = (p ++ [b]) ++ replicate n false.
Proof. rewrite insert_app_r_alt, Nat.sub_diag by lia. cbn. by rewrite <- app_assoc. Qed.

(** After the visit of a child the address is as before. *)
Lemma bit_restored af ss p n b : address af ss -> addr_bits ss = p ++ replicate (S n) false ->
  (length p + S n = width af)%nat ->
  let ss' := set_addr_bit af ss (Z.of_nat (length p)) b in
  address af ss' /\ addr_bits ss' = (p ++ [b]) ++ replicate n false /\
  clr_addr_bit af ss' (Z.of_nat (length p)) = ss.
Proof.
  intros Ha Hb Hl ss'. destruct (set_addr_bit_spec af ss (length p) b Ha ltac:(lia)) as [Ha' Hb'].
  fold ss' in Ha', Hb'. rewrite Hb, replicate_set in Hb'. split; [done|]. split; [done|].
  destruct (set_addr_bit_spec af ss' (length p) false Ha' ltac:(lia)) as [Ha2 Hb2].
  change (clr_addr_bit af ss' (Z.of_nat (length p))) with (set_addr_bit af ss' (Z.of_nat (length p)) false).
  destruct Ha as (_ & H1 & H2), Ha2 as (_ & H3 & H4). apply addr_bits_inj; [done|done|lia|].
  rewrite Hb2, Hb', Hb, <- app_assoc. cbn. rewrite insert_app_r_alt, Nat.sub_diag by lia. done.
Qed.

(** What a walk of [t] does, from an address with the prefix [p] and zeros after it. *)
Definition visits (af : Z) (t : cidr_node) : Prop :=
  forall n p ss, fits n t -> (length p + n = width af)%nat -> address af ss ->
  addr_bits ss = p ++ replicate n false ->
  exists all, Forall2 (call_for (width af)) all (entries t p) /\
    forall fn, trie_foreach fn af t ss false (Z.of_nat (length p)) =
               (take_until fn all, ss, negb (forallb (goes_on fn) all)).

Lemma child_visits af c b n p ss : visits af c -> match n with O => c = NoNode | S n => fits n c end ->
  (length p + n = width af)%nat -> address af ss -> addr_bits ss = p ++ replicate n false ->
  exists all, Forall2 (call_for (width af)) all (entries c (p ++ [b])) /\
    forall fn, match c with
               | NoNode => ([], ss, false)
               | Node _ _ _ =>
                   let '(cs, ss, stop) := trie_foreach fn af c (set_addr_bit af ss (Z.of_nat (length p)) b) false (Z.of_nat (length p) + 1) in
                   (cs, clr_addr_bit af ss (Z.of_nat (length p)), stop)
               end = (take_until fn all, ss, negb (forallb (goes_on fn) all)).
Proof.
  intros IH Hc Hl Ha Hb. destruct c as [|d' x y]; [by exists []|]. destruct n as [|n]; [done|].
  destruct (bit_restored af ss p n b Ha Hb Hl) as (Ha' & Hb' & Hr).
  destruct (IH n (p ++ [b]) _ Hc ltac:(rewrite length_app; cbn; lia) Ha' Hb') as (all & Hall & Hfn).
  exists all. split; [done|]. intros fn. specialize (Hfn fn).
  replace (Z.of_nat (length (p ++ [b]))) with (Z.of_nat (length p) + 1) in Hfn by (rewrite length_app; cbn; lia).
  rewrite Hfn. by rewrite Hr.
Qed.

Lemma trie_foreach_spec af t : visits af t.
Proof.
  induction t as [|d c0 IH0 c1 IH1]; intros n p ss Hf Hl Ha Hb; [by exists []|].
  destruct (child_visits af c0 false n p ss) as (a0 & Ha0 & H0); [done|destruct n; apply Hf|done|done|done|].
  destruct (child_visits af c1 true n p ss) as (a1 & Ha1 & H1); [done|destruct n; apply Hf|done|done|done|].
  set (own := if d =? 0 then [] else [(ss, Z.of_nat (length p), d)]).
  exists (own ++ a0 ++ a1). split.
  - cbn [entries]. apply Forall2_app; [|by apply Forall2_app]. unfold own. destruct (d =? 0); [done|].
    constructor; [|done]. split; [done|]. split; [done|]. cbn [fst]. rewrite Hb. do 2 f_equal. lia.
  - intros fn. cbn [trie_foreach]. rewrite take_until_app, !forallb_app.
    assert (Eown : forallb (goes_on fn) own = (d =? 0) || fn ss (Z.of_nat (length p)) d).
    { unfold own. destruct (d =? 0); cbn; [done|]. by rewrite andb_true_r. }
    assert (Town : take_until fn own = own) by (unfold own; destruct (d =? 0); cbn; [done|]; by destruct (fn _ _ _)).
    rewrite Eown, Town. fold own. rewrite H0.
    destruct (d =? 0); cbn [orb andb negb]; [|destruct (fn ss (Z.of_nat (length p)) d); cbn [andb negb]].
    1,2: rewrite take_until_app; destruct (forallb (goes_on fn) a0); cbn [negb andb app]; rewrite ?H1, ?app_nil_r; done.
    by rewrite app_nil_r.
Qed.

Definition foreach_of (af : Z) : op_cidr_tbl -> (list Z -> Z -> Z -> bool) -> list (list Z * Z * Z) :=
  if af =? AF_INET then op_cidr_foreach4 else op_cidr_foreach6.

(** C22. The table refines two finite maps from bit strings, one for each family: any sequence of
    insertions (with replacement, and -1 for a prefix length out of range), deletions,
    matches and counts answers what the maps answer.  [match_any] gives the value of the
    shortest stored prefix of the address and [lpm] that of the longest, 0 if there is
    none; bits of an address after its prefix length have no influence.  A stored pointer
    is not NULL. *)
Theorem cidr_refines_maps (os : list cop) : Forall cop_ok os -> Z.of_nat (length os) < 2 ^ 64 ->
  fst (do_cops os op_cidr_create) = fst (map_cops os (∅, ∅)) /\
  tbl_holds (snd (do_cops os op_cidr_create)) (snd (map_cops os (∅, ∅))).
Proof.
  intros Hos Hl. apply (do_cops_spec os op_cidr_create (∅, ∅) 0); [apply create_holds| |lia|done].
  split; cbn [fst snd]; rewrite map_size_empty; lia.
Qed.

(** Enumeration calls [fn] for every stored prefix exactly once, with its length, its value
    and the address that has the bits of the prefix and zeros after them (the bits that were
    set on the way down are cleared again), up to the first call that is answered false. *)
Theorem cidr_foreach_visits (t : op_cidr_tbl) (ms : maps) (af : Z) :
  tbl_holds t ms -> af = AF_INET \/ af = AF_INET6 ->
  exists l calls, l ≡ₚ map_to_list (sel af ms) /\ Forall2 (call_for (width af)) calls l /\
    forall fn, foreach_of af t fn = take_until fn calls.
Proof.
  intros [H4 H6] Haf.
  assert (Hz : forall n, addr_bits (replicate n 0) = replicate (8 * n) false).
  { induction n as [|n IH]; [done|]. unfold addr_bits. cbn [replicate map concat]. fold (addr_bits (replicate n 0)).
    rewrite IH. replace (8 * S n)%nat with (8 + 8 * n)%nat by lia. done. }
  destruct Haf as [->| ->].
  - destruct H4 as [Hm Hf _]. destruct (trie_foreach_spec AF_INET (root4 t) 32%nat [] (replicate 4 0) Hf) as (all & Hall & Hfn);
      [done|split; [by left|split; [by repeat constructor|done]]|done|].
    exists (entries (root4 t) []), all. split; [by apply entries_map|]. split; [done|]. intros fn.
    unfold foreach_of, op_cidr_foreach4. cbn [Z.eqb AF_INET Pos.eqb]. specialize (Hfn fn).
    change (Z.of_nat (length [])) with 0 in Hfn. by rewrite Hfn.
  - destruct H6 as [Hm Hf _]. destruct (trie_foreach_spec AF_INET6 (root6 t) 128%nat [] (replicate 16 0) Hf) as (all & Hall & Hfn);
      [done|split; [by right|split; [by repeat constructor|done]]|done|].
    exists (entries (root6 t) []), all. split; [by apply entries_map|]. split; [done|]. intros fn.
    unfold foreach_of, op_cidr_foreach6. cbn [Z.eqb AF_INET AF_INET6 Pos.eqb]. specialize (Hfn fn).
    change (Z.of_nat (length [])) with 0 in Hfn. by rewrite Hfn.
Qed.

(** ** Witnesses *)

Definition cops_demo : list cop :=
  [CSet AF_INET [10; 0; 0; 0] 8 1; CSet AF_INET [10; 1; 255; 7] 16 2; CSet AF_INET [10; 1; 0; 0] 33 3;
   CAny AF_INET [10; 1; 2; 3]; CLpm AF_INET [10; 1; 2; 3]; CAny AF_INET [11; 1; 2; 3];
   CSet AF_INET6 (replicate 16 0) 0 9; CAny AF_INET6 (replicate 16 255);
   CDel AF_INET [10; 255; 255; 255] 8; CAny AF_INET [10; 2; 3; 4]; CCount AF_INET].

Lemma cops_demo_ok : Forall cop_ok cops_demo.
Proof.
  unfold cops_demo. repeat constructor; try (cbn; lia); try (by (left + right)); try done; cbn; lia.
Qed.

Lemma cidr_refines_maps_witness :
  fst (do_cops cops_demo op_cidr_create) = [[1; 0]; [1; 0]; [-1; 0]; [1]; [2]; [0]; [1; 0]; [9]; [1]; [0]; [1]] /\
  tbl_holds (snd (do_cops cops_demo op_cidr_create)) (snd (map_cops cops_demo (∅, ∅))).
Proof.
  assert (E : fst (map_cops cops_demo (∅, ∅)) = [[1; 0]; [1; 0]; [-1; 0]; [1]; [2]; [0]; [1; 0]; [9]; [1]; [0]; [1]])
    by (vm_compute; reflexivity).
  rewrite <- E. apply (cidr_refines_maps cops_demo); [apply cops_demo_ok|cbn; lia].
Defined.

Definition tbl_demo : op_cidr_tbl := snd (do_cops cops_demo op_cidr_create).

Lemma tbl_demo_holds : tbl_holds tbl_demo (snd (map_cops cops_demo (∅, ∅))).
Proof.
  apply (do_cops_spec cops_demo op_cidr_create (∅, ∅) 0); [apply create_holds| |cbn; lia|apply cops_demo_ok].
  split; cbn [fst snd]; rewrite map_size_empty; lia.
Qed.

Lemma cidr_foreach_visits_witness :
  exists l calls, l ≡ₚ map_to_list (sel AF_INET (snd (map_cops cops_demo (∅, ∅)))) /\
    Forall2 (call_for (width AF_INET)) calls l /\
    forall fn, foreach_of AF_INET tbl_demo fn = take_until fn calls.
Proof. apply (cidr_foreach_visits tbl_demo); [apply tbl_demo_holds|by left]. Defined.
