(* ===== verification/MaskLists.v ===== *)
(** * Lists of bans, exempts and invites (src/mod/channels.mod/userchan.c)

    A channel keeps the masks it bans (exempts, invites) in a linked list of records; a hash
    table of the masks and a table of network prefixes are meant to answer faster what the
    list answers.  The global lists have no table of prefixes.  Also what the reader of the
    user file (src/users.c) does to a list. *)

From stdpp Require Import gmap list.
From S2P Require Import Htab CidrTbl Prelude LibC Wildcard Rfc1459 Inet Match Strings.
#[local] Open Scope Z_scope.

Definition MASKREC_STICKY : Z := 1.
Definition MASKREC_PERM : Z := 2.

(** [maskrec]; [m_ptr] is its address and [m_text] that of its string [m_mask].  The lists are
    lists of records. *)
Record maskrec := {
  m_ptr : Z;
  m_text : Z;
  m_mask : list Z;
  m_desc : list Z;
  m_user : list Z;
  m_expire : Z;
  m_added : Z;
  m_lastactive : Z;
  m_flags : Z
}.

(** A key of the hash table: the address of a string, and its contents. *)
Record mask_key := { k_text : Z; k_str : list Z }.
#[export] Instance mask_htab_key : HtabKey mask_key :=
  {| hash_fn k := op_htab_hash_istr (k_str k); eq_fn a b := htab_eq_istr (k_str a) (k_str b) |}.

(** One of the lists, of the channel [owner] or global, with its tables; [fresh] is the next
    unused address. *)
Record masks := {
  owner : option (list Z);
  recs : list maskrec;
  ht : option (op_htab mask_key);
  ip_trie : option op_cidr_tbl;
  fresh : Z
}.

(** What is sent to the other bots: fields of the line. *)
Inductive kind := Ban | Exempt | Invite.
Inductive share :=
| ShareDel (k : kind) (chan : option (list Z)) (mask : list Z)
| ShareAdd (k : kind) (chan : option (list Z)) (mask : list Z) (seconds : Z) (sticky perm : bool) (from note : list Z)
| ShareSticky (chan : option (list Z)) (mask : list Z) (sticky : Z).

(** A walk that does not end; a pointer to a record that is not in the list, or to a string that
    has been freed. *)
Inductive mfault := Endless | Freed.
Definition ends {A} (r : result diverged A) : result mfault A :=
  match r with Ok a => Ok a | Err _ => Err Endless end.

Definition set_recs (m : masks) (us : list maskrec) : masks :=
  {| owner := owner m; recs := us; ht := ht m; ip_trie := ip_trie m; fresh := fresh m |}.
Definition set_ht (m : masks) (t : option (op_htab mask_key)) : masks :=
  {| owner := owner m; recs := recs m; ht := t; ip_trie := ip_trie m; fresh := fresh m |}.
Definition set_trie (m : masks) (t : option op_cidr_tbl) : masks :=
  {| owner := owner m; recs := recs m; ht := ht m; ip_trie := t; fresh := fresh m |}.

(** ** Hosts of masks *)

(** The host portion of a mask: everything after '@'. *)
Definition mask_host (mask : list Z) : list Z :=
  match strchr mask (ch "@") with Some p => tail p | None => mask end.
Definition mask_is_cidr (mask : list Z) : bool :=
  match strchr (mask_host mask) (ch "/") with Some slash => str_isdigit (tail slash) | None => false end.
(** [isxdigit] of the C library. *)
Definition isxdigit (c : Z) : bool := isdigit c || in_range 97 102 c || in_range 65 70 c.
Definition str_is_ip (s : list Z) : bool :=
  negb (bool_decide (s = [])) && negb (mem (ch "*") s) && negb (mem (ch "?") s) &&
  forallb (fun c => isxdigit c || (c =? ch ".") || (c =? ch ":")) s.

Section MaskLists.

(** The C library's [inet_pton]; the function pointers [rfc_casecmp] and [rfc_toupper]; the
    settings [cidr_support] and [noshare]; the time. *)
Context (inet_pton : Z -> list Z -> option (list Z)) (rfc_casecmp : list Z -> list Z -> Z) (rfc_toupper : Z -> Z).
Context (cidr_support noshare : bool) (now : Z).

Definition match_addr (m n : list Z) : Z := addr_match rfc_toupper cidr_support m n false false.

(** *** The table of prefixes *)

Definition ip_trie_add (trie : option op_cidr_tbl) (mask : list Z) (rec : Z) : option op_cidr_tbl :=
  if negb (mask_is_cidr mask) then trie
  else
    let t := match trie with Some t => t | None => op_cidr_create end in
    match op_cidr_parse_str inet_pton (mask_host mask) with
    | None => Some t
    | Some (ss, plen) =>
        let '(_, _, t) := (if fst ss =? AF_INET then op_cidr_set4 else op_cidr_set6) t (snd ss) plen rec in Some t
    end.

Definition ip_trie_del (trie : option op_cidr_tbl) (mask : list Z) : option op_cidr_tbl :=
  match trie with
  | None => None
  | Some t =>
      if negb (mask_is_cidr mask) then Some t
      else
        match op_cidr_parse_str inet_pton (mask_host mask) with
        | None => Some t
        | Some (ss, plen) =>
            let '(_, t) := (if fst ss =? AF_INET then op_cidr_del4 else op_cidr_del6) t (snd ss) plen in Some t
        end
  end.

Definition ip_trie_match (trie : option op_cidr_tbl) (host : list Z) : Z :=
  match trie with
  | None => 0
  | Some t =>
      if negb (str_is_ip host) then 0
      else match op_cidr_parse_addr inet_pton host with None => 0 | Some ss => op_cidr_match_any_ss t ss end
  end.

(** *** Questions *)

(** The record a pointer from the hash table points to. *)
Definition deref (us : list maskrec) (p : Z) : result mfault maskrec :=
  match List.find (fun r => m_ptr r =? p) us with Some r => Ok r | None => Err Freed end.

(** The first record with a mask. *)
Fixpoint find_mask (us : list maskrec) (mask : list Z) : list maskrec :=
  match us with
  | [] => []
  | u :: us' => if rfc_casecmp (m_mask u) mask =? 0 then us else find_mask us' mask
  end.

(** A search in the hash table reads the keys it compares: each must be the string of a record
    of the list, since the strings that are freed were strings of records. *)
Definition alive (us : list maskrec) (k : mask_key) : bool := existsb (fun r => m_text r =? k_text k) us.
Definition keys_read (t : op_htab mask_key) (us : list maskrec) (key : mask_key) : result mfault unit :=
  if forallb (alive us) (htab_compared t key) then Ok tt else Err Freed.

(** What [*_mask] asks of the hash table, if there is one. *)
Definition ht_get (t : op_htab mask_key) (us : list maskrec) (mask : list Z) : result mfault (option maskrec) :=
  let! _ := keys_read t us {| k_text := 0; k_str := mask |} in
  let! p := ends (op_htab_get t {| k_text := 0; k_str := mask |}) in
  if p =? 0 then Ok None else let! r := deref us p in Ok (Some r).

Definition sticky_flag (r : option maskrec) : Z :=
  match r with Some u => Z.land (m_flags u) MASKREC_STICKY | None => 0 end.
Definition u_sticky_mask (us : list maskrec) (t : option (op_htab mask_key)) (uhost : list Z) : result mfault Z :=
  match t with
  | Some t => let! r := ht_get t us uhost in Ok (sticky_flag r)
  | None => Ok (sticky_flag (head (find_mask us uhost)))
  end.

Definition equals_flag (r : option maskrec) : Z :=
  match r with Some u => if m_flags u &? MASKREC_PERM then 2 else 1 | None => 0 end.
Definition u_equals_mask (us : list maskrec) (t : option (op_htab mask_key)) (mask : list Z) : result mfault Z :=
  match t with
  | Some t => let! r := ht_get t us mask in Ok (equals_flag r)
  | None => Ok (equals_flag (head (find_mask us mask)))
  end.

Definition u_match_mask (us : list maskrec) (mask : list Z) : Z :=
  if existsb (fun u => negb (match_addr (m_mask u) mask =? 0)) us then 1 else 0.

Definition u_match_mask_trie (us : list maskrec) (trie : option op_cidr_tbl) (mask : list Z) : Z :=
  let hit := match strchr mask (ch "@"), trie with
             | Some host, Some _ => negb (ip_trie_match trie (tail host) =? 0)
             | _, _ => false
             end in
  if hit then 1 else u_match_mask us mask.

(** *** The sticky flag *)

Definition with_flags (u : maskrec) (flags : Z) : maskrec :=
  {| m_ptr := m_ptr u; m_text := m_text u; m_mask := m_mask u; m_desc := m_desc u; m_user := m_user u;
     m_expire := m_expire u; m_added := m_added u; m_lastactive := m_lastactive u; m_flags := flags |}.

(** The loop; the result, the records and the share line. *)
Fixpoint setsticky_loop (chan : option (list Z)) (us : list maskrec) (uhost : list Z) (sticky j : Z)
  : Z * list maskrec * list share :=
  match us with
  | [] => (if 0 <=? j then - j else 0, [], [])
  | u :: us' =>
      let j := if 0 <=? j then j - 1 else j in
      if (j =? 0) || ((j <? 0) && (rfc_casecmp (m_mask u) uhost =? 0)) then
        if sticky <? 0 then (0, us, [])
        else
          let flags := if 0 <? sticky then Z.lor (m_flags u) MASKREC_STICKY
                       else Z.land (m_flags u) (Z.lnot MASKREC_STICKY) in
          (1, with_flags u flags :: us',
           if noshare then [] else [ShareSticky chan (if j =? 0 then m_mask u else uhost) sticky])
      else let '(r, us', out) := setsticky_loop chan us' uhost sticky j in (r, u :: us', out)
  end.
Definition u_setsticky_mask (chan : option (list Z)) (us : list maskrec) (uhost : list Z) (sticky : Z)
  : Z * list maskrec * list share :=
  setsticky_loop chan us uhost sticky (if str_isdigit uhost then egg_atoi uhost else -1).

(** *** Deletion *)

Fixpoint seek (us : list maskrec) (j : Z) : list maskrec * Z :=
  match us with
  | [] => ([], j)
  | _ :: us' => if j =? 0 then (us, j) else seek us' (j - 1)
  end.

(** [*u]: the list from the record that is meant, or the number that is returned. *)
Definition which_mask (us : list maskrec) (who : list Z) : Z + (maskrec * list maskrec) :=
  if negb (mem (ch "!") who) && str_isdigit who then
    match seek us (egg_atoi who - 1) with
    | (u :: us', _) => inr (u, us')
    | ([], j) => inl (- j - 1)
    end
  else match find_mask us who with u :: us' => inr (u, us') | [] => inl 0 end.

(** [op_htab_del] is called before the record is freed. *)
Definition ht_del (t : op_htab mask_key) (us : list maskrec) (key : mask_key) : result mfault (op_htab mask_key) :=
  let! _ := keys_read t us key in let! r := ends (op_htab_del t key) in Ok (snd r).

(** The result, the list, the share line and [lastdeletedmask]. *)
Definition u_delmask (k : kind) (c : masks) (who : list Z) (doit : bool)
  : result mfault (Z * masks * list share * option (list Z)) :=
  match which_mask (recs c) who with
  | inl r => Ok (r, c, [], None)
  | inr (u, us') =>
      if doit then
        let out := if noshare then [] else [ShareDel k (owner c) (str_escape (m_mask u) (ch ":") (ch "\"))] in
        let! t := match ht c with
                  | Some t => let! t := ht_del t (recs c) {| k_text := m_text u; k_str := m_mask u |} in Ok (Some t)
                  | None => Ok None
                  end in
        let trie := match owner c with Some _ => ip_trie_del (ip_trie c) (m_mask u) | None => ip_trie c end in
        let us := take (length (recs c) - S (length us')) (recs c) ++ us' in
        Ok (1, set_recs (set_trie (set_ht c t) trie) us, out, Some (m_mask u))
      else Ok (1, c, [], None)
  end.
Definition u_delban (c : masks) (who : list Z) (doit : bool) := u_delmask Ban c who doit.
Definition u_delexempt (c : masks) (who : list Z) (doit : bool) := u_delmask Exempt c who doit.
Definition u_delinvite (c : masks) (who : list Z) (doit : bool) := u_delmask Invite c who doit.

(** *** Addition *)

Definition fix_broken_mask (oldmask : list Z) : list Z :=
  match strchr oldmask (ch "@"), strchr oldmask (ch "!") with
  | None, None => oldmask ++ bs "!*@*"
  | None, Some _ => oldmask ++ bs "@*"
  | Some strat, None => take (length oldmask - length strat) oldmask ++ bs "!*" ++ strat
  | Some _, Some _ => oldmask
  end.

(** Masks of the channel itself, up to the empty one at the end. *)
Fixpoint count_masklist (m : list (list Z)) : Z :=
  match m with [] => 0 | [] :: _ => 0 | _ :: m => 1 + count_masklist m end.

Definition MAX_BAN_MASK_LEN : Z := 200.
Definition fixed_mask (mask : list Z) : list Z := take (Z.to_nat MAX_BAN_MASK_LEN) (fix_broken_mask mask).

(** A new record at the head, or the one that has the mask, filled in again. *)
Definition fill (u : maskrec) (us : list maskrec) (p : maskrec) : list maskrec :=
  map (fun r => if m_ptr r =? m_ptr u then p else r) us.

(** [op_htab_set] is called when the strings of a record that is filled in again are freed: [us]
    is the list with its new ones. *)
Definition ht_set (t : op_htab mask_key) (us : list maskrec) (key : mask_key) (val : Z) : result mfault (op_htab mask_key) :=
  let! _ := keys_read t us key in let! r := ends (op_htab_set t key val) in Ok (snd r).

(** From the search for the mask on. *)
Definition put_mask (k : kind) (c : masks) (host from note : list Z) (expire_time flags : Z)
  : result mfault (masks * list share) :=
  let old := head (find_mask (recs c) host) in
  let '(flags, note) := match note with 42 :: note' => (Z.lor flags MASKREC_STICKY, note') | _ => (flags, note) end in
  let '(flags, expire_time) :=
    if (expire_time =? 0) || (flags &? MASKREC_PERM) then (Z.lor flags MASKREC_PERM, 0) else (flags, expire_time) in
  let ptr := match old with Some u => m_ptr u | None => fresh c + 1 end in
  let p := {| m_ptr := ptr; m_text := fresh c; m_mask := host; m_desc := note; m_user := from;
              m_expire := expire_time; m_added := now; m_lastactive := 0; m_flags := flags |} in
  let us := match old with Some u => fill u (recs c) p | None => p :: recs c end in
  let! t := match ht c with
            | Some t => let! t := ht_set t us {| k_text := m_text p; k_str := host |} ptr in Ok (Some t)
            | None => Ok None
            end in
  let trie := match owner c with Some _ => ip_trie_add (ip_trie c) host ptr | None => ip_trie c end in
  let out := if noshare then []
             else [ShareAdd k (owner c) (str_escape host (ch ":") (ch "\")) (expire_time - now)
                            (flags &? MASKREC_STICKY) (flags &? MASKREC_PERM) from note] in
  Ok ({| owner := owner c; recs := us; ht := t; ip_trie := trie; fresh := fresh c + 2 |}, out).

(** The masks on the channel count only for a list of a channel; [me] is the bot's
    nick!user@host when the server module is loaded. *)
Definition list_full (c : masks) (on_chan : list (list Z)) (limit : Z) : bool :=
  match owner c with Some _ => limit <=? count_masklist on_chan | None => false end.

Definition u_addban (c : masks) (on_chan : list (list Z)) (limit : Z) (me : option (list Z))
  (ban from note : list Z) (expire_time flags : Z) : result mfault (Z * masks * list share) :=
  let host := fixed_mask ban in
  if list_full c on_chan limit then Ok (0, c, [])
  else if match me with Some s => negb (match_addr host s =? 0) | None => false end then Ok (0, c, [])
  else if expire_time =? now then Ok (1, c, [])
  else let! r := put_mask Ban c host from note expire_time flags in Ok (1, fst r, snd r).

Definition u_addinvite (c : masks) (on_chan : list (list Z)) (limit : Z)
  (invite from note : list Z) (expire_time flags : Z) : result mfault (Z * masks * list share) :=
  if list_full c on_chan limit then Ok (0, c, [])
  else let! r := put_mask Invite c (fixed_mask invite) from note expire_time flags in Ok (1, fst r, snd r).
Definition u_addexempt (c : masks) (on_chan : list (list Z)) (limit : Z)
  (exempt from note : list Z) (expire_time flags : Z) : result mfault (Z * masks * list share) :=
  if list_full c on_chan limit then Ok (0, c, [])
  else let! r := put_mask Exempt c (fixed_mask exempt) from note expire_time flags in Ok (1, fst r, snd r).

(** *** The user file *)

Definition addmask_fully (m : masks) (mask from note : list Z) (expire_time flags added last : Z) : masks :=
  let p := {| m_ptr := fresh m + 1; m_text := fresh m; m_mask := mask; m_desc := note; m_user := from;
              m_expire := expire_time; m_added := added; m_lastactive := last; m_flags := flags |} in
  {| owner := owner m; recs := p :: recs m; ht := ht m; ip_trie := ip_trie m; fresh := fresh m + 2 |}.

(** A new list of masks in the file: [clear_masks], and the head set to NULL. *)
Definition new_list (m : masks) : masks := set_recs m [].

End MaskLists.

(** The lists of a new channel, and the global ones. *)
Definition channel_masks (dname : list Z) : masks :=
  {| owner := Some dname; recs := []; ht := Some (op_htab_create 16); ip_trie := None; fresh := 1 |}.
Definition global_masks (cap : Z) : masks :=
  {| owner := None; recs := []; ht := Some (op_htab_create cap); ip_trie := None; fresh := 1 |}.
