(* ===== verification/MaskProps.v ===== *)
(** * The hash table of a mask list

    As long as a list is changed by adding new masks, deleting and marking masks only, its hash
    table answers what the list answers.  Adding a mask that is there already frees the string
    that is its key and then compares with it.  The user file breaks the index, too. *)

From stdpp Require Import gmap list.
From S2P Require Import Htab HtabRing HtabMap CidrTbl CidrProps Prelude LibC Wildcard Rfc1459 Inet Match Strings MaskLists.
#[local] Open Scope Z_scope.

#[export] Program Instance mask_laws : HtabKeyLaws mask_key (list Z) := {| norm k := map istr_fold (k_str k) |}.
Next Obligation. intros [pa a] [pb b]. apply streq_eq. Qed.
Next Obligation. intros [pa a] [pb b]. cbn. exact (hash_norm (IstrKey a) (IstrKey b)). Qed.
Next Obligation. intros [pa a]. exact (hash_range (IstrKey a)). Qed.

(** ** The hash table as an index of the list *)

Definition fold_of (r : maskrec) : list Z := map istr_fold (m_mask r).
Definition pair (r : maskrec) : list Z * Z := (fold_of r, m_ptr r).
Definition index_of (us : list maskrec) : gmap (list Z) Z := list_to_map (map pair us).

Record list_ok (us : list maskrec) (next : Z) : Prop := {
  lo_folds : NoDup (map fold_of us);
  lo_ptrs : NoDup (map m_ptr us);
  lo_texts : NoDup (map m_text us);
  lo_fresh : Forall (fun r => 0 < m_ptr r < next) us;
  lo_old : Forall (fun r => m_text r < next) us;
  lo_cstr : Forall (fun r => cstr (m_mask r)) us
}.
Record listed (c : masks) : Prop := { ls_list : list_ok (recs c) (fresh c); ls_fresh : 0 < fresh c }.

(** Every key of the table is the string of the record that it leads to. *)
Definition ident (r : maskrec) : Z * Z := (m_ptr r, m_text r).
Definition keyed (us : list maskrec) (t : op_htab mask_key) : Prop :=
  forall x k v, abs t !! x = Some (k, v) -> In (v, k_text k) (map ident us).

Record indexed (c : masks) (n : Z) : Prop := {
  ix_table : exists t, ht c = Some t /\ wf t /\ small n t /\ snd <$> abs t = index_of (recs c) /\ keyed (recs c) t;
  ix_listed : listed c
}.

Lemma pair_keys us : (map pair us).*1 = map fold_of us.
Proof. rewrite map_map. apply map_ext. done. Qed.

Lemma index_in us r : NoDup (map fold_of us) -> In r us -> index_of us !! fold_of r = Some (m_ptr r).
Proof.
  intros Hn Hr. apply elem_of_list_to_map; [by rewrite pair_keys|]. apply list_elem_of_In. by apply (in_map pair).
Qed.

Lemma index_None us n : index_of us !! n = None <-> forall r, In r us -> fold_of r <> n.
Proof.
  unfold index_of. split.
  - intros H%not_elem_of_list_to_map_2 r Hr <-. apply H. rewrite pair_keys, list_elem_of_In. by apply in_map.
  - intros H. apply not_elem_of_list_to_map_1. rewrite pair_keys, list_elem_of_In. intros (r & E & Hr)%in_map_iff. exact (H r Hr E).
Qed.

(** *** The walk along the list *)

Lemma find_mask_suffix rc us mask : exists pre, us = pre ++ find_mask rc us mask.
Proof.
  induction us as [|u us [pre E]]; [by exists []|]. cbn. destruct (_ =? 0); [by exists []|].
  exists (u :: pre). cbn. by rewrite <- E.
Qed.

Lemma find_mask_head us mask : Forall (fun r => cstr (m_mask r)) us -> cstr mask ->
  match find_mask _rfc_casecmp us mask with
  | r :: _ => In r us /\ fold_of r = map istr_fold mask
  | [] => forall r, In r us -> fold_of r <> map istr_fold mask
  end.
Proof.
  intros Hus Hm. induction Hus as [|u us Hu Hus IH]; [by intros r []|]. cbn [find_mask].
  pose proof (casecmp_istr (m_mask u) mask Hu Hm) as Hc.
  destruct (Z.eqb_spec (_rfc_casecmp (m_mask u) mask) 0) as [E|E].
  - split; [by left|]. by apply Hc.
  - destruct (find_mask _rfc_casecmp us mask) as [|r rest].
    + intros r [<-|Hr]; [|by apply IH]. intros Ef. by apply E, Hc.
    + destruct IH as [? ?]. split; [by right|done].
Qed.

Lemma head_fold us mask r : NoDup (map fold_of us) -> Forall (fun r => cstr (m_mask r)) us -> cstr mask ->
  In r us -> fold_of r = map istr_fold mask -> head (find_mask _rfc_casecmp us mask) = Some r.
Proof.
  intros Hn Hus Hm Hr Ef. pose proof (find_mask_head us mask Hus Hm) as Hh.
  destruct (find_mask _rfc_casecmp us mask) as [|r' rest]; [by destruct (Hh r Hr)|]. destruct Hh as [Hr' Ef'].
  cbn. f_equal. clear -Hn Hr Hr' Ef Ef'. induction us as [|u us IH]; [done|]. cbn in Hn. apply NoDup_cons in Hn as [Hni Hn].
  rewrite list_elem_of_In in Hni.
  destruct Hr as [<-|Hr], Hr' as [<-|Hr']; [done| | |by apply IH].
  - destruct Hni. rewrite Ef, <- Ef'. by apply in_map.
  - destruct Hni. rewrite Ef', <- Ef. by apply in_map.
Qed.

Lemma deref_in us r : NoDup (map m_ptr us) -> In r us -> deref us (m_ptr r) = Ok r.
Proof.
  intros Hn Hr. unfold deref. induction us as [|u us IH]; [done|]. cbn in Hn |- *. apply NoDup_cons in Hn as [Hni Hn].
  rewrite list_elem_of_In in Hni. destruct Hr as [->|Hr]; [by rewrite Z.eqb_refl|].
  destruct (Z.eqb_spec (m_ptr u) (m_ptr r)) as [E|E]; [|by apply IH]. destruct Hni. rewrite E. by apply in_map.
Qed.

(** *** Asking the table *)

Lemma alive_in us k v : In (v, k_text k) (map ident us) -> alive us k = true.
Proof. intros (r & [= _ E] & Hr)%in_map_iff. unfold alive. apply existsb_exists. exists r. split; [done|]. by apply Z.eqb_eq. Qed.

Lemma keys_read_ok us us' t key : wf t -> keyed us t -> (forall x, In x (map m_text us) -> In x (map m_text us')) ->
  keys_read t us' key = Ok tt.
Proof.
  intros W K Hs. unfold keys_read. rewrite (proj2 (forallb_forall _ _)); [done|]. intros k Hk.
  destruct (compared_abs t key k W Hk) as (v & Ha). apply K in Ha. apply in_map_iff in Ha as (r & [= _ E] & Hr).
  assert (Hx : In (m_text r) (map m_text us')) by (by apply Hs, in_map). apply in_map_iff in Hx as (r' & E' & Hr').
  unfold alive. apply existsb_exists. exists r'. split; [done|]. apply Z.eqb_eq. congruence.
Qed.

Lemma keys_read_same us t key : wf t -> keyed us t -> keys_read t us key = Ok tt.
Proof. intros W K. by apply (keys_read_ok us). Qed.

Lemma index_value us t x : snd <$> abs t = index_of us -> snd <$> abs t !! x = index_of us !! x.
Proof. intros A. by rewrite <- A, lookup_fmap. Qed.

Lemma ht_get_spec c n t mask : indexed c n -> ht c = Some t -> cstr mask ->
  ht_get t (recs c) mask = Ok (head (find_mask _rfc_casecmp (recs c) mask)).
Proof.
  intros [(t' & Et & W & S & A & K) [[Lf Lp _ Lx _ Lc] F]] Ht Hm. rewrite Ht in Et. injection Et as <-.
  unfold ht_get. rewrite (keys_read_same (recs c)) by done. cbn [rbind]. rewrite htab_get_spec by done. cbn [ends rbind].
  unfold value_at. cbn [norm mask_laws k_str]. pose proof (index_value _ _ (map istr_fold mask) A) as E.
  pose proof (find_mask_head (recs c) mask Lc Hm) as Hh.
  destruct (find_mask _rfc_casecmp (recs c) mask) as [|r rest].
  - apply index_None in Hh. rewrite Hh in E. by destruct (abs t !! _).
  - destruct Hh as [Hr Ef]. rewrite <- Ef in E |- *. rewrite (index_in _ r) in E by done.
    destruct (abs t !! fold_of r) as [[k v]|]; [|done]. cbn in E. injection E as ->.
    rewrite List.Forall_forall in Lx. specialize (Lx r Hr). rewrite (proj2 (Z.eqb_neq _ 0)) by lia.
    by rewrite (deref_in _ r).
Qed.

(** ** Keeping the index *)

(** The records stand for the same masks and addresses. *)
Lemma list_ok_pairs us us' next next' : map pair us' = map pair us -> Forall (fun r => cstr (m_mask r)) us' ->
  NoDup (map m_text us') -> Forall (fun r => m_text r < next') us' -> next <= next' ->
  list_ok us next -> list_ok us' next' /\ index_of us' = index_of us.
Proof.
  intros E Hc Ht Ho Hn [Hf Hp _ Hx _ _]. assert (Ef : map fold_of us' = map fold_of us).
  { rewrite <- !pair_keys. by rewrite E. }
  assert (Ep : map m_ptr us' = map m_ptr us).
  { apply (f_equal (map snd)) in E. by rewrite !map_map in E. }
  split; [|unfold index_of; by rewrite E]. split; [by rewrite Ef|by rewrite Ep|done| |done|done].
  rewrite List.Forall_forall in Hx |- *. intros r Hr.
  assert (Hin : In (m_ptr r) (map m_ptr us)) by (rewrite <- Ep; by apply in_map).
  apply in_map_iff in Hin as (r' & <- & Hr'). specialize (Hx r' Hr'). lia.
Qed.

Lemma same_mask_ptr us u r : NoDup (map m_ptr us) -> In u us -> In r us -> m_ptr r = m_ptr u -> r = u.
Proof. intros Hn Hu Hr E. pose proof (deref_in us r Hn Hr) as H1. rewrite E, (deref_in us u Hn Hu) in H1. congruence. Qed.

Lemma fill_pairs us u p : NoDup (map m_ptr us) -> In u us -> pair p = pair u -> map pair (fill u us p) = map pair us.
Proof.
  intros Hn Hu Hp. unfold fill. rewrite map_map. apply map_ext_in. intros r Hr.
  destruct (Z.eqb_spec (m_ptr r) (m_ptr u)) as [E|]; [|done]. rewrite Hp. f_equal. symmetry. by apply (same_mask_ptr us).
Qed.

(** Only the new string of the record is not of the others; its old one is gone. *)
Lemma fill_text us u p x : In x (map m_text (fill u us p)) -> x = m_text p \/ exists r, In r us /\ m_ptr r <> m_ptr u /\ m_text r = x.
Proof.
  intros (r' & <- & (r & <- & Hr)%in_map_iff)%in_map_iff. destruct (Z.eqb_spec (m_ptr r) (m_ptr u)); [by left|right; by exists r].
Qed.

Lemma fill_texts us u p : NoDup (map m_ptr us) -> NoDup (map m_text us) -> ~ In (m_text p) (map m_text us) ->
  NoDup (map m_text (fill u us p)).
Proof.
  induction us as [|r us IH]; intros Hp Ht Hn; [constructor|]. cbn [map] in *. cbn [In] in Hn. apply NoDup_cons in Hp as [Hpr Hp], Ht as [Htr Ht].
  rewrite list_elem_of_In in Hpr, Htr. unfold fill in *. cbn [map]. apply NoDup_cons. rewrite list_elem_of_In.
  destruct (Z.eqb_spec (m_ptr r) (m_ptr u)) as [Er|Er].
  - assert (Em : map (fun r => if m_ptr r =? m_ptr u then p else r) us = us).
    { rewrite <- (map_id us) at 2. apply map_ext_in. intros x Hx. destruct (Z.eqb_spec (m_ptr x) (m_ptr u)) as [Ex|]; [|done].
      destruct Hpr. rewrite Er, <- Ex. by apply in_map. }
    rewrite Em. tauto.
  - split; [|apply IH; tauto]. intros [E|(x & Hx & _ & Ex)]%fill_text; [tauto|]. apply Htr. rewrite <- Ex. by apply in_map.
Qed.

Lemma list_ok_cons us next p : list_ok us next -> (forall r, In r us -> fold_of r <> fold_of p) -> cstr (m_mask p) ->
  0 < next -> m_ptr p = next + 1 -> m_text p = next -> list_ok (p :: us) (next + 2) /\ index_of (p :: us) = <[fold_of p := m_ptr p]> (index_of us).
Proof.
  intros [Hf Hp Ht Hx Ho Hc] Hn Hpc Hpos Ep Et. split; [|done]. rewrite List.Forall_forall in Hx, Ho.
  split; cbn [map].
  - apply NoDup_cons_2; [|done]. rewrite list_elem_of_In. intros (r & E & Hr)%in_map_iff. exact (Hn r Hr E).
  - apply NoDup_cons_2; [|done]. rewrite list_elem_of_In. intros (r & E & Hr)%in_map_iff. specialize (Hx r Hr). lia.
  - apply NoDup_cons_2; [|done]. rewrite list_elem_of_In. intros (r & E & Hr)%in_map_iff. specialize (Ho r Hr). cbn in Ho. lia.
  - constructor; [lia|]. apply List.Forall_forall. intros r Hr. specialize (Hx r Hr). lia.
  - constructor; [lia|]. apply List.Forall_forall. intros r Hr. specialize (Ho r Hr). cbn in Ho. lia.
  - by constructor.
Qed.

Lemma list_ok_remove pre u us next : list_ok (pre ++ u :: us) next ->
  list_ok (pre ++ us) next /\ index_of (pre ++ us) = delete (fold_of u) (index_of (pre ++ u :: us)).
Proof.
  intros [Hf Hp Ht Hx Ho Hc]. assert (HP : pre ++ u :: us ≡ₚ u :: pre ++ us) by (symmetry; apply Permutation_middle).
  rewrite HP in Hx, Ho, Hc. apply Forall_cons in Hx as [_ Hx], Ho as [_ Ho], Hc as [_ Hc].
  rewrite (Permutation_map m_ptr HP) in Hp. rewrite (Permutation_map m_text HP) in Ht. pose proof Hf as Hf0. rewrite (Permutation_map fold_of HP) in Hf.
  cbn in Hf, Hp, Ht. apply NoDup_cons in Hf as [Hnf Hf], Hp as [Hnp Hp], Ht as [Hnt Ht].
  split; [by split|]. unfold index_of. rewrite (list_to_map_proper (map pair (pre ++ u :: us)) (map pair (u :: pre ++ us))).
  - symmetry. rewrite list_elem_of_In in Hnf.
    change (delete (fold_of u) (<[fold_of u := m_ptr u]> (index_of (pre ++ us))) = index_of (pre ++ us)).
    apply delete_insert_id. apply index_None. intros r Hr E. apply Hnf. rewrite <- E. by apply in_map.
  - by rewrite pair_keys.
  - by apply Permutation_map.
Qed.


(** ** The operations on the index *)

Lemma cstr_in_fix mask : cstr mask -> cstr (fixed_mask mask).
Proof.
  intros Hm. unfold fixed_mask. unfold cstr. apply Forall_take. fold (cstr (fix_broken_mask mask)).
  assert (Hb : cstr (bs "!*@*") /\ cstr (bs "@*") /\ cstr (bs "!*")) by (repeat split; repeat constructor; lia).
  destruct Hb as (B1 & B2 & B3). unfold fix_broken_mask.
  destruct (strchr mask (ch "@")) as [strat|] eqn:Ea, (strchr mask (ch "!")); rewrite ?cstr_app; try done.
  split; [by apply Forall_take|]. split; [done|]. clear -Hm Ea. revert strat Ea. induction mask as [|d mask IH]; [done|].
  intros strat. cbn. destruct (d =? 64); [by intros [= <-]|]. apply cstr_cons in Hm as [_ Hm]. by apply IH.
Qed.

(** What is left to know of an operation: where its records come from. *)
Definition kept (us us' : list maskrec) : Prop := forall r, In r us -> exists r', In r' us' /\ fold_of r' = fold_of r.

Lemma put_records us next p : list_ok us next -> 0 < next -> cstr (m_mask p) -> m_text p = next ->
  let old := head (find_mask _rfc_casecmp us (m_mask p)) in
  let us' := match old with Some u => fill u us p | None => p :: us end in
  m_ptr p = match old with Some u => m_ptr u | None => next + 1 end ->
  list_ok us' (next + 2) /\ index_of us' = <[fold_of p := m_ptr p]> (index_of us) /\ In p us' /\ 0 < m_ptr p /\ kept us us'.
Proof.
  intros L F Hh Et old us' Ep. pose proof (find_mask_head us (m_mask p) (lo_cstr _ _ L) Hh) as Hhead.
  pose proof (lo_fresh _ _ L) as Hx. rewrite List.Forall_forall in Hx. pose proof (lo_old _ _ L) as Ho. rewrite List.Forall_forall in Ho.
  unfold us', old in *. destruct (find_mask _rfc_casecmp us (m_mask p)) as [|u rest]; cbn [head hd_error] in *.
  - destruct (list_ok_cons us next p L Hhead Hh F Ep Et) as [HL HI].
    split; [done|]. split; [done|]. split; [by left|]. split; [lia|]. intros r Hr. exists r. split; [by right|done].
  - destruct Hhead as [Hu Ef]. specialize (Hx u Hu).
    assert (Hp : pair p = pair u) by (unfold pair; rewrite Ef, Ep; done).
    pose proof (fill_pairs us u p (lo_ptrs _ _ L) Hu Hp) as Hfp.
    assert (Hin : In p (fill u us p)) by (apply in_map_iff; exists u; by rewrite Z.eqb_refl).
    assert (Hc : Forall (fun r => cstr (m_mask r)) (fill u us p)).
    { apply List.Forall_forall. intros r (r' & <- & Hr')%in_map_iff. destruct (_ =? _); [done|].
      pose proof (lo_cstr _ _ L) as Hc. rewrite List.Forall_forall in Hc. by apply Hc. }
    assert (Hn : ~ In (m_text p) (map m_text us)) by (rewrite Et; intros (r & E & Hr)%in_map_iff; specialize (Ho r Hr); cbn in Ho; lia).
    assert (Hlt : Forall (fun r => m_text r < next + 2) (fill u us p)).
    { apply List.Forall_forall. intros r (r' & <- & Hr')%in_map_iff. destruct (_ =? _); [lia|]. specialize (Ho r' Hr'). cbn in Ho. lia. }
    destruct (list_ok_pairs us _ next (next + 2) Hfp Hc (fill_texts us u p (lo_ptrs _ _ L) (lo_texts _ _ L) Hn) Hlt ltac:(lia) L) as [HL HI].
    split; [done|]. split; [|split; [done|split; [lia|]]].
    + rewrite HI. symmetry. apply insert_id. change (fold_of p) with (map istr_fold (m_mask p)). rewrite <- Ef, Ep.
      apply index_in; [apply (lo_folds _ _ L)|done].
    + intros r Hr. assert (Hq : In (pair r) (map pair (fill u us p))) by (rewrite Hfp; by apply in_map).
      apply in_map_iff in Hq as (r' & E' & Hr'). exists r'. split; [done|]. by injection E'.
Qed.

(** *** The table, with its keys *)

Lemma ht_set_new us t p n : wf t -> small n t -> 0 <= n <= 2 ^ 50 -> snd <$> abs t = index_of us -> keyed us t ->
  (forall r, In r us -> fold_of r <> fold_of p) ->
  exists t', ht_set t (p :: us) {| k_text := m_text p; k_str := m_mask p |} (m_ptr p) = Ok t' /\ wf t' /\ small (n + 1) t' /\
    snd <$> abs t' = index_of (p :: us) /\ keyed (p :: us) t'.
Proof.
  intros W S Hn A K Hf. set (key := {| k_text := m_text p; k_str := m_mask p |}). unfold ht_set.
  rewrite (keys_read_ok us) by (done || (intros x Hx; by right)). cbn [rbind].
  destruct (htab_set_spec t key (m_ptr p) W) as (t' & E & W' & A' & C' & G'); [destruct S; lia|].
  assert (Hnone : abs t !! norm key = None).
  { pose proof (index_value us t (fold_of p) A) as Ev. rewrite (proj2 (index_None us (fold_of p)) Hf) in Ev. change (norm key) with (fold_of p). by destruct (abs t !! fold_of p). }
  rewrite E, Hnone. rewrite Hnone in A'. cbn [ends rbind snd]. exists t'. split; [done|]. split; [done|]. split; [by apply (small_grown n t)|].
  split; [rewrite A', fmap_insert, A; done|]. intros x k v. rewrite A'. destruct (decide (x = norm key)) as [->|Hne].
  - rewrite lookup_insert_eq. intros [= <- <-]. by left.
  - rewrite lookup_insert_ne by done. intros Hx%K. by right.
Qed.

(** The string of the record is the key, and it has been freed. *)
Lemma ht_set_freed us t u p next : wf t -> snd <$> abs t = index_of us -> keyed us t -> list_ok us next -> In u us ->
  fold_of p = fold_of u -> m_text p = next -> ht_set t (fill u us p) {| k_text := m_text p; k_str := m_mask p |} (m_ptr p) = Err Freed.
Proof.
  intros W A K L Hu Ef Et. set (key := {| k_text := m_text p; k_str := m_mask p |}).
  pose proof (index_value us t (fold_of u) A) as Ev. rewrite (index_in _ u (lo_folds _ _ L) Hu) in Ev.
  destruct (abs t !! fold_of u) as [[k v]|] eqn:Ea; [|done]. injection Ev as ->.
  assert (Ek : norm key = fold_of u) by done. rewrite <- Ek in Ea. pose proof (compared_found t key k _ W Ea) as Hk.
  apply K in Ea. apply in_map_iff in Ea as (r & [= Ep Etx] & Hr). pose proof (same_mask_ptr us u r (lo_ptrs _ _ L) Hu Hr Ep) as ->.
  unfold ht_set, keys_read. destruct (forallb _ _) eqn:Ef2; [|done]. rewrite forallb_forall in Ef2. specialize (Ef2 k Hk).
  apply existsb_exists in Ef2 as (r & Hr' & Er%Z.eqb_eq). rewrite <- Etx in Er.
  assert (Hin : In (m_text u) (map m_text (fill u us p))) by (rewrite <- Er; by apply in_map).
  pose proof (lo_old _ _ L) as Ho. rewrite List.Forall_forall in Ho. pose proof (Ho u Hu) as Hou. cbn in Hou.
  apply fill_text in Hin as [E|(x & Hx & Hne & Ex)]; [lia|]. destruct Hne. f_equal.
  pose proof (lo_texts _ _ L) as Hn. clear -Hn Hx Hu Ex. induction us as [|y us IH]; [done|]. cbn in Hn. apply NoDup_cons in Hn as [Hy Hn].
  rewrite list_elem_of_In in Hy. destruct Hx as [<-|Hx], Hu as [<-|Hu]; [done| | |by apply IH]; destruct Hy; [rewrite Ex|rewrite <- Ex]; by apply in_map.
Qed.

Lemma ht_del_ok pre u us t n next : wf t -> small n t -> snd <$> abs t = index_of (pre ++ u :: us) -> keyed (pre ++ u :: us) t ->
  list_ok (pre ++ u :: us) next ->
  exists t', ht_del t (pre ++ u :: us) {| k_text := m_text u; k_str := m_mask u |} = Ok t' /\ wf t' /\ small (n + 1) t' /\
    snd <$> abs t' = index_of (pre ++ us) /\ keyed (pre ++ us) t'.
Proof.
  intros W S A K L. set (key := {| k_text := m_text u; k_str := m_mask u |}). unfold ht_del.
  rewrite (keys_read_same (pre ++ u :: us)) by done. cbn [rbind]. destruct (htab_del_spec t key W) as (t' & E & W' & A' & C' & Hl').
  rewrite E. cbn [ends rbind snd]. destruct (list_ok_remove pre u us next L) as [_ HI]. exists t'. split; [done|]. split; [done|].
  split; [destruct S; split; lia|]. split; [rewrite A', fmap_delete, A, HI; done|]. intros x k v. rewrite A'.
  destruct (decide (x = norm key)) as [->|Hne]; [by rewrite lookup_delete_eq|]. rewrite lookup_delete_ne by done. intros Hx.
  pose proof (index_value _ t x A) as Ev. rewrite Hx in Ev. apply K in Hx. apply in_map_iff in Hx as (r & Er & Hr).
  rewrite <- Er. apply in_map. apply in_app_iff in Hr as [Hr|[<-|Hr]]; [apply in_app_iff; by left| |apply in_app_iff; by right].
  injection Er as <- _. symmetry in Ev. apply elem_of_list_to_map_2, list_elem_of_In, in_map_iff in Ev as (y & [= Ey Epy] & Hy).
  assert (y = u) as -> by (apply (same_mask_ptr (pre ++ u :: us)); [apply (lo_ptrs _ _ L)|apply in_app_iff; right; by left|done|done]).
  by destruct Hne.
Qed.

Section Ops.
Context (inet_pton : Z -> list Z -> option (list Z)) (noshare : bool).

(** Lists without a table: nothing can go wrong. *)
Lemma put_mask_lists now k c host from note expire flags c' out : listed c -> cstr host ->
  put_mask inet_pton _rfc_casecmp noshare now k c host from note expire flags = Ok (c', out) ->
  listed c' /\ owner c' = owner c /\ exists p, In p (recs c') /\ m_mask p = host /\ m_ptr p <> 0 /\
    ip_trie c' = (match owner c with Some _ => ip_trie_add inet_pton (ip_trie c) host (m_ptr p) | None => ip_trie c end) /\
    kept (recs c) (recs c').
Proof.
  intros [L F] Hh. unfold put_mask.
  destruct (match note with 42 :: note' => _ | _ => _ end) as [flags1 note1].
  destruct (if (expire =? 0) || _ then _ else _) as [flags2 expire2].
  set (ptr := match head _ with Some u => m_ptr u | None => fresh c + 1 end). set (p := {| m_ptr := ptr |}).
  destruct (put_records (recs c) (fresh c) p L F Hh eq_refl eq_refl) as (HL & _ & Hp & Hpos & Hk).
  change (m_mask p) with host in *. intros (t & _ & E)%rbind_Ok_inv. injection E as <- _. cbn [recs owner ip_trie fresh].
  split; [split; cbn [recs fresh]; [done|lia]|]. split; [done|]. exists p. split; [done|]. split; [done|]. split; [lia|]. by split.
Qed.

Lemma put_mask_strip now k c host from note expire flags c' out :
  put_mask inet_pton _rfc_casecmp noshare now k c host from note expire flags = Ok (c', out) ->
  put_mask inet_pton _rfc_casecmp noshare now k (set_ht c None) host from note expire flags = Ok (set_ht c' None, out).
Proof.
  unfold put_mask. destruct (match note with 42 :: note' => _ | _ => _ end) as [flags1 note1].
  destruct (if (expire =? 0) || _ then _ else _) as [flags2 expire2]. intros (t & _ & E)%rbind_Ok_inv. by injection E as <- <-.
Qed.

Lemma put_mask_total now k c host from note expire flags : ht c = None ->
  exists c' out, put_mask inet_pton _rfc_casecmp noshare now k c host from note expire flags = Ok (c', out) /\ ht c' = None.
Proof.
  intros E. unfold put_mask. destruct (match note with 42 :: note' => _ | _ => _ end) as [flags1 note1].
  destruct (if (expire =? 0) || _ then _ else _) as [flags2 expire2]. rewrite E. by eexists _, _.
Qed.

(** With its table: a new mask is entered, and one that is there reads what has been freed. *)
Lemma put_mask_table now k c n host from note expire flags : indexed c n -> cstr host -> 0 <= n <= 2 ^ 50 ->
  match find_mask _rfc_casecmp (recs c) host with
  | [] => exists c' out, put_mask inet_pton _rfc_casecmp noshare now k c host from note expire flags = Ok (c', out) /\ indexed c' (n + 1)
  | _ :: _ => put_mask inet_pton _rfc_casecmp noshare now k c host from note expire flags = Err Freed
  end.
Proof.
  intros [(t & Et & W & S & A & K) HL] Hh Hn. pose proof HL as [L F].
  pose proof (find_mask_head (recs c) host (lo_cstr _ _ L) Hh) as Hhead.
  pose proof (fun c' out => put_mask_lists now k c host from note expire flags c' out HL Hh) as Hlists.
  unfold put_mask in *. destruct (match note with 42 :: note' => _ | _ => _ end) as [flags1 note1].
  destruct (if (expire =? 0) || _ then _ else _) as [flags2 expire2]. rewrite Et in *.
  destruct (find_mask _rfc_casecmp (recs c) host) as [|u rest]; cbn [head hd_error] in *.
  - set (p := {| m_ptr := fresh c + 1; m_text := fresh c |}) in *.
    destruct (ht_set_new (recs c) t p n W S Hn A K Hhead) as (t' & E & H1 & H2 & H3 & H4).
    change (m_mask p) with host in E. change (m_ptr p) with (fresh c + 1) in E. rewrite E in *. cbn [rbind] in *. eexists _, _. split; [reflexivity|].
    split; [|by destruct (Hlists _ _ eq_refl)]. cbn [ht recs]. by exists t'.
  - destruct Hhead as [Hu Ef]. set (p := {| m_ptr := m_ptr u; m_text := fresh c |}).
    pose proof (ht_set_freed (recs c) t u p (fresh c) W A K L Hu (eq_sym Ef) eq_refl) as E.
    change (m_mask p) with host in E. change (m_ptr p) with (m_ptr u) in E. by rewrite E.
Qed.

(** Which record a deletion is for. *)
Lemma which_mask_in us who : match which_mask _rfc_casecmp us who with
  | inr (u, us') => exists pre, us = pre ++ u :: us' /\ length pre = (length us - S (length us'))%nat
  | inl _ => True
  end.
Proof.
  assert (H : forall pre u us', us = pre ++ u :: us' -> length pre = (length us - S (length us'))%nat).
  { intros pre u us' ->. rewrite length_app. cbn. lia. }
  unfold which_mask. destruct (_ && _).
  - assert (Hs : forall us j, exists pre, us = pre ++ fst (seek us j)).
    { clear. induction us as [|u us IH]; intros j; [by exists []|]. cbn. destruct (j =? 0); [by exists []|].
      destruct (IH (j - 1)) as [pre E]. exists (u :: pre). cbn. by rewrite <- E. }
    destruct (Hs us (egg_atoi who - 1)) as [pre E]. destruct (seek us (egg_atoi who - 1)) as [[|u us'] j]; [done|].
    exists pre. split; [exact E|exact (H pre u us' E)].
  - destruct (find_mask_suffix _rfc_casecmp us who) as [pre E].
    destruct (find_mask _rfc_casecmp us who) as [|u us']; [done|]. exists pre. split; [exact E|exact (H pre u us' E)].
Qed.

(** The list goes on without one record, or is what it was. *)
Lemma del_mask_lists k c who doit r c' out last : listed c ->
  u_delmask inet_pton _rfc_casecmp noshare k c who doit = Ok (r, c', out, last) ->
  listed c' /\ owner c' = owner c /\
    (c' = c \/ exists u, In u (recs c) /\
       ip_trie c' = (match owner c with Some _ => ip_trie_del inet_pton (ip_trie c) (m_mask u) | None => ip_trie c end) /\
       forall r, In r (recs c) -> fold_of r = fold_of u \/ In r (recs c')).
Proof.
  intros HL. pose proof HL as [L F]. unfold u_delmask.
  pose proof (which_mask_in (recs c) who) as Hw. destruct (which_mask _ (recs c) who) as [x|[u us']]; [by intros [= _ <- _ _]; auto|].
  destruct Hw as (pre & Er & Hlen). destruct doit; [|by intros [= _ <- _ _]; auto].
  intros (t & _ & E)%rbind_Ok_inv. injection E as _ <- _ _. rewrite <- Hlen.
  assert (Etake : take (length pre) (recs c) = pre) by (rewrite Er; apply take_app_length).
  rewrite Er in L. destruct (list_ok_remove pre u us' (fresh c) L) as [HL' _].
  split; [split; cbn [recs fresh set_recs set_trie set_ht]; rewrite ?Etake; done|]. split; [done|right].
  exists u. cbn [ip_trie recs set_recs set_trie]. rewrite Etake, Er. split; [apply in_or_app; right; by left|]. split; [done|].
  intros r' [Hr|[<-|Hr]]%in_app_or; [right|by left|right]; apply in_or_app; tauto.
Qed.

Lemma del_mask_strip k c who doit r c' out last :
  u_delmask inet_pton _rfc_casecmp noshare k c who doit = Ok (r, c', out, last) ->
  u_delmask inet_pton _rfc_casecmp noshare k (set_ht c None) who doit = Ok (r, set_ht c' None, out, last).
Proof.
  unfold u_delmask. cbn [recs set_ht]. destruct (which_mask _ (recs c) who) as [x|[u us']]; [by intros [= <- <- <- <-]|].
  destruct doit; [|by intros [= <- <- <- <-]]. intros (t & _ & E)%rbind_Ok_inv. by injection E as <- <- <- <-.
Qed.

Lemma del_mask_total k c who doit : ht c = None ->
  exists r c' out last, u_delmask inet_pton _rfc_casecmp noshare k c who doit = Ok (r, c', out, last) /\ ht c' = None.
Proof.
  intros E. unfold u_delmask. destruct (which_mask _ (recs c) who) as [x|[u us']]; [by eexists _, _, _, _|].
  destruct doit; [rewrite E|]; by eexists _, _, _, _.
Qed.

Lemma indexed_more c n : indexed c n -> indexed c (n + 1).
Proof.
  intros [(t & Et & W & [S1 S2] & A & K) L]. split; [|done]. exists t. do 2 (split; [done|]). split; [split; lia|done].
Qed.

Lemma del_mask_table k c n who doit : indexed c n -> 0 <= n ->
  exists r c' out last, u_delmask inet_pton _rfc_casecmp noshare k c who doit = Ok (r, c', out, last) /\ indexed c' (n + 1).
Proof.
  intros I Hn. pose proof (indexed_more c n I) as I1. destruct I as [(t & Et & W & S & A & K) HL]. pose proof HL as [L F].
  pose proof (fun r c' out last => del_mask_lists k c who doit r c' out last HL) as Hlists. unfold u_delmask in *.
  pose proof (which_mask_in (recs c) who) as Hw. destruct (which_mask _ (recs c) who) as [x|[u us']]; [by eexists _, c, _, _|].
  destruct Hw as (pre & Er & Hlen). destruct doit; [|by eexists _, c, _, _].
  rewrite Et in *. rewrite Er in A, K, L. destruct (ht_del_ok pre u us' t n (fresh c) W S A K L) as (t' & E & H1 & H2 & H3 & H4).
  rewrite <- Er in E. rewrite E in *. cbn [rbind] in *. eexists _, _, _, _. split; [reflexivity|]. split; [|by destruct (Hlists _ _ _ _ eq_refl)].
  exists t'. cbn [ht recs set_recs set_trie set_ht]. rewrite <- Hlen, Er, take_app_length. done.
Qed.

(** Flags are changed in place. *)
Lemma setsticky_same chan us uhost sticky : forall j,
  let us' := snd (fst (setsticky_loop _rfc_casecmp noshare chan us uhost sticky j)) in
  map pair us' = map pair us /\ map m_mask us' = map m_mask us /\ map ident us' = map ident us.
Proof.
  induction us as [|u us IH]; intros j; [done|]. cbn [setsticky_loop]. cbv zeta.
  set (j' := if 0 <=? j then j - 1 else j). destruct (_ || _).
  - by destruct (sticky <? 0).
  - specialize (IH j'). destruct (setsticky_loop _ _ _ us _ _ j') as [[r us'] out]. cbn [fst snd map] in *.
    destruct IH as (-> & -> & ->). done.
Qed.

End Ops.

(** ** Sequences of operations *)

Inductive mop : Type :=
| MAdd (k : kind) (now : Z) (on_chan : list (list Z)) (limit : Z) (me : option (list Z)) (mask from note : list Z) (expire flags : Z)
| MDel (k : kind) (who : list Z) (doit : bool)
| MSticky (uhost : list Z) (sticky : Z).

Definition mop_ok (o : mop) : Prop := match o with MAdd _ _ _ _ _ mask _ _ _ _ => cstr mask | _ => True end.

Section Sequences.
Context (inet_pton : Z -> list Z -> option (list Z)) (rfc_toupper : Z -> Z) (cidr_support noshare : bool).

Definition do_mop (o : mop) (c : masks) : result mfault masks :=
  match o with
  | MAdd k now on_chan limit me mask from note expire flags =>
      let! r := match k with
                | Ban => u_addban inet_pton _rfc_casecmp rfc_toupper cidr_support noshare now c on_chan limit me mask from note expire flags
                | Exempt => u_addexempt inet_pton _rfc_casecmp noshare now c on_chan limit mask from note expire flags
                | Invite => u_addinvite inet_pton _rfc_casecmp noshare now c on_chan limit mask from note expire flags
                end in Ok (snd (fst r))
  | MDel k who doit =>
      let! r := match k with
                | Ban => u_delban inet_pton _rfc_casecmp noshare c who doit
                | Exempt => u_delexempt inet_pton _rfc_casecmp noshare c who doit
                | Invite => u_delinvite inet_pton _rfc_casecmp noshare c who doit
                end in let '(_, c, _, _) := r in Ok c
  | MSticky uhost sticky =>
      let '(_, us, _) := u_setsticky_mask _rfc_casecmp noshare (owner c) (recs c) uhost sticky in Ok (set_recs c us)
  end.

Fixpoint do_mops (os : list mop) (c : masks) : result mfault masks :=
  match os with [] => Ok c | o :: os => let! c := do_mop o c in do_mops os c end.

(** Whether an addition gets as far as the search for its mask, which a full list, a ban of the
    bot itself and a ban that is over do not; and whether the mask is in the list then. *)
Definition enters (o : mop) (c : masks) : option (list Z) :=
  match o with
  | MAdd k now on_chan limit me mask _ _ expire _ =>
      let refused := match k with
                     | Ban => match me with Some s => negb (match_addr rfc_toupper cidr_support (fixed_mask mask) s =? 0) | None => false end ||
                              (expire =? now)
                     | _ => false
                     end in
      if list_full c on_chan limit || refused then None else Some (fixed_mask mask)
  | _ => None
  end.
Definition updates (o : mop) (c : masks) : Prop :=
  match enters o c with Some host => find_mask _rfc_casecmp (recs c) host <> [] | None => False end.

(** An addition is [put_mask], or nothing. *)
Lemma do_madd k now on_chan limit me mask from note expire flags c :
  do_mop (MAdd k now on_chan limit me mask from note expire flags) c =
  match enters (MAdd k now on_chan limit me mask from note expire flags) c with
  | Some host => let! r := put_mask inet_pton _rfc_casecmp noshare now k c host from note expire flags in Ok (fst r)
  | None => Ok c
  end.
Proof.
  cbn [do_mop enters]. unfold u_addban, u_addexempt, u_addinvite.
  destruct k, (list_full c on_chan limit); cbn [orb rbind fst snd]; try done;
    try (by destruct (put_mask _ _ _ _ _ _ _ _ _ _ _)).
  destruct (match me with Some s => _ | None => _ end); [done|]. cbn [orb]. destruct (expire =? now); [done|].
  by destruct (put_mask _ _ _ _ _ _ _ _ _ _ _).
Qed.

Lemma do_mdel k who doit c :
  do_mop (MDel k who doit) c = let! r := u_delmask inet_pton _rfc_casecmp noshare k c who doit in let '(_, c, _, _) := r in Ok c.
Proof. by destruct k. Qed.

Lemma enters_cstr o c host : mop_ok o -> enters o c = Some host -> cstr host.
Proof. destruct o; cbn; [|done..]. destruct (_ || _); [done|]. intros Hm [= <-]. by apply cstr_in_fix. Qed.

(** What an operation does to the table of prefixes, and to the masks it stands for. *)
Inductive trie_step (c c' : masks) : Prop :=
| ts_same : ip_trie c' = ip_trie c -> kept (recs c) (recs c') -> trie_step c c'
| ts_add p : In p (recs c') -> m_ptr p <> 0 ->
    ip_trie c' = (match owner c with Some _ => ip_trie_add inet_pton (ip_trie c) (m_mask p) (m_ptr p) | None => ip_trie c end) ->
    kept (recs c) (recs c') -> trie_step c c'
| ts_del u : In u (recs c) ->
    ip_trie c' = (match owner c with Some _ => ip_trie_del inet_pton (ip_trie c) (m_mask u) | None => ip_trie c end) ->
    (forall r, In r (recs c) -> fold_of r = fold_of u \/ In r (recs c')) -> trie_step c c'.

Lemma kept_refl us : kept us us.
Proof. intros r Hr. by exists r. Qed.

Lemma setsticky_listed c uhost sticky : listed c ->
  let us := snd (fst (u_setsticky_mask _rfc_casecmp noshare (owner c) (recs c) uhost sticky)) in
  listed (set_recs c us) /\ index_of us = index_of (recs c) /\ map ident us = map ident (recs c) /\ kept (recs c) us.
Proof.
  intros [L F]. unfold u_setsticky_mask. set (j := if str_isdigit uhost then _ else _).
  destruct (setsticky_same noshare (owner c) (recs c) uhost sticky j) as (Hp & Hm & Hi).
  destruct (setsticky_loop _ _ _ (recs c) uhost sticky j) as [[r us] out]. cbn [fst snd] in *.
  assert (Ht : map m_text us = map m_text (recs c)) by (apply (f_equal (map snd)) in Hi; by rewrite !map_map in Hi).
  assert (Hall : forall (P : maskrec -> Prop), (forall x y, m_mask x = m_mask y -> m_text x = m_text y -> P x -> P y) -> Forall P (recs c) -> Forall P us).
  { intros P HP. assert (HF : Forall2 (fun x y => m_mask y = m_mask x /\ m_text y = m_text x) (recs c) us).
    { clear -Hm Ht. revert us Hm Ht. induction (recs c) as [|x l IH]; intros [|y us]; try done. cbn. intros [= E1 E2] [= E3 E4]. constructor; [done|by apply IH]. }
    clear -HP HF. induction HF as [|x y l l' [E1 E2] _ IH]; [done|]. intros [Hx Hl]%Forall_cons. constructor; [by apply (HP x)|by apply IH]. }
  destruct (list_ok_pairs (recs c) us (fresh c) (fresh c) Hp) as [L' X']; [| | |lia|done|].
  - apply (Hall (fun r => cstr (m_mask r))); [|apply (lo_cstr _ _ L)]. by intros x y ->.
  - rewrite Ht. apply (lo_texts _ _ L).
  - apply (Hall (fun r => m_text r < fresh c)); [|apply (lo_old _ _ L)]. by intros x y _ ->.
  - split; [by split|]. split; [done|]. split; [done|]. intros x Hx.
    assert (Hq : In (pair x) (map pair us)) by (rewrite Hp; by apply in_map).
    apply in_map_iff in Hq as (r' & E' & Hr'). exists r'. split; [done|]. by injection E'.
Qed.

(** The list and the table of prefixes after an operation that ends. *)
Lemma do_mop_lists o c c' : listed c -> mop_ok o -> do_mop o c = Ok c' -> listed c' /\ owner c' = owner c /\ trie_step c c'.
Proof.
  intros HL Ho. assert (Hsame : Ok (E := mfault) c = Ok c' -> listed c' /\ owner c' = owner c /\ trie_step c c').
  { intros [= <-]. do 2 (split; [done|]). by apply ts_same; [|apply kept_refl]. }
  pose proof (enters_cstr o c) as Hc. destruct o as [k now on_chan limit me mask from note expire flags|k who doit|uhost sticky].
  - rewrite do_madd. destruct (enters _ c) as [host|]; [|exact Hsame]. specialize (Hc host Ho eq_refl).
    intros ([c1 out] & E & [= <-])%rbind_Ok_inv. destruct (put_mask_lists _ _ _ _ _ _ _ _ _ _ _ _ HL Hc E) as (HL' & Ow & p & Hp & Em & Hpp & Et & Hk).
    split; [done|]. split; [done|]. apply (ts_add c c1 p); by rewrite ?Em.
  - rewrite do_mdel. intros ([[[r c1] out] last] & E & [= <-])%rbind_Ok_inv. destruct (del_mask_lists _ _ _ _ _ _ _ _ _ _ HL E) as (HL' & Ow & Hd).
    split; [done|]. split; [done|]. destruct Hd as [->|(u & Hu & Et & Hr)]; [by apply ts_same; [|apply kept_refl]|by apply (ts_del c c1 u)].
  - cbn [do_mop]. pose proof (setsticky_listed c uhost sticky HL) as (HL' & _ & _ & Hk).
    destruct (u_setsticky_mask _ _ _ _ _ _) as [[r us] out]. cbn [fst snd] in *. intros [= <-]. split; [done|]. split; [done|]. by apply ts_same.
Qed.

(** The list does not depend on its table of masks, and nothing goes wrong without one. *)
Lemma do_mop_strip o c c' : do_mop o c = Ok c' -> do_mop o (set_ht c None) = Ok (set_ht c' None).
Proof.
  destruct o as [k now on_chan limit me mask from note expire flags|k who doit|uhost sticky].
  - rewrite !do_madd. change (enters (MAdd k now on_chan limit me mask from note expire flags) (set_ht c None)) with
      (enters (MAdd k now on_chan limit me mask from note expire flags) c).
    destruct (enters _ c) as [host|]; [|by intros [= <-]]. intros ([c1 out] & E & [= <-])%rbind_Ok_inv.
    by rewrite (put_mask_strip _ _ _ _ _ _ _ _ _ _ _ _ E).
  - rewrite !do_mdel. intros ([[[r c1] out] last] & E & [= <-])%rbind_Ok_inv. by rewrite (del_mask_strip _ _ _ _ _ _ _ _ _ _ E).
  - cbn [do_mop owner recs set_ht]. destruct (u_setsticky_mask _ _ _ _ _ _) as [[r us] out]. by intros [= <-].
Qed.

Lemma do_mop_total o c : ht c = None -> exists c', do_mop o c = Ok c' /\ ht c' = None.
Proof.
  intros E. destruct o as [k now on_chan limit me mask from note expire flags|k who doit|uhost sticky].
  - rewrite do_madd. destruct (enters _ c) as [host|]; [|by exists c].
    destruct (put_mask_total inet_pton noshare now k c host from note expire flags E) as (c' & out & -> & E'). by exists c'.
  - rewrite do_mdel. destruct (del_mask_total inet_pton noshare k c who doit E) as (r & c' & out & last & -> & E'). by exists c'.
  - cbn [do_mop]. destruct (u_setsticky_mask _ _ _ _ _ _) as [[r us] out]. by eexists.
Qed.

(** With its table, an operation ends unless it is an update. *)
Lemma do_mop_table o c n : indexed c n -> 0 <= n <= 2 ^ 50 -> mop_ok o ->
  (~ updates o c /\ exists c', do_mop o c = Ok c' /\ indexed c' (n + 1)) \/ (updates o c /\ do_mop o c = Err Freed).
Proof.
  intros I Hn Ho. pose proof (enters_cstr o c) as Hc. unfold updates. destruct o as [k now on_chan limit me mask from note expire flags|k who doit|uhost sticky].
  - rewrite do_madd. destruct (enters _ c) as [host|]; [|left; split; [tauto|exists c; split; [done|by apply indexed_more]]].
    pose proof (put_mask_table inet_pton noshare now k c n host from note expire flags I (Hc host Ho eq_refl) Hn) as H.
    destruct (find_mask _ _ _) as [|u rest]; [left; split; [tauto|]|right; split; [done|by rewrite H]].
    destruct H as (c' & out & -> & I'). by exists c'.
  - left. split; [tauto|]. rewrite do_mdel. destruct (del_mask_table inet_pton noshare k c n who doit I ltac:(lia)) as (r & c' & out & last & -> & I'). by exists c'.
  - left. split; [tauto|]. cbn [do_mop]. destruct I as [(t & Et & W & S & A & K) HL].
    pose proof (setsticky_listed c uhost sticky HL) as (HL' & X & Hi & _).
    destruct (u_setsticky_mask _ _ _ _ _ _) as [[r us] out]. cbn [fst snd] in *. eexists. split; [done|]. apply indexed_more. split; [|done].
    exists t. cbn [ht recs set_recs]. rewrite X. do 4 (split; [done|]). intros x k v Hx%K. by rewrite Hi.
Qed.

(** Some operation of the sequence is an update of a mask that is in the list then. *)
Definition some_update (os : list mop) (c : masks) : Prop :=
  exists pre o post c1, os = pre ++ o :: post /\ do_mops pre c = Ok c1 /\ updates o c1.

Lemma do_mops_table os : forall c n, indexed c n -> 0 <= n -> n + Z.of_nat (length os) <= 2 ^ 50 -> Forall mop_ok os ->
  match do_mops os c with
  | Ok c' => ~ some_update os c /\ indexed c' (n + Z.of_nat (length os))
  | Err e => some_update os c /\ e = Freed
  end.
Proof.
  induction os as [|o os IH]; intros c n I Hn Hl Ho; cbn [do_mops].
  { split; [|by rewrite Z.add_0_r]. intros (pre & o & post & c1 & E & _). by destruct pre. }
  cbn [length] in Hl. apply Forall_cons in Ho as [Ho Hos].
  destruct (do_mop_table o c n I ltac:(lia) Ho) as [(Hu & c1 & E1 & I1)|[Hu E1]]; rewrite E1; cbn [rbind].
  2:{ split; [|done]. by exists [], o, os, c. }
  specialize (IH c1 (n + 1) I1 ltac:(lia) ltac:(lia) Hos).
  assert (Hs : some_update (o :: os) c <-> some_update os c1).
  { split; intros (pre & o' & post & c2 & E & E2 & Hu2).
    - destruct pre as [|o1 pre]; [injection E as -> ->; cbn in E2; by injection E2 as <-|]. injection E as <- ->. cbn [do_mops] in E2.
      rewrite E1 in E2. by exists pre, o', post, c2.
    - exists (o :: pre), o', post, c2. cbn [do_mops app]. rewrite E1, E. done. }
  destruct (do_mops os c1); [|tauto]. cbn [length].
  replace (n + Z.of_nat (S (length os))) with (n + 1 + Z.of_nat (length os)) by lia. tauto.
Qed.

Lemma do_mops_strip os : forall c c', do_mops os c = Ok c' -> do_mops os (set_ht c None) = Ok (set_ht c' None).
Proof.
  induction os as [|o os IH]; intros c c'; cbn [do_mops]; [by intros [= <-]|].
  intros (c1 & E1 & E2)%rbind_Ok_inv. rewrite (do_mop_strip o c c1 E1). cbn [rbind]. by apply IH.
Qed.

(** Masks are cut. *)
Definition short (us : list maskrec) : Prop := Forall (fun r => (length (m_mask r) <= 200)%nat) us.

Lemma fixed_mask_short mask : (length (fixed_mask mask) <= 200)%nat.
Proof. unfold fixed_mask. rewrite length_take. change (Z.to_nat MAX_BAN_MASK_LEN) with 200%nat. lia. Qed.

Lemma put_mask_short now k c mask from note expire flags c' out :
  put_mask inet_pton _rfc_casecmp noshare now k c (fixed_mask mask) from note expire flags = Ok (c', out) ->
  short (recs c) -> short (recs c').
Proof.
  unfold put_mask. destruct (match note with 42 :: note' => _ | _ => _ end) as [f1 n1]. destruct (if (expire =? 0) || _ then _ else _) as [f2 e2].
  intros (t & _ & E)%rbind_Ok_inv Hs. injection E as <- _. cbn [recs]. pose proof (fixed_mask_short mask) as Hm.
  destruct (head (find_mask _ _ _)) as [u|]; [|by constructor]. unfold short, fill in *.
  rewrite List.Forall_forall in Hs |- *. intros r (x & <- & Hx)%in_map_iff. destruct (_ =? _); [done|by apply Hs].
Qed.

Lemma do_mop_short o c c' : do_mop o c = Ok c' -> short (recs c) -> short (recs c').
Proof.
  destruct o as [k now on_chan limit me mask from note expire flags|k who doit|uhost sticky]; cbn [do_mop].
  - intros (r & E & [= <-])%rbind_Ok_inv Hs.
    assert (Hput : forall k, rbind (put_mask inet_pton _rfc_casecmp noshare now k c (fixed_mask mask) from note expire flags)
        (fun r => Ok (1, fst r, snd r)) = Ok r -> short (recs (snd (fst r)))).
    { intros k' ([c1 out] & E1 & [= <-])%rbind_Ok_inv. by apply (put_mask_short now k' c mask from note expire flags c1 out). }
    destruct k; unfold u_addban, u_addexempt, u_addinvite in E; destruct (list_full c on_chan limit);
      try (by injection E as <-); try (by apply (Hput _ E)).
    destruct (match me with Some s => _ | None => _ end); [by injection E as <-|].
    destruct (expire =? now); [by injection E as <-|]. by apply (Hput _ E).
  - intros ([[[r c1] out] last] & E & [= <-])%rbind_Ok_inv Hs.
    assert (Hdel : u_delmask inet_pton _rfc_casecmp noshare k c who doit = Ok (r, c1, out, last) -> short (recs c1)).
    { unfold u_delmask. pose proof (which_mask_in (recs c) who) as Hw. destruct (which_mask _ _ _) as [x|[u us']]; [by intros [= _ <- _ _]|].
      destruct doit; [|by intros [= _ <- _ _]]. intros (t & _ & E')%rbind_Ok_inv. injection E' as _ <- _ _. cbn [recs set_recs].
      destruct Hw as (pre & Er & _). apply Forall_app_2; [by apply Forall_take|]. unfold short in Hs. rewrite Er in Hs.
      by apply Forall_app in Hs as [_ [_ Hs]%Forall_cons]. }
    apply Hdel. by destruct k.
  - unfold u_setsticky_mask. pose proof (setsticky_same noshare (owner c) (recs c) uhost sticky (if str_isdigit uhost then egg_atoi uhost else -1)) as (_ & Hm & _).
    destruct (setsticky_loop _ _ _ _ _ _ _) as [[r us] out]. cbn [fst snd] in Hm. intros [= <-] Hs. cbn [recs set_recs].
    unfold short in *. rewrite List.Forall_forall in Hs |- *. intros x Hx.
    assert (Hin : In (m_mask x) (map m_mask us)) by (by apply in_map). rewrite Hm in Hin.
    apply in_map_iff in Hin as (y & <- & Hy). by apply Hs.
Qed.

Lemma do_mops_short os : forall c c', do_mops os c = Ok c' -> short (recs c) -> short (recs c').
Proof.
  induction os as [|o os IH]; intros c c'; cbn [do_mops]; [by intros [= <-]|].
  intros (c1 & E1 & E2)%rbind_Ok_inv Hs. apply (IH c1); [done|]. by apply (do_mop_short o c).
Qed.

End Sequences.

Lemma new_listed ow t trie : listed {| owner := ow; recs := []; ht := t; ip_trie := trie; fresh := 1 |}.
Proof. by split; [split; constructor|]. Qed.

Lemma new_indexed ow n : 0 <= n <= 2 ^ 50 ->
  indexed {| owner := ow; recs := []; ht := Some (op_htab_create n); ip_trie := None; fresh := 1 |} 0.
Proof.
  intros Hn. destruct (create_spec (K := mask_key) n Hn) as (W & A & C & L). split; [|apply new_listed].
  eexists. split; [done|]. split; [exact W|]. split; [split; lia|]. split; [by rewrite A, fmap_empty|].
  intros x k v. by rewrite A, lookup_empty.
Qed.

(** C18. The hash table is an index of its list, as long as no mask is added that is there
    already: from an empty list, a sequence of additions, deletions and markings of bans, exempts
    and invites ends exactly when no addition in it is an update, and what the table
    answers about a mask then is what the walk along the list answers, for the kind of mask and
    for stickiness, without a pointer to a record or a string that is gone.  An update, an addition that is not
    refused and whose mask is in the list at that time, is a fault: it frees the string that is
    the key in the table, and [op_htab_set] reads it.  [rfc_casecmp] is that of RFC 1459. *)
Theorem mask_table_agrees inet_pton rfc_toupper cidr_support noshare ow cap os :
  0 <= cap <= 2 ^ 50 -> Z.of_nat (length os) <= 2 ^ 50 -> Forall mop_ok os ->
  let c0 := {| owner := ow; recs := []; ht := Some (op_htab_create cap); ip_trie := None; fresh := 1 |} in
  match do_mops inet_pton rfc_toupper cidr_support noshare os c0 with
  | Ok c =>
      ~ some_update inet_pton rfc_toupper cidr_support noshare os c0 /\
      forall mask, cstr mask ->
        u_equals_mask _rfc_casecmp (recs c) (ht c) mask = u_equals_mask _rfc_casecmp (recs c) None mask /\
        u_sticky_mask _rfc_casecmp (recs c) (ht c) mask = u_sticky_mask _rfc_casecmp (recs c) None mask
  | Err e => some_update inet_pton rfc_toupper cidr_support noshare os c0 /\ e = Freed
  end.
Proof.
  intros Hcap Hl Hos c0. pose proof (do_mops_table inet_pton rfc_toupper cidr_support noshare os c0 0 (new_indexed ow cap Hcap)) as H.
  specialize (H ltac:(lia) ltac:(lia) Hos). destruct (do_mops _ _ _ _ os c0) as [c|e]; [|done]. destruct H as [Hu I]. split; [done|].
  intros mask Hm. destruct (ix_table _ _ I) as (t & Et & _). rewrite Et. unfold u_equals_mask, u_sticky_mask.
  by rewrite (ht_get_spec c _ t mask I Et Hm).
Qed.

(** ** What breaks the index *)

(** A mask read from the user file is in the list, but not in the hash table, which is asked
    first: the mask counts as unknown, neither permanent nor sticky. *)
Theorem loaded_mask_unindexed c n t mask from note expire flags added last :
  indexed c n -> ht c = Some t -> cstr mask -> (forall r, In r (recs c) -> fold_of r <> map istr_fold mask) ->
  let c' := addmask_fully c mask from note expire flags added last in
  u_equals_mask _rfc_casecmp (recs c') (ht c') mask = Ok 0 /\
  u_equals_mask _rfc_casecmp (recs c') None mask = Ok (if flags &? MASKREC_PERM then 2 else 1) /\
  u_sticky_mask _rfc_casecmp (recs c') (ht c') mask = Ok 0 /\
  u_sticky_mask _rfc_casecmp (recs c') None mask = Ok (Z.land flags MASKREC_STICKY).
Proof.
  intros [(t' & Et & W & S & A & K) [L F]] Ht Hm Hn c'. rewrite Ht in Et. injection Et as <-.
  assert (Hg : ht_get t (recs c') mask = Ok None).
  { unfold ht_get. rewrite (keys_read_ok (recs c)) by (done || (intros x Hx; by right)). cbn [rbind].
    rewrite htab_get_spec by done. unfold value_at. cbn [norm mask_laws k_str].
    pose proof (index_value _ _ (map istr_fold mask) A) as E. rewrite (proj2 (index_None (recs c) (map istr_fold mask)) Hn) in E.
    by destruct (abs t !! _). }
  assert (Hself : find_mask _rfc_casecmp (recs c') mask = recs c').
  { unfold c', addmask_fully. cbn [recs find_mask m_mask]. by rewrite (proj2 (casecmp_istr mask mask Hm Hm)). }
  unfold u_equals_mask, u_sticky_mask. change (ht c') with (ht c). rewrite Ht, Hg, Hself. done.
Qed.

Lemma loaded_mask_unindexed_witness :
  let c' := addmask_fully (channel_masks (bs "#egg")) (bs "a!*@*") (bs "joe") (bs "x") 0 3 0 0 in
  u_equals_mask _rfc_casecmp (recs c') (ht c') (bs "a!*@*") = Ok 0 /\
  u_equals_mask _rfc_casecmp (recs c') None (bs "a!*@*") = Ok 2 /\
  u_sticky_mask _rfc_casecmp (recs c') (ht c') (bs "a!*@*") = Ok 0 /\
  u_sticky_mask _rfc_casecmp (recs c') None (bs "a!*@*") = Ok 1.
Proof.
  apply (loaded_mask_unindexed (channel_masks (bs "#egg")) 0 (op_htab_create 16) (bs "a!*@*") (bs "joe") (bs "x") 0 3 0 0).
  - apply new_indexed. lia.
  - reflexivity.
  - repeat constructor; lia.
  - intros r [].
Defined.

(** When the user file brings a new list for a channel, the old records are freed, but the
    hash table still has their strings as its keys: asking for one of the old masks reads freed memory. *)
Theorem cleared_list_dangles c n t r : indexed c n -> ht c = Some t -> In r (recs c) ->
  u_equals_mask _rfc_casecmp (recs (new_list c)) (ht (new_list c)) (m_mask r) = Err Freed.
Proof.
  intros [(t' & Et & W & S & A & K) [L F]] Ht Hr. rewrite Ht in Et. injection Et as <-. cbn [recs ht new_list set_recs].
  rewrite Ht. unfold u_equals_mask, ht_get, keys_read. set (key := {| k_text := 0; k_str := m_mask r |}).
  pose proof (index_value _ _ (fold_of r) A) as E. rewrite (index_in _ r (lo_folds _ _ L) Hr) in E.
  destruct (abs t !! fold_of r) as [[k v]|] eqn:Ea; [|done]. pose proof (compared_found t key k v W Ea) as Hk.
  by destruct (htab_compared t key).
Qed.

(** Number 0 deletes nothing, and the length of the list is returned, as if a record had been
    found. *)
Theorem delete_number_zero inet_pton noshare k c :
  u_delmask inet_pton _rfc_casecmp noshare k c (bs "0") true = Ok (Z.of_nat (length (recs c)), c, [], None).
Proof.
  assert (H : forall us j, j < 0 -> seek us j = ([], j - Z.of_nat (length us))).
  { induction us as [|u us IH]; intros j Hj; cbn [seek length]; [f_equal; lia|].
    rewrite (proj2 (Z.eqb_neq j 0)), IH by lia. f_equal. lia. }
  unfold u_delmask, which_mask. change (negb (mem (ch "!") (bs "0")) && str_isdigit (bs "0")) with true. cbv iota.
  change (egg_atoi (bs "0") - 1) with (-1). rewrite H by lia. do 4 f_equal. lia.
Qed.

(** The smallest case: a ban is added twice. *)
Example update_frees_key :
  let add c := put_mask (fun _ _ => None) _rfc_casecmp true 1000 Ban c (bs "a!*@*") (bs "joe") (bs "x") 0 0 in
  (let! c := add (channel_masks (bs "#egg")) in add (fst c)) = Err Freed.
Proof. by vm_compute. Qed.
