(* ===== verification/MaskTrie.v ===== *)
(** * The table of prefixes of a mask list

    Every prefix in the table is that of a mask in the list, so that a host found by the
    table is matched by a mask, if only hosts are looked at; masks for one user are the
    exception. *)

From stdpp Require Import gmap list.
From S2P Require Import Htab HtabRing HtabMap CidrTbl CidrProps Prelude LibC RegexCount Wildcard Rfc1459 Inet Match Strings MaskLists MaskProps.
#[local] Open Scope Z_scope.

(** ** The C library *)

(** What is relied on of the C library's [inet_pton]: it stores an address of the family; the
    case of hexadecimal digits does not matter, and no other character is one of two that
    are equal in IRC names; an IPv6 address has a colon and an IPv4 address has none; what it
    accepts, [op_inet_pton] reads the same way, in capitals. *)
Class InetPton (inet_pton : Z -> list Z -> option (list Z)) := {
  ip_address af s a : af = AF_INET \/ af = AF_INET6 -> inet_pton af s = Some a -> address af a;
  ip_fold af s s' : cstr s -> cstr s' -> map istr_fold s = map istr_fold s' -> inet_pton af s = inet_pton af s';
  ip_colon af s a : af = AF_INET \/ af = AF_INET6 -> inet_pton af s = Some a -> In (ch ":") s <-> af = AF_INET6;
  ip_agrees af s a : af = AF_INET \/ af = AF_INET6 -> inet_pton af s = Some a ->
    op_inet_pton af (map _rfc_toupper s) = (1, a)
}.

Lemma fold_exact x y : 0 <= x < 256 -> 0 <= y < 256 -> istr_fold x = istr_fold y ->
  isdigit x || (x =? ch "@") || (x =? ch "/") || (x =? ch ".") = true -> x = y.
Proof.
  intros Hx Hy.
  assert (H : forallb (fun x => forallb (fun y => negb (istr_fold x =? istr_fold y) ||
      negb (isdigit x || (x =? 64) || (x =? 47) || (x =? 46)) || (x =? y)) (seqZ 0 256)) (seqZ 0 256) = true) by (vm_compute; reflexivity).
  rewrite forallb_forall in H. specialize (H x ltac:(apply list_elem_of_In, elem_of_seqZ; lia)).
  rewrite forallb_forall in H. specialize (H y ltac:(apply list_elem_of_In, elem_of_seqZ; lia)).
  intros Ef Hc. rewrite Ef, Z.eqb_refl, Hc in H. cbn in H. by apply Z.eqb_eq.
Qed.

Lemma strchr_fold c a : c = ch "@" \/ c = ch "/" -> forall b, cstr a -> cstr b -> map istr_fold a = map istr_fold b ->
  match strchr a c, strchr b c with
  | Some x, Some y => cstr x /\ cstr y /\ map istr_fold x = map istr_fold y /\
                      map istr_fold (take (length a - length x) a) = map istr_fold (take (length b - length y) b)
  | None, None => True
  | _, _ => False
  end.
Proof.
  intros Hc. induction a as [|x a IH]; intros [|y b] Ha Hb E; try done. cbn [map] in E. injection E as E1 E2.
  pose proof Ha as Ha0. pose proof Hb as Hb0.
  apply cstr_cons in Ha as [Hx Ha]. apply cstr_cons in Hb as [Hy Hb]. cbn [strchr].
  assert (Eq : (x =? c) = (y =? c)).
  { apply eq_true_iff_eq. rewrite !Z.eqb_eq. split; intros ->.
    - symmetry. apply fold_exact; [lia|lia|done|]. destruct Hc as [->| ->]; done.
    - symmetry. apply (fold_exact c x); [lia|lia|done|]. destruct Hc as [->| ->]; done. }
  rewrite Eq. destruct (y =? c).
  - split; [done|]. split; [done|]. split; [cbn; by rewrite E1, E2|]. by rewrite !Nat.sub_diag.
  - specialize (IH b Ha Hb E2). destruct (strchr a c) as [p|] eqn:Ep, (strchr b c) as [q|] eqn:Eq'; try done.
    destruct IH as (H1 & H2 & H3 & H4). do 3 (split; [done|]).
    assert (Hle : forall l p, strchr l c = Some p -> (length p <= length l)%nat).
    { clear. induction l as [|d l IHl]; intros p; [done|]. cbn. destruct (d =? c); [by intros [= <-]|].
      intros Hp. apply IHl in Hp. lia. }
    apply Hle in Ep, Eq'. cbn [length]. replace (S (length a) - length p)%nat with (S (length a - length p)) by lia.
    replace (S (length b) - length q)%nat with (S (length b - length q)) by lia. cbn [take map]. by rewrite E1, H4.
Qed.

Lemma digits_fold a : forall b, cstr a -> cstr b -> map istr_fold a = map istr_fold b -> forallb isdigit a = true -> a = b.
Proof.
  induction a as [|x a IH]; intros [|y b] Ha Hb E Hd; try done. cbn in E, Hd. injection E as E1 E2.
  apply andb_true_iff in Hd as [Hx Hd]. apply cstr_cons in Ha as [Hx' Ha]. apply cstr_cons in Hb as [Hy Hb].
  f_equal; [|by apply IH]. apply fold_exact; [lia|lia|done|]. by rewrite Hx.
Qed.

Lemma str_isdigit_fold a b : cstr a -> cstr b -> map istr_fold a = map istr_fold b ->
  str_isdigit a = true -> a = b.
Proof. intros Ha Hb E Hd. apply digits_fold; [done..|]. by destruct a. Qed.

Section Trie.
Context (inet_pton : Z -> list Z -> option (list Z)) `{!InetPton inet_pton}.

(** The network a mask is entered for. *)
Definition cidr_of (mask : list Z) : option (Z * list bool) :=
  if mask_is_cidr mask then
    match op_cidr_parse_str inet_pton (mask_host mask) with
    | Some (ss, plen) => Some (fst ss, net_prefix (snd ss) plen)
    | None => None
    end
  else None.

Lemma cstr_tail s : cstr s -> cstr (tail s).
Proof. destruct s as [|c s]; [done|]. intros [_ H]%cstr_cons. done. Qed.

Lemma map_tail {A B} (f : A -> B) l : map f (tail l) = tail (map f l).
Proof. by destruct l. Qed.

Lemma mask_host_fold a b : cstr a -> cstr b -> map istr_fold a = map istr_fold b ->
  cstr (mask_host a) /\ cstr (mask_host b) /\ map istr_fold (mask_host a) = map istr_fold (mask_host b).
Proof.
  intros Ha Hb E. pose proof (strchr_fold (ch "@") a ltac:(by left) b Ha Hb E) as H. unfold mask_host.
  destruct (strchr a (ch "@")) as [p|], (strchr b (ch "@")) as [q|]; try done.
  destruct H as (H1 & H2 & H3 & _). split; [by apply cstr_tail|]. split; [by apply cstr_tail|]. by rewrite !map_tail, H3.
Qed.

Lemma parse_addr_fold a b : cstr a -> cstr b -> map istr_fold a = map istr_fold b ->
  op_cidr_parse_addr inet_pton a = op_cidr_parse_addr inet_pton b.
Proof. intros Ha Hb E. unfold op_cidr_parse_addr. by rewrite !(ip_fold _ a b). Qed.

Lemma cidr_of_fold a b : cstr a -> cstr b -> map istr_fold a = map istr_fold b -> cidr_of a = cidr_of b.
Proof.
  intros Ha Hb E. destruct (mask_host_fold a b Ha Hb E) as (Ca & Cb & Eh). unfold cidr_of, mask_is_cidr, op_cidr_parse_str.
  pose proof (strchr_fold (ch "/") _ ltac:(by right) _ Ca Cb Eh) as H.
  destruct (strchr (mask_host a) (ch "/")) as [p|] eqn:Ep, (strchr (mask_host b) (ch "/")) as [q|] eqn:Eq; try done.
  destruct H as (Cp & Cq & Epq & Et). apply cstr_tail in Cp, Cq.
  assert (Etl : map istr_fold (tail p) = map istr_fold (tail q)) by (by rewrite !map_tail, Epq).
  destruct (str_isdigit (tail p)) eqn:Dp.
  2:{ destruct (str_isdigit (tail q)) eqn:Dq; [|done]. pose proof (str_isdigit_fold (tail q) (tail p) Cq Cp (eq_sym Etl) Dq) as Eqp. rewrite Eqp in Dq. congruence. }
  rewrite <- (str_isdigit_fold (tail p) (tail q)), Dp by done.
  assert (Hl : forall x y, map istr_fold x = map istr_fold y -> length x = length y).
  { intros x y Exy. apply (f_equal length) in Exy. by rewrite !length_map in Exy. }
  rewrite (Hl _ _ Eh), (Hl _ _ Epq) in Et |- *.
  destruct (_ || _); [done|]. destruct (strtol (tail p)) as [v rest].
  destruct (_ || _); [done|]. rewrite (parse_addr_fold _ _ (Forall_take _ _ _ Ca) (Forall_take _ _ _ Cb) Et). done.
Qed.

Lemma parse_addr_ok s ss : op_cidr_parse_addr inet_pton s = Some ss ->
  (fst ss = AF_INET \/ fst ss = AF_INET6) /\ inet_pton (fst ss) s = Some (snd ss) /\ address (fst ss) (snd ss).
Proof.
  unfold op_cidr_parse_addr. destruct (inet_pton AF_INET s) as [a|] eqn:E4.
  - intros [= <-]. split; [by left|]. split; [done|]. apply (ip_address AF_INET s); [by left|done].
  - destruct (inet_pton AF_INET6 s) as [a|] eqn:E6; [|done]. intros [= <-]. split; [by right|]. split; [done|].
    apply (ip_address AF_INET6 s); [by right|done].
Qed.

Lemma parse_str_ok s ss plen : op_cidr_parse_str inet_pton s = Some (ss, plen) ->
  (fst ss = AF_INET \/ fst ss = AF_INET6) /\ address (fst ss) (snd ss) /\ 0 <= plen <= Z.of_nat (width (fst ss)).
Proof.
  unfold op_cidr_parse_str.
  assert (H : forall x o, match op_cidr_parse_addr inet_pton x with
      | None => None
      | Some ss => let width := if fst ss =? AF_INET then 32 else 128 in
                   let plen := match o with Some p => p | None => width end in
                   if (plen <? 0) || (width <? plen) then None else Some (ss, plen)
      end = Some (ss, plen) ->
    (fst ss = AF_INET \/ fst ss = AF_INET6) /\ address (fst ss) (snd ss) /\ 0 <= plen <= Z.of_nat (width (fst ss))).
  { intros x o. destruct (op_cidr_parse_addr inet_pton x) as [ss'|] eqn:E; [|done]. cbv zeta.
    destruct (_ || _) eqn:Ep; [done|]. intros [= <- <-]. apply parse_addr_ok in E as (H1 & H2 & H3).
    split; [done|]. split; [done|]. unfold width. apply orb_false_elim in Ep as [E1%Z.ltb_ge E2%Z.ltb_ge].
    destruct (fst ss' =? AF_INET); lia. }
  destruct (strchr s (ch "/")) as [slash|]; [|exact (H s None)]. destruct (_ || _); [done|].
  destruct (strtol (tail slash)) as [v rest]. destruct (_ || _); [done|]. exact (H _ (Some v)).
Qed.

(** *** Every stored prefix is that of a mask in the list *)

Definition justified (us : list maskrec) (ms : maps) : Prop :=
  forall af p v, af = AF_INET \/ af = AF_INET6 -> sel af ms !! p = Some v ->
    exists r, In r us /\ cidr_of (m_mask r) = Some (af, p).

Lemma sel_upd af af' m ms : af = AF_INET \/ af = AF_INET6 -> af' = AF_INET \/ af' = AF_INET6 ->
  sel af (upd af' m ms) = if af =? af' then m else sel af ms.
Proof. by intros [-> | ->] [-> | ->]. Qed.

Lemma justified_empty us : justified us (∅, ∅).
Proof. intros af p v [-> | ->]; cbn; by rewrite lookup_empty. Qed.

Lemma justified_insert us ms r af p v : justified us ms -> In r us -> cidr_of (m_mask r) = Some (af, p) ->
  af = AF_INET \/ af = AF_INET6 -> justified us (upd af (<[p := v]> (sel af ms)) ms).
Proof.
  intros J Hr Hc Haf af' q w Haf'. rewrite sel_upd by done. destruct (Z.eqb_spec af' af) as [->|]; [|by apply J].
  destruct (decide (p = q)) as [->|Hne]; [by exists r|]. rewrite lookup_insert_ne by done. by apply J.
Qed.

Lemma justified_delete us us' ms af p : justified us ms -> af = AF_INET \/ af = AF_INET6 ->
  (forall r, In r us -> cidr_of (m_mask r) = Some (af, p) \/ In r us') -> justified us' (upd af (delete p (sel af ms)) ms).
Proof.
  intros J Haf Hr af' q w Haf'. rewrite sel_upd by done. intros Hq.
  assert (Hj : sel af' ms !! q = Some w /\ (af', q) <> (af, p)).
  { destruct (Z.eqb_spec af' af) as [->|]; [|split; [done|congruence]].
    destruct (decide (p = q)) as [->|Hne]; [by rewrite lookup_delete_eq in Hq|].
    rewrite lookup_delete_ne in Hq by done. split; [done|congruence]. }
  destruct Hj as [Hj Hne]. destruct (J af' q w Haf' Hj) as (r & Hi & Hc).
  destruct (Hr r Hi) as [E|Hi']; [|by exists r]. rewrite Hc in E. by injection E as -> ->.
Qed.

Lemma justified_kept us us' ms : Forall (fun r => cstr (m_mask r)) us -> Forall (fun r => cstr (m_mask r)) us' ->
  kept us us' -> justified us ms -> justified us' ms.
Proof.
  intros H1 H2 Hk J af p v Haf Hp. destruct (J af p v Haf Hp) as (r & Hr & Hc). destruct (Hk r Hr) as (r' & Hr' & E).
  rewrite List.Forall_forall in H1, H2. exists r'. split; [done|]. rewrite <- Hc. by apply cidr_of_fold; [apply H2|apply H1|].
Qed.

Definition trie_holds (us : list maskrec) (n : Z) (trie : option op_cidr_tbl) : Prop :=
  match trie with None => True | Some t => exists ms, tbl_holds t ms /\ tbl_small n ms /\ justified us ms end.

Lemma small_more n ms : tbl_small n ms -> tbl_small (n + 1) ms.
Proof. intros [H1 H2]. split; lia. Qed.

Lemma trie_add_ok us n trie p : trie_holds us n trie -> 0 <= n <= 2 ^ 50 -> In p us -> m_ptr p <> 0 ->
  trie_holds us (n + 1) (ip_trie_add inet_pton trie (m_mask p) (m_ptr p)).
Proof.
  intros Ht Hn Hp Hpos. unfold ip_trie_add. pose proof (eq_refl (cidr_of (m_mask p))) as Hc. unfold cidr_of at 2 in Hc.
  destruct (mask_is_cidr (m_mask p)); cbn [negb].
  2:{ destruct trie as [t|]; [|done]. destruct Ht as (ms & H1 & H2 & H3). exists ms. by split; [|split; [apply small_more|]]. }
  set (t := match trie with Some t => t | None => op_cidr_create end).
  assert (Ht' : trie_holds us n (Some t)).
  { destruct trie as [t'|]; [exact Ht|]. exists (∅, ∅). split; [apply create_holds|].
    split; [split; cbn [fst snd]; rewrite map_size_empty; lia|apply justified_empty]. }
  destruct Ht' as (ms & H1 & H2 & H3).
  destruct (op_cidr_parse_str inet_pton (mask_host (m_mask p))) as [[ss plen]|] eqn:E.
  2:{ exists ms. by split; [|split; [apply small_more|]]. }
  destruct (parse_str_ok _ _ _ E) as (Haf & Ha & Hpl).
  destruct (do_cop_spec (CSet (fst ss) (snd ss) plen (m_ptr p)) t ms n H1 H2 ltac:(lia) (conj Ha Hpos)) as [_ Hd].
  pose proof (map_cop_small (CSet (fst ss) (snd ss) plen (m_ptr p)) ms n H2) as Hs.
  cbn [do_cop] in Hd. destruct ((if fst ss =? AF_INET then op_cidr_set4 else op_cidr_set6) t (snd ss) plen (m_ptr p)) as [[x y] t'].
  eexists. split; [exact Hd|]. split; [exact Hs|]. cbn [map_cop].
  rewrite (proj2 (Z.ltb_ge plen 0)), (proj2 (Z.ltb_ge (Z.of_nat (width (fst ss))) plen)) by lia. cbn [orb snd].
  by apply (justified_insert us ms p).
Qed.

Lemma trie_del_ok us us' n trie u : trie_holds us n trie -> 0 <= n <= 2 ^ 50 ->
  (forall r, In r us -> cidr_of (m_mask r) = cidr_of (m_mask u) \/ In r us') ->
  trie_holds us' (n + 1) (ip_trie_del inet_pton trie (m_mask u)).
Proof.
  intros Ht Hn Hr. unfold ip_trie_del. destruct trie as [t|]; [|done]. destruct Ht as (ms & H1 & H2 & H3).
  assert (Hsame : cidr_of (m_mask u) = None -> trie_holds us' (n + 1) (Some t)).
  { intros E. exists ms. split; [done|]. split; [by apply small_more|]. intros af p v Haf Hp.
    destruct (H3 af p v Haf Hp) as (r & Hi & Hc). destruct (Hr r Hi) as [Eq|Hi']; [congruence|by exists r]. }
  destruct (mask_is_cidr (m_mask u)) eqn:Ec; cbn [negb]; [|apply Hsame; unfold cidr_of; by rewrite Ec].
  destruct (op_cidr_parse_str inet_pton (mask_host (m_mask u))) as [[ss plen]|] eqn:E;
    [|apply Hsame; unfold cidr_of; by rewrite Ec, E].
  destruct (parse_str_ok _ _ _ E) as (Haf & Ha & Hpl).
  destruct (do_cop_spec (CDel (fst ss) (snd ss) plen) t ms n H1 H2 ltac:(lia) (conj Ha Hpl)) as [_ Hd].
  pose proof (map_cop_small (CDel (fst ss) (snd ss) plen) ms n H2) as Hs.
  cbn [do_cop] in Hd. destruct ((if fst ss =? AF_INET then op_cidr_del4 else op_cidr_del6) t (snd ss) plen) as [x t'].
  eexists. split; [exact Hd|]. split; [exact Hs|]. cbn [map_cop snd]. apply (justified_delete us); [done|done|].
  intros r Hi. destruct (Hr r Hi) as [Eq|Hi']; [left|by right]. rewrite Eq. unfold cidr_of. by rewrite Ec, E.
Qed.

(** *** Sequences of operations *)

Definition trie_ok (c : masks) (n : Z) : Prop :=
  (owner c = None -> ip_trie c = None) /\ trie_holds (recs c) n (ip_trie c).

Lemma trie_step_ok c c' n : listed c -> listed c' -> owner c' = owner c -> 0 <= n <= 2 ^ 50 ->
  trie_step inet_pton c c' -> trie_ok c n -> trie_ok c' (n + 1).
Proof.
  intros I I' Ow Hn St [To Th]. pose proof (lo_cstr _ _ (ls_list _ I)) as Hc. pose proof (lo_cstr _ _ (ls_list _ I')) as Hc'.
  assert (Hk : kept (recs c) (recs c') -> trie_holds (recs c') n (ip_trie c)).
  { intros Hk. unfold trie_holds in *. destruct (ip_trie c) as [t|]; [|done]. destruct Th as (ms & H1 & H2 & H3).
    exists ms. split; [done|]. split; [done|]. by apply (justified_kept (recs c)). }
  assert (Hm : forall us trie, trie_holds us n trie -> trie_holds us (n + 1) trie).
  { intros us [t|] H; [|done]. destruct H as (ms & H1 & H2 & H3). exists ms. by split; [|split; [apply small_more|]]. }
  unfold trie_ok. rewrite Ow. destruct St as [Et Hkept|p Hp Hpos Et Hkept|u Hu Et Hr]; rewrite Et.
  - split; [done|]. by apply Hm, Hk.
  - destruct (owner c); [split; [done|]; by apply trie_add_ok; [apply Hk| | |]|]. rewrite To by done. done.
  - destruct (owner c); [|by rewrite To by done]. split; [done|]. apply (trie_del_ok (recs c)); [done|done|].
    intros r Hi. destruct (Hr r Hi) as [E|Hi']; [left|by right]. rewrite List.Forall_forall in Hc. by apply cidr_of_fold; [apply Hc|apply Hc|].
Qed.

(** The list and the table of prefixes alone. *)
Lemma do_mops_trie rfc_toupper cs noshare os : forall c n, listed c -> ht c = None -> trie_ok c n -> 0 <= n ->
  n + Z.of_nat (length os) <= 2 ^ 50 -> Forall mop_ok os ->
  exists c', do_mops inet_pton rfc_toupper cs noshare os c = Ok c' /\ listed c' /\ trie_ok c' (n + Z.of_nat (length os)).
Proof.
  induction os as [|o os IH]; intros c n I Hh T Hn Hl Ho; [exists c; by rewrite Z.add_0_r|]. cbn [length] in Hl |- *.
  apply Forall_cons in Ho as [Ho Hos].
  destruct (do_mop_total inet_pton rfc_toupper cs noshare o c Hh) as (c1 & E1 & Hh1).
  destruct (do_mop_lists inet_pton rfc_toupper cs noshare o c c1 I Ho E1) as (I1 & O1 & S1).
  pose proof (trie_step_ok c c1 n I I1 O1 ltac:(lia) S1 T) as T1.
  destruct (IH c1 (n + 1) I1 Hh1 T1 ltac:(lia) ltac:(lia) Hos) as (c2 & E2 & I2 & T2). exists c2. cbn [do_mops]. rewrite E1. cbn [rbind].
  split; [done|]. by replace (n + Z.of_nat (S (length os))) with (n + 1 + Z.of_nat (length os)) by lia.
Qed.

(** ** A hit is a match *)

Lemma strchr_split s c p : strchr s c = Some p -> exists pre, s = pre ++ c :: tail p /\ p = c :: tail p /\ ~ In c pre.
Proof.
  revert p. induction s as [|d s IH]; intros p; [done|]. cbn. destruct (Z.eqb_spec d c) as [->|Hne].
  - intros [= <-]. exists []. cbn. auto.
  - intros (pre & -> & E & Hni)%IH. exists (d :: pre). split; [done|]. split; [done|]. cbn. tauto.
Qed.

Lemma strchr_app_first pre c rest : ~ In c pre -> strchr (pre ++ c :: rest) c = Some (c :: rest).
Proof.
  induction pre as [|d pre IH]; intros Hn; cbn; [by rewrite Z.eqb_refl|]. cbn in Hn.
  rewrite (proj2 (Z.eqb_neq d c)) by tauto. apply IH. tauto.
Qed.

Lemma mask_host_app u h : ~ In (ch "@") u -> mask_host (u ++ ch "@" :: h) = h.
Proof. intros Hu. unfold mask_host. by rewrite strchr_app_first. Qed.

(** The host part of a mask that is in the table. *)
Lemma cidr_of_inv h u af p : ~ In (ch "@") u -> cidr_of (u ++ ch "@" :: h) = Some (af, p) ->
  exists h0 ds a, h = h0 ++ ch "/" :: ds /\ digits ds /\ ds <> [] /\ op_cidr_parse_addr inet_pton h0 = Some (af, a) /\
    0 <= dec_value ds <= Z.of_nat (width af) /\ p = net_prefix a (dec_value ds).
Proof.
  intros Hu. unfold cidr_of, mask_is_cidr. rewrite mask_host_app by done.
  destruct (strchr h (ch "/")) as [slash|] eqn:E; [|done].
  destruct (strchr_split _ _ _ E) as (h0 & Eh & Es & Hn). destruct (str_isdigit (tail slash)) eqn:Ed; [|done].
  unfold op_cidr_parse_str. rewrite E. destruct (_ || _); [done|].
  set (ds := tail slash) in *. assert (Hds : ds <> []) by (by intros Ex; rewrite Ex in Ed).
  assert (Hd : digits ds) by (apply digits_forallb; unfold str_isdigit in Ed; by destruct ds).
  rewrite strtol_digits_end by done. cbn [fst snd].
  destruct (bool_decide _ || _); [done|].
  replace (length h - length slash)%nat with (length h0) by (rewrite Es, Eh, length_app; cbn; lia).
  rewrite Eh, take_app_length. destruct (op_cidr_parse_addr inet_pton h0) as [ss|] eqn:Ep; [|done].
  destruct (parse_addr_ok _ _ Ep) as (Haf & _ & _).
  destruct (_ || _) eqn:Eb; [done|].
  intros [= <- <-]. destruct ss as [af a]. cbn [fst snd] in *.
  apply orb_false_elim in Eb as [E1%Z.ltb_ge E2%Z.ltb_ge].
  assert (Hw : Z.of_nat (width af) = if af =? AF_INET then 32 else 128) by (unfold width; by destruct (af =? AF_INET)).
  assert (Hsmall : Z.min LONG_MAX (dec_value ds) = dec_value ds).
  { unfold LONG_MAX in *. destruct (af =? AF_INET); lia. }
  rewrite Hsmall in *. exists h0, ds, a. split; [done|]. split; [done|]. split; [done|]. split; [done|]. rewrite Hw. split; [lia|done].
Qed.

Lemma upper_colon s : cstr s -> In (ch ":") (map _rfc_toupper s) <-> In (ch ":") s.
Proof.
  intros Hs. assert (H : forallb (fun x => Bool.eqb (_rfc_toupper x =? 58) (x =? 58)) (seqZ 0 256) = true) by (vm_compute; reflexivity).
  rewrite forallb_forall in H. rewrite in_map_iff. split.
  - intros (x & E & Hx). unfold cstr in Hs. rewrite List.Forall_forall in Hs. specialize (Hs x Hx).
    specialize (H x ltac:(apply list_elem_of_In, elem_of_seqZ; lia)). apply Bool.eqb_prop in H.
    rewrite E, Z.eqb_refl in H. symmetry in H. apply Z.eqb_eq in H. by rewrite <- H.
  - intros Hx. exists 58. split; [done|done].
Qed.

Lemma cidr_match_hit h0 host af a a' n : cstr h0 -> cstr host -> 0 <= n <= Z.of_nat (width af) ->
  op_cidr_parse_addr inet_pton h0 = Some (af, a) -> op_cidr_parse_addr inet_pton host = Some (af, a') ->
  net_prefix a n = take (Z.to_nat n) (addr_bits a') ->
  cidr_match (map _rfc_toupper h0) (map _rfc_toupper host) n <> 0.
Proof.
  intros C0 C1 Hn E0 E1 Hp. apply parse_addr_ok in E0 as (Haf & I0 & _). apply parse_addr_ok in E1 as (_ & I1 & _). cbn [fst snd] in *.
  pose proof (ip_agrees af h0 a Haf I0) as G0. pose proof (ip_agrees af host a' Haf I1) as G1.
  assert (Hfam : cidr_family (map _rfc_toupper h0) (map _rfc_toupper host) = (af, Z.of_nat (width af))).
  { assert (Hm : forall s a, cstr s -> inet_pton af s = Some a -> mem (ch ":") (map _rfc_toupper s) = (af =? AF_INET6)).
    { intros s b Hs Hi. apply eq_true_iff_eq. rewrite mem_In, Z.eqb_eq, upper_colon by done. by apply (ip_colon af s b). }
    unfold cidr_family. rewrite (Hm h0 a C0 I0), (Hm host a' C1 I1). by destruct Haf as [->| ->]. }
  destruct (Z.ltb_spec n 1) as [Hlt|Hge].
  - unfold cidr_match. fold (cidr_family (map _rfc_toupper h0) (map _rfc_toupper host)). rewrite Hfam.
    rewrite (proj2 (Z.ltb_ge _ _)) by lia. rewrite G0, G1. cbn [Z.eqb negb Pos.eqb]. by rewrite (proj2 (Z.ltb_lt n 1)).
  - pose proof (cidr_match_spec (map _rfc_toupper h0) (map _rfc_toupper host) n Hge) as H. rewrite Hfam in H.
    destruct H as [_ [_ H]]. rewrite H; [lia|]. split; [lia|]. exists a, a'. done.
Qed.

(** A mask that is in the table matches the addresses of its network. *)
Lemma mask_hits u h u' host af p a' : ~ In (ch "@") u -> ~ In (ch "@") h -> ~ In (ch "@") host ->
  cstr h -> cstr host -> (length (u ++ ch "@" :: h) <= 323)%nat -> (length (u' ++ ch "@" :: host) <= 323)%nat ->
  _wild_match (map _rfc_toupper u) (map _rfc_toupper u') <> 0 ->
  cidr_of (u ++ ch "@" :: h) = Some (af, p) -> op_cidr_parse_addr inet_pton host = Some (af, a') ->
  In p (prefixes (addr_bits a')) ->
  match_addr _rfc_toupper true (u ++ ch "@" :: h) (u' ++ ch "@" :: host) <> 0.
Proof.
  intros Hu Hh Hh' Ch Ch' Hl Hl' Hw Hc Hp Hin. destruct (cidr_of_inv h u af p Hu Hc) as (h0 & ds & a & -> & Hd & Hne & E0 & Hv & ->).
  assert (Hh0 : ~ In (ch "@") h0) by (intros Hi; apply Hh; apply in_or_app; by left).
  unfold match_addr. rewrite addr_match_cidr_eq by (done || by rewrite ?orb_true_r).
  rewrite (proj2 (Z.eqb_neq _ 0)) by done. cbv zeta.
  assert (Hds : egg_atoi ds = dec_value ds).
  { unfold egg_atoi. rewrite strtol_digits_end by done. cbn [fst].
    assert (dec_value ds <= 128) by (unfold width in Hv; destruct (af =? AF_INET); lia).
    unfold LONG_MAX. rewrite Z.min_r by lia. apply i32_small. lia. }
  rewrite Hds. apply cstr_app in Ch as [C0 _].
  assert (Hpre : forall bits (q : list bool), In q (prefixes bits) -> q = take (length q) bits).
  { induction bits as [|b bits IHb]; intros q; cbn; [by intros [<-|[]]|]. intros [<-|(x & <- & Hx)%in_map_iff]; [done|].
    cbn. f_equal. by apply IHb. }
  apply Hpre in Hin. assert (Hlen : length (net_prefix a (dec_value ds)) = Z.to_nat (dec_value ds)).
  { unfold net_prefix. rewrite length_take, length_addr_bits. apply parse_addr_ok in E0 as (_ & _ & _ & _ & Hla). cbn [snd fst] in Hla.
    rewrite Hla. lia. }
  rewrite Hlen in Hin. pose proof (cidr_match_hit h0 host af a a' (dec_value ds) C0 Ch' Hv E0 Hp Hin) as Hm.
  rewrite (proj2 (Z.eqb_neq _ 0) Hm).
  destruct (wild_match_01 (map _rfc_toupper u) (map _rfc_toupper u')) as [E|E]; [done|].
  rewrite E. pose proof (cidr_match_nonneg (map _rfc_toupper h0) (map _rfc_toupper host) (dec_value ds)). lia.
Qed.

Lemma ip_trie_match_hit us n t host : trie_holds us n (Some t) -> n <= 2 ^ 60 -> ip_trie_match inet_pton (Some t) host <> 0 ->
  exists r af p a, In r us /\ cidr_of (m_mask r) = Some (af, p) /\ op_cidr_parse_addr inet_pton host = Some (af, a) /\
    In p (prefixes (addr_bits a)).
Proof.
  intros (ms & H1 & H2 & H3) Hn. unfold ip_trie_match. destruct (str_is_ip host); cbn [negb]; [|done].
  destruct (op_cidr_parse_addr inet_pton host) as [[af a]|] eqn:E; [|done].
  destruct (parse_addr_ok _ _ E) as (Haf & _ & Ha). cbn [fst snd] in Haf, Ha.
  destruct (do_cop_spec (CAny af a) t ms n H1 H2 ltac:(lia) Ha) as [Ec _]. cbn [do_cop map_cop fst] in Ec.
  injection Ec as ->. intros Hh. assert (Hin : In (hd 0 (cover (sel af ms) (addr_bits a))) (cover (sel af ms) (addr_bits a))).
  { destruct (cover (sel af ms) (addr_bits a)); [done|by left]. }
  apply list_elem_of_In, list_elem_of_omap in Hin as (p & Hp & Hv). destruct (H3 af p _ Haf Hv) as (r & Hr & Hc).
  exists r, af, p, a. split; [done|]. split; [done|]. split; [done|]. by apply list_elem_of_In.
Qed.

End Trie.

Lemma match_mask_in up cs us r mask : In r us -> match_addr up cs (m_mask r) mask <> 0 -> u_match_mask up cs us mask = 1.
Proof.
  intros Hr Hm. unfold u_match_mask. rewrite (proj2 (existsb_exists _ _)); [done|].
  exists r. split; [done|]. by apply negb_true_iff, Z.eqb_neq.
Qed.

(** The masks of networks are for every nick!user of interest. *)
Definition for_everyone (u' : list Z) (r : maskrec) : Prop := mask_is_cidr (m_mask r) = true ->
  exists u h, m_mask r = u ++ ch "@" :: h /\ ~ In (ch "@") u /\ ~ In (ch "@") h /\
    _wild_match (map _rfc_toupper u) (map _rfc_toupper u') <> 0.

(** C23. The table of prefixes is only faster: after any sequence of additions, deletions and
    markings on a channel, [u_match_mask_trie] answers what [u_match_mask] answers, if the
    server supports CIDR masks and the nick!user part of every network mask in the list matches
    the nick!user that is asked for.  It is stated of the list and the table of prefixes by
    themselves, which do not depend on the hash table of the masks: where the channel with its hash
    table ends, which is unless a mask is added that is there (C18), it has the same list and
    the same table of prefixes. *)
Theorem mask_trie_agrees inet_pton `{!InetPton inet_pton} noshare dname os :
  Z.of_nat (length os) <= 2 ^ 50 -> Forall mop_ok os ->
  exists c, do_mops inet_pton _rfc_toupper true noshare os (set_ht (channel_masks dname) None) = Ok c /\
    (forall c', do_mops inet_pton _rfc_toupper true noshare os (channel_masks dname) = Ok c' -> recs c' = recs c /\ ip_trie c' = ip_trie c) /\
    forall u' host, ~ In (ch "@") u' -> ~ In (ch "@") host -> cstr host -> (length (u' ++ ch "@" :: host) <= 323)%nat ->
      Forall (for_everyone u') (recs c) ->
      u_match_mask_trie inet_pton _rfc_toupper true (recs c) (ip_trie c) (u' ++ ch "@" :: host) =
      u_match_mask _rfc_toupper true (recs c) (u' ++ ch "@" :: host).
Proof.
  intros Hl Hos.
  destruct (do_mops_trie inet_pton _rfc_toupper true noshare os (set_ht (channel_masks dname) None) 0) as (c & E & I & _ & T);
    [apply new_listed|done|done|lia|lia|done|]. exists c. split; [done|]. split.
  { intros c' E'. pose proof (do_mops_strip inet_pton _rfc_toupper true noshare os _ _ E') as H. rewrite E in H. by injection H as ->. }
  pose proof (do_mops_short _ _ _ _ _ _ _ E) as Hs. specialize (Hs ltac:(constructor)).
  intros u' host Hu Hh Ch Hlen Hall. unfold u_match_mask_trie. rewrite strchr_app_first by done. cbn [tail].
  destruct (ip_trie c) as [t|] eqn:Et; [|done]. destruct (Z.eqb_spec (ip_trie_match inet_pton (Some t) host) 0) as [Ez|Ez]; [done|].
  cbn [negb]. symmetry. destruct (ip_trie_match_hit inet_pton (recs c) _ t host T ltac:(lia) Ez) as (r & af & p & a & Hr & Hc & Ep & Hp).
  apply (match_mask_in _ _ _ r); [done|]. rewrite List.Forall_forall in Hall.
  assert (Hcidr : mask_is_cidr (m_mask r) = true) by (unfold cidr_of in Hc; by destruct (mask_is_cidr (m_mask r))).
  destruct (Hall r Hr Hcidr) as (u & h & Em & Hu1 & Hh1 & Hw). unfold short in Hs. rewrite List.Forall_forall in Hs. specialize (Hs r Hr).
  pose proof (lo_cstr _ _ (ls_list _ I)) as HC. rewrite List.Forall_forall in HC. specialize (HC r Hr).
  rewrite Em in *. apply cstr_app in HC as [_ [_ HC]%cstr_cons]. apply (mask_hits inet_pton u h u' host af p a); (done || lia).
Qed.

(** ** IPv4 alone *)

(** A C library without IPv6 keeps the contract. *)
Definition inet_pton_v4 (af : Z) (s : list Z) : option (list Z) := if af =? AF_INET then inet_pton4 s else None.

Lemma p4_loop_fold s : forall s' st, cstr s -> cstr s' -> map istr_fold s = map istr_fold s' -> p4_loop st s = p4_loop st s'.
Proof.
  induction s as [|x s IH]; intros [|y s'] st Hs Hs' E; try done. cbn [map] in E. injection E as E1 E2.
  apply cstr_cons in Hs as [Hx Hs]. apply cstr_cons in Hs' as [Hy Hs'].
  assert (Ex : p4_step st x = p4_step st y).
  { destruct (decide (x = y)) as [->|Hne]; [done|].
    assert (Hz : forall x y, 0 < x < 256 -> 0 < y < 256 -> istr_fold x = istr_fold y -> x <> y -> p4_step st x = None).
    { clear. intros x y Hx Hy E Hne. pose proof (fold_exact x y ltac:(lia) ltac:(lia) E) as H. unfold p4_step.
      destruct (isdigit x); [destruct Hne; by apply H|]. destruct (Z.eqb_spec x (ch ".")) as [->|]; [destruct Hne; by apply H|done]. }
    rewrite (Hz x y), (Hz y x); done. }
  cbn [p4_loop]. rewrite Ex. destruct (p4_step st y); [|done]. by apply IH.
Qed.

Lemma quad_upper k s q : quad k s q -> map _rfc_toupper s = s.
Proof.
  induction 1 as [ds Hd _ _|k ds s q Hd _ _ Hq IH]; [by apply toupper_digits|].
  rewrite map_app, (toupper_digits ds Hd). cbn [map]. by rewrite IH.
Qed.

Lemma inet_pton_v4_quad af s a : inet_pton_v4 af s = Some a -> af = AF_INET /\ quad 4 s a.
Proof.
  unfold inet_pton_v4. destruct (Z.eqb_spec af AF_INET) as [->|]; [|done].
  rewrite inet_pton4_ref, inet4_ref_quad. done.
Qed.

#[export] Instance inet_pton_v4_ok : InetPton inet_pton_v4.
Proof.
  split.
  - intros af s a _ [-> Hq]%inet_pton_v4_quad. apply quad_bytes in Hq as [Hb Hl].
    split; [by left|]. split; [done|]. by rewrite Hl.
  - intros af s s' Hs Hs' E. unfold inet_pton_v4, inet_pton4. by rewrite (p4_loop_fold s s').
  - intros af s a _ [-> Hq]%inet_pton_v4_quad. apply quad_no_colon in Hq. done.
  - intros af s a _ H. destruct (inet_pton_v4_quad af s a H) as [-> Hq]. rewrite (quad_upper 4 s a Hq).
    unfold op_inet_pton, inet_pton_v4 in *. cbn [Z.eqb AF_INET Pos.eqb] in *. by rewrite H.
Qed.

(** ** Witnesses *)

Definition mops_demo : list mop :=
  [MAdd Ban 1000 [] 100 None (bs "*!*@10.0.0.0/8") (bs "joe") (bs "*net") 0 0;
   MAdd Ban 1001 [] 100 None (bs "*!*@10.1.2.0/24") (bs "joe") (bs "x") 5000 0;
   MAdd Ban 1002 [] 100 None (bs "Fred[away]") (bs "joe") (bs "x") 5000 0;
   MSticky (bs "2") 1; MDel Ban (bs "fred{AWAY}!*@*") true;
   MAdd Ban 1003 [] 100 None (bs "fred{AWAY}!*@*") (bs "joe") (bs "y") 6000 0; MDel Ban (bs "3") true].
(** The same with a mask that is there already. *)
Definition mops_update : list mop :=
  mops_demo ++ [MAdd Ban 1004 [] 100 None (bs "FRED{away}") (bs "ann") (bs "z") 0 0].

Lemma cstr_dec s : forallb (fun c => (0 <? c) && (c <? 256)) s = true -> cstr s.
Proof. intros H. apply List.Forall_forall. intros c Hc. rewrite forallb_forall in H. specialize (H c Hc). lia. Qed.

Definition is_ok {E A} (r : result E A) : bool := match r with Ok _ => true | Err _ => false end.
Lemma mops_update_ok : Forall mop_ok mops_update.
Proof. repeat constructor; try done; by apply cstr_dec. Qed.
Lemma mops_demo_ok : Forall mop_ok mops_demo.
Proof. pose proof mops_update_ok as H. by apply Forall_app in H as [H _]. Qed.

Lemma mask_table_agrees_witness :
  (exists c, do_mops inet_pton_v4 _rfc_toupper true false mops_demo (channel_masks (bs "#egg")) = Ok c /\
    forall mask, cstr mask ->
      u_equals_mask _rfc_casecmp (recs c) (ht c) mask = u_equals_mask _rfc_casecmp (recs c) None mask /\
      u_sticky_mask _rfc_casecmp (recs c) (ht c) mask = u_sticky_mask _rfc_casecmp (recs c) None mask) /\
  some_update inet_pton_v4 _rfc_toupper true false mops_update (channel_masks (bs "#egg")).
Proof.
  pose proof (mask_table_agrees inet_pton_v4 _rfc_toupper true false (Some (bs "#egg")) 16 mops_demo ltac:(lia) ltac:(cbn; lia) mops_demo_ok) as H1.
  pose proof (mask_table_agrees inet_pton_v4 _rfc_toupper true false (Some (bs "#egg")) 16 mops_update ltac:(lia) ltac:(cbn; lia) mops_update_ok) as H2.
  assert (E1 : is_ok (do_mops inet_pton_v4 _rfc_toupper true false mops_demo (channel_masks (bs "#egg"))) = true) by (vm_compute; reflexivity).
  assert (E2 : is_ok (do_mops inet_pton_v4 _rfc_toupper true false mops_update (channel_masks (bs "#egg"))) = false) by (vm_compute; reflexivity).
  cbv zeta in H1, H2.
  change {| owner := Some (bs "#egg"); recs := []; ht := Some (op_htab_create 16); ip_trie := None; fresh := 1 |} with (channel_masks (bs "#egg")) in H1, H2.
  split.
  - destruct (do_mops _ _ _ _ mops_demo _) as [c|e]; [|discriminate E1]. exists c. split; [reflexivity|]. exact (proj2 H1).
  - destruct (do_mops _ _ _ _ mops_update _) as [c|e]; [discriminate E2|]. exact (proj1 H2).
Defined.

Lemma mask_trie_agrees_witness :
  exists c, do_mops inet_pton_v4 _rfc_toupper true false mops_update (set_ht (channel_masks (bs "#egg")) None) = Ok c /\
    (forall c', do_mops inet_pton_v4 _rfc_toupper true false mops_update (channel_masks (bs "#egg")) = Ok c' -> recs c' = recs c /\ ip_trie c' = ip_trie c) /\
    forall u' host, ~ In (ch "@") u' -> ~ In (ch "@") host -> cstr host -> (length (u' ++ ch "@" :: host) <= 323)%nat ->
      Forall (for_everyone u') (recs c) ->
      u_match_mask_trie inet_pton_v4 _rfc_toupper true (recs c) (ip_trie c) (u' ++ ch "@" :: host) =
      u_match_mask _rfc_toupper true (recs c) (u' ++ ch "@" :: host).
Proof. apply (mask_trie_agrees inet_pton_v4 false (bs "#egg") mops_update); [cbn; lia|apply mops_update_ok]. Defined.

(** ** What breaks the tables *)

(** A ban of one user in a network bans everyone in it: the prefix goes into the table without
    the user, and a hit in the table is the answer. *)
Theorem trie_ignores_user :
  match do_mops inet_pton_v4 _rfc_toupper true false
          [MAdd Ban 1000 [] 100 None (bs "bad!*@10.0.0.0/8") (bs "joe") (bs "x") 0 0] (channel_masks (bs "#egg")) with
  | Ok c => u_match_mask_trie inet_pton_v4 _rfc_toupper true (recs c) (ip_trie c) (bs "good!user@10.1.2.3") = 1 /\
            u_match_mask _rfc_toupper true (recs c) (bs "good!user@10.1.2.3") = 0
  | Err _ => False
  end.
Proof. vm_compute. by split. Qed.

