(* ===== verification/ModeQueue.v ===== *)
(** * The channel mode queue (src/mod/irc.mod/mode.c)

    [real_add_mode] collects mode changes of a channel and [flush_mode] sends them as one
    MODE line.  A decoder of MODE lines, as a server reads them, says what a line means. *)

From S2P Require Import Htab Prelude LibC Base64 RegexMatch Match Rfc1459 MsgQueue Strings.
From stdpp Require Import list.
#[local] Open Scope Z_scope.

(** ** Data *)

Definition PLUS : Z := 0x01.
Definition MINUS : Z := 0x02.
Definition CHOP : Z := 0x04.
Definition BAN : Z := 0x08.
Definition VOICE : Z := 0x10.
Definition EXEMPT : Z := 0x20.
Definition INVITE : Z := 0x40.
Definition CHHOP : Z := 0x80.
Definition CHOWN : Z := 0x100.

Definition CHANOP : Z := 0x00001.
Definition CHANVOICE : Z := 0x00002.
Definition SENTOP : Z := 0x00008.
Definition SENTDEOP : Z := 0x00010.
Definition SENTVOICE : Z := 0x00040.
Definition SENTDEVOICE : Z := 0x00080.
Definition CHANHALFOP : Z := 0x01000.
Definition SENTHALFOP : Z := 0x04000.
Definition SENTDEHALFOP : Z := 0x08000.
Definition CHANOWNER : Z := 0x100000.
Definition SENTOWNER : Z := 0x200000.
Definition SENTDEOWNER : Z := 0x400000.

Definition NOHALFOPS_MODES : list Z := bs "ahoq".

(** An entry of [cmode]: its type and its argument; [None] when the type is 0 (the
    argument is set and freed together with it). *)
Definition cmode_t : Type := option (Z * list Z).

Record memstruct := { nick : list Z; m_flags : Z }.

(** The fields of [struct chanset_t] used here; the lists of masks are those set on the
    channel. *)
Record chanset_t := {
  name : list Z;
  pls : list Z; mns : list Z;           (* char[21] *)
  key : option (list Z); rmkey : option (list Z);
  limit : Z; bytes : Z; compat : Z;
  cmode : list cmode_t;
  members : list memstruct;
  bans : list (list Z); exempts : list (list Z); invites : list (list Z);
  me_op : bool; me_halfop : bool
}.

(** The settings.  [rfc_compliant] is the choice of the [rfc_casecmp] pointer (modules.c);
    [indexed] says that the hash tables of the channel ([member_ht], [ban_ht], ...) are
    there. *)
Record mode_conf := {
  rfc_compliant : bool; indexed : bool;
  modesperline : Z; mode_buf_len : Z; prevent_mixing : bool; include_lk : bool;
  max_bans : Z; max_exempts : Z; max_invites : Z; max_modes : Z
}.

Inductive pri_t : Type := QUICK | NORMAL.

(** A line for one of the queues of the server module. *)
Definition sent_line : Type := Z * list Z.

Definition set_lists (c : chanset_t) (p m : list Z) : chanset_t :=
  {| name := name c; pls := p; mns := m; key := key c; rmkey := rmkey c; limit := limit c;
     bytes := bytes c; compat := compat c; cmode := cmode c; members := members c;
     bans := bans c; exempts := exempts c; invites := invites c; me_op := me_op c; me_halfop := me_halfop c |}.
Definition set_args (c : chanset_t) (k rk : option (list Z)) (l : Z) : chanset_t :=
  {| name := name c; pls := pls c; mns := mns c; key := k; rmkey := rk; limit := l;
     bytes := bytes c; compat := compat c; cmode := cmode c; members := members c;
     bans := bans c; exempts := exempts c; invites := invites c; me_op := me_op c; me_halfop := me_halfop c |}.
Definition set_count (c : chanset_t) (b k : Z) : chanset_t :=
  {| name := name c; pls := pls c; mns := mns c; key := key c; rmkey := rmkey c; limit := limit c;
     bytes := b; compat := k; cmode := cmode c; members := members c;
     bans := bans c; exempts := exempts c; invites := invites c; me_op := me_op c; me_halfop := me_halfop c |}.
Definition set_cmode (c : chanset_t) (ms : list cmode_t) : chanset_t :=
  {| name := name c; pls := pls c; mns := mns c; key := key c; rmkey := rmkey c; limit := limit c;
     bytes := bytes c; compat := compat c; cmode := ms; members := members c;
     bans := bans c; exempts := exempts c; invites := invites c; me_op := me_op c; me_halfop := me_halfop c |}.
Definition set_members (c : chanset_t) (ms : list memstruct) : chanset_t :=
  {| name := name c; pls := pls c; mns := mns c; key := key c; rmkey := rmkey c; limit := limit c;
     bytes := bytes c; compat := compat c; cmode := cmode c; members := ms;
     bans := bans c; exempts := exempts c; invites := invites c; me_op := me_op c; me_halfop := me_halfop c |}.

(** ** [flush_mode] *)

(** The buffers: [out] and the sign it is at (0 minus, 1 plus, 2 none), [post] and the
    room that [postsize] says is left. *)
Record flush_t := { f_out : list Z; f_plus : Z; f_post : list Z; f_postsize : Z }.

Definition POST : Z := 512.

(** [if (plus != want) *p++ = sign, plus = want; *p++ = letter]. *)
Definition put_letter (want letter : Z) (f : flush_t) : flush_t :=
  {| f_out := f_out f ++ (if f_plus f =? want then [] else [if want =? 1 then ch "+" else ch "-"]) ++ [letter];
     f_plus := want; f_post := f_post f; f_postsize := f_postsize f |}.

(** [postsize -= egg_strcatn(post, s, sizeof(post))] *)
Definition put_post (s : list Z) (f : flush_t) : flush_t :=
  let '(post, n) := egg_strcatn (f_post f) s POST in
  {| f_out := f_out f; f_plus := f_plus f; f_post := post; f_postsize := f_postsize f - n |}.
Definition put_arg (s : list Z) (f : flush_t) : flush_t := put_post [ch " "] (put_post s f).

(** The limit is written over the terminator of [post]. *)
Definition put_limit (l : Z) (f : flush_t) : flush_t :=
  let s := op_strlcpy (int_to_base10 l ++ [ch " "]) (f_postsize f + 1) in
  {| f_out := f_out f; f_plus := f_plus f;
     f_post := take (Z.to_nat (POST - 1 - f_postsize f)) (f_post f) ++ s;
     f_postsize := f_postsize f - Z.of_nat (length s) |}.

Definition mode_letter (type : Z) : Z :=
  if type &? BAN then ch "b"
  else if type &? CHOP then ch "o"
  else if type &? CHHOP then ch "h"
  else if type &? EXEMPT then ch "e"
  else if type &? INVITE then ch "I"
  else if type &? CHOWN then ch "q"
  else ch "v".

(** One of the two loops over [cmode]: the entries of one sign whose argument fits. *)
Fixpoint put_cmodes (mask want : Z) (ms : list cmode_t) (f : flush_t) : list cmode_t * flush_t :=
  match ms with
  | [] => ([], f)
  | m :: ms =>
      match m with
      | Some (type, op) =>
          if (type &? mask) && (Z.of_nat (length op) <? f_postsize f) then
            let '(ms, f) := put_cmodes mask want ms (put_arg op (put_letter want (mode_letter type) f)) in
            (None :: ms, f)
          else let '(ms, f) := put_cmodes mask want ms f in (m :: ms, f)
      | None => let '(ms, f) := put_cmodes mask want ms f in (m :: ms, f)
      end
  end.

(** Only the first [modesperline] entries are looked at. *)
Definition on_line (cf : mode_conf) (ms : list cmode_t) : list cmode_t * list cmode_t :=
  (take (Z.to_nat (modesperline cf)) ms, drop (Z.to_nat (modesperline cf)) ms).

(** The end: the last space goes, and the arguments follow the letters. *)
Definition finish (f : flush_t) : list Z :=
  match f_post f with
  | [] => f_out f
  | _ =>
      let index := POST - 1 - f_postsize f in
      let post := if (0 <? index) && (nth (Z.to_nat (index - 1)) (f_post f) 0 =? ch " ")
                  then take (Z.to_nat (index - 1)) (f_post f) else f_post f in
      fst (egg_strcatn (fst (egg_strcatn (f_out f) [ch " "] POST)) post POST)
  end.

(** The letters without arguments. *)
Definition flush_letters (c : chanset_t) : chanset_t * flush_t :=
  let f := {| f_out := []; f_plus := 2; f_post := []; f_postsize := POST - 1 |} in
  let f := match mns c with [] => f
           | m => {| f_out := f_out f ++ ch "-" :: m; f_plus := 0; f_post := f_post f; f_postsize := f_postsize f |} end in
  let f := match pls c with [] => f
           | p => {| f_out := f_out f ++ ch "+" :: p; f_plus := 1; f_post := f_post f; f_postsize := f_postsize f |} end in
  (set_count (set_lists c [] []) 0 0, f).

(** "+k or +l ?"  A key stays while one is to be removed. *)
Definition flush_key (c : chanset_t) (f : flush_t) : chanset_t * flush_t :=
  match key c, rmkey c with
  | Some k, None => (set_args c None None (limit c), put_arg k (put_letter 1 (ch "k") f))
  | _, _ => (c, f)
  end.
Definition flush_limit (c : chanset_t) (f : flush_t) : chanset_t * flush_t :=
  if negb (limit c =? 0) && (12 <=? f_postsize f)
  then (set_args c (key c) (rmkey c) 0, put_limit (limit c) (put_letter 1 (ch "l") f))
  else (c, f).
(** "-k ?" *)
Definition flush_rmkey (c : chanset_t) (f : flush_t) : chanset_t * flush_t :=
  match rmkey c with
  | Some k => (set_args c (key c) None (limit c), put_arg k (put_letter 0 (ch "k") f))
  | None => (c, f)
  end.
(** The entries: those that remove before those that set. *)
Definition flush_cmodes (cf : mode_conf) (c : chanset_t) (f : flush_t) : chanset_t * flush_t :=
  let '(ms, rest) := on_line cf (cmode c) in
  let '(ms, f) := put_cmodes MINUS 0 ms f in
  let '(ms, f) := put_cmodes PLUS 1 ms f in
  (set_cmode c (ms ++ rest), f).

Definition flush_mode (cf : mode_conf) (c : chanset_t) (pri : pri_t) : chanset_t * list sent_line :=
  let '(c, f) := flush_letters c in
  let '(c, f) := flush_key c f in
  let '(c, f) := flush_limit c f in
  let '(c, f) := flush_rmkey c f in
  let '(c, f) := flush_cmodes cf c f in
  match finish f with
  | [] => (c, [])
  | out => (c, [(match pri with QUICK => DP_MODE | NORMAL => DP_SERVER end,
                 bs "MODE " ++ name c ++ ch " " :: out)])
  end.

(** ** [real_add_mode] *)

(** Letters that take the nick of a member. *)
Definition member_mode (mode : Z) : bool := mem mode (bs "ohvq").

(** For each of them: the flags "sent" and "has", by sign. *)
Definition sent_flag (plus mode : Z) : Z :=
  if mode =? ch "o" then (if plus =? ch "-" then SENTDEOP else SENTOP)
  else if mode =? ch "h" then (if plus =? ch "-" then SENTDEHALFOP else SENTHALFOP)
  else if mode =? ch "v" then (if plus =? ch "-" then SENTDEVOICE else SENTVOICE)
  else (if plus =? ch "-" then SENTDEOWNER else SENTOWNER).
Definition has_flag (mode : Z) : Z :=
  if mode =? ch "o" then CHANOP
  else if mode =? ch "h" then CHANHALFOP
  else if mode =? ch "v" then CHANVOICE
  else CHANOWNER.

(** [!rfc_casecmp(a, b)] *)
Definition same_rfc (cf : mode_conf) (a b : list Z) : bool :=
  if rfc_compliant cf then _rfc_casecmp a b =? 0 else same_name a b.

(** The key of an entry as [ismember] and [ismodeline] compare it: through the hash table,
    or along the list. *)
Definition found (cf : mode_conf) (a b : list Z) : bool :=
  if indexed cf then htab_eq_istr a b else same_rfc cf a b.

(** The member's flags after the checks; [None] when one of them returns. *)
Fixpoint mark_member (cf : mode_conf) (plus mode : Z) (op : list Z) (ms : list memstruct) : option (list memstruct) :=
  match ms with
  | [] => None
  | m :: ms =>
      if found cf (nick m) op then
        let blocked :=
          if plus =? ch "-" then (m_flags m &? sent_flag plus mode) || negb (m_flags m &? has_flag mode)
          else (plus =? ch "+") && ((m_flags m &? sent_flag plus mode) || (m_flags m &? has_flag mode)) in
        if blocked then None
        else
          let fl := if (plus =? ch "-") || (plus =? ch "+") then m_flags m ||| sent_flag plus mode else m_flags m in
          Some ({| nick := nick m; m_flags := fl |} :: ms)
      else cons m <$> mark_member cf plus mode op ms
  end.

Definition op_mode (mode : Z) : bool := mem mode (bs "ohbveIq").
Definition mode_type (plus mode : Z) : Z :=
  Z.lor (if plus =? ch "+" then PLUS else MINUS)
    (if mode =? ch "o" then CHOP else if mode =? ch "h" then CHHOP
     else if mode =? ch "b" then BAN else if mode =? ch "v" then VOICE
     else if mode =? ch "e" then EXEMPT else if mode =? ch "q" then CHOWN else INVITE).

(** The list of masks of a letter, for b, e and I. *)
Definition mask_list (c : chanset_t) (mode : Z) : option (list (list Z)) :=
  if mode =? ch "b" then Some (bans c)
  else if mode =? ch "e" then Some (exempts c)
  else if mode =? ch "I" then Some (invites c)
  else None.

(** Nothing to do, or the lists of the channel are full. *)
Definition mask_blocked (cf : mode_conf) (c : chanset_t) (plus mode : Z) (op : list Z) : bool :=
  match mask_list c mode with
  | None => false
  | Some l =>
      let set := existsb (fun m => found cf m op) l in
      ((plus =? ch "-") && negb set) || ((plus =? ch "+") && set) ||
      ((plus =? ch "+") &&
       ((if mode =? ch "b" then max_bans cf <=? Z.of_nat (length (bans c)) else false) ||
        (if mode =? ch "e" then max_exempts cf <=? Z.of_nat (length (exempts c)) else false) ||
        (if mode =? ch "I" then max_invites cf <=? Z.of_nat (length (invites c)) else false) ||
        (max_modes cf <=? Z.of_nat (length (bans c) + length (exempts c) + length (invites c)))))
  end.

(** The first free entry of the line takes the change; the bytes it adds. *)
Fixpoint take_entry (n : nat) (type : Z) (op : list Z) (ms : list cmode_t) : list cmode_t * bool :=
  match n, ms with
  | S n, None :: ms => (Some (type, op) :: ms, true)
  | S n, m :: ms => let '(ms, b) := take_entry n type op ms in (m :: ms, b)
  | _, _ => (ms, false)
  end.

(** A letter written past the 20 that fit in [pls] or [mns]. *)
Inductive overflow : Type := BufferOverflow.

Definition add_letter (l : list Z) (mode : Z) : result overflow (list Z) :=
  if (mode =? 0) || mem mode l then Ok l
  else if 20 <=? Z.of_nat (length l) then Err BufferOverflow
  else Ok (l ++ [mode]).

(** Entries with a type, of a line. *)
Definition used (ms : list cmode_t) : nat :=
  length (List.filter (fun m : cmode_t => match m with Some _ => true | None => false end) ms).

Definition entries_left (cf : mode_conf) (c : chanset_t) : Z :=
  modesperline cf
  - Z.of_nat (used (fst (on_line cf (cmode c))))
  - (if include_lk cf && negb (limit c =? 0) then 1 else 0)
  - (if include_lk cf && bool_decide (rmkey c ≠ None) then 1 else 0)
  - (if include_lk cf && bool_decide (key c ≠ None) then 1 else 0).

(** "prevent mixing": modes e and I do not share a line with others. *)
Definition compat_step (cf : mode_conf) (c : chanset_t) (mode : Z) : chanset_t * list sent_line :=
  let new := (mode =? ch "e") || (mode =? ch "I") in
  if compat c =? 0 then (set_count c (bytes c) (if new then 2 else 1), [])
  else if new then (if prevent_mixing cf && (compat c =? 1) then flush_mode cf c NORMAL else (c, []))
  else if prevent_mixing cf && (compat c =? 2) then flush_mode cf c NORMAL else (c, []).

(** The change is put where it belongs; [None] when that returns early. *)
Definition store_mode (cf : mode_conf) (c : chanset_t) (plus mode : Z) (op : list Z)
  : result overflow (option (chanset_t * list sent_line)) :=
  if op_mode mode then
    let type := mode_type plus mode in
    if mask_blocked cf c plus mode op then Ok None
    else if existsb (fun m => match m with Some (t, o) => (t =? type) && same_rfc cf o op | None => false end)
              (fst (on_line cf (cmode c))) then Ok None
    else
      let l := Z.of_nat (length op) + 1 in
      let '(c, out) := if mode_buf_len cf <? bytes c + l then flush_mode cf c NORMAL else (c, []) in
      let '(ms, taken) := take_entry (Z.to_nat (modesperline cf)) type op (cmode c) in
      Ok (Some (set_count (set_cmode c ms) (if taken then bytes c + l else bytes c) (compat c), out))
  else if (plus =? ch "+") && (mode =? ch "k") then Ok (Some (set_args c (Some op) (rmkey c) (limit c), []))
  else if (plus =? ch "-") && (mode =? ch "k") then Ok (Some (set_args c (key c) (Some op) (limit c), []))
  else if (plus =? ch "+") && (mode =? ch "l") then Ok (Some (set_args c (key c) (rmkey c) (egg_atoi op), []))
  else if plus =? ch "+" then
    let! p := add_letter (pls c) mode in Ok (Some (set_lists c p (mns c), []))
  else
    let! m := add_letter (mns c) mode in Ok (Some (set_lists c (pls c) m, [])).

Definition real_add_mode (cf : mode_conf) (c : chanset_t) (plus mode : Z) (op : list Z)
  : result overflow (chanset_t * list sent_line) :=
  if negb (me_op c) && (negb (me_halfop c) || ((mode =? 0) || mem mode NOHALFOPS_MODES)) then Ok (c, [])
  else
    match (if member_mode mode then mark_member cf plus mode op (members c) else Some (members c)) with
    | None => Ok (c, [])
    | Some ms =>
        let c := set_members c ms in
        let '(c, out1) := compat_step cf c mode in
        let! r := store_mode cf c plus mode op in
        match r with
        | None => Ok (c, out1)
        | Some (c, out2) =>
            let '(c, out3) := if entries_left cf c <? 1 then flush_mode cf c NORMAL else (c, []) in
            Ok (c, out1 ++ out2 ++ out3)
        end
    end.
