(* ===== verification/ModeQueueProps.v ===== *)
(** * What the mode queue promises

    The line that [flush_mode] sends means the changes that were pending, as a server
    reads it; [real_add_mode] loses and doubles nothing, and keeps the queue within one
    line; and the order of requests that a line cannot keep. *)

From S2P Require Import Htab HtabMap Prelude LibC Base64 RegexMatch Match Rfc1459 MsgQueue Strings ModeQueue.
From stdpp Require Import list.
#[local] Open Scope Z_scope.

(** ** How a server reads a MODE line *)

(** A change: whether it sets, its letter, its argument. *)
Definition change : Type := bool * Z * option (list Z).

Definition takes_arg (sign : bool) (c : Z) : bool := mem c (bs "ohbveIqk") || (sign && (c =? ch "l")).

Fixpoint decode (sign : bool) (letters : list Z) (args : list (list Z)) : option (list change) :=
  match letters with
  | [] => Some []
  | c :: ls =>
      if c =? ch "+" then decode true ls args
      else if c =? ch "-" then decode false ls args
      else if takes_arg sign c then
        match args with
        | a :: args => cons (sign, c, Some a) <$> decode sign ls args
        | [] => None
        end
      else cons (sign, c, None) <$> decode sign ls args
  end.

Fixpoint split_sp (cur s : list Z) : list (list Z) :=
  match s with
  | [] => [cur]
  | c :: s => if c =? ch " " then cur :: split_sp [] s else split_sp (cur ++ [c]) s
  end.

Definition decode_line (s : list Z) : option (list change) :=
  let '(letters, rest) := split_at (ch " ") s in
  decode true letters (match rest with Some r => split_sp [] r | None => [] end).

(** ** The changes that are pending *)

Definition item (mask : Z) (sign : bool) (m : cmode_t) : list change :=
  match m with
  | Some (t, op) => if t &? mask then [(sign, mode_letter t, Some op)] else []
  | None => []
  end.
Definition items_of (mask : Z) (sign : bool) (ms : list cmode_t) : list change := flat_map (item mask sign) ms.

(** In the order of a line.  A key is not set in the line that removes one. *)
Definition key_item (c : chanset_t) : list change :=
  match key c, rmkey c with Some k, None => [(true, ch "k", Some k)] | _, _ => [] end.
Definition limit_item (c : chanset_t) : list change :=
  if limit c =? 0 then [] else [(true, ch "l", Some (int_to_base10 (limit c)))].
Definition rmkey_item (c : chanset_t) : list change :=
  match rmkey c with Some k => [(false, ch "k", Some k)] | None => [] end.
Definition to_send (c : chanset_t) : list change :=
  (map (fun l => (false, l, None)) (mns c) ++ map (fun l => (true, l, None)) (pls c)) ++
  key_item c ++ limit_item c ++ rmkey_item c ++ items_of MINUS false (cmode c) ++ items_of PLUS true (cmode c).

(** The bytes a change takes, at most. *)
Definition arg_cost (x : change) : Z := match x with (_, _, Some a) => Z.of_nat (length a) + 1 | _ => 0 end.
Definition cost (L : list change) : Z := foldr (fun x n => 2 + arg_cost x + n) 0 L.

Lemma cost_app L1 L2 : cost (L1 ++ L2) = cost L1 + cost L2.
Proof. induction L1 as [|x L1 IH]; cbn [cost foldr app]; [done|]. fold (cost (L1 ++ L2)) (cost L1). lia. Qed.

Lemma arg_cost_nonneg x : 0 <= arg_cost x.
Proof. destruct x as [[? ?] [a|]]; cbn; lia. Qed.

Lemma cost_nonneg L : 0 <= cost L.
Proof. induction L as [|x L IH]; cbn; [done|]. fold (cost L). pose proof (arg_cost_nonneg x). lia. Qed.

Lemma cost_app_l L1 L2 n : cost (L1 ++ L2) <= n -> cost L1 <= n.
Proof. rewrite cost_app. pose proof (cost_nonneg L2). lia. Qed.

Lemma cost_arg L s c a n : cost (L ++ [(s, c, Some a)]) <= n -> cost L + Z.of_nat (length a) + 3 <= n.
Proof. rewrite cost_app. cbn [cost foldr arg_cost]. lia. Qed.

(** The letters that need no argument, and what may be an argument. *)
Definition plain_letter (sign : bool) (c : Z) : Prop :=
  c <> ch "+" /\ c <> ch "-" /\ c <> ch " " /\ takes_arg sign c = false.
Definition no_space (a : list Z) : Prop := ~ In (ch " ") a.

Definition valid_types : list Z :=
  flat_map (fun p => map (mode_type p) (bs "ohbveIq")) (bs "+-").
Definition valid_entry (m : cmode_t) : Prop :=
  match m with Some (t, op) => In t valid_types /\ no_space op | None => True end.

(** The entries that a line does not reach are free. *)
Definition past_line_free (cf : mode_conf) (ms : list cmode_t) : Prop :=
  drop (Z.to_nat (modesperline cf)) ms = replicate (length ms - Z.to_nat (modesperline cf)) None.

Definition valid (cf : mode_conf) (c : chanset_t) : Prop :=
  Forall (plain_letter false) (mns c) /\ Forall (plain_letter true) (pls c) /\
  (forall k, key c = Some k -> no_space k) /\ (forall k, rmkey c = Some k -> no_space k) /\
  Forall valid_entry (cmode c) /\ past_line_free cf (cmode c).

(** ** The buffers after some changes *)

Definition want_of (sign : bool) : Z := if sign then 1 else 0.

(** The letters of a line that is at sign [p]. *)
Fixpoint render (p : Z) (L : list change) : list Z :=
  match L with
  | [] => []
  | (s, c, _) :: L =>
      (if p =? want_of s then [] else [if s then ch "+" else ch "-"]) ++ c :: render (want_of s) L
  end.
Definition sign_after (p : Z) (L : list change) : Z :=
  match List.last (map Some L) None with Some (s, _, _) => want_of s | None => p end.
Definition args_post (L : list change) : list Z :=
  flat_map (fun x : change => match snd x with Some a => a ++ [ch " "] | None => [] end) L.

Lemma last_map_snoc (L : list change) x : List.last (map Some (L ++ [x])) None = Some x.
Proof. rewrite map_app. apply List.last_last. Qed.

Lemma sign_after_cons p x L : sign_after p (x :: L) = sign_after (want_of (fst (fst x))) L.
Proof.
  destruct x as [[s c] a]. unfold sign_after. cbn [map fst]. destruct L as [|y L]; [done|]. cbn [map].
  change (List.last (Some (s, c, a) :: Some y :: map Some L) None) with (List.last (Some y :: map Some L) None).
  destruct (List.last (Some y :: map Some L) None) as [[[? ?] ?]|] eqn:E; [done|].
  exfalso. revert E. clear. revert y. induction L as [|z L IH]; intros y; cbn; [done|apply (IH z)].
Qed.

Lemma render_snoc L : forall p s c a,
  render p (L ++ [(s, c, a)]) =
  render p L ++ (if sign_after p L =? want_of s then [] else [if s then ch "+" else ch "-"]) ++ [c].
Proof.
  induction L as [|[[s' c'] a'] L IH]; intros p s c a; [done|].
  cbn [app render]. rewrite IH, sign_after_cons. cbn [fst]. by rewrite <- !app_assoc.
Qed.

Lemma args_post_app L1 L2 : args_post (L1 ++ L2) = args_post L1 ++ args_post L2.
Proof. apply flat_map_app. Qed.

Lemma args_post_cost L : Z.of_nat (length (args_post L)) + 2 * Z.of_nat (length L) = cost L.
Proof.
  induction L as [|[[s c] [a|]] L IH]; cbn; [done| |]; fold (cost L) (args_post L);
    rewrite ?length_app; cbn; lia.
Qed.

Lemma render_length p L : Z.of_nat (length (render p L)) <= 2 * Z.of_nat (length L).
Proof.
  revert p. induction L as [|[[s c] a] L IH]; intros p; cbn [render length]; [done|].
  rewrite length_app. cbn [length]. specialize (IH (want_of s)). case_if; cbn; lia.
Qed.

(** [f] is the state of the buffers after the changes [L]. *)
Record built (f : flush_t) (L : list change) : Prop := {
  b_out : f_out f = render 2 L;
  b_plus : f_plus f = sign_after 2 L;
  b_post : f_post f = args_post L;
  b_size : f_postsize f = POST - 1 - Z.of_nat (length (args_post L))
}.

Lemma egg_strcatn_fits dst src : Z.of_nat (length dst) + Z.of_nat (length src) <= POST - 1 ->
  egg_strcatn dst src POST = (dst ++ src, Z.of_nat (length src)).
Proof.
  intros H. rewrite egg_strcatn_take by lia. rewrite Z.min_l by lia.
  rewrite take_ge; [done|]. rewrite length_app. lia.
Qed.

Lemma put_post_fits s f : Z.of_nat (length (f_post f)) + Z.of_nat (length s) <= POST - 1 ->
  put_post s f = {| f_out := f_out f; f_plus := f_plus f; f_post := f_post f ++ s;
                    f_postsize := f_postsize f - Z.of_nat (length s) |}.
Proof. intros H. unfold put_post. by rewrite egg_strcatn_fits by exact H. Qed.

Lemma put_arg_fits a f : Z.of_nat (length (f_post f)) + Z.of_nat (length a) + 1 <= POST - 1 ->
  put_arg a f = {| f_out := f_out f; f_plus := f_plus f; f_post := f_post f ++ a ++ [ch " "];
                   f_postsize := f_postsize f - (Z.of_nat (length a) + 1) |}.
Proof.
  intros H. unfold put_arg. rewrite (put_post_fits a) by lia. rewrite put_post_fits.
  - cbn [f_out f_plus f_post f_postsize length]. rewrite <- app_assoc. f_equal. lia.
  - cbn [f_post length]. rewrite length_app. lia.
Qed.

Lemma built_put_arg f L s c a :
  built f L -> cost (L ++ [(s, c, Some a)]) <= POST - 1 ->
  built (put_arg a (put_letter (want_of s) c f)) (L ++ [(s, c, Some a)]).
Proof.
  intros [E1 E2 E3 E4] Hc. rewrite cost_app in Hc. pose proof (args_post_cost L) as Hl.
  cbn [cost foldr arg_cost] in Hc. fold (cost L) in Hc.
  rewrite put_arg_fits by (cbn [put_letter f_post]; rewrite E3; lia).
  unfold put_letter. split; cbn [f_post f_postsize f_out f_plus].
  - rewrite render_snoc, E1, E2. by destruct s.
  - unfold sign_after. by rewrite last_map_snoc.
  - rewrite args_post_app, E3. cbn. by rewrite app_nil_r.
  - rewrite E4, args_post_app, length_app. cbn. rewrite app_nil_r, length_app. cbn. lia.
Qed.

Lemma int_to_base10_short v : (length (int_to_base10 v) <= 21)%nat.
Proof.
  assert (H : forall fuel v out, (length (dec_loop fuel v out) <= fuel + length out)%nat).
  { induction fuel as [|fuel IH]; intros w out; cbn [dec_loop]; [lia|]. cbv zeta. case_if; cbn [length]; [lia|].
    specialize (IH (w / 10) ((48 + w mod 10) :: out)). cbn [length] in IH. lia. }
  unfold int_to_base10. case_if; [cbn [length]; specialize (H 20%nat (- v) [])|specialize (H 20%nat v [])];
    cbn [length] in *; lia.
Qed.

Lemma built_put_limit f L l : built f L -> cost (L ++ [(true, ch "l", Some (int_to_base10 l))]) <= POST - 1 ->
  built (put_limit l (put_letter 1 (ch "l") f)) (L ++ [(true, ch "l", Some (int_to_base10 l))]).
Proof.
  set (s := int_to_base10 l).
  intros [E1 E2 E3 E4] Hc. rewrite cost_app in Hc. pose proof (args_post_cost L) as Hl.
  cbn [cost foldr arg_cost] in Hc. unfold put_limit, put_letter. fold s. cbn [f_post f_postsize f_out f_plus].
  assert (Es : op_strlcpy (s ++ [ch " "]) (f_postsize f + 1) = s ++ [ch " "]).
  { unfold op_strlcpy. apply take_ge. rewrite length_app. cbn. lia. }
  rewrite Es. split; cbn [f_post f_postsize f_out f_plus].
  - rewrite render_snoc, E1, E2. done.
  - unfold sign_after. by rewrite last_map_snoc.
  - rewrite E3, E4, take_ge by lia. rewrite args_post_app. cbn. by rewrite app_nil_r.
  - rewrite E4, args_post_app. unfold args_post at 3. cbn [flat_map snd]. rewrite app_nil_r, !length_app. lia.
Qed.

(** The two groups of letters without arguments. *)
Lemma render_plain (s : bool) ls : forall p, render p (map (fun l => (s, l, None)) ls) =
  match ls with [] => [] | _ => (if p =? want_of s then [] else [if s then ch "+" else ch "-"]) ++ ls end.
Proof.
  assert (H : forall ls, render (want_of s) (map (fun l => (s, l, None)) ls) = ls).
  { induction ls0 as [|l ls0 IH]; [done|]. cbn [map render]. by rewrite Z.eqb_refl, IH. }
  intros p. destruct ls as [|l ls]; [done|]. cbn [map render]. by rewrite H.
Qed.

Lemma args_post_plain (s : bool) ls : args_post (map (fun l => (s, l, None)) ls) = [].
Proof. by induction ls. Qed.

Lemma render_app L1 : forall p L2, render p (L1 ++ L2) = render p L1 ++ render (sign_after p L1) L2.
Proof.
  induction L1 as [|[[s c] a] L1 IH]; intros p L2; [done|]. cbn [app render].
  rewrite IH, sign_after_cons. cbn [fst]. by rewrite <- app_assoc.
Qed.

Lemma sign_after_snoc p L s c a : sign_after p (L ++ [(s, c, a)]) = want_of s.
Proof. unfold sign_after. by rewrite last_map_snoc. Qed.

Lemma sign_after_app L1 : forall p L2, sign_after p (L1 ++ L2) = sign_after (sign_after p L1) L2.
Proof. induction L1 as [|x L1 IH]; intros p L2; [done|]. cbn [app]. by rewrite !sign_after_cons. Qed.

Lemma sign_after_plain (s : bool) ls : forall p, sign_after p (map (fun l => (s, l, None)) ls) =
  match ls with [] => p | _ => want_of s end.
Proof.
  induction ls as [|l ls IH]; intros p; [done|]. cbn [map]. rewrite sign_after_cons, IH. by destruct ls.
Qed.

Lemma built_letters c : built (snd (flush_letters c))
  (map (fun l => (false, l, None)) (mns c) ++ map (fun l => (true, l, None)) (pls c)).
Proof.
  assert (Ha : args_post (map (fun l => (false, l, None)) (mns c) ++ map (fun l => (true, l, None)) (pls c)) = []).
  { by rewrite args_post_app, !args_post_plain. }
  split; rewrite ?Ha, ?sign_after_app, ?render_app, ?render_plain, ?sign_after_plain; unfold flush_letters;
    destruct (mns c), (pls c); cbn; rewrite ?app_nil_r; done.
Qed.

(** ** One loop over the entries *)

Definition drop_mask (mask : Z) (m : cmode_t) : cmode_t :=
  match m with Some (t, _) => if t &? mask then None else m | None => None end.

Lemma built_cmodes mask (s : bool) ms : forall f L,
  built f L -> cost (L ++ items_of mask s ms) <= POST - 1 ->
  exists f', put_cmodes mask (want_of s) ms f = (map (drop_mask mask) ms, f') /\ built f' (L ++ items_of mask s ms).
Proof.
  induction ms as [|[[t op]|] ms IH]; intros f L Hb Hc; cbn [put_cmodes map drop_mask].
  - exists f. unfold items_of. cbn [flat_map]. by rewrite app_nil_r.
  - unfold items_of in Hc |- *. cbn [flat_map item] in Hc |- *. fold (items_of mask s ms) in Hc |- *.
    destruct (t &? mask) eqn:Et; cbn [andb].
    + rewrite (app_assoc L [_]) in Hc |- *.
      assert (Hc' : cost (L ++ [(s, mode_letter t, Some op)]) <= POST - 1).
      { exact (cost_app_l _ _ _ Hc). }
      pose proof (args_post_cost L) as Hl. pose proof (cost_arg _ _ _ _ _ Hc') as Hr.
      rewrite (proj2 (Z.ltb_lt _ _)) by (rewrite (b_size _ _ Hb); lia).
      destruct (IH (put_arg op (put_letter (want_of s) (mode_letter t) f)) (L ++ [(s, mode_letter t, Some op)]))
        as (f' & -> & Hb'); [by apply built_put_arg|exact Hc|by exists f'].
    + destruct (IH f L Hb Hc) as (f' & -> & Hb'). by exists f'.
  - destruct (IH f L Hb Hc) as (f' & -> & Hb'). by exists f'.
Qed.

Lemma drop_minus_plus ms : Forall valid_entry ms ->
  items_of PLUS true (map (drop_mask MINUS) ms) = items_of PLUS true ms /\
  map (drop_mask PLUS) (map (drop_mask MINUS) ms) = replicate (length ms) None.
Proof.
  induction 1 as [|m ms Hm _ [IH1 IH2]]; [done|]. cbn [map items_of flat_map length replicate]. fold (items_of PLUS true).
  unfold items_of in *. cbn [flat_map]. rewrite IH1, IH2. destruct m as [[t op]|]; [|done].
  destruct Hm as [Ht _]. cbn in Ht.
  repeat (destruct Ht as [<-|Ht]; [split; reflexivity|]). done.
Qed.

Lemma flush_letters_state c : fst (flush_letters c) = set_count (set_lists c [] []) 0 0.
Proof. done. Qed.

Lemma flush_key_built c f L : built f L -> cost (L ++ key_item c) <= POST - 1 ->
  exists f', flush_key c f =
    (match key c, rmkey c with Some _, None => set_args c None None (limit c) | _, _ => c end, f') /\
    built f' (L ++ key_item c).
Proof.
  intros B Hc. unfold flush_key, key_item in *.
  destruct (key c) as [k|]; [destruct (rmkey c) as [k'|]|]; eexists; (split; [reflexivity|]);
    rewrite ?app_nil_r; [done| |done].
  by apply (built_put_arg f L true (ch "k") k).
Qed.

Lemma flush_limit_built c f L : built f L -> cost (L ++ limit_item c) <= POST - 12 ->
  exists f', flush_limit c f =
    (if limit c =? 0 then c else set_args c (key c) (rmkey c) 0, f') /\ built f' (L ++ limit_item c).
Proof.
  intros B Hc. unfold flush_limit, limit_item in *. destruct (limit c =? 0); cbn [negb andb].
  - eexists. split; [reflexivity|]. by rewrite app_nil_r.
  - pose proof (cost_arg _ _ _ _ _ Hc) as Hr. pose proof (args_post_cost L) as Hl.
    rewrite (proj2 (Z.leb_le _ _)) by (rewrite (b_size _ _ B); lia).
    eexists. split; [reflexivity|]. apply built_put_limit; [done|]. lia.
Qed.

Lemma flush_rmkey_built c f L : built f L -> cost (L ++ rmkey_item c) <= POST - 1 ->
  exists f', flush_rmkey c f =
    (match rmkey c with Some _ => set_args c (key c) None (limit c) | None => c end, f') /\
    built f' (L ++ rmkey_item c).
Proof.
  intros B Hc. unfold flush_rmkey, rmkey_item in *.
  destruct (rmkey c) as [k|]; eexists; (split; [reflexivity|]); rewrite ?app_nil_r; [|done].
  by apply (built_put_arg f L false (ch "k") k).
Qed.

Lemma items_none mask s n : items_of mask s (replicate n None) = [].
Proof. by induction n. Qed.

Lemma items_app mask s l1 l2 : items_of mask s (l1 ++ l2) = items_of mask s l1 ++ items_of mask s l2.
Proof. apply flat_map_app. Qed.

Lemma flush_cmodes_built cf c f L : built f L ->
  Forall valid_entry (cmode c) -> past_line_free cf (cmode c) ->
  cost (L ++ items_of MINUS false (cmode c) ++ items_of PLUS true (cmode c)) <= POST - 1 ->
  exists f', flush_cmodes cf c f = (set_cmode c (replicate (length (cmode c)) None), f') /\
    built f' (L ++ items_of MINUS false (cmode c) ++ items_of PLUS true (cmode c)).
Proof.
  intros B Hv Hm Hc. unfold flush_cmodes, on_line. unfold past_line_free in Hm.
  set (n := Z.to_nat (modesperline cf)) in *. rewrite Hm.
  assert (Ei : forall mask s, items_of mask s (cmode c) = items_of mask s (take n (cmode c))).
  { intros mask s. rewrite <- (take_drop n (cmode c)) at 1. by rewrite items_app, Hm, items_none, app_nil_r. }
  rewrite !Ei in Hc |- *. destruct (drop_minus_plus (take n (cmode c))) as [E1 E2]; [by apply Forall_take|].
  rewrite app_assoc in Hc.
  change (put_cmodes MINUS 0) with (put_cmodes MINUS (want_of false)).
  change (put_cmodes PLUS 1) with (put_cmodes PLUS (want_of true)).
  destruct (built_cmodes MINUS false (take n (cmode c)) f L B (cost_app_l _ _ _ Hc)) as (f1 & -> & B1).
  rewrite <- E1 in Hc. destruct (built_cmodes PLUS true _ f1 _ B1 Hc) as (f2 & -> & B2).
  exists f2. rewrite E2. rewrite E1, <- app_assoc in B2. split; [|done]. do 2 f_equal.
  rewrite length_take, <- replicate_add. f_equal. lia.
Qed.

(** ** What the server makes of the line *)

Definition good_change (x : change) : Prop :=
  match x with
  | (s, c, a) => c <> ch "+" /\ c <> ch "-" /\ c <> ch " " /\ takes_arg s c = bool_decide (is_Some a) /\
                 (forall w, a = Some w -> no_space w)
  end.

(** The arguments with single spaces between them. *)
Definition argl (L : list change) : list (list Z) :=
  flat_map (fun x : change => match snd x with Some a => [a] | None => [] end) L.
Fixpoint jn (l : list (list Z)) : list Z :=
  match l with
  | [] => []
  | a :: l => a ++ match l with [] => [] | _ => ch " " :: jn l end
  end.

Lemma argl_cons x L : argl (x :: L) = match snd x with Some a => [a] | None => [] end ++ argl L.
Proof. done. Qed.

Lemma args_post_cons x L : args_post (x :: L) = match snd x with Some a => a ++ [ch " "] | None => [] end ++ args_post L.
Proof. done. Qed.

Lemma args_post_jn L : args_post L = match argl L with [] => [] | l => jn l ++ [ch " "] end.
Proof.
  induction L as [|[[s c] a] L IH]; [done|]. rewrite args_post_cons, argl_cons, IH. cbn [snd].
  destruct a as [a|]; [|done]. cbn [app]. generalize (argl L). intros [|b l]; cbn [jn].
  - by rewrite !app_nil_r.
  - rewrite <- !app_assoc. cbn [app]. by rewrite <- !app_assoc.
Qed.

Lemma split_sp_word a r cur : no_space a -> split_sp cur (a ++ ch " " :: r) = (cur ++ a) :: split_sp [] r.
Proof.
  revert cur. induction a as [|x a IH]; intros cur Ha; cbn [app split_sp].
  - by rewrite Z.eqb_refl, app_nil_r.
  - destruct (Z.eqb_spec x (ch " ")) as [->|_]; [destruct Ha; by left|].
    rewrite IH by (intros Hi; apply Ha; by right). by rewrite <- app_assoc.
Qed.

Lemma split_sp_end a cur : no_space a -> split_sp cur a = [cur ++ a].
Proof.
  revert cur. induction a as [|x a IH]; intros cur Ha; cbn [split_sp]; [by rewrite app_nil_r|].
  destruct (Z.eqb_spec x (ch " ")) as [->|_]; [destruct Ha; by left|].
  rewrite IH by (intros Hi; apply Ha; by right). by rewrite <- app_assoc.
Qed.

Lemma split_sp_jn l : l <> [] -> Forall no_space l -> split_sp [] (jn l) = l.
Proof.
  induction l as [|a l IH]; [done|]. intros _ H. inversion H; subst. cbn [jn].
  destruct l as [|b l]; [rewrite app_nil_r; by apply split_sp_end|].
  rewrite split_sp_word by done. by rewrite IH.
Qed.

(** Letters and arguments, read together. *)
Lemma decode_render L : Forall good_change L -> forall p d rest,
  (p = 2 \/ p = want_of d) -> decode d (render p L) (argl L ++ rest) = Some L.
Proof.
  induction 1 as [|[[s c] a] L (H1 & H2 & H3 & H4 & H5) _ IH]; intros p d rest Hp; [done|].
  cbn [render]. assert (Hn : forall d', d' = s ->
    decode d' (c :: render (want_of s) L) (argl ((s, c, a) :: L) ++ rest) = Some ((s, c, a) :: L)).
  { intros d' ->. cbn [decode]. rewrite (proj2 (Z.eqb_neq _ _)), (proj2 (Z.eqb_neq _ _)) by done. rewrite H4.
    rewrite argl_cons. destruct a as [w|]; cbn [snd app];
      rewrite ?bool_decide_eq_true_2, ?bool_decide_eq_false_2 by (by eauto || by intros [? ?]);
      by rewrite (IH (want_of s) s rest) by (by right). }
  destruct (Z.eqb_spec p (want_of s)) as [->|Hne]; cbn [app].
  - apply Hn. destruct Hp as [Hp|Hp]; [by destruct s|by destruct d, s].
  - destruct s; cbn [decode]; apply Hn; done.
Qed.

Lemma render_no_space L : Forall good_change L -> forall p, no_space (render p L).
Proof.
  induction 1 as [|[[s c] a] L (_ & _ & H3 & _) _ IH]; intros p Hi; [done|]. cbn [render] in Hi.
  rewrite in_app_iff in Hi. destruct Hi as [Hi|[Hi|Hi]]; [|done|by apply (IH _ Hi)].
  destruct (p =? want_of s); [done|]. by destruct s, Hi as [Hi|[]].
Qed.

Lemma argl_no_space L : Forall good_change L -> Forall no_space (argl L).
Proof.
  induction 1 as [|[[s c] [a|]] L (_ & _ & _ & _ & H5) _ IH]; [constructor| |exact IH].
  rewrite argl_cons. cbn [snd app]. constructor; [by apply H5|done].
Qed.

Lemma built_finish f L : built f L -> cost L <= POST - 1 ->
  finish f = render 2 L ++ match argl L with [] => [] | l => ch " " :: jn l end.
Proof.
  intros [E1 E2 E3 E4] Hc. pose proof (args_post_cost L) as Hl. pose proof (render_length 2 L) as Hr.
  unfold finish. rewrite E3, E4, E1. rewrite args_post_jn in Hl |- *.
  destruct (argl L) as [|a l]; [by rewrite app_nil_r|].
  generalize dependent (jn (a :: l)). intros w Hl. rewrite length_app in Hl |- *. cbn [length] in Hl |- *.
  replace (Z.to_nat (POST - 1 - (POST - 1 - Z.of_nat (length w + 1)) - 1)) with (length w) by lia.
  rewrite (proj2 (Z.ltb_lt _ _)) by lia. rewrite List.app_nth2, Nat.sub_diag by lia. cbn [nth andb].
  rewrite Z.eqb_refl, take_app_length. destruct (w ++ [ch " "]) eqn:Ew; [by destruct w|].
  rewrite (egg_strcatn_fits (render 2 L)) by (cbn [length]; lia). cbn [fst].
  rewrite egg_strcatn_fits by (rewrite length_app; cbn [length]; lia). cbn [fst]. by rewrite <- app_assoc.
Qed.

Lemma decode_line_built f L : built f L -> cost L <= POST - 1 -> Forall good_change L ->
  decode_line (finish f) = Some L.
Proof.
  intros B Hc Hg. rewrite (built_finish f L) by done. unfold decode_line.
  pose proof (render_no_space L Hg 2) as Hs. pose proof (argl_no_space L Hg) as Ha.
  pose proof (decode_render L Hg 2 true [] (or_introl eq_refl)) as Hd. rewrite app_nil_r in Hd.
  destruct (argl L) as [|a l] eqn:E.
  - rewrite app_nil_r, split_at_end by done. done.
  - rewrite split_at_app by done. by rewrite split_sp_jn.
Qed.

Lemma mode_letter_good s t op : no_space op -> good_change (s, mode_letter t, Some op).
Proof.
  intros H. unfold good_change, mode_letter.
  repeat match goal with |- context [if ?b then _ else _] => destruct b end;
    (repeat split; [done..| |by intros ? [= <-]]); by destruct s.
Qed.

Lemma items_good mask s ms : Forall valid_entry ms -> Forall good_change (items_of mask s ms).
Proof.
  induction 1 as [|[[t op]|] ms Hm _ IH]; [constructor| |exact IH]. unfold items_of in *. cbn [flat_map item].
  destruct (t &? mask); [|exact IH]. constructor; [|exact IH]. apply mode_letter_good, Hm.
Qed.

Lemma plain_good s ls : Forall (plain_letter s) ls -> Forall good_change (map (fun l => (s, l, None)) ls).
Proof.
  induction 1 as [|l ls (H1 & H2 & H3 & H4) _ IH]; constructor; [|done].
  cbn. rewrite H4. repeat split; done.
Qed.

Lemma dec_loop_digits fuel : forall v out, Forall (fun c => 48 <= c <= 57) out ->
  Forall (fun c => 48 <= c <= 57) (dec_loop fuel v out).
Proof.
  induction fuel as [|fuel IH]; intros v out H; cbn [dec_loop]; [done|]. cbv zeta.
  assert (Forall (fun c => 48 <= c <= 57) ((48 + v mod 10) :: out)).
  { constructor; [|done]. pose proof (Z.mod_pos_bound v 10). lia. }
  case_if; [done|by apply IH].
Qed.

Lemma int_to_base10_no_space v : no_space (int_to_base10 v).
Proof.
  assert (H : forall w, ~ In (ch " ") (dec_loop 20 w [])).
  { intros w Hi. pose proof (dec_loop_digits 20 w [] ltac:(constructor)) as Hf. rewrite List.Forall_forall in Hf.
    specialize (Hf _ Hi). cbn in Hf. lia. }
  unfold no_space, int_to_base10. case_if; [|apply H]. intros [Hi|Hi]; [done|by apply (H _ Hi)].
Qed.

Lemma to_send_good cf c : valid cf c -> Forall good_change (to_send c).
Proof.
  intros (Hm & Hp & Hk & Hr & He & _). unfold to_send. rewrite !Forall_app.
  repeat split; try (by apply plain_good); try (by apply items_good).
  - unfold key_item. destruct (key c) as [k|]; [|constructor]. destruct (rmkey c); constructor; [|done].
    by repeat split.
  - unfold limit_item. case_if; constructor; [|done]. repeat split; try done.
    intros w [= <-]. apply int_to_base10_no_space.
  - unfold rmkey_item. destruct (rmkey c) as [k|]; constructor; [|done].
    by repeat split.
Qed.

(** The channel after a flush. *)
Definition flushed (c : chanset_t) : chanset_t :=
  {| name := name c; pls := []; mns := []; key := match rmkey c with Some _ => key c | None => None end;
     rmkey := None; limit := 0; bytes := 0; compat := 0; cmode := replicate (length (cmode c)) None;
     members := members c; bans := bans c; exempts := exempts c; invites := invites c;
     me_op := me_op c; me_halfop := me_halfop c |}.

(** A line of the queues that sets [L] on the channel [n]. *)
Definition reads (n : list Z) (m : sent_line) (L : list change) : Prop :=
  exists l, snd m = bs "MODE " ++ n ++ ch " " :: l /\ decode_line l = Some L.

Lemma render_nil p L : render p L = [] -> L = [].
Proof. destruct L as [|[[s c] a] L]; [done|]. cbn [render]. intros E. by apply app_nil in E as [_ E]. Qed.

Lemma flush_mode_spec cf c pri : valid cf c -> cost (to_send c) <= POST - 12 ->
  exists out, flush_mode cf c pri = (flushed c, out) /\
    match to_send c with
    | [] => out = []
    | _ => exists m, out = [m] /\ reads (name c) m (to_send c) /\
             fst m = match pri with QUICK => DP_MODE | NORMAL => DP_SERVER end
    end.
Proof.
  intros Hv Hc. pose proof (to_send_good cf c Hv) as Hg. destruct Hv as (_ & _ & _ & _ & He & Hl).
  assert (Hc' : cost (to_send c) <= POST - 1) by (revert Hc; clear; unfold POST; lia).
  unfold flush_mode. pose proof (built_letters c) as B. pose proof (flush_letters_state c) as E.
  destruct (flush_letters c) as [c0 f0]. cbn [fst snd] in B, E. subst c0.
  set (c0 := set_count (set_lists c [] []) 0 0).
  set (L0 := map _ (mns c) ++ map _ (pls c)) in B.
  assert (Es : to_send c = ((((L0 ++ key_item c) ++ limit_item c) ++ rmkey_item c) ++
            items_of MINUS false (cmode c) ++ items_of PLUS true (cmode c))).
  { unfold to_send, L0. by rewrite <- !app_assoc. }
  rewrite Es in Hc, Hc'. pose proof (cost_app_l _ _ _ Hc') as H3. pose proof (cost_app_l _ _ _ H3) as H2'.
  pose proof (cost_app_l _ _ _ (cost_app_l _ _ _ Hc)) as H2. pose proof (cost_app_l _ _ _ H2') as H1.
  destruct (flush_key_built c0 f0 _ B H1) as (f1 & -> & B1).
  match goal with |- context [flush_limit ?x f1] => set (c1 := x) end.
  assert (E1 : limit c1 = limit c /\ rmkey c1 = rmkey c /\ cmode c1 = cmode c).
  { unfold c1, c0. cbn. destruct (key c); destruct (rmkey c) eqn:Er; repeat split; exact Er. }
  destruct E1 as (El & Er & Em).
  assert (Ei : limit_item c1 = limit_item c) by (unfold limit_item; by rewrite El).
  rewrite <- Ei in H2. destruct (flush_limit_built c1 f1 (L0 ++ key_item c) B1 H2) as (f2 & -> & B2).
  match goal with |- context [flush_rmkey ?x f2] => set (c2 := x) end.
  assert (E2 : rmkey c2 = rmkey c /\ cmode c2 = cmode c).
  { unfold c2. by destruct (limit c1 =? 0). }
  destruct E2 as (Er2 & Em2). rewrite Ei in B2.
  assert (Ek : rmkey_item c2 = rmkey_item c) by (unfold rmkey_item; by rewrite Er2).
  rewrite <- Ek in H3. destruct (flush_rmkey_built c2 f2 _ B2 H3) as (f3 & -> & B3). rewrite Ek in B3.
  match goal with |- context [flush_cmodes cf ?x f3] => set (c3 := x) end.
  assert (Em3 : cmode c3 = cmode c) by (unfold c3; by destruct (rmkey c2)).
  rewrite <- Em3 in He, Hl, Hc'. destruct (flush_cmodes_built cf c3 f3 _ B3 He Hl Hc') as (f4 & -> & B4).
  rewrite Em3 in B4, Hc' |- *.
  assert (B5 : built f4 (to_send c)) by (rewrite Es; exact B4).
  assert (Hc5 : cost (to_send c) <= POST - 1) by (rewrite Es; exact Hc').
  exists (match finish f4 with [] => [] | out => [(match pri with QUICK => DP_MODE | NORMAL => DP_SERVER end,
            bs "MODE " ++ name c ++ ch " " :: out)] end).
  assert (Ec : set_cmode c3 (replicate (length (cmode c)) None) = flushed c).
  { unfold c3, c2, c1, flushed, c0. destruct c as [n p m [k|] [rk|] l b co ms mem bb ee ii mo mh]; cbn;
      destruct (Z.eqb_spec l 0) as [->|]; reflexivity. }
  rewrite Ec. split; [by destruct (finish f4)|].
  pose proof (decode_line_built f4 _ B5 Hc5 Hg) as Hd. pose proof (built_finish f4 _ B5 Hc5) as Hf.
  destruct (to_send c) as [|x L] eqn:Ex.
  - by rewrite Hf.
  - destruct (finish f4) as [|w ws] eqn:Ew.
    + symmetry in Hf. apply app_nil in Hf as [Hf _]. by apply render_nil in Hf.
    + eexists. split; [reflexivity|]. split; [by exists (w :: ws)|done].
Qed.

(** ** Nothing is lost between requests and lines *)

(** All that is pending; [to_send] leaves a key out when one is to be removed. *)
Definition key_pending (c : chanset_t) : list change :=
  match key c with Some k => [(true, ch "k", Some k)] | None => [] end.
Definition pending (c : chanset_t) : list change :=
  (map (fun l => (false, l, None)) (mns c) ++ map (fun l => (true, l, None)) (pls c)) ++
  key_pending c ++ limit_item c ++ rmkey_item c ++ items_of MINUS false (cmode c) ++ items_of PLUS true (cmode c).

(** The bytes of the entries, as [bytes] counts them. *)
Definition entry_bytes (m : cmode_t) : Z := match m with Some (_, op) => Z.of_nat (length op) + 1 | None => 0 end.
Definition bytes_of (ms : list cmode_t) : Z := foldr (fun m n => entry_bytes m + n) 0 ms.

Definition short (k : option (list Z)) : Prop := forall w, k = Some w -> Z.of_nat (length w) <= 40.

(** The queue fits a line ... *)
Record fits (cf : mode_conf) (c : chanset_t) : Prop := {
  i_valid : valid cf c;
  i_mns : (length (mns c) <= 20)%nat;
  i_pls : (length (pls c) <= 20)%nat;
  i_key : short (key c);
  i_rmkey : short (rmkey c);
  i_bytes : bytes c = bytes_of (cmode c);
  i_buf : bytes c <= mode_buf_len cf;
  i_len : modesperline cf <= Z.of_nat (length (cmode c)) <= 6
}.
(** ... and between requests there is room for one more change. *)
Definition inv (cf : mode_conf) (c : chanset_t) : Prop := fits cf c /\ 1 <= entries_left cf c.

Record conf_ok (cf : mode_conf) : Prop := {
  k_line : 3 <= modesperline cf <= 6;
  k_buf : 0 <= mode_buf_len cf <= 250
}.

Lemma cost_plain (s : bool) ls : cost (map (fun l => (s, l, None)) ls) = 2 * Z.of_nat (length ls).
Proof. induction ls as [|l ls IH]; [done|]. cbn [map cost foldr arg_cost length]. fold (cost (map (fun l => (s, l, None)) ls)). lia. Qed.

Lemma bytes_of_nonneg ms : 0 <= bytes_of ms.
Proof. induction ms as [|[[t op]|] ms IH]; [done| |]; cbn [bytes_of foldr entry_bytes]; fold (bytes_of ms); lia. Qed.

Lemma cost_items ms : Forall valid_entry ms ->
  cost (items_of MINUS false ms ++ items_of PLUS true ms) <= bytes_of ms + 2 * Z.of_nat (length ms).
Proof.
  rewrite cost_app. induction 1 as [|[[t op]|] ms Hm _ IH]; [done| |];
    cbn [bytes_of foldr entry_bytes length]; fold (bytes_of ms); unfold items_of in *; cbn [flat_map item]; [|cbn [app]; lia].
  assert (Ht : t &? MINUS = negb (t &? PLUS)).
  { destruct Hm as [Ht _]. cbn in Ht. by repeat (destruct Ht as [<-|Ht]; [done|]). }
  rewrite Ht. destruct (t &? PLUS); cbn [negb]; rewrite ?cost_app; cbn [app cost foldr arg_cost];
    fold (cost (flat_map (item MINUS false) ms)) (cost (flat_map (item PLUS true) ms)); lia.
Qed.

Lemma to_send_cost cf c : conf_ok cf -> fits cf c -> cost (to_send c) <= POST - 12.
Proof.
  intros [K1 K2] [(_ & _ & _ & _ & He & _) H1 H2 H3 H4 H5 H6 H7]. pose proof (cost_items _ He) as Hi.
  unfold to_send. rewrite !cost_app, !cost_plain. rewrite cost_app in Hi.
  assert (cost (key_item c) <= 43).
  { unfold key_item. destruct (key c) as [k|] eqn:E; [|cbn; lia]. specialize (H3 _ eq_refl).
    destruct (rmkey c); cbn; lia. }
  assert (cost (rmkey_item c) <= 43).
  { unfold rmkey_item. destruct (rmkey c) as [k|] eqn:E; [|cbn; lia]. specialize (H4 _ eq_refl). cbn. lia. }
  assert (cost (limit_item c) <= 24).
  { unfold limit_item. case_if; [cbn; lia|]. pose proof (int_to_base10_short (limit c)).
    cbn [cost foldr arg_cost]. lia. }
  unfold POST. lia.
Qed.

(** From [c] to [c'], with the lines [out] sent: the requests [new] are added, and all
    that was pending is either on a line or pending still. *)
Definition keeps (c c' : chanset_t) (out : list sent_line) (new : list change) : Prop :=
  name c' = name c /\ exists Ls, Forall2 (reads (name c)) out Ls /\ concat Ls ++ pending c' ≡ₚ new ++ pending c.

Lemma keeps_refl c c' : name c' = name c -> pending c' = pending c -> keeps c c' [] [].
Proof. intros Hn Hp. split; [done|]. exists []. split; [constructor|]. cbn. by rewrite Hp. Qed.

Lemma keeps_trans c1 c2 c3 o1 o2 n1 n2 : keeps c1 c2 o1 n1 -> keeps c2 c3 o2 n2 -> keeps c1 c3 (o1 ++ o2) (n1 ++ n2).
Proof.
  intros (N1 & L1 & F1 & P1) (N2 & L2 & F2 & P2). split; [congruence|]. exists (L1 ++ L2).
  rewrite N1 in F2. split; [by apply Forall2_app|].
  rewrite concat_app, <- app_assoc, P2, app_assoc, (Permutation_app_comm (concat L1)), <- app_assoc, P1.
  rewrite !app_assoc. by rewrite (Permutation_app_comm n1).
Qed.

Lemma pending_flushed c : to_send c ++ pending (flushed c) ≡ₚ pending c.
Proof.
  unfold pending, to_send, flushed, key_pending, key_item, limit_item, rmkey_item. cbn [mns pls key rmkey limit cmode].
  rewrite !items_none. cbn [map Z.eqb app]. rewrite !app_nil_r.
  set (A := map _ (mns c) ++ _). set (I := items_of MINUS false _ ++ _).
  destruct (rmkey c) as [rk|], (key c) as [k|]; cbn [app]; rewrite ?app_nil_r; try done.
  rewrite <- app_assoc. apply Permutation_app_head. rewrite <- Permutation_cons_append. done.
Qed.

Lemma valid_none n : Forall valid_entry (replicate n None).
Proof. by induction n; constructor. Qed.

Lemma bytes_none n : bytes_of (replicate n None) = 0.
Proof. by induction n. Qed.

Lemma flushed_inv cf c : conf_ok cf -> fits cf c -> inv cf (flushed c).
Proof.
  intros [K1 K2] [(V1 & V2 & V3 & V4 & V5 & V6) H1 H2 H3 H4 H5 H6 H7].
  split; [split|]; cbn [flushed mns pls key rmkey limit bytes cmode].
  - split_and!; cbn [flushed mns pls key rmkey limit bytes cmode]; try done.
    + intros k E. destruct (rmkey c); [by apply V3|done].
    + apply valid_none.
    + unfold past_line_free. rewrite length_replicate. apply drop_replicate.
  - cbn. lia.
  - cbn. lia.
  - intros k E. destruct (rmkey c); [by apply H3|done].
  - done.
  - by rewrite bytes_none.
  - lia.
  - by rewrite length_replicate.
  - unfold entries_left, on_line. cbn [flushed mns pls key rmkey limit bytes cmode fst].
    assert (E : forall n m, used (take n (replicate m None)) = 0%nat).
    { intros n m. rewrite take_replicate. unfold used. by induction (n `min` m)%nat. }
    rewrite E. cbn [Z.eqb negb andb]. rewrite !andb_false_r. cbn [andb]. destruct (include_lk cf && _); cbn; lia.
Qed.

Lemma flush_keeps cf c pri : conf_ok cf -> fits cf c ->
  exists c' out, flush_mode cf c pri = (c', out) /\ inv cf c' /\ keeps c c' out [] /\
                 bytes c' = 0 /\ mask_blocked cf c' = mask_blocked cf c.
Proof.
  intros K I. destruct (flush_mode_spec cf c pri (i_valid _ _ I) (to_send_cost cf c K I)) as (out & E & S).
  exists (flushed c), out. split; [done|]. split; [by apply flushed_inv|]. split; [|done].
  split; [done|]. pose proof (pending_flushed c) as P. destruct (to_send c) as [|x L].
  - subst out. exists []. split; [constructor|]. exact P.
  - destruct S as (m & -> & R & _). exists [x :: L]. split; [by repeat constructor|].
    cbn [concat app]. rewrite app_nil_r. exact P.
Qed.

(** ** A request *)

Definition sign_of (plus : Z) : bool := plus =? ch "+".

(** Why a request may be ignored. *)
Definition unwanted (cf : mode_conf) (c : chanset_t) (plus mode : Z) (op : list Z) : Prop :=
  (negb (me_op c) && (negb (me_halfop c) || ((mode =? 0) || mem mode NOHALFOPS_MODES)) = true) \/
  (member_mode mode = true /\ mark_member cf plus mode op (members c) = None) \/
  mask_blocked cf c plus mode op = true \/
  (exists o, In (sign_of plus, mode, Some o) (pending c) /\ same_rfc cf o op = true).

Lemma op_mode_cases mode : op_mode mode = true -> In mode (bs "ohbveIq").
Proof. unfold op_mode, mem. rewrite existsb_exists. intros (x & Hx & E%Z.eqb_eq). by subst. Qed.

Lemma mode_type_item plus mode op : (plus = ch "+" \/ plus = ch "-") -> op_mode mode = true -> no_space op ->
  let m := Some (mode_type plus mode, op) in
  valid_entry m /\
  item MINUS false m ++ item PLUS true m = [(sign_of plus, mode, Some op)] /\
  (item MINUS false m = [] \/ item PLUS true m = []).
Proof.
  intros Hp Hm%op_mode_cases Ho. cbn in Hm.
  destruct Hp as [-> | ->]; repeat (destruct Hm as [<-|Hm]; [cbn -[no_space]; tauto|]); done.
Qed.

Lemma items_cons_perm (m : cmode_t) l1 l2 :
  items_of MINUS false (l1 ++ m :: l2) ++ items_of PLUS true (l1 ++ m :: l2) ≡ₚ
  (item MINUS false m ++ item PLUS true m) ++
  items_of MINUS false (l1 ++ None :: l2) ++ items_of PLUS true (l1 ++ None :: l2).
Proof.
  rewrite !items_app. unfold items_of. cbn [flat_map item app].
  set (a := item MINUS false m). set (b := item PLUS true m). solve_Permutation.
Qed.

(** The first free entry of a line that has one. *)
Lemma take_entry_free n type op ms : (exists i, (i < n)%nat /\ ms !! i = Some None) ->
  exists l1 l2 : list cmode_t, ms = l1 ++ None :: l2 /\ (length l1 < n)%nat /\
                take_entry n type op ms = (l1 ++ Some (type, op) :: l2, true).
Proof.
  revert ms. induction n as [|n IH]; intros ms (i & Hi & E); [lia|].
  destruct ms as [|[e|] ms]; [done| |].
  - destruct i as [|i]; [done|]. destruct (IH ms) as (l1 & l2 & -> & Hl & Ht); [exists i; split; [lia|done]|].
    exists (Some e :: l1), l2. cbn [app length take_entry]. rewrite Ht. repeat split. lia.
  - exists [], ms. cbn. repeat split. lia.
Qed.

Lemma left_free cf c : 1 <= entries_left cf c -> modesperline cf <= Z.of_nat (length (cmode c)) ->
  exists i, (i < Z.to_nat (modesperline cf))%nat /\ cmode c !! i = Some None.
Proof.
  intros H Hl. unfold entries_left, on_line in H. cbn [fst] in H.
  assert (Hu : (used (take (Z.to_nat (modesperline cf)) (cmode c)) < Z.to_nat (modesperline cf))%nat).
  { repeat match goal with H : context [if ?b then 1 else 0] |- _ => destruct b end; lia. }
  revert Hl Hu. generalize (cmode c) as ms. clear H. intros ms Hl Hu.
  assert (Hn : (Z.to_nat (modesperline cf) <= length ms)%nat) by lia. clear Hl.
  revert Hn Hu. generalize (Z.to_nat (modesperline cf)) as n. clear. induction ms as [|m ms IH]; intros n Hn Hu.
  - cbn in Hn. destruct n; [cbn in Hu; lia|cbn in Hn; lia].
  - destruct n as [|n]; [cbn in Hu; lia|]. destruct m as [e|]; [|exists 0%nat; split; [lia|done]].
    cbn [take length] in Hu, Hn.
    change (S (used (take n ms)) < S n)%nat in Hu.
    destruct (IH n) as (i & Hi & E); [lia|lia|]. exists (S i). split; [lia|done].
Qed.

Lemma filled_fits cf c (l1 l2 : list cmode_t) (m : cmode_t) : fits cf c -> cmode c = l1 ++ None :: l2 ->
  (length l1 < Z.to_nat (modesperline cf))%nat -> valid_entry m -> bytes c + entry_bytes m <= mode_buf_len cf ->
  fits cf (set_count (set_cmode c (l1 ++ m :: l2)) (bytes c + entry_bytes m) (compat c)).
Proof.
  intros [(V1 & V2 & V3 & V4 & V5 & V6) H1 H2 H3 H4 H5 H6 H7] E Hl Hm Hb.
  assert (El : length (l1 ++ m :: l2) = length (cmode c)) by (rewrite E, !length_app; cbn [length]; reflexivity).
  split; cbn [set_count set_cmode mns pls key rmkey limit bytes cmode]; try done.
  - split_and!; cbn [set_count set_cmode mns pls key rmkey limit bytes cmode]; try done.
    + rewrite E in V5. apply Forall_app in V5 as [V5 V5']. apply Forall_app. split; [done|].
      inversion V5'; subst. by constructor.
    + unfold past_line_free in *. rewrite El, <- V6, E, !drop_app_ge by lia.
      destruct (Z.to_nat (modesperline cf) - length l1)%nat eqn:En; [lia|done].
  - rewrite H5, E. unfold bytes_of. rewrite !foldr_app. cbn [foldr entry_bytes].
    generalize (foldr (fun m n => entry_bytes m + n) 0 l2) as z. clear. intros z.
    induction l1 as [|x l1 IH]; cbn [foldr]; lia.
  - by rewrite El.
Qed.

Lemma filled_keeps c (l1 l2 : list cmode_t) (m : cmode_t) x b k : cmode c = l1 ++ None :: l2 -> item MINUS false m ++ item PLUS true m = [x] ->
  keeps c (set_count (set_cmode c (l1 ++ m :: l2)) b k) [] [x].
Proof.
  intros E Hx. split; [done|]. exists []. split; [constructor|]. cbn [concat app].
  unfold pending, key_pending, limit_item, rmkey_item. cbn [set_count set_cmode mns pls key rmkey limit bytes cmode].
  rewrite items_cons_perm, Hx, E. set (I := items_of MINUS false _ ++ _). clear. solve_Permutation.
Qed.

Lemma inv_same cf c c' : inv cf c -> mns c' = mns c -> pls c' = pls c -> key c' = key c -> rmkey c' = rmkey c ->
  limit c' = limit c -> bytes c' = bytes c -> cmode c' = cmode c -> inv cf c'.
Proof.
  intros [[V H1 H2 H3 H4 H5 H6 H7] H8] E1 E2 E3 E4 E5 E6 E7.
  split; [split|]; unfold valid, entries_left in *; rewrite ?E1, ?E2, ?E3, ?E4, ?E5, ?E6, ?E7; done.
Qed.

Lemma compat_step_keeps cf c mode : conf_ok cf -> inv cf c ->
  exists c' out, compat_step cf c mode = (c', out) /\ inv cf c' /\ keeps c c' out [] /\
                 mask_blocked cf c' = mask_blocked cf c.
Proof.
  intros K I. destruct (flush_keeps cf c NORMAL K (proj1 I)) as (c1 & o1 & E1 & I1 & K1 & _ & M1).
  assert (Hn : inv cf c /\ keeps c c [] [] /\ mask_blocked cf c = mask_blocked cf c)
    by (split; [done|split; [by apply keeps_refl|done]]).
  unfold compat_step. rewrite E1.
  repeat match goal with |- context [if ?b then _ else _] => destruct b end;
    eexists _, _; (split; [reflexivity|]);
    first [exact Hn|exact (conj I1 (conj K1 M1))
          |split; [by apply (inv_same cf c)|split; [by apply keeps_refl|done]]].
Qed.

(** The last step: a full line is sent. *)
Lemma full_keeps cf c : conf_ok cf -> fits cf c ->
  exists c' out, (if entries_left cf c <? 1 then flush_mode cf c NORMAL else (c, [])) = (c', out) /\
                 inv cf c' /\ keeps c c' out [].
Proof.
  intros K F. destruct (Z.ltb_spec (entries_left cf c) 1) as [H|H].
  - destruct (flush_keeps cf c NORMAL K F) as (c1 & o1 & E1 & I1 & K1 & _). by exists c1, o1.
  - exists c, []. split; [done|]. split; [by split|by apply keeps_refl].
Qed.

(** A flush before an argument that does not fit. *)
Lemma room_keeps cf c l : conf_ok cf -> inv cf c -> l <= mode_buf_len cf ->
  exists c' out, (if mode_buf_len cf <? bytes c + l then flush_mode cf c NORMAL else (c, [])) = (c', out) /\
                 inv cf c' /\ keeps c c' out [] /\ bytes c' + l <= mode_buf_len cf.
Proof.
  intros K I Hl. destruct (Z.ltb_spec (mode_buf_len cf) (bytes c + l)) as [H|H].
  - destruct (flush_keeps cf c NORMAL K (proj1 I)) as (c1 & o1 & E1 & I1 & K1 & B1 & _). exists c1, o1.
    split; [done|]. split; [done|]. split; [done|]. lia.
  - exists c, []. split; [done|]. split; [done|]. split; [by apply keeps_refl|done].
Qed.

Lemma dup_pending cf c plus mode op : (plus = ch "+" \/ plus = ch "-") -> op_mode mode = true ->
  existsb (fun m => match m with Some (t, o) => (t =? mode_type plus mode) && same_rfc cf o op | None => false end)
    (fst (on_line cf (cmode c))) = true ->
  exists o, In (sign_of plus, mode, Some o) (pending c) /\ same_rfc cf o op = true.
Proof.
  intros Hp Hm. rewrite existsb_exists. intros ([[t o]|] & Hi & E); [|done].
  apply andb_true_iff in E as [->%Z.eqb_eq Eo]. exists o. split; [|done].
  assert (Hc : In (Some (mode_type plus mode, o)) (cmode c)).
  { rewrite <- (take_drop (Z.to_nat (modesperline cf)) (cmode c)). apply in_app_iff. by left. }
  assert (Hx : In (sign_of plus, mode, Some o) (item MINUS false (Some (mode_type plus mode, o))) \/
               In (sign_of plus, mode, Some o) (item PLUS true (Some (mode_type plus mode, o)))).
  { apply op_mode_cases in Hm. cbn in Hm.
    destruct Hp as [-> | ->]; repeat (destruct Hm as [<-|Hm]; [vm_compute; tauto|]); done. }
  unfold pending. rewrite !in_app_iff. unfold items_of. rewrite !in_flat_map.
  destruct Hx as [Hx|Hx]; eauto 12.
Qed.

Lemma keeps_in c c' out x : keeps c c' out [] -> In x (pending c') -> In x (pending c).
Proof.
  intros (_ & Ls & _ & P) Hi. apply (Permutation_in x P). apply in_app_iff. by right.
Qed.

Lemma unwanted_late cf c c' out plus mode op : keeps c c' out [] -> mask_blocked cf c' = mask_blocked cf c ->
  (mask_blocked cf c' plus mode op = true \/ (exists o, In (sign_of plus, mode, Some o) (pending c') /\ same_rfc cf o op = true)) ->
  unwanted cf c plus mode op.
Proof.
  intros Hk Hm [H|(o & Hi & Ho)]; unfold unwanted; [rewrite Hm in H; auto|].
  do 3 right. exists o. split; [by apply (keeps_in _ _ _ _ Hk)|done].
Qed.

(** C15. [real_add_mode] keeps the books.  Between requests the queue of a channel fits
    one line with room for a change.  A request for a letter with a nick or a mask then
    never fails, keeps that invariant, and either adds exactly that change or is one that
    is not wanted (no rights, not such a member or already so, already set or the lists
    are full, or already pending); the lines sent on the way, as a server reads them,
    and what is pending afterwards are together exactly what was pending before and the
    new change: no change is lost or sent twice. *)
Theorem real_add_mode_keeps cf c plus mode op :
  conf_ok cf -> inv cf c -> (plus = ch "+" \/ plus = ch "-") -> op_mode mode = true ->
  no_space op -> Z.of_nat (length op) + 1 <= mode_buf_len cf ->
  exists c' out, real_add_mode cf c plus mode op = Ok (c', out) /\ inv cf c' /\
    (keeps c c' out [(sign_of plus, mode, Some op)] \/
     (unwanted cf c plus mode op /\ keeps c c' out [])).
Proof.
  intros K I Hp Hm Ho Hl. unfold real_add_mode.
  destruct (negb (me_op c) && _) eqn:G.
  { exists c, []. split; [done|]. split; [done|]. right. split; [by left|by apply keeps_refl]. }
  destruct (if member_mode mode then _ else _) as [mb|] eqn:M.
  2:{ exists c, []. split; [done|]. split; [done|]. right. split; [|by apply keeps_refl].
      right. left. by destruct (member_mode mode). }
  assert (I0 : inv cf (set_members c mb)) by by apply (inv_same cf c).
  change (mask_blocked cf c) with (mask_blocked cf (set_members c mb)).
  destruct (compat_step_keeps cf (set_members c mb) mode K I0) as (c1 & o1 & -> & I1 & K1 & M1).
  change (mask_blocked cf (set_members c mb)) with (mask_blocked cf c) in M1.
  change (keeps (set_members c mb) c1 o1 []) with (keeps c c1 o1 []) in K1.
  unfold store_mode. rewrite Hm. cbv zeta.
  destruct (mask_blocked cf c1 plus mode op) eqn:B.
  { exists c1, o1. split; [done|]. split; [done|]. right. split; [|done].
    apply (unwanted_late cf c c1 o1); auto. }
  destruct (existsb _ _) eqn:D.
  { exists c1, o1. split; [done|]. split; [done|]. right. split; [|done].
    apply (unwanted_late cf c c1 o1); [done..|]. right. by apply (dup_pending cf). }
  destruct (room_keeps cf c1 _ K I1 Hl) as (c2 & o2 & -> & I2 & K2 & B2).
  destruct (mode_type_item plus mode op Hp Hm Ho) as (Vm & Em & _).
  pose proof (i_len _ _ (proj1 I2)) as [Hlen _].
  destruct (take_entry_free (Z.to_nat (modesperline cf)) (mode_type plus mode) op (cmode c2)
              (left_free cf c2 (proj2 I2) Hlen)) as (l1 & l2 & E2 & Hl1 & ->).
  pose proof (filled_fits cf c2 l1 l2 _ (proj1 I2) E2 Hl1 Vm B2) as F3.
  pose proof (filled_keeps c2 l1 l2 _ _ (bytes c2 + entry_bytes (Some (mode_type plus mode, op))) (compat c2) E2 Em) as K3.
  cbn [entry_bytes] in F3, K3.
  destruct (full_keeps cf _ K F3) as (c4 & o4 & E4 & I4 & K4).
  exists c4, (o1 ++ o2 ++ o4). cbv beta iota delta [rbind].
  split.
  { match goal with |- (let '(_, _) := ?X in _) = _ => replace X with (c4, o4) by (symmetry; exact E4) end. reflexivity. }
  split; [done|]. left.
  apply (keeps_trans c c1 c4 o1 (o2 ++ o4) [] _ K1). apply (keeps_trans c1 c2 c4 o2 o4 [] _ K2).
  apply (keeps_trans c2 _ c4 [] o4 _ [] K3 K4).
Qed.

(** C19. [flush_mode] says what is pending, and forgets it.  When the changes fit
    (their letters and arguments take at most 500 bytes), exactly one line is sent (none
    when nothing is pending), for the queue of [pri]; a server that reads it sees exactly
    the changes of [to_send], each with its own argument, removals of masks and nicks
    before the rest of them; and of the pending changes only a key to set stays behind,
    when another is to be removed. *)
Theorem flush_mode_sends cf c pri : valid cf c -> cost (to_send c) <= POST - 12 ->
  exists out, flush_mode cf c pri = (flushed c, out) /\
    match to_send c with
    | [] => out = []
    | _ => exists m, out = [m] /\ reads (name c) m (to_send c) /\
             fst m = match pri with QUICK => DP_MODE | NORMAL => DP_SERVER end
    end /\
    to_send c ++ pending (flushed c) ≡ₚ pending c.
Proof.
  intros Hv Hc. destruct (flush_mode_spec cf c pri Hv Hc) as (out & E & S).
  exists out. split; [done|]. split; [done|]. apply pending_flushed.
Qed.

(** ** Concrete channels *)

Definition conf_example : mode_conf :=
  {| rfc_compliant := true; indexed := true; modesperline := 4; mode_buf_len := 200; prevent_mixing := true; include_lk := true;
     max_bans := 30; max_exempts := 20; max_invites := 20; max_modes := 30 |}.
Definition chan_example : chanset_t :=
  {| name := bs "#egg"; pls := []; mns := []; key := None; rmkey := None; limit := 0; bytes := 0; compat := 0;
     cmode := replicate 6 None; members := [{| nick := bs "joe"; m_flags := 0 |}];
     bans := [bs "*!*@old.example"]; exempts := []; invites := []; me_op := true; me_halfop := false |}.

(** A sequence of requests, and the lines sent. *)
Fixpoint add_modes (cf : mode_conf) (c : chanset_t) (rs : list (list Z * list Z)) : result overflow (chanset_t * list sent_line) :=
  match rs with
  | [] => Ok (c, [])
  | (pm, op) :: rs =>
      let! r := real_add_mode cf c (nth 0 pm 0) (nth 1 pm 0) op in
      let '(c, out) := r in
      let! r := add_modes cf c rs in
      let '(c, out') := r in Ok (c, out ++ out')
  end.

(** ** Letters without arguments *)

(** A letter that either sign takes without an argument. *)
Definition bare (x : Z) : Prop := x <> 0 /\ plain_letter true x.

Lemma bare_neq x l : bare x -> In l (bs "ohbveIqkl") -> x <> l.
Proof.
  intros [_ (_ & _ & _ & H)] Hl ->. cbn in Hl. repeat (destruct Hl as [<-|Hl]; [done|]). done.
Qed.

Lemma bare_sub x l : bare x -> incl l (bs "ohbveIqkl") -> mem x l = false.
Proof. intros Hb Hl. apply mem_false. intros Hi. by apply (bare_neq x x Hb (Hl _ Hi)). Qed.

(** What a request for a bare letter does while there is room for entries. *)
Lemma bare_request cf c plus x op : me_op c = true -> bare x -> (compat c = 0 \/ compat c = 1) ->
  (plus = ch "+" \/ plus = ch "-") -> 1 <= entries_left cf c ->
  real_add_mode cf c plus x op =
  let! l := add_letter (if plus =? ch "+" then pls c else mns c) x in
  let c := set_count c (bytes c) 1 in
  Ok (if plus =? ch "+" then set_lists c l (mns c) else set_lists c (pls c) l, []).
Proof.
  intros Hop Hb Hc Hp Hl. unfold real_add_mode. rewrite Hop. cbn [negb andb].
  unfold member_mode. rewrite bare_sub by (done || (intros ?; cbn; tauto)).
  assert (Es : set_members c (members c) = c) by by destruct c.
  assert (Hn : forall l, In l (bs "ohbveIqkl") -> (x =? l) = false).
  { intros l Hi. apply Z.eqb_neq. by apply bare_neq. }
  assert (Ec : compat_step cf c x = (set_count c (bytes c) 1, [])).
  { unfold compat_step. rewrite (Hn (ch "e")), (Hn (ch "I")) by (cbn; tauto). cbn [orb].
    destruct Hc as [E|E]; rewrite E; cbn; [done|]. rewrite andb_false_r. destruct c; cbn in *. by subst. }
  rewrite Es, Ec. unfold store_mode, op_mode. rewrite bare_sub by (done || (intros ?; cbn; tauto)).
  rewrite (Hn (ch "k")), (Hn (ch "l")), !andb_false_r by (cbn; tauto).
  assert (Hf : forall d, entries_left cf d = entries_left cf c ->
    (if entries_left cf d <? 1 then flush_mode cf d NORMAL else (d, [])) = (d, [])).
  { intros d E. by rewrite E, (proj2 (Z.ltb_ge _ _)) by lia. }
  destruct Hp as [-> | ->].
  - change (ch "+" =? ch "+") with true. cbv iota. cbn [pls mns set_count].
    destruct (add_letter (pls c) x); [|done]. cbv beta iota delta [rbind]. by rewrite Hf.
  - change (ch "-" =? ch "+") with false. cbv iota. cbn [pls mns set_count].
    destruct (add_letter (mns c) x); [|done]. cbv beta iota delta [rbind]. by rewrite Hf.
Qed.

Lemma add_letter_new l x : x <> 0 -> ~ In x l -> (length l < 20)%nat -> add_letter l x = Ok (l ++ [x]).
Proof.
  intros H0 Hi Hl. unfold add_letter. rewrite (proj2 (mem_false _ _)) by done. rewrite (proj2 (Z.eqb_neq _ _)) by done.
  by rewrite (proj2 (Z.leb_gt _ _)) by lia.
Qed.

(** The letter set at the end of a line, as the server leaves it. *)
Definition set_after (x : Z) (b : bool) (L : list change) : bool :=
  fold_left (fun b (y : change) => if snd (fst y) =? x then fst (fst y) else b) L b.

Lemma set_after_other x b L : Forall (fun y : change => snd (fst y) <> x) L -> set_after x b L = b.
Proof.
  revert b. induction L as [|y L IH]; intros b H; [done|]. inversion H; subst. unfold set_after in *. cbn [fold_left].
  rewrite (proj2 (Z.eqb_neq _ _)) by done. by apply IH.
Qed.

Lemma items_letters mask s ms x : bare x -> Forall (fun y : change => snd (fst y) <> x) (items_of mask s ms).
Proof.
  intros Hb. induction ms as [|[[t op]|] ms IH]; [constructor| |exact IH]. unfold items_of in *. cbn [flat_map item].
  destruct (t &? mask); [|exact IH]. constructor; [|exact IH]. cbn.
  assert (Hi : In (mode_letter t) (bs "ohbveIqkl")).
  { unfold mode_letter. repeat match goal with |- context [if ?b then _ else _] => destruct b end; cbn; tauto. }
  intros E. by apply (bare_neq x _ Hb Hi).
Qed.

(** The order of requests for a bare letter is lost.  When a channel is asked to set
    a letter and then, before the line goes out, to clear it, both requests stay pending
    and [flush_mode] writes the removal first, whatever else is pending: the server
    leaves the letter set, although the last request was to clear it. *)
Theorem request_order_lost cf c x b : me_op c = true -> bare x -> (compat c = 0 \/ compat c = 1) ->
  1 <= entries_left cf c -> pls c = [] -> mns c = [] ->
  exists c1 c2, real_add_mode cf c (ch "+") x [] = Ok (c1, []) /\
    real_add_mode cf c1 (ch "-") x [] = Ok (c2, []) /\
    take 2 (to_send c2) = [(false, x, None); (true, x, None)] /\ set_after x b (to_send c2) = true.
Proof.
  intros Hop Hb Hc Hl Ep Em. pose proof Hb as [H0 _].
  eexists _, _. split; [|split].
  - rewrite bare_request by (done || by left). change (ch "+" =? ch "+") with true. cbv iota.
    rewrite Ep, add_letter_new by (done || (cbn; lia)). cbv beta iota delta [rbind app]. reflexivity.
  - rewrite bare_request by (done || (by right) || exact Hl). change (ch "-" =? ch "+") with false. cbv iota.
    cbn [mns set_lists set_count]. rewrite Em, add_letter_new by (done || (cbn; lia)).
    cbv beta iota delta [rbind app]. reflexivity.
  - unfold to_send. cbn [pls mns set_lists set_count map app take]. split; [done|].
    unfold set_after. cbn [fold_left fst snd]. rewrite Z.eqb_refl.
    match goal with |- fold_left _ ?L true = true => change (set_after x true L = true); apply set_after_other end.
    unfold key_item, limit_item, rmkey_item. cbn [key rmkey limit set_lists set_count cmode]. rewrite !Forall_app.
    assert (Hk : forall s a, Forall (fun y : change => snd (fst y) <> x) [(s, ch "k", a)]).
    { intros s a. constructor; [|done]. cbn. intros E. apply (bare_neq x (ch "k") Hb); [cbn; tauto|done]. }
    repeat split; try (by apply items_letters).
    + destruct (key c), (rmkey c); [constructor|apply Hk|constructor..].
    + destruct (limit c =? 0); constructor; [|done]. cbn. intros E. apply (bare_neq x (ch "l") Hb); [cbn; tauto|done].
    + destruct (rmkey c); [apply Hk|constructor].
Qed.

(** Bare letters overflow their buffer.  Requests for distinct letters are kept in
    the 21 bytes of [pls] and are not counted towards a full line, so that nothing sends
    them in between: once more than 20 are asked for, one is written past the end. *)
Theorem letters_overflow cf c ls : me_op c = true -> Forall bare ls -> (compat c = 0 \/ compat c = 1) ->
  1 <= entries_left cf c -> NoDup (pls c ++ ls) -> (20 < length (pls c ++ ls))%nat -> (length (pls c) <= 20)%nat ->
  add_modes cf c (map (fun l => ([ch "+"; l], [])) ls) = Err BufferOverflow.
Proof.
  revert c. induction ls as [|l ls IH]; intros c Hop Hb Hc Hl Hn Hg Hp.
  - rewrite app_nil_r in Hg. lia.
  - inversion Hb as [|? ? Hb1 Hb2]; subst. pose proof Hb1 as [H0 _]. cbn [map add_modes nth].
    rewrite bare_request by (done || by left). change (ch "+" =? ch "+") with true. cbv iota.
    assert (Hi : ~ In l (pls c)).
    { intros Hi. apply NoDup_app in Hn as (_ & Hd & _). apply (Hd l); [by apply list_elem_of_In|left]. }
    destruct (decide (length (pls c) = 20)%nat) as [E|E].
    + unfold add_letter. rewrite (proj2 (mem_false _ _)) by done. rewrite (proj2 (Z.eqb_neq _ _)) by done.
      by rewrite (proj2 (Z.leb_le _ _)) by lia.
    + rewrite add_letter_new by (done || lia). cbv beta iota zeta delta [rbind].
      rewrite IH; [done|done|done|by right|exact Hl| | |]; cbn [pls set_lists set_count].
      * by rewrite <- app_assoc.
      * by rewrite <- app_assoc.
      * rewrite length_app. cbn. lia.
Qed.

Definition chan_pending : chanset_t :=
  {| name := bs "#egg"; pls := bs "m"; mns := bs "s"; key := Some (bs "sesame"); rmkey := None; limit := 0;
     bytes := 22; compat := 1;
     cmode := [Some (mode_type (ch "+") (ch "o"), bs "joe"); Some (mode_type (ch "-") (ch "b"), bs "*!*@old.example");
               None; None; None; None];
     members := [{| nick := bs "joe"; m_flags := 8 |}];
     bans := [bs "*!*@old.example"]; exempts := []; invites := []; me_op := true; me_halfop := false |}.

Ltac no_blank := cbn; intros ?Hi; repeat (destruct Hi as [Hi|Hi]; [discriminate|]); exact Hi.
Ltac empty_queue := split_and!; [constructor|constructor|done|done|repeat constructor|reflexivity].

Lemma chan_example_inv : inv conf_example chan_example.
Proof. split; [split; try done; try (cbn; lia); empty_queue|done]. Defined.

Lemma flush_mode_sends_witness : valid conf_example chan_pending /\ cost (to_send chan_pending) <= POST - 12 /\
  exists out, flush_mode conf_example chan_pending QUICK = (flushed chan_pending, out) /\
    map snd out = [bs "MODE #egg -s+mk-b+o sesame *!*@old.example joe"].
Proof.
  assert (V : valid conf_example chan_pending).
  { split_and!; [repeat constructor; done|repeat constructor; done|intros k [= <-]; no_blank|done| |reflexivity].
    repeat constructor; try (cbn; tauto); no_blank. }
  assert (C : cost (to_send chan_pending) <= POST - 12) by (vm_compute; discriminate).
  split; [exact V|]. split; [exact C|].
  destruct (flush_mode_sends conf_example chan_pending QUICK V C) as (out & E & _).
  exists out. split; [exact E|]. change out with (snd (flushed chan_pending, out)). rewrite <- E. reflexivity.
Defined.

Lemma real_add_mode_keeps_witness :
  conf_ok conf_example /\ inv conf_example chan_example /\ op_mode (ch "o") = true /\ no_space (bs "joe") /\
  exists c' out, real_add_mode conf_example chan_example (ch "+") (ch "o") (bs "joe") = Ok (c', out) /\ inv conf_example c'.
Proof.
  assert (K : conf_ok conf_example) by (split; cbn; lia).
  assert (N : no_space (bs "joe")) by no_blank.
  split; [exact K|]. split; [exact chan_example_inv|]. split; [reflexivity|]. split; [exact N|].
  destruct (real_add_mode_keeps conf_example chan_example (ch "+") (ch "o") (bs "joe") K chan_example_inv
    (or_introl eq_refl) eq_refl N ltac:(cbn; lia)) as (c' & out & E & I & _).
  by exists c', out.
Defined.

Lemma request_order_lost_witness : bare (ch "m") /\
  exists c1 c2, real_add_mode conf_example chan_example (ch "+") (ch "m") [] = Ok (c1, []) /\
    real_add_mode conf_example c1 (ch "-") (ch "m") [] = Ok (c2, []) /\ set_after (ch "m") false (to_send c2) = true.
Proof.
  assert (B : bare (ch "m")) by by split_and!.
  split; [exact B|].
  destruct (request_order_lost conf_example chan_example (ch "m") false eq_refl B (or_introl eq_refl)
    ltac:(vm_compute; discriminate) eq_refl eq_refl) as (c1 & c2 & E1 & E2 & _ & E3).
  by exists c1, c2.
Defined.

Lemma letters_overflow_witness : Forall bare (bs "acdfgijmnprstuwxyzABC") /\
  add_modes conf_example chan_example (map (fun l => ([ch "+"; l], [])) (bs "acdfgijmnprstuwxyzABC")) = Err BufferOverflow.
Proof.
  assert (B : Forall bare (bs "acdfgijmnprstuwxyzABC")) by (repeat constructor; done).
  split; [exact B|].
  apply (letters_overflow conf_example chan_example); [reflexivity|exact B|by left|vm_compute; discriminate| |cbn; lia|cbn; lia].
  apply (bool_decide_unpack _). vm_compute. exact I.
Defined.

(** Modes e and I share a line with others, although [prevent_mixing] is set: the flush
    that keeps them apart also forgets, in [compat], what is queued next. *)
Lemma mixing_after_flush :
  match add_modes conf_example chan_example [(bs "+o", bs "joe"); (bs "+e", bs "a!b@c"); (bs "+b", bs "x!y@z")] with
  | Ok (c, out) => map snd out = [bs "MODE #egg +o joe"] /\
                   map snd (snd (flush_mode conf_example c NORMAL)) = [bs "MODE #egg +eb a!b@c x!y@z"]
  | Err _ => False
  end.
Proof. vm_compute. by split. Qed.

(** ** The hash tables and the lists *)


(** While the network folds case as RFC 1459 does, a lookup through the hash tables of a
    channel and the walk along its lists find the same members and masks. *)
Theorem index_agrees cf a b : rfc_compliant cf = true -> cstr a -> cstr b -> found cf a b = same_rfc cf a b.
Proof.
  intros Hr Ha Hb. unfold found, same_rfc. rewrite Hr. destruct (indexed cf); [|done].
  apply eq_true_iff_eq. unfold htab_eq_istr. by rewrite Z.eqb_eq, streq_eq, casecmp_istr.
Qed.

Lemma index_agrees_witness : cstr (bs "joe[away]") /\ cstr (bs "JOE{AWAY}") /\
  found conf_example (bs "joe[away]") (bs "JOE{AWAY}") = same_rfc conf_example (bs "joe[away]") (bs "JOE{AWAY}").
Proof.
  assert (A : cstr (bs "joe[away]")) by (repeat constructor; lia).
  assert (B : cstr (bs "JOE{AWAY}")) by (repeat constructor; lia).
  split; [exact A|]. split; [exact B|]. exact (index_agrees conf_example _ _ eq_refl A B).
Defined.
