(* ===== verification/Botnet.v ===== *)
(** * The bot network: its tables (src/botnet.c, src/botmsg.c, src/dccutil.c)

    The bots that are linked, directly or through others ([tandbot], a list in the order of
    arrival, with the hash table [bot_table] over it), the people on them ([party]) and the
    connections ([dcc]); the operations on the tables and the messages that are sent.
    A node is known by its address: 0 is the null pointer, 1 the mark of a bot that is linked
    to this one, and a node that is not in the list has been freed. *)

From S2P Require Import Prelude LibC Match Strings FlagDefs Htab Base64.
#[local] Open Scope Z_scope.

(** ** Data *)

Definition HANDLEN : Z := 32.
Definition NEAT_BOTNET : Z := 1029900.
Definition GLOBAL_CHANS : Z := 100000.
Definition PLSTAT_AWAY : Z := 0x001.

Definition STAT_PINGED : Z := 0x00001.
Definition STAT_SHARE : Z := 0x00002.
Definition STAT_WARNED : Z := 0x00040.
Definition STAT_LEAF : Z := 0x00080.
Definition STAT_LINKING : Z := 0x00100.

(** [next] is the order of the list. *)
Record tand_t := {
  t_ptr : Z;
  bot : list Z;
  via : Z;
  uplink : Z;
  ver : Z;
  share : Z;
  ssl : Z
}.

Record party_t := {
  p_nick : list Z;
  p_bot : list Z;
  p_sock : Z;
  p_chan : Z;
  p_from : list Z;
  p_flag : Z;
  p_status : Z;
  p_timer : Z;
  p_away : option (list Z)
}.

(** The connection types that the network tells apart; for the others, whether [DCT_CHAT] is in
    their flags. *)
Inductive dcc_type := DCC_BOT | DCC_BOT_NEW | DCC_FORK_BOT | DCC_CHAT | DCC_LOST | DCC_OTHER (chat : bool).
#[export] Instance dcc_type_eq_dec : EqDecision dcc_type.
Proof. solve_decision. Defined.
Definition has_chat (ty : dcc_type) : bool := match ty with DCC_CHAT => true | DCC_OTHER c => c | _ => false end.

(** [d_flags] is [bot_flags(dcc.user)], [d_icon] is [geticon]; the channel and the away
    message are those of a chat, the version that of a bot. *)
Record dcc_t := {
  d_nick : list Z;
  d_host : list Z;
  d_sock : Z;
  d_type : dcc_type;
  d_status : Z;
  d_flags : Z;
  d_ssl : Z;
  d_numver : Z;
  d_channel : Z;
  d_icon : Z;
  d_away : option (list Z);
  d_timeval : Z
}.

(** What leaves the network: text for a connection, a closed socket, the Tcl bindings, and
    the calls into other parts of the program. *)
Inductive event :=
| Dprint (idx : Z) (text : list Z)
| KillSock (idx : Z)
| TclDisc (who : list Z)
| TclLink (who via : list Z)
| TclChpt (bot nick : list Z) (sock chan : Z)
| TclChjn (bot nick : list Z) (chan flag sock : Z) (from : list Z)
| TclAway (bot : list Z) (sock : Z) (msg : list Z)
| TclChat (from : list Z) (chan : Z) (msg : list Z)
| TclBcst (from : list Z) (chan : Z) (msg : list Z)
| TclAct (from : list Z) (chan : Z) (msg : list Z)
| TclBot (from opcode par : list Z)
| TouchLaston (handle place : list Z)
| DupwaitNotify (who : list Z)
| ChangeHandle (idx : Z) (handle : list Z)
| BotShare (idx : Z) (par : list Z)
| EggEval (script : list Z)
| TclChof (nick : list Z) (sock : Z)
| DccChatter (idx : Z)
| AddNote (to from msg : list Z) (idx : Z)
| SetPass (handle pass : list Z)
| RemoteReq (idx : Z) (from path : list Z)
| RemoteTellWho (idx : Z) (from : list Z) (chan : Z).

Record net := {
  tandbot : list tand_t;
  bot_table : op_htab istr_key;
  tands : Z;
  party : list party_t;
  party_size : Z;
  dcc : list dcc_t;
  fakesock : Z;
  lastfake : Z;
  now : Z;
  botnetnick : list Z;
  fresh : Z;
  out : list event
}.

Definition set_bots (l : list tand_t) (t : op_htab istr_key) (n : Z) (s : net) : net :=
  {| tandbot := l; bot_table := t; tands := n; party := party s; party_size := party_size s; dcc := dcc s;
     fakesock := fakesock s; lastfake := lastfake s; now := now s; botnetnick := botnetnick s; fresh := fresh s; out := out s |}.
Definition set_fresh (p : Z) (s : net) : net :=
  {| tandbot := tandbot s; bot_table := bot_table s; tands := tands s; party := party s; party_size := party_size s; dcc := dcc s;
     fakesock := fakesock s; lastfake := lastfake s; now := now s; botnetnick := botnetnick s; fresh := p; out := out s |}.
Definition set_party (l : list party_t) (n : Z) (s : net) : net :=
  {| tandbot := tandbot s; bot_table := bot_table s; tands := tands s; party := l; party_size := n; dcc := dcc s;
     fakesock := fakesock s; lastfake := lastfake s; now := now s; botnetnick := botnetnick s; fresh := fresh s; out := out s |}.
Definition set_dcc (l : list dcc_t) (s : net) : net :=
  {| tandbot := tandbot s; bot_table := bot_table s; tands := tands s; party := party s; party_size := party_size s; dcc := l;
     fakesock := fakesock s; lastfake := lastfake s; now := now s; botnetnick := botnetnick s; fresh := fresh s; out := out s |}.
Definition set_fakes (sock last : Z) (s : net) : net :=
  {| tandbot := tandbot s; bot_table := bot_table s; tands := tands s; party := party s; party_size := party_size s; dcc := dcc s;
     fakesock := sock; lastfake := last; now := now s; botnetnick := botnetnick s; fresh := fresh s; out := out s |}.
Definition set_now (t : Z) (s : net) : net :=
  {| tandbot := tandbot s; bot_table := bot_table s; tands := tands s; party := party s; party_size := party_size s; dcc := dcc s;
     fakesock := fakesock s; lastfake := lastfake s; now := t; botnetnick := botnetnick s; fresh := fresh s; out := out s |}.
Definition add_out (e : list event) (s : net) : net :=
  {| tandbot := tandbot s; bot_table := bot_table s; tands := tands s; party := party s; party_size := party_size s; dcc := dcc s;
     fakesock := fakesock s; lastfake := lastfake s; now := now s; botnetnick := botnetnick s; fresh := fresh s; out := out s ++ e |}.

(** ** The monad: state and faults *)

(** [NotModelled]: the handler is not one of those that are modelled. *)
Inductive nfault := Freed | Null | Overflow | OutOfFuel | NotModelled | Broken (d : diverged).

Definition M (A : Type) : Type := net -> result nfault (A * net).
#[export] Instance M_ret : MRet M := fun A a s => Ok (a, s).
#[export] Instance M_bind : MBind M := fun A B f m s => let! r := m s in f (fst r) (snd r).

Definition fail {A} (e : nfault) : M A := fun _ => Err e.
Definition get {A} (f : net -> A) : M A := fun s => Ok (f s, s).
Definition upd (f : net -> net) : M unit := fun s => Ok (tt, f s).
Definition emit (e : event) : M unit := upd (add_out [e]).
Definition lift {A} (r : result diverged A) : M A := fun s => match r with Ok a => Ok (a, s) | Err d => Err (Broken d) end.
Definition skip : M unit := mret tt.
Definition run_when (b : bool) (m : M unit) : M unit := if b then m else skip.

(** [for (i = 0; i < n; i++) body(i)] *)
Fixpoint for_range (n : nat) (i : Z) (body : Z -> M unit) : M unit :=
  match n with O => skip | S n => body i ≫= fun _ => for_range n (i + 1) body end.

(** [*p] *)
Definition deref (l : list tand_t) (p : Z) : result nfault tand_t :=
  if p =? 0 then Err Null else match find (fun b => t_ptr b =? p) l with Some b => Ok b | None => Err Freed end.
Definition load (p : Z) : M tand_t := fun s => let! b := deref (tandbot s) p in Ok (b, s).

Definition head_ptr (l : list tand_t) : Z := match l with b :: _ => t_ptr b | [] => 0 end.
(** [p->next] *)
Fixpoint next_ptr (l : list tand_t) (p : Z) : result nfault Z :=
  match l with
  | [] => Err Freed
  | b :: l => if t_ptr b =? p then Ok (head_ptr l) else next_ptr l p
  end.
Definition next_of (p : Z) : M Z := fun s => let! q := next_ptr (tandbot s) p in Ok (q, s).

(** ** The list of bots *)

Definition init_bots (s : net) : net := set_bots [] (op_htab_create 32) (tands s) s.

Definition key_of_name (who : list Z) : istr_key := {| istr_of := who |}.

Definition findbot (who : list Z) : M Z :=
  t ← get bot_table;
  lift (op_htab_get t (key_of_name who)).

Definition update_node (p : Z) (f : tand_t -> tand_t) (l : list tand_t) : list tand_t :=
  map (fun b => if t_ptr b =? p then f b else b) l.
(** Writes through [p]. *)
Definition store (p : Z) (f : tand_t -> tand_t) : M unit :=
  load p ≫= fun _ => upd (fun s => set_bots (update_node p f (tandbot s)) (bot_table s) (tands s) s).

Definition set_links (v u : Z) (b : tand_t) : tand_t :=
  {| t_ptr := t_ptr b; bot := bot b; via := v; uplink := u; ver := ver b; share := share b; ssl := ssl b |}.
Definition set_share (c : Z) (b : tand_t) : tand_t :=
  {| t_ptr := t_ptr b; bot := bot b; via := via b; uplink := uplink b; ver := ver b; share := c; ssl := ssl b |}.
Definition set_ver (v : Z) (b : tand_t) : tand_t :=
  {| t_ptr := t_ptr b; bot := bot b; via := via b; uplink := uplink b; ver := v; share := share b; ssl := ssl b |}.

(** The node goes to the end of the list, and is in the table before [from] is looked up. *)
Definition addbot (who from next : list Z) (flag vernum ssl : Z) : M unit :=
  p ← get fresh;
  let name := op_strlcpy who (HANDLEN + 1) in
  let node := {| t_ptr := p; bot := name; via := 0; uplink := 0; ver := vernum; share := flag; ssl := ssl |} in
  upd (fun s => set_fresh (p + 1) (set_bots (tandbot s ++ [node]) (bot_table s) (tands s) s)) ≫= fun _ =>
  t ← get bot_table;
  r ← lift (op_htab_set t (key_of_name name) p);
  upd (fun s => set_bots (tandbot s) (snd r) (tands s) s) ≫= fun _ =>
  v ← findbot from;
  me ← get botnetnick;
  u ← (if same_name next me then mret 1 else findbot next);
  store p (set_links v u) ≫= fun _ =>
  upd (fun s => set_bots (tandbot s) (bot_table s) (tands s + 1) s).

(** ** The people on the network *)

Definition on_bot (b : list Z) (p : party_t) : bool := same_name (p_bot p) b.
Definition is_member (b : list Z) (sock : Z) (p : party_t) : bool := on_bot b p && (p_sock p =? sock).
Definition is_nick (b nick : list Z) (p : party_t) : bool := on_bot b p && same_name (p_nick p) nick.

Fixpoint index_from (f : party_t -> bool) (l : list party_t) (i : Z) : Z :=
  match l with [] => -1 | p :: l => if f p then i else index_from f l (i + 1) end.

Definition partysock (bot nick : list Z) : M Z :=
  l ← get party;
  mret (match find (is_nick bot nick) l with Some p => p_sock p | None => 0 end).

Definition getparty (bot : list Z) (sock : Z) : M Z :=
  l ← get party; mret (index_from (is_member bot sock) l 0).

Definition no_member : party_t :=
  {| p_nick := []; p_bot := []; p_sock := 0; p_chan := 0; p_from := []; p_flag := 0; p_status := 0; p_timer := 0; p_away := None |}.
Definition party_at (l : list party_t) (i : Z) : party_t := nth (Z.to_nat i) l no_member.
Definition party_set (l : list party_t) (i : Z) (p : party_t) : list party_t := <[Z.to_nat i := p]> l.

Definition set_member_chan (chan flag t : Z) (from : list Z) (p : party_t) : party_t :=
  {| p_nick := p_nick p; p_bot := p_bot p; p_sock := p_sock p; p_chan := chan;
     p_from := match from with [] => p_from p | _ => from end;
     p_flag := match from with [] => p_flag p | _ => if flag =? ch " " then ch "-" else flag end;
     p_status := p_status p; p_timer := t; p_away := p_away p |}.
Definition set_status (st : Z) (p : party_t) : party_t :=
  {| p_nick := p_nick p; p_bot := p_bot p; p_sock := p_sock p; p_chan := p_chan p; p_from := p_from p;
     p_flag := p_flag p; p_status := st; p_timer := p_timer p; p_away := p_away p |}.
Definition set_timer (t : Z) (p : party_t) : party_t :=
  {| p_nick := p_nick p; p_bot := p_bot p; p_sock := p_sock p; p_chan := p_chan p; p_from := p_from p;
     p_flag := p_flag p; p_status := p_status p; p_timer := t; p_away := p_away p |}.
Definition set_nick (nick : list Z) (p : party_t) : party_t :=
  {| p_nick := nick; p_bot := p_bot p; p_sock := p_sock p; p_chan := p_chan p; p_from := p_from p;
     p_flag := p_flag p; p_status := p_status p; p_timer := p_timer p; p_away := p_away p |}.
Definition set_away (away : option (list Z)) (p : party_t) : party_t :=
  {| p_nick := p_nick p; p_bot := p_bot p; p_sock := p_sock p; p_chan := p_chan p; p_from := p_from p;
     p_flag := p_flag p; p_status := p_status p; p_timer := p_timer p; p_away := away |}.

Definition new_member (bot nick : list Z) (chan flag sock : Z) (from : list Z) (t : Z) : party_t :=
  {| p_nick := op_strlcpy nick (HANDLEN + 1); p_bot := op_strlcpy bot (HANDLEN + 1); p_sock := sock; p_chan := chan;
     p_from := match from with [] => bs "(unknown)" | _ => from end;
     p_flag := match from with [] => ch " " | _ => if flag =? ch " " then ch "-" else flag end;
     p_status := 0; p_timer := t; p_away := None |}.

(** What [addparty] returns, and the index it leaves in [idx]. *)
Definition addparty (bot nick : list Z) (chan flag sock : Z) (from : list Z) : M (Z * Z) :=
  l ← get party;
  n ← get party_size;
  t ← get now;
  i ← getparty bot sock;
  let old := party_at l i in
  if 0 <=? i then
    upd (set_party (party_set l i (set_member_chan chan flag t from old)) n) ≫= fun _ => mret (p_chan old, i)
  else
    let parties := Z.of_nat (length l) in
    let size := if n =? 0 then 1 else if parties =? n then i32 (Z.shiftl n 1) else n in
    upd (set_party (l ++ [new_member bot nick chan flag sock from t]) size) ≫= fun _ => mret (-1, parties).

(** [f] at every member. *)
Definition update_party (f : party_t -> bool) (g : party_t -> party_t) : M unit :=
  upd (fun s => set_party (map (fun p => if f p then g p else p) (party s)) (party_size s) s).

Definition partystat (bot : list Z) (sock add rem : Z) : M unit :=
  update_party (is_member bot sock) (fun p => set_status ((p_status p ||| add) &~ rem) p).
Definition partysetidle (bot : list Z) (sock secs : Z) : M unit :=
  t ← get now; update_party (is_member bot sock) (set_timer (t - secs)).
Definition partyidle (bot nick : list Z) : M bool :=
  t ← get now;
  l ← get party;
  update_party (is_nick bot nick) (set_timer t) ≫= fun _ => mret (existsb (is_nick bot nick) l).
Definition partyaway (bot : list Z) (sock : Z) (msg : list Z) : M unit :=
  update_party (is_member bot sock) (set_away (match msg with [] => None | _ => Some msg end)).

(** The index, and what is left in [nick]. *)
Definition partynick (bot : list Z) (sock : Z) (nick : list Z) : M (Z * list Z) :=
  l ← get party;
  n ← get party_size;
  i ← getparty bot sock;
  let p := party_at l i in
  if 0 <=? i then
    upd (set_party (party_set l i (set_nick (op_strlcpy nick (HANDLEN + 1)) p)) n) ≫= fun _ =>
    mret (i, op_strlcpy (op_strlcpy (p_nick p) (HANDLEN + 1)) (HANDLEN + 1))
  else mret (-1, nick).

(** The last member takes the place of member [i]. *)
Definition swap_out (l : list party_t) (i : Z) : list party_t :=
  let n := Z.of_nat (length l) - 1 in
  let l' := take (Z.to_nat n) l in
  if i <? n then party_set l' i (party_at l n) else l'.

(** The loop goes on after the member that was moved. *)
Fixpoint remparty_loop (fuel : nat) (i : Z) (bot : list Z) (sock : Z) (l : list party_t) : list party_t :=
  match fuel with
  | O => l
  | S fuel =>
      if Z.of_nat (length l) <=? i then l
      else remparty_loop fuel (i + 1) bot sock (if is_member bot sock (party_at l i) then swap_out l i else l)
  end.
Definition remparty (bot : list Z) (sock : Z) : M unit :=
  upd (fun s => set_party (remparty_loop (length (party s)) 0 bot sock (party s)) (party_size s) s).

(** [i--] undoes the step of the loop. *)
Fixpoint rempartybot_loop (fuel : nat) (i : Z) (bot : list Z) : M unit :=
  match fuel with
  | O => fail OutOfFuel
  | S fuel =>
      l ← get party;
      if Z.of_nat (length l) <=? i then skip
      else
        let p := party_at l i in
        if on_bot bot p then
          run_when (0 <=? p_chan p) (emit (TclChpt bot (p_nick p) (p_sock p) (p_chan p))) ≫= fun _ =>
          remparty bot (p_sock p) ≫= fun _ => rempartybot_loop fuel i bot
        else rempartybot_loop fuel (i + 1) bot
  end.
Definition rempartybot (bot : list Z) : M unit :=
  l ← get party; rempartybot_loop (S (length l)) 0 bot.

(** ** Unlinking *)

Fixpoint remove_node (p : Z) (l : list tand_t) : list tand_t :=
  match l with [] => [] | b :: l => if t_ptr b =? p then l else b :: remove_node p l end.

Section Users.
(** [users h]: the bot flags of the user record of [h], if there is one. *)
Context (users : list Z -> option Z).

Definition rembot (who : list Z) : M unit :=
  l ← get tandbot;
  match find (fun b => same_name (bot b) who) l with
  | None => skip
  | Some b =>
      emit (TclDisc who) ≫= fun _ =>
      run_when (match users who with Some _ => true | None => false end) (emit (TouchLaston who (bs "unlinked"))) ≫= fun _ =>
      t ← get bot_table;
      r ← lift (op_htab_del t (key_of_name (bot b)));
      upd (fun s => set_bots (remove_node (t_ptr b) (tandbot s)) (snd r) (tands s - 1) s) ≫= fun _ =>
      emit (DupwaitNotify who)
  end.

(** The body of [unvia], the loop being [loop who cur]. *)
Definition unvia_with (loop : Z -> Z -> M unit) (who : Z) : M unit :=
  if who =? 0 then skip
  else b ← load who;
       rempartybot (bot b) ≫= fun _ => l ← get tandbot; loop who (head_ptr l).

(** [next] is read after the recursion, and before the node is freed. *)
Fixpoint unvia_loop (fuel : nat) (who cur : Z) : M unit :=
  match fuel with
  | O => fail OutOfFuel
  | S fuel =>
      if cur =? 0 then skip
      else
        b ← load cur;
        if uplink b =? who then
          unvia_with (unvia_loop fuel) cur ≫= fun _ =>
          bot2 ← next_of cur;
          b ← load cur;
          rembot (bot b) ≫= fun _ => unvia_loop fuel who bot2
        else next_of cur ≫= unvia_loop fuel who
  end.

(** The recursion is at most as deep as the number of bots, the loop as long. *)
Definition unvia (who : Z) : M unit :=
  l ← get tandbot;
  let n := S (length l) in unvia_with (unvia_loop (n * n)) who.

(** The kill function of the connections to bots: only a bot that is linked is in the tables. *)
Definition free_dcc_bot_ (d : dcc_t) : M unit :=
  run_when (bool_decide (d_type d = DCC_BOT))
    (p ← findbot (d_nick d); unvia p ≫= fun _ => rembot (d_nick d)).

Definition no_dcc (ty : dcc_type) (sock : Z) : dcc_t :=
  {| d_nick := []; d_host := []; d_sock := sock; d_type := ty; d_status := 0; d_flags := 0; d_ssl := 0; d_numver := 0;
     d_channel := 0; d_icon := 0; d_away := None; d_timeval := 0 |}.
Definition dcc_at (l : list dcc_t) (i : Z) : dcc_t := nth (Z.to_nat i) l (no_dcc DCC_LOST (-1)).
Definition dcc_set (i : Z) (f : dcc_t -> dcc_t) : M unit :=
  upd (fun s => set_dcc (alter f (Z.to_nat i) (dcc s)) s).

Definition lostdcc (n : Z) : M unit :=
  l ← get dcc;
  if (n <? 0) || (Z.of_nat (length l) <=? n) then skip
  else free_dcc_bot_ (dcc_at l n) ≫= fun _ => dcc_set n (fun _ => no_dcc DCC_LOST (-1)).

Definition killsock (idx : Z) : M unit := emit (KillSock idx).

End Users.

(** ** Routing *)

Fixpoint index_dcc (f : dcc_t -> bool) (l : list dcc_t) (i : Z) : Z :=
  match l with [] => -1 | d :: l => if f d then i else index_dcc f l (i + 1) end.

(** [bot->via] is read for every connection. *)
Definition nextbot (who : list Z) : M Z :=
  p ← findbot who;
  if p =? 0 then mret (-1)
  else
    b ← load p;
    l ← get dcc;
    if via b =? 0 then mret (-1)
    else match l with
         | [] => mret (-1)
         | _ => v ← load (via b);
                mret (index_dcc (fun d => same_name (bot v) (d_nick d) && bool_decide (d_type d = DCC_BOT)) l 0)
         end.

Definition lastbot (who : list Z) : M (list Z) :=
  p ← findbot who;
  if p =? 0 then mret (bs "*")
  else
    b ← load p;
    if uplink b =? 1 then get botnetnick else u ← load (uplink b); mret (bot u).

Definition in_chain (who : list Z) : M bool :=
  p ← findbot who;
  if negb (p =? 0) then mret true
  else me ← get botnetnick; mret (same_name who me).

(** The sum of [f] over the bots that are linked to [p]. *)
Fixpoint sum_links (f : Z -> result nfault Z) (p : Z) (l : list tand_t) : result nfault Z :=
  match l with
  | [] => Ok 0
  | b :: l =>
      let! n := (if (match bot b with [] => false | _ => true end) && (uplink b =? p) then f (t_ptr b) else Ok 0) in
      let! k := sum_links f p l in Ok (n + k)
  end.

Fixpoint bots_loop (fuel : nat) (l : list tand_t) (p : Z) : result nfault Z :=
  match fuel with
  | O => Err OutOfFuel
  | S fuel => if p =? 0 then Ok 0 else let! k := sum_links (bots_loop fuel l) p l in Ok (1 + k)
  end.
Definition bots_in_subtree (p : Z) : M Z :=
  fun s => let! n := bots_loop (S (length (tandbot s))) (tandbot s) p in Ok (n, s).

Fixpoint users_loop (fuel : nat) (l : list tand_t) (us : list party_t) (p : Z) : result nfault Z :=
  match fuel with
  | O => Err OutOfFuel
  | S fuel =>
      if p =? 0 then Ok 0
      else
        let! nr := match us with
                   | [] => Ok 0
                   | _ => let! b := deref l p in Ok (Z.of_nat (length (filter (fun u => on_bot (bot b) u = true) us)))
                   end in
        let! k := sum_links (users_loop fuel l us) p l in Ok (nr + k)
  end.
Definition users_in_subtree (p : Z) : M Z :=
  fun s => let! n := users_loop (S (length (tandbot s))) (tandbot s) (party s) p in Ok (n, s).

(** ** Messages *)

Definition sp : list Z := [ch " "].
Definition nl : list Z := [10].

(** [send_tand_but]: a negative length stands for [iso]. *)
Definition reached (x : Z) (iso : bool) (i : Z) (d : dcc_t) : bool :=
  bool_decide (d_type d = DCC_BOT) && negb (i =? x) && (NEAT_BOTNET <=? d_numver d) &&
  (negb iso || negb (d_flags d &? BOT_ISOLATE)).
Fixpoint dprint_where (f : Z -> dcc_t -> bool) (text : list Z) (l : list dcc_t) (i : Z) : list event :=
  match l with
  | [] => []
  | d :: l => (if f i d then [Dprint i text] else []) ++ dprint_where f text l (i + 1)
  end.
Definition send_tand_but (x : Z) (text : list Z) (iso : bool) : M unit :=
  upd (fun s => add_out (dprint_where (reached x iso) text (dcc s) 0) s).
Definition if_linked (m : M unit) : M unit := n ← get tands; run_when (0 <? n) m.

Definition chanout_but (x chan : Z) (text : list Z) : M unit :=
  upd (fun s => add_out (dprint_where (fun i d => bool_decide (d_type d = DCC_CHAT) && negb (i =? x) && (d_channel d =? chan))
                           text (dcc s) 0) s).

Definition botnet_send_bye : M unit := if_linked (send_tand_but (-1) (bs "bye" ++ nl) false).
Definition user_at (user : option (list Z)) (botnick : list Z) : list Z :=
  match user with Some u => u ++ bs "@" ++ botnick | None => botnick end.
Definition at_bot (nick : list Z) (b : option (list Z)) : list Z :=
  match b with Some b => nick ++ bs "@" ++ b | None => nick end.
Definition botnet_send_chan (idx : Z) (botnick : list Z) (user : option (list Z)) (chan : Z) (data : list Z) : M unit :=
  if_linked (run_when (chan <? GLOBAL_CHANS)
    (send_tand_but idx (bs "c " ++ user_at user botnick ++ sp ++ int_to_base64 chan ++ sp ++ data ++ nl) true)).
Definition botnet_send_act (idx : Z) (botnick : list Z) (user : option (list Z)) (chan : Z) (data : list Z) : M unit :=
  if_linked (run_when (chan <? GLOBAL_CHANS)
    (send_tand_but idx (bs "a " ++ user_at user botnick ++ sp ++ int_to_base64 chan ++ sp ++ data ++ nl) true)).
Definition botnet_send_chat (idx : Z) (botnick data : list Z) : M unit :=
  if_linked (send_tand_but idx (bs "ct " ++ botnick ++ sp ++ data ++ nl) true).
Definition botnet_send_ping (idx : Z) : M unit := emit (Dprint idx (bs "pi" ++ nl)).
Definition botnet_send_pong (idx : Z) : M unit := emit (Dprint idx (bs "po" ++ nl)).
Definition botnet_send_priv (idx : Z) (from to : list Z) (tobot : option (list Z)) (msg : list Z) : M unit :=
  emit (Dprint idx (bs "p " ++ from ++ sp ++ at_bot to tobot ++ sp ++ msg ++ nl)).
Definition botnet_send_who (idx : Z) (from to : list Z) (chan : Z) : M unit :=
  emit (Dprint idx (bs "w " ++ from ++ sp ++ to ++ sp ++ int_to_base64 chan ++ nl)).
Definition botnet_send_infoq (idx : Z) (par : list Z) : M unit := send_tand_but idx (bs "i? " ++ par ++ nl) false.
Definition botnet_send_unlink (idx : Z) (who via bot reason : list Z) : M unit :=
  emit (Dprint idx (bs "ul " ++ who ++ sp ++ via ++ sp ++ bot ++ sp ++ reason ++ nl)).
Definition botnet_send_link (idx : Z) (who via bot : list Z) : M unit :=
  emit (Dprint idx (bs "l " ++ who ++ sp ++ via ++ sp ++ bot ++ nl)).
Definition botnet_send_unlinked (idx : Z) (bot args : list Z) : M unit :=
  if_linked (send_tand_but idx (bs "un " ++ bot ++ sp ++ args ++ nl) false).
Definition nlinked_line (bot next : list Z) (flag vernum : Z) : list Z :=
  bs "n " ++ bot ++ sp ++ next ++ sp ++ flag :: int_to_base64 vernum ++ nl.
Definition botnet_send_nlinked (idx : Z) (bot next : list Z) (flag vernum : Z) : M unit :=
  if_linked (send_tand_but idx (nlinked_line bot next flag vernum) false).
Definition botnet_send_traced (idx : Z) (bot buf : list Z) : M unit :=
  emit (Dprint idx (bs "td " ++ bot ++ sp ++ buf ++ nl)).
Definition botnet_send_trace (idx : Z) (to from buf : list Z) : M unit :=
  me ← get botnetnick; emit (Dprint idx (bs "t " ++ to ++ sp ++ from ++ sp ++ buf ++ bs ":" ++ me ++ nl)).
Definition botnet_send_update (idx : Z) (p : Z) : M unit :=
  if_linked (b ← load p; send_tand_but idx (bs "u " ++ bot b ++ sp ++ share b :: int_to_base64 (ver b) ++ nl) false).
Definition botnet_send_reject (idx : Z) (fromp : list Z) (frombot : option (list Z)) (top : list Z)
    (tobot : option (list Z)) (reason : list Z) : M unit :=
  l ← get dcc;
  run_when (negb (d_flags (dcc_at l idx) &? BOT_ISOLATE))
    (emit (Dprint idx (bs "r " ++ at_bot fromp frombot ++ sp ++ at_bot top tobot ++ sp ++ reason ++ nl))).
Definition botnet_send_zapf (idx : Z) (a b c : list Z) : M unit :=
  emit (Dprint idx (bs "z " ++ a ++ sp ++ b ++ sp ++ c ++ nl)).
Definition botnet_send_zapf_broad (idx : Z) (a : list Z) (b : option (list Z)) (c : list Z) : M unit :=
  if_linked (send_tand_but idx
    (bs "zb " ++ a ++ sp ++ (match b with Some b => b ++ sp | None => [] end) ++ c ++ nl) false).
Definition botnet_send_motd (idx : Z) (from to : list Z) : M unit :=
  emit (Dprint idx (bs "m " ++ from ++ sp ++ to ++ nl)).
Definition botnet_send_filereject (idx : Z) (path from reason : list Z) : M unit :=
  emit (Dprint idx (bs "f! " ++ path ++ sp ++ from ++ sp ++ reason ++ nl)).
Definition botnet_send_filesend (idx : Z) (path from data : list Z) : M unit :=
  emit (Dprint idx (bs "fs " ++ path ++ sp ++ from ++ sp ++ data ++ nl)).
Definition botnet_send_filereq (idx : Z) (from bot path : list Z) : M unit :=
  emit (Dprint idx (bs "fr " ++ from ++ sp ++ bot ++ bs ":" ++ path ++ nl)).

(** Members, here and elsewhere. *)
Definition iso_all (idx : Z) (text : list Z) : M unit := if_linked (send_tand_but idx text true).
Definition bang (b : bool) : list Z := if b then bs "!" else [].

Definition botnet_send_idle (idx : Z) (bot : list Z) (sock idle : Z) (away : list Z) : M unit :=
  iso_all idx (bs "i " ++ bot ++ sp ++ int_to_base64 sock ++ sp ++ int_to_base64 idle ++ sp ++ away ++ nl).
Definition botnet_send_away (idx : Z) (bot : list Z) (sock : Z) (msg : list Z) (linking : bool) : M unit :=
  iso_all idx (bs "aw " ++ bang ((0 <=? idx) && linking) ++ bot ++ sp ++ int_to_base64 sock ++ sp ++ msg ++ nl).
Definition join_line (bot nick : list Z) (chan flag sock : Z) (from : list Z) : list Z :=
  bs "j " ++ bot ++ sp ++ nick ++ sp ++ int_to_base64 chan ++ sp ++ flag :: int_to_base64 sock ++ sp ++ from ++ nl.
Definition botnet_send_join_idx (useridx : Z) : M unit :=
  l ← get dcc; me ← get botnetnick;
  let d := dcc_at l useridx in
  iso_all (-1) (join_line me (d_nick d) (d_channel d) (d_icon d) (d_sock d) (d_host d)).
Definition botnet_send_join_party (idx : Z) (linking : bool) (useridx : Z) : M unit :=
  l ← get party;
  let p := party_at l useridx in
  iso_all idx (join_line (bang linking ++ p_bot p) (p_nick p) (p_chan p) (p_flag p) (p_sock p) (p_from p)).
Definition part_line (bot nick : list Z) (sock : Z) (reason : list Z) : list Z :=
  bs "pt " ++ bot ++ sp ++ nick ++ sp ++ int_to_base64 sock ++ sp ++ reason ++ nl.
Definition botnet_send_part_idx (useridx : Z) (reason : list Z) : M unit :=
  l ← get dcc; me ← get botnetnick;
  let d := dcc_at l useridx in iso_all (-1) (part_line me (d_nick d) (d_sock d) reason).
Definition botnet_send_part_party (idx partyidx : Z) (reason : list Z) (silent : bool) : M unit :=
  l ← get party;
  let p := party_at l partyidx in iso_all idx (part_line (bang silent ++ p_bot p) (p_nick p) (p_sock p) reason).
Definition botnet_send_nkch (useridx : Z) : M unit :=
  l ← get dcc; me ← get botnetnick;
  let d := dcc_at l useridx in
  iso_all (-1) (bs "nc " ++ me ++ sp ++ int_to_base64 (d_sock d) ++ sp ++ d_nick d ++ nl).
Definition botnet_send_nkch_part (butidx useridx : Z) : M unit :=
  l ← get party;
  let p := party_at l useridx in
  iso_all butidx (bs "nc " ++ p_bot p ++ sp ++ int_to_base64 (p_sock p) ++ sp ++ p_nick p ++ nl).

Definition updatebot (idx : Z) (who : list Z) (share vernum : Z) : M unit :=
  p ← findbot who;
  if p =? 0 then skip
  else
    run_when (negb (share =? 0)) (store p (set_share share)) ≫= fun _ =>
    run_when (negb (vernum =? 0)) (store p (set_ver vernum)) ≫= fun _ =>
    botnet_send_update idx p.

(** ** The state of the network, for a bot that has just linked *)

Definition uplink_name (b : tand_t) : M (list Z) :=
  if uplink b =? 1 then get botnetnick else u ← load (uplink b); mret (bot u).
Fixpoint dump_bots (z : Z) (l : list tand_t) : M unit :=
  match l with
  | [] => skip
  | b :: l =>
      p ← uplink_name b;
      emit (Dprint z (nlinked_line (bot b) p (share b) (ver b))) ≫= fun _ => dump_bots z l
  end.

Definition idle_line (bot : list Z) (sock idle : Z) (away : option (list Z)) : list Z :=
  bs "i " ++ bot ++ sp ++ int_to_base64 sock ++ sp ++ int_to_base64 idle ++ sp ++
  (match away with Some a => a | None => [] end) ++ nl.
Definition dump_chat (z t : Z) (me : list Z) (d : dcc_t) : list event :=
  if bool_decide (d_type d = DCC_CHAT) && (0 <=? d_channel d) && (d_channel d <? GLOBAL_CHANS) then
    [Dprint z (join_line (bs "!" ++ me) (d_nick d) (d_channel d) (d_icon d) (d_sock d) (d_host d));
     Dprint z (idle_line me (d_sock d) (t - d_timeval d) (d_away d))]
  else [].
Definition dump_member (z t : Z) (p : party_t) : list event :=
  Dprint z (join_line (p_bot p) (p_nick p) (p_chan p) (p_flag p) (p_sock p) (p_from p)) ::
  (if (p_status p &? PLSTAT_AWAY) || negb (p_timer p =? 0)
   then [Dprint z (idle_line (p_bot p) (p_sock p) (t - p_timer p) (p_away p))] else []).

Definition dump_links (z : Z) : M unit :=
  l ← get tandbot;
  dump_bots z l ≫= fun _ =>
  ds ← get dcc;
  run_when (negb (d_flags (dcc_at ds z) &? BOT_ISOLATE))
    (upd (fun s => add_out (flat_map (dump_chat z (now s) (botnetnick s)) (dcc s) ++
                            flat_map (dump_member z (now s)) (party s)) s)).
