(* ===== verification/Botcmd.v ===== *)
(** * The bot network: its commands (src/botcmd.c, src/botnet.c, src/dcc.c)

    What a linked bot may send and what it does to the tables: links and unlinks of bots,
    joins, parts and changes of members, talk and messages that are passed on; the ends of
    a connection; the pings.  The handlers whose work is in other parts of the program
    (notes, files, the user file, TLS) are not here. *)

From S2P Require Import Prelude LibC Match Strings FlagDefs Htab Base64 Botnet.
#[local] Open Scope Z_scope.

(** The language table, by the numbers of src/lang.h. *)
Definition MISC_DISCONNECTED : Z := 0x516.
Definition MISC_INVALIDBOT : Z := 0x517.
Definition MISC_LOOP : Z := 0x518.
Definition MISC_IMPOSTER : Z := 0x51d.
Definition BOT_DISCONNECTED : Z := 0xb24.
Definition BOT_BOGUSLINK : Z := 0xb29.
Definition BOT_ILLEGALLINK : Z := 0xb2d.
Definition BOT_YOUREALEAF : Z := 0xb2e.
Definition BOT_UNLINKALL : Z := 0xb3e.
Definition BOT_KILLLINKATTEMPT : Z := 0xb3f.
Definition BOT_ENDLINKATTEMPT : Z := 0xb40.
Definition BOT_BREAKLINK : Z := 0xb41.
Definition BOT_UNLINKEDFROM : Z := 0xb42.
Definition BOT_NOTCONNECTED : Z := 0xb43.
Definition BOT_WIPEBOTTABLE : Z := 0xb44.
Definition BOT_PINGTIMEOUT : Z := 0xb5f.
Definition BOT_BOTNOTLEAFLIKE : Z := 0xb60.
Definition BOT_BOTDROPPED : Z := 0xb61.
Definition BOT_CANTUNLINK : Z := 0xb27.
Definition BOT_TRACERESULT : Z := 0xb31.
Definition BOT_DOESNTEXIST : Z := 0xb32.
Definition BOT_NOREMOTEBOOT : Z := 0xb33.
Definition BOT_NOOWNERBOOT : Z := 0xb34.
Definition BOT_XFERREJECTED : Z := 0xb35.
Definition MISC_REJECTED : Z := 0x51c.
Definition MOD_NOFILESYSMOD : Z := 0x20e.
Definition DCC_BOOTED1 : Z := 0xc1e.
Definition DCC_BOOTED2 : Z := 0xc1f.
Definition DCC_BOOTED3 : Z := 0xc20.
Definition NET_FAKEREJECT : Z := 0xe00.
Definition NET_LEFTTHE : Z := 0xe03.
Definition NET_JOINEDTHE : Z := 0xe04.
Definition NET_AWAY : Z := 0xe05.
Definition NET_UNAWAY : Z := 0xe06.

(** [char] is signed. *)
Definition schar (c : Z) : Z := if c <? 128 then c else c - 256.

(** The control characters are taken out; so are all bytes from 128 on. *)
Definition strip_ctl (s : list Z) : list Z := filter (fun c => (31 <? schar c) && negb (c =? 127) = true) s.

(** The user and the bot of [user@bot]. *)
Definition user_bot (s : list Z) : option (list Z * list Z) :=
  match split_at (ch "@") s with (u, Some b) => Some (u, b) | (_, None) => None end.

(** A linked bot, known by the index of its connection, sends [par]. *)
Section Commands.
Context (users : list Z -> option Z) (lang : Z -> list Z).

Definition dcc_of (idx : Z) : M dcc_t := l ← get dcc; mret (dcc_at l idx).
Definition unless_isolated (idx : Z) (m : M unit) : M unit :=
  d ← dcc_of idx; run_when (negb (d_flags d &? BOT_ISOLATE)) m.
Definition text (idx : Z) (s : list Z) : M unit := emit (Dprint idx s).

Definition fake_alert (idx : Z) (item extra : list Z) : M unit :=
  t ← get now; last ← get lastfake; me ← get botnetnick;
  run_when (10 <? t - last)
    (text idx (bs "ct " ++ me ++ bs " NOTICE: " ++ lang NET_FAKEREJECT ++ bs " (" ++ item ++ bs " != " ++ extra ++ bs ")." ++ nl) ≫= fun _ =>
     upd (fun s => set_fakes (fakesock s) t s)).
(** [m], if [who] is behind the connection that the message is from. *)
Definition from_idx (idx : Z) (who : list Z) (m : M unit) : M unit :=
  i ← nextbot who; if negb (i =? idx) then fake_alert idx (bs "direction") who else m.

Definition bot_chan2 (idx : Z) (msg : list Z) : M unit :=
  unless_isolated idx (
    let '(from, msg) := newsplit msg in
    let '(p, msg) := newsplit msg in
    let chan := base64_to_int p in
    let from := strip_ctl from in
    let say (p tbuf : list Z) : M unit :=
      from_idx idx p (
        chanout_but (-1) chan (tbuf ++ nl) ≫= fun _ =>
        run_when (0 <=? idx) (botnet_send_chan idx from None chan msg) ≫= fun _ =>
        emit (if mem (ch "@") from then TclChat from chan msg else TclBcst from chan msg)) in
    match user_bot from with
    | Some (user, b) =>
        ok ← partyidle b user;
        if negb ok then fake_alert idx (bs "user") from else say b (bs "<" ++ from ++ bs "> " ++ msg)
    | None => say from (bs "*** (" ++ from ++ bs ") " ++ msg)
    end).

Definition bot_chat (idx : Z) (par : list Z) : M unit :=
  unless_isolated idx (
    let '(from, par) := newsplit par in
    if mem (ch "@") from then fake_alert idx (bs "bot") from
    else from_idx idx from (botnet_send_chat idx from par ≫= fun _ => emit (TclBcst from (-1) par))).

Definition bot_actchan (idx : Z) (par : list Z) : M unit :=
  unless_isolated idx (
    let '(from, par) := newsplit par in
    match user_bot from with
    | None => fake_alert idx (bs "user@bot") from
    | Some (user, b) =>
        ok ← partyidle b user;
        if negb ok then fake_alert idx (bs "user") from
        else from_idx idx b (
          let '(p, par) := newsplit par in
          let chan := base64_to_int p in
          let from := strip_ctl from in
          chanout_but (-1) chan (bs "* " ++ from ++ sp ++ par ++ nl) ≫= fun _ =>
          botnet_send_act idx from None chan par ≫= fun _ => emit (TclAct from chan par))
    end).

Definition set_dstatus (f : Z -> Z) (d : dcc_t) : dcc_t :=
  {| d_nick := d_nick d; d_host := d_host d; d_sock := d_sock d; d_type := d_type d; d_status := f (d_status d);
     d_flags := d_flags d; d_ssl := d_ssl d; d_numver := d_numver d; d_channel := d_channel d; d_icon := d_icon d;
     d_away := d_away d; d_timeval := d_timeval d |}.
Definition set_dnick (nick : list Z) (d : dcc_t) : dcc_t :=
  {| d_nick := nick; d_host := d_host d; d_sock := d_sock d; d_type := d_type d; d_status := d_status d;
     d_flags := d_flags d; d_ssl := d_ssl d; d_numver := d_numver d; d_channel := d_channel d; d_icon := d_icon d;
     d_away := d_away d; d_timeval := d_timeval d |}.
Definition set_dtype (ty : dcc_type) (d : dcc_t) : dcc_t :=
  {| d_nick := d_nick d; d_host := d_host d; d_sock := d_sock d; d_type := ty; d_status := d_status d;
     d_flags := d_flags d; d_ssl := d_ssl d; d_numver := d_numver d; d_channel := d_channel d; d_icon := d_icon d;
     d_away := d_away d; d_timeval := d_timeval d |}.

Definition set_timeval (t : Z) (d : dcc_t) : dcc_t :=
  {| d_nick := d_nick d; d_host := d_host d; d_sock := d_sock d; d_type := d_type d; d_status := d_status d;
     d_flags := d_flags d; d_ssl := d_ssl d; d_numver := d_numver d; d_channel := d_channel d; d_icon := d_icon d;
     d_away := d_away d; d_timeval := t |}.
Definition set_numver (v : Z) (d : dcc_t) : dcc_t :=
  {| d_nick := d_nick d; d_host := d_host d; d_sock := d_sock d; d_type := d_type d; d_status := d_status d;
     d_flags := d_flags d; d_ssl := d_ssl d; d_numver := v; d_channel := d_channel d; d_icon := d_icon d;
     d_away := d_away d; d_timeval := d_timeval d |}.

Definition bot_endlink (idx : Z) : M unit := dcc_set idx (set_dstatus (fun st => st &~ STAT_LINKING)).
Definition bot_ping (idx : Z) : M unit := botnet_send_pong idx.
Definition bot_pong (idx : Z) : M unit := dcc_set idx (set_dstatus (fun st => st &~ STAT_PINGED)).

(** ** Links *)

Definition bot_update (idx : Z) (par : list Z) : M unit :=
  let '(bot, par) := newsplit par in
  let '(x, par) := match par with x :: par => (x, par) | [] => (0, []) end in
  b ← in_chain bot;
  run_when b (updatebot idx bot x (base64_to_int par)).

(** The connection is given up: its bot and all bots behind it are unlinked. *)
Definition close_link (idx : Z) : M unit := killsock idx ≫= fun _ => lostdcc users idx.

Definition bogus_name (newbot : list Z) : bool :=
  existsb (fun c => (schar c <? 32) || (c =? 127)) newbot || (HANDLEN <? Z.of_nat (length newbot)).

(** What is wrong with a new bot, if the message says so itself. *)
Definition nlinked_error (idx : Z) (newbot next : list Z) : M (list Z) :=
  d ← dcc_of idx;
  me ← get botnetnick;
  match next with
  | [] =>
      text idx (bs "e invalid eggnet protocol for 'nlinked'" ++ nl) ≫= fun _ =>
      mret (lang MISC_DISCONNECTED ++ sp ++ d_nick d ++ bs " (" ++ lang MISC_INVALIDBOT ++ bs ")")
  | _ =>
      known ← in_chain newbot;
      if known || same_name newbot me then
        text idx (bs "e Loop (" ++ newbot ++ bs ")" ++ nl) ≫= fun _ =>
        mret (lang MISC_LOOP ++ sp ++ newbot ++ bs ": disconnecting " ++ d_nick d)
      else mret []
  end.
(** Or if it is not to be believed: the bot it is linked to must be behind the connection. *)
Definition nlinked_bogus (idx : Z) (newbot next s : list Z) : M (list Z) :=
  match s with
  | _ :: _ => mret s
  | [] =>
      d ← dcc_of idx;
      j ← nextbot next;
      if bogus_name newbot || negb (j =? idx) then
        text idx (bs "e " ++ lang BOT_BOGUSLINK ++ bs " (" ++ next ++ bs " -> " ++ newbot ++ bs ")" ++ nl) ≫= fun _ =>
        mret (lang BOT_BOGUSLINK ++ bs ": " ++ d_nick d ++ sp ++ lang MISC_DISCONNECTED)
      else mret []
  end.
(** Or if the connection is to a leaf. *)
Definition nlinked_leaf (idx : Z) (newbot s : list Z) : M (list Z) :=
  d ← dcc_of idx;
  if d_flags d &? BOT_LEAF then
    text idx (bs "e " ++ lang BOT_YOUREALEAF ++ nl) ≫= fun _ =>
    mret (lang BOT_ILLEGALLINK ++ sp ++ d_nick d ++ bs " (to " ++ newbot ++ bs "): " ++ lang MISC_DISCONNECTED)
  else mret s.

Definition bot_nlinked (idx : Z) (par : list Z) : M unit :=
  let '(newbot, par) := newsplit par in
  let '(next, par) := newsplit par in
  d ← dcc_of idx;
  me ← get botnetnick;
  s ← nlinked_error idx newbot next;
  s ← nlinked_bogus idx newbot next s;
  s ← nlinked_leaf idx newbot s;
  match s with
  | _ :: _ =>
      botnet_send_unlinked idx (d_nick d) s ≫= fun _ =>
      text idx (bs "bye " ++ lang BOT_ILLEGALLINK ++ nl) ≫= fun _ => close_link idx
  | [] =>
      let '(x, par) := match par with x :: par => (x, par) | [] => (ch "-", []) end in
      let i := base64_to_int par in
      botnet_send_nlinked idx newbot next x i ≫= fun _ =>
      addbot newbot (d_nick d) next (if x =? ch "!" then ch "-" else x) i (d_ssl d) ≫= fun _ =>
      emit (TclLink newbot next) ≫= fun _ =>
      run_when (match users newbot with Some f => f &? BOT_REJECT | None => false end)
        (botnet_send_reject idx me None newbot None [])
  end.

Definition bot_unlinked (idx : Z) (par : list Z) : M unit :=
  let '(bot, par) := newsplit par in
  i ← nextbot bot;
  if (0 <=? i) && negb (i =? idx) then fake_alert idx (bs "direction") bot
  else run_when (0 <=? i) (
    match par with [] => skip | _ => lastbot bot ≫= fun _ => skip end ≫= fun _ =>
    botnet_send_unlinked idx bot par ≫= fun _ =>
    p ← findbot bot;
    unvia users p ≫= fun _ => rembot users bot).

Definition plural (n : Z) : list Z := if n =? 1 then [] else bs "s".
Definition lost_text (bots us : Z) : list Z :=
  bs " (lost " ++ int_to_base10 bots ++ bs " bot" ++ plural bots ++ bs " and " ++ int_to_base10 us ++ bs " user" ++ plural us ++ bs ")".
(** The bots and users behind a connection. *)
Definition count_behind (idx : Z) : M (Z * Z) :=
  d ← dcc_of idx;
  p ← findbot (d_nick d);
  bots ← bots_in_subtree p; us ← users_in_subtree p; mret (bots, us).

Definition bot_bye (idx : Z) (par : list Z) : M unit :=
  n ← count_behind idx;
  d ← dcc_of idx;
  botnet_send_unlinked idx (d_nick d)
    (lang BOT_DISCONNECTED ++ sp ++ d_nick d ++ bs ". " ++ (match par with [] => bs "No reason" | _ => par end) ++ lost_text (fst n) (snd n)) ≫= fun _ =>
  text idx (bs "*bye" ++ nl) ≫= fun _ => close_link idx.

Definition eof_dcc_bot (idx : Z) : M unit :=
  n ← count_behind idx;
  d ← dcc_of idx;
  botnet_send_unlinked idx (d_nick d) (bs "Lost bot: " ++ d_nick d ++ lost_text (fst n) (snd n)) ≫= fun _ => close_link idx.

Definition zapfbot (idx : Z) : M unit :=
  n ← count_behind idx;
  d ← dcc_of idx;
  botnet_send_unlinked idx (d_nick d) (lang BOT_BOTDROPPED ++ bs ": " ++ d_nick d ++ lost_text (fst n) (snd n)) ≫= fun _ => close_link idx.

Definition bot_thisbot (idx : Z) (par : list Z) : M unit :=
  d ← dcc_of idx;
  if negb (same_name par (d_nick d)) then
    text idx (bs "bye " ++ lang MISC_IMPOSTER ++ nl) ≫= fun _ =>
    botnet_send_unlinked idx (d_nick d)
      (lang MISC_DISCONNECTED ++ sp ++ d_nick d ++ bs " (" ++ lang MISC_IMPOSTER ++ bs ")") ≫= fun _ =>
    p ← findbot (d_nick d);
    unvia users p ≫= fun _ => close_link idx
  else
    run_when (d_flags d &? BOT_LEAF) (dcc_set idx (set_dstatus (fun st => st ||| STAT_LEAF))) ≫= fun _ =>
    emit (ChangeHandle idx par) ≫= fun _ =>
    dcc_set idx (set_dnick (op_strlcpy par (HANDLEN + 1))).

(** The number a version line starts with. *)
Definition version_word (par : list Z) : Z * list Z :=
  match par with
  | c :: _ => if isdigit c then let '(work, par) := newsplit par in (egg_atoi work, par) else (0, par)
  | [] => (0, [])
  end.
(** The bot is linked now, and gets the tables. *)
Definition version_linked (idx : Z) (d : dcc_t) (numver : Z) : M unit :=
  me ← get botnetnick;
  botnet_send_nlinked idx (d_nick d) me (ch "!") numver ≫= fun _ =>
  emit (TouchLaston (d_nick d) (bs "linked")) ≫= fun _ =>
  dump_links idx ≫= fun _ =>
  dcc_set idx (set_dtype DCC_BOT) ≫= fun _ =>
  addbot (d_nick d) (d_nick d) me (ch "-") numver (d_ssl d) ≫= fun _ =>
  emit (TclLink (d_nick d) me) ≫= fun _ =>
  emit (BotShare idx (bs "v " ++ int_to_base10 numver)) ≫= fun _ =>
  text idx (bs "el" ++ nl).

Definition version_reply (idx : Z) (d : dcc_t) (numver l : Z) : M unit :=
  me ← get botnetnick;
  dcc_set idx (set_numver numver) ≫= fun _ =>
  text idx (bs "tb " ++ me ++ nl) ≫= fun _ =>
  if negb (l =? HANDLEN) then
    text idx (bs "error Non-matching handle length: mine " ++ int_to_base10 HANDLEN ++ bs ", yours " ++ int_to_base10 l ++ nl) ≫= fun _ =>
    text idx (bs "bye bad handlen" ++ nl) ≫= fun _ => close_link idx
  else version_linked idx d numver.

Definition bot_version (idx : Z) (par : list Z) : M unit :=
  t ← get now;
  dcc_set idx (set_timeval t) ≫= fun _ =>
  d ← dcc_of idx;
  known ← in_chain (d_nick d);
  if (known : bool) then
    text idx (bs "error Sorry, already connected." ++ nl) ≫= fun _ =>
    text idx (bs "bye" ++ nl) ≫= fun _ => close_link idx
  else
    version_reply idx d (fst (version_word par)) (egg_atoi (fst (newsplit (snd (version_word par))))).

(** ** Members *)

(** A name with an exclamation mark before it. *)
Definition take_bang (bot : list Z) : bool * list Z :=
  match bot with c :: bot' => if c =? ch "!" then (true, bot') else (false, bot) | [] => (false, []) end.
Definition place (chan : Z) : list Z := if chan =? 0 then bs "party line" else bs "channel".
(** A line for the users of a channel, if the bot is recent. *)
Definition tell (idx chan : Z) (line : list Z) : M unit :=
  d ← dcc_of idx; run_when (NEAT_BOTNET <=? d_numver d) (chanout_but (-1) chan line).
Definition touch_user (nick bot : list Z) : M unit :=
  run_when (match users nick with Some _ => true | None => false end) (emit (TouchLaston nick (bs "@" ++ bot))).

Definition bot_nickchange (idx : Z) (par : list Z) : M unit :=
  unless_isolated idx (
    let '(bot, par) := newsplit par in
    from_idx idx bot (
      let '(ssock, par) := newsplit par in
      let newnick := fst (newsplit par) in
      r ← partynick bot (base64_to_int ssock) newnick;
      if fst r <? 0 then fake_alert idx (bs "sock#") ssock
      else
        l ← get party;
        let p := party_at l (fst r) in
        chanout_but (-1) (p_chan p) (bs "*** (" ++ bot ++ bs ") Nick change: " ++ snd r ++ bs " -> " ++ p_nick p ++ nl) ≫= fun _ =>
        botnet_send_nkch_part idx (fst r))).

(** The number of a member: the one that is sent, or the one that the member has, or a new one. *)
Definition member_sock (bot nick : list Z) (sock : Z) : M Z :=
  if negb (sock =? 0) then mret sock
  else
    old ← partysock bot nick;
    if negb (old =? 0) then mret old
    else k ← get fakesock; upd (fun s => set_fakes (i32 (k + 1)) (lastfake s) s) ≫= fun _ => mret k.

Definition joined (idx : Z) (linking : bool) (bot nick : list Z) (chan flag sock : Z) (from : list Z) : M unit :=
  touch_user nick bot ≫= fun _ =>
  r ← addparty bot nick chan flag sock from;
  let i := fst r in
  botnet_send_join_party idx linking (snd r) ≫= fun _ =>
  run_when (negb (i =? chan)) (
    run_when (0 <=? i)
      (tell idx i (bs "*** (" ++ bot ++ bs ") " ++ nick ++ sp ++ lang NET_LEFTTHE ++ sp ++ place i ++ bs "." ++ nl) ≫= fun _ =>
       emit (TclChpt bot nick sock i)) ≫= fun _ =>
    run_when (negb linking)
      (tell idx chan (bs "*** (" ++ bot ++ bs ") " ++ nick ++ sp ++ lang NET_JOINEDTHE ++ sp ++ place chan ++ bs "." ++ nl)) ≫= fun _ =>
    emit (TclChjn bot nick chan flag sock from)).

Definition bot_join (idx : Z) (par : list Z) : M unit :=
  unless_isolated idx (
    d ← dcc_of idx;
    let '(bot, par) := newsplit par in
    let '(linking, bot) := take_bang bot in
    let linking := linking || (d_status d &? STAT_LINKING) in
    let '(nick, par) := newsplit par in
    let '(x, par) := newsplit par in
    let chan := base64_to_int x in
    let '(y, par) := newsplit par in
    match y with
    | [] => skip
    | flag :: y =>
        if chan <? 0 then skip
        else
          sock ← member_sock bot nick (base64_to_int y);
          from_idx idx bot (joined idx linking bot nick chan flag sock par)
    end).

Definition parted (idx : Z) (silent : bool) (bot nick : list Z) (sock partyidx : Z) (par : list Z) : M unit :=
  l ← get party;
  let chan := p_chan (party_at l partyidx) in
  run_when (0 <=? chan) (emit (TclChpt bot nick sock chan)) ≫= fun _ =>
  run_when (negb silent)
    (tell idx chan (bs "*** (" ++ bot ++ bs ") " ++ nick ++ sp ++ lang NET_LEFTTHE ++ sp ++ place chan ++
                    (match par with [] => [] | _ => bs " (" ++ par ++ bs ")" end) ++ bs "." ++ nl)) ≫= fun _ =>
  botnet_send_part_party idx partyidx par silent ≫= fun _ => remparty bot sock.

Definition bot_part (idx : Z) (par : list Z) : M unit :=
  unless_isolated idx (
    let '(bot, par) := newsplit par in
    let '(silent, bot) := take_bang bot in
    let '(nick, par) := newsplit par in
    let '(etc, par) := newsplit par in
    let sock := base64_to_int etc in
    sock ← (if sock =? 0 then partysock bot nick else mret sock);
    touch_user nick bot ≫= fun _ =>
    partyidx ← getparty bot sock;
    run_when (negb (partyidx =? -1)) (parted idx silent bot nick sock partyidx par)).

Definition away_change (idx : Z) (linking : bool) (bot : list Z) (sock : Z) (par : list Z) : M unit :=
  emit (TclAway bot sock par) ≫= fun _ =>
  match par with
  | [] => partystat bot sock 0 PLSTAT_AWAY
  | _ => partystat bot sock PLSTAT_AWAY 0 ≫= fun _ => partyaway bot sock par
  end ≫= fun _ =>
  partyidx ← getparty bot sock;
  l ← get party;
  let p := party_at l partyidx in
  run_when ((-1 <? partyidx) && negb linking)
    (tell idx (p_chan p) (bs "*** (" ++ bot ++ bs ") " ++ p_nick p ++ sp ++
       (match par with [] => lang NET_UNAWAY | _ => lang NET_AWAY ++ bs ": " ++ par end) ++ bs "." ++ nl)) ≫= fun _ =>
  botnet_send_away idx bot sock par linking.

(** A number 0 is looked up with its own text for a nick. *)
Definition bot_away (idx : Z) (par : list Z) : M unit :=
  unless_isolated idx (
    d ← dcc_of idx;
    let '(bot, par) := newsplit par in
    let '(linking, bot) := take_bang bot in
    let linking := linking || (d_status d &? STAT_LINKING) in
    let '(etc, par) := newsplit par in
    let sock := base64_to_int etc in
    sock' ← (if sock =? 0 then partysock bot etc else mret sock);
    run_when (0 <=? sock) (away_change idx linking bot sock' par)).

Definition bot_idle (idx : Z) (par : list Z) : M unit :=
  unless_isolated idx (
    let '(bot, par) := newsplit par in
    let '(work, par) := newsplit par in
    let sock := base64_to_int work in
    sock ← (if sock =? 0 then partysock bot work else mret sock);
    let '(work, par) := newsplit par in
    let idle := base64_to_int work in
    partysetidle bot sock idle ≫= fun _ =>
    run_when (match par with [] => false | _ => true end)
      (partystat bot sock PLSTAT_AWAY 0 ≫= fun _ => partyaway bot sock par) ≫= fun _ =>
    botnet_send_idle idx bot sock idle par).

(** ** Messages that are passed on *)

Definition bot_trace (idx : Z) (par : list Z) : M unit :=
  let '(from, par) := newsplit par in
  let '(dest, par) := newsplit par in
  me ← get botnetnick;
  botnet_send_traced idx from (par ++ bs ":" ++ me) ≫= fun _ =>
  run_when (negb (same_name dest me)) (i ← nextbot dest; run_when (0 <? i) (botnet_send_trace i from dest par)).

(** The buffer of [bot_traced] for what is before the colon. *)
Definition SS_SIZE : Z := HANDLEN + 1.
Definition colons (s : list Z) : Z := Z.of_nat (length (filter (fun c => c = ch ":") s)).
(** The time of a trace, and the chain. *)
Definition trace_time (par : list Z) : Z * list Z :=
  match par with
  | c :: rest =>
      if c =? ch ":" then (egg_atoi rest, match strchr rest (ch ":") with Some (_ :: r) => r | _ => rest end) else (0, par)
  | [] => (0, [])
  end.
Definition trace_line (t now : Z) (ptr : list Z) : list Z :=
  lang BOT_TRACERESULT ++ bs " -> " ++ ptr ++
  (if t =? 0 then []
   else bs " (" ++ int_to_base10 (now - t) ++ bs " secs, " ++ int_to_base10 (colons ptr) ++ bs " hop" ++ plural (colons ptr) ++ bs ")") ++ nl.

(** For a user here: [ss] is the number before the colon. *)
Definition traced_here (to par : list Z) : M unit :=
  t0 ← get now;
  let '(ss, to) := splitc to (ch ":") in
  if SS_SIZE <=? Z.of_nat (length ss) then fail Overflow
  else
    let sock := match ss with [] => -1 | _ => egg_atoi ss end in
    let '(t, ptr) := trace_time par in
    upd (fun s => add_out (dprint_where (fun _ d => has_chat (d_type d) && same_name (d_nick d) to &&
                                                    ((sock =? -1) || (sock =? d_sock d)))
                             (trace_line t t0 ptr) (dcc s) 0) s).
Definition bot_traced (idx : Z) (par : list Z) : M unit :=
  let '(to, par) := newsplit par in
  let '(user, p) := match user_bot to with Some (u, b) => (u, b) | None => (to, to) end in
  me ← get botnetnick;
  if same_name p me then traced_here user par
  else i ← nextbot p; run_when (0 <=? i) (botnet_send_traced i to par).

Definition bot_zapf (idx : Z) (par : list Z) : M unit :=
  let '(from, par) := newsplit par in
  let '(to, par) := newsplit par in
  from_idx idx from (
    me ← get botnetnick;
    if same_name to me then let '(opcode, par) := newsplit par in emit (TclBot from opcode par)
    else i ← nextbot to; run_when (0 <=? i) (botnet_send_zapf i from to par)).

Definition bot_zapfbroad (idx : Z) (par : list Z) : M unit :=
  let '(from, par) := newsplit par in
  let '(opcode, par) := newsplit par in
  from_idx idx from (emit (TclBot from opcode par) ≫= fun _ => botnet_send_zapf_broad idx from (Some opcode) par).

(** A file that was asked for is refused.  [user_bot] leaves no bot for a nick alone. *)
Definition after_at (to : list Z) : list Z := match user_bot to with Some (_, b) => b | None => to end.
Definition bot_filereject (idx : Z) (par : list Z) : M unit :=
  let '(path, par) := newsplit par in
  let '(to, par) := newsplit par in
  let tobot := after_at to in
  me ← get botnetnick;
  if negb (same_name tobot me) then
    match split_at (ch ":") to with
    | (sock, Some _) =>
        upd (fun s => add_out (dprint_where (fun _ d => d_sock d =? egg_atoi sock)
               (lang BOT_XFERREJECTED ++ bs " (" ++ path ++ bs "): " ++ par ++ nl) (dcc s) 0) s)
    | (_, None) => skip
    end
  else i ← nextbot tobot; run_when (0 <=? i) (botnet_send_filereject i path to par).

(** *** Files *)

(** What is after the first [c], or all. *)
Definition after (c : Z) (s : list Z) : list Z := match split_at c s with (_, Some r) => r | (_, None) => s end.

(** [filesys]: that module is loaded; its function gets the request. *)
Definition bot_filereq (filesys : bool) (idx : Z) (par : list Z) : M unit :=
  let '(from, tobot) := newsplit par in
  match split_at (ch ":") tobot with
  | (_, None) => skip
  | (tobot, Some path) =>
      me ← get botnetnick;
      if same_name tobot me then
        if negb filesys then botnet_send_priv idx me from None (lang MOD_NOFILESYSMOD)
        else emit (RemoteReq idx from path)
      else i ← nextbot tobot; run_when (0 <=? i) (botnet_send_filereq i from tobot path)
  end.


(** The name of the file: after the last slash, or else the last colon. *)
Definition file_part (botpath : list Z) : list Z :=
  match strrchr botpath (ch "/") with
  | Some k => drop (S k) botpath
  | None => match strrchr botpath (ch ":") with Some k => drop (S k) botpath | None => botpath end
  end.
(** Without an at-sign the byte before [to] is overwritten when the message is passed on: the end
    of [botpath], unless there were more spaces. *)
Definition path_sent (botpath to rest : list Z) : list Z :=
  if mem (ch "@") to then botpath
  else match rest with c :: _ => if c =? ch " " then botpath else botpath ++ bs "@" ++ to | [] => botpath end.
Definition bot_filesend (idx : Z) (par : list Z) : M unit :=
  let '(botpath, rest) := newsplit par in
  let '(to, par) := newsplit rest in
  let '(user, tobot) := match user_bot to with Some (u, b) => (u, b) | None => (to, to) end in
  me ← get botnetnick;
  if same_name tobot me then
    text 0x7FF3 (bs "PRIVMSG " ++ after (ch ":") user ++ bs " :" ++ 1 :: bs "DCC SEND " ++ file_part botpath ++ sp ++ par ++ 1 :: nl)
  else i ← nextbot tobot; run_when (0 <=? i) (botnet_send_filesend i (path_sent botpath to rest) to par).

(** *** Users and modules *)

(** [%s] is replaced by the next argument. *)
Fixpoint subst_s (fmt : list Z) (args : list (list Z)) : list Z :=
  match fmt with
  | c :: ((d :: fmt') as r) =>
      if (c =? ch "%") && (d =? ch "s") then hd [] args ++ subst_s fmt' (tl args) else c :: subst_s r args
  | _ => fmt
  end.

Definition STDOUT : Z := 1.
(** The user of a chat is thrown out. *)
Definition do_boot (backgrd : bool) (idx : Z) (by_ reason : list Z) : M unit :=
  d ← dcc_of idx;
  let colon := match reason with [] => bs "." | _ => bs ": " end in
  let colon3 := match reason with [] => [] | _ => bs ": " end in
  let section := if bool_decide (d_type d = DCC_CHAT) then bs "bot" else bs "file section" in
  text idx (lang DCC_BOOTED1) ≫= fun _ =>
  text idx (subst_s (lang DCC_BOOTED2) [section; by_; colon; reason]) ≫= fun _ =>
  let sb := subst_s (lang DCC_BOOTED3) [by_; d_nick d; colon3; reason] in
  run_when (has_chat (d_type d) && (0 <=? d_channel d))
    (chanout_but idx (d_channel d) (bs "*** " ++ sb ++ bs "." ++ nl) ≫= fun _ =>
     run_when (d_channel d <? GLOBAL_CHANS) (botnet_send_part_idx idx sb)) ≫= fun _ =>
  emit (TclChof (d_nick d) (d_sock d)) ≫= fun _ =>
  if negb (d_sock d =? STDOUT) || backgrd then close_link idx
  else text 0x7FF1 (nl ++ bs "### SIMULATION RESET" ++ nl ++ nl) ≫= fun _ => emit (DccChatter idx).

(** A request to unlink a bot or to boot a user.  [owner h]: the user [h] is an owner. *)
Definition reject_bot (idx : Z) (from who par : list Z) : M unit :=
  i ← nextbot who;
  me ← get botnetnick;
  d ← dcc_of i;
  let why := match par with [] => lang MISC_REJECTED | _ => par end in
  if i <? 0 then botnet_send_priv idx me from None (lang BOT_CANTUNLINK ++ sp ++ who ++ bs " (" ++ lang BOT_DOESNTEXIST ++ bs ")")
  else if same_name (d_nick d) who then
    text i (bs "bye " ++ why ++ nl) ≫= fun _ =>
    botnet_send_unlinked i (d_nick d) (lang MISC_DISCONNECTED ++ sp ++ d_nick d ++ bs " (" ++ from ++ bs ": " ++ why ++ bs ")") ≫= fun _ =>
    close_link i
  else botnet_send_reject i from None who None par.

(** Whether [remote_boots] forbids it. *)
Definition boot_refused (remote_boots idx : Z) (from : list Z) : M bool :=
  me ← get botnetnick;
  if remote_boots =? 1 then
    if negb ((match users (after (ch "@") from) with Some f => f | None => 0 end) &? BOT_SHARE) then
      emit (AddNote from me (bs "No non sharebot boots.") (-1)) ≫= fun _ => mret true
    else mret false
  else if remote_boots =? 0 then botnet_send_priv idx me from None (lang BOT_NOREMOTEBOOT) ≫= fun _ => mret true
  else mret false.
Definition reject_user (remote_boots : Z) (backgrd : bool) (owner : list Z -> bool) (idx : Z) (from who par : list Z) : M unit :=
  ok ← boot_refused remote_boots idx from;
  l ← get dcc;
  me ← get botnetnick;
  let k := index_dcc (fun d => same_name who (d_nick d) && has_chat (d_type d)) l 0 in
  if (ok : bool) || (k <? 0) then skip
  else if owner (d_nick (dcc_at l k)) then emit (AddNote from me (lang BOT_NOOWNERBOOT) (-1))
  else do_boot backgrd k from par.
Definition bot_reject (remote_boots : Z) (backgrd : bool) (owner : list Z -> bool) (idx : Z) (par : list Z) : M unit :=
  unless_isolated idx (
    let '(from, par) := newsplit par in
    from_idx idx (after (ch "@") from) (
      let '(who, par) := newsplit par in
      match user_bot who with
      | None => reject_bot idx from who par
      | Some (user, destbot) =>
          me ← get botnetnick;
          if same_name destbot me then reject_user remote_boots backgrd owner idx from user par
          else i ← nextbot destbot; run_when (0 <=? i) (botnet_send_reject i from None who None par)
      end)).

Definition bot_handshake (idx : Z) (par : list Z) : M unit := d ← dcc_of idx; emit (SetPass (d_nick d) par).
(** Only a line of the log. *)
Definition bot_error (idx : Z) (par : list Z) : M unit := skip.
Definition bot_share (idx : Z) (par : list Z) : M unit := emit (BotShare idx par).

Definition bot_who (idx : Z) (par : list Z) : M unit :=
  d ← dcc_of idx;
  let '(from, par) := newsplit par in
  let from := if mem (ch "@") from then from else from ++ bs "@" ++ d_nick d in
  let '(to, par) := newsplit par in
  me ← get botnetnick;
  let chan := base64_to_int par in
  if same_name to me then emit (RemoteTellWho idx from chan)
  else match to with
       | [] => emit (RemoteTellWho idx from chan)
       | _ => i ← nextbot to; run_when (0 <=? i) (botnet_send_who i from to chan)
       end.

(** The modules that are loaded: name and version. *)
Definition module_line (m : list Z * Z * Z) : list Z :=
  let '(name, major, minor) := m in
  bs "  Module: " ++ name ++ bs " (v" ++ int_to_base10 major ++ bs "." ++ int_to_base10 minor ++ bs ")" ++ nl.
Fixpoint tell_modules (idx : Z) (frombot from : list Z) (l : list (list Z * Z * Z)) : M unit :=
  match l with
  | [] => skip
  | m :: l => me ← get botnetnick; botnet_send_priv idx me from (Some frombot) (module_line m) ≫= fun _ => tell_modules idx frombot from l
  end.
Definition bot_versions (modules : list (list Z * Z * Z)) (sock : Z) (par : list Z) : M unit :=
  let '(frombot, par) := newsplit par in
  i ← nextbot frombot;
  if negb (i =? sock) then fake_alert sock (bs "versions-direction") frombot
  else
    let '(tobot, par) := newsplit par in
    me ← get botnetnick;
    if negb (same_name tobot me) then
      s ← nextbot tobot;
      run_when (0 <=? s) (text s (bs "v " ++ frombot ++ sp ++ tobot ++ sp ++ par ++ nl))
    else
      let from := fst (newsplit par) in
      botnet_send_priv sock me from (Some frombot) (bs "Modules loaded:" ++ nl) ≫= fun _ =>
      tell_modules sock frombot from modules ≫= fun _ =>
      botnet_send_priv sock me from (Some frombot) (bs "End of module list." ++ nl).

(** ** Links that are cut *)

Definition cut_text (d : dcc_t) (reason : option (list Z)) (from : list Z) (n : Z * Z) : list Z :=
  lang BOT_UNLINKEDFROM ++ sp ++ d_nick d ++ bs " (" ++
  (match reason with Some (c :: r) => c :: r ++ bs " (" ++ from ++ bs ")" | _ => from end) ++ bs ")" ++ lost_text (fst n) (snd n).

(** One connection of [botunlink]: the result, if it ends the search. *)
Definition unlink_one (share_unlinks idx : Z) (nick : list Z) (reason : option (list Z)) (from : list Z) (i : Z) : M (option Z) :=
  d ← dcc_of i;
  let star := match nick with c :: _ => c =? ch "*" | [] => false end in
  let ended : option Z := if star then None else Some 1 in
  if negb (star || same_name (d_nick d) nick) then mret None
  else match d_type d with
  | DCC_FORK_BOT =>
      run_when (0 <=? idx) (text idx (lang BOT_KILLLINKATTEMPT ++ bs ": " ++ d_nick d ++ bs " -> " ++ d_host d ++ bs "." ++ nl)) ≫= fun _ =>
      close_link i ≫= fun _ => mret ended
  | DCC_BOT_NEW =>
      run_when (0 <=? idx) (text idx (lang BOT_ENDLINKATTEMPT ++ sp ++ d_nick d ++ bs "." ++ nl)) ≫= fun _ =>
      close_link i ≫= fun _ => mret ended
  | DCC_BOT =>
      if (idx =? -3) && (d_status d &? STAT_SHARE) && (share_unlinks =? 0) then mret (Some (-1))
      else
        run_when (0 <=? idx) (text idx (lang BOT_BREAKLINK ++ sp ++ d_nick d ++ bs "." ++ nl)) ≫= fun _ =>
        n ← count_behind i;
        let s := cut_text d reason from n in
        text i (bs "bye " ++ (match reason with Some (c :: r) => c :: r | _ => bs "No reason" end) ++ nl) ≫= fun _ =>
        text idx (s ++ bs "." ++ nl) ≫= fun _ =>
        botnet_send_unlinked i (d_nick d) s ≫= fun _ =>
        close_link i ≫= fun _ => mret ended
  | _ => mret None
  end.
Fixpoint unlink_loop (share_unlinks idx : Z) (nick : list Z) (reason : option (list Z)) (from : list Z) (n : nat) (i : Z) : M (option Z) :=
  match n with
  | O => mret None
  | S n =>
      r ← unlink_one share_unlinks idx nick reason from i;
      match r with Some v => mret (Some v) | None => unlink_loop share_unlinks idx nick reason from n (i + 1) end
  end.

(** All bots are forgotten. *)
Fixpoint wipe_bots (fuel : nat) : M unit :=
  match fuel with
  | O => fail OutOfFuel
  | S fuel =>
      l ← get tandbot;
      match l with [] => skip | b :: _ => rembot users (bot b) ≫= fun _ => wipe_bots fuel end
  end.
Definition wipe_party : M unit :=
  upd (fun s => add_out (flat_map (fun p => if 0 <=? p_chan p then [TclChpt (p_bot p) (p_nick p) (p_sock p) (p_chan p)] else [])
                           (rev (party s))) (set_party [] (party_size s) s)).
Definition ghost_text (nick : list Z) : list Z :=
  bs "BUG!!: Found bot `" ++ nick ++ bs "' in internal bot list, but it" ++ nl ++
  bs "   shouldn't have been there! Removing." ++ nl ++
  bs "   This is a known bug we haven't fixed yet. If this" ++ nl ++
  bs "   bot is the newest eggdrop version available and you" ++ nl ++
  bs "   know a *reliable* way to reproduce the bug, please" ++ nl ++
  bs "   contact us - we need your help!" ++ nl.
(** The end of [botunlink]: the bot is not connected, or all were. *)
Definition unlink_rest (idx : Z) (nick : list Z) : M Z :=
  if match nick with c :: _ => c =? ch "*" | [] => false end then
    text idx (lang BOT_WIPEBOTTABLE ++ nl) ≫= fun _ =>
    l ← get tandbot;
    wipe_bots (S (length l)) ≫= fun _ => wipe_party ≫= fun _ =>
    emit (EggEval (bs "killassoc &")) ≫= fun _ => mret 0
  else
    run_when (0 <=? idx) (text idx (lang BOT_NOTCONNECTED ++ nl)) ≫= fun _ =>
    p ← findbot nick;
    if p =? 0 then mret 0
    else
      run_when (0 <=? idx) (text idx (ghost_text nick)) ≫= fun _ =>
      b ← load p;
      rembot users (bot b) ≫= fun _ => mret 1.

Definition botunlink (share_unlinks idx : Z) (nick : list Z) (reason : option (list Z)) (from : list Z) : M Z :=
  run_when (match nick with c :: _ => c =? ch "*" | [] => false end) (text idx (lang BOT_UNLINKALL ++ nl)) ≫= fun _ =>
  l ← get dcc;
  r ← unlink_loop share_unlinks idx nick reason from (length l) 0;
  match r with Some v => mret v | None => unlink_rest idx nick end.

Definition priv_to (from msg : list Z) : M unit :=
  match user_bot from with
  | None => skip
  | Some (_, b) =>
      i ← nextbot b; me ← get botnetnick; run_when (0 <=? i) (botnet_send_priv i me from None msg)
  end.
Definition bot_unlink (share_unlinks idx : Z) (par : list Z) : M unit :=
  let '(from, par) := newsplit par in
  let '(bot, par) := newsplit par in
  let '(undes, par) := newsplit par in
  me ← get botnetnick;
  if same_name bot me then
    let rfrom := match split_at (ch ":") from with (_, Some r) => r | (_, None) => from end in
    result ← botunlink share_unlinks (-3) undes (match par with [] => None | _ => Some par end) rfrom;
    if result =? 1 then priv_to from (bs "Unlinked from " ++ undes ++ bs ".")
    else if result =? 0 then
      botnet_send_unlinked (-1) undes [] ≫= fun _ => priv_to from (lang BOT_CANTUNLINK ++ sp ++ undes ++ bs ".")
    else priv_to from (bs "Can't remotely unlink sharebots.")
  else i ← nextbot bot; run_when (0 <=? i) (botnet_send_unlink i from bot undes par).

(** ** Pings *)

Definition ping_timeout (i : Z) : M unit :=
  d ← dcc_of i;
  run_when (bool_decide (d_type d = DCC_BOT) && (d_status d &? STAT_PINGED)) (
    n ← count_behind i;
    botnet_send_unlinked i (d_nick d) (lang BOT_PINGTIMEOUT ++ bs ": " ++ d_nick d ++ lost_text (fst n) (snd n)) ≫= fun _ =>
    close_link i).
Definition ping_one (i : Z) : M unit :=
  d ← dcc_of i;
  run_when (bool_decide (d_type d = DCC_BOT))
    (botnet_send_ping i ≫= fun _ => dcc_set i (set_dstatus (fun st => st ||| STAT_PINGED))).

(** What is done about one bot of the list; the bot from which the loop goes on. *)
Definition leaf_step (i leaf_via cur : Z) : M Z :=
  b ← load cur;
  d ← dcc_of i;
  if (leaf_via =? via b) && negb (cur =? leaf_via) then
    if d_status d &? STAT_WARNED then
      text i (bs "bye " ++ lang BOT_BOTNOTLEAFLIKE ++ nl) ≫= fun _ =>
      cur ← findbot (d_nick d);
      n ← count_behind i;
      botnet_send_unlinked i (d_nick d)
        (lang BOT_DISCONNECTED ++ sp ++ d_nick d ++ bs " (" ++ lang BOT_BOTNOTLEAFLIKE ++ bs ")" ++ lost_text (fst n) (snd n)) ≫= fun _ =>
      close_link i ≫= fun _ => mret cur
    else
      me ← get botnetnick;
      botnet_send_reject i me None (bot b) None [] ≫= fun _ =>
      dcc_set i (set_dstatus (fun st => st ||| STAT_WARNED)) ≫= fun _ => mret cur
  else dcc_set i (set_dstatus (fun st => st &~ STAT_WARNED)) ≫= fun _ => mret cur.
Fixpoint leaf_loop (fuel : nat) (i leaf_via cur : Z) : M unit :=
  match fuel with
  | O => fail OutOfFuel
  | S fuel =>
      if cur =? 0 then skip
      else cur ← leaf_step i leaf_via cur; next_of cur ≫= leaf_loop fuel i leaf_via
  end.
Definition leaf_one (i : Z) : M unit :=
  d ← dcc_of i;
  run_when (bool_decide (d_type d = DCC_BOT) && (d_status d &? STAT_LEAF)) (
    v ← findbot (d_nick d);
    l ← get tandbot;
    leaf_loop (S (length l)) i v (head_ptr l)).

Definition check_botnet_pings : M unit :=
  l ← get dcc;
  for_range (length l) 0 ping_timeout ≫= fun _ =>
  for_range (length l) 0 ping_one ≫= fun _ =>
  for_range (length l) 0 leaf_one.
End Commands.
