(* ===== verification/BotnetTree.v ===== *)
(** * The tree of bots, as a list

    The list of bots with their uplinks is a tree in which every bot comes after the one it is
    linked to.  What is behind a bot ([drop_under], [behind]), and how the parts add up. *)

From stdpp Require Import list.
From S2P Require Import Prelude LibC Htab Base64 Botnet.
#[local] Open Scope Z_scope.
Implicit Types (l pre suf : list tand_t) (b : tand_t) (ws vs : list Z).

(** ** What is behind a set of bots *)

Definition in_set (ws : list Z) (p : Z) : bool := existsb (Z.eqb p) ws.

(** The list without the bots that are linked, through others or not, to one of [ws]. *)
Fixpoint drop_under (ws : list Z) (l : list tand_t) : list tand_t :=
  match l with
  | [] => []
  | b :: l => if in_set ws (uplink b) then drop_under (t_ptr b :: ws) l else b :: drop_under ws l
  end.
(** And these bots. *)
Fixpoint behind (ws : list Z) (l : list tand_t) : list tand_t :=
  match l with
  | [] => []
  | b :: l => if in_set ws (uplink b) then b :: behind (t_ptr b :: ws) l else behind ws l
  end.

Lemma in_set_In ws p : in_set ws p = true <-> In p ws.
Proof.
  unfold in_set. rewrite existsb_exists. split; [intros (x & Hx & ->%Z.eqb_eq); done|].
  intros H. exists p. by rewrite Z.eqb_refl.
Qed.
Lemma in_set_false ws p : in_set ws p = false <-> ~ In p ws.
Proof. rewrite <- in_set_In. by destruct (in_set ws p). Qed.
Lemma in_set_ext ws vs p : (forall x, In x ws <-> In x vs) -> in_set ws p = in_set vs p.
Proof. intros H. apply eq_bool_prop_intro. rewrite !Is_true_true, !in_set_In. apply H. Qed.
Lemma in_set_app ws vs p : in_set (ws ++ vs) p = in_set ws p || in_set vs p.
Proof. apply existsb_app. Qed.

Lemma drop_under_ext l : forall ws vs, (forall x, In x ws <-> In x vs) -> drop_under ws l = drop_under vs l.
Proof.
  induction l as [|b l IH]; intros ws vs H; [done|]. cbn [drop_under]. rewrite (in_set_ext ws vs) by done.
  destruct (in_set vs _); [|f_equal; by apply IH]. apply IH. intros x. cbn. by rewrite H.
Qed.
Lemma behind_ext l : forall ws vs, (forall x, In x ws <-> In x vs) -> behind ws l = behind vs l.
Proof.
  induction l as [|b l IH]; intros ws vs H; [done|]. cbn [behind]. rewrite (in_set_ext ws vs) by done.
  destruct (in_set vs _); [|by apply IH]. f_equal. apply IH. intros x. cbn. by rewrite H.
Qed.

Lemma drop_under_twice l : forall ws vs, drop_under ws (drop_under vs l) = drop_under (vs ++ ws) l.
Proof.
  induction l as [|b l IH]; intros ws vs; [done|]. cbn [drop_under]. rewrite in_set_app.
  destruct (in_set vs (uplink b)); cbn [orb]; [apply IH|]. cbn [drop_under].
  destruct (in_set ws (uplink b)); [|by rewrite IH]. rewrite IH. apply drop_under_ext.
  intros x. cbn. rewrite !in_app_iff. cbn. tauto.
Qed.

Lemma drop_under_length ws l : (length (drop_under ws l) <= length l)%nat.
Proof. revert ws. induction l as [|b l IH]; intros ws; [done|]. cbn. destruct (in_set ws _); cbn; [specialize (IH (t_ptr b :: ws))|specialize (IH ws)]; lia. Qed.

Lemma behind_length ws l : (length (behind ws l) + length (drop_under ws l) = length l)%nat.
Proof.
  revert ws. induction l as [|b l IH]; intros ws; [done|]. cbn [behind drop_under].
  destruct (in_set ws _); cbn [length]; [specialize (IH (t_ptr b :: ws))|specialize (IH ws)]; lia.
Qed.

Lemma behind_perm ws l : behind ws l ++ drop_under ws l ≡ₚ l.
Proof.
  revert ws. induction l as [|b l IH]; intros ws; [done|]. cbn [behind drop_under].
  destruct (in_set ws _); [by cbn; rewrite IH|]. by rewrite <- Permutation_middle, IH.
Qed.

Lemma drop_under_sub ws l : sublist (drop_under ws l) l.
Proof. revert ws. induction l as [|b l IH]; intros ws; [constructor|]. cbn. destruct (in_set ws _); by constructor. Qed.

Lemma drop_under_In ws l b : In b (drop_under ws l) -> In b l.
Proof. intros H. rewrite <- list_elem_of_In. rewrite <- (behind_perm ws l). apply elem_of_app. right. by apply list_elem_of_In. Qed.
(** No bot is forgotten. *)
Lemma drop_covers ws l b : In b l -> In b (drop_under ws l) \/ In b (behind ws l).
Proof. rewrite <- !list_elem_of_In. rewrite <- (behind_perm ws l) at 1. rewrite elem_of_app. tauto. Qed.
Lemma drop_under_ptrs ws l : NoDup (map t_ptr l) -> NoDup (map t_ptr (drop_under ws l)).
Proof. intros H. rewrite <- (behind_perm ws l), map_app in H. by apply NoDup_app in H as (_ & _ & ?). Qed.

(** Nothing is linked to [ws] in the front part. *)
Lemma drop_under_front ws pre suf : Forall (fun b => in_set ws (uplink b) = false) pre ->
  drop_under ws (pre ++ suf) = pre ++ drop_under ws suf.
Proof. induction 1 as [|b pre Hb _ IH]; [done|]. cbn [app drop_under]. by rewrite Hb, IH. Qed.
Lemma behind_front ws pre suf : Forall (fun b => in_set ws (uplink b) = false) pre ->
  behind ws (pre ++ suf) = behind ws suf.
Proof. induction 1 as [|b pre Hb _ IH]; [done|]. cbn [app behind]. by rewrite Hb, IH. Qed.

(** The bots behind two disjoint sets. *)
Lemma behind_split {A} (f : tand_t -> A) l : forall ws vs, NoDup (map t_ptr l) ->
  (forall x, In x ws -> ~ In x vs) -> (forall b, In b l -> ~ In (t_ptr b) (ws ++ vs)) ->
  map f (behind (ws ++ vs) l) ≡ₚ map f (behind ws l) ++ map f (behind vs l).
Proof.
  induction l as [|b l IH]; intros ws vs Hn Hd Hf; [done|]. cbn [map] in Hn. apply NoDup_cons in Hn as [Hb Hn].
  rewrite list_elem_of_In in Hb. cbn [behind]. rewrite in_set_app.
  assert (Hfb : ~ In (t_ptr b) (ws ++ vs)) by (apply Hf; by left). rewrite in_app_iff in Hfb.
  assert (Hl : forall c, In c l -> t_ptr c <> t_ptr b /\ ~ In (t_ptr c) (ws ++ vs)).
  { intros c Hc. split; [intros E; apply Hb; rewrite <- E; by apply in_map|apply Hf; by right]. }
  destruct (in_set ws (uplink b)) eqn:Ew.
  - assert (Ev : in_set vs (uplink b) = false) by (apply in_set_false; apply Hd; by apply in_set_In).
    rewrite Ev. cbn [orb map app]. constructor. apply (IH (t_ptr b :: ws) vs Hn).
    + intros x [<-|Hx]; [tauto|by apply Hd].
    + intros c Hc. destruct (Hl c Hc) as [H1 H2]. intros [E|Hi]; [by apply H1|by apply H2].
  - cbn [orb]. destruct (in_set vs (uplink b)) eqn:Ev; [|apply IH; [done|done|intros c Hc; by apply Hl]].
    cbn [map]. rewrite <- Permutation_middle. constructor.
    rewrite (behind_ext l (t_ptr b :: ws ++ vs) (ws ++ t_ptr b :: vs)).
    + apply (IH ws (t_ptr b :: vs) Hn).
      * intros x Hx [<-|Hv]; [tauto|by apply (Hd x)].
      * intros c Hc. destruct (Hl c Hc) as [H1 H2]. rewrite in_app_iff in H2 |- *. intros [Hi|[E|Hi]]; [tauto|by apply H1|tauto].
    + intros x. cbn. rewrite !in_app_iff. cbn. tauto.
Qed.

(** ** The order *)

(** A bot is linked to this one, or to a bot before it, and reached through it. *)
Definition linked (pre : list tand_t) (b : tand_t) : Prop :=
  (uplink b = 1 /\ via b = t_ptr b) \/ exists p, In p pre /\ uplink b = t_ptr p /\ via b = via p.
Fixpoint ordered_from (pre l : list tand_t) : Prop :=
  match l with [] => True | b :: l => linked pre b /\ ordered_from (pre ++ [b]) l end.
Definition ordered (l : list tand_t) : Prop := ordered_from [] l.

Lemma linked_mono pre pre' b : (forall p, In p pre -> In p pre') -> linked pre b -> linked pre' b.
Proof. intros H [?|(p & Hp & ?)]; [by left|right; exists p; auto]. Qed.

Lemma ordered_app pre l1 l2 : ordered_from pre (l1 ++ l2) <-> ordered_from pre l1 /\ ordered_from (pre ++ l1) l2.
Proof.
  revert pre. induction l1 as [|b l1 IH]; intros pre; cbn [app ordered_from].
  - rewrite (app_nil_r pre). tauto.
  - rewrite IH, <- app_assoc. cbn. tauto.
Qed.

(** The bots without those behind [ws], [w] being the first of them in the list. *)
Lemma ordered_drop l : forall pre pre' ws, ordered_from pre l ->
  (forall p, In p pre -> In p pre' \/ In (t_ptr p) ws) -> ordered_from pre' (drop_under ws l).
Proof.
  induction l as [|b l IH]; intros pre pre' ws O H; [done|]. cbn [ordered_from] in O. destruct O as [Lb O].
  cbn [drop_under]. destruct (in_set ws (uplink b)) eqn:E.
  - apply (IH (pre ++ [b])); [done|]. intros p Hp%in_app_iff. destruct Hp as [Hp|[<-|[]]]; [|right; by left].
    destruct (H p Hp); [by left|right; by right].
  - cbn [ordered_from]. split.
    + destruct Lb as [?|(p & Hp & Eu & Ev)]; [by left|]. right. exists p. split; [|done].
      destruct (H p Hp) as [?|Hi]; [done|]. apply in_set_false in E. by rewrite Eu in E.
    + apply (IH (pre ++ [b])); [done|]. intros p Hp%in_app_iff. rewrite in_app_iff.
      destruct Hp as [Hp|Hp]; [destruct (H p Hp); [by left; left|by right]|left; by right].
Qed.

(** Every bot is reached through one that is linked to this one. *)
Lemma ordered_root l : forall pre, ordered_from pre l ->
  (forall b, In b pre -> exists r, In r pre /\ uplink r = 1 /\ via r = t_ptr r /\ via b = t_ptr r) ->
  forall b, In b (pre ++ l) -> exists r, In r (pre ++ l) /\ uplink r = 1 /\ via r = t_ptr r /\ via b = t_ptr r.
Proof.
  induction l as [|c l IH]; intros pre O H b Hb; [rewrite app_nil_r in *; by apply H|].
  cbn [ordered_from] in O. destruct O as [Lc O]. replace (pre ++ c :: l) with ((pre ++ [c]) ++ l) in * by (by rewrite <- app_assoc).
  apply (IH _ O); [|done]. intros d Hd%in_app_iff. destruct Hd as [Hd|[<-|[]]].
  - destruct (H d Hd) as (r & Hr & H'). exists r. rewrite in_app_iff. auto.
  - destruct Lc as [[Eu Ev]|(p & Hp & Eu & Ev)].
    + exists c. rewrite in_app_iff. cbn. auto.
    + destruct (H p Hp) as (r & Hr & H1 & H2 & H3). exists r. rewrite in_app_iff, Ev. auto.
Qed.

Lemma root_of l b : ordered l -> In b l -> exists r, In r l /\ uplink r = 1 /\ via r = t_ptr r /\ via b = t_ptr r.
Proof. intros O Hb. by apply (ordered_root l [] O). Qed.

Lemma ordered_split l pre b suf : ordered l -> l = pre ++ b :: suf -> linked pre b.
Proof. intros O ->. apply ordered_app in O as [_ O]. apply O. Qed.

(** The bot that [b] is linked to. *)
Lemma parent_of l b : ordered l -> In b l -> uplink b = 1 \/ exists p, In p l /\ uplink b = t_ptr p.
Proof.
  intros O (pre & suf & ->)%in_split. apply ordered_app in O as [_ [[[? _]|(p & Hp & ? & _)] _]]; [by left|].
  right. exists p. rewrite in_app_iff. auto.
Qed.

(** No bot before [b], nor [b] itself, is linked to [b]. *)
Lemma none_before l pre b suf : ordered l -> NoDup (map t_ptr l) -> Forall (fun b => 1 < t_ptr b) l -> l = pre ++ b :: suf ->
  Forall (fun c => in_set [t_ptr b] (uplink c) = false) (pre ++ [b]).
Proof.
  intros O Hn Hp ->. rewrite List.Forall_forall in Hp. apply List.Forall_forall. intros c Hc. apply in_set_false. intros [E|[]].
  assert (Hb : 1 < t_ptr b) by (apply Hp, in_app_iff; right; by left).
  replace (pre ++ b :: suf) with ((pre ++ [b]) ++ suf) in * by (by rewrite <- app_assoc).
  apply ordered_app in O as [O _]. apply in_split in Hc as (x & y & Ec).
  destruct (ordered_split _ x c y O Ec) as [[E1 _]|(p & Hpx & E1 & _)]; [lia|].
  rewrite Ec, map_app in Hn. apply NoDup_app in Hn as [Hn _]. rewrite map_app in Hn. apply NoDup_app in Hn as (_ & Hd & _).
  apply (Hd (t_ptr p)); rewrite list_elem_of_In; [by apply in_map|]. rewrite <- E1, <- E. apply in_map.
  destruct (exists_last (l := c :: y)) as (y' & z & Ez); [done|]. rewrite Ez in Ec |- *. rewrite app_assoc in Ec.
  apply app_inj_tail in Ec as [_ ->]. apply in_app_iff. right. by left.
Qed.

(** Two passes take what one pass takes. *)
Lemma behind_twice l : forall ws vs, behind vs l ++ behind ws (drop_under vs l) ≡ₚ behind (vs ++ ws) l.
Proof.
  induction l as [|b l IH]; intros ws vs; [done|]. cbn [behind drop_under]. rewrite in_set_app.
  destruct (in_set vs (uplink b)); cbn [orb]; [cbn; by rewrite IH|]. cbn [behind].
  destruct (in_set ws (uplink b)); [|by rewrite IH]. rewrite <- Permutation_middle, IH. constructor.
  rewrite (behind_ext l (vs ++ t_ptr b :: ws) (t_ptr b :: vs ++ ws)); [done|].
  intros x. cbn. rewrite !in_app_iff. cbn. tauto.
Qed.
