(* ===== verification/BotnetSpec.v ===== *)
(** * The bot network: what the operations on its tables do

    The invariant of the tables ([net_ok]): the list is a tree in order, the hash table is its
    index; and, by weakest preconditions, the effect of the operations on the list. *)

From stdpp Require Import gmap list.
From S2P Require Import Htab HtabRing HtabMap Prelude LibC Match Strings Base64 Botnet BotnetTree.
#[local] Open Scope Z_scope.

(** ** Names *)

Definition fold (who : list Z) : list Z := map istr_fold who.
Definition fold_of (b : tand_t) : list Z := fold (bot b).

(** The characters that the table and [op_strcasecmp] fold differently. *)
Definition plain (who : list Z) : Prop := Forall (fun c => ~ (91 <= c <= 94) /\ ~ (123 <= c <= 126)) who.

Lemma istr_tolower c : istr_fold (tolower c) = istr_fold c.
Proof.
  unfold tolower, isupper, in_range. destruct ((65 <=? c) && (c <=? 90)) eqn:E; [|done].
  assert (H : forallb (fun c => istr_fold (c + 32) =? istr_fold c) (seqZ 65 26) = true) by (vm_compute; reflexivity).
  rewrite forallb_forall in H. apply Z.eqb_eq, H, list_elem_of_In, elem_of_seqZ. bool_lia.
Qed.

Lemma same_fold a b : same_name a b = true -> fold a = fold b.
Proof.
  intros H%same_name_eq. unfold fold.
  rewrite <- (map_ext _ _ istr_tolower a), <- (map_ext _ _ istr_tolower b).
  by rewrite <- (map_map tolower istr_fold a), <- (map_map tolower istr_fold b), H.
Qed.

Lemma plain_char x y : ~ (91 <= y <= 94) -> ~ (123 <= y <= 126) -> istr_fold x = istr_fold y -> tolower x = tolower y.
Proof.
  assert (H : forall z, ~ (91 <= z <= 94) -> istr_fold z = tolower z).
  { intros z Hz. unfold istr_fold, tolower, isupper, in_range.
    destruct ((65 <=? z) && (z <=? 90)) eqn:E.
    - assert (H : forallb (fun c => Z.lor c 32 =? c + 32) (seqZ 65 26) = true) by (vm_compute; reflexivity).
      rewrite forallb_forall in H. apply Z.eqb_eq, H, list_elem_of_In, elem_of_seqZ. bool_lia.
    - destruct ((91 <=? z) && (z <=? 94)) eqn:E'; [bool_lia|done]. }
  intros Hy1 Hy2 E. destruct (decide (91 <= x <= 94)) as [Hx|Hx]; [|by rewrite <- !H].
  exfalso. rewrite (H y Hy1) in E. revert E. unfold istr_fold, tolower, isupper, in_range, u8.
  destruct ((65 <=? x) && (x <=? 90)) eqn:E1; [bool_lia|]. destruct ((91 <=? x) && (x <=? 94)) eqn:E2; [|bool_lia].
  rewrite Z.mod_small by lia. case_if; bool_lia.
Qed.

Lemma fold_plain a b : plain b -> fold a = fold b -> same_name a b = true.
Proof.
  intros Hb H. apply same_name_eq. revert a H. induction Hb as [|y b [H1 H2] _ IH]; intros [|x a] H; try done.
  unfold fold in H. cbn [map] in H. injection H as Hx Ha. cbn [map]. f_equal; [by apply plain_char|by apply IH].
Qed.

(** ** Programs that end well *)

Definition wp {A} (m : M A) (s : net) (Q : A -> net -> Prop) : Prop :=
  match m s with Ok (x, s') => Q x s' | Err _ => False end.

Lemma net_bind {A B} (m : M A) (f : A -> M B) s Q : wp m s (fun x s' => wp (f x) s' Q) -> wp (m ≫= f) s Q.
Proof. unfold wp, mbind, M_bind. by destruct (m s) as [[x s']|e]. Qed.
Lemma net_mono {A} (m : M A) s (Q Q' : A -> net -> Prop) : wp m s Q -> (forall x s', Q x s' -> Q' x s') -> wp m s Q'.
Proof. unfold wp. destruct (m s) as [[x s']|e]; [auto|done]. Qed.
Lemma wp_run_when b m s (Q : unit -> net -> Prop) : (b = true -> wp m s Q) -> (b = false -> Q tt s) -> wp (run_when b m) s Q.
Proof. destruct b; intros H1 H2; [by apply H1|by apply H2]. Qed.
Lemma wp_lift {A} (r : result diverged A) a s (Q : A -> net -> Prop) : r = Ok a -> Q a s -> wp (lift r) s Q.
Proof. by intros ->. Qed.

Lemma net_ret {A} (a : A) s (Q : A -> net -> Prop) : Q a s -> wp (mret a) s Q.
Proof. done. Qed.
Lemma wp_skip s (Q : unit -> net -> Prop) : Q tt s -> wp skip s Q.
Proof. done. Qed.
Lemma wp_get {A} (f : net -> A) s (Q : A -> net -> Prop) : Q (f s) s -> wp (get f) s Q.
Proof. done. Qed.
Lemma net_upd f s (Q : unit -> net -> Prop) : Q tt (f s) -> wp (upd f) s Q.
Proof. done. Qed.
Lemma wp_emit e s (Q : unit -> net -> Prop) : Q tt (add_out [e] s) -> wp (emit e) s Q.
Proof. done. Qed.

(** One step of a program. *)
Ltac wp_step :=
  lazymatch goal with
  | |- wp (_ ≫= _) _ _ => apply net_bind
  | |- wp (mret _) _ _ => apply net_ret
  | |- wp skip _ _ => apply wp_skip
  | |- wp (get _) _ _ => apply wp_get
  | |- wp (upd _) _ _ => apply net_upd
  | |- wp (emit _) _ _ => apply wp_emit
  end; cbv beta.
Ltac wp_steps := repeat wp_step.

(** Programs that only send. *)
Definition emits {A} (m : M A) : Prop := forall s, exists a e, m s = Ok (a, add_out e s).

Lemma add_out_nil s : add_out [] s = s.
Proof. destruct s. unfold add_out. cbn. by rewrite app_nil_r. Qed.
Lemma add_out_out e e' s : add_out e' (add_out e s) = add_out (e ++ e') s.
Proof. unfold add_out. cbn. by rewrite app_assoc. Qed.

Lemma emits_ret {A} (a : A) : emits (mret a).
Proof. intros s. exists a, []. by rewrite add_out_nil. Qed.
Lemma emits_get {A} (f : net -> A) : emits (get f).
Proof. intros s. exists (f s), []. by rewrite add_out_nil. Qed.
Lemma emits_bind {A B} (m : M A) (f : A -> M B) : emits m -> (forall a, emits (f a)) -> emits (m ≫= f).
Proof.
  intros Hm Hf s. destruct (Hm s) as (a & e & E). destruct (Hf a (add_out e s)) as (b & e' & E').
  exists b, (e ++ e'). unfold mbind, M_bind. rewrite E. cbn. by rewrite E', add_out_out.
Qed.
Lemma emits_upd f : (forall s, exists e, f s = add_out e s) -> emits (upd f).
Proof. intros H s. destruct (H s) as [e E]. exists tt, e. unfold upd. by rewrite E. Qed.
Lemma emits_emit e : emits (emit e).
Proof. apply emits_upd. by exists [e]. Qed.
Lemma emits_when b m : emits m -> emits (run_when b m).
Proof. destruct b; [done|]. intros _. apply emits_ret. Qed.
Lemma emits_tand x t iso : emits (send_tand_but x t iso).
Proof. apply emits_upd. intros s. by eexists. Qed.
Lemma emits_chanout x c t : emits (chanout_but x c t).
Proof. apply emits_upd. intros s. by eexists. Qed.
Create HintDb sends.
#[export] Hint Resolve emits_ret emits_get emits_emit emits_when emits_tand emits_chanout : sends.

(** Decides [emits] for a program that is a sequence of such steps. *)
Ltac emits_auto :=
  repeat first
    [ match goal with |- forall _, _ => intro end
    | solve [eauto with sends]
    | match goal with |- emits (_ ≫= _) => apply emits_bind end
    | match goal with |- emits (run_when _ _) => apply emits_when end
    | match goal with |- emits (match ?x with _ => _ end) => destruct x end
    | match goal with |- emits (if ?x then _ else _) => destruct x end ].

Lemma emits_linked m : emits m -> emits (if_linked m).
Proof. unfold if_linked. intros H. by emits_auto. Qed.
#[export] Hint Resolve emits_linked : sends.

Lemma wp_emits {A} (m : M A) s (Q : A -> net -> Prop) : emits m -> (forall a e, Q a (add_out e s)) -> wp m s Q.
Proof. intros H HQ. destruct (H s) as (a & e & E). unfold wp. rewrite E. apply HQ. Qed.

Lemma send_unlinked_emits idx b t : emits (botnet_send_unlinked idx b t).
Proof. unfold botnet_send_unlinked. emits_auto. Qed.
Lemma send_nlinked_emits idx b n f v : emits (botnet_send_nlinked idx b n f v).
Proof. unfold botnet_send_nlinked. emits_auto. Qed.
Lemma send_reject_emits idx f fb t tb r : emits (botnet_send_reject idx f fb t tb r).
Proof. unfold botnet_send_reject. emits_auto. Qed.
#[export] Hint Resolve send_unlinked_emits send_nlinked_emits send_reject_emits : sends.

(** ** The invariant *)

Definition index_of (l : list tand_t) : gmap (list Z) Z := list_to_map (map (fun b => (fold_of b, t_ptr b)) l).

Record list_ok (l : list tand_t) (next : Z) (me : list Z) : Prop := {
  lo_ptrs : NoDup (map t_ptr l);
  lo_fresh : Forall (fun b => 1 < t_ptr b < next) l;
  lo_names : NoDup (map fold_of l);
  lo_text : Forall (fun b => bot b <> [] /\ Z.of_nat (length (bot b)) <= HANDLEN /\ fold_of b <> fold me) l;
  lo_tree : ordered l
}.

(** [n] bounds the number of bots that were ever added. *)
Record net_ok (s : net) (n : Z) : Prop := {
  no_list : list_ok (tandbot s) (fresh s) (botnetnick s);
  no_table : wf (bot_table s) /\ small n (bot_table s);
  no_index : snd <$> abs (bot_table s) = index_of (tandbot s);
  no_tands : tands s = Z.of_nat (length (tandbot s));
  no_fresh : 1 < fresh s;
  no_me : plain (botnetnick s)
}.

(** The tables of the bots are as they were. *)
Definition core (s : net) := (tandbot s, bot_table s, tands s, fresh s, botnetnick s).

Lemma net_ok_core s s' n : core s' = core s -> net_ok s n -> net_ok s' n.
Proof. intros [= E1 E2 E3 E4 E5] [H1 H2 H3 H4 H5 H6]. split; by rewrite ?E1, ?E2, ?E3, ?E4, ?E5. Qed.

Lemma index_fst l : (map (fun b => (fold_of b, t_ptr b)) l).*1 = map fold_of l.
Proof. rewrite map_map. by apply map_ext. Qed.

Lemma name_index_in l b : NoDup (map fold_of l) -> In b l -> index_of l !! fold_of b = Some (t_ptr b).
Proof.
  intros Hn Hb. apply elem_of_list_to_map; [by rewrite index_fst|]. apply list_elem_of_In.
  by apply (in_map (fun b => (fold_of b, t_ptr b))).
Qed.
Lemma index_none l n : index_of l !! n = None <-> forall b, In b l -> fold_of b <> n.
Proof.
  unfold index_of. rewrite <- not_elem_of_list_to_map, index_fst, list_elem_of_In, in_map_iff. split.
  - intros H b Hb E. apply H. by exists b.
  - intros H (b & E & Hb). by apply (H b).
Qed.

(** What [findbot] finds. *)
Definition found (l : list tand_t) (who : list Z) (p : Z) : Prop :=
  (p = 0 /\ forall b, In b l -> fold_of b <> fold who) \/ exists b, In b l /\ fold_of b = fold who /\ p = t_ptr b.

Lemma wp_findbot_index s who (Q : Z -> net -> Prop) : wf (bot_table s) ->
  Q (default 0 ((snd <$> abs (bot_table s)) !! fold who)) s -> wp (findbot who) s Q.
Proof.
  intros W HQ. unfold findbot. wp_steps. eapply wp_lift; [by apply htab_get_spec|].
  rewrite lookup_fmap in HQ. unfold value_at. cbn [norm istr_laws key_of_name istr_of].
  change (map istr_fold who) with (fold who). by destruct (abs (bot_table s) !! fold who) as [[k v]|].
Qed.

Lemma wp_findbot s n who (Q : Z -> net -> Prop) : net_ok s n ->
  (forall p, found (tandbot s) who p -> Q p s) -> wp (findbot who) s Q.
Proof.
  intros I HQ. apply wp_findbot_index; [apply (no_table s n I)|]. apply HQ. rewrite (no_index s n I).
  destruct (index_of (tandbot s) !! fold who) as [p|] eqn:E.
  - right. apply elem_of_list_to_map_2, list_elem_of_In, in_map_iff in E as (b & Eb & Hb). injection Eb as Ef Ep.
    by exists b.
  - left. split; [done|]. by apply index_none.
Qed.

(** A bot is found by the pointer to it. *)
Lemma node_deref_in l b : NoDup (map t_ptr l) -> In b l -> t_ptr b <> 0 -> deref l (t_ptr b) = Ok b.
Proof.
  intros Hn Hb Hz. unfold deref. rewrite (proj2 (Z.eqb_neq _ _)) by done.
  replace (find (fun c => t_ptr c =? t_ptr b) l) with (Some b); [done|]. symmetry.
  induction l as [|c l IH]; [done|]. cbn [map] in Hn. apply NoDup_cons in Hn as [Hc Hn]. cbn [find].
  destruct Hb as [->|Hb]; [by rewrite Z.eqb_refl|].
  rewrite (proj2 (Z.eqb_neq _ _)); [by apply IH|]. intros E. apply Hc. rewrite E, list_elem_of_In. by apply in_map.
Qed.

Lemma ptr_pos l next me b : list_ok l next me -> In b l -> 1 < t_ptr b < next.
Proof. intros L Hb. pose proof (lo_fresh _ _ _ L) as H. rewrite List.Forall_forall in H. by apply H. Qed.

Lemma ptr_inj l b c : NoDup (map t_ptr l) -> In b l -> In c l -> t_ptr b = t_ptr c -> b = c.
Proof.
  induction l as [|d l IH]; [done|]. cbn [map]. intros [Hd Hn]%NoDup_cons [->|Hb] [->|Hc] E; try done.
  - exfalso. apply Hd. rewrite E, list_elem_of_In. by apply in_map.
  - exfalso. apply Hd. rewrite <- E, list_elem_of_In. by apply in_map.
  - by apply IH.
Qed.

Lemma fold_inj l b c : NoDup (map fold_of l) -> In b l -> In c l -> fold_of b = fold_of c -> b = c.
Proof.
  induction l as [|d l IH]; [done|]. cbn [map]. intros [Hd Hn]%NoDup_cons [->|Hb] [->|Hc] E; try done.
  - exfalso. apply Hd. rewrite E, list_elem_of_In. by apply in_map.
  - exfalso. apply Hd. rewrite <- E, list_elem_of_In. by apply in_map.
  - by apply IH.
Qed.

Lemma net_load s n b (Q : tand_t -> net -> Prop) : net_ok s n -> In b (tandbot s) -> Q b s -> wp (load (t_ptr b)) s Q.
Proof.
  intros I Hb HQ. unfold wp, load. pose proof (ptr_pos _ _ _ b (no_list s n I) Hb).
  by rewrite (node_deref_in _ b) by (done || lia || apply (no_list s n I)).
Qed.

Lemma next_ptr_mid pre b suf : NoDup (map t_ptr (pre ++ b :: suf)) -> next_ptr (pre ++ b :: suf) (t_ptr b) = Ok (head_ptr suf).
Proof.
  induction pre as [|c pre IH]; cbn [app map next_ptr]; intros Hn; [by rewrite Z.eqb_refl|].
  apply NoDup_cons in Hn as [Hc Hn]. rewrite (proj2 (Z.eqb_neq _ _)); [by apply IH|].
  intros E. apply Hc. rewrite E, list_elem_of_In. apply in_map, in_app_iff. right. by left.
Qed.

Lemma remove_node_mid pre b suf : NoDup (map t_ptr (pre ++ b :: suf)) -> remove_node (t_ptr b) (pre ++ b :: suf) = pre ++ suf.
Proof.
  induction pre as [|c pre IH]; cbn [app map remove_node]; intros Hn; [by rewrite Z.eqb_refl|].
  apply NoDup_cons in Hn as [Hc Hn]. rewrite (proj2 (Z.eqb_neq _ _)); [by rewrite IH|].
  intros E. apply Hc. rewrite E, list_elem_of_In. apply in_map, in_app_iff. right. by left.
Qed.

Lemma list_ok_sub l l' next me : list_ok l next me -> sublist l' l -> ordered l' -> list_ok l' next me.
Proof.
  intros [H1 H2 H3 H4 H5] Hs O. assert (Hp : exists k, l ≡ₚ l' ++ k).
  { apply sublist_submseteq, submseteq_Permutation in Hs. done. }
  destruct Hp as [k Hp]. split; [| | | |done].
  - rewrite Hp, map_app in H1. by apply NoDup_app in H1 as [? _].
  - rewrite Hp in H2. by apply Forall_app in H2 as [? _].
  - rewrite Hp, map_app in H3. by apply NoDup_app in H3 as [? _].
  - rewrite Hp in H4. by apply Forall_app in H4 as [? _].
Qed.

Lemma index_remove pre b suf : NoDup (map fold_of (pre ++ b :: suf)) ->
  index_of (pre ++ suf) = delete (fold_of b) (index_of (pre ++ b :: suf)).
Proof.
  intros Hf. assert (HP : pre ++ b :: suf ≡ₚ b :: pre ++ suf) by (symmetry; apply Permutation_middle).
  pose proof Hf as Hf0. rewrite HP in Hf. cbn in Hf. apply NoDup_cons in Hf as [Hnf Hf]. unfold index_of.
  rewrite (list_to_map_proper (map (fun b => (fold_of b, t_ptr b)) (pre ++ b :: suf)) (map (fun b => (fold_of b, t_ptr b)) (b :: pre ++ suf))).
  - change (index_of (pre ++ suf) = delete (fold_of b) (<[fold_of b := t_ptr b]> (index_of (pre ++ suf)))).
    symmetry. apply delete_insert_id. apply index_none. intros c Hc E. apply Hnf. rewrite <- E, list_elem_of_In. by apply in_map.
  - by rewrite index_fst.
  - by apply Permutation_map.
Qed.

(** Everything but the bots and what was sent. *)
Definition rest (s : net) := (party s, party_size s, dcc s, fakesock s, lastfake s, now s, (botnetnick s, fresh s)).

Section Users.
Context (users : list Z -> option Z).

Lemma wp_rembot_none s who (Q : unit -> net -> Prop) :
  (forall b, In b (tandbot s) -> same_name (bot b) who = false) -> Q tt s -> wp (rembot users who) s Q.
Proof.
  intros H HQ. unfold rembot. wp_steps. destruct (find _ _) as [b|] eqn:E; [|done].
  apply List.find_some in E as [Hb E]. by rewrite (H b Hb) in E.
Qed.

(** A bot without bots behind it is removed. *)
Lemma wp_rembot s n who pre b suf (Q : unit -> net -> Prop) : net_ok s n -> tandbot s = pre ++ b :: suf ->
  same_name (bot b) who = true -> ordered (pre ++ suf) ->
  (forall s', tandbot s' = pre ++ suf -> net_ok s' n -> rest s' = rest s -> Q tt s') -> wp (rembot users who) s Q.
Proof.
  intros I El Hs O HQ. destruct I as [L [W S] A Ht Hf Hm]. rewrite El in L, A, Ht. pose proof L as [N1 N2 N3 N4 N5].
  unfold rembot. wp_steps. rewrite El.
  replace (find (fun b => same_name (bot b) who) (pre ++ b :: suf)) with (Some b).
  2:{ destruct (find _ (pre ++ b :: suf)) as [c|] eqn:E.
      - apply List.find_some in E as [Hc E]. f_equal. apply (fold_inj (pre ++ b :: suf)); [done| |done|].
        + apply in_app_iff. right. by left.
        + unfold fold_of. by rewrite (same_fold _ _ Hs), (same_fold _ _ E).
      - pose proof (List.find_none _ _ E b ltac:(apply in_app_iff; right; by left)) as H. cbn in H. by rewrite Hs in H. }
  wp_steps. assert (Hgo : forall e, wp (t ← get bot_table; r ← lift (op_htab_del t (key_of_name (bot b)));
      upd (fun s => set_bots (remove_node (t_ptr b) (tandbot s)) (snd r) (tands s - 1) s) ≫= fun _ => emit (DupwaitNotify who))
      (add_out e s) Q).
  { intros e. wp_steps. destruct (htab_del_spec (bot_table s) (key_of_name (bot b)) W) as (t' & E & W' & A' & C' & Hl').
    eapply wp_lift; [exact E|]. wp_steps. cbn [add_out tandbot]. rewrite El, remove_node_mid by done.
    apply HQ; [done| |done]. split; cbn [tandbot bot_table set_bots add_out tands fresh botnetnick snd]; try done.
    - apply (list_ok_sub _ _ _ _ L); [|done]. apply sublist_app; [done|]. by constructor.
    - split; [done|]. destruct S. split; lia.
    - rewrite A', fmap_delete, A. cbn [norm istr_laws key_of_name istr_of]. by apply eq_sym, index_remove.
    - rewrite Ht, !length_app. cbn [length]. lia. }
  apply wp_run_when; intros _; [apply wp_emit; rewrite add_out_out|]; apply Hgo.
Qed.
End Users.
