(* ===== verification/BotnetUnlink.v ===== *)
(** * People, unlinking and counting

    What the operations do to the people on the network; what an unlink takes away; and the
    sizes of subtrees, which are the numbers that are announced. *)

From stdpp Require Import list.
From S2P Require Import Htab Prelude LibC Match Strings Base64 Botnet BotnetTree BotnetSpec.
#[local] Open Scope Z_scope.

Section Party.
Implicit Types (l : list party_t) (p : party_t).

Lemma party_at_lookup l i : 0 <= i < Z.of_nat (length l) -> l !! Z.to_nat i = Some (party_at l i).
Proof. intros H. unfold party_at. rewrite nth_lookup. destruct (lookup_lt_is_Some_2 l (Z.to_nat i)) as [p E]; [lia|]. by rewrite E. Qed.

Lemma take_last_split l n : length l = S n -> l = take n l ++ [party_at l (Z.of_nat n)].
Proof.
  intros Hl. rewrite <- (take_drop n l) at 1. f_equal. pose proof (party_at_lookup l (Z.of_nat n) ltac:(lia)) as H.
  rewrite Nat2Z.id in H. rewrite (drop_S l _ n H), drop_ge by lia. done.
Qed.

(** The row of [i] is gone, and the rows before it are where they were. *)
Lemma swap_out_spec l i : 0 <= i < Z.of_nat (length l) ->
  l ≡ₚ party_at l i :: swap_out l i /\ take (Z.to_nat i) (swap_out l i) = take (Z.to_nat i) l /\
  length l = S (length (swap_out l i)).
Proof.
  intros Hi. destruct (length l) as [|n] eqn:Hl; [lia|]. unfold swap_out.
  rewrite Hl. replace (Z.of_nat (S n) - 1) with (Z.of_nat n) by lia. rewrite Nat2Z.id.
  pose proof (take_last_split l n Hl) as Es. set (x := party_at l (Z.of_nat n)) in *.
  assert (Ht : length (take n l) = n) by (rewrite length_take; lia).
  destruct (Z.ltb_spec i (Z.of_nat n)) as [Hlt|Hge].
  - unfold party_set. rewrite length_insert, Ht. split; [|split; [|done]].
    + assert (Hlk : take n l !! Z.to_nat i = Some (party_at l i)) by (rewrite lookup_take_lt by lia; apply party_at_lookup; lia).
      rewrite Es at 1. rewrite <- (take_drop_middle _ _ _ Hlk) at 1.
      rewrite insert_take_drop by lia. rewrite <- app_assoc. cbn [app].
      rewrite <- Permutation_middle. constructor. apply Permutation_app_head. symmetry. apply Permutation_cons_append.
    + rewrite take_insert_ge by lia. rewrite take_take. f_equal. lia.
  - replace i with (Z.of_nat n) by lia. fold x. rewrite Ht. split; [|split; [|done]].
    + rewrite Es at 1. symmetry. apply Permutation_cons_append.
    + rewrite take_take. f_equal. lia.
Qed.

Lemma filter_perm (Q : party_t -> bool) l l' : l ≡ₚ l' -> List.filter Q l ≡ₚ List.filter Q l'.
Proof.
  induction 1 as [| x l l' _ IH | x y l | l1 l2 l3 _ IH1 _ IH2]; cbn; [done| | |by rewrite IH1].
  - destruct (Q x); [by constructor|done].
  - destruct (Q x), (Q y); try done. constructor.
Qed.

Lemma remparty_loop_spec b sock : forall fuel i l, 0 <= i -> Z.of_nat (length l) - i <= Z.of_nat fuel ->
  let l' := remparty_loop fuel i b sock l in
  (forall Q : party_t -> bool, (forall p, is_member b sock p = true -> Q p = false) -> List.filter Q l' ≡ₚ List.filter Q l) /\
  take (Z.to_nat i) l' = take (Z.to_nat i) l /\ (length l' <= length l)%nat /\
  (i < Z.of_nat (length l) -> is_member b sock (party_at l i) = true -> (length l' < length l)%nat) /\ l' ⊆+ l.
Proof.
  induction fuel as [|fuel IH]; intros i l Hi Hf; cbn [remparty_loop]; cbv zeta.
  { split; [done|]. split; [done|]. split; [done|]. split; [lia|done]. }
  destruct (Z.leb_spec (Z.of_nat (length l)) i) as [Hle|Hlt].
  { split; [done|]. split; [done|]. split; [done|]. split; [lia|done]. }
  assert (Hpre : forall l1 l2, take (Z.to_nat (i + 1)) l1 = take (Z.to_nat (i + 1)) l2 -> take (Z.to_nat i) l1 = take (Z.to_nat i) l2).
  { intros l1 l2 E. apply (f_equal (take (Z.to_nat i))) in E. rewrite !take_take in E. by replace (Z.to_nat i `min` Z.to_nat (i + 1))%nat with (Z.to_nat i) in E by lia. }
  destruct (is_member b sock (party_at l i)) eqn:Em.
  - destruct (swap_out_spec l i) as (HP & Ht & Hl); [lia|].
    destruct (IH (i + 1) (swap_out l i)) as (H1 & H2 & H3 & _ & H5); [lia|lia|].
    split; [|split; [|split; [lia|split; [intros; lia|]]]].
    + intros Q HQ. rewrite (H1 Q HQ), (filter_perm Q _ _ HP). cbn. by rewrite (HQ _ Em).
    + rewrite <- Ht. by apply Hpre.
    + etrans; [exact H5|]. clear -HP. revert HP. generalize (swap_out l i), (party_at l i). intros l1 x ->. by apply submseteq_cons.
  - destruct (IH (i + 1) l) as (H1 & H2 & H3 & _ & H5); [lia|lia|]. split; [done|]. split; [by apply Hpre|]. split; [done|].
    split; [by intros _|done].
Qed.

Definition off_bot (b : list Z) (p : party_t) : bool := negb (on_bot b p).

Lemma wp_remparty b sock s (Q : unit -> net -> Prop) :
  (forall l', (forall F : party_t -> bool, (forall p, is_member b sock p = true -> F p = false) -> List.filter F l' ≡ₚ List.filter F (party s)) ->
     Q tt (set_party l' (party_size s) s)) -> wp (remparty b sock) s Q.
Proof. intros HQ. apply net_upd. apply HQ. apply (remparty_loop_spec b sock _ 0 (party s)); lia. Qed.

Lemma party_filter_all (Q : party_t -> bool) l : Forall (fun p => Q p = true) l -> List.filter Q l = l.
Proof. induction 1 as [|p l Hp _ IH]; [done|]. cbn. by rewrite Hp, IH. Qed.

(** The loop passes over the rows of others. *)
Lemma remparty_loop_skip b sock k : forall i fuel l, 0 <= i -> Z.of_nat k + i <= Z.of_nat (length l) ->
  (forall j, i <= j < i + Z.of_nat k -> is_member b sock (party_at l j) = false) ->
  remparty_loop (k + fuel) i b sock l = remparty_loop fuel (i + Z.of_nat k) b sock l.
Proof.
  induction k as [|k IH]; intros i fuel l Hi Hl H; [f_equal; lia|]. cbn [Nat.add remparty_loop].
  destruct (Z.leb_spec (Z.of_nat (length l)) i); [lia|]. rewrite (H i) by lia.
  rewrite IH; [f_equal; lia|lia|lia|]. intros j Hj. apply H. lia.
Qed.

Lemma off_bot_at b l i : Forall (fun p => off_bot b p = true) (take (Z.to_nat i) l) ->
  forall j, 0 <= j < i -> j < Z.of_nat (length l) -> on_bot b (party_at l j) = false.
Proof.
  intros H j Hj Hl. apply negb_true_iff. apply (Forall_lookup_1 _ _ (Z.to_nat j) _ H).
  rewrite lookup_take_lt by lia. apply party_at_lookup. lia.
Qed.

(** The first row of the bot is found and removed. *)
Lemma remparty_first b i l : 0 <= i < Z.of_nat (length l) -> Forall (fun p => off_bot b p = true) (take (Z.to_nat i) l) ->
  on_bot b (party_at l i) = true ->
  let l' := remparty_loop (length l) 0 b (p_sock (party_at l i)) l in
  List.filter (off_bot b) l' ≡ₚ List.filter (off_bot b) l /\ take (Z.to_nat i) l' = take (Z.to_nat i) l /\ (length l' < length l)%nat.
Proof.
  intros Hi Hpre Hon. cbv zeta. set (sock := p_sock (party_at l i)).
  assert (E : remparty_loop (length l) 0 b sock l = remparty_loop (length l - Z.to_nat i) i b sock l).
  { replace (length l) with (Z.to_nat i + (length l - Z.to_nat i))%nat at 1 by lia.
    rewrite remparty_loop_skip; [f_equal; lia|lia|lia|].
    intros j Hj. unfold is_member. by rewrite (off_bot_at b l i Hpre) by lia. }
  rewrite E. destruct (remparty_loop_spec b sock (length l - Z.to_nat i) i l) as (H1 & H2 & H3 & H4 & _); [lia|lia|].
  split; [|split; [done|]].
  - apply H1. intros p. unfold is_member, off_bot. by destruct (on_bot b p).
  - apply H4; [lia|]. unfold is_member. by rewrite Hon, Z.eqb_refl.
Qed.

Lemma wp_rempartybot_loop b : forall fuel i s (Q : unit -> net -> Prop),
  0 <= i <= Z.of_nat (length (party s)) -> Z.of_nat (length (party s)) - i < Z.of_nat fuel ->
  Forall (fun p => off_bot b p = true) (take (Z.to_nat i) (party s)) ->
  (forall e l', l' ≡ₚ List.filter (off_bot b) (party s) -> Q tt (add_out e (set_party l' (party_size s) s))) ->
  wp (rempartybot_loop fuel i b) s Q.
Proof.
  induction fuel as [|fuel IH]; intros i s Q Hi Hf Hpre HQ; [lia|]. cbn [rempartybot_loop]. wp_steps.
  destruct (Z.leb_spec (Z.of_nat (length (party s))) i) as [Hle|Hlt].
  { wp_steps. rewrite take_ge in Hpre by lia. specialize (HQ [] (party s)). rewrite add_out_nil in HQ.
    replace (set_party (party s) (party_size s) s) with s in HQ by (by destruct s). apply HQ. by rewrite party_filter_all. }
  pose proof (party_at_lookup (party s) i ltac:(lia)) as Hlk.
  destruct (on_bot b (party_at (party s) i)) eqn:Eb.
  - destruct (remparty_first b i (party s)) as (H1 & H2 & H3); [lia|done|done|].
    wp_steps. assert (Hgo : forall e, wp (remparty b (p_sock (party_at (party s) i)) ≫= fun _ => rempartybot_loop fuel i b) (add_out e s) Q).
    { intros e. wp_steps. apply net_upd. apply IH; cbn [party set_party add_out]; [|lia| |].
      - split; [lia|]. apply (f_equal length) in H2. rewrite !length_take in H2. lia.
      - rewrite H2. done.
      - intros e' l' Hl'. rewrite H1 in Hl'. specialize (HQ (e ++ e') l' Hl'). rewrite <- add_out_out in HQ. exact HQ. }
    apply wp_run_when; intros _; [apply wp_emit; apply Hgo|]. specialize (Hgo []). by rewrite add_out_nil in Hgo.
  - apply IH; [lia|lia| |done]. rewrite Z2Nat.inj_add, Nat.add_1_r by lia. rewrite (take_S_r _ _ _ Hlk).
    apply Forall_app. split; [done|]. constructor; [|constructor]. unfold off_bot. by rewrite Eb.
Qed.

Lemma wp_rempartybot b s (Q : unit -> net -> Prop) :
  (forall e l', l' ≡ₚ List.filter (off_bot b) (party s) -> Q tt (add_out e (set_party l' (party_size s) s))) ->
  wp (rempartybot b) s Q.
Proof. intros HQ. unfold rempartybot. wp_steps. apply wp_rempartybot_loop; [lia|lia|constructor|done]. Qed.

End Party.

(** ** Unlinking *)

(** The people who stay when the bots [l] go. *)
Definition stays (l : list tand_t) (p : party_t) : bool := forallb (fun b => off_bot (bot b) p) l.

Lemma stays_perm l l' p : l ≡ₚ l' -> stays l p = stays l' p.
Proof.
  unfold stays. intros H. apply eq_bool_prop_intro. rewrite !Is_true_true, !forallb_forall.
  split; intros Hs b Hb; apply Hs; revert Hb; rewrite <- !list_elem_of_In; by rewrite H.
Qed.

Lemma filter_filter (P Q : party_t -> bool) l : List.filter P (List.filter Q l) = List.filter (fun p => Q p && P p) l.
Proof. induction l as [|p l IH]; [done|]. cbn. destruct (Q p); cbn; [destruct (P p)|]; by rewrite IH. Qed.

Lemma filter_ext_perm (P Q : party_t -> bool) l l' : (forall p, P p = Q p) -> l ≡ₚ l' -> List.filter P l ≡ₚ List.filter Q l'.
Proof. intros H HP. rewrite (filter_perm P _ _ HP). by rewrite (List.filter_ext P Q H). Qed.

(** Everything but the bots, the people and what was sent. *)
Definition misc (s : net) := (party_size s, dcc s, fakesock s, lastfake s, now s, botnetnick s, fresh s).

Lemma misc_rest s s' : rest s' = rest s -> misc s' = misc s /\ party s' = party s.
Proof. unfold rest, misc. by intros [= -> -> -> -> -> -> -> ->]. Qed.

(** The bots of [s] without those behind [ws], and the people without those on [gone]. *)
Record unlinked_to (s : net) (n : Z) (l : list tand_t) (gone : list tand_t) (s' : net) : Prop := {
  un_list : tandbot s' = l;
  un_ok : net_ok s' n;
  un_misc : misc s' = misc s;
  un_party : party s' ≡ₚ List.filter (stays gone) (party s)
}.

Lemma unlinked_trans s n l1 g1 s1 l2 g2 s2 g : unlinked_to s n l1 g1 s1 -> unlinked_to s1 n l2 g2 s2 ->
  g1 ++ g2 ≡ₚ g -> unlinked_to s n l2 g s2.
Proof.
  intros [A1 A2 A3 A4] [B1 B2 B3 B4] Hg. split; [done|done|by rewrite B3|].
  rewrite B4. rewrite (filter_perm _ _ _ A4), filter_filter. apply filter_ext_perm; [|done].
  intros p. rewrite <- (stays_perm _ _ p Hg). unfold stays. by rewrite forallb_app.
Qed.

Lemma wp_next_of s n pre b suf (Q : Z -> net -> Prop) : net_ok s n -> tandbot s = pre ++ b :: suf ->
  Q (head_ptr suf) s -> wp (next_of (t_ptr b)) s Q.
Proof.
  intros I El HQ. unfold wp, next_of. rewrite El, next_ptr_mid; [done|]. rewrite <- El. apply (no_list s n I).
Qed.

Lemma same_name_refl a : same_name a a = true.
Proof. by apply same_name_eq. Qed.

Section Users.
Context (users : list Z -> option Z).

(** The node of [b] goes. *)
Lemma wp_rembot_node s n pre b suf (Q : unit -> net -> Prop) : net_ok s n -> tandbot s = pre ++ b :: suf ->
  ordered (pre ++ suf) -> (forall s', unlinked_to s n (pre ++ suf) [] s' -> Q tt s') -> wp (rembot users (bot b)) s Q.
Proof.
  intros I El O HQ. apply (wp_rembot users s n (bot b) pre b suf); [done|done|apply same_name_refl|done|].
  intros s' E1 I' Hr. apply HQ. destruct (misc_rest s s' Hr) as [Hm Hp]. split; [done|done|done|].
  rewrite Hp. by rewrite party_filter_all by (by apply List.Forall_forall).
Qed.

Lemma wp_unvia_with s n loop b (Q : unit -> net -> Prop) : net_ok s n -> In b (tandbot s) ->
  (forall s', unlinked_to s n (tandbot s) [b] s' -> wp (loop (t_ptr b) (head_ptr (tandbot s))) s' Q) ->
  wp (unvia_with loop (t_ptr b)) s Q.
Proof.
  intros I Hb HQ. pose proof (ptr_pos _ _ _ b (no_list s n I) Hb). unfold unvia_with.
  rewrite (proj2 (Z.eqb_neq _ 0)) by lia. wp_steps. apply (net_load s n); [done|done|]. wp_steps.
  apply wp_rempartybot. intros e l' Hl'. wp_steps. apply HQ. split; [done| |done|].
  - by apply (net_ok_core s).
  - cbn [party add_out set_party]. rewrite Hl'. apply filter_ext_perm; [|done]. intros p. cbn. by rewrite andb_true_r.
Qed.

Lemma wp_unvia_loop n N : forall fuel pre suf who s (Q : unit -> net -> Prop),
  net_ok s n -> tandbot s = pre ++ suf -> (length (tandbot s) <= N)%nat ->
  Forall (fun b => in_set [who] (uplink b) = false) pre ->
  (length (behind [who] suf) * S N + length suf < fuel)%nat ->
  (forall s', unlinked_to s n (pre ++ drop_under [who] suf) (behind [who] suf) s' -> Q tt s') ->
  wp (unvia_loop users fuel who (head_ptr suf)) s Q.
Proof.
  induction fuel as [|fuel IH]; intros pre suf who s Q I El HN Hpre Hf HQ; [lia|].
  cbn [unvia_loop]. destruct suf as [|c suf].
  { cbn [head_ptr Z.eqb]. wp_steps. apply HQ. split; [done|done|done|]. by rewrite party_filter_all by (by apply List.Forall_forall). }
  assert (Hc : In c (tandbot s)) by (rewrite El; apply in_app_iff; right; by left).
  pose proof (ptr_pos _ _ _ c (no_list s n I) Hc) as Hp. cbn [head_ptr]. rewrite (proj2 (Z.eqb_neq _ 0)) by lia.
  wp_steps. apply (net_load s n); [done|done|]. cbn [drop_under behind] in HQ, Hf.
  assert (Ein : in_set [who] (uplink c) = (uplink c =? who)) by (cbn; apply orb_false_r). rewrite Ein in HQ, Hf.
  destruct (uplink c =? who) eqn:Eu.
  - assert (Hnone : Forall (fun b => in_set [t_ptr c] (uplink b) = false) (pre ++ [c])).
    { apply (none_before (tandbot s) pre c suf); [..|done]; [apply (no_list s n I)|apply (no_list s n I)|].
      eapply Forall_impl; [apply (no_list s n I)|]. cbn. lia. }
    assert (El' : pre ++ c :: suf = (pre ++ [c]) ++ suf) by (by rewrite <- app_assoc).
    assert (Hd : drop_under [t_ptr c] (tandbot s) = pre ++ c :: drop_under [t_ptr c] suf).
    { rewrite El, El', drop_under_front by done. by rewrite <- app_assoc. }
    assert (Hb : behind [t_ptr c] (tandbot s) = behind [t_ptr c] suf) by (by rewrite El, El', behind_front by done).
    assert (HP : behind [t_ptr c] suf ++ behind [who] (drop_under [t_ptr c] suf) ≡ₚ behind [t_ptr c; who] suf)
      by apply (behind_twice suf [who] [t_ptr c]).
    pose proof (Permutation_length HP) as HL. rewrite length_app in HL. cbn [length] in Hf.
    pose proof (drop_under_length [t_ptr c] suf) as Hdl.
    assert (HlN : (length pre + S (length suf) <= N)%nat) by (rewrite El, length_app in HN; cbn [length] in HN; lia).
    wp_step. apply (wp_unvia_with s n); [done|done|]. intros s1 U1.
    apply (IH [] (tandbot s)); [apply U1|apply U1|by rewrite (un_list _ _ _ _ _ U1)|constructor|rewrite Hb; nia|].
    intros s2 U2. cbn [app] in U2. rewrite Hd, Hb in U2. pose proof (un_list _ _ _ _ _ U2) as E2. pose proof (un_ok _ _ _ _ _ U2) as I2.
    pose proof (unlinked_trans _ _ _ _ _ _ _ _ (c :: behind [t_ptr c] suf) U1 U2 (reflexivity _)) as U12.
    wp_steps. apply (wp_next_of s2 n pre c (drop_under [t_ptr c] suf)); [done|done|]. wp_steps.
    apply (net_load s2 n); [done|rewrite E2; apply in_app_iff; right; by left|]. wp_steps.
    apply (wp_rembot_node s2 n pre c (drop_under [t_ptr c] suf)); [done|done| |].
    { pose proof (lo_tree _ _ _ (no_list s n I)) as O. unfold ordered in O |- *. rewrite El in O.
      apply ordered_app in O as [O1 [_ O2]]. apply ordered_app. split; [done|]. apply (ordered_drop suf (([] ++ pre) ++ [c])); [done|].
      intros b [Hi|[<-|[]]]%in_app_iff; [by left|right; by left]. }
    intros s3 U3. pose proof (unlinked_trans _ _ _ _ _ _ _ _ (c :: behind [t_ptr c] suf) U12 U3) as U13.
    rewrite (app_nil_r (c :: _)) in U13. specialize (U13 (reflexivity _)).
    apply (IH pre (drop_under [t_ptr c] suf)); [apply U3|apply U3| |done|nia|].
    { rewrite (un_list _ _ _ _ _ U3), length_app. lia. }
    intros s4 U4. apply HQ. rewrite drop_under_twice in U4. cbn [app] in U4.
    apply (unlinked_trans _ _ _ _ _ _ _ _ _ U13 U4). cbn [app]. constructor. done.
  - wp_step. apply (wp_next_of s n pre c suf); [done|done|]. cbn [length] in Hf.
    apply (IH (pre ++ [c]) suf); [done|by rewrite <- app_assoc|done| |lia|].
    + apply Forall_app. split; [done|]. by repeat constructor.
    + intros s' U. apply HQ. by rewrite <- app_assoc in U.
Qed.

Lemma wp_unvia s n b (Q : unit -> net -> Prop) : net_ok s n -> In b (tandbot s) ->
  (forall s', unlinked_to s n (drop_under [t_ptr b] (tandbot s)) (b :: behind [t_ptr b] (tandbot s)) s' -> Q tt s') ->
  wp (unvia users (t_ptr b)) s Q.
Proof.
  intros I Hb HQ. unfold unvia. wp_steps. apply (wp_unvia_with s n); [done|done|]. intros s1 U1.
  apply (wp_unvia_loop n (length (tandbot s)) _ [] (tandbot s)); [apply U1|apply U1|by rewrite (un_list _ _ _ _ _ U1)|constructor| |].
  - pose proof (behind_length [t_ptr b] (tandbot s)). destruct (behind [t_ptr b] (tandbot s)) eqn:E; cbn [length] in *; nia.
  - intros s2 U2. apply HQ. by apply (unlinked_trans _ _ _ _ _ _ _ _ _ U1 U2).
Qed.

(** The list without a bot and those behind it. *)
Definition cut (p : Z) (l : list tand_t) : list tand_t := remove_node p (drop_under [p] l).

Lemma cut_split l pre b suf next me : list_ok l next me -> l = pre ++ b :: suf ->
  drop_under [t_ptr b] l = pre ++ b :: drop_under [t_ptr b] suf /\ cut (t_ptr b) l = pre ++ drop_under [t_ptr b] suf /\
  ordered (pre ++ drop_under [t_ptr b] suf).
Proof.
  intros L El. pose proof L as [H1 H2 _ _ O].
  assert (Hnone : Forall (fun c => in_set [t_ptr b] (uplink c) = false) (pre ++ [b])).
  { apply (none_before l pre b suf); try done. eapply Forall_impl; [apply H2|]. cbn. lia. }
  assert (Hd : drop_under [t_ptr b] l = pre ++ b :: drop_under [t_ptr b] suf).
  { rewrite El. replace (pre ++ b :: suf) with ((pre ++ [b]) ++ suf) by (by rewrite <- app_assoc).
    rewrite drop_under_front by done. by rewrite <- app_assoc. }
  split; [done|]. split.
  - unfold cut. rewrite Hd, remove_node_mid; [done|]. rewrite <- Hd.
    by apply drop_under_ptrs.
  - unfold ordered in O |- *. rewrite El in O. apply ordered_app in O as [O1 [_ O2]]. apply ordered_app. split; [done|].
    apply (ordered_drop suf (([] ++ pre) ++ [b])); [done|]. intros c [Hi|[<-|[]]]%in_app_iff; [by left|right; by left].
Qed.

(** A bot is unlinked: it goes with all bots behind it and all people on them, if it is called
    by its name. *)
Lemma wp_unlink s n who b (Q : unit -> net -> Prop) : net_ok s n -> In b (tandbot s) -> same_name (bot b) who = true ->
  (forall s', unlinked_to s n (cut (t_ptr b) (tandbot s)) (b :: behind [t_ptr b] (tandbot s)) s' -> Q tt s') ->
  wp (unvia users (t_ptr b) ≫= fun _ => rembot users who) s Q.
Proof.
  intros I Hb Hs HQ. wp_step. apply (wp_unvia s n); [done|done|]. intros s1 U1.
  apply in_split in Hb as (pre & suf & El). destruct (cut_split _ pre b suf _ _ (no_list s n I) El) as (Hd & Hc & O).
  rewrite Hd in U1. apply (wp_rembot users s1 n who pre b (drop_under [t_ptr b] suf)); [apply U1|apply U1|done|done|].
  intros s2 E2 I2 Hr. destruct (misc_rest s1 s2 Hr) as [Hm Hp]. apply HQ. rewrite Hc.
  split; [done|done|by rewrite Hm; apply U1|]. rewrite Hp. apply U1.
Qed.

Lemma cut_covers l next me b c : list_ok l next me -> In b l -> In c l ->
  In c (cut (t_ptr b) l) \/ In c (b :: behind [t_ptr b] l).
Proof.
  intros L (pre & suf & El)%in_split Hc. destruct (cut_split l pre b suf _ _ L El) as (Hd & Hcut & _).
  destruct (drop_covers [t_ptr b] l c Hc) as [H|H]; [|right; by right]. rewrite Hcut. rewrite Hd in H.
  apply in_app_iff in H as [H|[<-|H]]; [left; apply in_app_iff; by left|right; by left|left; apply in_app_iff; by right].
Qed.

(** Whatever the name, the tables stay well-formed. *)
Lemma wp_unlink_found s n who p (Q : unit -> net -> Prop) : net_ok s n -> found (tandbot s) who p ->
  (forall s' l' gone, unlinked_to s n l' gone s' -> (forall b, In b (tandbot s) -> In b l' \/ In b gone) -> Q tt s') ->
  wp (unvia users p ≫= fun _ => rembot users who) s Q.
Proof.
  intros I Hf HQ. destruct Hf as [[-> Hn]|(b & Hb & Ef & ->)].
  - wp_steps. change (unvia users 0) with (l ← get tandbot; skip). wp_steps.
    apply wp_rembot_none; [|apply (HQ s (tandbot s) []); [split; [done|done|done|by rewrite party_filter_all by (by apply List.Forall_forall)]|by left]].
    intros b Hb. destruct (same_name (bot b) who) eqn:E; [|done]. apply same_fold in E. by destruct (Hn b Hb).
  - destruct (same_name (bot b) who) eqn:E; 
      [apply (wp_unlink s n who b); try done; intros s' U; eapply HQ; [exact U|intros c; apply (cut_covers _ _ _ b c (no_list s n I) Hb)]|].
    wp_step. apply (wp_unvia s n); [done|done|]. intros s1 U1. apply wp_rembot_none.
    2:{ eapply HQ; [exact U1|]. intros c Hc. destruct (drop_covers [t_ptr b] _ c Hc); [by left|right; by right]. }
    rewrite (un_list _ _ _ _ _ U1). intros c Hc. destruct (same_name (bot c) who) eqn:E'; [|done].
    exfalso. assert (c = b); [|by subst; rewrite E in E'].
    apply (fold_inj (tandbot s)); [apply (no_list s n I)| |done|unfold fold_of; by rewrite (same_fold _ _ E')].
    by apply drop_under_In in Hc.
Qed.
End Users.

Lemma wp_unvia_found users s n who p (Q : unit -> net -> Prop) : net_ok s n -> found (tandbot s) who p ->
  (forall s' l' gone, unlinked_to s n l' gone s' -> (forall b, In b (tandbot s) -> In b l' \/ In b gone) -> Q tt s') ->
  wp (unvia users p) s Q.
Proof.
  intros I [[-> Hn]|(b & Hb & Ef & ->)] HQ.
  - apply (HQ s (tandbot s) []); [split; [done|done|done|by rewrite party_filter_all by (by apply List.Forall_forall)]|by left].
  - apply (wp_unvia users s n); [done|done|]. intros s' U. eapply HQ; [exact U|].
    intros c Hc. destruct (drop_covers [t_ptr b] _ c Hc); [by left|right; by right].
Qed.

(** ** Counting what is behind a bot *)

(** The bots behind [p], by the bots that are linked to it. *)
Definition parts (p : Z) (l suf : list tand_t) : list tand_t :=
  flat_map (fun b => if uplink b =? p then b :: behind [t_ptr b] l else []) suf.

Section List.
Context (l : list tand_t) (next : Z) (me : list Z) (L : list_ok l next me).

Lemma behind_after pre b suf : l = pre ++ b :: suf -> behind [t_ptr b] l = behind [t_ptr b] suf.
Proof.
  intros El. assert (Hnone : Forall (fun c => in_set [t_ptr b] (uplink c) = false) (pre ++ [b])).
  { apply (none_before l pre b suf); try apply L; [|done]. eapply Forall_impl; [apply L|]. cbn. lia. }
  rewrite El. replace (pre ++ b :: suf) with ((pre ++ [b]) ++ suf) by (by rewrite <- app_assoc).
  by rewrite behind_front.
Qed.

(** The parent of a bot is not among the bots after it, nor the bot itself. *)
Lemma uplink_before pre b suf c : l = pre ++ b :: suf -> In c (b :: suf) -> uplink b <> t_ptr c.
Proof.
  intros El Hc E. pose proof L as [Hn Hp _ _ O]. rewrite El in Hn, Hp, O. rewrite List.Forall_forall in Hp.
  assert (1 < t_ptr c) by (apply Hp, in_app_iff; by right).
  destruct (ordered_split _ pre b suf O eq_refl) as [[E1 _]|(p & Hpp & E1 & _)]; [lia|].
  rewrite map_app in Hn. apply NoDup_app in Hn as (_ & Hd & _).
  apply (Hd (t_ptr p)); rewrite list_elem_of_In; [by apply in_map|]. rewrite <- E1, E. by apply in_map.
Qed.

Lemma behind_parts p : forall suf pre, l = pre ++ suf -> behind [p] suf ≡ₚ parts p l suf.
Proof.
  induction suf as [|c suf IH]; intros pre El; [done|]. cbn [behind parts flat_map].
  assert (El' : l = (pre ++ [c]) ++ suf) by (by rewrite <- app_assoc).
  specialize (IH (pre ++ [c]) El'). fold (parts p l suf). replace (in_set [p] (uplink c)) with (uplink c =? p) by (cbn; by rewrite orb_false_r).
  destruct (Z.eqb_spec (uplink c) p) as [E|E]; [|done]. cbn [app]. constructor.
  rewrite (behind_after pre c suf El), <- IH.
  pose proof (behind_split (fun b => b) suf [t_ptr c] [p]) as H. rewrite !List.map_id in H. apply H.
  - pose proof (lo_ptrs _ _ _ L) as Hn. rewrite El', map_app in Hn. by apply NoDup_app in Hn as (_ & _ & ?).
  - intros x [<-|[]] [Ex|[]]. apply (uplink_before pre c suf c El); [by left|]. by rewrite E.
  - intros b Hb [Eb|[Eb|[]]].
    + pose proof (lo_ptrs _ _ _ L) as Hn. rewrite El, map_app in Hn. apply NoDup_app in Hn as (_ & _ & Hn).
      cbn in Hn. apply NoDup_cons in Hn as [Hc _]. apply Hc. rewrite Eb, list_elem_of_In. by apply in_map.
    + apply (uplink_before pre c suf b El); [by right|]. by rewrite E.
Qed.

(** The sum over the bots that are linked to [p]. *)
Lemma sum_links_spec (f : Z -> result nfault Z) (g : list tand_t -> Z) p suf :
  (forall b, In b suf -> bot b <> []) -> g [] = 0 -> (forall x y, g (x ++ y) = g x + g y) ->
  (forall b, In b suf -> uplink b = p -> f (t_ptr b) = Ok (g (b :: behind [t_ptr b] l))) ->
  sum_links f p suf = Ok (g (parts p l suf)).
Proof.
  intros Hb Hg0 Hg. induction suf as [|c suf IH]; intros Hf; [cbn; by rewrite Hg0|]. cbn [sum_links parts flat_map].
  fold (parts p l suf). rewrite IH; [|intros b Hi; apply Hb; by right|intros b Hi; apply Hf; by right].
  assert (Hc : bot c <> []) by (apply Hb; by left).
  replace (match bot c with [] => false | _ => true end) with true by (by destruct (bot c)). cbn [andb].
  destruct (Z.eqb_spec (uplink c) p) as [E|E]; cbn [rbind].
  - rewrite (Hf c ltac:(by left) E). cbn [rbind]. by rewrite Hg.
  - by rewrite Hg, Hg0.
Qed.

(** A child has fewer bots behind it. *)
Lemma behind_smaller p b : In b l -> uplink b = p -> (length (behind [t_ptr b] l) < length (behind [p] l))%nat.
Proof.
  intros Hb E. rewrite (Permutation_length (behind_parts p l [] eq_refl)).
  assert (H : forall suf, In b suf -> (length (behind [t_ptr b] l) < length (parts p l suf))%nat); [|by apply H].
  induction suf as [|c suf IH]; [done|]. cbn [parts flat_map]. rewrite length_app. fold (parts p l suf).
  intros [->|Hs]; [rewrite E, Z.eqb_refl; cbn [length]; lia|specialize (IH Hs); lia].
Qed.

Lemma names_nonempty b : In b l -> bot b <> [].
Proof. intros Hb. pose proof (lo_text _ _ _ L) as H. rewrite List.Forall_forall in H. apply (H b Hb). Qed.

Lemma bots_loop_spec : forall fuel p, p <> 0 -> (length (behind [p] l) < fuel)%nat ->
  bots_loop fuel l p = Ok (1 + Z.of_nat (length (behind [p] l))).
Proof.
  induction fuel as [|fuel IH]; intros p Hp Hf; [lia|]. cbn [bots_loop]. rewrite (proj2 (Z.eqb_neq _ _)) by done.
  rewrite (sum_links_spec (bots_loop fuel l) (fun bs => Z.of_nat (length bs)) p l); [|apply names_nonempty|done| |].
  - cbn [rbind]. by rewrite (Permutation_length (behind_parts p l [] eq_refl)).
  - intros x y. rewrite length_app. lia.
  - intros b Hb E. pose proof (ptr_pos _ _ _ b L Hb). pose proof (behind_smaller p b Hb E).
    rewrite IH by lia. cbn [length]. f_equal. lia.
Qed.

(** The people on the bots of a list. *)
Fixpoint people (us : list party_t) (bs : list tand_t) : Z :=
  match bs with [] => 0 | b :: bs => Z.of_nat (length (List.filter (on_bot (bot b)) us)) + people us bs end.

Lemma people_app us x y : people us (x ++ y) = people us x + people us y.
Proof. induction x as [|b x IH]; [done|]. cbn [app people]. rewrite IH. lia. Qed.
Lemma people_perm us x y : x ≡ₚ y -> people us x = people us y.
Proof. induction 1; cbn [people]; lia. Qed.

Lemma users_loop_spec us : forall fuel b, In b l -> (length (behind [t_ptr b] l) < fuel)%nat ->
  users_loop fuel l us (t_ptr b) = Ok (people us (b :: behind [t_ptr b] l)).
Proof.
  induction fuel as [|fuel IH]; intros b Hb Hf; [lia|]. cbn [users_loop].
  pose proof (ptr_pos _ _ _ b L Hb). rewrite (proj2 (Z.eqb_neq _ _)) by lia.
  assert (E1 : match us with [] => Ok 0 | _ => let! b := deref l (t_ptr b) in Ok (Z.of_nat (length (filter (fun u => on_bot (bot b) u = true) us))) end
               = Ok (E := nfault) (Z.of_nat (length (List.filter (on_bot (bot b)) us)))).
  { rewrite (node_deref_in l b) by (try apply L; try done; lia). cbn [rbind]. destruct us as [|u us']; [done|]. do 3 f_equal.
    generalize (u :: us'). intros us0. induction us0 as [|x us0 IHu]; [done|]. rewrite filter_cons. cbn [List.filter].
    case_decide as Hd; [rewrite Hd; by rewrite IHu|]. apply not_true_is_false in Hd. by rewrite Hd. }
  rewrite E1. cbn [rbind].
  rewrite (sum_links_spec (users_loop fuel l us) (people us) (t_ptr b) l); [|apply names_nonempty|done|apply people_app|].
  - cbn [rbind people]. by rewrite (people_perm us _ _ (behind_parts (t_ptr b) l [] eq_refl)).
  - intros c Hc E. pose proof (behind_smaller (t_ptr b) c Hc E). apply IH; [done|lia].
Qed.

(** A person is on one bot at most. *)
Lemma people_stays us bs : NoDup (map fold_of bs) ->
  people us bs = Z.of_nat (length us) - Z.of_nat (length (List.filter (stays bs) us)).
Proof.
  induction bs as [|b bs IH]; cbn [map people]; intros Hn.
  - rewrite party_filter_all by (by apply List.Forall_forall). lia.
  - apply NoDup_cons in Hn as [Hb Hn]. rewrite IH by done.
    assert (H : forall u, on_bot (bot b) u = true -> stays bs u = true).
    { intros u Hu. apply forallb_forall. intros c Hc. apply negb_true_iff. destruct (on_bot (bot c) u) eqn:E; [|done].
      exfalso. apply Hb. apply list_elem_of_In, in_map_iff. exists c. split; [|done]. unfold fold_of.
      by rewrite <- (same_fold _ _ E), <- (same_fold _ _ Hu). }
    enough (length (List.filter (stays bs) us) = (length (List.filter (stays (b :: bs)) us) + length (List.filter (on_bot (bot b)) us))%nat) by lia.
    clear IH. induction us as [|u us IHu]; [done|]. cbn [List.filter].
    change (stays (b :: bs) u) with (negb (on_bot (bot b) u) && stays bs u). destruct (on_bot (bot b) u) eqn:E; cbn [negb andb].
    + rewrite (H u E). cbn [length]. lia.
    + destruct (stays bs u); cbn [length]; lia.
Qed.
End List.

Lemma wp_bots_in_subtree s n b (Q : Z -> net -> Prop) : net_ok s n -> In b (tandbot s) ->
  Q (1 + Z.of_nat (length (behind [t_ptr b] (tandbot s)))) s -> wp (bots_in_subtree (t_ptr b)) s Q.
Proof.
  intros I Hb HQ. unfold wp, bots_in_subtree. pose proof (ptr_pos _ _ _ b (no_list s n I) Hb).
  pose proof (behind_length [t_ptr b] (tandbot s)).
  by rewrite (bots_loop_spec (tandbot s) (fresh s) (botnetnick s) (no_list s n I)) by lia.
Qed.
Lemma wp_users_in_subtree s n b (Q : Z -> net -> Prop) : net_ok s n -> In b (tandbot s) ->
  Q (people (party s) (b :: behind [t_ptr b] (tandbot s))) s -> wp (users_in_subtree (t_ptr b)) s Q.
Proof.
  intros I Hb HQ. unfold wp, users_in_subtree. pose proof (behind_length [t_ptr b] (tandbot s)).
  by rewrite (users_loop_spec (tandbot s) (fresh s) (botnetnick s) (no_list s n I)) by (done || lia).
Qed.
