(* ===== verification/BotnetSafe.v ===== *)
(** * The bot network: the invariant is kept

    [net_inv] is the invariant of all tables.  Reads succeed in it, and every operation and
    every handler keeps it ([safe]). *)

From stdpp Require Import gmap list.
From S2P Require Import Htab HtabRing HtabMap Prelude LibC Match Strings FlagDefs Base64 Botnet BotnetTree.
From S2P Require Import BotnetSpec BotnetUnlink Botcmd.
#[local] Open Scope Z_scope.

(** ** A new bot *)

Definition new_node (s : net) (who : list Z) (v u flag vernum ssl : Z) : tand_t :=
  {| t_ptr := fresh s; bot := who; via := v; uplink := u; ver := vernum; share := flag; ssl := ssl |}.

(** How a new bot is reached: [from] and [next] say that it is linked to this one, or to a bot
    that is known, through the connection to [from]. *)
Definition reaches (s : net) (who from next : list Z) (v u : Z) : Prop :=
  (v = fresh s /\ u = 1 /\ fold from = fold who /\ same_name next (botnetnick s) = true) \/
  (exists r p, In r (tandbot s) /\ In p (tandbot s) /\ fold_of r = fold from /\ fold_of p = fold next /\
     v = t_ptr r /\ u = t_ptr p /\ via p = t_ptr r).

Lemma index_snoc l b : NoDup (map fold_of (l ++ [b])) -> index_of (l ++ [b]) = <[fold_of b := t_ptr b]> (index_of l).
Proof.
  intros Hn. unfold index_of. rewrite (list_to_map_proper (map (fun b => (fold_of b, t_ptr b)) (l ++ [b])) (map (fun b => (fold_of b, t_ptr b)) (b :: l))).
  - done.
  - by rewrite index_fst.
  - apply Permutation_map. symmetry. apply Permutation_cons_append.
Qed.

Lemma list_ok_snoc l next me b : list_ok l next me -> 1 < next -> t_ptr b = next -> bot b <> [] ->
  Z.of_nat (length (bot b)) <= HANDLEN -> fold_of b <> fold me -> (forall c, In c l -> fold_of c <> fold_of b) -> linked l b ->
  list_ok (l ++ [b]) (next + 1) me.
Proof.
  intros [H1 H2 H3 H4 H5] Hx Hp Hb Hl Hm Hf Hk. split.
  - rewrite map_app. apply NoDup_app. split; [done|]. split; [|apply NoDup_singleton].
    intros p Hi [Hi'|[]]%list_elem_of_In. subst p. apply list_elem_of_In, in_map_iff in Hi as (c & E & Hc).
    rewrite List.Forall_forall in H2. specialize (H2 c Hc). lia.
  - apply Forall_app. split; [eapply Forall_impl; [exact H2|]; cbn; lia|]. constructor; [lia|constructor].
  - rewrite map_app. apply NoDup_app. split; [done|]. split; [|apply NoDup_singleton].
    intros n Hi [<-|[]]%list_elem_of_In. apply list_elem_of_In, in_map_iff in Hi as (c & E & Hc). by apply (Hf c Hc).
  - apply Forall_app. split; [done|]. by repeat constructor.
  - apply ordered_app. split; [done|]. by split.
Qed.

Lemma strlcpy_short a n : Z.of_nat (length a) < n -> op_strlcpy a n = a.
Proof. intros H. unfold op_strlcpy. apply take_ge. lia. Qed.

Lemma new_node_ok s who from next v u flag vernum ssl : list_ok (tandbot s) (fresh s) (botnetnick s) -> 1 < fresh s ->
  who <> [] -> Z.of_nat (length who) <= HANDLEN -> fold who <> fold (botnetnick s) ->
  (forall b, In b (tandbot s) -> fold_of b <> fold who) -> reaches s who from next v u ->
  list_ok (tandbot s ++ [new_node s who v u flag vernum ssl]) (fresh s + 1) (botnetnick s).
Proof.
  intros L Hf Hw Hl Hme Hnew Hr. apply list_ok_snoc; try done.
  destruct Hr as [(-> & -> & _)|(r & p & _ & Hp & _ & _ & -> & -> & Ev)]; [by left|]. right. by exists p.
Qed.

(** The last node is the one that its pointer leads to. *)
Lemma last_node l next me b : list_ok l next me -> 1 < next -> t_ptr b = next ->
  deref (l ++ [b]) next = Ok b /\ forall f, update_node next f (l ++ [b]) = l ++ [f b].
Proof.
  intros L Hx Hb. assert (Ls : forall c, In c l -> (t_ptr c =? next) = false).
  { intros c Hc. pose proof (ptr_pos _ _ _ c L Hc). lia. }
  split.
  - unfold deref. rewrite (proj2 (Z.eqb_neq _ _)) by lia. replace (find _ _) with (Some b); [done|].
    clear - Ls Hb. induction l as [|c l IH]; cbn; [by rewrite Hb, Z.eqb_refl|].
    rewrite (Ls c) by (by left). apply IH. intros d Hd. apply Ls. by right.
  - intros f. unfold update_node. rewrite map_app. cbn [map]. rewrite Hb, Z.eqb_refl. f_equal.
    rewrite <- (map_id l) at 2. apply map_ext_in. intros c Hc. by rewrite Ls.
Qed.

Lemma wp_addbot s n who from next flag vernum ssl v u (Q : unit -> net -> Prop) : net_ok s n -> 0 <= n <= 2 ^ 50 ->
  who <> [] -> Z.of_nat (length who) <= HANDLEN -> fold who <> fold (botnetnick s) ->
  (forall b, In b (tandbot s) -> fold_of b <> fold who) -> reaches s who from next v u ->
  (forall s', tandbot s' = tandbot s ++ [new_node s who v u flag vernum ssl] -> net_ok s' (n + 1) ->
     party s' = party s -> party_size s' = party_size s -> dcc s' = dcc s -> botnetnick s' = botnetnick s -> Q tt s') ->
  wp (addbot who from next flag vernum ssl) s Q.
Proof.
  intros [L [W S] A Ht Hf Hm] Hn Hw Hl Hme Hnew Hr HQ. unfold addbot. rewrite strlcpy_short by lia. wp_steps.
  set (node := {| t_ptr := fresh s; bot := who; via := 0; uplink := 0 |}).
  destruct (htab_set_spec (bot_table s) (key_of_name who) (fresh s) W) as (t' & E & W' & A' & C' & G'); [destruct S; lia|].
  eapply wp_lift; [exact E|].
  assert (Hnone : abs (bot_table s) !! norm (key_of_name who) = None).
  { apply (fmap_None snd). rewrite <- lookup_fmap, A. by apply index_none. }
  rewrite Hnone in A' |- *. cbn [snd]. wp_steps.
  assert (A2 : snd <$> abs t' = <[fold who := fresh s]> (index_of (tandbot s))) by (rewrite A', fmap_insert, A; done).
  assert (Hlk : forall b, In b (tandbot s) -> default 0 ((snd <$> abs t') !! fold_of b) = t_ptr b).
  { intros b Hb. rewrite A2, lookup_insert_ne by (intros Ex; by apply (Hnew b Hb)). by rewrite name_index_in by (done || apply L). }
  apply wp_findbot_index; [done|]. cbn [bot_table set_bots]. wp_steps. cbn [botnetnick set_bots set_fresh].
  set (s1 := set_bots _ t' _ _).
  assert (Hv : default 0 ((snd <$> abs t') !! fold from) = v).
  { destruct Hr as [(-> & _ & -> & _)|(r & p & Hr1 & _ & <- & _ & -> & _)]; [|by apply Hlk]. by rewrite A2, lookup_insert_eq. }
  rewrite Hv.
  assert (Hu : wp (if same_name next (botnetnick s) then mret 1 else findbot next) s1 (fun u' s' => u' = u /\ s' = s1)).
  { destruct Hr as [(_ & -> & _ & ->)|(r & p & _ & Hp & _ & E2 & _ & -> & _)]; [done|].
    destruct (same_name next (botnetnick s)) eqn:Es.
    - apply same_fold in Es. pose proof (lo_text _ _ _ L) as Hx. rewrite List.Forall_forall in Hx.
      destruct (Hx p Hp) as (_ & _ & Hm'). by rewrite E2, Es in Hm'.
    - apply wp_findbot_index; [done|]. cbn [bot_table s1 set_bots]. by rewrite <- E2, Hlk. }
  eapply net_mono; [exact Hu|]. clear Hu. intros u' s' [-> ->].
  destruct (last_node (tandbot s) (fresh s) (botnetnick s) node L) as [Hd Hupd]; [lia|done|]. specialize (Hupd (set_links v u)).
  unfold store. wp_steps. unfold load. unfold wp at 1. cbn [tandbot s1 set_bots set_fresh]. rewrite Hd. wp_steps.
  apply HQ; try done. split; cbn [tandbot set_bots bot_table fresh tands botnetnick s1 set_fresh]; rewrite ?Hupd; try done.
  - by apply (new_node_ok s who from next).
  - split; [done|]. by apply (small_grown _ (bot_table s)).
  - rewrite A2, index_snoc; [done|]. apply (new_node_ok s who from next v u flag vernum ssl); done.
  - rewrite length_app, Ht. cbn [length]. lia.
  - lia.
Qed.

(** ** The invariant of all tables *)

(** The connections to bots have names that fit. *)
Definition dcc_ok (d : dcc_t) : Prop :=
  d_type d = DCC_BOT \/ d_type d = DCC_BOT_NEW -> d_nick d <> [] /\ Z.of_nat (length (d_nick d)) <= HANDLEN.

Definition member_key (p : party_t) : list Z * Z := (map tolower (p_bot p), p_sock p).

(** Every person is there once, and on a bot that is linked. *)
Record net_inv (s : net) (n : Z) : Prop := {
  ni_ok : net_ok s n;
  ni_dcc : Forall dcc_ok (dcc s);
  ni_keys : NoDup (map member_key (party s));
  ni_room : Z.of_nat (length (party s)) <= party_size s <= 2 * n /\ Z.of_nat (length (party s)) <= n;
  ni_here : Forall (fun p => exists b, In b (tandbot s) /\ same_name (p_bot p) (bot b) = true) (party s)
}.

Lemma inv_frame s s' n : core s' = core s -> dcc s' = dcc s -> party s' = party s -> party_size s' = party_size s ->
  net_inv s n -> net_inv s' n.
Proof.
  intros Hc Hd Hp Hz [I1 I2 I3 I4 I5]. pose proof (net_ok_core s s' n Hc I1) as I. injection Hc as E _ _ _ _.
  split; [done|by rewrite Hd|by rewrite Hp|by rewrite Hp, Hz|by rewrite E, Hp].
Qed.

Lemma inv_out s n e : net_inv s n -> net_inv (add_out e s) n.
Proof. by apply inv_frame. Qed.

Lemma net_ok_weaken s n n' : n <= n' -> net_ok s n -> net_ok s n'.
Proof. intros H [I1 [W [S1 S2]] I3 I4 I5 I6]. split; try done. split; [done|]. split; lia. Qed.

Lemma inv_weaken s n n' : n <= n' -> net_inv s n -> net_inv s n'.
Proof. intros H [I1 I2 I3 I4 I5]. split; [by apply (net_ok_weaken s n)|done|done|lia|done]. Qed.

(** A removal of rows, and of bots without people. *)
Lemma inv_removed s n s' : net_inv s n -> net_ok s' n -> dcc s' = dcc s -> party_size s' = party_size s -> party s' ⊆+ party s ->
  (forall p b, In p (party s') -> In b (tandbot s) -> same_name (p_bot p) (bot b) = true -> In b (tandbot s')) ->
  net_inv s' n.
Proof.
  intros [I1 I2 I3 I4 I5] I' Hd Hz Hp Hk. split; [done|by rewrite Hd| | |].
  - apply submseteq_Permutation in Hp as [k Hp]. rewrite Hp, map_app in I3. by apply NoDup_app in I3 as [? _].
  - rewrite Hz. apply submseteq_length in Hp. lia.
  - apply List.Forall_forall. intros p Hi. rewrite List.Forall_forall in I5.
    destruct (I5 p) as (b & Hb & E); [|exists b; split; [by apply (Hk p)|done]].
    apply list_elem_of_In. eapply elem_of_submseteq; [|exact Hp]. by apply list_elem_of_In.
Qed.

Lemma filter_sub (F : party_t -> bool) l : List.filter F l ⊆+ l.
Proof. induction l as [|p l IH]; [done|]. cbn. destruct (F p); [by constructor|by constructor]. Qed.

Lemma inv_unlinked s n l gone s' : net_inv s n -> unlinked_to s n l gone s' ->
  (forall b, In b (tandbot s) -> In b l \/ In b gone) -> net_inv s' n.
Proof.
  intros I [U1 U2 U3 U4] Hl. injection U3 as Ez Ed _ _ _ _ _.
  apply (inv_removed s n s'); try done; [rewrite U4; apply filter_sub|]. intros p b Hp Hb E.
  rewrite <- list_elem_of_In, U4, list_elem_of_In in Hp. apply List.filter_In in Hp as [Hp Hs]. rewrite U1. destruct (Hl b Hb) as [?|Hg]; [done|].
  unfold stays in Hs. rewrite forallb_forall in Hs. specialize (Hs b Hg). unfold off_bot, on_bot in Hs. by rewrite E in Hs.
Qed.

(** ** Reads *)

(** [m] succeeds and changes nothing. *)
Definition reads {A} (n : Z) (m : M A) : Prop := forall s, net_inv s n -> exists a, m s = Ok (a, s).
(** [m] ends well. *)
Definition safe {A} (n n' : Z) (m : M A) : Prop := forall s, net_inv s n -> wp m s (fun _ s' => net_inv s' n').

Lemma wp_reads {A} n (m : M A) s (Q : A -> net -> Prop) : reads n m -> net_inv s n -> (forall a, Q a s) -> wp m s Q.
Proof. intros H I HQ. destruct (H s I) as [a E]. unfold wp. rewrite E. apply HQ. Qed.

Lemma reads_wp {A} n (m : M A) : (forall s, net_inv s n -> wp m s (fun _ s' => s' = s)) -> reads n m.
Proof.
  intros H s I. specialize (H s I). unfold wp in H. destruct (m s) as [[a s']|e]; [|done]. subst s'. by exists a.
Qed.

Lemma reads_ret {A} n (a : A) : reads n (mret a).
Proof. intros s _. by exists a. Qed.
Lemma reads_get {A} n (f : net -> A) : reads n (get f).
Proof. intros s _. by exists (f s). Qed.
Lemma reads_bind {A B} n (m : M A) (f : A -> M B) : reads n m -> (forall a, reads n (f a)) -> reads n (m ≫= f).
Proof.
  intros Hm Hf s I. destruct (Hm s I) as [a E]. destruct (Hf a s I) as [b E']. exists b.
  unfold mbind, M_bind. by rewrite E.
Qed.
Lemma reads_findbot n who : reads n (findbot who).
Proof. apply reads_wp. intros s I. by apply (wp_findbot s n); [apply I|]. Qed.

Lemma safe_reads {A} n (m : M A) : reads n m -> safe n n m.
Proof. intros H s I. by apply (wp_reads n). Qed.
Lemma safe_emits {A} n (m : M A) : emits m -> safe n n m.
Proof. intros H s I. apply wp_emits; [done|]. intros _ e. by apply inv_out. Qed.
Lemma safe_bind {A B} n n1 n2 (m : M A) (f : A -> M B) : safe n n1 m -> (forall a, safe n1 n2 (f a)) -> safe n n2 (m ≫= f).
Proof. intros Hm Hf s I. apply net_bind. eapply net_mono; [by apply Hm|]. intros a s' I'. by apply Hf. Qed.
Lemma safe_when n b m : safe n n m -> safe n n (run_when b m).
Proof. intros H s I. apply wp_run_when; intros _; [by apply H|done]. Qed.
Lemma safe_weaken {A} n n1 n2 (m : M A) : n1 <= n2 -> safe n n1 m -> safe n n2 m.
Proof. intros Hn H s I. eapply net_mono; [by apply H|]. intros a s' I'. by apply (inv_weaken s' n1). Qed.

Create HintDb net.
#[export] Hint Resolve reads_ret reads_get reads_findbot : net.

(** What [nextbot] says: nothing, or the connection to the bot through which [who] is reached. *)
Definition route (s : net) (who : list Z) (i : Z) : Prop :=
  i = -1 \/ exists b r d, In b (tandbot s) /\ fold_of b = fold who /\ In r (tandbot s) /\ uplink r = 1 /\ via r = t_ptr r /\
    via b = t_ptr r /\ 0 <= i /\ dcc s !! Z.to_nat i = Some d /\ same_name (bot r) (d_nick d) = true /\ d_type d = DCC_BOT.

Lemma index_dcc_spec f l : forall k, 0 <= k -> index_dcc f l k = -1 \/
  exists d, k <= index_dcc f l k /\ l !! Z.to_nat (index_dcc f l k - k) = Some d /\ f d = true.
Proof.
  induction l as [|d l IH]; intros k Hk; [by left|]. cbn [index_dcc]. destruct (f d) eqn:E.
  - right. exists d. split; [lia|]. split; [|done]. by rewrite Z.sub_diag.
  - destruct (IH (k + 1)) as [->|(d' & H1 & H2 & H3)]; [lia|by left|]. right. exists d'. split; [lia|]. split; [|done].
    replace (Z.to_nat (index_dcc f l (k + 1) - k)) with (S (Z.to_nat (index_dcc f l (k + 1) - (k + 1)))) by lia. done.
Qed.

Lemma wp_nextbot s n who (Q : Z -> net -> Prop) : net_ok s n -> (forall i, route s who i -> Q i s) -> wp (nextbot who) s Q.
Proof.
  intros I HQ. unfold nextbot. wp_step. apply (wp_findbot s n); [done|]. intros p [[-> Hn]|(b & Hb & Ef & ->)].
  { wp_steps. apply HQ. by left. }
  pose proof (no_list s n I) as L. pose proof (ptr_pos _ _ _ b L Hb). rewrite (proj2 (Z.eqb_neq _ 0)) by lia.
  wp_steps. apply (net_load s n); [done|done|]. wp_steps.
  destruct (root_of _ b (lo_tree _ _ _ L) Hb) as (r & Hr & Eu & Ev & Eb). pose proof (ptr_pos _ _ _ r L Hr).
  rewrite Eb. rewrite (proj2 (Z.eqb_neq _ 0)) by lia. destruct (dcc s) as [|d0 ds] eqn:Ed; [wp_steps; apply HQ; by left|].
  wp_steps. apply (net_load s n); [done|done|]. wp_steps. rewrite <- Ed. apply HQ.
  destruct (index_dcc_spec (fun d => same_name (bot r) (d_nick d) && bool_decide (d_type d = DCC_BOT)) (dcc s) 0) as [->|(d & H1 & H2 & H3)];
    [lia|by left|]. right. apply andb_true_iff in H3 as [H3 H4%bool_decide_eq_true]. rewrite Z.sub_0_r in H2.
  by exists b, r, d.
Qed.

Lemma reads_nextbot n who : reads n (nextbot who).
Proof. apply reads_wp. intros s I. by apply (wp_nextbot s n); [apply I|]. Qed.

Lemma wp_found_node s n p who (Q : tand_t -> net -> Prop) : net_ok s n -> found (tandbot s) who p -> p <> 0 ->
  (forall b, In b (tandbot s) -> fold_of b = fold who -> p = t_ptr b -> Q b s) -> wp (load p) s Q.
Proof.
  intros I [[-> _]|(b & Hb & Ef & ->)] Hp HQ; [done|]. apply (net_load s n); [done|done|]. by apply HQ.
Qed.

Lemma wp_lastbot s n who (Q : list Z -> net -> Prop) : net_ok s n -> (forall x, Q x s) -> wp (lastbot who) s Q.
Proof.
  intros I HQ. unfold lastbot. wp_step. apply (wp_findbot s n); [done|]. intros p Hp.
  destruct (Z.eqb_spec p 0) as [->|Hz]; [by wp_steps|]. wp_steps. apply (wp_found_node s n p who); [done|done|done|].
  intros b Hb _ _. destruct (Z.eqb_spec (uplink b) 1) as [E|E]; [by wp_steps|]. wp_step.
  destruct (parent_of _ b (lo_tree _ _ _ (no_list s n I)) Hb) as [?|(q & Hq & ->)]; [done|].
  apply (net_load s n); [done|done|]. by wp_steps.
Qed.
Lemma reads_lastbot n who : reads n (lastbot who).
Proof. apply reads_wp. intros s I. by apply (wp_lastbot s n); [apply I|]. Qed.

Lemma wp_in_chain s n who (Q : bool -> net -> Prop) : net_ok s n ->
  (Q true s) -> ((forall b, In b (tandbot s) -> fold_of b <> fold who) -> Q (same_name who (botnetnick s)) s) -> wp (in_chain who) s Q.
Proof.
  intros I H1 H2. unfold in_chain. wp_step. apply (wp_findbot s n); [done|]. intros p [[-> Hn]|(b & Hb & Ef & ->)].
  - cbn [Z.eqb negb]. wp_steps. by apply H2.
  - pose proof (ptr_pos _ _ _ b (no_list s n I) Hb). rewrite (proj2 (Z.eqb_neq _ 0)) by lia. by wp_steps.
Qed.
Lemma reads_in_chain n who : reads n (in_chain who).
Proof. apply reads_wp. intros s I. by apply (wp_in_chain s n); [apply I|..]. Qed.

Lemma reads_count n idx : reads n (count_behind idx).
Proof.
  apply reads_wp. intros s I. unfold count_behind, dcc_of. wp_steps. apply (wp_findbot s n); [apply I|].
  intros p [[-> Hn]|(b & Hb & Ef & ->)].
  - done.
  - wp_step. apply (wp_bots_in_subtree s n); [apply I|done|]. wp_step. apply (wp_users_in_subtree s n); [apply I|done|]. by wp_steps.
Qed.
#[export] Hint Resolve reads_nextbot reads_lastbot reads_in_chain reads_count : net.

Lemma reads_dcc_of n i : reads n (dcc_of i).
Proof. apply reads_bind; auto with net. Qed.
Lemma reads_getparty n b k : reads n (getparty b k).
Proof. apply reads_bind; auto with net. Qed.
Lemma reads_partysock n b k : reads n (partysock b k).
Proof. apply reads_bind; auto with net. Qed.
#[export] Hint Resolve reads_dcc_of reads_getparty reads_partysock : net.
#[export] Hint Resolve safe_reads safe_emits : net.

(** ** Writes *)

Lemma safe_skip n : safe n n skip.
Proof. intros s I. done. Qed.
#[export] Hint Resolve safe_skip : net.

Lemma safe_update_party n f g : (forall p, p_bot (g p) = p_bot p /\ p_sock (g p) = p_sock p) -> safe n n (update_party f g).
Proof.
  intros Hg s [I1 I2 I3 I4 I5]. apply net_upd. set (h := fun p => if f p then g p else p).
  assert (Hh : forall p, p_bot (h p) = p_bot p /\ p_sock (h p) = p_sock p) by (intros p; unfold h; by destruct (f p)).
  split; cbn [party party_size dcc tandbot set_party].
  - by apply (net_ok_core s).
  - done.
  - rewrite map_map, (map_ext _ member_key); [done|]. intros p. unfold member_key. destruct (Hh p) as [E1 E2]. fold (h p). by rewrite E1, E2.
  - by rewrite length_map.
  - apply List.Forall_forall. intros p (q & <- & Hq)%in_map_iff. rewrite List.Forall_forall in I5. destruct (Hh q) as [E1 _].
    fold (h q). rewrite E1. by apply I5.
Qed.

Lemma safe_partystat n b k x y : safe n n (partystat b k x y).
Proof. by apply safe_update_party. Qed.
Lemma safe_partysetidle n b k x : safe n n (partysetidle b k x).
Proof. apply (safe_bind n n); [auto with net|]. intros t. by apply safe_update_party. Qed.
Lemma safe_partyaway n b k m : safe n n (partyaway b k m).
Proof. by apply safe_update_party. Qed.
Lemma safe_partyidle n b k : safe n n (partyidle b k).
Proof.
  apply (safe_bind n n); [auto with net|]. intros t. apply (safe_bind n n); [auto with net|]. intros l.
  apply (safe_bind n n); [by apply safe_update_party|]. auto with net.
Qed.
#[export] Hint Resolve safe_partystat safe_partysetidle safe_partyaway safe_partyidle : net.

(** One row is replaced by another for the same person. *)
Lemma inv_party_set s n i p q : net_inv s n -> party s !! i = Some p -> p_bot q = p_bot p -> p_sock q = p_sock p ->
  net_inv (set_party (<[i := q]> (party s)) (party_size s) s) n.
Proof.
  intros [I1 I2 I3 I4 I5] Hp Eb Es. split; cbn [party party_size dcc tandbot set_party].
  - by apply (net_ok_core s).
  - done.
  - replace (map member_key (<[i := q]> (party s))) with (map member_key (party s)); [done|].
    change (map member_key) with (fmap (M := list) member_key). rewrite list_fmap_insert. symmetry. apply list_insert_id.
    rewrite list_lookup_fmap, Hp. cbn. unfold member_key. by rewrite <- Eb, <- Es.
  - by rewrite length_insert.
  - apply Forall_insert; [done|]. rewrite Eb. rewrite List.Forall_forall in I5. apply I5.
    by eapply list_elem_of_In, list_elem_of_lookup_2.
Qed.

Lemma index_from_spec f l : forall k, 0 <= k -> (index_from f l k = -1 /\ forall p, In p l -> f p = false) \/
  exists p, k <= index_from f l k /\ l !! Z.to_nat (index_from f l k - k) = Some p /\ f p = true.
Proof.
  induction l as [|p l IH]; intros k Hk; [by left|]. cbn [index_from]. destruct (f p) eqn:E.
  - right. exists p. split; [lia|]. split; [|done]. by rewrite Z.sub_diag.
  - destruct (IH (k + 1)) as [[-> Hn]|(q & H1 & H2 & H3)]; [lia|left; split; [done|intros q [<-|Hq]; auto]|]. right. exists q. split; [lia|].
    split; [|done]. replace (Z.to_nat (index_from f l (k + 1) - k)) with (S (Z.to_nat (index_from f l (k + 1) - (k + 1)))) by lia. done.
Qed.

Lemma wp_getparty s b k (Q : Z -> net -> Prop) :
  (forall i, (i = -1 /\ forall p, In p (party s) -> is_member b k p = false) \/
             (exists p, 0 <= i /\ party s !! Z.to_nat i = Some p /\ party_at (party s) i = p /\ is_member b k p = true) -> Q i s) ->
  wp (getparty b k) s Q.
Proof.
  intros HQ. apply net_bind, wp_get, net_ret, HQ.
  destruct (index_from_spec (is_member b k) (party s) 0) as [?|(p & H1 & H2 & H3)]; [done|by left|]. right. exists p.
  rewrite Z.sub_0_r in H2. split; [lia|]. split; [done|]. split; [|done]. unfold party_at. rewrite nth_lookup. by rewrite H2.
Qed.

Lemma safe_partynick n b k nick : safe n n (partynick b k nick).
Proof.
  intros s I. unfold partynick. wp_steps. apply wp_getparty. intros i Hi.
  destruct (Z.leb_spec 0 i); [|by wp_steps]. destruct Hi as [[-> _]|(p & _ & Hp & -> & _)]; [lia|].
  wp_steps. by apply (inv_party_set s n (Z.to_nat i) p).
Qed.

Lemma safe_remparty n b k : safe n n (remparty b k).
Proof.
  intros s I. apply net_upd.
  destruct (remparty_loop_spec b k (length (party s)) 0 (party s)) as (_ & _ & _ & _ & Hs); [lia|lia|].
  apply (inv_removed s n); try done. by apply (net_ok_core s), I.
Qed.
#[export] Hint Resolve safe_partynick safe_remparty : net.

(** [addparty], for a bot that is linked. *)
Lemma safe_addparty n bot0 nick chan flag sock from s : net_inv s n -> 0 <= n < 2 ^ 29 ->
  (exists b, In b (tandbot s) /\ same_name bot0 (bot b) = true) ->
  wp (addparty bot0 nick chan flag sock from) s (fun _ s' => net_inv s' (n + 1)).
Proof.
  intros I Hn (b & Hb & Es). unfold addparty. wp_steps. apply wp_getparty. intros i Hi.
  assert (Hlen : op_strlcpy bot0 (HANDLEN + 1) = bot0).
  { apply strlcpy_short. pose proof (lo_text _ _ _ (no_list s n (ni_ok _ _ I))) as H. rewrite List.Forall_forall in H.
    destruct (H b Hb) as (_ & H1 & _). apply same_name_eq, (f_equal length) in Es. rewrite !length_map in Es. rewrite Es. lia. }
  destruct (Z.leb_spec 0 i); wp_steps.
  - destruct Hi as [[-> _]|(p & _ & Hp & -> & _)]; [lia|]. apply (inv_weaken _ n); [lia|].
    by apply (inv_party_set s n (Z.to_nat i) p).
  - destruct Hi as [[-> Hnew]|(p & ? & _)]; [|lia]. apply (inv_weaken _ n (n + 1)) in I as I'; [|lia].
    destruct I as [I1 I2 I3 [I4 I4'] I5]. split; cbn [party party_size dcc tandbot set_party].
    + apply (net_ok_core s); [done|apply I'].
    + done.
    + rewrite map_app. apply NoDup_app. split; [done|]. split; [|apply NoDup_singleton].
      intros k Hk [<-|[]]%list_elem_of_In. apply list_elem_of_In, in_map_iff in Hk as (p & E & Hp). unfold member_key in E. cbn in E.
      rewrite Hlen in E. injection E as E1 E2. specialize (Hnew p Hp). unfold is_member, on_bot in Hnew.
      by rewrite (proj2 (same_name_eq _ _) E1), E2, Z.eqb_refl in Hnew.
    + rewrite length_app. cbn [length]. destruct (Z.eqb_spec (party_size s) 0); [lia|].
      destruct (Z.eqb_spec (Z.of_nat (length (party s))) (party_size s)); [|lia].
      rewrite Z.shiftl_mul_pow2, i32_small by lia. lia.
    + apply Forall_app. split; [done|]. repeat constructor. exists b. split; [done|]. cbn. by rewrite Hlen.
Qed.

Lemma safe_dcc_set n i f : (forall d, dcc_ok d -> dcc_ok (f d)) -> safe n n (dcc_set i f).
Proof.
  intros Hf s [I1 I2 I3 I4 I5]. apply net_upd. split; cbn [party party_size dcc tandbot set_dcc]; try done.
  - by apply (net_ok_core s).
  - apply Forall_alter; [done|]. intros d Hd Ho. by apply Hf.
Qed.

Lemma safe_status n i g : safe n n (dcc_set i (set_dstatus g)).
Proof. by apply safe_dcc_set. Qed.
#[export] Hint Resolve safe_status : net.

Lemma emits_text idx t : emits (text idx t).
Proof. apply emits_emit. Qed.
Lemma emits_killsock idx : emits (killsock idx).
Proof. apply emits_emit. Qed.
#[export] Hint Resolve emits_text emits_killsock : sends.

Lemma safe_fakes n f : (forall s, exists a b, f s = set_fakes a b s) -> safe n n (upd f).
Proof. intros Hf s I. apply net_upd. destruct (Hf s) as (a & b & ->). by apply (inv_frame s). Qed.

(** Takes a program apart into steps that are known to keep the invariant. *)
Ltac safe_auto :=
  repeat first
    [ match goal with |- forall _, _ => intro end
    | progress cbv zeta
    | solve [eauto with net]
    | solve [apply safe_emits; eauto with sends]
    | match goal with |- safe _ _ (run_when _ _) => apply safe_when end
    | match goal with |- safe _ _ (match ?x with _ => _ end) => destruct x end
    | match goal with |- safe _ _ (if ?x then _ else _) => destruct x end
    | match goal with |- safe ?n _ (_ ≫= _) => apply (safe_bind n n) end ].

(** Nodes are changed without their names and links. *)
Definition same_links (f : tand_t -> tand_t) : Prop :=
  forall b, t_ptr (f b) = t_ptr b /\ bot (f b) = bot b /\ via (f b) = via b /\ uplink (f b) = uplink b.

Lemma ordered_map f l : same_links f -> forall pre, ordered_from pre l -> ordered_from (map f pre) (map f l).
Proof.
  intros Hf. induction l as [|b l IH]; intros pre; [done|]. cbn [ordered_from map]. intros [Lb O]. split.
  - destruct (Hf b) as (E1 & _ & E3 & E4). destruct Lb as [[? ?]|(p & Hp & ? & ?)]; [left; by rewrite E1, E3, E4|].
    right. exists (f p). destruct (Hf p) as (F1 & _ & F3 & _). rewrite E3, E4, F1, F3. split; [by apply in_map|done].
  - specialize (IH (pre ++ [b]) O). by rewrite map_app in IH.
Qed.

Lemma list_ok_map f l next me : same_links f -> list_ok l next me -> list_ok (map f l) next me.
Proof.
  intros Hf [H1 H2 H3 H4 H5].
  assert (E1 : map t_ptr (map f l) = map t_ptr l) by (rewrite map_map; apply map_ext; intros b; apply Hf).
  assert (E2 : map fold_of (map f l) = map fold_of l).
  { rewrite map_map. apply map_ext. intros b. unfold fold_of. destruct (Hf b) as (_ & -> & _). done. }
  split; [by rewrite E1| |by rewrite E2| |].
  - apply Forall_map. eapply Forall_impl; [exact H2|]. intros b. by destruct (Hf b) as (-> & _).
  - apply Forall_map. eapply Forall_impl; [exact H4|]. intros b. cbn. unfold fold_of. by destruct (Hf b) as (_ & -> & _).
  - by apply (ordered_map f l Hf []).
Qed.

Lemma update_node_map p f l : same_links f -> exists g, same_links g /\ update_node p f l = map g l.
Proof. intros Hf. eexists. split; [|done]. intros b. cbv beta. by destruct (t_ptr b =? p). Qed.

Lemma inv_update s n p f : same_links f -> net_inv s n ->
  net_inv (set_bots (update_node p f (tandbot s)) (bot_table s) (tands s) s) n /\
  map t_ptr (update_node p f (tandbot s)) = map t_ptr (tandbot s).
Proof.
  intros Hf [[L T A Ht Hx Hm] I2 I3 I4 I5]. destruct (update_node_map p f (tandbot s) Hf) as (g & Hg & ->). split.
  - split; cbn [party party_size dcc tandbot set_bots]; try done.
    + split; cbn [tandbot bot_table fresh botnetnick tands set_bots]; try done.
      * by apply list_ok_map.
      * rewrite A. unfold index_of. f_equal. rewrite map_map. apply map_ext. intros b. unfold fold_of. by destruct (Hg b) as (-> & -> & _).
      * by rewrite length_map.
    + eapply Forall_impl; [exact I5|]. intros p0 (b & Hb & E). exists (g b). destruct (Hg b) as (_ & -> & _). split; [by apply in_map|done].
  - rewrite map_map. apply map_ext. intros b. apply Hg.
Qed.

Lemma wp_load_ptr s n p (Q : tand_t -> net -> Prop) : net_ok s n -> In p (map t_ptr (tandbot s)) -> (forall b, In b (tandbot s) -> t_ptr b = p -> Q b s) ->
  wp (load p) s Q.
Proof. intros I (b & <- & Hb)%in_map_iff HQ. apply (net_load s n); [done|done|by apply HQ]. Qed.

Lemma net_store s n p f (Q : unit -> net -> Prop) : net_inv s n -> same_links f -> In p (map t_ptr (tandbot s)) ->
  (forall s', net_inv s' n -> map t_ptr (tandbot s') = map t_ptr (tandbot s) -> Q tt s') -> wp (store p f) s Q.
Proof.
  intros I Hf Hp HQ. unfold store. wp_step. apply (wp_load_ptr s n); [apply I|done|]. intros b _ _. wp_steps.
  destruct (inv_update s n p f Hf I) as [I' E]. by apply HQ.
Qed.

Lemma safe_updatebot n idx who c v : safe n n (updatebot idx who c v).
Proof.
  intros s I. unfold updatebot. wp_step. apply (wp_findbot s n); [apply I|]. intros p Hp.
  destruct (Z.eqb_spec p 0) as [->|Hz]; [by wp_steps|].
  assert (Hi : In p (map t_ptr (tandbot s))) by (destruct Hp as [[? _]|(b & Hb & _ & ->)]; [done|by apply in_map]).
  assert (Hsend : forall s', net_inv s' n -> map t_ptr (tandbot s') = map t_ptr (tandbot s) ->
            wp (botnet_send_update idx p) s' (fun _ s'' => net_inv s'' n)).
  { intros s' I' E. unfold botnet_send_update, if_linked. wp_steps. apply wp_run_when; intros _; [|done]. wp_step.
    apply (wp_load_ptr s' n); [apply I'|by rewrite E|]. intros b _ _. apply wp_emits; [auto with sends|]. intros _ e. by apply inv_out. }
  assert (Hver : forall s', net_inv s' n -> map t_ptr (tandbot s') = map t_ptr (tandbot s) ->
            wp (run_when (negb (v =? 0)) (store p (set_ver v)) ≫= fun _ => botnet_send_update idx p) s' (fun _ s'' => net_inv s'' n)).
  { intros s' I' E. wp_step. apply wp_run_when; intros _; [|by apply Hsend].
    apply (net_store s' n); [done|done|by rewrite E|]. intros s2 I2 E2. apply Hsend; [done|by rewrite E2]. }
  wp_step. apply wp_run_when; intros _; [|by apply Hver]. apply (net_store s n); [done|done|done|]. intros s1 I1 E1. by apply Hver.
Qed.
#[export] Hint Resolve safe_updatebot : net.

Lemma wp_dump_bots z n l : forall s, net_ok s n -> (forall b, In b l -> In b (tandbot s)) ->
  wp (dump_bots z l) s (fun _ s' => exists e, s' = add_out e s).
Proof.
  induction l as [|b l IH]; intros s I Hl; cbn [dump_bots]; [exists []; by rewrite add_out_nil|].
  assert (Hb : In b (tandbot s)) by (apply Hl; by left).
  assert (Hgo : forall p, wp (emit (Dprint z (nlinked_line (bot b) p (share b) (ver b))) ≫= fun _ => dump_bots z l) s (fun _ s' => exists e, s' = add_out e s)).
  { intros p. wp_steps. eapply net_mono; [apply IH|].
    - by apply (net_ok_core s).
    - intros c Hc. apply Hl. by right.
    - intros _ s' [e ->]. eexists. by rewrite add_out_out. }
  wp_step. unfold uplink_name. destruct (Z.eqb_spec (uplink b) 1) as [E|E]; [wp_steps; apply Hgo|]. wp_step.
  destruct (parent_of _ b (lo_tree _ _ _ (no_list s n I)) Hb) as [?|(q & Hq & ->)]; [done|].
  apply (net_load s n); [done|done|]. wp_steps. apply Hgo.
Qed.

Lemma wp_dump_links z n s (Q : unit -> net -> Prop) : net_ok s n -> (forall e, Q tt (add_out e s)) -> wp (dump_links z) s Q.
Proof.
  intros I HQ. unfold dump_links. wp_steps. eapply net_mono; [by apply (wp_dump_bots z n)|]. intros _ s1 [e ->]. wp_steps.
  apply wp_run_when; intros _; [|apply HQ]. wp_steps. rewrite add_out_out. apply HQ.
Qed.
