(* ===== verification/BotnetHandlers.v ===== *)
(** * The bot network: the handlers keep the invariant

    Every command of a linked bot, and every end of a connection, ends well in [net_inv] and
    leaves it true ([safe]). *)

From stdpp Require Import gmap list.
From S2P Require Import Htab HtabRing HtabMap Prelude LibC Wildcard Match Strings FlagDefs Base64 Botnet BotnetTree.
From S2P Require Import BotnetSpec BotnetUnlink Botcmd BotnetSafe.
#[local] Open Scope Z_scope.

Section Handlers.
Context (users : list Z -> option Z) (lang : Z -> list Z).

Lemma safe_fake_alert n idx item extra : safe n n (fake_alert lang idx item extra).
Proof. unfold fake_alert. safe_auto. apply safe_fakes. intros s. by eexists _, _. Qed.
Hint Resolve safe_fake_alert : net.

Lemma safe_from_idx n idx who m : safe n n m -> safe n n (from_idx lang idx who m).
Proof. intros Hm. unfold from_idx. safe_auto. Qed.
Lemma safe_unless_isolated n idx m : safe n n m -> safe n n (unless_isolated idx m).
Proof. intros Hm. unfold unless_isolated. safe_auto. Qed.

Lemma safe_unlink n who : safe n n (p ← findbot who; unvia users p ≫= fun _ => rembot users who).
Proof.
  intros s I. wp_step. apply (wp_findbot s n); [apply I|]. intros p Hp.
  apply (wp_unlink_found users s n who p); [apply I|done|]. intros s' l' gone U Hc. by apply (inv_unlinked s n l' gone).
Qed.

Lemma safe_free n d : safe n n (free_dcc_bot_ users d).
Proof. apply safe_when, safe_unlink. Qed.

Lemma safe_lostdcc n i : safe n n (lostdcc users i).
Proof.
  pose proof (safe_free n). unfold lostdcc. safe_auto. apply safe_dcc_set.
  intros d _ [?|?]; done.
Qed.
Lemma safe_close_link n i : safe n n (close_link users i).
Proof. unfold close_link. safe_auto. apply safe_lostdcc. Qed.
Hint Resolve safe_close_link : net.
Hint Resolve safe_from_idx safe_unless_isolated safe_unlink : net.

(** *** The handlers *)

Lemma sends_linked idx t iso : emits (if_linked (send_tand_but idx t iso)).
Proof. auto with sends. Qed.
Lemma sends_chan idx b u c d : emits (botnet_send_chan idx b u c d).
Proof. unfold botnet_send_chan. auto with sends. Qed.
Lemma sends_act idx b u c d : emits (botnet_send_act idx b u c d).
Proof. unfold botnet_send_act. auto with sends. Qed.
Hint Resolve sends_chan sends_act : sends.

Lemma safe_chan2 n idx msg : safe n n (bot_chan2 lang idx msg).
Proof. unfold bot_chan2. apply safe_unless_isolated. safe_auto. all: apply safe_from_idx; safe_auto. Qed.
Lemma safe_chat n idx par : safe n n (bot_chat lang idx par).
Proof. unfold bot_chat, botnet_send_chat. apply safe_unless_isolated. safe_auto. apply safe_from_idx. safe_auto. Qed.
Lemma safe_actchan n idx par : safe n n (bot_actchan lang idx par).
Proof. unfold bot_actchan. apply safe_unless_isolated. safe_auto. apply safe_from_idx. safe_auto. Qed.
Lemma safe_update n idx par : safe n n (bot_update idx par).
Proof. unfold bot_update. safe_auto. Qed.
Lemma safe_unlinked n idx par : safe n n (bot_unlinked users lang idx par).
Proof. unfold bot_unlinked. safe_auto. Qed.
Hint Resolve send_unlinked_emits : sends.
Lemma safe_bye n idx par : safe n n (bot_bye users lang idx par).
Proof. unfold bot_bye. safe_auto. Qed.
Lemma safe_eof n idx : safe n n (eof_dcc_bot users idx).
Proof. unfold eof_dcc_bot. safe_auto. Qed.
Lemma safe_zapfbot n idx : safe n n (zapfbot users lang idx).
Proof. unfold zapfbot. safe_auto. Qed.

Lemma safe_unvia_then n who (m : M unit) : safe n n m -> safe n n (p ← findbot who; unvia users p ≫= fun _ => m).
Proof.
  intros Hm s I. wp_step. apply (wp_findbot s n); [apply I|]. intros p Hp. wp_step.
  apply (wp_unvia_found users s n who p); [apply I|done|]. intros s' l' gone U Hc. apply Hm. by apply (inv_unlinked s n l' gone).
Qed.

(** The new spelling of a name is as long as the old one. *)
Lemma dcc_ok_nick par d : same_name par (d_nick d) = true -> dcc_ok d -> dcc_ok (set_dnick (op_strlcpy par (HANDLEN + 1)) d).
Proof.
  intros E%same_name_eq Hd Ht. destruct (Hd Ht) as [H1 H2]. cbn. apply (f_equal length) in E. rewrite !length_map in E.
  rewrite strlcpy_short by lia. rewrite E. split; [|done]. intros ->. by destruct (d_nick d).
Qed.

Lemma safe_thisbot n idx par : safe n n (bot_thisbot users lang idx par).
Proof.
  intros s I. unfold bot_thisbot. wp_step. unfold dcc_of. wp_steps. set (d := dcc_at (dcc s) idx).
  destruct (same_name par (d_nick d)) eqn:E; cbn [negb].
  2:{ refine ((_ : safe n n _) s I). pose proof (safe_unvia_then n (d_nick d) (close_link users idx) (safe_close_link n idx)). safe_auto. }
  assert (Hgo : forall s1, net_inv s1 n -> d_nick (dcc_at (dcc s1) idx) = d_nick d ->
    wp (emit (ChangeHandle idx par) ≫= fun _ => dcc_set idx (set_dnick (op_strlcpy par (HANDLEN + 1)))) s1 (fun _ s' => net_inv s' n)).
  { intros s1 [A1 A2 A3 A4 A5] E1. wp_steps. apply net_upd. split; cbn [party party_size dcc tandbot set_dcc add_out]; try done.
    - by apply (net_ok_core s1).
    - apply Forall_alter; [done|]. intros d' Hd Ho. apply dcc_ok_nick; [|done].
      unfold dcc_at in E1. rewrite nth_lookup, Hd in E1. cbn in E1. by rewrite E1. }
  wp_step. apply wp_run_when; intros _; [|by apply Hgo]. apply net_upd. apply Hgo.
  - by apply (safe_status n idx (fun st => st ||| STAT_LEAF) s).
  - cbn [dcc set_dcc]. unfold d, dcc_at. rewrite !nth_lookup, list_lookup_alter_eq. by destruct (dcc s !! Z.to_nat idx).
Qed.

Lemma safe_nickchange n idx par : safe n n (bot_nickchange lang idx par).
Proof. unfold bot_nickchange. apply safe_unless_isolated. safe_auto. apply safe_from_idx. unfold botnet_send_nkch_part, iso_all. safe_auto. Qed.
Lemma sends_tell idx c t : emits (tell idx c t).
Proof. unfold tell, dcc_of. emits_auto. Qed.
Lemma sends_touch nick b : emits (touch_user users nick b).
Proof. unfold touch_user. auto with sends. Qed.
Lemma sends_part_party idx i r x : emits (botnet_send_part_party idx i r x).
Proof. unfold botnet_send_part_party, iso_all. emits_auto. Qed.
Lemma sends_away idx b k m x : emits (botnet_send_away idx b k m x).
Proof. unfold botnet_send_away, iso_all. auto with sends. Qed.
Lemma sends_idle idx b k m x : emits (botnet_send_idle idx b k m x).
Proof. unfold botnet_send_idle, iso_all. auto with sends. Qed.
Lemma sends_join_party idx l i : emits (botnet_send_join_party idx l i).
Proof. unfold botnet_send_join_party, iso_all. emits_auto. Qed.
Hint Resolve sends_tell sends_touch sends_part_party sends_away sends_idle sends_join_party : sends.

Lemma safe_part n idx par : safe n n (bot_part users lang idx par).
Proof. unfold bot_part. apply safe_unless_isolated. unfold parted. safe_auto. Qed.
Lemma safe_away n idx par : safe n n (bot_away lang idx par).
Proof. unfold bot_away. apply safe_unless_isolated. unfold away_change. safe_auto. Qed.
Lemma safe_idle n idx par : safe n n (bot_idle idx par).
Proof. unfold bot_idle. apply safe_unless_isolated. safe_auto. Qed.
Lemma safe_trace n idx par : safe n n (bot_trace idx par).
Proof. unfold bot_trace, botnet_send_trace, botnet_send_traced. safe_auto. Qed.
Lemma safe_zapf n idx par : safe n n (bot_zapf lang idx par).
Proof. unfold bot_zapf. safe_auto. apply safe_from_idx. unfold botnet_send_zapf. safe_auto. Qed.
Lemma safe_zapfbroad n idx par : safe n n (bot_zapfbroad lang idx par).
Proof. unfold bot_zapfbroad. safe_auto. apply safe_from_idx. unfold botnet_send_zapf_broad. safe_auto. Qed.
Lemma safe_filereject n idx par : safe n n (bot_filereject lang idx par).
Proof.
  unfold bot_filereject, botnet_send_filereject. safe_auto. apply safe_emits, emits_upd. intros s. by eexists.
Qed.

(** What is before the colon fits into the buffer. *)
Definition traced_fits (par : list Z) : Prop :=
  let to := fst (newsplit par) in
  let user := match user_bot to with Some (u, _) => u | None => to end in
  Z.of_nat (length (fst (splitc user (ch ":")))) < SS_SIZE.
Lemma safe_traced n idx par : traced_fits par -> safe n n (bot_traced lang idx par).
Proof.
  unfold traced_fits, bot_traced. destruct (newsplit par) as [to par']. cbn [fst]. intros H.
  assert (Hhere : forall user, Z.of_nat (length (fst (splitc user (ch ":")))) < SS_SIZE -> safe n n (traced_here lang user par')).
  { intros user Hu. unfold traced_here. destruct (splitc user (ch ":")) as [ss to']. cbn [fst] in Hu.
    rewrite (proj2 (Z.leb_gt _ _)) by lia. safe_auto. apply safe_emits, emits_upd. intros s. by eexists. }
  unfold botnet_send_traced. destruct (user_bot to) as [[u b]|]; pose proof (Hhere _ H); safe_auto.
Qed.
(** *** Joins *)

Lemma newsplit_nil rest w r : newsplit rest = (w, r) -> w = [] -> r = [].
Proof.
  unfold newsplit. intros E ->.
  assert (H : forall s, match s with c :: _ => c <> ch " " | [] => True end -> forall o, find_delim (ch " ") s = ([], o) -> o = []).
  { intros [|c s] Hs o; cbn; [by intros [= <-]|]. rewrite (proj2 (Z.eqb_neq _ _)) by done. by destruct (find_delim (ch " ") s). }
  assert (Hk : match skip_while (Z.eqb (ch " ")) rest with c :: _ => c <> ch " " | [] => True end).
  { clear. induction rest as [|c s IH]; [done|]. cbn [skip_while]. destruct (Z.eqb_spec (ch " ") c); [done|congruence]. }
  destruct (find_delim _ _) as [w o] eqn:F. injection E as -> <-. by rewrite (H _ Hk o F).
Qed.

Lemma wp_from_idx n n' idx who m s : 0 <= idx -> n <= n' -> net_inv s n ->
  ((exists b, In b (tandbot s) /\ fold_of b = fold who) -> wp m s (fun _ s' => net_inv s' n')) ->
  wp (from_idx lang idx who m) s (fun _ s' => net_inv s' n').
Proof.
  intros Hi Hn I Hm. unfold from_idx. wp_step. apply (wp_nextbot s n); [apply I|]. intros i Hr.
  destruct (Z.eqb_spec i idx) as [->|_]; cbn [negb].
  - apply Hm. destruct Hr as [?|(b & _ & _ & Hb & Ef & _)]; [lia|by exists b].
  - exact (safe_weaken n n n' _ Hn (safe_fake_alert n idx _ who) s I).
Qed.

(** The name of the bot in a join. *)
Definition join_bot (par : list Z) : list Z := snd (take_bang (fst (newsplit par))).

Lemma safe_joined n idx linking b nick chan flag sock from s : net_inv s n -> 0 <= n < 2 ^ 29 ->
  (exists c, In c (tandbot s) /\ same_name b (bot c) = true) ->
  wp (joined users lang idx linking b nick chan flag sock from) s (fun _ s' => net_inv s' (n + 1)).
Proof.
  intros I Hn Hb. unfold joined. wp_step. apply wp_emits; [auto with sends|]. intros _ e. wp_step.
  eapply net_mono; [apply (safe_addparty n); [by apply inv_out|done|done]|]. intros r s' I'. revert s' I'.
  match goal with |- forall s', _ -> wp ?m _ _ => change (safe (n + 1) (n + 1) m) end. safe_auto.
Qed.

Lemma same_name_sym a b : same_name a b = true -> same_name b a = true.
Proof. rewrite !same_name_eq. done. Qed.

Lemma safe_join n idx par : plain (join_bot par) -> 0 <= idx -> 0 <= n < 2 ^ 29 -> safe n (n + 1) (bot_join users lang idx par).
Proof.
  unfold join_bot, bot_join, unless_isolated. intros Hp Hi Hn.
  apply (safe_bind n n); [auto with net|]. intros d. destruct (negb _); [|apply (safe_weaken n n); [lia|apply safe_skip]].
  cbn [run_when]. apply (safe_bind n n); [auto with net|]. intros d'.
  destruct (newsplit par) as [bot0 par1]. cbn [fst] in Hp. destruct (take_bang bot0) as [linking bot1]. cbn [snd] in Hp.
  destruct (newsplit par1) as [nick par2]. destruct (newsplit par2) as [x par3]. destruct (newsplit par3) as [[|flag y] par4];
    [apply (safe_weaken n n); [lia|apply safe_skip]|].
  cbv zeta. destruct (base64_to_int x <? 0); [apply (safe_weaken n n); [lia|apply safe_skip]|].
  apply (safe_bind n n).
  - unfold member_sock. safe_auto. apply safe_fakes. intros s. by eexists _, _.
  - intros sock s I. apply (wp_from_idx n); [done|lia|done|]. intros (b & Hb & Ef). apply safe_joined; [done|done|].
    exists b. split; [done|]. apply same_name_sym, fold_plain; [done|]. done.
Qed.

(** *** New bots *)

Lemma text_nonempty (a b c : list Z) : b <> [] -> a ++ b ++ c <> [].
Proof. intros Hb. destruct a; [|done]. by destruct b. Qed.

Lemma wp_text {A} idx t (a : A) s (Q : A -> net -> Prop) : (forall e, Q a (add_out e s)) ->
  wp (text idx t ≫= fun _ => mret a) s Q.
Proof. intros H. apply H. Qed.

(** A new bot with a name of its own. *)
Definition name_free (s : net) (who : list Z) : Prop :=
  fold who <> fold (botnetnick s) /\ forall b, In b (tandbot s) -> fold_of b <> fold who.

Lemma wp_name_free s n who (Q : bool -> net -> Prop) : net_ok s n -> Q true s -> (name_free s who -> Q false s) -> wp (in_chain who) s Q.
Proof.
  intros I H1 H2. apply (wp_in_chain s n); [done|done|]. intros Hn. destruct (same_name who (botnetnick s)) eqn:E; [done|].
  apply H2. split; [|done]. intros Ef. by rewrite (fold_plain _ _ (no_me s n I) Ef) in E.
Qed.

Lemma wp_nlinked_error s n idx newbot next (Q : list Z -> net -> Prop) : net_ok s n ->
  (forall x e, x <> [] -> Q x (add_out e s)) -> (next <> [] -> name_free s newbot -> Q [] s) ->
  wp (nlinked_error lang idx newbot next) s Q.
Proof.
  intros I H1 H2. unfold nlinked_error, dcc_of. wp_steps. destruct next as [|c next].
  - apply wp_text. intros e. by apply H1, text_nonempty.
  - wp_step. apply (wp_name_free s n); [done| |]; cbn [orb].
    + apply wp_text. intros e. by apply H1, text_nonempty.
    + intros Hf. destruct (same_name newbot (botnetnick s)); [|by apply H2]. apply wp_text. intros e. by apply H1, text_nonempty.
Qed.

Lemma nextbot_reads s n who : net_ok s n -> exists i, nextbot who s = Ok (i, s).
Proof.
  intros I. assert (H : wp (nextbot who) s (fun _ s' => s' = s)) by by apply (wp_nextbot s n).
  unfold wp in H. destruct (nextbot who s) as [[i s']|e]; [subst s'; by exists i|done].
Qed.

Lemma wp_nlinked_bogus s n idx newbot next x (Q : list Z -> net -> Prop) : net_ok s n ->
  (forall y e, y <> [] -> Q y (add_out e s)) -> (x = [] -> bogus_name newbot = false -> nextbot next s = Ok (idx, s) -> Q [] s) ->
  wp (nlinked_bogus lang idx newbot next x) s Q.
Proof.
  intros I H1 H2. unfold nlinked_bogus, dcc_of. destruct x as [|c x].
  - wp_steps. destruct (nextbot_reads s n next I) as [j Ej]. unfold wp at 1. rewrite Ej. destruct (bogus_name newbot) eqn:Eb; cbn [orb].
    + apply wp_text. intros e. by apply H1, text_nonempty.
    + destruct (Z.eqb_spec j idx) as [->|_]; [by apply H2|]. apply wp_text. intros e. by apply H1, text_nonempty.
  - wp_step. rewrite <- (add_out_nil s). by apply H1.
Qed.

Lemma wp_nlinked_leaf s idx newbot x (Q : list Z -> net -> Prop) :
  (forall y e, y <> [] -> Q y (add_out e s)) -> (d_flags (dcc_at (dcc s) idx) &? BOT_LEAF = false -> Q x s) ->
  wp (nlinked_leaf lang idx newbot x) s Q.
Proof.
  intros H1 H2. unfold nlinked_leaf, dcc_of. wp_steps. destruct (_ &? _); [|by apply H2]. apply wp_text. intros e. by apply H1, text_nonempty.
Qed.

(** What [bot_nlinked] has made sure of when it adds the bot. *)
Definition new_behind (s : net) (idx : Z) (newbot next : list Z) : Prop :=
  next <> [] /\ name_free s newbot /\ bogus_name newbot = false /\ nextbot next s = Ok (idx, s) /\
  d_flags (dcc_at (dcc s) idx) &? BOT_LEAF = false.

Lemma wp_nlinked_checks s n idx newbot next (f : list Z -> M unit) (Q : unit -> net -> Prop) : net_ok s n ->
  (forall x e, x <> [] -> wp (f x) (add_out e s) Q) -> (new_behind s idx newbot next -> wp (f []) s Q) ->
  wp (x ← nlinked_error lang idx newbot next; x ← nlinked_bogus lang idx newbot next x; x ← nlinked_leaf lang idx newbot x; f x) s Q.
Proof.
  intros I H1 H2. assert (Hrest : forall x e, x <> [] -> wp (x ← nlinked_bogus lang idx newbot next x; x ← nlinked_leaf lang idx newbot x; f x) (add_out e s) Q).
  { intros x e Hx. wp_step. apply (wp_nlinked_bogus _ n); [by apply (net_ok_core s)| |done].
    intros y e' Hy. rewrite add_out_out. wp_step. apply wp_nlinked_leaf; [|intros _; by apply H1].
    intros z e2 Hz. rewrite add_out_out. by apply H1. }
  wp_step. apply (wp_nlinked_error s n); [done|done|]. intros Hn Hf. wp_step. apply (wp_nlinked_bogus s n); [done| |].
  - intros y e Hy. wp_step. apply wp_nlinked_leaf; [|intros _; by apply H1]. intros z e2 Hz. rewrite add_out_out. by apply H1.
  - intros _ Hb Hr. wp_step. apply wp_nlinked_leaf; [done|]. intros Hl. by apply H2.
Qed.

Lemma inv_added s n node s' : net_inv s n -> tandbot s' = tandbot s ++ [node] -> net_ok s' (n + 1) ->
  party s' = party s -> party_size s' = party_size s -> dcc s' = dcc s -> net_inv s' (n + 1).
Proof.
  intros [I1 I2 I3 I4 I5] Et I' Ep Ez Ed. split; [done|by rewrite Ed|by rewrite Ep|rewrite Ep, Ez; lia|].
  rewrite Ep, Et. eapply Forall_impl; [exact I5|]. intros p (b & Hb & E). exists b. split; [apply in_app_iff; by left|done].
Qed.

Lemma new_behind_reaches s n idx newbot next : net_ok s n -> 0 <= idx -> new_behind s idx newbot next ->
  exists v u, reaches s newbot (d_nick (dcc_at (dcc s) idx)) next v u.
Proof.
  intros I Hi (_ & _ & _ & En & _). assert (Hrt : route s next idx).
  { assert (H : wp (nextbot next) s (fun i _ => route s next i)) by (apply (wp_nextbot s n); auto). unfold wp in H. by rewrite En in H. }
  destruct Hrt as [?|(b & r & d & Hb & Ef & Hr & _ & Ev & Eb & _ & Hd & Es & _)]; [lia|].
  exists (t_ptr r), (t_ptr b). right. exists r, b. unfold dcc_at. rewrite nth_lookup, Hd. cbn [default].
  split; [done|]. split; [done|]. split; [by apply same_fold|]. done.
Qed.
Lemma reaches_core s e who from next v u : reaches s who from next v u -> reaches (add_out e s) who from next v u.
Proof. done. Qed.

Lemma bogus_length who : bogus_name who = false -> Z.of_nat (length who) <= HANDLEN.
Proof. unfold bogus_name. intros [_ H]%orb_false_iff. by apply Z.ltb_ge in H. Qed.

Lemma safe_addbot n who from next flag vernum sl v u (m : M unit) s : net_inv s n -> 0 <= n <= 2 ^ 50 ->
  who <> [] -> Z.of_nat (length who) <= HANDLEN -> name_free s who -> reaches s who from next v u -> safe (n + 1) (n + 1) m ->
  wp (addbot who from next flag vernum sl ≫= fun _ => m) s (fun _ s' => net_inv s' (n + 1)).
Proof.
  intros I Hn Hw Hl [Hme Hnew] Hr Hm. wp_step. apply (wp_addbot s n who from next flag vernum sl v u); try done; [apply I|].
  intros s' Et I' Ep Ez Ed _. apply Hm. by eapply (inv_added s n).
Qed.

Lemma safe_nlinked n idx par : 0 <= idx -> 0 <= n <= 2 ^ 50 -> safe n (n + 1) (bot_nlinked users lang idx par).
Proof.
  intros Hi Hn s I. unfold bot_nlinked. destruct (newsplit par) as [newbot par1] eqn:E1. destruct (newsplit par1) as [next par2] eqn:E2.
  unfold dcc_of at 1. do 6 wp_step. apply (wp_nlinked_checks s n); [apply I| |].
  - intros [|c x] e Hx; [done|].
    match goal with |- wp ?m _ _ => assert (H : safe n n m) by safe_auto end.
    apply (safe_weaken n n (n + 1) _ ltac:(lia) H). by apply inv_out.
  - intros Hb. pose proof (new_behind_reaches s n idx newbot next (ni_ok _ _ I) Hi Hb) as (v & u & Hr).
    destruct Hb as (Hnext & Hfree & Hbog & _).
    assert (Hne : newbot <> []).
    { intros ->. rewrite (newsplit_nil _ _ _ E1) in E2 by done. cbn in E2. by injection E2 as <- _. }
    assert (Hgo : forall x par3, wp (let i := base64_to_int par3 in
      botnet_send_nlinked idx newbot next x i ≫= fun _ =>
      addbot newbot (d_nick (dcc_at (dcc s) idx)) next (if x =? ch "!" then ch "-" else x) i (d_ssl (dcc_at (dcc s) idx)) ≫= fun _ =>
      emit (TclLink newbot next) ≫= fun _ =>
      run_when (match users newbot with Some f => f &? BOT_REJECT | None => false end)
        (botnet_send_reject idx (botnetnick s) None newbot None [])) s (fun _ s' => net_inv s' (n + 1))).
    { intros x par3. cbv zeta. wp_step. apply wp_emits; [auto with sends|]. intros _ e.
      apply (safe_addbot n _ _ _ _ _ _ v u); [by apply inv_out|done|done|by apply bogus_length|done|done|safe_auto]. }
    destruct par2 as [|x par3]; apply Hgo.
Qed.

Lemma net_dcc_set s n i f (Q : unit -> net -> Prop) : net_inv s n -> dcc_ok (f (dcc_at (dcc s) i)) ->
  (net_inv (set_dcc (alter f (Z.to_nat i) (dcc s)) s) n -> Q tt (set_dcc (alter f (Z.to_nat i) (dcc s)) s)) -> wp (dcc_set i f) s Q.
Proof.
  intros [I1 I2 I3 I4 I5] Hf HQ. apply net_upd, HQ. split; cbn [party party_size dcc tandbot set_dcc]; try done.
  - by apply (net_ok_core s).
  - apply Forall_alter; [done|]. intros d Hd _. unfold dcc_at in Hf. by rewrite nth_lookup, Hd in Hf.
Qed.

(** The name of a connection that is not closed. *)
Definition names (d : dcc_t) : Prop := d_nick d <> [] /\ Z.of_nat (length (d_nick d)) <= HANDLEN.

Lemma safe_version_linked n idx d numver s : net_inv s n -> 0 <= n <= 2 ^ 50 -> names d -> name_free s (d_nick d) ->
  d_nick (dcc_at (dcc s) idx) = d_nick d -> wp (version_linked idx d numver) s (fun _ s' => net_inv s' (n + 1)).
Proof.
  intros I Hn [Hw Hl] Hf Ed. unfold version_linked. wp_steps. apply wp_emits; [auto with sends|]. intros _ e1. wp_steps.
  rewrite add_out_out. apply (wp_dump_links idx n); [by apply (net_ok_core s), I|]. intros e2. rewrite add_out_out. wp_step.
  set (s1 := add_out _ s). assert (I1 : net_inv s1 n) by by apply inv_out.
  apply (net_dcc_set s1 n); [done|intros _; unfold s1; cbn [d_nick set_dtype dcc add_out]; by rewrite Ed|]. intros I2.
  apply (safe_addbot n _ _ _ _ _ _ (fresh s) 1); [done|done|done|done|done| |safe_auto].
  left. split; [done|]. split; [done|]. split; [done|]. apply same_name_refl.
Qed.
Lemma dcc_at_alter_nick f l i : (forall d, d_nick (f d) = d_nick d) -> d_nick (dcc_at (alter f (Z.to_nat i) l) i) = d_nick (dcc_at l i).
Proof. intros Hf. unfold dcc_at. rewrite !nth_lookup, list_lookup_alter_eq. destruct (l !! Z.to_nat i); [apply Hf|done]. Qed.

(** [bot_version] is for a connection whose name is known. *)
Lemma safe_version n idx par s : net_inv s n -> 0 <= n <= 2 ^ 50 -> names (dcc_at (dcc s) idx) ->
  wp (bot_version users idx par) s (fun _ s' => net_inv s' (n + 1)).
Proof.
  intros I Hn Hd. unfold bot_version, dcc_of. do 2 wp_step. wp_step. set (d := dcc_at (dcc s) idx) in *.
  apply (net_dcc_set s n); [done|by intros _|]. intros I1. set (s1 := set_dcc _ s) in *. wp_steps.
  set (d1 := dcc_at (dcc s1) idx). assert (Ed1 : d_nick d1 = d_nick d) by by apply dcc_at_alter_nick.
  assert (Hd1 : names d1) by (unfold names; by rewrite Ed1). apply (wp_name_free s1 n); [apply I1| |].
  - cbv beta iota. match goal with |- wp ?m _ _ => assert (H : safe n n m) by safe_auto end. apply (safe_weaken n n (n + 1) _ ltac:(lia) H s1 I1).
  - intros Hf. cbv beta iota. set (numver := fst _). set (l := egg_atoi _). unfold version_reply. do 3 wp_step. fold d1.
    apply (net_dcc_set s1 n); [done|by intros _|]. intros I2. set (s2 := set_dcc _ s1) in *.
    assert (Ed2 : d_nick (dcc_at (dcc s2) idx) = d_nick d1) by by apply dcc_at_alter_nick.
    wp_step. apply wp_emits; [auto with sends|]. intros _ e. destruct (negb (l =? HANDLEN)).
    + match goal with |- wp ?m _ _ => assert (H : safe n n m) by safe_auto end.
      apply (safe_weaken n n (n + 1) _ ltac:(lia) H). by apply inv_out.
    + apply (safe_version_linked n); [by apply inv_out|done|done|done|done].
Qed.
(** *** Files, users and modules *)

Lemma sends_priv idx f x b m : emits (botnet_send_priv idx f x b m).
Proof. apply emits_emit. Qed.
Hint Resolve sends_priv : sends.

Lemma safe_filereq n fs idx par : safe n n (bot_filereq lang fs idx par).
Proof. unfold bot_filereq, botnet_send_filereq. safe_auto. Qed.
Lemma safe_filesend n idx par : safe n n (bot_filesend idx par).
Proof. unfold bot_filesend, botnet_send_filesend. safe_auto. Qed.
Lemma safe_handshake n idx par : safe n n (bot_handshake idx par).
Proof. unfold bot_handshake. safe_auto. Qed.
Lemma safe_who n idx par : safe n n (bot_who idx par).
Proof. unfold bot_who, botnet_send_who. safe_auto. Qed.
Lemma emits_modules idx b f l : emits (tell_modules idx b f l).
Proof. induction l as [|m l IH]; cbn [tell_modules]; emits_auto. Qed.
Hint Resolve emits_modules : sends.
Lemma safe_versions n ms idx par : safe n n (bot_versions lang ms idx par).
Proof. unfold bot_versions. safe_auto. Qed.
Lemma safe_boot n bg idx b r : safe n n (do_boot users lang bg idx b r).
Proof. unfold do_boot, botnet_send_part_idx, iso_all. safe_auto. Qed.
Lemma safe_refused n rb idx from : safe n n (boot_refused users lang rb idx from).
Proof. unfold boot_refused. safe_auto. Qed.
Lemma safe_reject_bot n idx from who par : safe n n (reject_bot users lang idx from who par).
Proof. unfold reject_bot. safe_auto. Qed.
Hint Resolve safe_boot safe_refused safe_reject_bot : net.
Lemma safe_reject n rb bg ow idx par : safe n n (bot_reject users lang rb bg ow idx par).
Proof. unfold bot_reject. apply safe_unless_isolated. unfold reject_user. safe_auto. apply safe_from_idx. safe_auto. Qed.
End Handlers.
