(* ===== verification/BotnetLine.v ===== *)
(** * The bot network: lines and their commands (src/botcmd.c, src/dcc.c)

    The table of the commands ([C_bot]), the hash table over it, and a line of a linked bot
    ([dcc_bot]).  The handlers that are not modelled have no program. *)

From S2P Require Import Prelude LibC Match Strings FlagDefs Htab Base64 Botnet Botcmd.
#[local] Open Scope Z_scope.

(** What the handlers know of the rest of the program. *)
Record netconf := {
  c_users : list Z -> option Z;
  c_lang : Z -> list Z;
  share_unlinks : Z;
  remote_boots : Z;
  backgrd : bool;
  c_owner : list Z -> bool;
  c_filesys : bool;
  module_vec : list (list Z * Z * Z)
}.

Inductive IntFunc :=
| f_actchan | f_away_ | f_bye | f_chan2 | f_chat | f_error | f_endlink | f_filereject | f_filereq | f_filesend
| f_handshake | f_idle | f_infoq | f_join | f_link | f_motd | f_nlinked | f_nickchange | f_priv | f_ping | f_pong
| f_part | f_reject | f_share | f_starttls | f_trace | f_thisbot | f_traced | f_update | f_unlink | f_unlinked
| f_versions | f_who | f_zapf | f_zapfbroad.

Definition C_bot : list (list Z * IntFunc) :=
  [ (bs "a", f_actchan); (bs "aw", f_away_); (bs "away", f_away_); (bs "bye", f_bye); (bs "c", f_chan2); (bs "ct", f_chat);
    (bs "e", f_error); (bs "el", f_endlink); (bs "f!", f_filereject); (bs "fr", f_filereq); (bs "fs", f_filesend);
    (bs "h", f_handshake); (bs "i", f_idle); (bs "i?", f_infoq); (bs "j", f_join); (bs "l", f_link); (bs "m", f_motd);
    (bs "n", f_nlinked); (bs "nc", f_nickchange); (bs "p", f_priv); (bs "pi", f_ping); (bs "po", f_pong); (bs "pt", f_part);
    (bs "r", f_reject); (bs "s", f_share); (bs "starttls", f_starttls); (bs "t", f_trace); (bs "tb", f_thisbot);
    (bs "td", f_traced); (bs "u", f_update); (bs "ul", f_unlink); (bs "un", f_unlinked); (bs "v", f_versions);
    (bs "w", f_who); (bs "z", f_zapf); (bs "zb", f_zapfbroad) ].

(** A function is known by its place in the table, from 1. *)
Fixpoint botcmd_fill (l : list (list Z * IntFunc)) (i : Z) (t : op_htab istr_key) : result diverged (op_htab istr_key) :=
  match l with
  | [] => Ok t
  | (name, _) :: l => let! r := op_htab_set t (key_of_name name) i in botcmd_fill l (i + 1) (snd r)
  end.
Definition botcmd_init : result diverged (op_htab istr_key) := botcmd_fill C_bot 1 (op_htab_create 64).

Definition bot_fn (code : list Z) : result diverged (option IntFunc) :=
  let! t := botcmd_init in
  let! p := op_htab_get t (key_of_name code) in
  Ok (if p =? 0 then None else snd <$> C_bot !! Z.to_nat (p - 1)).

(** The program of a handler. *)
Definition bot_handler (c : netconf) (f : IntFunc) (idx : Z) (par : list Z) : option (M unit) :=
  let users := c_users c in let lang := c_lang c in
  match f with
  | f_actchan => Some (bot_actchan lang idx par)
  | f_away_ => Some (bot_away lang idx par)
  | f_bye => Some (bot_bye users lang idx par)
  | f_chan2 => Some (bot_chan2 lang idx par)
  | f_chat => Some (bot_chat lang idx par)
  | f_error => Some (bot_error idx par)
  | f_endlink => Some (bot_endlink idx)
  | f_filereject => Some (bot_filereject lang idx par)
  | f_filereq => Some (bot_filereq lang (c_filesys c) idx par)
  | f_filesend => Some (bot_filesend idx par)
  | f_handshake => Some (bot_handshake idx par)
  | f_idle => Some (bot_idle idx par)
  | f_join => Some (bot_join users lang idx par)
  | f_nlinked => Some (bot_nlinked users lang idx par)
  | f_nickchange => Some (bot_nickchange lang idx par)
  | f_ping => Some (bot_ping idx)
  | f_pong => Some (bot_pong idx)
  | f_part => Some (bot_part users lang idx par)
  | f_reject => Some (bot_reject users lang (remote_boots c) (backgrd c) (c_owner c) idx par)
  | f_share => Some (bot_share idx par)
  | f_trace => Some (bot_trace idx par)
  | f_thisbot => Some (bot_thisbot users lang idx par)
  | f_traced => Some (bot_traced lang idx par)
  | f_update => Some (bot_update idx par)
  | f_unlink => Some (bot_unlink users lang (share_unlinks c) idx par)
  | f_unlinked => Some (bot_unlinked users lang idx par)
  | f_versions => Some (bot_versions lang (module_vec c) idx par)
  | f_who => Some (bot_who idx par)
  | f_zapf => Some (bot_zapf lang idx par)
  | f_zapfbroad => Some (bot_zapfbroad lang idx par)
  | f_infoq | f_link | f_motd | f_priv | f_starttls => None
  end.

(** The command of a line, and what is after the first space. *)
Definition code_of (line : list Z) : list Z := fst (split_at (ch " ") line).
Definition msg_of (line : list Z) : list Z := match split_at (ch " ") line with (_, Some msg) => msg | (_, None) => [] end.
Definition dcc_bot (c : netconf) (idx : Z) (line : list Z) : M unit :=
  f ← lift (bot_fn (code_of line));
  match f with
  | None => skip
  | Some f => match bot_handler c f idx (msg_of line) with Some m => m | None => fail NotModelled end
  end.

Example dcc_bot_case : bot_fn (bs "NC") = Ok (Some f_nickchange) /\ bot_fn (bs "nope") = Ok None.
Proof. split; vm_compute; reflexivity. Qed.

(** ** What happens to the network *)

(** A line from a linked bot, a version line from a new one, the end of a connection to a bot,
    a new connection, the passing of time. *)
Inductive bop :=
| BotLine (idx : Z) (line : list Z)
| BotVersion (idx : Z) (par : list Z)
| BotEof (idx : Z)
| BotConn (d : dcc_t)
| BotTime (t : Z).

(** The functions of a connection are those of its type. *)
Definition on_type (idx : Z) (ty : dcc_type) (m : M unit) : M unit :=
  l ← get dcc;
  run_when ((0 <=? idx) && (idx <? Z.of_nat (length l)) && bool_decide (d_type (dcc_at l idx) = ty)) m.

Definition do_bop (c : netconf) (o : bop) : M unit :=
  match o with
  | BotLine idx line => on_type idx DCC_BOT (dcc_bot c idx line)
  | BotVersion idx par => on_type idx DCC_BOT_NEW (bot_version (c_users c) idx par)
  | BotEof idx => on_type idx DCC_BOT (eof_dcc_bot (c_users c) idx)
  | BotConn d => upd (fun s => set_dcc (dcc s ++ [d]) s)
  | BotTime t => upd (set_now t)
  end.
Fixpoint do_bops (c : netconf) (os : list bop) : M unit :=
  match os with [] => skip | o :: os => do_bop c o ≫= fun _ => do_bops c os end.

(** At the start. *)
Definition start_net (me : list Z) (t : Z) : net :=
  init_bots {| tandbot := []; bot_table := op_htab_create 32; tands := 0; party := []; party_size := 0; dcc := [];
               fakesock := 2300; lastfake := 0; now := t; botnetnick := me; fresh := 2; out := [] |}.
