(* ===== verification/BotnetProps.v ===== *)
(** * The bot network: the properties

    The network stays well formed whatever the linked bots send ([net_safe]); what an unlink
    takes away; the counts that are announced; the route to a bot; the table of commands; and
    the tree that a new neighbour is told. *)

From stdpp Require Import gmap list.
From S2P Require Import Htab HtabRing HtabMap Prelude LibC Match Strings FlagDefs Base64 Botnet BotnetTree.
From S2P Require Import BotnetSpec BotnetUnlink Botcmd BotnetSafe BotnetHandlers BotnetLine.
#[local] Open Scope Z_scope.

(** ** Safety *)

(** The handlers that are modelled, on messages without the faults shown below. *)
Definition cmd_ok (f : IntFunc) (msg : list Z) : Prop :=
  match f with
  | f_join => plain (join_bot msg)
  | f_traced => traced_fits msg
  | f_unlink | f_infoq | f_link | f_motd | f_priv | f_starttls => False
  | _ => True
  end.
Definition bop_ok (o : bop) : Prop :=
  match o with
  | BotLine _ line => match bot_fn (code_of line) with Ok (Some f) => cmd_ok f (msg_of line) | _ => True end
  | BotConn d => dcc_ok d
  | _ => True
  end.

Lemma safe_on_type n n' idx ty m : n <= n' ->
  (forall s, 0 <= idx -> net_inv s n -> In (dcc_at (dcc s) idx) (dcc s) -> d_type (dcc_at (dcc s) idx) = ty -> wp m s (fun _ s' => net_inv s' n')) ->
  safe n n' (on_type idx ty m).
Proof.
  intros Hn Hm s I. unfold on_type. wp_steps. apply wp_run_when.
  - intros [[H1 H2]%andb_true_iff H3%bool_decide_eq_true]%andb_true_iff. apply Hm; [lia|done| |done].
    apply Z.leb_le in H1. apply Z.ltb_lt in H2. apply nth_In. lia.
  - intros _. by apply (inv_weaken s n).
Qed.

Lemma safe_handler c n f idx par m : bot_handler c f idx par = Some m -> cmd_ok f par -> 0 <= idx -> 0 <= n < 2 ^ 29 -> safe n (n + 1) m.
Proof.
  intros E Hc Hi Hn. destruct f; cbn in E, Hc; try done; injection E as <-.
  all: lazymatch goal with
       | |- safe _ _ (bot_join _ _ _ _) => by apply safe_join
       | |- safe _ _ (bot_nlinked _ _ _ _) => apply safe_nlinked; lia
       | |- _ => apply (safe_weaken n n); [lia|]
       end.
  all: first [ apply safe_actchan | apply safe_away | apply safe_bye | apply safe_chan2 | apply safe_chat | apply safe_skip
    | apply safe_status | apply safe_filereject | apply safe_filereq | apply safe_filesend | apply safe_handshake | apply safe_idle
    | apply safe_nickchange | apply safe_emits, emits_emit | apply safe_part | apply safe_reject | apply safe_trace | apply safe_thisbot
    | by apply safe_traced | apply safe_update | apply safe_unlinked | apply safe_versions | apply safe_who | apply safe_zapf | apply safe_zapfbroad ].
Qed.

(** The table is filled, and looked up by name. *)
Definition named (k : list Z) (c : list Z * IntFunc) : bool := bool_decide (fold (fst c) = k).
Fixpoint cmd_pos (k : list Z) (l : list (list Z * IntFunc)) (i : Z) : option Z :=
  match l with [] => None | c :: l => if named k c then Some i else cmd_pos k l (i + 1) end.

Lemma cmd_pos_none k l : forall i, ~ In k (map (fold ∘ fst) l) -> cmd_pos k l i = None.
Proof.
  induction l as [|c l IH]; intros i Hk; [done|]. cbn in *. unfold named. rewrite bool_decide_false by tauto. apply IH. tauto.
Qed.
Lemma cmd_pos_find k l : forall i, match cmd_pos k l i with
  | Some p => i <= p /\ l !! Z.to_nat (p - i) = List.find (named k) l
  | None => List.find (named k) l = None
  end.
Proof.
  induction l as [|c l IH]; intros i; [done|]. cbn [cmd_pos List.find]. destruct (named k c); [by rewrite Z.sub_diag|].
  specialize (IH (i + 1)). destruct (cmd_pos k l (i + 1)) as [p|]; [|done]. destruct IH as [Hp <-]. split; [lia|].
  by replace (Z.to_nat (p - i)) with (S (Z.to_nat (p - (i + 1)))) by lia.
Qed.

Lemma botcmd_fill_spec l : forall i (t : op_htab istr_key) m, wf t -> small m t -> 0 <= m -> m + Z.of_nat (length l) <= 2 ^ 50 ->
  NoDup (map (fold ∘ fst) l) ->
  exists t', botcmd_fill l i t = Ok t' /\ wf t' /\
    forall k, (snd <$> abs t') !! k = match cmd_pos k l i with Some p => Some p | None => (snd <$> abs t) !! k end.
Proof.
  induction l as [|[name f] l IH]; intros i t m W S Hm Hl Hn; [by exists t|]. cbn [botcmd_fill length map] in *. apply NoDup_cons in Hn as [Hni Hn].
  destruct (htab_set_spec t (key_of_name name) i W) as (t1 & E & W1 & A1 & C1 & G1); [destruct S; lia|]. rewrite E.
  assert (S1 : small (m + 1) t1) by by apply (small_grown m t).
  destruct (IH (i + 1) t1 (m + 1)) as (t' & E' & W' & A'); [done|done|lia|lia|done|].
  exists t'. split; [by destruct (abs t !! norm (key_of_name name)) as [[k0 v]|]|]. split; [done|].
  intros k. rewrite A', A1, fmap_insert. cbn [cmd_pos snd]. unfold named. cbn [fst].
  change (norm (key_of_name name)) with (fold name). case_bool_decide as Hk.
  - subst k. rewrite cmd_pos_none by (by rewrite <- list_elem_of_In). by rewrite lookup_insert_eq.
  - by rewrite lookup_insert_ne.
Qed.

Lemma C_bot_names : NoDup (map (fold ∘ fst) C_bot).
Proof. apply (bool_decide_unpack _). vm_compute. exact I. Qed.

Lemma botcmd_init_ok : exists t, botcmd_init = Ok t /\ wf t /\ forall k, (snd <$> abs t) !! k = cmd_pos k C_bot 1.
Proof.
  destruct (create_spec (K := istr_key) 64) as (W & A & C & Hl); [lia|].
  destruct (botcmd_fill_spec C_bot 1 (op_htab_create 64) 0 W) as (t & E & W' & A'); [split; lia|done|by cbn; lia|apply C_bot_names|].
  exists t. split; [done|]. split; [done|]. intros k. rewrite A', A, fmap_empty, lookup_empty. by destruct (cmd_pos k C_bot 1).
Qed.

Lemma bot_fn_total code : exists o, bot_fn code = Ok o.
Proof.
  destruct botcmd_init_ok as (t & E & W & _). unfold bot_fn. rewrite E. cbn [rbind]. rewrite (htab_get_spec t _ W). cbn [rbind]. by eexists.
Qed.

(** A line runs the function that the command table has under its first word, without regard to case; other words are
    ignored: the hash table, which is filled once, answers as the table itself does. *)
Theorem bot_fn_table code : bot_fn code = Ok (snd <$> List.find (named (fold code)) C_bot).
Proof.
  destruct botcmd_init_ok as (t & E & W & A). unfold bot_fn. rewrite E. cbn [rbind]. rewrite (htab_get_spec t _ W). cbn [rbind].
  assert (Ev : value_at t (key_of_name code) = default 0 ((snd <$> abs t) !! fold code)).
  { rewrite lookup_fmap. unfold value_at. change (norm (key_of_name code)) with (fold code). by destruct (abs t !! fold code) as [[k v]|]. }
  rewrite Ev, A. pose proof (cmd_pos_find (fold code) C_bot 1) as H. destruct (cmd_pos (fold code) C_bot 1) as [p|].
  - destruct H as [Hp H]. change (default 0 (Some p)) with p. rewrite (proj2 (Z.eqb_neq p 0)) by lia. by rewrite <- H.
  - by rewrite H.
Qed.

(** ** The network is safe *)

Lemma safe_line c n idx line s : match bot_fn (code_of line) with Ok (Some f) => cmd_ok f (msg_of line) | _ => True end ->
  0 <= idx -> 0 <= n < 2 ^ 29 -> net_inv s n -> wp (dcc_bot c idx line) s (fun _ s' => net_inv s' (n + 1)).
Proof.
  intros Hc Hi Hn I. unfold dcc_bot. destruct (bot_fn_total (code_of line)) as [o E0]. rewrite E0 in *.
  assert (Hgo : wp (match o with None => skip | Some f => match bot_handler c f idx (msg_of line) with Some m => m | None => fail NotModelled end end)
    s (fun _ s' => net_inv s' (n + 1))); [|done].
  destruct o as [f|]; [|apply (inv_weaken s n); [lia|done]].
  destruct (bot_handler c f idx (msg_of line)) as [m|] eqn:E; [by apply (safe_handler c n f idx (msg_of line))|].
  by destruct f.
Qed.

Lemma safe_bop c n o : bop_ok o -> 0 <= n < 2 ^ 29 -> safe n (n + 1) (do_bop c o).
Proof.
  intros Ho Hn. destruct o as [idx line|idx par|idx|d|t]; cbn in Ho.
  - apply safe_on_type; [lia|]. intros s Hi I _ _. by apply safe_line.
  - apply safe_on_type; [lia|]. intros s Hi I Hd Ht. apply safe_version; [done|lia|].
    pose proof (ni_dcc _ _ I) as H. rewrite List.Forall_forall in H. apply (H _ Hd). by right.
  - apply safe_on_type; [lia|]. intros s Hi I _ _. apply (safe_weaken n n); [lia|apply safe_eof|done].
  - intros s [I1 I2 I3 I4 I5]. apply net_upd, (inv_weaken _ n); [lia|]. split; cbn [party party_size dcc tandbot set_dcc]; try done.
    + by apply (net_ok_core s).
    + apply Forall_app. split; [done|]. constructor; [exact Ho|constructor].
  - intros s I. apply net_upd, (inv_weaken _ n); [lia|]. by apply (inv_frame s).
Qed.

Lemma start_inv me t : plain me -> net_inv (start_net me t) 0.
Proof.
  intros Hm. destruct (create_spec (K := istr_key) 32) as (W & A & C & Hl); [lia|].
  split; cbn [start_net init_bots set_bots party dcc tandbot party_size map length].
  2-3, 5: by constructor.
  2: by split.
  split; cbn [start_net init_bots set_bots tandbot bot_table tands fresh botnetnick length].
  - split; by constructor.
  - split; [done|]. split; lia.
  - by rewrite A.
  - done.
  - done.
  - done.
Qed.

Lemma safe_bops c os : forall n, Forall bop_ok os -> 0 <= n -> n + Z.of_nat (length os) <= 2 ^ 29 ->
  safe n (n + Z.of_nat (length os)) (do_bops c os).
Proof.
  induction os as [|o os IH]; intros n Ho Hn Hl; cbn [do_bops length] in *; [rewrite Z.add_0_r; apply safe_skip|].
  apply Forall_cons in Ho as [Ho Hos]. apply (safe_bind n (n + 1)); [apply safe_bop; [done|lia]|].
  intros _. replace (n + Z.of_nat (S (length os))) with ((n + 1) + Z.of_nat (length os)) by lia. apply IH; done || lia.
Qed.

(** C4. Whatever lines the linked bots send, in whatever order, and whichever connections begin and end, as far as the
    conditions below hold: the program goes on without a fault (no freed node is used, no null pointer, no overflow, the
    table's loops end), and the tables stay right: the list is a tree in order whose index is the hash table, its names
    fold apart and differ from our own, and every person is there once and on a bot that is linked. The conditions: no
    line is one of [ul] (its handler [bot_unlink] is modelled, and can use a freed node: [BotnetTell.ghost_freed]) or of
    the handlers that are not modelled (infoq, link, motd, priv, starttls); our own name and the bot named in a join
    have none of the characters that the two foldings treat differently (brackets, backslash, caret, braces, bar and
    tilde: compare [BotnetTell.party_ghost]); what a trace's answer has before its colon fits into its buffer (compare
    [BotnetTell.traced_overflow]); a connection to a bot has a name that is not empty and has at most HANDLEN bytes; and
    there are at most 2^29 events. *)
Theorem net_safe c me t os : plain me -> Forall bop_ok os -> Z.of_nat (length os) <= 2 ^ 29 ->
  exists s, do_bops c os (start_net me t) = Ok (tt, s) /\ net_inv s (Z.of_nat (length os)).
Proof.
  intros Hm Ho Hl. pose proof (safe_bops c os 0 Ho ltac:(lia) ltac:(lia) (start_net me t) (start_inv me t Hm)) as H.
  unfold wp in H. destruct (do_bops c os (start_net me t)) as [[[] s]|e]; [|done]. by exists s.
Qed.

(** ** What goes when a link is lost *)

(** [c] is [b], or linked to us through [b]. *)
Inductive through (l : list tand_t) (b : tand_t) : tand_t -> Prop :=
| through_self : through l b b
| through_up c p : In c l -> In p l -> uplink c = t_ptr p -> through l b p -> through l b c.

Lemma behind_through L b : forall l ws, (forall c, In c l -> In c L) ->
  (forall w, In w ws -> exists q, In q L /\ t_ptr q = w /\ through L b q) -> forall c, In c (behind ws l) -> through L b c.
Proof.
  induction l as [|a l IH]; intros ws Hl Hw c Hc; [done|]. cbn [behind] in Hc.
  assert (Ha : In a L) by (apply Hl; by left). assert (Hl' : forall c, In c l -> In c L) by (intros d Hd; apply Hl; by right).
  destruct (in_set ws (uplink a)) eqn:E; [|by apply (IH ws)]. apply in_set_In in E.
  assert (Ht : through L b a) by (destruct (Hw _ E) as (q & Hq & Eq & Tq); by apply (through_up L b a q)).
  destruct Hc as [<-|Hc]; [done|]. apply (IH (t_ptr a :: ws)); [done| |done].
  intros w [<-|Hi]; [by exists a|by apply Hw].
Qed.

Lemma cut_perm l next me b : list_ok l next me -> In b l -> cut (t_ptr b) l ++ b :: behind [t_ptr b] l ≡ₚ l.
Proof.
  intros L (pre & suf & El)%in_split. destruct (cut_split l pre b suf _ _ L El) as (Hd & Hcut & _).
  transitivity (behind [t_ptr b] l ++ drop_under [t_ptr b] l); [|apply behind_perm]. rewrite Hd, Hcut. solve_Permutation.
Qed.

Lemma through_gone l next me b c : list_ok l next me -> In b l -> In c l -> (In c (b :: behind [t_ptr b] l) <-> through l b c).
Proof.
  intros L Hb Hc. split.
  - intros [<-|Hi]; [constructor|]. apply (behind_through l b l [t_ptr b]); [done| |done].
    intros w [<-|[]]. exists b. by repeat constructor.
  - intros T. induction T as [|c p Hc' Hp Eu T IH]; [by left|]. specialize (IH Hp).
    destruct (cut_covers l next me b c L Hb Hc) as [Hi|?]; [|done]. exfalso.
    pose proof (cut_perm l next me b L Hb) as HP.
    assert (Hsub : forall d, In d (cut (t_ptr b) l) -> In d l).
    { intros d Hd. eapply Permutation_in; [exact HP|]. apply in_app_iff. by left. }
    assert (O : ordered (cut (t_ptr b) l)).
    { apply in_split in Hb as (pre & suf & El). by destruct (cut_split l pre b suf _ _ L El) as (_ & -> & O). }
    destruct (parent_of _ c O Hi) as [E1|(q & Hq & E1)].
    + pose proof (ptr_pos _ _ _ p L Hp). lia.
    + assert (q = p) as -> by (apply (ptr_inj l); [apply L|by apply Hsub|done|congruence]).
      assert (Hn : NoDup (cut (t_ptr b) l ++ b :: behind [t_ptr b] l)).
      { rewrite HP. apply (NoDup_fmap_1 t_ptr), L. }
      apply NoDup_app in Hn as (_ & Hn & _). apply (Hn p); by apply list_elem_of_In.
Qed.

Lemma found_named s n b who p : net_ok s n -> In b (tandbot s) -> same_name (bot b) who = true -> found (tandbot s) who p -> p = t_ptr b.
Proof.
  intros I Hb Hs [[_ Hn]|(c & Hc & Ef & ->)]; [by destruct (Hn b Hb); apply same_fold|]. f_equal.
  apply (fold_inj (tandbot s)); [apply (no_list s n I)|done|done|]. rewrite Ef. symmetry. by apply same_fold.
Qed.

(** The tables after the connection of [b] is lost. *)
Lemma wp_lostdcc users s n i d b (Q : unit -> net -> Prop) : net_inv s n -> 0 <= i -> dcc s !! Z.to_nat i = Some d -> d_type d = DCC_BOT ->
  In b (tandbot s) -> same_name (bot b) (d_nick d) = true ->
  (forall s', net_inv s' n -> tandbot s' = cut (t_ptr b) (tandbot s) ->
     party s' ≡ₚ List.filter (stays (b :: behind [t_ptr b] (tandbot s))) (party s) -> Q tt s') -> wp (lostdcc users i) s Q.
Proof.
  intros I Hi Hd Ht Hb Hs HQ. unfold lostdcc. wp_steps. pose proof (lookup_lt_Some _ _ _ Hd) as Hlen.
  rewrite (proj2 (Z.ltb_ge i 0)), (proj2 (Z.leb_gt _ i)) by lia. cbn [orb]. wp_step.
  assert (Ed : dcc_at (dcc s) i = d) by (unfold dcc_at; by rewrite nth_lookup, Hd).
  rewrite Ed. unfold free_dcc_bot_. rewrite bool_decide_true by done. cbn [run_when]. wp_step.
  apply (wp_findbot s n); [apply I|]. pose proof (no_list s n (ni_ok s n I)) as L. intros p Hp.
  assert (p = t_ptr b) as -> by (apply (found_named s n b (d_nick d)); [apply I|done..]).
  apply (wp_unlink users s n (d_nick d) b); [apply I|done|done|]. intros s1 U.
  assert (I1 : net_inv s1 n).
  { apply (inv_unlinked s n _ _ s1 I U). intros c Hc. by apply (cut_covers _ (fresh s) (botnetnick s)). }
  apply (net_dcc_set s1 n); [done|by intros [?|?]|]. intros I2. apply HQ; [done|apply U|apply U].
Qed.

Lemma run_unit (m : M unit) s (P : net -> Prop) : wp m s (fun _ s' => P s') -> exists s', m s = Ok (tt, s') /\ P s'.
Proof. unfold wp. destruct (m s) as [[[] s']|e]; [eauto|done]. Qed.

Lemma cut_iff l next me b c : list_ok l next me -> In b l -> (In c (cut (t_ptr b) l) <-> In c l /\ ~ through l b c).
Proof.
  intros L Hb. pose proof (cut_perm l next me b L Hb) as HP. assert (Hn : NoDup (cut (t_ptr b) l ++ b :: behind [t_ptr b] l)).
  { rewrite HP. apply (NoDup_fmap_1 t_ptr), L. }
  apply NoDup_app in Hn as (_ & Hn & _). split.
  - intros Hc. assert (Hc' : In c l) by (eapply Permutation_in; [exact HP|]; apply in_app_iff; by left). split; [done|].
    rewrite <- (through_gone l next me b c L Hb Hc'). intros Hi. by apply (Hn c); apply list_elem_of_In.
  - intros [Hc Ht]. rewrite <- (through_gone l next me b c L Hb Hc) in Ht. destruct (cut_covers l next me b c L Hb Hc); tauto.
Qed.

Lemma stays_iff l next me b p : list_ok l next me -> In b l ->
  (stays (b :: behind [t_ptr b] l) p = true <-> ~ exists c, In c l /\ through l b c /\ same_name (p_bot p) (bot c) = true).
Proof.
  intros L Hb. unfold stays. rewrite forallb_forall. split.
  - intros H (c & Hc & Ht & E). apply (through_gone l next me b c L Hb Hc) in Ht. specialize (H c Ht).
    unfold off_bot, on_bot in H. by rewrite E in H.
  - intros H c Hc. apply negb_true_iff. destruct (on_bot (bot c) p) eqn:E; [|done]. destruct H. exists c.
    assert (Hcl : In c l) by (eapply Permutation_in; [apply (cut_perm l next me b L Hb)|]; apply in_app_iff; by right).
    split; [done|]. split; [|done]. by apply (through_gone l next me b c L Hb Hcl).
Qed.

(** C17. When the connection to a bot is lost, exactly that bot and all bots that are linked to us through it leave the list,
    and exactly the people on these bots leave the network; the others stay, the bots in their order, and the tables are
    right again. *)
Theorem lostdcc_unlinks users s n i d b : net_inv s n -> 0 <= i -> dcc s !! Z.to_nat i = Some d -> d_type d = DCC_BOT ->
  In b (tandbot s) -> same_name (bot b) (d_nick d) = true ->
  exists s', lostdcc users i s = Ok (tt, s') /\ net_inv s' n /\ sublist (tandbot s') (tandbot s) /\
    (forall c, In c (tandbot s') <-> In c (tandbot s) /\ ~ through (tandbot s) b c) /\
    (forall p, In p (party s') <-> In p (party s) /\
       ~ exists c, In c (tandbot s) /\ through (tandbot s) b c /\ same_name (p_bot p) (bot c) = true).
Proof.
  intros I Hi Hd Ht Hb Hs. pose proof (no_list s n (ni_ok s n I)) as L.
  apply run_unit, (wp_lostdcc users s n i d b); try done. intros s' I' El Ep. split; [done|]. rewrite El. split.
  - apply in_split in Hb as (pre & suf & E). destruct (cut_split _ pre b suf _ _ L E) as (_ & -> & _). rewrite E.
    apply sublist_app; [done|]. apply sublist_cons, drop_under_sub.
  - split; [intros c; by apply (cut_iff _ (fresh s) (botnetnick s))|]. intros p.
    rewrite <- (stays_iff _ _ _ b p L Hb), <- List.filter_In, <- !list_elem_of_In. by rewrite Ep.
Qed.

(** The numbers of bots and users that are announced as lost are the numbers that go. *)
Theorem lost_counts users s n i d b : net_inv s n -> 0 <= i -> dcc s !! Z.to_nat i = Some d -> d_type d = DCC_BOT ->
  In b (tandbot s) -> same_name (bot b) (d_nick d) = true ->
  exists bots us s', count_behind i s = Ok ((bots, us), s) /\ lostdcc users i s = Ok (tt, s') /\
    Z.of_nat (length (tandbot s)) = Z.of_nat (length (tandbot s')) + bots /\
    Z.of_nat (length (party s)) = Z.of_nat (length (party s')) + us.
Proof.
  intros I Hi Hd Ht Hb Hs. pose proof (no_list s n (ni_ok s n I)) as L. set (gone := b :: behind [t_ptr b] (tandbot s)).
  exists (Z.of_nat (length gone)), (people (party s) gone).
  assert (Hc : wp (count_behind i) s (fun r s' => r = (Z.of_nat (length gone), people (party s) gone) /\ s' = s)).
  { unfold count_behind, dcc_of. wp_steps. unfold dcc_at. rewrite nth_lookup, Hd. cbn [default].
    apply (wp_findbot s n); [apply I|]. intros p Hp. assert (p = t_ptr b) as -> by (apply (found_named s n b (d_nick d)); [apply I|done..]).
    wp_step. apply (wp_bots_in_subtree s n); [apply I|done|]. wp_step. apply (wp_users_in_subtree s n); [apply I|done|]. wp_steps.
    split; [|done]. f_equal. unfold gone. cbn [length]. lia. }
  assert (Hl : exists s', lostdcc users i s = Ok (tt, s') /\ tandbot s' = cut (t_ptr b) (tandbot s) /\
                          party s' ≡ₚ List.filter (stays gone) (party s)).
  { apply run_unit, (wp_lostdcc users s n i d b); done. }
  destruct Hl as (s' & El & Et & Ep). exists s'. split; [|split; [done|]].
  - unfold wp in Hc. by destruct (count_behind i s) as [[r s1]|e]; [destruct Hc as [-> ->]|].
  - pose proof (cut_perm _ _ _ b L Hb) as HP. rewrite Et, Ep, people_stays.
    + apply Permutation_length in HP. rewrite length_app in HP. fold gone in HP. lia.
    + pose proof (lo_names _ _ _ L) as Hn. rewrite <- HP, map_app in Hn. by apply NoDup_app in Hn as (_ & _ & Hn).
Qed.

(** A new bot that is not acceptable is not added: if the message names no bot it is linked to, the new bot is known or
    is us, its name is not one, the bot it is linked to is not behind the connection that tells us, or that connection is
    to a leaf, then the connection is given up, and exactly what was linked through it is gone. *)
Theorem nlinked_refused users lang s n idx d b par newbot next par1 par2 : net_inv s n -> 0 <= idx ->
  dcc s !! Z.to_nat idx = Some d -> d_type d = DCC_BOT -> In b (tandbot s) -> same_name (bot b) (d_nick d) = true ->
  newsplit par = (newbot, par1) -> newsplit par1 = (next, par2) -> ~ new_behind s idx newbot next ->
  exists s', bot_nlinked users lang idx par s = Ok (tt, s') /\ net_inv s' n /\
    forall c, In c (tandbot s') <-> In c (tandbot s) /\ ~ through (tandbot s) b c.
Proof.
  intros I Hi Hd Ht Hb Hs E1 E2 Hno. pose proof (no_list s n (ni_ok s n I)) as L. apply run_unit.
  unfold bot_nlinked. rewrite E1, E2. unfold dcc_of at 1. do 6 wp_step. apply (wp_nlinked_checks lang s n); [apply I| |done].
  intros [|x0 x] e Hx; [done|]. wp_step. apply wp_emits; [auto with sends|]. intros _ e1. rewrite add_out_out. unfold text. wp_steps.
  unfold close_link, killsock. wp_steps. rewrite !add_out_out.
  apply (wp_lostdcc users _ n idx d b); try done; [by apply inv_out|]. intros s' I' Et _. split; [done|]. rewrite Et.
  intros c. by apply (cut_iff _ (fresh s) (botnetnick s)).
Qed.

(** ** Routes *)

Lemma root_through L : forall l pre, pre ++ l = L -> ordered_from pre l ->
  (forall b, In b pre -> exists r, In r pre /\ uplink r = 1 /\ via r = t_ptr r /\ via b = t_ptr r /\ through L r b) ->
  forall b, In b L -> exists r, In r L /\ uplink r = 1 /\ via r = t_ptr r /\ via b = t_ptr r /\ through L r b.
Proof.
  induction l as [|c l IH]; intros pre El O H b Hb; [rewrite app_nil_r in El; subst pre; by apply H|].
  cbn [ordered_from] in O. destruct O as [Lc O]. replace (pre ++ c :: l) with ((pre ++ [c]) ++ l) in El by (by rewrite <- app_assoc).
  apply (IH _ El O); [|done]. intros d Hd%in_app_iff. destruct Hd as [Hd|[<-|[]]].
  - destruct (H d Hd) as (r & Hr & H'). exists r. rewrite in_app_iff. auto.
  - assert (Hin : forall x, In x (pre ++ [c]) -> In x L) by (intros x Hx; rewrite <- El; apply in_app_iff; by left).
    destruct Lc as [[Eu Ev]|(p & Hp & Eu & Ev)].
    + exists c. rewrite in_app_iff. repeat split; try done; [right; by left|constructor].
    + destruct (H p Hp) as (r & Hr & H1 & H2 & H3 & T). exists r. rewrite in_app_iff, Ev. repeat split; try done; [by left|].
      apply (through_up L r c p); [apply Hin, in_app_iff; right; by left|apply Hin, in_app_iff; by left|done|done].
Qed.

Definition link_of (r : tand_t) (d : dcc_t) : bool := same_name (bot r) (d_nick d) && bool_decide (d_type d = DCC_BOT).

Lemma nextbot_in s n b who : net_inv s n -> In b (tandbot s) -> fold_of b = fold who ->
  exists r, In r (tandbot s) /\ uplink r = 1 /\ through (tandbot s) r b /\ via b = t_ptr r /\
    nextbot who s = Ok (index_dcc (link_of r) (dcc s) 0, s).
Proof.
  intros I Hb Ef. pose proof (no_list s n (ni_ok s n I)) as L.
  destruct (root_through (tandbot s) (tandbot s) [] eq_refl (lo_tree _ _ _ L)) with b as (r & Hr & Eu & Ev & Eb & T); [done|done|].
  exists r. do 4 (split; [done|]).
  enough (H : wp (nextbot who) s (fun i s' => i = index_dcc (link_of r) (dcc s) 0 /\ s' = s)).
  { unfold wp in H. by destruct (nextbot who s) as [[i s']|e]; [destruct H as [-> ->]|]. }
  unfold nextbot. wp_step. apply (wp_findbot s n); [apply I|]. intros p Hp.
  assert (p = t_ptr b) as ->.
  { destruct Hp as [[_ Hn]|(c & Hc & Ec & ->)]; [by destruct (Hn b Hb)|]. f_equal.
    apply (fold_inj (tandbot s)); [apply L|done|done|congruence]. }
  pose proof (ptr_pos _ _ _ b L Hb). pose proof (ptr_pos _ _ _ r L Hr). rewrite (proj2 (Z.eqb_neq _ 0)) by lia.
  wp_step. apply (net_load s n); [apply I|done|]. wp_steps. rewrite Eb, (proj2 (Z.eqb_neq _ 0)) by lia.
  destruct (dcc s) as [|d0 ds]; [done|]. wp_steps. by apply (net_load s n); [apply I|done|].
Qed.

Lemma nextbot_none s n who : net_inv s n -> (forall b, In b (tandbot s) -> fold_of b <> fold who) -> nextbot who s = Ok (-1, s).
Proof.
  intros I Hn. enough (H : wp (nextbot who) s (fun i s' => i = -1 /\ s' = s)).
  { unfold wp in H. by destruct (nextbot who s) as [[i s']|e]; [destruct H as [-> ->]|]. }
  unfold nextbot. wp_step. apply (wp_findbot s n); [apply I|]. intros p [[-> _]|(b & Hb & Ef & _)]; [done|by destruct (Hn b Hb)].
Qed.

Lemma known_or_not l who : (exists b, In b l /\ fold_of b = fold who) \/ (forall b, In b l -> fold_of b <> fold who).
Proof.
  destruct (List.find (fun b => bool_decide (fold_of b = fold who)) l) as [b|] eqn:E.
  - apply List.find_some in E as [Hb Ef%bool_decide_eq_true]. left. by exists b.
  - right. intros b Hb. by apply (List.find_none _ _ E b), bool_decide_eq_false in Hb.
Qed.

(** Messages to a known bot go out on the first connection to the bot next to us through which it is linked (none, if
    there is no such connection), and there is none for a bot that is not known. *)
Theorem nextbot_route s n who : net_inv s n ->
  (exists b r, In b (tandbot s) /\ fold_of b = fold who /\ In r (tandbot s) /\ uplink r = 1 /\ through (tandbot s) r b /\
     nextbot who s = Ok (index_dcc (link_of r) (dcc s) 0, s)) \/
  ((forall b, In b (tandbot s) -> fold_of b <> fold who) /\ nextbot who s = Ok (-1, s)).
Proof.
  intros I. destruct (known_or_not (tandbot s) who) as [(b & Hb & Ef)|Hn].
  - left. destruct (nextbot_in s n b who I Hb Ef) as (r & H1 & H2 & H3 & _ & H4). by exists b, r.
  - right. split; [done|]. by apply (nextbot_none s n).
Qed.

(** C29. The connection on which messages to a bot go out is the one whose loss takes that bot away. *)
Theorem route_lost users s n who i : net_inv s n -> nextbot who s = Ok (i, s) -> 0 <= i ->
  exists s', lostdcc users i s = Ok (tt, s') /\ net_inv s' n /\ forall b, In b (tandbot s') -> fold_of b <> fold who.
Proof.
  intros I E Hi. pose proof (no_list s n (ni_ok s n I)) as L.
  destruct (known_or_not (tandbot s) who) as [(b & Hb & Ef)|Hn]; [|rewrite (nextbot_none s n) in E by done; injection E; lia].
  destruct (nextbot_in s n b who I Hb Ef) as (r & Hr & Eu & T & _ & E'). rewrite E in E'. injection E' as Ei.
  destruct (index_dcc_spec (link_of r) (dcc s) 0) as [E1|(d & _ & Hd & H)]; [lia|lia|].
  apply andb_true_iff in H as [Hs Ht%bool_decide_eq_true]. rewrite Z.sub_0_r, <- Ei in Hd.
  apply run_unit, (wp_lostdcc users s n i d r); try done. intros s' I' Et _. split; [done|]. rewrite Et. intros c Hc Ec.
  apply (cut_iff _ (fresh s) (botnetnick s)) in Hc as [Hc Hn]; [|done|done]. apply Hn.
  assert (c = b) as -> by (apply (fold_inj (tandbot s)); [apply L|done|done|congruence]). done.
Qed.
