(* ===== verification/BotnetTell.v ===== *)
(** * The bot network: the tree that a new neighbour is told

    What [dump_links] sends of the list, read by another bot: its own list grows by a copy.
    Then concrete runs of the network: one in which all goes well, and those in which a line of
    a linked bot, or a ping, does harm. *)

From stdpp Require Import gmap list.
From S2P Require Import Htab HtabRing HtabMap Prelude LibC Match Strings FlagDefs Base64 Botnet BotnetTree BotnetSpec BotnetUnlink Botcmd BotnetSafe BotnetHandlers BotnetLine BotnetProps.
#[local] Open Scope Z_scope.

(** ** What is sent *)

(** The lines for a connection, without their ends. *)
Definition lines_to (z : Z) (es : list event) : list (list Z) :=
  flat_map (fun e => match e with Dprint i t => if i =? z then [removelast t] else [] | _ => [] end) es.

(** The name of the bot that [b] is linked to. *)
Definition up_name (me : list Z) (l : list tand_t) (b : tand_t) : list Z :=
  if uplink b =? 1 then me else match List.find (fun c => t_ptr c =? uplink b) l with Some p => bot p | None => [] end.
Definition tell_line (newbot next : list Z) (x v : Z) : list Z := bs "n " ++ newbot ++ sp ++ next ++ sp ++ x :: int_to_base64 v.
Definition line_of (me : list Z) (l : list tand_t) (b : tand_t) : list Z := tell_line (bot b) (up_name me l b) (share b) (ver b).

Lemma nlinked_tell b n x v : nlinked_line b n x v = tell_line b n x v ++ nl.
Proof. unfold nlinked_line, tell_line. by rewrite <- !app_assoc. Qed.

Lemma deref_find l p b : deref l p = Ok b -> List.find (fun c => t_ptr c =? p) l = Some b.
Proof. unfold deref. destruct (p =? 0); [done|]. destruct (List.find _ _); by intros [= ->]. Qed.

Lemma wp_dump_exact z n l : forall s (Q : unit -> net -> Prop), net_ok s n -> (forall b, In b l -> In b (tandbot s)) ->
  Q tt (add_out (map (fun b => Dprint z (line_of (botnetnick s) (tandbot s) b ++ nl)) l) s) -> wp (dump_bots z l) s Q.
Proof.
  induction l as [|b l IH]; intros s Q I Hl HQ; cbn [dump_bots map] in *; [by rewrite add_out_nil in HQ|].
  assert (Hb : In b (tandbot s)) by (apply Hl; by left).
  assert (Hgo : wp (emit (Dprint z (nlinked_line (bot b) (up_name (botnetnick s) (tandbot s) b) (share b) (ver b))) ≫= fun _ => dump_bots z l) s Q).
  { wp_steps. apply IH; [by apply (net_ok_core s)|intros c Hc; apply Hl; by right|]. rewrite add_out_out, nlinked_tell. exact HQ. }
  unfold up_name in Hgo. wp_step. unfold uplink_name. destruct (Z.eqb_spec (uplink b) 1) as [E|E]; [by wp_steps|]. wp_step.
  destruct (parent_of _ b (lo_tree _ _ _ (no_list s n I)) Hb) as [?|(q & Hq & Eq)]; [done|]. rewrite Eq in *.
  pose proof (ptr_pos _ _ _ q (no_list s n I) Hq). rewrite (deref_find _ (t_ptr q) q) in Hgo by (apply node_deref_in; [apply (no_list s n I)|done|lia]).
  apply (net_load s n); [done|done|]. by wp_steps.
Qed.

Lemma lines_dumped {A} z (f : A -> list Z) l : lines_to z (map (fun b => Dprint z (f b ++ nl)) l) = map f l.
Proof. induction l as [|b l IH]; [done|]. cbn. rewrite Z.eqb_refl. cbn. unfold nl. rewrite removelast_last. by f_equal. Qed.

(** ** What is heard *)

Fixpoint hear (c : netconf) (idx : Z) (lines : list (list Z)) : M unit :=
  match lines with [] => skip | line :: lines => dcc_bot c idx line ≫= fun _ => hear c idx lines end.

Definition share_told (x : Z) : Z := if x =? ch "!" then ch "-" else x.

(** A bot that may be added by [idx], and the bot [p] it is linked to. *)
Record tellable (r : net) (m idx : Z) (h p : tand_t) (newbot next : list Z) (v : Z) : Prop := {
  tl_inv : net_inv r m;
  tl_idx : 0 <= idx;
  tl_conn : index_dcc (link_of h) (dcc r) 0 = idx;
  tl_leaf : d_flags (dcc_at (dcc r) idx) &? BOT_LEAF = false;
  tl_h : In h (tandbot r);
  tl_p : In p (tandbot r);
  tl_via : via p = t_ptr h;
  tl_root : via h = t_ptr h;
  tl_next : fold_of p = fold next;
  tl_words : word newbot /\ word next;
  tl_name : bogus_name newbot = false;
  tl_free : name_free r newbot;
  tl_ver : 0 <= v < 2 ^ 31 - 4096
}.

Definition node_told (r : net) (h p : tand_t) (newbot : list Z) (x v sl : Z) : tand_t :=
  new_node r newbot (t_ptr h) (t_ptr p) (share_told x) v sl.

Lemma conn_named r h idx : 0 <= idx -> index_dcc (link_of h) (dcc r) 0 = idx -> link_of h (dcc_at (dcc r) idx) = true.
Proof.
  intros Hi E. destruct (index_dcc_spec (link_of h) (dcc r) 0) as [E1|(d & _ & Hd & H)]; [lia|lia|].
  rewrite E, Z.sub_0_r in Hd. unfold dcc_at. by rewrite nth_lookup, Hd.
Qed.

Lemma next_route r m idx h p newbot next v : tellable r m idx h p newbot next v -> nextbot next r = Ok (idx, r).
Proof.
  intros [I Hi Hc Hl Hh Hp Ev Er Ef _ _ _ _].
  destruct (nextbot_in r m p next I Hp Ef) as (q & Hq & _ & _ & E1 & ->).
  assert (q = h) as -> by (apply (ptr_inj (tandbot r)); [apply (no_list r m (ni_ok r m I))|done|done|congruence]). by rewrite Hc.
Qed.

Lemma chain_free r m who : net_ok r m -> name_free r who -> in_chain who r = Ok (false, r).
Proof.
  intros I [Hme Hn]. enough (H : wp (in_chain who) r (fun b s' => b = false /\ s' = r)).
  { unfold wp in H. by destruct (in_chain who r) as [[b s']|e]; [destruct H as [-> ->]|]. }
  unfold in_chain. wp_step. apply (wp_findbot r m); [done|]. intros q [[-> _]|(b & Hb & Ef & _)]; [|by destruct (Hn b Hb)].
  cbn [Z.eqb negb]. wp_steps. split; [|done]. destruct (same_name who (botnetnick r)) eqn:E; [|done]. by apply same_fold in E.
Qed.

Lemma net_run {A} (m : M A) a s (Q : A -> net -> Prop) : m s = Ok (a, s) -> Q a s -> wp m s Q.
Proof. unfold wp. by intros ->. Qed.

Lemma told_checks lang r m idx h p newbot next v (f : list Z -> M unit) (Q : unit -> net -> Prop) : tellable r m idx h p newbot next v ->
  wp (f []) r Q ->
  wp (x ← nlinked_error lang idx newbot next; x ← nlinked_bogus lang idx newbot next x; x ← nlinked_leaf lang idx newbot x; f x) r Q.
Proof.
  intros T HQ. pose proof (next_route _ _ _ _ _ _ _ _ T) as En. destruct T as [I _ _ Hleaf _ _ _ _ _ [_ [Hn _]] Hbog Hfree _].
  assert (Hme : same_name newbot (botnetnick r) = false).
  { destruct (same_name newbot (botnetnick r)) eqn:E; [|done]. by apply same_fold in E; destruct Hfree. }
  wp_step. unfold nlinked_error, dcc_of. wp_steps. destruct next as [|c0 next]; [done|]. wp_step.
  eapply net_run; [by apply (chain_free r m), Hfree; apply I|]. rewrite Hme. cbn [orb]. wp_steps.
  unfold nlinked_bogus, dcc_of. wp_steps. eapply net_run; [exact En|]. rewrite Hbog, Z.eqb_refl. cbn [orb negb]. wp_steps.
  unfold nlinked_leaf, dcc_of. wp_steps. rewrite Hleaf. by wp_steps.
Qed.

Lemma tell_code newbot next x v : code_of (tell_line newbot next x v) = bs "n" /\
  msg_of (tell_line newbot next x v) = newbot ++ ch " " :: next ++ ch " " :: x :: int_to_base64 v.
Proof.
  unfold code_of, msg_of, tell_line. change (bs "n " ++ ?X) with (bs "n" ++ ch " " :: X).
  rewrite split_at_app; [done|]. intros [E|[]]; discriminate.
Qed.

Lemma wp_told c r m idx h p newbot next x v : tellable r m idx h p newbot next v -> 0 <= m <= 2 ^ 50 ->
  wp (dcc_bot c idx (tell_line newbot next x v)) r (fun _ r' => net_inv r' (m + 1) /\
    tandbot r' = tandbot r ++ [node_told r h p newbot x v (d_ssl (dcc_at (dcc r) idx))] /\
    dcc r' = dcc r /\ botnetnick r' = botnetnick r).
Proof.
  intros T Hm. destruct (tell_code newbot next x v) as [E1 E2]. unfold dcc_bot. rewrite E1, E2. wp_step.
  eapply net_run; [unfold lift; replace (bot_fn (bs "n")) with (Ok (E := diverged) (Some f_nlinked)) by (vm_compute; reflexivity); done|].
  cbn [bot_handler]. pose proof T as [I Hi Hc Hleaf Hh Hp Ev Er Ef [Hw Hwn] Hbog Hfree Hv].
  unfold bot_nlinked. rewrite newsplit_word by done. rewrite newsplit_word by done. unfold dcc_of at 1. do 6 wp_step.
  apply (told_checks _ r m idx h p newbot next v); [done|]. rewrite base64_read_back by done. cbv zeta. wp_step.
  apply wp_emits; [auto with sends|]. intros _ e. wp_step.
  pose proof (conn_named r h idx Hi Hc) as [Hs _]%andb_true_iff.
  apply (wp_addbot _ m newbot _ next _ v _ (t_ptr h) (t_ptr p)); [by apply (net_ok_core r), I|lia|apply Hw|by apply bogus_length|apply Hfree|apply Hfree| |].
  - right. exists h, p. repeat split; try done. by apply same_fold.
  - intros s' Et I' Ep Ez Ed Eme. apply wp_emits; [unfold skip; emits_auto|]. intros _ e'. split; [|done].
    apply inv_out. by apply (inv_added r m (node_told r h p newbot x v (d_ssl (dcc_at (dcc r) idx)))).
Qed.

(** ** The copy *)

(** [c] is the copy of [b] behind [h]; [pairs] are the bots with their copies. *)
Definition copied (h : tand_t) (pairs : list (tand_t * tand_t)) (b c : tand_t) : Prop :=
  bot c = bot b /\ ver c = ver b /\ share c = share_told (share b) /\ via c = t_ptr h /\
  ((uplink b = 1 /\ uplink c = t_ptr h) \/
   exists b' c', In (b', c') pairs /\ uplink b = t_ptr b' /\ uplink c = t_ptr c').

Lemma copied_mono h ps ps' b c : (forall x, In x ps -> In x ps') -> copied h ps b c -> copied h ps' b c.
Proof. intros H (H1 & H2 & H3 & H4 & [?|(b' & c' & Hi & ?)]); (split; [done|]; split; [done|]; split; [done|]; split; [done|]); [by left|right; exists b', c'; auto]. Qed.

Lemma pair_of h l1 : forall l2 ps, Forall2 (copied h ps) l1 l2 -> forall b, In b l1 -> exists c, In (b, c) (zip l1 l2) /\ In c l2 /\ copied h ps b c.
Proof.
  intros l2 ps H. induction H as [|b0 c0 l1 l2 H0 _ IH]; intros b Hb; [done|]. destruct Hb as [<-|Hb].
  - exists c0. split; [by left|]. split; [by left|done].
  - destruct (IH b Hb) as (c & ? & ? & ?). exists c. split; [by right|]. split; [by right|done].
Qed.
Lemma copy_of h l1 : forall l2 ps, Forall2 (copied h ps) l1 l2 -> forall c, In c l2 -> exists b, In b l1 /\ bot c = bot b.
Proof.
  intros l2 ps H. induction H as [|b0 c0 l1 l2 H0 _ IH]; intros c Hc; [done|]. destruct Hc as [<-|Hc].
  - exists b0. split; [by left|apply H0].
  - destruct (IH c Hc) as (b & ? & ?). exists b. split; [by right|done].
Qed.

(** The names and versions can be told. *)
Definition told_ok (b : tand_t) : Prop := word (bot b) /\ bogus_name (bot b) = false /\ 0 <= ver b < 2 ^ 31 - 4096.

(** The bot [h] next to the receiver is the one that tells; no name is known to the receiver. *)
Record hearing (r : net) (m idx : Z) (h : tand_t) (me : list Z) (l : list tand_t) : Prop := {
  hr_inv : net_inv r m;
  hr_idx : 0 <= idx;
  hr_conn : index_dcc (link_of h) (dcc r) 0 = idx;
  hr_leaf : d_flags (dcc_at (dcc r) idx) &? BOT_LEAF = false;
  hr_h : In h (tandbot r);
  hr_root : uplink h = 1 /\ fold_of h = fold me;
  hr_free : forall b, In b l -> name_free r (bot b)
}.

Lemma root_via l next me h : list_ok l next me -> In h l -> uplink h = 1 -> via h = t_ptr h.
Proof.
  intros L (pre & suf & El)%in_split Eu. destruct (ordered_split l pre h suf (lo_tree _ _ _ L) El) as [[_ ?]|(p & Hp & E & _)]; [done|].
  assert (Hpl : In p l) by (rewrite El; apply in_app_iff; by left). pose proof (ptr_pos _ _ _ p L Hpl). lia.
Qed.

Section Copy.
Context (c : netconf) (idx : Z) (h : tand_t) (base : list tand_t) (me : list Z) (l : list tand_t) (next : Z).
Hypothesis L : list_ok l next me.
Hypothesis Hword : word me.
Hypothesis Hok : Forall told_ok l.

(** The parent of the next bot, and its copy. *)
Lemma copy_parent r pre b suf news : l = pre ++ b :: suf -> tandbot r = base ++ news -> In h base -> uplink h = 1 -> via h = t_ptr h -> fold_of h = fold me ->
  Forall2 (copied h (zip pre news)) pre news ->
  exists p, In p (tandbot r) /\ via p = t_ptr h /\ fold_of p = fold (up_name me l b) /\ word (up_name me l b) /\
    ((uplink b = 1 /\ p = h) \/ exists q, In (q, p) (zip pre news) /\ uplink b = t_ptr q).
Proof.
  intros El Er Hh Hu Hv Hf HF. unfold up_name. destruct (ordered_split l pre b suf (lo_tree _ _ _ L) El) as [[Eu _]|(q & Hq & Eu & _)].
  - rewrite Eu. exists h. rewrite Er. split; [apply in_app_iff; by left|]. split; [done|]. split; [done|]. split; [done|]. by left.
  - assert (Hql : In q l) by (rewrite El; apply in_app_iff; by left). pose proof (ptr_pos _ _ _ q L Hql).
    rewrite Eu. rewrite (proj2 (Z.eqb_neq (t_ptr q) 1)) by lia.
    rewrite (deref_find l (t_ptr q) q) by (apply node_deref_in; [apply L|done|lia]).
    destruct (pair_of h pre news _ HF q Hq) as (p & Hi & Hp & (Hb & _ & _ & Hvp & _)). exists p.
    rewrite Er. split; [apply in_app_iff; by right|]. split; [done|]. split; [unfold fold_of; by rewrite Hb|].
    rewrite List.Forall_forall in Hok. split; [apply (Hok q Hql)|]. right. by exists q.
Qed.

Lemma hear_copy : forall suf pre r m news, l = pre ++ suf -> 0 <= m -> m + Z.of_nat (length suf) <= 2 ^ 50 ->
  hearing r m idx h me suf -> tandbot r = base ++ news -> In h base -> Forall2 (copied h (zip pre news)) pre news ->
  wp (hear c idx (map (line_of me l) suf)) r (fun _ r' => net_inv r' (m + Z.of_nat (length suf)) /\
    exists news', tandbot r' = base ++ news' /\ Forall2 (copied h (zip l news')) l news').
Proof.
  induction suf as [|b suf IH]; intros pre r m news El Hm Hle H Er Hh HF.
  { cbn [map hear length]. wp_step. rewrite Z.add_0_r. split; [apply H|]. exists news. split; [done|]. rewrite app_nil_r in El. by subst pre. }
  destruct H as [I Hi Hc Hleaf Hhr [Hu Hf] Hfree]. cbn [map hear length] in *.
  pose proof (root_via _ _ _ h (no_list r m (ni_ok r m I)) Hhr Hu) as Hv.
  destruct (copy_parent r pre b suf news El Er Hh Hu Hv Hf HF) as (p & Hp & Hvp & Hfp & Hwp & Hcase).
  assert (Hb : In b l) by (rewrite El; apply in_app_iff; right; by left).
  assert (Hbok : told_ok b) by (rewrite List.Forall_forall in Hok; by apply Hok). destruct Hbok as (Hw & Hbog & Hver).
  assert (T : tellable r m idx h p (bot b) (up_name me l b) (ver b)) by (split; try done; apply Hfree; by left).
  wp_step. unfold line_of at 1. eapply net_mono; [apply (wp_told c r m idx h p); [done|lia]|]. intros _ r' (I' & Er' & Ed & Em).
  set (node := node_told r h p (bot b) (share b) (ver b) _) in Er'. replace (m + Z.of_nat (S (length suf))) with (m + 1 + Z.of_nat (length suf)) by lia.
  assert (Hlen : length pre = length news) by (by apply Forall2_length in HF).
  apply (IH (pre ++ [b]) r' (m + 1) (news ++ [node])); [by rewrite El, <- app_assoc|lia|lia| |by rewrite Er', Er, <- app_assoc|done|].
  - split; [done|done|by rewrite Ed|by rewrite Ed|rewrite Er'; apply in_app_iff; by left|done|].
    intros d Hd. destruct (Hfree d (or_intror Hd)) as [F1 F2]. split; [by rewrite Em|]. intros e. rewrite Er'. intros [He|[<-|[]]]%in_app_iff; [by apply F2|].
    intros E. pose proof (lo_names _ _ _ L) as Hn. rewrite El, map_app in Hn. apply NoDup_app in Hn as (_ & _ & Hn). cbn [map] in Hn.
    apply NoDup_cons in Hn as [Hn _]. apply Hn. apply list_elem_of_In, in_map_iff. exists d. split; [|done]. symmetry. exact E.
  - assert (Hz : zip (pre ++ [b]) (news ++ [node]) = zip pre news ++ [(b, node)]) by (by rewrite zip_with_app).
    rewrite Hz. apply Forall2_app.
    + eapply Forall2_impl; [exact HF|]. intros x y. apply copied_mono. intros z Hz'. apply in_app_iff. by left.
    + constructor; [|constructor]. unfold node, node_told, new_node. split; [done|]. split; [done|]. split; [done|]. split; [done|]. cbn [uplink].
      destruct Hcase as [[Eu ->]|(q & Hq & Eu)]; [by left|]. right. exists q, p. split; [apply in_app_iff; by left|done].
Qed.
End Copy.

(** C5. The tree goes over: what a bot sends of its list to a new neighbour makes there a copy of the tree behind it,
    bot by bot in the same order, each linked to the copy of the bot it was linked to (to the sender, if it was linked
    to the sender), with its name and version and with the share flag as it is told ([share_told]: a bot whose flag is
    [!] is told with [-], the others with theirs); and the tables of the receiver are right. This is for a receiver that
    accepts the bots: the sender is linked directly to it, over the connection the lines come from, which is not flagged
    as a leaf; it knows none of the names, neither as a bot of its list nor as its own; the sender's name and all the
    names told are single words, those told not bogus ([bogus_name]); the versions are from 0 to below 2^31 - 4096; and
    the tables have room (fewer than 2^50 nodes ever added). *)
Theorem told_tree c s n r m z idx h : net_ok s n -> word (botnetnick s) -> Forall told_ok (tandbot s) ->
  hearing r m idx h (botnetnick s) (tandbot s) -> 0 <= m -> m + Z.of_nat (length (tandbot s)) <= 2 ^ 50 ->
  exists es r' news, dump_bots z (tandbot s) s = Ok (tt, add_out es s) /\ hear c idx (lines_to z es) r = Ok (tt, r') /\
    net_inv r' (m + Z.of_nat (length (tandbot s))) /\ tandbot r' = tandbot r ++ news /\
    Forall2 (copied h (zip (tandbot s) news)) (tandbot s) news.
Proof.
  intros I Hw Hok H Hm Hle.
  exists (map (fun b => Dprint z (line_of (botnetnick s) (tandbot s) b ++ nl)) (tandbot s)).
  assert (Hh : exists r', hear c idx (map (line_of (botnetnick s) (tandbot s)) (tandbot s)) r = Ok (tt, r') /\
    (net_inv r' (m + Z.of_nat (length (tandbot s))) /\ exists news, tandbot r' = tandbot r ++ news /\
     Forall2 (copied h (zip (tandbot s) news)) (tandbot s) news)).
  { apply run_unit, (hear_copy c idx h (tandbot r) (botnetnick s) (tandbot s) (fresh s) (no_list s n I) Hw Hok (tandbot s) [] r m []); try done.
    - by rewrite app_nil_r.
    - apply H. }
  destruct Hh as (r' & E & Hr & news & Et & HF). exists r', news. rewrite lines_dumped. split; [|done].
  assert (Hd : wp (dump_bots z (tandbot s)) s (fun _ s' => s' = add_out (map (fun b => Dprint z (line_of (botnetnick s) (tandbot s) b ++ nl)) (tandbot s)) s)).
  { by apply (wp_dump_exact z n). }
  unfold wp in Hd. by destruct (dump_bots z (tandbot s) s) as [[[] s']|e]; [rewrite Hd|].
Qed.

(** ** Examples and faults *)

(** ** Bots *)

Definition test_conf : netconf :=
  {| c_users _ := None; c_lang _ := []; share_unlinks := 0; remote_boots := 0; backgrd := true; c_owner _ := false;
     c_filesys := false; module_vec := [] |}.
Definition conn_of (nick : list Z) (status : Z) : dcc_t :=
  {| d_nick := nick; d_host := bs "h"; d_sock := 7; d_type := DCC_BOT_NEW; d_status := status; d_flags := 0; d_ssl := 0; d_numver := 0;
     d_channel := 0; d_icon := 0; d_away := None; d_timeval := 0 |}.

(** A hub with a leaf, with a twig, with a person; and a second hub. *)
Definition grow : list bop :=
  [ BotConn (conn_of (bs "Hub") 0); BotVersion 0 (bs "1100500 32 eggdrop");
    BotLine 0 (bs "n leaf hub -BMHK"); BotLine 0 (bs "n twig leaf +BMHK"); BotLine 0 (bs "j twig alice A *C alice@home");
    BotConn (conn_of (bs "other") 0); BotVersion 1 (bs "1100500 32 eggdrop") ].
Definition me : list Z := bs "me".

(** What is left of the state of a run. *)
Definition outcome (r : result nfault (unit * net)) : option (list (list Z * Z * Z) * list (list Z)) :=
  match r with
  | Ok (_, s) => Some (map (fun b => (bot b, via b, uplink b)) (tandbot s), map p_nick (party s))
  | Err _ => None
  end.
Definition run (os : list bop) : result nfault (unit * net) := do_bops test_conf os (start_net me 0).
Definition end_of (r : result nfault (unit * net)) : net := match r with Ok (_, s) => s | Err _ => start_net me 0 end.

Example grown : outcome (run grow) =
  Some ([(bs "Hub", 2, 1); (bs "leaf", 2, 2); (bs "twig", 2, 3); (bs "other", 5, 1)], [bs "alice"]).
Proof. vm_compute. reflexivity. Qed.
Example unlinked : outcome (run (grow ++ [BotLine 0 (bs "un leaf gone")])) = Some ([(bs "Hub", 2, 1); (bs "other", 5, 1)], []).
Proof. vm_compute. reflexivity. Qed.

(** ** Faults *)

(** A bot that asks us to unlink one that is not next to us makes us forget that bot alone: those behind it are left with a
    link to freed memory, which the next dump of the links reads. *)
Lemma ghost_freed : run (grow ++ [BotLine 1 (bs "ul x@other me leaf"); BotConn (conn_of (bs "new") 0); BotVersion 2 (bs "1100500 32 eggdrop")])
  = Err Freed.
Proof. vm_compute. reflexivity. Qed.

(** A leaf that was warned and still has two bots behind it: the pings disconnect it and go on from its freed node. *)
Lemma leaf_freed :
  match run [BotConn (conn_of (bs "Hub") STAT_LEAF); BotVersion 0 (bs "1100500 32 eggdrop");
             BotLine 0 (bs "n leaf hub -BMHK"); BotLine 0 (bs "n twig leaf +BMHK")] with
  | Ok (_, s) => check_botnet_pings (c_users test_conf) (c_lang test_conf) s = Err Freed
  | Err _ => False
  end.
Proof. vm_compute. reflexivity. Qed.

(** A trace answer for a user here with a number that is too long overruns the buffer. *)
Lemma traced_overflow : run (grow ++ [BotLine 0 (bs "td 0123456789012345678901234567890123:alice@me :0:leaf")]) = Err Overflow.
Proof. vm_compute. reflexivity. Qed.

(** The names of bots are found with the brackets folded, those of people on bots are compared without: someone who joins
    under the other spelling stays when the bot goes. *)
Lemma party_ghost : outcome (run [BotConn (conn_of (bs "hub[") 0); BotVersion 0 (bs "1100500 32 eggdrop");
    BotLine 0 (bs "j hub{ bob A *C bob@home"); BotEof 0]) = Some ([], [bs "bob"]).
Proof. vm_compute. reflexivity. Qed.

(** Someone who comes back is shown to new bots as away again: the message is kept and sent with the idle time. *)
Lemma unaway_kept : 
  let s := end_of (run (BotTime 60 :: grow ++ [BotLine 0 (bs "aw twig C lunch"); BotLine 0 (bs "aw twig C ")])) in
  map p_away (party s) = [Some (bs "lunch")] /\ map p_status (party s) = [0] /\
  exists es, dump_links 1 s = Ok (tt, add_out es s) /\ In (Dprint 1 (bs "i twig C A lunch" ++ nl)) es.
Proof.
  split; [vm_compute; reflexivity|]. split; [vm_compute; reflexivity|].
  eexists. split; [vm_compute; reflexivity|]. cbn. tauto.
Qed.

(** ** The theorems at these states *)

#[local] Instance plain_dec who : Decision (plain who).
Proof. unfold plain. apply _. Defined.

(** The conditions of [net_safe] for a given message. *)
Ltac op_ok :=
  lazymatch goal with
  | |- bop_ok (BotLine _ _) =>
      unfold bop_ok;
      match goal with
      | |- context [bot_fn ?c] => let v := eval vm_compute in (bot_fn c) in replace (bot_fn c) with v by (vm_compute; reflexivity)
      end; cbn [cmd_ok]; first [exact I | apply (bool_decide_unpack _); vm_compute; exact I]
  | |- bop_ok (BotConn _) => intros _; split; [discriminate|vm_compute; discriminate]
  | |- _ => exact I
  end.

Lemma grow_ok : Forall bop_ok grow.
Proof. repeat (apply List.Forall_cons; [op_ok|]). apply List.Forall_nil. Qed.

Lemma me_plain : plain me.
Proof. apply (bool_decide_unpack _). vm_compute. exact I. Qed.

Lemma run_inv my os : plain my -> Forall bop_ok os -> Z.of_nat (length os) <= 2 ^ 29 ->
  net_inv (end_of (do_bops test_conf os (start_net my 0))) (Z.of_nat (length os)).
Proof.
  intros Hm Ho Hl. pose proof (safe_bops test_conf os 0 Ho ltac:(lia) ltac:(lia) (start_net my 0) (start_inv my 0 Hm)) as H.
  unfold wp in H. destruct (do_bops test_conf os (start_net my 0)) as [[[] s]|e]; [exact H|done].
Qed.

Definition grown_net : net := end_of (run grow).
Lemma grown_inv : net_inv grown_net 7.
Proof. apply (run_inv me grow); [apply me_plain|apply grow_ok|cbn; lia]. Qed.

Lemma net_safe_witness : Forall bop_ok grow /\ exists s, do_bops test_conf grow (start_net me 0) = Ok (tt, s) /\ net_inv s 7.
Proof. split; [apply grow_ok|]. apply (net_safe test_conf me 0 grow); [apply me_plain|apply grow_ok|vm_compute; discriminate]. Defined.

(** The hub and the bots behind it; the hub's connection. *)
Definition hub : tand_t := nth 0 (tandbot grown_net) (new_node grown_net [] 0 0 0 0 0).
Definition hub_conn : dcc_t := dcc_at (dcc grown_net) 0.

Lemma lostdcc_unlinks_witness : length (tandbot grown_net) = 4%nat /\
  exists s', lostdcc (c_users test_conf) 0 grown_net = Ok (tt, s') /\ net_inv s' 7 /\ sublist (tandbot s') (tandbot grown_net) /\
    (forall c, In c (tandbot s') <-> In c (tandbot grown_net) /\ ~ through (tandbot grown_net) hub c) /\
    (forall p, In p (party s') <-> In p (party grown_net) /\
       ~ exists c, In c (tandbot grown_net) /\ through (tandbot grown_net) hub c /\ same_name (p_bot p) (bot c) = true).
Proof.
  split; [vm_compute; reflexivity|].
  apply (lostdcc_unlinks (c_users test_conf) grown_net 7 0 hub_conn hub); [apply grown_inv|lia|vm_compute; reflexivity..| |vm_compute; reflexivity].
  vm_compute. by left.
Defined.

Lemma lost_counts_witness : count_behind 0 grown_net = Ok ((3, 1), grown_net) /\
  exists bots us s', count_behind 0 grown_net = Ok ((bots, us), grown_net) /\
    lostdcc (c_users test_conf) 0 grown_net = Ok (tt, s') /\
    Z.of_nat (length (tandbot grown_net)) = Z.of_nat (length (tandbot s')) + bots /\
    Z.of_nat (length (party grown_net)) = Z.of_nat (length (party s')) + us.
Proof.
  split; [vm_compute; reflexivity|].
  apply (lost_counts (c_users test_conf) grown_net 7 0 hub_conn hub); [apply grown_inv|lia|vm_compute; reflexivity..| |vm_compute; reflexivity].
  vm_compute. by left.
Defined.

Lemma nlinked_refused_witness : exists s', bot_nlinked (c_users test_conf) (c_lang test_conf) 0 (bs "TWIG hub -A") grown_net = Ok (tt, s') /\
  net_inv s' 7 /\ forall c, In c (tandbot s') <-> In c (tandbot grown_net) /\ ~ through (tandbot grown_net) hub c.
Proof.
  apply (nlinked_refused (c_users test_conf) (c_lang test_conf) grown_net 7 0 hub_conn hub (bs "TWIG hub -A") (bs "TWIG") (bs "hub") (bs "hub -A") (bs "-A"));
    [apply grown_inv|lia|vm_compute; reflexivity..| |vm_compute; reflexivity|vm_compute; reflexivity|vm_compute; reflexivity|].
  - vm_compute. by left.
  - intros (_ & [_ H] & _). apply (H (nth 2 (tandbot grown_net) hub)); [vm_compute; tauto|vm_compute; reflexivity].
Defined.

Lemma nextbot_route_witness : nextbot (bs "TWIG") grown_net = Ok (0, grown_net) /\
  ((exists b r, In b (tandbot grown_net) /\ fold_of b = fold (bs "TWIG") /\ In r (tandbot grown_net) /\ uplink r = 1 /\
      through (tandbot grown_net) r b /\ nextbot (bs "TWIG") grown_net = Ok (index_dcc (link_of r) (dcc grown_net) 0, grown_net)) \/
   ((forall b, In b (tandbot grown_net) -> fold_of b <> fold (bs "TWIG")) /\ nextbot (bs "TWIG") grown_net = Ok (-1, grown_net))).
Proof. split; [vm_compute; reflexivity|]. apply (nextbot_route grown_net 7), grown_inv. Defined.

Lemma route_lost_witness : exists s', lostdcc (c_users test_conf) 0 grown_net = Ok (tt, s') /\ net_inv s' 7 /\
  forall b, In b (tandbot s') -> fold_of b <> fold (bs "twig").
Proof. apply (route_lost (c_users test_conf) grown_net 7 (bs "twig") 0); [apply grown_inv|vm_compute; reflexivity|lia]. Defined.

(** A receiver, next to this bot. *)
Definition far_ops : list bop := [BotConn (conn_of me 0); BotVersion 0 (bs "1100500 32 eggdrop"); BotLine 0 (bs "el")].
Definition far_net : net := end_of (do_bops test_conf far_ops (start_net (bs "far") 0)).
Lemma far_inv : net_inv far_net 3.
Proof.
  apply (run_inv (bs "far") far_ops); [apply (bool_decide_unpack _); vm_compute; exact I| |cbn; lia].
  repeat (apply List.Forall_cons; [op_ok|]). apply List.Forall_nil.
Qed.
Definition teller : tand_t := nth 0 (tandbot far_net) (new_node far_net [] 0 0 0 0 0).

Lemma far_hears : hearing far_net 3 0 teller (botnetnick grown_net) (tandbot grown_net).
Proof.
  split; [apply far_inv|lia|vm_compute; reflexivity|vm_compute; reflexivity|vm_compute; by left|split; vm_compute; reflexivity|].
  assert (H : forallb (fun b => bool_decide (fold (bot b) <> fold (botnetnick far_net)) &&
                forallb (fun c => bool_decide (fold_of c <> fold (bot b))) (tandbot far_net)) (tandbot grown_net) = true) by (vm_compute; reflexivity).
  rewrite forallb_forall in H. intros b Hb. specialize (H b Hb). apply andb_true_iff in H as [H1%bool_decide_eq_true H2].
  rewrite forallb_forall in H2. split; [exact H1|]. intros c Hc. by apply (bool_decide_eq_true_1 _ (H2 c Hc)).
Qed.

Lemma told_grown : Forall told_ok (tandbot grown_net).
Proof.
  assert (H : forallb (fun b => negb (bool_decide (bot b = [])) && negb (mem (ch " ") (bot b)) && negb (bogus_name (bot b)) &&
                ((0 <=? ver b) && (ver b <? 2 ^ 31 - 4096))) (tandbot grown_net) = true) by (vm_compute; reflexivity).
  rewrite forallb_forall in H. apply List.Forall_forall. intros b Hb. specialize (H b Hb).
  apply andb_true_iff in H as [[[H1 H2]%andb_true_iff H3]%andb_true_iff H4].
  split; [split; [by apply negb_true_iff, bool_decide_eq_false in H1|]|split; [by apply negb_true_iff|lia]].
  rewrite <- mem_In. by apply not_true_iff_false, negb_true_iff.
Qed.

Lemma told_tree_witness : exists es r' news, dump_bots 1 (tandbot grown_net) grown_net = Ok (tt, add_out es grown_net) /\
  hear test_conf 0 (lines_to 1 es) far_net = Ok (tt, r') /\ net_inv r' 7 /\ tandbot r' = tandbot far_net ++ news /\
  Forall2 (copied teller (zip (tandbot grown_net) news)) (tandbot grown_net) news.
Proof.
  apply (told_tree test_conf grown_net 7 far_net 3 1 0 teller); [apply (ni_ok _ _ grown_inv)| |apply told_grown|apply far_hears|lia|vm_compute; discriminate].
  replace (botnetnick grown_net) with me by (vm_compute; reflexivity).
  split; [discriminate|]. rewrite <- mem_In. discriminate.
Defined.
