(* ===== verification/Ignores.v ===== *)
(** * The ignore list (src/users.c, src/userrec.c, src/mod/share.mod/share.c)

    Hosts the bot does not listen to: a list of records with an end time.  What changes the
    list, the lines that tell the other bots about it and what they do with those lines, and
    the section of the user file that keeps it. *)

From stdpp Require Import list.
From S2P Require Import Botnet MaskLists Base64 Prelude LibC Wildcard Rfc1459 Inet Match Strings.
#[local] Open Scope Z_scope.

Definition IGREC_PERM : Z := 2.

(** [igrec]; a null string is [None]. *)
Record igrec := {
  ig_mask : list Z;
  ig_expire : Z;
  ig_user : option (list Z);
  ig_added : Z;
  ig_msg : option (list Z);
  ig_flags : Z
}.
Definition is_perm (r : igrec) : bool := ig_flags r &? IGREC_PERM.

Section Ignores.

(** The function pointers [rfc_casecmp] and [rfc_toupper], the setting [cidr_support]. *)
Context (rfc_casecmp : list Z -> list Z -> Z) (rfc_toupper : Z -> Z) (cidr_support : bool).

(** The string in a buffer: up to the first NUL, which an escape can be. *)
Fixpoint c_string (s : list Z) : list Z :=
  match s with [] => [] | c :: s => if c =? 0 then [] else c :: c_string s end.

(** ** The list *)

Definition match_useraddr (m n : list Z) : Z := addr_match rfc_toupper cidr_support m n true false.

(** Is this nick!user\@host being ignored? *)
Definition match_ignore (l : list igrec) (uhost : list Z) : Z :=
  if existsb (fun r => negb (match_useraddr (ig_mask r) uhost =? 0)) l then 1 else 0.

(** The loop over the links that counts [j] down, and the one that looks for the mask; the
    place of the record the link found points to. *)
Fixpoint count_links (l : list igrec) (j : Z) : option nat :=
  match l with
  | [] => None
  | _ :: l => if j =? 0 then Some O else S <$> count_links l (j - 1)
  end.
Fixpoint find_ignore (l : list igrec) (ign : list Z) : option nat :=
  match l with
  | [] => None
  | r :: l => if rfc_casecmp ign (ig_mask r) =? 0 then Some O else S <$> find_ignore l ign
  end.

(** The record that is meant, and the mask the other bots are told. *)
Definition which_ignore (l : list igrec) (ign : list Z) : option (nat * list Z) :=
  if negb (mem (ch "!") ign) && truthy (egg_atoi ign) then
    match count_links l (egg_atoi ign - 1) with
    | Some k => (fun r => (k, ig_mask r)) <$> l !! k
    | None => None
    end
  else (fun k => (k, ign)) <$> find_ignore l ign.

Definition share_del (mask : list Z) : list Z := bs "-i " ++ str_escape mask (ch ":") (ch "\") ++ [10].
Definition share_add (now : Z) (ign from mnote : list Z) (expire_time flags : Z) : list Z :=
  bs "+i " ++ str_escape ign (ch ":") (ch "\") ++ bs " " ++ li (expire_time - now) ++ bs " " ++
  [if flags &? IGREC_PERM then ch "p" else ch "-"] ++ bs " " ++ from ++ bs " " ++ mnote ++ [10].

(** The result, the list, and what is sent. *)
Definition delignore (noshare : bool) (l : list igrec) (ign : list Z) : Z * list igrec * list (list Z) :=
  match which_ignore l ign with
  | Some (k, mask_str) => (1, delete k l, if noshare then [] else [share_del mask_str])
  | None => (0, l, [])
  end.

(** The first record with the mask is filled in again. *)
Fixpoint put_ignore (p : igrec) (l : list igrec) : option (list igrec) :=
  match l with
  | [] => None
  | r :: l => if rfc_casecmp (ig_mask r) (ig_mask p) =? 0 then Some (p :: l) else cons r <$> put_ignore p l
  end.
Definition addignore (noshare : bool) (now : Z) (l : list igrec) (ign from mnote : list Z) (expire_time : Z)
  : list igrec * list (list Z) :=
  let p := {| ig_mask := ign; ig_expire := expire_time; ig_user := Some from; ig_added := now; ig_msg := Some mnote;
              ig_flags := if truthy expire_time then 0 else IGREC_PERM |} in
  (default (p :: l) (put_ignore p l),
   if noshare then [] else [share_add now ign from mnote expire_time (ig_flags p)]).

(** ** Expiry *)

Definition expired (now : Z) (r : igrec) : bool := negb (is_perm r) && (ig_expire r <=? now).

(** [u] is the link to the record at [k]; it is a field of the record before. *)
Fixpoint expire_loop (fuel : nat) (noshare : bool) (now : Z) (l : list igrec) (k : nat) (out : list (list Z))
  : result mfault (list igrec * list (list Z)) :=
  match fuel with
  | O => Err Endless
  | S fuel =>
      match l !! k with
      | None => Ok (l, out)
      | Some r =>
          if expired now r then
            let '(_, l', o) := delignore noshare l (ig_mask r) in
            match which_ignore l (ig_mask r) with
            | Some (j, _) =>
                if Nat.eqb (S j) k then Err Freed
                else expire_loop fuel noshare now l' (if Nat.ltb j k then pred k else k) (out ++ o)
            | None => expire_loop fuel noshare now l' k (out ++ o)
            end
          else expire_loop fuel noshare now l (S k) out
      end
  end.
(** Each turn passes a record or takes one off the list. *)
Definition check_expired_ignores (noshare : bool) (now : Z) (l : list igrec) : result mfault (list igrec * list (list Z)) :=
  expire_loop (S (length l)) noshare now l 0 [].

(** ** What another bot does with the lines *)

(** The arguments of the line; the list, and the line sent on to the bots other than the
    sender. *)
Definition share_pls_ignore (status now : Z) (l : list igrec) (par : list Z) : result overrun (list igrec * list (list Z)) :=
  if status &? STAT_SHARE then
    let out := [bs "+i " ++ par ++ [10]] in
    let '(ign, par) := newsplit par in
    let! ign := str_unescape ign (ch "\") in
    let '(ts, par) := newsplit par in
    let expire_time := if egg_atoi ts =? 0 then 0 else now + egg_atoi ts in
    let '(from, par) := newsplit par in
    let expire_time := if mem (ch "p") from then 0 else expire_time in
    let '(from, par) := newsplit par in
    let from := take (Z.to_nat (HANDLEN + 1)) from in
    let par := take 65 par in
    Ok (fst (addignore true now l (c_string ign) from par expire_time), out)
  else Ok (l, []).

Definition share_mns_ignore (status : Z) (l : list igrec) (par : list Z) : result overrun (list igrec * list (list Z)) :=
  if status &? STAT_SHARE then
    let out := [bs "-i " ++ par ++ [10]] in
    let! par := str_unescape par (ch "\") in
    Ok (snd (fst (delignore true l (c_string par))), out)
  else Ok (l, []).

(** ** The user file *)

Definition ignore_text (botnetnick : list Z) (i : igrec) : list Z :=
  str_escape (ig_mask i) (ch ":") (ch "\") ++ ch ":" :: (if is_perm i then [ch "+"] else []) ++ lu (ig_expire i) ++
  ch ":" :: default botnetnick (ig_user i) ++ ch ":" :: lu (ig_added i) ++ ch ":" :: default [] (ig_msg i).
Definition ignore_line (botnetnick : list Z) (i : igrec) : list Z := bs "-" ++ ch " " :: ignore_text botnetnick i ++ [10].
Definition write_ignores (botnetnick : list Z) (l : list igrec) : list (list Z) :=
  match l with [] => [] | _ => (bs "*ignore - -" ++ [10]) :: map (ignore_line botnetnick) l end.

(** A plus sign before the end time sets a flag. *)
Definition plus_flag (flag : Z) (expi : list Z) : Z * list Z :=
  match expi with 43 :: e => (flag, e) | _ => (0, expi) end.

(** [host]: the line without its first word.  A line that is no ignore leaves the list as it
    is (and is logged). *)
Definition restore_ignore (l : list igrec) (host : list Z) : result overrun (list igrec) :=
  let! (mask, expi) := strchr_unescape host (ch ":") (ch "\") [] in
  match expi with
  | None => Ok l
  | Some expi =>
      let '(flags, expi) := plus_flag IGREC_PERM expi in
      match split_at (ch ":") expi with
      | (_, None) => Ok l
      | (expi, Some user) =>
          let '(user, added, desc) :=
            match split_at (ch ":") user with
            | (user, None) => (user, bs "0", None)
            | (user, Some added) => let '(added, desc) := split_at (ch ":") added in (user, added, desc)
            end in
          Ok ({| ig_mask := c_string mask; ig_expire := egg_atoi expi; ig_user := Some user; ig_added := egg_atoi added;
                 ig_msg := desc; ig_flags := flags |} :: l)
      end
  end.

End Ignores.
