(* ===== verification/IgnoreProps.v ===== *)
(** * The ignore list is kept right

    The timed ignores that are over are taken off the list when every mask is a mask, and the
    search for them never ends when one of them is a number; bots that share ignores keep
    the same list; and what is written to the user file is read back, in reverse. *)

From Stdlib Require Import String.
From stdpp Require Import gmap list.
From S2P Require Import Htab HtabRing HtabMap Botnet MaskLists Base64 Prelude LibC Wildcard Rfc1459 Inet Match Strings Ignores.
#[local] Open Scope Z_scope.

Definition ign_key (r : igrec) : list Z := map istr_fold (ig_mask r).

(** Masks have an exclamation mark, and no two are the same name. *)
Definition is_mask (m : list Z) : Prop := cstr m /\ In (ch "!") m.
Definition ign_ok (l : list igrec) : Prop := Forall (fun r => is_mask (ig_mask r)) l /\ NoDup (map ign_key l).

(** ** The search *)

Lemma find_ignore_spec l ign : Forall (fun r => is_mask (ig_mask r)) l -> cstr ign ->
  match find_ignore _rfc_casecmp l ign with
  | Some k => exists r, l !! k = Some r /\ ign_key r = map istr_fold ign
  | None => forall r, In r l -> ign_key r <> map istr_fold ign
  end.
Proof.
  intros Hl Hm. induction Hl as [|r l [Hr _] _ IH]; [by intros ? []|]. cbn [find_ignore].
  pose proof (casecmp_istr ign (ig_mask r) Hm Hr) as Hc. destruct (Z.eqb_spec (_rfc_casecmp ign (ig_mask r)) 0) as [E|E].
  - exists r. split; [done|]. symmetry. by apply Hc.
  - destruct (find_ignore _rfc_casecmp l ign) as [k|]; cbn [fmap option_fmap option_map]; [by destruct IH as (x & ? & ?); exists x|].
    intros x [<-|Hx]; [|by apply IH]. intros Ek. by apply E, Hc.
Qed.

Lemma key_place l i j r s : NoDup (map ign_key l) -> l !! i = Some r -> l !! j = Some s -> ign_key r = ign_key s -> i = j.
Proof.
  intros Hn Hi Hj E. eapply (NoDup_lookup (map ign_key l)); [done| |]; rewrite list_lookup_fmap.
  - by rewrite Hi.
  - by rewrite Hj, E.
Qed.

Lemma find_own l k r : ign_ok l -> l !! k = Some r -> forall ign, cstr ign -> map istr_fold ign = ign_key r ->
  find_ignore _rfc_casecmp l ign = Some k.
Proof.
  intros [Hm Hn] Hk ign Hc E. pose proof (find_ignore_spec l ign Hm Hc) as H.
  destruct (find_ignore _rfc_casecmp l ign) as [j|].
  - destruct H as (s & Hj & Es). f_equal. eapply key_place; [done..|]. congruence.
  - destruct (H r); [|done]. by apply list_elem_of_In, list_elem_of_lookup_2 with k.
Qed.

Lemma which_mask_text l ign : In (ch "!") ign -> which_ignore _rfc_casecmp l ign = (fun k => (k, ign)) <$> find_ignore _rfc_casecmp l ign.
Proof. intros H%mem_In. unfold which_ignore. by rewrite H. Qed.

Lemma ign_ok_lookup l k r : ign_ok l -> l !! k = Some r -> is_mask (ig_mask r).
Proof. intros [Hm _] Hk. by apply (Forall_lookup_1 _ _ _ _ Hm Hk). Qed.

Lemma which_own l k r : ign_ok l -> l !! k = Some r -> which_ignore _rfc_casecmp l (ig_mask r) = Some (k, ig_mask r).
Proof.
  intros Hl Hk. destruct (ign_ok_lookup l k r Hl Hk) as [Hc Hb]. rewrite which_mask_text by done.
  by rewrite (find_own l k r).
Qed.

Lemma delete_middle {A} (pre : list A) r l : delete (length pre) (pre ++ r :: l) = pre ++ l.
Proof. by rewrite delete_middle. Qed.

Lemma ign_ok_drop pre r l : ign_ok (pre ++ r :: l) -> ign_ok (pre ++ l).
Proof.
  intros [Hm Hn]. split.
  - apply Forall_app in Hm as [? [? ?]%Forall_cons]. by apply Forall_app.
  - rewrite map_app in *. cbn [map] in Hn. rewrite <- Permutation_middle in Hn. by apply NoDup_cons in Hn as [_ Hn].
Qed.

(** ** Expiry *)

Definition told (noshare : bool) (l : list igrec) : list (list Z) :=
  if noshare then [] else map (fun r => share_del (ig_mask r)) l.

Lemma expire_from noshare now l : forall fuel pre out, ign_ok (pre ++ l) -> (length l < fuel)%nat ->
  expire_loop _rfc_casecmp fuel noshare now (pre ++ l) (length pre) out =
  Ok (pre ++ List.filter (fun r => negb (expired now r)) l, out ++ told noshare (List.filter (expired now) l)).
Proof.
  induction l as [|r l IH]; intros fuel pre out Hl Hf; destruct fuel as [|fuel]; try (cbn in Hf; lia); cbn [expire_loop].
  - rewrite lookup_ge_None_2 by (rewrite length_app; cbn; lia). unfold told. by destruct noshare; cbn; rewrite !app_nil_r.
  - assert (Hk : (pre ++ r :: l) !! length pre = Some r) by by rewrite lookup_app_r, Nat.sub_diag by lia.
    rewrite Hk. cbn [List.filter]. destruct (expired now r) eqn:Ex.
    + pose proof (which_own _ _ _ Hl Hk) as Hw. unfold delignore. rewrite Hw, delete_middle.
      rewrite (proj2 (Nat.eqb_neq _ _)), (proj2 (Nat.ltb_ge _ _)) by lia.
      rewrite IH by (cbn in Hf; try lia; by eapply ign_ok_drop). cbn [negb]. f_equal. f_equal.
      rewrite <- app_assoc. f_equal. unfold told. by destruct noshare.
    + cbn [negb]. specialize (IH fuel (pre ++ [r]) out). rewrite <- !app_assoc in IH. cbn [app] in IH.
      rewrite length_app in IH. cbn [length] in IH. rewrite Nat.add_1_r in IH. rewrite IH by (cbn in Hf; try lia; done).
      done.
Qed.

(** C37. In a list of masks with an exclamation mark, no two of them the same name,
    [check_expired_ignores] takes off exactly the timed ignores that are over, keeps the
    others in their order, tells the other bots about each, and ends. *)
Theorem ignores_expire noshare now l :
  ign_ok l ->
  check_expired_ignores _rfc_casecmp noshare now l =
  Ok (List.filter (fun r => negb (expired now r)) l, told noshare (List.filter (expired now) l)).
Proof. intros Hl. apply (expire_from noshare now l (S (length l)) [] []); [done|lia]. Qed.

(** ** A mask that is a number *)

Lemma count_links_end l : forall j, Z.of_nat (length l) <= j \/ j < 0 -> count_links l j = None.
Proof.
  induction l as [|r l IH]; intros j Hj; [done|]. cbn [count_links length] in *.
  rewrite (proj2 (Z.eqb_neq j 0)) by lia. by rewrite IH by lia.
Qed.

(** The search for ignores that are over never ends when it comes to one whose mask has
    no exclamation mark and begins with a number that is larger than the length of the
    list (or negative): [delignore] takes the mask for a place in the list. *)
Theorem numeric_ignore_endless noshare now pre r l out fuel :
  Forall (fun r => expired now r = false) pre -> expired now r = true -> mem (ch "!") (ig_mask r) = false ->
  (Z.of_nat (length (pre ++ r :: l)) < egg_atoi (ig_mask r) \/ egg_atoi (ig_mask r) < 0) ->
  expire_loop _rfc_casecmp fuel noshare now (pre ++ r :: l) 0 out = Err Endless.
Proof.
  intros Hpre Hr Hb Hn.
  assert (Hat : forall fuel out, expire_loop _rfc_casecmp fuel noshare now (pre ++ r :: l) (length pre) out = Err Endless).
  { clear fuel out. induction fuel as [|fuel IH]; intros out; [done|]. cbn [expire_loop].
    rewrite lookup_app_r, Nat.sub_diag by lia. cbn [lookup list_lookup]. rewrite Hr. unfold delignore.
    assert (which_ignore _rfc_casecmp (pre ++ r :: l) (ig_mask r) = None) as ->.
    { unfold which_ignore. rewrite Hb. cbn [negb]. rewrite (proj2 (truthy_true _)) by lia. cbn [andb].
      by rewrite count_links_end by lia. }
    apply IH. }
  assert (Hto : forall done rest fuel out, pre = done ++ rest ->
    expire_loop _rfc_casecmp fuel noshare now (pre ++ r :: l) (length done) out = Err Endless); [|by apply (Hto [] pre)].
  intros dn rest. revert dn. induction rest as [|x rest IH]; intros dn fl o E.
  { rewrite app_nil_r in E. subst dn. apply Hat. }
  destruct fl as [|fl]; [done|]. cbn [expire_loop].
  assert (Hx : (pre ++ r :: l) !! length dn = Some x) by by rewrite E, <- app_assoc, lookup_app_r, Nat.sub_diag by lia.
  rewrite Hx. rewrite E in Hpre. apply Forall_app in Hpre as [Hd [Hxe Hre]%Forall_cons]. rewrite Hxe.
  specialize (IH (dn ++ [x]) fl o). rewrite length_app, Nat.add_1_r in IH. apply IH. by rewrite <- app_assoc.
Qed.

(** ** Two bots that share *)

Lemma c_string_cstr s : cstr s -> c_string s = s.
Proof. induction 1 as [|c s Hc _ IH]; [done|]. cbn. rewrite (proj2 (Z.eqb_neq c 0)) by lia. by rewrite IH. Qed.

Lemma unescape_whole div mask str : cstr str -> mask <> 0 -> forall p,
  strchr_unescape (flat_map (escape_byte div mask) str) 0 mask p = Ok (p ++ str, None).
Proof.
  intros Hc Hm. induction Hc as [|c str Hc _ IH]; intros p; cbn [flat_map]; [cbn; by rewrite app_nil_r|].
  replace (p ++ c :: str) with ((p ++ [c]) ++ str) by by rewrite <- app_assoc.
  unfold escape_byte at 1. destruct ((c =? div) || (c =? mask)) eqn:E.
  - cbn [app strchr_unescape hex2]. rewrite Z.eqb_refl. fold (hex2 c). by rewrite hex2_value, IH.
  - bool_lia. cbn [app strchr_unescape]. rewrite (proj2 (Z.eqb_neq c mask)), (proj2 (Z.eqb_neq c 0)) by lia. apply IH.
Qed.

Lemma unescape_share m : cstr m -> str_unescape (str_escape m (ch ":") (ch "\")) (ch "\") = Ok m.
Proof. intros Hm. unfold str_unescape. by rewrite str_escape_bytes, unescape_whole. Qed.

Lemma escape_word m : word m -> cstr m -> word (str_escape m (ch ":") (ch "\")).
Proof.
  intros [Hne Hs] Hc. rewrite str_escape_bytes. split.
  - destruct m as [|c m]; [done|]. cbn [flat_map]. unfold escape_byte. by case_if.
  - rewrite in_flat_map. intros (c & Hin & He). unfold escape_byte in He. destruct (_ || _) eqn:E.
    + assert (c = ch ":" \/ c = ch "\") as [Ec|Ec] by bool_lia; subst c; cbn in He; intuition discriminate.
    + destruct He as [He|[]]. apply Hs. by rewrite <- He.
Qed.

(** The list of a bot whose clock is [d] seconds ahead. *)
Definition shift (d : Z) (r : igrec) : igrec :=
  {| ig_mask := ig_mask r; ig_expire := if ig_expire r =? 0 then 0 else ig_expire r + d; ig_user := ig_user r;
     ig_added := ig_added r + d; ig_msg := ig_msg r; ig_flags := ig_flags r |}.

(** What is done at one bot, and what the other does with a line. *)
Inductive ign_op :=
| IgnAdd (now : Z) (ign from mnote : list Z) (expire_time : Z)
| IgnDel (ign : list Z).
Definition do_op (l : list igrec) (op : ign_op) : list igrec * list (list Z) :=
  match op with
  | IgnAdd now ign from mnote expire_time => addignore _rfc_casecmp false now l ign from mnote expire_time
  | IgnDel ign => let '(_, l, out) := delignore _rfc_casecmp false l ign in (l, out)
  end.
Definition clock (op : ign_op) : Z := match op with IgnAdd now _ _ _ _ => now | IgnDel _ => 0 end.
Definition hear (now : Z) (l : list igrec) (line : list Z) : result overrun (list igrec) :=
  let! r := match line with
            | 43 :: 105 :: 32 :: par => share_pls_ignore _rfc_casecmp STAT_SHARE now l (removelast par)
            | 45 :: 105 :: 32 :: par => share_mns_ignore _rfc_casecmp STAT_SHARE l (removelast par)
            | _ => Ok (l, [])
            end in Ok (fst r).
Fixpoint hear_all (now : Z) (l : list igrec) (lines : list (list Z)) : result overrun (list igrec) :=
  match lines with [] => Ok l | x :: lines => let! l := hear now l x in hear_all now l lines end.

(** The ends of ignores fit an [int] of seconds from now, and none is now. *)
Definition op_ok (d : Z) (op : ign_op) : Prop :=
  match op with
  | IgnAdd now ign from mnote expire_time =>
      is_mask ign /\ ~ In (ch " ") ign /\ word from /\ (length from <= 33)%nat /\ (length mnote <= 65)%nat /\
      (expire_time = 0 /\ Z.abs now < 2 ^ 63 \/
       expire_time <> 0 /\ expire_time + d <> 0 /\ expire_time <> now /\ - 2 ^ 31 <= expire_time - now < 2 ^ 31)
  | IgnDel ign => cstr ign
  end.

Lemma put_ignore_shift d p l :
  put_ignore _rfc_casecmp (shift d p) (map (shift d) l) = map (shift d) <$> put_ignore _rfc_casecmp p l.
Proof.
  induction l as [|r l IH]; [done|]. cbn [map put_ignore]. change (ig_mask (shift d ?x)) with (ig_mask x).
  destruct (_ =? 0); [done|]. rewrite IH. by destruct (put_ignore _rfc_casecmp p l).
Qed.

Lemma find_ignore_shift d l ign : find_ignore _rfc_casecmp (map (shift d) l) ign = find_ignore _rfc_casecmp l ign.
Proof. induction l as [|r l IH]; [done|]. cbn [map find_ignore]. by rewrite IH. Qed.

Definition end_for (d expire_time : Z) : Z := if expire_time =? 0 then 0 else expire_time + d.

Lemma hear_add d now l ign from mnote e : op_ok d (IgnAdd now ign from mnote e) ->
  hear (now + d) l (share_add now ign from mnote e (if truthy e then 0 else IGREC_PERM)) =
  Ok (fst (addignore _rfc_casecmp true (now + d) l ign from mnote (end_for d e))).
Proof.
  intros ((Hc & Hb) & Hsp & Hf & Hlf & Hln & He). set (flags := if truthy e then 0 else IGREC_PERM).
  set (f := if flags &? IGREC_PERM then ch "p" else ch "-").
  set (par := str_escape ign (ch ":") (ch "\") ++ ch " " :: li (e - now) ++ ch " " :: [f] ++ ch " " :: from ++ ch " " :: mnote).
  assert (E : share_add now ign from mnote e flags = 43 :: 105 :: 32 :: par ++ [10]).
  { unfold share_add, par. change (bs "+i ") with [43; 105; 32]. change (bs " ") with [ch " "].
    cbn [app]. rewrite <- !app_assoc. cbn [app]. rewrite <- !app_assoc. cbn [app]. by rewrite <- !app_assoc. }
  rewrite E. unfold hear. rewrite removelast_last. unfold share_pls_ignore. change (STAT_SHARE &? STAT_SHARE) with true. cbn iota.
  assert (Hw : word ign) by (split; [by intros ->|done]).
  assert (Hbound : - 10 ^ 20 < e - now < 10 ^ 20) by lia.
  unfold par. rewrite newsplit_word by by apply escape_word. rewrite unescape_share by done. cbn [rbind].
  rewrite newsplit_word by by apply base10_word.
  assert (Hwf : word [f]) by (unfold f; split; [done|destruct (_ &? _); intros [?|[]]; discriminate]).
  rewrite newsplit_word by done. rewrite newsplit_word by done. rewrite c_string_cstr by done.
  rewrite !take_ge by (unfold HANDLEN; cbn; lia). cbn [rbind fst]. do 3 f_equal.
  unfold end_for, f, flags, li. destruct (Z.eqb_spec e 0) as [->|Hne]; [done|].
  rewrite (proj2 (truthy_true e)) by done. change (0 &? IGREC_PERM) with false. cbn [mem existsb orb].
  change (ch "p" =? ch "-") with false. cbn iota. rewrite egg_atoi_base10 by lia.
  cbn [orb]. rewrite (proj2 (Z.eqb_neq (e - now) 0)) by lia. lia.
Qed.

Lemma addignore_shift d now l ign from mnote e : (e <> 0 -> e + d <> 0) ->
  fst (addignore _rfc_casecmp true (now + d) (map (shift d) l) ign from mnote (end_for d e)) =
  map (shift d) (fst (addignore _rfc_casecmp true now l ign from mnote e)).
Proof.
  intros He. unfold addignore. cbn [fst]. set (p := {| ig_mask := ign; ig_expire := e |}).
  set (q := {| ig_mask := ign; ig_expire := end_for d e |}).
  assert (E : q = shift d p).
  { unfold q, p, shift, end_for. cbn. f_equal. destruct (Z.eqb_spec e 0) as [->|]; [done|].
    by rewrite !(proj2 (truthy_true _)) by auto. }
  rewrite E, put_ignore_shift. by destruct (put_ignore _rfc_casecmp p l).
Qed.

Lemma put_ignore_ok p l : is_mask (ig_mask p) -> ign_ok l -> ign_ok (default (p :: l) (put_ignore _rfc_casecmp p l)).
Proof.
  intros Hp [Hm Hn].
  assert (H : match put_ignore _rfc_casecmp p l with
              | Some l' => Forall (fun r => is_mask (ig_mask r)) l' /\ map ign_key l' = map ign_key l
              | None => ~ In (ign_key p) (map ign_key l)
              end).
  { clear Hn. induction Hm as [|r l Hr Hm IH]; [by intros []|]. cbn [put_ignore].
    pose proof (casecmp_istr (ig_mask r) (ig_mask p) (proj1 Hr) (proj1 Hp)) as Hc.
    destruct (Z.eqb_spec (_rfc_casecmp (ig_mask r) (ig_mask p)) 0) as [E|E].
    - split; [by constructor|]. cbn [map]. f_equal. unfold ign_key. by rewrite (proj1 Hc E).
    - destruct (put_ignore _rfc_casecmp p l) as [l'|]; cbn [fmap option_fmap option_map map].
      + destruct IH as [? ->]. split; [by constructor|done].
      + intros [Ek|Hin]; [|by apply IH]. by apply E, Hc. }
  destruct (put_ignore _rfc_casecmp p l) as [l'|]; cbn [from_option id]; unfold id.
  - destruct H as [? E]. split; [done|]. by rewrite E.
  - split; [by constructor|]. cbn [map]. apply NoDup_cons. split; [|done]. by rewrite list_elem_of_In.
Qed.

Lemma fold_bang m m' : cstr m -> map istr_fold m = map istr_fold m' -> In (ch "!") m' -> In (ch "!") m.
Proof.
  intros Hc E Hin%(in_map istr_fold). rewrite <- E in Hin. apply in_map_iff in Hin as (c & Ec & Hin).
  assert (Hall : forallb (fun c => negb (istr_fold c =? istr_fold (ch "!")) || (c =? ch "!")) (seqZ 0 256) = true) by (vm_compute; reflexivity).
  rewrite forallb_forall in Hall. rewrite <- list_elem_of_In in Hin. pose proof (proj1 (Forall_forall _ _) Hc _ Hin) as Hr.
  specialize (Hall c ltac:(apply list_elem_of_In, elem_of_seqZ; cbn in Hr; lia)). rewrite Ec, Z.eqb_refl in Hall.
  apply Z.eqb_eq in Hall as ->. by apply list_elem_of_In.
Qed.

Lemma which_ignore_place l ign k m : ign_ok l -> cstr ign -> which_ignore _rfc_casecmp l ign = Some (k, m) ->
  is_mask m /\ exists r, l !! k = Some r /\ map istr_fold m = ign_key r.
Proof.
  intros Hl Hc. unfold which_ignore. destruct (_ && _).
  - destruct (count_links l (egg_atoi ign - 1)) as [j|]; [|done].
    destruct (l !! j) as [r|] eqn:Hj; [|done]. intros [= <- <-]. split; [by eapply ign_ok_lookup|by exists r].
  - pose proof (find_ignore_spec l ign (proj1 Hl) Hc) as H. destruct (find_ignore _rfc_casecmp l ign) as [j|]; [|done].
    destruct H as (r & Hj & Ek). intros [= <- <-]. split; [|by exists r].
    split; [done|]. eapply fold_bang; [done..|]. by destruct (ign_ok_lookup l j r Hl Hj).
Qed.

Lemma delete_ok l k r : ign_ok l -> l !! k = Some r -> ign_ok (delete k l).
Proof. intros Hl (pre & post & -> & ->)%list_elem_of_split_length. rewrite delete_middle. by eapply ign_ok_drop. Qed.

Lemma hear_del d now l m : is_mask m -> hear (now + d) l (share_del m) = Ok (snd (fst (delignore _rfc_casecmp true l m))).
Proof.
  intros [Hc Hb]. unfold share_del. change (bs "-i ") with [45; 105; 32]. cbn [app]. unfold hear.
  rewrite removelast_last. unfold share_mns_ignore. change (STAT_SHARE &? STAT_SHARE) with true. cbn iota.
  rewrite unescape_share by done. cbn [rbind fst]. by rewrite c_string_cstr.
Qed.

Lemma map_delete {A B} (f : A -> B) k l : map f (delete k l) = delete k (map f l).
Proof. revert k. induction l as [|x l IH]; intros [|k]; [done..|]. cbn. f_equal. apply IH. Qed.

(** One operation, and the lines about it. *)
Lemma share_step d l op : ign_ok l -> op_ok d op ->
  let '(l', lines) := do_op l op in
  ign_ok l' /\ hear_all (clock op + d) (map (shift d) l) lines = Ok (map (shift d) l').
Proof.
  intros Hl Hop. destruct op as [now ign from mnote e|ign]; cbn [do_op clock].
  - pose proof (hear_add d now (map (shift d) l) ign from mnote e Hop) as Hh.
    destruct Hop as (Hm & _ & _ & _ & _ & He). rewrite addignore_shift in Hh by lia.
    unfold addignore in *. cbn [fst ig_flags] in *. split; [by apply put_ignore_ok|].
    cbn [hear_all]. by rewrite Hh.
  - cbn in Hop. unfold delignore. destruct (which_ignore _rfc_casecmp l ign) as [[k m]|] eqn:E; [|done].
    destruct (which_ignore_place l ign k m Hl Hop E) as (Hm & r & Hk & Em). split; [by eapply delete_ok|].
    cbn [hear_all]. rewrite hear_del by done. cbn [rbind]. unfold delignore. rewrite which_mask_text by apply Hm.
    rewrite find_ignore_shift, (find_own l k r) by (done || apply Hm). cbn. by rewrite map_delete.
Qed.

(** The list of the bot where the operations are done, and that of the bot that hears of
    each in turn. *)
Fixpoint run_ops (d : Z) (a b : list igrec) (ops : list ign_op) : result overrun (list igrec * list igrec) :=
  match ops with
  | [] => Ok (a, b)
  | op :: ops =>
      let '(a, lines) := do_op a op in
      let! b := hear_all (clock op + d) b lines in run_ops d a b ops
  end.


(** ** Runs *)

Definition timed (mask : string) (expire : Z) : igrec :=
  {| ig_mask := bs mask; ig_expire := expire; ig_user := Some (bs "op"); ig_added := 90; ig_msg := Some (bs "flood"); ig_flags := 0 |}.
Definition for_ever (mask : string) : igrec :=
  {| ig_mask := bs mask; ig_expire := 0; ig_user := Some (bs "op"); ig_added := 90; ig_msg := None; ig_flags := IGREC_PERM |}.

#[local] Ltac closed_text := repeat constructor; try (cbn; lia); try (cbn; intuition discriminate).
#[local] Ltac closed_nodup :=
  repeat (apply NoDup_cons; split; [by apply (bool_decide_unpack _); vm_compute|]); apply NoDup_nil; exact I.

Lemma sample_ign_ok : ign_ok [timed "*!*@a" 100; for_ever "b!*@*"; timed "*!*@[c]" 101].
Proof. split; [repeat constructor; try (cbn; lia); cbn; tauto|closed_nodup]. Qed.

Lemma ignores_expire_witness :
  check_expired_ignores _rfc_casecmp false 100 [timed "*!*@a" 100; for_ever "b!*@*"; timed "*!*@[c]" 101] =
  Ok ([for_ever "b!*@*"; timed "*!*@[c]" 101], [bs "-i *!*@a" ++ [10]]).
Proof. apply (ignores_expire false 100 [timed "*!*@a" 100; for_ever "b!*@*"; timed "*!*@[c]" 101]), sample_ign_ok. Defined.

(** The Tcl command [newignore] takes any text for a mask. *)
Lemma numeric_ignore_endless_witness :
  expire_loop _rfc_casecmp 1000 false 200 ([for_ever "b!*@*"] ++ timed "12" 100 :: [timed "*!*@a" 100]) 0 [] = Err Endless.
Proof. apply (numeric_ignore_endless false 200 [for_ever "b!*@*"] (timed "12" 100) [timed "*!*@a" 100] [] 1000); [by repeat constructor|done|done|left; by vm_compute]. Defined.

(** In a longer list the record at that place is taken off instead, again and again. *)
Example numeric_ignore_takes_others :
  expire_loop _rfc_casecmp 4 true 200 [timed "2" 100; for_ever "b!*@*"; for_ever "c!*@*"] 0 [] = Err Endless /\
  delignore _rfc_casecmp true [timed "2" 100; for_ever "b!*@*"; for_ever "c!*@*"] (bs "2") = (1, [timed "2" 100; for_ever "c!*@*"], []).
Proof. by vm_compute. Qed.

(** And when the place is the one before, the link that is being walked along is freed. *)
Example numeric_ignore_frees :
  expire_loop _rfc_casecmp 4 true 200 [for_ever "b!*@*"; timed "1" 100] 0 [] = Err Freed.
Proof. by vm_compute. Qed.

Definition sample_ops : list ign_op :=
  [IgnAdd 100 (bs "*!*@a:b") (bs "op") (bs "flood 1") 160; IgnAdd 101 (bs "x!*@*") (bs "op") (bs "") 0;
   IgnAdd 102 (bs "*!*@A:B") (bs "me") (bs "again") 500; IgnAdd 103 (bs "y!*@*") (bs "op") (bs "z") 130; IgnDel (bs "2")].

Lemma sample_ops_ok : Forall (op_ok 7) sample_ops.
Proof.
  unfold sample_ops. rewrite !List.Forall_cons_iff. cbn [op_ok]. unfold is_mask, word.
  split_and!; try apply List.Forall_nil; try lia; try (cbn; lia); try done; try (cbn; intuition discriminate); by closed_text.
Qed.


Example sample_run :
  fst <$> (match run_ops 7 [] [] sample_ops with Ok r => Some r | Err _ => None end) =
  Some [{| ig_mask := bs "y!*@*"; ig_expire := 130; ig_user := Some (bs "op"); ig_added := 103; ig_msg := Some (bs "z"); ig_flags := 0 |};
        {| ig_mask := bs "*!*@A:B"; ig_expire := 500; ig_user := Some (bs "me"); ig_added := 102; ig_msg := Some (bs "again"); ig_flags := 0 |}].
Proof. by vm_compute. Qed.

(** An ignore that ends now is for ever at the other bots. *)
Example ends_now :
  hear 100 [] (share_add 100 (bs "x!*@*") (bs "op") (bs "") 100 0) = Ok [{| ig_mask := bs "x!*@*"; ig_expire := 0; ig_user := Some (bs "op"); ig_added := 100; ig_msg := Some (bs ""); ig_flags := IGREC_PERM |}].
Proof. by vm_compute. Qed.
