(* ===== verification/MaskFile.v ===== *)
(** * Masks and ignores in the user file (src/users.c, channels.mod/userchan.c, userrec.c)

    [write_bans], [write_exempts], [write_invites] and [write_ignores] append their sections to
    the user file; [readuserfile] finds its way back by the first word of each line.  The part
    of the file that holds the users is not read here. *)

From stdpp Require Import gmap list.
From S2P Require Import Botnet FlagDefs FlagText UserRec CidrTbl Htab MaskLists Base64 Prelude LibC Wildcard Rfc1459 Inet Match Strings Ignores.
#[local] Open Scope Z_scope.

(** ** Writing *)

Definition BAN_NAME : list Z := bs "*ban".
Definition IGNORE_NAME : list Z := bs "*ignore".
Definition EXEMPT_NAME : list Z := bs "*exempt".
Definition INVITE_NAME : list Z := bs "*Invite".
Definition CHANMETA : list Z := bs "#&!+".

Definition section_name (k : kind) : list Z :=
  match k with Ban => BAN_NAME | Exempt => EXEMPT_NAME | Invite => INVITE_NAME end.
Definition sigil (k : kind) : list Z := match k with Ban => bs "-" | Exempt => bs "%" | Invite => bs "@" end.
Definition chan_sigil (k : kind) : list Z := match k with Ban => bs "::" | Exempt => bs "&&" | Invite => bs "$$" end.
Definition plural_of (k : kind) : list Z := match k with Ban => bs "bans" | Exempt => bs "exempts" | Invite => bs "invites" end.
Definition newline : list Z := [10].

(** The rest of the line after its first word. *)
Definition mask_text (b : maskrec) : list Z :=
  str_escape (m_mask b) (ch ":") (ch "\") ++ ch ":" :: (if m_flags b &? MASKREC_PERM then [ch "+"] else []) ++
  lu (m_expire b) ++ (if m_flags b &? MASKREC_STICKY then [ch "*"] else []) ++ ch ":" :: ch "+" ::
  lu (m_added b) ++ ch ":" :: lu (m_lastactive b) ++ ch ":" :: m_user b ++ ch ":" :: m_desc b.
Definition mask_line (k : kind) (b : maskrec) : list Z := sigil k ++ ch " " :: mask_text b ++ newline.

(** The three lists, global ([global_bans], ...) or of a channel. *)
Record by_kind (A : Type) := mk_kinds { bans : A; exempts : A; invites : A }.
Arguments mk_kinds {A} _ _ _.
Arguments bans {A} _.
Arguments exempts {A} _.
Arguments invites {A} _.
Definition of_kind {A} (k : kind) (l : by_kind A) : A :=
  match k with Ban => bans l | Exempt => exempts l | Invite => invites l end.
Definition at_kind {A} (k : kind) (a : A) (l : by_kind A) : by_kind A :=
  match k with
  | Ban => mk_kinds a (exempts l) (invites l)
  | Exempt => mk_kinds (bans l) a (invites l)
  | Invite => mk_kinds (bans l) (exempts l) a
  end.
Definition map_kinds {A B} (f : A -> B) (l : by_kind A) : by_kind B := mk_kinds (f (bans l)) (f (exempts l)) (f (invites l)).

(** A channel: its name, whether it is shared, and its three lists. *)
Record chan_masks := {
  cm_dname : list Z;
  cm_shared : bool;
  cm_lists : by_kind masks
}.
Definition cm_list (c : chan_masks) (k : kind) : masks := of_kind k (cm_lists c).
Definition set_list (k : kind) (m : masks) (c : chan_masks) : chan_masks :=
  {| cm_dname := cm_dname c; cm_shared := cm_shared c; cm_lists := at_kind k m (cm_lists c) |}.

(** For the file ([None]) every channel is written; for a bot, the shared ones it may have, by
    the flags [get_user_flagrec] says its user has. *)
Definition may_have (bot : option (list Z -> flag_record)) (c : chan_masks) : bool :=
  match bot with
  | None => true
  | Some fr => cm_shared c && ((fr_chan (fr (cm_dname c)) &? BOT_AGGRESSIVE) || (fr_bot (fr (cm_dname c)) &? BOT_GLOBAL))
  end.
Definition chan_section (k : kind) (c : chan_masks) : list (list Z) :=
  (chan_sigil k ++ cm_dname c ++ ch " " :: plural_of k ++ newline) :: map (mask_line k) (recs (cm_list c k)).
Definition global_section (k : kind) (us : list maskrec) : list (list Z) :=
  match us with [] => [] | _ => (section_name k ++ bs " - -" ++ newline) :: map (mask_line k) us end.
Definition write_masks (bot : option (list Z -> flag_record)) (k : kind) (us : list maskrec) (cs : list chan_masks) : list (list Z) :=
  global_section k us ++ flat_map (fun c => if may_have bot c then chan_section k c else []) cs.
Definition write_bans bot us cs := write_masks bot Ban us cs.
Definition write_exempts bot us cs := write_masks bot Exempt us cs.
Definition write_invites bot us cs := write_masks bot Invite us cs.

(** What is restored: the global lists and those of the channels. *)
Record mask_store := {
  ms_ign : list igrec;
  ms_globals : by_kind masks;
  ms_chans : list chan_masks
}.
Definition ms_global (s : mask_store) (k : kind) : masks := of_kind k (ms_globals s).
(** [channels_writeuserfile], after the ignores. *)
Definition channels_writeuserfile (s : mask_store) : list (list Z) :=
  write_bans None (recs (ms_global s Ban)) (ms_chans s) ++
  write_exempts None (recs (ms_global s Exempt)) (ms_chans s) ++
  write_invites None (recs (ms_global s Invite)) (ms_chans s).

(** ** Reading *)

(** [rmspace]: without the white space at both ends. *)
Definition rmspace (s : list Z) : list Z := skip_space (rev (skip_space (rev s))).

(** [restore_chanban], [restore_chanexempt], [restore_chaninvite] for one list.  A line that
    is malformed leaves the list as it is. *)
Definition sticky_field (expi : list Z) : Z * list Z :=
  match rev expi with 42 :: e => (MASKREC_STICKY, rev e) | _ => (0, expi) end.
Definition restore_mask (now : Z) (m : masks) (line : list Z) : result overrun masks :=
  let! (host, expi) := strchr_unescape line (ch ":") (ch "\") [] in
  let host := c_string host in
  match expi with
  | None => Ok m
  | Some expi =>
      let '(flags, expi) := plus_flag MASKREC_PERM expi in
      match split_at (ch ":") expi with
      | (_, None) => Ok m
      | (expi, Some add) =>
          let '(sticky, expi) := sticky_field expi in
          let flags := Z.lor flags sticky in
          match add with
          | 43 :: _ =>
              match split_at (ch ":") add with
              | (add, Some last) =>
                  match split_at (ch ":") last with
                  | (last, Some user) =>
                      match split_at (ch ":") user with
                      | (user, Some desc) =>
                          Ok (addmask_fully m host user desc (egg_atoi expi) flags (egg_atoi add) (egg_atoi last))
                      | _ => Ok m
                      end
                  | _ => Ok m
                  end
              | _ => Ok m
              end
          | _ =>
              match split_at (ch ":") add with
              | (user, Some desc) => Ok (addmask_fully m host user desc (egg_atoi expi) flags now 0)
              | _ => Ok m
              end
          end
      end
  end.

(** A line that begins a user, and the ends of the program for a bad first line. *)
Inductive rfault := UserPart | BadEscape | OldFormat | Invalid.
Definition escapes {A} (r : result overrun A) : result rfault A :=
  match r with Ok a => Ok a | Err _ => Err BadEscape end.

(** [lasthand], [cst] (the place of the channel) and the lists; there is no user ([u]). *)
Record rstate := { r_hand : list Z; r_cst : option nat; r_store : mask_store }.
Definition set_hand (hand : list Z) (st : rstate) : rstate :=
  {| r_hand := hand; r_cst := r_cst st; r_store := r_store st |}.

Definition set_global (k : kind) (m : masks) (s : mask_store) : mask_store :=
  {| ms_ign := ms_ign s; ms_globals := at_kind k m (ms_globals s); ms_chans := ms_chans s |}.
Definition set_chans (cs : list chan_masks) (s : mask_store) : mask_store :=
  {| ms_ign := ms_ign s; ms_globals := ms_globals s; ms_chans := cs |}.
Definition set_ign (l : list igrec) (s : mask_store) : mask_store :=
  {| ms_ign := l; ms_globals := ms_globals s; ms_chans := ms_chans s |}.

Section Read.

(** Whether the bot reads its own file ([*ret == userlist]) or that of another, and the time. *)
Context (own : bool) (now : Z).

(** The list of the channel, or the global one without a channel. *)
Definition restore_to (k : kind) (cst : option nat) (s : mask_store) (line : list Z) : result rfault mask_store :=
  match cst with
  | Some i =>
      match ms_chans s !! i with
      | Some c => let! m := escapes (restore_mask now (cm_list c k) line) in
                  Ok (set_chans (<[i := set_list k m c]> (ms_chans s)) s)
      | None => Ok s
      end
  | None => let! m := escapes (restore_mask now (ms_global s k) line) in Ok (set_global k m s)
  end.

Definition at_store (st : rstate) (r : result rfault mask_store) : result rfault rstate :=
  let! s := r in Ok {| r_hand := r_hand st; r_cst := r_cst st; r_store := s |}.

(** The channel of the header of a section: its list is emptied, or the section is skipped. *)
Fixpoint find_chan (cs : list chan_masks) (name : list Z) : option nat :=
  match cs with
  | [] => None
  | c :: cs => if _rfc_casecmp (cm_dname c) name =? 0 then Some O else S <$> find_chan cs name
  end.
Definition chan_header (k : kind) (st : rstate) (name : list Z) : rstate :=
  let hand := op_strlcpy name 512 in
  match find_chan (ms_chans (r_store st)) hand with
  | None => set_hand [] st
  | Some i =>
      match ms_chans (r_store st) !! i with
      | Some c =>
          if own || cm_shared c then
            {| r_hand := hand; r_cst := Some i;
               r_store := set_chans (<[i := set_list k (new_list (cm_list c k)) c]> (ms_chans (r_store st))) (r_store st) |}
          else {| r_hand := []; r_cst := None; r_store := r_store st |}
      | None => set_hand [] st
      end
  end.

(** The lines of the sections: [-], [%] and [\@]. *)
Definition dash_line (st : rstate) (s : list Z) : result rfault rstate :=
  match r_hand st, s with
  | [], _ | _, [] => Ok st
  | h :: hand, _ =>
      if mem h CHANMETA then at_store st (restore_to Ban (r_cst st) (r_store st) s)
      else if h =? ch "*" then
        match hand with
        | 105 :: _ => let! l := escapes (restore_ignore (ms_ign (r_store st)) s) in at_store st (Ok (set_ign l (r_store st)))
        | _ => at_store st (restore_to Ban None (r_store st) s)
        end
      else Err UserPart
  end.
Definition other_line (k : kind) (second : Z) (st : rstate) (s : list Z) : result rfault rstate :=
  match r_hand st, s with
  | [], _ | _, [] => Ok st
  | h :: hand, _ =>
      if (h =? ch "#") || (h =? ch "+") then at_store st (restore_to k (r_cst st) (r_store st) s)
      else if (h =? ch "*") && match hand with c :: _ => c =? second | [] => false end
      then at_store st (restore_to k None (r_store st) s)
      else Ok st
  end.

Definition read_line (st : rstate) (buf : list Z) : result rfault rstate :=
  match buf with
  | [] | 35 :: _ | 59 :: _ => Ok st
  | _ =>
      let '(code, s) := newsplit buf in
      let s := rmspace s in
      if streq code (bs "-") then dash_line st s
      else if streq code (bs "%") then other_line Exempt (ch "e") st s
      else if streq code (bs "@") then other_line Invite (ch "I") st s
      else if streq code (bs "!") then Ok st
      else if prefix_of (bs "::") code then Ok (chan_header Ban st (drop 2 code))
      else if prefix_of (bs "&&") code then Ok (chan_header Exempt st (drop 2 code))
      else if prefix_of (bs "$$") code then Ok (chan_header Invite st (drop 2 code))
      else if prefix_of (bs "--") code then Ok st
      else if existsb (fun name => _rfc_casecmp code name =? 0) [BAN_NAME; IGNORE_NAME; EXEMPT_NAME; INVITE_NAME]
      then Ok (set_hand (op_strlcpy code 512) st)
      else match code with 42 :: _ => Ok (set_hand [] st) | _ => Err UserPart end
  end.

(** [fgets]: up to a newline, or [n] bytes. *)
Fixpoint fgets_loop (n : nat) (f : list Z) : list Z * list Z :=
  match n, f with
  | O, _ | _, [] => ([], f)
  | S n, c :: f => if c =? 10 then ([10], f) else let '(s, f) := fgets_loop n f in (c :: s, f)
  end.
Definition fgets (size : nat) (f : list Z) : option (list Z * list Z) :=
  match f with [] => None | _ => Some (fgets_loop (size - 1) f) end.

(** The loop over the lines; each takes a byte at least. *)
Fixpoint read_lines (fuel : nat) (f : list Z) (st : rstate) : result rfault rstate :=
  match fuel with
  | O => Ok st
  | S fuel =>
      match fgets 512 f with
      | None => Ok st
      | Some (buf, f) => let! st := read_line st buf in read_lines fuel f st
      end
  end.

(** The opening comment; [char] is signed. *)
Definition opening (s : list Z) : result rfault unit :=
  let signed c := if 127 <? c then c - 256 else c in
  let old := match s with 35 :: c :: 118 :: _ => (signed c <? ch "4") && (ch "0" <=? signed c) | _ => false end in
  let good := match s with 35 :: c :: 118 :: _ => signed c <=? ch "4" | _ => false end in
  if old then Err OldFormat else if good then Ok tt else Err Invalid.

Definition readuserfile (f : list Z) (s : mask_store) : result rfault mask_store :=
  let s := if own then {| ms_ign := []; ms_globals := map_kinds new_list (ms_globals s); ms_chans := ms_chans s |} else s in
  let! f := match fgets 180 f with
            | Some (buf, f) => let! _ := opening buf in Ok f
            | None => Ok f
            end in
  let! st := read_lines (length f) f {| r_hand := []; r_cst := None; r_store := s |} in Ok (r_store st).

End Read.
