(* ===== verification/MaskFileProps.v ===== *)
(** * What is saved is read back

    The sections of masks and ignores of the user file, read back line by line: every list
    comes back reversed, and the exempts and invites of channels whose names begin with an
    ampersand or an exclamation mark are lost. *)

From Stdlib Require Import String.
From stdpp Require Import gmap list.
From S2P Require Import Botnet FlagDefs FlagText UserRec Htab HtabRing HtabMap CidrTbl MaskLists Base64 RegexCount Prelude LibC Wildcard Rfc1459 Inet Match Strings Ignores IgnoreProps MaskFile.
#[local] Open Scope Z_scope.

(** ** Fields of a line *)

Lemma digit_head c : isdigit c = true -> c <> 43 /\ c <> 42 /\ isspace c = false.
Proof. intros H%digit_range. split_and!; [lia..|]. unfold isspace, in_range. bool_lia. Qed.

Lemma egg_atoi_plus v : 0 <= v < 2 ^ 31 -> egg_atoi (ch "+" :: int_to_base10 v) = v.
Proof.
  intros Hv. destruct (base10_digits v) as (Hds & Hne & Hval); [lia|]. unfold egg_atoi, strtol.
  cbn [skip_space]. change (isspace (ch "+")) with false. cbn match.
  rewrite span_digits_all by done. destruct (int_to_base10 v) as [|d ds]; [done|]. cbn [fst]. rewrite Hval.
  rewrite Z.min_r by (unfold LONG_MAX; lia). by rewrite i32_small by lia.
Qed.

Definition short_num (v : Z) : Prop := 0 <= v < 2 ^ 31.
Lemma lu_num v : short_num v -> lu v = int_to_base10 v.
Proof. intros Hv. unfold short_num in Hv. apply lu_small. lia. Qed.

Lemma num_text v : short_num v -> exists d ds, int_to_base10 v = d :: ds /\ isdigit d = true /\ digits ds.
Proof.
  intros Hv. destruct (base10_digits v) as (Hds & Hne & _); [unfold short_num in Hv; lia|].
  destruct (int_to_base10 v) as [|d ds]; [done|]. exists d, ds. by apply Forall_cons in Hds.
Qed.

Lemma colon_not_num v : short_num v -> ~ In (ch ":") (int_to_base10 v).
Proof. intros Hv. apply base10_not_in; [unfold short_num in Hv; lia|done|done]. Qed.

(** A plus sign before a number, and an asterisk after one. *)
Lemma plus_flag_of flag v rest (b : bool) : short_num v ->
  plus_flag flag ((if b then [ch "+"] else []) ++ int_to_base10 v ++ rest) = (if b then flag else 0, int_to_base10 v ++ rest).
Proof.
  intros Hv. destruct b; [done|]. destruct (num_text v Hv) as (d & ds & -> & Hd & _). cbn [app].
  destruct (digit_head d Hd) as (H43 & _). unfold plus_flag.
  destruct d as [|d|d]; try done. do 6 (destruct d as [d|d|]; try done).
Qed.

Lemma sticky_of v (b : bool) : short_num v ->
  sticky_field (int_to_base10 v ++ (if b then [ch "*"] else [])) = (if b then MASKREC_STICKY else 0, int_to_base10 v).
Proof.
  intros Hv. unfold sticky_field. destruct b.
  - rewrite rev_app_distr. cbn [rev app]. by rewrite rev_involutive.
  - rewrite app_nil_r. destruct (base10_digits v) as (Hds & Hne & _); [unfold short_num in Hv; lia|].
    apply Forall_rev in Hds. destruct (rev (int_to_base10 v)) as [|d ds]; [done|].
    apply Forall_cons in Hds as [Hd _]. destruct (digit_head d Hd) as (_ & H42 & _).
    destruct d as [|d|d]; try done. do 6 (destruct d as [d|d|]; try done).
Qed.

(** ** Lines *)

Definition field : Type := list Z * list Z * list Z * Z * Z * Z * Z.
Definition fields (r : maskrec) : field := (m_mask r, m_user r, m_desc r, m_expire r, m_added r, m_lastactive r, m_flags r).

Definition edges (head last : list Z) : Prop :=
  match head with c :: _ => isspace c = false | [] => True end /\ match rev last with c :: _ => isspace c = false | [] => True end.

(** What a line can carry. *)
Record rec_ok (b : maskrec) : Prop := {
  ro_mask : cstr (m_mask b) /\ ~ In 10 (m_mask b);
  ro_user : ~ In (ch ":") (m_user b) /\ ~ In 10 (m_user b);
  ro_desc : ~ In 10 (m_desc b);
  ro_edges : edges (m_mask b) (m_desc b);
  ro_nums : short_num (m_expire b) /\ short_num (m_added b) /\ short_num (m_lastactive b);
  ro_flags : 0 <= m_flags b < 4;
  ro_length : (length (mask_text b) <= 508)%nat
}.

Lemma restore_text now m b : rec_ok b ->
  restore_mask now m (mask_text b) =
  Ok (addmask_fully m (m_mask b) (m_user b) (m_desc b) (m_expire b) (m_flags b) (m_added b) (m_lastactive b)).
Proof.
  intros [[Hc _] [Hu _] _ _ (He & Ha & Hl) Hf _]. unfold restore_mask, mask_text.
  rewrite str_escape_bytes, unescape_escape by done. cbn [strchr_unescape app]. rewrite Z.eqb_refl.
  change (ch ":" =? ch "\") with false. cbn [rbind]. rewrite c_string_cstr by done. rewrite !lu_num by done.
  rewrite plus_flag_of by done. cbv beta iota.
  rewrite app_assoc, split_at_app.
  2:{ rewrite in_app_iff. intros [Hin|Hin]; [by apply (colon_not_num _ He)|]. destruct (_ &? _); cbn in Hin; intuition discriminate. }
  rewrite sticky_of by done. cbv beta iota. cbn match.
  replace (ch "+" :: int_to_base10 (m_added b) ++ ch ":" :: int_to_base10 (m_lastactive b) ++ ch ":" :: m_user b ++ ch ":" :: m_desc b)
    with ((ch "+" :: int_to_base10 (m_added b)) ++ ch ":" :: int_to_base10 (m_lastactive b) ++ ch ":" :: m_user b ++ ch ":" :: m_desc b) by done.
  rewrite split_at_app by (intros [Hin|Hin]; [discriminate|by apply (colon_not_num _ Ha)]).
  rewrite split_at_app by by apply colon_not_num. rewrite split_at_app by done.
  rewrite egg_atoi_plus, !egg_atoi_base10 by (unfold short_num in *; lia). do 2 f_equal.
  assert (Hcases : m_flags b = 0 \/ m_flags b = 1 \/ m_flags b = 2 \/ m_flags b = 3) by lia.
  by destruct Hcases as [-> |[-> |[-> | ->]]].
Qed.

(** What an ignore is when it has been read: the bot stands in for a user that is not there. *)
Definition reread (botnetnick : list Z) (i : igrec) : igrec :=
  {| ig_mask := ig_mask i; ig_expire := ig_expire i; ig_user := Some (default botnetnick (ig_user i));
     ig_added := ig_added i; ig_msg := Some (default [] (ig_msg i)); ig_flags := ig_flags i |}.
Record ign_line_ok (botnetnick : list Z) (i : igrec) : Prop := {
  io_mask : cstr (ig_mask i) /\ ~ In 10 (ig_mask i);
  io_user : ~ In (ch ":") (default botnetnick (ig_user i)) /\ ~ In 10 (default botnetnick (ig_user i));
  io_msg : ~ In 10 (default [] (ig_msg i));
  io_edges : edges (ig_mask i) (default [] (ig_msg i));
  io_nums : short_num (ig_expire i) /\ short_num (ig_added i);
  io_flags : ig_flags i = 0 \/ ig_flags i = IGREC_PERM;
  io_length : (length (ignore_text botnetnick i) <= 508)%nat
}.

Lemma restore_ignore_text nick l i : ign_line_ok nick i -> restore_ignore l (ignore_text nick i) = Ok (reread nick i :: l).
Proof.
  intros [[Hc _] [Hu _] _ _ (He & Ha) Hf _]. unfold restore_ignore, ignore_text.
  rewrite str_escape_bytes, unescape_escape by done. cbn [strchr_unescape app]. rewrite Z.eqb_refl.
  change (ch ":" =? ch "\") with false. cbn [rbind]. rewrite c_string_cstr by done. rewrite !lu_num by done.
  rewrite plus_flag_of by done. cbv beta iota. rewrite split_at_app by by apply colon_not_num.
  rewrite split_at_app by done. rewrite split_at_app by by apply colon_not_num.
  rewrite !egg_atoi_base10 by (unfold short_num in *; lia). unfold reread. do 3 f_equal.
  unfold is_perm. by destruct Hf as [-> | ->].
Qed.

Lemma skip_space_head s : match s with c :: _ => isspace c = false | [] => True end -> skip_space s = s.
Proof. destruct s as [|c s]; [done|]. cbn. by intros ->. Qed.

Lemma rmspace_text s : match s with c :: _ => isspace c = false | [] => True end ->
  match rev s with c :: _ => isspace c = false | [] => True end -> rmspace (s ++ [10]) = s.
Proof.
  intros Hh Hl. unfold rmspace. rewrite rev_app_distr. cbn [rev app skip_space]. change (isspace 10) with true. cbn iota.
  by rewrite (skip_space_head (rev s)), rev_involutive, skip_space_head.
Qed.

Lemma escape_head c m : exists s, str_escape (c :: m) (ch ":") (ch "\") = (if (c =? ch ":") || (c =? ch "\") then ch "\" else c) :: s.
Proof.
  rewrite str_escape_bytes. cbn [flat_map]. unfold escape_byte at 1. destruct (_ || _); cbn [app hex2]; by eexists.
Qed.

Lemma head_text m rest : match m with c :: _ => isspace c = false | [] => True end ->
  match str_escape m (ch ":") (ch "\") ++ ch ":" :: rest with c :: _ => isspace c = false | [] => True end.
Proof.
  destruct m as [|c m]; intros H; [done|]. destruct (escape_head c m) as [s ->]. cbn [app]. by destruct (_ || _).
Qed.

Lemma last_text s last : match rev last with c :: _ => isspace c = false | [] => True end ->
  match rev (s ++ ch ":" :: last) with c :: _ => isspace c = false | [] => True end.
Proof. intros H. rewrite rev_app_distr. cbn [rev]. by destruct (rev last). Qed.

Lemma mask_text_end b : exists s, mask_text b = s ++ ch ":" :: m_desc b.
Proof. unfold mask_text. eexists. rewrite !app_comm_cons, !app_assoc. reflexivity. Qed.

Lemma ignore_text_end nick i : exists s, ignore_text nick i = s ++ ch ":" :: default [] (ig_msg i).
Proof. unfold ignore_text. eexists. rewrite !app_comm_cons, !app_assoc. reflexivity. Qed.

Lemma mask_line_trim b : rec_ok b -> rmspace (mask_text b ++ newline) = mask_text b.
Proof.
  intros Hb. destruct (ro_edges b Hb) as [Hh Hl]. apply rmspace_text; [by apply head_text|].
  destruct (mask_text_end b) as [s ->]. by apply last_text.
Qed.

Lemma ignore_line_trim nick i : ign_line_ok nick i -> rmspace (ignore_text nick i ++ [10]) = ignore_text nick i.
Proof.
  intros Hi. destruct (io_edges nick i Hi) as [Hh Hl]. apply rmspace_text; [by apply head_text|].
  destruct (ignore_text_end nick i) as [s ->]. by apply last_text.
Qed.

(** No newline inside a line. *)
Lemma escape_no_newline m : ~ In 10 m -> ~ In 10 (str_escape m (ch ":") (ch "\")).
Proof.
  intros Hm. rewrite str_escape_bytes, in_flat_map. intros (c & Hin & He). unfold escape_byte in He. destruct (_ || _) eqn:E.
  - assert (c = ch ":" \/ c = ch "\") as [Ec|Ec] by bool_lia; subst c; cbn in He; intuition discriminate.
  - destruct He as [He|[]]. apply Hm. by rewrite <- He.
Qed.

Lemma num_no_newline v : short_num v -> ~ In 10 (int_to_base10 v).
Proof. intros Hv. apply base10_not_in; [unfold short_num in Hv; lia|done|done]. Qed.

Lemma not_in_app {A} (x : A) a b : ~ In x a -> ~ In x b -> ~ In x (a ++ b).
Proof. rewrite in_app_iff. tauto. Qed.
Lemma not_in_cons {A} (x y : A) a : y <> x -> ~ In x a -> ~ In x (y :: a).
Proof. cbn. tauto. Qed.

Lemma mask_text_newline b : rec_ok b -> ~ In 10 (mask_text b).
Proof.
  intros [[_ Hm] [_ Hu] Hd _ (He & Ha & Hl) _ _]. unfold mask_text. rewrite !lu_num by done.
  repeat (apply not_in_app || (apply not_in_cons; [discriminate|])); try by apply num_no_newline.
  all: try done; try by apply escape_no_newline. all: destruct (_ &? _); cbn; intuition discriminate.
Qed.

Lemma ignore_text_newline nick i : ign_line_ok nick i -> ~ In 10 (ignore_text nick i).
Proof.
  intros [[_ Hm] [_ Hu] Hd _ (He & Ha) _ _]. unfold ignore_text. rewrite !lu_num by done.
  repeat (apply not_in_app || (apply not_in_cons; [discriminate|])); try by apply num_no_newline.
  all: try done; try by apply escape_no_newline. all: destruct (is_perm i); cbn; intuition discriminate.
Qed.

(** ** Sections *)

Definition line_ok (x : list Z) : Prop := exists t, x = t ++ newline /\ ~ In 10 t /\ (length x <= 511)%nat.

Lemma fgets_loop_line t f : ~ In 10 t -> forall n, (length t < n)%nat -> fgets_loop n (t ++ 10 :: f) = (t ++ [10], f).
Proof.
  induction t as [|c t IH]; intros Hn n Hlen; (destruct n as [|n]; [cbn in Hlen; lia|]); cbn [fgets_loop app].
  - by rewrite Z.eqb_refl.
  - rewrite (proj2 (Z.eqb_neq c 10)) by (intros ->; apply Hn; by left).
    rewrite IH; [done|intros ?; apply Hn; by right|cbn in Hlen; lia].
Qed.

Lemma fgets_line x f n : line_ok x -> (length x < n)%nat -> fgets n (x ++ f) = Some (x, f).
Proof.
  intros (t & -> & Ht & _) Hn. unfold fgets, newline in *. rewrite <- app_assoc. cbn [app].
  rewrite length_app in Hn. cbn [length] in Hn.
  rewrite fgets_loop_line by (done || lia). by destruct t.
Qed.

Fixpoint read_all (own : bool) (now : Z) (st : rstate) (lines : list (list Z)) : result rfault rstate :=
  match lines with [] => Ok st | x :: lines => let! st := read_line own now st x in read_all own now st lines end.

Lemma read_lines_all own now lines : Forall line_ok lines -> forall fuel st, (length (concat lines) <= fuel)%nat ->
  read_lines own now fuel (concat lines) st = read_all own now st lines.
Proof.
  induction 1 as [|x lines Hx _ IH]; intros fuel st Hf; [by destruct fuel|]. cbn [concat] in *.
  assert (Hlen : (0 < length x)%nat) by (destruct Hx as (t & -> & _); rewrite length_app; cbn; lia).
  rewrite length_app in Hf. destruct fuel as [|fuel]; [lia|]. cbn [read_lines read_all].
  rewrite fgets_line by (done || (destruct Hx as (_ & _ & _ & ?); lia)). cbn iota.
  destruct (read_line own now st x) as [st'|e]; [|done]. cbn [rbind]. apply IH. lia.
Qed.

Lemma read_all_app own now a b st : read_all own now st (a ++ b) = let! st := read_all own now st a in read_all own now st b.
Proof.
  revert st. induction a as [|x a IH]; intros st; [done|]. cbn [app read_all].
  destruct (read_line own now st x); [apply IH|done].
Qed.

(** What is in the lists. *)
Definition contents (m : masks) : list field := map fields (recs m).
Record view := { v_ign : list igrec; v_global : by_kind (list field); v_chans : list (list Z * by_kind (list field)) }.
Definition view_of (s : mask_store) : view :=
  {| v_ign := ms_ign s; v_global := map_kinds contents (ms_globals s);
     v_chans := map (fun c => (cm_dname c, map_kinds contents (cm_lists c))) (ms_chans s) |}.

Definition v_set_global (k : kind) (l : list field) (v : view) : view :=
  {| v_ign := v_ign v; v_global := at_kind k l (v_global v); v_chans := v_chans v |}.
Definition v_set_chan (i : nat) (k : kind) (l : list field) (v : view) : view :=
  {| v_ign := v_ign v; v_global := v_global v; v_chans := alter (fun x => (fst x, at_kind k l (snd x))) i (v_chans v) |}.

Lemma map_at_kind {A B} (f : A -> B) k a l : map_kinds f (at_kind k a l) = at_kind k (f a) (map_kinds f l).
Proof. by destruct k. Qed.
Lemma of_map_kinds {A B} (f : A -> B) k l : of_kind k (map_kinds f l) = f (of_kind k l).
Proof. by destruct k. Qed.
Lemma at_kind_twice {A} k (a b : A) l : at_kind k a (at_kind k b l) = at_kind k a l.
Proof. by destruct k. Qed.
Lemma of_at_kind {A} k (a : A) l : of_kind k (at_kind k a l) = a.
Proof. by destruct k. Qed.
Lemma at_kind_self {A} k (l : by_kind A) : at_kind k (of_kind k l) l = l.
Proof. by destruct k, l. Qed.

Definition with_store (s : mask_store) (st : rstate) : rstate := {| r_hand := r_hand st; r_cst := r_cst st; r_store := s |}.
Definition seen (st : rstate) : view := view_of (r_store st).

Lemma contents_add now m b : rec_ok b ->
  exists m', escapes (restore_mask now m (mask_text b)) = Ok m' /\ contents m' = fields b :: contents m.
Proof. intros Hb. rewrite restore_text by done. cbn [escapes]. by eexists. Qed.

Lemma mask_text_nonempty b : mask_text b <> [].
Proof. destruct (mask_text_end b) as [s ->]. by destruct s. Qed.

Lemma read_mask_line own now st k b : rec_ok b ->
  read_line own now st (mask_line k b) =
  match k with
  | Ban => dash_line now st (mask_text b)
  | Exempt => other_line now Exempt (ch "e") st (mask_text b)
  | Invite => other_line now Invite (ch "I") st (mask_text b)
  end.
Proof.
  intros Hb. unfold mask_line, read_line.
  assert (Hw : word (sigil k)) by (destruct k; (split; [done|]); cbn; intuition discriminate).
  rewrite newsplit_word by done. rewrite mask_line_trim by done. by destruct k.
Qed.

Lemma restore_global now k b st : rec_ok b ->
  exists s, at_store st (restore_to now k None (r_store st) (mask_text b)) = Ok (with_store s st) /\
            view_of s = v_set_global k (fields b :: of_kind k (v_global (seen st))) (seen st).
Proof.
  intros Hb. cbn [restore_to]. destruct (contents_add now (ms_global (r_store st) k) b Hb) as (m & -> & Hm).
  cbn [rbind at_store]. eexists. split; [reflexivity|]. unfold seen, view_of, v_set_global. cbn.
  by rewrite map_at_kind, of_map_kinds, Hm.
Qed.

Lemma global_line own now k b st : rec_ok b -> r_hand st = section_name k ->
  exists s, read_line own now st (mask_line k b) = Ok (with_store s st) /\
            view_of s = v_set_global k (fields b :: of_kind k (v_global (seen st))) (seen st).
Proof.
  intros Hb Hh. rewrite read_mask_line by done. pose proof (mask_text_nonempty b) as Hne.
  destruct k; unfold dash_line, other_line; rewrite Hh; destruct (mask_text b) eqn:E; try done; rewrite <- E; by apply restore_global.
Qed.

Lemma global_lines own now k us : Forall rec_ok us -> forall st, r_hand st = section_name k ->
  exists st', read_all own now st (map (mask_line k) us) = Ok st' /\
              seen st' = v_set_global k (rev (map fields us) ++ of_kind k (v_global (seen st))) (seen st).
Proof.
  induction 1 as [|b us Hb _ IH]; intros st Hh; cbn [map read_all rev app].
  - exists st. split; [done|]. unfold v_set_global. rewrite at_kind_self. by destruct (seen st).
  - destruct (global_line own now k b st Hb Hh) as (s & -> & Hv). cbn [rbind].
    destruct (IH (with_store s st) Hh) as (st' & -> & Hv'). exists st'. split; [done|]. rewrite Hv'. unfold seen at 1 2. cbn [r_store with_store].
    rewrite Hv. unfold v_set_global. cbn [v_global v_ign v_chans]. by rewrite of_at_kind, at_kind_twice, <- app_assoc.
Qed.

(** Names of channels, and the lists that are read back. *)
Definition chan_name_ok (n : list Z) : Prop :=
  cstr n /\ match n with h :: _ => mem h CHANMETA = true | [] => False end /\ ~ In 10 n /\ ~ In (ch " ") n /\ (length n <= 200)%nat.
Definition reads (k : kind) (n : list Z) : bool :=
  match k, n with
  | Ban, _ => true
  | _, h :: _ => (h =? ch "#") || (h =? ch "+")
  | _, [] => false
  end.

Lemma view_insert s i c k m : ms_chans s !! i = Some c ->
  view_of (set_chans (<[i := set_list k m c]> (ms_chans s)) s) = v_set_chan i k (contents m) (view_of s).
Proof.
  intros Hi. unfold view_of, v_set_chan. cbn. f_equal. revert i Hi.
  induction (ms_chans s) as [|x cs IH]; intros [|i] Hi; [done..| |].
  - cbn in *. injection Hi as ->. f_equal. f_equal. apply map_at_kind.
  - cbn. f_equal. by apply IH.
Qed.

Lemma restore_chan now k b st i c : rec_ok b -> r_cst st = Some i -> ms_chans (r_store st) !! i = Some c ->
  exists s, at_store st (restore_to now k (r_cst st) (r_store st) (mask_text b)) = Ok (with_store s st) /\
            view_of s = v_set_chan i k (fields b :: contents (cm_list c k)) (seen st) /\ ms_chans s !! i <> None.
Proof.
  intros Hb Hc Hi. unfold restore_to. rewrite Hc, Hi. destruct (contents_add now (cm_list c k) b Hb) as (m & -> & Hm).
  cbn [rbind at_store]. eexists. split; [reflexivity|]. split.
  - unfold seen. by rewrite (view_insert _ _ c), Hm.
  - cbn. by rewrite list_lookup_insert_eq by (apply lookup_lt_is_Some; by eexists).
Qed.

Lemma chan_line own now k b st i c : rec_ok b -> chan_name_ok (r_hand st) -> r_cst st = Some i -> ms_chans (r_store st) !! i = Some c ->
  exists s, read_line own now st (mask_line k b) = Ok (with_store s st) /\
    view_of s = (if reads k (r_hand st) then v_set_chan i k (fields b :: contents (cm_list c k)) (seen st) else seen st) /\
    exists c', ms_chans s !! i = Some c'.
Proof.
  intros Hb Hn Hc Hi. rewrite read_mask_line by done. pose proof (mask_text_nonempty b) as Hne.
  destruct (restore_chan now k b st i c Hb Hc Hi) as (s & Hr & Hv & Hs).
  destruct Hn as (_ & Hh & _). destruct (r_hand st) as [|h hand] eqn:Eh; [done|].
  assert (Hstar : h <> ch "*") by (intros ->; discriminate).
  assert (Hsome : exists c', ms_chans s !! i = Some c') by (destruct (ms_chans s !! i) as [c'|]; [by exists c'|done]).
  destruct k; unfold dash_line, other_line, reads; rewrite Eh; destruct (mask_text b) eqn:E; try done; rewrite <- E in *; clear E.
  - rewrite Hh. by exists s.
  - destruct (_ || _); [by exists s|]. rewrite (proj2 (Z.eqb_neq h _)) by done. cbn [andb]. exists (r_store st).
    split; [by destruct st|]. split; [done|]. by exists c.
  - destruct (_ || _); [by exists s|]. rewrite (proj2 (Z.eqb_neq h _)) by done. cbn [andb]. exists (r_store st).
    split; [by destruct st|]. split; [done|]. by exists c.
Qed.

Lemma alter_twice {A} (f g : A -> A) (l : list A) : forall i, alter f i (alter g i l) = alter (fun x => f (g x)) i l.
Proof. induction l as [|x l IH]; intros [|i]; [done..|]. cbn. f_equal. apply IH. Qed.

Lemma view_chan s i x : v_chans (view_of s) !! i = Some x ->
  exists c, ms_chans s !! i = Some c /\ x = (cm_dname c, map_kinds contents (cm_lists c)).
Proof.
  unfold view_of. cbn [v_chans]. rewrite list_lookup_fmap. destruct (ms_chans s !! i) as [c|]; [|done].
  intros [= <-]. by exists c.
Qed.

Lemma chan_lines own now k us : Forall rec_ok us -> forall st i x, chan_name_ok (r_hand st) -> r_cst st = Some i ->
  v_chans (seen st) !! i = Some x ->
  exists st', read_all own now st (map (mask_line k) us) = Ok st' /\
    seen st' = if reads k (r_hand st) then v_set_chan i k (rev (map fields us) ++ of_kind k (snd x)) (seen st) else seen st.
Proof.
  induction 1 as [|b us Hb _ IH]; intros st i x Hn Hc Hx; cbn [map read_all rev app].
  - exists st. split; [done|]. destruct (reads k (r_hand st)); [|done].
    unfold v_set_chan. rewrite (list_alter_ext _ id (v_chans (seen st)) (v_chans (seen st))); [rewrite list_alter_id by done; by destruct (seen st)| |done].
    intros y Hy. pose proof (eq_trans (eq_sym Hx) Hy) as [= <-]. rewrite at_kind_self. by destruct x.
  - destruct (view_chan (r_store st) i x Hx) as (c & Hi & ->). cbn [snd].
    destruct (chan_line own now k b st i c Hb Hn Hc Hi) as (s & -> & Hv & c' & Hc'). cbn [rbind].
    unfold cm_list in Hv. destruct (reads k (r_hand st)) eqn:Er.
    + destruct (IH (with_store s st) i (cm_dname c, at_kind k (fields b :: contents (of_kind k (cm_lists c))) (map_kinds contents (cm_lists c)))) as (st' & -> & Hv').
      * done.
      * done.
      * unfold seen. cbn [r_store with_store]. rewrite Hv. unfold v_set_chan. cbn [v_chans]. rewrite list_lookup_alter_eq, Hx. done.
      * exists st'. split; [done|]. rewrite Hv'. cbn [r_hand with_store snd]. rewrite Er. unfold seen at 1. cbn [r_store with_store].
        rewrite Hv. unfold v_set_chan. cbn [v_chans v_ign v_global]. rewrite of_at_kind, of_map_kinds. f_equal.
        rewrite alter_twice. apply list_alter_ext; [|done]. intros y _. cbn [fst snd].
        by rewrite at_kind_twice, <- app_assoc.
    + destruct (IH (with_store s st) i (cm_dname c, map_kinds contents (cm_lists c)) Hn Hc) as (st' & -> & Hv').
      * unfold seen. cbn [r_store with_store]. by rewrite Hv.
      * exists st'. split; [done|]. rewrite Hv'. cbn [r_hand with_store]. rewrite Er. done.
Qed.

Definition names_ok (v : view) : Prop :=
  NoDup (map (map istr_fold) (map fst (v_chans v))) /\ Forall chan_name_ok (map fst (v_chans v)).

Lemma view_names s : map fst (v_chans (view_of s)) = map cm_dname (ms_chans s).
Proof. unfold view_of. cbn. rewrite map_map. by apply map_ext. Qed.

Lemma find_chan_at cs : forall i c, NoDup (map (map istr_fold) (map cm_dname cs)) -> Forall chan_name_ok (map cm_dname cs) ->
  cs !! i = Some c -> find_chan cs (cm_dname c) = Some i.
Proof.
  induction cs as [|x cs IH]; intros i c Hn Hok Hi; [done|]. cbn [map] in *.
  apply NoDup_cons in Hn as [Hx Hn]. apply Forall_cons in Hok as [Hxok Hok]. cbn [find_chan].
  destruct i as [|i]; cbn in Hi.
  - injection Hi as ->. by rewrite (proj2 (casecmp_istr _ _ (proj1 Hxok) (proj1 Hxok)) eq_refl).
  - assert (Hin : In (cm_dname c) (map cm_dname cs)) by (apply in_map, list_elem_of_In; by eapply list_elem_of_lookup_2).
    pose proof (proj1 (List.Forall_forall _ _) Hok _ Hin) as Hcok.
    destruct (Z.eqb_spec (_rfc_casecmp (cm_dname x) (cm_dname c)) 0) as [E|E].
    + apply casecmp_istr in E; [|apply Hxok|apply Hcok]. destruct Hx. rewrite list_elem_of_In, E. by apply in_map.
    + by rewrite (IH i c).
Qed.

Lemma chan_header_read now k st i c : names_ok (seen st) -> ms_chans (r_store st) !! i = Some c ->
  exists st', read_line true now st (chan_sigil k ++ cm_dname c ++ ch " " :: plural_of k ++ newline) = Ok st' /\
    r_hand st' = cm_dname c /\ r_cst st' = Some i /\ seen st' = v_set_chan i k [] (seen st) /\ chan_name_ok (cm_dname c).
Proof.
  intros [Hn Hok] Hi. unfold seen in Hn, Hok. rewrite view_names in Hn, Hok.
  assert (Hc : chan_name_ok (cm_dname c)).
  { apply (proj1 (List.Forall_forall _ _) Hok), in_map, list_elem_of_In. by eapply list_elem_of_lookup_2. }
  assert (E : read_line true now st (chan_sigil k ++ cm_dname c ++ ch " " :: plural_of k ++ newline) = Ok (chan_header true k st (cm_dname c))).
  { unfold read_line. rewrite app_assoc, newsplit_word; [by destruct k|].
    split; [by destruct k|]. apply not_in_app; [destruct k; cbn; intuition discriminate|apply Hc]. }
  rewrite E. eexists. split; [reflexivity|]. unfold chan_header.
  assert (Hshort : op_strlcpy (cm_dname c) 512 = cm_dname c) by (apply take_ge; destruct Hc as (_ & _ & _ & _ & ?); lia).
  rewrite Hshort, (find_chan_at _ i c), Hi by done. cbn [orb r_hand r_cst]. split_and!; [done..| |done].
  unfold seen. cbn [r_store]. by rewrite (view_insert _ _ c).
Qed.

(** What comes back of a list of a channel. *)
Definition back (k : kind) (c : chan_masks) : list field :=
  if reads k (cm_dname c) then rev (map fields (recs (cm_list c k))) else [].
Definition lists_ok (k : kind) (cs : list chan_masks) : Prop := Forall (fun c => Forall rec_ok (recs (cm_list c k))) cs.

Lemma chan_section_read now k c st i x : names_ok (seen st) -> Forall rec_ok (recs (cm_list c k)) ->
  v_chans (seen st) !! i = Some x -> fst x = cm_dname c ->
  exists st', read_all true now st (chan_section k c) = Ok st' /\ seen st' = v_set_chan i k (back k c) (seen st).
Proof.
  intros Hn Hus Hx Hd. destruct (view_chan _ _ _ Hx) as (c0 & Hc0 & ->). cbn [fst] in Hd.
  destruct (chan_header_read now k st i c0 Hn Hc0) as (st1 & E & Hh & Hcst & Hv & Hok). rewrite Hd in *.
  unfold chan_section. cbn [read_all]. rewrite E. cbn [rbind].
  destruct (chan_lines true now k _ Hus st1 i (cm_dname c, at_kind k [] (map_kinds contents (cm_lists c0)))) as (st' & -> & Hv').
  - by rewrite Hh.
  - done.
  - rewrite Hv. unfold v_set_chan. cbn [v_chans]. by rewrite list_lookup_alter_eq, Hx, <- Hd.
  - exists st'. split; [done|]. rewrite Hv', Hh, Hv. unfold back. destruct (reads k (cm_dname c)); [|done].
    cbn [snd]. rewrite of_at_kind, app_nil_r. unfold v_set_chan. cbn [v_chans v_ign v_global]. f_equal.
    rewrite alter_twice. apply list_alter_ext; [|done]. intros y _. cbn [fst snd]. by rewrite at_kind_twice.
Qed.

Definition fill_chans (k : kind) (cs : list chan_masks) (xs : list (list Z * by_kind (list field))) :=
  zip_with (fun c x => (fst x, at_kind k (back k c) (snd x))) cs xs.

Lemma alter_middle {A} (f : A -> A) pre x xs : alter f (length pre) (pre ++ x :: xs) = pre ++ f x :: xs.
Proof. induction pre as [|y pre IH]; [done|]. cbn. f_equal. apply IH. Qed.

Lemma chan_sections_read now k cs : lists_ok k cs -> forall st pre xs, names_ok (seen st) ->
  v_chans (seen st) = pre ++ xs -> map fst xs = map cm_dname cs ->
  exists st', read_all true now st (flat_map (fun c => if may_have None c then chan_section k c else []) cs) = Ok st' /\
    seen st' = {| v_ign := v_ign (seen st); v_global := v_global (seen st); v_chans := pre ++ fill_chans k cs xs |}.
Proof.
  induction 1 as [|c cs Hc _ IH]; intros st pre xs Hn Hv Hd; cbn [flat_map].
  - exists st. split; [done|]. destruct xs; [|done]. unfold fill_chans. cbn [zip_with]. rewrite <- Hv. by destruct (seen st).
  - destruct xs as [|x xs]; [done|]. cbn [map] in Hd. injection Hd as Hx Hd. change (may_have None c) with true. cbn iota. rewrite read_all_app.
    destruct (chan_section_read now k c st (length pre) x) as (st1 & -> & Hv1); [done|done| |done|].
    { by rewrite Hv, lookup_app_r, Nat.sub_diag by lia. }
    cbn [rbind].
    assert (Hch : v_chans (seen st1) = (pre ++ [(fst x, at_kind k (back k c) (snd x))]) ++ xs).
    { rewrite Hv1. unfold v_set_chan. cbn [v_chans]. by rewrite Hv, alter_middle, <- app_assoc. }
    destruct (IH st1 (pre ++ [(fst x, at_kind k (back k c) (snd x))]) xs) as (st' & -> & Hv').
    + unfold names_ok in *. rewrite Hch. rewrite Hv in Hn. by rewrite <- app_assoc, !map_app in *.
    + done.
    + done.
    + exists st'. split; [done|]. rewrite Hv', Hv1. unfold v_set_chan. cbn [v_ign v_global]. f_equal.
      by rewrite <- app_assoc.
Qed.

Lemma global_section_read now k us st : Forall rec_ok us ->
  exists st', read_all true now st (global_section k us) = Ok st' /\
    seen st' = v_set_global k (rev (map fields us) ++ of_kind k (v_global (seen st))) (seen st).
Proof.
  intros Hus. destruct us as [|b us].
  - exists st. split; [done|]. unfold v_set_global. cbn [map rev app]. rewrite at_kind_self. by destruct (seen st).
  - unfold global_section. cbn [read_all].
    assert (E : read_line true now st (section_name k ++ bs " - -" ++ newline) = Ok (set_hand (section_name k) st)) by by destruct k.
    rewrite E. cbn [rbind]. by apply (global_lines true now k (b :: us) Hus (set_hand (section_name k) st)).
Qed.

Lemma write_masks_read now k us cs st : Forall rec_ok us -> lists_ok k cs -> names_ok (seen st) ->
  map fst (v_chans (seen st)) = map cm_dname cs ->
  exists st', read_all true now st (write_masks None k us cs) = Ok st' /\
    seen st' = {| v_ign := v_ign (seen st);
                  v_global := at_kind k (rev (map fields us) ++ of_kind k (v_global (seen st))) (v_global (seen st));
                  v_chans := fill_chans k cs (v_chans (seen st)) |}.
Proof.
  intros Hus Hcs Hn Hd. unfold write_masks. rewrite read_all_app.
  destruct (global_section_read now k us st Hus) as (st1 & -> & Hv1). cbn [rbind].
  destruct (chan_sections_read now k cs Hcs st1 [] (v_chans (seen st))) as (st' & -> & Hv').
  - unfold names_ok. by rewrite Hv1.
  - by rewrite Hv1.
  - done.
  - exists st'. split; [done|]. by rewrite Hv', Hv1.
Qed.

Lemma ignore_text_nonempty nick i : ignore_text nick i <> [].
Proof. destruct (ignore_text_end nick i) as [s ->]. by destruct s. Qed.

Lemma ignore_lines_read now nick l : Forall (ign_line_ok nick) l -> forall st, r_hand st = IGNORE_NAME ->
  exists st', read_all true now st (map (ignore_line nick) l) = Ok st' /\
    seen st' = {| v_ign := rev (map (reread nick) l) ++ v_ign (seen st); v_global := v_global (seen st); v_chans := v_chans (seen st) |}.
Proof.
  induction 1 as [|i l Hi _ IH]; intros st Hh; cbn [map read_all rev app]; [by exists st; destruct st|].
  assert (E : read_line true now st (ignore_line nick i) = Ok (with_store (set_ign (reread nick i :: ms_ign (r_store st)) (r_store st)) st)).
  { unfold ignore_line, read_line. rewrite newsplit_word by (split; [done|cbn; intuition discriminate]).
    rewrite ignore_line_trim by done. cbn [app streq Z.eqb Pos.eqb bs]. change (streq (bs "-") (bs "-")) with true. cbn iota.
    unfold dash_line. rewrite Hh. cbn [IGNORE_NAME bs].
    pose proof (ignore_text_nonempty nick i) as Hne. destruct (ignore_text nick i) as [|c t] eqn:Et; [done|]. rewrite <- Et.
    rewrite restore_ignore_text by done. done. }
  rewrite E. cbn [rbind].
  destruct (IH (with_store (set_ign (reread nick i :: ms_ign (r_store st)) (r_store st)) st) Hh) as (st' & -> & Hv).
  exists st'. split; [done|]. rewrite Hv. unfold seen, view_of. cbn. by rewrite <- app_assoc.
Qed.

Lemma write_ignores_read now nick l st : Forall (ign_line_ok nick) l ->
  exists st', read_all true now st (write_ignores nick l) = Ok st' /\
    seen st' = {| v_ign := rev (map (reread nick) l) ++ v_ign (seen st); v_global := v_global (seen st); v_chans := v_chans (seen st) |}.
Proof.
  intros Hl. destruct l as [|i l]; [by exists st; destruct st|]. unfold write_ignores. cbn [read_all].
  assert (E : read_line true now st (bs "*ignore - -" ++ [10]) = Ok (set_hand IGNORE_NAME st)) by done.
  rewrite E. cbn [rbind]. by apply (ignore_lines_read now nick (i :: l) Hl (set_hand IGNORE_NAME st)).
Qed.

(** ** The file *)

Record store_ok (nick : list Z) (s : mask_store) : Prop := {
  so_ign : Forall (ign_line_ok nick) (ms_ign s);
  so_globals : forall k, Forall rec_ok (recs (ms_global s k));
  so_lists : forall k, lists_ok k (ms_chans s);
  so_names : NoDup (map (map istr_fold) (map cm_dname (ms_chans s)));
  so_chans : Forall chan_name_ok (map cm_dname (ms_chans s))
}.

Lemma mask_line_ok k b : rec_ok b -> line_ok (mask_line k b).
Proof.
  intros Hb. exists (sigil k ++ ch " " :: mask_text b). unfold mask_line. split_and!.
  - by rewrite <- app_assoc.
  - apply not_in_app; [destruct k; cbn; intuition discriminate|]. apply not_in_cons; [discriminate|]. by apply mask_text_newline.
  - pose proof (ro_length b Hb). rewrite length_app. cbn [length]. rewrite length_app. destruct k; cbn; lia.
Qed.

Lemma ignore_line_ok nick i : ign_line_ok nick i -> line_ok (ignore_line nick i).
Proof.
  intros Hi. exists (bs "-" ++ ch " " :: ignore_text nick i). unfold ignore_line. split_and!.
  - by rewrite <- app_assoc.
  - apply not_in_app; [cbn; intuition discriminate|]. apply not_in_cons; [discriminate|]. by apply ignore_text_newline.
  - pose proof (io_length nick i Hi). rewrite length_app. cbn [length]. rewrite length_app. cbn. lia.
Qed.

Lemma lines_map {A} (P : A -> Prop) f l : (forall x, P x -> line_ok (f x)) -> Forall P l -> Forall line_ok (map f l).
Proof. intros Hf. induction 1; constructor; auto. Qed.

Lemma closed_line_ok t : forallb (fun c => negb (c =? 10)) t = true -> (length t <= 510)%nat -> line_ok (t ++ newline).
Proof.
  intros Ht Hl. exists t. split; [done|]. split; [|rewrite length_app; cbn; lia].
  rewrite forallb_forall in Ht. intros Hin%Ht. discriminate.
Qed.

Lemma write_masks_lines k us cs : Forall rec_ok us -> lists_ok k cs -> Forall chan_name_ok (map cm_dname cs) ->
  Forall line_ok (write_masks None k us cs).
Proof.
  intros Hus Hcs Hn. unfold write_masks. apply Forall_app. split.
  - destruct us as [|b us]; [done|]. unfold global_section. constructor.
    + rewrite app_assoc. apply closed_line_ok; [by destruct k|destruct k; cbn; lia].
    + eapply lines_map; [|exact Hus]. intros x. apply mask_line_ok.
  - induction Hcs as [|c cs Hc _ IH]; [done|]. cbn [flat_map map] in *. apply Forall_cons in Hn as [Hcn Hn].
    apply Forall_app. split; [|by apply IH]. change (may_have None c) with true. cbn iota. unfold chan_section. constructor.
    + destruct Hcn as (_ & _ & Hnl & _ & Hlen). exists (chan_sigil k ++ cm_dname c ++ ch " " :: plural_of k). split_and!.
      * by rewrite <- app_assoc, <- app_assoc.
      * repeat (apply not_in_app || (apply not_in_cons; [discriminate|])); try done; destruct k; cbn; intuition discriminate.
      * rewrite !length_app. cbn [length]. rewrite length_app. destruct k; cbn; lia.
    + eapply lines_map; [|exact Hc]. intros x. apply mask_line_ok.
Qed.

Lemma write_ignores_lines nick l : Forall (ign_line_ok nick) l -> Forall line_ok (write_ignores nick l).
Proof.
  intros Hl. destruct l as [|i l]; [done|]. unfold write_ignores. constructor; [apply (closed_line_ok (bs "*ignore - -")); [done|cbn; lia]|].
  eapply lines_map; [|exact Hl]. intros x. apply ignore_line_ok.
Qed.

Lemma fill_all cs : forall xs, map fst xs = map cm_dname cs ->
  fill_chans Invite cs (fill_chans Exempt cs (fill_chans Ban cs xs)) =
  map (fun c => (cm_dname c, mk_kinds (back Ban c) (back Exempt c) (back Invite c))) cs.
Proof.
  induction cs as [|c cs IH]; intros [|x xs] Hd; [done..|]. cbn [map] in Hd. injection Hd as Hx Hd.
  unfold fill_chans in *. cbn [zip_with map fst snd]. by rewrite Hx, IH.
Qed.

Lemma fill_names k cs xs : map fst xs = map cm_dname cs -> map fst (fill_chans k cs xs) = map cm_dname cs.
Proof.
  revert xs. induction cs as [|c cs IH]; intros [|x xs] Hd; [done..|]. cbn [map] in Hd. injection Hd as Hx Hd.
  unfold fill_chans in *. cbn [zip_with map fst]. by rewrite Hx, IH.
Qed.

Definition mask_lines (nick : list Z) (s : mask_store) : list (list Z) := write_ignores nick (ms_ign s) ++ channels_writeuserfile s.

Lemma mask_lines_ok nick s : store_ok nick s -> Forall line_ok (mask_lines nick s).
Proof.
  intros [Hi Hg Hl Hn Hc]. unfold mask_lines, channels_writeuserfile, write_bans, write_exempts, write_invites. rewrite !Forall_app.
  split_and!; [by apply write_ignores_lines|by apply write_masks_lines..].
Qed.

(** What is read back. *)
Definition saved_view (nick : list Z) (s : mask_store) : view :=
  {| v_ign := rev (map (reread nick) (ms_ign s));
     v_global := map_kinds (fun m => rev (map fields (recs m))) (ms_globals s);
     v_chans := map (fun c => (cm_dname c, mk_kinds (back Ban c) (back Exempt c) (back Invite c))) (ms_chans s) |}.

Lemma mask_lines_read nick now s st : store_ok nick s -> map cm_dname (ms_chans (r_store st)) = map cm_dname (ms_chans s) ->
  ms_ign (r_store st) = [] -> (forall k, recs (ms_global (r_store st) k) = []) ->
  exists st', read_all true now st (mask_lines nick s) = Ok st' /\ seen st' = saved_view nick s.
Proof.
  intros [Hi Hg Hl Hn Hc] Hd Hig Hgl. unfold mask_lines, channels_writeuserfile. rewrite read_all_app.
  destruct (write_ignores_read now nick (ms_ign s) st Hi) as (st1 & -> & Hv1). cbn [rbind].
  assert (Hst : map fst (v_chans (seen st)) = map cm_dname (ms_chans s)) by (unfold seen; rewrite view_names; exact Hd).
  assert (Hok : forall v, map fst (v_chans v) = map cm_dname (ms_chans s) -> names_ok v) by (intros v E; unfold names_ok; by rewrite E).
  destruct (write_masks_read now Ban (recs (ms_global s Ban)) (ms_chans s) st1) as (st2 & E2 & Hv2); [done|done| | |].
  { apply Hok. by rewrite Hv1. } { by rewrite Hv1. }
  unfold write_bans. rewrite read_all_app, E2. cbn [rbind].
  destruct (write_masks_read now Exempt (recs (ms_global s Exempt)) (ms_chans s) st2) as (st3 & E3 & Hv3); [done|done| | |].
  { apply Hok. rewrite Hv2, Hv1. by apply fill_names. } { rewrite Hv2, Hv1. by apply fill_names. }
  unfold write_exempts. rewrite read_all_app, E3. cbn [rbind].
  destruct (write_masks_read now Invite (recs (ms_global s Invite)) (ms_chans s) st3) as (st4 & E4 & Hv4); [done|done| | |].
  { apply Hok. rewrite Hv3, Hv2, Hv1. by apply fill_names, fill_names. } { rewrite Hv3, Hv2, Hv1. by apply fill_names, fill_names. }
  unfold write_invites. rewrite E4. eexists. split; [reflexivity|].
  rewrite Hv4, Hv3, Hv2, Hv1. cbn [v_ign v_global v_chans].
  rewrite fill_all by exact Hst. unfold seen, view_of, saved_view. cbn [v_ign v_global]. rewrite Hig, app_nil_r. f_equal.
  destruct (ms_globals (r_store st)) as [b e i] eqn:Eg. unfold ms_global in *. rewrite Eg in Hgl.
  pose proof (Hgl Ban) as Hb. pose proof (Hgl Exempt) as He. pose proof (Hgl Invite) as Hv. cbn in Hb, He, Hv.
  destruct (ms_globals s) as [b' e' i']. unfold contents. cbn. by rewrite Hb, He, Hv, !app_nil_r.
Qed.

(** The user file keeps the masks and the ignores: what [write_ignores], [write_bans],
    [write_exempts] and [write_invites] wrote after the opening comment, [readuserfile]
    reads into the lists of the bot, whatever was in them.  Every list comes back in
    reverse order with the same masks, creators, comments, times and flags, except that the
    exempts and the invites of a channel whose name begins with neither # nor + are lost. *)
Theorem userfile_masks_roundtrip nick now head s s0 :
  store_ok nick s -> map cm_dname (ms_chans s0) = map cm_dname (ms_chans s) ->
  line_ok head -> (length head < 180)%nat -> opening head = Ok tt ->
  exists s', readuserfile true now (head ++ concat (write_ignores nick (ms_ign s) ++ channels_writeuserfile s)) s0 = Ok s' /\
    view_of s' = {| v_ign := rev (map (reread nick) (ms_ign s));
                    v_global := map_kinds (fun m => rev (map fields (recs m))) (ms_globals s);
                    v_chans := map (fun c => (cm_dname c, mk_kinds (back Ban c) (back Exempt c) (back Invite c))) (ms_chans s) |}.
Proof.
  intros Hs Hd Hh Hlen Hop. unfold readuserfile. rewrite fgets_line by done. rewrite Hop. cbn [rbind].
  change (write_ignores nick (ms_ign s) ++ channels_writeuserfile s) with (mask_lines nick s).
  rewrite read_lines_all by (done || by apply mask_lines_ok).
  edestruct (mask_lines_read nick now s) as (st' & -> & Hv); [done|exact Hd|done|by intros []|]. cbn [rbind]. by eexists.
Qed.

(** ** A file *)

Definition a_mask (mask : string) (expire flags : Z) : maskrec :=
  {| m_ptr := 2; m_text := 1; m_mask := bs mask; m_desc := bs "no reason: none"; m_user := bs "op"; m_expire := expire;
     m_added := 90; m_lastactive := 95; m_flags := flags |}.
Definition lists_of (b e i : list maskrec) (owner : option (list Z)) : by_kind masks :=
  let l us := {| owner := owner; recs := us; ht := None; ip_trie := None; MaskLists.fresh := 3 |} in mk_kinds (l b) (l e) (l i).
Definition sample_chan (name : string) (b e i : list maskrec) : chan_masks :=
  {| cm_dname := bs name; cm_shared := false; cm_lists := lists_of b e i (Some (bs name)) |}.
Definition sample_store : mask_store :=
  {| ms_ign := [timed "*!*@a" 100; for_ever "b:!*@*"];
     ms_globals := lists_of [a_mask "*!*@evil" 0 3; a_mask "x!*@*" 200 0] [] [a_mask "f!*@*" 300 1] None;
     ms_chans := [sample_chan "#egg" [a_mask "y!*@*" 400 0] [a_mask "z!*@*" 0 2] []; sample_chan "&local" [a_mask "y!*@*" 400 0] [a_mask "z!*@*" 0 2] []] |}.
Definition empty_store : mask_store :=
  {| ms_ign := []; ms_globals := lists_of [] [] [] None; ms_chans := [sample_chan "#egg" [] [] []; sample_chan "&local" [] [] []] |}.
Definition sample_head : list Z := bs "#4v: eggdrop -- bot -- written today" ++ newline.

#[local] Ltac closed_list := repeat constructor; try (cbn; lia); try (cbn; intuition discriminate).

Lemma a_mask_ok mask expire flags : cstr (bs mask) -> ~ In 10 (bs mask) -> match bs mask with c :: _ => isspace c = false | [] => True end ->
  short_num expire -> 0 <= flags < 4 -> (length (mask_text (a_mask mask expire flags)) <= 508)%nat -> rec_ok (a_mask mask expire flags).
Proof.
  intros. split; cbn [a_mask m_mask m_user m_desc m_expire m_added m_lastactive m_flags]; unfold edges, short_num in *; split_and?; try done; try lia.
  all: cbn; intuition discriminate.
Qed.

Lemma sample_store_ok : store_ok (bs "bot") sample_store.
Proof.
  assert (H : Forall rec_ok [a_mask "*!*@evil" 0 3; a_mask "x!*@*" 200 0; a_mask "f!*@*" 300 1; a_mask "y!*@*" 400 0; a_mask "z!*@*" 0 2]).
  { repeat (apply List.Forall_cons; [apply a_mask_ok; unfold short_num; try lia; try done; try (vm_compute; lia); by closed_list|]).
    apply List.Forall_nil. }
  rewrite !List.Forall_cons_iff in H. destruct H as (H1 & H2 & H3 & H4 & H5 & _). split.
  - constructor; [|constructor; [|constructor]]; (split; unfold edges, short_num; try (split_and!; done || (cbn; lia) || by closed_list); try (cbn; intuition discriminate); try (by left); try (by right); vm_compute; lia).
  - intros []; cbn; repeat (assumption || apply List.Forall_nil || apply List.Forall_cons).
  - intros []; unfold lists_ok; cbn; repeat (assumption || apply List.Forall_nil || apply List.Forall_cons).
  - repeat (apply NoDup_cons; split; [by apply (bool_decide_unpack _); vm_compute|]); apply NoDup_nil; exact I.
  - repeat constructor; try done; try (cbn; lia); cbn; intuition discriminate.
Qed.

Lemma userfile_masks_roundtrip_witness :
  exists s', readuserfile true 1000 (sample_head ++ concat (write_ignores (bs "bot") (ms_ign sample_store) ++ channels_writeuserfile sample_store)) empty_store = Ok s' /\
    view_of s' = {| v_ign := rev (map (reread (bs "bot")) (ms_ign sample_store));
                    v_global := map_kinds (fun m => rev (map fields (recs m))) (ms_globals sample_store);
                    v_chans := [(bs "#egg", mk_kinds (map fields [a_mask "y!*@*" 400 0]) (map fields [a_mask "z!*@*" 0 2]) []);
                                (bs "&local", mk_kinds (map fields [a_mask "y!*@*" 400 0]) [] [])] |}.
Proof.
  apply (userfile_masks_roundtrip (bs "bot") 1000 sample_head sample_store empty_store);
    [exact sample_store_ok|reflexivity| |by vm_compute; lia|reflexivity].
  apply (closed_line_ok (bs "#4v: eggdrop -- bot -- written today")); [reflexivity|vm_compute; lia].
Defined.

(** The lines of the file. *)
Example sample_lines :
  channels_writeuserfile sample_store =
  map (fun s => bs s ++ newline)
    ["*ban - -"; "- *!*@evil:+0*:+90:95:op:no reason: none"; "- x!*@*:200:+90:95:op:no reason: none";
     "::#egg bans"; "- y!*@*:400:+90:95:op:no reason: none"; "::&local bans"; "- y!*@*:400:+90:95:op:no reason: none";
     "&&#egg exempts"; "% z!*@*:+0:+90:95:op:no reason: none"; "&&&local exempts"; "% z!*@*:+0:+90:95:op:no reason: none";
     "*Invite - -"; "@ f!*@*:300*:+90:95:op:no reason: none"; "$$#egg invites"; "$$&local invites"]%string.
Proof. by vm_compute. Qed.
