(* ===== verification/UserSort.v ===== *)
(** * The order of the user list (src/userrec.c)

    Before it is written the user list is sorted: bots first, hubs before alternates before
    leaves, then users by their rank, and by name where that says nothing.  [sort_userlist] is
    a merge sort on a linked list; it is shown to sort, to keep every record and to leave
    records that compare equal in their order. *)

From stdpp Require Import list sorting.
From S2P Require Import Prelude LibC FlagDefs UserRec.
#[local] Open Scope Z_scope.

(** [bot_flags(u)]: the word of the user's entry ([get_user] also moves the entry to the
    front, which changes no answer). *)
Definition bot_flags (u : userrec) : Z := entry_word USERENTRY_BOTFL (u_entries u).

(** [op_strcasecmp] *)
Fixpoint op_strcasecmp (a b : list Z) : Z :=
  match a, b with
  | [], [] => 0
  | [], y :: _ => 0 - tolower y
  | x :: _, [] => tolower x - 0
  | x :: a, y :: b => if tolower x =? tolower y then op_strcasecmp a b else tolower x - tolower y
  end.

(** Each test is that one has the flag and the other has not: the answer, or the next test. *)
Definition by_flag (fa fb flag : Z) (next : bool) : bool :=
  if truthy (Z.land (Z.land (Z.lnot fa) fb) flag) then true
  else if truthy (Z.land (Z.land fa (Z.lnot fb)) flag) then false else next.

Definition sort_compare (a b : userrec) : bool :=
  let names := 0 <? op_strcasecmp (u_handle a) (u_handle b) in
  if truthy (Z.land (Z.land (u_flags a) (u_flags b)) USER_BOT) then
    by_flag (bot_flags a) (bot_flags b) BOT_HUB
      (by_flag (bot_flags a) (bot_flags b) BOT_ALT
        (by_flag (bot_flags a) (bot_flags b) BOT_LEAF names))
  else
    by_flag (u_flags a) (u_flags b) USER_BOT
      (by_flag (u_flags a) (u_flags b) USER_OWNER
        (by_flag (u_flags a) (u_flags b) USER_MASTER
          (by_flag (u_flags a) (u_flags b) USER_OP
            (by_flag (u_flags a) (u_flags b) USER_HALFOP names)))).

(** [ms_merge]: the second list goes first only when it is smaller. *)
Fixpoint ms_merge (a : list userrec) : list userrec -> list userrec :=
  fix merge_b (b : list userrec) : list userrec :=
    match a, b with
    | [], _ => b
    | _, [] => a
    | x :: a', y :: b' => if sort_compare x y then y :: merge_b b' else x :: ms_merge a' b
    end.

(** [ms_sort] on [count] nodes; the walk to the middle makes one step less than half. *)
Fixpoint ms_sort (fuel : nat) (head : list userrec) (count : nat) : list userrec :=
  match fuel with
  | O => head
  | S fuel =>
      if Nat.ltb count 2 || bool_decide (head = []) then head
      else
        let p := Nat.pred (Nat.div count 2) in
        ms_merge (ms_sort fuel (take (S p) head) (Nat.div count 2))
                 (ms_sort fuel (drop (S p) head) (count - Nat.div count 2))
  end.

Definition sort_userlist (userlist : list userrec) : list userrec :=
  let n := length userlist in if Nat.ltb 1 n then ms_sort n userlist n else userlist.

(** ** The order *)

Lemma strcasecmp_opp a : forall b, op_strcasecmp b a = - op_strcasecmp a b.
Proof.
  induction a as [|x a IH]; intros [|y b]; cbn; [done|lia|lia|]. rewrite Z.eqb_sym.
  destruct (Z.eqb_spec (tolower x) (tolower y)); [apply IH|lia].
Qed.

Lemma strcasecmp_trans a : forall b c, cstr a -> cstr b -> cstr c ->
  op_strcasecmp a b <= 0 -> op_strcasecmp b c <= 0 -> op_strcasecmp a c <= 0.
Proof.
  induction a as [|x a IH]; intros [|y b] [|z c] Ha Hb Hc; cbn; rewrite ?cstr_cons in *; try lia.
  all: repeat match goal with H : _ /\ _ |- _ => destruct H end.
  all: try pose proof (tolower_pos x); try pose proof (tolower_pos y); try pose proof (tolower_pos z).
  all: try lia.
  destruct (Z.eqb_spec (tolower x) (tolower y)) as [E1|E1], (Z.eqb_spec (tolower y) (tolower z)) as [E2|E2].
  - rewrite (proj2 (Z.eqb_eq _ _)) by lia. by apply IH.
  - rewrite (proj2 (Z.eqb_neq _ _)) by lia. lia.
  - rewrite (proj2 (Z.eqb_neq _ _)) by lia. lia.
  - destruct (Z.eqb_spec (tolower x) (tolower z)); lia.
Qed.

(** The rank of a user; more comes first. *)
Definition has (f flag : Z) : Z := if f &? flag then 1 else 0.
Definition rank (u : userrec) : Z :=
  if u_flags u &? USER_BOT then 16 + 4 * has (bot_flags u) BOT_HUB + 2 * has (bot_flags u) BOT_ALT + has (bot_flags u) BOT_LEAF
  else 8 * has (u_flags u) USER_OWNER + 4 * has (u_flags u) USER_MASTER + 2 * has (u_flags u) USER_OP + has (u_flags u) USER_HALFOP.

Lemma by_flag_bits fa fb k next : 0 <= k ->
  by_flag fa fb (2 ^ k) next = if fa &? 2 ^ k then (if fb &? 2 ^ k then next else false) else (if fb &? 2 ^ k then true else next).
Proof.
  intros Hk. unfold by_flag. rewrite !(land_pow2_testbit _ k), !Z.land_spec, !Z.lnot_spec by done.
  by destruct (Z.testbit fa k), (Z.testbit fb k).
Qed.

Lemma both_bit fa fb k : 0 <= k -> truthy (Z.land (Z.land fa fb) (2 ^ k)) = (fa &? 2 ^ k) && (fb &? 2 ^ k).
Proof. intros Hk. by rewrite !(land_pow2_testbit _ k), !Z.land_spec by done. Qed.

Lemma sort_compare_rank a b :
  sort_compare a b = (rank a <? rank b) || ((rank a =? rank b) && (0 <? op_strcasecmp (u_handle a) (u_handle b))).
Proof.
  unfold sort_compare. set (names := 0 <? _). clearbody names.
  change USER_BOT with (2 ^ 1). change USER_OWNER with (2 ^ 13). change USER_MASTER with (2 ^ 12).
  change USER_OP with (2 ^ 14). change USER_HALFOP with (2 ^ 11). unfold rank, has.
  change USER_BOT with (2 ^ 1). change USER_OWNER with (2 ^ 13). change USER_MASTER with (2 ^ 12).
  change USER_OP with (2 ^ 14). change USER_HALFOP with (2 ^ 11).
  change BOT_HUB with (2 ^ 7). change BOT_ALT with (2 ^ 0). change BOT_LEAF with (2 ^ 11).
  rewrite !both_bit, !by_flag_bits by lia.
  destruct (u_flags a &? 2 ^ 1), (u_flags b &? 2 ^ 1); cbn [andb]; try reflexivity.
  - by destruct (bot_flags a &? 2 ^ 7), (bot_flags b &? 2 ^ 7), (bot_flags a &? 2 ^ 0), (bot_flags b &? 2 ^ 0),
      (bot_flags a &? 2 ^ 11), (bot_flags b &? 2 ^ 11), names.
  - destruct (bot_flags a &? 2 ^ 7), (bot_flags a &? 2 ^ 0), (bot_flags a &? 2 ^ 11);
      by destruct (u_flags b &? 2 ^ 13), (u_flags b &? 2 ^ 12), (u_flags b &? 2 ^ 14), (u_flags b &? 2 ^ 11).
  - destruct (bot_flags b &? 2 ^ 7), (bot_flags b &? 2 ^ 0), (bot_flags b &? 2 ^ 11);
      by destruct (u_flags a &? 2 ^ 13), (u_flags a &? 2 ^ 12), (u_flags a &? 2 ^ 14), (u_flags a &? 2 ^ 11).
  - by destruct (u_flags a &? 2 ^ 13), (u_flags a &? 2 ^ 12), (u_flags a &? 2 ^ 14), (u_flags a &? 2 ^ 11),
      (u_flags b &? 2 ^ 13), (u_flags b &? 2 ^ 12), (u_flags b &? 2 ^ 14), (u_flags b &? 2 ^ 11), names.
Qed.

(** [a] may stand before [b]. *)
Definition before (a b : userrec) : Prop := sort_compare a b = false.
Definition named (u : userrec) : Prop := cstr (u_handle u).

Lemma before_rank a b : before a b <-> rank b < rank a \/ (rank a = rank b /\ op_strcasecmp (u_handle a) (u_handle b) <= 0).
Proof.
  unfold before. rewrite sort_compare_rank, orb_false_iff, andb_false_iff, !Z.ltb_ge, Z.eqb_neq. lia.
Qed.

Lemma before_total a b : before a b \/ before b a.
Proof. rewrite !before_rank, (strcasecmp_opp (u_handle a)). lia. Qed.

Lemma before_trans a b c : named a -> named b -> named c -> before a b -> before b c -> before a c.
Proof.
  intros Ha Hb Hc. rewrite !before_rank. pose proof (strcasecmp_trans _ _ _ Ha Hb Hc). lia.
Qed.

(** Users that compare equal. *)
Definition same (u v : userrec) : bool := negb (sort_compare u v) && negb (sort_compare v u).

Lemma same_before u x y : named u -> named x -> named y -> same u x = true -> same u y = true -> before x y.
Proof.
  intros Hu Hx Hy. unfold same. rewrite !andb_true_iff, !negb_true_iff. intros [_ Hxu] [Huy _].
  by apply (before_trans x u y).
Qed.

(** ** The merge sort *)

Lemma merge_perm a : forall b, ms_merge a b ≡ₚ a ++ b.
Proof.
  induction a as [|x a IHa]; [by intros []|]. induction b as [|y b IHb]; [cbn; by rewrite app_nil_r|].
  change (ms_merge (x :: a) (y :: b)) with (if sort_compare x y then y :: ms_merge (x :: a) b else x :: ms_merge a (y :: b)).
  destruct (sort_compare x y); [by rewrite IHb, Permutation_middle|by rewrite IHa].
Qed.

Lemma merge_sorted a : forall b, Forall named a -> Forall named b -> StronglySorted before a -> StronglySorted before b ->
  StronglySorted before (ms_merge a b).
Proof.
  induction a as [|x a IHa]; [by intros []|]. induction b as [|y b IHb]; intros Na Nb Sa Sb; [done|].
  change (ms_merge (x :: a) (y :: b)) with (if sort_compare x y then y :: ms_merge (x :: a) b else x :: ms_merge a (y :: b)).
  pose proof Na as [Hx Na']%Forall_cons. pose proof Nb as [Hy Nb']%Forall_cons.
  pose proof Sa as [Sa' Fx]%StronglySorted_inv. pose proof Sb as [Sb' Fy]%StronglySorted_inv.
  assert (Hcons : forall u v l, named u -> named v -> before u v -> Forall named l -> Forall (before v) l -> Forall (before u) (v :: l)).
  { intros u v l Hu Hv Huv Hl Hvl. constructor; [done|]. rewrite List.Forall_forall in *. intros w Hw.
    apply (before_trans u v w); auto. }
  destruct (sort_compare x y) eqn:E.
  - assert (Hyx : before y x) by (destruct (before_total x y) as [H|H]; [unfold before in H; congruence|done]).
    constructor; [by apply IHb|]. rewrite merge_perm. apply Forall_app. split; [by apply Hcons|done].
  - constructor; [by apply IHa|]. rewrite merge_perm. apply Forall_app. split; [done|by apply Hcons].
Qed.

(** What compares equal to [u] keeps its order: first those of [a], then those of [b]. *)
Lemma merge_stable u a : forall b, named u -> Forall named a -> Forall named b -> StronglySorted before a -> StronglySorted before b ->
  List.filter (same u) (ms_merge a b) = List.filter (same u) a ++ List.filter (same u) b.
Proof.
  induction a as [|x a IHa]; [by intros []|]. induction b as [|y b IHb]; intros Hu Na Nb Sa Sb; [cbn; by rewrite app_nil_r|].
  change (ms_merge (x :: a) (y :: b)) with (if sort_compare x y then y :: ms_merge (x :: a) b else x :: ms_merge a (y :: b)).
  pose proof Na as [Hx Na']%Forall_cons. pose proof Nb as [Hy Nb']%Forall_cons.
  pose proof Sa as [Sa' Fx]%StronglySorted_inv. pose proof Sb as [Sb' Fy]%StronglySorted_inv.
  destruct (sort_compare x y) eqn:E.
  - cbn [List.filter]. rewrite IHb by done. destruct (same u y) eqn:Ey; [|done].
    (* no record of the first list compares equal: [y] stands strictly before them *)
    assert (Hnone : List.filter (same u) (x :: a) = []).
    { destruct (List.filter (same u) (x :: a)) as [|z l] eqn:Ef; [done|].
      assert (Hz : In z (List.filter (same u) (x :: a))) by (rewrite Ef; by left).
      apply filter_In in Hz as [Hin Ez]. exfalso.
      assert (Hnz : named z) by (by apply (proj1 (List.Forall_forall _ _) Na)).
      assert (Hxz : before x z).
      { destruct Hin as [<-|Hin]; [unfold before; destruct (sort_compare x x) eqn:Exx; [|done]; by destruct (before_total x x) as [H|H]; unfold before in H; congruence|].
        by apply (proj1 (List.Forall_forall _ _) Fx). }
      pose proof (same_before u z y Hu Hnz Hy Ez Ey) as Hzy. pose proof (before_trans x z y Hx Hnz Hy Hxz Hzy) as Hxy.
      unfold before in Hxy. congruence. }
    cbn [List.filter] in Hnone |- *. by rewrite Hnone.
  - cbn [List.filter]. rewrite IHa by done. cbn [List.filter]. by destruct (same u x).
Qed.

Lemma ms_sort_correct fuel : forall l, (length l <= fuel)%nat -> Forall named l ->
  let r := ms_sort fuel l (length l) in
  r ≡ₚ l /\ StronglySorted before r /\ forall u, named u -> List.filter (same u) r = List.filter (same u) l.
Proof.
  induction fuel as [|fuel IH]; intros l Hf Hl; cbn [ms_sort].
  { destruct l; [|cbn in Hf; lia]. split_and!; [done|constructor|done]. }
  destruct (Nat.ltb_spec (length l) 2) as [Hlt|Hge]; cbn [orb].
  { split_and!; [done| |done]. destruct l as [|x [|y l]]; [constructor|by repeat constructor|cbn in Hlt; lia]. }
  rewrite bool_decide_false by (intros ->; cbn in Hge; lia). cbv zeta.
  pose proof (Nat.div_lt (length l) 2 ltac:(lia) ltac:(lia)) as Hdl.
  assert (Hd1 : (1 <= Nat.div (length l) 2)%nat) by (apply Nat.div_le_lower_bound; lia).
  rewrite Nat.succ_pred by lia. set (h := Nat.div (length l) 2) in *.
  assert (H1 : length (take h l) = h) by (rewrite length_take; lia).
  assert (H2 : length (drop h l) = (length l - h)%nat) by apply length_drop.
  destruct (IH (take h l)) as (P1 & S1 & F1); [lia|by apply Forall_take|].
  destruct (IH (drop h l)) as (P2 & S2 & F2); [lia|by apply Forall_drop|].
  rewrite H1 in *. rewrite H2 in *.
  assert (N1 : Forall named (ms_sort fuel (take h l) h)) by (rewrite P1; by apply Forall_take).
  assert (N2 : Forall named (ms_sort fuel (drop h l) (length l - h))) by (rewrite P2; by apply Forall_drop).
  split_and!.
  - by rewrite merge_perm, P1, P2, take_drop.
  - by apply merge_sorted.
  - intros u Hu. rewrite merge_stable, F1, F2 by done. rewrite <- List.filter_app. by rewrite take_drop.
Qed.

(** C30. [sort_userlist] sorts: every record stands before the ones after it in the order
    of [sort_compare] (bots before users, hubs, alternates, leaves, then owners, masters,
    ops, half-ops, then by name), no record is lost or added, and records that compare
    equal keep their order. *)
Theorem sort_userlist_sorts l :
  Forall named l ->
  let r := sort_userlist l in
  StronglySorted before r /\ r ≡ₚ l /\ (forall u, named u -> List.filter (same u) r = List.filter (same u) l).
Proof.
  intros Hl. unfold sort_userlist. destruct (Nat.ltb_spec 1 (length l)) as [Hlt|Hge].
  - destruct (ms_sort_correct (length l) l) as (HP & HS & HF); [lia|done|]. by split_and!.
  - cbv zeta. split_and!; [|done|done]. destruct l as [|x [|y l]]; [constructor|by repeat constructor|cbn in Hge; lia].
Qed.

Definition a_user (handle : list Z) (flags botfl : Z) : userrec :=
  mk_user handle flags 0 [] (if botfl =? 0 then [] else [mk_ue (Some USERENTRY_BOTFL) None botfl]) false.
Definition sample_users : list userrec :=
  [a_user (bs "zoe") 0 0; a_user (bs "Leaf") USER_BOT BOT_LEAF; a_user (bs "abe") USER_OP 0; a_user (bs "hub") USER_BOT BOT_HUB;
   a_user (bs "ZOE") 0 0; a_user (bs "own") (Z.lor USER_OWNER USER_OP) 0].

Lemma sort_userlist_sorts_witness :
  map u_handle (sort_userlist sample_users) = [bs "hub"; bs "Leaf"; bs "own"; bs "abe"; bs "zoe"; bs "ZOE"] /\
  (let r := sort_userlist sample_users in
   StronglySorted before r /\ r ≡ₚ sample_users /\ (forall u, named u -> List.filter (same u) r = List.filter (same u) sample_users)).
Proof.
  split; [by vm_compute|]. apply (sort_userlist_sorts sample_users).
  repeat constructor; cbn; lia.
Defined.
