(* ===== verification/UserHosts.v ===== *)
(** * Host masks of users (src/userrec.c, src/userent.c)

    The vector of masks in a user's HOSTS entry: how a mask is added ([hosts_set]) and taken
    away ([del_host_or_account]), and the search for the user a nick!user\@host belongs to
    ([get_user_by_host]). *)

From stdpp Require Import list.
From S2P Require Import Botnet FlagDefs UserRec CidrTbl Htab MaskLists Prelude LibC Wildcard Rfc1459 Inet Match Strings Ignores MaskFile.
#[local] Open Scope Z_scope.

(** A user record as the search for users sees it: its address, its name, its flags, and the
    vector of its masks (a null pointer when there is no HOSTS entry). *)
Record unode := {
  n_ptr : Z;
  n_handle : list Z;
  n_flags : Z;
  n_flags_udef : Z;
  n_hosts : option (list (list Z));
  n_dirty : bool
}.
Definition set_hosts (v : option (list (list Z))) (u : unode) : unode :=
  {| n_ptr := n_ptr u; n_handle := n_handle u; n_flags := n_flags u; n_flags_udef := n_flags_udef u; n_hosts := v; n_dirty := true |}.

Section Hosts.

(** The function pointers [rfc_casecmp] and [rfc_toupper], the settings [cidr_support] and
    [noshare]. *)
Context (rfc_casecmp : list Z -> list Z -> Z) (rfc_toupper : Z -> Z) (cidr_support noshare : bool).

Definition cmp_usermasks (m n : list Z) : Z := addr_match rfc_toupper cidr_support m n true true.

(** ** The vector *)

(** From the last to the first of [n] elements, those the test holds for are taken out; how
    many. *)
Fixpoint vec_prune (test : list Z -> bool) (n : nat) (v : list (list Z)) : list (list Z) * Z :=
  match n with
  | O => (v, 0)
  | S i =>
      match v !! i with
      | Some existing =>
          if test existing then let '(v, k) := vec_prune test i (delete i v) in (v, 1 + k)
          else vec_prune test i v
      | None => vec_prune test i v
      end
  end.

(** [*p = '?'] for every comma. *)
Definition no_commas (s : list Z) : list Z := map (fun c => if c =? ch "," then ch "?" else c) s.

Definition hosts_set (v : option (list (list Z))) (buf : list Z) : option (list (list Z)) :=
  if same_name buf (bs "none") then None
  else
    let host := no_commas buf in
    let v := default [] v in
    Some (fst (vec_prune (fun existing => truthy (cmp_usermasks host existing)) (length v) v) ++ [host]).

(** ** [del_host_or_account] and [add_host_or_account] for a host *)

Definition share_host (sign handle : list Z) (u : unode) (host : list Z) : list (list Z) :=
  if noshare || (n_flags u &? USER_UNSHARED) then []
  else [sign ++ bs "h " ++ handle ++ bs " " ++ host ++ [10]].

(** For the user of the handle; the user, the result, what is sent. *)
Definition del_host (handle : list Z) (u : unode) (host : list Z) : unode * Z * list (list Z) :=
  let '(v, i) := match n_hosts u with
                 | Some v => let '(v, i) := vec_prune (fun existing => rfc_casecmp existing host =? 0) (length v) v in (Some v, i)
                 | None => (None, 0)
                 end in
  let v := if i =? 0 then hosts_set v (bs "none") else v in
  (set_hosts v u, i, if i =? 0 then [] else share_host (bs "-") handle u host).

Definition add_host (handle : list Z) (u : unode) (arg : list Z) : unode * list (list Z) :=
  let u' := set_hosts (hosts_set (n_hosts u) arg) u in
  (u', share_host (if n_flags u &? USER_BOT then bs "+b" else bs "+") handle u' arg).

(** ** [get_user_by_host] *)

Definition match_user (m host : list Z) : Z := addr_match rfc_toupper cidr_support m host true false.

(** The masks of one user, and the users; the best record so far and its score. *)
Fixpoint scan_hosts (u : unode) (hv : list (list Z)) (host : list Z) (best : option unode * Z) : option unode * Z :=
  match hv with
  | [] => best
  | m :: hv => let i := match_user m host in scan_hosts u hv host (if snd best <? i then (Some u, i) else best)
  end.
Fixpoint scan_users (us : list unode) (host : list Z) (best : option unode * Z) : option unode * Z :=
  match us with
  | [] => best
  | u :: us => scan_users us host (match n_hosts u with Some hv => scan_hosts u hv host best | None => best end)
  end.
Definition get_user_by_host (us : list unode) (host : list Z) : option unode :=
  match rmspace (op_strlcpy host UHOSTLEN) with
  | [] => None
  | host2 => fst (scan_users us host2 (None, 0))
  end.

(** ** Lemmas *)

Lemma prune_filter test n : forall v, (n <= length v)%nat ->
  vec_prune test n v = (List.filter (fun e => negb (test e)) (take n v) ++ drop n v, Z.of_nat (length (List.filter test (take n v)))).
Proof.
  induction n as [|n IH]; intros v Hn; cbn [vec_prune]; [by rewrite drop_0|].
  destruct (v !! n) as [e|] eqn:E; [|apply lookup_ge_None in E; lia].
  rewrite (take_S_r v n e E), !List.filter_app, length_app. cbn [List.filter].
  assert (Hd : drop n v = e :: drop (S n) v) by by apply drop_S.
  destruct (test e); cbn [negb].
  - assert (Ht : take n (delete n v) = take n v) by (rewrite delete_take_drop, take_app_le by (rewrite length_take; lia); by rewrite take_take, Nat.min_id).
    assert (Hdd : drop n (delete n v) = drop (S n) v) by (rewrite delete_take_drop, drop_app_length'; [done|rewrite length_take; lia]).
    rewrite IH by (rewrite delete_take_drop, length_app, length_take, length_drop; lia).
    rewrite Ht, Hdd. cbn [length]. f_equal; [|lia]. by rewrite app_nil_r.
  - rewrite IH by lia. rewrite Hd. cbn [length]. f_equal; [|lia]. by rewrite <- app_assoc.
Qed.

Lemma prune_all test v : vec_prune test (length v) v = (List.filter (fun e => negb (test e)) v, Z.of_nat (length (List.filter test v))).
Proof. rewrite prune_filter by done. by rewrite drop_all, app_nil_r, firstn_all. Qed.

(** The masks of all the users that match. *)
Definition masks_of (us : list unode) : list (unode * list Z) :=
  flat_map (fun u => map (fun m => (u, m)) (default [] (n_hosts u))) us.

(** The scan is one loop over all the masks. *)
Definition pick (host : list Z) (best : option unode * Z) (um : unode * list Z) : option unode * Z :=
  let i := match_user (snd um) host in if snd best <? i then (Some (fst um), i) else best.
Lemma scan_hosts_fold u hv host : forall best, scan_hosts u hv host best = fold_left (pick host) (map (fun m => (u, m)) hv) best.
Proof. induction hv as [|m hv IH]; intros best; [done|]. apply IH. Qed.
Lemma scan_users_fold us host : forall best, scan_users us host best = fold_left (pick host) (masks_of us) best.
Proof.
  induction us as [|u us IH]; intros best; [done|]. cbn [scan_users masks_of flat_map]. rewrite fold_left_app, IH. unfold masks_of. f_equal.
  destruct (n_hosts u); [apply scan_hosts_fold|done].
Qed.

(** The first of the best. *)
Lemma pick_best host ums : forall best,
  let r := fold_left (pick host) ums best in
  snd best <= snd r /\ Forall (fun um => match_user (snd um) host <= snd r) ums /\
  (r = best \/ exists pre um post, ums = pre ++ um :: post /\ r = (Some (fst um), match_user (snd um) host) /\
                snd best < snd r /\ Forall (fun x => match_user (snd x) host < snd r) pre).
Proof.
  induction ums as [|um ums IH]; intros best; cbn [fold_left]; [split_and!; [lia|constructor|by left]|].
  set (b := pick host best um). destruct (IH b) as (Hle & Hall & Hr). set (r := fold_left (pick host) ums b) in *.
  assert (Hb : snd best <= snd b /\ match_user (snd um) host <= snd b /\ (b = best \/ b = (Some (fst um), match_user (snd um) host) /\ snd best < snd b)).
  { unfold b, pick. cbv zeta. destruct (Z.ltb_spec (snd best) (match_user (snd um) host)); cbn [snd]; split_and!; try lia; [right; split; [done|lia]|by left]. }
  destruct Hb as (Hb1 & Hb2 & Hb3). split; [lia|]. split; [constructor; [lia|done]|].
  destruct Hr as [-> |(pre & x & post & -> & Er & Hlt & Hpre)].
  - destruct Hb3 as [-> |[Eb Hlt]]; [by left|]. right. exists [], um, ums. split_and!; [done|done|lia|constructor].
  - right. exists (um :: pre), x, post. split_and!; [done|done|lia|]. constructor; [lia|done].
Qed.

End Hosts.

(** ** The masks of a user *)

(** C36. Taking a mask away from a user: when the user has masks with that name, exactly
    those are taken out and their number is the result; when the user has none, all the
    masks of the user are lost and the result is zero. *)
Theorem delhost_wipes_when_missing noshare rc rt cidr handle u host :
  let mine := default [] (n_hosts u) in
  let hit m := rc m host =? 0 in
  let '(u', i, out) := del_host rc rt cidr noshare handle u host in
  i = Z.of_nat (length (List.filter hit mine)) /\
  n_hosts u' = (if existsb hit mine then Some (List.filter (fun m => negb (hit m)) mine) else None) /\
  (i = 0 -> out = []).
Proof.
  cbv zeta. unfold del_host. destruct (n_hosts u) as [v|]; cbn [default from_option id]; [|done].
  rewrite prune_all. set (k := length _).
  assert (Hk : existsb (fun m => rc m host =? 0) v = negb (Nat.eqb k 0)).
  { unfold k. induction v as [|m v IH]; [done|]. cbn. destruct (rc m host =? 0); [done|]. exact IH. }
  rewrite Hk. destruct k as [|k]; cbn [Nat.eqb negb]; [done|].
  rewrite (proj2 (Z.eqb_neq _ 0)) by lia. cbn [set_hosts n_hosts]. split_and!; [done..|lia].
Qed.

(** Adding a mask keeps the others in order, except those it covers, and puts it last. *)
Theorem hosts_set_adds rt cidr v buf :
  same_name buf (bs "none") = false ->
  hosts_set rt cidr v buf =
  Some (List.filter (fun m => cmp_usermasks rt cidr (no_commas buf) m =? 0) (default [] v) ++ [no_commas buf]).
Proof.
  intros Hb. unfold hosts_set. rewrite Hb, prune_all. cbn [fst]. do 2 f_equal. apply filter_ext. intros m.
  unfold truthy. by rewrite negb_involutive.
Qed.

(** C31. [get_user_by_host] finds the owner of a mask that matches with the highest score
    ([match_user], which is what [addr_match] gives) of all the masks of all the users,
    the first such mask in the order of the list; and nobody only when no mask matches.
    The score grows only with the length of a network prefix: all masks with an at-sign
    and without a prefix score the same, so of [*!*@*] and [*!*@*clemson.edu], which both
    match, the first in the list is taken, not the closer one, as the comment on the
    function (userrec.c:549) and the documentation of the script command [finduser] have
    it. *)
Theorem get_user_by_host_best rt cidr us host :
  let h := rmspace (op_strlcpy host UHOSTLEN) in
  h <> [] ->
  match get_user_by_host rt cidr us host with
  | Some u => exists pre m post, masks_of us = pre ++ (u, m) :: post /\ 0 < match_user rt cidr m h /\
                Forall (fun x => match_user rt cidr (snd x) h <= match_user rt cidr m h) (masks_of us) /\
                Forall (fun x => match_user rt cidr (snd x) h < match_user rt cidr m h) pre
  | None => Forall (fun x => match_user rt cidr (snd x) h <= 0) (masks_of us)
  end.
Proof.
  intros h Hh. unfold get_user_by_host. fold h. destruct h as [|c h']; [done|]. rewrite scan_users_fold.
  destruct (pick_best rt cidr (c :: h') (masks_of us) (None, 0)) as (_ & Hall & Hr).
  destruct (fold_left _ _ _) as [ret cnt]. cbn [fst snd] in *.
  destruct Hr as [[= -> ->]|(pre & [u m] & post & E & [= -> ->] & Hlt & Hpre)]; [done|].
  exists pre, m, post. by split_and!.
Qed.

(** Masks with a host that is no network prefix. *)
Definition plain_mask (rt : Z -> Z) (m : list Z) : Prop :=
  match mask_copy rt m with
  | (mu, Some r) => drop (S r) mu <> [] /\ cidr_slash (drop (S r) mu) = None
  | (_, None) => False
  end.

Lemma strrchr_not_in s c : strrchr s c = None -> ~ In c s.
Proof.
  induction s as [|d s IH]; [by intros _ []|]. cbn. destruct (strrchr s c); [done|].
  destruct (Z.eqb_spec d c); [done|]. intros _ [?|?]; [done|]. by apply IH.
Qed.

Lemma plain_score rt cidr m h : plain_mask rt m -> In (ch "@") (take 323 h) -> match_user rt cidr m h = 0 \/ match_user rt cidr m h = 2.
Proof.
  unfold plain_mask, match_user, addr_match. destruct (mask_copy rt m) as [mu [r|]]; [|done]. intros [Hne Hc] Hh.
  unfold mask_copy. change (Z.to_nat (UHOSTLEN - 1)) with 323%nat.
  destruct (strrchr (take 323 h) (ch "@")) as [s|] eqn:Es; [|by apply strrchr_not_in in Es].
  cbn [negb andb]. rewrite (bool_decide_false (drop (S r) mu = [])) by done. cbn [andb]. rewrite Hc.
  destruct (wild_match_01 (take r mu) (take s (map rt (take 323 h)))) as [-> | ->]; [by left|].
  change (1 =? 0) with false. cbn iota.
  destruct (wild_match_01 (drop (S r) mu) (drop (S s) (map rt (take 323 h)))) as [-> | ->]; [by left|by right].
Qed.

(** Masks without a network prefix all score the same, so [get_user_by_host] does not find
    the closest one: it finds the owner of the first mask in the list that matches, however
    wide that mask is. *)
Theorem get_user_by_host_first rt cidr us host :
  let h := rmspace (op_strlcpy host UHOSTLEN) in
  In (ch "@") (take 323 h) -> Forall (fun x => plain_mask rt (snd x)) (masks_of us) ->
  get_user_by_host rt cidr us host = fst <$> find (fun x => truthy (match_user rt cidr (snd x) h)) (masks_of us).
Proof.
  intros h Hat Hp. unfold get_user_by_host. fold h.
  assert (Hs : Forall (fun x => match_user rt cidr (snd x) h = 0 \/ match_user rt cidr (snd x) h = 2) (masks_of us)).
  { eapply Forall_impl; [exact Hp|]. intros x Hx. by apply plain_score. }
  destruct h as [|c h']; [done|]. rewrite scan_users_fold.
  set (h := c :: h') in *. clearbody h. clear Hp. revert Hs. induction (masks_of us) as [|x ums IH]; [done|].
  intros [Hx Hs]%Forall_cons. cbn [fold_left find]. unfold pick at 2. cbv zeta. cbn [snd].
  destruct Hx as [E|E]; rewrite E; cbn.
  - by apply IH.
  - clear -Hs. induction Hs as [|y ums Hy _ IHs]; [done|]. cbn [fold_left]. unfold pick at 2. cbv zeta. cbn [snd].
    rewrite (proj2 (Z.ltb_ge _ _)) by lia. exact IHs.
Qed.

(** *** Runs *)

Definition a_node (ptr : Z) (handle : list Z) (hosts : list (list Z)) : unode :=
  {| n_ptr := ptr; n_handle := handle; n_flags := 0; n_flags_udef := 0; n_hosts := Some hosts; n_dirty := false |}.
Definition two_users : list unode := [a_node 1 (bs "anyone") [bs "*!*@*"]; a_node 2 (bs "owner") [bs "*!*@*clemson.edu"]].

Definition two_blocks : list unode := [a_node 1 (bs "wide") [bs "*!*@10.0.0.0/8"]; a_node 2 (bs "close") [bs "*!*@10.1.0.0/16"]].

Lemma get_user_by_host_best_witness :
  let h := rmspace (op_strlcpy (bs " me!me@10.1.2.3") UHOSTLEN) in
  h <> [] /\
  match get_user_by_host _rfc_toupper true two_blocks (bs " me!me@10.1.2.3") with
  | Some u => exists pre m post, masks_of two_blocks = pre ++ (u, m) :: post /\ 0 < match_user _rfc_toupper true m h /\
                Forall (fun x => match_user _rfc_toupper true (snd x) h <= match_user _rfc_toupper true m h) (masks_of two_blocks) /\
                Forall (fun x => match_user _rfc_toupper true (snd x) h < match_user _rfc_toupper true m h) pre
  | None => Forall (fun x => match_user _rfc_toupper true (snd x) h <= 0) (masks_of two_blocks)
  end.
Proof.
  assert (Hne : rmspace (op_strlcpy (bs " me!me@10.1.2.3") UHOSTLEN) <> []) by by vm_compute.
  split; [exact Hne|]. exact (get_user_by_host_best _rfc_toupper true two_blocks (bs " me!me@10.1.2.3") Hne).
Defined.

(** Of two network prefixes the longer one wins. *)
Example closest_block : n_handle <$> get_user_by_host _rfc_toupper true two_blocks (bs " me!me@10.1.2.3") = Some (bs "close").
Proof. by vm_compute. Qed.

(** Two masks match; the wider one is taken. *)
Lemma get_user_by_host_first_witness :
  n_handle <$> get_user_by_host _rfc_toupper true two_users (bs "me!me@pc.clemson.edu") = Some (bs "anyone") /\
  get_user_by_host _rfc_toupper true two_users (bs "me!me@pc.clemson.edu") =
  fst <$> find (fun x => truthy (match_user _rfc_toupper true (snd x) (bs "me!me@pc.clemson.edu"))) (masks_of two_users).
Proof.
  split; [by vm_compute|].
  apply (get_user_by_host_first _rfc_toupper true two_users (bs "me!me@pc.clemson.edu")).
  - vm_compute. tauto.
  - repeat constructor; vm_compute; discriminate.
Defined.

(** A mask that the user has not got: all the others go. *)
Example mns_host_wipes :
  let u := a_node 1 (bs "joe") [bs "*!joe@a.org"; bs "*!joe@b.org"] in
  n_hosts (fst (fst (del_host _rfc_casecmp _rfc_toupper true false (bs "joe") u (bs "*!joe@c.org")))) = None /\
  n_hosts (fst (fst (del_host _rfc_casecmp _rfc_toupper true false (bs "joe") u (bs "*!JOE@a.org")))) = Some [bs "*!joe@b.org"].
Proof. by vm_compute. Qed.
