(* ===== verification/UserIndex.v ===== *)
(** * The user list and its index (src/userrec.c)

    The linked list of users, the hash table of their names that is built on demand, the last
    user that was looked up, and the users of the connections: what [get_user_by_handle] asks,
    in this order, and what [adduser], [deluser] and [change_handle] keep up. *)

From stdpp Require Import gmap list.
From S2P Require Import Botnet FlagDefs FlagText UserRec CidrTbl Htab MaskLists Base64 Prelude LibC Wildcard Rfc1459 Inet Match Strings Ignores MaskFile UserHosts.
#[local] Open Scope Z_scope.

Definition BADHANDCHARS : list Z := bs "-,+*=:!.@#;$%&".
Definition EGG_BG_HANDLE : list Z := bs "-HQ".

(** A connection: its nick, its user (0 for none) and whether it is on the party line. *)
Record udcc := { ud_nick : list Z; ud_user : Z; ud_chat : bool }.

(** [userlist], [lastuser], [user_handle_dict], the connections, and the next unused address.
    A key of the table is the handle buffer of a record, whose address stands for the
    buffer's; its contents are the record's name at any time. *)
Record ulist := {
  ul_users : list unode;
  ul_last : Z;
  ul_dict : option (op_htab mask_key);
  ul_dcc : list udcc;
  ul_fresh : Z
}.
Definition set_users (us : list unode) (s : ulist) : ulist :=
  {| ul_users := us; ul_last := ul_last s; ul_dict := ul_dict s; ul_dcc := ul_dcc s; ul_fresh := ul_fresh s |}.
Definition set_last (p : Z) (s : ulist) : ulist :=
  {| ul_users := ul_users s; ul_last := p; ul_dict := ul_dict s; ul_dcc := ul_dcc s; ul_fresh := ul_fresh s |}.
Definition set_dict (t : option (op_htab mask_key)) (s : ulist) : ulist :=
  {| ul_users := ul_users s; ul_last := ul_last s; ul_dict := t; ul_dcc := ul_dcc s; ul_fresh := ul_fresh s |}.
Definition set_dcc (ds : list udcc) (s : ulist) : ulist :=
  {| ul_users := ul_users s; ul_last := ul_last s; ul_dict := ul_dict s; ul_dcc := ds; ul_fresh := ul_fresh s |}.

(** The record at an address. *)
Definition user_at (us : list unode) (p : Z) : result mfault unode :=
  match List.find (fun u => n_ptr u =? p) us with Some u => Ok u | None => Err Freed end.

(** ** The table *)

Definition key_for (u : unode) : mask_key := {| k_text := n_ptr u; k_str := n_handle u |}.
Definition name_key (name : list Z) : mask_key := {| k_text := 0; k_str := name |}.

(** A search compares the name with the keys that have its hash: none may be the buffer of a
    record that has been freed. *)
Definition freed_key (us : list unode) (t : op_htab mask_key) (name : list Z) : bool :=
  existsb (fun c => match c with
                    | Some e => (e_hash e =? op_htab_hash_istr name) && negb (existsb (fun u => n_ptr u =? k_text (e_key e)) us)
                    | None => false
                    end) (slots t).
Definition searching {A} (us : list unode) (t : op_htab mask_key) (name : list Z) (r : result diverged A) : result mfault A :=
  if freed_key us t name then Err Freed else ends r.

(** [user_dict_rebuild] *)
Fixpoint dict_fill (us : list unode) (t : op_htab mask_key) : result mfault (op_htab mask_key) :=
  match us with
  | [] => Ok t
  | u :: us => let! r := ends (op_htab_set t (key_for u) (n_ptr u)) in dict_fill us (snd r)
  end.
Definition user_dict_rebuild (us : list unode) : result mfault (op_htab mask_key) := dict_fill us (op_htab_create 64).

(** ** Lookup *)

Definition check_dcclist_hand (ds : list udcc) (handle : list Z) : Z :=
  match find (fun d => same_name (ud_nick d) handle) ds with Some d => ud_user d | None => 0 end.

(** The loop over the list. *)
Definition scan_handle (us : list unode) (handle : list Z) : Z :=
  match find (fun u => same_name (n_handle u) handle) us with Some u => n_ptr u | None => 0 end.

(** From the table on: it is built when there is none. *)
Definition dict_lookup (s : ulist) (handle : list Z) : result mfault (Z * ulist) :=
  let! t := match ul_dict s, ul_users s with
            | None, _ :: _ => let! t := user_dict_rebuild (ul_users s) in Ok (Some t)
            | d, _ => Ok d
            end in
  match t with
  | Some t =>
      let! ret := searching (ul_users s) t handle (op_htab_get t (name_key handle)) in
      let s := set_dict (Some t) s in
      Ok (ret, if ret =? 0 then s else set_last ret s)
  | None =>
      let p := scan_handle (ul_users s) handle in
      Ok (p, if p =? 0 then s else set_last p s)
  end.

(** The shortcuts before the table. *)
Definition lookup_user (s : ulist) (handle : list Z) : result mfault (Z * ulist) :=
  let! hit := if ul_last s =? 0 then Ok false
              else let! u := user_at (ul_users s) (ul_last s) in Ok (same_name (n_handle u) handle) in
  if hit then Ok (ul_last s, s)
  else
    let ret := check_dcclist_hand (ul_dcc s) handle in
    if negb (ret =? 0) then Ok (ret, s) else dict_lookup s handle.

(** The name that is looked for: none when it is empty or begins with an asterisk. *)
Definition asked (handle : list Z) : list Z := match rmspace handle with 42 :: _ => [] | h => h end.

(** For the list of the bot ([bu == userlist]), and for another list. *)
Definition get_user_by_handle (s : ulist) (handle : list Z) : result mfault (Z * ulist) :=
  match asked handle with [] => Ok (0, s) | h => lookup_user s h end.
Definition get_user_in (bu : list unode) (handle : list Z) : Z :=
  match asked handle with [] => 0 | h => scan_handle bu h end.

(** ** Changes *)

Section Changes.
Context (rfc_toupper : Z -> Z) (cidr_support noshare : bool) (default_flags default_uflags : Z).

(** The record [adduser] makes: the handle is cut, commas in the mask are replaced. *)
Definition new_user (ptr : Z) (handle : list Z) (host : list Z) (flags : Z) : unode :=
  let dflt := flags =? USER_DEFAULT in
  {| n_ptr := ptr; n_handle := op_strlcpy handle (HANDLEN + 1);
     n_flags := if dflt then default_flags else flags; n_flags_udef := if dflt then default_uflags else 0;
     n_hosts := match host with
                | [] => None
                | _ => hosts_set rfc_toupper cidr_support None (no_commas (op_strlcpy host UHOSTLEN))
                end;
     n_dirty := true |}.

Definition share_newuser (u : unode) (handle host pass : list Z) (flags : Z) : list (list Z) :=
  if noshare || mem (ch "*") (take 1 handle) || (flags &? USER_UNSHARED) then []
  else [bs "n " ++ handle ++ bs " " ++ match host with [] => bs "none" | _ => no_commas (op_strlcpy host UHOSTLEN) end ++ bs " " ++
        pass ++ bs " " ++ fst (build_flags (mk_fr FR_GLOBAL (n_flags u) (n_flags_udef u) 0 0 0) None) ++ [10]].

(** For the list of the bot; the callers make the result the list.  An empty list gets the
    record for its head and nothing else is kept up. *)
Definition adduser (s : ulist) (handle host pass : list Z) (flags : Z) : result mfault (ulist * list (list Z)) :=
  let u := new_user (ul_fresh s) handle host flags in
  let out := share_newuser u handle host pass flags in
  let s := {| ul_users := ul_users s; ul_last := ul_last s; ul_dict := ul_dict s; ul_dcc := ul_dcc s; ul_fresh := ul_fresh s + 1 |} in
  match ul_users s with
  | [] => Ok (set_users [u] s, out)
  | us =>
      let! _ := if ul_last s =? 0 then Ok tt else let! _ := user_at us (ul_last s) in Ok tt in
      let us' := us ++ [u] in
      let! t := match ul_dict s with
                | Some t => let! r := searching us' t (n_handle u) (op_htab_set t (key_for u) (n_ptr u)) in Ok (Some (snd r))
                | None => Ok None
                end in
      Ok (set_dict t (set_last (n_ptr u) (set_users us' s)), out)
  end.

(** The first record with the name, and the list without it. *)
Fixpoint unlink_user (us : list unode) (handle : list Z) : option (unode * list unode) :=
  match us with
  | [] => None
  | u :: us =>
      if same_name (n_handle u) handle then Some (u, us)
      else (fun r => (fst r, u :: snd r)) <$> unlink_user us handle
  end.
Definition deluser (s : ulist) (handle : list Z) : result mfault (Z * ulist * list (list Z)) :=
  match unlink_user (ul_users s) handle with
  | None => Ok (0, s, [])
  | Some (u, us) =>
      let out := if noshare || mem (ch "*") (take 1 handle) || (n_flags u &? USER_UNSHARED) then [] else [bs "k " ++ handle ++ [10]] in
      let! t := match ul_dict s with
                | Some t => let! r := searching (ul_users s) t handle (op_htab_del t (name_key handle)) in Ok (Some (snd r))
                | None => Ok None
                end in
      let ds := map (fun d => if ud_user d =? n_ptr u then {| ud_nick := ud_nick d; ud_user := 0; ud_chat := ud_chat d |} else d) (ul_dcc s) in
      Ok (1, set_last 0 (set_dict t (set_dcc ds (set_users us s))), out)
  end.

(** The buffer of a handle gets another text: it is the key of entries of the table. *)
Definition rekey (p : Z) (new : list Z) (t : op_htab mask_key) : op_htab mask_key :=
  {| slots := map (option_map (fun e => if k_text (e_key e) =? p
                                        then {| e_key := {| k_text := p; k_str := new |}; e_val := e_val e; e_hash := e_hash e |} else e)) (slots t);
     Htab.mask := Htab.mask t; count := count t |}.
Definition rename (p : Z) (new : list Z) (u : unode) : unode :=
  if n_ptr u =? p then {| n_ptr := n_ptr u; n_handle := new; n_flags := n_flags u; n_flags_udef := n_flags_udef u;
                          n_hosts := n_hosts u; n_dirty := true |} else u.

(** Of the record at [p].  The buffer is overwritten before the table hears of it. *)
Definition change_handle (s : ulist) (p : Z) (newh : list Z) : result mfault (Z * ulist * list (list Z)) :=
  if p =? 0 then Ok (0, s, [])
  else
    let! u := user_at (ul_users s) p in
    if same_name (n_handle u) EGG_BG_HANDLE then Ok (0, s, [])
    else if match newh with [] => true | [c] => mem c BADHANDCHARS | _ => false end then Ok (0, s, [])
    else
      let out := if noshare || (n_flags u &? USER_UNSHARED) then [] else [bs "h " ++ n_handle u ++ bs " " ++ newh ++ [10]] in
      let old := n_handle u in
      let new := op_strlcpy newh (HANDLEN + 1) in
      let us := map (rename p new) (ul_users s) in
      let! t := match ul_dict s with
                | Some t =>
                    let t := rekey p new t in
                    let! r := searching us t old (op_htab_del t (name_key old)) in
                    let! r := searching us (snd r) new (op_htab_set (snd r) {| k_text := p; k_str := new |} p) in Ok (Some (snd r))
                | None => Ok None
                end in
      let ds := map (fun d => if ud_chat d && same_name (ud_nick d) old then {| ud_nick := new; ud_user := ud_user d; ud_chat := true |} else d) (ul_dcc s) in
      Ok (1, set_dict t (set_dcc ds (set_users us s)), out).

End Changes.

Definition count_users (bu : list unode) : Z := Z.of_nat (length bu).
(** [sizeof(handle)] is the size of a pointer. *)
Definition correct_handle (s : ulist) (handle : list Z) : result mfault (list Z * ulist) :=
  let! (p, s) := get_user_by_handle s handle in
  if p =? 0 then Ok (rmspace handle, s)
  else let! u := user_at (ul_users s) p in Ok (op_strlcpy (n_handle u) 8, s).

(** ** Runs that show the code's edges *)

Definition nothing : ulist := {| ul_users := []; ul_last := 0; ul_dict := None; ul_dcc := []; ul_fresh := 1 |}.
Definition add (name : list Z) (s : ulist) : result mfault ulist :=
  let! r := adduser _rfc_toupper true true 0 0 s name [] (bs "-") 0 in Ok (fst r).
Definition del (name : list Z) (s : ulist) : result mfault ulist :=
  let! r := deluser true s name in Ok (snd (fst r)).
Definition look (name : list Z) (s : ulist) : result mfault (Z * ulist) := get_user_by_handle s name.

(** After the last user was deleted the table is still there, and the next user is not
    entered: nobody finds it. *)
Example first_user_lost :
  (let! s := add (bs "ann") nothing in
   let! r := look (bs "ann") s in
   let! s := del (bs "ann") (snd r) in
   let! s := add (bs "bob") s in
   let! r := look (bs "bob") s in Ok (fst r, map n_handle (ul_users s))) = Ok (0, [bs "bob"]).
Proof. by vm_compute. Qed.

(** A record that was renamed leaves its old entry in the table; when the record is deleted
    the entry's key is freed memory, which a search for the old name reads. *)
Example renamed_key_freed :
  (let! s := add (bs "ann") nothing in
   let! s := add (bs "eve") s in
   let! r := look (bs "ann") s in
   let! r := change_handle true (snd r) (fst r) (bs "bob") in
   let! s := del (bs "bob") (snd (fst r)) in
   let! r := look (bs "ann") s in Ok (fst r)) = Err Freed.
Proof. by vm_compute. Qed.

(** The table takes braces for brackets, the list does not: the user is found but cannot be
    deleted. *)
Example brackets_differ :
  (let! s := add (bs "ann[a]") nothing in
   let! r1 := look (bs "ANN{A}") s in
   let! r2 := deluser true (snd r1) (bs "ANN{A}") in Ok (fst r1, fst (fst r2))) = Ok (1, 0).
Proof. by vm_compute. Qed.

(** A name of more than seven letters is cut. *)
Example corrected_name_cut :
  (let! s := add (bs "Caroline") nothing in
   let! r := correct_handle s (bs "caroline") in Ok (fst r)) = Ok (bs "Carolin").
Proof. by vm_compute. Qed.
