(* ===== verification/UserIndexProps.v ===== *)
(** * The index answers what the list answers

    As long as users are added to a list that is not empty, deleted and looked up, by names
    without brackets and braces, every shortcut of [get_user_by_handle] leads to the user the
    list has under the name. *)

From stdpp Require Import gmap list.
From S2P Require Import Htab HtabRing HtabMap Botnet FlagDefs UserRec CidrTbl MaskLists MaskProps Prelude LibC Wildcard Rfc1459 Inet Match Strings Ignores MaskFile UserHosts UserIndex.
#[local] Open Scope Z_scope.

Definition ufold (u : unode) : list Z := map istr_fold (n_handle u).
Definition uentry (u : unode) : list Z * (mask_key * Z) := (ufold u, (key_for u, n_ptr u)).
Definition user_index (us : list unode) : gmap (list Z) (mask_key * Z) := list_to_map (map uentry us).

Record ul_ok (s : ulist) (n : Z) : Prop := {
  uo_names : NoDup (map ufold (ul_users s));
  uo_ptrs : NoDup (map n_ptr (ul_users s));
  uo_fresh : Forall (fun u => 0 < n_ptr u < ul_fresh s /\ cstr (n_handle u)) (ul_users s);
  uo_pos : 0 < ul_fresh s;
  uo_last : ul_last s = 0 \/ exists u, In u (ul_users s) /\ n_ptr u = ul_last s;
  uo_dcc : Forall (fun d => ud_user d = 0 \/ exists u, In u (ul_users s) /\ n_ptr u = ud_user d /\ same_name (n_handle u) (ud_nick d) = true) (ul_dcc s);
  uo_dict : match ul_dict s with
            | Some t => wf t /\ small n t /\ abs t = user_index (ul_users s)
            | None => True
            end
}.

(** Names without the letters that IRC folds and the list does not. *)
Definition is_bracket (c : Z) : bool := in_range 91 94 c || in_range 123 126 c.
Definition plain_name (h : list Z) : Prop := cstr h /\ Forall (fun c => is_bracket c = false) h.

Lemma plain_byte c d : 0 <= c < 256 -> 0 <= d < 256 -> is_bracket c = false -> istr_fold d = istr_fold c <-> tolower d = tolower c.
Proof.
  intros Hc Hd Hb.
  assert (H : forallb (fun c => is_bracket c || forallb (fun d => Bool.eqb (istr_fold d =? istr_fold c) (tolower d =? tolower c)) (seqZ 0 256)) (seqZ 0 256) = true)
    by (vm_compute; reflexivity).
  rewrite forallb_forall in H. specialize (H c ltac:(apply list_elem_of_In, elem_of_seqZ; lia)). rewrite Hb in H. cbn [orb] in H.
  rewrite forallb_forall in H. specialize (H d ltac:(apply list_elem_of_In, elem_of_seqZ; lia)).
  apply Bool.eqb_prop in H. rewrite <- !Z.eqb_eq. by rewrite H.
Qed.

Lemma plain_fold a h : plain_name h -> cstr a -> same_name a h = true <-> map istr_fold a = map istr_fold h.
Proof.
  intros [Hc Hp] Ha. rewrite same_name_eq. revert h Hc Hp. induction Ha as [|x a Hx _ IH]; intros [|y h] Hc Hp; [done..|].
  apply cstr_cons in Hc as [Hy Hc]. apply Forall_cons in Hp as [Hb Hp]. cbn [map].
  specialize (IH h Hc Hp). pose proof (plain_byte y x ltac:(lia) ltac:(lia) Hb).
  split; intros [= E1 E2]; f_equal; tauto.
Qed.

(** ** The list *)

Lemma index_keys us : (map uentry us).*1 = map ufold us.
Proof. rewrite map_map. apply map_ext. done. Qed.

Lemma user_index_in us u : NoDup (map ufold us) -> In u us -> user_index us !! ufold u = Some (key_for u, n_ptr u).
Proof. intros Hn Hu. apply elem_of_list_to_map; [by rewrite index_keys|]. apply list_elem_of_In. by apply (in_map uentry). Qed.

Lemma user_index_None us n : user_index us !! n = None <-> forall u, In u us -> ufold u <> n.
Proof.
  unfold user_index. split.
  - intros H%not_elem_of_list_to_map_2 u Hu <-. apply H. rewrite index_keys, list_elem_of_In. by apply in_map.
  - intros H. apply not_elem_of_list_to_map_1. rewrite index_keys, list_elem_of_In. intros (u & E & Hu)%in_map_iff. exact (H u Hu E).
Qed.

Lemma user_index_Some us n k p : user_index us !! n = Some (k, p) -> exists u, In u us /\ ufold u = n /\ k = key_for u /\ p = n_ptr u.
Proof.
  intros H%elem_of_list_to_map_2. rewrite list_elem_of_In in H. apply in_map_iff in H as (u & [= <- <- <-] & Hu). by exists u.
Qed.

Lemma same_ptr us u v : NoDup (map n_ptr us) -> In u us -> In v us -> n_ptr u = n_ptr v -> u = v.
Proof.
  intros Hn Hu Hv E. rewrite <- list_elem_of_In in Hu, Hv. apply list_elem_of_lookup in Hu as [i Hi]. apply list_elem_of_lookup in Hv as [j Hj].
  assert (i = j) as ->; [|congruence]. eapply (NoDup_lookup (map n_ptr us)); [done| |]; rewrite list_lookup_fmap; [by rewrite Hi|by rewrite Hj, E].
Qed.

Lemma same_name_fold us u v : NoDup (map ufold us) -> In u us -> In v us -> ufold u = ufold v -> u = v.
Proof.
  intros Hn Hu Hv E. rewrite <- list_elem_of_In in Hu, Hv. apply list_elem_of_lookup in Hu as [i Hi]. apply list_elem_of_lookup in Hv as [j Hj].
  assert (i = j) as ->; [|congruence]. eapply (NoDup_lookup (map ufold us)); [done| |]; rewrite list_lookup_fmap; [by rewrite Hi|by rewrite Hj, E].
Qed.

Lemma user_at_in us u : NoDup (map n_ptr us) -> In u us -> user_at us (n_ptr u) = Ok u.
Proof.
  intros Hn Hu. unfold user_at. destruct (List.find _ us) as [v|] eqn:E.
  - apply find_some in E as [Hv Ev%Z.eqb_eq]. by rewrite (same_ptr us v u).
  - pose proof (find_none _ _ E u Hu) as H. cbn in H. lia.
Qed.

(** The user with a plain name, if there is one. *)
Lemma scan_spec s n h : ul_ok s n -> plain_name h ->
  (exists u, In u (ul_users s) /\ ufold u = map istr_fold h /\ same_name (n_handle u) h = true /\ scan_handle (ul_users s) h = n_ptr u) \/
  (forall u, In u (ul_users s) -> ufold u <> map istr_fold h) /\ scan_handle (ul_users s) h = 0.
Proof.
  intros Hs Hp. unfold scan_handle. destruct (find _ (ul_users s)) as [u|] eqn:E.
  - left. apply find_some in E as [Hu Eu]. exists u. split_and!; try done.
    apply (plain_fold _ _ Hp); [|done]. pose proof (uo_fresh _ _ Hs) as Hf. rewrite List.Forall_forall in Hf. by apply Hf.
  - right. split; [|done]. intros u Hu Ef. pose proof (find_none _ _ E u Hu) as H.
    pose proof (uo_fresh _ _ Hs) as Hf. rewrite List.Forall_forall in Hf.
    apply (plain_fold (n_handle u) h Hp) in Ef; [congruence|by apply Hf].
Qed.

(** ** The table *)

Lemma not_freed us us' t name : wf t -> abs t = user_index us -> (forall u, In u us -> In u us') -> freed_key us' t name = false.
Proof.
  intros W A Hsub. unfold freed_key. apply not_true_is_false. intros (c & Hc & H)%existsb_exists. destruct c as [e|]; [|done].
  apply andb_true_iff in H as [_ H]. apply negb_true_iff in H.
  assert (He : In e (elems (slots t))) by (unfold elems; apply in_flat_map; exists (Some e); split; [done|by left]).
  assert (Ha : abs t !! key_of e = Some (e_key e, e_val e)) by (apply map_of_in; [apply (HtabMap.wf_entries _ W)|done]).
  rewrite A in Ha. apply user_index_Some in Ha as (u & Hu & _ & Ek & _).
  rewrite <- not_true_iff_false in H. apply H. apply existsb_exists. exists u. split; [by apply Hsub|]. rewrite Ek. apply Z.eqb_refl.
Qed.

Lemma dict_fill_spec us : forall t m, wf t -> small m t -> 0 <= m -> m + Z.of_nat (length us) <= 2 ^ 50 ->
  NoDup (map ufold us) -> (forall u, In u us -> abs t !! ufold u = None) ->
  exists t', dict_fill us t = Ok t' /\ wf t' /\ small (m + Z.of_nat (length us)) t' /\ abs t' = user_index us ∪ abs t.
Proof.
  induction us as [|u us IH]; intros t m W S Hm Hl Hn Hf.
  - exists t. cbn. split_and!; try done; [by rewrite Z.add_0_r|]. unfold user_index. cbn. by rewrite (left_id_L ∅ (∪)).
  - cbn [map] in Hn. apply NoDup_cons in Hn as [Hni Hn]. cbn [length] in Hl. cbn [dict_fill].
    destruct (htab_set_spec t (key_for u) (n_ptr u) W) as (t1 & E & W1 & A1 & C1 & G1); [destruct S; lia|].
    change (norm (key_for u)) with (ufold u) in *. rewrite (Hf u) in E, A1 by by left. rewrite E. cbn [ends rbind snd].
    destruct (IH t1 (m + 1)) as (t' & -> & W' & S' & A'); [done|by apply (small_grown m t)|lia|lia|done| |].
    + intros v Hv. rewrite A1, lookup_insert_ne by (intros Ef; apply Hni; rewrite Ef, list_elem_of_In; by apply in_map).
      apply Hf. by right.
    + exists t'. split_and!; [done|done|by replace (m + Z.of_nat (length (u :: us))) with (m + 1 + Z.of_nat (length us)) by (cbn; lia)|].
      rewrite A', A1. unfold user_index. cbn [map list_to_map foldr uentry fst snd]. rewrite <- insert_union_r, insert_union_l; [done|].
      apply user_index_None. intros v Hv Ev. apply Hni. rewrite <- Ev, list_elem_of_In. by apply in_map.
Qed.

Lemma rebuild_spec s n : ul_ok s n -> Z.of_nat (length (ul_users s)) <= 2 ^ 50 ->
  exists t, user_dict_rebuild (ul_users s) = Ok t /\ wf t /\ small (Z.of_nat (length (ul_users s))) t /\ abs t = user_index (ul_users s).
Proof.
  intros Hs Hl. destruct (create_spec (K := mask_key) (N := list Z) 64) as (W & A & C & L); [lia|].
  destruct (dict_fill_spec (ul_users s) (op_htab_create 64) 0) as (t & E & W' & S' & A'); [done|split; lia|lia|lia|apply (uo_names _ _ Hs)| |].
  - intros u _. rewrite A. apply lookup_empty.
  - exists t. split_and!; try done. by rewrite A', A, (right_id_L ∅ (∪)).
Qed.

Lemma index_small_more m m' (t : op_htab mask_key) : m <= m' -> small m t -> small m' t.
Proof. intros H [S1 S2]. split; lia. Qed.

(** ** Lookup *)

Lemma value_index t us name u : wf t -> abs t = user_index us -> NoDup (map ufold us) -> In u us -> ufold u = map istr_fold name ->
  value_at t (name_key name) = n_ptr u.
Proof. intros W A Hn Hu E. unfold value_at. change (norm (name_key name)) with (map istr_fold name). by rewrite A, <- E, user_index_in. Qed.

Lemma value_index_none t us name : wf t -> abs t = user_index us -> (forall u, In u us -> ufold u <> map istr_fold name) ->
  value_at t (name_key name) = 0.
Proof. intros W A H. unfold value_at. change (norm (name_key name)) with (map istr_fold name). rewrite A. by rewrite (proj2 (user_index_None us _) H). Qed.

Lemma ok_set_last s n p : ul_ok s n -> (p = 0 \/ exists u, In u (ul_users s) /\ n_ptr u = p) -> ul_ok (set_last p s) n.
Proof. intros [] Hp. by split. Qed.

Lemma ok_set_table s n m t : ul_ok s n -> wf t -> small m t -> abs t = user_index (ul_users s) -> ul_ok (set_dict (Some t) s) m.
Proof. intros [] W S A. by split. Qed.

Lemma ok_more s n m : n <= m -> ul_ok s n -> ul_ok s m.
Proof.
  intros H [H1 H2 H3 H4 H5 H6 H7]. split; try done. destruct (ul_dict s); [|done]. destruct H7 as (? & ? & ?).
  split_and!; try done. by apply (index_small_more n).
Qed.

Lemma user_ptr_pos s n u : ul_ok s n -> In u (ul_users s) -> 0 < n_ptr u.
Proof. intros Hs Hu. pose proof (uo_fresh _ _ Hs) as Hf. rewrite List.Forall_forall in Hf. destruct (Hf u Hu). lia. Qed.

(** What a lookup leaves alone. *)
Definition looked (s s' : ulist) : Prop :=
  ul_users s' = ul_users s /\ ul_fresh s' = ul_fresh s /\ (ul_users s = [] -> ul_dict s = None -> ul_dict s' = None).

Lemma dict_lookup_spec s n h : ul_ok s n -> plain_name h -> 0 <= n -> Z.of_nat (length (ul_users s)) <= 2 ^ 50 ->
  exists s', dict_lookup s h = Ok (scan_handle (ul_users s) h, s') /\ ul_ok s' (n + Z.of_nat (length (ul_users s))) /\ looked s s'.
Proof.
  intros Hs Hp Hn Hl. unfold dict_lookup. set (m := n + Z.of_nat (length (ul_users s))).
  assert (Ht : ul_dict s = None /\ ul_users s = [] \/ (ul_dict s <> None \/ ul_users s <> []) /\ exists t,
     (match ul_dict s, ul_users s with
      | None, _ :: _ => let! t := user_dict_rebuild (ul_users s) in Ok (Some t)
      | d, _ => Ok d
      end = Ok (Some t)) /\ wf t /\ small m t /\ abs t = user_index (ul_users s)).
  { pose proof (uo_dict _ _ Hs) as Hd. destruct (ul_dict s) as [t|].
    - right. split; [by left|]. exists t. destruct Hd as (W & S & A). split_and!; try done. apply (index_small_more n); [lia|done].
    - destruct (ul_users s) as [|u us] eqn:Eu; [by left|]. right. split; [by right|]. rewrite <- Eu in *.
      destruct (rebuild_spec s n Hs Hl) as (t & E & W & S & A). rewrite E. exists t. split_and!; try done.
      apply (index_small_more (Z.of_nat (length (ul_users s)))); [unfold m; rewrite Eu; lia|done]. }
  assert (Hkeep : ul_ok s m) by (apply (ok_more s n); [unfold m; lia|done]).
  destruct Ht as [[Ed Hu]|(Hne & t & -> & W & S & A)].
  - rewrite Ed, Hu. cbn. exists s. rewrite Hu in *. by split_and!.
  - assert (Hlook : forall s', ul_users s' = ul_users s -> ul_fresh s' = ul_fresh s -> looked s s') by (intros s' E1 E2; split_and!; [done|done|intros; destruct Hne; congruence]).
    cbn [rbind]. unfold searching. rewrite (not_freed (ul_users s)) by done. rewrite htab_get_spec by done. cbn [ends rbind].
    destruct (scan_spec s n h Hs Hp) as [(u & Hu & Ef & _ & ->)|[Hnone ->]].
    + rewrite (value_index t (ul_users s) h u) by (done || apply (uo_names _ _ Hs)).
      pose proof (user_ptr_pos s n u Hs Hu). rewrite (proj2 (Z.eqb_neq _ 0)) by lia.
      eexists. split; [done|]. split; [|by apply Hlook]. apply ok_set_last; [by apply (ok_set_table s m)|right; by exists u].
    + rewrite (value_index_none t (ul_users s) h) by done. eexists. split; [done|]. split; [|by apply Hlook]. by apply (ok_set_table s m).
Qed.

Lemma lookup_user_spec s n h : ul_ok s n -> plain_name h -> 0 <= n -> Z.of_nat (length (ul_users s)) <= 2 ^ 50 ->
  exists s', lookup_user s h = Ok (scan_handle (ul_users s) h, s') /\
    ul_ok s' (n + Z.of_nat (length (ul_users s))) /\ looked s s'.
Proof.
  intros Hs Hp Hn Hl. unfold lookup_user.
  assert (Hkeep : ul_ok s (n + Z.of_nat (length (ul_users s)))) by (apply (ok_more s n); [lia|done]).
  pose proof (dict_lookup_spec s n h Hs Hp Hn Hl) as Hdict. set (us := ul_users s) in *.
  assert (Huniq : forall u, In u us -> same_name (n_handle u) h = true -> scan_handle us h = n_ptr u).
  { intros u Hu Hsame. pose proof (uo_fresh _ _ Hs) as Hf. rewrite List.Forall_forall in Hf. fold us in Hf.
    apply (plain_fold (n_handle u) h Hp) in Hsame; [|by apply Hf].
    destruct (scan_spec s n h Hs Hp) as [(v & Hv & Ef & _ & E)|[Hnone _]]; [|by destruct (Hnone u)].
    unfold us. rewrite E. f_equal. eapply same_name_fold; [apply (uo_names _ _ Hs)|done|done|]. unfold ufold at 2. congruence. }
  assert (Hhit : exists b, (if ul_last s =? 0 then Ok false else let! u := user_at us (ul_last s) in Ok (same_name (n_handle u) h)) = Ok b /\
                   (b = true -> scan_handle us h = ul_last s)).
  { destruct (Z.eqb_spec (ul_last s) 0) as [E|E]; [by exists false|].
    destruct (uo_last _ _ Hs) as [?|(u & Hu & Eu)]; [done|]. rewrite <- Eu. unfold us. rewrite user_at_in by (done || apply (uo_ptrs _ _ Hs)).
    cbn [rbind]. eexists. split; [done|]. by apply Huniq. }
  destruct Hhit as (b & -> & Hb). cbn [rbind]. destruct b; [exists s; by rewrite Hb|]. cbv zeta.
  unfold check_dcclist_hand. destruct (find _ (ul_dcc s)) as [d|] eqn:Ed; [|exact Hdict].
  apply find_some in Ed as [Hd Ed]. pose proof (uo_dcc _ _ Hs) as Hdcc. rewrite List.Forall_forall in Hdcc.
  destruct (Hdcc d Hd) as [E0|(u & Hu & Ep & Esame)]; [by rewrite E0|].
  destruct (Z.eqb_spec (ud_user d) 0) as [E0|E0]; cbn [negb]; [exact Hdict|].
  exists s. rewrite (Huniq u Hu), Ep; [done|]. rewrite same_name_eq in *. congruence.
Qed.

Lemma lookup_spec s n h : ul_ok s n -> plain_name (asked h) -> 0 <= n -> Z.of_nat (length (ul_users s)) <= 2 ^ 50 ->
  exists s', get_user_by_handle s h = Ok (get_user_in (ul_users s) h, s') /\
    ul_ok s' (n + Z.of_nat (length (ul_users s))) /\ looked s s'.
Proof.
  intros Hs Hp Hn Hl. unfold get_user_by_handle, get_user_in. destruct (asked h) as [|c t].
  - exists s. split_and!; try done. apply (ok_more s n); [lia|done].
  - by apply lookup_user_spec.
Qed.

(** ** Changes *)

Lemma user_index_snoc us u : NoDup (map ufold (us ++ [u])) ->
  user_index (us ++ [u]) = <[ufold u := (key_for u, n_ptr u)]> (user_index us).
Proof.
  intros Hn. change (<[ufold u := (key_for u, n_ptr u)]> (user_index us)) with (user_index (u :: us)).
  unfold user_index. apply list_to_map_proper; [by rewrite index_keys|]. apply Permutation_map. by rewrite Permutation_app_comm.
Qed.

Lemma nodup_snoc {A} (f : unode -> A) us u : NoDup (map f us) -> (forall v, In v us -> f v <> f u) -> NoDup (map f (us ++ [u])).
Proof.
  intros Hn Hu. rewrite map_app. apply NoDup_app. split; [done|]. split.
  - intros x Hx Hin. cbn in Hin. rewrite list_elem_of_In in Hx. apply in_map_iff in Hx as (v & Ev & Hv).
    rewrite list_elem_of_singleton in Hin. by apply (Hu v Hv); congruence.
  - cbn. apply NoDup_singleton.
Qed.

Lemma nodup_middle {A} (f : unode -> A) pre u post : NoDup (map f (pre ++ u :: post)) ->
  NoDup (map f (pre ++ post)) /\ (forall v, In v (pre ++ post) -> f v <> f u).
Proof.
  intros Hn. rewrite (Permutation_map f (symmetry (Permutation_middle pre post u))) in Hn. cbn [map] in Hn.
  apply NoDup_cons in Hn as [Hni Hn]. split; [done|]. intros v Hv E. apply Hni. rewrite list_elem_of_In, <- E. by apply in_map.
Qed.

Section Keep.
Context (rt : Z -> Z) (cidr noshare : bool) (dfl udfl : Z).

Lemma adduser_spec s n handle host pass flags :
  ul_ok s n -> cstr handle -> 0 <= n <= 2 ^ 50 -> (ul_users s = [] -> ul_dict s = None) ->
  let u := new_user rt cidr dfl udfl (ul_fresh s) handle host flags in
  (forall v, In v (ul_users s) -> ufold v <> ufold u) ->
  exists s' out, adduser rt cidr noshare dfl udfl s handle host pass flags = Ok (s', out) /\ ul_ok s' (n + 1) /\
    ul_users s' = ul_users s ++ [u] /\ ul_fresh s' = ul_fresh s + 1 /\ ul_dcc s' = ul_dcc s.
Proof.
  intros Hs Hc Hn He u Hnew. pose proof Hs as [H1 H2 H3 H4 H5 H6 H7]. unfold adduser. fold u.
  assert (Hcu : 0 < n_ptr u < ul_fresh s + 1 /\ cstr (n_handle u)).
  { split; [cbn; lia|]. cbn [u new_user n_handle]. unfold op_strlcpy, cstr. by apply Forall_take. }
  assert (Hptr : forall v, In v (ul_users s) -> n_ptr v <> n_ptr u).
  { intros v Hv. rewrite List.Forall_forall in H3. destruct (H3 v Hv). cbn. lia. }
  assert (Hnames : NoDup (map ufold (ul_users s ++ [u]))) by by apply nodup_snoc.
  assert (Hptrs : NoDup (map n_ptr (ul_users s ++ [u]))) by by apply nodup_snoc.
  assert (Hall : Forall (fun v => 0 < n_ptr v < ul_fresh s + 1 /\ cstr (n_handle v)) (ul_users s ++ [u])).
  { apply Forall_app. split; [|by constructor]. eapply Forall_impl; [exact H3|]. intros v [? ?]. split; [lia|done]. }
  assert (Hdcc : Forall (fun d => ud_user d = 0 \/ exists v, In v (ul_users s ++ [u]) /\ n_ptr v = ud_user d /\ same_name (n_handle v) (ud_nick d) = true) (ul_dcc s)).
  { eapply Forall_impl; [exact H6|]. intros d [?|(v & Hv & ? & ?)]; [by left|]. right. exists v. split_and!; try done. apply in_or_app. by left. }
  cbn [ul_users ul_last ul_dict]. destruct (ul_users s) as [|v us] eqn:Eu.
  - eexists _, _. split; [done|]. split; [|done]. split; cbn; try done; [lia| |rewrite He by done; done].
    destruct H5 as [?|(v & [] & _)]. by left.
  - rewrite <- Eu in *. clear He.
    assert (Hl : (if ul_last s =? 0 then Ok tt else let! _ := user_at (ul_users s) (ul_last s) in Ok tt) = Ok tt).
    { destruct (Z.eqb_spec (ul_last s) 0); [done|]. destruct H5 as [?|(w & Hw & Ew)]; [done|]. by rewrite <- Ew, user_at_in. }
    rewrite Hl. cbn [rbind].
    assert (Ht : exists t', (match ul_dict s with
                | Some t => let! r := searching (ul_users s ++ [u]) t (n_handle u) (op_htab_set t (key_for u) (n_ptr u)) in Ok (Some (snd r))
                | None => Ok None end) = Ok t' /\
              match t' with Some t => wf t /\ small (n + 1) t /\ abs t = user_index (ul_users s ++ [u]) | None => True end).
    { destruct (ul_dict s) as [t|]; [|by exists None]. destruct H7 as (W & S & A).
      unfold searching. rewrite (not_freed (ul_users s)) by (done || (intros w Hw; apply in_or_app; by left)).
      destruct (htab_set_spec t (key_for u) (n_ptr u) W) as (t' & E & W' & A' & C' & G'); [destruct S; lia|].
      change (norm (key_for u)) with (ufold u) in *. rewrite A, (proj2 (user_index_None _ _) Hnew) in E, A'. rewrite E. cbn [ends rbind snd].
      exists (Some t'). split; [done|]. split; [done|]. split; [by apply (small_grown n t)|]. by rewrite A', user_index_snoc. }
    destruct Ht as (t' & -> & Ht'). cbn [rbind]. eexists _, _. split; [done|]. split; [|done].
    split; cbn; try done; [lia|]. right. exists u. split; [apply in_or_app; right; by left|done].
Qed.

End Keep.

Lemma unlink_spec us h : match unlink_user us h with
  | Some (u, us') => exists pre post, us = pre ++ u :: post /\ us' = pre ++ post /\ same_name (n_handle u) h = true
  | None => Forall (fun u => same_name (n_handle u) h = false) us
  end.
Proof.
  induction us as [|v us IH]; cbn [unlink_user]; [done|]. destruct (same_name (n_handle v) h) eqn:E; [by exists [], us|].
  destruct (unlink_user us h) as [[u us']|]; cbn [fmap option_fmap option_map fst snd].
  - destruct IH as (pre & post & -> & -> & Hs). by exists (v :: pre), post.
  - by constructor.
Qed.

Lemma user_index_middle pre u post : NoDup (map ufold (pre ++ u :: post)) ->
  user_index (pre ++ post) = delete (ufold u) (user_index (pre ++ u :: post)).
Proof.
  intros Hn. assert (E : user_index (pre ++ u :: post) = user_index (u :: pre ++ post)).
  { unfold user_index. apply list_to_map_proper; [by rewrite index_keys|]. apply Permutation_map. symmetry. apply Permutation_middle. }
  rewrite E. symmetry. apply delete_insert_id. apply user_index_None. by destruct (nodup_middle _ _ _ _ Hn).
Qed.

Lemma deluser_spec noshare s n h : ul_ok s n -> plain_name h ->
  exists s' out, deluser noshare s h = Ok (match unlink_user (ul_users s) h with Some _ => 1 | None => 0 end, s', out) /\ ul_ok s' n /\
    ul_users s' = match unlink_user (ul_users s) h with Some (_, us) => us | None => ul_users s end /\ ul_fresh s' = ul_fresh s.
Proof.
  intros Hs Hp. unfold deluser. pose proof (unlink_spec (ul_users s) h) as Hu.
  destruct (unlink_user (ul_users s) h) as [[u us']|]; [|by exists s, []].
  destruct Hu as (pre & post & Eu & -> & Hsame). pose proof Hs as [H1 H2 H3 H4 H5 H6 H7]. rewrite Eu in *.
  destruct (nodup_middle _ _ _ _ H1) as [Hn1 Hne1]. destruct (nodup_middle _ _ _ _ H2) as [Hn2 Hne2].
  assert (Hsub : forall v, In v (pre ++ post) -> In v (pre ++ u :: post)) by (intros v; rewrite !in_app_iff; cbn; tauto).
  assert (Hback : forall v, In v (pre ++ u :: post) -> v = u \/ In v (pre ++ post)) by (intros v; rewrite !in_app_iff; cbn; intuition congruence).
  assert (Hcu : cstr (n_handle u)).
  { rewrite List.Forall_forall in H3. apply (H3 u). rewrite in_app_iff. right. by left. }
  apply (plain_fold _ _ Hp) in Hsame; [|done].
  assert (Ht : exists t', (match ul_dict s with
                | Some t => let! r := searching (pre ++ u :: post) t h (op_htab_del t (name_key h)) in Ok (Some (snd r))
                | None => Ok None end) = Ok t' /\
              match t' with Some t => wf t /\ small n t /\ abs t = user_index (pre ++ post) | None => True end).
  { destruct (ul_dict s) as [t|]; [|by exists None]. destruct H7 as (W & S & A). unfold searching.
    rewrite (not_freed (pre ++ u :: post)) by done. destruct (htab_del_spec t (name_key h) W) as (t' & E & W' & A' & C' & L').
    rewrite E. cbn [ends rbind snd]. exists (Some t'). split; [done|]. split; [done|]. split; [destruct S; split; lia|].
    rewrite A', A, (user_index_middle pre u post) by done. change (norm (name_key h)) with (map istr_fold h). by rewrite <- Hsame. }
  destruct Ht as (t' & -> & Ht'). cbn [rbind]. eexists _, _. split; [done|]. split; [|done].
  split; cbn [ul_users ul_last ul_dict ul_dcc ul_fresh set_last set_dict set_dcc set_users]; try done.
  - rewrite List.Forall_forall in *. intros v Hv. by apply H3, Hsub.
  - by left.
  - rewrite List.Forall_forall in *. intros d (d0 & <- & Hd)%in_map_iff.
    destruct (Z.eqb_spec (ud_user d0) (n_ptr u)) as [E|E]; [by left|].
    destruct (H6 d0 Hd) as [?|(v & Hv & Ev & Es)]; [by left|]. right. exists v. split; [|done].
    destruct (Hback v Hv) as [-> |?]; [congruence|done].
Qed.

(** ** Runs *)

Section Ops.
Context (rt : Z -> Z) (cidr noshare : bool) (dfl udfl : Z).

Inductive uop :=
| UGet (handle : list Z)
| UAdd (handle host pass : list Z) (flags : Z)
| UDel (handle : list Z)
| ULogin (nick : list Z).   (* a connection of this user *)

Definition do_uop (s : ulist) (op : uop) : result mfault (Z * ulist) :=
  match op with
  | UGet h => get_user_by_handle s h
  | UAdd handle host pass flags => let! r := adduser rt cidr noshare dfl udfl s handle host pass flags in Ok (0, fst r)
  | UDel h => let! r := deluser noshare s h in Ok (fst (fst r), snd (fst r))
  | ULogin nick => let! r := get_user_by_handle s nick in
                   Ok (fst r, set_dcc ({| ud_nick := nick; ud_user := fst r; ud_chat := true |} :: ul_dcc (snd r)) (snd r))
  end.
Fixpoint do_uops (s : ulist) (ops : list uop) : result mfault (list Z) :=
  match ops with
  | [] => Ok []
  | op :: ops => let! r := do_uop s op in let! rest := do_uops (snd r) ops in Ok (fst r :: rest)
  end.

(** The same on the list alone, with the next address. *)
Definition list_uop (us : list unode) (fresh : Z) (op : uop) : Z * list unode * Z :=
  match op with
  | UGet h | ULogin h => (get_user_in us h, us, fresh)
  | UAdd handle host pass flags => (0, us ++ [new_user rt cidr dfl udfl fresh handle host flags], fresh + 1)
  | UDel h => match unlink_user us h with Some (_, us) => (1, us, fresh) | None => (0, us, fresh) end
  end.
Fixpoint list_uops (us : list unode) (fresh : Z) (ops : list uop) : list Z :=
  match ops with
  | [] => []
  | op :: ops => let '(a, us, fresh) := list_uop us fresh op in a :: list_uops us fresh ops
  end.

(** Names are plain; a new user has a new name; the last user is not deleted. *)
Definition uop_ok (us : list unode) (fresh : Z) (op : uop) : Prop :=
  match op with
  | UGet h => plain_name (asked h)
  | ULogin h => plain_name (asked h) /\ asked h = h
  | UAdd handle host pass flags =>
      cstr handle /\ (forall v, In v us -> ufold v <> ufold (new_user rt cidr dfl udfl fresh handle host flags))
  | UDel h => plain_name h /\ match unlink_user us h with Some (_, us) => us <> [] | None => True end
  end.
Fixpoint uops_ok (us : list unode) (fresh : Z) (ops : list uop) : Prop :=
  match ops with
  | [] => True
  | op :: ops => uop_ok us fresh op /\ let '(_, us, fresh) := list_uop us fresh op in uops_ok us fresh ops
  end.
End Ops.

Section Runs.
Context (rt : Z -> Z) (cidr noshare : bool) (dfl udfl : Z).

Lemma uop_step s n op : ul_ok s n -> 0 <= n -> n + Z.of_nat (length (ul_users s)) + 1 <= 2 ^ 50 ->
  (ul_users s = [] -> ul_dict s = None) -> uop_ok rt cidr dfl udfl (ul_users s) (ul_fresh s) op ->
  let '(a, us', fresh') := list_uop rt cidr dfl udfl (ul_users s) (ul_fresh s) op in
  exists s', do_uop rt cidr noshare dfl udfl s op = Ok (a, s') /\ ul_ok s' (n + Z.of_nat (length (ul_users s)) + 1) /\
    ul_users s' = us' /\ ul_fresh s' = fresh' /\ (ul_users s' = [] -> ul_dict s' = None) /\ (length us' <= S (length (ul_users s)))%nat.
Proof.
  intros Hs Hn Hb He Hop. destruct op as [h|handle host pass flags|h|nick]; cbn [list_uop do_uop uop_ok] in *.
  - destruct (lookup_spec s n h Hs Hop) as (s' & E & Hok & Hu & Hf & Hd); [lia|lia|]. rewrite E. exists s'.
    split_and!; try done; [apply (ok_more s' (n + Z.of_nat (length (ul_users s)))); [lia|done]|rewrite Hu; auto|lia].
  - destruct Hop as [Hc Hnew]. destruct (adduser_spec rt cidr noshare dfl udfl s n handle host pass flags Hs Hc) as (s' & out & E & Hok & Hu & Hf & _); [lia|done|done|].
    rewrite E. cbn [rbind fst]. exists s'. split_and!; try done; [apply (ok_more s' (n + 1)); [lia|done]| |rewrite length_app; cbn; lia].
    rewrite Hu. by destruct (ul_users s).
  - destruct Hop as [Hp Hlast]. destruct (deluser_spec noshare s n h Hs Hp) as (s' & out & E & Hok & Hu & Hf). rewrite E. cbn [rbind fst snd].
    pose proof (unlink_spec (ul_users s) h) as Hx. destruct (unlink_user (ul_users s) h) as [[u us']|] eqn:Eu.
    + exists s'. split_and!; try done; [apply (ok_more s' n); [lia|done]|by rewrite Hu|].
      destruct Hx as (pre & post & -> & -> & _). rewrite !length_app. cbn. lia.
    + exists s'. split_and!; try done; [apply (ok_more s' n); [lia|done]| |lia]. rewrite Hu. intros E0.
      unfold deluser in E. rewrite Eu in E. injection E as <- <-. by apply He.
  - destruct Hop as [Hp Hnick]. destruct (lookup_spec s n nick Hs Hp) as (s' & E & Hok & Hu & Hf & Hd); [lia|lia|]. rewrite E. cbn [rbind fst snd].
    eexists. split; [done|]. split; [|cbn; split_and!; try done; [rewrite Hu; auto|lia]].
    apply (ok_more _ (n + Z.of_nat (length (ul_users s)))); [lia|]. destruct Hok as [H1 H2 H3 H4 H5 H6 H7]. split; try done.
    cbn [ul_dcc ul_users set_dcc]. constructor; [|done]. cbn [ud_user ud_nick]. unfold get_user_in. rewrite Hnick in *. rewrite Hu.
    destruct nick as [|c t]; [by left|].
    destruct (scan_spec s n (c :: t) Hs Hp) as [(u & Hin & _ & Hsame & ->)|[_ ->]]; [|by left].
    right. exists u. by split_and!.
Qed.

(** C11. [get_user_by_handle] answers what the list has under the name, whichever of its
    shortcuts it takes (the last user, the users of the connections, the table of names that
    is built on demand): in any run of lookups, additions of users with new names, deletions
    that leave a user, and logins, by names without brackets and braces, the answers are
    those of a search of the list, and no freed record is read. *)
Theorem user_dict_agrees ops :
  uops_ok rt cidr dfl udfl [] 1 ops -> Z.of_nat (length ops) <= 2 ^ 20 ->
  do_uops rt cidr noshare dfl udfl nothing ops = Ok (list_uops rt cidr dfl udfl [] 1 ops).
Proof.
  intros Hok Hlen.
  assert (H : forall ops k s n, ul_ok s n -> uops_ok rt cidr dfl udfl (ul_users s) (ul_fresh s) ops ->
    0 <= n <= k * (2 ^ 20 + 2) -> 0 <= k -> Z.of_nat (length (ul_users s)) <= k -> k + Z.of_nat (length ops) <= 2 ^ 20 ->
    (ul_users s = [] -> ul_dict s = None) ->
    do_uops rt cidr noshare dfl udfl s ops = Ok (list_uops rt cidr dfl udfl (ul_users s) (ul_fresh s) ops)).
  { clear. induction ops as [|op ops IH]; intros k s n Hs Hops Hn Hk Hl Hb He; [done|].
    cbn [uops_ok length do_uops list_uops] in *. destruct Hops as [Hop Hrest].
    pose proof (uop_step s n op Hs ltac:(lia) ltac:(lia) He Hop) as Hstep.
    destruct (list_uop rt cidr dfl udfl (ul_users s) (ul_fresh s) op) as [[a us'] fresh'].
    destruct Hstep as (s' & -> & Hs' & <- & <- & He' & Hl'). cbn [rbind fst snd].
    rewrite (IH (k + 1) s' (n + Z.of_nat (length (ul_users s)) + 1)) by (done || lia). done. }
  apply (H ops 0 nothing 0); try done; try lia. split; cbn; try done; [apply NoDup_nil_2|apply NoDup_nil_2|by left].
Qed.
End Runs.

Definition sample_uops : list uop :=
  [UAdd (bs "ann") (bs "*!ann@a,b") (bs "-") 0; UGet (bs " Ann "); UAdd (bs "bob") [] (bs "-") USER_BOT; ULogin (bs "bob"); UGet (bs "BOB");
   UDel (bs "ANN"); UGet (bs "ann"); UGet (bs "*"); UAdd (bs "ann") [] (bs "-") 0; UGet (bs "ann")].

Lemma plain_bool h : forallb (fun c => (0 <? c) && (c <? 256) && negb (is_bracket c)) h = true -> plain_name h.
Proof.
  intros H. rewrite forallb_forall in H. split; apply List.Forall_forall; intros c Hc; specialize (H c Hc);
    apply andb_true_iff in H as [[H1 H2]%andb_true_iff H3]; [lia|by destruct (is_bracket c)].
Qed.

Lemma sample_uops_ok : uops_ok _rfc_toupper true 0 0 [] 1 sample_uops.
Proof.
  repeat (split; [|]); try exact I; try (by apply plain_bool; vm_compute); try (by apply (plain_bool _); vm_compute); try (by vm_compute).
  all: try (repeat constructor; cbn; lia).
  all: try (intros v Hv; vm_compute in Hv; repeat (destruct Hv as [<-|Hv]; [vm_compute; discriminate|]); destruct Hv).
Qed.

Lemma user_dict_agrees_witness :
  do_uops _rfc_toupper true false 0 0 nothing sample_uops = Ok [0; 1; 0; 2; 2; 1; 0; 0; 0; 3] /\
  do_uops _rfc_toupper true false 0 0 nothing sample_uops = Ok (list_uops _rfc_toupper true 0 0 [] 1 sample_uops).
Proof.
  split; [by vm_compute|]. apply (user_dict_agrees _rfc_toupper true false 0 0 sample_uops sample_uops_ok). by vm_compute.
Defined.
