(* ===== verification/UserEntry.v ===== *)
(** * The entries of a user (src/userent.c, src/flags.c, src/userrec.c)

    Comments, passwords, masks, addresses and so on: what the entry of each type holds, how it
    is set, how it is written to the user file and unpacked from its lines; setting and
    checking passwords. *)

From stdpp Require Import gmap list.
From S2P Require Import Botnet FlagDefs FlagText UserRec Base64 Prelude LibC Wildcard Inet Match Strings MaskFile UserHosts.
#[local] Open Scope Z_scope.

(** ** Types and values *)

(** The types of [init_userent], in its order. *)
Inductive etype := COMMENT | XTRA | INFO | LASTON | BOTADDR | PASS | PASS2 | HOSTS | BOTFL | ACCOUNT | FPRINT.
#[export] Instance etype_dec : EqDecision etype.
Proof. solve_decision. Defined.
Definition init_userent : list etype := [COMMENT; XTRA; INFO; LASTON; BOTADDR; PASS; PASS2; HOSTS; BOTFL; ACCOUNT; FPRINT].
Definition type_name (t : etype) : list Z :=
  match t with
  | COMMENT => bs "COMMENT" | XTRA => bs "XTRA" | INFO => bs "INFO" | LASTON => bs "LASTON" | BOTADDR => bs "BOTADDR"
  | PASS => bs "PASS" | PASS2 => bs "PASS2" | HOSTS => bs "HOSTS" | BOTFL => bs "BOTFL" | ACCOUNT => bs "ACCOUNT"
  | FPRINT => bs "FPRINT"
  end.
Definition find_entry_type (types : list etype) (name : list Z) : option etype :=
  find (fun t => same_name name (type_name t)) types.

Record laston_info := { laston : Z; lastonplace : list Z }.
Definition TLS_BOT : Z := 1.
Definition TLS_RELAY : Z := 2.
Record bot_addr := { address : list Z; telnet_port : Z; relay_port : Z; ssl : Z }.
(** Without data it asks for the removal of the key. *)
Record xtra_key := { x_key : list Z; x_data : list Z }.

(** What the union of an entry points to ([UWord] is not a pointer): a string, the records
    above, vectors, the list of lines of an entry that is not unpacked, freed memory. *)
Inductive uval :=
| UString (s : list Z)
| UWord (w : Z)
| ULaston (li : laston_info)
| UBotaddr (bi : bot_addr)
| UXtra (v : list xtra_key)
| UVec (v : list (list Z))
| UList (l : list (list Z))
| UFreed.

(** A type that is null, a value of another type, freed memory, a string that was never written. *)
Inductive efault := NullType | WrongType | FreedEntry | NoString.

(** [struct user_entry]; a null value is [None]. *)
Record uentry := { e_type : option etype; e_name : option (list Z); e_val : option uval }.
Definition set_val (v : option uval) (e : uentry) : uentry := {| e_type := e_type e; e_name := e_name e; e_val := v |}.

(** [struct userrec] with its entries. *)
Record urec := {
  r_handle : list Z;
  r_flags : Z;
  r_flags_udef : Z;
  r_chanrec : list chanuserrec;
  r_entries : list uentry;
  r_dirty : bool
}.
Definition set_entries (es : list uentry) (u : urec) : urec :=
  {| r_handle := r_handle u; r_flags := r_flags u; r_flags_udef := r_flags_udef u; r_chanrec := r_chanrec u; r_entries := es; r_dirty := r_dirty u |}.
Definition set_dirty (u : urec) : urec :=
  {| r_handle := r_handle u; r_flags := r_flags u; r_flags_udef := r_flags_udef u; r_chanrec := r_chanrec u; r_entries := r_entries u; r_dirty := true |}.

(** ** Lines of the user file *)

(** [*_unpack]: the lines of the entry, oldest first. *)
Definition first_line (l : list (list Z)) : result efault (list Z) := match l with s :: _ => Ok s | [] => Err NullType end.
Definition laston_unpack (s : list Z) : laston_info :=
  let '(arg, par) := newsplit s in
  {| laston := egg_atoi arg; lastonplace := match par with [] => bs "???" | _ => par end |}.
Definition port_or (port dflt : Z) : Z := if port =? 0 then dflt else port.
(** [op_strndup] takes the size of the copy, with its end. *)
Definition op_strndup (x : list Z) (y : Z) : result efault (list Z) := if y =? 0 then Err NoString else Ok (op_strlcpy x y).
Definition botaddr_unpack (p : list Z) : result efault bot_addr :=
  let '(addr, q) := split_at (ch ":") p in
  let! addr := match q with None => Ok addr | Some _ => op_strndup p (Z.of_nat (length addr)) end in
  let '(ssl, telnet, relay) :=
    match q with
    | None => (0, 0, 0)
    | Some q =>
        let bot := match q with 43 :: _ => TLS_BOT | _ => 0 end in
        match snd (split_at (ch "/") q) with
        | None => (bot, egg_atoi q, 0)
        | Some q2 => (Z.lor bot (match q2 with 43 :: _ => TLS_RELAY | _ => 0 end), egg_atoi q, egg_atoi q2)
        end
    end in
  let telnet := port_or telnet 3333 in
  Ok {| address := map (fun c => if c =? ch ";" then ch ":" else c) addr; telnet_port := telnet; relay_port := port_or relay telnet; ssl := ssl |}.
Definition xtra_unpack (l : list (list Z)) : option uval :=
  match flat_map (fun s => let '(key, data) := newsplit s in match data with [] => [] | _ => [{| x_key := key; x_data := data |}] end) l with
  | [] => None
  | v => Some (UXtra v)
  end.
Definition hosts_unpack (l : list (list Z)) : option uval := match l with [] => None | _ => Some (UVec l) end.
Definition nonzero (w : Z) : option uval := if w =? 0 then None else Some (UWord w).

Definition unpack (t : etype) (l : list (list Z)) : result efault (option uval) :=
  match t with
  | LASTON => let! s := first_line l in Ok (Some (ULaston (laston_unpack s)))
  | BOTADDR => let! s := first_line l in let! bi := botaddr_unpack s in Ok (Some (UBotaddr bi))
  | XTRA => Ok (xtra_unpack l)
  | HOSTS | ACCOUNT => Ok (hosts_unpack l)
  | BOTFL => let! s := first_line l in Ok (nonzero (botfl_unpack s))
  | COMMENT | INFO | PASS | PASS2 | FPRINT => let! s := first_line l in Ok (Some (UString s))
  end.

(** [*_write_userfile]: the lines after the name of the type. *)
Definition semicolons (s : list Z) : list Z := map (fun c => if c =? ch ":" then ch ";" else c) s.
Definition uint (v : Z) : list Z := int_to_base10 (u32 v).
Definition botaddr_text (bi : bot_addr) : list Z :=
  semicolons (address bi) ++ ch ":" :: (if ssl bi &? TLS_BOT then [ch "+"] else []) ++ uint (telnet_port bi) ++
  ch "/" :: (if ssl bi &? TLS_RELAY then [ch "+"] else []) ++ uint (relay_port bi).
Definition entry_lines (t : etype) (v : option uval) : result efault (list (list Z)) :=
  match t, v with
  | _, Some UFreed => Err FreedEntry
  | (COMMENT | INFO | PASS | PASS2 | FPRINT), Some (UString s) => Ok [s]
  | LASTON, Some (ULaston i) => Ok [li (laston i) ++ ch " " :: lastonplace i]
  | BOTADDR, Some (UBotaddr bi) => Ok [botaddr_text bi]
  | XTRA, None | HOSTS, None | ACCOUNT, None => Ok []
  | XTRA, Some (UXtra v) => Ok (map (fun x => x_key x ++ ch " " :: x_data x) v)
  | (HOSTS | ACCOUNT), Some (UVec v) => Ok v
  | BOTFL, Some (UWord w) => Ok [botfl_pack w]
  | BOTFL, None => Ok [botfl_pack 0]
  | _, _ => Err WrongType
  end.
Definition dash_dash (name line : list Z) : list Z := bs "--" ++ name ++ ch " " :: line ++ newline.
Definition write_entry (e : uentry) : result efault (list (list Z)) :=
  match e_name e, e_type e with
  | Some name, _ => match e_val e with
                    | Some (UList l) => Ok (map (dash_dash name) l)
                    | None => Ok []
                    | _ => Err WrongType
                    end
  | None, Some t => let! ls := entry_lines t (e_val e) in Ok (map (dash_dash (type_name t)) ls)
  | None, None => Err NullType
  end.

(** ** The list of entries *)

Definition is_type (t : etype) (e : uentry) : bool :=
  match e_type e with Some x => bool_decide (x = t) || same_name (type_name x) (type_name t) | None => false end.

(** The loop of [find_user_entry]: it reads the type of every entry it passes. *)
Fixpoint pick_entry (t : etype) (es : list uentry) : result efault (option (uentry * list uentry)) :=
  match es with
  | [] => Ok None
  | e :: es =>
      match e_type e with
      | None => Err NullType
      | Some _ =>
          if is_type t e then Ok (Some (e, es))
          else let! r := pick_entry t es in Ok ((fun x => (fst x, e :: snd x)) <$> r)
      end
  end.
Definition find_uentry (t : etype) (u : urec) : result efault (option uentry * urec) :=
  let! r := pick_entry t (r_entries u) in
  Ok match r with Some (e, es) => (Some e, set_entries (e :: es) u) | None => (None, u) end.

(** [get_user] with [def_get]. *)
Definition uget (t : etype) (u : urec) : result efault (option uval * urec) :=
  let! (e, u) := find_uentry t u in Ok (match e with Some e => e_val e | None => None end, u).

(** The entry of the type gets a value; it is taken off the list when that is null. *)
Fixpoint store (t : etype) (v : option uval) (es : list uentry) : list uentry :=
  match es with
  | [] => []
  | e :: es => if is_type t e then match v with Some _ => set_val v e :: es | None => es end else e :: store t v es
  end.

(** [set_user], for a type whose [set] gets the user, with the entry at the front, and the
    value, and returns its result, the user, the value and what it sends. *)
Definition setter : Type := urec -> option uval -> result efault (Z * urec * option uval * list (list Z)).
Definition uset (t : etype) (set : setter) (u : urec) : result efault (Z * urec * list (list Z)) :=
  let! (e, u) := find_uentry t u in
  let u := match e with Some _ => u | None => set_entries ({| e_type := Some t; e_name := None; e_val := None |} :: r_entries u) u end in
  let! (ruv, out) := set u (match e with Some e => e_val e | None => None end) in
  let '(r, u, v) := ruv in
  let u := set_entries (store t v (r_entries u)) u in
  Ok (r, if truthy r then set_dirty u else u, out).

(** ** Setting *)

Definition PASSWORDMAX : Z := 30.

Section Setters.
Context (noshare share_greet : bool).

(** [shareout] of a changed entry, unless the user has one of the flags. *)
Definition share_entry (u : urec) (flags : Z) (text : list Z) : list (list Z) :=
  if noshare || (r_flags u &? flags) then [] else [bs "c " ++ text ++ newline].

(** Control characters other than those of bold, colour, inverse and underline. *)
Definition no_controls (s : list Z) : list Z :=
  map (fun c => if (c <? 32) && negb (mem c [2; 3; 22; 31]) then ch "?" else c) s.
Definition def_set (t : etype) (buf : option (list Z)) : setter := fun u v =>
  match v with
  | Some UFreed => Err FreedEntry
  | _ =>
      let string := match buf with Some (c :: s) => Some (c :: s) | _ => None end in
      match string, v with
      | None, None => Ok (1, u, None, [])
      | _, _ =>
          let v := no_controls <$> string in
          Ok (1, u, UString <$> v,
              if bool_decide (t = INFO) && negb share_greet then []
              else share_entry u (USER_BOT ||| USER_UNSHARED) (type_name t ++ bs " " ++ r_handle u ++ bs " " ++ default [] v))
      end
  end.

Definition laston_set (buf : option laston_info) : setter := fun u _ => Ok (1, u, ULaston <$> buf, []).

(** A number in the line that is sent. *)
Definition botaddr_shared (bi : bot_addr) : list Z :=
  address bi ++ bs " " ++ (if ssl bi &? TLS_BOT then [ch "+"] else []) ++ li (telnet_port bi) ++ bs " " ++
  (if ssl bi &? TLS_RELAY then [ch "+"] else []) ++ li (relay_port bi).
Definition botaddr_set (buf : option bot_addr) : setter := fun u _ =>
  Ok (1, u, UBotaddr <$> buf,
      match buf with Some bi => share_entry u USER_UNSHARED (bs "BOTADDR " ++ r_handle u ++ bs " " ++ botaddr_shared bi) | None => [] end).

(** The key goes to the end of the vector; without data it is taken out. *)
Fixpoint xtra_remove (key : list Z) (v : list xtra_key) : option (list xtra_key) :=
  match v with
  | [] => None
  | x :: v => if same_name (x_key x) key then Some v else cons x <$> xtra_remove key v
  end.
Definition xtra_set (new : xtra_key) : setter := fun u e =>
  match e with
  | None | Some (UXtra _) =>
      let v := match e with Some (UXtra v) => v | _ => [] end in
      let out := share_entry u (USER_BOT ||| USER_UNSHARED) (bs "XTRA " ++ r_handle u ++ bs " " ++ x_key new ++ bs " " ++ x_data new) in
      match xtra_remove (x_key new) v, x_data new with
      | None, [] => Ok (0, u, e, [])
      | Some v, [] => Ok (0, u, Some (UXtra v), out)
      | old, _ => Ok (0, u, Some (UXtra (default v old ++ [new])), out)
      end
  | Some _ => Err WrongType
  end.

(** [account_set]: the vector without that account, then the account. *)
Definition account_set (buf : option (list Z)) : setter := fun u e =>
  match e with
  | None | Some (UVec _) =>
      let v := match e with Some (UVec v) => v | _ => [] end in
      match buf with
      | None => Ok (1, u, None, [])
      | Some buf =>
          if same_name buf (bs "none") then Ok (1, u, None, [])
          else let acct := no_commas buf in
               Ok (1, u, Some (UVec (fst (vec_prune (same_name acct) (length v) v) ++ [acct])), [])
      end
  | Some _ => Err WrongType
  end.

(** [hosts_set] of [UserHosts] as a setter. *)
Definition hosts_setter (rfc_toupper : Z -> Z) (cidr_support : bool) (buf : list Z) : setter := fun u e =>
  match e with
  | None | Some (UVec _) =>
      let v := match e with Some (UVec v) => Some v | _ => None end in
      Ok (1, u, UVec <$> hosts_set rfc_toupper cidr_support v buf, [])
  | Some _ => Err WrongType
  end.

(** [botfl_set]: nothing for a user who is not a bot. *)
Definition botfl_setter (buf : Z) : setter := fun u e =>
  match e with
  | None | Some (UWord _) => Ok (1, u, if r_flags u &? USER_BOT then nonzero (Z.land buf BOT_VALID) else e, [])
  | Some _ => Err WrongType
  end.

(** [ssl_fpconv] copies the string. *)
Definition ssl_fpconv (fp : list Z) : list Z := fp.
Definition fprint_set (buf : option (list Z)) : setter := fun u _ =>
  let v := match buf with None | Some [] | Some (45 :: _) => None | Some fp => Some (ssl_fpconv fp) end in
  Ok (1, u, UString <$> v, share_entry u (USER_BOT ||| USER_UNSHARED) (bs "FPRINT " ++ r_handle u ++ bs " " ++ default [] v)).

(** *** Passwords *)

(** The encryption modules: [encrypt_pass] (blowfish), [encrypt_pass2] and [verify_pass2]
    (pbkdf2), which may fail; the setting [remove_pass]. *)
Context (encrypt_pass : option (list Z -> list Z)) (encrypt_pass2 : option (list Z -> option (list Z)))
        (verify_pass2 : list Z -> list Z -> option (list Z)) (remove_pass : bool).

Definition pass2_set (new : option (list Z)) : setter := fun u v =>
  match v with Some UFreed => Err FreedEntry | _ => Ok (0, u, UString <$> new, []) end.

Definition clean_pass (pass : list Z) : list Z :=
  map (fun c => if (c <=? 32) || (c =? 127) then ch "?" else c) (take (Z.to_nat PASSWORDMAX) pass).
Definition loaded_ep : bool := match encrypt_pass with Some _ => true | None => false end.
Definition loaded_ep2 : bool := match encrypt_pass2 with Some _ => true | None => false end.

(** The texts for PASS and for PASS2, of a password that is not to be removed. *)
Definition new_passes (u : urec) (pass : list Z) : list Z * option (list Z) :=
  if r_flags u &? USER_BOT then (pass, if loaded_ep2 then Some pass else None)
  else if match pass with 43 :: _ => true | _ => false end then (pass, None)
  else (match encrypt_pass with Some f => f pass | None => [] end,
        match encrypt_pass2 with Some f => f pass | None => None end).

(** The string of PASS is freed at the start when [encrypt_pass] is there; [v] is the value
    of the entry, which is in the list while PASS2 is set. *)
Definition pass_set (buf : option (list Z)) : setter := fun u v =>
  match v with
  | Some UFreed => Err FreedEntry
  | _ =>
      let out pass := share_entry u (USER_BOT ||| USER_UNSHARED) (bs "PASS " ++ r_handle u ++ bs " " ++ pass) in
      match buf with
      | None | Some [] | Some (45 :: _) =>
          let v := if loaded_ep then None else v in
          let! u := if loaded_ep2 then let! r := uset PASS2 (pass2_set None) u in Ok (snd (fst r)) else Ok u in
          Ok (1, u, v, out (default [] buf))
      | Some pass =>
          let pass := clean_pass pass in
          let '(new, new2) := new_passes u pass in
          let v := if loaded_ep && (negb loaded_ep2 || negb remove_pass) then Some (UString new)
                   else if loaded_ep then match v with Some _ => Some UFreed | None => None end else v in
          match new2 with
          | None => Ok (1, u, v, out pass)
          | Some new2 =>
              let! r := uset PASS2 (pass2_set (Some new2)) u in
              Ok (1, snd (fst r), if loaded_ep && remove_pass then None else v, out pass)
          end
      end
  end.

(** [u_pass_match]: whether it matches, and the user. *)
Definition string_of (v : option uval) : result efault (option (list Z)) :=
  match v with Some (UString s) => Ok (Some s) | Some UFreed => Err FreedEntry | Some _ => Err WrongType | None => Ok None end.
Definition get_string (t : etype) (u : urec) : result efault (option (list Z) * urec) :=
  let! (v, u) := uget t u in let! s := string_of v in Ok (s, u).
Definition match_pass2 (u : urec) (pass cmp : list Z) : result efault (bool * urec) :=
  match verify_pass2 pass cmp with
  | Some new => if bool_decide (new = cmp) then Ok (true, u)
                else let! r := uset PASS2 (pass2_set (Some new)) u in Ok (true, snd (fst r))
  | None => Ok (false, u)
  end.
Definition match_pass1 (u : urec) (pass cmp : list Z) : result efault (bool * urec) :=
  match encrypt_pass with
  | None => Ok (false, u)
  | Some f =>
      if negb (bool_decide (cmp = f pass)) then Ok (false, u)
      else
        match (match encrypt_pass2 with Some f2 => f2 pass | None => None end) with
        | None => Ok (true, u)
        | Some new =>
            let! r := uset PASS2 (pass2_set (Some new)) u in
            let u := snd (fst r) in
            if remove_pass then let! (_, u) := find_uentry PASS u in Ok (true, set_entries (store PASS None (r_entries u)) u)
            else Ok (true, u)
        end
  end.
Definition u_pass_match (u : urec) (pass : list Z) : result efault (bool * urec) :=
  let! (cmp2, u) := if loaded_ep2 then get_string PASS2 u else Ok (None, u) in
  let! (cmp, u) := match cmp2 with Some _ => Ok (cmp2, u) | None => get_string PASS u end in
  match pass, cmp with
  | 45 :: _, None => Ok (true, u)
  | 45 :: _, Some _ => Ok (false, u)
  | [], _ | _, None => Ok (false, u)
  | _, Some cmp =>
      if r_flags u &? USER_BOT then Ok (bool_decide (cmp = pass), u)
      else
        let pass := take (Z.to_nat PASSWORDMAX) pass in
        match cmp2 with Some _ => match_pass2 u pass cmp | None => match_pass1 u pass cmp end
  end.
End Setters.
