(* ===== verification/UserEntryProps.v ===== *)
(** * Entries: what is written is unpacked, what is set is got; passwords *)

From stdpp Require Import gmap list.
From S2P Require Import Botnet FlagDefs FlagText UserRec Base64 RegexCount Prelude LibC Wildcard Inet Match Strings MaskFile MaskFileProps UserHosts UserEntry.
#[local] Open Scope Z_scope.

(** ** From lines to values *)

Lemma egg_atoi_run (b : bool) v rest : 0 <= v < 2 ^ 31 -> match rest with c :: _ => isdigit c = false | [] => True end ->
  egg_atoi ((if b then [ch "+"] else []) ++ int_to_base10 v ++ rest) = v.
Proof.
  intros Hv Hr. destruct (base10_digits v) as (Hds & Hne & Hval); [lia|].
  assert (H : fst (strtol ((if b then [ch "+"] else []) ++ int_to_base10 v ++ rest)) = v).
  { destruct b.
    - unfold strtol. cbn [app skip_space]. change (isspace (ch "+")) with false. cbn match.
      assert (span_digits (int_to_base10 v ++ rest) = (int_to_base10 v, rest)) as ->
        by (destruct rest; [rewrite app_nil_r; by apply span_digits_all|by apply span_digits_run]).
      destruct (int_to_base10 v); [done|]. cbn [fst]. rewrite Hval. apply Z.min_r. unfold LONG_MAX. lia.
    - cbn [app]. destruct rest as [|c rest]; [rewrite app_nil_r, strtol_digits_end by done|rewrite strtol_digits by done];
        cbn [fst]; rewrite Hval; apply Z.min_r; unfold LONG_MAX; lia. }
  unfold egg_atoi. rewrite H. by rewrite i32_small by lia.
Qed.

Lemma uint_small v : 0 <= v < 2 ^ 31 -> uint v = int_to_base10 v.
Proof. intros Hv. unfold uint. by rewrite u32_small by lia. Qed.

(** What a value must be like for its lines to give it back. *)
Definition val_ok (t : etype) (v : uval) : Prop :=
  match t, v with
  | (COMMENT | INFO | PASS | PASS2 | FPRINT), UString _ => True
  | LASTON, ULaston i => - 2 ^ 31 <= laston i < 2 ^ 31 /\ lastonplace i <> []
  | BOTADDR, UBotaddr bi =>
      address bi <> [] /\ ~ In (ch ";") (address bi) /\ 0 < telnet_port bi < 2 ^ 31 /\ 0 < relay_port bi < 2 ^ 31 /\ 0 <= ssl bi < 4
  | XTRA, UXtra v => Forall (fun x => word (x_key x) /\ x_data x <> []) v
  | (HOSTS | ACCOUNT), UVec _ => True
  | BOTFL, UWord w => w <> 0 /\ Z.land w BOT_VALID = w
  | _, _ => False
  end.

Lemma laston_back i : - 2 ^ 31 <= laston i < 2 ^ 31 -> lastonplace i <> [] -> laston_unpack (li (laston i) ++ ch " " :: lastonplace i) = i.
Proof.
  intros Hl Hp. unfold laston_unpack, li. rewrite newsplit_word by (apply base10_word; lia).
  rewrite egg_atoi_base10 by done. destruct i as [l p]. by destruct p.
Qed.

Lemma colon_back a : ~ In (ch ";") a -> map (fun c => if c =? ch ";" then ch ":" else c) (semicolons a) = a.
Proof.
  intros Ha. unfold semicolons. rewrite map_map. rewrite <- (map_id a) at 2. apply map_ext_in. intros c Hc.
  destruct (Z.eqb_spec c (ch ":")) as [-> |]; [done|]. destruct (Z.eqb_spec c (ch ";")) as [-> |]; done.
Qed.

Lemma colon_not_in a : ~ In (ch ":") (semicolons a).
Proof. unfold semicolons. rewrite in_map_iff. intros (c & Hc & _). destruct (Z.eqb_spec c (ch ":")); [discriminate|done]. Qed.

Lemma plus_bit (b : bool) (bit v : Z) rest : 0 <= v < 2 ^ 31 ->
  match (if b then [ch "+"] else []) ++ int_to_base10 v ++ rest with 43 :: _ => bit | _ => 0 end = if b then bit else 0.
Proof.
  intros Hv. destruct b; [done|]. destruct (num_text v Hv) as (d & ds & -> & Hd & _). cbn [app].
  destruct (digit_head d Hd) as (H43 & _). destruct d as [|d|d]; try done. do 6 (destruct d as [d|d|]; try done).
Qed.

(** The value that is read again: the last byte of a bot's address is lost. *)
Definition cut_last (s : list Z) : list Z := take (length s - 1) s.
Definition reread_addr (bi : bot_addr) : bot_addr :=
  {| address := cut_last (address bi); telnet_port := telnet_port bi; relay_port := relay_port bi; ssl := ssl bi |}.
Definition reread_val (v : uval) : uval := match v with UBotaddr bi => UBotaddr (reread_addr bi) | _ => v end.

Lemma strndup_cut a rest : a <> [] -> op_strndup (a ++ rest) (Z.of_nat (length a)) = Ok (cut_last a).
Proof.
  intros Ha. unfold op_strndup, op_strlcpy, cut_last. destruct a as [|c a]; [done|]. rewrite (proj2 (Z.eqb_neq _ 0)) by (cbn [length]; lia).
  f_equal. replace (Z.to_nat (Z.of_nat (length (c :: a)) - 1)) with (length (c :: a) - 1)%nat by lia. rewrite take_app_le; [done|lia].
Qed.

Lemma botaddr_back bi : val_ok BOTADDR (UBotaddr bi) -> botaddr_unpack (botaddr_text bi) = Ok (reread_addr bi).
Proof.
  intros (Hne & Ha & Ht & Hr & Hs). unfold botaddr_unpack, botaddr_text. rewrite !uint_small by lia.
  rewrite split_at_app by by apply colon_not_in. cbn beta iota.
  rewrite strndup_cut by (unfold semicolons; by destruct (address bi)). cbn [rbind].
  assert (Hcut : cut_last (semicolons (address bi)) = semicolons (cut_last (address bi))).
  { unfold cut_last, semicolons. by rewrite length_map, firstn_map. }
  rewrite Hcut. clear Hcut. assert (Hac : ~ In (ch ";") (cut_last (address bi))).
  { intros Hi. apply Ha. rewrite <- (take_drop (length (address bi) - 1) (address bi)). apply in_or_app. by left. }
  set (q := (if ssl bi &? TLS_BOT then [ch "+"] else []) ++ int_to_base10 (telnet_port bi)).
  rewrite app_assoc. fold q. rewrite split_at_app.
  2:{ unfold q. rewrite in_app_iff. intros [Hi|Hi]; [destruct (_ &? _); cbn in Hi; intuition discriminate|].
      revert Hi. by apply base10_not_in; [lia|done|done]. }
  cbn [snd]. unfold q. rewrite <- app_assoc. rewrite !plus_bit by lia. rewrite egg_atoi_run by (done || lia).
  rewrite <- (app_nil_r (int_to_base10 (relay_port bi))). rewrite egg_atoi_run by (done || lia).
  rewrite (colon_back _ Hac). rewrite plus_bit by lia. unfold port_or.
  rewrite (proj2 (Z.eqb_neq (telnet_port bi) 0)), (proj2 (Z.eqb_neq (relay_port bi) 0)) by lia.
  destruct bi as [a t r s]. cbn [address telnet_port relay_port ssl] in *. f_equal.
  assert (Hc : s = 0 \/ s = 1 \/ s = 2 \/ s = 3) by lia. by destruct Hc as [-> |[-> |[-> | ->]]].
Qed.

Lemma xtra_back v : Forall (fun x => word (x_key x) /\ x_data x <> []) v ->
  xtra_unpack (map (fun x => x_key x ++ ch " " :: x_data x) v) = match v with [] => None | _ => Some (UXtra v) end.
Proof.
  intros Hv. unfold xtra_unpack.
  assert (flat_map (fun s => let '(key, data) := newsplit s in match data with [] => [] | _ => [{| x_key := key; x_data := data |}] end)
            (map (fun x => x_key x ++ ch " " :: x_data x) v) = v) as ->; [|by destruct v].
  induction Hv as [|x v [Hw Hd] _ IH]; [done|]. cbn [map flat_map]. rewrite newsplit_word by done.
  rewrite IH. destruct x as [k d]. by destruct d.
Qed.

(** The flags of one kind, which are read back. *)
Lemma valid_bot w : Z.land w BOT_VALID = w -> valid_flags (mk_fr (FR_BOT ||| FR_OR) 0 0 w 0 0).
Proof. intros H. unfold valid_flags, keep_valid. cbn [fr_match fr_global fr_udef_global fr_bot fr_chan fr_udef_chan]. by rewrite !Z.land_0_l, H. Qed.

Lemma botfl_back w : Z.land w BOT_VALID = w -> botfl_unpack (botfl_pack w) = w.
Proof.
  intros Hw. unfold botfl_unpack, botfl_pack.
  change (build_flags (mk_fr FR_BOT 0 0 w 0 0) None) with (build_flags (mk_fr (FR_BOT ||| FR_OR) 0 0 w 0 0) None).
  rewrite (read_back FR_BOT FR_OR); try done; [by left|by apply valid_bot].
Qed.

Lemma unpack_lines t v : val_ok t v ->
  exists ls, entry_lines t (Some v) = Ok ls /\ (ls <> [] -> unpack t ls = Ok (Some (reread_val v))).
Proof.
  destruct t, v; try done; cbn [val_ok entry_lines]; intros Hv; eexists; (split; [reflexivity|]); intros Hne; cbn [unpack first_line rbind]; try done.
  - f_equal. rewrite xtra_back by done. by destruct v.
  - destruct Hv. by rewrite laston_back.
  - by rewrite botaddr_back.
  - by destruct v.
  - destruct Hv as [Hw Hb]. rewrite botfl_back by done. unfold nonzero. by rewrite (proj2 (Z.eqb_neq w 0)).
  - by destruct v.
Qed.

(** ** The list of entries as a map *)

Definition vals (es : list uentry) (t : etype) : option uval := find (is_type t) es ≫= e_val.
Definition has_type (es : list uentry) (t : etype) : Prop := Exists (fun e => e_type e = Some t) es.
(** Every type is known, and there is one entry of each. *)
Definition wf (es : list uentry) : Prop := Forall (fun e => e_type e <> None) es /\ NoDup (map e_type es).

Lemma same_type t t' : same_name (type_name t) (type_name t') = bool_decide (t = t').
Proof. by destruct t, t'. Qed.

Lemma is_type_eq t e : is_type t e = bool_decide (e_type e = Some t).
Proof.
  unfold is_type. destruct (e_type e) as [x|]; [|done]. rewrite same_type, orb_diag. apply bool_decide_ext. split; [by intros ->|by intros [= ->]].
Qed.

Lemma is_type_not t es : (forall e, In e es -> e_type e <> Some t) -> find (is_type t) es = None.
Proof.
  intros H. destruct (find (is_type t) es) as [e|] eqn:E; [|done]. apply find_some in E as [Hin He].
  rewrite is_type_eq in He. apply bool_decide_eq_true_1 in He. by destruct (H e).
Qed.

Lemma vals_cons e es t : vals (e :: es) t = if bool_decide (e_type e = Some t) then e_val e else vals es t.
Proof. unfold vals. cbn [find]. rewrite is_type_eq. by destruct (bool_decide _). Qed.

Lemma entries_wf_cons e es : wf (e :: es) <-> e_type e <> None /\ ~ In (e_type e) (map e_type es) /\ wf es.
Proof. unfold wf. cbn [map]. rewrite Forall_cons, NoDup_cons, list_elem_of_In. tauto. Qed.

Lemma vals_none t es : ~ In (Some t) (map e_type es) -> vals es t = None.
Proof. intros H. unfold vals. rewrite is_type_not; [done|]. intros e He E. apply H. rewrite <- E. by apply in_map. Qed.

Lemma pick_spec t es : wf es -> exists r, pick_entry t es = Ok r /\
  match r with
  | None => ~ In (Some t) (map e_type es)
  | Some (e, rest) => e_type e = Some t /\ e :: rest ≡ₚ es
  end.
Proof.
  induction es as [|e es IH]; intros Hw; cbn [pick_entry]; [exists None; split; [done|cbn; tauto]|]. apply entries_wf_cons in Hw as (He & Hn & Hw).
  destruct (e_type e) as [x|] eqn:Ex; [|done]. rewrite is_type_eq, Ex.
  destruct (bool_decide_reflect (Some x = Some t)) as [[= ->]|Hne].
  - exists (Some (e, es)). by split_and!.
  - destruct (IH Hw) as (r & -> & Hr). cbn [rbind]. eexists. split; [reflexivity|].
    destruct r as [[e' rest]|]; cbn.
    + destruct Hr as [He' Hp]. split; [done|]. rewrite <- Hp. constructor.
    + rewrite Ex. intuition.
Qed.

Lemma wf_perm es es' : es ≡ₚ es' -> wf es -> wf es'.
Proof. unfold wf. intros Hp [Hf Hn]. split; [by rewrite <- Hp|]. by rewrite <- (Permutation_map e_type Hp). Qed.

Lemma vals_perm es es' t : wf es -> es ≡ₚ es' -> vals es t = vals es' t.
Proof.
  intros Hw Hp. induction Hp as [|e es es' Hp IH|x y es|es1 es2 es3 H12 IH12 H23 IH23]; [done| | |].
  - apply entries_wf_cons in Hw as (_ & _ & Hw). by rewrite !vals_cons, IH.
  - apply entries_wf_cons in Hw as (_ & Hn & Hw). rewrite !vals_cons.
    destruct (bool_decide_reflect (e_type y = Some t)) as [Ey|]; [|done].
    destruct (bool_decide_reflect (e_type x = Some t)) as [Ex|]; [|done].
    destruct Hn. left. congruence.
  - rewrite IH12 by done. apply IH23. by eapply wf_perm.
Qed.

Lemma find_uentry_spec t u : wf (r_entries u) -> exists e es, find_uentry t u = Ok (e, set_entries es u) /\ es ≡ₚ r_entries u /\
  match e with Some e => e_type e = Some t /\ e_val e = vals (r_entries u) t /\ In e es | None => ~ In (Some t) (map e_type (r_entries u)) end.
Proof.
  intros Hw. unfold find_uentry. destruct (pick_spec t _ Hw) as (r & -> & Hr). cbn [rbind]. destruct r as [[e rest]|].
  - destruct Hr as [He Hp]. exists (Some e), (e :: rest). split; [done|]. split; [done|]. split; [done|].
    split; [|by left]. rewrite <- (vals_perm (e :: rest) _ t); [|by apply (wf_perm (r_entries u)); [symmetry|]|done].
    rewrite vals_cons. by rewrite bool_decide_true.
  - exists None, (r_entries u). split_and!; [by destruct u|done..].
Qed.

Lemma store_types t v es : forall x, In x (map e_type (store t v es)) -> In x (map e_type es).
Proof.
  induction es as [|e es IH]; intros x; cbn [store map]; [done|]. destruct (is_type t e); [destruct v; cbn; tauto|].
  cbn. intros [H|H]; [by left|right; by apply IH].
Qed.

Lemma store_wf t v es : wf es -> wf (store t v es).
Proof.
  induction es as [|e es IH]; intros Hw; [done|]. cbn [store]. pose proof (proj1 (entries_wf_cons e es) Hw) as (He & Hn & Hes).
  destruct (is_type t e); [destruct v; [by apply entries_wf_cons|done]|]. apply entries_wf_cons. split_and!; [done| |by apply IH].
  intros Hin. by apply Hn, (store_types t v).
Qed.

Lemma store_vals t v es t' : wf es -> has_type es t -> vals (store t v es) t' = if decide (t' = t) then v else vals es t'.
Proof.
  intros Hw Hh. induction es as [|e es IH]; [by apply Exists_nil in Hh|]. pose proof (proj1 (entries_wf_cons e es) Hw) as (He & Hn & Hes).
  cbn [store]. rewrite is_type_eq. destruct (bool_decide_reflect (e_type e = Some t)) as [Et|Et].
  - destruct (decide (t' = t)) as [-> |Ht].
    + destruct v as [w|]; [rewrite vals_cons; cbn; by rewrite bool_decide_true|]. apply vals_none. by rewrite <- Et.
    + assert (bool_decide (e_type e = Some t') = false) as Hb by (apply bool_decide_eq_false_2; congruence).
      destruct v; rewrite !vals_cons; cbn; by rewrite Hb.
  - apply Exists_cons in Hh as [Hh|Hh]; [done|]. rewrite !vals_cons, IH by done.
    destruct (bool_decide_reflect (e_type e = Some t')) as [E|]; [|done]. by destruct (decide (t' = t)) as [-> |].
Qed.

Lemma store_has t v es t' : t' <> t -> has_type es t' -> has_type (store t v es) t'.
Proof.
  intros Ht. unfold has_type. induction 1 as [e es He|e es Hh IH]; cbn [store]; rewrite is_type_eq.
  - rewrite bool_decide_eq_false_2 by congruence. by constructor.
  - destruct (bool_decide _); [|by constructor]. destruct v; [by apply Exists_cons_tl|done].
Qed.

(** [set_user] with a [set] that finishes, keeps the types apart and leaves the values [W]. *)
Lemma uset_spec t set u r v out W (T : etype -> Prop) : wf (r_entries u) ->
  (forall u', wf (r_entries u') -> has_type (r_entries u') t -> (forall t', vals (r_entries u') t' = vals (r_entries u) t') ->
     (forall t', has_type (r_entries u) t' -> has_type (r_entries u') t') -> r_flags u' = r_flags u -> r_handle u' = r_handle u -> r_dirty u' = r_dirty u ->
     exists u1, set u' (vals (r_entries u) t) = Ok (r, u1, v, out) /\ wf (r_entries u1) /\ has_type (r_entries u1) t /\
       r_flags u1 = r_flags u /\ r_dirty u1 = r_dirty u /\ (forall t', t' <> t -> vals (r_entries u1) t' = W t') /\ (forall t', T t' -> has_type (r_entries u1) t')) ->
  exists u2, uset t set u = Ok (r, u2, out) /\ wf (r_entries u2) /\ r_flags u2 = r_flags u /\
    r_dirty u2 = (if truthy r then true else r_dirty u) /\ (forall t', vals (r_entries u2) t' = if decide (t' = t) then v else W t') /\
    (forall t', t' <> t -> T t' -> has_type (r_entries u2) t').
Proof.
  intros Hw Hset. unfold uset. destruct (find_uentry_spec t u Hw) as (e & es & -> & Hp & He). cbn [rbind].
  assert (Hes : wf es) by by apply (wf_perm (r_entries u)); [symmetry|].
  assert (Hv : forall t', vals es t' = vals (r_entries u) t') by (intros t'; by apply vals_perm).
  set (u' := match e with Some _ => _ | None => _ end).
  assert (Hval : match e with Some e => e_val e | None => None end = vals (r_entries u) t).
  { destruct e; [apply He|]. symmetry. by apply vals_none. }
  rewrite Hval. destruct (Hset u') as (u1 & -> & Hw1 & Hh1 & Hf1 & Hd1 & HW & HT).
  - unfold u'. destruct e; [done|]. cbn. apply entries_wf_cons. split_and!; [done| |done]. cbn.
    rewrite (Permutation_map e_type Hp). done.
  - unfold u'. destruct e as [e|]; cbn; [|by constructor].
    apply List.Exists_exists. exists e. by destruct He as (He & _ & Hin).
  - intros t'. unfold u'. destruct e; [apply Hv|]. cbn [r_entries set_entries]. rewrite vals_cons. cbn [e_type e_val]. rewrite Hv.
    destruct (bool_decide_reflect (Some t = Some t')) as [[= <-]|]; [|done]. by rewrite vals_none.
  - intros t' Ht. assert (Hes' : has_type es t') by (unfold has_type in *; by rewrite Hp).
    unfold u'. destruct e; [done|by apply Exists_cons_tl].
  - by destruct e.
  - by destruct e.
  - by destruct e.
  - cbn [rbind]. eexists. split; [reflexivity|]. split_and!.
    + destruct (truthy r); cbn; by apply store_wf.
    + by destruct (truthy r).
    + by destruct (truthy r).
    + intros t'. destruct (truthy r); cbn [r_entries set_dirty set_entries]; rewrite store_vals by done; destruct (decide (t' = t)); try done; by apply HW.
    + intros t' Ht HT'. destruct (truthy r); cbn [r_entries set_dirty set_entries]; by apply store_has; [|apply HT].
Qed.

(** A [set] that looks at the flags, the name and the value, and changes the value alone. *)
Lemma uset_pure t set u r v out : wf (r_entries u) ->
  (forall u', r_flags u' = r_flags u -> r_handle u' = r_handle u -> set u' (vals (r_entries u) t) = Ok (r, u', v, out)) ->
  exists u2, uset t set u = Ok (r, u2, out) /\ wf (r_entries u2) /\ r_flags u2 = r_flags u /\
    r_dirty u2 = (if truthy r then true else r_dirty u) /\
    (forall t', vals (r_entries u2) t' = if decide (t' = t) then v else vals (r_entries u) t') /\
    (forall t', t' <> t -> has_type (r_entries u) t' -> has_type (r_entries u2) t').
Proof.
  intros Hw Hset. apply (uset_spec t set u r v out (vals (r_entries u)) (has_type (r_entries u)) Hw).
  intros u' Hw' Hh Hv Ht Hf Hn Hd. exists u'. split; [by apply Hset|]. by split_and!.
Qed.

Lemma uget_spec t u : wf (r_entries u) -> exists es, uget t u = Ok (vals (r_entries u) t, set_entries es u) /\ es ≡ₚ r_entries u.
Proof.
  intros Hw. unfold uget. destruct (find_uentry_spec t u Hw) as (e & es & -> & Hp & He). cbn [rbind]. exists es. split; [|done].
  destruct e as [e|]; [by destruct He as (_ & -> & _)|]. by rewrite vals_none.
Qed.

(** A password of a user can be read when it is there. *)
Definition readable (v : option uval) : Prop := match v with None | Some (UString _) => True | _ => False end.
Definition str (v : option uval) : option (list Z) := match v with Some (UString s) => Some s | _ => None end.

Lemma get_string_spec t u : wf (r_entries u) -> readable (vals (r_entries u) t) ->
  exists es, get_string t u = Ok (str (vals (r_entries u) t), set_entries es u) /\ es ≡ₚ r_entries u.
Proof.
  intros Hw Hr. unfold get_string. destruct (uget_spec t u Hw) as (es & -> & Hp). cbn [rbind]. exists es. split; [|done].
  destruct (vals _ t) as [[]|]; done.
Qed.

(** ** Passwords *)

(** What an encryption module of the second kind promises: a password has the hash it was
    given; [verify] returns the hash, or a new one with other parameters. *)
Class Encryption2 := {
  hash : list Z -> option (list Z);
  verify : list Z -> list Z -> option (list Z);
  verify_hash p h : hash p = Some h -> verify p h = Some h
}.

(** A password that is stored as it is. *)
Definition plain_pass (p : list Z) : Prop :=
  match p with c :: _ => c <> 43 /\ c <> 45 | [] => False end /\ Forall (fun c => 32 < c /\ c <> 127) p /\ (length p <= 30)%nat.

Lemma clean_plain p : plain_pass p -> clean_pass p = p.
Proof.
  intros (_ & Hf & Hl). unfold clean_pass. change (Z.to_nat PASSWORDMAX) with 30%nat. rewrite take_ge by done.
  rewrite <- (map_id p) at 2. apply map_ext_in. intros c Hc. rewrite List.Forall_forall in Hf. destruct (Hf c Hc).
  by rewrite (proj2 (Z.leb_gt c 32)), (proj2 (Z.eqb_neq c 127)) by lia.
Qed.

(** A first byte that is not a sign. *)
Lemma no_sign {A} (p : list Z) (a b : A) (k : Z) : match p with c :: _ => c <> 43 /\ c <> 45 | [] => False end -> k = 43 \/ k = 45 ->
  match p with c :: _ => if c =? k then a else b | [] => b end = b.
Proof. destruct p as [|c p]; [done|]. intros [H1 H2] [-> | ->]; by rewrite (proj2 (Z.eqb_neq c _)). Qed.

Lemma plain_head p : plain_pass p -> exists c s, p = c :: s /\ c <> 43 /\ c <> 45.
Proof. intros [H _]. destruct p as [|c s]; [done|]. by exists c, s. Qed.

Ltac not_byte c := destruct c as [|c|c]; try done; do 6 (destruct c as [c|c|]; try done).

Section Passwords.
Context (noshare : bool) (encrypt_pass : option (list Z -> list Z)) (remove_pass : bool) `{Encryption2}.

Lemma new_plain u p : (r_flags u &? USER_BOT) = false -> plain_pass p ->
  new_passes encrypt_pass (Some hash) u p = (match encrypt_pass with Some f => f p | None => [] end, hash p).
Proof.
  intros Hb Hp. unfold new_passes. rewrite Hb. destruct (plain_head p Hp) as (c & s & -> & H43 & _). clear Hp. not_byte c.
Qed.

Lemma pass_set_plain u p h : (r_flags u &? USER_BOT) = false -> wf (r_entries u) -> plain_pass p -> hash p = Some h ->
  readable (vals (r_entries u) PASS) -> readable (vals (r_entries u) PASS2) ->
  exists u2 out, uset PASS (pass_set noshare encrypt_pass (Some hash) remove_pass (Some p)) u = Ok (1, u2, out) /\
    wf (r_entries u2) /\ r_flags u2 = r_flags u /\ vals (r_entries u2) PASS2 = Some (UString h) /\
    vals (r_entries u2) PASS = match encrypt_pass with
                               | Some f => if remove_pass then None else Some (UString (f p))
                               | None => vals (r_entries u) PASS
                               end.
Proof.
  intros Hb Hw Hp Hh H1 H2.
  set (v := match encrypt_pass with Some f => if remove_pass then None else Some (UString (f p)) | None => vals (r_entries u) PASS end).
  set (W t := if decide (t = PASS2) then Some (UString h) else vals (r_entries u) t).
  set (out := share_entry noshare u (USER_BOT ||| USER_UNSHARED) (bs "PASS " ++ r_handle u ++ bs " " ++ p)).
  destruct (uset_spec PASS (pass_set noshare encrypt_pass (Some hash) remove_pass (Some p)) u 1 v out W (fun _ => False) Hw) as (u2 & E & Hw2 & Hf2 & _ & Hv2 & _).
  - intros u' Hw' Hh' Hv' Ht' Hf' Hn' Hd'.
    destruct (uset_pure PASS2 (pass2_set (Some h)) u' 0 (Some (UString h)) [] Hw') as (u1 & E1 & Hw1 & Hf1 & Hd1 & Hv1 & Ht1).
    { intros u'' _ _. unfold pass2_set. rewrite Hv'. by destruct (vals (r_entries u) PASS2) as [[]|]. }
    exists u1. split; [|split; [exact Hw1|split_and!]].
    + unfold pass_set. rewrite clean_plain, new_plain by (done || by rewrite Hf'). rewrite Hh. rewrite E1. cbn [rbind fst snd].
      unfold out, share_entry. rewrite Hf', Hn'.
      destruct (plain_head p Hp) as (c & s & Ep & H43 & H45).
      unfold v, loaded_ep, loaded_ep2. cbn [negb orb]. rewrite Ep in *. clear Ep Hp.
      destruct (vals (r_entries u) PASS) as [[]|]; try done; destruct encrypt_pass; destruct remove_pass; cbn [andb negb]; not_byte c.
    + by apply Ht1.
    + by rewrite Hf1.
    + by rewrite Hd1, Hd'.
    + intros t' Ht. rewrite Hv1. unfold W. destruct (decide (t' = PASS2)); [done|apply Hv'].
    + done.
  - exists u2, out. split_and!; [exact E|done|done|by rewrite Hv2|by rewrite Hv2].
Qed.

Lemma match_hashed u p h : (r_flags u &? USER_BOT) = false -> wf (r_entries u) -> plain_pass p -> vals (r_entries u) PASS2 = Some (UString h) ->
  exists es, u_pass_match encrypt_pass (Some hash) verify remove_pass u p = match_pass2 verify (set_entries es u) p h.
Proof.
  intros Hb Hw Hp Hv. unfold u_pass_match, loaded_ep2.
  destruct (get_string_spec PASS2 u Hw) as (es & -> & _); [by rewrite Hv|]. rewrite Hv. cbn [rbind str]. exists es.
  assert (Ht : take (Z.to_nat PASSWORDMAX) p = p) by (apply take_ge; apply Hp). rewrite Ht.
  change (r_flags (set_entries es u)) with (r_flags u). rewrite Hb.
  destruct (plain_head p Hp) as (c & s & -> & H43 & H45). clear Hp Ht. not_byte c.
Qed.

(** C25. Once a user who is not a bot has been given a plain password with [set_user], it is
    accepted, and so is no plain password that the encryption module does not verify, also when the
    module for older passwords is there and the old password is kept. The module for the newer
    passwords is loaded and gives a hash for this password, the hash verifies, and the old entries
    of both kinds can be read. Plain ([plain_pass]) is a password of 1 to 30 bytes that are not
    blanks or control characters, and that does not begin with a plus or a minus; for others it is
    not so: one that begins with a plus is stored as it is ([plus_keeps_old]), and in one with a
    space the space is replaced when it is set and not when it is checked. *)
Theorem password_set_accepted u p h : (r_flags u &? USER_BOT) = false -> wf (r_entries u) -> plain_pass p -> hash p = Some h ->
  readable (vals (r_entries u) PASS) -> readable (vals (r_entries u) PASS2) ->
  exists u2 out, uset PASS (pass_set noshare encrypt_pass (Some hash) remove_pass (Some p)) u = Ok (1, u2, out) /\
    (exists u3, u_pass_match encrypt_pass (Some hash) verify remove_pass u2 p = Ok (true, u3)) /\
    (forall p', plain_pass p' -> verify p' h = None ->
       exists u3, u_pass_match encrypt_pass (Some hash) verify remove_pass u2 p' = Ok (false, u3)).
Proof.
  intros Hb Hw Hp Hh H1 H2. destruct (pass_set_plain u p h) as (u2 & out & E & Hw2 & Hf2 & Hv2 & _); try done.
  exists u2, out. rewrite <- Hf2 in Hb. split; [done|]. split.
  - destruct (match_hashed u2 p h Hb Hw2 Hp Hv2) as (es & ->). unfold match_pass2. rewrite (verify_hash p h Hh).
    rewrite bool_decide_true by done. by eexists.
  - intros p' Hp' Hver. destruct (match_hashed u2 p' h Hb Hw2 Hp' Hv2) as (es & ->). unfold match_pass2. rewrite Hver. by eexists.
Qed.
End Passwords.

(** A hash that can be seen through. *)
Definition tag_hash : Encryption2.
Proof.
  refine {| hash p := Some (bs "$" ++ p); verify p h := if decide (h = bs "$" ++ p) then Some h else None |}.
  intros p h [= <-]. by rewrite decide_True.
Defined.
Definition plain_user (es : list uentry) : urec :=
  {| r_handle := bs "ann"; r_flags := 0; r_flags_udef := 0; r_chanrec := []; r_entries := es; r_dirty := false |}.
Definition an_entry (t : etype) (v : uval) : uentry := {| e_type := Some t; e_name := None; e_val := Some v |}.

Lemma password_set_accepted_witness :
  let '(u, out) := match uset PASS (pass_set false None (Some (@hash tag_hash)) false (Some (bs "secret"))) (plain_user [an_entry COMMENT (UString (bs "hi"))]) with
                   | Ok (_, u, out) => (u, out) | Err _ => (plain_user [], []) end in
  out = [bs "c PASS ann secret" ++ [10]] /\
  exists u3, u_pass_match None (Some (@hash tag_hash)) (@verify tag_hash) false u (bs "secret") = Ok (true, u3).
Proof.
  destruct (@password_set_accepted false None false tag_hash (plain_user [an_entry COMMENT (UString (bs "hi"))]) (bs "secret") (bs "$secret"))
    as (u2 & out & E & Hacc & _).
  - reflexivity.
  - split; [by repeat constructor|]. apply NoDup_singleton.
  - split; [by cbn|]. split; [repeat constructor; cbn; try lia; discriminate|cbn; lia].
  - reflexivity.
  - exact I.
  - exact I.
  - rewrite E. split; [|exact Hacc]. assert (Hc := E). vm_compute in Hc. injection Hc as <- <-. reflexivity.
Defined.

(** ** Edges *)

(** A change of an XTRA entry or of PASS2 does not mark the user as changed: a store that saves
    changed users alone does not save it. *)
Lemma pass2_change u new : wf (r_entries u) -> readable (vals (r_entries u) PASS2) ->
  exists u2, uset PASS2 (pass2_set (Some new)) u = Ok (0, u2, []) /\ r_dirty u2 = r_dirty u /\ vals (r_entries u2) PASS2 = Some (UString new).
Proof.
  intros Hw Hr. destruct (uset_pure PASS2 (pass2_set (Some new)) u 0 (Some (UString new)) [] Hw) as (u2 & E & _ & _ & Hd & Hv & _).
  - intros u' _ _. unfold pass2_set. by destruct (vals _ PASS2) as [[]|].
  - exists u2. split; [done|]. split; [done|]. rewrite Hv. by rewrite decide_True.
Qed.

Lemma xtra_change noshare u x : wf (r_entries u) -> match vals (r_entries u) XTRA with None | Some (UXtra _) => True | _ => False end -> x_data x <> [] ->
  exists u2 v out, uset XTRA (xtra_set noshare x) u = Ok (0, u2, out) /\ r_dirty u2 = r_dirty u /\ vals (r_entries u2) XTRA = Some (UXtra (v ++ [x])).
Proof.
  intros Hw Hr Hx. set (v := match vals (r_entries u) XTRA with Some (UXtra v) => v | _ => [] end).
  destruct (uset_pure XTRA (xtra_set noshare x) u 0 (Some (UXtra (default v (xtra_remove (x_key x) v) ++ [x])))
    (share_entry noshare u (USER_BOT ||| USER_UNSHARED) (bs "XTRA " ++ r_handle u ++ bs " " ++ x_key x ++ bs " " ++ x_data x)) Hw) as (u2 & E & _ & _ & Hd & Hv & _).
  - intros u' Hf Hn. unfold xtra_set, share_entry, v. rewrite Hf, Hn.
    destruct (vals _ XTRA) as [[]|]; try done; destruct (xtra_remove _ _), (x_data x); done.
  - exists u2, (default v (xtra_remove (x_key x) v)). eexists. split; [exact E|]. split; [done|]. rewrite Hv. by rewrite decide_True.
Qed.

(** A password that begins with a plus sign is taken for one that is encrypted already: the
    old password stays good. *)
Example plus_keeps_old :
  (let u := plain_user [an_entry PASS2 (UString (bs "$old"))] in
   let! r := uset PASS (pass_set true None (Some (@hash tag_hash)) false (Some (bs "+new"))) u in
   let! (ok, _) := u_pass_match None (Some (@hash tag_hash)) (@verify tag_hash) false (snd (fst r)) (bs "old") in Ok ok) = Ok true.
Proof. by vm_compute. Qed.

(** With both modules and [remove_pass], it leaves PASS freed and in the list. *)
Example plus_frees_pass :
  (let u := plain_user [an_entry PASS (UString (bs "+abc"))] in
   let! r := uset PASS (pass_set true (Some (fun p => p)) (Some (@hash tag_hash)) true (Some (bs "+new"))) u in
   entry_lines PASS (vals (r_entries (snd (fst r))) PASS)) = Err FreedEntry.
Proof. by vm_compute. Qed.

(** A check of a user without a password succeeds with whatever begins with a minus sign. *)
Example minus_matches :
  (let! (ok, _) := u_pass_match None (Some (@hash tag_hash)) (@verify tag_hash) false (plain_user []) (bs "-anything") in Ok ok) = Ok true.
Proof. by vm_compute. Qed.

(** A bot's password longer than 30 bytes is cut when it is set and not when it is checked. *)
Example long_bot_password :
  (let p := bs "0123456789012345678901234567890123456789" in
   let u := {| r_handle := bs "hub"; r_flags := USER_BOT; r_flags_udef := 0; r_chanrec := []; r_entries := []; r_dirty := false |} in
   let! r := uset PASS (pass_set true None (Some (@hash tag_hash)) false (Some p)) u in
   let! (ok, _) := u_pass_match None (Some (@hash tag_hash)) (@verify tag_hash) false (snd (fst r)) p in Ok ok) = Ok false.
Proof. by vm_compute. Qed.

(** A time past 2038 is written in full and read with 32 bits; no place is read as three
    question marks. *)
Example laston_wraps :
  (let! l := entry_lines LASTON (Some (ULaston {| laston := 2 ^ 31; lastonplace := [] |})) in unpack LASTON (map rmspace l)) =
  Ok (Some (ULaston {| laston := - 2 ^ 31; lastonplace := bs "???" |})).
Proof. by vm_compute. Qed.

(** The address of a bot loses a byte each time the user file is read, and one that is empty is
    a string without an end. *)
Example address_cut :
  let read (a : list Z) := let! l := entry_lines BOTADDR (Some (UBotaddr {| address := a; telnet_port := 3333; relay_port := 3333; ssl := 0 |})) in unpack BOTADDR l in
  read (bs "10.0.0.12") = Ok (Some (UBotaddr {| address := bs "10.0.0.1"; telnet_port := 3333; relay_port := 3333; ssl := 0 |})) /\ read [] = Err NoString.
Proof. by vm_compute. Qed.
