(* ===== verification/UserFile.v ===== *)
(** * The user file (src/users.c, src/userrec.c)

    [write_user] and the whole loop of [readuserfile]: users with their channel records and
    entries, and, by [MaskFile], masks and ignores; then the unpacking of entries and what is
    done about passwords. *)

From stdpp Require Import gmap list.
From S2P Require Import Botnet FlagDefs FlagText UserRec Htab MaskLists Base64 Prelude LibC Wildcard Rfc1459 Inet Match Strings Ignores MaskFile UserHosts UserIndex UserEntry.
#[local] Open Scope Z_scope.

(** ** Writing *)

(** [%-<n>s] *)
Definition pad (n : nat) (s : list Z) : list Z := s ++ repeat 32 (n - length s).

Definition user_line (u : urec) : list Z :=
  pad 10 (r_handle u) ++ bs " - " ++
  pad 24 (fst (build_flags (mk_fr FR_GLOBAL (i32 (r_flags u)) (i32 (r_flags_udef u)) 0 0 0) None)) ++ newline.
Definition chanrec_line (c : chanuserrec) (info : list Z) : list Z :=
  bs "! " ++ pad 20 (cr_channel c) ++ ch " " :: li (cr_laston c) ++ ch " " ::
  pad 10 (fst (build_flags (mk_fr FR_CHAN 0 0 0 (i32 (cr_flags c)) (i32 (cr_flags_udef c))) None)) ++ ch " " :: info ++ newline.

Section Write.
(** For the file ([None]), or for a bot, by the flags its user has in a channel. *)
Context (bot : option (list Z -> flag_record)) (share_greet : bool) (cs : list chan_masks).

Definition chanrec_lines (c : chanuserrec) : list (list Z) :=
  match find_chan cs (cr_channel c) ≫= fun i => cs !! i with
  | Some cst =>
      if may_have bot cst
      then [chanrec_line c (if match bot with None => true | Some _ => share_greet end then default [] (cr_info c) else [])] else []
  | None => []
  end.
Fixpoint write_entries (es : list uentry) : result efault (list (list Z)) :=
  match es with
  | [] => Ok []
  | e :: es => let! a := write_entry e in let! b := write_entries es in Ok (a ++ b)
  end.
Definition write_user (u : urec) : result efault (list (list Z)) :=
  let! es := write_entries (r_entries u) in
  Ok (user_line u :: flat_map chanrec_lines (r_chanrec u) ++ es).
End Write.

(** [write_userfile]: the comment, the users, which have been sorted, but the one for background
    scripts, the ignores, and what the channels module adds; nothing without users. *)
Fixpoint write_users (cs : list chan_masks) (us : list urec) : result efault (list (list Z)) :=
  match us with
  | [] => Ok []
  | u :: us =>
      if same_name (r_handle u) EGG_BG_HANDLE then write_users cs us
      else let! a := write_user None true cs u in let! b := write_users cs us in Ok (a ++ b)
  end.
Definition write_userfile (botnetnick head : list Z) (us : list urec) (s : mask_store) : result efault (option (list Z)) :=
  match us with
  | [] => Ok None
  | _ => let! ls := write_users (ms_chans s) us in
         Ok (Some (head ++ concat (ls ++ write_ignores botnetnick (ms_ign s) ++ channels_writeuserfile s)))
  end.

(** ** Reading *)

(** Faults of the masks' part, of an entry, and a user that is not there. *)
Inductive ffault := MaskFault (e : rfault) | EntryFault (e : efault) | NoUser.
Definition masked {A} (r : result rfault A) : result ffault A := match r with Ok a => Ok a | Err e => Err (MaskFault e) end.
Definition entered {A} (r : result efault A) : result ffault A := match r with Ok a => Ok a | Err e => Err (EntryFault e) end.

(** The state of the loop: that of [MaskFile], [u] and the list [bu], and the connections as
    nicks with their users; users are meant by their place in the list. *)
Record fstate := { f_r : rstate; f_u : option nat; f_bu : list urec; f_dcc : list (list Z * option nat) }.
Definition at_masks (u : option nat) (st : fstate) (r : result rfault rstate) : result ffault fstate :=
  let! r := masked r in Ok {| f_r := r; f_u := u; f_bu := f_bu st; f_dcc := f_dcc st |}.
Definition no_hand (u : option nat) (st : fstate) : fstate :=
  {| f_r := MaskFile.set_hand [] (f_r st); f_u := u; f_bu := f_bu st; f_dcc := f_dcc st |}.
(** A change of [u]. *)
Definition at_user (st : fstate) (f : urec -> result ffault urec) : result ffault fstate :=
  match f_u st ≫= fun i => f_bu st !! i with
  | Some u => let! u := f u in
              Ok {| f_r := f_r st; f_u := f_u st; f_bu := <[default O (f_u st) := u]> (f_bu st); f_dcc := f_dcc st |}
  | None => Ok st
  end.

(** Where a user of a list is. *)
Fixpoint find_user (bu : list urec) (handle : list Z) : option nat :=
  match bu with
  | [] => None
  | u :: bu => if same_name (r_handle u) handle then Some O else S <$> find_user bu handle
  end.
(** [get_user_by_handle] on [bu], which is not the list of the bot (or both are empty). *)
Definition get_user_of (bu : list urec) (handle : list Z) : option nat := match asked handle with [] => None | h => find_user bu h end.

Section Read.
Context (own : bool) (now : Z) (rfc_toupper : Z -> Z) (cidr_support : bool) (default_flags default_uflags : Z).
Context (encrypt_pass : option (list Z -> list Z)) (encrypt_pass2 : option (list Z -> option (list Z))) (remove_pass share_greet : bool).

(** [set_user] for a mask and for a password, while [noshare] is set. *)
Definition set_host (host : list Z) (u : urec) : result ffault urec :=
  let! r := entered (uset HOSTS (hosts_setter rfc_toupper cidr_support host) u) in Ok (snd (fst r)).
Definition set_pass (pass : list Z) (u : urec) : result ffault urec :=
  let! r := entered (uset PASS (pass_set true encrypt_pass encrypt_pass2 remove_pass (Some pass)) u) in Ok (snd (fst r)).

(** A line of masks of a user, of older files: with commas between them. *)
Fixpoint comma_hosts (fuel : nat) (s : list Z) (st : fstate) : result ffault (list Z * fstate) :=
  match fuel with
  | O => Ok (s, st)
  | S fuel =>
      if mem (ch ",") s then
        let '(s1, s) := splitc s (ch ",") in
        let! st := match rmspace s1 with [] => Ok st | s1 => at_user st (set_host s1) end in
        comma_hosts fuel s st
      else Ok (s, st)
  end.
Definition dash (st : fstate) (s : list Z) : result ffault fstate :=
  match r_hand (f_r st) with
  | [] => Ok st
  | h :: _ =>
      let! (s, st) := match f_u st with Some _ => comma_hosts (length s) s st | None => Ok (s, st) end in
      match s with
      | [] => Ok st
      | _ =>
          if mem h CHANMETA || (h =? ch "*") then at_masks (f_u st) st (dash_line now (f_r st) s)
          else match f_u st with Some _ => at_user st (set_host s) | None => Ok st end
      end
  end.

(** A channel record. *)
Definition bang_line (cs : list chan_masks) (s : list Z) (u : urec) : urec :=
  let '(chname, s) := newsplit s in
  let '(t, s) := newsplit s in
  let '(fl, s) := newsplit s in
  let s := rmspace s in
  let fr := fst (break_down_flags fl (mk_fr FR_CHAN 0 0 0 0 0) None) in
  match find_chan cs chname with
  | None => u
  | Some _ =>
      if existsb (fun cr => _rfc_casecmp (cr_channel cr) chname =? 0) (r_chanrec u) then u
      else
        let cr := mk_cr (op_strlcpy chname (CHANNELLEN + 1)) (egg_atoi t) (fr_chan fr) (fr_udef_chan fr) (match s with [] => None | _ => Some s end) in
        {| r_handle := r_handle u; r_flags := r_flags u; r_flags_udef := r_flags_udef u; r_chanrec := cr :: r_chanrec u;
           r_entries := r_entries u; r_dirty := r_dirty u |}
  end.

(** A line of an entry: after those of its name, or a new entry at the front. *)
Definition has_name (name : list Z) (e : uentry) : bool := match e_name e with Some n => same_name name n | None => false end.
Fixpoint add_to_entry (name s : list Z) (es : list uentry) : option (list uentry) :=
  match es with
  | [] => None
  | e :: es =>
      if has_name name e
      then Some (set_val (Some (UList (match e_val e with Some (UList l) => l | _ => [] end ++ [s]))) e :: es)
      else cons e <$> add_to_entry name s es
  end.
Definition add_line (name s : list Z) (u : urec) : urec :=
  set_entries (default ({| e_type := None; e_name := Some name; e_val := Some (UList [s]) |} :: r_entries u) (add_to_entry name s (r_entries u))) u.

(** [adduser] on [bu], without masks, while [noshare] and [noxtra] are set. *)
Definition file_user (handle pass : list Z) (flags : Z) : result ffault urec :=
  let dflt := flags =? USER_DEFAULT in
  set_pass pass {| r_handle := op_strlcpy handle (HANDLEN + 1); r_flags := if dflt then default_flags else flags;
                   r_flags_udef := if dflt then default_uflags else 0; r_chanrec := []; r_entries := []; r_dirty := true |}.

(** The first line of a user.  A user that is there is not changed, and when the line is bad
    [u] remains. *)
Definition user_head (st : fstate) (code s : list Z) : result ffault fstate :=
  let '(pass, s) := newsplit s in
  let '(attr, s) := newsplit s in
  match attr, pass with
  | [], _ | _, [] => Ok (no_hand (f_u st) st)
  | _, _ =>
      match get_user_of (f_bu st) code with
      | Some _ => Ok (no_hand None st)
      | None =>
          let code := rmspace code in
          let fr := fst (break_down_flags attr (mk_fr FR_GLOBAL 0 0 0 0 0) None) in
          let hand := op_strlcpy code 512 in
          let code := take (Z.to_nat HANDLEN) code in
          let pass := if (20 <? length pass)%nat then bs "-" else pass in
          let! new := file_user code pass (sanity_check (Z.land (fr_global fr) USER_VALID)) in
          let bu := f_bu st ++ [new] in
          let u := get_user_of bu code in
          match u with
          | None => Err NoUser
          | Some i =>
              let set_udef v := {| r_handle := r_handle v; r_flags := r_flags v; r_flags_udef := fr_udef_global fr;
                                   r_chanrec := r_chanrec v; r_entries := r_entries v; r_dirty := r_dirty v |} in
              Ok {| f_r := {| r_hand := hand; r_cst := None; r_store := r_store (f_r st) |}; f_u := u; f_bu := alter set_udef i bu;
                    f_dcc := map (fun d => if same_name code (fst d) then (fst d, u) else d) (f_dcc st) |}
          end
      end
  end.

Definition full_line (st : fstate) (buf : list Z) : result ffault fstate :=
  match buf with
  | [] | 35 :: _ | 59 :: _ => Ok st
  | _ =>
      let '(code, s) := newsplit buf in
      let s := rmspace s in
      if streq code (bs "-") then dash st s
      else if streq code (bs "%") then at_masks (f_u st) st (other_line now Exempt (ch "e") (f_r st) s)
      else if streq code (bs "@") then at_masks (f_u st) st (other_line now Invite (ch "I") (f_r st) s)
      else if streq code (bs "!") then at_user st (fun u => Ok (bang_line (ms_chans (r_store (f_r st))) s u))
      else if prefix_of (bs "::") code || prefix_of (bs "&&") code || prefix_of (bs "$$") code
      then at_masks None st (read_line own now (f_r st) buf)
      else if prefix_of (bs "--") code then at_user st (fun u => Ok (add_line (drop 2 code) s u))
      else if existsb (fun name => _rfc_casecmp code name =? 0) [BAN_NAME; IGNORE_NAME; EXEMPT_NAME; INVITE_NAME]
      then at_masks None st (read_line own now (f_r st) buf)
      else match code with 42 :: _ => Ok (no_hand None st) | _ => user_head st code s end
  end.

Fixpoint full_lines (fuel : nat) (f : list Z) (st : fstate) : result ffault fstate :=
  match fuel with
  | O => Ok st
  | S fuel => match fgets 512 f with None => Ok st | Some (buf, f) => let! st := full_line st buf in full_lines fuel f st end
  end.

(** The entries whose types are known are unpacked. *)
Fixpoint unpack_entries (types : list etype) (es : list uentry) : result efault (list uentry) :=
  match es with
  | [] => Ok []
  | e :: es =>
      let! e := match e_name e with
                | None => Ok e
                | Some name =>
                    match find_entry_type types name with
                    | None => Ok e
                    | Some t => let! v := unpack t (match e_val e with Some (UList l) => l | _ => [] end) in
                                Ok {| e_type := Some t; e_name := None; e_val := v |}
                    end
                end in
      let! es := unpack_entries types es in Ok (e :: es)
  end.
Fixpoint unpack_users (types : list etype) (us : list urec) : result efault (list urec) :=
  match us with
  | [] => Ok []
  | u :: us => let! es := unpack_entries types (r_entries u) in let! us := unpack_users types us in Ok (set_entries es u :: us)
  end.

(** [migrate_plaintext_passwords], for one user, and [cleanup_pass]. *)
Definition migrate_user (u : urec) : result efault urec :=
  match encrypt_pass2 with
  | None => Ok u
  | Some f =>
      if r_flags u &? USER_BOT then Ok u
      else
        let! (cmp, u) := get_string PASS u in
        match cmp with
        | None | Some [] | Some (45 :: _) | Some (43 :: _) => Ok u
        | Some pass => match f pass with
                       | None => Ok u
                       | Some hashed => let! r := uset PASS2 (pass2_set (Some hashed)) u in Ok (snd (fst r))
                       end
        end
  end.
Fixpoint last_entry (t : etype) (es : list uentry) : result efault bool :=
  match es with
  | [] => Ok false
  | e :: es => match e_type e with None => Err NullType | Some x => let! b := last_entry t es in Ok (bool_decide (x = t) || b) end
  end.
Definition cleanup_user (u : urec) : result efault urec :=
  let! p := last_entry PASS (r_entries u) in
  let! p2 := last_entry PASS2 (r_entries u) in
  Ok (if p && p2 then set_entries (store PASS None (r_entries u)) u else u).
Fixpoint for_users (f : urec -> result efault urec) (us : list urec) : result efault (list urec) :=
  match us with [] => Ok [] | u :: us => let! u := f u in let! us := for_users f us in Ok (u :: us) end.
Definition cleanup_pass (us : list urec) : result efault (list urec) :=
  match encrypt_pass, encrypt_pass2 with Some _, Some _ => for_users cleanup_user us | _, _ => Ok us end.

(** After the loop; the list of the bot is marked and cleaned up. *)
Definition passwords (us : list urec) : result efault (list urec) :=
  let! us := for_users migrate_user us in if own && remove_pass then cleanup_pass us else Ok us.
Definition finish_file (types : list etype) (us : list urec) : result efault (list urec) :=
  let! us := unpack_users types us in passwords (if own then map set_dirty us else us).

(** [bu] is empty at the start; the users, the masks and ignores, the connections. *)
Definition read_userfile (types : list etype) (f : list Z) (s : mask_store) (ds : list (list Z * option nat))
  : result ffault (list urec * mask_store * list (list Z * option nat)) :=
  let s := if own then {| ms_ign := []; ms_globals := map_kinds new_list (ms_globals s); ms_chans := ms_chans s |} else s in
  let st := {| f_r := {| r_hand := []; r_cst := None; r_store := s |}; f_u := None; f_bu := []; f_dcc := ds |} in
  let! f := match fgets 180 f with None => Ok f | Some (l, f) => let! _ := masked (MaskFile.opening l) in Ok f end in
  let! st := full_lines (length f) f st in
  let! us := entered (finish_file types (f_bu st)) in
  Ok (us, r_store (f_r st), f_dcc st).
End Read.
