(* ===== verification/UserEntryTypes.v ===== *)
(** * The entries of a user are well typed

    Whatever is done to the entries of a user, each holds a value of its type, and no operation
    meets a value of another type or one that has been freed. *)

From stdpp Require Import gmap list.
From S2P Require Import FlagDefs FlagText UserRec Prelude LibC UserHosts UserEntry UserEntryProps UserFile.
#[local] Open Scope Z_scope.

(** ** Types of values *)

Definition has_value (t : etype) (v : uval) : Prop :=
  match t, v with
  | (COMMENT | INFO | PASS | PASS2 | FPRINT), UString _ | LASTON, ULaston _ | BOTADDR, UBotaddr _ | XTRA, UXtra _
  | (HOSTS | ACCOUNT), UVec _ | BOTFL, UWord _ => True
  | _, _ => False
  end.
(** A value that may be null. *)
Definition has_option (t : etype) (v : option uval) : Prop := match v with None => True | Some w => has_value t w end.
(** The types whose entries are written also when the value is null. *)
Definition null_ok (t : etype) : bool := match t with XTRA | HOSTS | ACCOUNT | BOTFL => true | _ => false end.

(** An entry; [hole] holds of the types whose entry may be without a value, because it is being set. *)
Definition typed_entry (hole : etype -> Prop) (e : uentry) : Prop :=
  match e_type e, e_name e with
  | Some t, None => match e_val e with Some w => has_value t w | None => null_ok t = true \/ hole t end
  | _, _ => False
  end.
Definition typed_in (hole : etype -> Prop) (es : list uentry) : Prop := NoDup (map e_type es) /\ Forall (typed_entry hole) es.
Definition typed (u : urec) : Prop := typed_in (fun _ => False) (r_entries u).
Definition with_hole (t : etype) (hole : etype -> Prop) (t' : etype) : Prop := t' = t \/ hole t'.

Lemma typed_wf hole es : typed_in hole es -> wf es.
Proof. intros [Hn Hf]. split; [|done]. eapply Forall_impl; [exact Hf|]. intros e He. unfold typed_entry in He. by destruct (e_type e). Qed.

Lemma typed_entry_weaken (h h' : etype -> Prop) e : (forall t, h t -> h' t) -> typed_entry h e -> typed_entry h' e.
Proof.
  unfold typed_entry. intros Hw. destruct (e_type e), (e_name e); try done. destruct (e_val e); [done|]. intros [H|H]; [by left|right; by apply Hw].
Qed.

Lemma typed_perm hole es es' : es ≡ₚ es' -> typed_in hole es -> typed_in hole es'.
Proof. intros Hp [Hn Hf]. split; [by rewrite <- (Permutation_map e_type Hp)|by rewrite <- Hp]. Qed.

(** ** Finding and storing *)

Lemma typed_in_cons hole e es : typed_in hole (e :: es) <-> typed_entry hole e /\ ~ In (e_type e) (map e_type es) /\ typed_in hole es.
Proof. unfold typed_in. cbn [map]. rewrite NoDup_cons, Forall_cons, list_elem_of_In. tauto. Qed.

(** The entry that is found has a value of the type. *)
Lemma find_typed hole t u : typed_in hole (r_entries u) -> exists e es, find_uentry t u = Ok (e, set_entries es u) /\
  typed_in hole es /\ match e with Some e => has_option t (e_val e) | None => ~ In (Some t) (map e_type es) end.
Proof.
  intros Ht. destruct (find_uentry_spec t u (typed_wf _ _ Ht)) as (e & es & E & Hp & He). exists e, es. split; [done|].
  split; [by eapply typed_perm|]. destruct e as [e|]; [|by rewrite (Permutation_map e_type Hp)].
  destruct He as (Ht' & _ & Hin). apply (typed_perm _ _ es) in Ht; [|done]. destruct Ht as [_ Hf].
  rewrite List.Forall_forall in Hf. specialize (Hf e Hin). unfold typed_entry in Hf. rewrite Ht' in Hf.
  destruct (e_name e), (e_val e); done.
Qed.

(** After a value is stored its entry has none missing. *)
Lemma store_typed hole t v es : typed_in (with_hole t hole) es -> has_option t v -> typed_in hole (store t v es).
Proof.
  intros Ht Hv. induction es as [|e es IH]; [by split; constructor|]. apply typed_in_cons in Ht as (He & Hn & Ht). cbn [store].
  rewrite is_type_eq. destruct (bool_decide_reflect (e_type e = Some t)) as [E|E].
  - assert (Hes : typed_in hole es).
    { destruct Ht as [H1 H2]. split; [done|]. rewrite List.Forall_forall in *. intros x Hx. specialize (H2 x Hx). unfold typed_entry in *.
      destruct (e_type x) as [t'|] eqn:Ex; [|done]. destruct (e_name x); [done|]. destruct (e_val x); [done|]. destruct H2 as [H2|[-> |H2]]; [by left| |by right].
      destruct Hn. rewrite E, <- Ex. by apply in_map. }
    destruct v as [w|]; [|done]. apply typed_in_cons. split_and!; [|done|done]. unfold typed_entry in *. cbn [set_val e_type e_name e_val].
    rewrite E in *. by destruct (e_name e).
  - apply typed_in_cons. split_and!; [| |by apply IH].
    + unfold typed_entry in *. destruct (e_type e) as [t'|]; [|done]. destruct (e_name e); [done|]. destruct (e_val e); [done|].
      destruct He as [He|[-> |He]]; [by left|done|by right].
    + intros Hin. by apply Hn, (store_types t v).
Qed.

(** A [set] that takes values of the type to values of the type. *)
Definition set_ok (t : etype) (hole : etype -> Prop) (res : result efault (Z * urec * option uval * list (list Z))) : Prop :=
  exists r u' v' out, res = Ok (r, u', v', out) /\ typed_in (with_hole t hole) (r_entries u') /\ has_option t v'.
Definition well_set (t : etype) (set : setter) : Prop := forall hole u v,
  typed_in (with_hole t hole) (r_entries u) -> has_option t v -> set_ok t hole (set u v).

Lemma uset_typed hole t set u : well_set t set -> typed_in hole (r_entries u) ->
  exists r u' out, uset t set u = Ok (r, u', out) /\ typed_in hole (r_entries u').
Proof.
  intros Hset Ht. unfold uset. destruct (find_typed hole t u Ht) as (e & es & -> & Hes & He). cbn [rbind].
  set (u1 := match e with Some _ => _ | None => _ end).
  assert (Hu1 : typed_in (with_hole t hole) (r_entries u1)).
  { assert (Hw : typed_in (with_hole t hole) es).
    { destruct Hes as [H1 H2]. split; [done|]. eapply Forall_impl; [exact H2|]. intros x. apply typed_entry_weaken. by right. }
    unfold u1. destruct e; [done|]. apply typed_in_cons. split_and!; [|done|done]. right. by left. }
  destruct (Hset hole u1 (match e with Some e => e_val e | None => None end) Hu1) as (r & u' & v' & out & -> & Hu' & Hv'); [by destruct e|].
  cbn [rbind]. do 3 eexists. split; [reflexivity|]. destruct (truthy r); cbn; by apply store_typed.
Qed.

Lemma uget_typed hole t u : typed_in hole (r_entries u) -> exists v es, uget t u = Ok (v, set_entries es u) /\ typed_in hole es /\ has_option t v.
Proof.
  intros Ht. unfold uget. destruct (find_typed hole t u Ht) as (e & es & -> & Hes & He). cbn [rbind]. do 2 eexists. split; [reflexivity|].
  split; [done|]. by destruct e.
Qed.

(** ** Setting *)

Lemma pass2_typed new : well_set PASS2 (pass2_set new).
Proof. intros hole u v Hu Hv. unfold pass2_set. destruct v as [[]|]; try done; do 4 eexists; (split; [reflexivity|]); (split; [done|]); by destruct new. Qed.

Section Setting.
Context (noshare share_greet : bool) (rfc_toupper : Z -> Z) (cidr_support : bool).
Context (encrypt_pass : option (list Z -> list Z)) (encrypt_pass2 : option (list Z -> option (list Z)))
        (verify_pass2 : list Z -> list Z -> option (list Z)) (remove_pass : bool).

#[local] Ltac set_done := do 4 eexists; (split; [reflexivity|]); (split; [done|]); try done.

Lemma def_typed t buf : has_value t (UString []) -> well_set t (def_set noshare share_greet t buf).
Proof.
  intros Ht hole u v Hu Hv. assert (Hs : forall s, has_value t (UString s)) by (by destruct t). unfold def_set.
  destruct v as [[]|]; try (by destruct t); destruct buf as [[|x0 s0]|]; set_done; apply Hs.
Qed.

Lemma xtra_typed x : well_set XTRA (xtra_set noshare x).
Proof. intros hole u v Hu Hv. unfold xtra_set. destruct v as [[]|]; try done; destruct (xtra_remove _ _), (x_data x); set_done. Qed.

Lemma account_typed buf : well_set ACCOUNT (account_set buf).
Proof. intros hole u v Hu Hv. unfold account_set. destruct v as [[]|]; try done; destruct buf; try destruct (same_name _ _); set_done. Qed.

Lemma hosts_typed buf : well_set HOSTS (hosts_setter rfc_toupper cidr_support buf).
Proof. intros hole u v Hu Hv. unfold hosts_setter. destruct v as [[]|]; try done; set_done; by destruct (hosts_set _ _ _ _). Qed.

Lemma botfl_typed w : well_set BOTFL (botfl_setter w).
Proof. intros hole u v Hu Hv. unfold botfl_setter, nonzero. destruct v as [[]|]; try done; set_done; destruct (_ &? _); try done; by destruct (_ =? 0). Qed.

(** The types are kept apart while PASS2 is set from within a change of PASS. *)
Lemma pass_typed buf : loaded_ep encrypt_pass && loaded_ep2 encrypt_pass2 && remove_pass = false ->
  well_set PASS (pass_set noshare encrypt_pass encrypt_pass2 remove_pass buf).
Proof.
  intros Hk hole u v Hu Hv. unfold pass_set.
  assert (H2 : forall new, exists r u' out, uset PASS2 (pass2_set new) u = Ok (r, u', out) /\ typed_in (with_hole PASS hole) (r_entries u'))
    by (intros new; by apply uset_typed; [apply pass2_typed|]).
  assert (Hs : forall out, set_ok PASS hole (let v := if loaded_ep encrypt_pass then None else v in
      let! u := if loaded_ep2 encrypt_pass2 then let! r := uset PASS2 (pass2_set None) u in Ok (snd (fst r)) else Ok u in Ok (1, u, v, out))).
  { intros out. destruct (loaded_ep2 encrypt_pass2); [destruct (H2 None) as (r & u' & o & -> & Hu')|]; cbn [rbind snd fst]; set_done; by destruct (loaded_ep _). }
  assert (Hr : forall pass out, set_ok PASS hole (let '(new, new2) := new_passes encrypt_pass encrypt_pass2 u pass in
      let v := if loaded_ep encrypt_pass && (negb (loaded_ep2 encrypt_pass2) || negb remove_pass) then Some (UString new)
               else if loaded_ep encrypt_pass then match v with Some _ => Some UFreed | None => None end else v in
      match new2 with None => Ok (1, u, v, out) | Some new2 => let! r := uset PASS2 (pass2_set (Some new2)) u in
        Ok (1, snd (fst r), if loaded_ep encrypt_pass && remove_pass then None else v, out) end)).
  { intros pass out. destruct (new_passes _ _ u pass) as [new [new2|]]; [destruct (H2 (Some new2)) as (r & u' & o & -> & Hu'); cbn [rbind snd fst]|]; set_done;
      destruct (loaded_ep _), (loaded_ep2 _), remove_pass; done. }
  assert (Hv' : match v with Some UFreed => False | _ => True end) by (by destruct v as [[]|]).
  destruct v as [[]|]; try done; destruct buf as [[|x0 s0]|]; try apply Hs; destruct x0 as [|x0|x0]; try apply Hr; do 6 (destruct x0 as [x0|x0|]; try apply Hr); apply Hs.
Qed.

(** Whether a password matches is found out with the entries that are there. *)
Lemma check_typed hole u pass : typed_in hole (r_entries u) ->
  exists b u', u_pass_match encrypt_pass encrypt_pass2 verify_pass2 remove_pass u pass = Ok (b, u') /\ typed_in hole (r_entries u').
Proof.
  assert (Hget : forall t u, has_value t (UString []) -> typed_in hole (r_entries u) ->
    exists s u', get_string t u = Ok (s, u') /\ typed_in hole (r_entries u')).
  { clear u. intros t u Hs Hu. unfold get_string. destruct (uget_typed hole t u Hu) as (v & es & -> & Hes & Hv). cbn [rbind].
    destruct v as [w|]; [|by do 2 eexists]. destruct t; try done; destruct w; try done; by do 2 eexists. }
  assert (H2 : forall new u, typed_in hole (r_entries u) ->
    exists r u' out, uset PASS2 (pass2_set new) u = Ok (r, u', out) /\ typed_in hole (r_entries u'))
    by (intros; by apply uset_typed; [apply pass2_typed|]).
  intros Hu. unfold u_pass_match.
  assert (exists c2 u1, (if loaded_ep2 encrypt_pass2 then get_string PASS2 u else Ok (None, u)) = Ok (c2, u1) /\ typed_in hole (r_entries u1)) as (c2 & u1 & -> & Hu1)
    by (destruct (loaded_ep2 _); [by apply Hget|by do 2 eexists]). cbn [rbind].
  assert (exists c u2, match c2 with Some _ => Ok (c2, u1) | None => get_string PASS u1 end = Ok (c, u2) /\ typed_in hole (r_entries u2)) as (c & u2 & -> & Hu2)
    by (destruct c2; [by do 2 eexists|by apply Hget]). cbn [rbind].
  assert (Hend : exists b u', match c with None => Ok (false, u2) | Some cmp => if r_flags u2 &? USER_BOT then Ok (bool_decide (cmp = pass), u2) else
      let pass := take (Z.to_nat PASSWORDMAX) pass in match c2 with Some _ => match_pass2 verify_pass2 u2 pass cmp
      | None => match_pass1 encrypt_pass encrypt_pass2 remove_pass u2 pass cmp end end = Ok (b, u') /\ typed_in hole (r_entries u')).
  { destruct c as [cmp|]; [|by do 2 eexists]. destruct (_ &? _); [by do 2 eexists|]. cbn zeta. destruct c2.
    - unfold match_pass2. destruct (verify_pass2 _ _) as [new|]; [|by do 2 eexists]. destruct (bool_decide _); [by do 2 eexists|].
      destruct (H2 (Some new) u2 Hu2) as (r & u' & o & -> & Hu'). by do 2 eexists.
    - unfold match_pass1. destruct encrypt_pass as [f|]; [|by do 2 eexists]. destruct (negb _); [by do 2 eexists|].
      destruct (match encrypt_pass2 with Some f2 => _ | None => _ end) as [new|]; [|by do 2 eexists].
      destruct (H2 (Some new) u2 Hu2) as (r & u' & o & -> & Hu'). cbn [rbind snd fst]. destruct remove_pass; [|by do 2 eexists].
      destruct (find_typed hole PASS u' Hu') as (e & es & -> & Hes & _). cbn [rbind]. do 2 eexists. split; [reflexivity|].
      apply store_typed; [|done]. destruct Hes as [H3 H4]. split; [done|]. eapply Forall_impl; [exact H4|]. intros x. apply typed_entry_weaken. by right. }
  destruct pass as [|x p]; [by destruct c; do 2 eexists|].
  destruct x as [|x|x]; try exact Hend; do 6 (destruct x as [x|x|]; try exact Hend); destruct c; by do 2 eexists.
Qed.

(** ** What is done to the entries *)

Inductive edit :=
| SetComment (buf : option (list Z)) | SetInfo (buf : option (list Z)) | SetLaston (buf : option laston_info) | SetBotaddr (buf : option bot_addr)
| SetXtra (x : xtra_key) | SetAccount (buf : option (list Z)) | SetHosts (buf : list Z) | SetBotfl (buf : Z) | SetFprint (buf : option (list Z))
| SetPass (buf : option (list Z)) | SetPass2 (buf : option (list Z)) | Get (t : etype) | CheckPass (pass : list Z).
Definition apply_edit (e : edit) (u : urec) : result efault urec :=
  let run t set := let! r := uset t set u in Ok (snd (fst r)) in
  match e with
  | SetComment buf => run COMMENT (def_set noshare share_greet COMMENT buf)
  | SetInfo buf => run INFO (def_set noshare share_greet INFO buf)
  | SetLaston buf => run LASTON (laston_set buf)
  | SetBotaddr buf => run BOTADDR (botaddr_set noshare buf)
  | SetXtra x => run XTRA (xtra_set noshare x)
  | SetAccount buf => run ACCOUNT (account_set buf)
  | SetHosts buf => run HOSTS (hosts_setter rfc_toupper cidr_support buf)
  | SetBotfl buf => run BOTFL (botfl_setter buf)
  | SetFprint buf => run FPRINT (fprint_set noshare buf)
  | SetPass buf => run PASS (pass_set noshare encrypt_pass encrypt_pass2 remove_pass buf)
  | SetPass2 buf => run PASS2 (pass2_set buf)
  | Get t => let! r := uget t u in Ok (snd r)
  | CheckPass pass => let! r := u_pass_match encrypt_pass encrypt_pass2 verify_pass2 remove_pass u pass in Ok (snd r)
  end.
Fixpoint apply_edits (es : list edit) (u : urec) : result efault urec :=
  match es with [] => Ok u | e :: es => let! u := apply_edit e u in apply_edits es u end.

Hypothesis kept : loaded_ep encrypt_pass && loaded_ep2 encrypt_pass2 && remove_pass = false.

Lemma edit_typed e u : typed u -> exists u', apply_edit e u = Ok u' /\ typed u'.
Proof.
  intros Hu. assert (Hrun : forall t set, well_set t set -> exists u', (let! r := uset t set u in Ok (snd (fst r))) = Ok u' /\ typed u').
  { intros t set Hs. destruct (uset_typed _ t set u Hs Hu) as (r & u' & out & -> & Hu'). by exists u'. }
  destruct e; cbn [apply_edit]; try apply Hrun.
  - by apply def_typed.
  - by apply def_typed.
  - intros hole v w Hv Hw. unfold laston_set. set_done. by destruct buf.
  - intros hole v w Hv Hw. unfold botaddr_set. set_done. by destruct buf.
  - apply xtra_typed.
  - apply account_typed.
  - apply hosts_typed.
  - apply botfl_typed.
  - intros hole v w Hv Hw. unfold fprint_set. set_done. destruct buf as [[|x0 s0]|]; try done. cbn. not_byte x0.
  - by apply pass_typed.
  - apply pass2_typed.
  - destruct (uget_typed _ t u Hu) as (v & es & -> & Hes & _). by eexists.
  - destruct (check_typed _ u pass Hu) as (b & u' & -> & Hu'). by exists u'.
Qed.

Lemma typed_written es : typed_in (fun _ => False) es -> exists ls, write_entries es = Ok ls.
Proof.
  intros [_ Hf]. induction Hf as [|e es He _ (ls & IH)]; [by eexists|]. cbn.
  assert (exists l, write_entry e = Ok l) as (l & ->); [|rewrite IH; by eexists].
  unfold write_entry, typed_entry in *. destruct (e_type e) as [t|], (e_name e); try done.
  destruct (e_val e) as [w|]; [destruct t, w; try done; by eexists|]. destruct He as [He|[]]. destruct t; try done; by eexists.
Qed.

(** C24. The entries of a user stay well typed under what is done to them through [set_user],
    [get_user] and [u_pass_match]: unless both encryption modules are there and [remove_pass] is
    set, any sequence of calls of these ([edit]: setting an entry of any of the types, reading one,
    checking a password) finishes, without meeting a null type, a value of another type or freed
    memory; every entry then has a value of its type, and they can be written to the user file. Code
    that reaches an entry by other ways is not covered: the deletion of an account (userrec.c:1098)
    reads the vector of accounts as a list, and the script command [setuser] looks at an entry of
    hosts again after [set_user] has freed it (tcluser.c:718). *)
Theorem entries_well_typed edits u : typed u ->
  exists u', apply_edits edits u = Ok u' /\ typed u' /\ exists ls, write_entries (r_entries u') = Ok ls.
Proof using kept.
  revert u. induction edits as [|e edits IH]; intros u Hu; cbn [apply_edits].
  - exists u. split; [done|]. split; [done|]. by apply typed_written.
  - destruct (edit_typed e u Hu) as (u1 & -> & Hu1). cbn [rbind]. by apply IH.
Qed.
End Setting.

(** What is unpacked from lines is well typed; only a bot's address can be missing. *)
Lemma unpack_typed t ls : ls <> [] -> (t = BOTADDR -> exists bi, botaddr_unpack (hd [] ls) = Ok bi) ->
  exists v, unpack t ls = Ok v /\ match v with Some w => has_value t w | None => null_ok t = true end.
Proof.
  destruct ls as [|s ls]; [done|]. intros _ Ha. destruct t; cbn; try (eexists; split; [reflexivity|]); try done.
  - unfold xtra_unpack. by destruct (flat_map _ _).
  - destruct Ha as [bi Ha]; [done|]. cbn [hd] in Ha. rewrite Ha. cbn [rbind]. by eexists.
  - unfold nonzero. by destruct (_ =? 0).
Qed.

Definition some_edits : list edit :=
  [SetComment (Some (bs "hello")); SetPass (Some (bs "secret")); SetXtra {| x_key := bs "url"; x_data := bs "x" |}; SetHosts (bs "*!ann@x");
   CheckPass (bs "secret"); SetXtra {| x_key := bs "url"; x_data := [] |}; SetBotfl BOT_HUB; SetFprint (Some (bs "-")); Get LASTON; SetPass None].
Lemma entries_well_typed_witness :
  let ep := Some (fun p => bs "+" ++ p) in let ep2 := Some (@hash tag_hash) in let ver := @verify tag_hash in
  exists u', apply_edits false true LibC.tolower true ep ep2 ver false some_edits (plain_user [an_entry BOTFL (UWord 1)]) = Ok u' /\ typed u' /\
    exists ls, write_entries (r_entries u') = Ok ls.
Proof.
  apply entries_well_typed; [reflexivity|]. split; [apply NoDup_singleton|]. apply List.Forall_cons; [exact I|apply List.Forall_nil].
Defined.

(** With both modules and [remove_pass] the next look at the password reads freed memory. *)
Example freed_password_read :
  apply_edits false true LibC.tolower true (Some (fun p => bs "+" ++ p)) (Some (@hash tag_hash)) (@verify tag_hash) true
    [SetPass (Some (bs "+new")); CheckPass (bs "new")] (plain_user [an_entry PASS (UString (bs "+old"))]) = Err FreedEntry.
Proof. by vm_compute. Qed.
