(* ===== verification/UserFileProps.v ===== *)
(** * The whole user file is read back

    What [write_userfile] writes of the users, [read_userfile] makes into the same users:
    their flags, their channel records and their entries; the rest of the file is that of
    [MaskFileProps]. *)

From stdpp Require Import gmap list strings.
From S2P Require Import Botnet FlagDefs FlagText UserRec Htab HtabMap MaskLists Base64 RegexCount Prelude LibC Wildcard Rfc1459 Inet Match Strings Ignores MaskFile MaskFileProps UserHosts UserIndex UserEntry UserEntryProps UserFile.
#[local] Open Scope Z_scope.

(** ** Words and spaces *)

Definition no_space (s : list Z) : Prop := Forall (fun c => isspace c = false) s.

Lemma no_space_in s c : no_space s -> isspace c = true -> ~ In c s.
Proof. intros Hs Hc Hin. unfold no_space in Hs. rewrite List.Forall_forall in Hs. specialize (Hs c Hin). congruence. Qed.

Lemma no_space_word s : no_space s -> s <> [] -> word s.
Proof. intros Hs Hne. split; [done|]. by apply no_space_in. Qed.

Lemma no_space_edges s : no_space s -> edges s s.
Proof.
  intros Hs. split; [by destruct Hs|]. apply Forall_rev in Hs. by destruct Hs.
Qed.

Lemma repeat_snoc {A} (x : A) k l : repeat x k ++ x :: l = x :: repeat x k ++ l.
Proof. induction k as [|k IH]; [done|]. cbn. by rewrite IH. Qed.

Lemma newsplit_pad n w r : word w -> newsplit (pad n w ++ ch " " :: r) = (w, repeat 32 (n - length w) ++ r).
Proof.
  intros Hw. unfold pad. rewrite <- app_assoc. change (ch " ") with 32. rewrite repeat_snoc. by apply newsplit_word.
Qed.

Lemma newsplit_spaces k s : newsplit (repeat 32 k ++ s) = newsplit s.
Proof. unfold newsplit. f_equal. induction k as [|k IH]; [done|]. cbn. exact IH. Qed.

Lemma newsplit_end w : word w -> newsplit w = (w, []).
Proof.
  intros [Hne Hn]. unfold newsplit. destruct w as [|c w]; [done|].
  assert (Hc : c <> 32) by (intros ->; apply Hn; by left).
  cbn [skip_while]. rewrite (proj2 (Z.eqb_neq (ch " ") c)) by (intros E; by apply Hc). by rewrite find_delim_end.
Qed.

Lemma skip_spaces k s : skip_space (repeat 32 k ++ s) = skip_space s.
Proof. induction k as [|k IH]; [done|]. exact IH. Qed.

Lemma rev_repeat {A} (x : A) k : rev (repeat x k) = repeat x k.
Proof. induction k as [|k IH]; [done|]. cbn. rewrite IH. clear. induction k as [|k IH]; [done|]. cbn. by rewrite IH. Qed.

(** Spaces before a text, spaces and a newline behind it. *)
Lemma trim k t j : t <> [] -> edges t t -> rmspace (repeat 32 k ++ t ++ repeat 32 j ++ newline) = t.
Proof.
  intros Hne [Hh Hl]. unfold rmspace. rewrite !rev_app_distr, !rev_repeat. cbn [newline rev app skip_space].
  change (isspace 10) with true. cbn iota. rewrite <- !app_assoc. rewrite skip_spaces.
  assert (Hs : skip_space (rev t ++ repeat 32 k) = rev t ++ repeat 32 k).
  { apply skip_space_head. destruct (rev t) as [|c l] eqn:E; [|done]. apply (f_equal (@rev Z)) in E. rewrite rev_involutive in E. done. }
  rewrite Hs, rev_app_distr, rev_involutive, rev_repeat, skip_spaces. by apply skip_space_head.
Qed.

(** ** The text of flags *)

Lemma bits_while_range n : forall x v, Forall (fun c => x <= c < x + Z.of_nat n) (bits_while n x v).
Proof.
  induction n as [|n IH]; intros x v; cbn [bits_while]; [constructor|]. destruct (truthy v); [|constructor].
  apply Forall_app. split; [destruct (v &? 1); [constructor; [lia|constructor]|constructor]|].
  eapply Forall_impl; [apply IH|]. cbn. lia.
Qed.

Definition printing (s : list Z) : Prop := s <> [] /\ Forall (fun c => 32 < c < 127) s.
Lemma printing_no_space s : printing s -> no_space s.
Proof. intros [_ H]. eapply Forall_impl; [exact H|]. cbn. intros c Hc. unfold isspace, in_range. bool_lia. Qed.
Lemma printing_word s : printing s -> word s.
Proof. intros H. apply no_space_word; [by apply printing_no_space|apply H]. Qed.

Lemma flag_text_printing a u : printing (flag2str a u).
Proof.
  unfold flag2str, or_dash.
  assert (H : Forall (fun c => 32 < c < 127) (bits_while 26 (ch "a") a ++ bits_while 26 (ch "A") u)).
  { apply Forall_app. split; (eapply Forall_impl; [apply bits_while_range|]); cbn; lia. }
  destruct (_ ++ _); [|by split]. split; [done|]. constructor; [cbn; lia|constructor].
Qed.

Definition flags_of (a u : Z) : list Z := fst (build_flags (mk_fr FR_GLOBAL a u 0 0 0) None).
Definition chan_flags_of (a u : Z) : list Z := fst (build_flags (mk_fr FR_CHAN 0 0 0 a u) None).
Lemma flags_of_eq a u : flags_of a u = flag2str a u.
Proof.
  unfold flags_of, build_flags. cbn. rewrite app_nil_r. pose proof (flag_text_printing a u) as [Hne _].
  unfold global_part, signed_flags. cbn. by destruct (flag2str a u).
Qed.
Lemma chan_flags_of_eq a u : chan_flags_of a u = flag2str a u.
Proof.
  unfold chan_flags_of, build_flags. cbn. pose proof (flag_text_printing a u) as [Hne _].
  unfold chan_part, signed_flags. cbn. by destruct (flag2str a u).
Qed.

Definition valid_udef (u : Z) : Prop := Z.land u 0x03ffffff = u.

Lemma flags_read a u : Z.land a USER_VALID = a -> valid_udef u ->
  fst (break_down_flags (flags_of a u) (mk_fr FR_GLOBAL 0 0 0 0 0) None) = mk_fr (FR_GLOBAL ||| FR_GLOBAL ||| FR_OR) a u 0 0 0.
Proof.
  intros Ha Hu. unfold flags_of.
  change (build_flags (mk_fr FR_GLOBAL a u 0 0 0) None) with (build_flags (mk_fr (FR_GLOBAL ||| FR_OR) a u 0 0 0) None).
  rewrite (read_back FR_GLOBAL FR_OR); try done; [by left|]. unfold valid_flags, keep_valid. cbn [fr_match fr_global fr_udef_global fr_bot fr_chan fr_udef_chan].
  by rewrite !Z.land_0_l, Ha, Hu.
Qed.

Lemma chan_flags_read a u : Z.land a CHAN_VALID = a -> valid_udef u ->
  fst (break_down_flags (chan_flags_of a u) (mk_fr FR_CHAN 0 0 0 0 0) None) = mk_fr (FR_CHAN ||| FR_OR) 0 0 0 a u.
Proof.
  intros Ha Hu. unfold chan_flags_of.
  change (build_flags (mk_fr FR_CHAN 0 0 0 a u) None) with (build_flags (mk_fr (FR_CHAN ||| FR_OR) 0 0 0 a u) None).
  rewrite (read_back FR_CHAN FR_OR); try done; [by left|]. unfold valid_flags, keep_valid. cbn [fr_match fr_global fr_udef_global fr_bot fr_chan fr_udef_chan].
  by rewrite !Z.land_0_l, Ha, Hu.
Qed.

Lemma i32_valid a m n : 0 <= n <= 31 -> 0 <= m < 2 ^ n -> Z.land a m = a -> i32 a = a.
Proof.
  intros Hn Hm Ha. apply (land_bound m n a) in Ha; [|lia|done]. apply i32_small.
  pose proof (Z.pow_le_mono_r 2 n 31 ltac:(lia) ltac:(lia)). lia.
Qed.

(** ** Users *)

(** A name as [adduser]'s callers allow it. *)
Record handle_ok (h : list Z) : Prop := {
  ho_bytes : cstr h;
  ho_head : match h with c :: _ => mem c BADHANDCHARS = false | [] => False end;
  ho_space : no_space h;
  ho_length : (length h <= Z.to_nat HANDLEN)%nat
}.

Lemma handle_word h : handle_ok h -> word h.
Proof. intros [_ Hh Hs _]. apply no_space_word; [done|]. by destruct h. Qed.

Lemma rmspace_word h : no_space h -> rmspace h = h.
Proof.
  intros Hs. unfold rmspace. destruct (no_space_edges h Hs) as [H1 H2].
  rewrite (skip_space_head (rev h)), rev_involutive, skip_space_head; done.
Qed.

(** The last user, who is being read. *)
Definition reading (st : fstate) (bu : list urec) (u : urec) : Prop := f_u st = Some (length bu) /\ f_bu st = bu ++ [u].
Definition with_user (st : fstate) (bu : list urec) (u : urec) : fstate :=
  {| f_r := f_r st; f_u := Some (length bu); f_bu := bu ++ [u]; f_dcc := f_dcc st |}.

Lemma at_user_reading st bu u f u' : reading st bu u -> f u = Ok u' -> at_user st f = Ok (with_user st bu u').
Proof.
  intros [Hu Hb] Hf. unfold at_user, with_user. rewrite Hu, Hb. cbn [mbind option_bind default from_option id].
  rewrite lookup_app_r, Nat.sub_diag by lia. cbn [lookup list_lookup]. rewrite Hf. cbn [rbind]. do 2 f_equal.
  rewrite insert_app_r_alt by lia. by rewrite Nat.sub_diag.
Qed.

Lemma reading_with st bu u : reading (with_user st bu u) bu u.
Proof. by split. Qed.
Lemma with_with st bu u u' : with_user (with_user st bu u) bu u' = with_user st bu u'.
Proof. done. Qed.

(** *** The line of a user *)

Section Lines.
Context (own : bool) (now : Z) (rt : Z -> Z) (cidr : bool) (dflt dfltu : Z).
Context (ep : option (list Z -> list Z)) (ep2 : option (list Z -> option (list Z))) (rp : bool).
#[local] Abbreviation line := (full_line own now rt cidr dflt dfltu ep ep2 rp).
#[local] Abbreviation head_line := (user_head dflt dfltu ep ep2 rp).

Lemma not_section c t : cstr (c :: t) -> c <> 42 ->
  existsb (fun name => _rfc_casecmp (c :: t) name =? 0) [BAN_NAME; IGNORE_NAME; EXEMPT_NAME; INVITE_NAME] = false.
Proof.
  intros Hc Hn. apply not_true_iff_false. rewrite existsb_exists. intros (name & Hin & E). apply Z.eqb_eq in E.
  assert (Hname : cstr name /\ exists s, name = 42 :: s).
  { cbn in Hin. destruct Hin as [<-|[<-|[<-|[<-|[]]]]]; (split; [by repeat constructor|by eexists]). }
  destruct Hname as [Hcn [s ->]]. apply casecmp_istr in E; [|done..]. cbn [map] in E. injection E as E _. apply Hn.
  apply cstr_cons in Hc as [Hb _]. change (istr_fold 42) with 42 in E. revert E. unfold istr_fold.
  destruct ((ch "A" <=? c) && (c <=? ch "Z")) eqn:E1.
  - intros E. exfalso. pose proof (Z.lor_spec c 32 6) as Hs. rewrite E in Hs.
    assert (Hc6 : Z.testbit c 6 = true); [|rewrite Hc6 in Hs; discriminate Hs].
    apply andb_true_iff in E1 as [H1 H2]. apply Z.leb_le in H1, H2. cbn in H1, H2.
    rewrite Z.testbit_true by lia. change (2 ^ 6) with 64. replace (c / 64) with 1; [done|]. apply (Z.div_unique c 64 1 (c - 64)); lia.
  - destruct ((ch "[" <=? c) && (c <=? ch "^")) eqn:E2; [|done]. intros E. exfalso. apply andb_true_iff in E2 as [H1 H2]. apply Z.leb_le in H1, H2. cbn in H1, H2.
    unfold u8 in E. rewrite Z.mod_small in E by lia. lia.
Qed.

Lemma bad_byte c : mem c BADHANDCHARS = false -> c <> 45 /\ c <> 42 /\ c <> 58 /\ c <> 33 /\ c <> 64 /\ c <> 35 /\ c <> 59 /\ c <> 36 /\ c <> 37 /\ c <> 38.
Proof. intros H. split_and!; intros ->; discriminate. Qed.

Lemma user_line_head st h s : handle_ok h -> (let '(code, rest) := newsplit s in code = h) ->
  match s with c :: _ => Some c = head h | [] => False end ->
  line st s = head_line st h (rmspace (snd (newsplit s))).
Proof.
  intros [Hb Hh _ _] Hcode Hs. destruct h as [|c t]; [done|]. destruct s as [|c' s]; [done|]. cbn in Hs. injection Hs as ->.
  pose proof (bad_byte c Hh) as (H45 & H42 & H58 & H33 & H64 & H35 & H59 & H36 & H37 & H38).
  unfold full_line. destruct (newsplit (c :: s)) as [code rest]. cbn [snd]. subst code.
  assert (E : forall A (a b : A), match c with 35 | 59 => a | _ => b end = b) by (intros; not_byte c).
  pose proof (not_section c t Hb H42) as Hsec.
  assert (Hp : forall k (l : list Z), c <> k -> streq (c :: t) (k :: l) = false /\ prefix_of (k :: l) (c :: t) = false).
  { intros k l Hk. cbn. rewrite (proj2 (Z.eqb_neq c k)), ?(proj2 (Z.eqb_neq k c)) by congruence. done. }
  assert (Hbr : match c with 42 => Ok (no_hand None st) | _ => head_line st (c :: t) (rmspace rest) end = head_line st (c :: t) (rmspace rest)) by not_byte c.
  rewrite (proj1 (Hp 45 [] H45) : streq (c :: t) (bs "-") = false), (proj1 (Hp 37 [] H37) : streq (c :: t) (bs "%") = false),
    (proj1 (Hp 64 [] H64) : streq (c :: t) (bs "@") = false), (proj1 (Hp 33 [] H33) : streq (c :: t) (bs "!") = false),
    (proj2 (Hp 58 [58] H58) : prefix_of (bs "::") (c :: t) = false), (proj2 (Hp 38 [38] H38) : prefix_of (bs "&&") (c :: t) = false),
    (proj2 (Hp 36 [36] H36) : prefix_of (bs "$$") (c :: t) = false), (proj2 (Hp 45 [45] H45) : prefix_of (bs "--") (c :: t) = false), Hsec.
  cbn [orb]. not_byte c.
Qed.

(** A new user has no entries: the password is a dash. *)
Definition start_user (h : list Z) (flags udef : Z) : urec :=
  {| r_handle := h; r_flags := flags; r_flags_udef := udef; r_chanrec := []; r_entries := []; r_dirty := true |}.

Lemma file_user_dash h flags : (length h <= Z.to_nat HANDLEN)%nat -> flags <> USER_DEFAULT ->
  file_user dflt dfltu ep ep2 rp h (bs "-") flags = Ok (start_user h flags 0).
Proof.
  intros Hl Hf. unfold file_user. rewrite (proj2 (Z.eqb_neq flags _)) by done.
  assert (Hh : op_strlcpy h (HANDLEN + 1) = h) by (apply take_ge; unfold HANDLEN in *; lia). rewrite Hh.
  unfold set_pass. by destruct ep, ep2.
Qed.

Lemma find_user_none bu h : Forall (fun u => same_name (r_handle u) h = false) bu -> find_user bu h = None.
Proof. induction 1 as [|u bu Hu _ IH]; [done|]. cbn. by rewrite Hu, IH. Qed.
Lemma find_user_last bu u h : Forall (fun u => same_name (r_handle u) h = false) bu -> same_name (r_handle u) h = true ->
  find_user (bu ++ [u]) h = Some (length bu).
Proof. intros Hb Hu. induction Hb as [|v bu Hv _ IH]; cbn; [by rewrite Hu|]. by rewrite Hv, IH. Qed.

Lemma asked_handle h : handle_ok h -> asked h = h.
Proof.
  intros [_ Hh Hs _]. unfold asked. rewrite rmspace_word by done. destruct h as [|c t]; [done|].
  pose proof (bad_byte c Hh) as (_ & H42 & _). not_byte c.
Qed.

Lemma get_user_of_handle bu h : handle_ok h -> get_user_of bu h = find_user bu h.
Proof. intros Hh. unfold get_user_of. rewrite asked_handle by done. by destruct h; [destruct (ho_head _ Hh)|]. Qed.

(** The flags of a user that is sane. *)
Definition flags_ok (u : urec) : Prop :=
  Z.land (r_flags u) USER_VALID = r_flags u /\ sanity_check (r_flags u) = r_flags u /\ valid_udef (r_flags_udef u).

Lemma flags_i32 u : flags_ok u -> i32 (r_flags u) = r_flags u /\ i32 (r_flags_udef u) = r_flags_udef u.
Proof.
  intros (Hf & _ & Hu). split; [apply (i32_valid _ USER_VALID 26)|apply (i32_valid _ 0x3ffffff 26)]; try done; try lia; unfold USER_VALID; lia.
Qed.

Lemma user_line_text u : flags_ok u ->
  user_line u = pad 10 (r_handle u) ++ ch " " :: (bs "- " ++ pad 24 (flags_of (r_flags u) (r_flags_udef u)) ++ newline).
Proof. intros Hf. unfold user_line. destruct (flags_i32 u Hf) as [-> ->]. done. Qed.

Lemma user_line_read st u : handle_ok (r_handle u) -> flags_ok u ->
  Forall (fun v => same_name (r_handle v) (r_handle u) = false) (f_bu st) ->
  exists ds, line st (user_line u) =
    Ok {| f_r := {| r_hand := r_handle u; r_cst := None; r_store := r_store (f_r st) |}; f_u := Some (length (f_bu st));
          f_bu := f_bu st ++ [start_user (r_handle u) (r_flags u) (r_flags_udef u)]; f_dcc := ds |}.
Proof.
  intros Hh Hf Hbu. pose proof (handle_word _ Hh) as Hw. rewrite user_line_text by done.
  set (fl := flags_of (r_flags u) (r_flags_udef u)).
  assert (Hfl : printing fl) by (unfold fl; rewrite flags_of_eq; apply flag_text_printing).
  rewrite (user_line_head _ (r_handle u)); [|done|by rewrite newsplit_pad|by destruct (r_handle u); [destruct Hw|]].
  rewrite newsplit_pad by done. cbn [snd]. unfold pad. rewrite <- app_assoc.
  replace (bs "- " ++ fl ++ repeat 32 (24 - length fl) ++ newline) with ((bs "- " ++ fl) ++ repeat 32 (24 - length fl) ++ newline) by by rewrite <- app_assoc.
  rewrite trim; [|done|].
  2:{ destruct (no_space_edges fl (printing_no_space _ Hfl)) as [H1 H2]. split; [done|].
      rewrite rev_app_distr. destruct Hfl as [Hne _]. destruct (rev fl) eqn:E; [|done].
      apply (f_equal (@rev Z)) in E. rewrite rev_involutive in E. done. }
  unfold user_head. change (bs "- " ++ fl) with (bs "-" ++ ch " " :: fl).
  rewrite newsplit_word by (split; [done|cbn; intuition discriminate]). rewrite newsplit_end by by apply printing_word.
  rewrite get_user_of_handle, find_user_none by done.
  destruct fl as [|f fl'] eqn:Efl; [by destruct Hfl|]. rewrite <- Efl. cbn [bs].
  rewrite rmspace_word by apply Hh.
  assert (Ht : op_strlcpy (r_handle u) 512 = r_handle u) by (apply take_ge; destruct Hh; unfold HANDLEN in *; lia). rewrite Ht.
  rewrite (take_ge (r_handle u)) by apply Hh. cbn [length Nat.ltb Nat.leb].
  destruct Hf as (Hfv & Hfs & Hud). unfold fl in Efl. subst fl. rewrite flags_read by done. cbn [fr_global fr_udef_global]. rewrite Hfv, Hfs.
  change [45] with (bs "-").
  rewrite file_user_dash; [|apply Hh|intros E; rewrite E in Hfv; discriminate]. cbn [rbind].
  rewrite get_user_of_handle by done. rewrite find_user_last; [|done|].
  2:{ apply same_name_eq. done. }
  eexists. do 2 f_equal. rewrite alter_app_r_alt by lia. by rewrite Nat.sub_diag.
Qed.

(** *** Channel records *)

Record chanrec_ok (cr : chanuserrec) : Prop := {
  co_bytes : cstr (cr_channel cr);
  co_name : no_space (cr_channel cr) /\ cr_channel cr <> [] /\ (length (cr_channel cr) <= 200)%nat;
  co_laston : - 2 ^ 31 <= cr_laston cr < 2 ^ 31;
  co_flags : Z.land (cr_flags cr) CHAN_VALID = cr_flags cr /\ valid_udef (cr_flags_udef cr);
  co_info : match cr_info cr with None => True | Some i => i <> [] /\ edges i i /\ ~ In 10 i /\ (length i <= 160)%nat end
}.
Definition add_chanrec (cr : chanuserrec) (u : urec) : urec :=
  {| r_handle := r_handle u; r_flags := r_flags u; r_flags_udef := r_flags_udef u; r_chanrec := cr :: r_chanrec u;
     r_entries := r_entries u; r_dirty := r_dirty u |}.

Lemma chan_i32 cr : chanrec_ok cr -> i32 (cr_flags cr) = cr_flags cr /\ i32 (cr_flags_udef cr) = cr_flags_udef cr.
Proof.
  intros Hc. destruct (co_flags _ Hc) as [Hf Hu].
  split; [apply (i32_valid _ CHAN_VALID 30)|apply (i32_valid _ 0x3ffffff 26)]; try done; try lia; unfold CHAN_VALID; lia.
Qed.

(** The words of the line. *)
Definition chanrec_body (cr : chanuserrec) : list Z :=
  pad 20 (cr_channel cr) ++ ch " " :: li (cr_laston cr) ++ ch " " ::
  match cr_info cr with
  | None => chan_flags_of (cr_flags cr) (cr_flags_udef cr)
  | Some i => pad 10 (chan_flags_of (cr_flags cr) (cr_flags_udef cr)) ++ ch " " :: i
  end.

Lemma edges_app a b : a <> [] -> b <> [] -> edges a a -> edges b b -> edges (a ++ b) (a ++ b).
Proof.
  intros Ha Hb [Ha1 _] [_ Hb2]. split; [by destruct a|]. rewrite rev_app_distr.
  destruct (rev b) eqn:E; [|done]. apply (f_equal (@rev Z)) in E. rewrite rev_involutive in E. done.
Qed.
Lemma edges_around a m b : a <> [] -> b <> [] -> edges a a -> edges b b -> edges (a ++ m ++ b) (a ++ m ++ b).
Proof.
  intros Ha Hb [Ha1 _] [_ Hb2]. split; [by destruct a|]. rewrite !rev_app_distr.
  destruct (rev b) eqn:E; [|done]. apply (f_equal (@rev Z)) in E. rewrite rev_involutive in E. done.
Qed.

Lemma chanrec_trim cr : chanrec_ok cr ->
  rmspace (snd (newsplit (chanrec_line cr (default [] (cr_info cr))))) = chanrec_body cr.
Proof.
  intros Hc. destruct (co_name _ Hc) as (Hn & Hne & _). unfold chanrec_line. destruct (chan_i32 cr Hc) as [-> ->].
  change (fst (build_flags (mk_fr FR_CHAN 0 0 0 (cr_flags cr) (cr_flags_udef cr)) None)) with (chan_flags_of (cr_flags cr) (cr_flags_udef cr)).
  set (fl := chan_flags_of _ _). assert (Hfl : printing fl) by (unfold fl; rewrite chan_flags_of_eq; apply flag_text_printing).
  change (bs "! ") with (bs "!" ++ [ch " "]). rewrite <- app_assoc. cbn [app].
  rewrite (newsplit_word (bs "!")) by (split; [done|cbn; intuition discriminate]). cbn [snd]. unfold chanrec_body. fold fl.
  pose proof (no_space_edges _ (printing_no_space _ Hfl)) as Hfe. pose proof (no_space_edges _ Hn) as Hce. destruct Hfl as [Hfne _].
  destruct (cr_info cr) as [i|] eqn:Ei; cbn [default from_option id].
  - pose proof (co_info _ Hc) as Hi. rewrite Ei in Hi. destruct Hi as (Hi & He & _).
    set (t := pad 20 (cr_channel cr) ++ _). 
    transitivity (rmspace (repeat 32 0 ++ (pad 20 (cr_channel cr) ++ ch " " :: li (cr_laston cr) ++ ch " " :: pad 10 fl ++ ch " " :: i) ++ repeat 32 0 ++ newline)).
    + unfold t. cbn [repeat app]. f_equal. rewrite <- !app_assoc. f_equal. cbn [app]. f_equal. rewrite <- !app_assoc. f_equal. cbn [app]. f_equal. rewrite <- !app_assoc. by f_equal.
    + apply trim; [unfold pad; by destruct (cr_channel cr)|]. unfold pad. rewrite <- app_assoc.
      assert (E : forall x y z (w : list Z), x ++ ch " " :: y ++ ch " " :: z ++ ch " " :: w = (x ++ ch " " :: y ++ ch " " :: z ++ [ch " "]) ++ w)
        by (intros; rewrite <- !app_assoc; cbn [app]; rewrite <- !app_assoc; cbn [app]; by rewrite <- !app_assoc).
      rewrite E. by apply edges_around.
  - set (t := pad 20 (cr_channel cr) ++ _).
    transitivity (rmspace (repeat 32 0 ++ (pad 20 (cr_channel cr) ++ ch " " :: li (cr_laston cr) ++ ch " " :: fl) ++ repeat 32 (S (10 - length fl)) ++ newline)).
    + unfold t. cbn [repeat app]. f_equal. rewrite <- !app_assoc. f_equal. cbn [app]. f_equal. rewrite <- !app_assoc. f_equal. cbn [app]. f_equal.
      unfold pad. rewrite <- app_assoc. f_equal. change (ch " ") with 32. apply repeat_snoc.
    + apply trim; [unfold pad; by destruct (cr_channel cr)|]. unfold pad. rewrite <- app_assoc.
      assert (E : forall x y (z : list Z), x ++ ch " " :: y ++ ch " " :: z = (x ++ ch " " :: y ++ [ch " "]) ++ z)
        by (intros; rewrite <- !app_assoc; cbn [app]; by rewrite <- !app_assoc).
      rewrite E. by apply edges_around.
Qed.

Lemma bang_read cs cr u i : chanrec_ok cr -> find_chan cs (cr_channel cr) = Some i ->
  Forall (fun c => _rfc_casecmp (cr_channel c) (cr_channel cr) <> 0) (r_chanrec u) ->
  bang_line cs (chanrec_body cr) u = add_chanrec cr u.
Proof.
  intros Hc Hfind Hn. destruct (co_name _ Hc) as (Hns & Hne & Hlen). pose proof (no_space_word _ Hns Hne) as Hw.
  unfold bang_line, chanrec_body. set (fl := chan_flags_of _ _).
  assert (Hfl : printing fl) by (unfold fl; rewrite chan_flags_of_eq; apply flag_text_printing).
  rewrite newsplit_pad by done. rewrite newsplit_spaces.
  assert (Hli : word (li (cr_laston cr))) by (apply base10_word; pose proof (co_laston _ Hc); lia).
  rewrite newsplit_word by done.
  assert (Hex : existsb (fun c => _rfc_casecmp (cr_channel c) (cr_channel cr) =? 0) (r_chanrec u) = false).
  { apply not_true_iff_false. rewrite existsb_exists. intros (c & Hin & E). apply Z.eqb_eq in E.
    rewrite List.Forall_forall in Hn. by apply (Hn c). }
  assert (Hname : op_strlcpy (cr_channel cr) (CHANNELLEN + 1) = cr_channel cr) by (apply take_ge; exact Hlen).
  destruct (co_flags _ Hc) as [Hf Hu]. destruct (cr_info cr) as [info|] eqn:Ei.
  - pose proof (co_info _ Hc) as Hi. rewrite Ei in Hi. destruct Hi as (Hi & He & _).
    rewrite newsplit_pad by by apply printing_word.
    assert (Hrm : rmspace (repeat 32 (10 - length fl) ++ info) = info).
    { unfold rmspace. rewrite rev_app_distr. destruct He as [He1 He2].
      rewrite (skip_space_head (rev info ++ _)).
      - rewrite rev_app_distr, !rev_involutive, skip_spaces. by apply skip_space_head.
      - destruct (rev info) eqn:E; [|done]. apply (f_equal (@rev Z)) in E. rewrite rev_involutive in E. done. }
    rewrite Hrm, Hfind, Hex, Hname. unfold fl. rewrite chan_flags_read by done.
    cbn [fr_chan fr_udef_chan]. unfold li. rewrite egg_atoi_base10 by apply Hc. unfold add_chanrec.
    destruct cr as [n l f uf inf]. cbn [cr_channel cr_laston cr_flags cr_flags_udef cr_info] in *. subst inf. by destruct info.
  - rewrite newsplit_end by by apply printing_word. change (rmspace []) with (@nil Z). rewrite Hfind, Hex, Hname.
    unfold fl. rewrite chan_flags_read by done. cbn [fr_chan fr_udef_chan]. unfold li. rewrite egg_atoi_base10 by apply Hc.
    unfold add_chanrec. destruct cr as [n l f uf inf]. cbn [cr_channel cr_laston cr_flags cr_flags_udef cr_info] in *. by subst inf.
Qed.

Lemma chanrec_read st bu u cr i : chanrec_ok cr -> find_chan (ms_chans (r_store (f_r st))) (cr_channel cr) = Some i ->
  Forall (fun c => _rfc_casecmp (cr_channel c) (cr_channel cr) <> 0) (r_chanrec u) -> reading st bu u ->
  line st (chanrec_line cr (default [] (cr_info cr))) = Ok (with_user st bu (add_chanrec cr u)).
Proof.
  intros Hc Hfind Hn Hr. unfold full_line.
  pose proof (chanrec_trim cr Hc) as Ht.
  assert (Hcode : fst (newsplit (chanrec_line cr (default [] (cr_info cr)))) = bs "!").
  { unfold chanrec_line. change (bs "! ") with (bs "!" ++ [ch " "]). rewrite <- app_assoc. cbn [app].
    by rewrite (newsplit_word (bs "!")) by (split; [done|cbn; intuition discriminate]). }
  destruct (newsplit _) as [code s] eqn:E. cbn [fst snd] in *. subst code.
  unfold chanrec_line at 1. cbn [bs app]. rewrite Ht.
  apply at_user_reading with (u := u); [done|]. f_equal. by eapply bang_read.
Qed.

(** The lines, one after the other. *)
Fixpoint full_all (st : fstate) (lines : list (list Z)) : result ffault fstate :=
  match lines with [] => Ok st | x :: lines => let! st := line st x in full_all st lines end.

Lemma full_all_app a b st : full_all st (a ++ b) = let! st := full_all st a in full_all st b.
Proof. revert st. induction a as [|x a IH]; intros st; [done|]. cbn [app full_all]. destruct (line st x); [apply IH|done]. Qed.

(** The records of channels that the bot knows. *)
Definition known (cs : list chan_masks) (cr : chanuserrec) : bool := match find_chan cs (cr_channel cr) with Some _ => true | None => false end.
Definition chan_key (cr : chanuserrec) : list Z := map istr_fold (cr_channel cr).
Definition with_chanrecs (crs : list chanuserrec) (u : urec) : urec :=
  {| r_handle := r_handle u; r_flags := r_flags u; r_flags_udef := r_flags_udef u; r_chanrec := crs;
     r_entries := r_entries u; r_dirty := r_dirty u |}.

Lemma find_chan_lookup cs n : forall i, find_chan cs n = Some i -> exists c, cs !! i = Some c.
Proof.
  induction cs as [|c cs IH]; intros i H; [done|]. cbn [find_chan] in H. destruct (_ =? 0); [injection H as <-; by exists c|].
  destruct (find_chan cs n) as [j|]; [|done]. injection H as <-. by apply IH.
Qed.

Lemma find_chan_names cs cs' n : map cm_dname cs = map cm_dname cs' -> find_chan cs n = find_chan cs' n.
Proof.
  revert cs'. induction cs as [|c cs IH]; intros [|c' cs'] E; [done..|]. cbn [map] in E. injection E as E1 E. cbn [find_chan].
  by rewrite E1, (IH cs').
Qed.

Lemma chanrec_lines_known cs cr : chanrec_lines None true cs cr = if known cs cr then [chanrec_line cr (default [] (cr_info cr))] else [].
Proof.
  unfold chanrec_lines, known. destruct (find_chan cs (cr_channel cr)) as [i|] eqn:E; [|done].
  destruct (find_chan_lookup cs _ i E) as [c Hc]. cbn [mbind option_bind]. by rewrite Hc.
Qed.

Lemma chanrecs_read cs crs : Forall chanrec_ok (List.filter (known cs) crs) ->
  forall st bu u, map cm_dname (ms_chans (r_store (f_r st))) = map cm_dname cs -> reading st bu u ->
  Forall (fun c => cstr (cr_channel c)) (r_chanrec u) ->
  NoDup (map chan_key (List.filter (known cs) crs ++ r_chanrec u)) ->
  full_all st (flat_map (chanrec_lines None true cs) crs) = Ok (with_user st bu (with_chanrecs (rev (List.filter (known cs) crs) ++ r_chanrec u) u)).
Proof.
  induction crs as [|cr crs IH]; intros Hok st bu u Hcs Hr Hb Hn; cbn [flat_map List.filter rev] in *.
  - cbn. f_equal. destruct Hr as [H1 H2]. destruct st as [r f b d]. cbn in *. subst. by destruct u.
  - rewrite chanrec_lines_known. destruct (known cs cr) eqn:Ek; [|by apply IH].
    apply Forall_cons in Hok as [Hcr Hok]. cbn [app full_all map] in *. apply NoDup_cons in Hn as [Hni Hn].
    unfold known in Ek. destruct (find_chan cs (cr_channel cr)) as [i|] eqn:Ei; [|done].
    rewrite (chanrec_read st bu u cr i Hcr); [|by rewrite (find_chan_names _ cs)| |done].
    2:{ rewrite List.Forall_forall in *. intros c Hin E. apply casecmp_istr in E; [|by apply Hb|apply Hcr].
        apply Hni. rewrite list_elem_of_In. apply in_map_iff. exists c. split; [done|]. apply in_app_iff. by right. }
    cbn [rbind]. rewrite (IH Hok _ bu (add_chanrec cr u)); [|done|done| |].
    + rewrite with_with. do 2 f_equal. unfold with_chanrecs. cbn. by rewrite <- app_assoc.
    + constructor; [apply Hcr|done].
    + cbn [r_chanrec add_chanrec]. rewrite map_app in *. cbn [map].
      rewrite <- Permutation_middle. by apply NoDup_cons.
Qed.

(** *** Entries *)

Definition raw (name : list Z) (ls : list (list Z)) : uentry := {| e_type := None; e_name := Some name; e_val := Some (UList ls) |}.
Record line_good (name s : list Z) : Prop := {
  lg_newline : ~ In 10 s;
  lg_edges : edges s s;
  lg_length : (length name + length s <= 507)%nat
}.
Definition name_good (name : list Z) : Prop := ~ In (ch " ") name /\ ~ In 10 name.

Lemma rmspace_line s : edges s s -> rmspace (s ++ newline) = s.
Proof. intros [H1 H2]. by apply rmspace_text. Qed.

Lemma dash_dash_read st bu u name s : name_good name -> line_good name s -> reading st bu u ->
  line st (dash_dash name s) = Ok (with_user st bu (add_line name s u)).
Proof.
  intros [Hn _] Hs Hr. unfold full_line, dash_dash.
  change (bs "--" ++ name ++ ch " " :: s ++ newline) with ((bs "--" ++ name) ++ ch " " :: s ++ newline) || rewrite app_assoc.
  rewrite newsplit_word by (split; [done|]; cbn; intros [Hi|[Hi|Hi]]; [discriminate|discriminate|done]).
  rewrite rmspace_line by apply Hs. cbn [bs app]. 
  by apply at_user_reading with (u := u).
Qed.

Lemma raw_lines_read name s ls es : name_good name -> line_good name s -> Forall (line_good name) ls ->
  Forall (fun e => has_name name e = false) es -> forall st bu u, reading st bu u -> r_entries u = es ->
  full_all st (map (dash_dash name) (s :: ls)) = Ok (with_user st bu (set_entries (raw name (s :: ls) :: es) u)).
Proof.
  intros Hn Hs Hls Hes st bu u Hr He. cbn [map full_all]. rewrite (dash_dash_read st bu u) by done. cbn [rbind].
  assert (Hadd : forall es, Forall (fun e => has_name name e = false) es -> add_to_entry name s es = None).
  { induction 1 as [|e es' H _ IH]; [done|]. cbn. by rewrite H, IH. }
  unfold add_line at 1. rewrite He, Hadd by done. cbn [default from_option id].
  assert (H : forall pre post st u, Forall (line_good name) post -> reading st bu u -> r_entries u = raw name pre :: es ->
    full_all st (map (dash_dash name) post) = Ok (with_user st bu (set_entries (raw name (pre ++ post) :: es) u))).
  { clear - Hn. intros pre post. revert pre. induction post as [|x post IH]; intros pre st u Hp Hr He; cbn [map full_all].
    - rewrite app_nil_r, <- He. destruct Hr as [H1 H2]. destruct st as [r f b d]. cbn in *. subst. by destruct u.
    - apply Forall_cons in Hp as [Hx Hp]. rewrite (dash_dash_read st bu u) by done. cbn [rbind].
      assert (Eadd : add_line name x u = set_entries (raw name (pre ++ [x]) :: es) u).
      { unfold add_line. rewrite He. cbn [add_to_entry raw has_name e_name]. rewrite (proj2 (same_name_eq name name) eq_refl). done. }
      rewrite Eadd, (IH (pre ++ [x]) _ (set_entries (raw name (pre ++ [x]) :: es) u)) by done. rewrite with_with. by rewrite <- app_assoc. }
  rewrite (H [s] ls _ (set_entries (raw name [s] :: es) u)) by done. by rewrite with_with.
Qed.

(** An entry that its lines give back. *)
Definition entry_name (e : uentry) : list Z := match e_type e with Some t => type_name t | None => default [] (e_name e) end.
Definition text_of (e : uentry) : list (list Z) :=
  match e_type e, e_val e with
  | Some t, v => match entry_lines t v with Ok ls => ls | Err _ => [] end
  | None, Some (UList l) => l
  | None, _ => []
  end.
Definition has_text (e : uentry) : bool := negb (bool_decide (text_of e = [])).
Definition entry_ok (types : list etype) (e : uentry) : Prop :=
  match e_type e, e_name e, e_val e with
  | Some t, None, Some v => In t types /\ val_ok t v /\ Forall (line_good (type_name t)) (text_of e)
  | None, Some name, Some (UList l) => name_good name /\ find_entry_type types name = None /\ Forall (line_good name) l
  | _, _, _ => False
  end.
(** As it comes back. *)
Definition reread_entry (e : uentry) : uentry := match e_type e with Some _ => set_val (reread_val <$> e_val e) e | None => e end.
Definition raw_of (e : uentry) : uentry := raw (entry_name e) (text_of e).
Definition entry_key (e : uentry) : list Z := map tolower (entry_name e).

Lemma type_name_good t : name_good (type_name t).
Proof using. clear. destruct t; (split; cbn; intuition discriminate). Qed.

Lemma entry_good types e : entry_ok types e -> name_good (entry_name e) /\ Forall (line_good (entry_name e)) (text_of e).
Proof using.
  unfold entry_ok, entry_name, text_of. destruct e as [[t|] [n|] [v|]]; cbn; try done.
  - intros (_ & _ & H). by split; [apply type_name_good|].
  - destruct v; try done. by intros (H1 & _ & H2).
Qed.

Lemma entry_written types e : entry_ok types e -> write_entry e = Ok (map (dash_dash (entry_name e)) (text_of e)).
Proof.
  unfold entry_ok, entry_name, text_of, write_entry. destruct e as [[t|] [n|] [v|]]; cbn; try done.
  - intros (_ & Hv & _). by destruct (unpack_lines t v Hv) as (ls & -> & _).
  - by destruct v.
Qed.

Lemma find_type types t : In t types -> find_entry_type types (type_name t) = Some t.
Proof.
  unfold find_entry_type. induction types as [|t' types IH]; intros H; [done|]. cbn [find]. rewrite same_type.
  destruct (bool_decide_reflect (t = t')) as [-> |]; [done|]. apply IH. by destruct H.
Qed.

Lemma entries_unpacked types es : Forall (fun e => entry_ok types e /\ has_text e = true) es -> unpack_entries types (map raw_of es) = Ok (map reread_entry es).
Proof.
  induction 1 as [|e es [He Ht] _ IH]; [done|]. cbn [map unpack_entries raw_of raw e_name e_val].
  unfold has_text in Ht. apply negb_true_iff, bool_decide_eq_false_1 in Ht.
  unfold entry_ok in He. destruct e as [[t|] [n|] [v|]]; cbn in He; try done.
  - destruct He as (Hin & Hv & _). change (entry_name _) with (type_name t). rewrite find_type by done.
    destruct (unpack_lines t v Hv) as (ls & E & Hu). unfold text_of in *. cbn [e_type e_val] in *. rewrite E in *. cbv beta iota in *. rewrite Hu by done.
    cbn [rbind]. by rewrite IH.
  - destruct v; try done. destruct He as (_ & Hf & _). change (entry_name _) with n. rewrite Hf. cbn [rbind]. by rewrite IH.
Qed.

Definition entry_text (e : uentry) : list (list Z) := map (dash_dash (entry_name e)) (text_of e).

Lemma entries_read types es : Forall (entry_ok types) es -> forall st bu u, reading st bu u ->
  NoDup (map entry_key es ++ map (fun e => map tolower (default [] (e_name e))) (r_entries u)) ->
  Forall (fun e => e_name e <> None) (r_entries u) ->
  full_all st (flat_map entry_text es) = Ok (with_user st bu (set_entries (rev (map raw_of (List.filter has_text es)) ++ r_entries u) u)).
Proof.
  induction 1 as [|e es He _ IH]; intros st bu u Hr Hn Hnames; cbn [flat_map map List.filter] in *.
  - cbn. f_equal. destruct Hr as [H1 H2]. destruct st as [r f b d]. cbn in *. subst. by destruct u.
  - apply NoDup_cons in Hn as [Hni Hn]. destruct (entry_good types e He) as [Hgood Hls]. unfold entry_text at 1, has_text at 1.
    rewrite full_all_app. destruct (text_of e) as [|s ls] eqn:Et.
    + cbn [map full_all rbind]. rewrite bool_decide_true by done. cbn [negb]. by apply IH.
    + rewrite bool_decide_false by done. cbn [negb map rev]. apply Forall_cons in Hls as [Hs Hls].
      rewrite (raw_lines_read (entry_name e) s ls (r_entries u)) with (bu := bu) (u := u); try done.
      2:{ rewrite List.Forall_forall in *. intros e' Hin. unfold has_name. specialize (Hnames e' Hin).
          destruct (e_name e') as [n|] eqn:En; [|done]. apply not_true_iff_false. intros Hs'%same_name_eq.
          apply Hni. rewrite list_elem_of_In, in_app_iff. right. apply in_map_iff. exists e'. split; [|done]. by rewrite En. }
      cbn [rbind]. rewrite <- Et. fold (raw_of e). rewrite (IH _ bu (set_entries (raw_of e :: r_entries u) u)).
      * rewrite with_with. do 2 f_equal. cbn. by rewrite <- app_assoc.
      * done.
      * cbn [r_entries set_entries map]. rewrite <- Permutation_middle. by apply NoDup_cons.
      * by constructor.
Qed.

(** *** All users *)

Record user_ok (types : list etype) (cs : list chan_masks) (u : urec) : Prop := {
  uo_handle : handle_ok (r_handle u);
  uo_flags : flags_ok u;
  uo_chans : Forall chanrec_ok (List.filter (known cs) (r_chanrec u));
  uo_chan_names : NoDup (map chan_key (List.filter (known cs) (r_chanrec u)));
  uo_entries : Forall (entry_ok types) (r_entries u);
  uo_entry_names : NoDup (map entry_key (r_entries u))
}.
Definition saved (us : list urec) : list urec := List.filter (fun u => negb (same_name (r_handle u) EGG_BG_HANDLE)) us.
Definition user_key (u : urec) : list Z := map tolower (r_handle u).
Definition user_lines (cs : list chan_masks) (u : urec) : list (list Z) :=
  user_line u :: flat_map (chanrec_lines None true cs) (r_chanrec u) ++ flat_map entry_text (r_entries u).

(** A user as the file has it, and as it is after the loop. *)
Definition user_back (cs : list chan_masks) (u : urec) : urec :=
  {| r_handle := r_handle u; r_flags := r_flags u; r_flags_udef := r_flags_udef u; r_chanrec := rev (List.filter (known cs) (r_chanrec u));
     r_entries := rev (map reread_entry (List.filter has_text (r_entries u))); r_dirty := true |}.
Definition raw_user (cs : list chan_masks) (u : urec) : urec := set_entries (map raw_of (rev (List.filter has_text (r_entries u)))) (user_back cs u).

Lemma users_written types cs us : Forall (user_ok types cs) (saved us) -> write_users cs us = Ok (flat_map (user_lines cs) (saved us)).
Proof.
  induction us as [|u us IH]; intros H; [done|]. cbn [write_users saved List.filter] in *. destruct (same_name _ _); cbn [negb] in *; [by apply IH|].
  apply Forall_cons in H as [Hu H]. unfold write_user.
  assert (Hes : write_entries (r_entries u) = Ok (flat_map entry_text (r_entries u))).
  { pose proof (uo_entries _ _ _ Hu) as He. induction He as [|e es He _ IHe]; [done|]. cbn. by rewrite (entry_written types), IHe. }
  rewrite Hes. cbn [rbind]. rewrite IH by done. done.
Qed.

Lemma user_read types cs st u : user_ok types cs u -> map cm_dname (ms_chans (r_store (f_r st))) = map cm_dname cs ->
  Forall (fun v => same_name (r_handle v) (r_handle u) = false) (f_bu st) ->
  exists ds, full_all st (user_lines cs u) =
    Ok {| f_r := {| r_hand := r_handle u; r_cst := None; r_store := r_store (f_r st) |}; f_u := Some (length (f_bu st));
          f_bu := f_bu st ++ [raw_user cs u]; f_dcc := ds |}.
Proof.
  intros [Hh Hf Hc Hcn He Hen] Hcs Hbu. destruct (user_line_read st u Hh Hf Hbu) as (ds & E). exists ds.
  unfold user_lines. cbn [full_all]. rewrite E. cbn [rbind]. set (st1 := {| f_r := _ |}).
  set (u1 := start_user (r_handle u) (r_flags u) (r_flags_udef u)) in *.
  rewrite full_all_app. rewrite (chanrecs_read cs (r_chanrec u) Hc st1 (f_bu st) u1); [|done|done|constructor|].
  2:{ cbn [u1 start_user r_chanrec]. by rewrite app_nil_r. }
  cbn [rbind]. rewrite (entries_read types (r_entries u) He _ (f_bu st) (with_chanrecs (rev (List.filter (known cs) (r_chanrec u)) ++ r_chanrec u1) u1));
    [|done| |constructor].
  2:{ cbn [with_chanrecs u1 start_user r_entries map]. by rewrite app_nil_r. }
  unfold with_user, st1, raw_user, user_back. cbn. by rewrite !app_nil_r, map_rev.
Qed.

Lemma users_read types cs us : Forall (user_ok types cs) us -> forall st,
  map cm_dname (ms_chans (r_store (f_r st))) = map cm_dname cs -> NoDup (map user_key (f_bu st ++ us)) ->
  exists st', full_all st (flat_map (user_lines cs) us) = Ok st' /\ r_store (f_r st') = r_store (f_r st) /\
    f_bu st' = f_bu st ++ map (raw_user cs) us /\ (f_u st = None -> us = [] -> f_u st' = None).
Proof.
  induction 1 as [|u us Hu _ IH]; intros st Hcs Hn; cbn [flat_map map]; [exists st; by rewrite app_nil_r|].
  assert (Hnew : Forall (fun v => same_name (r_handle v) (r_handle u) = false) (f_bu st)).
  { rewrite List.Forall_forall. intros v Hv. apply not_true_iff_false. intros Hs%same_name_eq.
    rewrite map_app in Hn. cbn [map] in Hn. apply NoDup_app in Hn as (_ & Hn & _). apply (Hn (user_key v)).
    - rewrite list_elem_of_In. by apply in_map.
    - rewrite list_elem_of_In. left. symmetry. exact Hs. }
  destruct (user_read types cs st u Hu Hcs Hnew) as (ds & E). rewrite full_all_app, E. cbn [rbind].
  edestruct IH as (st' & E' & Hst & Hbu & _); [| |rewrite E'; exists st'; split; [done|]].
  - exact Hcs.
  - cbn [f_bu]. rewrite <- app_assoc. rewrite !map_app in *. exact Hn.
  - cbn [f_r f_bu r_store] in *. split; [done|]. split; [by rewrite Hbu, <- app_assoc|done].
Qed.

Lemma users_unpacked types cs us : Forall (user_ok types cs) us -> unpack_users types (map (raw_user cs) us) = Ok (map (user_back cs) us).
Proof.
  induction 1 as [|u us Hu _ IH]; [done|]. cbn [map unpack_users]. unfold raw_user at 1. cbn [r_entries set_entries].
  rewrite entries_unpacked.
  - cbn [rbind]. rewrite IH. cbn [rbind]. by rewrite map_rev.
  - cbn [user_back r_entries]. apply Forall_rev. rewrite List.Forall_forall. intros e [Hin Ht]%filter_In. split; [|done].
    pose proof (uo_entries _ _ _ Hu) as He. rewrite List.Forall_forall in He. by apply He.
Qed.

(** *** Masks and ignores *)

Definition no_user (r : rstate) (st : fstate) : fstate := {| f_r := r; f_u := None; f_bu := f_bu st; f_dcc := f_dcc st |}.

Definition comment (x : list Z) : bool := match x with [] | 35 :: _ | 59 :: _ => true | _ => false end.
Lemma comment_match {A} (a b : A) x : match x with [] | 35 :: _ | 59 :: _ => a | _ => b end = if comment x then a else b.
Proof. destruct x as [|c x]; [done|]. destruct c as [|c|c]; try done. do 6 (destruct c as [c|c|]; try done). Qed.

Lemma dash_sim st s r : f_u st = None -> dash_line now (f_r st) s = Ok r -> dash now rt cidr st s = Ok (no_user r st).
Proof.
  intros Hu H. unfold dash. rewrite Hu. unfold dash_line in H. destruct (r_hand (f_r st)) as [|h hand] eqn:Eh.
  - injection H as <-. cbn. by destruct st; cbn in *; subst.
  - cbn [rbind]. destruct s as [|c s]; [injection H as <-; by destruct st; cbn in *; subst|].
    destruct (mem h CHANMETA) eqn:Em; cbn [orb].
    + unfold at_masks, dash_line. by rewrite Eh, Em, H, Hu.
    + destruct (h =? ch "*") eqn:Es; [|done]. unfold at_masks, dash_line. by rewrite Eh, Em, Es, H, Hu.
Qed.

(** A line of the masks' part does the same here when no user is being read. *)
Lemma mask_line_sim st x r : f_u st = None -> read_line own now (f_r st) x = Ok r -> line st x = Ok (no_user r st).
Proof.
  intros Hu H. assert (Hst : forall r', f_r st = r' -> st = no_user r' st) by (intros r' <-; destruct st; cbn in *; by subst).
  unfold full_line, read_line in *. rewrite !comment_match in *. destruct (comment x); [injection H as H; f_equal; by apply Hst|].
  destruct (newsplit x) as [code s]. set (s' := rmspace s) in *.
  destruct (streq code (bs "-")); [by apply dash_sim|].
  destruct (streq code (bs "%")); [unfold at_masks; by rewrite H, Hu|].
  destruct (streq code (bs "@")); [unfold at_masks; by rewrite H, Hu|].
  destruct (streq code (bs "!")); [unfold at_user; rewrite Hu; cbn; f_equal; injection H as H; by apply Hst|].
  destruct (prefix_of (bs "::") code); [cbn [orb]; injection H as <-; done|].
  destruct (prefix_of (bs "&&") code); [cbn [orb]; injection H as <-; done|].
  destruct (prefix_of (bs "$$") code); [cbn [orb]; injection H as <-; done|]. cbn [orb].
  destruct (prefix_of (bs "--") code); [unfold at_user; rewrite Hu; cbn; f_equal; injection H as H; by apply Hst|].
  destruct (existsb _ _); [injection H as <-; done|].
  destruct code as [|c code]; [done|]. not_byte c. by injection H as <-.
Qed.

Lemma masks_sim lines : forall st r, f_u st = None -> read_all own now (f_r st) lines = Ok r -> full_all st lines = Ok (no_user r st).
Proof.
  induction lines as [|x lines IH]; intros st r Hu H; cbn [read_all full_all] in *.
  - injection H as <-. destruct st. cbn in *. by subst.
  - destruct (read_line own now (f_r st) x) as [r'|] eqn:E; [|done]. cbn [rbind] in H.
    rewrite (mask_line_sim st x r') by done. cbn [rbind]. by apply (IH (no_user r' st)).
Qed.

(** The first line of the masks' part ends the last user. *)
Definition header (x : list Z) : Prop := exists code s, newsplit x = (code, s) /\ comment x = false /\
  streq code (bs "-") = false /\ streq code (bs "%") = false /\ streq code (bs "@") = false /\ streq code (bs "!") = false /\
  (prefix_of (bs "::") code || prefix_of (bs "&&") code || prefix_of (bs "$$") code = true \/
   prefix_of (bs "--") code = false /\ existsb (fun name => _rfc_casecmp code name =? 0) [BAN_NAME; IGNORE_NAME; EXEMPT_NAME; INVITE_NAME] = true).
Definition headed (ls : list (list Z)) : Prop := match ls with [] => True | x :: _ => header x end.

Lemma header_sim st x : header x -> line st x = line (no_user (f_r st) st) x.
Proof.
  intros (code & s & E & Hc & H1 & H2 & H3 & H4 & H). unfold full_line. rewrite !comment_match, Hc, E, H1, H2, H3, H4.
  destruct H as [-> | [H5 H6]]; [done|]. destruct (_ || _); [done|]. by rewrite H5, H6.
Qed.

Lemma headed_app a b : headed a -> headed b -> headed (a ++ b).
Proof. by destruct a. Qed.
Lemma headed_sim st ls : headed ls -> ls <> [] -> full_all st ls = full_all (no_user (f_r st) st) ls.
Proof. destruct ls as [|x ls]; [done|]. intros H _. cbn [full_all]. by rewrite header_sim. Qed.

#[local] Ltac section_header :=
  eexists _, _; (split; [vm_compute; reflexivity|]); repeat (split; [vm_compute; reflexivity|]); right; split; vm_compute; reflexivity.
Lemma mask_lines_headed nick s : store_ok nick s -> headed (mask_lines nick s).
Proof using.
  intros [_ _ _ _ Hn]. unfold mask_lines, channels_writeuserfile, write_bans, write_exempts, write_invites.
  assert (Hsec : forall k us, headed (write_masks None k us (ms_chans s))).
  { intros k us. unfold write_masks. apply headed_app.
    - destruct us as [|b us]; [done|]. unfold headed, header, global_section. destruct k; section_header.
    - destruct (ms_chans s) as [|c cs]; [done|]. cbn [map] in Hn. apply Forall_cons in Hn as [Hc _]. cbn [flat_map]. change (may_have None c) with true.
      destruct Hc as (_ & _ & _ & Hsp & _). exists (chan_sigil k ++ cm_dname c), (plural_of k ++ newline).
      split; [rewrite app_assoc; apply newsplit_word; split; [by destruct k|]; apply not_in_app; [destruct k; cbn; clear; intuition discriminate|done]|].
      destruct k; split_and!; try done; by left. }
  apply headed_app; [|apply headed_app; [apply Hsec|apply headed_app; apply Hsec]].
  unfold write_ignores. destruct (ms_ign s); [done|]. unfold headed, header. section_header.
Qed.

Lemma full_lines_all lines : Forall line_ok lines -> forall fuel st, (length (concat lines) <= fuel)%nat ->
  full_lines own now rt cidr dflt dfltu ep ep2 rp fuel (concat lines) st = full_all st lines.
Proof.
  induction 1 as [|x lines Hx _ IH]; intros fuel st Hf; [by destruct fuel|]. cbn [concat] in *.
  assert (Hlen : (0 < length x)%nat) by (destruct Hx as (t & -> & _); rewrite length_app; cbn; lia).
  rewrite length_app in Hf. destruct fuel as [|fuel]; [lia|]. cbn [full_lines full_all].
  rewrite fgets_line by (done || (destruct Hx as (_ & _ & _ & ?); lia)). cbn iota.
  destruct (line st x) as [st'|e]; [|done]. cbn [rbind]. apply IH. lia.
Qed.

(** The users, and then the masks. *)
Lemma all_read types cs us ls (P : mask_store -> Prop) st :
  Forall (user_ok types cs) us -> NoDup (map user_key us) -> map cm_dname (ms_chans (r_store (f_r st))) = map cm_dname cs -> f_bu st = [] ->
  headed ls -> (forall r, r_store r = r_store (f_r st) -> exists r', read_all own now r ls = Ok r' /\ P (r_store r')) ->
  exists st', full_all st (flat_map (user_lines cs) us ++ ls) = Ok st' /\ f_bu st' = map (raw_user cs) us /\ P (r_store (f_r st')).
Proof.
  intros Hus Hn Hcs Hbu Hh Hls. destruct (users_read types cs us Hus st Hcs) as (st1 & E1 & Hs1 & Hb1 & _); [by rewrite Hbu|].
  rewrite full_all_app, E1. cbn [rbind]. rewrite Hbu in Hb1. cbn [app] in Hb1. destruct (Hls (f_r st1) Hs1) as (r' & Er & HP).
  destruct ls as [|x ls]; [injection Er as <-; by exists st1|]. exists (no_user r' st1). split; [|by split].
  rewrite headed_sim by done. by rewrite (masks_sim (x :: ls) (no_user (f_r st1) st1) r').
Qed.
End Lines.

#[local] Ltac flat_app := repeat (progress (rewrite <- ?app_assoc; cbn [app])).
(** No line is too long, and none has a newline inside. *)
Lemma space_no_newline n : ~ In 10 (repeat 32 n).
Proof. intros H. apply repeat_spec in H. discriminate. Qed.

Lemma user_line_ok u : handle_ok (r_handle u) -> flags_ok u -> line_ok (user_line u).
Proof.
  intros Hh Hf. rewrite user_line_text by done. set (fl := flags_of _ _).
  assert (Hfl : printing fl) by (unfold fl; rewrite flags_of_eq; apply flag_text_printing).
  assert (Hlen : (length fl <= 50)%nat).
  { destruct Hf as (Hg & _ & Hu). pose proof (build_flags_length (mk_fr FR_GLOBAL (r_flags u) (r_flags_udef u) 0 0 0)) as Hb.
    change (fr_match (mk_fr FR_GLOBAL (r_flags u) (r_flags_udef u) 0 0 0) &? FR_CHAN) with false in Hb. apply Hb.
    unfold valid_flags, keep_valid. cbn [fr_match fr_global fr_udef_global fr_bot fr_chan fr_udef_chan]. by rewrite !Z.land_0_l, Hg, Hu. }
  exists (pad 10 (r_handle u) ++ ch " " :: bs "- " ++ pad 24 fl). split_and!.
  - by flat_app.
  - unfold pad. repeat (apply not_in_app || (apply not_in_cons; [discriminate|])); try apply space_no_newline.
    + by apply no_space_in; [apply Hh|].
    + cbn. intuition discriminate.
    + by apply no_space_in; [apply printing_no_space|].
  - unfold pad. rewrite !length_app. cbn [length]. rewrite !length_app, !repeat_length. destruct Hh as [_ _ _ Hl]. unfold HANDLEN in Hl. cbn in *. lia.
Qed.

Lemma base10_short v : - 2 ^ 31 <= v < 2 ^ 31 -> (length (int_to_base10 v) <= 21)%nat.
Proof.
  intros Hv. unfold int_to_base10. assert (H : forall n w out, (length (dec_loop n w out) <= n + length out)%nat).
  { induction n as [|n IH]; intros w out; cbn [dec_loop]; [done|]. cbv zeta. case_if; [cbn; lia|]. etransitivity; [apply IH|]. cbn. lia. }
  case_if; [cbn [length]; specialize (H 20%nat (- v) []); cbn in *; lia|specialize (H 20%nat v []); cbn in *; lia].
Qed.

Lemma chanrec_line_ok cr : chanrec_ok cr -> line_ok (chanrec_line cr (default [] (cr_info cr))).
Proof.
  intros Hc. unfold chanrec_line. destruct (chan_i32 cr Hc) as [-> ->].
  change (fst (build_flags (mk_fr FR_CHAN 0 0 0 (cr_flags cr) (cr_flags_udef cr)) None)) with (chan_flags_of (cr_flags cr) (cr_flags_udef cr)).
  set (fl := chan_flags_of _ _). assert (Hfl : printing fl) by (unfold fl; rewrite chan_flags_of_eq; apply flag_text_printing).
  destruct Hc as [_ (Hn & _ & Hnl) Hla [Hcf Hcu] Hi].
  assert (Hlen : (length fl <= 94)%nat).
  { pose proof (build_flags_length (mk_fr FR_CHAN 0 0 0 (cr_flags cr) (cr_flags_udef cr))) as Hb.
    change (fr_match (mk_fr FR_CHAN 0 0 0 (cr_flags cr) (cr_flags_udef cr)) &? FR_CHAN) with true in Hb. apply Hb.
    unfold valid_flags, keep_valid. cbn [fr_match fr_global fr_udef_global fr_bot fr_chan fr_udef_chan]. by rewrite !Z.land_0_l, Hcf, Hcu. }
  assert (Hil : ~ In 10 (default [] (cr_info cr)) /\ (length (default [] (cr_info cr)) <= 160)%nat).
  { destruct (cr_info cr); cbn; [|split; [tauto|lia]]. tauto. }
  exists (bs "! " ++ pad 20 (cr_channel cr) ++ ch " " :: li (cr_laston cr) ++ ch " " :: pad 10 fl ++ ch " " :: default [] (cr_info cr)). split_and!.
  - by flat_app.
  - unfold pad. repeat (apply not_in_app || (apply not_in_cons; [discriminate|])); try apply space_no_newline.
    + cbn. intuition discriminate.
    + by apply no_space_in.
    + apply base10_not_in; [lia|done|done].
    + by apply no_space_in; [apply printing_no_space|].
    + apply Hil.
  - unfold pad, newline. pose proof (base10_short _ Hla). unfold li. rewrite !length_app. cbn [length]. rewrite !length_app. cbn [length].
    rewrite !length_app. cbn [length]. rewrite !length_app, !repeat_length. cbn in *. lia.
Qed.

Lemma entry_text_ok types e : entry_ok types e -> Forall line_ok (entry_text e).
Proof.
  intros He. destruct (entry_good types e He) as [[Hn1 Hn2] Hls]. unfold entry_text. eapply lines_map; [|exact Hls]. intros s [H1 _ H3].
  exists (bs "--" ++ entry_name e ++ ch " " :: s). unfold dash_dash. split_and!.
  - by flat_app.
  - repeat (apply not_in_app || (apply not_in_cons; [discriminate|])); try done. cbn. intuition discriminate.
  - rewrite !length_app. cbn [length]. rewrite !length_app. cbn. lia.
Qed.

Lemma user_lines_ok types cs u : user_ok types cs u -> Forall line_ok (user_lines cs u).
Proof.
  intros [Hh Hf Hc _ He _]. unfold user_lines. constructor; [by apply user_line_ok|]. apply Forall_app. split.
  - clear He. induction (r_chanrec u) as [|cr crs IH]; [done|]. cbn [flat_map List.filter] in *. rewrite chanrec_lines_known.
    destruct (known cs cr); [|by apply IH]. apply Forall_cons in Hc as [Hcr Hc]. cbn. constructor; [by apply chanrec_line_ok|by apply IH].
  - induction He as [|e es H _ IH]; [done|]. cbn [flat_map]. apply Forall_app. split; [by apply (entry_text_ok types)|done].
Qed.

(** C13. What the user file keeps, and within which limits: what [write_userfile] wrote,
    [readuserfile], as a bot that reads its own file and has the same channels, reads into the same
    users, masks and ignores, whatever masks and ignores it had; there is at least one user, and the
    opening line is one the reader accepts. Kept are every saved user's flags, the records of the
    channels the bot has, and the entries, known or not, that have a text; the bans of all channels;
    and the global masks and the ignores. Lost are the background user ([EGG_BG_HANDLE], which is
    not saved), the records of other channels, the exempts and invites of channels whose name begins
    with [&] or [!] ([MaskFileProps.back]: they are written and skipped by the reader), the last
    byte of a bot's address, and of an ignore that nobody made or that says nothing, that it is so
    (it gets our name and an empty text). Users, records, entries, masks and ignores come back in
    reverse order; what is done about passwords after the loop ([passwords]) is done to these users,
    and it decides how the reading ends. The limits are those of the file's lines ([user_ok],
    [store_ok]): handles of at most HANDLEN bytes, each once (folding case), not empty, without
    spaces and beginning with no character of BADHANDCHARS; flags that are valid and sane; channel
    names of at most 200 bytes without spaces, each once in a user's records and among the bot's
    channels, and infos of at most 160; entries with distinct names and a value of their type (no
    empty extra data, no space in its keys, ports from 1 and below 2^31, no semicolon in an
    address); no colon in the name of who set a mask or an ignore; no newline and no blank at the
    ends of a text; every line of an entry, mask or ignore short enough for the reader's buffer
    ([line_good]: name and text together at most 507 bytes; a longer comment makes a user of its
    end: [long_comment_makes_user]); and times from 0 to below 2^31 (for a last visit from -2^31
    on). *)
Theorem userfile_roundtrip nick now rt cidr dflt dfltu ep ep2 rp types head us s s0 ds :
  us <> [] -> Forall (user_ok types (ms_chans s)) (saved us) -> NoDup (map user_key (saved us)) ->
  store_ok nick s -> map cm_dname (ms_chans s0) = map cm_dname (ms_chans s) ->
  line_ok head -> (length head < 180)%nat -> opening head = Ok tt ->
  exists text s' ds', write_userfile nick head us s = Ok (Some text) /\ view_of s' = saved_view nick s /\
    read_userfile true now rt cidr dflt dfltu ep ep2 rp types text s0 ds =
    (let! us' := entered (passwords true ep ep2 rp (map (user_back (ms_chans s)) (saved us))) in Ok (us', s', ds')).
Proof.
  intros Hne Hus Hn Hs Hd Hh Hlen Hop. unfold write_userfile. destruct us as [|u0 us0]; [done|]. set (us := u0 :: us0) in *.
  rewrite (users_written types) by done. cbn [rbind]. set (ls := flat_map _ (saved us) ++ _).
  change (write_ignores _ _ ++ _) with (mask_lines nick s) in ls.
  assert (Hls : Forall line_ok ls).
  { apply Forall_app. split; [|by apply mask_lines_ok]. clear -Hus. induction Hus as [|u v Hu _ IH]; [done|]. cbn [flat_map].
    apply Forall_app. split; [by apply (user_lines_ok types)|done]. }
  unfold read_userfile.
  set (st := {| f_r := _; f_u := None; f_bu := []; f_dcc := ds |}).
  destruct (all_read true now rt cidr dflt dfltu ep ep2 rp types (ms_chans s) (saved us) (mask_lines nick s) (fun x => view_of x = saved_view nick s) st)
    as (st' & E & Hb & Hv); try done; [by apply mask_lines_headed| |].
  { intros r Hr. destruct (mask_lines_read nick now s r) as (r' & Er & Hv); [done|by rewrite Hr|by rewrite Hr|rewrite Hr; by intros []|]. by exists r'. }
  exists (head ++ concat ls), (r_store (f_r st')), (f_dcc st'). split; [done|]. split; [done|].
  rewrite fgets_line by done. rewrite Hop. cbn [masked rbind]. fold st. rewrite full_lines_all by done. fold ls in E. rewrite E. cbn [rbind].
  rewrite Hb. unfold finish_file. rewrite users_unpacked by done. cbn [rbind].
  assert (Hdirty : map set_dirty (map (user_back (ms_chans s)) (saved us)) = map (user_back (ms_chans s)) (saved us)) by (rewrite map_map; by apply map_ext).
  by rewrite Hdirty.
Qed.

(** ** A file *)

Definition a_chanrec (name : String.string) (laston flags udef : Z) (info : option String.string) : chanuserrec := mk_cr (bs name) laston flags udef (bs <$> info).
Definition a_user (h : String.string) (flags udef : Z) (crs : list chanuserrec) (es : list uentry) : urec :=
  {| r_handle := bs h; r_flags := flags; r_flags_udef := udef; r_chanrec := crs; r_entries := es; r_dirty := false |}.
(** An operator with a record of a channel the bot knows and of one it does not; a bot; the user
    for background scripts, who is not written. *)
Definition sample_users : list urec :=
  [a_user "ann" USER_PARTY 1 [a_chanrec "#egg" (- 5) 64 2 (Some "hello there"); a_chanrec "#gone" 7 0 0 None]
     [an_entry HOSTS (UVec [bs "*!ann@x"; bs "*!*@y"]); an_entry LASTON (ULaston {| laston := 99; lastonplace := bs "#egg" |});
      an_entry XTRA (UXtra [{| x_key := bs "url"; x_data := bs "a b" |}]);
      {| e_type := None; e_name := Some (bs "GREET"); e_val := Some (UList [bs "hi"; bs "ho"]) |}];
   a_user "hub" USER_BOT 0 []
     [an_entry BOTADDR (UBotaddr {| address := bs "2001:db8::1"; telnet_port := 3333; relay_port := 3334; ssl := 1 |}); an_entry BOTFL (UWord BOT_HUB);
      an_entry ACCOUNT (UVec [])];
   a_user "-HQ" 0 0 [] []].

(** Facts about closed texts, by computation. *)
#[local] Ltac by_eval := apply (bool_decide_unpack _); by vm_compute.
Definition goodb (name s : list Z) : bool :=
  forallb (fun c => negb (c =? 10)) s && match s with c :: _ => negb (isspace c) | [] => true end &&
  match rev s with c :: _ => negb (isspace c) | [] => true end && (length name + length s <=? 507)%nat.
Lemma goodb_good name s : goodb name s = true -> line_good name s.
Proof.
  unfold goodb. rewrite !andb_true_iff, forallb_forall. intros [[[H1 H2] H3] H4]. split; [by intros H%H1|split|by apply Nat.leb_le].
  - destruct s; [done|]. by apply negb_true_iff.
  - destruct (rev s); [done|]. by apply negb_true_iff.
Qed.
Lemma good_all name ls : forallb (goodb name) ls = true -> Forall (line_good name) ls.
Proof. rewrite forallb_forall, List.Forall_forall. intros H s Hs. by apply goodb_good, H. Qed.

Lemma sample_users_ok : Forall (user_ok init_userent (ms_chans sample_store)) (saved sample_users).
Proof.
  assert (Hk : forall t v, val_ok t v -> forallb (goodb (type_name t)) (text_of (an_entry t v)) = true -> entry_ok init_userent (an_entry t v)).
  { intros t v Hv Hl. split; [destruct t; cbn; tauto|]. split; [done|]. by apply good_all. }
  assert (Hand : forall h, forallb (fun c => (0 <? c) && (c <? 256) && negb (isspace c)) (bs h) = true ->
    match bs h with c :: _ => mem c BADHANDCHARS = false | [] => False end -> (length (bs h) <= Z.to_nat HANDLEN)%nat -> handle_ok (bs h)).
  { intros h Hb Hh Hl. rewrite forallb_forall in Hb. split; [|done| |done]; apply List.Forall_forall; intros c Hc; specialize (Hb c Hc);
      rewrite !andb_true_iff in Hb; destruct Hb as [[H1 H2] H3]; [bool_lia|by apply negb_true_iff]. }
  repeat apply List.Forall_cons; [..|apply List.Forall_nil]; split; cbn [a_user r_handle r_flags r_flags_udef r_chanrec r_entries].
  - apply Hand; [done|done|by vm_compute; lia].
  - split_and!; by vm_compute.
  - constructor; [|constructor]. split; cbn.
    + repeat constructor.
    + split_and!; [repeat constructor|done|lia].
    + lia.
    + by split.
    + split_and!; [done|split; by vm_compute|intuition discriminate|lia].
  - by_eval.
  - repeat apply List.Forall_cons; [apply Hk|apply Hk|apply Hk|split_and!|apply List.Forall_nil]; try done.
    + constructor; [|constructor]. split; [|done]. split; [done|cbn; intuition discriminate].
    + split; cbn; intuition discriminate.
    + by apply good_all.
  - by_eval.
  - apply Hand; [done|done|by vm_compute; lia].
  - split_and!; by vm_compute.
  - constructor.
  - by_eval.
  - repeat apply List.Forall_cons; [apply Hk|apply Hk|apply Hk|apply List.Forall_nil]; try done.
    cbn. split_and!; try lia; intuition discriminate.
  - by_eval.
Qed.

Lemma userfile_roundtrip_witness :
  exists text s' ds', write_userfile (bs "bot") sample_head sample_users sample_store = Ok (Some text) /\
    view_of s' = saved_view (bs "bot") sample_store /\
    read_userfile true 1000 tolower true 0 0 None None false init_userent text empty_store [] =
    Ok ([{| r_handle := bs "ann"; r_flags := USER_PARTY; r_flags_udef := 1; r_chanrec := [a_chanrec "#egg" (- 5) 64 2 (Some "hello there"%string)];
            r_entries := [{| e_type := None; e_name := Some (bs "GREET"); e_val := Some (UList [bs "hi"; bs "ho"]) |};
                          an_entry XTRA (UXtra [{| x_key := bs "url"; x_data := bs "a b" |}]);
                          an_entry LASTON (ULaston {| laston := 99; lastonplace := bs "#egg" |});
                          an_entry HOSTS (UVec [bs "*!ann@x"; bs "*!*@y"])]; r_dirty := true |};
         {| r_handle := bs "hub"; r_flags := USER_BOT; r_flags_udef := 0; r_chanrec := [];
            r_entries := [an_entry BOTFL (UWord BOT_HUB); an_entry BOTADDR (UBotaddr {| address := bs "2001:db8::"; telnet_port := 3333; relay_port := 3334; ssl := 1 |})];
            r_dirty := true |}], s', ds').
Proof.
  destruct (userfile_roundtrip (bs "bot") 1000 tolower true 0 0 None None false init_userent sample_head sample_users sample_store empty_store [])
    as (text & s' & ds' & E & Hv & Hr); [done|exact sample_users_ok|by_eval|exact sample_store_ok|reflexivity| |by vm_compute; lia|reflexivity|].
  - apply (closed_line_ok (bs "#4v: eggdrop -- bot -- written today")); [reflexivity|vm_compute; lia].
  - exists text, s', ds'. split; [exact E|]. split; [exact Hv|exact Hr].
Defined.

(** ** Edges *)

Definition written (us : list urec) : list Z :=
  match write_userfile (bs "bot") sample_head us empty_store with Ok (Some text) => text | _ => [] end.
Definition users_of (text : list Z) : result ffault (list urec) :=
  let! r := read_userfile true 1000 tolower true 0 0 None None false init_userent text empty_store [] in Ok (fst (fst r)).

(** A line longer than [fgets] takes is read as two: the end of a long comment can be the line of
    a user, here of an owner. *)
Example long_comment_makes_user :
  (let! us := users_of (written [a_user "ann" USER_PARTY 0 [] [an_entry COMMENT (UString (repeat (ch "x") 501 ++ bs "eve - n"))]]) in
   Ok (map (fun u => (r_handle u, r_flags u &? USER_OWNER)) us)) = Ok [(bs "ann", false); (bs "eve", true)].
Proof. by vm_compute. Qed.

(** A line of a user without flags is refused, and what follows is added to the user before. *)
Example corrupt_line_adds :
  (let! us := users_of (sample_head ++ bs "ann - p" ++ newline ++ bs "bob -" ++ newline ++ bs "--INFO I am bob" ++ newline) in
   Ok (map (fun u => (r_handle u, r_entries u)) us)) = Ok [(bs "ann", [an_entry INFO (UString (bs "I am bob"))])].
Proof. by vm_compute. Qed.

(** A name that white space begins with is not found again after it has been added. *)
Example tab_name_faults : users_of (sample_head ++ [9] ++ bs " - p" ++ newline) = Err NoUser.
Proof. by vm_compute. Qed.

(** The key of an XTRA entry that has a space, which only scripts can set, ends there. *)
Example key_with_space :
  (let! us := users_of (written [a_user "ann" USER_PARTY 0 [] [an_entry XTRA (UXtra [{| x_key := bs "my key"; x_data := bs "v" |}])]]) in
   Ok (map r_entries us)) = Ok [[an_entry XTRA (UXtra [{| x_key := bs "my"; x_data := bs "key v" |}])]].
Proof. by vm_compute. Qed.
