(* ===== verification/Linebuf.v ===== *)
(** * Buffers of lines (libop/src/linebuf.c)

    What arrives on a socket is cut into lines and kept until the lines are asked for, one with
    each call.  A buffer holds lines, all but the last of them complete.  However the network
    cuts a stream into pieces, the buffer hands out the lines of the stream, in their order,
    without touching a line that has been freed; as long as no line is longer than the buffer
    of a line. *)

From stdpp Require Import list.
From S2P Require Import Prelude.
#[local] Open Scope Z_scope.

(** ** Lines and buffers *)

Definition LINEBUF_TAGSLEN : Z := 4096.
Definition LINEBUF_DATALEN : Z := 510.
Definition LINEBUF_SIZE : Z := LINEBUF_TAGSLEN + LINEBUF_DATALEN.

(** [buf_line_t]: the [len] bytes that are in use. *)
Record buf_line := { bl_data : list Z; bl_terminated : bool; bl_raw : bool }.
Definition bl_len (l : buf_line) : Z := Z.of_nat (length (bl_data l)).
(** [buf_head_t]: the array of lines, with nothing where one has been freed, the index of the
    first that is live, and the counts. *)
Record buf_head := { bh_lines : list (option buf_line); bh_head : nat; bh_len : Z; bh_alloclen : Z; bh_numlines : Z }.

(** A line that has been freed, an index outside the array. *)
Inductive lfault := LFreed | LOutside.

Definition op_linebuf_newbuf : buf_head := {| bh_lines := []; bh_head := O; bh_len := 0; bh_alloclen := 0; bh_numlines := 0 |}.
Definition line_at (h : buf_head) (i : nat) : result lfault buf_line :=
  match bh_lines h !! i with Some (Some l) => Ok l | Some None => Err LFreed | None => Err LOutside end.
Definition add_len (n : Z) (h : buf_head) : buf_head :=
  {| bh_lines := bh_lines h; bh_head := bh_head h; bh_len := u64 (bh_len h + n); bh_alloclen := bh_alloclen h; bh_numlines := bh_numlines h |}.
Definition put_line (i : nat) (l : buf_line) (h : buf_head) : buf_head :=
  {| bh_lines := <[i := Some l]> (bh_lines h); bh_head := bh_head h; bh_len := bh_len h; bh_alloclen := bh_alloclen h; bh_numlines := bh_numlines h |}.

(** [op_linebuf_new_line]: the line is the last one. *)
Definition op_linebuf_new_line (l : buf_line) (h : buf_head) : buf_head :=
  {| bh_lines := bh_lines h ++ [Some l]; bh_head := bh_head h; bh_len := bh_len h;
     bh_alloclen := u64 (bh_alloclen h + 1); bh_numlines := u32 (bh_numlines h + 1) |}.
(** [op_linebuf_done_line], for the first live line, of which the buffer is the only owner. *)
Definition op_linebuf_done_line (l : buf_line) (h : buf_head) : buf_head :=
  let ls := <[bh_head h := None]> (bh_lines h) in
  let i := S (bh_head h) in
  let all := Nat.eqb i (length ls) in
  {| bh_lines := if all then [] else ls; bh_head := if all then O else i; bh_len := u64 (bh_len h - bl_len l);
     bh_alloclen := u64 (bh_alloclen h - 1); bh_numlines := u32 (bh_numlines h - 1) |}.

(** ** Cutting *)

Definition crlf (c : Z) : bool := (c =? 13) || (c =? 10).
Fixpoint text_run (d : list Z) : nat := match d with [] => O | c :: d => if crlf c then O else S (text_run d) end.
Fixpoint crlf_run (d : list Z) : nat := match d with [] => O | c :: d => if crlf c then S (crlf_run d) else O end.
Definition linebuf_skip_crlf (d : list Z) : nat := text_run d + crlf_run (drop (text_run d) d).

(** The line ends at the end taken off, or overwritten with NULs. *)
Definition strip_end (s : list Z) : list Z := rev (drop (crlf_run (rev s)) (rev s)).
Definition zero_end (s : list Z) : list Z := strip_end s ++ repeat 0 (length s - length (strip_end s)).
Definition ends_line (s : list Z) : bool := match rev s with c :: _ => crlf c | [] => false end.

(** [linebuf_copy]: what is consumed, the line, and what the length of the buffer grows by. *)
Definition linebuf_copy (l : buf_line) (d : list Z) (raw : bool) : nat * buf_line * Z :=
  if bl_terminated l then (O, l, 0)
  else
    let consumed := linebuf_skip_crlf d in
    let avail := Z.to_nat (LINEBUF_SIZE - bl_len l) in
    if Nat.ltb avail consumed then
      let part := take avail d in
      (consumed, {| bl_data := bl_data l ++ (if raw then part else zero_end part); bl_terminated := true; bl_raw := raw |}, LINEBUF_SIZE - bl_len l)
    else
      let part := take consumed d in
      if negb (ends_line part) then
        (consumed, {| bl_data := bl_data l ++ part; bl_terminated := false; bl_raw := raw |}, Z.of_nat consumed)
      else
        let part := if raw then part else strip_end part in
        (consumed, {| bl_data := bl_data l ++ part; bl_terminated := true; bl_raw := raw |}, Z.of_nat (length part)).

(** The loop over new lines, and how many there are; each takes a byte at least. *)
Fixpoint parse_loop (fuel : nat) (h : buf_head) (d : list Z) (raw : bool) (linecnt : Z) : Z * buf_head :=
  match fuel, d with
  | S fuel, _ :: _ =>
      let '(n, l, k) := linebuf_copy {| bl_data := []; bl_terminated := false; bl_raw := false |} d raw in
      parse_loop fuel (add_len k (op_linebuf_new_line l h)) (drop n d) raw (linecnt + 1)
  | _, _ => (linecnt, h)
  end.
Definition op_linebuf_parse (h : buf_head) (d : list Z) (raw : bool) : result lfault (Z * buf_head) :=
  match d with
  | [] => Ok (0, h)
  | _ =>
      let last := pred (length (bh_lines h)) in
      let! (linecnt, h, d) :=
        if Nat.ltb (bh_head h) (length (bh_lines h)) then
          let! l := line_at h last in
          let '(n, l, k) := linebuf_copy l d raw in
          Ok (if Nat.ltb 0 n then 1 else 0, add_len k (put_line last l h), drop n d)
        else Ok (0, h, d) in
      Ok (parse_loop (length d) h d raw linecnt)
  end.

(** ** Handing out *)

(** [op_linebuf_get]: what is copied, which is nothing when there is no line.  Empty lines are
    passed over. *)
Fixpoint get_loop (fuel : nat) (h : buf_head) (buflen : Z) (partial raw : bool) : result lfault (list Z * buf_head) :=
  match fuel with
  | O => Ok ([], h)
  | S fuel =>
      if Nat.leb (length (bh_lines h)) (bh_head h) then Ok ([], h)
      else
        let! l := line_at h (bh_head h) in
        if negb (partial || bl_terminated l) then Ok ([], h)
        else if buflen =? 0 then Ok ([], h)
        else
          let s := take (Z.to_nat (buflen - 1)) (bl_data l) in
          let s := if bl_raw l && negb raw then strip_end (drop (crlf_run s) s) else s in
          match s with
          | [] => get_loop fuel (op_linebuf_done_line l h) buflen partial raw
          | _ => Ok (s, op_linebuf_done_line l h)
          end
  end.
Definition op_linebuf_get (h : buf_head) (buflen : Z) (partial raw : bool) : result lfault (list Z * buf_head) :=
  get_loop (S (length (bh_lines h))) h buflen partial raw.

Definition op_linebuf_peek (h : buf_head) : result lfault (option buf_line) :=
  if Nat.leb (length (bh_lines h)) (bh_head h) then Ok None
  else let! l := line_at h (bh_head h) in Ok (if bl_terminated l then Some l else None).
Definition op_linebuf_consume (h : buf_head) : result lfault buf_head :=
  if Nat.leb (length (bh_lines h)) (bh_head h) then Ok h
  else let! l := line_at h (bh_head h) in Ok (op_linebuf_done_line l h).
(** [op_linebuf_put], of the text that [op_fsnprint] makes. *)
Definition op_linebuf_put (h : buf_head) (text : list Z) : buf_head :=
  let s := take (Z.to_nat LINEBUF_SIZE) text ++ [13; 10] in
  add_len (Z.of_nat (length s)) (op_linebuf_new_line {| bl_data := s; bl_terminated := true; bl_raw := false |} h).
Fixpoint donebuf_loop (fuel : nat) (h : buf_head) : result lfault buf_head :=
  match fuel with
  | O => Ok h
  | S fuel =>
      if Nat.ltb (bh_head h) (length (bh_lines h)) then let! l := line_at h (bh_head h) in donebuf_loop fuel (op_linebuf_done_line l h) else Ok h
  end.
Definition op_linebuf_donebuf (h : buf_head) : result lfault buf_head :=
  let! h := donebuf_loop (length (bh_lines h)) h in
  Ok {| bh_lines := []; bh_head := O; bh_len := bh_len h; bh_alloclen := bh_alloclen h; bh_numlines := bh_numlines h |}.

(** ** The lines that arrive are the lines that were sent *)

(** ** The specification: one byte after the other *)

(** The complete lines that wait, none of them empty, and the beginning of the next one. *)
Definition feed1 (st : list (list Z) * list Z) (c : Z) : list (list Z) * list Z :=
  let '(q, cur) := st in
  if crlf c then (match cur with [] => q | _ => q ++ [cur] end, []) else (q, cur ++ [c]).
Definition feed (st : list (list Z) * list Z) (d : list Z) : list (list Z) * list Z := fold_left feed1 d st.

(** How long the line is that the last byte belongs to, with its end, and whether that byte is
    part of the end; and that no line is too long. *)
Definition count (st : Z * bool) (c : Z) : Z * bool :=
  if crlf c then (fst st + 1, true) else if snd st then (1, false) else (fst st + 1, false).
Fixpoint fits (st : Z * bool) (d : list Z) : Prop :=
  match d with [] => True | c :: d => fst (count st c) <= LINEBUF_SIZE /\ fits (count st c) d end.
Definition counted (st : Z * bool) (d : list Z) : Z * bool := fold_left count d st.

Lemma fits_app st a b : fits st (a ++ b) <-> fits st a /\ fits (counted st a) b.
Proof. revert st. induction a as [|c a IH]; intros st; cbn; [tauto|]. rewrite IH. tauto. Qed.
Lemma counted_app st a b : counted st (a ++ b) = counted (counted st a) b.
Proof. apply fold_left_app. Qed.
Lemma feed_app st a b : feed st (a ++ b) = feed (feed st a) b.
Proof. apply fold_left_app. Qed.

Definition texts (s : list Z) : Prop := Forall (fun c => crlf c = false) s.
Definition ends (s : list Z) : Prop := Forall (fun c => crlf c = true) s.

Lemma feed_cons st c d : feed st (c :: d) = feed (feed1 st c) d.
Proof. done. Qed.
Lemma counted_cons st c d : counted st (c :: d) = counted (count st c) d.
Proof. done. Qed.
Lemma feed1_text q x c : crlf c = false -> feed1 (q, x) c = (q, x ++ [c]).
Proof. intros H. unfold feed1. by rewrite H. Qed.
Definition snoc (q : list (list Z)) (x : list Z) : list (list Z) := match x with [] => q | _ => q ++ [x] end.
Lemma feed1_end q x c : crlf c = true -> feed1 (q, x) c = (snoc q x, []).
Proof. intros H. unfold feed1. by rewrite H. Qed.
Lemma count_text n (run : bool) c : crlf c = false -> count (n, run) c = ((if run then 0 else n) + 1, false).
Proof. intros H. unfold count. rewrite H. by destruct run. Qed.
Lemma count_end n run c : crlf c = true -> count (n, run) c = (n + 1, true).
Proof. intros H. unfold count. by rewrite H. Qed.

Lemma feed_texts q x t : texts t -> feed (q, x) t = (q, x ++ t).
Proof.
  intros Ht. revert x. induction Ht as [|c t Hc _ IH]; intros x; [by rewrite app_nil_r|].
  by rewrite feed_cons, feed1_text, IH, <- app_assoc.
Qed.
Lemma feed_ends q x r : ends r -> r <> [] -> feed (q, x) r = (snoc q x, []).
Proof.
  intros Hr Hne. destruct Hr as [|c r Hc Hr]; [done|]. rewrite feed_cons, feed1_end by done. clear -Hr.
  induction Hr as [|c' r Hc' _ IH]; [done|]. by rewrite feed_cons, feed1_end.
Qed.

Lemma counted_texts n (run : bool) t : texts t -> t <> [] -> counted (n, run) t = ((if run then 0 else n) + Z.of_nat (length t), false).
Proof.
  intros Ht Hne. destruct Ht as [|c t Hc Ht]; [done|]. rewrite counted_cons, count_text by done. generalize (if run then 0 else n). clear -Ht.
  intros m. cbn [length]. revert m. induction Ht as [|c' t Hc' _ IH]; intros m; [done|]. rewrite counted_cons, count_text, IH by done. cbn [length]. f_equal. lia.
Qed.
Lemma counted_ends n run r : ends r -> r <> [] -> counted (n, run) r = (n + Z.of_nat (length r), true).
Proof.
  intros Hr Hne. destruct Hr as [|c r Hc Hr]; [done|]. rewrite counted_cons, count_end by done. clear -Hr. cbn [length].
  revert n. induction Hr as [|c' r Hc' _ IH]; intros m; [done|]. rewrite counted_cons, count_end, IH by done. cbn [length]. f_equal. lia.
Qed.
Lemma fits_end st d : fits st d -> d <> [] -> fst (counted st d) <= LINEBUF_SIZE.
Proof.
  intros Hf Hne. destruct d as [|c d] using rev_ind; [done|]. rewrite fits_app in Hf. rewrite counted_app. by destruct Hf as [_ [Hf _]].
Qed.

(** ** Cutting *)

(** One turn takes a text and the line end after it, or all there is. *)
Lemma skip_split d : exists t r rest, d = t ++ r ++ rest /\ linebuf_skip_crlf d = (length t + length r)%nat /\
  texts t /\ ends r /\ (r = [] -> rest = []).
Proof.
  assert (Hr : forall d, exists r rest, d = r ++ rest /\ crlf_run d = length r /\ ends r /\ match rest with c :: _ => crlf c = false | [] => True end).
  { clear. induction d as [|c d (r & rest & E & Hc & Hr & Hrest)]; [exists [], []; split_and!; [done|done|constructor|done]|]. cbn. destruct (crlf c) eqn:Ec.
    - exists (c :: r), rest. rewrite E. split_and!; [done|cbn; rewrite <- E; lia|by constructor|done].
    - exists [], (c :: d). split_and!; [done|done|constructor|done]. }
  assert (Ht : forall d, exists t rest, d = t ++ rest /\ text_run d = length t /\ texts t /\ match rest with c :: _ => crlf c = true | [] => True end).
  { clear. induction d as [|c d (t & rest & E & Hc & Ht & Hrest)]; [exists [], []; split_and!; [done|done|constructor|done]|]. cbn. destruct (crlf c) eqn:Ec.
    - exists [], (c :: d). split_and!; [done|done|constructor|done].
    - exists (c :: t), rest. rewrite E. split_and!; [done|cbn; rewrite <- E; lia|by constructor|done]. }
  destruct (Ht d) as (t & rest1 & E1 & H1 & Ht1 & Hh1). destruct (Hr rest1) as (r & rest & E2 & H2 & Hr2 & _).
  exists t, r, rest. split; [by rewrite E1, E2|]. split; [|split_and!; [done|done|]].
  - unfold linebuf_skip_crlf. rewrite H1. rewrite E1 at 1. rewrite drop_app_length. lia.
  - intros ->. destruct rest1 as [|c rest1]; [by destruct rest|]. cbn in H2. by rewrite Hh1 in H2.
Qed.

Lemma crlf_run_ends r rest : ends r -> match rest with c :: _ => crlf c = false | [] => True end -> crlf_run (r ++ rest) = length r.
Proof. intros Hr Hn. induction Hr as [|c r Hc _ IH]; cbn; [destruct rest; [done|by cbn; rewrite Hn]|]. by rewrite Hc, IH. Qed.

Lemma strip_end_texts t r : texts t -> ends r -> strip_end (t ++ r) = t.
Proof.
  intros Ht Hr. unfold strip_end. rewrite rev_app_distr, crlf_run_ends; [rewrite drop_app_length; apply rev_involutive|by apply Forall_rev|].
  apply Forall_rev in Ht. by destruct Ht.
Qed.
Lemma strip_end_id t : texts t -> strip_end t = t.
Proof. intros Ht. rewrite <- (app_nil_r t) at 1. apply strip_end_texts; [done|constructor]. Qed.

Lemma ends_line_texts t r : texts t -> ends r -> ends_line (t ++ r) = match r with [] => false | _ => true end.
Proof.
  intros Ht Hr. unfold ends_line. destruct r as [|c r] using rev_ind.
  - rewrite app_nil_r. apply Forall_rev in Ht. destruct Ht; [done|]. done.
  - rewrite app_assoc, rev_app_distr. cbn. apply Forall_app in Hr as [_ Hr]. apply Forall_cons in Hr as [-> _]. by destruct r.
Qed.

Definition whole (x : list Z) : buf_line := {| bl_data := x; bl_terminated := true; bl_raw := false |}.
Definition opened (x : list Z) : buf_line := {| bl_data := x; bl_terminated := false; bl_raw := false |}.

Lemma copy_ok x t r rest raw : texts t -> ends r -> (r = [] -> rest = []) -> linebuf_skip_crlf (t ++ r ++ rest) = (length t + length r)%nat ->
  Z.of_nat (length x + length t + length r) <= LINEBUF_SIZE ->
  linebuf_copy {| bl_data := x; bl_terminated := false; bl_raw := raw |} (t ++ r ++ rest) false =
  ((length t + length r)%nat, match r with [] => opened (x ++ t) | _ => whole (x ++ t) end, Z.of_nat (length t)).
Proof.
  intros Ht Hr Hrest Hs Hl. unfold linebuf_copy. cbn [bl_terminated bl_data]. rewrite Hs. unfold bl_len. cbn [bl_data].
  rewrite (proj2 (Nat.ltb_ge _ _)) by lia. rewrite app_assoc, take_app_length' by (by rewrite length_app).
  rewrite ends_line_texts by done. destruct r as [|c r].
  - cbn [negb length]. by rewrite app_nil_r, Nat.add_0_r.
  - cbn [negb]. by rewrite strip_end_texts.
Qed.

(** ** What a buffer holds *)

(** The live lines: complete ones, some of them empty, and the beginning of the next. *)
Definition live (full : list (list Z)) (part : list Z) : list buf_line := map whole full ++ match part with [] => [] | _ => [opened part] end.
Definition bytes (full : list (list Z)) (part : list Z) : Z := Z.of_nat (length (concat full) + length part).
Record rep (h : buf_head) (full : list (list Z)) (part : list Z) : Prop := {
  rep_lines : bh_lines h = repeat None (bh_head h) ++ map Some (live full part);
  rep_len : bh_len h = u64 (bytes full part);
  rep_alloc : bh_alloclen h = u64 (Z.of_nat (length (live full part)));
  rep_num : bh_numlines h = u32 (Z.of_nat (length (live full part)))
}.
Definition nonempty (full : list (list Z)) : list (list Z) := List.filter (fun x => negb (bool_decide (x = []))) full.

Lemma nonempty_snoc full x : nonempty (full ++ [x]) = snoc (nonempty full) x.
Proof. unfold nonempty. rewrite List.filter_app. cbn. destruct x; cbn; by rewrite ?app_nil_r. Qed.
Lemma live_snoc full x : live (full ++ [x]) [] = live full [] ++ [whole x].
Proof. unfold live. by rewrite map_app, !app_nil_r. Qed.
Lemma live_part full x : x <> [] -> live full x = live full [] ++ [opened x].
Proof. intros H. unfold live. rewrite app_nil_r. by destruct x. Qed.
Lemma rep_new : rep op_linebuf_newbuf [] [].
Proof. by split. Qed.

Lemma u64_add a b : u64 (u64 a + b) = u64 (a + b).
Proof. unfold u64. by rewrite Zplus_mod_idemp_l. Qed.
Lemma u64_sub a b : u64 (u64 a - b) = u64 (a - b).
Proof. unfold u64. by rewrite Zminus_mod_idemp_l. Qed.
Lemma u32_add a b : u32 (u32 a + b) = u32 (a + b).
Proof. unfold u32. by rewrite Zplus_mod_idemp_l. Qed.
Lemma u32_sub a b : u32 (u32 a - b) = u32 (a - b).
Proof. unfold u32. by rewrite Zminus_mod_idemp_l. Qed.

(** A new line, complete or not, behind lines that are complete. *)
Lemma rep_add h full x (done : bool) : rep h full [] -> (done = false -> x <> []) ->
  rep (add_len (Z.of_nat (length x)) (op_linebuf_new_line (if done then whole x else opened x) h)) (if done then full ++ [x] else full) (if done then [] else x).
Proof.
  intros [Hl Hn Ha Hm] Hx. assert (El : live (if done then full ++ [x] else full) (if done then [] else x) = live full [] ++ [if done then whole x else opened x]).
  { destruct done; [apply live_snoc|by apply live_part, Hx]. }
  split; cbn [add_len op_linebuf_new_line bh_lines bh_head bh_len bh_alloclen bh_numlines]; rewrite ?El.
  - by rewrite Hl, map_app, <- app_assoc.
  - rewrite Hn, u64_add. f_equal. unfold bytes. destruct done; rewrite ?concat_app, ?length_app; cbn; rewrite ?app_nil_r; lia.
  - rewrite Ha, u64_add, length_app. f_equal. cbn. lia.
  - rewrite Hm, u32_add, length_app. f_equal. cbn. lia.
Qed.

(** The room that the counts promise. *)
Definition room (n : Z) (run : bool) (part : list Z) : Prop := 0 <= n /\ (if run then part = [] else Z.of_nat (length part) <= n).

Lemma piece_fits n run x t r rest : room n run x -> texts t -> ends r -> fits (n, run) (t ++ r ++ rest) -> t ++ r <> [] ->
  Z.of_nat (length x + length t + length r) <= LINEBUF_SIZE.
Proof.
  intros [Hn Hx] Ht Hr Hf Hne. rewrite app_assoc, fits_app in Hf. destruct Hf as [Hf _]. apply fits_end in Hf; [|done]. rewrite counted_app in Hf.
  destruct t as [|c t].
  - destruct r as [|c' r]; [done|]. change (counted (n, run) []) with (n, run) in Hf. rewrite counted_ends in Hf by done. destruct run; subst; cbn in *; lia.
  - rewrite counted_texts in Hf by done. destruct r as [|c' r]; [|rewrite counted_ends in Hf by done]; destruct run; subst; cbn in *; lia.
Qed.

Lemma counted_piece n run x t r : room n run x -> texts t -> ends r -> t ++ r <> [] -> exists n' run', counted (n, run) (t ++ r) = (n', run') /\
  room n' run' (match r with [] => x ++ t | _ => [] end).
Proof.
  intros [Hn Hx] Ht Hr Hne. rewrite counted_app. unfold room.
  destruct t as [|c t].
  - destruct r as [|c' r]; [done|]. change (counted (n, run) []) with (n, run). rewrite counted_ends by done. do 2 eexists. split; [reflexivity|]. split; [cbn; lia|done].
  - rewrite counted_texts by done. destruct r as [|c' r].
    + do 2 eexists. split; [reflexivity|]. rewrite length_app. destruct run; subst; cbn [length] in *; lia.
    + rewrite counted_ends by done. do 2 eexists. split; [reflexivity|]. split; [destruct run; cbn; lia|done].
Qed.

Lemma feed_piece q x t r : texts t -> ends r -> feed (q, x) (t ++ r) = match r with [] => (q, x ++ t) | _ => (snoc q (x ++ t), []) end.
Proof. intros Ht Hr. rewrite feed_app, feed_texts by done. destruct r as [|c r]; [done|]. by apply feed_ends. Qed.

Lemma parse_loop_ok fuel : forall h full d n run cnt, (length d <= fuel)%nat -> rep h full [] -> room n run [] -> fits (n, run) d ->
  exists cnt' h' full' part, parse_loop fuel h d false cnt = (cnt', h') /\ rep h' full' part /\
    (nonempty full', part) = feed (nonempty full, []) d /\ room (fst (counted (n, run) d)) (snd (counted (n, run) d)) part.
Proof.
  induction fuel as [|fuel IH]; intros h full d n run cnt Hlen Hh Hroom Hf.
  - destruct d; [|cbn in Hlen; lia]. by exists cnt, h, full, [].
  - destruct d as [|c0 d0]; [by exists cnt, h, full, []|]. cbn [parse_loop]. set (d := c0 :: d0) in *.
    destruct (skip_split d) as (t & r & rest & E & Hs & Ht & Hr & Hrest).
    assert (Hne : t ++ r <> []) by (intros [-> ->]%app_nil; rewrite Hrest in E by done; done).
    rewrite E in Hf, Hs, Hlen |- *. pose proof (piece_fits n run [] t r rest Hroom Ht Hr Hf Hne) as Hsize.
    rewrite (copy_ok [] t r rest false Ht Hr Hrest Hs) by exact Hsize. cbn [app].
    rewrite (app_assoc t r rest) in Hf. rewrite fits_app in Hf. destruct Hf as [_ Hf].
    destruct (counted_piece n run [] t r Hroom Ht Hr Hne) as (n' & run' & Ec & Hroom'). rewrite Ec in Hf.
    rewrite (app_assoc t r rest), feed_app, feed_piece, counted_app, Ec by done. cbn [app] in *.
    rewrite drop_app_length' by by rewrite length_app. rewrite !length_app in Hlen.
    assert (0 < length t + length r)%nat by (destruct t, r; cbn; [done|lia..]).
    destruct r as [|c r].
    + rewrite Hrest in * by done. rewrite app_nil_r in Hne. eexists _, _, full, t. split; [by destruct fuel|].
      split; [by apply (rep_add h full t false)|]. by split.
    + destruct (IH (add_len (Z.of_nat (length t)) (op_linebuf_new_line (whole t) h)) (full ++ [t]) rest n' run' (cnt + 1)) as (cnt' & h' & full' & part & -> & H1 & H2 & H3); try done.
      * lia.
      * by apply (rep_add h full t true).
      * rewrite nonempty_snoc in H2. by exists cnt', h', full', part.
Qed.

Lemma line_at_live h full part i l : rep h full part -> live full part !! i = Some l -> line_at h (bh_head h + i) = Ok l.
Proof.
  intros Hh Hl. unfold line_at. rewrite (rep_lines _ _ _ Hh), lookup_app_r by (rewrite repeat_length; lia).
  rewrite repeat_length. replace (bh_head h + i - bh_head h)%nat with i by lia. rewrite <- list_fmap_map || idtac.
  change (map Some ?x) with (Some <$> x). by rewrite list_lookup_fmap, Hl.
Qed.

Lemma rep_length h full part : rep h full part -> length (bh_lines h) = (bh_head h + length (live full part))%nat.
Proof. intros Hh. by rewrite (rep_lines _ _ _ Hh), length_app, repeat_length, length_map. Qed.

(** The last line, when it is not complete, takes the first piece. *)
Lemma rep_last h full x t (done : bool) : rep h full x -> x <> [] ->
  rep (add_len (Z.of_nat (length t)) (put_line (pred (length (bh_lines h))) (if done then whole (x ++ t) else opened (x ++ t)) h))
      (if done then full ++ [x ++ t] else full) (if done then [] else x ++ t).
Proof.
  intros Hh Hx. pose proof (rep_length _ _ _ Hh) as Hlen. destruct Hh as [Hl Hn Ha Hm].
  assert (El : live (if done then full ++ [x ++ t] else full) (if done then [] else x ++ t) = live full [] ++ [if done then whole (x ++ t) else opened (x ++ t)]).
  { destruct done; [apply live_snoc|apply live_part; by destruct x]. }
  rewrite (live_part full x Hx) in *. rewrite length_app in Hlen. cbn [length] in Hlen.
  split; cbn [add_len put_line bh_lines bh_head bh_len bh_alloclen bh_numlines]; rewrite ?El.
  - rewrite Hl at 2. rewrite Hlen, map_app, app_assoc. rewrite insert_app_r_alt by (rewrite length_app, repeat_length, length_map; lia).
    rewrite length_app, repeat_length, length_map. replace (pred _ - _)%nat with O by lia. cbn. by rewrite map_app, <- app_assoc.
  - rewrite Hn, u64_add. f_equal. unfold bytes. destruct done; rewrite ?concat_app, ?length_app; cbn; rewrite ?app_nil_r, ?length_app; lia.
  - by rewrite Ha, !length_app.
  - by rewrite Hm, !length_app.
Qed.

(** A piece of the stream does to a buffer what its bytes do, one after the other. *)
Lemma parse_ok h full part d n run : rep h full part -> room n run part -> fits (n, run) d ->
  exists cnt h' full' part', op_linebuf_parse h d false = Ok (cnt, h') /\ rep h' full' part' /\
    (nonempty full', part') = feed (nonempty full, part) d /\ room (fst (counted (n, run) d)) (snd (counted (n, run) d)) part'.
Proof.
  intros Hh Hroom Hf. destruct d as [|c0 d0]; [by exists 0, h, full, part|]. unfold op_linebuf_parse. set (d := c0 :: d0) in *. cbv zeta.
  pose proof (rep_length _ _ _ Hh) as Hlen. destruct (Nat.ltb_spec (bh_head h) (length (bh_lines h))) as [Hlt|Hge].
  - destruct (decide (part = [])) as [-> |Hpart].
    + destruct full as [|x full] using rev_ind; [cbn in Hlen; lia|]. clear IHfull.
      assert (Hat : line_at h (pred (length (bh_lines h))) = Ok (whole x)).
      { rewrite Hlen, live_snoc, length_app. cbn [length]. replace (pred _) with (bh_head h + length (live full []))%nat by lia.
        apply (line_at_live h (full ++ [x]) []); [done|]. rewrite live_snoc. by rewrite lookup_app_r, Nat.sub_diag by lia. }
      rewrite Hat. cbn [rbind linebuf_copy whole bl_terminated Nat.ltb Nat.leb skipn].
      assert (Hid : add_len 0 (put_line (pred (length (bh_lines h))) (whole x) h) = h).
      { destruct h as [ls hd ln al nm]. unfold add_len, put_line. cbn in *. f_equal.
        - apply list_insert_id. unfold line_at in Hat. cbn in Hat. destruct (ls !! _) as [[l|]|]; [by injection Hat as ->|done..].
        - pose proof (rep_len _ _ _ Hh) as Hn. cbn in Hn. rewrite Hn, u64_add. f_equal. lia. }
      change {| bl_data := x; bl_terminated := true; bl_raw := false |} with (whole x). rewrite Hid, drop_0.
      destruct (parse_loop_ok (length d) h (full ++ [x]) d n run 0) as (cnt & h' & full' & part' & -> & H1 & H2 & H3); [lia|done|done|done|]. by exists cnt, h', full', part'.
    + assert (Hrun : run = false) by (destruct Hroom as [_ Hp]; by destruct run).
      assert (Hat : line_at h (pred (length (bh_lines h))) = Ok (opened part)).
      { rewrite Hlen, (live_part full part), length_app by done. cbn [length]. replace (pred _) with (bh_head h + length (live full []))%nat by lia.
        apply (line_at_live h full part); [done|]. rewrite (live_part full part) by done. by rewrite lookup_app_r, Nat.sub_diag by lia. }
      rewrite Hat. cbn [rbind]. destruct (skip_split d) as (t & r & rest & E & Hs & Ht & Hr & Hrest).
      assert (Hne : t ++ r <> []) by (intros [-> ->]%app_nil; rewrite Hrest in E by done; done).
      rewrite E in Hf, Hs |- *. pose proof (piece_fits n run part t r rest Hroom Ht Hr Hf Hne) as Hsize.
      unfold opened at 1. rewrite (copy_ok part t r rest false Ht Hr Hrest Hs) by exact Hsize. cbn [rbind].
      rewrite (app_assoc t r rest) in Hf. rewrite fits_app in Hf. destruct Hf as [_ Hf].
      destruct (counted_piece n run part t r Hroom Ht Hr Hne) as (n' & run' & Ec & Hroom'). rewrite Ec in Hf.
      rewrite (app_assoc t r rest), feed_app, feed_piece, counted_app, Ec by done.
      rewrite drop_app_length' by by rewrite length_app. set (cnt := if Nat.ltb 0 _ then 1 else 0).
      destruct r as [|c r].
      * rewrite Hrest in * by done. eexists _, _, full, (part ++ t). split; [reflexivity|]. split; [by apply (rep_last h full part t false)|]. by split.
      * destruct (parse_loop_ok (length rest) (add_len (Z.of_nat (length t)) (put_line (pred (length (bh_lines h))) (whole (part ++ t)) h)) (full ++ [part ++ t]) rest n' run' cnt)
          as (cnt' & h' & full' & part' & -> & H1 & H2 & H3); [lia|by apply (rep_last h full part t true)|done|done|].
        rewrite nonempty_snoc in H2. by exists cnt', h', full', part'.
  - assert (live full part = []) as Hlive by (destruct (live full part); [done|cbn in Hlen; lia]).
    unfold live in Hlive. apply app_nil in Hlive as [Hfull Hpart]. apply map_eq_nil in Hfull as ->. destruct part; [|done]. cbn [rbind].
    destruct (parse_loop_ok (length d) h [] d n run 0) as (cnt & h' & full' & part' & -> & H1 & H2 & H3); [lia|done|done|done|]. by exists cnt, h', full', part'.
Qed.

(** The first line goes. *)
Lemma rep_done h full part l full' part' : rep h full part -> live full part = l :: live full' part' ->
  bytes full part = bl_len l + bytes full' part' -> rep (op_linebuf_done_line l h) full' part'.
Proof.
  intros Hh El Eb. pose proof (rep_length _ _ _ Hh) as Hlen. destruct Hh as [Hl Hn Ha Hm]. rewrite El in *. cbn [length] in Hlen.
  unfold op_linebuf_done_line. rewrite length_insert, Hlen.
  assert (Hls : <[bh_head h:=None]> (bh_lines h) = repeat None (S (bh_head h)) ++ map Some (live full' part')).
  { rewrite Hl. rewrite insert_app_r_alt by (by rewrite repeat_length). rewrite repeat_length, Nat.sub_diag. cbn [map insert list_insert repeat].
    change (None :: repeat None (bh_head h)) with (repeat (@None buf_line) (S (bh_head h))). rewrite <- Nat.add_1_r, repeat_app, <- app_assoc. done. }
  split; cbn [bh_lines bh_head bh_len bh_alloclen bh_numlines].
  - rewrite Hls. destruct (Nat.eqb_spec (S (bh_head h)) (bh_head h + S (length (live full' part')))) as [E|E]; [|done].
    destruct (live full' part'); [done|cbn in E; lia].
  - rewrite Hn, u64_sub. f_equal. lia.
  - rewrite Ha, u64_sub. f_equal. cbn. lia.
  - rewrite Hm, u32_sub. f_equal. cbn. lia.
Qed.
Lemma rep_done_whole h x full part : rep h (x :: full) part -> rep (op_linebuf_done_line (whole x) h) full part.
Proof. intros Hh. apply (rep_done h (x :: full) part); [done|done|]. unfold bytes, bl_len. cbn. rewrite length_app. lia. Qed.
Lemma rep_done_part h part : rep h [] part -> part <> [] -> rep (op_linebuf_done_line (opened part) h) [] [].
Proof. intros Hh Hp. apply (rep_done h [] part); [done|by destruct part|]. unfold bytes, bl_len. cbn. lia. Qed.

Lemma first_line h x full part : rep h (x :: full) part -> line_at h (bh_head h) = Ok (whole x).
Proof. intros Hh. rewrite <- (Nat.add_0_r (bh_head h)). by apply (line_at_live h (x :: full) part). Qed.
Lemma some_live h full part : rep h full part -> live full part <> [] -> Nat.leb (length (bh_lines h)) (bh_head h) = false.
Proof. intros Hh Hne. rewrite (rep_length _ _ _ Hh). apply Nat.leb_gt. destruct (live full part); [done|cbn; lia]. Qed.

(** Each call hands out the first line that is not empty; the beginning of a line only when it is
    asked for and there is no complete line. *)
Lemma get_loop_ok fuel : forall h full part buflen partial, rep h full part -> (length full < fuel)%nat -> 1 < buflen ->
  let cut := take (Z.to_nat (buflen - 1)) in
  match nonempty full with
  | x :: q => exists h' full', get_loop fuel h buflen partial false = Ok (cut x, h') /\ rep h' full' part /\ nonempty full' = q
  | [] =>
      if partial && negb (bool_decide (part = []))
      then exists h', get_loop fuel h buflen partial false = Ok (cut part, h') /\ rep h' [] []
      else exists h', get_loop fuel h buflen partial false = Ok ([], h') /\ rep h' [] part
  end.
Proof.
  induction fuel as [|fuel IH]; intros h full part buflen partial Hh Hfuel Hb; [lia|]. cbn [get_loop].
  assert (Hcut : forall x : list Z, x <> [] -> take (Z.to_nat (buflen - 1)) x <> []) by (intros [|c x] Hx; [done|]; by destruct (Z.to_nat (buflen - 1)) eqn:E; [lia|]).
  assert (Hb0 : (buflen =? 0) = false) by (apply Z.eqb_neq; lia).
  destruct full as [|x full].
  - cbn [nonempty List.filter]. destruct part as [|c part].
    + rewrite (proj2 (Nat.leb_le _ _)) by (rewrite (rep_length _ _ _ Hh); cbn; lia). rewrite andb_false_r. by exists h.
    + rewrite (some_live _ _ _ Hh) by done.
      assert (line_at h (bh_head h) = Ok (opened (c :: part))) as -> by (rewrite <- (Nat.add_0_r (bh_head h)); by apply (line_at_live h [] (c :: part))).
      cbn [rbind opened bl_terminated bl_data bl_raw andb orb]. rewrite orb_false_r. rewrite bool_decide_false by done. cbn [negb]. rewrite andb_true_r.
      destruct partial; cbn [negb]; [|by exists h]. rewrite Hb0. specialize (Hcut (c :: part) ltac:(done)). destruct (take _ (c :: part)) eqn:E; [done|].
      eexists. split; [reflexivity|]. by apply (rep_done_part h (c :: part)).
  - rewrite (some_live _ _ _ Hh) by done. rewrite (first_line _ _ _ _ Hh). cbn [rbind whole bl_terminated bl_data bl_raw andb]. rewrite orb_true_r. cbn [negb]. rewrite Hb0.
    apply rep_done_whole in Hh as Hh'. cbn [nonempty List.filter]. destruct x as [|c x].
    + rewrite bool_decide_true by done. cbn [negb]. rewrite take_nil. cbn [length] in Hfuel. by apply (IH _ full part); [|lia|].
    + rewrite bool_decide_false by done. cbn [negb]. specialize (Hcut (c :: x) ltac:(done)). destruct (take _ (c :: x)) eqn:E; [done|].
      eexists _, full. split; [reflexivity|]. by split.
Qed.

Lemma get_ok h full part buflen partial : rep h full part -> 1 < buflen ->
  let cut := take (Z.to_nat (buflen - 1)) in
  match nonempty full with
  | x :: q => exists h' full', op_linebuf_get h buflen partial false = Ok (cut x, h') /\ rep h' full' part /\ nonempty full' = q
  | [] =>
      if partial && negb (bool_decide (part = []))
      then exists h', op_linebuf_get h buflen partial false = Ok (cut part, h') /\ rep h' [] []
      else exists h', op_linebuf_get h buflen partial false = Ok ([], h') /\ rep h' [] part
  end.
Proof.
  intros Hh Hb. apply get_loop_ok; [done| |done]. rewrite (rep_length _ _ _ Hh). unfold live. rewrite length_app, length_map. lia.
Qed.

(** ** Sequences of pieces and calls *)

Inductive lb_event := Arrives (d : list Z) | Asked (buflen : Z) (partial : bool).
Definition lb_step (e : lb_event) (h : buf_head) : result lfault (list (list Z) * buf_head) :=
  match e with
  | Arrives d => let! r := op_linebuf_parse h d false in Ok ([], snd r)
  | Asked buflen partial => let! r := op_linebuf_get h buflen partial false in Ok ([fst r], snd r)
  end.
Fixpoint lb_run (es : list lb_event) (h : buf_head) : result lfault (list (list Z) * buf_head) :=
  match es with
  | [] => Ok ([], h)
  | e :: es => let! (o, h) := lb_step e h in let! (os, h) := lb_run es h in Ok (o ++ os, h)
  end.

(** The same with the stream as it is: a queue of lines, and the beginning of one. *)
Definition spec_step (e : lb_event) (st : list (list Z) * list Z) : list (list Z) * (list (list Z) * list Z) :=
  match e with
  | Arrives d => ([], feed st d)
  | Asked buflen partial =>
      let cut := take (Z.to_nat (buflen - 1)) in
      match st with
      | (x :: q, cur) => ([cut x], (q, cur))
      | ([], cur) => if partial && negb (bool_decide (cur = [])) then ([cut cur], ([], [])) else ([[]], ([], cur))
      end
  end.
Fixpoint spec_run (es : list lb_event) (st : list (list Z) * list Z) : list (list Z) * (list (list Z) * list Z) :=
  match es with
  | [] => ([], st)
  | e :: es => let '(o, st) := spec_step e st in let '(os, st) := spec_run es st in (o ++ os, st)
  end.
Definition stream (es : list lb_event) : list Z := flat_map (fun e => match e with Arrives d => d | Asked _ _ => [] end) es.
Definition asks_ok (e : lb_event) : Prop := match e with Arrives _ => True | Asked buflen _ => 1 < buflen end.

Lemma lb_run_ok es : forall h full part n run, rep h full part -> room n run part -> fits (n, run) (stream es) -> Forall asks_ok es ->
  exists h' full' part', lb_run es h = Ok (fst (spec_run es (nonempty full, part)), h') /\ rep h' full' part' /\
    snd (spec_run es (nonempty full, part)) = (nonempty full', part').
Proof.
  induction es as [|e es IH]; intros h full part n run Hh Hroom Hf Ha; [by exists h, full, part|].
  apply Forall_cons in Ha as [Ha Has]. cbn [lb_run spec_run]. destruct e as [d|buflen partial]; cbn [lb_step spec_step stream flat_map app] in *.
  - rewrite fits_app in Hf. destruct Hf as [Hf Hfs]. destruct (parse_ok h full part d n run Hh Hroom Hf) as (cnt & h1 & full1 & part1 & -> & H1 & H2 & H3).
    cbn [rbind snd]. rewrite <- H2. destruct (counted (n, run) d) as [n1 run1]. destruct (IH h1 full1 part1 n1 run1 H1 H3 Hfs Has) as (h' & full' & part' & -> & Hr & Es).
    cbn [rbind app]. destruct (spec_run es _) as [os st]. cbn [fst snd] in *. by exists h', full', part'.
  - pose proof (get_ok h full part buflen partial Hh Ha) as Hg. cbn zeta in Hg.
    assert (Hroom0 : room n run []) by (destruct Hroom as [Hn _]; split; [done|by destruct run]).
    assert (Hnext : forall o h1 full1 part1, op_linebuf_get h buflen partial false = Ok (o, h1) -> rep h1 full1 part1 -> room n run part1 ->
      exists h' full' part', (let! (o, h) := let! r := op_linebuf_get h buflen partial false in Ok ([fst r], snd r) in let! (os, h) := lb_run es h in Ok (o ++ os, h)) =
        Ok ([o] ++ fst (spec_run es (nonempty full1, part1)), h') /\ rep h' full' part' /\ snd (spec_run es (nonempty full1, part1)) = (nonempty full', part')).
    { intros o h1 full1 part1 -> H1 H2. cbn [rbind fst snd]. destruct (IH h1 full1 part1 n run H1 H2 Hf Has) as (h' & full' & part' & -> & Hr & Es). cbn [rbind]. by exists h', full', part'. }
    destruct (nonempty full) as [|x q] eqn:Eq.
    + destruct (partial && _).
      * destruct Hg as (h1 & E & H1). destruct (Hnext _ h1 [] [] E H1 Hroom0) as (h' & full' & part' & -> & Hr & Es). change (nonempty []) with (@nil (list Z)) in *.
        destruct (spec_run es ([], [])) as [os st]. by exists h', full', part'.
      * destruct Hg as (h1 & E & H1). destruct (Hnext _ h1 [] part E H1 Hroom) as (h' & full' & part' & -> & Hr & Es). change (nonempty []) with (@nil (list Z)) in *.
        destruct (spec_run es ([], part)) as [os st]. by exists h', full', part'.
    + destruct Hg as (h1 & full1 & E & H1 & Hq). destruct (Hnext _ h1 full1 part E H1 Hroom) as (h' & full' & part' & -> & Hr & Es). rewrite Hq in *.
      destruct (spec_run es (q, part)) as [os st]. by exists h', full', part'.
Qed.

(** C20. However the network cuts a stream into pieces, and whenever lines are asked for in between,
    the buffer hands out the lines of the stream, in their order and without empty ones, and
    the beginning of a line only when it is asked for; nothing is lost, no line that has been
    freed is touched, and the counts are those of what is there.  The lines, with what ends
    them, must fit the buffer of a line. *)
Theorem linebuf_refines_stream es : fits (0, false) (stream es) -> Forall asks_ok es ->
  exists h full part, lb_run es op_linebuf_newbuf = Ok (fst (spec_run es ([], [])), h) /\ rep h full part /\
    snd (spec_run es ([], [])) = (nonempty full, part).
Proof. intros Hf Ha. apply (lb_run_ok es op_linebuf_newbuf [] [] 0 false); [apply rep_new|split; [lia|cbn; lia]|done|done]. Qed.

Definition some_events : list lb_event :=
  [Arrives (bs "PING :a" ++ [13]); Arrives [10]; Arrives (bs "JO"); Asked 513 false; Asked 513 false; Arrives (bs "IN #x" ++ [13; 10; 13; 10] ++ bs "NI"); Asked 513 true;
   Asked 513 false; Asked 513 true].
Lemma linebuf_refines_stream_witness :
  exists h full part, lb_run some_events op_linebuf_newbuf = Ok ([bs "PING :a"; []; bs "JOIN #x"; []; bs "NI"], h) /\ rep h full part /\ ([], []) = (nonempty full, part).
Proof.
  apply (linebuf_refines_stream some_events).
  - vm_compute. intuition discriminate.
  - repeat constructor; cbn; lia.
Defined.

(** ** Lines that are too long *)

(** The lines that wait after some pieces. *)
Definition lines_of (ds : list (list Z)) : list (list Z) :=
  match lb_run (map Arrives ds ++ repeat (Asked 5000 false) 3) op_linebuf_newbuf with Ok (ls, _) => filter (fun l => l <> []) ls | Err _ => [] end.
(** The end of a line that is too long is dropped when it arrives in the same piece, and is a line of
    its own when it arrives later. *)
Example long_line_dropped : map (@length Z) (lines_of [repeat 97 5000 ++ bs "QUIT" ++ [10]]) = [4606%nat].
Proof. vm_compute. reflexivity. Qed.
Example long_line_continues : drop 1 (lines_of [repeat 97 5000; bs "QUIT" ++ [10]]) = [bs "QUIT"].
Proof. vm_compute. reflexivity. Qed.
(** Many line ends are a line of NULs. *)
Example line_of_nuls : lines_of [repeat 10 5000] = [repeat 0 4606].
Proof. vm_compute. reflexivity. Qed.
