(* ===== verification/Mbuf.v ===== *)
(** * The ring of bytes that wait to be sent (src/compat/mbuf.c)

    A circular buffer, with [size_t] arithmetic and the memory that is copied checked against its
    bounds, and the proof that it implements a queue of bytes.  That the pointers are not NULL,
    which the functions test, is part of the types here. *)

From S2P Require Import Prelude.
From stdpp Require Import list.
#[local] Open Scope Z_scope.

Record egg_mbuf := { mb_buf : list Z; mb_cap : Z; mb_len : Z; mb_rpos : Z; mb_wpos : Z }.

(** An access outside the buffer, a capacity that doubling never reaches. *)
Inductive mfault := MOutside | MForever.

(** [memcpy] from and to a buffer. *)
Definition slice (b : list Z) (pos n : Z) : result mfault (list Z) :=
  if (0 <=? pos) && (0 <=? n) && (pos + n <=? Z.of_nat (length b)) then Ok (take (Z.to_nat n) (drop (Z.to_nat pos) b)) else Err MOutside.
Definition blit (b : list Z) (pos : Z) (d : list Z) : result mfault (list Z) :=
  if (0 <=? pos) && (pos + Z.of_nat (length d) <=? Z.of_nat (length b))
  then Ok (take (Z.to_nat pos) b ++ d ++ drop (Z.to_nat pos + length d) b) else Err MOutside.

(** [op_malloc] clears. *)
Definition egg_mbuf_alloc (capacity : Z) : option egg_mbuf :=
  if capacity =? 0 then None
  else Some {| mb_buf := replicate (Z.to_nat capacity) 0; mb_cap := capacity; mb_len := 0; mb_rpos := 0; mb_wpos := 0 |}.

(** The bytes are written up to the end of the buffer, and from its start: the buffer and [wpos]. *)
Definition write_ring (mb : egg_mbuf) (data : list Z) (to_write : Z) : result mfault (list Z * Z) :=
  let first_chunk := u64 (mb_cap mb - mb_wpos mb) in
  let first_chunk := if to_write <? first_chunk then to_write else first_chunk in
  let! d := slice data 0 first_chunk in
  let! b := blit (mb_buf mb) (mb_wpos mb) d in
  let wpos := u64 (mb_wpos mb + first_chunk) mod mb_cap mb in
  let second_chunk := to_write - first_chunk in
  if 0 <? second_chunk
  then let! d := slice data first_chunk second_chunk in let! b := blit b 0 d in Ok (b, second_chunk)
  else Ok (b, wpos).
Definition egg_mbuf_append (mb : egg_mbuf) (data : list Z) : result mfault (Z * egg_mbuf) :=
  let len := Z.of_nat (length data) in
  if len =? 0 then Ok (0, mb)
  else
    let free_space := u64 (mb_cap mb - mb_len mb) in
    let to_write := if len <? free_space then len else free_space in
    if to_write =? 0 then Ok (0, mb)
    else
      let! (b, wpos) := write_ring mb data to_write in
      Ok (to_write, {| mb_buf := b; mb_cap := mb_cap mb; mb_len := u64 (mb_len mb + to_write); mb_rpos := mb_rpos mb; mb_wpos := wpos |}).

(** What can be read in one piece, and the number of all the bytes. *)
Definition egg_mbuf_peek (mb : egg_mbuf) : result mfault (list Z * Z) :=
  if mb_len mb =? 0 then Ok ([], 0)
  else
    let contiguous := u64 (mb_cap mb - mb_rpos mb) in
    let! d := slice (mb_buf mb) (mb_rpos mb) (if mb_len mb <? contiguous then mb_len mb else contiguous) in
    Ok (d, mb_len mb).

Definition egg_mbuf_consume (mb : egg_mbuf) (len : Z) : egg_mbuf :=
  if len =? 0 then mb
  else
    let len := if mb_len mb <? len then mb_len mb else len in
    let rpos := u64 (mb_rpos mb + len) mod mb_cap mb in
    let n := mb_len mb - len in
    if n =? 0 then {| mb_buf := mb_buf mb; mb_cap := mb_cap mb; mb_len := n; mb_rpos := 0; mb_wpos := 0 |}
    else {| mb_buf := mb_buf mb; mb_cap := mb_cap mb; mb_len := n; mb_rpos := rpos; mb_wpos := mb_wpos mb |}.

(** Both pieces. *)
Definition egg_mbuf_peek2 (mb : egg_mbuf) : result mfault (list Z * list Z) :=
  if mb_len mb =? 0 then Ok ([], [])
  else
    let c1 := u64 (mb_cap mb - mb_rpos mb) in
    let c1 := if mb_len mb <? c1 then mb_len mb else c1 in
    let! p1 := slice (mb_buf mb) (mb_rpos mb) c1 in
    let! p2 := if c1 <? mb_len mb then slice (mb_buf mb) 0 (mb_len mb - c1) else Ok [] in
    Ok (p1, p2).

Definition egg_mbuf_grow (mb : egg_mbuf) (new_cap : Z) : result mfault egg_mbuf :=
  if new_cap <=? mb_cap mb then Ok mb
  else
    let new_buf := replicate (Z.to_nat new_cap) 0 in
    let! b :=
      if 0 <? mb_len mb then
        let first := u64 (mb_cap mb - mb_rpos mb) in
        let first := if mb_len mb <? first then mb_len mb else first in
        let! d := slice (mb_buf mb) (mb_rpos mb) first in
        let! b := blit new_buf 0 d in
        let rest := mb_len mb - first in
        if 0 <? rest then let! d := slice (mb_buf mb) 0 rest in blit b first d else Ok b
      else Ok new_buf in
    Ok {| mb_buf := b; mb_cap := new_cap; mb_len := mb_len mb; mb_rpos := 0; mb_wpos := mb_len mb |}.

(** [while (new_cap < mb->len + len) new_cap *= 2;] *)
Fixpoint double_cap (fuel : nat) (new_cap wanted : Z) : result mfault Z :=
  match fuel with
  | O => Err MForever
  | S fuel => if new_cap <? wanted then double_cap fuel (u64 (new_cap * 2)) wanted else Ok new_cap
  end.
Definition egg_mbuf_append_grow (mb : egg_mbuf) (data : list Z) : result mfault (Z * egg_mbuf) :=
  let len := Z.of_nat (length data) in
  if len =? 0 then Ok (0, mb)
  else
    let! mb := if u64 (mb_cap mb - mb_len mb) <? len then
                 let! new_cap := double_cap 65 (if mb_cap mb =? 0 then 512 else mb_cap mb) (u64 (mb_len mb + len)) in
                 egg_mbuf_grow mb new_cap
               else Ok mb in
    egg_mbuf_append mb data.

(** ** The queue *)

Record mbuf_ok (mb : egg_mbuf) (l : list Z) : Prop := {
  mo_buf : Z.of_nat (length (mb_buf mb)) = mb_cap mb;
  mo_cap : 0 < mb_cap mb < 2 ^ 63;
  mo_len : mb_len mb = Z.of_nat (length l) /\ mb_len mb <= mb_cap mb;
  mo_rpos : 0 <= mb_rpos mb < mb_cap mb;
  mo_wpos : mb_wpos mb = (mb_rpos mb + mb_len mb) mod mb_cap mb;
  mo_data : forall i x, l !! i = Some x -> mb_buf mb !! Z.to_nat ((mb_rpos mb + Z.of_nat i) mod mb_cap mb) = Some x
}.

Lemma mod_ring x c : 0 <= x < 2 * c -> x mod c = if x <? c then x else x - c.
Proof.
  intros H. destruct (Z.ltb_spec x c); [apply Z.mod_small; lia|]. rewrite <- (Z.mod_small (x - c) c) by lia.
  replace x with (x - c + 1 * c) at 1 by lia. apply Z.mod_add. lia.
Qed.

Lemma slice_ok b pos n : 0 <= pos -> 0 <= n -> pos + n <= Z.of_nat (length b) -> slice b pos n = Ok (take (Z.to_nat n) (drop (Z.to_nat pos) b)).
Proof. intros. unfold slice. by rewrite (proj2 (Z.leb_le 0 pos)), (proj2 (Z.leb_le 0 n)), (proj2 (Z.leb_le _ _)) by lia. Qed.

(** A piece put into the buffer. *)
Lemma blit_ok b pos d : 0 <= pos -> pos + Z.of_nat (length d) <= Z.of_nat (length b) -> exists b', blit b pos d = Ok b' /\ length b' = length b /\
  forall k : nat, b' !! k = if (pos <=? Z.of_nat k) && (Z.of_nat k <? pos + Z.of_nat (length d)) then d !! (k - Z.to_nat pos)%nat else b !! k.
Proof.
  intros Hp Hd. unfold blit. rewrite (proj2 (Z.leb_le 0 pos)), (proj2 (Z.leb_le _ _)) by lia. eexists. split; [reflexivity|].
  split; [rewrite !length_app, length_take, length_drop; lia|]. intros k.
  destruct (Z.leb_spec pos (Z.of_nat k)); cbn [andb].
  - rewrite lookup_app_r by (rewrite length_take; lia). rewrite length_take, Nat.min_l by lia.
    destruct (Z.ltb_spec (Z.of_nat k) (pos + Z.of_nat (length d))).
    + by rewrite lookup_app_l by lia.
    + rewrite lookup_app_r, lookup_drop by lia. f_equal. lia.
  - rewrite lookup_app_l by (rewrite length_take; lia). by rewrite lookup_take_lt by lia.
Qed.

Lemma alloc_ok c : 0 < c < 2 ^ 63 -> exists mb, egg_mbuf_alloc c = Some mb /\ mbuf_ok mb [] /\ mb_cap mb = c.
Proof.
  intros Hc. unfold egg_mbuf_alloc. rewrite (proj2 (Z.eqb_neq c 0)) by lia. eexists. split; [reflexivity|]. split; [|done].
  split; cbn; [rewrite length_replicate; lia|done|lia|lia|by rewrite Zmod_0_l|done].
Qed.

Lemma size_id x : 0 <= x < 2 ^ 64 -> u64 x = x.
Proof. apply Z.mod_small. Qed.
Ltac ltb_cases := repeat match goal with |- context [?a <? ?b] => destruct (Z.ltb_spec a b) end.

Lemma write_ring_ok mb d w : Z.of_nat (length (mb_buf mb)) = mb_cap mb -> mb_cap mb < 2 ^ 63 -> 0 <= mb_wpos mb < mb_cap mb ->
  0 < w <= mb_cap mb -> w <= Z.of_nat (length d) ->
  exists b, write_ring mb d w = Ok (b, (mb_wpos mb + w) mod mb_cap mb) /\ length b = length (mb_buf mb) /\
    forall k : nat, Z.of_nat k < mb_cap mb -> b !! k =
      (let j := (Z.of_nat k - mb_wpos mb) mod mb_cap mb in if j <? w then d !! Z.to_nat j else mb_buf mb !! k).
Proof.
  intros Hb Hc Hp Hw Hd. unfold write_ring. rewrite (size_id (mb_cap mb - mb_wpos mb)) by lia.
  set (f := if w <? mb_cap mb - mb_wpos mb then w else mb_cap mb - mb_wpos mb).
  assert (Hf : 0 < f <= w /\ mb_wpos mb + f <= mb_cap mb /\ (f < w -> mb_wpos mb + f = mb_cap mb)) by (unfold f; ltb_cases; lia). clearbody f.
  assert (Hj : forall k : nat, Z.of_nat k < mb_cap mb -> (Z.of_nat k - mb_wpos mb) mod mb_cap mb =
    if Z.of_nat k <? mb_wpos mb then Z.of_nat k - mb_wpos mb + mb_cap mb else Z.of_nat k - mb_wpos mb).
  { intros k Hk. ltb_cases; [|apply Z.mod_small; lia]. rewrite <- (Z.mod_small (Z.of_nat k - mb_wpos mb + mb_cap mb) (mb_cap mb)) by lia.
    symmetry. rewrite <- (Z.mod_add (Z.of_nat k - mb_wpos mb) 1) by lia. f_equal. lia. }
  rewrite slice_ok by lia. cbn [rbind]. rewrite drop_0.
  destruct (blit_ok (mb_buf mb) (mb_wpos mb) (take (Z.to_nat f) d)) as (b1 & -> & L1 & B1); [lia|rewrite length_take; lia|].
  cbn [rbind]. rewrite length_take, Nat.min_l, Z2Nat.id in B1 by lia. rewrite (size_id (mb_wpos mb + f)) by lia.
  destruct (Z.ltb_spec 0 (w - f)).
  - rewrite slice_ok by lia. cbn [rbind]. destruct (blit_ok b1 0 (take (Z.to_nat (w - f)) (drop (Z.to_nat f) d))) as (b2 & -> & L2 & B2); [lia|rewrite length_take, length_drop; lia|].
    cbn [rbind]. rewrite length_take, length_drop, Nat.min_l, Z2Nat.id in B2 by lia. exists b2.
    split; [rewrite mod_ring by lia; ltb_cases; [lia|]; do 2 f_equal; lia|]. split; [congruence|]. intros k Hk. rewrite B2, B1, Hj by done. cbn zeta.
    rewrite (proj2 (Z.leb_le 0 (Z.of_nat k))) by lia. cbn [andb].
    destruct (Z.ltb_spec (Z.of_nat k) (mb_wpos mb)), (Z.leb_spec (mb_wpos mb) (Z.of_nat k)); try lia; cbn [andb]; ltb_cases; try lia; try done.
    all: rewrite ?lookup_take_lt, ?lookup_drop by lia; f_equal; lia.
  - exists b1. assert (f = w) as -> by lia. split; [done|]. split; [done|]. intros k Hk. rewrite B1, Hj by done. cbn zeta.
    destruct (Z.ltb_spec (Z.of_nat k) (mb_wpos mb)), (Z.leb_spec (mb_wpos mb) (Z.of_nat k)); try lia; cbn [andb]; ltb_cases; try lia; try done.
    rewrite lookup_take_lt by lia. f_equal. lia.
Qed.

Lemma append_ok mb l d : mbuf_ok mb l -> let w := Z.min (Z.of_nat (length d)) (mb_cap mb - mb_len mb) in
  exists mb', egg_mbuf_append mb d = Ok (w, mb') /\ mbuf_ok mb' (l ++ take (Z.to_nat w) d) /\ mb_cap mb' = mb_cap mb.
Proof.
  intros Hmb w. pose proof Hmb as [Hb Hc [Hl Hle] Hr Hw Hd].
  assert (Hskip : w = 0 -> exists mb', Ok (E := mfault) (0, mb) = Ok (w, mb') /\ mbuf_ok mb' (l ++ take (Z.to_nat w) d) /\ mb_cap mb' = mb_cap mb).
  { intros E0. rewrite E0. exists mb. split; [done|]. cbn [Z.to_nat take]. by rewrite app_nil_r. }
  unfold egg_mbuf_append. destruct (Z.eqb_spec (Z.of_nat (length d)) 0); [apply Hskip; lia|]. rewrite (size_id (mb_cap mb - mb_len mb)) by lia.
  assert (Ew : (if Z.of_nat (length d) <? mb_cap mb - mb_len mb then Z.of_nat (length d) else mb_cap mb - mb_len mb) = w) by (ltb_cases; lia).
  rewrite Ew. destruct (Z.eqb_spec w 0) as [E0|]; [by apply Hskip|]. clear Hskip Ew.
  assert (Hwb : 0 < w /\ w <= Z.of_nat (length d) /\ mb_len mb + w <= mb_cap mb) by lia. clearbody w.
  assert (Hwp : 0 <= mb_wpos mb < mb_cap mb) by (rewrite Hw; apply Z.mod_pos_bound; lia).
  destruct (write_ring_ok mb d w) as (b & -> & Lb & B); [done|lia..|]. cbn [rbind]. eexists. split; [reflexivity|]. split; [|done].
  rewrite size_id by lia. rewrite mod_ring in Hw by lia. split; cbn [mb_buf mb_cap mb_len mb_rpos mb_wpos]; [lia|done| |done| |].
  - rewrite length_app, length_take. lia.
  - rewrite Hw, Z.add_assoc. ltb_cases; [done|]. rewrite <- (Z.mod_add (mb_rpos mb + mb_len mb - mb_cap mb + w) 1) by lia. f_equal. lia.
  - intros i x Hi. pose proof (lookup_lt_Some _ _ _ Hi) as Hlt. rewrite length_app, length_take in Hlt.
    pose proof (Z.mod_pos_bound (mb_rpos mb + Z.of_nat i) (mb_cap mb)) as Hm. rewrite B by lia. cbn zeta. rewrite Z2Nat.id by lia.
    assert (Ei : ((mb_rpos mb + Z.of_nat i) mod mb_cap mb - mb_wpos mb) mod mb_cap mb = if Z.of_nat i <? mb_len mb then mb_cap mb - mb_len mb + Z.of_nat i else Z.of_nat i - mb_len mb).
    { rewrite Zminus_mod_idemp_l, Hw. destruct (Z.ltb_spec (Z.of_nat i) (mb_len mb)).
      - rewrite <- (Z.mod_small (mb_cap mb - mb_len mb + Z.of_nat i) (mb_cap mb)) by lia. ltb_cases; [|f_equal; lia].
        rewrite <- (Z.mod_add (mb_rpos mb + Z.of_nat i - (mb_rpos mb + mb_len mb)) 1) by lia. f_equal. lia.
      - rewrite <- (Z.mod_small (Z.of_nat i - mb_len mb) (mb_cap mb)) by lia. ltb_cases; [f_equal; lia|].
        rewrite <- (Z.mod_add (Z.of_nat i - mb_len mb) 1) by lia. f_equal. lia. }
    rewrite Ei. destruct (Z.ltb_spec (Z.of_nat i) (mb_len mb)).
    + rewrite (proj2 (Z.ltb_ge _ w)) by lia. rewrite lookup_app_l in Hi by lia. by apply Hd.
    + rewrite (proj2 (Z.ltb_lt _ w)) by lia. rewrite lookup_app_r, lookup_take_lt in Hi by lia. rewrite <- Hi. f_equal. lia.
Qed.

(** Reading gives the bytes in their order. *)
Lemma pieces_ok mb l : mbuf_ok mb l -> let c1 := if mb_len mb <? mb_cap mb - mb_rpos mb then mb_len mb else mb_cap mb - mb_rpos mb in
  take (Z.to_nat c1) (drop (Z.to_nat (mb_rpos mb)) (mb_buf mb)) = take (Z.to_nat c1) l /\
  take (Z.to_nat (mb_len mb - c1)) (mb_buf mb) = drop (Z.to_nat c1) l.
Proof.
  intros [Hb Hc [Hl Hle] Hr Hw Hd] c1. assert (H1 : 0 <= c1 <= mb_len mb /\ mb_rpos mb + c1 <= mb_cap mb /\ (c1 < mb_len mb -> mb_rpos mb + c1 = mb_cap mb)) by (unfold c1; ltb_cases; lia). clearbody c1.
  assert (Hat : forall i k : nat, (i < length l)%nat -> Z.of_nat k = (mb_rpos mb + Z.of_nat i) mod mb_cap mb -> mb_buf mb !! k = l !! i).
  { intros i k Hi Hk. destruct (lookup_lt_is_Some_2 l i Hi) as [x Hx]. rewrite Hx, <- (Hd i x Hx), <- Hk. by rewrite Nat2Z.id. }
  split; apply list_eq; intros i.
  - destruct (decide (i < Z.to_nat c1)%nat); [|by rewrite !lookup_take_ge by lia].
    rewrite !lookup_take_lt, lookup_drop by done. apply Hat; [lia|]. rewrite Z.mod_small by lia. lia.
  - rewrite lookup_drop. destruct (decide (i < Z.to_nat (mb_len mb - c1))%nat).
    + rewrite lookup_take_lt by done. apply Hat; [lia|]. rewrite mod_ring by lia. ltb_cases; lia.
    + rewrite lookup_take_ge by lia. symmetry. apply lookup_ge_None_2. lia.
Qed.

Lemma peek2_ok mb l : mbuf_ok mb l -> exists p1 p2, egg_mbuf_peek2 mb = Ok (p1, p2) /\ p1 ++ p2 = l /\ (l <> [] -> p1 <> []).
Proof.
  intros Hmb. pose proof (pieces_ok mb l Hmb) as Hp. destruct Hmb as [Hb Hc [Hl Hle] Hr Hw Hd]. unfold egg_mbuf_peek2.
  destruct (Z.eqb_spec (mb_len mb) 0); [exists [], []; split; [done|]; split; [destruct l; [done|cbn in *; lia]|destruct l; [done|cbn in *; lia]]|].
  rewrite size_id by lia. cbn zeta in Hp. set (c1 := if mb_len mb <? mb_cap mb - mb_rpos mb then mb_len mb else mb_cap mb - mb_rpos mb) in *.
  assert (0 < c1 <= mb_len mb /\ mb_rpos mb + c1 <= mb_cap mb) by (unfold c1; ltb_cases; lia). clearbody c1. destruct Hp as [P1 P2].
  rewrite slice_ok by lia. cbn [rbind]. destruct (Z.ltb_spec c1 (mb_len mb)).
  - rewrite slice_ok by lia. cbn [rbind Z.to_nat]. rewrite drop_0. eexists _, _. split; [reflexivity|]. rewrite P1, P2, take_drop. split; [done|].
    intros Hne E. apply (f_equal length) in E. rewrite length_take in E. cbn in E. lia.
  - cbn [rbind]. eexists _, _. split; [reflexivity|]. rewrite P1, app_nil_r, take_ge by lia. done.
Qed.

Lemma consume_ok mb l n : mbuf_ok mb l -> 0 <= n -> mbuf_ok (egg_mbuf_consume mb n) (drop (Z.to_nat n) l).
Proof.
  intros Hmb Hn. pose proof Hmb as [Hb Hc [Hl Hle] Hr Hw Hd]. unfold egg_mbuf_consume. destruct (Z.eqb_spec n 0) as [->|]; [done|].
  set (m := if mb_len mb <? n then mb_len mb else n). assert (Hm : 0 <= m <= mb_len mb /\ drop (Z.to_nat n) l = drop (Z.to_nat m) l).
  { unfold m. ltb_cases; [|split; [lia|done]]. split; [lia|]. by rewrite !drop_ge by lia. }
  destruct Hm as [Hm ->]. clearbody m. rewrite size_id by lia. destruct (Z.eqb_spec (mb_len mb - m) 0).
  - rewrite drop_ge by lia. split; cbn [mb_buf mb_cap mb_len mb_rpos mb_wpos]; [done|done|cbn; lia|lia| |done]. rewrite e. by rewrite Zmod_0_l.
  - split; cbn [mb_buf mb_cap mb_len mb_rpos mb_wpos]; [done|done|rewrite length_drop; lia|apply Z.mod_pos_bound; lia| |].
    + rewrite Zplus_mod_idemp_l, Hw. f_equal. lia.
    + intros i x Hi. rewrite lookup_drop in Hi. rewrite Zplus_mod_idemp_l, <- (Hd _ _ Hi). do 3 f_equal. lia.
Qed.

Lemma ring_grow_ok mb l c : mbuf_ok mb l -> c < 2 ^ 63 -> exists mb', egg_mbuf_grow mb c = Ok mb' /\ mbuf_ok mb' l /\ mb_cap mb' = Z.max c (mb_cap mb).
Proof.
  intros Hmb Hc'. pose proof (pieces_ok mb l Hmb) as Hp. pose proof Hmb as [Hb Hc [Hl Hle] Hr Hw Hd]. unfold egg_mbuf_grow.
  destruct (Z.leb_spec c (mb_cap mb)); [exists mb; split; [done|]; split; [done|lia]|]. cbn zeta in Hp. rewrite size_id by lia.
  assert (Hgo : forall b, Z.of_nat (length b) = c -> (forall i x, l !! i = Some x -> b !! i = Some x) ->
    exists mb', Ok (E := mfault) {| mb_buf := b; mb_cap := c; mb_len := mb_len mb; mb_rpos := 0; mb_wpos := mb_len mb |} = Ok mb' /\ mbuf_ok mb' l /\ mb_cap mb' = Z.max c (mb_cap mb)).
  { intros b Lb B. eexists. split; [reflexivity|]. split; [|cbn; lia]. split; cbn [mb_buf mb_cap mb_len mb_rpos mb_wpos]; [done|lia|lia|lia|rewrite Z.mod_small by lia; lia|].
    intros i x Hi. pose proof (lookup_lt_Some _ _ _ Hi). rewrite Z.mod_small, Z.add_0_l, Nat2Z.id by lia. by apply B. }
  destruct (Z.ltb_spec 0 (mb_len mb)); cbn [rbind].
  2: { apply Hgo; [rewrite length_replicate; lia|]. intros i x Hi. pose proof (lookup_lt_Some _ _ _ Hi). lia. }
  set (c1 := if mb_len mb <? mb_cap mb - mb_rpos mb then mb_len mb else mb_cap mb - mb_rpos mb) in *.
  assert (H1 : 0 < c1 <= mb_len mb /\ mb_rpos mb + c1 <= mb_cap mb) by (unfold c1; ltb_cases; lia). clearbody c1. destruct Hp as [P1 P2].
  rewrite slice_ok by lia. cbn [rbind]. rewrite P1. destruct (blit_ok (replicate (Z.to_nat c) 0) 0 (take (Z.to_nat c1) l)) as (b1 & -> & L1 & B1);
    [lia|rewrite length_take, length_replicate; lia|]. cbn [rbind]. rewrite length_replicate in L1. rewrite length_take, Nat.min_l, Z2Nat.id in B1 by lia.
  assert (B1' : forall i x, l !! i = Some x -> Z.of_nat i < c1 -> b1 !! i = Some x).
  { intros i x Hi Hlt. rewrite B1. rewrite (proj2 (Z.leb_le 0 _)), (proj2 (Z.ltb_lt _ _)) by lia. cbn [andb]. rewrite lookup_take_lt by lia. rewrite <- Hi. f_equal. lia. }
  destruct (Z.ltb_spec 0 (mb_len mb - c1)).
  - rewrite slice_ok by lia. cbn [rbind]. change (Z.to_nat 0) with 0%nat. rewrite drop_0, P2. destruct (blit_ok b1 c1 (drop (Z.to_nat c1) l)) as (b2 & -> & L2 & B2); [lia|rewrite length_drop; lia|].
    cbn [rbind]. apply Hgo; [lia|]. intros i x Hi. pose proof (lookup_lt_Some _ _ _ Hi). rewrite B2, length_drop. destruct (Z.leb_spec c1 (Z.of_nat i)); cbn [andb]; [|by apply B1'].
    rewrite (proj2 (Z.ltb_lt _ _)) by lia. rewrite lookup_drop, <- Hi. f_equal. lia.
  - cbn [rbind]. apply Hgo; [lia|]. intros i x Hi. pose proof (lookup_lt_Some _ _ _ Hi). apply B1'; [done|lia].
Qed.

(** The capacity that doubling reaches. *)
Fixpoint grown (fuel : nat) (c wanted : Z) : Z := match fuel with O => c | S fuel => if c <? wanted then grown fuel (c * 2) wanted else c end.
Lemma double_ok fuel : forall c wanted, 0 < c -> wanted < 2 ^ 62 -> c < 2 ^ 63 -> wanted <= c * 2 ^ Z.of_nat fuel -> exists c', double_cap (S fuel) c wanted = Ok c' /\ c' = grown (S fuel) c wanted /\ wanted <= c' < 2 ^ 63.
Proof.
  induction fuel as [|fuel IH]; intros c wanted Hc Hw Hc' Hf; cbn [double_cap grown]; (destruct (Z.ltb_spec c wanted); [|exists c; split; [done|split; [done|lia]]]).
  - cbn in Hf. lia.
  - rewrite (size_id (c * 2)) by lia. apply IH; [lia..|]. rewrite Nat2Z.inj_succ, Z.pow_succ_r in Hf by lia. lia.
Qed.

Lemma grown_enough fuel c wanted : wanted <= c -> grown fuel c wanted = c.
Proof. intros H. destruct fuel; [done|]. cbn. by rewrite (proj2 (Z.ltb_ge c wanted)) by lia. Qed.

Lemma append_grow_ok mb l d : mbuf_ok mb l -> Z.of_nat (length l) + Z.of_nat (length d) < 2 ^ 62 ->
  exists mb', egg_mbuf_append_grow mb d = Ok (Z.of_nat (length d), mb') /\ mbuf_ok mb' (l ++ d) /\
    mb_cap mb' = grown 65 (mb_cap mb) (Z.of_nat (length l + length d)).
Proof.
  intros Hmb Hld. pose proof (mo_len _ _ Hmb) as [Hl Hle]. pose proof (mo_cap _ _ Hmb) as Hc. unfold egg_mbuf_append_grow.
  destruct (Z.eqb_spec (Z.of_nat (length d)) 0) as [E|].
  { destruct d; [|cbn in E; lia]. exists mb. rewrite app_nil_r. split; [done|]. split; [done|]. symmetry. apply grown_enough. cbn. lia. }
  rewrite !size_id by lia. assert (Hgo : forall mb1, mbuf_ok mb1 l -> mb_len mb + Z.of_nat (length d) <= mb_cap mb1 ->
    exists mb', egg_mbuf_append mb1 d = Ok (Z.of_nat (length d), mb') /\ mbuf_ok mb' (l ++ d) /\ mb_cap mb' = mb_cap mb1).
  { intros mb1 Hmb1 Hc1. destruct (append_ok mb1 l d Hmb1) as (mb' & E & Hmb' & Ec). pose proof (mo_len _ _ Hmb1) as [Hl1 _].
    rewrite Z.min_l in E, Hmb' by lia. exists mb'. split; [done|]. by rewrite Nat2Z.id, firstn_all in Hmb'. }
  assert (Ew : Z.of_nat (length l + length d) = mb_len mb + Z.of_nat (length d)) by lia.
  destruct (Z.ltb_spec (mb_cap mb - mb_len mb) (Z.of_nat (length d))); [|cbn [rbind]; rewrite grown_enough by lia; apply Hgo; [done|lia]].
  rewrite (proj2 (Z.eqb_neq (mb_cap mb) 0)) by lia.
  destruct (double_ok 64 (mb_cap mb) (mb_len mb + Z.of_nat (length d))) as (c' & -> & Eg & Hc'); [lia|lia|lia|change (2 ^ Z.of_nat 64) with (2 ^ 64); nia|].
  cbn [rbind]. destruct (ring_grow_ok mb l c' Hmb) as (mb1 & -> & Hmb1 & E1); [lia|]. cbn [rbind].
  rewrite Ew, <- Eg. destruct (Hgo mb1) as (mb' & -> & H1 & H2); [done|lia|]. exists mb'. split; [done|]. split; [done|]. lia.
Qed.

(** ** Sequences of operations *)

Inductive mop := MAppend (d : list Z) | MAppendGrow (d : list Z) | MPeek | MPeek2 | MConsume (n : Z) | MGrow (c : Z).
Definition mbuf_step (o : mop) (mb : egg_mbuf) : result mfault ((list Z * Z) * egg_mbuf) :=
  match o with
  | MAppend d => let! (n, mb) := egg_mbuf_append mb d in Ok (([], n), mb)
  | MAppendGrow d => let! (n, mb) := egg_mbuf_append_grow mb d in Ok (([], n), mb)
  | MPeek => let! p := egg_mbuf_peek mb in Ok (([], snd p), mb)
  | MPeek2 => let! (p1, p2) := egg_mbuf_peek2 mb in Ok ((p1 ++ p2, Z.of_nat (length p1 + length p2)), mb)
  | MConsume n => Ok (([], 0), egg_mbuf_consume mb n)
  | MGrow c => let! mb := egg_mbuf_grow mb c in Ok (([], mb_cap mb), mb)
  end.
Fixpoint mbuf_run (os : list mop) (mb : egg_mbuf) : result mfault (list (list Z * Z) * egg_mbuf) :=
  match os with
  | [] => Ok ([], mb)
  | o :: os => let! (a, mb) := mbuf_step o mb in let! (as_, mb) := mbuf_run os mb in Ok (a :: as_, mb)
  end.
(** The same with a queue of bytes that holds [c] of them. *)
Definition queue_step (o : mop) (q : list Z * Z) : (list Z * Z) * (list Z * Z) :=
  let '(l, c) := q in
  match o with
  | MAppend d => let n := Z.min (Z.of_nat (length d)) (c - Z.of_nat (length l)) in (([], n), (l ++ take (Z.to_nat n) d, c))
  | MAppendGrow d => (([], Z.of_nat (length d)), (l ++ d, grown 65 c (Z.of_nat (length l + length d))))
  | MPeek => (([], Z.of_nat (length l)), q)
  | MPeek2 => ((l, Z.of_nat (length l)), q)
  | MConsume n => (([], 0), (drop (Z.to_nat n) l, c))
  | MGrow c' => (([], Z.max c c'), (l, Z.max c c'))
  end.
Fixpoint queue_run (os : list mop) (q : list Z * Z) : list (list Z * Z) * (list Z * Z) :=
  match os with
  | [] => ([], q)
  | o :: os => let '(a, q) := queue_step o q in let '(as_, q) := queue_run os q in (a :: as_, q)
  end.

(** How many bytes an operation adds, and that the numbers are those of sizes. *)
Definition mop_adds (o : mop) : Z := match o with MAppend d | MAppendGrow d => Z.of_nat (length d) | _ => 0 end.
Definition mop_ok (o : mop) : Prop := match o with MConsume n => 0 <= n | MGrow c => c < 2 ^ 63 | _ => True end.

Lemma mbuf_step_ok o mb l : mbuf_ok mb l -> mop_ok o -> Z.of_nat (length l) + mop_adds o < 2 ^ 62 ->
  exists mb', mbuf_step o mb = Ok (fst (queue_step o (l, mb_cap mb)), mb') /\
    mbuf_ok mb' (fst (snd (queue_step o (l, mb_cap mb)))) /\ mb_cap mb' = snd (snd (queue_step o (l, mb_cap mb))) /\
    Z.of_nat (length (fst (snd (queue_step o (l, mb_cap mb))))) <= Z.of_nat (length l) + mop_adds o.
Proof.
  intros Hmb Ho Hn. pose proof (mo_len _ _ Hmb) as [Hl Hle]. destruct o as [d|d| | |n|c]; cbn [mbuf_step queue_step fst snd mop_adds mop_ok] in *.
  - destruct (append_ok mb l d Hmb) as (mb' & -> & H1 & H2). cbn [rbind]. rewrite Hl in *. exists mb'. repeat (split; [done|]). rewrite length_app, length_take. lia.
  - destruct (append_grow_ok mb l d Hmb Hn) as (mb' & -> & H1 & H2). cbn [rbind]. exists mb'. repeat (split; [done|]). rewrite length_app. lia.
  - destruct (pieces_ok mb l Hmb) as [P1 _]. pose proof Hmb as [Hb Hc _ Hr _ _]. unfold egg_mbuf_peek.
    destruct (Z.eqb_spec (mb_len mb) 0) as [E|].
    + cbn [rbind snd]. exists mb. split; [by rewrite <- Hl, E|]. repeat (split; [done|]). lia.
    + rewrite size_id by lia. rewrite slice_ok by (ltb_cases; lia). cbn [rbind snd]. exists mb. split; [by rewrite Hl|]. repeat (split; [done|]). lia.
  - destruct (peek2_ok mb l Hmb) as (p1 & p2 & -> & <- & _). cbn [rbind]. exists mb. rewrite length_app. repeat (split; [done|]). lia.
  - exists (egg_mbuf_consume mb n). split; [done|]. split; [by apply consume_ok|]. split; [|rewrite length_drop; lia].
    unfold egg_mbuf_consume. repeat case_if; done.
  - destruct (ring_grow_ok mb l c Hmb Ho) as (mb' & -> & H1 & H2). cbn [rbind]. rewrite (Z.max_comm (mb_cap mb) c), H2. exists mb'. repeat (split; [done|]). lia.
Qed.

(** The ring is a queue of bytes: over any sequence of appends, with growing and without, looks
    at what it holds, and consumed bytes, in any mixture, the answers are those of a list of bytes
    with a capacity; the copies stay in the buffer, and the doubling of the capacity ends. *)
Theorem mbuf_refines_queue os mb l : mbuf_ok mb l -> Forall mop_ok os ->
  Z.of_nat (length l) + foldr (fun o n => mop_adds o + n) 0 os < 2 ^ 62 ->
  exists mb', mbuf_run os mb = Ok (fst (queue_run os (l, mb_cap mb)), mb') /\
    mbuf_ok mb' (fst (snd (queue_run os (l, mb_cap mb)))) /\ mb_cap mb' = snd (snd (queue_run os (l, mb_cap mb))).
Proof.
  intros Hmb Hos. revert mb l Hmb. induction Hos as [|o os Ho _ IH]; intros mb l Hmb Hn; cbn [mbuf_run queue_run foldr] in *; [by exists mb|].
  assert (0 <= foldr (fun o n => mop_adds o + n) 0 os) by (clear; induction os as [|[] os IH]; cbn; lia).
  destruct (mbuf_step_ok o mb l Hmb Ho) as (mb1 & -> & H1 & H2 & H3); [lia|]. cbn [rbind]. destruct (queue_step o (l, mb_cap mb)) as [a [l1 c1]]. cbn [fst snd] in *. subst c1.
  destruct (IH mb1 l1 H1) as (mb' & -> & H4 & H5); [lia|]. cbn [rbind]. destruct (queue_run os (l1, mb_cap mb1)) as [as_ [l2 c2]]. by exists mb'.
Qed.

(** Bytes that go round the end of a small ring, and more than it holds. *)
Definition some_mops : list mop :=
  [MAppend (bs "abcdef"); MConsume 4; MAppend (bs "ghijkl"); MPeek; MPeek2; MConsume 5; MAppendGrow (bs "0123456789"); MPeek2].
Lemma mbuf_refines_queue_witness :
  exists mb', mbuf_run some_mops {| mb_buf := replicate 8 0; mb_cap := 8; mb_len := 0; mb_rpos := 0; mb_wpos := 0 |} =
      Ok ([([], 6); ([], 0); ([], 6); ([], 8); (bs "efghijkl", 8); ([], 0); ([], 10); (bs "jkl0123456789", 13)], mb') /\
    mbuf_ok mb' (bs "jkl0123456789") /\ mb_cap mb' = 16.
Proof.
  apply (mbuf_refines_queue some_mops {| mb_buf := replicate 8 0; mb_cap := 8; mb_len := 0; mb_rpos := 0; mb_wpos := 0 |} []).
  - split; cbn; [done|lia|lia|lia|done|done].
  - repeat constructor; cbn; lia.
  - vm_compute. reflexivity.
Defined.
