(* ===== verification/Sockets.v ===== *)
(** * Sockets (src/net.c, src/async_recv.c, src/dccutil.c)

    The table of sockets: its entries are taken and given back, what is read is put into the
    line buffer of a socket, by [sockread] or by a thread, [sockgets] hands out the lines, and
    what is written waits in a ring of bytes while the socket takes no more.

    The operating system is an argument: what [select], [read], [recv] and [write] give.  Sockets
    are plain ones, without TLS or web sockets; what the callbacks of Tcl sockets, the hooks and
    [outdone] do is not part of the model, only that [outdone] is called. *)

From S2P Require Import Prelude Linebuf Mbuf.
From stdpp Require Import list.
#[local] Open Scope Z_scope.

Definition READMAX : Z := 16384.
Definition SOCK_UNUSED : Z := 0x0001.
Definition SOCK_BINARY : Z := 0x0002.
Definition SOCK_LISTEN : Z := 0x0004.
Definition SOCK_CONNECT : Z := 0x0008.
Definition SOCK_NONSOCK : Z := 0x0010.
Definition SOCK_STRONGCONN : Z := 0x0020.
Definition SOCK_EOFD : Z := 0x0040.
Definition SOCK_PROXYWAIT : Z := 0x0080.
Definition SOCK_PASS : Z := 0x0100.
Definition SOCK_VIRTUAL : Z := 0x0200.
Definition SOCK_BUFFER : Z := 0x0400.
Definition SOCK_TCL : Z := 0x0800.
Definition STDIN : Z := 0.
Definition STDOUT : Z := 1.
Definition STDERR : Z := 2.

Inductive sfault := SLine (f : lfault) | SRing (f : mfault) | SOutside.
Definition of_line {A} (r : result lfault A) : result sfault A := match r with Ok a => Ok a | Err f => Err (SLine f) end.
Definition of_ring {A} (r : result mfault A) : result sfault A := match r with Ok a => Ok a | Err f => Err (SRing f) end.

(** What the sockets need of a buffer of lines: [op_linebuf_parse], [op_linebuf_get] with its
    arguments [buflen], [partial] and [raw], and the rest. *)
Class LineBuffer (B : Type) := {
  lb_new : B;
  lb_len : B -> Z;
  lb_parse : B -> list Z -> bool -> result sfault B;
  lb_get : B -> Z -> bool -> bool -> result sfault (list Z * B);
  lb_done : B -> result sfault B
}.
#[export] Instance buf_head_lines : LineBuffer buf_head := {|
  lb_new := op_linebuf_newbuf;
  lb_len := bh_len;
  lb_parse h d raw := of_line (let! r := op_linebuf_parse h d raw in Ok (snd r));
  lb_get h n partial raw := of_line (op_linebuf_get h n partial raw);
  lb_done h := of_line (op_linebuf_donebuf h)
|}.

Record sock_list (B : Type) := {
  sock : Z; sock_flags : Z; commio_read_ready : bool; commio_write_ready : bool; recv_in_flight : bool;
  recvbuf : B; outbuf : option egg_mbuf
}.
Arguments sock {B} _. Arguments sock_flags {B} _. Arguments commio_read_ready {B} _. Arguments commio_write_ready {B} _.
Arguments recv_in_flight {B} _. Arguments recvbuf {B} _. Arguments outbuf {B} _.

(** A piece of work for the threads: the index and the descriptor when it was given to them. *)
Record async_recv_ctx := { sockidx : nat; ctx_fd : Z }.
(** What [read] or [recv] gives: bytes, and none at the end of the file, or an error, [EAGAIN] or
    another. *)
Inductive recv_out := RGot (d : list Z) | RErr (again : bool).
(** What [write] gives: a number of bytes, or an error, [EINTR] or [EAGAIN], or another. *)
Inductive write_out := WOk (n : Z) | WErr (again : bool).

Section sockets.
Context {B : Type} `{LineBuffer B}.
Abbreviation socks := (list (sock_list B)).

Definition set_flags (f : Z) (x : sock_list B) : sock_list B :=
  {| sock := sock x; sock_flags := f; commio_read_ready := commio_read_ready x; commio_write_ready := commio_write_ready x;
     recv_in_flight := recv_in_flight x; recvbuf := recvbuf x; outbuf := outbuf x |}.
Definition set_flag (f : Z) (x : sock_list B) : sock_list B := set_flags (sock_flags x ||| f) x.
Definition clear_flag (f : Z) (x : sock_list B) : sock_list B := set_flags (Z.ldiff (sock_flags x) f) x.
Definition set_read_ready (b : bool) (x : sock_list B) : sock_list B :=
  {| sock := sock x; sock_flags := sock_flags x; commio_read_ready := b; commio_write_ready := commio_write_ready x;
     recv_in_flight := recv_in_flight x; recvbuf := recvbuf x; outbuf := outbuf x |}.
Definition set_write_ready (b : bool) (x : sock_list B) : sock_list B :=
  {| sock := sock x; sock_flags := sock_flags x; commio_read_ready := commio_read_ready x; commio_write_ready := b;
     recv_in_flight := recv_in_flight x; recvbuf := recvbuf x; outbuf := outbuf x |}.
Definition set_in_flight (b : bool) (x : sock_list B) : sock_list B :=
  {| sock := sock x; sock_flags := sock_flags x; commio_read_ready := commio_read_ready x; commio_write_ready := commio_write_ready x;
     recv_in_flight := b; recvbuf := recvbuf x; outbuf := outbuf x |}.
Definition with_buf (h : B) (x : sock_list B) : sock_list B :=
  {| sock := sock x; sock_flags := sock_flags x; commio_read_ready := commio_read_ready x; commio_write_ready := commio_write_ready x;
     recv_in_flight := recv_in_flight x; recvbuf := h; outbuf := outbuf x |}.
Definition set_outbuf (o : option egg_mbuf) (x : sock_list B) : sock_list B :=
  {| sock := sock x; sock_flags := sock_flags x; commio_read_ready := commio_read_ready x; commio_write_ready := commio_write_ready x;
     recv_in_flight := recv_in_flight x; recvbuf := recvbuf x; outbuf := o |}.

Definition unused (x : sock_list B) : bool := sock_flags x &? SOCK_UNUSED.
Definition sock_is (z : Z) (x : sock_list B) : bool := negb (unused x) && (sock x =? z).
(** The first entry that [f] takes. *)
Fixpoint first_index (f : sock_list B -> bool) (l : socks) : option nat :=
  match l with [] => None | x :: l => if f x then Some O else S <$> first_index f l end.

(** ** The table *)

Definition unused_entry : sock_list B :=
  {| sock := 0; sock_flags := SOCK_UNUSED; commio_read_ready := false; commio_write_ready := false; recv_in_flight := false; recvbuf := lb_new; outbuf := None |}.
(** [increase_socks_max] of the main thread: its value, [max_socks], [max_dcc] and the table, and
    whether the variable [socklist] is set to it. *)
Definition increase_socks_max (max_socks max_dcc : Z) (l : socks) : Z * Z * Z * socks * bool :=
  let max_socks := if max_socks <? 1 then 1 else max_socks in
  let osock := Z.of_nat (length l) in
  if osock =? max_socks then (-1, max_socks, max_dcc, l, true)
  else
    let new := if max_socks <? osock + 10 then max_socks else osock + 10 in
    let l := take (Z.to_nat new) l ++ replicate (Z.to_nat (new - osock)) unused_entry in
    let max_dcc_new := new - 10 in
    if max_dcc <? max_dcc_new then (0, max_socks, max_dcc_new, l, true)
    else if max_dcc =? 0 then (0, max_socks, 1, l, true)
    else (-1, max_socks, max_dcc, l, false).

(** The loop of [allocsock], which takes the first free entry. *)
Definition free_entry (z options : Z) (l : socks) : option (nat * socks) :=
  match first_index unused l with
  | None => None
  | Some i =>
      match l !! i with
      | None => None
      | Some x =>
          let tcl := options &? SOCK_TCL in
          Some (i, <[i := {| sock := z; sock_flags := options; commio_read_ready := false; commio_write_ready := false; recv_in_flight := false;
                             recvbuf := if tcl then recvbuf x else lb_new; outbuf := if tcl then outbuf x else None |}]> l)
      end
  end.
(** [allocsock]: its value, and as for [increase_socks_max]; the second round finds an entry. *)
Fixpoint alloc_round (rounds : nat) (max_socks max_dcc z options : Z) (l : socks) : Z * Z * Z * socks * bool :=
  match free_entry z options l with
  | Some (i, l) => (Z.of_nat i, max_socks, max_dcc, l, true)
  | None =>
      let '(rc, max_socks, max_dcc, l, set) := increase_socks_max max_socks max_dcc l in
      match rounds with
      | S rounds => if rc =? 0 then alloc_round rounds max_socks max_dcc z options l else (-1, max_socks, max_dcc, l, set)
      | O => (-1, max_socks, max_dcc, l, set)
      end
  end.
Definition allocsock : Z -> Z -> Z -> Z -> socks -> Z * Z * Z * socks * bool := alloc_round 1.
Definition killsock (z : Z) (l : socks) : result sfault socks :=
  if z <? 0 then Ok l
  else
    match first_index (sock_is z) l with
    | None => Ok l
    | Some i =>
        match l !! i with
        | None => Ok l
        | Some x =>
            let! x := if sock_flags x &? SOCK_TCL then Ok x
                      else let! h := lb_done (recvbuf x) in Ok (set_outbuf None (with_buf h x)) in
            Ok (<[i := set_flags SOCK_UNUSED x]> l)
        end
    end.
Definition EGG_OPTION_SET : Z := 1.
Definition EGG_OPTION_UNSET : Z := 2.
Definition sockoptions (z operation sock_options : Z) (l : socks) : Z * socks :=
  match first_index (sock_is z) l with
  | None => (-1, l)
  | Some i =>
      if operation =? EGG_OPTION_SET then (0, alter (set_flag sock_options) i l)
      else if operation =? EGG_OPTION_UNSET then (0, alter (clear_flag sock_options) i l)
      else (-2, l)
  end.
Definition sock_has_data (outgoing : bool) (z : Z) (l : socks) : bool :=
  match first_index (sock_is z) l with
  | None => false
  | Some i => match l !! i with Some x => if outgoing then bool_decide (is_Some (outbuf x)) else 0 <? lb_len (recvbuf x) | None => false end
  end.

(** ** What the threads read *)

Definition commio_read_cb (i : nat) (l : socks) : socks := alter (fun x => if unused x then x else set_read_ready true x) i l.
Definition commio_write_cb (i : nat) (l : socks) : socks := alter (fun x => if unused x then x else set_write_ready true x) i l.

Definition RECV_SKIP_FLAGS : Z :=
  SOCK_UNUSED ||| SOCK_TCL ||| SOCK_LISTEN ||| SOCK_PASS ||| SOCK_CONNECT ||| SOCK_STRONGCONN ||| SOCK_BINARY ||| SOCK_BUFFER ||| SOCK_VIRTUAL.
Definition submits (x : sock_list B) : bool := negb (sock_flags x &? RECV_SKIP_FLAGS) && commio_read_ready x && negb (recv_in_flight x).
Definition async_recv_submit_all (l : socks) : socks * list async_recv_ctx :=
  (map (fun x => if submits x then set_in_flight true (set_read_ready false x) else x) l,
   flat_map (fun p => if submits (snd p) then [{| sockidx := fst p; ctx_fd := sock (snd p) |}] else []) (zip (seq 0 (length l)) l)).

Definition async_recv_done (c : async_recv_ctx) (r : recv_out) (l : socks) : result sfault socks :=
  match l !! sockidx c with
  | None => Ok l
  | Some x =>
      let x := set_in_flight false x in
      let! x :=
        if unused x || negb (sock x =? ctx_fd c) then Ok x
        else match r with
             | RGot [] => Ok (set_flag SOCK_EOFD x)
             | RErr true => Ok (set_read_ready true x)
             | RErr false => Ok (set_flag SOCK_EOFD x)
             | RGot d => let! h := lb_parse (recvbuf x) (take (Z.to_nat READMAX) d) false in Ok (with_buf h x)
             end in
      Ok (<[sockidx c := x]> l)
  end.

(** The table and the work that the threads have.  [op_async_drain]: what is done, in the order in
    which it was, each by its place in the list of what is left. *)
Record nstate := { socklist : socks; jobs : list async_recv_ctx }.
Fixpoint op_async_drain (done : list (nat * recv_out)) (s : nstate) : result sfault nstate :=
  match done with
  | [] => Ok s
  | (k, r) :: done =>
      match jobs s !! k with
      | None => op_async_drain done s
      | Some c => let! l := async_recv_done c r (socklist s) in op_async_drain done {| socklist := l; jobs := delete k (jobs s) |}
      end
  end.

(** ** Reading *)

(** What a call of [sockread] finds: whether [op_select] fails, and otherwise if it reports
    anything, the sockets that are readable, and the work that ends while it waits; the Tcl
    sockets with events; if the terminal is in the set; whether there are threads, and what they
    have done before [op_async_drain]; and what [read] gives at an index. *)
Record os_env := {
  e_failed : bool; e_events : bool; e_readable : list nat; e_notified : list (nat * recv_out);
  e_tcl : nat -> bool; e_stdin : bool; e_async : bool; e_drained : list (nat * recv_out); e_read : nat -> recv_out
}.

(** The loop: the value, what is read and the length. *)
Fixpoint sockread_loop (backgrd : bool) (e : os_env) (n i : nat) (grab : Z) (tclsock : bool) (l : socks) : Z * list Z * Z * socks :=
  match n, l !! i with
  | S n, Some x =>
      let fl := sock_flags x in
      if negb (fl &? (SOCK_UNUSED ||| SOCK_TCL)) && negb (recv_in_flight x) && (commio_read_ready x || (sock x =? STDOUT) && negb backgrd && e_stdin e)
      then
        let x := set_read_ready false x in
        let put y := <[i := y]> l in
        let wait := fl &? (SOCK_LISTEN ||| SOCK_CONNECT) in
        if (wait && negb (fl &? SOCK_PROXYWAIT) && negb (fl &? SOCK_STRONGCONN)) || (negb wait && (fl &? SOCK_PASS))
        then (Z.of_nat i, [], 0, put x)
        else
          let grab := if wait && (fl &? SOCK_PROXYWAIT) then 10 else grab in
          match e_read e i with
          | RErr true => sockread_loop backgrd e n (S i) grab tclsock (put x)
          | RErr false | RGot [] => (-1, [], sock x, put (clear_flag SOCK_CONNECT x))
          | RGot d =>
              let s := take (Z.to_nat grab) d in
              if fl &? SOCK_PROXYWAIT then
                let x := clear_flag (SOCK_CONNECT ||| SOCK_PROXYWAIT) x in
                if nth 1 s 0 =? 90 then (Z.of_nat i, [], 0, put x) else (-1, [], sock x, put x)
              else (Z.of_nat i, s, Z.of_nat (length s), put x)
          end
      else sockread_loop backgrd e n (S i) grab (tclsock || (fl &? SOCK_TCL) && e_tcl e i) l
  | _, _ => (if tclsock then -5 else -3, [], 0, l)
  end.

Definition tcl_ready (e : os_env) (l : socks) : bool :=
  existsb (fun p => negb (unused (snd p)) && (sock_flags (snd p) &? SOCK_TCL) && e_tcl e (fst p)) (zip (seq 0 (length l)) l).
Definition sockread (backgrd : bool) (e : os_env) (s : nstate) : result sfault (Z * list Z * Z * nstate) :=
  if e_failed e then Ok (-2, [], 0, s)
  else
    let! s := op_async_drain (e_notified e) {| socklist := fold_right commio_read_cb (socklist s) (e_readable e); jobs := jobs s |} in
    let pending := existsb (fun x => negb (sock_flags x &? (SOCK_UNUSED ||| SOCK_TCL)) && commio_read_ready x) (socklist s) in
    if negb (e_events e || tcl_ready e (socklist s) || pending) then Ok (-3, [], 0, s)
    else
      let s := if e_async e then let '(l, js) := async_recv_submit_all (socklist s) in {| socklist := l; jobs := jobs s ++ js |} else s in
      let! s := op_async_drain (e_drained e) s in
      let '(r, d, len, l) := sockread_loop backgrd e (length (socklist s)) O READMAX false (socklist s) in
      Ok (r, d, len, {| socklist := l; jobs := jobs s |}).

(** The sockets that have something pending. *)
Fixpoint pending_loop (n i : nat) (l : socks) : result sfault (option (Z * list Z * Z) * socks) :=
  match n, l !! i with
  | S n, Some x =>
      if sock_flags x &? (SOCK_UNUSED ||| SOCK_TCL ||| SOCK_BUFFER) then pending_loop n (S i) l
      else
        let bin := sock_flags x &? SOCK_BINARY in
        let! (s, h) := if 0 <? lb_len (recvbuf x) then lb_get (recvbuf x) (READMAX + 1) bin bin else Ok ([], recvbuf x) in
        let l := <[i := with_buf h x]> l in
        match s with
        | _ :: _ => Ok (Some (sock x, s, Z.of_nat (length s)), l)
        | [] => if sock_flags x &? SOCK_EOFD then Ok (Some (-1, [], sock x), l) else pending_loop n (S i) l
        end
  | _, _ => Ok (None, l)
  end.

(** What [sockgets] does with [xx], [len] bytes, that were read at the entry [x]: its value, the text,
    the length, and the entry. *)
Definition got_at (x : sock_list B) (xx : list Z) (len : Z) : result sfault (Z * list Z * Z * sock_list B) :=
  if (sock_flags x &? SOCK_BINARY) && (0 <? len) then Ok (sock x, xx, len, clear_flag SOCK_CONNECT x)
  else if sock_flags x &? SOCK_CONNECT then
    let! x := if sock_flags x &? SOCK_STRONGCONN
              then let! h := if 0 <? len then lb_parse (recvbuf x) xx true else Ok (recvbuf x) in Ok (with_buf h (clear_flag SOCK_STRONGCONN x))
              else Ok x in
    Ok (sock x, [], len, clear_flag SOCK_CONNECT x)
  else if sock_flags x &? (SOCK_LISTEN ||| SOCK_PASS ||| SOCK_TCL) then Ok (sock x, [], len, x)
  else if sock_flags x &? SOCK_BUFFER then
    let! h := lb_parse (recvbuf x) xx true in Ok (-4, [], len, with_buf h x)
  else
    let! h := lb_parse (recvbuf x) xx false in
    let! (s, h) := lb_get h (READMAX + 1) false false in
    match s with
    | _ :: _ => Ok (sock x, s, Z.of_nat (length s), with_buf h x)
    | [] =>
        let! (s, h) := if READMAX <=? lb_len h then lb_get h (READMAX + 1) true false else Ok ([], h) in
        match s with
        | _ :: _ => Ok (sock x, s, Z.of_nat (length s), with_buf h x)
        | [] => Ok (-3, [], 0, with_buf h x)
        end
    end.

Definition sockgets (backgrd : bool) (e : os_env) (s : nstate) : result sfault (Z * list Z * Z * nstate) :=
  let! (r, l) := pending_loop (length (socklist s)) O (socklist s) in
  let s := {| socklist := l; jobs := jobs s |} in
  match r with
  | Some (r, t, len) => Ok (r, t, len, s)
  | None =>
      let! (ret, xx, len, s) := sockread backgrd e s in
      if ret <? 0 then Ok (ret, [], len, s)
      else
        match socklist s !! Z.to_nat ret with
        | None => Err SOutside
        | Some x => let! (r, t, len, x) := got_at x xx len in Ok (r, t, len, {| socklist := <[Z.to_nat ret := x]> (socklist s); jobs := jobs s |})
        end
  end.

(** [flush_inbuf]: all that is pending, in one piece. *)
Fixpoint drain_loop (fuel : nat) (h : B) (total off : Z) (inbuf : list Z) : result sfault (list Z * B) :=
  match fuel with
  | O => Ok (inbuf, h)
  | S fuel =>
      let! (s, h) := lb_get h (u64 (total - off + 1)) true true in
      match s with [] => Ok (inbuf, h) | _ => drain_loop fuel h total (off + Z.of_nat (length s)) (inbuf ++ s) end
  end.
Definition flush_inbuf (activity : bool) (z : Z) (l : socks) : result sfault (Z * list Z * socks) :=
  match first_index (sock_is z) l with
  | None => Ok (-1, [], l)
  | Some i =>
      match l !! i with
      | None => Ok (-1, [], l)
      | Some x =>
          let total := lb_len (recvbuf x) in
          if 0 <? total then
            if activity then
              let! (s, h) := drain_loop (S (Z.to_nat total)) (recvbuf x) total 0 [] in Ok (Z.of_nat (length s), s, <[i := with_buf h x]> l)
            else Ok (-2, [], l)
          else Ok (0, [], l)
      end
  end.

(** ** Writing *)

(** [safe_write] over what [write] gives: the bytes that it writes. *)
Fixpoint safe_write (os : list write_out) (s : list Z) (off count : Z) : result sfault (list Z) :=
  match os with
  | [] => Ok []
  | o :: os =>
      let! d := of_ring (slice s off count) in
      match o with
      | WErr false => Ok []
      | _ =>
          let ret := match o with WOk n => n | WErr _ => -1 end in
          let count' := u64 (count - ret) in
          let! rest := if count' =? 0 then Ok [] else safe_write os s (off + ret) count' in
          Ok (take (Z.to_nat ret) d ++ rest)
      end
  end.

(** The counter that the type of the connection chooses, by its name. *)
Inductive traffic_ctr := otraffic_bn_today | otraffic_irc_today | otraffic_trans_today | otraffic_dcc_today | otraffic_filesys_today | otraffic_unknown_today.
Definition traffic_of (name : list Z) : traffic_ctr :=
  let c := nth 0 name 0 in
  if c =? ch "B" then otraffic_bn_today
  else if c =? ch "S" then (if nth 1 name 0 =? ch "E" then otraffic_irc_today else otraffic_trans_today)
  else if c =? ch "C" then otraffic_dcc_today
  else if c =? ch "F" then (if nth 1 name 0 =? ch "I" then otraffic_filesys_today else otraffic_trans_today)
  else if c =? ch "G" then otraffic_trans_today
  else otraffic_unknown_today.

(** [tputs] of [s] to the socket [z], where [terminal] is [!backgrd || use_stderr], [os] what the
    calls of [write] for the terminal give, [name] the type of the connection of the socket, if it
    has one, and [x] what [write] returns: what is written, what is counted, and the table. *)
Definition tputs (terminal : bool) (os : list write_out) (name : option (list Z)) (x : Z) (z : Z) (s : list Z) (l : socks) : result sfault (list Z * option (traffic_ctr * Z) * socks) :=
  let len := Z.of_nat (length s) in
  if z <? 0 then Ok ([], None, l)
  else if ((z =? STDOUT) || (z =? STDERR)) && terminal then let! d := safe_write os s 0 len in Ok (d, None, l)
  else
    match first_index (sock_is z) l with
    | None => Ok ([], None, l)
    | Some i =>
        match l !! i with
        | None => Ok ([], None, l)
        | Some y =>
            let ctr := name ≫= fun n => Some (traffic_of n, len) in
            match outbuf y with
            | Some mb => let! (_, mb) := of_ring (egg_mbuf_append_grow mb s) in Ok ([], ctr, <[i := set_outbuf (Some mb) y]> l)
            | None =>
                let x := if x =? -1 then 0 else x in
                let wrote := take (Z.to_nat x) s in
                if x <? len then
                  let rem := len - x in
                  match egg_mbuf_alloc (if rem <? 512 then 512 else rem) with
                  | None => Ok (wrote, ctr, <[i := set_outbuf None y]> l)
                  | Some mb => let! (_, mb) := of_ring (egg_mbuf_append mb (drop (Z.to_nat x) s)) in Ok (wrote, ctr, <[i := set_outbuf (Some mb) y]> l)
                  end
                else Ok (wrote, ctr, l)
            end
        end
    end.

(** The entries of the first loop of [dequeue_sockets] that are armed. *)
Definition arms (has_fde : Z -> bool) (x : sock_list B) : bool :=
  negb (sock_flags x &? (SOCK_UNUSED ||| SOCK_TCL)) && bool_decide (is_Some (outbuf x)) && has_fde (sock x).
(** One entry of its last loop, where [w] is what [write] or [writev] gives: what is written, whether
    nothing is left, and the entry. *)
Definition dequeue_one (w : write_out) (x : sock_list B) : result sfault (list Z * bool * sock_list B) :=
  match outbuf x with
  | Some mb =>
      if negb (sock_flags x &? (SOCK_UNUSED ||| SOCK_TCL)) && commio_write_ready x then
        let x := set_write_ready false x in
        let! (p1, p2) := of_ring (egg_mbuf_peek2 mb) in
        match w with
        | WErr false => Ok ([], false, set_flag SOCK_EOFD x)
        | WErr true => Ok ([], false, x)
        | WOk n =>
            if 0 <? n then
              let mb := egg_mbuf_consume mb n in
              let wrote := take (Z.to_nat n) (p1 ++ p2) in
              if mb_len mb =? 0 then Ok (wrote, true, set_outbuf None x) else Ok (wrote, false, set_outbuf (Some mb) x)
            else Ok ([], false, x)
        end
      else Ok ([], false, x)
  | None => Ok ([], false, x)
  end.
(** All of them: what is written, with its sockets, and for which [outdone] is called, where [idx]
    gives the index of the connection of a socket, and the table. *)
Fixpoint dequeue_loop (idx : Z -> Z) (ws : list write_out) (l : socks) : result sfault (list (Z * list Z) * list Z * socks) :=
  match l with
  | [] => Ok ([], [], [])
  | x :: l =>
      let! (d, done, x) := dequeue_one (match ws with w :: _ => w | [] => WErr true end) x in
      let! (wire, dones, l) := dequeue_loop idx (tail ws) l in
      Ok ((sock x, d) :: wire, (if done && (0 <? idx (sock x)) then [sock x] else []) ++ dones, x :: l)
  end.
(** [writable] and [readable] are the entries that [op_select] reports, [notified] the work that
    ends meanwhile. *)
Definition dequeue_sockets (has_fde : Z -> bool) (idx : Z -> Z) (writable readable : list nat) (notified : list (nat * recv_out)) (ws : list write_out) (s : nstate) :
  result sfault (list (Z * list Z) * list Z * nstate) :=
  let l := map (fun x => if arms has_fde x then set_write_ready false x else x) (socklist s) in
  let! s := if existsb (arms has_fde) l
            then op_async_drain notified {| socklist := fold_right commio_read_cb (fold_right commio_write_cb l writable) readable; jobs := jobs s |}
            else Ok {| socklist := l; jobs := jobs s |} in
  let! (wire, dones, l) := dequeue_loop idx ws (socklist s) in
  Ok (wire, dones, {| socklist := l; jobs := jobs s |}).
End sockets.
Arguments nstate B : clear implicits.
