(* ===== verification/SocketsIn.v ===== *)
(** * What [sockgets] returns, with streams in place of buffers

    The functions that read are the same with any buffers of lines; with those of the code they do
    what they do with streams of bytes, cut into lines. *)

From S2P Require Import Prelude Linebuf Mbuf Sockets.
From stdpp Require Import list.
#[local] Open Scope Z_scope.
Create HintDb sim.

(** ** Results that agree *)

(** Where the specification has a result, the program has one, and [P] relates them. *)
Definition rsim {E A A'} (P : A -> A' -> Prop) (c : result E A) (a : result E A') : Prop := forall y, a = Ok y -> exists x, c = Ok x /\ P x y.

Lemma rsim_ok {E A A'} (P : A -> A' -> Prop) x y : P x y -> rsim (E := E) P (Ok x) (Ok y).
Proof. intros H z [= <-]. by exists x. Qed.
Lemma rsim_bind {E A A' C C'} (P : A -> A' -> Prop) (Q : C -> C' -> Prop) c a (f : A -> result E C) (g : A' -> result E C') :
  rsim P c a -> (forall x y, P x y -> rsim Q (f x) (g y)) -> rsim Q (let! x := c in f x) (let! y := a in g y).
Proof. intros Hc Hf z Hz. apply rbind_Ok_inv in Hz as (y & Hy & Hz). destruct (Hc y Hy) as (x & -> & Hp). by apply (Hf x y). Qed.

(** Buffers that do what others do. *)
Class Simulates {B A} `{LineBuffer B} `{LineBuffer A} (R : B -> A -> Prop) := {
  sim_len h a : R h a -> lb_len h = lb_len a;
  sim_parse h a d raw : R h a -> rsim R (lb_parse h d raw) (lb_parse a d raw);
  sim_get h a n partial raw : R h a -> rsim (fun x y => fst x = fst y /\ R (snd x) (snd y)) (lb_get h n partial raw) (lb_get a n partial raw)
}.

Section sim.
Context {B A : Type} `{LineBuffer B} `{LineBuffer A} (R : B -> A -> Prop) `{!Simulates R}.

Record entry_rel (x : sock_list B) (y : sock_list A) : Prop := {
  er_sock : sock x = sock y; er_flags : sock_flags x = sock_flags y;
  er_read : commio_read_ready x = commio_read_ready y; er_write : commio_write_ready x = commio_write_ready y;
  er_flight : recv_in_flight x = recv_in_flight y; er_buf : R (recvbuf x) (recvbuf y); er_out : outbuf x = outbuf y
}.
Definition socks_rel := Forall2 entry_rel.
Definition net_rel (s : nstate B) (t : nstate A) : Prop := socks_rel (socklist s) (socklist t) /\ jobs s = jobs t.
(** Values that are equal, and tables that are related. *)
Definition out_rel {X Y Z} (P : Y -> Z -> Prop) (x : X * Y) (y : X * Z) : Prop := fst x = fst y /\ P (snd x) (snd y).

Ltac er := intros []; split; cbn; congruence.
Lemma er_unused x y : entry_rel x y -> unused x = unused y.
Proof. intros []. unfold unused. congruence. Qed.
Lemma er_set_flags f x y : entry_rel x y -> entry_rel (set_flags f x) (set_flags f y).
Proof. er. Qed.
Lemma er_set_flag f x y : entry_rel x y -> entry_rel (set_flag f x) (set_flag f y).
Proof. intros Hxy. unfold set_flag. rewrite (er_flags _ _ Hxy). by apply er_set_flags. Qed.
Lemma er_clear_flag f x y : entry_rel x y -> entry_rel (clear_flag f x) (clear_flag f y).
Proof. intros Hxy. unfold clear_flag. rewrite (er_flags _ _ Hxy). by apply er_set_flags. Qed.
Lemma er_set_read b x y : entry_rel x y -> entry_rel (set_read_ready b x) (set_read_ready b y).
Proof. er. Qed.
Lemma er_set_flight b x y : entry_rel x y -> entry_rel (set_in_flight b x) (set_in_flight b y).
Proof. er. Qed.
Lemma er_with_buf h a x y : R h a -> entry_rel x y -> entry_rel (with_buf h x) (with_buf a y).
Proof. intros Ha. er. Qed.
#[local] Hint Resolve er_set_flags er_set_flag er_clear_flag er_set_read er_set_flight er_with_buf rsim_ok : sim.

(** An entry of the one table is there in the other. *)
Lemma rel_lookup l m i : socks_rel l m -> match l !! i, m !! i with Some x, Some y => entry_rel x y | None, None => True | _, _ => False end.
Proof. intros Hl. unfold socks_rel in Hl. rewrite Forall2_lookup in Hl. specialize (Hl i). by destruct Hl. Qed.
Lemma rel_insert l m i x y : socks_rel l m -> entry_rel x y -> socks_rel (<[i := x]> l) (<[i := y]> m).
Proof. intros. by apply Forall2_insert. Qed.
Lemma rel_length l m : socks_rel l m -> length l = length m.
Proof. apply Forall2_length. Qed.
#[local] Hint Resolve rel_insert : sim.

(** ** The threads *)

Lemma read_cb_rel js l m : socks_rel l m -> socks_rel (fold_right commio_read_cb l js) (fold_right commio_read_cb m js).
Proof.
  intros Hl. induction js as [|j js IH]; [done|]. cbn. unfold commio_read_cb. apply Forall2_alter; [done|]. intros x y _ _ Hxy.
  rewrite (er_unused x y Hxy). case_if; auto with sim.
Qed.

Lemma submit_rel l m : socks_rel l m -> socks_rel (fst (async_recv_submit_all l)) (fst (async_recv_submit_all m)) /\
  snd (async_recv_submit_all l) = snd (async_recv_submit_all m).
Proof.
  intros Hl. assert (Hs : forall x y, entry_rel x y -> submits x = submits y) by (intros x y []; unfold submits; congruence). unfold async_recv_submit_all. cbn [fst snd]. split.
  - induction Hl as [|x y l m Hxy _ IH]; constructor; [|done]. rewrite (Hs x y Hxy). case_if; auto with sim.
  - rewrite (rel_length _ _ Hl). generalize (seq 0 (length m)). induction Hl as [|x y l m Hxy _ IH]; intros [|k ks]; [done..|]. cbn.
    rewrite (Hs x y Hxy), (er_sock _ _ Hxy). f_equal. apply IH.
Qed.

Lemma done_rel c r l m : socks_rel l m -> rsim socks_rel (async_recv_done c r l) (async_recv_done c r m).
Proof.
  intros Hl. unfold async_recv_done. pose proof (rel_lookup l m (sockidx c) Hl) as Hi.
  destruct (l !! sockidx c) as [x|], (m !! sockidx c) as [y|]; try done; [|by apply rsim_ok]. cbv zeta.
  assert (Hxy : entry_rel (set_in_flight false x) (set_in_flight false y)) by auto with sim. revert Hxy.
  generalize (set_in_flight false x) (set_in_flight false y). clear x y Hi. intros x y Hxy.
  eapply (rsim_bind entry_rel); [|intros; auto with sim].
  rewrite (er_unused x y Hxy), (er_sock x y Hxy). case_if; [auto with sim|]. destruct r as [[|b d]|[]]; [auto with sim| |auto with sim..].
  eapply rsim_bind; [apply sim_parse, er_buf, Hxy|]. auto with sim.
Qed.

Lemma drain_rel fin : forall s t, net_rel s t -> rsim net_rel (op_async_drain fin s) (op_async_drain fin t).
Proof.
  induction fin as [|[k r] fin IH]; intros s t Hst; [by apply rsim_ok|]. cbn [op_async_drain]. destruct Hst as [Hl Hj]. rewrite <- Hj.
  destruct (jobs s !! k) as [c|]; [|by apply IH]. eapply rsim_bind; [by apply done_rel|]. intros l m Hlm. by apply IH.
Qed.

(** ** [sockread] *)

Lemma sockread_loop_rel backgrd e n : forall i grab tclsock l m, socks_rel l m ->
  out_rel socks_rel (sockread_loop backgrd e n i grab tclsock l) (sockread_loop backgrd e n i grab tclsock m).
Proof.
  induction n as [|n IH]; intros i grab tclsock l m Hl; [by split|]. cbn [sockread_loop]. pose proof (rel_lookup l m i Hl) as Hi.
  destruct (l !! i) as [x|], (m !! i) as [y|]; try done. pose proof Hi as [E1 E2 E3 _ E5 _ _]. rewrite E1, E2, E3, E5. cbv zeta.
  case_if; [|by apply IH]. case_if; [split; [cbn; congruence|]; cbn; auto 6 with sim|]. destruct (e_read e i) as [[|b d]|[]].
  - split; [cbn; congruence|]. cbn. auto 6 with sim.
  - case_if; [case_if|]; (split; [cbn; congruence|]; cbn; auto 6 with sim).
  - apply IH. auto with sim.
  - split; [cbn; congruence|]. cbn. auto 6 with sim.
Qed.

Lemma sockread_rel backgrd e s t : net_rel s t -> rsim (out_rel net_rel) (sockread backgrd e s) (sockread backgrd e t).
Proof.
  intros [Hl Hj]. unfold sockread. case_if; [by apply rsim_ok|]. eapply (rsim_bind net_rel).
  { apply drain_rel. split; [by apply read_cb_rel|done]. }
  clear s t Hl Hj. intros s t [Hl Hj]. assert (E1 : tcl_ready e (socklist s) = tcl_ready e (socklist t)).
  { unfold tcl_ready. rewrite (rel_length _ _ Hl). generalize (seq 0 (length (socklist t))). clear -Hl. induction Hl as [|x y l m Hxy _ IH]; intros [|k ks]; [done..|]. cbn.
    rewrite (er_unused x y Hxy), (er_flags x y Hxy). f_equal. apply IH. }
  assert (E2 : forall l m, socks_rel l m -> existsb (fun x => negb (sock_flags x &? (SOCK_UNUSED ||| SOCK_TCL)) && commio_read_ready x) l =
    existsb (fun x => negb (sock_flags x &? (SOCK_UNUSED ||| SOCK_TCL)) && commio_read_ready x) m).
  { clear. induction 1 as [|x y l m Hxy _ IH]; [done|]. cbn. by rewrite (er_flags x y Hxy), (er_read x y Hxy), IH. }
  rewrite E1, (E2 _ _ Hl). case_if; [by apply rsim_ok|]. eapply (rsim_bind net_rel).
  - apply drain_rel. case_if; [|done]. destruct (submit_rel _ _ Hl) as [H1 H2]. destruct (async_recv_submit_all (socklist s)), (async_recv_submit_all (socklist t)).
    cbn in *. split; [done|]. cbn. congruence.
  - clear -R. intros s t [Hl Hj]. rewrite (rel_length _ _ Hl). destruct (sockread_loop_rel backgrd e (length (socklist t)) 0 READMAX false _ _ Hl) as [H1 H2].
    destruct (sockread_loop _ _ _ _ _ _ (socklist s)) as [[[r d] len] l], (sockread_loop _ _ _ _ _ _ (socklist t)) as [[[r' d'] len'] l']. cbn in *. injection H1 as -> -> ->.
    apply rsim_ok. split; [done|]. by split.
Qed.

(** ** [sockgets] *)

Lemma pending_rel n : forall i l m, socks_rel l m -> rsim (out_rel socks_rel) (pending_loop n i l) (pending_loop n i m).
Proof.
  induction n as [|n IH]; intros i l m Hl; [by apply rsim_ok|]. cbn [pending_loop]. pose proof (rel_lookup l m i Hl) as Hi.
  destruct (l !! i) as [x|], (m !! i) as [y|]; try done; [|by apply rsim_ok]. rewrite (er_flags x y Hi), (er_sock x y Hi). case_if; [by apply IH|].
  rewrite (sim_len _ _ (er_buf x y Hi)). cbv zeta. eapply (rsim_bind (out_rel R)).
  - case_if; [apply sim_get, er_buf, Hi|]. apply rsim_ok. split; [done|]. apply Hi.
  - intros [s h] [s' h'] [Es Hh]. cbn in Es, Hh. subst s'. assert (Hlm : socks_rel (<[i := with_buf h x]> l) (<[i := with_buf h' y]> m)) by auto with sim.
    destruct s; [|by apply rsim_ok]. case_if; [by apply rsim_ok|by apply IH].
Qed.

Lemma got_at_rel x y xx len : entry_rel x y -> rsim (out_rel entry_rel) (got_at x xx len) (got_at y xx len).
Proof.
  intros Hxy. assert (Hok : forall v x y, entry_rel x y -> rsim (E := sfault) (out_rel entry_rel) (Ok (v : Z * list Z * Z, x)) (Ok (v, y))) by (intros; by apply rsim_ok).
  unfold got_at. rewrite (er_flags x y Hxy), (er_sock x y Hxy). case_if; [auto with sim|]. case_if.
  { eapply (rsim_bind entry_rel); [|intros x1 y1 Hxy1; rewrite (er_sock _ _ Hxy1); auto with sim]. case_if; [|auto with sim].
    eapply (rsim_bind R); [case_if; [apply sim_parse|apply rsim_ok]; apply Hxy|]. auto 6 with sim. }
  case_if; [auto with sim|]. case_if; (eapply rsim_bind; [apply sim_parse, er_buf, Hxy|]; intros h a Ha); [auto with sim|].
  eapply (rsim_bind (out_rel R)); [by apply sim_get|]. intros [s h1] [s1 a1] [Es Ha1]. cbn in Es, Ha1. subst s1. destruct s; [|auto with sim].
  rewrite (sim_len _ _ Ha1). eapply (rsim_bind (out_rel R)); [case_if; [by apply sim_get|by apply rsim_ok]|].
  intros [s h2] [s2 a2] [Es Ha2]. cbn in Es, Ha2. subst s2. destruct s; auto with sim.
Qed.

Lemma sockgets_rel backgrd e s t : net_rel s t -> rsim (out_rel net_rel) (sockgets backgrd e s) (sockgets backgrd e t).
Proof.
  intros [Hl Hj]. unfold sockgets. rewrite (rel_length _ _ Hl). eapply rsim_bind; [by apply pending_rel|]. intros [r l] [r' m] [Es Hlm]. cbn in Es, Hlm. subst r'.
  assert (Hn : net_rel {| socklist := l; jobs := jobs s |} {| socklist := m; jobs := jobs t |}) by (by split).
  destruct r as [[[r d] len]|]; [by apply rsim_ok|]. eapply rsim_bind; [by apply sockread_rel|]. clear -R Simulates0.
  intros [[[ret xx] len] s] [[[ret' xx'] len'] t] [Es [Hl Hj]]. cbn in Es, Hl, Hj. injection Es as <- <- <-. case_if; [by apply rsim_ok|].
  pose proof (rel_lookup _ _ (Z.to_nat ret) Hl) as Hi. destruct (socklist s !! Z.to_nat ret) as [x|], (socklist t !! Z.to_nat ret) as [y|]; try done.
  eapply rsim_bind; [by apply got_at_rel|]. intros [[[r d] len1] x1] [[[r' d'] len1'] y1] [Es Hxy]. cbn in Es, Hxy. injection Es as <- <- <-.
  apply rsim_ok. split; [done|]. split; [|done]. cbn. auto with sim.
Qed.
End sim.
