(* ===== verification/SocketsProps.v ===== *)
(** * Lines from sockets

    Streams of bytes as buffers of lines, and what follows for [sockgets]: the lines that it
    returns are those of the streams, none that waits is left behind, and at any time at most
    one thread reads from a socket. *)

From S2P Require Import Prelude Linebuf Mbuf Sockets SocketsIn.
From stdpp Require Import list.
#[local] Open Scope Z_scope.

(** ** Streams *)

(** The complete lines that wait, the beginning of the next one, and the length of the line with
    its end, as [counted] has it. *)
Record stream_buf := { st_q : list (list Z); st_cur : list Z; st_cnt : Z * bool }.
Definition st_bytes (st : stream_buf) : Z := Z.of_nat (length (concat (st_q st)) + length (st_cur st)).
Fixpoint fitsb (st : Z * bool) (d : list Z) : bool :=
  match d with [] => true | c :: d => (fst (count st c) <=? LINEBUF_SIZE) && fitsb (count st c) d end.
Lemma fitsb_fits d : forall st, fitsb st d = true <-> fits st d.
Proof. induction d as [|c d IH]; intros st; [done|]. cbn [fitsb fits]. by rewrite andb_true_iff, Z.leb_le, IH. Qed.

(** A line that is too long, and input that is to keep its line ends, are not in the
    specification. *)
#[export] Instance stream_lines : LineBuffer stream_buf := {|
  lb_new := {| st_q := []; st_cur := []; st_cnt := (0, false) |};
  lb_len := st_bytes;
  lb_parse st d raw :=
    if raw || negb (fitsb (st_cnt st) d) || (2 ^ 64 <=? st_bytes st + Z.of_nat (length d)) then Err SOutside
    else let '(q, cur) := feed (st_q st, st_cur st) d in Ok {| st_q := q; st_cur := cur; st_cnt := counted (st_cnt st) d |};
  lb_get st n partial _ :=
    if n <=? 1 then Err SOutside
    else
      let cut := take (Z.to_nat (n - 1)) in
      match st_q st with
      | x :: q => Ok (cut x, {| st_q := q; st_cur := st_cur st; st_cnt := st_cnt st |})
      | [] => Ok (if partial then (cut (st_cur st), {| st_q := []; st_cur := []; st_cnt := st_cnt st |}) else ([], st))
      end;
  lb_done _ := Ok {| st_q := []; st_cur := []; st_cnt := (0, false) |}
|}.

(** Lines that are not empty and fit. *)
Definition short (y : list Z) : Prop := Z.of_nat (length y) <= LINEBUF_SIZE.
Record st_good (st : stream_buf) : Prop := {
  sg_lines : Forall (fun y => y <> [] /\ short y) (st_q st);
  sg_cur : short (st_cur st);
  sg_room : room (fst (st_cnt st)) (snd (st_cnt st)) (st_cur st)
}.
(** A buffer holds what a stream has. *)
Definition holds (h : buf_head) (st : stream_buf) : Prop :=
  (exists full, rep h full (st_cur st) /\ nonempty full = st_q st) /\ st_good st /\ st_bytes st < 2 ^ 64.

Lemma holds_new : holds lb_new lb_new.
Proof. split; [by exists []|]. split; [|done]. split; [done|done|by split]. Qed.

Lemma feed_short d : forall q cur n run, room n run cur -> fits (n, run) d -> Forall (fun y => y <> [] /\ short y) q -> short cur ->
  Forall (fun y => y <> [] /\ short y) (fst (feed (q, cur) d)) /\ short (snd (feed (q, cur) d)) /\
  room (fst (counted (n, run) d)) (snd (counted (n, run) d)) (snd (feed (q, cur) d)).
Proof.
  induction d as [|c d IH]; intros q cur n run [Hn Hr] Hf Hq Hcur; [done|]. rewrite feed_cons, counted_cons. cbn [fits] in Hf. destruct Hf as [Hc Hf].
  destruct (crlf c) eqn:Ec.
  - rewrite feed1_end by done. rewrite count_end in * by done. apply (IH _ _ (n + 1) true); [split; [lia|done]|done| |done].
    destruct cur as [|c' cur]; [done|]. cbn [snoc]. apply Forall_app. split; [done|]. by constructor.
  - rewrite feed1_text by done. rewrite count_text in * by done. cbn [fst] in Hc.
    assert (Hl : Z.of_nat (length (cur ++ [c])) <= (if run then 0 else n) + 1) by (rewrite length_app; destruct run; subst; cbn [length] in *; lia).
    apply (IH _ _ ((if run then 0 else n) + 1) false); [|done|done|unfold short; lia]. split; [destruct run; lia|done].
Qed.
Lemma parse_good st d raw st' : st_good st -> lb_parse st d raw = Ok st' -> st_good st'.
Proof.
  intros [H1 H2 H3] E. cbn in E. destruct (raw || negb _ || _) eqn:Ec; [done|]. bool_lia. destruct (st_cnt st) as [n run]. cbn [fst snd] in H3.
  destruct (feed_short d (st_q st) (st_cur st) n run H3) as (G1 & G2 & G3); [by apply fitsb_fits|done|done|]. destruct (feed (st_q st, st_cur st) d) as [q cur].
  injection E as <-. by split.
Qed.
Lemma get_good st n partial raw y st' : st_good st -> lb_get st n partial raw = Ok (y, st') -> st_good st'.
Proof.
  intros [H1 H2 H3] E. cbn in E. destruct (n <=? 1); [done|]. destruct (st_q st) as [|x q] eqn:Eq.
  - destruct partial; injection E as <- <-; [|split; by rewrite ?Eq]. split; [done|done|]. cbn. destruct H3 as [H3 H4]. split; [done|]. destruct (snd (st_cnt st)); [done|]. cbn. lia.
  - apply Forall_cons in H1 as [_ H1]. injection E as <- <-. by split.
Qed.

Lemma nonempty_bytes f part : bytes f part = Z.of_nat (length (concat (nonempty f)) + length part).
Proof.
  unfold bytes. do 2 f_equal. induction f as [|y f IH]; [done|]. cbn. rewrite length_app, IH. destruct y; [done|]. cbn. by rewrite length_app.
Qed.
Lemma feed_bytes d : forall q cur, (length (concat (fst (feed (q, cur) d))) + length (snd (feed (q, cur) d)) <= length (concat q) + length cur + length d)%nat.
Proof.
  induction d as [|c d IH]; intros q cur; [cbn; lia|]. rewrite feed_cons. destruct (crlf c) eqn:Ec.
  - rewrite feed1_end by done. etransitivity; [apply IH|]. destruct cur; cbn [snoc]; [cbn; lia|]. rewrite concat_app, length_app. cbn. rewrite app_nil_r. cbn. lia.
  - rewrite feed1_text by done. etransitivity; [apply IH|]. rewrite length_app. cbn. lia.
Qed.

(** [raw] makes no difference for lines without their ends. *)
Definition cooked (h : buf_head) : Prop := Forall (fun o => match o with Some l => bl_raw l = false | None => True end) (bh_lines h).
Lemma rep_cooked h full part : rep h full part -> cooked h.
Proof.
  intros Hh. unfold cooked. rewrite (rep_lines _ _ _ Hh). apply Forall_app. split; [apply Forall_forall; by intros o ->%list_elem_of_In%repeat_spec|].
  unfold live. rewrite map_app. apply Forall_app. split; [|by destruct part; repeat constructor]. apply Forall_forall. intros o Ho.
  apply list_elem_of_In, in_map_iff in Ho as (l & <- & Hl). apply in_map_iff in Hl as (y & <- & _). done.
Qed.
Lemma get_loop_raw fuel : forall h n partial raw, cooked h -> get_loop fuel h n partial raw = get_loop fuel h n partial false.
Proof.
  induction fuel as [|fuel IH]; intros h n partial raw Hh; [done|]. cbn [get_loop]. case_if; [done|]. unfold line_at.
  destruct (bh_lines h !! bh_head h) as [[l|]|] eqn:El; [|done..]. cbn [rbind]. pose proof (Forall_lookup_1 _ _ _ _ Hh El) as Hl. cbn in Hl. rewrite Hl. cbn [andb].
  do 2 (case_if; [done|]). destruct (take _ _); [|done]. apply IH. unfold cooked, op_linebuf_done_line. cbn [bh_lines]. case_if; [constructor|]. by apply Forall_insert.
Qed.

#[export] Instance streams_simulate : Simulates holds.
Proof.
  split.
  - intros h st ((full & Hh & Eq) & _ & Hb). cbn. rewrite (rep_len _ _ _ Hh), nonempty_bytes, Eq. apply Z.mod_small. unfold st_bytes in *. lia.
  - intros h st d raw ((full & Hh & Eq) & Hg & Hb) st' E. pose proof (parse_good st d raw st' Hg E) as Hg'. pose proof (sg_room _ Hg) as Hr. cbn in E. destruct (raw || negb _ || _) eqn:Ec; [done|]. bool_lia. subst raw.
    destruct (st_cnt st) as [n run] eqn:Ecnt. cbn [fst snd] in Hr. destruct (parse_ok h full (st_cur st) d n run Hh Hr) as (cnt & h' & full' & part' & Ep & H3 & H4 & H5); [by apply fitsb_fits|].
    cbn. rewrite Ep. cbn. eexists. split; [reflexivity|]. rewrite Eq in H4. pose proof (feed_bytes d (st_q st) (st_cur st)) as Hf. destruct (feed (st_q st, st_cur st) d) as [q cur]. injection H4 as <- <-. injection E as <-.
    split; [by exists full'|]. split; [done|]. unfold st_bytes in *. cbn [st_q st_cur fst snd] in *. lia.
  - intros h st n partial raw ((full & Hh & Eq) & Hg & Hb) [s st'] E. pose proof (get_good st n partial raw s st' Hg E) as Hg'. cbn in E. destruct (Z.leb_spec n 1); [done|]. pose proof (get_ok h full (st_cur st) n partial Hh ltac:(lia)) as Hget.
    change (lb_get h n partial raw) with (of_line (op_linebuf_get h n partial raw)). unfold op_linebuf_get in *. rewrite (get_loop_raw _ h n partial raw) by (by eapply rep_cooked). rewrite Eq in Hget. cbv zeta in Hget. unfold st_bytes in Hb. destruct (st_q st) as [|x q] eqn:Eqq.
    + destruct partial; cbn [andb] in Hget; [|destruct Hget as (h' & -> & Hr')].
      * destruct (bool_decide_reflect (st_cur st = [])) as [E0|]; cbn [negb] in Hget; destruct Hget as (h' & -> & Hr'); injection E as <- <-; (eexists; split; [reflexivity|]; cbn [fst snd]).
        -- rewrite E0 in *. split; [by rewrite take_nil|]. split; [by exists []|]. by split.
        -- split; [done|]. split; [by exists []|]. by split.
      * injection E as <- <-. eexists. split; [reflexivity|]. split; [done|]. split; [by exists []|]. split; [done|]. unfold st_bytes. cbn [fst snd]. by rewrite Eqq.
    + destruct Hget as (h' & full' & -> & Hr' & Eq'). injection E as <- <-. eexists. split; [reflexivity|]. split; [done|]. split; [by exists full'|]. split; [done|].
      unfold st_bytes. cbn in *. rewrite length_app in Hb. lia.
Qed.

(** ** Calls of [sockgets] *)

Section calls.
Context {B : Type} `{LineBuffer B}.
(** The values, texts and lengths that the calls return, one for each environment. *)
Fixpoint gets_run (backgrd : bool) (es : list os_env) (s : nstate B) : result sfault (list (Z * list Z * Z) * nstate B) :=
  match es with
  | [] => Ok ([], s)
  | e :: es => let! (o, s) := sockgets backgrd e s in let! (os, s) := gets_run backgrd es s in Ok (o :: os, s)
  end.
End calls.

Lemma gets_run_rel backgrd es : forall (s : nstate buf_head) (t : nstate stream_buf), net_rel holds s t ->
  rsim (out_rel (net_rel holds)) (gets_run backgrd es s) (gets_run backgrd es t).
Proof.
  induction es as [|e es IH]; intros s t Hst; [by apply rsim_ok|]. cbn [gets_run]. eapply rsim_bind; [by apply (sockgets_rel holds)|].
  intros [o s1] [o' t1] [Eo H1]. cbn in Eo, H1. subst o'. eapply rsim_bind; [by apply IH|]. intros [os s2] [os' t2] [Eo H2]. cbn in Eo, H2. subst os'. by apply rsim_ok.
Qed.

Lemma lookup_mid {A} (pre : list A) x post : (pre ++ x :: post) !! length pre = Some x.
Proof. by rewrite lookup_app_r, Nat.sub_diag by lia. Qed.
Lemma insert_mid {A} (pre : list A) x y post : <[length pre := y]> (pre ++ x :: post) = pre ++ y :: post.
Proof. rewrite insert_app_r_alt by lia. by rewrite Nat.sub_diag. Qed.

(** ** What the calls do with streams *)

(** The first entry with a line, or one that has ended: what is returned, and the table without the
    line.  Sockets that are read as binary are not in the specification. *)
Fixpoint first_pending (l : list (sock_list stream_buf)) : result sfault (option (Z * list Z * Z) * list (sock_list stream_buf)) :=
  match l with
  | [] => Ok (None, [])
  | x :: l =>
      if sock_flags x &? (SOCK_UNUSED ||| SOCK_TCL ||| SOCK_BUFFER) then let! (o, l) := first_pending l in Ok (o, x :: l)
      else if sock_flags x &? SOCK_BINARY then Err SOutside
      else
        let st := recvbuf x in
        match st_q st with
        | y :: q => Ok (Some (sock x, y, Z.of_nat (length y)), with_buf {| st_q := q; st_cur := st_cur st; st_cnt := st_cnt st |} x :: l)
        | [] => if sock_flags x &? SOCK_EOFD then Ok (Some (-1, [], sock x), x :: l) else let! (o, l) := first_pending l in Ok (o, x :: l)
        end
  end.
(** What was read at an entry: a connection is reported, and the bytes of a text socket go to its
    stream, of which the first line comes out, if there is one. *)
Definition read_at (x : sock_list stream_buf) (xx : list Z) (len : Z) : result sfault (Z * list Z * Z * sock_list stream_buf) :=
  if (sock_flags x &? SOCK_BINARY) || (sock_flags x &? SOCK_CONNECT) && (sock_flags x &? SOCK_STRONGCONN) then Err SOutside
  else if sock_flags x &? SOCK_CONNECT then Ok (sock x, [], len, clear_flag SOCK_CONNECT x)
  else if sock_flags x &? (SOCK_LISTEN ||| SOCK_PASS ||| SOCK_TCL) then Ok (sock x, [], len, x)
  else if sock_flags x &? SOCK_BUFFER then Err SOutside
  else
    let! st := lb_parse (recvbuf x) xx false in
    Ok match st_q st with
       | y :: q => (sock x, y, Z.of_nat (length y), with_buf {| st_q := q; st_cur := st_cur st; st_cnt := st_cnt st |} x)
       | [] => (-3, [], 0, with_buf st x)
       end.
(** A line that waits goes out first; otherwise something is read. *)
Definition spec_call (backgrd : bool) (e : os_env) (t : nstate stream_buf) : result sfault (Z * list Z * Z * nstate stream_buf) :=
  let! (o, l) := first_pending (socklist t) in
  match o with
  | Some o => Ok (o, {| socklist := l; jobs := jobs t |})
  | None =>
      let! (ret, xx, len, t) := sockread backgrd e t in
      if ret <? 0 then Ok (ret, [], len, t)
      else
        match socklist t !! Z.to_nat ret with
        | None => Err SOutside
        | Some x => let! (o, x) := read_at x xx len in Ok (o, {| socklist := <[Z.to_nat ret := x]> (socklist t); jobs := jobs t |})
        end
  end.
Fixpoint spec_calls (backgrd : bool) (es : list os_env) (t : nstate stream_buf) : result sfault (list (Z * list Z * Z) * nstate stream_buf) :=
  match es with
  | [] => Ok ([], t)
  | e :: es => let! (o, t) := spec_call backgrd e t in let! (os, t) := spec_calls backgrd es t in Ok (o :: os, t)
  end.

Definition entries_good (l : list (sock_list stream_buf)) : Prop := Forall (fun x => st_good (recvbuf x)) l.
Lemma rel_good s t : net_rel holds s t -> entries_good (socklist t).
Proof. intros [Hl _]. unfold entries_good. induction Hl as [|x y l m Hxy _ IH]; constructor; [|done]. apply (er_buf _ _ _ Hxy). Qed.

Lemma short_max y : short y -> Z.of_nat (length y) <= READMAX.
Proof. unfold short, LINEBUF_SIZE, LINEBUF_TAGSLEN, LINEBUF_DATALEN, READMAX. lia. Qed.
(** The first line of a stream is got as it is. *)
Lemma get_first st y q partial raw : st_good st -> st_q st = y :: q ->
  lb_get st (READMAX + 1) partial raw = Ok (y, {| st_q := q; st_cur := st_cur st; st_cnt := st_cnt st |}) /\ y <> [] /\ 0 < lb_len st.
Proof.
  intros Hg Eq. pose proof (sg_lines _ Hg) as Hl. rewrite Eq in Hl. apply Forall_cons in Hl as [[Hne Hs] _]. cbn [lb_get stream_lines lb_len]. change (READMAX + 1 <=? 1) with false. cbv iota zeta. rewrite Eq.
  apply short_max in Hs. rewrite take_ge by (unfold READMAX in *; lia). split; [done|]. split; [done|]. unfold st_bytes. rewrite Eq. cbn. rewrite length_app. destruct y; [done|cbn; lia].
Qed.
Lemma get_none st raw : st_q st = [] -> lb_get st (READMAX + 1) false raw = Ok ([], st).
Proof. intros Eq. cbn [lb_get stream_lines]. change (READMAX + 1 <=? 1) with false. cbv iota zeta. by rewrite Eq. Qed.

Lemma pending_spec l : forall pre o l', entries_good l -> first_pending l = Ok (o, l') ->
  pending_loop (length l) (length pre) (pre ++ l) = Ok (o, pre ++ l') /\ (o = None -> l' = l).
Proof.
  induction l as [|x l IH]; intros pre o l' Hg E; [by injection E as <- <-|]. apply Forall_cons in Hg as [Hx Hg]. cbn [pending_loop length first_pending] in *. rewrite lookup_mid.
  assert (Hgo : forall r, (let! (o, l) := first_pending l in Ok (o, x :: l)) = Ok (E := sfault) r ->
    pending_loop (length l) (S (length pre)) (pre ++ x :: l) = Ok (fst r, pre ++ snd r) /\ (fst r = None -> snd r = x :: l)).
  { intros r Er. apply rbind_Ok_inv in Er as ([o1 l1] & E1 & [= <-]). destruct (IH (pre ++ [x]) o1 l1 Hg E1) as [H1 H2]. rewrite length_app, Nat.add_1_r, <- !app_assoc in H1. split; [done|]. cbn. intros Ho. by rewrite H2. }
  revert E. case_if; [by intros Er%Hgo|]. case_if; [done|]. cbv zeta. assert (Hid : with_buf (recvbuf x) x = x) by (by destruct x). destruct (st_q (recvbuf x)) as [|y q] eqn:Eq.
  - rewrite (get_none _ _ Eq). replace (if 0 <? lb_len (recvbuf x) then _ else _) with (Ok (E := sfault) (@nil Z, recvbuf x)) by (by case_if). cbn [rbind]. rewrite insert_mid, Hid.
    case_if; [by intros [= <- <-]|by intros Er%Hgo].
  - intros [= <- <-]. destruct (get_first _ y q false false Hx Eq) as (-> & Hne & Hpos). rewrite (proj2 (Z.ltb_lt _ _)) by done. cbn [rbind]. rewrite insert_mid. by destruct y.
Qed.

Lemma read_at_spec x xx len r : st_good (recvbuf x) -> read_at x xx len = Ok r -> got_at x xx len = Ok r.
Proof.
  intros Hx. unfold read_at, got_at. destruct (sock_flags x &? SOCK_BINARY); [done|]. cbn [orb andb]. destruct (sock_flags x &? SOCK_CONNECT); cbn [andb].
  - destruct (sock_flags x &? SOCK_STRONGCONN); [done|]. done.
  - case_if; [done|]. case_if; [done|]. intros E1. apply rbind_Ok_inv in E1 as (st & E1 & Er). rewrite E1. cbn [rbind]. pose proof (parse_good _ _ _ _ Hx E1) as Hst.
    destruct (st_q st) as [|y q] eqn:Eq.
    + rewrite (get_none _ _ Eq). cbn [rbind]. assert (Hlow : (READMAX <=? lb_len st) = false); [|by rewrite Hlow].
      apply Z.leb_gt. cbn. unfold st_bytes. rewrite Eq. pose proof (sg_cur _ Hst) as Hc. unfold short, LINEBUF_SIZE, LINEBUF_TAGSLEN, LINEBUF_DATALEN, READMAX in *. cbn. lia.
    + destruct (get_first st y q false false Hst Eq) as (-> & Hne & _). cbn [rbind]. by destruct y.
Qed.

Lemma spec_call_ok backgrd e s t r : net_rel holds s t -> spec_call backgrd e t = Ok r -> sockgets backgrd e t = Ok r.
Proof.
  intros Hst E. unfold spec_call in E. apply rbind_Ok_inv in E as ([o l] & E1 & E). pose proof (rel_good s t Hst) as Hg.
  destruct (pending_spec (socklist t) [] o l Hg E1) as [Ep Hl]. cbn [app length] in Ep. unfold sockgets. rewrite Ep. cbn [rbind].
  destruct o as [[[r0 y] len]|]; [done|]. rewrite (Hl eq_refl). assert (Et : {| socklist := socklist t; jobs := jobs t |} = t) by (by destruct t). rewrite Et.
  apply rbind_Ok_inv in E as ([[[ret xx] len] t1] & E2 & E). rewrite E2. cbn [rbind]. case_if; [done|].
  destruct (sockread_rel holds backgrd e s t Hst _ E2) as ([[[ret' xx'] len'] s1] & _ & _ & Hst1). apply rel_good in Hst1. cbn [snd] in Hst1.
  destruct (socklist t1 !! Z.to_nat ret) as [x|] eqn:Ex; [|done]. pose proof (Forall_lookup_1 _ _ _ _ Hst1 Ex) as Hx.
  apply rbind_Ok_inv in E as ([[[v d] n] y] & E3 & E). by rewrite (read_at_spec _ _ _ _ Hx E3).
Qed.

(** C8. [sockgets] hands out the lines of its streams: over any number of calls, with whatever is read
    by them and by the threads in between, cut in any way, and whatever ends or fails, each call
    returns the first line of the first socket at which one waits, or that a socket has ended;
    otherwise what is read next is added to its stream, and the line that this completes is
    returned, or -3.  Nothing is lost, and the buffers hold what the streams have, unless a line
    is too long or input is to keep its line ends. *)
Theorem sockgets_refines_streams backgrd es (s : nstate buf_head) (t : nstate stream_buf) os t' : net_rel holds s t -> spec_calls backgrd es t = Ok (os, t') ->
  exists s', gets_run backgrd es s = Ok (os, s') /\ net_rel holds s' t'.
Proof.
  revert s t os. induction es as [|e es IH]; intros s t os Hst E; cbn [gets_run spec_calls] in *; [injection E as <- <-; by exists s|].
  apply rbind_Ok_inv in E as ([o t1] & E1 & E). apply rbind_Ok_inv in E as ([os1 t2] & E2 & [= <- <-]). apply (spec_call_ok _ _ s) in E1; [|done].
  destruct (sockgets_rel holds backgrd e s t Hst _ E1) as ([o' s1] & -> & Eo & H1). cbn in Eo, H1. subst o'. cbn [rbind].
  destruct (IH s1 t1 os1 H1 E2) as (s2 & -> & H2). by exists s2.
Qed.

(** An environment in which [read] gives [d] at the entry [i], and threads, if there are any, have
    done [fin]. *)
Definition reads_at (i : nat) (d : list Z) (threads : bool) (fin : list (nat * recv_out)) : os_env :=
  {| e_failed := false; e_events := true; e_readable := [i]; e_notified := []; e_tcl := fun _ => false; e_stdin := false;
     e_async := threads; e_drained := fin; e_read := fun _ => RGot d |}.
Definition text_entry {B} `{LineBuffer B} (z flags : Z) : sock_list B :=
  {| sock := z; sock_flags := flags; commio_read_ready := false; commio_write_ready := false; recv_in_flight := false; recvbuf := lb_new; outbuf := None |}.
Definition two_sockets {B} `{LineBuffer B} : nstate B := {| socklist := [text_entry 5 0; text_entry 0 SOCK_UNUSED; text_entry 7 0]; jobs := [] |}.
Lemma two_sockets_hold : net_rel holds two_sockets two_sockets.
Proof. split; [|done]. repeat constructor; cbn; apply holds_new || done. Qed.

(** A line in two pieces, two lines at once, from a thread, and nothing. *)
Definition some_envs : list os_env :=
  [reads_at 2 (bs "PING :") false []; reads_at 2 (bs "x" ++ [13; 10]) false []; reads_at 0 (bs "a" ++ [10; 10] ++ bs "b" ++ [10] ++ bs "c") true [(0%nat, RGot (bs "A" ++ [10] ++ bs "B" ++ [10] ++ bs "C"))];
   reads_at 0 [] true []; reads_at 2 (bs "d" ++ [10]) false []].
Definition some_streams : nstate stream_buf := match spec_calls true some_envs two_sockets with Ok (_, t) => t | Err _ => two_sockets end.
Lemma sockgets_refines_streams_witness :
  exists s', gets_run true some_envs two_sockets = Ok ([(-3, [], 0); (7, bs "PING :x", 7); (-3, [], 0); (5, bs "A", 1); (5, bs "B", 1)], s') /\
    net_rel holds s' some_streams.
Proof.
  eapply (sockgets_refines_streams true some_envs two_sockets two_sockets); [apply two_sockets_hold|]. vm_compute. reflexivity.
Defined.

(** ** Everything that waits goes out *)

(** An entry that is passed over, or one that is read as text and has not ended, with lines that
    fit. *)
Definition drainable {B} (q : B -> list (list Z)) (x : sock_list B) : Prop :=
  (sock_flags x &? (SOCK_UNUSED ||| SOCK_TCL ||| SOCK_BUFFER)) = true \/
  (sock_flags x &? SOCK_BINARY) = false /\ (sock_flags x &? SOCK_EOFD) = false /\ Forall (fun y => y <> [] /\ Z.of_nat (length y) <= READMAX) (q (recvbuf x)).
(** What [sockgets] returns for the lines that wait. *)
Definition waiting {B} (q : B -> list (list Z)) (x : sock_list B) : list (Z * list Z * Z) :=
  if sock_flags x &? (SOCK_UNUSED ||| SOCK_TCL ||| SOCK_BUFFER) then [] else map (fun y => (sock x, y, Z.of_nat (length y))) (q (recvbuf x)).
Definition handed (l : list (sock_list stream_buf)) : list (Z * list Z * Z) := flat_map (waiting st_q) l.

Lemma handed_cons x l : handed (x :: l) = waiting st_q x ++ handed l.
Proof. done. Qed.
(** The first line that waits is the one that is found; it is gone then. *)
Lemma pending_handed l : forall pre, Forall (drainable st_q) l ->
  exists l', pending_loop (length l) (length pre) (pre ++ l) = Ok (head (handed l), pre ++ l') /\ Forall (drainable st_q) l' /\ handed l' = tail (handed l) /\ map sock l' = map sock l.
Proof.
  induction l as [|x l IH]; intros pre Hl; [by exists []|]. apply Forall_cons in Hl as [Hx Hl]. cbn [pending_loop length]. rewrite lookup_mid.
  assert (Hgo : forall y, drainable st_q y -> waiting st_q y = [] -> sock y = sock x -> exists l', pending_loop (length l) (S (length pre)) (pre ++ y :: l) = Ok (head (handed l), pre ++ l') /\
    Forall (drainable st_q) l' /\ handed l' = tail (handed l) /\ map sock l' = map sock (x :: l)).
  { intros y Hy Ey Es. destruct (IH (pre ++ [y]) Hl) as (l' & E & H1 & H2 & H3). rewrite length_app, Nat.add_1_r, <- !app_assoc in E. cbn [app] in E.
    exists (y :: l'). split; [done|]. split; [by constructor|]. cbn. rewrite Ey. split; [done|]. by rewrite Es, H3. }
  rewrite handed_cons. unfold drainable in Hx. destruct (sock_flags x &? (SOCK_UNUSED ||| SOCK_TCL ||| SOCK_BUFFER)) eqn:E.
  - assert (Ew : waiting st_q x = []) by (unfold waiting; by rewrite E). rewrite Ew. cbn [app]. apply Hgo; [by left|done..].
  - destruct Hx as [|(Hb & He & Hq)]; [done|]. rewrite Hb, He. cbv zeta. cbn [lb_len lb_get stream_lines]. change (READMAX + 1 <=? 1) with false. cbv iota.
    assert (Hy : forall st, st_q st = [] \/ st_q st = tail (st_q (recvbuf x)) -> drainable st_q (with_buf st x)).
    { intros st Hst. right. split; [done|]. split; [done|]. cbn. destruct Hst as [-> | ->]; [done|]. by destruct Hq. }
    unfold waiting at 1 2. rewrite E. destruct (st_q (recvbuf x)) as [|y q] eqn:Eq.
    + cbn [map app]. replace (if 0 <? st_bytes (recvbuf x) then _ else _) with (Ok (E := sfault) (@nil Z, recvbuf x)) by (by case_if). cbn [rbind]. rewrite insert_mid.
      apply Hgo; [apply Hy; by left| |done]. unfold waiting. cbn. by rewrite E, Eq.
    + apply Forall_cons in Hq as [[Hne Hle] Hq]. assert (Hpos : 0 < st_bytes (recvbuf x)) by (unfold st_bytes; rewrite Eq; cbn; rewrite length_app; destruct y; [done|cbn; lia]).
      rewrite (proj2 (Z.ltb_lt _ _)) by done. cbn [rbind]. rewrite take_ge by (unfold READMAX in *; lia). rewrite insert_mid. destruct y as [|c y]; [done|].
      eexists. split; [reflexivity|]. split; [constructor; [|done]; apply Hy; by right|]. split; [|done]. cbn. unfold waiting. cbn. by rewrite E.
Qed.

(** C34. Every line that waits is handed out, each by one call of [sockgets], before anything more
    is read: over as many calls as lines wait, whatever could be read, what is returned is the lines
    of the first socket in their order, then those of the next one, and so on, with their lengths.
    This is for tables in which every socket is [drainable]: none has ended (with one that has,
    every call returns its end, and the lines of the sockets behind it keep waiting), none is
    binary, and every line that waits is not empty and has at most READMAX bytes; sockets that are
    unused, not ours to read (Tcl) or kept for later (buffered) are passed over. *)
Theorem sockgets_drains backgrd es (s : nstate buf_head) (t : nstate stream_buf) : net_rel holds s t -> Forall (drainable st_q) (socklist t) ->
  length es = length (handed (socklist t)) ->
  exists s' t', gets_run backgrd es s = Ok (handed (socklist t), s') /\ net_rel holds s' t' /\ handed (socklist t') = [].
Proof.
  intros Hst Hd Hlen. assert (exists t', gets_run backgrd es t = Ok (handed (socklist t), t') /\ handed (socklist t') = []) as (t' & E & Ht').
  { clear s Hst. revert t Hd Hlen. induction es as [|e es IH]; intros t Hd Hlen; cbn [gets_run length] in *.
    - exists t. destruct (handed (socklist t)); done.
    - destruct (pending_handed (socklist t) [] Hd) as (l' & E & Hd' & Eh & _). cbn [app length] in E. unfold sockgets. rewrite E. cbn [rbind].
      destruct (handed (socklist t)) as [|[[r d] len] os]; [done|]. cbn in Hlen, Eh |- *. injection Hlen as Hlen.
      destruct (IH {| socklist := l'; jobs := jobs t |} Hd') as (t' & E1 & E2); [cbn [socklist]; by rewrite Eh|]. cbn [socklist] in E1. rewrite E1, Eh. by exists t'. }
  destruct (gets_run_rel backgrd es s t Hst _ E) as ([os s'] & -> & Eo & H1). cbn in Eo, H1. subst os. by exists s', t'.
Qed.

(** Threads have read three lines from a socket and two from another, and what could be read then does
    not matter. *)
Definition threads_read : os_env :=
  {| e_failed := false; e_events := true; e_readable := [2; 0]%nat; e_notified := []; e_tcl := fun _ => false; e_stdin := false;
     e_async := true; e_drained := [(1%nat, RGot (bs "x" ++ [10] ++ bs "y" ++ [10])); (0%nat, RGot (bs "A" ++ [10] ++ bs "B" ++ [10] ++ bs "C" ++ [10]))];
     e_read := fun _ => RErr true |}.
Definition lines_wait {B} `{LineBuffer B} : nstate B := match gets_run true [threads_read] two_sockets with Ok (_, t) => t | Err _ => two_sockets end.
Lemma lines_wait_hold : net_rel holds lines_wait lines_wait.
Proof.
  pose proof (gets_run_rel true [threads_read] two_sockets two_sockets two_sockets_hold) as Hr. unfold lines_wait.
  destruct (gets_run true [threads_read] (two_sockets (B := stream_buf))) as [[os t]|] eqn:E; [|by vm_compute in E].
  destruct (Hr _ eq_refl) as ([os' s] & -> & _ & H). exact H.
Qed.
Lemma sockgets_drains_witness :
  exists s' t', gets_run true some_envs (lines_wait (B := buf_head)) = Ok ([(5, bs "A", 1); (5, bs "B", 1); (5, bs "C", 1); (7, bs "x", 1); (7, bs "y", 1)], s') /\
    net_rel holds s' t' /\ handed (socklist t') = [].
Proof.
  apply (sockgets_drains true some_envs lines_wait lines_wait lines_wait_hold).
  - vm_compute. repeat constructor; try discriminate; (by left) || (right; repeat constructor; discriminate).
  - reflexivity.
Defined.
