(* ===== verification/SocketsOut.v ===== *)
(** * What is written to a socket arrives in order

    However much the socket takes at a time, the bytes that [tputs] and [dequeue_sockets] write
    are those that were put, in their order, and what is missing waits. *)

From S2P Require Import Prelude Linebuf Mbuf Sockets.
From stdpp Require Import list.
#[local] Open Scope Z_scope.

Lemma lookup_middle {A} (a : list A) (x : A) b : (a ++ x :: b) !! length a = Some x.
Proof. by rewrite lookup_app_r, Nat.sub_diag by lia. Qed.
Lemma insert_middle {A} (a : list A) (x y : A) b : <[length a := y]> (a ++ x :: b) = a ++ y :: b.
Proof. rewrite insert_app_r_alt by lia. by rewrite Nat.sub_diag. Qed.

Section out.
Context {B : Type} `{LineBuffer B}.
Implicit Types (x y : sock_list B) (l : list (sock_list B)).

(** What waits at an entry, and at the socket [z]. *)
Definition contents (mb : egg_mbuf) : list Z := match egg_mbuf_peek2 mb with Ok (p1, p2) => p1 ++ p2 | Err _ => [] end.
Definition waits_at x : list Z := match outbuf x with Some mb => contents mb | None => [] end.
Definition waits_for (z : Z) l : list Z := flat_map (fun x => if sock_is z x then waits_at x else []) l.
(** What was written to the socket [z]. *)
Definition bytes_to (z : Z) (wire : list (Z * list Z)) : list Z := flat_map (fun p => if fst p =? z then snd p else []) wire.

Lemma contents_ok mb q : mbuf_ok mb q -> contents mb = q.
Proof. intros H1. destruct (peek2_ok mb q H1) as (p1 & p2 & E & <- & _). unfold contents. by rewrite E. Qed.

(** A ring with at most [n] bytes. *)
Definition ring_ok (n : Z) x : Prop := match outbuf x with Some mb => exists q, mbuf_ok mb q /\ Z.of_nat (length q) <= n | None => True end.
Lemma ring_ok_le n m x : ring_ok n x -> n <= m -> ring_ok m x.
Proof. unfold ring_ok. destruct (outbuf x); [|done]. intros (q & H1 & H2) Hn. exists q. split; [done|lia]. Qed.

(** The entry stays the one of its socket. *)
Definition keeps x y : Prop := sock y = sock x /\ unused y = unused x.
Lemma keeps_is z x y : keeps x y -> sock_is z y = sock_is z x.
Proof. intros [H1 H2]. unfold sock_is. by rewrite H1, H2. Qed.
Lemma no_flag f a b : (f &? (a ||| b)) = false -> (f &? a) = false /\ (f &? b) = false.
Proof. rewrite !truthy_false, Z.land_lor_distr_r, Z.lor_eq_0_iff. done. Qed.
Lemma no_flag_l f a b : (f &? (a ||| b)) = false -> (f &? a) = false.
Proof. apply no_flag. Qed.
Lemma unused_eofd x : unused (set_flag SOCK_EOFD x) = unused x.
Proof.
  unfold unused, set_flag. cbn [set_flags sock_flags]. unfold SOCK_UNUSED, SOCK_EOFD. change 1 with (2 ^ 0).
  rewrite !land_pow2_testbit, Z.lor_spec by lia. by rewrite orb_false_r.
Qed.

(** At most one entry is the one of [z]. *)
Definition uniq (z : Z) l : Prop := (length (List.filter (sock_is z) l) <= 1)%nat.
Lemma uniq_keeps z l l' : Forall2 keeps l l' -> uniq z l -> uniq z l'.
Proof.
  intros Hk. assert (E : length (List.filter (sock_is z) l') = length (List.filter (sock_is z) l)); [|unfold uniq; by rewrite E].
  induction Hk as [|x y l l' Hxy _ IH]; [done|]. cbn. rewrite (keeps_is z x y Hxy). case_if; cbn; by rewrite IH.
Qed.
Lemma uniq_cons z x l : uniq z (x :: l) -> uniq z l /\ (sock_is z x = true -> Forall (fun y => sock_is z y = false) l).
Proof.
  unfold uniq. cbn. destruct (sock_is z x) eqn:E; cbn; [|by split]. intros Hl. split; [lia|]. intros _.
  apply Forall_forall. intros y Hy. destruct (sock_is z y) eqn:Ey; [|done]. apply list_elem_of_In in Hy.
  assert (Hin : In y (List.filter (sock_is z) l)) by (by apply filter_In). destruct (List.filter (sock_is z) l); [done|cbn in Hl; lia].
Qed.
Lemma queued_none z l : Forall (fun y => sock_is z y = false) l -> waits_for z l = [].
Proof. induction 1 as [|y l Hy _ IH]; [done|]. cbn. by rewrite Hy. Qed.
Lemma queued_cons z x l : waits_for z (x :: l) = (if sock_is z x then waits_at x else []) ++ waits_for z l.
Proof. done. Qed.
Lemma bytes_cons z (k : Z) d wire : bytes_to z ((k, d) :: wire) = (if k =? z then d else []) ++ bytes_to z wire.
Proof. done. Qed.
Lemma queued_app z l1 l2 : waits_for z (l1 ++ l2) = waits_for z l1 ++ waits_for z l2.
Proof. apply flat_map_app. Qed.

(** ** [dequeue_sockets] *)

Definition write_ok (w : write_out) : Prop := match w with WOk n => 0 <= n | WErr _ => True end.

Lemma dequeue_one_ok n w x : ring_ok n x -> write_ok w ->
  exists d done y, dequeue_one w x = Ok (d, done, y) /\ d ++ waits_at y = waits_at x /\ ring_ok n y /\ keeps x y /\ (unused x = true -> d = []).
Proof.
  intros Hx Hw. unfold dequeue_one. assert (Hsame : exists d done y, Ok (E := sfault) ([], false, x) = Ok (d, done, y) /\
    d ++ waits_at y = waits_at x /\ ring_ok n y /\ keeps x y /\ (unused x = true -> d = [])) by (by exists [], false, x).
  destruct (outbuf x) as [mb|] eqn:Eo; [|done]. destruct (negb _ && commio_write_ready x) eqn:Er; [|done]. clear Hsame. bool_lia.
  unfold ring_ok in Hx. rewrite Eo in Hx. destruct Hx as (q & Hmb & Hq). destruct (peek2_ok mb q Hmb) as (p1 & p2 & -> & Ep & _). cbn [of_ring rbind]. rewrite Ep.
  assert (Hu : unused x = false) by (by eapply no_flag_l).
  assert (Eq : waits_at x = q) by (unfold waits_at; rewrite Eo; by apply contents_ok). rewrite Eq, Hu.
  assert (Hback : forall y, outbuf y = Some mb -> keeps x y -> exists d done z, Ok (E := sfault) ([], false, y) = Ok (d, done, z) /\
    d ++ waits_at z = q /\ ring_ok n z /\ keeps x z /\ (false = true -> d = [])).
  { intros y Ey Hy. exists [], false, y. split; [done|]. split; [unfold waits_at; rewrite Ey; by apply contents_ok|]. split; [|done]. unfold ring_ok. rewrite Ey. by exists q. }
  destruct w as [k|[]]; [|by apply Hback|apply Hback; [done|]; split; [done|by rewrite unused_eofd]].
  destruct (Z.ltb_spec 0 k) as [Hk|]; [|by apply Hback].
  pose proof (consume_ok mb q k Hmb ltac:(lia)) as Hc. pose proof (mo_len _ _ Hc) as [Hl _]. destruct (Z.eqb_spec (mb_len (egg_mbuf_consume mb k)) 0) as [E0|].
  - eexists _, _, _. split; [reflexivity|]. split; [cbn|done]. rewrite app_nil_r. rewrite length_drop in Hl. apply take_ge. lia.
  - eexists _, _, _. split; [reflexivity|]. split; [unfold waits_at; cbn; rewrite (contents_ok _ _ Hc); apply take_drop|].
    split; [|done]. unfold ring_ok. cbn. eexists. split; [done|]. rewrite length_drop. lia.
Qed.

Lemma dequeue_loop_ok n idx l : Forall (ring_ok n) l -> forall ws, Forall write_ok ws ->
  exists wire dones l', dequeue_loop idx ws l = Ok (wire, dones, l') /\ Forall2 keeps l l' /\ Forall (ring_ok n) l' /\
    forall z, uniq z l -> bytes_to z wire ++ waits_for z l' = waits_for z l.
Proof.
  induction 1 as [|x l Hx _ IH]; intros ws Hws; [by exists [], [], []|]. cbn [dequeue_loop].
  assert (Hw : write_ok match ws with w :: _ => w | [] => WErr true end) by (by destruct Hws).
  destruct (dequeue_one_ok n _ x Hx Hw) as (d & fin & y & -> & Ed & Hy & Hk & Hu). cbn [rbind].
  destruct (IH (tail ws)) as (wire & dones & l' & -> & Hl & Hr & Hz); [by destruct Hws|]. cbn [rbind].
  eexists _, _, _. split; [reflexivity|]. split; [by constructor|]. split; [by constructor|]. intros z Huz. apply uniq_cons in Huz as [Huz Hx1].
  specialize (Hz z Huz). rewrite !queued_cons, bytes_cons, (keeps_is z x y Hk), (proj1 Hk). destruct (sock_is z x) eqn:Ez.
  - rewrite (queued_none z l) in Hz |- * by auto. apply app_nil in Hz as [-> ->]. assert (sock x = z) as Es by (unfold sock_is in Ez; by bool_lia).
    rewrite Es, Z.eqb_refl, !app_nil_r. done.
  - cbn [app]. destruct (Z.eqb_spec (sock x) z); [|done]. assert (d = []) as -> by (apply Hu; unfold sock_is in Ez; bool_lia; done). done.
Qed.

(** ** [tputs] *)

Lemma first_index_split (f : sock_list B -> bool) l i : first_index f l = Some i ->
  exists pre x post, l = pre ++ x :: post /\ i = length pre /\ f x = true /\ Forall (fun y => f y = false) pre.
Proof.
  revert i. induction l as [|x l IH]; intros i Hi; [done|]. cbn in Hi. destruct (f x) eqn:E.
  - injection Hi as <-. by exists [], x, l.
  - destruct (first_index f l) as [j|]; [|done]. injection Hi as <-. destruct (IH j eq_refl) as (pre & y & post & -> & -> & Hy & Hp).
    exists (x :: pre), y, post. split_and!; [done|done|done|by constructor].
Qed.
Lemma first_index_none (f : sock_list B -> bool) l : first_index f l = None -> Forall (fun y => f y = false) l.
Proof. induction l as [|x l IH]; [done|]. cbn. destruct (f x) eqn:E; [done|]. destruct (first_index f l); [done|]. intros _. constructor; auto. Qed.
(** What one call puts at the socket [z]. *)
Definition put_at (z : Z) l (to : Z) (s : list Z) : list Z := if (to =? z) && existsb (sock_is z) l then s else [].

Lemma alter_ok n l pre x y post d s : l = pre ++ x :: post -> Forall (fun u => sock_is (sock x) u = false) pre -> sock_is (sock x) x = true ->
  Forall (ring_ok n) l -> ring_ok n y -> keeps x y -> d ++ waits_at y = waits_at x ++ s ->
  Forall2 keeps l (pre ++ y :: post) /\ Forall (ring_ok n) (pre ++ y :: post) /\
    forall z, uniq z l -> (if sock x =? z then d else []) ++ waits_for z (pre ++ y :: post) = waits_for z l ++ put_at z l (sock x) s.
Proof.
  intros -> Hpre Hx Hl Hy Hk Ed. assert (Hrefl : forall l, Forall2 keeps l l) by (intros l; induction l; constructor; done).
  split; [apply Forall2_app; [done|by constructor]|]. split.
  - apply Forall_app in Hl as [H1 H2]. apply Forall_cons in H2 as [_ H2]. apply Forall_app. by split; [|constructor].
  - intros z Hz. unfold put_at. rewrite !queued_app, !queued_cons, (keeps_is z x y Hk). destruct (Z.eqb_spec (sock x) z) as [<-|Hne].
    + assert (E : existsb (sock_is (sock x)) (pre ++ x :: post) = true) by (apply existsb_exists; exists x; split; [apply in_or_app; right; by left|done]). rewrite E, Hx. cbn [andb].
      assert (Hpost : Forall (fun u => sock_is (sock x) u = false) post).
      { unfold uniq in Hz. clear -Hz Hpre Hx. induction Hpre as [|u pre Hu _ IH]; [by apply (uniq_cons _ x post)|]. cbn in Hz. rewrite Hu in Hz. by apply IH. }
      rewrite !(queued_none _ pre), !(queued_none _ post) by done. by rewrite !app_nil_r.
    + cbn [andb app]. rewrite app_nil_r. destruct (sock_is z x) eqn:E; [|done]. exfalso. apply Hne. unfold sock_is in E. by bool_lia.
Qed.

Lemma tputs_ok n os name w to s l : Forall (ring_ok n) l -> 0 <= n -> 0 <= to -> -1 <= w <= Z.of_nat (length s) -> n + Z.of_nat (length s) < 2 ^ 62 ->
  exists d ctr l', tputs false os name w to s l = Ok (d, ctr, l') /\ Forall2 keeps l l' /\ Forall (ring_ok (n + Z.of_nat (length s))) l' /\
    forall z, uniq z l -> (if to =? z then d else []) ++ waits_for z l' = waits_for z l ++ put_at z l to s.
Proof.
  intros Hl Hn Hto Hw Hs. unfold tputs. rewrite andb_false_r, (proj2 (Z.ltb_ge to 0)) by done.
  assert (Hl' : Forall (ring_ok (n + Z.of_nat (length s))) l) by (eapply Forall_impl; [exact Hl|]; intros x Hx; eapply ring_ok_le; [exact Hx|lia]).
  destruct (first_index (sock_is to) l) as [i|] eqn:Ei.
  2: { exists [], None, l. split; [done|]. split; [clear; induction l; constructor; done|]. split; [done|]. intros z _. unfold put_at.
    destruct (Z.eqb_spec to z) as [<-|]; [|by rewrite app_nil_r]. assert (existsb (sock_is to) l = false) as ->; [|by rewrite app_nil_r].
    apply first_index_none in Ei. clear -Ei. induction Ei as [|y l Hy _ IH]; [done|]. cbn. by rewrite Hy. }
  apply first_index_split in Ei as (pre & x & post & El & -> & Hx & Hpre). assert (Elx : l !! length pre = Some x) by (by rewrite El, lookup_middle). rewrite Elx.
  assert (to = sock x) as -> by (unfold sock_is in Hx; by bool_lia).
  assert (Hxn : ring_ok n x) by (rewrite El in Hl; by apply Forall_app in Hl as [_ Hl%Forall_cons]; apply Hl).
  assert (Hgo : forall y d ctr, ring_ok (n + Z.of_nat (length s)) y -> keeps x y -> d ++ waits_at y = waits_at x ++ s ->
    exists d0 ctr0 l', Ok (E := sfault) (d, ctr : option (traffic_ctr * Z), <[length pre := y]> l) = Ok (d0, ctr0, l') /\ Forall2 keeps l l' /\ Forall (ring_ok (n + Z.of_nat (length s))) l' /\
      forall z, uniq z l -> (if sock x =? z then d0 else []) ++ waits_for z l' = waits_for z l ++ put_at z l (sock x) s).
  { intros y d ctr Hy Hk Ed. exists d, ctr, (pre ++ y :: post). split; [by rewrite El, insert_middle|]. by eapply alter_ok. }
  destruct (outbuf x) as [mb|] eqn:Eo.
  - unfold ring_ok in Hxn. rewrite Eo in Hxn. destruct Hxn as (q & Hmb & Hq). destruct (append_grow_ok mb q s Hmb ltac:(lia)) as (mb' & -> & Hmb' & _). cbn [of_ring rbind].
    apply Hgo; [|done|].
    + unfold ring_ok. cbn. exists (q ++ s). split; [done|]. rewrite length_app. lia.
    + unfold waits_at. rewrite Eo. cbn. by rewrite (contents_ok _ _ Hmb), (contents_ok _ _ Hmb').
  - assert (Eq : waits_at x = []) by (unfold waits_at; by rewrite Eo). set (k := if w =? -1 then 0 else w).
    assert (Hk : 0 <= k <= Z.of_nat (length s)) by (unfold k; case_if; bool_lia). clearbody k.
    destruct (Z.ltb_spec k (Z.of_nat (length s))).
    + set (c := if Z.of_nat (length s) - k <? 512 then 512 else Z.of_nat (length s) - k). assert (Hc : Z.of_nat (length s) - k <= c < 2 ^ 63 /\ 0 < c) by (unfold c; ltb_cases; lia).
      clearbody c. destruct (alloc_ok c) as (mb & -> & Hmb & Ec); [lia|]. destruct (append_ok mb [] (drop (Z.to_nat k) s) Hmb) as (mb' & E & Hmb' & _).
      pose proof (mo_len _ _ Hmb) as [Hlen _]. cbn in Hlen. rewrite length_drop in E, Hmb'. rewrite Z.min_l in E, Hmb' by lia. rewrite E. cbn [of_ring rbind].
      rewrite app_nil_l, Nat2Z.id, take_ge in Hmb' by (rewrite length_drop; lia). apply Hgo; [|done|].
      * unfold ring_ok. cbn. eexists. split; [done|]. rewrite length_drop. lia.
      * unfold waits_at at 1. cbn. rewrite (contents_ok _ _ Hmb'), Eq. apply take_drop.
    + assert (Hid : Ok (E := sfault) (take (Z.to_nat k) s, name ≫= (fun nm => Some (traffic_of nm, Z.of_nat (length s))), l) =
        Ok (take (Z.to_nat k) s, name ≫= (fun nm => Some (traffic_of nm, Z.of_nat (length s))), <[length pre := x]> l)) by (by rewrite El, insert_middle).
      rewrite Hid. apply Hgo; [by eapply ring_ok_le; [exact Hxn|lia]|done|]. rewrite Eq, app_nil_r. apply take_ge. cbn. lia.
Qed.

(** ** Sequences of writes *)

(** Something is put, what waits is written, or something else happens to the table that leaves the
    sockets with their entries and what waits at them. *)
Inductive out_event :=
| Put (name : option (list Z)) (w : Z) (to : Z) (s : list Z)
| Dequeue (has_fde : Z -> bool) (idx : Z -> Z) (writable readable : list nat) (ws : list write_out)
| Other (l : list (sock_list B)).
(** What is written, with its sockets. *)
Definition out_step (e : out_event) l : result sfault (list (Z * list Z) * list (sock_list B)) :=
  match e with
  | Put name w to s => let! (d, _, l) := tputs false [] name w to s l in Ok ([(to, d)], l)
  | Dequeue has_fde idx writable readable ws =>
      let! (wire, _, s) := dequeue_sockets has_fde idx writable readable [] ws {| socklist := l; jobs := [] |} in Ok (wire, socklist s)
  | Other l => Ok ([], l)
  end.
Fixpoint out_run (es : list out_event) l : result sfault (list (Z * list Z) * list (sock_list B)) :=
  match es with
  | [] => Ok ([], l)
  | e :: es => let! (w, l) := out_step e l in let! (ws, l) := out_run es l in Ok (w ++ ws, l)
  end.

Definition leaves x y : Prop := keeps x y /\ outbuf y = outbuf x.
Definition put_size (e : out_event) : Z := match e with Put _ _ _ s => Z.of_nat (length s) | _ => 0 end.
(** Numbers as [write] returns them, and what else happens leaves the queues, at every point. *)
Fixpoint outs_ok (es : list out_event) l : Prop :=
  match es with
  | [] => True
  | e :: es =>
      match e with
      | Put _ w to s => 0 <= to /\ -1 <= w <= Z.of_nat (length s)
      | Dequeue _ _ _ _ ws => Forall write_ok ws
      | Other l' => Forall2 leaves l l'
      end /\ (forall w l', out_step e l = Ok (w, l') -> outs_ok es l')
  end.
Definition put_to (z : Z) l (es : list out_event) : list Z :=
  flat_map (fun e => match e with Put _ _ to s => put_at z l to s | _ => [] end) es.

Lemma leaves_ok n l l' : Forall2 leaves l l' -> Forall (ring_ok n) l -> Forall2 keeps l l' /\ Forall (ring_ok n) l' /\ forall z, waits_for z l' = waits_for z l.
Proof.
  induction 1 as [|x y l l' [Hk Ho] _ IH]; [done|]. intros [Hx Hl]%Forall_cons. destruct (IH Hl) as (H1 & H2 & H3). split; [by constructor|]. split.
  - constructor; [|done]. unfold ring_ok. by rewrite Ho.
  - intros z. rewrite !queued_cons, H3, (keeps_is z x y Hk). unfold waits_at. by rewrite Ho.
Qed.

#[local] Instance keeps_entry_refl : Reflexive keeps.
Proof. done. Qed.
#[local] Instance leaves_refl : Reflexive leaves.
Proof. done. Qed.
#[local] Instance leaves_trans : Transitive leaves.
Proof. intros x y z [[H1 H2] H3] [[H4 H5] H6]. split; [split|]; congruence. Qed.

Lemma alter_leaves g i l : (forall x, leaves x (g x)) -> Forall2 leaves l (alter g i l).
Proof. intros Hg. revert i. induction l as [|x l IH]; intros [|i]; [done|done|by constructor|]. constructor; [done|apply IH]. Qed.
Lemma callbacks_leave (g : nat -> list (sock_list B) -> list (sock_list B)) js l : (forall i l, Forall2 leaves l (g i l)) -> Forall2 leaves l (fold_right g l js).
Proof. intros Hg. induction js as [|i js IH]; [done|]. cbn. by etransitivity. Qed.

Lemma dequeue_ok n has_fde idx writable readable ws l js : Forall (ring_ok n) l -> Forall write_ok ws ->
  exists wire dones s, dequeue_sockets has_fde idx writable readable [] ws {| socklist := l; jobs := js |} = Ok (wire, dones, s) /\
    Forall2 keeps l (socklist s) /\ Forall (ring_ok n) (socklist s) /\ forall z, uniq z l -> bytes_to z wire ++ waits_for z (socklist s) = waits_for z l.
Proof.
  intros Hl Hws. unfold dequeue_sockets. cbn [socklist jobs]. set (l1 := map _ l).
  assert (H1 : Forall2 leaves l l1) by (unfold l1; clear; induction l; constructor; [case_if|]; done).
  assert (exists l2, (if existsb (arms has_fde) l1 then op_async_drain [] {| socklist := fold_right commio_read_cb (fold_right commio_write_cb l1 writable) readable; jobs := js |}
      else Ok {| socklist := l1; jobs := js |}) = Ok {| socklist := l2; jobs := js |} /\ Forall2 leaves l l2) as (l2 & -> & H2).
  { case_if; [|by exists l1]. eexists. split; [reflexivity|]. etransitivity; [exact H1|]. etransitivity; apply callbacks_leave;
      intros i l'; apply alter_leaves; intros x; by case_if. }
  cbn [rbind socklist jobs]. destruct (leaves_ok n l l2 H2 Hl) as (Hk & Hr & Hq). destruct (dequeue_loop_ok n idx l2 Hr ws Hws) as (wire & dones & l3 & -> & Hk3 & Hr3 & Hz).
  cbn [rbind]. eexists _, _, _. split; [reflexivity|]. cbn [socklist]. split; [|split; [done|]].
  - clear -Hk Hk3. revert l3 Hk3. induction Hk as [|x y l l2 [H1 H2] _ IH]; intros l3 Hk3; [by inversion Hk3|]. apply Forall2_cons_inv_l in Hk3 as (z & l4 & [H3 H4] & H5 & ->).
    constructor; [split; congruence|by apply IH].
  - intros z Hu. rewrite <- Hq. apply Hz. by eapply uniq_keeps.
Qed.

(** One event: what is written and what still waits, at each socket. *)
Lemma out_step_ok n e l : Forall (ring_ok n) l -> 0 <= n -> n + put_size e < 2 ^ 62 -> outs_ok [e] l ->
  exists wire l', out_step e l = Ok (wire, l') /\ Forall2 keeps l l' /\ Forall (ring_ok (n + put_size e)) l' /\
    forall z, uniq z l -> bytes_to z wire ++ waits_for z l' = waits_for z l ++ put_to z l [e].
Proof.
  intros Hl Hn Hs [He _]. destruct e as [name w to s|has_fde idx writable readable ws|l1]; cbn [out_step put_size put_to flat_map] in *.
  - destruct He as [Hto Hw]. destruct (tputs_ok n [] name w to s l Hl Hn Hto Hw Hs) as (d & ctr & l' & -> & H1 & H2 & H3). cbn [rbind].
    eexists _, _. split; [reflexivity|]. split; [done|]. split; [done|]. intros z Hz. rewrite bytes_cons. unfold bytes_to. cbn. rewrite !app_nil_r. by apply H3.
  - destruct (dequeue_ok n has_fde idx writable readable ws l [] Hl He) as (wire & dones & s & -> & H1 & H2 & H3). cbn [rbind].
    eexists _, _. split; [reflexivity|]. split; [done|]. rewrite Z.add_0_r. split; [done|]. intros z Hz. rewrite app_nil_r. by apply H3.
  - eexists _, _. split; [reflexivity|]. destruct (leaves_ok n l l1 He Hl) as (H1 & H2 & H3). rewrite Z.add_0_r. split; [done|]. split; [done|]. intros z _. by rewrite H3, app_nil_r.
Qed.

Lemma put_to_keeps z l l' es : Forall2 keeps l l' -> put_to z l es = put_to z l' es.
Proof.
  intros Hk. assert (E : existsb (sock_is z) l = existsb (sock_is z) l').
  { induction Hk as [|x y l l' Hxy _ IH]; [done|]. cbn. by rewrite (keeps_is z x y Hxy), IH. }
  unfold put_to. induction es as [|e es IH]; [done|]. cbn. rewrite IH. destruct e; [|done..]. unfold put_at. by rewrite E.
Qed.

(** C10. What is written to a socket is what was put there, in its order, and nothing is lost: over
    any sequence of [tputs] and [dequeue_sockets], whatever the calls of [write] take and
    whichever sockets are reported writable, the bytes that were written to a socket followed by
    those that wait for it are those that waited before followed by those that were put. *)
Theorem output_in_order es l n : Forall (ring_ok n) l -> 0 <= n -> n + foldr (fun e k => put_size e + k) 0 es < 2 ^ 62 -> outs_ok es l ->
  exists wire l', out_run es l = Ok (wire, l') /\ forall z, uniq z l -> bytes_to z wire ++ waits_for z l' = waits_for z l ++ put_to z l es.
Proof.
  revert l n. induction es as [|e es IH]; intros l n Hl Hn Hs Hok; [exists [], l; split; [done|]; intros z _; by rewrite app_nil_r|].
  cbn [out_run foldr outs_ok] in *. destruct Hok as [He Hok].
  assert (H0 : 0 <= foldr (fun e k => put_size e + k) 0 es) by (clear; induction es as [|[] es IH]; cbn; lia).
  destruct (out_step_ok n e l Hl Hn) as (wire & l1 & E & H1 & H2 & H3); [lia|by split|]. rewrite E. cbn [rbind].
  destruct (IH l1 (n + put_size e) H2) as (wires & l2 & -> & H4); [destruct e; cbn in *; lia|lia|by eapply Hok|]. cbn [rbind].
  eexists _, _. split; [reflexivity|]. intros z Hz. unfold bytes_to. rewrite flat_map_app, <- app_assoc. fold (bytes_to z wires) (bytes_to z wire).
  rewrite H4 by (by eapply uniq_keeps). rewrite <- (put_to_keeps z l l1 es H1), app_assoc, (H3 z Hz), <- app_assoc. f_equal.
  unfold put_to. cbn. by rewrite app_nil_r.
Qed.
End out.

(** ** Examples *)

Definition plain_entry (z flags : Z) : sock_list buf_head :=
  {| sock := z; sock_flags := flags; commio_read_ready := false; commio_write_ready := false; recv_in_flight := false; recvbuf := op_linebuf_newbuf; outbuf := None |}.
Definition some_socks : list (sock_list buf_head) := [plain_entry 9 SOCK_UNUSED; plain_entry 7 0; plain_entry 9 0].
(** A socket that takes two bytes, no more, four, and all the rest; another that takes all. *)
Definition some_writes : list (out_event (B := buf_head)) :=
  [Put None 2 7 (bs "hello"); Put (Some (bs "CHAT")) 5 7 (bs " world"); Put None 3 9 (bs "abc");
   Dequeue (fun _ => true) (fun _ => 1) [] [] [WErr true; WOk 4; WErr true];
   Dequeue (fun _ => true) (fun _ => 1) [1%nat] [] [WErr true; WOk 4; WErr true]; Put None 1 7 (bs "!");
   Dequeue (fun _ => true) (fun _ => 1) [1%nat] [] [WErr true; WOk 100; WErr true]].

Lemma output_in_order_witness :
  exists wire l', out_run some_writes some_socks = Ok (wire, l') /\
    forall z, uniq z some_socks -> bytes_to z wire ++ waits_for z l' = waits_for z some_socks ++ put_to z some_socks some_writes.
Proof.
  apply (output_in_order some_writes some_socks 0).
  - repeat constructor.
  - lia.
  - vm_compute. done.
  - unfold some_writes. repeat match goal with
    | |- outs_ok (_ :: _) _ => split; [first [cbn; lia|repeat constructor; cbn; lia]|let E := fresh in intros ? ? E; vm_compute in E; injection E as _ <-]
    | |- outs_ok [] _ => exact I
    end.
Defined.
Example hello_arrives :
  (let! (wire, l) := out_run some_writes some_socks in Ok (bytes_to 7 wire, bytes_to 9 wire, waits_for 7 l)) = Ok (bs "hello world!", bs "abc", []).
Proof. vm_compute. reflexivity. Qed.

(** [safe_write] after a call that was interrupted goes back by one byte, before the start of the
    text, or writes a byte twice. *)
Example safe_write_interrupted : safe_write [WErr true; WOk 6] (bs "hello") 0 5 = Err (SRing MOutside).
Proof. reflexivity. Qed.
Example safe_write_twice : safe_write [WOk 2; WErr true; WOk 4] (bs "hello") 0 5 = Ok (bs "heello").
Proof. vm_compute. reflexivity. Qed.

(** With 11 sockets allowed the table grows, and the call fails and leaves the variable [socklist] as
    it was, on the memory that was freed. *)
Example growth_fails : let '(rc, _, _, l, set) := increase_socks_max 11 1 (replicate 10 (plain_entry 7 0)) in (rc, length l, set) = (-1, 11%nat, false).
Proof. reflexivity. Qed.
