(* ===== verification/SocketsReaders.v ===== *)
(** * One reader for each socket

    While a thread has a socket to read from, nobody else reads from it: the flag
    [recv_in_flight] of an entry is set just while there is work for it, and there is no more than
    one piece of work.  It holds as long as entries are not given back and taken again. *)

From S2P Require Import Prelude Linebuf Mbuf Sockets SocketsIn SocketsProps.
From stdpp Require Import list relations.
#[local] Open Scope Z_scope.

Section readers.
Context {B : Type} `{LineBuffer B}.
Implicit Types (l m : list (sock_list B)) (s t : nstate B).

(** The socket of an entry, and whether a thread reads from it. *)
Definition reader (x : sock_list B) : Z * bool := (sock x, recv_in_flight x).
Record readers_ok (ks : list (Z * bool)) (js : list async_recv_ctx) : Prop := {
  rk_nodup : NoDup (sockidx <$> js);
  rk_flag i z b : ks !! i = Some (z, b) -> b = true <-> exists c, c ∈ js /\ sockidx c = i;
  rk_fd c : c ∈ js -> exists b, ks !! sockidx c = Some (ctx_fd c, b)
}.
Definition one_reader s : Prop := readers_ok (reader <$> socklist s) (jobs s).

(** What leaves the readers as they are. *)
Definition same_readers l m : Prop := reader <$> m = reader <$> l.
#[local] Instance same_readers_refl : Reflexive same_readers.
Proof. done. Qed.
#[local] Instance same_readers_trans : Transitive same_readers.
Proof. unfold same_readers. intros l m n. congruence. Qed.

Lemma insert_same l i x y : l !! i = Some x -> reader y = reader x -> same_readers l (<[i := y]> l).
Proof. intros Hi E. unfold same_readers. rewrite list_fmap_insert, E. apply list_insert_id. by rewrite list_lookup_fmap, Hi. Qed.
Lemma alter_same f i l : (forall x, reader (f x) = reader x) -> same_readers l (alter f i l).
Proof.
  intros Hf. unfold same_readers. apply list_eq. intros j. rewrite !list_lookup_fmap. destruct (decide (i = j)) as [->|].
  - rewrite list_lookup_alter_eq. destruct (l !! j); [|done]. cbn. by rewrite Hf.
  - by rewrite list_lookup_alter_ne.
Qed.
Lemma callbacks_same (g : nat -> list (sock_list B) -> list (sock_list B)) js l : (forall i l, same_readers l (g i l)) -> same_readers l (fold_right g l js).
Proof. intros Hg. induction js as [|i js IH]; [done|]. cbn. by etransitivity. Qed.
Lemma read_cb_same i l : same_readers l (commio_read_cb i l).
Proof. apply alter_same. intros x. by case_if. Qed.
Lemma write_cb_same i l : same_readers l (commio_write_cb i l).
Proof. apply alter_same. intros x. by case_if. Qed.

(** ** The threads *)

Lemma done_readers c r l l' : async_recv_done c r l = Ok l' -> reader <$> l' = alter (fun p => (fst p, false)) (sockidx c) (reader <$> l).
Proof.
  unfold async_recv_done. destruct (l !! sockidx c) as [x|] eqn:Ei; cbv zeta.
  2: { intros [= <-]. apply list_eq. intros j. destruct (decide (sockidx c = j)) as [<-|]; [|by rewrite list_lookup_alter_ne].
    by rewrite list_lookup_alter_eq, list_lookup_fmap, Ei. }
  intros E. apply rbind_Ok_inv in E as (y & Ey & [= <-]). assert (Hy : reader y = (sock x, false)).
  { revert Ey. case_if; [by intros [= <-]|]. destruct r as [[|b d]|[]]; try by intros [= <-]. intros Ey. apply rbind_Ok_inv in Ey as (h & _ & [= <-]). done. }
  apply list_eq. intros j. rewrite list_lookup_fmap. destruct (decide (sockidx c = j)) as [<-|].
  - rewrite list_lookup_insert_eq by (by eapply lookup_lt_Some). rewrite list_lookup_alter_eq, list_lookup_fmap, Ei. cbn. by rewrite Hy.
  - by rewrite list_lookup_insert_ne, list_lookup_alter_ne, list_lookup_fmap by done.
Qed.

Lemma done_ok ks js k c : readers_ok ks js -> js !! k = Some c -> readers_ok (alter (fun p => (fst p, false)) (sockidx c) ks) (delete k js).
Proof.
  intros [Hn Hf Hd] Hk. pose proof (delete_Permutation js k c Hk) as Hp. revert Hp. generalize (delete k js) as rest. intros rest Hp. rewrite Hp in Hn. cbn in Hn. apply NoDup_cons in Hn as [Hc Hn].
  assert (Hin : forall c', c' ∈ js <-> c' = c \/ c' ∈ rest) by (intros c'; by rewrite Hp, elem_of_cons). clear Hp.
  assert (Hne : forall c', c' ∈ rest -> sockidx c' <> sockidx c) by (intros c' Hc' Es; apply Hc; rewrite <- Es; by apply list_elem_of_fmap_2).
  split; [done| |].
  - intros i z b Hi. destruct (decide (sockidx c = i)) as [<-|Hci].
    + rewrite list_lookup_alter_eq in Hi. destruct (ks !! sockidx c) as [[z' b']|]; [|done]. injection Hi as _ <-. split; [done|]. intros (c' & Hc' & Es). by destruct (Hne c' Hc').
    + rewrite list_lookup_alter_ne in Hi by done. rewrite (Hf i z b Hi). setoid_rewrite Hin. split; [intros (c' & [->|Hc'] & Es); [done|by exists c']|].
      intros (c' & Hc' & Es). exists c'. auto.
  - intros c' Hc'. rewrite list_lookup_alter_ne by (by apply not_eq_sym, Hne). apply Hd, Hin. auto.
Qed.

Lemma drain_ok fin : forall s s', one_reader s -> op_async_drain fin s = Ok s' -> one_reader s'.
Proof.
  induction fin as [|[k r] fin IH]; intros s s' Hs E; [by injection E as <-|]. cbn [op_async_drain] in E. destruct (jobs s !! k) as [c|] eqn:Ek; [|by eapply IH].
  apply rbind_Ok_inv in E as (l & E1 & E). eapply IH; [|exact E]. unfold one_reader. cbn [socklist jobs]. rewrite (done_readers _ _ _ _ E1). by apply done_ok.
Qed.

Lemma submit_ok s : one_reader s -> one_reader {| socklist := fst (async_recv_submit_all (socklist s)); jobs := jobs s ++ snd (async_recv_submit_all (socklist s)) |}.
Proof.
  destruct s as [l js]. unfold one_reader. cbn [socklist jobs]. intros [Hn Hf Hd]. unfold async_recv_submit_all. cbn [fst snd].
  set (new := flat_map _ _). assert (Hnew : forall c, c ∈ new <-> exists x, l !! sockidx c = Some x /\ submits x = true /\ ctx_fd c = sock x).
  { intros c. unfold new. rewrite list_elem_of_In, in_flat_map. split.
    - intros ([i x] & Hin & Hc). cbn in Hc. destruct (submits x) eqn:E; [|done]. destruct Hc as [<-|[]]. exists x. split; [|done]. cbn.
      apply list_elem_of_In, elem_of_lookup_zip_with in Hin as (j & i' & x' & [= -> ->] & Hi & Hx). apply lookup_seq in Hi as [-> _]. done.
    - intros (x & Hx & Hs & Ef). exists (sockidx c, x). split; [|cbn; rewrite Hs; left; destruct c; cbn in *; congruence].
      apply list_elem_of_In, elem_of_lookup_zip_with. exists (sockidx c), (sockidx c), x. split; [done|]. split; [|done]. apply lookup_seq. split; [done|]. by eapply lookup_lt_Some. }
  assert (Hr : forall i, (reader <$> map (fun x => if submits x then set_in_flight true (set_read_ready false x) else x) l) !! i =
    (fun x => (sock x, submits x || recv_in_flight x)) <$> l !! i).
  { intros i. change (map ?f l) with (f <$> l). rewrite !list_lookup_fmap. destruct (l !! i) as [x|]; [|done]. cbn. f_equal. by destruct (submits x) eqn:E. }
  assert (Hsub : forall x : sock_list B, submits x = true -> recv_in_flight x = false) by (intros x Hs; unfold submits in Hs; by bool_lia).
  assert (Hflag : forall i x, l !! i = Some x -> recv_in_flight x = true <-> exists c, c ∈ js /\ sockidx c = i) by (intros i x Hx; apply (Hf i (sock x)); by rewrite list_lookup_fmap, Hx).
  split.
  - rewrite fmap_app. apply NoDup_app. split; [done|]. split.
    + intros i (c & -> & Hc)%list_elem_of_fmap (c' & Es & Hc')%list_elem_of_fmap. apply Hnew in Hc' as (x & Hx & Hs & _). rewrite <- Es in Hx.
      pose proof (Hsub x Hs) as Hno. rewrite (proj2 (Hflag _ _ Hx)) in Hno; [done|by exists c].
    + unfold new. clear. generalize 0%nat. induction l as [|x l IH]; intros k; [constructor|]. cbn. rewrite fmap_app. apply NoDup_app. split; [destruct (submits x); repeat constructor; set_solver|].
      split; [|apply IH]. intros i Hi (c & -> & Hc)%list_elem_of_fmap. destruct (submits x); [|by apply not_elem_of_nil in Hi]. apply list_elem_of_singleton in Hi. cbn in Hi.
      apply list_elem_of_In, in_flat_map in Hc as ([j y] & Hj & Hc). apply list_elem_of_In, elem_of_lookup_zip_with in Hj as (n & j' & y' & [= -> ->] & Hj & _). apply lookup_seq in Hj as [-> _].
      cbn in Hc. destruct (submits y'); [|done]. destruct Hc as [<-|[]]. cbn in Hi. lia.
  - intros i z b Hi. rewrite Hr in Hi. destruct (l !! i) as [x|] eqn:Ex; [|done]. injection Hi as <- <-. setoid_rewrite elem_of_app. rewrite orb_true_iff, (Hflag i x Ex). split.
    + intros [Hs|(c & Hc & Es)]; [|by exists c; auto]. exists {| sockidx := i; ctx_fd := sock x |}. split; [|done]. right. apply Hnew. by exists x.
    + intros (c & [Hc|Hc] & <-); [right; by exists c|left]. apply Hnew in Hc as (y & Hy & Hs & _). congruence.
  - intros c [Hc|Hc]%elem_of_app; rewrite Hr.
    + destruct (Hd c Hc) as [b Hb]. rewrite list_lookup_fmap in Hb. destruct (l !! sockidx c) as [x|]; [|done]. injection Hb as <- _. by eexists.
    + apply Hnew in Hc as (x & -> & _ & ->). by eexists.
Qed.

(** ** The other operations *)

Lemma loop_same backgrd e n : forall i grab tclsock l r d len l', sockread_loop backgrd e n i grab tclsock l = (r, d, len, l') -> same_readers l l'.
Proof.
  induction n as [|n IH]; intros i grab tclsock l r d len l' E; [by injection E as _ _ _ <-|]. cbn [sockread_loop] in E. destruct (l !! i) as [x|] eqn:Hi; [|by injection E as _ _ _ <-].
  cbv zeta in E. revert E. case_if; [|apply IH]. assert (Hs : forall y, reader y = reader x -> same_readers l (<[i := y]> l)) by (intros; by eapply insert_same).
  case_if; [intros [= _ _ _ <-]; by apply Hs|]. destruct (e_read e i) as [[|b d0]|[]].
  - intros [= _ _ _ <-]. by apply Hs.
  - case_if; [case_if|]; intros [= _ _ _ <-]; by apply Hs.
  - intros E'. etransitivity; [|by eapply IH]. by apply Hs.
  - intros [= _ _ _ <-]. by apply Hs.
Qed.

Lemma pending_same n : forall i l r l', pending_loop n i l = Ok (r, l') -> same_readers l l'.
Proof.
  induction n as [|n IH]; intros i l r l' E; [by injection E as _ <-|]. cbn [pending_loop] in E. destruct (l !! i) as [x|] eqn:Hi; [|by injection E as _ <-].
  revert E. case_if; [apply IH|]. cbv zeta. intros E'. apply rbind_Ok_inv in E' as ([t h] & _ & E'). assert (Hs : same_readers l (<[i := with_buf h x]> l)) by (by eapply insert_same).
  destruct t; [|by injection E' as _ <-]. revert E'. case_if; [by intros [= _ <-]|]. intros E'. etransitivity; [exact Hs|by eapply IH].
Qed.

Lemma got_at_same x xx len r d n y : got_at x xx len = Ok (r, d, n, y) -> reader y = reader x.
Proof.
  unfold got_at. case_if; [by intros [= _ _ _ <-]|]. case_if.
  { intros E'. apply rbind_Ok_inv in E' as (z & Ez & [= _ _ _ <-]). revert Ez. case_if; [|by intros [= <-]]. intros Ez. by apply rbind_Ok_inv in Ez as (h & _ & [= <-]). }
  case_if; [by intros [= _ _ _ <-]|]. case_if; intros E'; apply rbind_Ok_inv in E' as (h & _ & E'); [by injection E' as _ _ _ <-|].
  apply rbind_Ok_inv in E' as ([t h1] & _ & E'). destruct t; [|by injection E' as _ _ _ <-]. apply rbind_Ok_inv in E' as ([t h2] & _ & E'). by destruct t; injection E' as _ _ _ <-.
Qed.

Lemma same_ok s l' js : one_reader s -> jobs s = js -> same_readers (socklist s) l' -> one_reader {| socklist := l'; jobs := js |}.
Proof. unfold one_reader, same_readers. cbn. by intros Hs <- ->. Qed.

Lemma sockread_ok backgrd e s r d len s' : one_reader s -> sockread backgrd e s = Ok (r, d, len, s') -> one_reader s'.
Proof.
  intros Hs. unfold sockread. case_if; [by intros [= _ _ _ <-]|]. intros E'. apply rbind_Ok_inv in E' as (s1 & E1 & E').
  assert (H1 : one_reader s1) by (eapply drain_ok; [|exact E1]; eapply same_ok; [exact Hs|done|]; apply callbacks_same, read_cb_same). clear E1.
  revert E'. case_if; [by intros [= _ _ _ <-]|]. intros E'. apply rbind_Ok_inv in E' as (s2 & E2 & E'). assert (H2 : one_reader s2).
  { eapply drain_ok; [|exact E2]. case_if; [|done]. pose proof (submit_ok s1 H1) as Hsub. by destruct (async_recv_submit_all (socklist s1)). }
  destruct (sockread_loop _ _ _ _ _ _ _) as [[[r0 d0] len0] l] eqn:El. injection E' as _ _ _ <-. eapply same_ok; [exact H2|done|by eapply loop_same].
Qed.

Lemma sockgets_ok backgrd e s r d len s' : one_reader s -> sockgets backgrd e s = Ok (r, d, len, s') -> one_reader s'.
Proof.
  intros Hs E. unfold sockgets in E. apply rbind_Ok_inv in E as ([p l] & E1 & E). apply pending_same in E1. cbv zeta in E.
  assert (H1 : one_reader {| socklist := l; jobs := jobs s |}) by (by eapply same_ok). destruct p as [[[r0 t] n]|]; [by injection E as _ _ _ <-|].
  apply rbind_Ok_inv in E as ([[[ret xx] n] s1] & E2 & E). apply sockread_ok in E2; [|done]. revert E. case_if; [by intros [= _ _ _ <-]|]. intros E'.
  destruct (socklist s1 !! Z.to_nat ret) as [x|] eqn:Hi; [|done]. apply rbind_Ok_inv in E' as ([[[r1 t] n1] y] & E3 & [= _ _ _ <-]). apply got_at_same in E3.
  eapply same_ok; [exact E2|done|by eapply insert_same].
Qed.

Lemma tputs_same terminal os name w z d l wire c l' : tputs terminal os name w z d l = Ok (wire, c, l') -> same_readers l l'.
Proof.
  unfold tputs. case_if; [by intros [= _ _ <-]|]. case_if; [intros E'; by apply rbind_Ok_inv in E' as (x & _ & [= _ _ <-])|].
  destruct (first_index _ l) as [i|]; [|by intros [= _ _ <-]]. destruct (l !! i) as [x|] eqn:Hi; [|by intros [= _ _ <-]].
  destruct (outbuf x); cbv zeta; [intros E'; apply rbind_Ok_inv in E' as ([k mb] & _ & [= _ _ <-]); by eapply insert_same|].
  case_if; [|by intros [= _ _ <-]]. destruct (egg_mbuf_alloc _); intros E'; [apply rbind_Ok_inv in E' as ([k mb] & _ & [= _ _ <-])|injection E' as _ _ <-]; by eapply insert_same.
Qed.

Lemma dequeue_one_same w x d b y : dequeue_one w x = Ok (d, b, y) -> reader y = reader x.
Proof.
  unfold dequeue_one. destruct (outbuf x); [|by intros [= _ _ <-]]. case_if; [|by intros [= _ _ <-]]. cbv zeta. intros E'. apply rbind_Ok_inv in E' as ([p1 p2] & _ & E').
  revert E'. destruct w as [k|[]]; [|by intros [= _ _ <-]..]. case_if; [|by intros [= _ _ <-]]. cbv zeta. case_if; by intros [= _ _ <-].
Qed.
Lemma dequeue_loop_same idx l : forall ws wire dones l', dequeue_loop idx ws l = Ok (wire, dones, l') -> same_readers l l'.
Proof.
  induction l as [|x l IH]; intros ws wire dones l' E; [by injection E as _ _ <-|]. cbn [dequeue_loop] in E.
  apply rbind_Ok_inv in E as ([[d b] y] & E1 & E). apply rbind_Ok_inv in E as ([[w1 d1] l1] & E2 & [= _ _ <-]). apply dequeue_one_same in E1. apply IH in E2.
  unfold same_readers in *. cbn. by rewrite E1, E2.
Qed.
Lemma dequeue_readers has_fde idx writable readable notified ws s wire dones s' : one_reader s ->
  dequeue_sockets has_fde idx writable readable notified ws s = Ok (wire, dones, s') -> one_reader s'.
Proof.
  intros Hs E. unfold dequeue_sockets in E. cbv zeta in E. set (l1 := map _ _) in E. assert (H1 : same_readers (socklist s) l1).
  { unfold l1, same_readers. clear. induction (socklist s) as [|x l IH]; [done|]. cbn. rewrite IH. f_equal. by case_if. }
  apply rbind_Ok_inv in E as (s1 & E1 & E). apply rbind_Ok_inv in E as ([[w1 d1] l2] & E2 & [= _ _ <-]). apply dequeue_loop_same in E2.
  eapply same_ok; [|done|exact E2]. revert E1. case_if; [|intros [= <-]; by eapply same_ok]. intros E1. eapply drain_ok; [|exact E1]. eapply same_ok; [exact Hs|done|].
  etransitivity; [exact H1|]. etransitivity; apply callbacks_same; [apply write_cb_same|apply read_cb_same].
Qed.

Lemma options_same z op opts l : same_readers l (snd (sockoptions z op opts l)).
Proof.
  unfold sockoptions. destruct (first_index _ l) as [i|]; [|done]. case_if; [by apply alter_same|]. case_if; [by apply alter_same|done].
Qed.
Lemma flush_same activity z l r d l' : flush_inbuf activity z l = Ok (r, d, l') -> same_readers l l'.
Proof.
  unfold flush_inbuf. destruct (first_index _ l) as [i|]; [|by intros [= _ _ <-]]. destruct (l !! i) as [x|] eqn:Hi; [|by intros [= _ _ <-]]. cbv zeta.
  case_if; [|by intros [= _ _ <-]]. case_if; [|by intros [= _ _ <-]]. intros E'. apply rbind_Ok_inv in E' as ([t h] & _ & [= _ _ <-]). by eapply insert_same.
Qed.

(** ** Every state that is reached *)

(** What happens to the table while the sockets stay. *)
Inductive net_step : nstate B -> nstate B -> Prop :=
| step_gets backgrd e s r d len s' : sockgets backgrd e s = Ok (r, d, len, s') -> net_step s s'
| step_puts terminal os name w z d s wire c l' : tputs terminal os name w z d (socklist s) = Ok (wire, c, l') -> net_step s {| socklist := l'; jobs := jobs s |}
| step_dequeue has_fde idx writable readable notified ws s wire dones s' :
    dequeue_sockets has_fde idx writable readable notified ws s = Ok (wire, dones, s') -> net_step s s'
| step_options z op opts s : net_step s {| socklist := snd (sockoptions z op opts (socklist s)); jobs := jobs s |}
| step_flush activity z s r d l' : flush_inbuf activity z (socklist s) = Ok (r, d, l') -> net_step s {| socklist := l'; jobs := jobs s |}.

(** C14. At any time at most one reads from a socket: in every state that calls of [sockgets], [tputs],
    [dequeue_sockets], [sockoptions] and [flush_inbuf] reach, whatever the system reports, no
    two threads have work for the same entry, the flag [recv_in_flight], which keeps [sockread]
    away, is set just for the entries that a thread has, and the descriptor is the one of the
    entry. *)
Theorem one_reader_reachable s s' : one_reader s -> rtc net_step s s' -> one_reader s'.
Proof.
  intros Hs Hr. induction Hr as [|s s1 s' H1 _ IH]; [done|]. apply IH. clear s' IH. destruct H1.
  - by eapply sockgets_ok.
  - eapply same_ok; [exact Hs|done|by eapply tputs_same].
  - by eapply dequeue_readers.
  - eapply same_ok; [exact Hs|done|apply options_same].
  - eapply same_ok; [exact Hs|done|by eapply flush_same].
Qed.
End readers.

(** ** Examples *)

Lemma fresh_one_reader {B} (s : nstate B) : jobs s = [] -> Forall (fun x => recv_in_flight x = false) (socklist s) -> one_reader s.
Proof.
  intros Hj Hf. unfold one_reader. rewrite Hj. split; [constructor| |by intros c Hc%not_elem_of_nil].
  intros i z b Hi. rewrite list_lookup_fmap in Hi. destruct (socklist s !! i) as [x|] eqn:Ex; [|done]. injection Hi as _ <-. rewrite (Forall_lookup_1 _ _ _ _ Hf Ex).
  split; [done|]. by intros (c & Hc%not_elem_of_nil & _).
Qed.

(** Two sockets are read by threads, which do not end, and the bot goes on. *)
Definition no_news (i : nat) : os_env :=
  {| e_failed := false; e_events := true; e_readable := [i]; e_notified := []; e_tcl := fun _ => false; e_stdin := false; e_async := true; e_drained := []; e_read := fun _ => RErr true |}.
Definition with_done (i : nat) (fin : list (nat * recv_out)) : os_env :=
  {| e_failed := false; e_events := true; e_readable := [i]; e_notified := fin; e_tcl := fun _ => false; e_stdin := false; e_async := true; e_drained := []; e_read := fun _ => RErr true |}.
Definition run_after (es : list os_env) (s : nstate buf_head) : nstate buf_head := match gets_run true es s with Ok (_, s) => s | Err _ => s end.

Lemma one_reader_reachable_witness : one_reader (run_after [no_news 0; no_news 2; no_news 0] two_sockets) /\ length (jobs (run_after [no_news 0; no_news 2; no_news 0] two_sockets)) = 2%nat.
Proof.
  split; [|reflexivity]. apply (one_reader_reachable two_sockets).
  - apply fresh_one_reader; [done|]. repeat constructor.
  - apply (rtc_l _ _ (run_after [no_news 0] two_sockets)); [eapply (step_gets true (no_news 0)); vm_compute; reflexivity|].
    apply (rtc_l _ _ (run_after [no_news 0; no_news 2] two_sockets)); [eapply (step_gets true (no_news 2)); vm_compute; reflexivity|].
    apply rtc_once. eapply (step_gets true (no_news 0)); vm_compute; reflexivity.
Defined.

(** A connection is closed while a thread reads from it, and the next one has its entry and its
    descriptor: what the thread has read becomes a line of the new connection. *)
Definition reopened (z : Z) (s : nstate buf_head) : nstate buf_head :=
  match killsock z (socklist s) with
  | Ok l => let '(_, _, _, l, _) := allocsock 100 90 z 0 l in {| socklist := l; jobs := jobs s |}
  | Err _ => s
  end.
Example recycled_gets_old_line :
  match gets_run true [with_done 0 [(0%nat, RGot (bs "old" ++ [10]))]; no_news 2] (reopened 5 (run_after [no_news 0] two_sockets)) with
  | Ok (os, _) => os | Err _ => [] end = [(-3, [], 0); (5, bs "old", 3)].
Proof. vm_compute. reflexivity. Qed.
(** And two threads read from it, so that its bytes can change their order. *)
Example recycled_two_readers :
  match gets_run true [no_news 0; with_done 2 [(1%nat, RGot (bs "second" ++ [10])); (0%nat, RGot (bs "first" ++ [10]))]; no_news 2; no_news 2] (reopened 5 (run_after [no_news 0] two_sockets)) with
  | Ok (os, _) => map (fun o => snd (fst o)) os | Err _ => [] end = [[]; []; bs "second"; bs "first"].
Proof. vm_compute. reflexivity. Qed.
