(* ===== verification/Binds.v ===== *)
(** * Binds (src/tclhash.c, src/tclhash.h, src/tclegg.h)

    Scripts and the bot itself bind commands to what happens: a bind table for each kind of
    event, in it masks, and at each mask commands with the flags they require.  Masks and
    tables have addresses, since a command that runs may bind and unbind while a table is
    being walked; arrays are lists, as [Vec] shows them to be, and a command is known by its
    place in the array of its mask.  [W] is the state of the interpreter and [Tcl_VarEval]
    what a procedure does: its effect on the interpreter, the operations on binds it asks
    for, and its result.  This is the build with Tcl. *)

From stdpp Require Import gmap list.
From S2P Require Import Htab Prelude LibC Rfc1459 Wildcard Match FlagDefs FlagText.
#[local] Open Scope Z_scope.

(** ** Constants *)

Definition TC_DELETED : Z := 1.
Definition TBM_DELETED : Z := 1.
Definition HT_STACKABLE : Z := 1.
Definition HT_DELETED : Z := 2.

Definition MATCH_PARTIAL : Z := 0.
Definition MATCH_EXACT : Z := 1.
Definition MATCH_MASK : Z := 2.
Definition MATCH_CASE : Z := 3.
Definition MATCH_MODE : Z := 4.
Definition MATCH_CRON : Z := 5.
Definition BIND_USE_ATTR : Z := 0x010.
Definition BIND_STACKABLE : Z := 0x020.
Definition BIND_HAS_BUILTINS : Z := 0x040.
Definition BIND_WANTRET : Z := 0x080.
Definition BIND_ALTER_ARGS : Z := 0x100.
Definition BIND_STACKRET : Z := 0x200.
Definition BIND_NOMATCH : Z := 0.
Definition BIND_AMBIGUOUS : Z := 1.
Definition BIND_EXECUTED : Z := 3.
Definition BIND_EXEC_LOG : Z := 4.
Definition BIND_QUIT : Z := 5.

Definition TCL_OK : Z := 0.
Definition TCL_ERROR : Z := 1.
Definition TCL_BREAK : Z := 3.

(** ** Data *)

Record tcl_cmd_t := { c_flags : flag_record; func_name : list Z; attributes : Z; hits : Z }.
Record tcl_bind_mask_t := { mask : list Z; tm_flags : Z; cmds : list tcl_cmd_t }.
(** [mask_ht] is [None] for a null pointer; a function pointer is a number, 0 for none. *)
Record tcl_bind_list_t := { name : list Z; tl_flags : Z; func : Z; masks : list Z; mask_ht : option (op_htab istr_key) }.

(** The memory, the globals of the file, and the interpreter. *)
Record bstate (W : Type) := {
  mem_masks : gmap Z tcl_bind_mask_t;
  mem_tables : gmap Z tcl_bind_list_t;
  fresh : Z;
  bind_table_vec : list Z;
  bind_table_ht : option (op_htab istr_key);
  tclhash_dirty : bool;
  interp : W
}.
Arguments mem_masks {W} _. Arguments mem_tables {W} _. Arguments fresh {W} _. Arguments bind_table_vec {W} _.
Arguments bind_table_ht {W} _. Arguments tclhash_dirty {W} _. Arguments interp {W} _. Arguments Build_bstate {W} _ _ _ _ _ _ _.

(** A pointer that is null, one that does not point to what it should, a byte behind the end
    of a string, a loop that does not end, a hash table that is not well formed, and more
    allocations than are considered. *)
Inductive bfault := NullCommand | BadPointer (a : Z) | BehindEnd | NoEnd | BadTable | TooMany.

Definition of_ht {A} (r : result diverged A) : result bfault A := match r with Ok x => Ok x | Err _ => Err BadTable end.

Section State.
Context {W : Type}.
Implicit Types s : bstate W.

Definition store_mask (a : Z) (tm : tcl_bind_mask_t) s : bstate W :=
  Build_bstate (<[a := tm]> (mem_masks s)) (mem_tables s) (fresh s) (bind_table_vec s) (bind_table_ht s) (tclhash_dirty s) (interp s).
Definition put_table (t : Z) (tl : tcl_bind_list_t) s : bstate W :=
  Build_bstate (mem_masks s) (<[t := tl]> (mem_tables s)) (fresh s) (bind_table_vec s) (bind_table_ht s) (tclhash_dirty s) (interp s).
Definition mark_dirty (b : bool) s : bstate W :=
  Build_bstate (mem_masks s) (mem_tables s) (fresh s) (bind_table_vec s) (bind_table_ht s) b (interp s).
Definition set_interp (w : W) s : bstate W :=
  Build_bstate (mem_masks s) (mem_tables s) (fresh s) (bind_table_vec s) (bind_table_ht s) (tclhash_dirty s) w.
Definition set_tables (v : list Z) (ht : option (op_htab istr_key)) s : bstate W :=
  Build_bstate (mem_masks s) (mem_tables s) (fresh s) v ht (tclhash_dirty s) (interp s).
Definition free_masks (l : list Z) s : bstate W :=
  Build_bstate (foldr delete (mem_masks s) l) (mem_tables s) (fresh s) (bind_table_vec s) (bind_table_ht s) (tclhash_dirty s) (interp s).
Definition free_table (t : Z) s : bstate W :=
  Build_bstate (mem_masks s) (delete t (mem_tables s)) (fresh s) (bind_table_vec s) (bind_table_ht s) (tclhash_dirty s) (interp s).
(** An address that is not in use. *)
Definition bh_alloc s : result bfault (Z * bstate W) :=
  if 2 ^ 50 <=? fresh s then Err TooMany
  else Ok (fresh s, Build_bstate (mem_masks s) (mem_tables s) (fresh s + 1) (bind_table_vec s) (bind_table_ht s) (tclhash_dirty s) (interp s)).

Definition get_mask s (a : Z) : result bfault tcl_bind_mask_t :=
  match mem_masks s !! a with Some tm => Ok tm | None => Err (BadPointer a) end.
Definition get_table s (t : Z) : result bfault tcl_bind_list_t :=
  match mem_tables s !! t with Some tl => Ok tl | None => Err (BadPointer t) end.

Definition with_cmds (cs : list tcl_cmd_t) (tm : tcl_bind_mask_t) : tcl_bind_mask_t :=
  {| mask := mask tm; tm_flags := tm_flags tm; cmds := cs |}.
Definition with_masks (ms : list Z) (ht : option (op_htab istr_key)) (tl : tcl_bind_list_t) : tcl_bind_list_t :=
  {| name := name tl; tl_flags := tl_flags tl; func := func tl; masks := ms; mask_ht := ht |}.

(** ** Commands *)

Definition deleted (tc : tcl_cmd_t) : bool := attributes tc &? TC_DELETED.
Definition delete_cmd (tc : tcl_cmd_t) : tcl_cmd_t :=
  {| c_flags := c_flags tc; func_name := func_name tc; attributes := attributes tc ||| TC_DELETED; hits := hits tc |}.
Definition hit (tc : tcl_cmd_t) : tcl_cmd_t :=
  {| c_flags := c_flags tc; func_name := func_name tc; attributes := attributes tc; hits := u32 (hits tc + 1) |}.
(** [match] is set and [flags] are read. *)
Definition set_cmd_flags (flags : list Z) (tc : tcl_cmd_t) : tcl_cmd_t :=
  {| c_flags := fst (break_down_flags flags (with_match (FR_GLOBAL ||| FR_CHAN) (c_flags tc)) None);
     func_name := func_name tc; attributes := attributes tc; hits := hits tc |}.
Definition tcl_cmd_alloc (proc : list Z) : tcl_cmd_t :=
  {| c_flags := fr_zero; func_name := proc; attributes := 0; hits := 0 |}.

(** The first command of an array that is not deleted and passes a test, by its place. *)
Fixpoint first_live (f : tcl_cmd_t -> bool) (l : list tcl_cmd_t) : option nat :=
  match l with
  | [] => None
  | tc :: l => if negb (deleted tc) && f tc then Some O else S <$> first_live f l
  end.

(** ** Masks *)

(** The walk that is taken where there is no hash table. *)
Fixpoint scan_masks s (l : list Z) (m : list Z) : result bfault Z :=
  match l with
  | [] => Ok 0
  | a :: l => let! tm := get_mask s a in
      if negb (tm_flags tm &? TBM_DELETED) && streq (mask tm) m then Ok a else scan_masks s l m
  end.
(** The mask of a table with this text, 0 if it has none or has deleted it. *)
Definition mask_entry s (tl : tcl_bind_list_t) (m : list Z) : result bfault Z :=
  match mask_ht tl with
  | Some ht =>
      let! a := of_ht (op_htab_get ht (IstrKey m)) in
      if a =? 0 then Ok 0
      else let! tm := get_mask s a in Ok (if tm_flags tm &? TBM_DELETED then 0 else a)
  | None => scan_masks s (masks tl) m
  end.

Definition find_or_add_mask s (t : Z) (m : list Z) : result bfault (Z * bstate W) :=
  let! tl := get_table s t in
  let! a := mask_entry s tl m in
  if negb (a =? 0) then Ok (a, s)
  else
    let! r := bh_alloc s in let '(a, s) := r in
    let s := store_mask a {| mask := m; tm_flags := 0; cmds := [] |} s in
    match mask_ht tl with
    | Some ht =>
        let! r := of_ht (op_htab_set ht (IstrKey m) a) in let '(_, _, ht) := r in
        Ok (a, put_table t (with_masks (masks tl ++ [a]) (Some ht) tl) s)
    | None => Ok (a, put_table t (with_masks (masks tl ++ [a]) None tl) s)
    end.

(** ** Tables *)

Fixpoint scan_tables s (l : list Z) (nme : list Z) : result bfault Z :=
  match l with
  | [] => Ok 0
  | t :: l => let! tl := get_table s t in
      if negb (tl_flags tl &? HT_DELETED) && same_name (name tl) nme then Ok t else scan_tables s l nme
  end.
(** 0 for none. *)
Definition find_bind_table s (nme : list Z) : result bfault Z :=
  match bind_table_ht s with
  | Some ht =>
      let! t := of_ht (op_htab_get ht (IstrKey nme)) in
      if t =? 0 then Ok 0
      else let! tl := get_table s t in Ok (if tl_flags tl &? HT_DELETED then 0 else t)
  | None => scan_tables s (bind_table_vec s) nme
  end.

Definition add_bind_table s (nme : list Z) (flg fn : Z) : result bfault (Z * bstate W) :=
  let! t := find_bind_table s nme in
  if negb (t =? 0) then
    let! tl := get_table s t in
    if truthy fn && (func tl =? 0) then
      Ok (t, put_table t {| name := name tl; tl_flags := tl_flags tl; func := fn; masks := masks tl; mask_ht := mask_ht tl |} s)
    else Ok (t, s)
  else
    let! r := bh_alloc s in let '(t, s) := r in
    let nm := take 15 nme in
    let s := put_table t {| name := nm; tl_flags := u8 flg; func := fn; masks := []; mask_ht := Some (op_htab_create 16) |} s in
    let v := bind_table_vec s ++ [t] in
    match bind_table_ht s with
    | Some ht => let! r := of_ht (op_htab_set ht (IstrKey nm) t) in let '(_, _, ht) := r in Ok (t, set_tables v (Some ht) s)
    | None => Ok (t, set_tables v None s)
    end.

(** [t] is 0 for a null pointer. *)
Definition del_bind_table s (t : Z) : result bfault (bstate W) :=
  if t =? 0 then Ok s
  else
    let! tl := get_table s t in
    if tl_flags tl &? HT_DELETED then Ok s
    else
      let s := put_table t {| name := name tl; tl_flags := tl_flags tl ||| HT_DELETED; func := func tl; masks := masks tl; mask_ht := mask_ht tl |} s in
      match bind_table_ht s with
      | Some ht => let! r := of_ht (op_htab_del ht (IstrKey (name tl))) in
          Ok (mark_dirty true (set_tables (bind_table_vec s) (Some (snd r)) s))
      | None => Ok (mark_dirty true s)
      end.

(** ** Binding and unbinding *)

(** 0 or 1, as the function returns it. *)
Definition bind_bind_entry s (t : Z) (flags cmd proc : list Z) : result bfault (Z * bstate W) :=
  if t =? 0 then Ok (0, s)
  else
    let! r := find_or_add_mask s t cmd in let '(a, s) := r in
    let! tm := get_mask s a in
    match first_live (fun tc => streq (func_name tc) proc) (cmds tm) with
    | Some i => Ok (1, store_mask a (with_cmds (alter (set_cmd_flags flags) i (cmds tm)) tm) s)
    | None =>
        let! tl := get_table s t in
        let old :=
          if negb (tl_flags tl &? HT_STACKABLE) then
            match first_live (fun _ => true) (cmds tm) with Some i => alter delete_cmd i (cmds tm) | None => cmds tm end
          else cmds tm in
        Ok (1, mark_dirty true (store_mask a (with_cmds (old ++ [set_cmd_flags flags (tcl_cmd_alloc proc)]) tm) s))
    end.

Definition unbind_bind_entry s (t : Z) (flags cmd proc : list Z) : result bfault (Z * bstate W) :=
  if t =? 0 then Ok (0, s)
  else
    let! tl := get_table s t in
    let! a := mask_entry s tl cmd in
    if a =? 0 then Ok (0, s)
    else
      let! tm := get_mask s a in
      match first_live (fun tc => same_name (func_name tc) proc) (cmds tm) with
      | Some i => Ok (1, mark_dirty true (store_mask a (with_cmds (alter delete_cmd i (cmds tm)) tm) s))
      | None => Ok (0, s)
      end.

(** The builtin commands of the C code: their names, flags and, where it is not the name, the
    name of the function.  [quote] is [Tcl_ScanElement] with [Tcl_ConvertElement]. *)
Record cmd_t := { cmd_name : list Z; cmd_flags : list Z; cmd_funcname : option (list Z) }.
Definition builtin_name (tl : tcl_bind_list_t) (c : cmd_t) : list Z :=
  bs "*" ++ name tl ++ bs ":" ++ default (cmd_name c) (cmd_funcname c).
Definition each_builtin (f : bstate W -> Z -> list Z -> list Z -> list Z -> result bfault (Z * bstate W))
    (quote : list Z -> list Z) (t : Z) : list cmd_t -> bstate W -> result bfault (bstate W) :=
  fix go cc s :=
    match cc with
    | [] => Ok s
    | c :: cc =>
        let! tl := get_table s t in
        let! r := f s t (cmd_flags c) (cmd_name c) (quote (builtin_name tl c)) in
        go cc (snd r)
    end.
Definition add_builtins := each_builtin bind_bind_entry.
Definition rem_builtins := each_builtin unbind_bind_entry.

(** The check a builtin makes of the name it is called by. *)
Definition check_validity s (nme : list Z) (fn : Z) : result bfault bool :=
  match nme with
  | c :: rest =>
      if c =? ch "*" then
        match strchr rest (ch ":") with
        | None => Ok false
        | Some p =>
            let! t := find_bind_table s (take (length rest - length p) rest) in
            if t =? 0 then Ok false else let! tl := get_table s t in Ok (func tl =? fn)
        end
      else Ok false
  | [] => Ok false
  end.

(** ** Collecting what is deleted *)

(** [op_vec_remove_fast]: the last element takes the place. *)
Definition remove_fast {A} (i : nat) (l : list A) : list A :=
  match last l with Some x => removelast (<[i := x]> l) | None => l end.

(** The commands of a mask, from place [n - 1] down. *)
Fixpoint gc_cmds (n : nat) (l : list tcl_cmd_t) : list tcl_cmd_t :=
  match n with
  | O => l
  | S ci =>
      gc_cmds ci (match l !! ci with Some tc => if deleted tc then remove_fast ci l else l | None => l end)
  end.

Fixpoint gc_masks (n : nat) (t : Z) s : result bfault (bstate W) :=
  match n with
  | O => Ok s
  | S mi =>
      let! tl := get_table s t in
      match masks tl !! mi with
      | None => gc_masks mi t s
      | Some a =>
          let! tm := get_mask s a in
          let cs := if tm_flags tm &? TBM_DELETED then cmds tm else gc_cmds (length (cmds tm)) (cmds tm) in
          if (tm_flags tm &? TBM_DELETED) || match cs with [] => true | _ => false end then
            let! ht :=
              match mask_ht tl with
              | Some ht => let! r := of_ht (op_htab_del ht (IstrKey (mask tm))) in Ok (Some (snd r))
              | None => Ok None
              end in
            gc_masks mi t (put_table t (with_masks (remove_fast mi (masks tl)) ht tl) (free_masks [a] s))
          else gc_masks mi t (store_mask a (with_cmds cs tm) s)
      end
  end.

Definition tcl_bind_list_delete (t : Z) (tl : tcl_bind_list_t) s : bstate W := free_table t (free_masks (masks tl) s).

Fixpoint gc_tables (n : nat) s : result bfault (bstate W) :=
  match n with
  | O => Ok s
  | S ti =>
      match bind_table_vec s !! ti with
      | None => gc_tables ti s
      | Some t =>
          let! tl := get_table s t in
          if tl_flags tl &? HT_DELETED then
            gc_tables ti (set_tables (remove_fast ti (bind_table_vec s)) (bind_table_ht s) (tcl_bind_list_delete t tl s))
          else let! s := gc_masks (length (masks tl)) t s in gc_tables ti s
      end
  end.

Definition garbage_collect_tclhash s : result bfault (bstate W) :=
  if negb (tclhash_dirty s) then Ok s else gc_tables (length (bind_table_vec s)) (mark_dirty false s).

(** ** The Tcl commands bind and unbind *)

(** The names of the tables that are not deleted. *)
Fixpoint dump_bind_tables s (l : list Z) : result bfault (list (list Z)) :=
  match l with
  | [] => Ok []
  | t :: l => let! tl := get_table s t in let! ns := dump_bind_tables s l in
      Ok (if tl_flags tl &? HT_DELETED then ns else name tl :: ns)
  end.
Fixpoint getbinds s (l : list Z) (nm : list Z) : result bfault (list (list Z)) :=
  match l with
  | [] => Ok []
  | a :: l => let! tm := get_mask s a in
      if negb (tm_flags tm &? TBM_DELETED) && same_name (mask tm) nm then
        Ok (map func_name (List.filter (fun tc => negb (deleted tc)) (cmds tm)))
      else getbinds s l nm
  end.
Definition tcl_getbinds s (t : Z) (nm : list Z) : result bfault (list (list Z)) :=
  let! tl := get_table s t in getbinds s (masks tl) nm.

Definition byte (l : list Z) (i : nat) : result bfault Z :=
  match l !! i with Some c => Ok c | None => if Nat.eqb i (length l) then Ok 0 else Err BehindEnd end.
(** Whether what could not be unbound is not a builtin either. *)
Definition not_builtin (type cmd proc : list Z) : result bfault bool :=
  let! c := byte proc 0 in
  if negb (c =? ch "*") then Ok true
  else
    let! c := byte proc 4 in
    if negb (c =? ch ":") then Ok true
    else Ok (negb (streq cmd (drop 5 proc)) || negb (streq (take 3 type) (take 3 (drop 1 proc)))).

(** [argv] without the name of the command; the code and the result, as a list of words. *)
Definition tcl_bind s (cd : Z) (argv : list (list Z)) : result bfault (Z * list (list Z) * bstate W) :=
  match argv with
  | type :: flags :: cmd :: rest =>
      if (match rest with [] => negb (cd =? 1) | [_] => true | _ => false end) then
        let! t := find_bind_table s type in
        if t =? 0 then let! ns := dump_bind_tables s (bind_table_vec s) in Ok (TCL_ERROR, ns, s)
        else
          match rest with
          | proc :: _ =>
              if cd =? 1 then
                let! r := unbind_bind_entry s t flags cmd proc in let '(found, s) := r in
                if negb (truthy found) then
                  let! bad := not_builtin type cmd proc in
                  if bad then Ok (TCL_ERROR, [bs "no such binding"], s) else Ok (TCL_OK, [cmd], s)
                else Ok (TCL_OK, [cmd], s)
              else let! r := bind_bind_entry s t flags cmd proc in Ok (TCL_OK, [cmd], snd r)
          | [] => let! ns := tcl_getbinds s t cmd in Ok (TCL_OK, ns, s)
          end
      else Ok (TCL_ERROR, [bs "wrong # args"], s)
  | _ => Ok (TCL_ERROR, [bs "wrong # args"], s)
  end.

(** ** Matching *)

Definition match_kind (match_type : Z) : Z := Z.land match_type 7.
Definition check_bind_match (match_ mask : list Z) (match_type : Z) : bool :=
  let k := match_kind match_type in
  if k =? MATCH_PARTIAL then prefix_nocase match_ mask
  else if k =? MATCH_EXACT then same_name match_ mask
  else if k =? MATCH_CASE then streq match_ mask
  else if k =? MATCH_MASK then truthy (_wild_match_per mask match_ (Some (casecharcmp _rfc_toupper)))
  else if k =? MATCH_MODE then truthy (_wild_match_per mask match_ (Some (casecharcmp _rfc_toupper)))
  else if k =? MATCH_CRON then cron_match mask match_
  else false.
(** The settings [require-p] and [allow-dk-cmds]. *)
Context (require_p allow_dk_cmds : bool).
Definition check_bind_flags (flags atr : flag_record) (match_type : Z) : bool :=
  if match_type &? BIND_USE_ATTR then
    if match_type &? BIND_HAS_BUILTINS then flagrec_ok require_p allow_dk_cmds flags atr else flagrec_eq flags atr
  else true.

(** ** Running commands *)

(** What a script or a module may do to the binds: [bind], [unbind], and tables that come and
    go by their names. *)
Inductive bind_op :=
| TclBind (cd : Z) (argv : list (list Z))
| AddTable (nme : list Z) (flg fn : Z)
| DelTable (nme : list Z).

Definition do_bind_op (o : bind_op) s : result bfault (bstate W) :=
  match o with
  | TclBind cd argv => let! r := tcl_bind s cd argv in Ok (snd r)
  | AddTable nme flg fn => let! r := add_bind_table s nme flg fn in Ok (snd r)
  | DelTable nme => let! t := find_bind_table s nme in del_bind_table s t
  end.
Fixpoint do_bind_ops (os : list bind_op) s : result bfault (bstate W) :=
  match os with [] => Ok s | o :: os => let! s := do_bind_op o s in do_bind_ops os s end.

(** The code of a procedure, and of its result what is read: the text, as a number, and
    whether it is empty when the procedure is over. *)
Record tcl_result := { tcl_code : Z; tcl_resultstring : list Z; tcl_resultint : Z; tcl_resultempty : bool }.

Context (Tcl_VarEval : bstate W -> list Z -> list Z -> W * list bind_op * tcl_result).

(** What [trigger_bind] makes of the result: a builtin that ends a session breaks out of it. *)
Definition trigger_result (proc : list Z) (r : tcl_result) : Z :=
  if tcl_code r =? TCL_ERROR then
    if match proc with c :: _ => c =? ch "*" | [] => false end &&
       match strstr (tcl_resultstring r) [34; 98; 114; 101; 97; 107; 34; 32; 111; 117; 116; 115; 105; 100; 101] with Some _ => true | None => false end
    then BIND_QUIT else BIND_EXECUTED
  else if tcl_code r =? TCL_BREAK then BIND_QUIT
  else if 0 <? tcl_resultint r then BIND_EXEC_LOG else BIND_EXECUTED.

(** The mask is the variable lastbind. *)
Definition trigger_bind s (proc mask : list Z) : result bfault (Z * bool * bstate W) :=
  let '(w, os, r) := Tcl_VarEval s proc mask in
  let! s := do_bind_ops os (set_interp w s) in Ok (trigger_result proc r, tcl_resultempty r, s).

(** The variables of [check_tcl_bind]: [found] is [found_mask_idx], a command is its mask and
    its place there. *)
Record bind_walk := { cnt : Z; res : Z; found : option nat; htc : option (Z * nat); finish : bool }.
Definition walk0 : bind_walk := {| cnt := 0; res := 0; found := None; htc := None; finish := false |}.
Definition with_res (x : Z) (w : bind_walk) : bind_walk :=
  {| cnt := cnt w; res := if res w =? 0 then x else res w; found := found w; htc := htc w; finish := finish w |}.

Definition hit_cmd s (a : Z) (ci : nat) : result bfault (bstate W) :=
  let! tm := get_mask s a in Ok (store_mask a (with_cmds (alter hit ci (cmds tm)) tm) s).

Section Dispatch.
Context (match_ : list Z) (atr : flag_record) (match_type : Z).

Definition eligible (tc : tcl_cmd_t) : bool := negb (deleted tc) && check_bind_flags (c_flags tc) atr match_type.

(** The commands of the mask that an exact search has found; [inl x] is a jump to [finally]. *)
Fixpoint exact_loop (fuel : nat) s (a : Z) (ci : nat) (w : bind_walk) : result bfault ((Z + bind_walk) * bstate W) :=
  match fuel with
  | O => Err NoEnd
  | S fuel =>
      let! tm := get_mask s a in
      match cmds tm !! ci with
      | None => Ok (inr w, s)
      | Some tc =>
          if negb (eligible tc) then exact_loop fuel s a (S ci) w
          else if negb (match_type &? BIND_STACKABLE) then
            Ok (inr {| cnt := 1; res := res w; found := found w; htc := Some (a, ci); finish := finish w |}, s)
          else
            let w := {| cnt := cnt w + 1; res := res w; found := found w; htc := htc w; finish := finish w |} in
            let! s := hit_cmd s a ci in
            let! r := trigger_bind s (func_name tc) (mask tm) in let '(x, empty, s) := r in
            if (match_type &? BIND_ALTER_ARGS) && empty then Ok (inl x, s)
            else if (match_type &? BIND_STACKRET) && (x =? BIND_EXEC_LOG) then exact_loop fuel s a (S ci) (with_res x w)
            else if (match_type &? BIND_WANTRET) && (x =? BIND_EXEC_LOG) then Ok (inl x, s)
            else exact_loop fuel s a (S ci) w
      end
  end.

(** The commands of the mask at place [mi]. *)
Fixpoint cmds_loop (fuel : nat) s (mi : nat) (a : Z) (ci : nat) (w : bind_walk) : result bfault ((Z + bind_walk) * bstate W) :=
  match fuel with
  | O => Err NoEnd
  | S fuel =>
      let! tm := get_mask s a in
      match cmds tm !! ci with
      | None => Ok (inr w, s)
      | Some tc =>
          if negb (eligible tc) then cmds_loop fuel s mi a (S ci) w
          else if negb (match_type &? BIND_STACKABLE) then
            let last_one := negb (match_kind match_type =? MATCH_PARTIAL) || same_name match_ (mask tm) in
            Ok (inr {| cnt := if last_one then 1 else cnt w + 1; res := res w; found := Some mi; htc := Some (a, ci);
                       finish := last_one |}, s)
          else
            let w := {| cnt := cnt w + 1; res := res w; found := Some mi; htc := htc w; finish := finish w |} in
            let! s := hit_cmd s a ci in
            let! r := trigger_bind s (func_name tc) (mask tm) in let '(x, empty, s) := r in
            if match_type &? BIND_ALTER_ARGS then
              if empty then Ok (inl x, s) else cmds_loop fuel s mi a (S ci) w
            else if (match_type &? BIND_STACKRET) && (x =? BIND_EXEC_LOG) then cmds_loop fuel s mi a (S ci) (with_res x w)
            else if (match_type &? BIND_WANTRET) && (x =? BIND_EXEC_LOG) then Ok (inl x, s)
            else cmds_loop fuel s mi a (S ci) w
      end
  end.

Fixpoint masks_loop (lim fuel : nat) s (t : Z) (mi : nat) (w : bind_walk) : result bfault ((Z + bind_walk) * bstate W) :=
  match fuel with
  | O => Err NoEnd
  | S fuel =>
      let! tl := get_table s t in
      match masks tl !! mi with
      | None => Ok (inr w, s)
      | Some a =>
          if finish w then Ok (inr w, s)
          else
            let! tm := get_mask s a in
            if (tm_flags tm &? TBM_DELETED) || negb (check_bind_match match_ (mask tm) match_type) then
              masks_loop lim fuel s t (S mi) w
            else
              let! r := cmds_loop lim s mi a 0 w in
              match r with
              | (inl x, s) => Ok (inl x, s)
              | (inr w, s) => masks_loop lim fuel s t (S mi) w
              end
      end
  end.

(** [htc->hits++], and the call. *)
Definition dispatch s (c : option (Z * nat)) : result bfault (Z * bstate W) :=
  match c with
  | None => Err NullCommand
  | Some (a, ci) =>
      let! tm := get_mask s a in
      match cmds tm !! ci with
      | None => Err (BadPointer a)
      | Some tc => let! r := trigger_bind s (func_name tc) (mask tm) in let '(x, _, s) := r in Ok (x, s)
      end
  end.

Definition to_front (mi : nat) (l : list Z) : list Z :=
  match l !! mi with Some a => a :: delete mi l | None => l end.

Definition check_exact (lim : nat) s (ht : op_htab istr_key) : result bfault (Z * bstate W) :=
  let! a := of_ht (op_htab_get ht (IstrKey match_)) in
  if a =? 0 then Ok (BIND_NOMATCH, s)
  else
    let! tm := get_mask s a in
    if tm_flags tm &? TBM_DELETED then Ok (BIND_NOMATCH, s)
    else
      let! r := exact_loop lim s a 0 walk0 in
      match r with
      | (inl x, s) => Ok (x, s)
      | (inr w, s) =>
          if cnt w =? 0 then Ok (BIND_NOMATCH, s)
          else if truthy (res w) then Ok (res w, s)
          else
            match htc w with
            | Some (a, ci) => let! s := hit_cmd s a ci in dispatch s (Some (a, ci))
            | None => Ok (BIND_EXECUTED, s)
            end
      end.

Definition check_tcl_bind (lim : nat) s (t : Z) : result bfault (Z * bstate W) :=
  if t =? 0 then Ok (BIND_NOMATCH, s)
  else
    let! tl := get_table s t in
    match (if match_kind match_type =? MATCH_EXACT then mask_ht tl else None) with
    | Some ht => check_exact lim s ht
    | None =>
        let! r := masks_loop lim lim s t 0 walk0 in
        match r with
        | (inl x, s) => Ok (x, s)
        | (inr w, s) =>
            if cnt w =? 0 then Ok (BIND_NOMATCH, s)
            else if truthy (res w) then Ok (res w, s)
            else if (match_kind match_type =? MATCH_MASK) || (match_kind match_type =? MATCH_CASE) then Ok (BIND_EXECUTED, s)
            else
              let! s := match htc w with Some (a, ci) => hit_cmd s a ci | None => Ok s end in
              if 1 <? cnt w then Ok (BIND_AMBIGUOUS, s)
              else
                let! tl := get_table s t in
                let s := match found w with
                         | Some (S mi) => put_table t (with_masks (to_front (S mi) (masks tl)) (mask_ht tl) tl) s
                         | _ => s
                         end in
                dispatch s (htc w)
        end
    end.
End Dispatch.
End State.
