(* ===== verification/BindsCmds.v ===== *)
(** * The commands of a mask, and tables that index

    Hash tables as indexes of a relation between names, up to case, and addresses; the commands
    of a mask as a map from procedures to flags ([has]), and what binding, unbinding and
    collecting do to it. *)

From stdpp Require Import gmap list.
From S2P Require Import Htab HtabRing HtabMap Prelude LibC Rfc1459 Wildcard Match FlagDefs FlagText Binds.
#[local] Open Scope Z_scope.

Definition fold_name (m : list Z) : list Z := map istr_fold m.

(** A result that is right, or one of the allowed faults. *)
Definition safe {A} (E : bfault -> Prop) (Q : A -> Prop) (r : result bfault A) : Prop :=
  match r with Ok x => Q x | Err e => E e end.

Lemma safe_let {A B} E Q Q' (r : result bfault A) (f : A -> result bfault B) :
  safe E Q r -> (forall x, Q x -> safe E Q' (f x)) -> safe E Q' (rbind r f).
Proof. destruct r; cbn; eauto. Qed.
Lemma safe_mono {A} (E E' : bfault -> Prop) (Q Q' : A -> Prop) r :
  safe E Q r -> (forall e, E e -> E' e) -> (forall x, Q x -> Q' x) -> safe E' Q' r.
Proof. destruct r; cbn; eauto. Qed.

(** ** Hash tables that index a relation *)

Record indexes (ht : op_htab istr_key) (n : Z) (P : list Z -> Z -> Prop) : Prop := {
  ix_wf : wf ht;
  ix_small : small n ht;
  ix_iff k a : snd <$> abs ht !! k = Some a <-> P k a
}.

Lemma indexes_mono ht n n' P P' : indexes ht n P -> n <= n' -> (forall k a, P k a <-> P' k a) -> indexes ht n' P'.
Proof. intros [W [S1 S2] I] Hn HP. split; [done|split; lia|]. intros k a. by rewrite I. Qed.

Lemma index_get ht n P m : indexes ht n P -> (forall k a, P k a -> a <> 0) ->
  exists v, of_ht (op_htab_get ht (IstrKey m)) = Ok v /\ if v =? 0 then forall a, ~ P (fold_name m) a else P (fold_name m) v.
Proof.
  intros [W S I] Hp. rewrite htab_get_spec by done. unfold value_at. cbn [of_ht norm istr_laws istr_of].
  destruct (abs ht !! map istr_fold m) as [[k v]|] eqn:E; eexists; (split; [done|]).
  - assert (HP : P (fold_name m) v) by (apply I; unfold fold_name; by rewrite E).
    rewrite (proj2 (Z.eqb_neq v 0)); [done|by apply (Hp _ _ HP)].
  - cbn. intros a HP%I. unfold fold_name in HP. by rewrite E in HP.
Qed.

Lemma index_set ht n P m a : indexes ht n P -> n <= 2 ^ 50 -> (forall b, ~ P (fold_name m) b) ->
  exists rc old ht', of_ht (op_htab_set ht (IstrKey m) a) = Ok (rc, old, ht') /\
    indexes ht' (n + 1) (fun k b => P k b \/ (k = fold_name m /\ b = a)).
Proof.
  intros [W S I] Hn Hm. destruct (htab_set_spec ht (IstrKey m) a W) as (ht' & E & W' & A & C & G).
  { destruct S as [S1 S2]. lia. }
  assert (Hnone : abs ht !! fold_name m = None).
  { destruct (abs ht !! fold_name m) as [[k v]|] eqn:E'; [|done]. destruct (Hm v). apply I. by rewrite E'. }
  cbn [norm istr_laws istr_of] in E, A. fold (fold_name m) in E, A. rewrite Hnone in E, A.
  exists 1, 0, ht'. rewrite E. split; [done|]. split; [done|by apply (small_grown n ht)|].
  intros k b. rewrite A. destruct (decide (k = fold_name m)) as [->|Hk].
  - rewrite lookup_insert. destruct (decide _); [|done]. cbn. split; [intros [= <-]; by right|].
    intros [HP|[_ ->]]; [by destruct (Hm b)|done].
  - rewrite lookup_insert_ne by done. rewrite I. split; [by left|by intros [?|[? ?]]].
Qed.

Lemma index_del ht n P m : indexes ht n P ->
  exists v ht', of_ht (op_htab_del ht (IstrKey m)) = Ok (v, ht') /\ indexes ht' n (fun k b => P k b /\ k <> fold_name m).
Proof.
  intros [W S I]. destruct (htab_del_spec ht (IstrKey m) W) as (ht' & E & W' & A & C & L).
  eexists _, ht'. rewrite E. split; [done|]. destruct S as [S1 S2]. split; [done|split; [lia|rewrite L; lia]|].
  cbn [norm istr_laws istr_of] in A. fold (fold_name m) in A. intros k b. rewrite A.
  destruct (decide (k = fold_name m)) as [->|Hk].
  - rewrite lookup_delete. destruct (decide _); [|done]. split; [done|by intros [_ ?]].
  - rewrite lookup_delete_ne by done. rewrite I. split; [done|by intros [? _]].
Qed.

Lemma index_create n P : 0 <= n -> (forall k a, ~ P k a) -> indexes (op_htab_create 16) n P.
Proof.
  intros Hn HP. destruct (create_spec (K := istr_key) 16 ltac:(lia)) as (W & A & C & L).
  split; [done|split; rewrite ?C; lia|]. intros k a. rewrite A, lookup_empty. split; [done|]. intros H. by destruct (HP k a).
Qed.

(** ** Commands of a mask *)

Definition live (cs : list tcl_cmd_t) : list tcl_cmd_t := List.filter (fun tc => negb (deleted tc)) cs.

(** A procedure is bound with these flags. *)
Definition has (cs : list tcl_cmd_t) (p : list Z) (fl : flag_record) : Prop :=
  exists tc, tc ∈ live cs /\ func_name tc = p /\ c_flags tc = fl.

Definition stackable (tl : tcl_bind_list_t) : bool := tl_flags tl &? HT_STACKABLE.

Record mask_ok (stack : bool) (tm : tcl_bind_mask_t) : Prop := {
  mo_flags : tm_flags tm = 0;
  mo_names : NoDup (map func_name (live (cmds tm)));
  mo_single : stack = false -> (length (live (cmds tm)) <= 1)%nat
}.

Lemma live_app l1 l2 : live (l1 ++ l2) = live l1 ++ live l2.
Proof. apply List.filter_app. Qed.

Lemma live_cons tc l : live (tc :: l) = if deleted tc then live l else tc :: live l.
Proof. cbn. by destruct (deleted tc). Qed.

Lemma first_live_split f l i : first_live f l = Some i -> exists l1 tc l2, l = l1 ++ tc :: l2 /\ length l1 = i /\
  deleted tc = false /\ f tc = true /\ forall x, x ∈ live l1 -> f x = false.
Proof.
  revert i. induction l as [|c l IH]; intros i; [done|]. cbn [first_live]. destruct (negb (deleted c) && f c) eqn:E.
  - intros [= <-]. apply andb_true_iff in E as [Ed Ef]. apply negb_true_iff in Ed. exists [], c, l. repeat split; [done|done|].
    intros x Hx. by apply elem_of_nil in Hx.
  - destruct (first_live f l) as [j|]; [|done]. intros [= <-]. destruct (IH j eq_refl) as (l1 & tc & l2 & -> & <- & Hd & Hf & Hl).
    exists (c :: l1), tc, l2. repeat split; [done|done|]. intros x. cbn [live List.filter]. destruct (negb (deleted c)) eqn:Ec; [|apply Hl].
    rewrite elem_of_cons. intros [->|Hx]; [by apply andb_false_iff in E as [?|?]; [congruence|]|by apply Hl].
Qed.

Lemma first_live_none f l : first_live f l = None -> forall x, x ∈ live l -> f x = false.
Proof.
  induction l as [|c l IH]; [intros _ x Hx; by apply elem_of_nil in Hx|]. cbn [first_live]. destruct (negb (deleted c) && f c) eqn:E; [done|].
  destruct (first_live f l); [done|]. intros _ x. cbn [live List.filter]. destruct (negb (deleted c)) eqn:Ec; [|by apply IH].
  rewrite elem_of_cons. intros [->|Hx]; [by apply andb_false_iff in E as [?|?]; [congruence|]|by apply IH].
Qed.

Lemma alter_split {A} (g : A -> A) l1 x l2 : alter g (length l1) (l1 ++ x :: l2) = l1 ++ g x :: l2.
Proof. induction l1 as [|y l1 IH]; [done|]. cbn. by f_equal. Qed.

(** The flags that are read from a text. *)
Definition new_flags (flags : list Z) : flag_record :=
  fst (break_down_flags flags (with_match (FR_GLOBAL ||| FR_CHAN) fr_zero) None).
Lemma set_cmd_flags_eq flags tc : set_cmd_flags flags tc =
  {| c_flags := new_flags flags; func_name := func_name tc; attributes := attributes tc; hits := hits tc |}.
Proof. done. Qed.

Lemma has_split l1 tc l2 p fl : deleted tc = false ->
  has (l1 ++ tc :: l2) p fl <-> (p = func_name tc /\ fl = c_flags tc) \/ has (l1 ++ l2) p fl.
Proof.
  intros Hd. unfold has. rewrite !live_app. cbn [live List.filter]. rewrite Hd. cbn [negb].
  split.
  - intros (x & Hx & <- & <-). apply elem_of_app in Hx as [Hx|Hx]; [right; exists x; rewrite elem_of_app; tauto|].
    apply elem_of_cons in Hx as [->|Hx]; [by left|]. right. exists x. rewrite elem_of_app. tauto.
  - intros [[-> ->]|(x & Hx & <- & <-)]; [exists tc|exists x]; rewrite elem_of_app, elem_of_cons; [tauto|].
    apply elem_of_app in Hx as [?|?]; tauto.
Qed.
Lemma has_deleted l1 tc l2 p fl : deleted tc = true -> has (l1 ++ tc :: l2) p fl <-> has (l1 ++ l2) p fl.
Proof. intros Hd. unfold has. rewrite !live_app. cbn [live List.filter]. by rewrite Hd. Qed.

Lemma deleted_delete tc : deleted (delete_cmd tc) = true.
Proof.
  unfold deleted. cbn [attributes delete_cmd]. change TC_DELETED with (2 ^ 0). rewrite land_pow2_testbit by lia.
  rewrite Z.lor_spec. by rewrite orb_true_r.
Qed.

Lemma has_names cs p fl : has cs p fl -> p ∈ map func_name (live cs).
Proof. intros (tc & H & <- & _). apply list_elem_of_In, in_map, list_elem_of_In, H. Qed.

Lemma live_names_split l1 tc l2 : deleted tc = false -> NoDup (map func_name (live (l1 ++ tc :: l2))) ->
  NoDup (map func_name (live (l1 ++ l2))) /\ forall fl, ~ has (l1 ++ l2) (func_name tc) fl.
Proof.
  intros Hd. rewrite !live_app. cbn [live List.filter]. rewrite Hd. cbn [negb]. rewrite !map_app. cbn [map].
  intros H. assert (Hp : map func_name (live l1) ++ func_name tc :: map func_name (live l2) ≡ₚ func_name tc :: map func_name (live l1) ++ map func_name (live l2))
    by (symmetry; apply Permutation_middle).
  rewrite Hp in H. apply NoDup_cons in H as [Hn H]. split; [done|]. intros fl Hh%has_names. apply Hn.
  by rewrite live_app, map_app in Hh.
Qed.

Lemma not_has_all cs : live cs = [] <-> forall p fl, ~ has cs p fl.
Proof.
  split; [intros E p fl (x & Hx & _); rewrite E in Hx; by apply elem_of_nil in Hx|]. intros H. destruct (live cs) as [|x l] eqn:E; [done|].
  destruct (H (func_name x) (c_flags x)). exists x. rewrite E. split; [apply elem_of_cons; by left|done].
Qed.

(** *** Binding, unbinding and collecting in a mask *)

Lemma has_only_one cs p q fl fl' : (length (live cs) <= 1)%nat -> has cs p fl -> has cs q fl' -> p = q.
Proof.
  intros Hl (x & Hx & <- & _) (y & Hy & <- & _). destruct (live cs) as [|z [|z' l]]; cbn in Hl; [by apply elem_of_nil in Hx| |lia].
  apply list_elem_of_singleton in Hx as ->. by apply list_elem_of_singleton in Hy as ->.
Qed.

Lemma rebind_ok stack tm flags proc i : mask_ok stack tm -> first_live (fun tc => streq (func_name tc) proc) (cmds tm) = Some i ->
  mask_ok stack (with_cmds (alter (set_cmd_flags flags) i (cmds tm)) tm) /\
  forall p fl, has (alter (set_cmd_flags flags) i (cmds tm)) p fl <->
               (p = proc /\ fl = new_flags flags) \/ (stack = true /\ p <> proc /\ has (cmds tm) p fl).
Proof.
  intros [Hf Hn Hs] (l1 & tc & l2 & E & <- & Hd & Hp%streq_eq & _)%first_live_split. rewrite E in *. rewrite alter_split.
  rewrite set_cmd_flags_eq. set (tc' := {| c_flags := new_flags flags; func_name := _; attributes := _; hits := _ |}).
  assert (Hd' : deleted tc' = false) by done.
  assert (El : length (live (l1 ++ tc' :: l2)) = length (live (l1 ++ tc :: l2)) /\
               map func_name (live (l1 ++ tc' :: l2)) = map func_name (live (l1 ++ tc :: l2))).
  { rewrite !live_app. cbn [live List.filter]. rewrite Hd, Hd'. cbn [negb]. by rewrite !length_app, !map_app. }
  destruct El as [El En]. split; [split; cbn [tm_flags cmds with_cmds]; [done|by rewrite En|by rewrite El]|].
  intros p fl. pose proof (live_names_split _ _ _ Hd Hn) as [Hn' Ho]. rewrite (has_split l1 tc' l2) by done.
  rewrite (has_split l1 tc l2) by done. cbn [func_name c_flags tc']. rewrite Hp. split.
  - intros [?|Hh]; [by left|]. right. assert (Hne : p <> proc) by (intros ->; rewrite <- Hp in Hh; by apply (Ho fl)).
    split; [|tauto]. destruct stack; [done|]. destruct Hne. rewrite <- Hp.
    apply (has_only_one (l1 ++ tc :: l2) p (func_name tc) fl (c_flags tc)); [by apply Hs| |]; rewrite has_split by done; tauto.
  - intros [?|(_ & Hne & [[? _]|Hh])]; [by left|done|by right].
Qed.

Definition drop_old (stack : bool) (cs : list tcl_cmd_t) : list tcl_cmd_t :=
  if negb stack then match first_live (fun _ => true) cs with Some i => alter delete_cmd i cs | None => cs end else cs.

Lemma drop_old_live stack cs : (stack = false -> (length (live cs) <= 1)%nat) ->
  live (drop_old stack cs) = if stack then live cs else [].
Proof.
  intros Hs. unfold drop_old. destruct stack; [done|]. cbn [negb]. destruct (first_live (fun _ => true) cs) as [i|] eqn:E.
  - destruct (first_live_split _ _ _ E) as (l1 & tc & l2 & -> & <- & Hd & _ & H1). rewrite alter_split.
    assert (E1 : live l1 = []).
    { destruct (live l1) as [|x l]; [done|]. discriminate (H1 x). apply elem_of_cons. by left. }
    specialize (Hs eq_refl). rewrite live_app in *. cbn [live List.filter] in *. rewrite Hd in Hs. rewrite deleted_delete. cbn [negb] in *.
    rewrite E1 in *. cbn in *. apply nil_length_inv. lia.
  - pose proof (first_live_none _ _ E) as H1. destruct (live cs) as [|x l]; [done|]. discriminate (H1 x). apply elem_of_cons. by left.
Qed.

Lemma push_cmd_ok stack tm flags proc : mask_ok stack tm -> first_live (fun tc => streq (func_name tc) proc) (cmds tm) = None ->
  let cs := drop_old stack (cmds tm) ++ [set_cmd_flags flags (tcl_cmd_alloc proc)] in
  mask_ok stack (with_cmds cs tm) /\
  forall p fl, has cs p fl <-> (p = proc /\ fl = new_flags flags) \/ (stack = true /\ p <> proc /\ has (cmds tm) p fl).
Proof.
  intros [Hf Hn Hs] Hnone cs. pose proof (drop_old_live stack (cmds tm) Hs) as El.
  assert (Hno : forall x, x ∈ live (cmds tm) -> func_name x <> proc).
  { intros x Hx Ex. pose proof (first_live_none _ _ Hnone x Hx) as H. cbn in H. assert (streq (func_name x) proc = true) by by apply streq_eq. congruence. }
  assert (E : live cs = (if stack then live (cmds tm) else []) ++ [set_cmd_flags flags (tcl_cmd_alloc proc)]).
  { unfold cs. by rewrite live_app, El. }
  split.
  - split; cbn [tm_flags cmds with_cmds]; [done| |intros ->; by rewrite E]. rewrite E, map_app. cbn. apply NoDup_app. split; [destruct stack; [done|constructor]|].
    split; [|apply NoDup_singleton]. intros x Hx ->%list_elem_of_singleton. destruct stack; [|cbn in Hx; by apply elem_of_nil in Hx].
    apply list_elem_of_In, in_map_iff in Hx as (y & Ey & Hy). apply (Hno y); [by apply list_elem_of_In|done].
  - intros p fl. unfold has. rewrite E. split.
    + intros (x & Hx & <- & <-). apply elem_of_app in Hx as [Hx|Hx%list_elem_of_singleton].
      * destruct stack; [|by apply elem_of_nil in Hx]. right. split; [done|]. split; [by apply Hno|]. by exists x.
      * subst x. by left.
    + intros [[-> ->]|(-> & _ & x & Hx & <- & <-)].
      * eexists. split; [apply elem_of_app; right; by apply list_elem_of_singleton|done].
      * exists x. split; [apply elem_of_app; by left|done].
Qed.

Lemma unbind_ok stack tm f i : mask_ok stack tm -> first_live f (cmds tm) = Some i ->
  mask_ok stack (with_cmds (alter delete_cmd i (cmds tm)) tm) /\
  exists tc, tc ∈ live (cmds tm) /\ f tc = true /\
    forall p fl, has (alter delete_cmd i (cmds tm)) p fl <-> p <> func_name tc /\ has (cmds tm) p fl.
Proof.
  intros [Hf Hn Hs] (l1 & tc & l2 & E & <- & Hd & Hp & _)%first_live_split. rewrite E in *. rewrite alter_split.
  pose proof (live_names_split _ _ _ Hd Hn) as [Hn' Ho].
  assert (El : live (l1 ++ delete_cmd tc :: l2) = live (l1 ++ l2)) by (rewrite !live_app; cbn [live List.filter]; by rewrite deleted_delete).
  assert (Hc : length (live (l1 ++ tc :: l2)) = S (length (live (l1 ++ l2)))).
  { rewrite !live_app, live_cons, Hd, !length_app. cbn [length]. lia. }
  split; [split; cbn [tm_flags cmds with_cmds]; [done|by rewrite El|]|].
  { rewrite El. intros Hst. specialize (Hs Hst). lia. }
  exists tc. split; [rewrite live_app; cbn [live List.filter]; rewrite Hd; apply elem_of_app; right; apply elem_of_cons; by left|].
  split; [done|]. intros p fl. unfold has at 1. rewrite El. fold (has (l1 ++ l2) p fl). rewrite (has_split l1 tc l2) by done. split.
  - intros Hh. split; [intros ->; by apply (Ho fl)|by right].
  - by intros [Hne [[? _]|Hh]].
Qed.

Lemma removelast_snoc {A} (l : list A) x : removelast (l ++ [x]) = l.
Proof. rewrite removelast_app by done. cbn. apply app_nil_r. Qed.

(** Removing by the last element is removing, up to the order. *)
Lemma remove_fast_perm {A} (i : nat) (l : list A) x : l !! i = Some x -> l ≡ₚ x :: remove_fast i l.
Proof.
  intros Hi. unfold remove_fast. destruct (last l) as [y|] eqn:E; [apply last_Some in E as [l' ->]|by apply last_None in E as ->].
  destruct (decide (i = length l')) as [->|Hne].
  - rewrite lookup_app_r, Nat.sub_diag in Hi by lia. injection Hi as ->. rewrite insert_app_r_alt by lia. rewrite Nat.sub_diag. cbn.
    rewrite removelast_snoc. symmetry. apply Permutation_cons_append.
  - pose proof (lookup_lt_Some _ _ _ Hi) as Hlt. rewrite length_app in Hlt. cbn in Hlt. rewrite lookup_app_l in Hi by lia.
    rewrite insert_app_l by lia. rewrite removelast_snoc. rewrite <- (take_drop_middle l' i x Hi) at 1.
    rewrite insert_take_drop by lia. rewrite <- app_assoc. cbn. rewrite <- Permutation_middle. apply perm_skip.
    apply Permutation_app_head. symmetry. apply Permutation_cons_append.
Qed.

Lemma live_perm l1 l2 : l1 ≡ₚ l2 -> live l1 ≡ₚ live l2.
Proof. induction 1; cbn [live List.filter]; repeat case_match; try by constructor; try done. all: etrans; eauto. Qed.


Lemma remove_fast_lookup {A} (i j : nat) (l : list A) x : remove_fast i l !! j = Some x ->
  exists k, l !! k = Some x /\ ((k = j /\ j <> i) \/ (j = i /\ j < k)%nat).
Proof.
  unfold remove_fast. destruct (last l) as [y|] eqn:E; [apply last_Some in E as [l' ->]|by (apply last_None in E as ->)].
  intros H. assert (Hj : (j < length l')%nat).
  { apply lookup_lt_Some in H. destruct (decide (i < length l')%nat); [rewrite insert_app_l, removelast_snoc, length_insert in H by lia; lia|].
    destruct (Nat.eqb_spec i (length l')) as [->|].
    - rewrite insert_app_r_alt, Nat.sub_diag in H by lia. cbn in H. rewrite removelast_snoc in H. lia.
    - rewrite list_insert_ge in H by (rewrite length_app; cbn; lia). rewrite removelast_snoc in H. lia. }
  destruct (decide (i < length l')%nat) as [Hi|Hi].
  - rewrite insert_app_l, removelast_snoc in H by lia. destruct (decide (j = i)) as [->|Hne].
    + rewrite list_lookup_insert_eq in H by lia. injection H as ->. exists (length l'). split; [by rewrite lookup_app_r, Nat.sub_diag by lia|by right].
    + rewrite list_lookup_insert_ne in H by done. exists j. split; [by rewrite lookup_app_l by lia|by left].
  - exists j. split; [|left; lia]. rewrite lookup_app_l by lia. destruct (Nat.eqb_spec i (length l')) as [->|].
    + rewrite insert_app_r_alt, Nat.sub_diag in H by lia. cbn in H. by rewrite removelast_snoc in H.
    + rewrite list_insert_ge in H by (rewrite length_app; cbn; lia). by rewrite removelast_snoc in H.
Qed.

Lemma live_all cs : Forall (fun tc => deleted tc = false) cs -> live cs = cs.
Proof. induction 1; [done|]. rewrite live_cons, H. by f_equal. Qed.

Lemma gc_cmds_spec n : forall l, (forall i x, (n <= i)%nat -> l !! i = Some x -> deleted x = false) ->
  gc_cmds n l ≡ₚ live l /\ live (gc_cmds n l) = gc_cmds n l.
Proof.
  induction n as [|ci IH]; intros l Hl; cbn [gc_cmds].
  - assert (E : live l = l). { apply live_all, Forall_lookup. intros i x. apply Hl. lia. } by rewrite E.
  - destruct (l !! ci) as [tc|] eqn:Ei; [destruct (deleted tc) eqn:Ed|].
    + destruct (IH (remove_fast ci l)) as [Hp Hf].
      { intros i x Hi (k & Hk & [[Ek Hne]|[Ek Hlt]])%remove_fast_lookup; apply (Hl k); (done || lia). }
      split; [|done]. rewrite Hp. pose proof (live_perm _ _ (remove_fast_perm ci l tc Ei)) as Hp'. by rewrite live_cons, Ed in Hp'.
    + apply IH. intros i x Hi Hx. destruct (decide (i = ci)) as [->|]; [congruence|apply (Hl i); [lia|done]].
    + apply IH. intros i x Hi Hx. destruct (decide (i = ci)) as [->|]; [congruence|apply (Hl i); [lia|done]].
Qed.
