(* ===== verification/BindsMap.v ===== *)
(** * Bind tables as a map

    The invariant of the tables ([binds_ok]): the hash tables index the masks of a table and
    the tables, no mask is in two tables, and where binds are not stackable a mask has at most
    one command.  Under it the tables are a map from the name of the table, the mask and the
    procedure to the flags, names and masks up to case; the operations are what they should
    be on that map, and collecting garbage changes nothing. *)

From stdpp Require Import gmap list.
From S2P Require Import Htab HtabRing HtabMap Prelude LibC Rfc1459 Wildcard Match FlagDefs FlagText Binds BindsCmds.
#[local] Open Scope Z_scope.

Definition gone (tl : tcl_bind_list_t) : bool := tl_flags tl &? HT_DELETED.

Section Map.
Context {W : Type}.
Implicit Types s : bstate W.

(** The text of a mask, up to case. *)
Definition text s (a : Z) : option (list Z) := (fun tm => fold_name (mask tm)) <$> mem_masks s !! a.

Record table_ok s (tl : tcl_bind_list_t) : Prop := {
  to_index : exists ht, mask_ht tl = Some ht /\ indexes ht (fresh s) (fun k a => a ∈ masks tl /\ text s a = Some k);
  to_nodup : NoDup (masks tl);
  to_masks a : a ∈ masks tl -> exists tm, mem_masks s !! a = Some tm /\ mask_ok (stackable tl) tm /\ 0 < a < fresh s
}.

(** A table that is in use, by its name. *)
Definition named s (T : list Z) (t : Z) : Prop :=
  t ∈ bind_table_vec s /\ exists tl, mem_tables s !! t = Some tl /\ gone tl = false /\ fold_name (name tl) = T.

Record binds_ok s : Prop := {
  bo_tables t : t ∈ bind_table_vec s -> exists tl, mem_tables s !! t = Some tl /\ table_ok s tl /\ 0 < t < fresh s;
  bo_vec : NoDup (bind_table_vec s);
  bo_apart t t' tl tl' a : t ∈ bind_table_vec s -> t' ∈ bind_table_vec s -> mem_tables s !! t = Some tl ->
    mem_tables s !! t' = Some tl' -> a ∈ masks tl -> a ∈ masks tl' -> t = t';
  bo_index : exists ht, bind_table_ht s = Some ht /\ indexes ht (fresh s) (named s);
  bo_fresh : 0 < fresh s <= 2 ^ 50
}.

(** A procedure is bound to a mask of a table. *)
Definition bound s (t : Z) (k p : list Z) (fl : flag_record) : Prop :=
  exists tl a tm, mem_tables s !! t = Some tl /\ a ∈ masks tl /\ mem_masks s !! a = Some tm /\ fold_name (mask tm) = k /\
    has (cmds tm) p fl.

(** What a table is called, and whether it is stackable or deleted. *)
Definition head_of s (t : Z) : option (list Z * Z) := (fun tl => (name tl, tl_flags tl)) <$> mem_tables s !! t.
Definition keeps s s' : Prop :=
  bind_table_vec s' = bind_table_vec s /\ forall t, t ∈ bind_table_vec s -> head_of s' t = head_of s t.

Lemma head_Some s s' t tl : head_of s' t = head_of s t -> mem_tables s !! t = Some tl ->
  exists tl', mem_tables s' !! t = Some tl' /\ name tl' = name tl /\ tl_flags tl' = tl_flags tl.
Proof. unfold head_of. intros H E. rewrite E in H. destruct (mem_tables s' !! t) as [tl'|]; [|done]. injection H as ??. by exists tl'. Qed.

Lemma keeps_named s s' T t : keeps s s' -> named s T t <-> named s' T t.
Proof.
  intros [Ev Eh]. unfold named. rewrite Ev. split; intros (Ht & tl & E & G & N); (split; [done|]).
  - destruct (head_Some s s' t tl (Eh t Ht) E) as (tl' & E' & En & Ef). exists tl'. unfold gone in *. by rewrite En, Ef.
  - destruct (head_Some s' s t tl (eq_sym (Eh t Ht)) E) as (tl' & E' & En & Ef). exists tl'. unfold gone in *. by rewrite En, Ef.
Qed.

Lemma keeps_heads_refl s : keeps s s.
Proof. by split. Qed.
Lemma keeps_heads_trans s1 s2 s3 : keeps s1 s2 -> keeps s2 s3 -> keeps s1 s3.
Proof. intros [E1 H1] [E2 H2]. split; [congruence|]. intros t Ht. rewrite H2 by by rewrite E1. by apply H1. Qed.

(** The mask of a text is unique. *)
Lemma text_unique s tl a b k : table_ok s tl -> a ∈ masks tl -> b ∈ masks tl -> text s a = Some k -> text s b = Some k -> a = b.
Proof.
  intros [(ht & _ & I) _ _] Ha Hb Ea Eb. destruct I as [_ _ I].
  pose proof (proj2 (I k a) (conj Ha Ea)) as H1. pose proof (proj2 (I k b) (conj Hb Eb)) as H2. congruence.
Qed.

Lemma text_of s a tm : mem_masks s !! a = Some tm -> text s a = Some (fold_name (mask tm)).
Proof. unfold text. by intros ->. Qed.

Lemma bound_at s t tl a tm : binds_ok s -> t ∈ bind_table_vec s -> mem_tables s !! t = Some tl -> a ∈ masks tl ->
  mem_masks s !! a = Some tm -> forall p fl, bound s t (fold_name (mask tm)) p fl <-> has (cmds tm) p fl.
Proof.
  intros B Ht E Ha Em p fl. split; [|intros H; by exists tl, a, tm]. intros (tl' & b & tm' & E' & Hb & Eb & Et & H).
  rewrite E in E'. injection E' as <-. destruct (bo_tables s B t Ht) as (tl' & E' & TO & _). rewrite E in E'. injection E' as <-.
  assert (b = a) as ->. { apply (text_unique s tl b a (fold_name (mask tm)) TO Hb Ha); [rewrite <- Et|]; by apply text_of. } congruence.
Qed.

(** ** A mask is changed *)

Lemma store_mask_text s a tm tm' b : mem_masks s !! a = Some tm -> mask tm' = mask tm -> text (store_mask a tm' s) b = text s b.
Proof.
  intros E Em. unfold text. cbn [mem_masks store_mask]. destruct (decide (b = a)) as [->|Hne].
  - rewrite lookup_insert_eq, E. cbn. by rewrite Em.
  - by rewrite lookup_insert_ne.
Qed.

Lemma store_mask_ok s t tl a tm tm' : binds_ok s -> t ∈ bind_table_vec s -> mem_tables s !! t = Some tl -> a ∈ masks tl ->
  mem_masks s !! a = Some tm -> mask tm' = mask tm -> mask_ok (stackable tl) tm' ->
  binds_ok (store_mask a tm' s) /\ keeps s (store_mask a tm' s) /\
  forall t' k p fl, t' ∈ bind_table_vec s ->
    bound (store_mask a tm' s) t' k p fl <->
    (t' = t /\ k = fold_name (mask tm) /\ has (cmds tm') p fl) \/ (~ (t' = t /\ k = fold_name (mask tm)) /\ bound s t' k p fl).
Proof.
  intros B Ht E Ha Em Et MO. set (s' := store_mask a tm' s).
  assert (Hte : forall b, text s' b = text s b) by (intros b; by apply (store_mask_text s a tm)).
  assert (Ho : forall t' tl', t' ∈ bind_table_vec s -> mem_tables s !! t' = Some tl' -> a ∈ masks tl' -> t' = t /\ tl' = tl).
  { intros t' tl' Ht' E' Ha'. assert (t' = t) as -> by by apply (bo_apart s B t' t tl' tl a). split; [done|congruence]. }
  assert (B' : binds_ok s').
  { destruct B as [BT BV BA BI BF]. split; [|done|exact BA|done|done]. intros t' Ht'. destruct (BT t' Ht') as (tl' & E' & [(ht & Eh & I) TN TM] & Hr).
    exists tl'. split; [done|]. split; [|done]. split; [|done|].
    - exists ht. split; [done|]. apply (indexes_mono ht (fresh s) _ _ _ I); [done|]. intros k b. by rewrite Hte.
    - intros b Hb. cbn [mem_masks s' store_mask]. destruct (decide (b = a)) as [->|Hne].
      + destruct (Ho t' tl' Ht' E' Hb) as [-> ->]. rewrite lookup_insert_eq. exists tm'. split; [done|]. split; [done|].
        by destruct (TM a Hb) as (? & _ & _ & ?).
      + rewrite lookup_insert_ne by done. by apply TM. }
  split; [done|]. split; [by split|]. intros t' k p fl Ht'. split.
  - intros (tl' & b & tm1 & E' & Hb & Eb & Ek & Hh). cbn [mem_tables mem_masks s' store_mask] in E', Eb.
    destruct (decide (b = a)) as [->|Hne].
    + rewrite lookup_insert_eq in Eb. injection Eb as <-. destruct (Ho t' tl' Ht' E' Hb) as [-> ->]. left. by rewrite <- Ek, Et.
    + rewrite lookup_insert_ne in Eb by done. right. split; [|by exists tl', b, tm1]. intros [-> ->].
      rewrite E in E'. injection E' as <-. destruct (bo_tables s B t Ht) as (tl' & E' & TO & _). rewrite E in E'. injection E' as <-.
      apply Hne. apply (text_unique s tl b a (fold_name (mask tm)) TO Hb Ha); [rewrite <- Ek|]; by apply text_of.
  - intros [(-> & -> & Hh)|[Hn (tl' & b & tm1 & E' & Hb & Eb & Ek & Hh)]].
    + exists tl, a, tm'. cbn [mem_tables mem_masks store_mask s']. rewrite lookup_insert_eq. by rewrite Et.
    + exists tl', b, tm1. cbn [mem_tables mem_masks store_mask s']. destruct (decide (b = a)) as [->|Hne]; [|by rewrite lookup_insert_ne].
      destruct (Ho t' tl' Ht' E' Hb) as [-> ->]. destruct Hn. rewrite Em in Eb. injection Eb as <-. done.
Qed.

(** ** Looking up *)

Lemma table_at s t : binds_ok s -> t ∈ bind_table_vec s -> exists tl, mem_tables s !! t = Some tl /\ get_table s t = Ok tl /\ table_ok s tl /\ 0 < t < fresh s.
Proof. intros B Ht. destruct (bo_tables s B t Ht) as (tl & E & TO & Hr). exists tl. unfold get_table. by rewrite E. Qed.

Lemma mask_entry_spec s tl m : table_ok s tl ->
  exists a, mask_entry s tl m = Ok a /\
    if a =? 0 then forall b, b ∈ masks tl -> text s b <> Some (fold_name m)
    else a ∈ masks tl /\ exists tm, mem_masks s !! a = Some tm /\ fold_name (mask tm) = fold_name m /\ mask_ok (stackable tl) tm.
Proof.
  intros [(ht & Eh & I) TN TM]. unfold mask_entry. rewrite Eh.
  destruct (index_get ht _ _ m I) as (a & -> & Ha).
  { intros k a [Ha _]. destruct (TM a Ha) as (? & _ & _ & ?). lia. }
  cbn [rbind]. destruct (a =? 0) eqn:E0.
  - exists 0. split; [done|]. intros b Hb Eb. by apply (Ha b).
  - destruct Ha as [Ha Et]. destruct (TM a Ha) as (tm & Em & MO & _). unfold get_mask. rewrite Em. cbn [rbind].
    rewrite (mo_flags _ _ MO). exists a. split; [done|]. rewrite E0. split; [done|]. exists tm. split; [done|]. split; [|done].
    rewrite (text_of s a tm Em) in Et. by injection Et.
Qed.

Lemma find_table_spec s nme : binds_ok s ->
  exists t, find_bind_table s nme = Ok t /\ if t =? 0 then forall u, ~ named s (fold_name nme) u else named s (fold_name nme) t.
Proof.
  intros B. destruct (bo_index s B) as (ht & Eh & I). unfold find_bind_table. rewrite Eh.
  destruct (index_get ht _ _ nme I) as (t & -> & Ht).
  { intros k t [Ht _]. destruct (bo_tables s B t Ht) as (? & _ & _ & ?). lia. }
  cbn [rbind]. destruct (t =? 0) eqn:E0; [by exists 0|]. destruct Ht as (Hv & tl & E & G & N). unfold get_table. rewrite E. cbn [rbind].
  unfold gone in G. rewrite G. exists t. rewrite E0. split; [done|]. split; [done|]. by exists tl.
Qed.

Lemma named_unique s T t u : binds_ok s -> named s T t -> named s T u -> t = u.
Proof.
  intros B H1 H2. destruct (bo_index s B) as (ht & _ & [_ _ I]). apply I in H1. apply I in H2. congruence.
Qed.

(** ** A mask is added *)

(** The state changes by more masks, tables, and addresses, and nothing there is lost. *)
Lemma table_ok_later s s' tl : table_ok s tl -> fresh s <= fresh s' -> (forall a, a ∈ masks tl -> mem_masks s' !! a = mem_masks s !! a) -> table_ok s' tl.
Proof.
  intros [(ht & Eh & I) TN TM] Hf Hs. split; [|done|].
  - exists ht. split; [done|]. apply (indexes_mono ht (fresh s) _ _ _ I); [done|]. intros k a. split; intros [Ha Et]; (split; [done|]).
    + unfold text in *. by rewrite Hs.
    + unfold text in *. by rewrite <- Hs.
  - intros a Ha. rewrite Hs by done. destruct (TM a Ha) as (tm & ? & ? & ?). exists tm. split; [done|]. split; [done|lia].
Qed.

Definition added s s' (t a : Z) (m : list Z) : Prop :=
  binds_ok s' /\ keeps s s' /\ (forall t' k p fl, t' ∈ bind_table_vec s -> bound s' t' k p fl <-> bound s t' k p fl) /\
  exists tl tm, mem_tables s' !! t = Some tl /\ a ∈ masks tl /\ mem_masks s' !! a = Some tm /\
    fold_name (mask tm) = fold_name m /\ mask_ok (stackable tl) tm.

Lemma find_or_add_ok s t m : binds_ok s -> t ∈ bind_table_vec s ->
  safe (eq TooMany) (fun r => added s (snd r) t (fst r) m) (find_or_add_mask s t m).
Proof.
  intros B Ht. destruct (table_at s t B Ht) as (tl & E & G & TO & Hr). unfold find_or_add_mask. rewrite G. cbn [rbind].
  destruct (mask_entry_spec s tl m TO) as (a & -> & Ha). cbn [rbind]. destruct (a =? 0) eqn:E0; cbn [negb].
  2: { destruct Ha as (Ha & tm & Em & Et & MO). split; [done|]. split; [apply keeps_heads_refl|]. split; [done|]. by exists tl, tm. }
  unfold bh_alloc. destruct (Z.leb_spec (2 ^ 50) (fresh s)) as [|Hfr]; [done|]. cbn [rbind].
  destruct TO as [(ht & Eh & I) TN TM]. rewrite Eh.
  destruct (index_set ht _ _ m (fresh s) I) as (rc & old & ht' & -> & I'); [lia|intros b [Hb Eb]; by apply (Ha b)|].
  cbn [rbind safe fst snd]. set (tm := {| mask := m; tm_flags := 0; cmds := [] |}). set (tl' := with_masks (masks tl ++ [fresh s]) (Some ht') tl).
  set (s' := put_table t tl' (store_mask (fresh s) tm _)).
  assert (Hnew : forall t' tl1 b, t' ∈ bind_table_vec s -> mem_tables s !! t' = Some tl1 -> b ∈ masks tl1 -> b <> fresh s).
  { intros t' tl1 b Ht' E' Hb. destruct (bo_tables s B t' Ht') as (tl2 & E2 & TO2 & _). rewrite E' in E2. injection E2 as <-.
    destruct (to_masks s tl1 TO2 b Hb) as (? & _ & _ & ?). lia. }
  assert (Hm : forall b, b <> fresh s -> mem_masks s' !! b = mem_masks s !! b) by (intros b Hb; cbn; by rewrite lookup_insert_ne by done).
  assert (MO : mask_ok (stackable tl') tm) by (split; cbn; [done|constructor|lia]).
  assert (TO' : table_ok s' tl').
  { split; cbn [masks mask_ht tl' with_masks].
    - exists ht'. split; [done|]. apply (indexes_mono ht' (fresh s + 1) _ _ _ I'); [cbn; lia|]. intros k b. rewrite elem_of_app, list_elem_of_singleton. split.
      + intros [[Hb Eb]|[-> ->]].
        * split; [by left|]. unfold text. by rewrite Hm by by apply (Hnew t tl).
        * split; [by right|]. unfold text. cbn. by rewrite lookup_insert_eq.
      + intros [[Hb| ->] Eb].
        * left. split; [done|]. unfold text in *. by rewrite Hm in Eb by by apply (Hnew t tl).
        * right. unfold text in Eb. cbn in Eb. rewrite lookup_insert_eq in Eb. by injection Eb as <-.
    - apply NoDup_app. split; [done|]. split; [|apply NoDup_singleton]. intros b Hb ->%list_elem_of_singleton. by apply (Hnew t tl (fresh s)).
    - intros b [Hb| ->%list_elem_of_singleton]%elem_of_app.
      + rewrite Hm by by apply (Hnew t tl). destruct (TM b Hb) as (tm1 & ? & ? & ?). exists tm1. split; [done|]. split; [done|]. cbn. lia.
      + exists tm. cbn. rewrite lookup_insert_eq. split; [done|]. split; [done|]. pose proof (bo_fresh s B). lia. }
  assert (Hk : keeps s s').
  { split; [done|]. intros t' Ht'. unfold head_of. cbn. destruct (decide (t' = t)) as [->|Hne]; [by rewrite lookup_insert_eq, E|by rewrite lookup_insert_ne]. }
  assert (Hother : forall t' tl1, t' ∈ bind_table_vec s -> mem_tables s' !! t' = Some tl1 -> (t' = t /\ tl1 = tl') \/ (t' <> t /\ mem_tables s !! t' = Some tl1)).
  { intros t' tl1 Ht' E'. cbn in E'. destruct (decide (t' = t)) as [->|Hne]; [rewrite lookup_insert_eq in E'; injection E' as <-; by left|].
    rewrite lookup_insert_ne in E' by done. by right. }
  assert (Hsub : forall t' tl1 b, t' ∈ bind_table_vec s -> mem_tables s' !! t' = Some tl1 -> b ∈ masks tl1 ->
            (b = fresh s /\ t' = t) \/ (b <> fresh s /\ exists tl2, mem_tables s !! t' = Some tl2 /\ b ∈ masks tl2)).
  { intros t' tl1 b Ht' E' Hb. destruct (Hother t' tl1 Ht' E') as [[-> ->]|[Hne E1]].
    - apply elem_of_app in Hb as [Hb| ->%list_elem_of_singleton]; [right|by left]. split; [by apply (Hnew t tl)|by exists tl].
    - right. split; [by apply (Hnew t' tl1)|by exists tl1]. }
  assert (B' : binds_ok s').
  { split.
    - intros t' Ht'. destruct (decide (t' = t)) as [->|Hne].
      + exists tl'. cbn. rewrite lookup_insert_eq. split; [done|]. split; [done|]. lia.
      + destruct (bo_tables s B t' Ht') as (tl1 & E1 & TO1 & Hr1). exists tl1. cbn. rewrite lookup_insert_ne by done. split; [done|].
        split; [|lia]. apply (table_ok_later s); [done|cbn; lia|]. intros b Hb. apply Hm. by apply (Hnew t' tl1).
    - apply (bo_vec s B).
    - intros t1 t2 tl1 tl2 b H1 H2 E1 E2 Hb1 Hb2. destruct (Hsub _ _ _ H1 E1 Hb1) as [[Eb Et1]|[Nb1 (tl3 & E3 & Hb3)]];
        destruct (Hsub _ _ _ H2 E2 Hb2) as [[Eb' Et2]|[Nb2 (tl4 & E4 & Hb4)]]; [congruence|done|done|]. by apply (bo_apart s B t1 t2 tl3 tl4 b).
    - destruct (bo_index s B) as (bh & Ebh & Ib). exists bh. split; [done|]. apply (indexes_mono bh (fresh s) _ _ _ Ib); [cbn; lia|].
      intros T u. by apply keeps_named.
    - cbn. pose proof (bo_fresh s B). lia. }
  split; [done|]. split; [done|]. split.
  - intros t' k p fl Ht'. split.
    + intros (tl1 & b & tm1 & E1 & Hb & Eb & Ek & Hh). destruct (Hsub _ _ _ Ht' E1 Hb) as [[-> ->]|[Nb (tl2 & E2 & Hb2)]].
      * cbn in Eb. rewrite lookup_insert_eq in Eb. injection Eb as <-. destruct Hh as (x & Hx & _). by apply elem_of_nil in Hx.
      * exists tl2, b, tm1. rewrite Hm in Eb by done. done.
    + intros (tl1 & b & tm1 & E1 & Hb & Eb & Ek & Hh). destruct (decide (t' = t)) as [->|Hne].
      * exists tl', b, tm1. cbn [mem_tables s' put_table]. rewrite lookup_insert_eq, Hm by by apply (Hnew t tl1). rewrite E in E1. injection E1 as <-.
        split; [done|]. split; [apply elem_of_app; by left|done].
      * exists tl1, b, tm1. cbn [mem_tables s' put_table]. rewrite lookup_insert_ne, Hm by (done || by apply (Hnew t' tl1)). done.
  - exists tl', tm. cbn [mem_tables mem_masks s' put_table store_mask]. rewrite !lookup_insert_eq. split; [done|].
    split; [apply elem_of_app; right; by apply list_elem_of_singleton|]. done.
Qed.

(** ** Binding and unbinding *)

(** What a bind does to the procedures of a mask. *)
Definition rebound (stack : bool) (proc : list Z) (nf : flag_record) (old : list Z -> flag_record -> Prop) (p : list Z) (fl : flag_record) : Prop :=
  (p = proc /\ fl = nf) \/ (stack = true /\ p <> proc /\ old p fl).

(** Only the mask [k] of the table [t] changes, to what [P] makes of it. *)
Definition changes s s' (t : Z) (k : list Z) (P : (list Z -> flag_record -> Prop) -> list Z -> flag_record -> Prop) : Prop :=
  binds_ok s' /\ keeps s s' /\
  forall t' k' p fl, t' ∈ bind_table_vec s ->
    bound s' t' k' p fl <-> (t' = t /\ k' = k /\ P (bound s t k) p fl) \/ (~ (t' = t /\ k' = k) /\ bound s t' k' p fl).

Lemma store_mask_changes s t tl a tm tm' P : binds_ok s -> t ∈ bind_table_vec s -> mem_tables s !! t = Some tl -> a ∈ masks tl ->
  mem_masks s !! a = Some tm -> mask tm' = mask tm -> mask_ok (stackable tl) tm' ->
  (forall p fl, has (cmds tm') p fl <-> P (bound s t (fold_name (mask tm))) p fl) ->
  changes s (store_mask a tm' s) t (fold_name (mask tm)) P.
Proof.
  intros B Ht E Ha Em Et MO HP. destruct (store_mask_ok s t tl a tm tm' B Ht E Ha Em Et MO) as (B' & K & Hb).
  split; [done|]. split; [done|]. intros t' k' p fl Ht'. rewrite Hb by done. rewrite HP. split; (intros [[? [-> ?]]|?]; [by left|by right]).
Qed.

Lemma added_changes s s1 s2 t a m k P (HPp : forall old old', (forall p fl, old p fl <-> old' p fl) -> forall p fl, P old p fl <-> P old' p fl) :
  added s s1 t a m -> t ∈ bind_table_vec s -> changes s1 s2 t k P -> changes s s2 t k P.
Proof.
  intros (B1 & K1 & H1 & _) Ht (B2 & K2 & H2). split; [done|]. split; [by apply (keeps_heads_trans _ s1)|].
  intros t' k' p fl Ht'. rewrite H2 by by rewrite (proj1 K1). rewrite (H1 t') by done.
  by rewrite (HPp (bound s1 t k) (bound s t k)) by (intros; by apply H1).
Qed.

Lemma dirty_changes s s' t k P : changes s s' t k P -> changes s (mark_dirty true s') t k P.
Proof. intros ([BT BV BA BI BF] & K & H). split; [|by split]. split; try done. intros t' Ht'. destruct (BT t' Ht') as (tl & ? & [? ? ?] & ?). by exists tl. Qed.

Lemma bind_entry_ok s t tl flags cmd proc : binds_ok s -> t ∈ bind_table_vec s -> mem_tables s !! t = Some tl ->
  safe (eq TooMany) (fun r => fst r = 1 /\ changes s (snd r) t (fold_name cmd) (rebound (stackable tl) proc (new_flags flags)))
    (bind_bind_entry s t flags cmd proc).
Proof.
  intros B Ht E. assert (Hp : 0 < t) by (destruct (table_at s t B Ht) as (? & _ & _ & _ & ?); lia).
  unfold bind_bind_entry. rewrite (proj2 (Z.eqb_neq t 0)) by lia.
  eapply safe_let; [by apply find_or_add_ok|]. intros [a s1] A. cbn [fst snd] in A.
  pose proof A as (B1 & K1 & _ & tl1 & tm & E1 & Ha & Em & Et & MO). rewrite <- Et.
  assert (Hst : stackable tl1 = stackable tl).
  { destruct (head_Some s s1 t tl (proj2 K1 t Ht) E) as (tl2 & E2 & _ & Ef). unfold stackable. congruence. }
  assert (Ht1 : t ∈ bind_table_vec s1) by by rewrite (proj1 K1).
  assert (HPp : forall nf old old', (forall p fl, old p fl <-> old' p fl) -> forall p fl,
            rebound (stackable tl) proc nf old p fl <-> rebound (stackable tl) proc nf old' p fl).
  { unfold rebound. intros nf old old' H p fl. by rewrite H. }
  unfold get_mask. rewrite Em. cbn [rbind].
  destruct (first_live (fun tc => streq (func_name tc) proc) (cmds tm)) as [i|] eqn:Ei.
  - destruct (rebind_ok _ _ flags _ _ MO Ei) as [MO' Hh]. split; [done|]. apply (added_changes s s1 _ t a cmd); [apply HPp|done|done|].
    apply (store_mask_changes s1 t tl1 a tm); try done. intros p fl. cbn [snd cmds with_cmds]. rewrite Hh. unfold rebound. rewrite <- Hst.
    by rewrite (bound_at s1 t tl1 a tm).
  - unfold get_table. rewrite E1. cbn [rbind]. destruct (push_cmd_ok _ _ flags _ MO Ei) as [MO' Hh]. split; [done|].
    apply dirty_changes, (added_changes s s1 _ t a cmd); [apply HPp|done|done|].
    apply (store_mask_changes s1 t tl1 a tm); try done. intros p fl. cbn [snd cmds with_cmds]. unfold drop_old in Hh. unfold stackable in Hh at 1 2. rewrite Hh.
    unfold rebound. rewrite <- Hst. by rewrite (bound_at s1 t tl1 a tm).
Qed.

(** Unbinding takes away one procedure whose name is the same up to case, if there is one. *)
Lemma unbind_entry_ok s t flags cmd proc : binds_ok s -> t ∈ bind_table_vec s ->
  exists r s', unbind_bind_entry s t flags cmd proc = Ok (r, s') /\
    ((r = 0 /\ s' = s /\ forall p fl, bound s t (fold_name cmd) p fl -> same_name p proc = false) \/
     (r = 1 /\ exists q fl, bound s t (fold_name cmd) q fl /\ same_name q proc = true /\
               changes s s' t (fold_name cmd) (fun old p fl => p <> q /\ old p fl))).
Proof.
  intros B Ht. destruct (table_at s t B Ht) as (tl & E & G & TO & Hp). unfold unbind_bind_entry. rewrite (proj2 (Z.eqb_neq t 0)), G by lia.
  cbn [rbind]. destruct (mask_entry_spec s tl cmd TO) as (a & -> & Ha). cbn [rbind]. destruct (a =? 0) eqn:E0.
  { exists 0, s. split; [done|]. left. split; [done|]. split; [done|]. intros p fl (tl' & b & tm & E' & Hb & Eb & Ek & _).
    rewrite E in E'. injection E' as <-. destruct (Ha b Hb). by rewrite (text_of s b tm Eb), Ek. }
  destruct Ha as (Ha & tm & Em & Et & MO). unfold get_mask. rewrite Em. cbn [rbind]. rewrite <- Et.
  pose proof (bound_at s t tl a tm B Ht E Ha Em) as Hb.
  destruct (first_live (fun tc => same_name (func_name tc) proc) (cmds tm)) as [i|] eqn:Ei; eexists _, _; (split; [done|]).
  - destruct (unbind_ok _ _ _ _ MO Ei) as (MO' & tc & Htc & Hn & Hh). right. split; [done|]. exists (func_name tc), (c_flags tc).
    split; [apply Hb; by exists tc|]. split; [done|]. apply dirty_changes, (store_mask_changes s t tl a tm); try done.
    intros p fl. cbn [cmds with_cmds]. by rewrite Hh, Hb.
  - left. split; [done|]. split; [done|]. intros p fl (x & Hx & <- & _)%Hb. by apply (first_live_none _ _ Ei x).
Qed.

(** ** Tables come and go *)

Lemma elem_perm {A} (x : A) l1 l2 : l1 ≡ₚ l2 -> x ∈ l1 <-> x ∈ l2.
Proof. intros H. by rewrite H. Qed.

(** A table is replaced by one with the same masks, in any order, and the hash table of the
    tables. *)
Lemma put_table_ok s t tl tl' ht : binds_ok s -> t ∈ bind_table_vec s -> mem_tables s !! t = Some tl ->
  masks tl' ≡ₚ masks tl -> mask_ht tl' = mask_ht tl -> stackable tl' = stackable tl ->
  let s' := set_tables (bind_table_vec s) (Some ht) (put_table t tl' s) in
  indexes ht (fresh s) (named s') ->
  binds_ok s' /\ (forall u, u ∈ bind_table_vec s -> forall k p fl, bound s' u k p fl <-> bound s u k p fl).
Proof.
  intros B Ht E Em Eh Es s' I.
  assert (Hl : forall u tl1, mem_tables s' !! u = Some tl1 -> exists tl2, mem_tables s !! u = Some tl2 /\ (forall a, a ∈ masks tl1 <-> a ∈ masks tl2)).
  { intros u tl1. cbn. destruct (decide (u = t)) as [->|]; [rewrite lookup_insert_eq; intros [= <-]; exists tl; split; [done|intros a; by apply elem_perm]|].
    rewrite lookup_insert_ne by done. intros E1. by exists tl1. }
  assert (Hr : forall u tl1, mem_tables s !! u = Some tl1 -> exists tl2, mem_tables s' !! u = Some tl2 /\ masks tl2 ≡ₚ masks tl1 /\ mask_ht tl2 = mask_ht tl1 /\ stackable tl2 = stackable tl1).
  { intros u tl1 E1. cbn. destruct (decide (u = t)) as [->|]; [|rewrite lookup_insert_ne by done; by exists tl1].
    rewrite lookup_insert_eq. rewrite E in E1. injection E1 as <-. by exists tl'. }
  split.
  - split; [|apply (bo_vec s B)| |by exists ht|apply (bo_fresh s B)].
    + intros u Hu. destruct (bo_tables s B u Hu) as (tl1 & E1 & [(h & Eh1 & I1) TN TM] & Hf). destruct (Hr u tl1 E1) as (tl2 & E2 & Em2 & Eh2 & Es2).
      exists tl2. split; [done|]. split; [|done]. split; rewrite ?Es2; [|by rewrite Em2|].
      * exists h. rewrite Eh2. split; [done|]. apply (indexes_mono h _ _ _ _ I1); [done|]. intros k a. by rewrite (elem_perm a _ _ Em2).
      * intros a Ha. apply TM. by apply (elem_perm a _ _ Em2).
    + intros u u' tl1 tl2 a Hu Hu' E1 E2 H1 H2. destruct (Hl u tl1 E1) as (tl3 & E3 & Em3). destruct (Hl u' tl2 E2) as (tl4 & E4 & Em4).
      apply Em3 in H1. apply Em4 in H2. by apply (bo_apart s B u u' tl3 tl4 a).
  - intros u Hu k p fl. split; intros (tl1 & a & tm & E1 & Ha & Ea & Hk).
    + destruct (Hl u tl1 E1) as (tl2 & E2 & Em2). exists tl2, a, tm. by rewrite <- Em2.
    + destruct (Hr u tl1 E1) as (tl2 & E2 & Em2 & _). exists tl2, a, tm. by rewrite (elem_perm a _ _ Em2).
Qed.

Lemma named_put s t tl' v h T u : t ∈ bind_table_vec s -> v = bind_table_vec s ->
  named (set_tables v h (put_table t tl' s)) T u <->
  (u = t /\ gone tl' = false /\ fold_name (name tl') = T) \/ (u <> t /\ named s T u).
Proof.
  intros Ht ->. unfold named. cbn. destruct (decide (u = t)) as [->|Hne].
  - rewrite lookup_insert_eq. split; [intros (_ & tl & [= <-] & ? & ?); by left|]. intros [(_ & ? & ?)|[? _]]; [|done]. split; [done|]. by exists tl'.
  - rewrite lookup_insert_ne by done. split; [intros H; by right|]. by intros [[? _]|[_ ?]].
Qed.

Lemma dirty_ok s b : binds_ok s -> binds_ok (mark_dirty b s).
Proof. intros [BT BV BA BI BF]. split; try done. intros t' Ht'. destruct (BT t' Ht') as (tl & ? & [? ? ?] & ?). by exists tl. Qed.

Lemma del_table_ok s t T : binds_ok s -> named s T t ->
  exists s', del_bind_table s t = Ok s' /\ binds_ok s' /\ (forall U u, named s' U u <-> named s U u /\ u <> t) /\
    (forall u k p fl, u ∈ bind_table_vec s -> bound s' u k p fl <-> bound s u k p fl) /\
    (forall u, u <> t -> head_of s' u = head_of s u).
Proof.
  intros B N. pose proof N as (Ht & tl & E & G & ET). destruct (table_at s t B Ht) as (tl0 & E0 & Gt & _ & Hp). rewrite E in E0. injection E0 as <-.
  unfold del_bind_table. rewrite (proj2 (Z.eqb_neq t 0)), Gt by lia. cbn [rbind]. unfold gone in G. rewrite G.
  destruct (bo_index s B) as (ht & Eh & I). cbn [bind_table_ht put_table]. rewrite Eh.
  destruct (index_del ht _ _ (name tl) I) as (v & ht' & -> & I'). cbn [rbind snd].
  set (tl' := {| name := name tl; tl_flags := _; func := _; masks := _; mask_ht := _ |}). eexists. split; [reflexivity|].
  assert (G' : gone tl' = true).
  { unfold gone, tl'. cbn [tl_flags]. change HT_DELETED with (2 ^ 1). rewrite land_pow2_testbit, Z.lor_spec by lia. by rewrite orb_true_r. }
  assert (S' : stackable tl' = stackable tl).
  { unfold stackable, tl'. cbn [tl_flags]. change HT_STACKABLE with (2 ^ 0). rewrite !land_pow2_testbit, Z.lor_spec by lia. by rewrite orb_false_r. }
  assert (HN : forall U u, named (set_tables (bind_table_vec s) (Some ht') (put_table t tl' s)) U u <-> named s U u /\ u <> t).
  { intros U u. rewrite named_put by done. rewrite G'. split; [by intros [(_ & ? & _)|[? ?]]|intros [? ?]; by right]. }
  destruct (put_table_ok s t tl tl' ht' B Ht E (reflexivity _) eq_refl S') as [B' Hb].
  { apply (indexes_mono ht' _ _ _ _ I'); [done|]. intros U u. rewrite HN. split; (intros [HU HT]; split; [done|]).
    - intros ->. apply HT. destruct HU as (_ & tl1 & E1 & _ & <-). congruence.
    - intros ->. apply HT. apply (named_unique s (fold_name (name tl))); [done|done|]. by rewrite ET. }
  split; [by apply dirty_ok|]. split; [exact HN|]. split; [intros u k p fl Hu; by apply Hb|].
  intros u Hu. unfold head_of. cbn. by rewrite lookup_insert_ne.
Qed.

(** The name of a table fits, and it is not added as a deleted one. *)
Definition table_arg_ok (nme : list Z) (flg : Z) : Prop := (length nme <= 15)%nat /\ (flg = 0 \/ flg = HT_STACKABLE).

(** The table that is there gets a function. *)
Lemma refunc_ok s t tl fn : binds_ok s -> t ∈ bind_table_vec s -> mem_tables s !! t = Some tl ->
  let s' := put_table t {| name := name tl; tl_flags := tl_flags tl; func := fn; masks := masks tl; mask_ht := mask_ht tl |} s in
  binds_ok s' /\ (forall u k p fl, u ∈ bind_table_vec s -> bound s' u k p fl <-> bound s u k p fl) /\
  (forall u, u ∈ bind_table_vec s -> u ∈ bind_table_vec s' /\ head_of s' u = head_of s u) /\ forall U u, named s' U u <-> named s U u.
Proof.
  intros B Ht E s'. destruct (bo_index s B) as (ht & Eh & I).
  assert (K : keeps s s').
  { split; [done|]. intros u _. unfold head_of. cbn. destruct (decide (u = t)) as [->|]; [by rewrite lookup_insert_eq, E|by rewrite lookup_insert_ne]. }
  assert (Es : s' = set_tables (bind_table_vec s) (Some ht) s') by (unfold set_tables; cbn; by rewrite <- Eh).
  destruct (put_table_ok s t tl {| name := name tl; tl_flags := tl_flags tl; func := fn; masks := masks tl; mask_ht := mask_ht tl |} ht B Ht E (reflexivity _) eq_refl eq_refl) as [B' Hb].
  { fold s'. rewrite <- Es. apply (indexes_mono ht (fresh s) _ _ _ I); [done|]. intros U u. by apply keeps_named. }
  fold s' in B', Hb. rewrite <- Es in B', Hb. split; [done|]. split; [intros u k p fl Hu; by apply Hb|].
  split; [intros u Hu; split; [done|by apply K]|]. intros U u. symmetry. by apply keeps_named.
Qed.

Lemma new_table_ok s nme flg fn ht' : binds_ok s -> fresh s < 2 ^ 50 -> flg = 0 \/ flg = HT_STACKABLE -> (forall u, ~ named s (fold_name nme) u) ->
  indexes ht' (fresh s + 1) (fun k b => named s k b \/ (k = fold_name nme /\ b = fresh s)) ->
  let t := fresh s in
  let s0 := Build_bstate (mem_masks s) (mem_tables s) (fresh s + 1) (bind_table_vec s) (bind_table_ht s) (tclhash_dirty s) (interp s) in
  let s' := set_tables (bind_table_vec s ++ [t]) (Some ht')
              (put_table t {| name := nme; tl_flags := flg; func := fn; masks := []; mask_ht := Some (op_htab_create 16) |} s0) in
  binds_ok s' /\ (forall u k p fl, u ∈ bind_table_vec s -> bound s' u k p fl <-> bound s u k p fl) /\
  (forall u, u ∈ bind_table_vec s -> u ∈ bind_table_vec s' /\ head_of s' u = head_of s u) /\
  ((named s (fold_name nme) t /\ forall U u, named s' U u <-> named s U u) \/
   ((forall u, ~ named s (fold_name nme) u) /\ (forall U u, named s' U u <-> (U = fold_name nme /\ u = t) \/ named s U u) /\
    head_of s' t = Some (nme, flg) /\ ~ t ∈ bind_table_vec s /\ forall k p fl, ~ bound s' t k p fl)).
Proof.
  intros B Hfr Hflg Hno I' t s0 s'. set (tl := {| name := nme; tl_flags := flg; func := fn; masks := []; mask_ht := Some (op_htab_create 16) |}).
  assert (Hnew : forall u, u ∈ bind_table_vec s -> u <> t).
  { intros u Hu ->. destruct (bo_tables s B t Hu) as (? & _ & _ & ?). lia. }
  assert (Ho : forall u, u ∈ bind_table_vec s -> mem_tables s' !! u = mem_tables s !! u) by (intros u Hu; cbn; rewrite lookup_insert_ne; [done|apply not_eq_sym; by apply Hnew]).
  assert (Et : mem_tables s' !! t = Some tl) by apply lookup_insert_eq.
  assert (Hv : forall u, u ∈ bind_table_vec s' <-> u ∈ bind_table_vec s \/ u = t) by (intros u; cbn; by rewrite elem_of_app, list_elem_of_singleton).
  assert (G : gone tl = false) by (destruct Hflg as [->| ->]; done).
  assert (HN : forall U u, named s' U u <-> (U = fold_name nme /\ u = t) \/ named s U u).
  { intros U u. unfold named. rewrite Hv. split.
    - intros ([Hu| ->] & tl1 & E1 & G1 & <-); [right; rewrite Ho in E1 by done; split; [done|by exists tl1]|].
      rewrite Et in E1. injection E1 as <-. by left.
    - intros [[-> ->]|(Hu & tl1 & E1 & ?)]; [split; [by right|by exists tl]|]. split; [by left|]. exists tl1. by rewrite Ho. }
  assert (Hbd : forall u k p fl, u ∈ bind_table_vec s -> bound s' u k p fl <-> bound s u k p fl).
  { intros u k p fl Hu. unfold bound. by rewrite Ho. }
  split; [|split; [done|split; [intros u Hu; split; [apply Hv; by left|unfold head_of; by rewrite Ho]|]]].
  - pose proof (bo_fresh s B) as Hf. split.
    + intros u [Hu| ->]%Hv.
      * destruct (bo_tables s B u Hu) as (tl1 & E1 & TO & Hr). exists tl1. rewrite Ho by done. split; [done|]. split; [|cbn; lia].
        apply (table_ok_later s); [done|cbn; lia|done].
      * exists tl. split; [done|]. split; [|cbn; lia]. split; [|constructor|intros a Ha; by apply elem_of_nil in Ha].
        eexists. split; [reflexivity|]. apply index_create; [cbn; lia|]. intros k a [Ha _]. by apply elem_of_nil in Ha.
    + cbn. apply NoDup_app. split; [apply (bo_vec s B)|]. split; [|apply NoDup_singleton]. intros u Hu ->%list_elem_of_singleton. by apply (Hnew t).
    + intros u u' tl1 tl2 a [Hu| ->]%Hv [Hu'| ->]%Hv; rewrite ?Ho, ?Et by done; [by apply (bo_apart s B)|intros _ [= <-] _ Ha|intros [= <-] _ Ha _|done];
        by apply elem_of_nil in Ha.
    + exists ht'. split; [done|]. apply (indexes_mono ht' _ _ _ _ I'); [done|]. intros U u. rewrite HN. tauto.
    + cbn. lia.
  - right. split; [done|]. split; [done|]. split; [unfold head_of; by rewrite Et|]. split; [intros H; by apply (Hnew t H)|].
    intros k p fl (tl1 & a & tm & E1 & Ha & _). rewrite Et in E1. injection E1 as <-. by apply elem_of_nil in Ha.
Qed.

Lemma add_table_ok s nme flg fn : binds_ok s -> table_arg_ok nme flg ->
  safe (eq TooMany) (fun r => let '(t, s') := r in binds_ok s' /\
      (forall u k p fl, u ∈ bind_table_vec s -> bound s' u k p fl <-> bound s u k p fl) /\
      (forall u, u ∈ bind_table_vec s -> u ∈ bind_table_vec s' /\ head_of s' u = head_of s u) /\
      ((named s (fold_name nme) t /\ forall U u, named s' U u <-> named s U u) \/
       ((forall u, ~ named s (fold_name nme) u) /\ (forall U u, named s' U u <-> (U = fold_name nme /\ u = t) \/ named s U u) /\
        head_of s' t = Some (nme, flg) /\ ~ t ∈ bind_table_vec s /\ forall k p fl, ~ bound s' t k p fl)))
    (add_bind_table s nme flg fn).
Proof.
  intros B [Hlen Hflg]. unfold add_bind_table. destruct (find_table_spec s nme B) as (t & -> & Ht). cbn [rbind].
  assert (Eflg : u8 flg = flg) by (destruct Hflg as [->| ->]; done).
  destruct (t =? 0) eqn:E0; cbn [negb].
  - unfold bh_alloc. destruct (Z.leb_spec (2 ^ 50) (fresh s)) as [|Hfr]; [done|]. cbn [rbind].
    destruct (bo_index s B) as (ht & Eh & I). cbn [bind_table_ht put_table]. rewrite Eh, take_ge, Eflg by done.
    destruct (index_set ht _ _ nme (fresh s) I) as (rc & old & ht' & -> & I'); [lia|done|]. cbn [rbind safe].
    exact (new_table_ok s nme flg fn ht' B Hfr Hflg Ht I').
  - pose proof Ht as (Hv & tl & E & G & N). unfold get_table. rewrite E. cbn [rbind].
    assert (Hgen : forall s', (s' = s \/ s' = put_table t {| name := name tl; tl_flags := tl_flags tl; func := fn; masks := masks tl; mask_ht := mask_ht tl |} s) ->
      binds_ok s' /\ (forall u k p fl, u ∈ bind_table_vec s -> bound s' u k p fl <-> bound s u k p fl) /\
      (forall u, u ∈ bind_table_vec s -> u ∈ bind_table_vec s' /\ head_of s' u = head_of s u) /\ forall U u, named s' U u <-> named s U u).
    { intros s' [->| ->]; [done|]. by apply refunc_ok. }
    destruct (truthy fn && (func tl =? 0)); cbn [safe]; [edestruct Hgen as (? & ? & ? & ?); [by right|]|edestruct Hgen as (? & ? & ? & ?); [by left|]];
      (split; [done|]; split; [done|]; split; [done|]; left; done).
Qed.

(** ** Collecting *)

(** A mask without commands is freed. *)
Lemma drop_mask_ok s t tl mi a tm ht' : binds_ok s -> t ∈ bind_table_vec s -> mem_tables s !! t = Some tl -> masks tl !! mi = Some a ->
  mem_masks s !! a = Some tm -> (forall p fl, ~ has (cmds tm) p fl) ->
  indexes ht' (fresh s) (fun k b => (b ∈ masks tl /\ text s b = Some k) /\ k <> fold_name (mask tm)) ->
  let s' := put_table t (with_masks (remove_fast mi (masks tl)) (Some ht') tl) (free_masks [a] s) in
  binds_ok s' /\ keeps s s' /\ forall t' k p fl, t' ∈ bind_table_vec s -> bound s' t' k p fl <-> bound s t' k p fl.
Proof.
  intros B Ht E Ei Em Hno I' s'. destruct (table_at s t B Ht) as (tl0 & E0 & _ & TO & Hp). rewrite E in E0. injection E0 as <-.
  set (tl' := with_masks (remove_fast mi (masks tl)) (Some ht') tl).
  pose proof (remove_fast_perm mi (masks tl) a Ei) as Hperm. assert (Ha : a ∈ masks tl) by by apply list_elem_of_lookup_2 in Ei.
  pose proof (to_nodup s tl TO) as TN. rewrite Hperm in TN. apply NoDup_cons in TN as [Hni TN].
  assert (Hin : forall b, b ∈ masks tl' <-> b ∈ masks tl /\ b <> a).
  { intros b. cbn [masks tl' with_masks]. rewrite (elem_perm b _ _ Hperm), elem_of_cons. split; [intros Hb; split; [by right|by intros ->]|by intros [[?|?] ?]]. }
  assert (Hm : forall b, b <> a -> mem_masks s' !! b = mem_masks s !! b) by (intros b Hb; cbn; by rewrite lookup_delete_ne).
  assert (Hoth : forall u tl1, u <> t -> u ∈ bind_table_vec s -> mem_tables s !! u = Some tl1 -> forall b, b ∈ masks tl1 -> b <> a).
  { intros u tl1 Hu Hv E1 b Hb ->. apply Hu. by apply (bo_apart s B u t tl1 tl a). }
  assert (Htx : forall b k, b ∈ masks tl' -> text s' b = Some k <-> text s b = Some k) by (intros b k [_ Hb]%Hin; unfold text; by rewrite Hm).
  assert (Hl : forall u, mem_tables s' !! u = if decide (u = t) then Some tl' else mem_tables s !! u).
  { intros u. cbn. destruct (decide (u = t)) as [->|]; [apply lookup_insert_eq|by apply lookup_insert_ne]. }
  assert (K : keeps s s').
  { split; [done|]. intros u _. unfold head_of. rewrite Hl. destruct (decide (u = t)) as [->|]; [by rewrite E|done]. }
  split; [|split; [done|]].
  - split; [|apply (bo_vec s B)| | |apply (bo_fresh s B)].
    + intros u Hu. destruct (bo_tables s B u Hu) as (tl1 & E1 & TO1 & Hr). rewrite Hl. destruct (decide (u = t)) as [->|Hne].
      * exists tl'. split; [done|]. split; [|done]. split; [|done|].
        -- exists ht'. split; [done|]. apply (indexes_mono ht' _ _ _ _ I'); [done|]. intros k b. split.
           ++ intros [[Hb Eb] Hk]. assert (b ∈ masks tl') as Hb' by (apply Hin; split; [done|]; intros ->; rewrite (text_of s a tm Em) in Eb; congruence).
              split; [done|]. by apply Htx.
           ++ intros [Hb Eb]. apply Htx in Eb; [|done]. apply Hin in Hb as [Hb Hne]. split; [done|]. intros ->. apply Hne.
              apply (text_unique s tl b a (fold_name (mask tm))); try done. by apply text_of.
        -- intros b [Hb Hne]%Hin. rewrite Hm by done. by apply (to_masks s tl TO).
      * exists tl1. split; [done|]. split; [|done]. apply (table_ok_later s); [done|done|]. intros b Hb. apply Hm. by apply (Hoth u tl1).
    + intros u u' tl1 tl2 b Hu Hu'. rewrite !Hl. intros E1 E2 H1 H2.
      assert (Hx : forall v tl3, (if decide (v = t) then Some tl' else mem_tables s !! v) = Some tl3 -> b ∈ masks tl3 -> exists tl4, mem_tables s !! v = Some tl4 /\ b ∈ masks tl4).
      { intros v tl3. destruct (decide (v = t)) as [->|]; [intros [= <-] [Hb _]%Hin; by exists tl|intros ??; by exists tl3]. }
      destruct (Hx u tl1 E1 H1) as (tl3 & ? & ?). destruct (Hx u' tl2 E2 H2) as (tl4 & ? & ?). by apply (bo_apart s B u u' tl3 tl4 b).
    + destruct (bo_index s B) as (bh & Ebh & Ib). exists bh. split; [done|]. apply (indexes_mono bh (fresh s) _ _ _ Ib); [done|].
      intros T u. by apply keeps_named.
  - intros u k p fl Hu. split; intros (tl1 & b & tm1 & E1 & Hb & Eb & Ek & Hh).
    + rewrite Hl in E1. destruct (decide (u = t)) as [->|Hne].
      * injection E1 as <-. apply Hin in Hb as [Hb Hba]. rewrite Hm in Eb by done. by exists tl, b, tm1.
      * rewrite Hm in Eb by by apply (Hoth u tl1). by exists tl1, b, tm1.
    + destruct (decide (u = t)) as [->|Hne].
      * rewrite E in E1. injection E1 as <-. assert (b <> a) by (intros ->; rewrite Em in Eb; injection Eb as <-; by apply (Hno p fl)).
        exists tl', b, tm1. rewrite Hl, decide_True, Hm by done. split; [done|]. by split; [apply Hin|].
      * exists tl1, b, tm1. rewrite Hl, decide_False, Hm by (done || by apply (Hoth u tl1)). done.
Qed.

Lemma gc_masks_ok n t : forall s, binds_ok s -> t ∈ bind_table_vec s -> exists s', gc_masks n t s = Ok s' /\ binds_ok s' /\ keeps s s' /\
  forall t' k p fl, t' ∈ bind_table_vec s -> bound s' t' k p fl <-> bound s t' k p fl.
Proof.
  induction n as [|mi IH]; intros s B Ht; cbn [gc_masks]; [by exists s|].
  destruct (table_at s t B Ht) as (tl & E & -> & TO & Hp). cbn [rbind]. destruct (masks tl !! mi) as [a|] eqn:Ei; [|by apply IH].
  assert (Ha : a ∈ masks tl) by by apply list_elem_of_lookup_2 in Ei. destruct (to_masks s tl TO a Ha) as (tm & Em & MO & Hr).
  unfold get_mask. rewrite Em. cbn [rbind]. rewrite (mo_flags _ _ MO). cbn [orb truthy Z.land Z.eqb negb].
  destruct (gc_cmds_spec (length (cmds tm)) (cmds tm)) as [Hperm Hlive]; [intros i x Hi Hx%lookup_lt_Some; lia|].
  assert (Hh : forall p fl, has (gc_cmds (length (cmds tm)) (cmds tm)) p fl <-> has (cmds tm) p fl).
  { intros p fl. unfold has. rewrite Hlive. by setoid_rewrite (fun x => elem_perm x _ _ Hperm). }
  set (cs := gc_cmds (length (cmds tm)) (cmds tm)) in *.
  assert (Hnext : forall s1, binds_ok s1 /\ keeps s s1 /\ (forall t' k p fl, t' ∈ bind_table_vec s -> bound s1 t' k p fl <-> bound s t' k p fl) ->
    exists s', gc_masks mi t s1 = Ok s' /\ binds_ok s' /\ keeps s s' /\ forall t' k p fl, t' ∈ bind_table_vec s -> bound s' t' k p fl <-> bound s t' k p fl).
  { intros s1 (B1 & K1 & H1). destruct (IH s1 B1) as (s' & E' & B' & K' & H'); [by rewrite (proj1 K1)|]. exists s'. split; [done|]. split; [done|].
    split; [by apply (keeps_heads_trans _ s1)|]. intros t' k p fl Ht'. rewrite H' by by rewrite (proj1 K1). by apply H1. }
  destruct cs as [|c cs'] eqn:Ec.
  - destruct (to_index s tl TO) as (ht & Eh & I). rewrite Eh. destruct (index_del ht _ _ (mask tm) I) as (v & ht' & -> & I'). cbn [rbind snd].
    apply Hnext. apply (drop_mask_ok s t tl mi a tm); try done. intros p fl Hx. apply Hh in Hx as (x & Hx & _). by apply elem_of_nil in Hx.
  - cbn [rbind]. apply Hnext. destruct (store_mask_changes s t tl a tm (with_cmds (c :: cs') tm) (fun old => old) B Ht E Ha Em eq_refl) as (B1 & K1 & H1).
    + destruct MO as [Mf Mn Ms]. split; cbn [tm_flags cmds with_cmds]; [done|rewrite Hlive; by rewrite Hperm|].
      intros Hst. rewrite Hlive. rewrite (Permutation_length Hperm). by apply Ms.
    + intros p fl. cbn [cmds with_cmds]. by rewrite Hh, (bound_at s t tl a tm).
    + split; [done|]. split; [done|]. intros t' k p fl Ht'. rewrite H1 by done. split.
      * by intros [(-> & -> & ?)|[_ ?]].
      * intros Hx. destruct (decide (t' = t /\ k = fold_name (mask tm))) as [[-> ->]|]; [by left|by right].
Qed.

Lemma freed_lookup l (m : gmap Z tcl_bind_mask_t) b : ~ b ∈ l -> foldr delete m l !! b = m !! b.
Proof.
  induction l as [|x l IH]; [done|]. rewrite elem_of_cons. intros H. cbn. rewrite lookup_delete_ne by (intros ->; tauto). apply IH. tauto.
Qed.

(** What a state has of another one: fewer tables, none of them in use less, the same binds. *)
Definition shrinks s s' : Prop :=
  (forall u, u ∈ bind_table_vec s' -> u ∈ bind_table_vec s) /\ (forall T u, named s' T u <-> named s T u) /\
  (forall u, u ∈ bind_table_vec s' -> head_of s' u = head_of s u) /\
  (forall u k p fl, u ∈ bind_table_vec s' -> bound s' u k p fl <-> bound s u k p fl).

Lemma shrinks_trans s1 s2 s3 : shrinks s1 s2 -> shrinks s2 s3 -> shrinks s1 s3.
Proof.
  intros (V1 & N1 & H1 & B1) (V2 & N2 & H2 & B2). split; [auto|]. split; [intros T u; by rewrite N2|].
  split; [intros u Hu; rewrite H2 by done; apply H1; auto|]. intros u k p fl Hu. rewrite B2 by done. apply B1. auto.
Qed.

Lemma drop_table_ok s t tl ti : binds_ok s -> bind_table_vec s !! ti = Some t -> mem_tables s !! t = Some tl -> gone tl = true ->
  let s' := set_tables (remove_fast ti (bind_table_vec s)) (bind_table_ht s) (tcl_bind_list_delete t tl s) in
  binds_ok s' /\ shrinks s s'.
Proof.
  intros B Ei E G s'. pose proof (remove_fast_perm ti _ t Ei) as Hperm. assert (Ht : t ∈ bind_table_vec s) by by apply list_elem_of_lookup_2 in Ei.
  pose proof (bo_vec s B) as NV. rewrite Hperm in NV. apply NoDup_cons in NV as [Hni NV].
  assert (Hv : forall u, u ∈ bind_table_vec s' <-> u ∈ bind_table_vec s /\ u <> t).
  { intros u. cbn [bind_table_vec s' set_tables]. rewrite (elem_perm u _ _ Hperm), elem_of_cons. split; [intros Hu; split; [by right|by intros ->]|by intros [[?|?] ?]]. }
  assert (Hl : forall u, u <> t -> mem_tables s' !! u = mem_tables s !! u) by (intros u Hu; cbn; by rewrite lookup_delete_ne).
  assert (Hm : forall u tl1 b, u ∈ bind_table_vec s' -> mem_tables s !! u = Some tl1 -> b ∈ masks tl1 -> mem_masks s' !! b = mem_masks s !! b).
  { intros u tl1 b [Hu Hne]%Hv E1 Hb. cbn. apply freed_lookup. intros Hb'. apply Hne. by apply (bo_apart s B u t tl1 tl b). }
  assert (HN : forall T u, named s' T u <-> named s T u).
  { intros T u. unfold named. rewrite Hv. split.
    - intros ([Hu Hne] & tl1 & E1 & H). rewrite Hl in E1 by done. split; [done|]. by exists tl1.
    - intros (Hu & tl1 & E1 & G1 & H). assert (u <> t) by (intros ->; congruence). split; [done|]. exists tl1. by rewrite Hl. }
  split; [split|split; [intros u [? _]%Hv; done|]].
  - intros u Hu. pose proof (proj1 (Hv u) Hu) as [Hu' Hne]. destruct (bo_tables s B u Hu') as (tl1 & E1 & TO & Hr). exists tl1. rewrite Hl by done.
    split; [done|]. split; [|done]. apply (table_ok_later s); [done|done|]. intros b Hb. by apply (Hm u tl1).
  - done.
  - intros u u' tl1 tl2 b [Hu Hne]%Hv [Hu' Hne']%Hv. rewrite !Hl by done. by apply (bo_apart s B).
  - destruct (bo_index s B) as (bh & Ebh & Ib). exists bh. split; [done|]. apply (indexes_mono bh (fresh s) _ _ _ Ib); [done|].
    intros T u. symmetry. apply HN.
  - apply (bo_fresh s B).
  - split; [done|]. split; [intros u [_ Hne]%Hv; unfold head_of; by rewrite Hl|]. intros u k p fl Hu. pose proof (proj1 (Hv u) Hu) as [_ Hne].
    unfold bound. rewrite Hl by done. split; intros (tl1 & b & tm & E1 & Hb & Eb & H); exists tl1, b, tm; [rewrite <- (Hm u tl1)|rewrite (Hm u tl1)]; done.
Qed.

Lemma keeps_shrinks s s' : keeps s s' -> (forall t' k p fl, t' ∈ bind_table_vec s -> bound s' t' k p fl <-> bound s t' k p fl) -> shrinks s s'.
Proof.
  intros K H. pose proof K as [Ev Eh]. split; [by rewrite Ev|]. split; [intros T u; symmetry; by apply keeps_named|].
  rewrite Ev. split; [done|auto].
Qed.

Lemma gc_tables_ok n : forall s, binds_ok s -> exists s', gc_tables n s = Ok s' /\ binds_ok s' /\ shrinks s s'.
Proof.
  induction n as [|ti IH]; intros s B; cbn [gc_tables]; [by exists s|]. destruct (bind_table_vec s !! ti) as [t|] eqn:Ei; [|by apply IH].
  assert (Ht : t ∈ bind_table_vec s) by by apply list_elem_of_lookup_2 in Ei. destruct (table_at s t B Ht) as (tl & E & -> & _). cbn [rbind].
  assert (Hnext : forall s1, binds_ok s1 /\ shrinks s s1 -> exists s', gc_tables ti s1 = Ok s' /\ binds_ok s' /\ shrinks s s').
  { intros s1 [B1 S1]. destruct (IH s1 B1) as (s' & E' & B' & S'). exists s'. split; [done|]. split; [done|]. by apply (shrinks_trans _ s1). }
  fold (gone tl). destruct (gone tl) eqn:G; [by apply Hnext, drop_table_ok|].
  destruct (gc_masks_ok (length (masks tl)) t s B Ht) as (s1 & -> & B1 & K1 & H1). cbn [rbind]. apply Hnext. split; [done|]. by apply keeps_shrinks.
Qed.

Lemma gc_ok s : binds_ok s -> exists s', garbage_collect_tclhash s = Ok s' /\ binds_ok s' /\ shrinks s s'.
Proof.
  intros B. unfold garbage_collect_tclhash. destruct (negb _); [by exists s|]. destruct (gc_tables_ok (length (bind_table_vec s)) (mark_dirty false s)) as (s' & E & B' & S').
  - by apply dirty_ok.
  - exists s'. split; [done|]. split; [done|exact S'].
Qed.
End Map.
