(* ===== verification/BindsSpec.v ===== *)
(** * What the bind tables promise

    The tables as a scripter sees them ([bindmap]): which tables there are and whether binds
    stack in them, and for a table, a mask and a procedure the flags it was bound with.  The
    commands [bind] and [unbind], tables that come and go and the collection of garbage refine
    it ([binds_refine_map]). *)

From stdpp Require Import gmap list.
From S2P Require Import Htab HtabRing HtabMap Prelude LibC Rfc1459 Wildcard Match FlagDefs FlagText Binds BindsCmds BindsMap.
#[local] Open Scope Z_scope.

(** Names and masks are up to case, procedures are not. *)
Record bindmap := { tabs : gmap (list Z) bool; procs : gmap (list Z * list Z * list Z) flag_record }.

Definition not_at (T k : list Z) (e : list Z * list Z * list Z * flag_record) : Prop := (e.1.1.1, e.1.1.2) <> (T, k).
#[local] Instance not_at_dec T k e : Decision (not_at T k e).
Proof. unfold not_at. apply _. Defined.
Definition not_in (T : list Z) (e : list Z * list Z * list Z * flag_record) : Prop := e.1.1.1 <> T.
#[local] Instance not_in_dec T e : Decision (not_in T e).
Proof. unfold not_in. apply _. Defined.

(** Where binds do not stack, the new one takes the place of what was there. *)
Definition spec_bind (T k proc : list Z) (fl : flag_record) (stack : bool) (m : bindmap) : bindmap :=
  {| tabs := tabs m; procs := <[(T, k, proc) := fl]> (if stack then procs m else filter (not_at T k) (procs m)) |}.

(** Some procedure with this name, up to case, goes. *)
Definition spec_unbind (T k proc : list Z) (m m' : bindmap) : Prop :=
  (m' = m /\ forall p fl, procs m !! (T, k, p) = Some fl -> same_name p proc = false) \/
  exists q, is_Some (procs m !! (T, k, q)) /\ same_name q proc = true /\ m' = {| tabs := tabs m; procs := delete (T, k, q) (procs m) |}.

Definition spec_bind_op (o : bind_op) (m m' : bindmap) : Prop :=
  match o with
  | TclBind cd [type; flags; cmd; proc] =>
      match tabs m !! fold_name type with
      | None => m' = m
      | Some stack =>
          if cd =? 1 then spec_unbind (fold_name type) (fold_name cmd) proc m m'
          else m' = spec_bind (fold_name type) (fold_name cmd) proc (new_flags flags) stack m
      end
  | TclBind _ _ => m' = m
  | AddTable nme flg _ =>
      m' = match tabs m !! fold_name nme with
           | Some _ => m
           | None => {| tabs := <[fold_name nme := flg =? HT_STACKABLE]> (tabs m); procs := procs m |}
           end
  | DelTable nme => m' = {| tabs := delete (fold_name nme) (tabs m); procs := filter (not_in (fold_name nme)) (procs m) |}
  end.
Fixpoint spec_bind_ops (os : list bind_op) (m m' : bindmap) : Prop :=
  match os with [] => m' = m | o :: os => exists m1, spec_bind_op o m m1 /\ spec_bind_ops os m1 m' end.

Definition bind_op_ok (o : bind_op) : Prop := match o with AddTable nme flg _ => table_arg_ok nme flg | _ => True end.

Section Spec.
Context {W : Type}.
Implicit Types s : bstate W.

(** A state stands for a map. *)
Record rep s (m : bindmap) : Prop := {
  rp_ok : binds_ok s;
  rp_tabs T b : tabs m !! T = Some b <-> exists t tl, named s T t /\ mem_tables s !! t = Some tl /\ stackable tl = b;
  rp_procs T k p fl : procs m !! (T, k, p) = Some fl <-> exists t, named s T t /\ bound s t k p fl
}.

Lemma spec_bind_lookup T k proc nf stack m T' k' p fl :
  procs (spec_bind T k proc nf stack m) !! (T', k', p) = Some fl <->
  (T' = T /\ k' = k /\ rebound stack proc nf (fun p fl => procs m !! (T, k, p) = Some fl) p fl) \/
  (~ (T' = T /\ k' = k) /\ procs m !! (T', k', p) = Some fl).
Proof.
  cbn [procs spec_bind]. unfold rebound. destruct (decide ((T', k', p) = (T, k, proc))) as [[= -> -> ->]|Hne].
  - rewrite lookup_insert_eq. split; [intros [= <-]; left; tauto|]. intros [(_ & _ & [[_ ->]|(_ & ? & _)])|[? _]]; [done|done|tauto].
  - rewrite lookup_insert_ne by congruence. destruct stack.
    + split.
      * intros E. destruct (decide (T' = T /\ k' = k)) as [[-> ->]|]; [left|by right]. split; [done|]. split; [done|]. right. split; [done|]. split; [|done].
        intros ->. done.
      * intros [(-> & -> & [[-> _]|(_ & _ & ?)])|[_ ?]]; [done|done|done].
    + rewrite map_lookup_filter_Some. unfold not_at. cbn [fst snd]. split.
      * intros [E Hn]. right. split; [|done]. intros [-> ->]. by apply Hn.
      * intros [(-> & -> & [[-> _]|(? & _)])|[Hn E]]; [done|done|]. split; [done|]. intros [= -> ->]. tauto.
Qed.

Lemma rep_tab s m T t tl : rep s m -> named s T t -> mem_tables s !! t = Some tl -> tabs m !! T = Some (stackable tl).
Proof. intros R N E. apply (rp_tabs s m R). by exists t, tl. Qed.

Lemma named_name s T T' t : named s T t -> named s T' t -> T = T'.
Proof. intros (_ & tl & E & _ & <-) (_ & tl' & E' & _ & <-). congruence. Qed.

Lemma rep_procs_at s m T t k p fl : rep s m -> named s T t -> procs m !! (T, k, p) = Some fl <-> bound s t k p fl.
Proof.
  intros R N. rewrite (rp_procs s m R). split; [|by exists t]. intros (t' & N' & Hb).
  by rewrite (named_unique s T t t' (rp_ok s m R) N N').
Qed.

(** The same tables, and binds that are those of another map. *)
Lemma rep_keeps s s' m m' : rep s m -> binds_ok s' -> tabs m' = tabs m ->
  (forall T u, named s' T u <-> named s T u) -> (forall T u, named s T u -> head_of s' u = head_of s u) ->
  (forall T k p fl, procs m' !! (T, k, p) = Some fl <-> exists t, named s T t /\ bound s' t k p fl) -> rep s' m'.
Proof.
  intros R B' Et N H P. split; [done| |].
  - intros T b. rewrite Et, (rp_tabs s m R). split; intros (t & tl & Nt & E & Es).
    + unfold head_of in H. specialize (H T t Nt). rewrite E in H. destruct (mem_tables s' !! t) as [tl'|] eqn:E'; [|done].
      exists t, tl'. split; [by apply N|]. split; [done|]. injection H as _ Ef. unfold stackable in *. by rewrite Ef.
    + apply N in Nt as Nt'. unfold head_of in H. specialize (H T t Nt'). rewrite E in H. destruct (mem_tables s !! t) as [tl'|] eqn:E'; [|done].
      exists t, tl'. split; [done|]. split; [done|]. injection H as _ Ef. unfold stackable in *. by rewrite <- Ef.
  - intros T k p fl. rewrite P. by setoid_rewrite N.
Qed.

Lemma rep_changes s s' m m' T t k P : rep s m -> named s T t -> changes s s' t k P -> tabs m' = tabs m ->
  (forall p fl T' k', procs m' !! (T', k', p) = Some fl <->
     (T' = T /\ k' = k /\ P (bound s t k) p fl) \/ (~ (T' = T /\ k' = k) /\ procs m !! (T', k', p) = Some fl)) -> rep s' m'.
Proof.
  intros R N (B' & K & H) Et HP. apply (rep_keeps s s' m m' R B' Et).
  - intros T' u. symmetry. by apply keeps_named.
  - intros T' u [Hu _]. by apply K.
  - intros T' k' p fl. rewrite HP, (rp_procs s m R). split.
    + intros [(-> & -> & Hx)|[Hn (t' & N' & Hb)]].
      * exists t. split; [done|]. apply H; [apply N|]. by left.
      * exists t'. split; [done|]. apply H; [apply N'|]. right. split; [|done]. intros [-> ->]. apply Hn. split; [by apply (named_name s _ _ t)|done].
    + intros (t' & N' & Hb). apply H in Hb as [(-> & -> & Hx)|[Hn Hb]]; [left|right|apply N'].
      * split; [by apply (named_name s _ _ t)|done].
      * split; [|by exists t']. intros [-> ->]. apply Hn. split; [by apply (named_unique s T t' t (rp_ok s m R))|done].
Qed.

Lemma shrinks_rep s s' m : rep s m -> binds_ok s' -> shrinks s s' -> rep s' m.
Proof.
  intros R B' (V & N & H & Hb). apply (rep_keeps s s' m m R B' eq_refl N).
  - intros T u Nu. apply H. apply (N T u). done.
  - intros T k p fl. rewrite (rp_procs s m R). split; intros (t & Nt & Hx); exists t; (split; [done|]); apply Hb; try done; by apply (N T t).
Qed.

(** ** The operations *)

(** What may go wrong: the end of what is considered, and a name that is too short for the
    test that tells builtins. *)
Definition op_fault (e : bfault) : Prop := e = TooMany \/ e = BehindEnd.

Lemma dump_ok s : binds_ok s -> forall l, (forall t, t ∈ l -> t ∈ bind_table_vec s) -> exists ns, dump_bind_tables s l = Ok ns.
Proof.
  intros B. induction l as [|t l IH]; intros Hl; [by exists []|]. cbn [dump_bind_tables].
  destruct (table_at s t B) as (tl & E & -> & _); [apply Hl, elem_of_cons; by left|]. cbn [rbind].
  destruct IH as (ns & ->); [intros u Hu; apply Hl, elem_of_cons; by right|]. cbn [rbind]. eauto.
Qed.

Lemma getbinds_ok s tl nm : table_ok s tl -> forall l, (forall a, a ∈ l -> a ∈ masks tl) -> exists ns, getbinds s l nm = Ok ns.
Proof.
  intros TO. induction l as [|a l IH]; intros Hl; [by exists []|]. cbn [getbinds].
  destruct (to_masks s tl TO a) as (tm & Em & _); [apply Hl, elem_of_cons; by left|]. unfold get_mask. rewrite Em. cbn [rbind].
  destruct (_ && _); [eauto|]. apply IH. intros b Hb. apply Hl, elem_of_cons. by right.
Qed.

Lemma unbind_changes T k q m T' k' p fl :
  procs {| tabs := tabs m; procs := delete (T, k, q) (procs m) |} !! (T', k', p) = Some fl <->
  (T' = T /\ k' = k /\ p <> q /\ procs m !! (T, k, p) = Some fl) \/ (~ (T' = T /\ k' = k) /\ procs m !! (T', k', p) = Some fl).
Proof.
  cbn [procs]. rewrite lookup_delete_Some. split.
  - intros [Hne E]. destruct (decide (T' = T /\ k' = k)) as [[-> ->]|]; [left|by right]. split; [done|]. split; [done|]. split; [congruence|done].
  - intros [(-> & -> & Hne & E)|[Hn E]]; (split; [|done]); [congruence|]. intros [= -> -> ->]. tauto.
Qed.

Lemma unbind_refines s m T t flags cmd proc : rep s m -> named s T t ->
  exists r s', unbind_bind_entry s t flags cmd proc = Ok (r, s') /\ exists m', spec_unbind T (fold_name cmd) proc m m' /\ rep s' m'.
Proof.
  intros R N. pose proof (rp_ok s m R) as B.
  destruct (unbind_entry_ok s t flags cmd proc B (proj1 N)) as (r & s' & E & H). exists r, s'. split; [done|].
  destruct H as [(_ & -> & Hno)|(_ & q & fl & Hb & Hq & C)].
  - exists m. split; [|done]. left. split; [done|]. intros p fl. rewrite (rep_procs_at s m T t) by done. apply Hno.
  - eexists. split; [right; exists q; split; [|split; [done|reflexivity]]; exists fl; by apply (rep_procs_at s m T t)|].
    apply (rep_changes s s' m _ T t (fold_name cmd) _ R N C); [done|]. intros p fl' T' k'. rewrite unbind_changes.
    by rewrite (rep_procs_at s m T t).
Qed.

Lemma bind_refines s m T t tl flags cmd proc : rep s m -> named s T t -> mem_tables s !! t = Some tl ->
  safe op_fault (fun r => rep (snd r) (spec_bind T (fold_name cmd) proc (new_flags flags) (stackable tl) m)) (bind_bind_entry s t flags cmd proc).
Proof.
  intros R N E. eapply safe_mono; [apply (bind_entry_ok s t tl flags cmd proc (rp_ok s m R) (proj1 N) E)|intros e <-; by left|].
  intros [r s'] [_ C]. cbn [snd] in *. apply (rep_changes s s' m _ T t (fold_name cmd) _ R N C); [done|]. intros p fl T' k'.
  rewrite spec_bind_lookup. unfold rebound. by rewrite (rep_procs_at s m T t).
Qed.

Lemma add_refines s m nme flg fn : rep s m -> table_arg_ok nme flg ->
  safe op_fault (fun r => exists m', spec_bind_op (AddTable nme flg fn) m m' /\ rep (snd r) m') (add_bind_table s nme flg fn).
Proof.
  intros R A. pose proof (rp_ok s m R) as B. eapply safe_mono; [by apply add_table_ok|intros e <-; by left|].
  intros [t s'] (B' & Hb & Hh & Hn). cbn [snd spec_bind_op]. eexists. split; [reflexivity|]. destruct Hn as [[N HN]|(Hno & HN & Ht & Hv & Hnb)].
  - pose proof N as (_ & tl & E & _). rewrite (rep_tab s m (fold_name nme) t tl R N E). apply (rep_keeps s s' m m R B' eq_refl HN).
    + intros T u [Hu _]. by apply Hh.
    + intros T k p fl. rewrite (rp_procs s m R). split; intros (u & Nu & Hx); exists u; (split; [done|]); apply Hb; try done; apply Nu.
  - assert (Enone : tabs m !! fold_name nme = None).
    { destruct (tabs m !! fold_name nme) as [b|] eqn:Et; [|done]. apply (rp_tabs s m R) in Et as (u & _ & Nu & _). by destruct (Hno u). }
    rewrite Enone. split; [done| |]; cbn [tabs procs].
    + intros T b. rewrite lookup_insert_Some, (rp_tabs s m R). setoid_rewrite HN. split.
      * intros [[<- <-]|[Hne (u & tl & Nu & E & Es)]].
        -- unfold head_of in Ht. destruct (mem_tables s' !! t) as [tl|] eqn:E; [|done]. exists t, tl. split; [by left|]. split; [done|].
           cbn in Ht. injection Ht as _ Ef. unfold stackable. rewrite Ef. destruct (proj2 A) as [->| ->]; done.
        -- assert (Hu : u ∈ bind_table_vec s) by apply Nu. destruct (head_Some s s' u tl (proj2 (Hh u Hu)) E) as (tl' & E' & _ & Ef).
           exists u, tl'. split; [by right|]. split; [done|]. unfold stackable in *. by rewrite Ef.
      * intros (u & tl & [[-> ->]|Nu] & E & Es).
        -- left. split; [done|]. unfold head_of in Ht. rewrite E in Ht. injection Ht as _ Ef. rewrite <- Es. unfold stackable. rewrite Ef.
           destruct (proj2 A) as [->| ->]; done.
        -- right. split; [intros <-; by apply (Hno u)|]. assert (Hu : u ∈ bind_table_vec s) by apply Nu.
           destruct (head_Some s' s u tl (eq_sym (proj2 (Hh u Hu))) E) as (tl' & E' & _ & Ef). exists u, tl'. split; [done|]. split; [done|].
           unfold stackable in *. by rewrite Ef.
    + intros T k p fl. rewrite (rp_procs s m R). setoid_rewrite HN. split.
      * intros (u & Nu & Hx). exists u. split; [by right|]. apply Hb; [apply Nu|done].
      * intros (u & [[-> ->]|Nu] & Hx); [by apply Hnb in Hx|]. exists u. split; [done|]. apply Hb; [apply Nu|done].
Qed.

Lemma del_refines s m nme t : rep s m -> named s (fold_name nme) t ->
  exists s', del_bind_table s t = Ok s' /\ exists m', spec_bind_op (DelTable nme) m m' /\ rep s' m'.
Proof.
  intros R N. pose proof (rp_ok s m R) as B. destruct (del_table_ok s t _ B N) as (s' & E & B' & HN & Hb & Hh). exists s'. split; [done|].
  eexists. split; [reflexivity|]. assert (Hne : forall T u, named s T u -> u <> t <-> T <> fold_name nme).
  { intros T u Nu. split; intros H ->; apply H; [by apply (named_unique s (fold_name nme))|by apply (named_name s _ _ t)]. }
  split; [done| |]; cbn [tabs procs].
  - intros T b. rewrite lookup_delete_Some, (rp_tabs s m R). setoid_rewrite HN. split.
    + intros [HT (u & tl & Nu & Eu & Es)]. assert (u <> t) by (apply (Hne T u Nu); congruence). specialize (Hh u ltac:(done)).
      destruct (head_Some s s' u tl Hh Eu) as (tl' & E' & _ & Ef). exists u, tl'. split; [done|]. split; [done|]. unfold stackable in *. by rewrite Ef.
    + intros (u & tl & [Nu Hu] & Eu & Es). split; [apply not_eq_sym; by apply (Hne T u Nu)|]. specialize (Hh u Hu).
      destruct (head_Some s' s u tl (eq_sym Hh) Eu) as (tl' & E' & _ & Ef). exists u, tl'. split; [done|]. split; [done|]. unfold stackable in *. by rewrite Ef.
  - intros T k p fl. rewrite map_lookup_filter_Some, (rp_procs s m R). unfold not_in. cbn [fst]. setoid_rewrite HN. split.
    + intros [(u & Nu & Hx) HT]. exists u. split; [split; [done|by apply (Hne T u Nu)]|]. apply Hb; [apply Nu|done].
    + intros (u & [Nu Hu] & Hx). split; [|by apply (Hne T u Nu)]. exists u. split; [done|]. apply Hb; [apply Nu|done].
Qed.

Lemma find_rep s m nme : rep s m -> exists t, find_bind_table s nme = Ok t /\
  if t =? 0 then tabs m !! fold_name nme = None else named s (fold_name nme) t.
Proof.
  intros R. destruct (find_table_spec s nme (rp_ok s m R)) as (t & -> & Ht). exists t. split; [done|]. destruct (t =? 0); [|done].
  destruct (tabs m !! fold_name nme) as [b|] eqn:E; [|done]. apply (rp_tabs s m R) in E as (u & _ & Nu & _). by destruct (Ht u).
Qed.

Lemma not_builtin_fault type cmd proc : safe op_fault (fun _ => True) (not_builtin type cmd proc).
Proof.
  assert (Hb : forall l i, safe op_fault (fun _ => True) (byte l i)).
  { intros l i. unfold byte. destruct (l !! i); [done|]. destruct (Nat.eqb _ _); [done|]. by right. }
  unfold not_builtin. eapply safe_let; [apply Hb|]. intros c _. destruct (negb _); [done|].
  eapply safe_let; [apply Hb|]. intros d _. by destruct (negb _).
Qed.

Lemma tcl_bind_refines s m cd argv : rep s m ->
  safe op_fault (fun r => exists m', spec_bind_op (TclBind cd argv) m m' /\ rep (snd r) m') (tcl_bind s cd argv).
Proof.
  intros R. pose proof (rp_ok s m R) as B. destruct argv as [|type [|flags [|cmd rest]]]; cbn [tcl_bind]; [by exists m|by exists m|by exists m|].
  destruct (find_rep s m type R) as (t & -> & Ht). destruct rest as [|proc [|x rest]].
  - destruct (negb (cd =? 1)); [|by exists m]. cbn [rbind]. destruct (t =? 0).
    + destruct (dump_ok s B (bind_table_vec s)) as (ns & ->); [done|]. by exists m.
    + unfold tcl_getbinds. destruct (table_at s t B (proj1 Ht)) as (tl & E & -> & TO & _). cbn [rbind].
      destruct (getbinds_ok s tl cmd TO (masks tl)) as (ns & ->); [done|]. by exists m.
  - cbn [rbind spec_bind_op]. destruct (t =? 0).
    + rewrite Ht. destruct (dump_ok s B (bind_table_vec s)) as (ns & ->); [done|]. by exists m.
    + pose proof Ht as (_ & tl & E & _). rewrite (rep_tab s m (fold_name type) t tl R Ht E). destruct (cd =? 1).
      * destruct (unbind_refines s m (fold_name type) t flags cmd proc R Ht) as (r & s' & -> & m' & Hm & R'). cbn [rbind].
        destruct (negb (truthy r)); [|by exists m']. eapply safe_let; [apply not_builtin_fault|]. intros [|] _; by exists m'.
      * eapply safe_let; [by apply (bind_refines s m (fold_name type) t tl)|]. intros [r s'] R'. cbn [snd] in R'. by eexists.
  - by exists m.
Qed.

Lemma bind_op_refines s m o : rep s m -> bind_op_ok o -> safe op_fault (fun s' => exists m', spec_bind_op o m m' /\ rep s' m') (do_bind_op o s).
Proof.
  intros R Ho. destruct o as [cd argv|nme flg fn|nme]; cbn [do_bind_op bind_op_ok] in *.
  - eapply safe_let; [by apply (tcl_bind_refines s m)|]. by intros [r s'] H.
  - eapply safe_let; [by apply (add_refines s m)|]. by intros [r s'] H.
  - destruct (find_rep s m nme R) as (t & -> & Ht). cbn [rbind]. destruct (t =? 0) eqn:E0.
    + unfold del_bind_table. rewrite E0. eexists. split; [reflexivity|]. destruct m as [ts ps]. cbn [tabs procs] in *. rewrite delete_id by done.
      assert (Ef : filter (not_in (fold_name nme)) ps = ps); [|by rewrite Ef]. apply map_filter_id. intros [[T k] p] fl E HT. cbn in HT. subst T.
      apply (rp_procs s _ R (fold_name nme)) in E as (u & Nu & _). pose proof Nu as (_ & tl & Eu & _). pose proof (rep_tab s _ _ u tl R Nu Eu) as Hx.
      cbn in Hx. congruence.
    + destruct (del_refines s m nme t R Ht) as (s' & -> & H). exact H.
Qed.

Lemma bind_ops_refine os : forall s m, rep s m -> Forall bind_op_ok os -> safe op_fault (fun s' => exists m', spec_bind_ops os m m' /\ rep s' m') (do_bind_ops os s).
Proof.
  induction os as [|o os IH]; intros s m R Hos; [by exists m|]. apply Forall_cons in Hos as [Ho Hos]. cbn [do_bind_ops spec_bind_ops].
  eapply safe_let; [by apply bind_op_refines|]. intros s1 (m1 & H1 & R1). eapply safe_mono; [by apply (IH s1 m1)|done|].
  intros s2 (m2 & H2 & R2). exists m2. split; [by exists m1|done].
Qed.

(** ** Sequences *)

Inductive event := Do (o : bind_op) | Collect.
Definition do_event (e : event) s : result bfault (bstate W) := match e with Do o => do_bind_op o s | Collect => garbage_collect_tclhash s end.
Fixpoint do_events (es : list event) s : result bfault (bstate W) :=
  match es with [] => Ok s | e :: es => let! s := do_event e s in do_events es s end.
(** What is asked of the tables: collecting is nothing. *)
Definition requests (es : list event) : list bind_op := omap (fun e => match e with Do o => Some o | Collect => None end) es.

(** Before [init_bind] adds its tables. *)
Definition init_bstate (w : W) : bstate W :=
  {| mem_masks := ∅; mem_tables := ∅; fresh := 1; bind_table_vec := []; bind_table_ht := Some (op_htab_create 32);
     tclhash_dirty := false; interp := w |}.
Definition no_binds : bindmap := {| tabs := ∅; procs := ∅ |}.

Lemma init_rep w : rep (init_bstate w) no_binds.
Proof.
  assert (Hn : forall T t, ~ named (init_bstate w) T t) by (intros T t [Ht _]; by apply elem_of_nil in Ht).
  split.
  - split; [intros t Ht; by apply elem_of_nil in Ht|constructor|intros t ? ? ? ? Ht; by apply elem_of_nil in Ht| |cbn; lia].
    exists (op_htab_create 32). split; [done|]. destruct (create_spec (K := istr_key) 32 ltac:(lia)) as (Wf & A & C & L).
    split; [done|split; rewrite ?C; cbn [fresh init_bstate]; lia|]. intros k a. rewrite A, lookup_empty. split; [done|]. intros H. by apply Hn in H.
  - intros T b. cbn [tabs no_binds]. rewrite lookup_empty. split; [done|]. intros (t & tl & Nt & _). by apply Hn in Nt.
  - intros T k p fl. cbn [procs no_binds]. rewrite lookup_empty. split; [done|]. intros (t & Nt & _). by apply Hn in Nt.
Qed.

(** C6. Whatever scripts bind and unbind, whatever tables modules add and delete, and whenever
    garbage is collected in between, the bind tables with their two kinds of hash tables and
    their deletion by marks are a map from the name of a table, the mask and the procedure to
    the flags, names and masks up to case: [bind] replaces the flags or adds a procedure, in
    place of the others where binds do not stack; [unbind] takes away a procedure whose name
    is the same up to case, if there is one; a table that is added is empty and one that is
    deleted takes its binds along; collecting changes nothing.  No pointer is ever bad: what
    remains is a name that is too short for the test [unbind] makes of it. *)
Theorem binds_refine_map (es : list event) s m : rep s m -> Forall bind_op_ok (requests es) ->
  match do_events es s with
  | Ok s' => exists m', spec_bind_ops (requests es) m m' /\ rep s' m'
  | Err e => e = TooMany \/ e = BehindEnd
  end.
Proof.
  revert s m. induction es as [|e es IH]; intros s m R Hes; cbn [do_events]; [by exists m|]. destruct e as [o|]; cbn [do_event requests omap list_omap] in *.
  - apply Forall_cons in Hes as [Ho Hes]. pose proof (bind_op_refines s m o R Ho) as H1. destruct (do_bind_op o s) as [s1|e]; [|exact H1].
    destruct H1 as (m1 & H1 & R1). cbn [rbind]. specialize (IH s1 m1 R1 Hes). destruct (do_events es s1) as [s2|e]; [|exact IH].
    destruct IH as (m2 & H2 & R2). exists m2. split; [by exists m1|done].
  - destruct (gc_ok s (rp_ok s m R)) as (s1 & -> & B1 & S1). cbn [rbind]. apply IH; [|done]. by apply (shrinks_rep s s1 m).
Qed.
End Spec.
