(* ===== verification/BindsRun.v ===== *)
(** * What runs when something happens

    [check_tcl_bind] against its specification: the commands whose masks match and whose flags
    fit, in the order of the table, and what becomes of them by the type of the search.  The
    search by hash table finds what a walk finds.  With procedures that do not bind or unbind
    anything themselves, the specification says what runs and what is answered; the fault that
    remains is a null pointer ([single_mode_bind_faults]). *)

From stdpp Require Import gmap list.
From S2P Require Import Htab HtabRing HtabMap Prelude LibC Rfc1459 Wildcard Match FlagDefs FlagText Binds BindsCmds BindsMap BindsSpec.
#[local] Open Scope Z_scope.

(** ** Counting hits changes nothing else *)

Definition unhit (tc : tcl_cmd_t) : tcl_cmd_t :=
  {| c_flags := c_flags tc; func_name := func_name tc; attributes := attributes tc; hits := 0 |}.
Definition unhit_mask (tm : tcl_bind_mask_t) : tcl_bind_mask_t := with_cmds (map unhit (cmds tm)) tm.

Lemma unhit_hit i cs : map unhit (alter hit i cs) = map unhit cs.
Proof. revert i. induction cs as [|c cs IH]; intros [|i]; [done|done|done|]. cbn. by f_equal. Qed.

Lemma live_unhit cs : live (map unhit cs) = map unhit (live cs).
Proof. induction cs as [|c cs IH]; [done|]. cbn [map]. rewrite !live_cons. change (deleted (unhit c)) with (deleted c). destruct (deleted c); [done|]. cbn. by f_equal. Qed.

Lemma has_unhit cs p fl : has (map unhit cs) p fl <-> has cs p fl.
Proof.
  unfold has. rewrite live_unhit. split.
  - intros (x & Hx & <- & <-). apply list_elem_of_In, in_map_iff in Hx as (y & <- & Hy). exists y. by rewrite list_elem_of_In.
  - intros (y & Hy & <- & <-). exists (unhit y). split; [|done]. apply list_elem_of_In, in_map. by apply list_elem_of_In.
Qed.
Lemma has_unhit_eq cs cs' p fl : map unhit cs = map unhit cs' -> has cs p fl <-> has cs' p fl.
Proof. intros E. rewrite <- (has_unhit cs), <- (has_unhit cs'). by rewrite E. Qed.
Lemma mask_ok_unhit stack tm cs : mask_ok stack tm -> map unhit cs = map unhit (cmds tm) -> mask_ok stack (with_cmds cs tm).
Proof.
  intros [Mf Mn Ms] E.
  assert (En : forall l, map func_name (live l) = map func_name (live (map unhit l))) by (intros l; by rewrite live_unhit, map_map).
  assert (El : forall l, length (live l) = length (live (map unhit l))) by (intros l; by rewrite live_unhit, length_map).
  split; cbn [tm_flags cmds with_cmds]; [done|by rewrite En, E, <- En|by rewrite El, E, <- El].
Qed.

Section Run.
Context {W : Type}.
Implicit Types s : bstate W.

(** A state but for the hits and the interpreter. *)
Definition core s : bstate unit :=
  Build_bstate (unhit_mask <$> mem_masks s) (mem_tables s) (fresh s) (bind_table_vec s) (bind_table_ht s) (tclhash_dirty s) tt.

Definition same s s' : Prop := core s' = core s /\ binds_ok s' /\ forall m, rep s m -> rep s' m.

Lemma same_refl s : binds_ok s -> same s s.
Proof. done. Qed.
Lemma same_trans s1 s2 s3 : same s1 s2 -> same s2 s3 -> same s1 s3.
Proof. intros (C1 & B1 & R1) (C2 & B2 & R2). split; [by rewrite C2|]. split; [done|auto]. Qed.

Lemma same_interp s w : binds_ok s -> same s (set_interp w s).
Proof.
  intros B. assert (B' : binds_ok (set_interp w s)).
  { destruct B as [BT BV BA BI BF]. split; try done. intros t' Ht'. destruct (BT t' Ht') as (tl & ? & [? ? ?] & ?). by exists tl. }
  split; [done|]. split; [done|]. intros m R. apply (shrinks_rep s _ m R B'). split; [done|]. split; [done|done].
Qed.

Lemma core_tables s s' : core s' = core s -> mem_tables s' = mem_tables s /\ bind_table_vec s' = bind_table_vec s /\ bind_table_ht s' = bind_table_ht s.
Proof. intros [= _ ?? ?? _]. done. Qed.
Lemma core_mask s s' a tm : core s' = core s -> mem_masks s !! a = Some tm ->
  exists tm', mem_masks s' !! a = Some tm' /\ mask tm' = mask tm /\ tm_flags tm' = tm_flags tm /\ map unhit (cmds tm') = map unhit (cmds tm).
Proof.
  intros C E. assert (Em : unhit_mask <$> mem_masks s' = unhit_mask <$> mem_masks s) by exact (f_equal mem_masks C).
  apply (f_equal (lookup a)) in Em. rewrite !lookup_fmap, E in Em. destruct (mem_masks s' !! a) as [tm'|]; [|done].
  cbn in Em. injection Em as E1 E2 E3. by exists tm'.
Qed.

Lemma hit_same s t tl a tm ci : binds_ok s -> t ∈ bind_table_vec s -> mem_tables s !! t = Some tl -> a ∈ masks tl ->
  mem_masks s !! a = Some tm -> exists s', hit_cmd s a ci = Ok s' /\ same s s' /\ interp s' = interp s.
Proof.
  intros B Ht E Ha Em. unfold hit_cmd, get_mask. rewrite Em. cbn [rbind]. eexists. split; [reflexivity|]. split; [|done].
  set (tm' := with_cmds _ tm).
  assert (MO : mask_ok (stackable tl) tm).
  { destruct (table_at s t B Ht) as (tl0 & E0 & _ & TO & _). rewrite E in E0. injection E0 as <-. destruct (to_masks s tl TO a Ha) as (tm0 & E1 & ? & _). congruence. }
  destruct (store_mask_changes s t tl a tm tm' (fun old => old) B Ht E Ha Em eq_refl) as (B' & K & Hb).
  - apply mask_ok_unhit; [done|]. apply unhit_hit.
  - intros p fl. rewrite (bound_at s t tl a tm) by done. apply has_unhit_eq. apply unhit_hit.
  - split; [|split; [done|]].
    + unfold core. cbn. f_equal. rewrite fmap_insert. apply insert_id. rewrite lookup_fmap, Em. cbn. f_equal. unfold unhit_mask, tm'. cbn. by rewrite unhit_hit.
    + intros m R. apply (shrinks_rep s _ m R B'). apply keeps_shrinks; [done|]. intros t' k p fl Ht'. rewrite Hb by done. split.
      * by intros [(-> & -> & ?)|[_ ?]].
      * intros Hx. destruct (decide (t' = t /\ k = fold_name (mask tm))) as [[-> ->]|]; [by left|by right].
Qed.

Lemma to_front_perm mi l : to_front mi l ≡ₚ l.
Proof.
  unfold to_front. destruct (l !! mi) as [a|] eqn:E; [|done]. rewrite <- (take_drop_middle l mi a E) at 2. rewrite <- Permutation_middle.
  by rewrite delete_take_drop.
Qed.

(** The preferred mask goes to the front of its table. *)
Lemma front_ok s t tl mi : binds_ok s -> t ∈ bind_table_vec s -> mem_tables s !! t = Some tl ->
  let s' := put_table t (with_masks (to_front mi (masks tl)) (mask_ht tl) tl) s in
  binds_ok s' /\ forall m, rep s m -> rep s' m.
Proof.
  intros B Ht E s'. destruct (bo_index s B) as (ht & Eh & I).
  assert (K : keeps s s').
  { split; [done|]. intros u _. unfold head_of. cbn. destruct (decide (u = t)) as [->|]; [by rewrite lookup_insert_eq, E|by rewrite lookup_insert_ne]. }
  assert (Es : s' = set_tables (bind_table_vec s) (Some ht) s') by (unfold set_tables; cbn; by rewrite <- Eh).
  destruct (put_table_ok s t tl (with_masks (to_front mi (masks tl)) (mask_ht tl) tl) ht B Ht E (to_front_perm _ _) eq_refl eq_refl) as [B' Hb].
  { fold s'. rewrite <- Es. apply (indexes_mono ht (fresh s) _ _ _ I); [done|]. intros U u. by apply keeps_named. }
  fold s' in B', Hb. rewrite <- Es in B', Hb. split; [done|]. intros m R. apply (shrinks_rep s s' m R B'). apply keeps_shrinks; [done|].
  intros u k p fl Hu. by apply Hb.
Qed.

(** ** The specification *)

Context (require_p allow_dk_cmds : bool) (Tcl_VarEval : bstate W -> list Z -> list Z -> W * list bind_op * tcl_result).
(** What a procedure does to the interpreter, its answer, and whether the result is empty. *)
Context (call : W -> list Z -> list Z -> W * Z * bool).

Section Spec.
Context (match_ : list Z) (atr : flag_record) (match_type : Z).
Notation eligible := (eligible require_p allow_dk_cmds atr match_type).
Notation single := (negb (match_type &? BIND_STACKABLE)).

Definition matches (m : list Z) : bool :=
  if match_kind match_type =? MATCH_EXACT then bool_decide (fold_name m = fold_name match_)
  else check_bind_match match_ m match_type.

(** The masks that match, with the procedures there whose flags fit. *)
Definition fitting (cs : list tcl_cmd_t) : list (list Z) := map func_name (List.filter eligible cs).
Fixpoint groups (h : gmap Z tcl_bind_mask_t) (l : list Z) : list (list Z * list (list Z)) :=
  match l with
  | [] => []
  | a :: l =>
      match h !! a with
      | Some tm =>
          match (if matches (mask tm) then fitting (cmds tm) else []) with [] => groups h l | ps => (mask tm, ps) :: groups h l end
      | None => groups h l
      end
  end.
Definition flat (gs : list (list Z * list (list Z))) : list (list Z * list Z) :=
  flat_map (fun g => map (fun p => (fst g, p)) (snd g)) gs.

(** They run one after the other, until one says that it is enough. *)
Fixpoint run_all (cs : list (list Z * list Z)) (w : W) (r : Z) : W * (Z + Z) :=
  match cs with
  | [] => (w, inr r)
  | (m, p) :: cs =>
      let '(w, x, empty) := call w p m in
      if match_type &? BIND_ALTER_ARGS then if empty then (w, inl x) else run_all cs w r
      else if (match_type &? BIND_STACKRET) && (x =? BIND_EXEC_LOG) then run_all cs w (if r =? 0 then x else r)
      else if (match_type &? BIND_WANTRET) && (x =? BIND_EXEC_LOG) then (w, inl x)
      else run_all cs w r
  end.

(** The one that runs where binds do not stack: the first, or in a search by a beginning the one
    that is all of its mask, or the only one. *)
Definition whole (g : list Z * list (list Z)) : bool := negb (match_kind match_type =? MATCH_PARTIAL) || same_name match_ (fst g).
Definition only (gs : list (list Z * list (list Z))) : option (list Z * list Z) :=
  match List.find whole gs with
  | Some (m, p :: _) => Some (m, p)
  | Some (_, []) => None
  | None => match gs with [(m, p :: _)] => Some (m, p) | _ => None end
  end.

Definition spec_check (gs : list (list Z * list (list Z))) (w : W) : W * result bfault Z :=
  match gs with
  | [] => (w, Ok BIND_NOMATCH)
  | _ =>
      if single then
        if (match_kind match_type =? MATCH_MASK) || (match_kind match_type =? MATCH_CASE) then (w, Ok BIND_EXECUTED)
        else match only gs with
             | Some (m, p) => let '(w, x, _) := call w p m in (w, Ok x)
             | None => (w, Ok BIND_AMBIGUOUS)
             end
      else
        match run_all (flat gs) w 0 with
        | (w, inl x) => (w, Ok x)
        | (w, inr r) =>
            (w, if truthy r then Ok r
                else if (match_kind match_type =? MATCH_EXACT) || (match_kind match_type =? MATCH_MASK) || (match_kind match_type =? MATCH_CASE)
                then Ok BIND_EXECUTED
                else if 1 <? Z.of_nat (length (flat gs)) then Ok BIND_AMBIGUOUS else Err NullCommand)
        end
  end.

(** ** The loops *)

(** Procedures that do not bind or unbind anything. *)
Definition quiet : Prop := forall s p m, let '(w, os, r) := Tcl_VarEval s p m in
  os = [] /\ call (interp s) p m = (w, trigger_result p r, tcl_resultempty r).
Context (Q : quiet).
Notation cmds_loop := (cmds_loop require_p allow_dk_cmds Tcl_VarEval match_ atr match_type).
Notation masks_loop := (masks_loop require_p allow_dk_cmds Tcl_VarEval match_ atr match_type).
Notation exact_loop := (exact_loop require_p allow_dk_cmds Tcl_VarEval atr match_type).

Lemma trigger_quiet s p m : binds_ok s ->
  exists s', trigger_bind Tcl_VarEval s p m = Ok (snd (fst (call (interp s) p m)), snd (call (interp s) p m), s') /\
    same s s' /\ interp s' = fst (fst (call (interp s) p m)).
Proof.
  intros B. unfold trigger_bind. specialize (Q s p m). destruct (Tcl_VarEval s p m) as [[w os] r]. destruct Q as [-> ->].
  cbn [do_bind_ops rbind fst snd]. eexists. split; [reflexivity|]. split; [by apply same_interp|done].
Qed.

Lemma eligible_unhit tc tc' : unhit tc = unhit tc' -> eligible tc = eligible tc' /\ func_name tc = func_name tc'.
Proof. intros [= E1 E2 E3]. unfold Binds.eligible, deleted. by rewrite E1, E2, E3. Qed.

Lemma fitting_unhit cs cs' : map unhit cs = map unhit cs' -> fitting cs = fitting cs'.
Proof.
  revert cs'. induction cs as [|c cs IH]; intros [|c' cs']; [done|done|done|]. cbn [map]. intros [= Ec E].
  destruct (eligible_unhit c c') as [E1 E2]; [by unfold unhit; f_equal|]. unfold fitting. cbn [List.filter]. rewrite E1.
  destruct (eligible c'); [cbn [map]; f_equal; [done|]|]; by apply IH.
Qed.

Lemma lookup_unhit cs cs' i tc : map unhit cs' = map unhit cs -> cs !! i = Some tc -> exists tc', cs' !! i = Some tc' /\ unhit tc' = unhit tc.
Proof.
  intros E Ei. assert (Ex : (unhit <$> cs') !! i = (unhit <$> cs) !! i) by (change (map unhit cs' !! i = map unhit cs !! i); by rewrite E).
  rewrite !list_lookup_fmap, Ei in Ex. destruct (cs' !! i) as [tc'|]; [|done]. injection Ex as E1 E2 E3. exists tc'. split; [done|].
  unfold unhit. by f_equal.
Qed.

(** The hit is counted and the procedure called. *)
Lemma hit_trigger s t tl a tm ci p m : binds_ok s -> t ∈ bind_table_vec s -> mem_tables s !! t = Some tl -> a ∈ masks tl ->
  mem_masks s !! a = Some tm ->
  exists s1 s2, hit_cmd s a ci = Ok s1 /\
    trigger_bind Tcl_VarEval s1 p m = Ok (snd (fst (call (interp s) p m)), snd (call (interp s) p m), s2) /\
    same s s1 /\ same s s2 /\ interp s1 = interp s /\ interp s2 = fst (fst (call (interp s) p m)).
Proof.
  intros B Ht E Ha Em. destruct (hit_same s t tl a tm ci B Ht E Ha Em) as (s1 & E1 & S1 & I1).
  destruct (trigger_quiet s1 p m) as (s2 & E2 & S2 & I2); [apply S1|]. rewrite I1 in E2, I2. exists s1, s2.
  split; [done|]. split; [done|]. split; [done|]. split; [by apply (same_trans _ s1)|done].
Qed.

(** How a walk over commands that all run ends, with [n] of them counted. *)
Definition ends s0 (w : bind_walk) (n : nat) (rr : W * (Z + Z)) (r : result bfault ((Z + bind_walk) * bstate W)) : Prop :=
  exists s', same s0 s' /\ interp s' = fst rr /\
    match snd rr with
    | inl x => r = Ok (inl x, s')
    | inr q => exists w', r = Ok (inr w', s') /\ cnt w' = cnt w + Z.of_nat n /\ res w' = q /\ htc w' = htc w /\ finish w' = finish w
    end.

Lemma ends_more s0 w w1 n n' rr r : ends s0 w1 n rr r -> cnt w1 + Z.of_nat n = cnt w + Z.of_nat n' -> htc w1 = htc w -> finish w1 = finish w -> ends s0 w n' rr r.
Proof.
  intros (s' & S' & I' & H) Hc Hh Hf. exists s'. split; [done|]. split; [done|]. destruct (snd rr); [done|].
  destruct H as (w' & E & C & R & T & F). exists w'. split; [done|]. repeat split; congruence.
Qed.

Lemma drop_lookup {A} (l : list A) i : drop i l = match l !! i with Some x => x :: drop (S i) l | None => [] end.
Proof.
  destruct (l !! i) as [x|] eqn:E; [by apply drop_S|]. apply drop_ge. by apply lookup_ge_None_1.
Qed.

Section Stack.
Context (s0 : bstate W) (t : Z) (tl : tcl_bind_list_t) (a : Z) (tm : tcl_bind_mask_t).
Context (B : binds_ok s0) (Ht : t ∈ bind_table_vec s0) (E : mem_tables s0 !! t = Some tl) (Ha : a ∈ masks tl) (Em : mem_masks s0 !! a = Some tm).
Context (Hst : single = false).

Definition entries_from (ci : nat) : list (list Z * list Z) := map (fun p => (mask tm, p)) (fitting (drop ci (cmds tm))).

(** At place [ci] of the mask, in a state that is the same but for hits. *)
Lemma at_place s ci : same s0 s -> exists tm', get_mask s a = Ok tm' /\ mask tm' = mask tm /\ mem_masks s !! a = Some tm' /\
  match cmds tm' !! ci with
  | None => entries_from ci = [] /\ length (drop ci (cmds tm)) = O
  | Some tc => length (drop ci (cmds tm)) = S (length (drop (S ci) (cmds tm))) /\
      entries_from ci = if eligible tc then (mask tm, func_name tc) :: entries_from (S ci) else entries_from (S ci)
  end.
Proof.
  intros (C & _). destruct (core_mask s0 s a tm C Em) as (tm' & Em' & Emk & _ & Ecs). exists tm'. unfold get_mask. rewrite Em'.
  split; [done|]. split; [done|]. split; [done|]. unfold entries_from. rewrite (drop_lookup (cmds tm) ci).
  destruct (cmds tm' !! ci) as [tc|] eqn:Ei.
  - destruct (lookup_unhit _ _ _ _ (eq_sym Ecs) Ei) as (tc0 & E0 & Eu). rewrite E0. split; [done|]. unfold fitting at 1. cbn [List.filter].
    destruct (eligible_unhit tc0 tc Eu) as [-> E2]. destruct (eligible tc); [cbn [map]; by rewrite E2|done].
  - destruct (cmds tm !! ci) as [tc0|] eqn:E0; [|done]. destruct (lookup_unhit _ _ _ _ Ecs E0) as (tc & ? & _). congruence.
Qed.

(** One turn of either loop: [k] is what the loop does next. *)
Lemma stack_turn s ci tc x e s2 n w w1 (rest : bind_walk -> bstate W -> result bfault ((Z + bind_walk) * bstate W)) (alter_first : bool) :
  same s0 s2 -> interp s2 = fst (fst (call (interp s) (func_name tc) (mask tm))) ->
  x = snd (fst (call (interp s) (func_name tc) (mask tm))) -> e = snd (call (interp s) (func_name tc) (mask tm)) ->
  entries_from ci = (mask tm, func_name tc) :: entries_from (S ci) ->
  cnt w1 = cnt w + 1 -> res w1 = res w -> htc w1 = htc w -> finish w1 = finish w ->
  (alter_first = false -> match_type &? BIND_ALTER_ARGS = false) -> n = length (entries_from (S ci)) ->
  (forall w2, htc w2 = htc w -> finish w2 = finish w -> cnt w2 = cnt w1 -> ends s0 w2 n (run_all (entries_from (S ci)) (interp s2) (res w2)) (rest w2 s2)) ->
  ends s0 w (S n) (run_all (entries_from ci) (interp s) (res w))
    (if alter_first && (match_type &? BIND_ALTER_ARGS) then if e then Ok (inl x, s2) else rest w1 s2
     else if negb alter_first && ((match_type &? BIND_ALTER_ARGS) && e) then Ok (inl x, s2)
     else if (match_type &? BIND_STACKRET) && (x =? BIND_EXEC_LOG) then rest (with_res x w1) s2
     else if (match_type &? BIND_WANTRET) && (x =? BIND_EXEC_LOG) then Ok (inl x, s2)
     else rest w1 s2).
Proof.
  intros S2 I2 Ex Ee Eent C1 R1 H1 F1 Hal Hn Hrest. rewrite Eent. cbn [run_all].
  destruct (call (interp s) (func_name tc) (mask tm)) as [[w' x'] e'] eqn:Ec. cbn [fst snd] in *. subst x' e' w'.
  assert (Hgo : forall w2, htc w2 = htc w -> finish w2 = finish w -> cnt w2 = cnt w1 ->
     ends s0 w (S n) (run_all (entries_from (S ci)) (interp s2) (res w2)) (rest w2 s2)).
  { intros w2 H2 F2 C2. apply (ends_more s0 w w2 n (S n)); [by apply Hrest|lia|done|done]. }
  assert (Hstop : ends s0 w (S n) (interp s2, inl x) (Ok (inl x, s2))) by (exists s2; split; [done|]; split; done).
  pose proof (Hgo w1 H1 F1 eq_refl) as Hgo1. rewrite R1 in Hgo1.
  destruct alter_first; cbn [negb andb]; [|rewrite (Hal eq_refl); cbn [andb]].
  - destruct (match_type &? BIND_ALTER_ARGS); [by destruct e|]. destruct (_ && _).
    + pose proof (Hgo (with_res x w1) H1 F1 eq_refl) as Hg. cbn [res with_res] in Hg. by rewrite R1 in Hg.
    + destruct (_ && _); done.
  - destruct (_ && _).
    + pose proof (Hgo (with_res x w1) H1 F1 eq_refl) as Hg. cbn [res with_res] in Hg. by rewrite R1 in Hg.
    + destruct (_ && _); done.
Qed.

Lemma entries_length ci : length (entries_from ci) = length (fitting (drop ci (cmds tm))).
Proof. apply length_map. Qed.

Lemma same_at s : same s0 s -> t ∈ bind_table_vec s /\ mem_tables s !! t = Some tl /\ binds_ok s.
Proof. intros (C & B' & _). destruct (core_tables s0 s C) as (-> & -> & _). done. Qed.

Lemma cmds_stack mi fuel : forall ci s w, same s0 s -> (length (drop ci (cmds tm)) < fuel)%nat ->
  ends s0 w (length (entries_from ci)) (run_all (entries_from ci) (interp s) (res w)) (cmds_loop fuel s mi a ci w).
Proof.
  induction fuel as [|fuel IH]; intros ci s w SS Hf; [lia|]. cbn [Binds.cmds_loop].
  destruct (at_place s ci SS) as (tm' & -> & Emk & Em' & Hp). cbn [rbind]. destruct (cmds tm' !! ci) as [tc|].
  - destruct Hp as [Hl He]. destruct (eligible tc) eqn:El; cbn [negb].
    + rewrite Hst. destruct (same_at s SS) as (Ht' & E' & B'). cbn [cnt].
      destruct (hit_trigger s t tl a tm' ci (func_name tc) (mask tm') B' Ht' E' Ha Em') as (s1 & s2 & -> & Etr & S1 & S2 & I1 & I2).
      cbn [rbind]. rewrite Etr. cbn [rbind]. rewrite Emk in *. rewrite He. cbn [length]. rewrite <- He.
      assert (S02 : same s0 s2) by by apply (same_trans _ s).
      apply (stack_turn s ci tc _ _ s2 _ w _ (fun w2 s2 => cmds_loop fuel s2 mi a (S ci) w2) true); try done.
      intros w2 _ _ _. apply IH; [done|lia].
    + rewrite He. apply IH; [done|lia].
  - destruct Hp as [-> _]. exists s. split; [done|]. split; [done|]. cbn. exists w. repeat split; lia.
Qed.

Lemma exact_stack fuel : match_type &? BIND_ALTER_ARGS = false -> forall ci s w, same s0 s -> (length (drop ci (cmds tm)) < fuel)%nat ->
  ends s0 w (length (entries_from ci)) (run_all (entries_from ci) (interp s) (res w)) (exact_loop fuel s a ci w).
Proof.
  intros Hal. induction fuel as [|fuel IH]; intros ci s w SS Hf; [lia|]. cbn [Binds.exact_loop].
  destruct (at_place s ci SS) as (tm' & -> & Emk & Em' & Hp). cbn [rbind]. destruct (cmds tm' !! ci) as [tc|].
  - destruct Hp as [Hl He]. destruct (eligible tc) eqn:El; cbn [negb].
    + rewrite Hst. destruct (same_at s SS) as (Ht' & E' & B'). cbn [cnt].
      destruct (hit_trigger s t tl a tm' ci (func_name tc) (mask tm') B' Ht' E' Ha Em') as (s1 & s2 & -> & Etr & S1 & S2 & I1 & I2).
      cbn [rbind]. rewrite Etr. cbn [rbind]. rewrite Emk in *. rewrite He. cbn [length]. rewrite <- He.
      assert (S02 : same s0 s2) by by apply (same_trans _ s).
      apply (stack_turn s ci tc _ _ s2 _ w _ (fun w2 s2 => exact_loop fuel s2 a (S ci) w2) false); try done.
      intros w2 _ _ _. apply IH; [done|lia].
    + rewrite He. apply IH; [done|lia].
  - destruct Hp as [-> _]. exists s. split; [done|]. split; [done|]. cbn. exists w. repeat split; lia.
Qed.
End Stack.

Lemma run_all_app a b w r : run_all (a ++ b) w r = match run_all a w r with (w, inl x) => (w, inl x) | (w, inr r) => run_all b w r end.
Proof.
  revert w r. induction a as [|[m p] a IH]; intros w r; [done|]. cbn [app run_all]. destruct (call w p m) as [[w' x] e].
  destruct (match_type &? BIND_ALTER_ARGS); [by destruct e|]. destruct (_ && _); [done|]. by destruct (_ && _).
Qed.

Lemma flat_groups h a l tm : h !! a = Some tm ->
  flat (groups h (a :: l)) = (if matches (mask tm) then entries_from tm 0 else []) ++ flat (groups h l).
Proof.
  intros E. cbn [groups]. rewrite E. destruct (matches (mask tm)); [|done]. unfold entries_from. rewrite drop_0.
  by destruct (fitting (cmds tm)).
Qed.

Section Table.
Context (s0 : bstate W) (t : Z) (tl : tcl_bind_list_t).
Context (B : binds_ok s0) (Ht : t ∈ bind_table_vec s0) (E : mem_tables s0 !! t = Some tl) (Hk : (match_kind match_type =? MATCH_EXACT) = false).
Context (lim : nat) (Hlim : forall a tm, a ∈ masks tl -> mem_masks s0 !! a = Some tm -> (length (cmds tm) < lim)%nat).

Lemma mask_there a : a ∈ masks tl -> exists tm, mem_masks s0 !! a = Some tm /\ tm_flags tm = 0.
Proof.
  intros Ha. destruct (table_at s0 t B Ht) as (tl0 & E0 & _ & TO & _). rewrite E in E0. injection E0 as <-.
  destruct (to_masks s0 tl TO a Ha) as (tm & Em & MO & _). exists tm. split; [done|apply (mo_flags _ _ MO)].
Qed.

Lemma matches_check m : matches m = check_bind_match match_ m match_type.
Proof. unfold matches. by rewrite Hk. Qed.

Lemma masks_stack fuel : single = false -> forall mi s w, same s0 s -> finish w = false -> (length (drop mi (masks tl)) < fuel)%nat ->
  let cs := flat (groups (mem_masks s0) (drop mi (masks tl))) in
  ends s0 w (length cs) (run_all cs (interp s) (res w)) (masks_loop lim fuel s t mi w).
Proof.
  intros Hst. induction fuel as [|fuel IH]; intros mi s w SS Fw Hf cs; [lia|]. cbn [Binds.masks_loop]. unfold get_table.
  pose proof SS as (C & B' & _). destruct (core_tables s0 s C) as (Et & _ & _). rewrite Et, E. cbn [rbind].
  unfold cs. clear cs. rewrite (drop_lookup (masks tl) mi) in *. destruct (masks tl !! mi) as [a|] eqn:Ei.
  2: { exists s. split; [done|]. split; [done|]. cbn. exists w. repeat split; lia. }
  assert (Ha : a ∈ masks tl) by by apply list_elem_of_lookup_2 in Ei. rewrite Fw. cbn [length] in Hf.
  destruct (mask_there a Ha) as (tm & Em & Ef). destruct (core_mask s0 s a tm C Em) as (tm' & Em' & Emk & Etf & _).
  unfold get_mask. rewrite Em'. cbn [rbind]. rewrite Etf, Ef, Emk. cbn [orb truthy Z.land Z.eqb negb]. rewrite (flat_groups _ a _ tm Em), matches_check.
  destruct (check_bind_match match_ (mask tm) match_type); cbn [negb orb app]; [|by apply IH; [| |lia]].
  pose proof (cmds_stack s0 t tl a tm Ht E Ha Em Hst mi lim 0 s w SS) as (s1 & S1 & I1 & H1).
  { rewrite drop_0. by apply (Hlim a). }
  rewrite run_all_app. destruct (run_all (entries_from tm 0) (interp s) (res w)) as [w1 [x|r]]; cbn [fst snd] in *.
  - rewrite H1. cbn [rbind]. by exists s1.
  - destruct H1 as (w2 & -> & C2 & R2 & H2 & F2). cbn [rbind]. rewrite <- R2, <- I1. rewrite length_app.
    apply (ends_more s0 w w2 (length (flat (groups (mem_masks s0) (drop (S mi) (masks tl)))))); [|lia|done|done].
    apply IH; [done|congruence|lia].
Qed.

(** *** Where binds do not stack *)

Definition at_cmd s (c : Z * nat) (m p : list Z) : Prop :=
  exists tm tc, fst c ∈ masks tl /\ mem_masks s !! fst c = Some tm /\ mask tm = m /\ cmds tm !! snd c = Some tc /\ func_name tc = p.

Lemma cmds_single a tm mi w fuel : single = true -> a ∈ masks tl -> mem_masks s0 !! a = Some tm ->
  forall ci, (length (drop ci (cmds tm)) < fuel)%nat ->
  match fitting (drop ci (cmds tm)) with
  | [] => cmds_loop fuel s0 mi a ci w = Ok (inr w, s0)
  | p :: _ => exists cj, at_cmd s0 (a, cj) (mask tm) p /\
      cmds_loop fuel s0 mi a ci w = Ok (inr {| cnt := if whole (mask tm, []) then 1 else cnt w + 1; res := res w; found := Some mi;
                                             htc := Some (a, cj); finish := whole (mask tm, []) |}, s0)
  end.
Proof.
  intros Hs Ha Em. induction fuel as [|fuel IH]; intros ci Hf; [lia|]. cbn [Binds.cmds_loop]. unfold get_mask. rewrite Em. cbn [rbind].
  rewrite (drop_lookup (cmds tm) ci) in *. destruct (cmds tm !! ci) as [tc|] eqn:Ei; [|done]. cbn [length] in Hf.
  unfold fitting. cbn [List.filter]. destruct (eligible tc) eqn:El; cbn [negb].
  - rewrite Hs. cbn [map]. exists ci. split; [by exists tm, tc|done].
  - apply IH. lia.
Qed.

Lemma masks_single fuel : single = true -> forall mi w, finish w = false -> (length (drop mi (masks tl)) < fuel)%nat ->
  let gs := groups (mem_masks s0) (drop mi (masks tl)) in
  exists w', masks_loop lim fuel s0 t mi w = Ok (inr w', s0) /\ res w' = res w /\
    match List.find whole gs with
    | Some (m, p :: _) => cnt w' = 1 /\ exists c, htc w' = Some c /\ at_cmd s0 c m p
    | Some (_, []) => False
    | None => cnt w' = cnt w + Z.of_nat (length gs) /\
        match last gs with
        | Some (m, p :: _) => exists c, htc w' = Some c /\ at_cmd s0 c m p
        | Some (_, []) => False
        | None => htc w' = htc w
        end
    end.
Proof.
  intros Hs. induction fuel as [|fuel IH]; intros mi w Fw Hf gs; [lia|]. cbn [Binds.masks_loop]. unfold get_table. rewrite E. cbn [rbind].
  unfold gs. clear gs. rewrite (drop_lookup (masks tl) mi) in *. destruct (masks tl !! mi) as [a|] eqn:Ei.
  2: { exists w. cbn. split; [done|]. split; [done|]. split; [lia|done]. }
  assert (Ha : a ∈ masks tl) by by apply list_elem_of_lookup_2 in Ei. rewrite Fw. cbn [length] in Hf.
  destruct (mask_there a Ha) as (tm & Em & Ef). unfold get_mask. rewrite Em. cbn [rbind groups]. rewrite Ef, Em, matches_check. change (0 &? TBM_DELETED) with false. cbn [orb].
  destruct (check_bind_match match_ (mask tm) match_type); cbn [negb orb]; [|by apply IH; [|lia]].
  pose proof (cmds_single a tm mi w lim Hs Ha Em 0) as H1. rewrite drop_0 in H1. specialize (H1 (Hlim a tm Ha Em)).
  destruct (fitting (cmds tm)) as [|p ps]; [rewrite H1; cbn [rbind]; by apply IH; [|lia]|].
  destruct H1 as (cj & Hc & ->). cbn [rbind List.find]. change (whole (mask tm, p :: ps)) with (whole (mask tm, [])).
  destruct (whole (mask tm, [])) eqn:Ew.
  - destruct fuel as [|fuel]; [lia|]. cbn [Binds.masks_loop]. unfold get_table. rewrite E. cbn [rbind finish].
    eexists. split; [by destruct (masks tl !! S mi)|]. cbn [cnt res htc]. split; [done|]. split; [done|]. by exists (a, cj).
  - match goal with |- context [masks_loop lim fuel s0 t (S mi) ?v] => destruct (IH (S mi) v) as (w' & -> & R' & H'); [done|lia|] end.
    exists w'. split; [done|]. split; [done|]. destruct (List.find whole _) as [[m [|q qs]]|]; [done|done|].
    cbn [cnt htc res] in H'. destruct H' as [C' L']. split; [cbn [length]; lia|].
    destruct (groups (mem_masks s0) (drop (S mi) (masks tl))) as [|g gs] eqn:Eg.
    + cbn in L' |- *. by exists (a, cj).
    + rewrite last_cons_cons. destruct (last (g :: gs)) as [[m [|q qs]]|] eqn:El; [done|done|]. by apply last_None in El.
Qed.
End Table.

(** *** The call at the end *)

(** A state with the same binds, and this interpreter. *)
Definition then_ s (w : W) s' : Prop := interp s' = w /\ forall m, rep s m -> rep s' m.

Lemma dispatch_quiet s a ci tm tc : binds_ok s -> mem_masks s !! a = Some tm -> cmds tm !! ci = Some tc ->
  exists s', dispatch Tcl_VarEval s (Some (a, ci)) = Ok (snd (fst (call (interp s) (func_name tc) (mask tm))), s') /\
    then_ s (fst (fst (call (interp s) (func_name tc) (mask tm)))) s'.
Proof.
  intros B Em Ei. cbn [dispatch]. unfold get_mask. rewrite Em. cbn [rbind]. rewrite Ei.
  destruct (trigger_quiet s (func_name tc) (mask tm) B) as (s' & -> & (_ & _ & R) & I). cbn [rbind]. exists s'. split; [done|]. by split.
Qed.

Lemma hit_dispatch s t tl a ci m p (front : option nat) : binds_ok s -> t ∈ bind_table_vec s -> mem_tables s !! t = Some tl -> at_cmd tl s (a, ci) m p ->
  exists s1 s', hit_cmd s a ci = Ok s1 /\ mem_tables s1 = mem_tables s /\
    dispatch Tcl_VarEval (match front with Some mi => put_table t (with_masks (to_front mi (masks tl)) (mask_ht tl) tl) s1 | None => s1 end) (Some (a, ci)) =
      Ok (snd (fst (call (interp s) p m)), s') /\ then_ s (fst (fst (call (interp s) p m))) s'.
Proof.
  intros B Ht E (tm & tc & Ha & Em & <- & Ei & <-). cbn [fst snd] in *.
  destruct (hit_same s t tl a tm ci B Ht E Ha Em) as (s1 & E1 & (C1 & B1 & R1) & I1). exists s1.
  destruct (core_tables s s1 C1) as (Et & Ev & _). destruct (core_mask s s1 a tm C1 Em) as (tm1 & Em1 & Emk & _ & Ecs).
  destruct (lookup_unhit _ _ _ _ Ecs Ei) as (tc1 & Ei1 & Eu). destruct (eligible_unhit tc1 tc Eu) as [_ En].
  assert (Hgo : forall s2, binds_ok s2 -> mem_masks s2 = mem_masks s1 -> interp s2 = interp s1 -> (forall m, rep s1 m -> rep s2 m) ->
    exists s', dispatch Tcl_VarEval s2 (Some (a, ci)) = Ok (snd (fst (call (interp s) (func_name tc) (mask tm))), s') /\
      then_ s (fst (fst (call (interp s) (func_name tc) (mask tm)))) s').
  { intros s2 B2 M2 I2 R2. rewrite <- M2 in Em1. destruct (dispatch_quiet s2 a ci tm1 tc1 B2 Em1 Ei1) as (s' & Es & I' & R').
    rewrite I2, I1, En, Emk in Es, I'. exists s'. split; [done|]. split; [done|auto]. }
  destruct front as [mi|].
  - destruct (front_ok s1 t tl mi B1) as [B2 R2]; [by rewrite Ev|by rewrite Et|]. destruct (Hgo _ B2 eq_refl eq_refl R2) as (s' & Es & H). by exists s'.
  - destruct (Hgo s1 B1 eq_refl eq_refl (fun _ r => r)) as (s' & Es & H). by exists s'.
Qed.

(** *** The search by hash table *)

Lemma groups_none h l : (forall b tm, b ∈ l -> h !! b = Some tm -> matches (mask tm) = false) -> groups h l = [].
Proof.
  induction l as [|b l IH]; intros H; [done|]. cbn [groups]. rewrite IH by (intros; apply (H b0); [apply elem_of_cons; by right|done]).
  destruct (h !! b) as [tm|] eqn:E; [|done]. by rewrite (H b tm) by (done || (apply elem_of_cons; by left)).
Qed.

Lemma groups_one h l a tm : NoDup l -> a ∈ l -> h !! a = Some tm -> matches (mask tm) = true ->
  (forall b tm', b ∈ l -> b <> a -> h !! b = Some tm' -> matches (mask tm') = false) ->
  groups h l = match fitting (cmds tm) with [] => [] | ps => [(mask tm, ps)] end.
Proof.
  intros ND Ha E Hm. induction l as [|b l IH]; intros H; [by apply elem_of_nil in Ha|]. apply NoDup_cons in ND as [Hni ND]. cbn [groups].
  apply elem_of_cons in Ha as [<-|Ha].
  - rewrite E, Hm. rewrite groups_none; [by destruct (fitting (cmds tm))|]. intros b tm' Hb. apply H; [apply elem_of_cons; by right|by intros ->].
  - rewrite <- IH; [|done|done|intros b' tm' Hb; apply H; apply elem_of_cons; by right].
    destruct (h !! b) as [tm'|] eqn:Eb; [|done]. rewrite (H b tm'); [done|apply elem_of_cons; by left|by intros ->|done].
Qed.

Lemma exact_single s tl a tm w fuel : single = true -> a ∈ masks tl -> mem_masks s !! a = Some tm ->
  forall ci, (length (drop ci (cmds tm)) < fuel)%nat ->
  match fitting (drop ci (cmds tm)) with
  | [] => exact_loop fuel s a ci w = Ok (inr w, s)
  | p :: _ => exists cj w', at_cmd tl s (a, cj) (mask tm) p /\ exact_loop fuel s a ci w = Ok (inr w', s) /\
                cnt w' = 1 /\ res w' = res w /\ htc w' = Some (a, cj)
  end.
Proof.
  intros Hs Ha Em. induction fuel as [|fuel IH]; intros ci Hf; [lia|]. cbn [Binds.exact_loop]. unfold get_mask. rewrite Em. cbn [rbind].
  rewrite (drop_lookup (cmds tm) ci) in *. destruct (cmds tm !! ci) as [tc|] eqn:Ei; [|done]. cbn [length] in Hf.
  unfold fitting. cbn [List.filter]. destruct (eligible tc) eqn:El; cbn [negb].
  - rewrite Hs. cbn [map]. exists ci. eexists. split; [by exists tm, tc|]. split; [reflexivity|done].
  - apply IH. lia.
Qed.

(** ** The answers *)

(** The result and the state that are specified. *)
Definition answers s (wr : W * result bfault Z) (r : result bfault (Z * bstate W)) : Prop :=
  match snd wr with
  | Ok x => exists s', r = Ok (x, s') /\ then_ s (fst wr) s'
  | Err e => r = Err e
  end.

Lemma answers_same s s' w x : same s s' -> interp s' = w -> answers s (w, Ok x) (Ok (x, s')).
Proof. intros (_ & _ & R) I. exists s'. split; [done|by split]. Qed.

Lemma groups_flat h l : (0 + Z.of_nat (length (flat (groups h l))) =? 0) = match groups h l with [] => true | _ => false end.
Proof.
  induction l as [|a l IH]; [done|]. cbn [groups]. destruct (h !! a) as [tm|]; [|done]. destruct (if matches _ then _ else _) as [|p ps]; [done|].
  apply Z.eqb_neq. cbn [flat flat_map map fst snd app length]. lia.
Qed.

Section Check.
Context (lim : nat) (s : bstate W) (t : Z) (tl : tcl_bind_list_t).
Context (B : binds_ok s) (Ht : t ∈ bind_table_vec s) (E : mem_tables s !! t = Some tl).
Context (Hlim : forall a tm, a ∈ masks tl -> mem_masks s !! a = Some tm -> (length (cmds tm) < lim)%nat) (Hlen : (length (masks tl) < lim)%nat).
Notation the_groups := (groups (mem_masks s) (masks tl)).

Lemma exact_groups ht : mask_ht tl = Some ht -> (match_kind match_type =? MATCH_EXACT) = true ->
  exists a, of_ht (op_htab_get ht (IstrKey match_)) = Ok a /\
    if a =? 0 then the_groups = []
    else a ∈ masks tl /\ exists tm, mem_masks s !! a = Some tm /\ tm_flags tm = 0 /\
           the_groups = match fitting (cmds tm) with [] => [] | ps => [(mask tm, ps)] end.
Proof.
  intros Eh Hk. destruct (table_at s t B Ht) as (tl0 & E0 & _ & TO & _). rewrite E in E0. injection E0 as <-.
  destruct (to_index s tl TO) as (ht' & Eh' & I). rewrite Eh in Eh'. injection Eh' as <-.
  destruct (index_get ht _ _ match_ I) as (a & Ea & Ha).
  { intros k a [Ha _]. destruct (to_masks s tl TO a Ha) as (? & _ & _ & ?). lia. }
  assert (Hmt : forall b tm, mem_masks s !! b = Some tm -> matches (mask tm) = bool_decide (text s b = Some (fold_name match_))).
  { intros b tm Eb. unfold matches. rewrite Hk, (text_of s b tm Eb). apply bool_decide_ext. split; [by intros ->|by intros [= ->]]. }
  exists a. split; [done|]. destruct (a =? 0).
  - apply groups_none. intros b tm Hb Eb. rewrite (Hmt b tm Eb). apply bool_decide_eq_false_2. intros Et. by apply (Ha b).
  - destruct Ha as [Ha Et]. destruct (to_masks s tl TO a Ha) as (tm & Em & MO & _). split; [done|]. exists tm. split; [done|]. split; [apply (mo_flags _ _ MO)|].
    apply (groups_one _ _ a); [apply (to_nodup s tl TO)|done|done| |].
    + rewrite (Hmt a tm Em). by apply bool_decide_eq_true_2.
    + intros b tm' Hb Hne Eb. rewrite (Hmt b tm' Eb). apply bool_decide_eq_false_2. intros Et'. apply Hne. by apply (text_unique s tl b a (fold_name match_)).
Qed.

Lemma check_exact_answers ht : mask_ht tl = Some ht -> (match_kind match_type =? MATCH_EXACT) = true -> match_type &? BIND_ALTER_ARGS = false ->
  answers s (spec_check the_groups (interp s)) (check_exact require_p allow_dk_cmds Tcl_VarEval match_ atr match_type lim s ht).
Proof.
  intros Eh Hk Hal. destruct (exact_groups ht Eh Hk) as (a & Ea & Ha). unfold check_exact. rewrite Ea. cbn [rbind].
  destruct (a =? 0). { rewrite Ha. by apply answers_same. }
  destruct Ha as (Ha & tm & Em & Ef & ->). unfold get_mask. rewrite Em. cbn [rbind]. rewrite Ef. change (0 &? TBM_DELETED) with false. cbn iota.
  pose proof (Hlim a tm Ha Em) as Hl.
  assert (Hnot : (match_kind match_type =? MATCH_MASK) = false /\ (match_kind match_type =? MATCH_CASE) = false).
  { apply Z.eqb_eq in Hk. by rewrite Hk. }
  destruct single eqn:Hs.
  - pose proof (exact_single s tl a tm walk0 lim Hs Ha Em 0) as H1. rewrite drop_0 in H1. specialize (H1 Hl). destruct (fitting (cmds tm)) as [|p ps].
    + rewrite H1. cbn [rbind]. by apply answers_same.
    + destruct H1 as (cj & w' & Hc & -> & C & R & H). cbn [rbind]. rewrite C, R, H. cbn [Z.eqb truthy negb res walk0].
      destruct (hit_dispatch s t tl a cj (mask tm) p None B Ht E Hc) as (s1 & s' & -> & _ & Ed & T). cbn [rbind]. rewrite Ed.
      unfold spec_check, only, whole. rewrite Hs, (proj1 Hnot), (proj2 Hnot). cbn [orb List.find]. apply Z.eqb_eq in Hk. rewrite Hk. cbn [Z.eqb negb orb MATCH_EXACT MATCH_PARTIAL Pos.eqb].
      destruct (call (interp s) p (mask tm)) as [[w2 x] e]. cbn [fst snd] in *. by exists s'.
  - apply negb_false_iff in Hs as Hs'. pose proof (exact_stack s t tl a tm Ht E Ha Em Hs lim Hal 0 s walk0 (same_refl s B)) as (s1 & S1 & I1 & H1); [by rewrite drop_0|].
    unfold entries_from in *. rewrite drop_0 in *. set (ps := fitting (cmds tm)) in *.
    assert (Efl : flat (match ps with [] => [] | q :: qs => [(mask tm, q :: qs)] end) = map (fun p => (mask tm, p)) ps) by (destruct ps; [done|]; cbn; by rewrite app_nil_r).
    destruct (run_all (map (fun p => (mask tm, p)) ps) (interp s) (res walk0)) as [w [x|r]] eqn:Er; cbn [fst snd] in *.
    + rewrite H1. cbn [rbind]. unfold spec_check. rewrite Hs, Efl. change (res walk0) with 0 in Er. rewrite Er.
      destruct ps; [by cbn in Er|]. by apply answers_same.
    + destruct H1 as (w' & -> & C & R & H & F). cbn [rbind]. rewrite C, R, H. cbn [cnt walk0 htc].
      unfold spec_check. rewrite Hs, Efl. change (res walk0) with 0 in Er. rewrite Er, Hk.
      destruct ps as [|p ps]; [cbn in Er |- *; injection Er as <- <-; by apply answers_same|].
      rewrite (proj2 (Z.eqb_neq _ 0)) by (cbn [map length]; lia). cbn [orb]. destruct (truthy r); by apply answers_same.
Qed.

Lemma check_walk_answers : (match_kind match_type =? MATCH_EXACT) = false ->
  answers s (spec_check the_groups (interp s)) (check_tcl_bind require_p allow_dk_cmds Tcl_VarEval match_ atr match_type lim s t).
Proof.
  intros Hk. destruct (table_at s t B Ht) as (tl0 & E0 & Eg & _ & Hp). rewrite E in E0. injection E0 as <-.
  unfold check_tcl_bind. rewrite (proj2 (Z.eqb_neq t 0)), Eg, Hk by lia. cbn [rbind].
  destruct single eqn:Hs.
  - destruct (masks_single s t tl B Ht E Hk lim Hlim lim Hs 0 walk0 eq_refl) as (w & -> & R & H); [by rewrite drop_0|]. rewrite drop_0 in H. cbn [rbind]. rewrite R.
    assert (Hcall : forall m p, (exists c, htc w = Some c /\ at_cmd tl s c m p) -> cnt w = 1 ->
      answers s (let '(w, x, _) := call (interp s) p m in (w, Ok x))
        (let! s := match htc w with Some (a, ci) => hit_cmd s a ci | None => Ok s end in
         if 1 <? cnt w then Ok (BIND_AMBIGUOUS, s)
         else let! tl := get_table s t in
              dispatch Tcl_VarEval (match found w with Some (S mi) => put_table t (with_masks (to_front (S mi) (masks tl)) (mask_ht tl) tl) s | _ => s end) (htc w))).
    { intros m p ([a ci] & Hh & Hc) C. rewrite Hh, C. cbn [Z.ltb Z.compare Pos.compare Pos.compare_cont].
      destruct (hit_dispatch s t tl a ci m p (match found w with Some (S mi) => Some (S mi) | _ => None end) B Ht E Hc) as (s1 & s' & -> & Et & Ed & T).
      cbn [rbind]. unfold get_table. rewrite Et, E. cbn [rbind]. destruct (call (interp s) p m) as [[w2 x] e]. cbn [fst snd] in *. exists s'.
      destruct (found w) as [[|mi]|]; done. }
    unfold spec_check. rewrite Hs. unfold only. destruct (List.find whole the_groups) as [[m [|p ps]]|] eqn:Ef; [done| |].
    + destruct H as [C Hc]. rewrite (proj2 (Z.eqb_neq (cnt w) 0)) by lia. destruct the_groups as [|g gs]; [done|]. change (truthy (res walk0)) with false. cbn iota.
      destruct (_ || _); [by apply answers_same|]. by apply Hcall.
    + destruct H as [C Hl]. cbn [cnt walk0] in C. destruct the_groups as [|[m ps] gs] eqn:Egs; [rewrite C; by apply answers_same|].
      rewrite (proj2 (Z.eqb_neq (cnt w) 0)) by (cbn [length] in C; lia). change (truthy (res walk0)) with false. cbn iota.
      destruct (_ || _); [by apply answers_same|]. destruct gs as [|g gs].
      * cbn in Hl. destruct ps as [|p ps]; [done|]. apply Hcall; [done|]. rewrite C. done.
      * destruct (last _) as [[m' [|p' ps']]|] eqn:El; [done| |by apply last_None in El]. destruct Hl as ([a ci] & Hh & (tm & tc & Ha & Em & _)).
        rewrite Hh. destruct (hit_same s t tl a tm ci B Ht E Ha Em) as (s1 & -> & S1 & I1). cbn [rbind].
        rewrite (proj2 (Z.ltb_lt 1 (cnt w))) by (rewrite C; cbn [length]; lia). assert (answers s (interp s, Ok BIND_AMBIGUOUS) (Ok (BIND_AMBIGUOUS, s1))) by by apply answers_same.
        by destruct ps.
  - pose proof (masks_stack s t tl B Ht E Hk lim Hlim lim Hs 0 s walk0 (same_refl s B) eq_refl) as (s1 & S1 & I1 & H1); [by rewrite drop_0|]. rewrite drop_0 in *.
    change (res walk0) with 0 in *. destruct (run_all (flat the_groups) (interp s) 0) as [w [x|r]] eqn:Er; cbn [fst snd] in *.
    + rewrite H1. cbn [rbind]. unfold spec_check. rewrite Hs, Er. destruct the_groups; [done|]. by apply answers_same.
    + destruct H1 as (w' & -> & C & R & H & F). cbn [rbind]. rewrite C, R, H. cbn [cnt walk0 htc]. unfold spec_check. rewrite Hs, Er, Hk. cbn [orb].
      assert (Hz : (0 + Z.of_nat (length (flat the_groups)) =? 0) = match the_groups with [] => true | _ => false end).
      { apply groups_flat. }
      rewrite Hz. destruct the_groups as [|g gs] eqn:Egs; [injection Er as <- <-; by apply answers_same|].
      destruct (truthy r); [by apply answers_same|]. destruct (_ || _); [by apply answers_same|]. cbn [rbind]. rewrite Z.add_0_l.
      destruct (1 <? _); [by apply answers_same|]. unfold get_table. destruct S1 as (C1 & _). destruct (core_tables s s1 C1) as (-> & _). rewrite E. cbn [rbind].
      destruct (found w') as [[|mi]|]; done.
Qed.
End Check.

(** C7. What runs when something happens, where procedures do not bind or unbind anything. Of a
    table, in its order, the commands whose mask matches and whose flags fit the user count. Where
    binds stack all of them are called, until one says that it is enough. Where they do not stack,
    at most one is: in an exact search, by a mode mask or by time the first one; in a search by a
    beginning the one that is all of its mask or else the only one, and none if there are several;
    and in a search by mask or by case none at all, although it is answered that something was
    executed ([BIND_EXECUTED]: tclhash.c:1032 comes before the call). The answer is that of the
    call, or says that nothing matched, that it was ambiguous, or that something was executed;
    [spec_check] says which. A search for an exact mask goes through the hash table and finds what a
    walk over all masks finds; it is taken without [BIND_ALTER_ARGS], with which the two ways
    differ. The binds are afterwards what they were, although hits are counted and a mask may have
    moved to the front. The one fault is a null pointer: exactly one command fits, binds stack, and
    the search is by a mode mask, by time or by a beginning. [lim] only bounds the loops of the
    model: any number above the lengths of the table's arrays will do. *)
Theorem check_tcl_bind_runs lim s t tl m : rep s m -> t ∈ bind_table_vec s -> mem_tables s !! t = Some tl ->
  (length (masks tl) < lim)%nat -> (forall a tm, a ∈ masks tl -> mem_masks s !! a = Some tm -> (length (cmds tm) < lim)%nat) ->
  ((match_kind match_type =? MATCH_EXACT) = true -> match_type &? BIND_ALTER_ARGS = false) ->
  let '(w, r) := spec_check (groups (mem_masks s) (masks tl)) (interp s) in
  match r with
  | Ok x => exists s', check_tcl_bind require_p allow_dk_cmds Tcl_VarEval match_ atr match_type lim s t = Ok (x, s') /\
              interp s' = w /\ rep s' m
  | Err e => check_tcl_bind require_p allow_dk_cmds Tcl_VarEval match_ atr match_type lim s t = Err e
  end.
Proof.
  intros R Ht E Hlen Hlim Hal. pose proof (rp_ok s m R) as B.
  assert (A : answers s (spec_check (groups (mem_masks s) (masks tl)) (interp s)) (check_tcl_bind require_p allow_dk_cmds Tcl_VarEval match_ atr match_type lim s t)).
  { destruct (match_kind match_type =? MATCH_EXACT) eqn:Hk; [|by apply (check_walk_answers lim s t tl)].
    destruct (table_at s t B Ht) as (tl0 & E0 & Eg & TO & Hp). rewrite E in E0. injection E0 as <-. destruct (to_index s tl TO) as (ht & Eh & _).
    unfold check_tcl_bind. rewrite (proj2 (Z.eqb_neq t 0)), Eg, Hk by lia. cbn [rbind]. rewrite Eh.
    apply (check_exact_answers lim s t tl B Ht E Hlim); auto. }
  destruct (spec_check _ _) as [w [x|e]]; [|exact A]. destruct A as (s' & Es & I & R'). exists s'. split; [done|]. split; [done|auto].
Qed.
End Spec.
End Run.
