(* ===== verification/BindsLive.v ===== *)
(** * Procedures that bind and unbind while they are called

    [check_tcl_bind] with procedures that do what they like to the tables: the walk goes on in
    arrays that grow, the tables stay right, and no pointer is bad, but for the null pointer
    of [BindsRun] ([check_tcl_bind_safe]).  Concrete runs of the bind tables. *)

From stdpp Require Import gmap list.
From S2P Require Import Htab HtabRing HtabMap Prelude LibC Rfc1459 Wildcard Match FlagDefs FlagText Binds BindsCmds BindsMap BindsSpec BindsRun.
#[local] Open Scope Z_scope.

Section Live.
Context {W : Type}.
Implicit Types s : bstate W.

(** Tables are not freed, and masks do not leave them. *)
Definition grows s s' : Prop :=
  forall t, t ∈ bind_table_vec s -> t ∈ bind_table_vec s' /\
    forall tl, mem_tables s !! t = Some tl -> exists tl', mem_tables s' !! t = Some tl' /\ forall a, a ∈ masks tl -> a ∈ masks tl'.

Lemma grows_refl s : grows s s.
Proof. intros t Ht. split; [done|]. intros tl E. by exists tl. Qed.
Lemma grows_trans s1 s2 s3 : grows s1 s2 -> grows s2 s3 -> grows s1 s3.
Proof.
  intros H1 H2 t Ht. destruct (H1 t Ht) as [Ht2 H12]. destruct (H2 t Ht2) as [Ht3 H23]. split; [done|]. intros tl E.
  destruct (H12 tl E) as (tl2 & E2 & M2). destruct (H23 tl2 E2) as (tl3 & E3 & M3). exists tl3. split; [done|auto].
Qed.
Lemma grows_tables s s' : mem_tables s' = mem_tables s -> bind_table_vec s' = bind_table_vec s -> grows s s'.
Proof. intros Et Ev t Ht. rewrite Et, Ev. split; [done|]. intros tl E. by exists tl. Qed.
Lemma grows_put s t tl tl' : mem_tables s !! t = Some tl -> (forall a, a ∈ masks tl -> a ∈ masks tl') -> grows s (put_table t tl' s).
Proof.
  intros E H u Hu. split; [done|]. intros tl1 E1. cbn. destruct (decide (u = t)) as [->|]; [|rewrite lookup_insert_ne by done; by exists tl1].
  rewrite lookup_insert_eq. exists tl'. split; [done|]. rewrite E in E1. by injection E1 as <-.
Qed.

(** Whatever comes of it, the state has grown. *)
Definition growing {A} s (st : A -> bstate W) (r : result bfault A) : Prop := safe (fun _ => True) (fun x => grows s (st x)) r.

Lemma growing_bind {A B} s (r : result bfault A) (f : A -> result bfault B) st : (forall x, r = Ok x -> growing s st (f x)) -> growing s st (rbind r f).
Proof. destruct r; cbn; [|done]. intros H. by apply H. Qed.

Lemma find_or_add_grows s t m : growing s snd (find_or_add_mask s t m).
Proof.
  unfold find_or_add_mask. apply growing_bind. intros tl Et. unfold get_table in Et. destruct (mem_tables s !! t) as [tl0|] eqn:E; [|done]. injection Et as ->.
  apply growing_bind. intros a _. destruct (negb (a =? 0)); [apply grows_refl|]. unfold bh_alloc. destruct (_ <=? _); [done|]. cbn [rbind].
  set (s1 := store_mask _ _ _). assert (G : forall ht, grows s (put_table t (with_masks (masks tl ++ [fresh s]) ht tl) s1)).
  { intros ht. apply (grows_put s1 t tl); [done|]. intros b Hb. apply elem_of_app. by left. }
  destruct (mask_ht tl) as [ht|]; [|apply G]. apply growing_bind. intros [[rc old] ht'] _. apply G.
Qed.

Lemma bind_grows s t flags cmd proc : growing s snd (bind_bind_entry s t flags cmd proc).
Proof.
  unfold bind_bind_entry. destruct (t =? 0); [apply grows_refl|]. pose proof (find_or_add_grows s t cmd) as H.
  destruct (find_or_add_mask s t cmd) as [[a s1]|]; [|done]. cbn [rbind snd growing safe] in *. apply growing_bind. intros tm _.
  assert (G : forall tm', grows s (store_mask a tm' s1)) by (intros tm'; apply (grows_trans s s1); [done|by apply grows_tables]).
  destruct (first_live _ _); [apply G|]. apply growing_bind. intros tl _. apply (grows_trans s s1); [done|by apply grows_tables].
Qed.

Lemma unbind_grows s t flags cmd proc : growing s snd (unbind_bind_entry s t flags cmd proc).
Proof.
  unfold unbind_bind_entry. destruct (t =? 0); [apply grows_refl|]. do 2 (apply growing_bind; intros ? _). destruct (_ =? 0); [apply grows_refl|].
  apply growing_bind. intros tm _. destruct (first_live _ _); [by apply grows_tables|apply grows_refl].
Qed.

Lemma add_grows s nme flg fn : binds_ok s -> growing s snd (add_bind_table s nme flg fn).
Proof.
  intros B. unfold add_bind_table. apply growing_bind. intros t _. destruct (negb (t =? 0)).
  - apply growing_bind. intros tl Et. unfold get_table in Et. destruct (mem_tables s !! t) as [tl0|] eqn:E; [|done]. injection Et as ->.
    destruct (_ && _); [by apply (grows_put s t tl)|apply grows_refl].
  - unfold bh_alloc. destruct (_ <=? _); [done|]. cbn [rbind].
    assert (G : forall tl ht s1, mem_tables s1 = <[fresh s := tl]> (mem_tables s) -> grows s (set_tables (bind_table_vec s ++ [fresh s]) ht s1)).
    { intros tl ht s1 Et u Hu. destruct (bo_tables s B u Hu) as (_ & _ & _ & Hr). cbn. rewrite elem_of_app. split; [by left|].
      intros tl1 E1. rewrite Et, lookup_insert_ne by lia. by exists tl1. }
    cbn [bind_table_ht put_table]. destruct (bind_table_ht s); [|by eapply G]. apply growing_bind. intros [[rc old] ht'] _. by eapply G.
Qed.

Lemma del_grows s t : growing s (fun s' => s') (del_bind_table s t).
Proof.
  unfold del_bind_table. destruct (t =? 0); [apply grows_refl|]. apply growing_bind. intros tl Et. unfold get_table in Et.
  destruct (mem_tables s !! t) as [tl0|] eqn:E; [|done]. injection Et as ->. destruct (tl_flags tl &? HT_DELETED); [apply grows_refl|].
  set (tl' := {| name := _; tl_flags := _; func := _; masks := _; mask_ht := _ |}).
  assert (G : grows s (put_table t tl' s)) by by apply (grows_put s t tl).
  destruct (bind_table_ht _); [|exact G]. apply growing_bind. intros r _. exact G.
Qed.

Lemma bind_op_grows s o : binds_ok s -> growing s (fun s' => s') (do_bind_op o s).
Proof.
  intros B. destruct o as [cd argv|nme flg fn|nme]; cbn [do_bind_op].
  - assert (H : growing s snd (tcl_bind s cd argv)).
    { unfold tcl_bind. destruct argv as [|ty [|fl [|cmd rest]]]; [apply grows_refl|apply grows_refl|apply grows_refl|].
      destruct (match rest with [] => _ | [_] => _ | _ => _ end); [|apply grows_refl]. apply growing_bind. intros t _.
      destruct (t =? 0); [apply growing_bind; intros; apply grows_refl|]. destruct rest as [|proc rest]; [apply growing_bind; intros; apply grows_refl|].
      destruct (cd =? 1).
      - pose proof (unbind_grows s t fl cmd proc) as H. destruct (unbind_bind_entry _ _ _ _ _) as [[r s1]|]; [|done]. cbn [rbind].
        destruct (negb _); [|exact H]. apply growing_bind. intros [|] _; exact H.
      - pose proof (bind_grows s t fl cmd proc) as H. by destruct (bind_bind_entry _ _ _ _ _) as [[r s1]|]. }
    by destruct (tcl_bind s cd argv) as [[r s1]|].
  - pose proof (add_grows s nme flg fn B) as H. by destruct (add_bind_table s nme flg fn) as [[r s1]|].
  - apply growing_bind. intros t _. apply del_grows.
Qed.

(** The tables are right. *)
Definition inv s : Prop := exists m, rep s m.
Lemma inv_ok s : inv s -> binds_ok s.
Proof. intros [m R]. apply (rp_ok s m R). Qed.

Lemma bind_ops_live os : forall s, inv s -> Forall bind_op_ok os -> safe op_fault (fun s' => inv s' /\ grows s s') (do_bind_ops os s).
Proof.
  induction os as [|o os IH]; intros s I Hos; [split; [done|apply grows_refl]|]. apply Forall_cons in Hos as [Ho Hos]. cbn [do_bind_ops].
  pose proof I as [m R]. pose proof (bind_op_refines s m o R Ho) as H1. pose proof (bind_op_grows s o (inv_ok s I)) as H2.
  destruct (do_bind_op o s) as [s1|e]; [|exact H1]. destruct H1 as (m1 & _ & R1). cbn [rbind].
  eapply safe_mono; [apply IH; [by exists m1|done]|done|]. intros s2 [I2 G2]. split; [done|by apply (grows_trans s s1)].
Qed.

Context (require_p allow_dk_cmds : bool) (Tcl_VarEval : bstate W -> list Z -> list Z -> W * list bind_op * tcl_result).
Context (scripts_ok : forall s p m, Forall bind_op_ok (Tcl_VarEval s p m).1.2).

Lemma trigger_live s p m : inv s -> safe op_fault (fun r => inv (snd r) /\ grows s (snd r)) (trigger_bind Tcl_VarEval s p m).
Proof.
  intros [am R]. unfold trigger_bind. specialize (scripts_ok s p m). destruct (Tcl_VarEval s p m) as [[w os] r]. cbn [fst snd] in scripts_ok.
  destruct (same_interp s w (rp_ok s am R)) as (_ & _ & R'). eapply safe_let; [apply bind_ops_live; [exists am; by apply R'|done]|].
  intros s' [I' G']. split; [done|exact G'].
Qed.

Section Dispatch.
Context (match_ : list Z) (atr : flag_record) (match_type : Z) (t : Z).
Notation single := (negb (match_type &? BIND_STACKABLE)).

(** A mask of the table. *)
Definition at_table s (a : Z) : Prop := t ∈ bind_table_vec s /\ exists tl, mem_tables s !! t = Some tl /\ a ∈ masks tl.
Lemma at_grows s s' a : grows s s' -> at_table s a -> at_table s' a.
Proof. intros G [Ht (tl & E & Ha)]. destruct (G t Ht) as [Ht' H]. destruct (H tl E) as (tl' & E' & M). split; [done|]. exists tl'. auto. Qed.
Lemma at_mask s a : inv s -> at_table s a -> exists tm, mem_masks s !! a = Some tm.
Proof.
  intros I [Ht (tl & E & Ha)]. destruct (table_at s t (inv_ok s I) Ht) as (tl0 & E0 & _ & TO & _). rewrite E in E0. injection E0 as <-.
  destruct (to_masks s tl TO a Ha) as (tm & Em & _). by exists tm.
Qed.

(** The command that is kept for the end is one, and is kept only where binds do not stack. *)
Definition walk_ok s (w : bind_walk) : Prop :=
  match htc w with
  | None => single = true -> cnt w = 0
  | Some (a, ci) => single = true /\ at_table s a /\ exists tm tc, mem_masks s !! a = Some tm /\ cmds tm !! ci = Some tc
  end.
Definition loop_fault (e : bfault) : Prop := op_fault e \/ e = NoEnd.
Definition loop_ok s (r : (Z + bind_walk) * bstate W) : Prop :=
  inv (snd r) /\ grows s (snd r) /\ match fst r with inl _ => True | inr w => walk_ok (snd r) w end.

Lemma loop_ok_later s s1 r : grows s s1 -> loop_ok s1 r -> loop_ok s r.
Proof. intros G (I & G' & H). split; [done|]. split; [by apply (grows_trans s s1)|done]. Qed.

Lemma walk_stack s s' w w' : single = false -> htc w' = htc w -> walk_ok s w -> walk_ok s' w'.
Proof. unfold walk_ok. intros Hs -> . destruct (htc w) as [[a ci]|]; [by intros [? _]; congruence|]. congruence. Qed.

(** One turn that calls a procedure, whatever the loop does next with what it gets. *)
Lemma turn_live s a ci p m (k : Z * bool * bstate W -> result bfault ((Z + bind_walk) * bstate W)) : inv s -> at_table s a ->
  (forall x e s', inv s' -> grows s s' -> safe loop_fault (loop_ok s') (k (x, e, s'))) ->
  safe loop_fault (loop_ok s) (let! s := hit_cmd s a ci in let! r := trigger_bind Tcl_VarEval s p m in k r).
Proof.
  intros I Ha Hk. destruct (at_mask s a I Ha) as (tm & Em). pose proof Ha as [Ht (tl & E & Hin)].
  destruct (hit_same s t tl a tm ci (inv_ok s I) Ht E Hin Em) as (s1 & -> & (C & _ & R1) & _). cbn [rbind].
  destruct (core_tables s s1 C) as (Et & Ev & _). assert (G1 : grows s s1) by by apply grows_tables.
  assert (I1 : inv s1) by (destruct I as [am R]; exists am; by apply R1).
  pose proof (trigger_live s1 p m I1) as H. destruct (trigger_bind Tcl_VarEval s1 p m) as [[[x e] s2]|er]; [|left; exact H].
  destruct H as [I2 G2]. cbn [snd rbind] in *. assert (G : grows s s2) by by apply (grows_trans s s1).
  eapply safe_mono; [by apply Hk|done|]. intros r. by apply loop_ok_later.
Qed.

Lemma cmds_live fuel : forall s mi a ci w, inv s -> at_table s a -> walk_ok s w ->
  safe loop_fault (loop_ok s) (cmds_loop require_p allow_dk_cmds Tcl_VarEval match_ atr match_type fuel s mi a ci w).
Proof.
  induction fuel as [|fuel IH]; intros s mi a ci w I Ha Hw; cbn [cmds_loop]; [by right|]. destruct (at_mask s a I Ha) as (tm & Em).
  unfold get_mask. rewrite Em. cbn [rbind]. destruct (cmds tm !! ci) as [tc|] eqn:Ei; [|split; [done|split; [apply grows_refl|done]]].
  destruct (negb (eligible _ _ _ _ tc)); [by apply IH|]. destruct single eqn:Hs.
  - split; [done|]. split; [apply grows_refl|]. split; [done|]. split; [done|]. by exists tm, tc.
  - apply turn_live; [done|done|]. intros x e s' I' G'.
    assert (Hnext : forall w', htc w' = htc w -> safe loop_fault (loop_ok s') (cmds_loop require_p allow_dk_cmds Tcl_VarEval match_ atr match_type fuel s' mi a (S ci) w')).
    { intros w' Ew. apply IH; [done|by apply (at_grows s)|by apply (walk_stack s s' w w')]. }
    assert (Hstop : loop_ok s' (inl x, s')) by (split; [done|split; [apply grows_refl|done]]).
    destruct (match_type &? BIND_ALTER_ARGS); [destruct e; [exact Hstop|by apply Hnext]|]. destruct (_ && _); [by apply Hnext|].
    destruct (_ && _); [exact Hstop|by apply Hnext].
Qed.

Lemma exact_live fuel : forall s a ci w, inv s -> at_table s a -> walk_ok s w ->
  safe loop_fault (loop_ok s) (exact_loop require_p allow_dk_cmds Tcl_VarEval atr match_type fuel s a ci w).
Proof.
  induction fuel as [|fuel IH]; intros s a ci w I Ha Hw; cbn [exact_loop]; [by right|]. destruct (at_mask s a I Ha) as (tm & Em).
  unfold get_mask. rewrite Em. cbn [rbind]. destruct (cmds tm !! ci) as [tc|] eqn:Ei; [|split; [done|split; [apply grows_refl|done]]].
  destruct (negb (eligible _ _ _ _ tc)); [by apply IH|]. destruct single eqn:Hs.
  - split; [done|]. split; [apply grows_refl|]. split; [done|]. split; [done|]. by exists tm, tc.
  - apply turn_live; [done|done|]. intros x e s' I' G'.
    assert (Hnext : forall w', htc w' = htc w -> safe loop_fault (loop_ok s') (exact_loop require_p allow_dk_cmds Tcl_VarEval atr match_type fuel s' a (S ci) w')).
    { intros w' Ew. apply IH; [done|by apply (at_grows s)|by apply (walk_stack s s' w w')]. }
    assert (Hstop : loop_ok s' (inl x, s')) by (split; [done|split; [apply grows_refl|done]]).
    destruct (_ && _); [exact Hstop|]. destruct (_ && _); [by apply Hnext|]. destruct (_ && _); [exact Hstop|by apply Hnext].
Qed.

Lemma masks_live lim fuel : forall s mi w, inv s -> t ∈ bind_table_vec s -> walk_ok s w ->
  safe loop_fault (loop_ok s) (masks_loop require_p allow_dk_cmds Tcl_VarEval match_ atr match_type lim fuel s t mi w).
Proof.
  induction fuel as [|fuel IH]; intros s mi w I Ht Hw; cbn [masks_loop]; [by right|]. destruct (table_at s t (inv_ok s I) Ht) as (tl & E & -> & TO & _).
  assert (Hend : safe loop_fault (loop_ok s) (Ok (inr w, s))) by (split; [done|split; [apply grows_refl|done]]).
  cbn [rbind]. destruct (masks tl !! mi) as [a|] eqn:Ei; [|exact Hend]. destruct (finish w); [exact Hend|].
  assert (Ha : at_table s a) by (split; [done|]; exists tl; split; [done|by apply list_elem_of_lookup_2 in Ei]).
  destruct (at_mask s a I Ha) as (tm & Em). unfold get_mask. rewrite Em. cbn [rbind]. destruct (_ || _); [by apply IH|].
  eapply safe_let; [by apply cmds_live|]. intros [[x|w'] s'] (I' & G' & H'); cbn [fst snd] in *; [done|].
  eapply safe_mono; [apply (IH s' (S mi) w' I'); [by apply G'|done]|done|]. intros r. by apply loop_ok_later.
Qed.

(** Where the null pointer may be. *)
Definition null_possible : Prop := single = false /\ match_kind match_type <> MATCH_EXACT /\ match_kind match_type <> MATCH_MASK /\ match_kind match_type <> MATCH_CASE.
Definition check_fault (e : bfault) : Prop := loop_fault e \/ (e = NullCommand /\ null_possible).

Lemma call_live (s1 : bstate W) a ci : inv s1 -> (exists tm tc, mem_masks s1 !! a = Some tm /\ cmds tm !! ci = Some tc) ->
  safe check_fault (fun r => inv (snd r)) (dispatch Tcl_VarEval s1 (Some (a, ci))).
Proof.
  intros I (tm & tc & Em & Ei). cbn [dispatch]. unfold get_mask. rewrite Em. cbn [rbind]. rewrite Ei.
  pose proof (trigger_live s1 (func_name tc) (mask tm) I) as H. destruct (trigger_bind _ _ _ _) as [[[x e] s2]|er]; [apply H|left; left; exact H].
Qed.

Lemma hit_live s a ci : inv s -> at_table s a -> (exists tm tc, mem_masks s !! a = Some tm /\ cmds tm !! ci = Some tc) ->
  exists s1, hit_cmd s a ci = Ok s1 /\ inv s1 /\ mem_tables s1 = mem_tables s /\ bind_table_vec s1 = bind_table_vec s /\
    exists tm tc, mem_masks s1 !! a = Some tm /\ cmds tm !! ci = Some tc.
Proof.
  intros I [Ht (tl & E & Ha)] (tm & tc & Em & Ei). destruct (hit_same s t tl a tm ci (inv_ok s I) Ht E Ha Em) as (s1 & -> & (C & _ & R1) & _).
  exists s1. split; [done|]. destruct (core_tables s s1 C) as (Et & Ev & _). split; [destruct I as [am R]; exists am; by apply R1|].
  split; [done|]. split; [done|]. destruct (core_mask s s1 a tm C Em) as (tm1 & Em1 & _ & _ & Ecs). destruct (lookup_unhit _ _ _ _ Ecs Ei) as (tc1 & Ei1 & _).
  by exists tm1, tc1.
Qed.

Lemma front_live s tl mi : inv s -> t ∈ bind_table_vec s -> mem_tables s !! t = Some tl ->
  inv (put_table t (with_masks (to_front mi (masks tl)) (mask_ht tl) tl) s).
Proof. intros [am R] Ht E. destruct (front_ok s t tl mi (rp_ok s am R) Ht E) as [_ R']. exists am. by apply R'. Qed.

Lemma exact_check_live lim s tl ht : inv s -> t ∈ bind_table_vec s -> mem_tables s !! t = Some tl -> mask_ht tl = Some ht ->
  safe check_fault (fun r => inv (snd r)) (check_exact require_p allow_dk_cmds Tcl_VarEval match_ atr match_type lim s ht).
Proof.
  intros I Ht E Eh. destruct (table_at s t (inv_ok s I) Ht) as (tl0 & E0 & _ & TO & _). rewrite E in E0. injection E0 as <-.
  destruct (to_index s tl TO) as (ht' & Eh' & Ix). rewrite Eh in Eh'. injection Eh' as <-. unfold check_exact.
  destruct (index_get ht _ _ match_ Ix) as (a & -> & Ha).
  { intros k a [Ha _]. destruct (to_masks s tl TO a Ha) as (? & _ & _ & ?). lia. }
  cbn [rbind]. destruct (a =? 0); [done|]. destruct Ha as [Ha _]. assert (Hat : at_table s a) by (split; [done|by exists tl]).
  destruct (to_masks s tl TO a Ha) as (tm & Em & MO & _). unfold get_mask at 1. rewrite Em. cbn [rbind]. destruct (tm_flags tm &? TBM_DELETED); [done|].
  pose proof (exact_live lim s a 0 walk0 I Hat) as H. destruct (exact_loop _ _ _ _ _ _ _ _ _ _) as [[[x|w] s1]|e];
    [by apply H|destruct H as (I1 & G1 & H1); [done|]|left; by apply H]. cbn [rbind fst snd] in *.
  destruct (cnt w =? 0); [done|]. destruct (truthy (res w)); [done|]. unfold walk_ok in H1. destruct (htc w) as [[b ci]|]; [|done].
  destruct H1 as (_ & Hb & Hv). destruct (hit_live s1 b ci I1 Hb Hv) as (s2 & -> & I2 & _ & _ & Hv2). cbn [rbind]. by apply call_live.
Qed.

(** C9. Procedures may bind, unbind, add and delete tables while the bot walks a bind table to call
    them (an added table has a name of at most 15 bytes and no flag but HT_STACKABLE): the walk uses
    no table, mask or command that was freed, and leaves tables that are right. What can go wrong is
    said, and is one of four. The walk is not over within [lim] turns ([NoEnd]; for any [lim], since
    every call may add a command to what is walked). A called procedure unbinds with a procedure
    name that begins with a star and has less than four bytes, of which the test for builtins reads
    the fifth, behind its end ([BehindEnd]: [BindsRuns.short_name_read]). More than 2^50 masks and
    tables have been allocated ([TooMany], a bound of the model). Or a null pointer is called
    ([NullCommand]), where binds stack and the search is by a mode mask, by time or by a beginning. *)
Theorem check_tcl_bind_safe lim s : inv s -> t ∈ bind_table_vec s ->
  match check_tcl_bind require_p allow_dk_cmds Tcl_VarEval match_ atr match_type lim s t with
  | Ok (_, s') => inv s'
  | Err e => e = TooMany \/ e = BehindEnd \/ e = NoEnd \/ (e = NullCommand /\ null_possible)
  end.
Proof.
  intros I Ht. assert (S : safe check_fault (fun r => inv (snd r)) (check_tcl_bind require_p allow_dk_cmds Tcl_VarEval match_ atr match_type lim s t)).
  { destruct (table_at s t (inv_ok s I) Ht) as (tl & E & Eg & TO & Hp). unfold check_tcl_bind. rewrite (proj2 (Z.eqb_neq t 0)), Eg by lia. cbn [rbind].
    destruct (to_index s tl TO) as (ht & Eh & _). destruct (match_kind match_type =? MATCH_EXACT) eqn:Hk; [rewrite Eh; by apply (exact_check_live lim s tl ht)|].
    pose proof (masks_live lim lim s 0 walk0 I Ht) as H. destruct (masks_loop _ _ _ _ _ _ _ _ _ _ _ _) as [[[x|w] s1]|e];
      [by apply H|destruct H as (I1 & G1 & H1); [done|]|left; by apply H]. cbn [rbind fst snd] in *.
    destruct (cnt w =? 0) eqn:Hc; [done|]. destruct (truthy (res w)); [done|]. destruct (_ || _) eqn:Ho; [done|].
    apply orb_false_iff in Ho as [Ho1 Ho2]. unfold walk_ok in H1. destruct (htc w) as [[b ci]|] eqn:Eh'.
    - destruct H1 as (_ & Hb & Hv). destruct (hit_live s1 b ci I1 Hb Hv) as (s2 & -> & I2 & Et2 & Ev2 & Hv2). cbn [rbind].
      destruct (1 <? cnt w); [done|]. assert (Ht2 : t ∈ bind_table_vec s2) by (rewrite Ev2; by apply G1).
      destruct (table_at s2 t (inv_ok s2 I2) Ht2) as (tl2 & E2 & -> & _). cbn [rbind]. destruct (found w) as [[|mi]|]; [by apply call_live| |by apply call_live].
      apply call_live; [by apply front_live|exact Hv2].
    - cbn [rbind]. destruct (1 <? cnt w); [done|]. destruct (table_at s1 t (inv_ok s1 I1) (proj1 (G1 t Ht))) as (tl1 & _ & -> & _). cbn [rbind dispatch safe].
      right. split; [done|]. apply Z.eqb_neq in Hc, Hk, Ho1, Ho2. split; [|done]. destruct single; [|done]. destruct Hc. by apply H1. }
  destruct (check_tcl_bind _ _ _ _ _ _ _ _ _) as [[x s']|e]; [exact S|]. destruct S as [[[->| ->]| ->]|[-> ?]]; tauto.
Qed.
End Dispatch.
End Live.
