(* ===== verification/BindsRuns.v ===== *)
(** * Bind tables: events, witnesses and concrete runs

    The theorems of [BindsSpec], [BindsRun] and [BindsLive] at concrete tables, and runs that
    show what surprises.  Then the start and the end of the tables, and the events of the bot
    (the check_tcl functions of src/tclhash.c): each sets the variables its procedures are
    called with, searches its table, and makes something of the answer.  [Tcl_VarEval] gets
    the text of the arguments, [Tcl_SetVar] and [Tcl_UnsetVar] are the interpreter's; what is
    sent to the user or the log is part of the result. *)

From stdpp Require Import gmap list.
From S2P Require Import Htab HtabRing HtabMap Prelude LibC Rfc1459 Wildcard LogModes Match FlagDefs FlagText Base64 Binds BindsCmds BindsMap BindsSpec BindsRun BindsLive.
#[local] Open Scope Z_scope.

(** Procedures that write down that they were called, and do nothing else. *)
Definition log : Type := list (list Z).
Definition said : tcl_result := {| tcl_code := TCL_OK; tcl_resultstring := []; tcl_resultint := 0; tcl_resultempty := true |}.
Definition writes (s : bstate log) (p m : list Z) : log * list bind_op * tcl_result := (interp s ++ [p], [], said).
Definition call_writes (w : log) (p m : list Z) : log * Z * bool := (w ++ [p], BIND_EXECUTED, true).
Lemma writes_quiet : quiet writes call_writes.
Proof. by intros s p m. Qed.

Definition bind (type mask proc : list Z) : bind_op := TclBind 0 [type; bs "-"; mask; proc].
Definition unbind (type mask proc : list Z) : bind_op := TclBind 1 [type; bs "-"; mask; proc].

Definition demo_ops : list bind_op :=
  [AddTable (bs "dcc") 0 0; AddTable (bs "mode") HT_STACKABLE 0; AddTable (bs "evnt") HT_STACKABLE 0;
   bind (bs "dcc") (bs "who") (bs "do_who"); bind (bs "dcc") (bs "whom") (bs "do_whom"); bind (bs "mode") (bs "#a +o") (bs "on_op");
   bind (bs "evnt") (bs "rehash") (bs "one"); bind (bs "evnt") (bs "Rehash") (bs "two")].
Definition start : bstate log := init_bstate [].
Definition demo : bstate log := match do_bind_ops demo_ops start with Ok s => s | Err _ => start end.
Definition the_table (nme : list Z) (s : bstate log) : Z := match find_bind_table s nme with Ok t => t | Err _ => 0 end.

Lemma demo_rep : exists m, rep demo m.
Proof.
  assert (Hok : Forall bind_op_ok demo_ops) by (repeat constructor; cbn; try lia; auto).
  pose proof (bind_ops_refine demo_ops start no_binds (init_rep (W := log) []) Hok) as H.
  unfold demo. assert (E : match do_bind_ops demo_ops start with Ok _ => True | Err _ => False end) by (vm_compute; exact I).
  destruct (do_bind_ops demo_ops start) as [s|e]; [|done]. destruct H as (m & _ & R). by exists m.
Qed.

(** What is found at a name, with the procedures called so far. *)
Definition check (nme match_ : list Z) (match_type : Z) (s : bstate log) : result bfault (Z * log) :=
  match check_tcl_bind false false writes match_ fr_zero match_type 20 s (the_table nme s) with
  | Ok (x, s') => Ok (x, interp s')
  | Err e => Err e
  end.

Example who_is_whole : check (bs "dcc") (bs "WHO") MATCH_PARTIAL demo = Ok (BIND_EXECUTED, [bs "do_who"]).
Proof. vm_compute. reflexivity. Qed.
Example wh_is_ambiguous : check (bs "dcc") (bs "wh") MATCH_PARTIAL demo = Ok (BIND_AMBIGUOUS, []).
Proof. vm_compute. reflexivity. Qed.
Example whom_is_meant : check (bs "dcc") (bs "whom") MATCH_PARTIAL demo = Ok (BIND_EXECUTED, [bs "do_whom"]).
Proof. vm_compute. reflexivity. Qed.
Example both_run : check (bs "evnt") (bs "REHASH") (MATCH_EXACT ||| BIND_STACKABLE) demo = Ok (BIND_EXECUTED, [bs "one"; bs "two"]).
Proof. vm_compute. reflexivity. Qed.

(** The search for modes, as irc.mod makes it: the procedure runs, and then the bot is gone. *)
Example single_mode_bind_faults :
  check (bs "mode") (bs "#a +o") (MATCH_MODE ||| BIND_USE_ATTR ||| BIND_STACKABLE) demo = Err NullCommand.
Proof. vm_compute. reflexivity. Qed.

(** ** Surprises *)

(** The tables after some operations on those above. *)
Definition ran (es : list event) : bstate log := match do_events es demo with Ok s => s | Err _ => demo end.
Definition bound_to (nme m : list Z) (s : bstate log) : result bfault (list (list Z)) := tcl_getbinds s (the_table nme s) m.

(** Modes differ by case, masks do not: a bind to +I (an invitation) is one to +i (by
    invitation only), and both procedures are at the mask that came first. *)
Example mode_masks_merge :
  let s := ran [Do (bind (bs "mode") (bs "#a +i") (bs "lower")); Do (bind (bs "mode") (bs "#a +I") (bs "upper"))] in
  bound_to (bs "mode") (bs "#a +i") s = Ok [bs "lower"; bs "upper"].
Proof. vm_compute. reflexivity. Qed.

(** Binding tells procedures apart by case, unbinding does not. *)
Example unbind_takes_other :
  let s := ran [Do (bind (bs "evnt") (bs "loaded") (bs "Proc")); Do (bind (bs "evnt") (bs "loaded") (bs "proc")); Do (unbind (bs "evnt") (bs "loaded") (bs "proc"))] in
  bound_to (bs "evnt") (bs "loaded") s = Ok [bs "proc"].
Proof. vm_compute. reflexivity. Qed.

(** Collecting puts the last procedure where one is gone: binds that stack run in another order. *)
Example collecting_reorders :
  let es := map (fun p => Do (bind (bs "evnt") (bs "loaded") p)) [bs "a"; bs "b"; bs "c"; bs "d"] ++ [Do (unbind (bs "evnt") (bs "loaded") (bs "b"))] in
  bound_to (bs "evnt") (bs "loaded") (ran es) = Ok [bs "a"; bs "c"; bs "d"] /\
  bound_to (bs "evnt") (bs "loaded") (ran (es ++ [Collect])) = Ok [bs "a"; bs "d"; bs "c"].
Proof. vm_compute. split; reflexivity. Qed.

(** The test that tells builtins reads the fifth byte of a name that may be shorter. *)
Example short_name_read : do_event (Do (unbind (bs "evnt") (bs "loaded") (bs "*x"))) demo = Err BehindEnd.
Proof. vm_compute. reflexivity. Qed.

(** A search by time that two procedures fit answers that it was ambiguous, though both have run. *)
Example two_crons :
  let s := ran [Do (AddTable (bs "cron") HT_STACKABLE 0); Do (bind (bs "cron") (bs "* * * * *") (bs "a")); Do (bind (bs "cron") (bs "* * * * *") (bs "b"))] in
  check (bs "cron") (bs "05 10 01 02 03") (MATCH_CRON ||| BIND_STACKABLE) s = Ok (BIND_AMBIGUOUS, [bs "a"; bs "b"]).
Proof. vm_compute. reflexivity. Qed.

(** A procedure that binds one more each time it is called: the walk has another command to
    call after each call, here until the number of turns that is given is over. *)
Definition busy (s : bstate nat) (p m : list Z) : nat * list bind_op * tcl_result :=
  (S (interp s), [bind (bs "evnt") m (repeat (ch "x") (S (S (interp s))))], said).
Definition busy_tables : result bfault (bstate nat) :=
  do_bind_ops [AddTable (bs "evnt") HT_STACKABLE 0; bind (bs "evnt") (bs "rehash") (bs "x")] (init_bstate O).
Example bind_while_called :
  (let! s := busy_tables in
   let! t := find_bind_table s (bs "evnt") in
   check_tcl_bind false false busy (bs "rehash") fr_zero (MATCH_EXACT ||| BIND_STACKABLE) 40 s t) = Err NoEnd.
Proof. vm_compute. reflexivity. Qed.

(** ** Witnesses *)

Definition witness_events : list event :=
  map Do demo_ops ++ [Do (unbind (bs "mode") (bs "#A +O") (bs "on_op")); Do (DelTable (bs "evnt")); Collect; Do (bind (bs "dcc") (bs "WHO") (bs "mine"))].

Lemma binds_refine_map_witness : rep start no_binds /\ Forall bind_op_ok (requests witness_events) /\
  (match do_events witness_events start with
   | Ok s' => exists m', spec_bind_ops (requests witness_events) no_binds m' /\ rep s' m'
   | Err e => e = TooMany \/ e = BehindEnd
   end) /\
  match do_events witness_events start with Ok s' => bound_to (bs "dcc") (bs "who") s' = Ok [bs "mine"] | Err _ => False end.
Proof.
  assert (R : rep start no_binds) by exact (init_rep (W := log) []).
  assert (Hok : Forall bind_op_ok (requests witness_events)) by (repeat constructor; cbn; try lia; auto).
  split; [exact R|]. split; [exact Hok|]. split; [exact (binds_refine_map witness_events start no_binds R Hok)|]. vm_compute. reflexivity.
Defined.

Definition evnt : Z := the_table (bs "evnt") demo.
Definition evnt_list : tcl_bind_list_t :=
  match mem_tables demo !! evnt with Some tl => tl | None => {| name := []; tl_flags := 0; func := 0; masks := []; mask_ht := None |} end.
Definition few_commands (s : bstate log) (n : nat) (l : list Z) : bool :=
  forallb (fun a => match mem_masks s !! a with Some tm => Nat.ltb (length (cmds tm)) n | None => true end) l.
Lemma few_commands_ok s n l : few_commands s n l = true -> forall a tm, a ∈ l -> mem_masks s !! a = Some tm -> (length (cmds tm) < n)%nat.
Proof.
  unfold few_commands. rewrite forallb_forall. intros H a tm Ha%list_elem_of_In E. specialize (H a Ha). rewrite E in H. by apply Nat.ltb_lt.
Qed.
Lemma evnt_there : evnt ∈ bind_table_vec demo /\ mem_tables demo !! evnt = Some evnt_list.
Proof. split; [apply (bool_decide_unpack _); vm_compute; exact I|vm_compute; reflexivity]. Qed.

Lemma check_tcl_bind_runs_witness : exists m, rep demo m /\
  exists s', check_tcl_bind false false writes (bs "REHASH") fr_zero (MATCH_EXACT ||| BIND_STACKABLE) 20 demo evnt = Ok (BIND_EXECUTED, s') /\
    interp s' = [bs "one"; bs "two"] /\ rep s' m.
Proof.
  destruct demo_rep as [m R]. exists m. split; [exact R|].
  pose proof (check_tcl_bind_runs false false writes call_writes (bs "REHASH") fr_zero (MATCH_EXACT ||| BIND_STACKABLE) writes_quiet 20 demo evnt evnt_list m R
    (proj1 evnt_there) (proj2 evnt_there) ltac:(apply Nat.ltb_lt; vm_compute; reflexivity)
    (few_commands_ok demo 20 (masks evnt_list) ltac:(vm_compute; reflexivity)) (fun _ => eq_refl)) as H.
  assert (E : spec_check call_writes (bs "REHASH") (MATCH_EXACT ||| BIND_STACKABLE)
    (groups false false (bs "REHASH") fr_zero (MATCH_EXACT ||| BIND_STACKABLE) (mem_masks demo) (masks evnt_list)) (interp demo) =
    ([bs "one"; bs "two"], Ok BIND_EXECUTED)) by (vm_compute; reflexivity).
  rewrite E in H. exact H.
Defined.

(** Scripts that unbind themselves when they are called. *)
Definition once (s : bstate log) (p m : list Z) : log * list bind_op * tcl_result := (interp s ++ [p], [unbind (bs "evnt") m p; bind (bs "evnt") (bs "next") p], said).

Lemma check_tcl_bind_safe_witness : inv demo /\ evnt ∈ bind_table_vec demo /\
  match check_tcl_bind false false once (bs "rehash") fr_zero (MATCH_EXACT ||| BIND_STACKABLE) 20 demo evnt with
  | Ok (_, s') => inv s'
  | Err e => e = TooMany \/ e = BehindEnd \/ e = NoEnd \/ (e = NullCommand /\ null_possible (MATCH_EXACT ||| BIND_STACKABLE))
  end.
Proof.
  split; [exact demo_rep|]. split; [exact (proj1 evnt_there)|].
  apply (check_tcl_bind_safe false false once); [intros s p m; repeat constructor|exact demo_rep|exact (proj1 evnt_there)].
Defined.

(** ** The events of the bot (the check_tcl functions of src/tclhash.c) *)

(** The tables the bot has made at its start. *)
Record heads := {
  H_dcc : Z; H_bot : Z; H_nkch : Z; H_link : Z; H_disc : Z; H_filt : Z; H_note : Z; H_chjn : Z; H_chpt : Z; H_away : Z;
  H_time : Z; H_cron : Z; H_event : Z; H_die : Z; H_log : Z; H_tls : Z
}.

(** The fields of struct tm that are read. *)
Record tm := { tm_min : Z; tm_hour : Z; tm_mday : Z; tm_mon : Z; tm_year : Z; tm_wday : Z }.

(** %02d and %04d. *)
Definition zero_pad (n : nat) (v : Z) : list Z := let d := int_to_base10 v in repeat (ch "0") (n - length d) ++ d.

(** The words of a text, cut at any of the bytes (strtok_r). *)
Fixpoint words_from (cut : Z -> bool) (word : list Z) (l : list Z) : list (list Z) :=
  match l with
  | [] => match word with [] => [] | _ => [rev word] end
  | c :: l => if cut c then match word with [] => words_from cut [] l | _ => rev word :: words_from cut [] l end else words_from cut (c :: word) l
  end.
Definition variables (param : list Z) : list (list Z) := words_from (fun c => mem c [ch " "; ch "$"; ch ":"]) [] param.

(** ** The start and the end *)

(** The tables of the bot and of its modules, in order. *)
Definition core_tables (tls : bool) : list (list Z * Z) := [
  (bs "dcc", 0); (bs "filt", HT_STACKABLE); (bs "unld", HT_STACKABLE); (bs "load", HT_STACKABLE);
  (bs "link", HT_STACKABLE); (bs "disc", HT_STACKABLE); (bs "nkch", HT_STACKABLE); (bs "away", HT_STACKABLE);
  (bs "chat", HT_STACKABLE); (bs "act", HT_STACKABLE); (bs "bcst", HT_STACKABLE); (bs "chon", HT_STACKABLE);
  (bs "chof", HT_STACKABLE); (bs "chpt", HT_STACKABLE); (bs "chjn", HT_STACKABLE); (bs "bot", 0);
  (bs "evnt", HT_STACKABLE); (bs "log", HT_STACKABLE); (bs "die", HT_STACKABLE); (bs "time", HT_STACKABLE);
  (bs "cron", HT_STACKABLE); (bs "note", 0)
  ] ++ if tls then [(bs "tls", HT_STACKABLE)] else [].
Definition module_tables : list (list Z * Z) := [
  (bs "msg", 0); (bs "msgm", HT_STACKABLE); (bs "pub", 0); (bs "pubm", HT_STACKABLE);
  (bs "join", HT_STACKABLE); (bs "part", HT_STACKABLE); (bs "nick", HT_STACKABLE); (bs "kick", HT_STACKABLE);
  (bs "mode", HT_STACKABLE); (bs "sign", HT_STACKABLE); (bs "topc", HT_STACKABLE); (bs "notc", HT_STACKABLE);
  (bs "raw", HT_STACKABLE); (bs "rawt", HT_STACKABLE); (bs "ctcp", HT_STACKABLE); (bs "ctcr", HT_STACKABLE);
  (bs "flud", HT_STACKABLE); (bs "wall", HT_STACKABLE); (bs "invt", HT_STACKABLE); (bs "need", HT_STACKABLE);
  (bs "splt", HT_STACKABLE); (bs "rejn", HT_STACKABLE); (bs "ircaway", HT_STACKABLE);
  (bs "account", HT_STACKABLE); (bs "chghost", HT_STACKABLE); (bs "isupport", HT_STACKABLE);
  (bs "out", HT_STACKABLE); (bs "monitor", HT_STACKABLE); (bs "stdreply", HT_STACKABLE);
  (bs "rcvd", HT_STACKABLE); (bs "sent", HT_STACKABLE); (bs "lost", HT_STACKABLE); (bs "tout", HT_STACKABLE);
  (bs "fil", 0); (bs "chanset", HT_STACKABLE); (bs "ccht", HT_STACKABLE); (bs "cmsg", HT_STACKABLE);
  (bs "htgt", HT_STACKABLE); (bs "wspr", HT_STACKABLE); (bs "wspm", HT_STACKABLE); (bs "rmst", HT_STACKABLE);
  (bs "usst", HT_STACKABLE); (bs "usrntc", HT_STACKABLE); (bs "listen", HT_STACKABLE)
  ].

Section Start.
Context {W : Type} (tls : bool) (quote : list Z -> list Z) (C_dcc : list cmd_t).
(** The functions behind the builtins of a table. *)
Context (builtin : list Z -> Z).
Implicit Types s : bstate W.

Fixpoint add_tables (ts : list (list Z * Z)) s : result bfault (bstate W) :=
  match ts with [] => Ok s | (nme, flg) :: ts => let! r := add_bind_table s nme flg 0 in add_tables ts (snd r) end.
Fixpoint set_funcs (ts : list (list Z * Z)) s : result bfault (bstate W) :=
  match ts with
  | [] => Ok s
  | (nme, _) :: ts =>
      let! t := find_bind_table s nme in
      let! tl := get_table s t in
      set_funcs ts (put_table t {| name := name tl; tl_flags := tl_flags tl; func := builtin nme; masks := masks tl; mask_ht := mask_ht tl |} s)
  end.
Definition init_bind (w : W) : result bfault (bstate W) :=
  let s := {| mem_masks := ∅; mem_tables := ∅; fresh := 1; bind_table_vec := []; bind_table_ht := Some (op_htab_create 32);
              tclhash_dirty := false; interp := w |} in
  let! s := add_tables (core_tables tls) s in
  let! s := set_funcs (core_tables tls) s in
  let! s := add_tables module_tables s in
  let! dcc := find_bind_table s (bs "dcc") in
  add_builtins quote dcc C_dcc s.

(** The tables are freed with all that is in them. *)
Fixpoint free_tables (l : list Z) s : result bfault (bstate W) :=
  match l with [] => Ok s | t :: l => let! tl := get_table s t in free_tables l (tcl_bind_list_delete t tl s) end.
Definition kill_bind (dcc : Z) s : result bfault (bstate W) :=
  let! s := rem_builtins quote dcc C_dcc s in
  let! s := free_tables (bind_table_vec s) s in
  Ok (set_tables [] None s).
End Start.

(** Nothing is left. *)
Example started_and_ended :
  let cc := [{| cmd_name := bs "help"; cmd_flags := bs "-"; cmd_funcname := None |}] in
  match init_bind true id cc (fun _ => 7) tt with
  | Ok s =>
      length (bind_table_vec s) = length (core_tables true ++ module_tables) /\
      (let! t := find_bind_table s (bs "dcc") in tcl_getbinds s t (bs "HELP")) = Ok [bs "*dcc:help"] /\
      match kill_bind id cc 1 s with Ok s => mem_masks s = ∅ /\ mem_tables s = ∅ | Err _ => False end
  | Err _ => False
  end.
Proof. vm_compute. repeat split. Qed.

(** ** Events *)

Section Calls.
Context {W : Type} (require_p allow_dk_cmds raw_log : bool) (lim : nat) (h : heads).
Context (Tcl_VarEval : list Z -> bstate W -> list Z -> list Z -> W * list bind_op * tcl_result).
Context (Tcl_SetVar : list Z -> list Z -> W -> W) (Tcl_UnsetVar : list Z -> W -> W).
(** The result of the last procedure. *)
Context (tcl_resultstring : W -> list Z).
Implicit Types s : bstate W.

Definition set_vars (vs : list (list Z * list Z)) s : bstate W := set_interp (fold_left (fun w v => Tcl_SetVar (fst v) (snd v) w) vs (interp s)) s.

(** [check_tcl_bind] with the text of the arguments; at its end the variables are unset. *)
Definition check_bind s (t : Z) (match_ : list Z) (atr : flag_record) (param : list Z) (match_type : Z) : result bfault (Z * bstate W) :=
  if t =? 0 then Ok (BIND_NOMATCH, s)
  else
    let! r := check_tcl_bind require_p allow_dk_cmds (Tcl_VarEval param) match_ atr match_type lim s t in
    let '(x, s) := r in
    Ok (x, set_interp (fold_left (fun w v => Tcl_UnsetVar v w) (variables param) (interp s)) s).

Inductive dcc_said := Ambiguous | NoSuchCommand | Logged | Silent.

(** The flags are those of the user of the connection; 1 to leave the party line. *)
Definition check_tcl_dcc s (cmd nick args : list Z) (sock : Z) (fr : flag_record) : result bfault (Z * dcc_said * bstate W) :=
  let s := set_vars [(bs "_dcc1", nick); (bs "_dcc2", int_to_base10 sock); (bs "_dcc3", args)] s in
  let! r := check_bind s (H_dcc h) cmd fr (bs " $_dcc1 $_dcc2 $_dcc3") (MATCH_PARTIAL ||| BIND_USE_ATTR ||| BIND_HAS_BUILTINS) in
  let '(x, s) := r in
  Ok (if x =? BIND_AMBIGUOUS then (0, Ambiguous, s)
      else if x =? BIND_NOMATCH then (0, NoSuchCommand, s)
      else if x =? BIND_QUIT then (1, Silent, s)
      else if x =? BIND_EXEC_LOG then (0, Logged, s) else (0, Silent, s)).

Definition check_tcl_bot s (nick code param : list Z) : result bfault (bstate W) :=
  let s := set_vars [(bs "_bot1", nick); (bs "_bot2", code); (bs "_bot3", param)] s in
  let! r := check_bind s (H_bot h) code fr_zero (bs " $_bot1 $_bot2 $_bot3") MATCH_EXACT in Ok (snd r).

(** Most events: all the masks that match, and the answer does not matter. *)
Definition mask_event s (t : Z) (vs : list (list Z * list Z)) (match_ : list Z) (atr : flag_record) (param : list Z) (more : Z) : result bfault (Z * bstate W) :=
  check_bind (set_vars vs s) t match_ atr param (MATCH_MASK ||| BIND_STACKABLE ||| more).

Definition check_tcl_chatactbcst s (t : Z) (from text : list Z) (chan : Z) : result bfault (bstate W) :=
  let! r := mask_event s t [(bs "_cab1", from); (bs "_cab2", int_to_base10 chan); (bs "_cab3", text)] text fr_zero (bs " $_cab1 $_cab2 $_cab3") 0 in Ok (snd r).
Definition check_tcl_nkch s (ohand nhand : list Z) : result bfault (bstate W) :=
  let! r := mask_event s (H_nkch h) [(bs "_nkch1", ohand); (bs "_nkch2", nhand)] ohand fr_zero (bs " $_nkch1 $_nkch2") 0 in Ok (snd r).
Definition check_tcl_link s (bot via : list Z) : result bfault (bstate W) :=
  let! r := mask_event s (H_link h) [(bs "_link1", bot); (bs "_link2", via)] bot fr_zero (bs " $_link1 $_link2") 0 in Ok (snd r).
Definition check_tcl_disc s (bot : list Z) : result bfault (bstate W) :=
  let! r := mask_event s (H_disc h) [(bs "_disc1", bot)] bot fr_zero (bs " $_disc1") 0 in Ok (snd r).
Definition check_tcl_loadunld s (t : Z) (mod_ : list Z) : result bfault (bstate W) :=
  let! r := mask_event s t [(bs "_lu1", mod_)] mod_ fr_zero (bs " $_lu1") 0 in Ok (snd r).
Definition check_tcl_die s (reason : list Z) : result bfault (bstate W) :=
  let! r := mask_event s (H_die h) [(bs "_die1", reason)] reason fr_zero (bs " $_die1") 0 in Ok (snd r).

(** What the user is to have said. *)
Definition check_tcl_filt s (sock : Z) (text : list Z) (fr : flag_record) : result bfault (list Z * bstate W) :=
  let! r := mask_event s (H_filt h) [(bs "_filt1", int_to_base10 sock); (bs "_filt2", text)] text fr (bs " $_filt1 $_filt2")
              (BIND_USE_ATTR ||| BIND_WANTRET ||| BIND_ALTER_ARGS) in
  let '(x, s) := r in
  Ok (if (x =? BIND_EXECUTED) || (x =? BIND_EXEC_LOG) then tcl_resultstring (interp s) else text, s).
Definition check_tcl_note s (from to text : list Z) : result bfault (bool * bstate W) :=
  let! r := mask_event s (H_note h) [(bs "_note1", from); (bs "_note2", to); (bs "_note3", text)] to fr_zero (bs " $_note1 $_note2 $_note3") BIND_WANTRET in
  Ok (fst r =? BIND_EXEC_LOG, snd r).
Definition check_tcl_tls s (sock : Z) : result bfault (bool * bstate W) :=
  let! r := mask_event s (H_tls h) [(bs "_tls", int_to_base10 sock)] (int_to_base10 sock) fr_zero (bs " $_tls") BIND_WANTRET in
  Ok (fst r =? BIND_EXEC_LOG, snd r).

Definition check_tcl_listen s (cmd : list Z) (idx : Z) : result bfault (bstate W) :=
  let s := set_vars [(bs "_listen1", cmd); (bs "_listen2", int_to_base10 idx)] s in
  let! t := find_bind_table s (bs "listen") in
  let! r := check_bind s t cmd fr_zero (bs " $_listen1 $_listen2") (MATCH_EXACT ||| BIND_STACKABLE) in Ok (snd r).

(** The flags say what the person is, but nothing asks for them. *)
Definition chjn_flags (type : Z) : flag_record :=
  mk_fr FR_GLOBAL (if type =? ch "*" then USER_OWNER else if type =? ch "+" then USER_MASTER else if type =? ch "@" then USER_OP
                   else if type =? ch "^" then USER_HALFOP else if type =? ch "%" then USER_BOTMAST else 0) 0 0 0 0.
Definition check_tcl_chjn s (bot nick : list Z) (chan type sock : Z) (host : list Z) : result bfault (bstate W) :=
  let! r := mask_event s (H_chjn h)
              [(bs "_chjn1", bot); (bs "_chjn2", nick); (bs "_chjn3", int_to_base10 chan); (bs "_chjn4", if type =? 0 then [] else [type]);
               (bs "_chjn5", int_to_base10 sock); (bs "_chjn6", host)]
              (int_to_base10 chan) (chjn_flags type) (bs " $_chjn1 $_chjn2 $_chjn3 $_chjn4 $_chjn5 $_chjn6") 0 in Ok (snd r).
Definition check_tcl_chpt s (bot hand : list Z) (sock chan : Z) : result bfault (bstate W) :=
  let! r := mask_event s (H_chpt h) [(bs "_chpt1", bot); (bs "_chpt2", hand); (bs "_chpt3", int_to_base10 sock); (bs "_chpt4", int_to_base10 chan)]
              (int_to_base10 chan) fr_zero (bs " $_chpt1 $_chpt2 $_chpt3 $_chpt4") 0 in Ok (snd r).
(** [msg] is [None] for a null pointer. *)
Definition check_tcl_away s (bot : list Z) (idx : Z) (msg : option (list Z)) : result bfault (bstate W) :=
  let! r := mask_event s (H_away h) [(bs "_away1", bot); (bs "_away2", int_to_base10 idx); (bs "_away3", default [] msg)]
              bot fr_zero (bs " $_away1 $_away2 $_away3") 0 in Ok (snd r).
Definition check_tcl_log s (lv : Z) (chan msg : list Z) : result bfault (bstate W) :=
  let! r := mask_event s (H_log h) [(bs "_log1", masktype raw_log lv); (bs "_log2", chan); (bs "_log3", msg)]
              (chan ++ ch " " :: msg) fr_zero (bs " $::_log1 $::_log2 $::_log3") 0 in Ok (snd r).

Definition check_tcl_event s (event : list Z) : result bfault (bstate W) :=
  let! r := check_bind (set_vars [(bs "_event1", event)] s) (H_event h) event fr_zero (bs " $::_event1") (MATCH_EXACT ||| BIND_STACKABLE) in Ok (snd r).
Definition check_tcl_event_arg s (event arg : list Z) : result bfault (bstate W) :=
  let! r := check_bind (set_vars [(bs "_event1", event); (bs "_event2", arg)] s) (H_event h) event fr_zero (bs " $::_event1 $::_event2")
              (MATCH_EXACT ||| BIND_STACKABLE) in Ok (snd r).
Definition check_tcl_signal s (event : list Z) : result bfault (bool * bstate W) :=
  let! r := check_bind (set_vars [(bs "_event1", event)] s) (H_event h) event fr_zero (bs " $::_event1")
              (MATCH_EXACT ||| BIND_STACKABLE ||| BIND_STACKRET) in Ok (fst r =? BIND_EXEC_LOG, snd r).

Definition join_words (ws : list (list Z)) : list Z := match ws with [] => [] | w :: ws => w ++ flat_map (fun v => ch " " :: v) ws end.
Definition time_vars (c : tm) : list (list Z * list Z) :=
  [(bs "_time1", zero_pad 2 (tm_min c)); (bs "_cron1", zero_pad 2 (tm_min c)); (bs "_time2", zero_pad 2 (tm_hour c)); (bs "_cron2", zero_pad 2 (tm_hour c));
   (bs "_time3", zero_pad 2 (tm_mday c)); (bs "_cron3", zero_pad 2 (tm_mday c)); (bs "_time4", zero_pad 2 (tm_mon c)); (bs "_time5", zero_pad 4 (tm_year c + 1900))].
Definition time_text (c : tm) : list Z := join_words [zero_pad 2 (tm_min c); zero_pad 2 (tm_hour c); zero_pad 2 (tm_mday c); zero_pad 2 (tm_mon c); zero_pad 4 (tm_year c + 1900)].
Definition cron_text (c : tm) : list Z := join_words [zero_pad 2 (tm_min c); zero_pad 2 (tm_hour c); zero_pad 2 (tm_mday c); zero_pad 2 (tm_mon c + 1); zero_pad 2 (tm_wday c)].
Definition check_tcl_time_and_cron s (c : tm) : result bfault (bstate W) :=
  let! r := mask_event s (H_time h) (time_vars c) (time_text c) fr_zero (bs " $_time1 $_time2 $_time3 $_time4 $_time5") 0 in
  let s := set_vars [(bs "_cron4", zero_pad 2 (tm_mon c + 1)); (bs "_cron5", zero_pad 2 (tm_wday c))] (snd r) in
  let! r := check_bind s (H_cron h) (cron_text c) fr_zero (bs " $_cron1 $_cron2 $_cron3 $_cron4 $_cron5") (MATCH_CRON ||| BIND_STACKABLE) in
  Ok (snd r).
End Calls.

(** ** A minute of the clock *)

(** Procedures that write down their name; the variables are not kept. *)
Definition noted (param : list Z) (s : bstate (list (list Z))) (p m : list Z) : list (list Z) * list bind_op * tcl_result :=
  (interp s ++ [p], [], {| tcl_code := TCL_OK; tcl_resultstring := []; tcl_resultint := 0; tcl_resultempty := true |}).
Definition minute (ops : list bind_op) : result bfault (list (list Z)) :=
  let! s := init_bind false id [] (fun _ => 0) [] in
  let! s := do_bind_ops ops s in
  let! t := find_bind_table s (bs "time") in
  let! c := find_bind_table s (bs "cron") in
  let h := {| H_dcc := 0; H_bot := 0; H_nkch := 0; H_link := 0; H_disc := 0; H_filt := 0; H_note := 0; H_chjn := 0; H_chpt := 0; H_away := 0;
              H_time := t; H_cron := c; H_event := 0; H_die := 0; H_log := 0; H_tls := 0 |} in
  let! s := check_tcl_time_and_cron false false 20 h noted (fun _ _ w => w) (fun _ w => w) s
              {| tm_min := 5; tm_hour := 10; tm_mday := 1; tm_mon := 1; tm_year := 126; tm_wday := 0 |} in
  Ok (interp s).

Example time_bind_runs : minute [TclBind 0 [bs "time"; bs "-"; bs "05 * * * *"; bs "at_five"]] = Ok [bs "at_five"].
Proof. vm_compute. reflexivity. Qed.
(** The bot ends at the first minute for which it has exactly one procedure. *)
Example single_cron_bind_faults : minute [TclBind 0 [bs "cron"; bs "-"; bs "5 * * * *"; bs "at_five"]] = Err NullCommand.
Proof. vm_compute. reflexivity. Qed.
